(* ===== verification/_CoqProject ===== *)
-Q . S2P
Prelude.v
RustStr.v
Net.v
NetProps.v
Util.v
Sniff.v
SniffProps.v
RustFmt.v
Frame.v
IngressFrame.v
IngressProps.v
RelayConfig.v
Relay.v
RelayProps.v
ReverseFrame.v
ReverseUdp.v
Stream.v
Tuic.v
Replay.v
Wire.v
Session.v
SubnetraConfig.v
Peer.v
Reactor.v
Pump.v
Trie.v
Domain.v
Policy.v
Rab.v
RabCodec.v
RabValid.v
Search.v
Book.v
BookProps.v
BTree.v
Export.v
Builder.v
SweepProps.v
BuilderProps.v
BuilderOps.v
BookBuild.v
Model.v
ModelProps.v
Engine.v
ReverseEdge.v
Cache.v
Service.v
Sync.v
Health.v
Io.v
Conn.v
ConnectorConfig.v
Connector.v
ConnectorProps.v
IngressPath.v
Outbound.v
Handler.v
ReverseHop.v
HttpRequest.v
HttpBody.v
Inbound.v
Socks5.v
Http.v
HttpProps.v
Sni.v
Socks5Udp.v
TuicServer.v
TuicServerProps.v
HopProxy.v
HopProxyProps.v
Stats.v
AccessLog.v
Diagnostics.v
Mqtt.v
Sources.v
ConfigFile.v
Listener.v
Daemon.v
EgressDoctor.v
HopCli.v
