(* ===== verification/Prelude.v ===== *)
(** * Rove: a verification library

    Rove is a policy-driven proxy node. It takes a snapshot of users, routing
    policies and egresses from a control plane, accepts SOCKS5, HTTP, SNI and
    TUIC clients, decides per connection where the traffic leaves the node, and
    joins an encrypted overlay network (Subnetra). This library models its core
    and proves the theorems that make it correct. The sources are under src/src/.

    ** The parts and how they interact

    - Control plane to decisions: [sync/mod.rs] polls for a snapshot document,
      [model.rs] compiles it against the installed address book (fail closed),
      [policy/] indexes its rules, [engine.rs] serves it to the handlers and
      counts connections per user, [health.rs] reports readiness.
    - Address book: [addrbook/builder.rs] turns source lines into a book,
      [addrbook/format.rs] is its artifact, [addrbook/book.rs] answers which
      categories a host is in, [addrbook/mod.rs] reloads it.
    - The process: [main.rs] loads [config.rs], starts every part in order and
      supervises the listeners; [inbound/listener.rs] binds, terminates TLS with
      [tls.rs] and hands a connection to its handler. [src/bin/rove-hop.rs] is the
      standalone hop.
    - Inbound to outbound: a handler ([inbound/socks5.rs], [socks5_udp.rs],
      [http.rs], [sni.rs], [tuic/mod.rs]) reads the client's protocol,
      authenticates with the engine, asks for a decision, possibly after
      [sniff.rs] has classified the first bytes, opens the egress with
      [outbound/mod.rs] and [resolver.rs], and relays with [io.rs].
    - Node to node: a hop dials an edge ([reverse/hop.rs], [edge.rs], [udp.rs])
      and serves its tunnels; a connector registers with a relay
      ([ingress/connector.rs], [relay.rs]) which leases it ports; the framings are
      [reverse/frame.rs] and [ingress/frame.rs], [inbound/tuic/codec.rs] is that of
      TUIC, [proxy/mod.rs] the hop's own listeners.
    - Observation: [stats.rs] counts, [access_log.rs] records, [diagnostics.rs] and
      [trace.rs] follow chosen users, [mqtt.rs] and [hop_mqtt.rs] are the remote
      command channels, [egress_diagnostic.rs] tests an egress on demand.
    - Overlay: [subnetra/]: replay window, datagram crypto, sessions, peers, the
      reactor task and the pump to the host device.

    ** Files

    Foundations.
    - Prelude: results, the tactics and hint databases, lemmas on lists, options
      and machine integers. RustStr, RustFmt: strings, [Display] and text
      helpers of the Rust standard library. Net, NetProps: [IpAddr] and its
      parser; the crate ipnet as the classes [Ipnet] and [IpnetLaws]. Search,
      BTree: slice searches and ordered maps. Util: src/src/util.rs. Stream,
      Conn, Handler: scripted byte streams, a connection, and the monad of the
      inbound handlers with its log of actions.

    Overlay.
    - Replay ([subnetra/replay.rs]), Wire ([crypto.rs], [wire.rs]), Session
      ([session.rs]), SubnetraConfig ([config.rs]), Peer ([peer.rs]), Reactor
      ([reactor.rs]), Pump ([device/mod.rs]).

    Policy and address book.
    - Trie, Domain, Policy ([policy/]); Rab, RabCodec, RabValid ([format.rs]);
      Book, BookProps ([book.rs]); Builder, SweepProps, BuilderProps, BuilderOps,
      BookBuild ([builder.rs]); Export ([export.rs]); Sources ([sources.rs]);
      Service ([addrbook/mod.rs]).

    Control.
    - Model, ModelProps ([model.rs]), Engine ([engine.rs], [error.rs]), Cache,
      Sync ([sync/mod.rs]), Health ([health.rs]), ConfigFile ([config.rs],
      [tls.rs], the set-up of [resolver.rs]), Daemon ([main.rs],
      [subnetra/service.rs]), HopCli ([src/bin/rove-hop.rs]).

    Data plane.
    - Sniff, SniffProps ([sniff.rs]); Frame, the line framing; Tuic
      ([inbound/tuic/codec.rs]); Io ([io.rs]); Outbound ([outbound/mod.rs],
      [resolver.rs]); Listener ([inbound/listener.rs] and the accept loops);
      Inbound, what the handlers do alike; Socks5 ([socks5.rs]), Socks5Udp
      ([socks5_udp.rs]), HttpRequest, HttpBody, Http, HttpProps ([http.rs]), Sni
      ([sni.rs]), TuicServer, TuicServerProps ([tuic/mod.rs]), HopProxy,
      HopProxyProps ([proxy/mod.rs]).

    Between nodes.
    - ReverseFrame, ReverseUdp, ReverseHop, ReverseEdge ([reverse/]); IngressFrame,
      IngressProps, RelayConfig, Relay, RelayProps, ConnectorConfig, Connector,
      ConnectorProps ([ingress/]); IngressPath, connector and relay together.

    Observation.
    - Stats ([stats.rs]), AccessLog ([access_log.rs]), Diagnostics
      ([diagnostics.rs], [trace.rs]), Mqtt ([mqtt.rs], [hop_mqtt.rs]),
      EgressDoctor ([egress_diagnostic.rs]).

    A definition has the name of the function, method or type it models, with the
    type's name first for a method ([RxSession_accept] is [RxSession::accept]).
    State is a record passed and returned; [&mut self] methods return the new
    state, also with an error when the code has changed it by then. [Result] is
    [result], one error constructor per failing site; error texts and log lines
    are left out or reduced to their constant part. Machine integers are [Z] with
    the width written out, and wrapping, saturating or checked arithmetic as the
    source has it. Strings are their bytes.

    Interleaving is explicit: the parts with concurrent tasks (reactor, pump,
    engine, syncer, observer, relay, connector, reverse edge and hop, UDP
    associations, TUIC connections, access log, MQTT clients, supervisor) are
    step functions over events, and their theorems are about every sequence of
    events. What a socket, a file system or a peer does
    is an input of the step: a script of reads and writes of any fragmentation
    with failures at any point.

    ** What the theorems show

    - Overlay: the 64-bit window refines the set of accepted numbers; sessions
      accept nothing twice, are not moved by forgeries and deliver what the other
      side seals; nonces are unique until the counter saturates; the peer table
      hands out only authenticated packets from allowed sources; the pump
      forwards only admissible packets.
    - Address book and policy: the artifact round-trips and decoding is sound; a
      built book holds exactly what its source lines say; a compiled rule set
      means what its rules and book say, and the index is the naive first match.
    - Control: compiled snapshots are closed and validated; decisions refine the
      declared reading of a policy; what is served is always the compilation of
      the last accepted document, failures change nothing, versions grow, polling
      backs off within bounds and recovers; the cache is replaced atomically;
      permits are counted exactly; readiness answers are exact.
    - Data plane: readers and codecs are functions of the bytes, not of their
      fragmentation, and invert the encoders; the classifier reports canonical
      names within its limits and ends; a forwarded HTTP request reads at the
      origin as the one that was meant, with the same body framing; chains fail over in priority order within
      their budgets; an established stream leaves as the decision says; the
      handlers dial only for an authenticated user under that user's permit.
      The UDP association, the SNI gateway and TUIC connections keep the same
      promise for what they relay.
    - Between nodes: a reverse tunnel connects exactly the target that was asked
      for, over any fragmentation; the edge lists only authenticated hops and
      counts its permits exactly; a relay's sessions, leases and limits are
      consistent in every interleaving, and a connector obtains exactly what the
      relay grants; an edge's SOCKS5 egress and the hop proxy carry a tunnel end
      to end.
    - The process: what [Config::load] accepts is stated exactly and starts; a
      failed start has served nothing; the readiness gauge counts the running
      listeners and an unexpected end is never lost; a hop's listener never has
      credentials its operator did not give.
    - Observation: gauges are the number of open connections; a log record is
      written once, queued or counted as dropped; replies go only under the
      configured prefix and reveal no credential.

    ** Parameters, bounds and fuel

    Third-party code is a parameter of the definitions that use it, with the laws
    the code relies on as a class: [CryptoPrims]/[CryptoLaws] (BLAKE2b,
    ChaCha20-Poly1305), SHA-256 in Rab, [Ipnet]/[IpnetLaws], [Rustls], [Httparse],
    [UrlCrate], the TLS exporter, the JSON decoder. Concrete instances make the
    witnesses. Loops over streams recurse on the script, which is finite; where a
    loop takes fuel, it is the length of the data it consumes plus one, and a
    lemma shows that no run exhausts it. Searches halve an interval and take its
    size as fuel.

    ** Not modelled

    [subnetra/netstack/] joins smoltcp's sockets to asynchronous streams: what it
    does is governed by that library's TCP state machine. [subnetra/device/tun.rs]
    and [mem.rs] are pure I/O. [src/bin/rove-abctl.rs], [src/bin/rove-relay.rs] and
    [snapshot_validator.rs] are command lines around modelled parts.
    [reverse/mod.rs] and [ingress/mod.rs] fill in the transport settings of the
    QUIC library. In the modelled files: JSON and TOML decoding by serde, the
    floating-point token bucket of [io.rs], log lines and usage texts are left
    out; timing is an input of the step it triggers. The examples and benchmarks
    of the repository are not modelled. *)

From Stdlib Require Import ZArith Lia.
From stdpp Require Import prelude gmap strings list sorting.

Open Scope Z_scope.

(** ** Scope and shared tactics *)

Declare Scope rove_scope.
Delimit Scope rove_scope with rove.
Open Scope rove_scope.

Create HintDb rove.
Create Rewrite HintDb rove.

(** ** Results: [Result<T, E>] with one error constructor per failing site *)

Inductive result (E A : Type) : Type :=
| Ok (a : A)
| Err (e : E).
Arguments Ok {E A} a.
Arguments Err {E A} e.

#[global] Instance result_ret {E} : MRet (result E) := fun A a => Ok a.
#[global] Instance result_bind {E} : MBind (result E) :=
  fun A B k m => match m with Ok a => k a | Err e => Err e end.

(** [anyhow::ensure!(b, e)] *)
Definition ensure {E} (b : bool) (e : E) : result E unit :=
  if b then Ok tt else Err e.

(** [option.ok_or(e)] / [.context(e)] *)
Definition ok_or {E A} (o : option A) (e : E) : result E A :=
  match o with Some a => Ok a | None => Err e end.

(** [r.map_err(f)] *)
Definition map_err {E F A} (f : E -> F) (r : result E A) : result F A :=
  match r with Ok a => Ok a | Err e => Err (f e) end.

(** [r.is_ok()] *)
Definition is_ok {E A} (r : result E A) : bool :=
  match r with Ok _ => true | Err _ => false end.

(** [r.unwrap_or(d)] *)
Definition unwrap_or {E A} (r : result E A) (d : A) : A := match r with Ok a => a | Err _ => d end.

Lemma Ok_unwrap_or {E A} (r : result E A) d : is_ok r = true -> r = Ok (unwrap_or r d).
Proof. by destruct r. Qed.

Lemma Ok_inj {E A} (a b : A) : @Ok E A a = Ok b -> a = b.
Proof. by intros [=]. Qed.

Lemma bind_Ok {E A B} (m : result E A) (k : A -> result E B) b :
  m ≫= k = Ok b <-> exists a, m = Ok a /\ k a = Ok b.
Proof. destruct m; simpl; naive_solver. Qed.

Lemma ensure_Ok {E} b (e : E) u : ensure b e = Ok u <-> b = true.
Proof. destruct b, u; simpl; split; congruence. Qed.

Lemma ok_or_Ok {E A} (o : option A) (e : E) a : ok_or o e = Ok a <-> o = Some a.
Proof. destruct o; simpl; naive_solver. Qed.

Lemma map_err_Ok {E F A} (f : E -> F) (r : result E A) a :
  map_err f r = Ok a <-> r = Ok a.
Proof. destruct r; simpl; naive_solver. Qed.

(** Sequencing over a list: [for x in l { acc = f(acc, x)?; }]. *)
Fixpoint try_fold {E A S} (f : S -> A -> result E S) (s : S) (l : list A) : result E S :=
  match l with
  | [] => Ok s
  | x :: l => s' ← f s x; try_fold f s' l
  end.

(** [l.into_iter().map(f).collect::<Result<Vec<_>, _>>()] as a loop of pushes. *)
Fixpoint try_map {E A B} (f : A -> result E B) (l : list A) : result E (list B) :=
  match l with
  | [] => Ok []
  | x :: l => y ← f x; ys ← try_map f l; Ok (y :: ys)
  end.

Lemma try_map_Forall2 {E A B} (f : A -> result E B) l r :
  try_map f l = Ok r <-> Forall2 (fun x y => f x = Ok y) l r.
Proof.
  revert r; induction l as [|x l IH]; intros r; simpl.
  - split; [intros [=<-]; constructor | inversion 1; done].
  - rewrite bind_Ok. setoid_rewrite bind_Ok. split.
    + intros (y & Hy & ys & Hys & [= <-]). constructor; [done|by apply IH].
    + inversion 1; subst. eexists; split; [done|]. eexists; split; [by apply IH|done].
Qed.

(** Peel a successful monadic computation in a hypothesis into its steps. *)
Ltac res_step :=
  match goal with
  | H : (_ ≫= _) = Ok _ |- _ =>
      let a := fresh "v" in let Ha := fresh "Hv" in
      apply bind_Ok in H as (a & Ha & H)
  | H : ensure _ _ = Ok _ |- _ => apply ensure_Ok in H
  | H : ok_or _ _ = Ok _ |- _ => apply ok_or_Ok in H
  | H : map_err _ _ = Ok _ |- _ => apply map_err_Ok in H
  | H : mret _ = Ok _ |- _ => apply Ok_inj in H; try discriminate H
  | H : Ok _ = Ok _ |- _ => apply Ok_inj in H; try discriminate H
  | H : Err _ = Ok _ |- _ => discriminate H
  | H : (let '(_, _) := ?x in _) = Ok _ |- _ => is_var x; destruct x
  | H : Ok _ = Err _ |- _ => discriminate H
  end.
Ltac res_inv := repeat (res_step; cbn beta in *; subst).

(** Reflect the boolean connectives and comparisons of the code's conditions. *)
Ltac bool_step :=
  match goal with
  | H : _ && _ = true |- _ => apply andb_true_iff in H as [? ?]
  | H : _ || _ = false |- _ => apply orb_false_iff in H as [? ?]
  | H : negb _ = true |- _ => apply negb_true_iff in H
  | H : negb _ = false |- _ => apply negb_false_iff in H
  | H : (_ =? _)%Z = true |- _ => apply Z.eqb_eq in H
  | H : (_ =? _)%Z = false |- _ => apply Z.eqb_neq in H
  | H : (_ <? _)%Z = true |- _ => apply Z.ltb_lt in H
  | H : (_ <? _)%Z = false |- _ => apply Z.ltb_ge in H
  | H : (_ <=? _)%Z = true |- _ => apply Z.leb_le in H
  | H : (_ <=? _)%Z = false |- _ => apply Z.leb_gt in H
  | H : bool_decide _ = true |- _ => apply bool_decide_eq_true in H
  | H : bool_decide _ = false |- _ => apply bool_decide_eq_false in H
  end.
Ltac bools := repeat bool_step.

(** ** Machine integers

    A [w]-bit unsigned integer is a [Z]; [usize] is 64 bits wide. *)

Definition u8_max : Z := 2 ^ 8 - 1.
Definition u16_max : Z := 2 ^ 16 - 1.
Definition u32_max : Z := 2 ^ 32 - 1.
Definition u64_max : Z := 2 ^ 64 - 1.
Definition u128_max : Z := 2 ^ 128 - 1.
Definition usize_max : Z := u64_max.

Definition fits (w x : Z) : Prop := 0 <= x < 2 ^ w.
Definition fitsb (w x : Z) : bool := (0 <=? x) && (x <? 2 ^ w).
Definition wrap (w x : Z) : Z := x mod 2 ^ w.

#[global] Arguments fitsb : simpl never.

Lemma fitsb_spec w x : fitsb w x = true <-> fits w x.
Proof. unfold fitsb, fits. rewrite andb_true_iff, Z.leb_le, Z.ltb_lt. done. Qed.

#[global] Instance fits_dec w x : Decision (fits w x).
Proof. unfold fits. apply _. Defined.

Lemma wrap_fits w x : fits w x -> wrap w x = x.
Proof. intros. apply Z.mod_small. done. Qed.

Lemma wrap_range w x : 0 <= w -> fits w (wrap w x).
Proof. intros. apply Z.mod_pos_bound. lia. Qed.

(** [a.checked_add(b)], [a.checked_mul(b)], [a.saturating_add(b)] and
    [uN::try_from(x)] at width [w]. *)
Definition checked_add (w a b : Z) : option Z :=
  if a + b <? 2 ^ w then Some (a + b) else None.
Definition checked_mul (w a b : Z) : option Z :=
  if a * b <? 2 ^ w then Some (a * b) else None.
Definition saturating_add (w a b : Z) : Z := Z.min (a + b) (2 ^ w - 1).
Definition try_from (w x : Z) : option Z :=
  if fitsb w x then Some x else None.

Lemma checked_add_Some w a b c :
  checked_add w a b = Some c <-> c = a + b /\ a + b < 2 ^ w.
Proof. unfold checked_add. destruct (Z.ltb_spec (a + b) (2 ^ w)); naive_solver lia. Qed.
Lemma checked_mul_Some w a b c :
  checked_mul w a b = Some c <-> c = a * b /\ a * b < 2 ^ w.
Proof. unfold checked_mul. destruct (Z.ltb_spec (a * b) (2 ^ w)); naive_solver lia. Qed.
Lemma try_from_Some w x y : try_from w x = Some y <-> y = x /\ fits w x.
Proof.
  unfold try_from. destruct (fitsb w x) eqn:E.
  - apply fitsb_spec in E. naive_solver.
  - split; [done|]. intros [_ H]. apply fitsb_spec in H. congruence.
Qed.

(** ** Bytes *)

Abbreviation byte_ok := (fits 8).
Abbreviation bytes_ok := (Forall (fits 8)).

(** [x.to_le_bytes()] of an [n]-byte integer, and [from_le_bytes]. *)
Fixpoint to_le_bytes (n : nat) (x : Z) : list Z :=
  match n with
  | O => []
  | S n => Z.land x 255 :: to_le_bytes n (Z.shiftr x 8)
  end.
Fixpoint from_le_bytes (bs : list Z) : Z :=
  match bs with
  | [] => 0
  | b :: bs => b + 256 * from_le_bytes bs
  end.
Definition to_be_bytes (n : nat) (x : Z) : list Z := rev (to_le_bytes n x).
Definition from_be_bytes (bs : list Z) : Z := from_le_bytes (rev bs).

Lemma land_255 x : Z.land x 255 = x mod 256.
Proof. change 255 with (Z.ones 8). rewrite Z.land_ones by lia. done. Qed.

Lemma length_to_le_bytes n x : length (to_le_bytes n x) = n.
Proof. revert x; induction n; simpl; auto. Qed.
Lemma length_to_be_bytes n x : length (to_be_bytes n x) = n.
Proof. unfold to_be_bytes. rewrite length_rev. apply length_to_le_bytes. Qed.

Lemma to_le_bytes_ok n x : bytes_ok (to_le_bytes n x).
Proof.
  revert x; induction n as [|n IH]; intros x; simpl; constructor; auto.
  rewrite land_255. unfold fits. pose proof (Z.mod_pos_bound x 256). lia.
Qed.
Lemma to_be_bytes_ok n x : bytes_ok (to_be_bytes n x).
Proof. unfold to_be_bytes. apply Forall_rev, to_le_bytes_ok. Qed.

Lemma pow_8_S n : 2 ^ (8 * Z.of_nat (S n)) = 256 * 2 ^ (8 * Z.of_nat n).
Proof.
  replace (8 * Z.of_nat (S n)) with (8 + 8 * Z.of_nat n) by lia.
  rewrite Z.pow_add_r by lia. done.
Qed.

Lemma from_to_le_bytes n x :
  fits (8 * Z.of_nat n) x -> from_le_bytes (to_le_bytes n x) = x.
Proof.
  unfold fits. revert x; induction n as [|n IH]; intros x Hx; simpl.
  - change (2 ^ (8 * Z.of_nat 0)) with 1 in Hx. lia.
  - rewrite pow_8_S in Hx.
    rewrite land_255, Z.shiftr_div_pow2 by lia. change (2 ^ 8) with 256.
    rewrite IH.
    + rewrite Z.add_comm, <- Z.div_mod; lia.
    + split; [apply Z.div_pos; lia|]. apply Z.div_lt_upper_bound; lia.
Qed.
Lemma from_to_be_bytes n x :
  fits (8 * Z.of_nat n) x -> from_be_bytes (to_be_bytes n x) = x.
Proof.
  unfold from_be_bytes, to_be_bytes. rewrite rev_involutive. apply from_to_le_bytes.
Qed.

Lemma from_le_bytes_fits bs :
  bytes_ok bs -> fits (8 * Z.of_nat (length bs)) (from_le_bytes bs).
Proof.
  unfold fits. induction 1 as [|b bs Hb _ IH]; simpl length; simpl from_le_bytes.
  - change (2 ^ (8 * Z.of_nat 0)) with 1. lia.
  - rewrite pow_8_S. unfold fits in Hb. change (2 ^ 8) with 256 in Hb. lia.
Qed.
Lemma from_be_bytes_fits bs :
  bytes_ok bs -> fits (8 * Z.of_nat (length bs)) (from_be_bytes bs).
Proof.
  intros H. unfold from_be_bytes. rewrite <- length_rev.
  by apply from_le_bytes_fits, Forall_rev.
Qed.

Lemma to_from_le_bytes bs :
  bytes_ok bs -> to_le_bytes (length bs) (from_le_bytes bs) = bs.
Proof.
  induction 1 as [|b bs Hb _ IH]; simpl; [done|].
  unfold fits in Hb. change (2 ^ 8) with 256 in Hb.
  rewrite land_255, Z.shiftr_div_pow2 by lia. change (2 ^ 8) with 256.
  replace ((b + 256 * from_le_bytes bs) mod 256) with b.
  2: { rewrite Z.add_comm, Z.mul_comm, Z.add_comm, Z.mod_add, Z.mod_small; lia. }
  replace ((b + 256 * from_le_bytes bs) / 256) with (from_le_bytes bs).
  2: { rewrite Z.mul_comm, Z.div_add, Z.div_small; lia. }
  by rewrite IH.
Qed.
Lemma to_from_be_bytes bs :
  bytes_ok bs -> to_be_bytes (length bs) (from_be_bytes bs) = bs.
Proof.
  intros H. unfold to_be_bytes, from_be_bytes.
  rewrite <- (length_rev bs), to_from_le_bytes by by apply Forall_rev.
  apply rev_involutive.
Qed.

#[global] Arguments to_le_bytes : simpl never.
#[global] Arguments from_le_bytes : simpl never.

#[export] Hint Resolve to_le_bytes_ok to_be_bytes_ok : rove.
#[export] Hint Rewrite length_to_le_bytes length_to_be_bytes : rove.

(** Bitwise facts on one-bit masks. *)
Lemma testbit_pow2 n i : 0 <= n -> 0 <= i -> Z.testbit (2 ^ n) i = (n =? i).
Proof.
  intros. destruct (Z.eqb_spec n i) as [->|].
  - by rewrite Z.pow2_bits_true.
  - by rewrite Z.pow2_bits_false.
Qed.

Lemma land_pow2_testbit x n : 0 <= n -> (Z.land x (2 ^ n) =? 0) = negb (Z.testbit x n).
Proof.
  intros Hn. destruct (Z.testbit x n) eqn:E; simpl.
  - apply Z.eqb_neq. intros H0.
    assert (Z.testbit (Z.land x (2 ^ n)) n = true) as H1.
    { by rewrite Z.land_spec, E, testbit_pow2, Z.eqb_refl. }
    by rewrite H0, Z.bits_0 in H1.
  - apply Z.eqb_eq. apply Z.bits_inj'. intros i Hi.
    rewrite Z.land_spec, Z.bits_0, testbit_pow2 by lia.
    destruct (Z.eqb_spec n i) as [->|]; [by rewrite E|apply andb_false_r].
Qed.

Lemma testbit_above w x i : 0 <= w -> fits w x -> w <= i -> Z.testbit x i = false.
Proof.
  unfold fits. intros Hw Hx Hi. destruct (decide (x = 0)) as [->|]; [apply Z.bits_0|].
  apply Z.bits_above_log2; [lia|]. apply Z.log2_lt_pow2; [lia|].
  apply Z.lt_le_trans with (2 ^ w); [lia|]. apply Z.pow_le_mono_r; lia.
Qed.

Lemma fits_lor b m : fits 64 b -> fits 64 m -> fits 64 (Z.lor b m).
Proof.
  intros Hb Hm. split; [apply Z.lor_nonneg; unfold fits in *; lia|].
  destruct (Z.eq_dec (Z.lor b m) 0) as [->|Hne]; [done|].
  assert (0 <= Z.lor b m) by (apply Z.lor_nonneg; unfold fits in *; lia).
  apply Z.log2_lt_pow2; [lia|]. rewrite Z.log2_lor by (unfold fits in *; lia).
  unfold fits in *. apply Z.max_lub_lt.
  - destruct (Z.eq_dec b 0) as [->|]; [simpl; lia|]. apply Z.log2_lt_pow2; lia.
  - destruct (Z.eq_dec m 0) as [->|]; [simpl; lia|]. apply Z.log2_lt_pow2; lia.
Qed.

(** Two words with a common bit. *)
Lemma land_nonzero w x y :
  0 <= w -> fits w x -> 0 <= y ->
  Z.land x y <> 0 <-> exists i, 0 <= i < w /\ Z.testbit x i = true /\ Z.testbit y i = true.
Proof.
  intros Hw Hx Hy. assert (0 <= Z.land x y) by (apply Z.land_nonneg; left; apply Hx). split.
  - intros Hne. exists (Z.log2 (Z.land x y)). pose proof (Z.bit_log2 (Z.land x y) ltac:(lia)) as Hb.
    rewrite Z.land_spec in Hb. apply andb_true_iff in Hb as [Hbx Hby].
    split; [|done]. split; [apply Z.log2_nonneg|].
    destruct (Z.le_gt_cases w (Z.log2 (Z.land x y))); [|done].
    by rewrite (testbit_above w) in Hbx.
  - intros (i & Hi & Hbx & Hby) H0. assert (Z.testbit (Z.land x y) i = true) as Ht.
    { by rewrite Z.land_spec, Hbx, Hby. }
    by rewrite H0, Z.bits_0 in Ht.
Qed.

(** ** List helpers *)

Lemma take_app_len {A} (l k : list A) n : length l = n -> take n (l ++ k) = l.
Proof. intros <-. apply take_app_length. Qed.
Lemma drop_app_len {A} (l k : list A) n : length l = n -> drop n (l ++ k) = k.
Proof. intros <-. apply drop_app_length. Qed.

(** [l.iter().enumerate()] from index [i]. *)
Fixpoint enumerate_from {A} (i : nat) (l : list A) : list (nat * A) :=
  match l with
  | [] => []
  | x :: l => (i, x) :: enumerate_from (S i) l
  end.
Abbreviation enumerate := (enumerate_from 0).

Lemma elem_of_enumerate_from {A} (l : list A) i j x :
  (j, x) ∈ enumerate_from i l <-> (i <= j)%nat /\ l !! (j - i)%nat = Some x.
Proof.
  revert i; induction l as [|y l IH]; intros i; simpl.
  - rewrite elem_of_nil. naive_solver.
  - rewrite elem_of_cons, IH. split.
    + intros [[= -> ->]|[Hle Hl]].
      * split; [lia|]. by rewrite Nat.sub_diag.
      * split; [lia|]. replace (j - i)%nat with (S (j - S i)) by lia. done.
    + intros [Hle Hl]. destruct (decide (j = i)) as [->|].
      * rewrite Nat.sub_diag in Hl. naive_solver.
      * right. split; [lia|]. by replace (j - i)%nat with (S (j - S i)) in Hl by lia.
Qed.

Lemma enumerate_length {A} (l : list A) i : length (enumerate_from i l) = length l.
Proof. revert i; induction l; simpl; auto. Qed.

(** ** Counting the values of a map *)

Definition count {A} (f : A -> bool) (m : gmap Z A) : Z := Z.of_nat (size (filter (fun kv : Z * A => f kv.2 = true) m)).
Lemma count_insert {A} (f : A -> bool) m op h : m !! op = None -> count f (<[op := h]> m) = count f m + (if f h then 1 else 0).
Proof.
  intros Hn. unfold count. destruct (f h) eqn:E.
  - rewrite map_filter_insert_True by done. rewrite map_size_insert_None; [lia|]. apply map_lookup_filter_None. by left.
  - rewrite map_filter_insert_False by (cbn; by rewrite E). rewrite delete_id by done. lia.
Qed.
Lemma count_delete {A} (f : A -> bool) m op h : m !! op = Some h -> count f (delete op m) = count f m - (if f h then 1 else 0).
Proof.
  intros Hs. assert (m = <[op := h]> (delete op m)) as E by by rewrite insert_delete_id.
  rewrite E at 2. rewrite count_insert by by rewrite lookup_delete_eq. lia.
Qed.
Lemma count_replace {A} (f : A -> bool) m op h h' : m !! op = Some h ->
  count f (<[op := h']> m) = count f m - (if f h then 1 else 0) + (if f h' then 1 else 0).
Proof.
  intros Hs. rewrite <- insert_delete_eq. rewrite count_insert by by rewrite lookup_delete_eq. by rewrite (count_delete f m op h).
Qed.
Lemma count_nonneg {A} (f : A -> bool) m : 0 <= count f m.
Proof. unfold count. lia. Qed.
Lemma count_zero {A} (f : A -> bool) (m : gmap Z A) : (forall i x, m !! i = Some x -> f x = false) -> count f m = 0.
Proof.
  intros Hf. unfold count. rewrite map_empty_filter_2; [by rewrite map_size_empty|]. intros i x Hx. cbn. by rewrite (Hf i x Hx).
Qed.
Lemma count_le {A} (f : A -> bool) (m : gmap Z A) : count f m <= Z.of_nat (size m).
Proof. unfold count. pose proof (map_size_filter (fun kv : Z * A => f kv.2 = true) m). lia. Qed.
