(* ===== verification/RustStr.v ===== *)
(** * RustStr: the string operations of the Rust standard library the code uses

    A [&str] is its UTF-8 bytes, a [list Z] of values below 256. The operations
    below are those of [core::str]: comparison is byte-wise, ASCII patterns are
    byte-wise, and [trim] strips the UTF-8 encodings of the Unicode White_Space
    characters. *)

From Stdlib Require Import ZArith Lia Ascii String.
From stdpp Require Import prelude gmap strings list sorting.
From S2P Require Import Prelude.

Abbreviation str := (list Z).

(** A string literal as bytes. *)
Definition lit (s : string) : str :=
  map (fun a => Z.of_N (N_of_ascii a)) (list_ascii_of_string s).
Arguments lit _%_string.

Definition dot : Z := 46.
Definition slash : Z := 47.
Definition colon : Z := 58.

Definition is_empty {A} (l : list A) : bool :=
  match l with [] => true | _ => false end.
Lemma is_empty_true {A} (l : list A) : is_empty l = true <-> l = [].
Proof. destruct l; simpl; split; congruence. Qed.
Lemma is_empty_false {A} (l : list A) : is_empty l = false <-> l <> [].
Proof. destruct l; simpl; split; congruence. Qed.

(** Decidable equality as a boolean. *)
Definition str_eqb (a b : str) : bool := bool_decide (a = b).
Lemma str_eqb_eq a b : str_eqb a b = true <-> a = b.
Proof. apply bool_decide_eq_true. Qed.
Lemma str_eqb_neq a b : str_eqb a b = false <-> a <> b.
Proof. apply bool_decide_eq_false. Qed.
Lemma str_eqb_refl a : str_eqb a a = true.
Proof. by apply str_eqb_eq. Qed.

(** ** Comparison: [<str as Ord>::cmp] *)

Fixpoint str_cmp (a b : str) : comparison :=
  match a, b with
  | [], [] => Eq
  | [], _ :: _ => Lt
  | _ :: _, [] => Gt
  | x :: a, y :: b => match x ?= y with Eq => str_cmp a b | c => c end
  end.
Definition str_ltb (a b : str) : bool :=
  match str_cmp a b with Lt => true | _ => false end.
Definition str_lt (a b : str) : Prop := str_cmp a b = Lt.

Lemma str_ltb_lt a b : str_ltb a b = true <-> str_lt a b.
Proof. unfold str_ltb, str_lt. destruct (str_cmp a b); split; congruence. Qed.

Lemma str_cmp_refl a : str_cmp a a = Eq.
Proof. induction a; simpl; [done|]. by rewrite Z.compare_refl. Qed.
Lemma str_cmp_eq a b : str_cmp a b = Eq <-> a = b.
Proof.
  split; [|intros ->; apply str_cmp_refl].
  revert b; induction a as [|x a IH]; intros [|y b]; simpl; try done.
  destruct (Z.compare_spec x y); try done. intros. f_equal; auto.
Qed.
Lemma str_cmp_antisym a b : str_cmp b a = CompOpp (str_cmp a b).
Proof.
  revert b; induction a as [|x a IH]; intros [|y b]; simpl; try done.
  rewrite (Z.compare_antisym x y). destruct (x ?= y) eqn:E; simpl; auto.
Qed.
Lemma str_lt_trans a b c : str_lt a b -> str_lt b c -> str_lt a c.
Proof.
  unfold str_lt. revert b c; induction a as [|x a IH]; intros [|y b] [|z c]; simpl; try done.
  destruct (Z.compare_spec x y), (Z.compare_spec y z); subst; intros; try done.
  - rewrite Z.compare_refl. eauto.
  - by rewrite (proj2 (Z.compare_lt_iff _ _)) by lia.
  - by rewrite (proj2 (Z.compare_lt_iff _ _)) by lia.
  - by rewrite (proj2 (Z.compare_lt_iff _ _)) by lia.
Qed.
Lemma str_lt_irrefl a : ~ str_lt a a.
Proof. unfold str_lt. by rewrite str_cmp_refl. Qed.
Lemma str_cmp_gt a b : str_cmp a b = Gt <-> str_lt b a.
Proof. unfold str_lt. rewrite (str_cmp_antisym a b). destruct (str_cmp a b); simpl; split; congruence. Qed.
Lemma str_lt_total a b : str_lt a b \/ a = b \/ str_lt b a.
Proof.
  destruct (str_cmp a b) eqn:E.
  - right; left. by apply str_cmp_eq.
  - by left.
  - right; right. by apply str_cmp_gt.
Qed.
#[global] Instance str_lt_transitive : Transitive str_lt.
Proof. intros a b c. apply str_lt_trans. Qed.

(** ** Prefixes and substrings *)

Fixpoint starts_with (p s : str) : bool :=
  match p, s with
  | [], _ => true
  | _ :: _, [] => false
  | x :: p, y :: s => (x =? y) && starts_with p s
  end.
(** [s.strip_prefix(p)] *)
Definition strip_prefix (p s : str) : option str :=
  if starts_with p s then Some (drop (List.length p) s) else None.
(** [s.ends_with(p)] *)
Definition ends_with (p s : str) : bool := starts_with (rev p) (rev s).
(** [s.strip_suffix(p)] *)
Definition strip_suffix (p s : str) : option str :=
  if ends_with p s then Some (take (List.length s - List.length p) s) else None.
(** [s.contains(p)]: some suffix of [s] starts with [p]. *)
Fixpoint contains (p s : str) : bool :=
  starts_with p s || match s with [] => false | _ :: s => contains p s end.

Lemma starts_with_spec p s : starts_with p s = true <-> exists r, s = p ++ r.
Proof.
  revert s; induction p as [|x p IH]; intros s; simpl.
  - split; [eauto|done].
  - destruct s as [|y s]; [split; [done|intros [? [=]]]|].
    rewrite andb_true_iff, Z.eqb_eq, IH. split.
    + intros [-> [r ->]]. by exists r.
    + intros [r [= -> ->]]. eauto.
Qed.
Lemma strip_prefix_Some p s r : strip_prefix p s = Some r <-> s = p ++ r.
Proof.
  unfold strip_prefix. destruct (starts_with p s) eqn:E.
  - apply starts_with_spec in E as [r' ->]. rewrite drop_app_length.
    split; [intros [= ->]; done|intros H; f_equal; by apply app_inv_head in H].
  - split; [done|]. intros ->. exfalso.
    assert (starts_with p (p ++ r) = true) by (apply starts_with_spec; eauto). congruence.
Qed.
Lemma strip_prefix_app p r : strip_prefix p (p ++ r) = Some r.
Proof. by apply strip_prefix_Some. Qed.
Lemma contains_spec p s : contains p s = true <-> exists a b, s = a ++ p ++ b.
Proof.
  induction s as [|x s IH]; simpl; rewrite orb_true_iff, starts_with_spec.
  - split.
    + intros [[r Hr]|?]; [|done]. exists [], r. done.
    + intros (a & b & H). left. destruct a; [exists b; done|done].
  - rewrite IH. split.
    + intros [[r ->]|(a & b & ->)]; [by exists [], r|by exists (x :: a), b].
    + intros ([|y a] & b & H); [left; by exists b|].
      injection H as -> ->. right. eauto.
Qed.

(** ** Splitting and joining on one ASCII byte *)

Fixpoint split (c : Z) (s : str) : list str :=
  match s with
  | [] => [[]]
  | x :: s =>
      if x =? c then [] :: split c s
      else match split c s with
           | h :: t => (x :: h) :: t
           | [] => [[x]]
           end
  end.
(** [v.join(sep)] *)
Fixpoint join (sep : str) (l : list str) : str :=
  match l with
  | [] => []
  | [x] => x
  | x :: l => x ++ sep ++ join sep l
  end.
(** [s.split_once(c)] *)
Fixpoint split_once (c : Z) (s : str) : option (str * str) :=
  match s with
  | [] => None
  | x :: s => if x =? c then Some ([], s)
              else match split_once c s with
                   | Some (a, b) => Some (x :: a, b)
                   | None => None
                   end
  end.
(** [s.rsplit_once(c)] *)
Definition rsplit_once (c : Z) (s : str) : option (str * str) :=
  match split_once c (rev s) with
  | Some (b, a) => Some (rev a, rev b)
  | None => None
  end.

Lemma split_nonempty c s : split c s <> [].
Proof. destruct s as [|x s]; simpl; [done|]. destruct (x =? c); [done|]. destruct (split c s); done. Qed.
Lemma split_labels c s : Forall (fun l => c ∉ l) (split c s).
Proof.
  induction s as [|x s IH]; simpl.
  - constructor; [apply not_elem_of_nil|constructor].
  - destruct (Z.eqb_spec x c) as [->|Hne].
    + constructor; [apply not_elem_of_nil|done].
    + destruct (split c s) as [|h t] eqn:E; [by destruct (split_nonempty c s)|].
      inversion IH; subst. constructor; [|done].
      rewrite not_elem_of_cons. naive_solver.
Qed.
Lemma join_cons sep x l : l <> [] -> join sep (x :: l) = x ++ sep ++ join sep l.
Proof. by destruct l. Qed.
Lemma join_app sep a b :
  a <> [] -> b <> [] -> join sep (a ++ b) = join sep a ++ sep ++ join sep b.
Proof.
  intros Ha Hb. induction a as [|x a IH]; [done|]. destruct a as [|y a]; [by apply join_cons|].
  change ((x :: y :: a) ++ b) with (x :: ((y :: a) ++ b)).
  rewrite (join_cons sep x (y :: a)), join_cons, IH by done. by rewrite <- !app_assoc.
Qed.
Lemma join_split c s : join [c] (split c s) = s.
Proof.
  induction s as [|x s IH]; [done|]. cbn [split].
  pose proof (split_nonempty c s) as Hne.
  destruct (Z.eqb_spec x c) as [->|].
  - rewrite join_cons by done. by rewrite IH.
  - destruct (split c s) as [|h t] eqn:E; [done|].
    destruct t as [|h' t]; simpl in *; by rewrite IH.
Qed.
Lemma split_no_sep c s : c ∉ s -> split c s = [s].
Proof.
  induction s as [|x s IH]; [done|]. rewrite not_elem_of_cons. intros [Hne Hs].
  simpl. destruct (Z.eqb_spec x c); [congruence|]. by rewrite IH.
Qed.
Lemma split_app_sep c a s : c ∉ a -> split c (a ++ [c] ++ s) = a :: split c s.
Proof.
  induction a as [|x a IH]; intros Ha; simpl.
  - by rewrite Z.eqb_refl.
  - apply not_elem_of_cons in Ha as [Hx Ha]. simpl in IH.
    destruct (Z.eqb_spec x c); [congruence|]. by rewrite (IH Ha).
Qed.
Lemma split_join c l : l <> [] -> Forall (fun x => c ∉ x) l -> split c (join [c] l) = l.
Proof.
  induction l as [|x l IH]; [done|]. intros _ H. inversion H; subst.
  destruct l as [|y l]; [by apply split_no_sep|].
  rewrite join_cons, split_app_sep, IH by done. done.
Qed.
Lemma split_inj c s t : split c s = split c t -> s = t.
Proof. intros H. rewrite <- (join_split c s), <- (join_split c t). by rewrite H. Qed.
Lemma split_once_Some c s a b :
  split_once c s = Some (a, b) <-> s = a ++ [c] ++ b /\ c ∉ a.
Proof.
  revert a b; induction s as [|x s IH]; intros a b; simpl.
  - split; [done|]. intros [H _]. by destruct a.
  - destruct (Z.eqb_spec x c) as [->|Hne].
    + split; [intros [= <- <-]; split; [done|apply not_elem_of_nil]|].
      intros [H Ha]. destruct a as [|y a]; [naive_solver|].
      apply not_elem_of_cons in Ha as [? _]. naive_solver.
    + split.
      * intros H. case_match; simplify_eq. case_match; simplify_eq.
        destruct (proj1 (IH _ _) eq_refl) as [-> Ha].
        split; [done|]. rewrite not_elem_of_cons. naive_solver.
      * intros [H Ha]. destruct a as [|y a]; [naive_solver|].
        apply not_elem_of_cons in Ha as [_ Ha]. injection H as <- H.
        by rewrite (proj2 (IH a b) (conj H Ha)).
Qed.
Lemma split_once_None c s : split_once c s = None <-> c ∉ s.
Proof.
  induction s as [|x s IH]; simpl; [split; [intros; apply not_elem_of_nil|done]|].
  rewrite not_elem_of_cons. destruct (Z.eqb_spec x c) as [->|]; [naive_solver|].
  destruct (split_once c s) as [[]|]; naive_solver.
Qed.

Lemma rsplit_once_sep c a s : c ∉ s -> rsplit_once c (a ++ [c] ++ s) = Some (a, s).
Proof.
  intros Hs. unfold rsplit_once. rewrite rev_app_distr. cbn [rev app]. rewrite <- app_assoc. cbn [app].
  assert (split_once c (rev s ++ c :: rev a) = Some (rev s, rev a)) as ->.
  { apply split_once_Some. split; [done|]. rewrite list_elem_of_In, <- in_rev, <- list_elem_of_In. done. }
  by rewrite !rev_involutive.
Qed.

(** ** Case and trimming *)

Definition is_ascii_uppercase (b : Z) : bool := (65 <=? b) && (b <=? 90).
Definition is_ascii_lowercase (b : Z) : bool := (97 <=? b) && (b <=? 122).
Definition is_ascii_digit (b : Z) : bool := (48 <=? b) && (b <=? 57).
Definition is_ascii_hexdigit (b : Z) : bool :=
  is_ascii_digit b || ((65 <=? b) && (b <=? 70)) || ((97 <=? b) && (b <=? 102)).
Definition ascii_lower (b : Z) : Z := if is_ascii_uppercase b then b + 32 else b.
Definition to_ascii_lowercase (s : str) : str := map ascii_lower s.
(** [a.eq_ignore_ascii_case(b)] *)
Definition eq_ignore_ascii_case (a b : str) : bool :=
  str_eqb (to_ascii_lowercase a) (to_ascii_lowercase b).

Lemma ascii_lower_idem b : ascii_lower (ascii_lower b) = ascii_lower b.
Proof.
  unfold ascii_lower, is_ascii_uppercase.
  destruct ((65 <=? b) && (b <=? 90)) eqn:E; [|by rewrite E].
  bools. destruct (Z.leb_spec (b + 32) 90); [lia|]. by rewrite andb_false_r.
Qed.
Lemma to_ascii_lowercase_idem s :
  to_ascii_lowercase (to_ascii_lowercase s) = to_ascii_lowercase s.
Proof. unfold to_ascii_lowercase. rewrite map_map. apply map_ext. apply ascii_lower_idem. Qed.

(** Strip one White_Space character from the front, resp. from a reversed
    string; [None] when there is none. *)
Definition is_ascii_ws (b : Z) : bool := ((9 <=? b) && (b <=? 13)) || (b =? 32).
Definition in_2000_200a_or_202x (b : Z) : bool :=
  ((128 <=? b) && (b <=? 138)) || (b =? 168) || (b =? 169) || (b =? 175).
Definition strip_ws (s : str) : option str :=
  match s with
  | [] => None
  | a :: s1 =>
      if is_ascii_ws a then Some s1 else
      match s1 with
      | [] => None
      | b :: s2 =>
          if (a =? 194) && ((b =? 133) || (b =? 160)) then Some s2 else
          match s2 with
          | [] => None
          | c :: s3 =>
              if ((a =? 225) && (b =? 154) && (c =? 128))
                 || ((a =? 226) && (b =? 128) && in_2000_200a_or_202x c)
                 || ((a =? 226) && (b =? 129) && (c =? 159))
                 || ((a =? 227) && (b =? 128) && (c =? 128))
              then Some s3 else None
          end
      end
  end.
Definition strip_ws_rev (s : str) : option str :=
  match s with
  | [] => None
  | a :: s1 =>
      if is_ascii_ws a then Some s1 else
      match s1 with
      | [] => None
      | b :: s2 =>
          if (b =? 194) && ((a =? 133) || (a =? 160)) then Some s2 else
          match s2 with
          | [] => None
          | c :: s3 =>
              if ((c =? 225) && (b =? 154) && (a =? 128))
                 || ((c =? 226) && (b =? 128) && in_2000_200a_or_202x a)
                 || ((c =? 226) && (b =? 129) && (a =? 159))
                 || ((c =? 227) && (b =? 128) && (a =? 128))
              then Some s3 else None
          end
      end
  end.
Fixpoint strip_while (strip : str -> option str) (fuel : nat) (s : str) : str :=
  match fuel with
  | O => s
  | S fuel => match strip s with Some s' => strip_while strip fuel s' | None => s end
  end.
Definition trim_start (s : str) : str := strip_while strip_ws (List.length s) s.
Definition trim_end (s : str) : str :=
  rev (strip_while strip_ws_rev (List.length s) (rev s)).
(** [s.trim()] *)
Definition trim (s : str) : str := trim_end (trim_start s).

(** [s.trim_matches(c)] for an ASCII [c]. *)
Fixpoint trim_start_matches (c : Z) (s : str) : str :=
  match s with
  | x :: s' => if x =? c then trim_start_matches c s' else s
  | [] => []
  end.
Definition trim_end_matches (c : Z) (s : str) : str :=
  rev (trim_start_matches c (rev s)).
Definition trim_matches (c : Z) (s : str) : str :=
  trim_end_matches c (trim_start_matches c s).

(** Every stripping step shortens the string, so the fuel suffices: the result
    starts with no White_Space character. *)
Lemma strip_ws_shorter s s' : strip_ws s = Some s' -> (List.length s' < List.length s)%nat.
Proof.
  unfold strip_ws. intros H. repeat case_match; simplify_eq; simpl; lia.
Qed.
Lemma strip_ws_rev_shorter s s' : strip_ws_rev s = Some s' -> (List.length s' < List.length s)%nat.
Proof.
  unfold strip_ws_rev. intros H. repeat case_match; simplify_eq; simpl; lia.
Qed.
Lemma strip_while_stuck strip fuel s :
  (forall a b, strip a = Some b -> (List.length b < List.length a)%nat) ->
  (List.length s <= fuel)%nat -> strip (strip_while strip fuel s) = None.
Proof.
  intros Hs. revert s; induction fuel as [|fuel IH]; intros s Hlen; simpl.
  - destruct (strip s) as [s'|] eqn:E; [|done]. apply Hs in E. lia.
  - destruct (strip s) as [s'|] eqn:E; [|done]. apply IH. apply Hs in E. lia.
Qed.
Lemma trim_start_stuck s : strip_ws (trim_start s) = None.
Proof. apply strip_while_stuck; [apply strip_ws_shorter|done]. Qed.
Lemma trim_end_stuck s : strip_ws_rev (rev (trim_end s)) = None.
Proof.
  unfold trim_end. rewrite rev_involutive.
  apply strip_while_stuck; [apply strip_ws_rev_shorter|by rewrite length_rev].
Qed.

Lemma strip_while_none strip fuel s : strip s = None -> strip_while strip fuel s = s.
Proof. intros H. destruct fuel; simpl; [done|]. by rewrite H. Qed.
Lemma strip_while_suffix strip fuel s :
  (forall a b, strip a = Some b -> exists u, a = u ++ b) -> exists u, s = u ++ strip_while strip fuel s.
Proof.
  intros Hs. revert s; induction fuel as [|fuel IH]; intros s; simpl; [by exists []|].
  destruct (strip s) as [s'|] eqn:E; [|by exists []]. apply Hs in E as [u1 ->]. destruct (IH s') as [u2 E2].
  exists (u1 ++ u2). by rewrite <- app_assoc, <- E2.
Qed.
Lemma strip_ws_rev_suffix a b : strip_ws_rev a = Some b -> exists u, a = u ++ b.
Proof.
  unfold strip_ws_rev. intros H. repeat case_match; simplify_eq;
    [by exists [z]|by exists [z; z0]|by exists [z; z0; z1]].
Qed.
Lemma strip_ws_prefix t u : strip_ws (t ++ u) = None -> strip_ws t = None.
Proof.
  intros H. destruct t as [|a [|b [|c t]]]; [done|..]; unfold strip_ws in *; simpl in *;
    destruct (is_ascii_ws a); try done; destruct (_ && _); try done. destruct (_ || _ || _ || _); done.
Qed.
Lemma trim_idem s : trim (trim s) = trim s.
Proof.
  unfold trim at 1. assert (strip_ws (trim s) = None) as H1.
  { unfold trim, trim_end. destruct (strip_while_suffix strip_ws_rev (List.length (trim_start s)) (rev (trim_start s)) strip_ws_rev_suffix) as [u E].
    apply (f_equal (@rev _)) in E. rewrite rev_involutive, rev_app_distr in E.
    apply (strip_ws_prefix _ (rev u)). rewrite <- E. apply trim_start_stuck. }
  unfold trim_start at 1. rewrite strip_while_none by done. unfold trim_end at 1.
  rewrite strip_while_none; [apply rev_involutive|]. unfold trim. apply trim_end_stuck.
Qed.

Example trim_ex : trim (lit " a.b  ") = lit "a.b".
Proof. reflexivity. Qed.
Example trim_dots_ex : trim_matches dot (lit "..a.b.") = lit "a.b".
Proof. reflexivity. Qed.

(** ** UTF-8 validity ([std::str::from_utf8]) *)

Definition utf8_cont (b : Z) : bool := (128 <=? b) && (b <=? 191).
Fixpoint utf8_valid (s : list Z) : bool :=
  match s with
  | [] => true
  | b :: s1 =>
      if b <? 128 then utf8_valid s1
      else if (194 <=? b) && (b <=? 223) then
        match s1 with c1 :: s2 => utf8_cont c1 && utf8_valid s2 | [] => false end
      else if (224 <=? b) && (b <=? 239) then
        match s1 with
        | c1 :: c2 :: s3 =>
            (if b =? 224 then (160 <=? c1) && (c1 <=? 191)
             else if b =? 237 then (128 <=? c1) && (c1 <=? 159) else utf8_cont c1)
            && utf8_cont c2 && utf8_valid s3
        | _ => false
        end
      else if (240 <=? b) && (b <=? 244) then
        match s1 with
        | c1 :: c2 :: c3 :: s4 =>
            (if b =? 240 then (144 <=? c1) && (c1 <=? 191)
             else if b =? 244 then (128 <=? c1) && (c1 <=? 143) else utf8_cont c1)
            && utf8_cont c2 && utf8_cont c3 && utf8_valid s4
        | _ => false
        end
      else false
  end.
