(* ===== verification/Net.v ===== *)
(** * Net: IP addresses of the standard library, and the ipnet crate's interface

    [IpAddr] and its parser follow [core::net]: an address is a [u32] or a
    [u128], and [parse_ip_addr] is the parser of [IpAddr::from_str] (at most
    three decimal digits per octet and no leading zero, hexadecimal groups with
    one optional [::], an optional trailing dotted quad).

    CIDR networks come from the third-party crate ipnet: the class [Ipnet] has
    the operations the sources call and [IpnetLaws] what the crate documents of
    them. [CidrNet] is a lawful instance. *)

From Stdlib Require Import ZArith Lia.
From stdpp Require Import prelude strings list countable.
From S2P Require Import Prelude RustStr.

Inductive IpAddr :=
| V4 (a : Z)
| V6 (a : Z).
#[global] Instance IpAddr_eq_dec : EqDecision IpAddr.
Proof. solve_decision. Defined.
#[global] Instance IpAddr_countable : Countable IpAddr.
Proof.
  refine (inj_countable'
    (fun x => match x with V4 a => inl a | V6 a => inr a end : Z + Z)
    (fun s => match s with inl a => V4 a | inr a => V6 a end) _).
  by intros [].
Defined.

(** [SocketAddr]: the V6 form carries flow info and scope id. *)
Inductive SocketAddr :=
| SockV4 (ip port : Z)
| SockV6 (ip port flowinfo scope_id : Z).
#[global] Instance SocketAddr_eq_dec : EqDecision SocketAddr.
Proof. solve_decision. Defined.
#[global] Instance SocketAddr_countable : Countable SocketAddr.
Proof.
  refine (inj_countable'
    (fun a => match a with SockV4 ip port => inl (ip, port) | SockV6 ip port f s => inr (ip, port, f, s) end)
    (fun x : (Z * Z) + (Z * Z * Z * Z) =>
       match x with inl (ip, port) => SockV4 ip port | inr (ip, port, f, s) => SockV6 ip port f s end) _).
  by intros [].
Defined.

(** ** The address parser: each reader takes the remaining input and returns a
    value with what is left, or [None] and consumes nothing. *)

Definition parser (A : Type) : Type := str -> option (A * str).

(** [char::to_digit(radix)] *)
Definition to_digit (radix c : Z) : option Z :=
  let d := if is_ascii_digit c then Some (c - 48)
           else if (97 <=? c) && (c <=? 122) then Some (c - 97 + 10)
           else if (65 <=? c) && (c <=? 90) then Some (c - 65 + 10)
           else None in
  match d with Some v => if v <? radix then Some v else None | None => None end.

Fixpoint read_digits (radix : Z) (s : str) : list Z * str :=
  match s with
  | [] => ([], [])
  | c :: s' => match to_digit radix c with
               | Some d => let '(ds, r) := read_digits radix s' in (d :: ds, r)
               | None => ([], s)
               end
  end.

(** [read_number(radix, Some(max_digits), allow_zero_prefix)] into a [w]-bit
    integer. *)
Definition read_number (radix : Z) (max_digits : nat) (allow_zero_prefix : bool) (w : Z)
    : parser Z := fun s =>
  let '(ds, r) := read_digits radix s in
  let v := foldl (fun acc d => acc * radix + d) 0 ds in
  if (max_digits <? length ds)%nat then None
  else if is_empty ds then None
  else if negb allow_zero_prefix && bool_decide (head s = Some 48) && (1 <? length ds)%nat then None
  else if fitsb w v then Some (v, r) else None.

(** [read_given_char(c)] *)
Definition read_given_char (c : Z) : parser unit := fun s =>
  match s with
  | x :: r => if x =? c then Some (tt, r) else None
  | [] => None
  end.

(** [read_separator(sep, index, inner)] *)
Definition read_separator {A} (sep : Z) (index : nat) (inner : parser A) : parser A := fun s =>
  match index with
  | O => inner s
  | S _ => '(_, r) ← read_given_char sep s; inner r
  end.

(** [read_ipv4_addr] *)
Definition read_ipv4_addr : parser Z := fun s =>
  '(a, s) ← read_separator dot 0 (read_number 10 3 false 8) s;
  '(b, s) ← read_separator dot 1 (read_number 10 3 false 8) s;
  '(c, s) ← read_separator dot 2 (read_number 10 3 false 8) s;
  '(d, s) ← read_separator dot 3 (read_number 10 3 false 8) s;
  Some (from_be_bytes [a; b; c; d], s).

(** [read_groups]: at most [limit] more 16-bit groups from index [i]; the groups
    read, whether a trailing IPv4 address was read, and the rest. *)
Fixpoint read_groups (limit : nat) (i : nat) (s : str) : list Z * bool * str :=
  match limit with
  | O => ([], false, s)
  | S limit' =>
      match (if (1 <? limit)%nat then read_separator colon i read_ipv4_addr s else None) with
      | Some (v4, r) => ([v4 / 2 ^ 16; v4 mod 2 ^ 16], true, r)
      | None =>
          match read_separator colon i (read_number 16 4 true 16) s with
          | Some (g, r) =>
              let '(gs, v4, r') := read_groups limit' (S i) r in (g :: gs, v4, r')
          | None => ([], false, s)
          end
      end
  end.

Definition groups_value (gs : list Z) : Z := foldl (fun acc g => acc * 2 ^ 16 + g) 0 gs.

(** [read_ipv6_addr] *)
Definition read_ipv6_addr : parser Z := fun s =>
  let '(head_groups, head_ipv4, r) := read_groups 8 0 s in
  if (length head_groups =? 8)%nat then Some (groups_value head_groups, r)
  else if head_ipv4 then None
  else
    '(_, r) ← read_given_char colon r;
    '(_, r) ← read_given_char colon r;
    let limit := (8 - (length head_groups + 1))%nat in
    let '(tail_groups, _, r) := read_groups limit 0 r in
    let zeros := repeat 0 (8 - length head_groups - length tail_groups) in
    Some (groups_value (head_groups ++ zeros ++ tail_groups), r).

(** [parse_with]: everything must be consumed. *)
Definition parse_with {A} (p : parser A) (s : str) : option A :=
  match p s with Some (a, []) => Some a | _ => None end.

(** [Ipv4Addr::from_str]: longer than 15 bytes is rejected outright. *)
Definition parse_ipv4_addr (s : str) : option Z :=
  if (15 <? length s)%nat then None else parse_with read_ipv4_addr s.
(** [Ipv6Addr::from_str] *)
Definition parse_ipv6_addr (s : str) : option Z := parse_with read_ipv6_addr s.
(** [IpAddr::from_str] *)
Definition parse_ip_addr (s : str) : option IpAddr :=
  parse_with (fun s =>
    match read_ipv4_addr s with
    | Some (a, r) => Some (V4 a, r)
    | None => match read_ipv6_addr s with
              | Some (a, r) => Some (V6 a, r)
              | None => None
              end
    end) s.

(** [read_number(radix, None, true)]: any number of digits, checked into [w] bits. *)
Definition read_number_unbounded (radix w : Z) : parser Z := fun s =>
  let '(ds, r) := read_digits radix s in
  let v := foldl (fun acc d => acc * radix + d) 0 ds in
  if is_empty ds then None
  else if fitsb w v then Some (v, r) else None.

(** [read_port] *)
Definition read_port : parser Z := fun s =>
  '(_, s) ← read_given_char colon s; read_number_unbounded 10 16 s.

(** [read_scope_id] *)
Definition read_scope_id : parser Z := fun s =>
  '(_, s) ← read_given_char 37 s; read_number_unbounded 10 32 s.

(** [read_socket_addr_v4], [read_socket_addr_v6] *)
Definition read_socket_addr_v4 : parser SocketAddr := fun s =>
  '(ip, s) ← read_ipv4_addr s; '(port, s) ← read_port s; Some (SockV4 ip port, s).
Definition read_socket_addr_v6 : parser SocketAddr := fun s =>
  '(_, s) ← read_given_char 91 s;
  '(ip, s) ← read_ipv6_addr s;
  let '(scope, s) := match read_scope_id s with Some (i, r) => (i, r) | None => (0, s) end in
  '(_, s) ← read_given_char 93 s;
  '(port, s) ← read_port s;
  Some (SockV6 ip port 0 scope, s).

(** [SocketAddr::from_str] *)
Definition parse_socket_addr (s : str) : option SocketAddr :=
  parse_with (fun s => match read_socket_addr_v4 s with
                       | Some r => Some r
                       | None => read_socket_addr_v6 s
                       end) s.

Example parse_sock4 : parse_socket_addr (lit "203.0.113.1:18020") = Some (SockV4 3405803777 18020).
Proof. vm_compute. reflexivity. Qed.
Example parse_sock6 : parse_socket_addr (lit "[::1%3]:080") = Some (SockV6 1 80 0 3).
Proof. vm_compute. reflexivity. Qed.

(** [uN::from_str_radix(s, radix)] at width [w]: an optional leading [+]. *)
Definition from_str_radix (radix w : Z) (s : str) : option Z :=
  let digits := match s with c :: r => if (c =? 43) && negb (is_empty r) then r else s | [] => s end in
  parse_with (read_number_unbounded radix w) digits.

(** [Ipv6Addr::to_ipv4_mapped] *)
Definition to_ipv4_mapped (a : Z) : option Z :=
  if a / 2 ^ 32 =? 65535 then Some (a mod 2 ^ 32) else None.

Example parse_v4 : parse_ip_addr (lit "10.2.3.4") = Some (V4 167904004).
Proof. reflexivity. Qed.
Example parse_v4_leading_zero : parse_ip_addr (lit "10.02.3.4") = None.
Proof. reflexivity. Qed.
Example parse_v6 : parse_ip_addr (lit "2001:db8::1") = Some (V6 (0x20010db8 * 2 ^ 96 + 1)).
Proof. vm_compute. reflexivity. Qed.
Example parse_v6_mapped : parse_ip_addr (lit "::ffff:1.2.3.4") = Some (V6 (65535 * 2 ^ 32 + 16909060)).
Proof. vm_compute. reflexivity. Qed.
Example parse_domain : parse_ip_addr (lit "a.example") = None.
Proof. reflexivity. Qed.

(** ** The ipnet crate *)

Class Ipnet := {
  Ipv4Net : Type;
  Ipv6Net : Type;
  v4net_addr : Ipv4Net -> Z;
  v4net_prefix_len : Ipv4Net -> Z;
  v4net_network : Ipv4Net -> Z;
  v4net_broadcast : Ipv4Net -> Z;
  v4net_contains : Ipv4Net -> Z -> bool;
  v6net_addr : Ipv6Net -> Z;
  v6net_prefix_len : Ipv6Net -> Z;
  v6net_network : Ipv6Net -> Z;
  v6net_broadcast : Ipv6Net -> Z;
  (** [Ipv4Net::from_str], [IpNet::from_str] *)
  v4net_parse : str -> option Ipv4Net;
  ipnet_parse : str -> option (Ipv4Net + Ipv6Net);
  (** [IpNet::contains(&IpAddr)] *)
  ipnet_contains : (Ipv4Net + Ipv6Net) -> IpAddr -> bool
}.

(** [IpNet::V4] / [IpNet::V6] *)
Abbreviation IpNet := (Ipv4Net + Ipv6Net)%type.

Definition ipnet_addr {N : Ipnet} (n : IpNet) : IpAddr :=
  match n with inl n => V4 (v4net_addr n) | inr n => V6 (v6net_addr n) end.

Class IpnetLaws (N : Ipnet) : Prop := {
  v4net_bounds n : 0 <= v4net_network n <= v4net_broadcast n /\ v4net_broadcast n < 2 ^ 32;
  v6net_bounds n : 0 <= v6net_network n <= v6net_broadcast n /\ v6net_broadcast n < 2 ^ 128;
  v4net_contains_iff n a :
    v4net_contains n a = true <-> v4net_network n <= a <= v4net_broadcast n;
  ipnet_contains_v4 n a : ipnet_contains (inl n) (V4 a) = v4net_contains n a;
  ipnet_contains_v6 n a :
    ipnet_contains (inr n) (V6 a) = true <-> v6net_network n <= a <= v6net_broadcast n;
  ipnet_contains_v4_v6 n a : ipnet_contains (inl n) (V6 a) = false;
  ipnet_contains_v6_v4 n a : ipnet_contains (inr n) (V4 a) = false;
  v4net_host n : v4net_prefix_len n = 32 ->
    v4net_network n = v4net_addr n /\ v4net_broadcast n = v4net_addr n;
  v6net_host n : v6net_prefix_len n = 128 ->
    v6net_network n = v6net_addr n /\ v6net_broadcast n = v6net_addr n
}.

(** A lawful instance: an address and a prefix length, [addr/len]. *)
Module CidrNet.

Record net (w : Z) := mkNet { addr : Z; len : Z; ok : bool_decide (fits w addr /\ 0 <= len <= w) = true }.
Arguments addr {w} _.
Arguments len {w} _.
Arguments ok {w} _.
Definition size {w} (n : net w) : Z := 2 ^ (w - len n).
Definition network {w} (n : net w) : Z := addr n / size n * size n.
Definition broadcast {w} (n : net w) : Z := network n + size n - 1.

Definition make (w a l : Z) : option (net w) :=
  match bool_decide (fits w a /\ 0 <= l <= w) as b
    return bool_decide (fits w a /\ 0 <= l <= w) = b -> option (net w) with
  | true => fun H => Some (mkNet w a l H)
  | false => fun _ => None
  end eq_refl.

Definition parse_len (s : str) : option Z := parse_with (read_number 10 3 true 8) s.
Definition parse4 (s : str) : option (net 32) :=
  '(a, l) ← split_once slash s; a ← parse_ipv4_addr a; l ← parse_len l; make 32 a l.
Definition parse6 (s : str) : option (net 128) :=
  '(a, l) ← split_once slash s; a ← parse_ipv6_addr a; l ← parse_len l; make 128 a l.

Definition contains {w} (n : net w) (a : Z) : bool := (network n <=? a) && (a <=? broadcast n).

Definition inst : Ipnet := {|
  Ipv4Net := net 32;
  Ipv6Net := net 128;
  v4net_addr := addr;
  v4net_prefix_len := len;
  v4net_network := network;
  v4net_broadcast := broadcast;
  v4net_contains := contains;
  v6net_addr := addr;
  v6net_prefix_len := len;
  v6net_network := network;
  v6net_broadcast := broadcast;
  v4net_parse := parse4;
  ipnet_parse := fun s => match parse4 s with
                          | Some n => Some (inl n)
                          | None => inr <$> parse6 s
                          end;
  ipnet_contains := fun n a => match n, a with
                               | inl n, V4 a => contains n a
                               | inr n, V6 a => contains n a
                               | _, _ => false
                               end
|}.

Lemma bounds {w} (n : net w) :
  0 <= network n <= broadcast n /\ broadcast n < 2 ^ w.
Proof.
  destruct n as [a l H]. unfold broadcast, network, size. simpl.
  apply bool_decide_eq_true in H as [[Ha1 Ha2] Hl].
  assert (0 < 2 ^ (w - l)) by (apply Z.pow_pos_nonneg; lia).
  assert (2 ^ w = 2 ^ l * 2 ^ (w - l)) as Hw by (rewrite <- Z.pow_add_r by lia; f_equal; lia).
  assert (0 <= a / 2 ^ (w - l)) by (apply Z.div_pos; lia).
  assert (a / 2 ^ (w - l) < 2 ^ l) by (apply Z.div_lt_upper_bound; lia).
  nia.
Qed.

Lemma contains_iff {w} (n : net w) a : contains n a = true <-> network n <= a <= broadcast n.
Proof. unfold contains. rewrite andb_true_iff, !Z.leb_le. done. Qed.

Lemma host {w} (n : net w) : len n = w -> network n = addr n /\ broadcast n = addr n.
Proof.
  intros H. unfold broadcast, network, size. rewrite H, Z.sub_diag. change (2 ^ 0) with 1.
  rewrite Z.div_1_r. lia.
Qed.

Lemma cidr_laws : IpnetLaws inst.
Proof.
  split; cbn [inst v4net_addr v4net_prefix_len v4net_network v4net_broadcast v4net_contains
              v6net_addr v6net_prefix_len v6net_network v6net_broadcast ipnet_contains Ipv4Net Ipv6Net].
  - apply bounds.
  - apply bounds.
  - apply contains_iff.
  - done.
  - apply contains_iff.
  - done.
  - done.
  - apply host.
  - apply host.
Qed.

Example parse_cidr : v4net_network <$> (v4net_parse (Ipnet:=inst) (lit "10.0.0.9/24")) = Some 167772160.
Proof. vm_compute. reflexivity. Qed.

End CidrNet.
