(* ===== verification/NetProps.v ===== *)
(** * NetProps: the parsed addresses are in range

    Facts on the address parser of Net.v: what it accepts fits the address
    width, and IPv4-mapped IPv6 addresses are those of [::ffff:0:0/96]. *)

From Stdlib Require Import ZArith Lia.
From stdpp Require Import prelude strings list.
From S2P Require Import Prelude RustStr Net.

Lemma read_number_fits radix k zero w s v r : read_number radix k zero w s = Some (v, r) -> fits w v.
Proof.
  unfold read_number. destruct (read_digits radix s) as [ds r']. intros H. repeat case_match; try done.
  injection H as <- <-. by apply fitsb_spec.
Qed.

Lemma read_ipv4_fits s a r : read_ipv4_addr s = Some (a, r) -> fits 32 a.
Proof.
  unfold read_ipv4_addr, read_separator. intros H.
  repeat (apply bind_Some in H as ([? ?] & ? & H)). repeat match goal with
  | H : read_number _ _ _ _ _ = Some _ |- _ => apply read_number_fits in H
  | H : mbind _ _ = Some _ |- _ => apply bind_Some in H as ([? ?] & _ & H)
  end.
  injection H as <- _. apply (from_be_bytes_fits [_; _; _; _]). repeat (apply Forall_cons; split; [done|]). constructor.
Qed.

Lemma read_groups_ok limit i s gs v4 r :
  read_groups limit i s = (gs, v4, r) -> Forall (fits 16) gs /\ (length gs <= limit)%nat.
Proof.
  revert i s gs v4 r; induction limit as [|limit IH]; intros i s gs v4 r; cbn [read_groups].
  { intros [= <- <- <-]. by split; [constructor|]. }
  destruct (if (1 <? S limit)%nat then _ else _) as [[a r']|] eqn:E4.
  - destruct (Nat.ltb_spec 1 (S limit)) as [Hlim|]; [|done].
    assert (fits 32 a) as [Ha0 Ha].
    { unfold read_separator in E4. destruct i; [by eapply read_ipv4_fits|].
      apply bind_Some in E4 as ([? ?] & _ & E4). by eapply read_ipv4_fits. }
    intros [= <- <- <-]. split; [|cbn; lia]. repeat constructor.
    + by apply Z.div_pos.
    + apply Z.div_lt_upper_bound; lia.
    + by apply Z.mod_pos_bound.
    + by apply Z.mod_pos_bound.
  - destruct (read_separator colon i (read_number 16 4 true 16) s) as [[g r']|] eqn:Eg.
    + destruct (read_groups limit (S i) r') as [[gs' v4'] r2] eqn:Er. intros [= <- <- <-].
      apply IH in Er as [Hf Hl]. split; [|cbn; lia]. constructor; [|done].
      unfold read_separator in Eg. destruct i; [by eapply read_number_fits|].
      apply bind_Some in Eg as ([? ?] & _ & Eg). by eapply read_number_fits.
    + intros [= <- <- <-]. split; [constructor|cbn; lia].
Qed.

Lemma groups_value_fits gs : Forall (fits 16) gs -> fits (16 * Z.of_nat (length gs)) (groups_value gs).
Proof.
  unfold groups_value. assert (Hgen : forall n acc, 0 <= n -> fits (16 * n) acc -> Forall (fits 16) gs ->
    fits (16 * (n + Z.of_nat (length gs))) (foldl (fun acc g => acc * 2 ^ 16 + g) acc gs)).
  { induction gs as [|g gs IH]; intros n acc Hn Hacc Hgs; cbn [foldl length].
    - by rewrite Z.add_0_r.
    - inversion Hgs as [|? ? [Hg0 Hg] Hgs']; subst. replace (n + Z.of_nat (S (length gs))) with ((n + 1) + Z.of_nat (length gs)) by lia.
      apply IH; [lia| |done]. unfold fits in *. rewrite Z.mul_add_distr_l, Z.pow_add_r by lia.
      change (2 ^ (16 * 1)) with (2 ^ 16). nia. }
  intros Hgs. apply (Hgen 0 0); [lia|done|done].
Qed.

Lemma read_ipv6_fits s a r : read_ipv6_addr s = Some (a, r) -> fits 128 a.
Proof.
  unfold read_ipv6_addr. destruct (read_groups 8 0 s) as [[hg h4] r0] eqn:Eh. apply read_groups_ok in Eh as [Hh Hhl].
  destruct (Nat.eqb_spec (length hg) 8) as [H8|H8].
  - intros [= <- _]. pose proof (groups_value_fits hg Hh) as Hv. by rewrite H8 in Hv.
  - destruct h4; [done|]. intros H. apply bind_Some in H as ([? ?] & _ & H). apply bind_Some in H as ([? ?] & _ & H).
    destruct (read_groups _ 0 _) as [[tg ?] r1] eqn:Et. apply read_groups_ok in Et as [Ht Htl].
    injection H as <- _. set (gs := hg ++ _).
    assert (length gs = 8%nat) as Hlen by (unfold gs; rewrite !length_app, repeat_length; lia).
    pose proof (groups_value_fits gs) as Hv. rewrite Hlen in Hv. apply Hv. unfold gs.
    repeat apply Forall_app_2; [done| |done]. apply Forall_forall. intros x Hx%list_elem_of_In%repeat_spec. by subst.
Qed.

Definition addr_fits (a : IpAddr) : Prop := match a with V4 a => fits 32 a | V6 a => fits 128 a end.

Lemma parse_ip_addr_fits s a : parse_ip_addr s = Some a -> addr_fits a.
Proof.
  unfold parse_ip_addr, parse_with. destruct (read_ipv4_addr s) as [[v4 r]|] eqn:E4.
  - destruct r; [|done]. intros [= <-]. by eapply read_ipv4_fits.
  - destruct (read_ipv6_addr s) as [[v6 r]|] eqn:E6; [|done]. destruct r; [|done]. intros [= <-]. by eapply read_ipv6_fits.
Qed.

(** ** Mapped addresses *)

(** [IpAddr::to_canonical] *)
Definition canon (a : IpAddr) : IpAddr :=
  match a with
  | V4 a => V4 a
  | V6 a => match to_ipv4_mapped a with Some v4 => V4 v4 | None => V6 a end
  end.

Lemma to_ipv4_mapped_Some a v : to_ipv4_mapped a = Some v <-> 0 <= v < 2 ^ 32 /\ a = 65535 * 2 ^ 32 + v.
Proof.
  unfold to_ipv4_mapped. pose proof (Z.div_mod a (2 ^ 32) ltac:(lia)). pose proof (Z.mod_pos_bound a (2 ^ 32) ltac:(lia)).
  destruct (Z.eqb_spec (a / 2 ^ 32) 65535) as [He|Hne].
  - split; [intros [= <-]; lia|]. intros [Hv ->]. f_equal. lia.
  - split; [done|]. intros [Hv ->]. exfalso. apply Hne. symmetry. apply Z.div_unique with v; lia.
Qed.
Lemma to_ipv4_mapped_None a : to_ipv4_mapped a = None <-> a < 65535 * 2 ^ 32 \/ 65536 * 2 ^ 32 <= a.
Proof.
  destruct (to_ipv4_mapped a) as [v|] eqn:E.
  - apply to_ipv4_mapped_Some in E. split; [done|lia].
  - split; [|done]. intros _. destruct (decide (65535 * 2 ^ 32 <= a < 65536 * 2 ^ 32)); [|lia].
    assert (to_ipv4_mapped a = Some (a - 65535 * 2 ^ 32)); [|congruence]. apply to_ipv4_mapped_Some. lia.
Qed.

(** ** The alphabet of addresses *)

Definition addr_char (c : Z) : bool := is_ascii_hexdigit c || (c =? colon) || (c =? dot) || (c =? slash).
Definition addr_text (s : str) : Prop := Forall (fun c => addr_char c = true) s.

(** What the [ipnet] crate parses is written with hex digits, colons, dots and
    the slash before the prefix length. *)
Class IpnetGrammar (N : Ipnet) : Prop :=
  ipnet_parse_text s n : ipnet_parse s = Some n -> addr_text s.

(** A reader only consumes characters of the alphabet. *)
Definition consumes {A} (p : Net.parser A) : Prop :=
  forall s v r, p s = Some (v, r) -> exists u, s = u ++ r /\ addr_text u.

Lemma consumes_app {s u1 r1 u2 r2 : str} :
  s = u1 ++ r1 -> addr_text u1 -> r1 = u2 ++ r2 -> addr_text u2 -> exists u, s = u ++ r2 /\ addr_text u.
Proof.
  intros -> H1 -> H2. exists (u1 ++ u2). split; [by rewrite app_assoc|by apply Forall_app_2].
Qed.

Lemma to_digit_char radix c d : radix <= 16 -> to_digit radix c = Some d -> addr_char c = true.
Proof.
  intros Hr H. unfold addr_char, is_ascii_hexdigit. unfold to_digit, is_ascii_digit in *.
  destruct ((48 <=? c) && (c <=? 57)) eqn:E1; [done|].
  destruct ((97 <=? c) && (c <=? 122)) eqn:E2; [|destruct ((65 <=? c) && (c <=? 90)) eqn:E3; [|done]];
    case_match; try done; bools; simplify_eq/=; bools.
  - rewrite (proj2 (Z.leb_le 97 c)), (proj2 (Z.leb_le c 102)) by lia. by rewrite ?orb_true_r.
  - rewrite (proj2 (Z.leb_le 65 c)), (proj2 (Z.leb_le c 70)) by lia. by rewrite ?orb_true_r.
Qed.

Lemma read_digits_text radix s ds r :
  radix <= 16 -> read_digits radix s = (ds, r) -> exists u, s = u ++ r /\ addr_text u.
Proof.
  intros Hr. revert ds r; induction s as [|c s IH]; intros ds r; cbn [read_digits].
  - intros [= <- <-]. exists []. split; [done|constructor].
  - destruct (to_digit radix c) as [d|] eqn:Ed.
    + destruct (read_digits radix s) as [ds' r'] eqn:E. intros [= <- <-]. destruct (IH _ _ eq_refl) as (u & -> & Hu).
      exists (c :: u). split; [done|]. constructor; [|done]. by eapply to_digit_char.
    + intros [= <- <-]. exists []. split; [done|constructor].
Qed.

Lemma read_number_consumes radix k zero w : radix <= 16 -> consumes (read_number radix k zero w).
Proof.
  intros Hr s v r. unfold read_number. destruct (read_digits radix s) as [ds r'] eqn:E. intros H.
  repeat case_match; try done. injection H as _ <-. by eapply read_digits_text.
Qed.
Lemma read_given_char_consumes c : addr_char c = true -> consumes (read_given_char c).
Proof.
  intros Hc s v r. unfold read_given_char. destruct s as [|x s]; [done|]. destruct (Z.eqb_spec x c) as [->|]; [|done].
  intros [= _ <-]. exists [c]. split; [done|]. by constructor.
Qed.
Lemma read_separator_consumes {A} sep i (p : Net.parser A) :
  addr_char sep = true -> consumes p -> consumes (read_separator sep i p).
Proof.
  intros Hc Hp s v r. unfold read_separator. destruct i; [apply Hp|]. intros H.
  apply bind_Some in H as ([[] r1] & H1 & H). apply (read_given_char_consumes sep Hc) in H1 as (u1 & E1 & T1).
  apply Hp in H as (u2 & E2 & T2). by eapply consumes_app.
Qed.

Lemma read_ipv4_consumes : consumes read_ipv4_addr.
Proof.
  assert (Hp : forall i, consumes (read_separator dot i (read_number 10 3 false 8))).
  { intros i. apply read_separator_consumes; [done|]. by apply read_number_consumes. }
  intros s v r H. unfold read_ipv4_addr in H.
  apply bind_Some in H as ([a ra] & (ua & Ea & Ta)%Hp & H). apply bind_Some in H as ([b rb] & (ub & Eb & Tb)%Hp & H).
  apply bind_Some in H as ([c rc] & (uc & Ec & Tc)%Hp & H). apply bind_Some in H as ([d rd] & (ud & Ed & Td)%Hp & H).
  injection H as _ <-. destruct (consumes_app Ea Ta Eb Tb) as (u1 & E1 & T1).
  destruct (consumes_app E1 T1 Ec Tc) as (u2 & E2 & T2). exact (consumes_app E2 T2 Ed Td).
Qed.

Lemma read_groups_consumes limit i s gs v4 r :
  read_groups limit i s = (gs, v4, r) -> exists u, s = u ++ r /\ addr_text u.
Proof.
  revert i s gs v4 r; induction limit as [|limit IH]; intros i s gs v4 r; cbn [read_groups].
  { intros [= <- <- <-]. exists []. split; [done|constructor]. }
  destruct (if (1 <? S limit)%nat then _ else _) as [[a r']|] eqn:E4.
  - destruct (1 <? S limit)%nat; [|done]. intros [= <- <- <-].
    by apply (read_separator_consumes colon i _ eq_refl read_ipv4_consumes) in E4.
  - destruct (read_separator colon i (read_number 16 4 true 16) s) as [[g r']|] eqn:Eg.
    + destruct (read_groups limit (S i) r') as [[gs' v4'] r2] eqn:Er. intros [= <- <- <-].
      apply IH in Er as (u2 & E2 & T2).
      apply (read_separator_consumes colon i _ eq_refl (read_number_consumes 16 4 true 16 ltac:(lia))) in Eg as (u1 & E1 & T1).
      by eapply consumes_app.
    + intros [= <- <- <-]. exists []. split; [done|constructor].
Qed.

Lemma read_ipv6_consumes : consumes read_ipv6_addr.
Proof.
  intros s v r. unfold read_ipv6_addr. destruct (read_groups 8 0 s) as [[hg h4] r0] eqn:Eh.
  apply read_groups_consumes in Eh as (u1 & E1 & T1).
  destruct (_ =? _)%nat; [intros [= _ <-]; eauto|]. destruct h4; [done|]. intros H.
  apply bind_Some in H as ([? ra] & (ua & Ea & Ta)%(read_given_char_consumes colon eq_refl) & H).
  apply bind_Some in H as ([? rb] & (ub & Eb & Tb)%(read_given_char_consumes colon eq_refl) & H).
  destruct (read_groups _ 0 rb) as [[tg ?] r1] eqn:Et. apply read_groups_consumes in Et as (u2 & E2 & T2).
  injection H as _ <-. destruct (consumes_app E1 T1 Ea Ta) as (w1 & Ew1 & Tw1).
  destruct (consumes_app Ew1 Tw1 Eb Tb) as (w2 & Ew2 & Tw2). exact (consumes_app Ew2 Tw2 E2 T2).
Qed.

Lemma parse_with_text {A} (p : Net.parser A) s a : consumes p -> parse_with p s = Some a -> addr_text s.
Proof.
  intros Hp. unfold parse_with. destruct (p s) as [[x [|? ?]]|] eqn:E; try done. intros _.
  apply Hp in E as (u & -> & Hu). by rewrite app_nil_r.
Qed.

Lemma parse_ip_addr_text s a : parse_ip_addr s = Some a -> addr_text s.
Proof.
  apply parse_with_text. intros s' v r. destruct (read_ipv4_addr s') as [[v4 r']|] eqn:E4.
  - intros [= _ <-]. by apply read_ipv4_consumes in E4.
  - destruct (read_ipv6_addr s') as [[v6 r']|] eqn:E6; [|done]. intros [= _ <-]. by apply read_ipv6_consumes in E6.
Qed.

Lemma cidr_grammar : IpnetGrammar CidrNet.inst.
Proof.
  assert (Hgen : forall (A B : Type) (p : str -> option A) (q : A -> Z -> option B) s n,
    (forall s a, p s = Some a -> addr_text s) ->
    ('(a, l) ← split_once slash s; a ← p a; l ← CidrNet.parse_len l; q a l) = Some n -> addr_text s).
  { intros A B p q s n Hp H. apply bind_Some in H as ([a l] & Hs & H). apply bind_Some in H as (x & Hx & H).
    apply bind_Some in H as (y & Hy & _). apply split_once_Some in Hs as [-> _]. apply Forall_app_2; [by eapply Hp|].
    constructor; [done|]. apply (parse_with_text (read_number 10 3 true 8) l y); [|done]. by apply read_number_consumes. }
  intros s n H. cbn in H. destruct (CidrNet.parse4 s) as [n4|] eqn:E4.
  - eapply Hgen; [|exact E4]. intros s' a'. unfold parse_ipv4_addr. destruct (_ <? _)%nat; [done|].
    apply parse_with_text, read_ipv4_consumes.
  - apply fmap_Some in H as (n6 & E6 & _). eapply Hgen; [|exact E6]. intros s' a'.
    apply parse_with_text, read_ipv6_consumes.
Qed.

Lemma from_str_radix_fits radix w s v : from_str_radix radix w s = Some v -> fits w v.
Proof.
  unfold from_str_radix, parse_with, read_number_unbounded. intros H.
  set (t := match s with c :: r => _ | [] => _ end) in H. clearbody t.
  destruct (read_digits radix t) as [ds r]. destruct (is_empty ds); [done|].
  destruct (fitsb w _) eqn:E; [|done]. destruct r; [|done]. injection H as <-.
  by apply fitsb_spec.
Qed.
