(* ===== verification/Util.v ===== *)
(** * Util: the shared protocol helpers of src/util.rs

    [find_sub], the HTTP head readers over a fragmented byte stream,
    [split_host_port], [host_of] and [constant_time_eq]. An [AsyncRead] is the
    script of what its reads deliver ([Reader.t]); the head reader is shown to
    terminate on every script and to return the same head whatever the
    fragmentation of the stream. *)

From Stdlib Require Import ZArith Lia String.
From stdpp Require Import prelude strings list.
From S2P Require Import Prelude RustStr Net.

(** ** Byte streams: the results the successive reads of an [AsyncRead] deliver.
    A chunk longer than the buffer is delivered over several reads; the end of
    the script is the end of the stream. *)
Module Reader.

Definition t : Type := list (result unit (list Z)).

(** [s.read(&mut buf)] with a buffer of [n] bytes *)
Definition read (n : nat) (r : t) : result unit (list Z) * t :=
  match r with
  | [] => (Ok [], [])
  | Err e :: r => (Err e, r)
  | Ok c :: r => if (length c <=? n)%nat then (Ok c, r) else (Ok (take n c), Ok (drop n c) :: r)
  end.

(** The bytes the stream delivers before its end, when no read fails: an empty
    chunk is an end-of-stream report. *)
Fixpoint bytes (r : t) : list Z :=
  match r with
  | Ok (b :: c) :: r => (b :: c) ++ bytes r
  | _ => []
  end.
Fixpoint no_error (r : t) : bool :=
  match r with
  | [] => true
  | Ok [] :: _ => true
  | Ok (_ :: _) :: r => no_error r
  | Err _ :: _ => false
  end.

Lemma read_ok n r : (0 < n)%nat -> no_error r = true ->
  exists c r', read n r = (Ok c, r') /\ (length c <= n)%nat /\ (c = [] -> bytes r = []) /\
    (c <> [] -> bytes r = c ++ bytes r' /\ no_error r' = true).
Proof.
  intros Hn Hr. destruct r as [|[[|b c]|e] r]; [| |unfold read; case_match eqn:E|done].
  - exists [], []. split_and!; try done. simpl. lia.
  - exists [], r. split_and!; try done. simpl. lia.
  - apply Nat.leb_le in E. exists (b :: c), r. by split_and!.
  - apply Nat.leb_gt in E. simpl in E. destruct n as [|n]; [lia|]. exists (b :: take n c), (Ok (drop n c) :: r).
    simpl. rewrite length_take. split_and!; try done; [lia|]. intros _.
    destruct (drop n c) eqn:Ed; simpl.
    + apply (f_equal length) in Ed. rewrite length_drop in Ed. simpl in Ed. lia.
    + split; [|done]. rewrite <- (take_drop n c) at 1. by rewrite Ed, <- app_assoc.
Qed.

End Reader.

(** ** [find_sub] *)

Fixpoint windows (n : nat) (s : list Z) : list (list Z) :=
  match s with
  | [] => []
  | _ :: s' => if (length s <? n)%nat then [] else take n s :: windows n s'
  end.
Fixpoint position {A} (f : A -> bool) (l : list A) : option nat :=
  match l with
  | [] => None
  | x :: l => if f x then Some 0%nat else S <$> position f l
  end.

(** The slice window iterator and [Iterator::position], as [find_sub] uses them. *)
Definition find_sub (haystack needle : list Z) : option nat :=
  if is_empty needle || (length haystack <? length needle)%nat then None
  else position (fun w => str_eqb w needle) (windows (length needle) haystack).

Definition crlfcrlf : list Z := [13; 10; 13; 10].

(** ** The head readers *)

Inductive HeadError := ReadFailed | HeaderTooLarge.

(** [read_http_head_with_remainder]: [None] when the fuel runs out *)
Fixpoint head_loop (fuel : nat) (s : Reader.t) (buf : list Z) (cap : nat)
    : option (result HeadError (list Z * list Z) * Reader.t) :=
  match fuel with
  | O => None
  | S fuel =>
      match Reader.read 1024 s with
      | (Err _, s) => Some (Err ReadFailed, s)
      | (Ok tmp, s) =>
          if (length tmp =? 0)%nat then Some (Ok (buf, []), s)
          else
            let buf := buf ++ tmp in
            match find_sub buf crlfcrlf with
            | Some start =>
                let end_ := (start + 4)%nat in
                if (cap <? end_)%nat then Some (Err HeaderTooLarge, s)
                else Some (Ok (take end_ buf, drop end_ buf), s)
            | None =>
                if (cap <? length buf)%nat then Some (Err HeaderTooLarge, s)
                else head_loop fuel s buf cap
            end
      end
  end.

(** Each turn of the loop that continues has added a byte and stayed within
    [cap], so [cap + 2] turns are enough ([head_loop_terminates]). *)
Definition read_http_head_with_remainder (s : Reader.t) (cap : nat)
    : option (result HeadError (list Z * list Z) * Reader.t) :=
  head_loop (cap + 2) s [] cap.

Definition read_http_head (s : Reader.t) (cap : nat)
    : option (result HeadError (list Z) * Reader.t) :=
  match read_http_head_with_remainder s cap with
  | Some (Ok (head, remainder), s) => Some (Ok (head ++ remainder), s)
  | Some (Err e, s) => Some (Err e, s)
  | None => None
  end.

(** ** Authorities and tokens *)

(** [rest.split_once] with a two-byte pattern *)
Definition split_once_str (p s : str) : option (str * str) :=
  i ← find_sub s p; Some (take i s, drop (i + length p) s).

Definition split_host_port (t : str) : option (str * Z) :=
  let t := trim t in
  match strip_prefix [91] t with
  | Some rest =>
      '(h, p) ← split_once_str [93; colon] rest;
      p ← from_str_radix 10 16 p; Some (h, p)
  | None =>
      '(h, p) ← rsplit_once colon t;
      p ← from_str_radix 10 16 p; Some (h, p)
  end.

Definition host_of (addr : str) : str :=
  match rsplit_once colon addr with Some (h, _) => h | None => addr end.

Definition constant_time_eq (left right : str) : bool :=
  let len := Nat.max (length left) (length right) in
  let diff := Z.lxor (Z.of_nat (length left)) (Z.of_nat (length right)) in
  let diff := foldl (fun diff i =>
      let a := default 0 (left !! i) in
      let b := default 0 (right !! i) in
      Z.lor diff (Z.lxor a b)) diff (seq 0 len) in
  diff =? 0.

Example split_host_port_ex :
  split_host_port (lit "[::1]:443") = Some (lit "::1", 443) /\
  split_host_port (lit "a.example:080") = Some (lit "a.example", 80) /\
  split_host_port (lit "a.example") = None.
Proof. done. Qed.

(** ** [find_sub] is the first occurrence *)

Definition occurs_at (h p : list Z) (i : nat) : Prop := exists t, drop i h = p ++ t.

Lemma occurs_starts h p i : occurs_at h p i <-> starts_with p (drop i h) = true.
Proof. unfold occurs_at. by rewrite starts_with_spec. Qed.
#[global] Instance occurs_at_dec h p i : Decision (occurs_at h p i).
Proof. refine (cast_if (decide (starts_with p (drop i h) = true))); by rewrite occurs_starts. Defined.

Lemma take_eq_starts (s p : list Z) : take (length p) s = p <-> exists t, s = p ++ t.
Proof.
  split; [intros H; exists (drop (length p) s); by rewrite <- H at 1; rewrite take_drop|].
  intros [t ->]. by apply take_app_len.
Qed.

Lemma position_windows h p :
  p <> [] -> forall i, position (fun w => str_eqb w p) (windows (length p) h) = Some i <->
    occurs_at h p i /\ forall j, (j < i)%nat -> ~ occurs_at h p j.
Proof.
  intros Hp. unfold occurs_at. induction h as [|x h IH]; intros i.
  - simpl. split; [done|]. intros [[t Ht] _]. rewrite drop_nil in Ht. by destruct p.
  - cbn [windows]. case_match eqn:E.
    + apply Nat.ltb_lt in E. simpl in E. split; [done|]. intros [[t Ht] _].
      apply (f_equal length) in Ht. rewrite length_drop, length_app in Ht. simpl in Ht. lia.
    + cbn [position]. destruct (str_eqb _ p) eqn:Eq.
      * apply str_eqb_eq, take_eq_starts in Eq. split.
        -- intros [= <-]. split; [done|]. lia.
        -- intros [_ H]. destruct i as [|i]; [done|]. by destruct (H 0%nat); [lia|].
      * assert (~ exists t, x :: h = p ++ t) as Hno.
        { rewrite <- take_eq_starts. by apply str_eqb_neq. }
        destruct i as [|i].
        -- split; [by destruct (position _ _)|]. by intros [? _].
        -- simpl. rewrite fmap_Some. split.
           ++ intros (j & Hj & [= ->]). apply IH in Hj as [H1 H2]. split; [done|].
              intros [|k] Hk; [done|]. apply H2. lia.
           ++ intros [H1 H2]. exists i. split; [|done]. apply IH. split; [done|].
              intros j Hj. apply (H2 (S j)). lia.
Qed.

Lemma find_sub_Some h p i :
  p <> [] -> find_sub h p = Some i <-> occurs_at h p i /\ forall j, (j < i)%nat -> ~ occurs_at h p j.
Proof.
  intros Hp. unfold find_sub. destruct p as [|y p]; [done|]. cbn [is_empty orb].
  destruct (Nat.ltb_spec (length h) (length (y :: p))) as [Hl|Hl]; [|by apply position_windows].
  split; [done|]. intros [[t Ht] _]. apply (f_equal length) in Ht.
  rewrite length_drop, length_app in Ht. lia.
Qed.
Lemma occurs_first h p i : occurs_at h p i ->
  exists j, (j <= i)%nat /\ occurs_at h p j /\ forall k, (k < j)%nat -> ~ occurs_at h p k.
Proof.
  induction i as [i IH] using lt_wf_ind. intros Hi.
  destruct (decide (Exists (occurs_at h p) (seq 0 i))) as [E|E].
  - apply Exists_exists in E as (k & Hk & Ok_). apply elem_of_seq in Hk.
    destruct (IH k) as (j & ? & ? & ?); [lia|done|]. exists j. split; [lia|done].
  - exists i. split_and!; try done. intros k Hk H. apply E. apply Exists_exists. exists k.
    split; [apply elem_of_seq; lia|done].
Qed.
Lemma find_sub_None h p : p <> [] -> find_sub h p = None <-> forall i, ~ occurs_at h p i.
Proof.
  intros Hp. split.
  - intros H i Hi. destruct (occurs_first h p i Hi) as (j & _ & Hj).
    apply find_sub_Some in Hj; [congruence|done].
  - intros H. destruct (find_sub h p) as [i|] eqn:E; [|done].
    apply find_sub_Some in E as [E _]; [|done]. by destruct (H i).
Qed.

(** ** Scanning a growing buffer *)

Lemma occurs_app_l h p t i : occurs_at h p i -> p <> [] -> occurs_at (h ++ t) p i.
Proof.
  intros [u Hu] Hp. exists (u ++ t). rewrite drop_app_le; [by rewrite Hu, <- app_assoc|].
  apply (f_equal length) in Hu. rewrite length_drop, length_app in Hu. destruct p; [done|]. simpl in Hu. lia.
Qed.
Lemma occurs_app_inv h p t i :
  occurs_at (h ++ t) p i -> (i + length p <= length h)%nat -> occurs_at h p i.
Proof.
  intros [u Hu] Hl. exists (drop (length p) (drop i h)). rewrite drop_app_le in Hu by lia.
  assert (take (length p) (drop i h ++ t) = p) as E by (apply take_eq_starts; eauto).
  rewrite take_app_le in E by (rewrite length_drop; lia). rewrite <- E at 1. by rewrite take_drop.
Qed.
Lemma occurs_drop h p k i : occurs_at (drop k h) p i <-> occurs_at h p (k + i).
Proof. unfold occurs_at. by rewrite drop_drop. Qed.
Lemma occurs_bound h p i : occurs_at h p i -> (i + length p <= length h)%nat \/ p = [].
Proof.
  intros [u Hu]. apply (f_equal length) in Hu. rewrite length_drop, length_app in Hu.
  destruct p; [by right|]. simpl in *. left. lia.
Qed.

(** The first occurrence in a longer buffer is the one already found. *)
Lemma find_sub_app_Some h p t i : p <> [] -> find_sub h p = Some i -> find_sub (h ++ t) p = Some i.
Proof.
  intros Hp. rewrite !find_sub_Some by done. intros [H1 H2]. split; [by apply occurs_app_l|].
  intros j Hj Hjt. apply (H2 j Hj). apply (occurs_app_inv _ _ t); [done|].
  destruct (occurs_bound _ _ _ H1); [lia|done].
Qed.
(** After a scan without a match, only the last [length p - 1] scanned bytes
    need to be looked at again. *)
Lemma find_sub_resume h p t k :
  p <> [] -> find_sub h p = None -> k = (length h - (length p - 1))%nat ->
  find_sub (h ++ t) p = (fun i => (k + i)%nat) <$> find_sub (drop k (h ++ t)) p.
Proof.
  intros Hp Hn Hk. rewrite find_sub_None in Hn by done.
  assert (forall j, occurs_at (h ++ t) p j -> (k <= j)%nat) as Hge.
  { intros j Hj. destruct (decide (k <= j)%nat); [done|]. destruct (Hn j).
    apply (occurs_app_inv _ _ t); [done|lia]. }
  destruct (find_sub (drop k (h ++ t)) p) as [i|] eqn:E; simpl.
  - apply find_sub_Some in E as [E1 E2]; [|done]. apply find_sub_Some; [done|].
    split; [by apply occurs_drop|]. intros j Hj Hoc. pose proof (Hge j Hoc) as Hkj.
    apply (E2 (j - k)%nat); [lia|]. apply occurs_drop. by replace (k + (j - k))%nat with j by lia.
  - rewrite find_sub_None in * by done. intros j Hj. pose proof (Hge j Hj) as Hkj.
    apply (E (j - k)%nat). apply occurs_drop. by replace (k + (j - k))%nat with j by lia.
Qed.
Lemma find_sub_bound h p i : find_sub h p = Some i -> (i + length p <= length h)%nat.
Proof.
  intros H. assert (p <> []) as Hp by (by intros ->).
  apply find_sub_Some in H as [H _]; [|done]. destruct (occurs_bound _ _ _ H); done.
Qed.

(** ** The head readers: termination, and independence of the fragmentation *)

Lemma read_progress n r c r' :
  (0 < n)%nat -> Reader.read n r = (Ok c, r') -> (length c <= n)%nat.
Proof.
  unfold Reader.read. intros Hn H. repeat case_match; simplify_eq; simpl; try lia.
  - by apply Nat.leb_le.
  - rewrite length_take. lia.
Qed.

Lemma head_loop_terminates fuel s buf cap :
  (cap + 2 <= fuel + length buf)%nat -> (length buf <= cap)%nat ->
  is_Some (head_loop fuel s buf cap).
Proof.
  revert s buf; induction fuel as [|fuel IH]; intros s buf Hf Hb; [lia|].
  cbn [head_loop]. destruct (Reader.read 1024 s) as [[tmp|e] s'] eqn:Er; [|eauto].
  destruct (Nat.eqb_spec (length tmp) 0); [eauto|]. cbv zeta.
  destruct (find_sub (buf ++ tmp) crlfcrlf); [case_match; eauto|].
  destruct (Nat.ltb_spec cap (length (buf ++ tmp))) as [|Hle]; [eauto|].
  rewrite length_app in Hle. apply IH; rewrite ?length_app; lia.
Qed.

(** What the readers should return on the bytes of the stream: the bytes up to
    and including the first blank line, if they fit. *)
Definition head_spec (cap : nat) (data : list Z) : result HeadError (list Z) :=
  match find_sub data crlfcrlf with
  | Some i => if (cap <? i + 4)%nat then Err HeaderTooLarge else Ok (take (i + 4) data)
  | None => if (cap <? length data)%nat then Err HeaderTooLarge else Ok data
  end.

Lemma head_spec_exceeds cap buf t :
  find_sub buf crlfcrlf = None -> (cap < length buf)%nat -> head_spec cap (buf ++ t) = Err HeaderTooLarge.
Proof.
  intros Hn Hl. unfold head_spec. destruct (find_sub (buf ++ t) crlfcrlf) as [i|] eqn:E.
  - destruct (Nat.ltb_spec cap (i + 4)); [done|]. exfalso.
    apply find_sub_Some in E as [E _]; [|done]. rewrite find_sub_None in Hn by done.
    apply (Hn i). apply (occurs_app_inv _ _ t); [done|]. simpl. lia.
  - destruct (Nat.ltb_spec cap (length (buf ++ t))) as [|H]; [done|]. rewrite length_app in H. lia.
Qed.

Lemma head_loop_exact fuel s buf cap o :
  Reader.no_error s = true -> find_sub buf crlfcrlf = None -> (length buf <= cap)%nat ->
  head_loop fuel s buf cap = Some o ->
  match o with
  | (Ok (head, remainder), s') =>
      head_spec cap (buf ++ Reader.bytes s) = Ok head /\
      (head <> buf ++ Reader.bytes s -> buf ++ Reader.bytes s = head ++ remainder ++ Reader.bytes s')
  | (Err e, _) => head_spec cap (buf ++ Reader.bytes s) = Err e
  end.
Proof.
  revert s buf; induction fuel as [|fuel IH]; intros s buf Hs Hn Hl H; [done|]. cbn [head_loop] in H.
  destruct (Reader.read_ok 1024 s) as (c & s' & Er & _ & Heof & Hmore); [lia|done|]. rewrite Er in H.
  destruct (Nat.eqb_spec (length c) 0) as [Hc|Hc].
  - apply nil_length_inv in Hc. simplify_eq. rewrite Heof, app_nil_r by done. unfold head_spec.
    rewrite Hn. destruct (Nat.ltb_spec cap (length buf)); [lia|done].
  - destruct Hmore as [-> Hs']; [by intros ->|]. cbv zeta in H. rewrite (assoc_L (++)).
    destruct (find_sub (buf ++ c) crlfcrlf) as [i|] eqn:Ef.
    + pose proof (find_sub_bound _ _ _ Ef) as Hb. simpl in Hb. unfold head_spec.
      rewrite (find_sub_app_Some _ _ (Reader.bytes s') i) by done.
      destruct (cap <? i + 4)%nat; simplify_eq; [done|].
      rewrite (take_app_le (buf ++ c)) by lia. split; [done|]. intros _.
      by rewrite (assoc_L (++) (take _ _)), take_drop.
    + destruct (Nat.ltb_spec cap (length (buf ++ c))); simplify_eq; [by apply head_spec_exceeds|].
      by apply (IH s' (buf ++ c)).
Qed.

(** When the stream holds a blank line within the cap, the head is found and
    the stream is left where the remainder ends. *)
Lemma head_loop_found fuel s buf cap i o :
  Reader.no_error s = true -> find_sub buf crlfcrlf = None -> (length buf <= cap)%nat ->
  find_sub (buf ++ Reader.bytes s) crlfcrlf = Some i -> (i + 4 <= cap)%nat ->
  head_loop fuel s buf cap = Some o ->
  exists remainder s', o = (Ok (take (i + 4) (buf ++ Reader.bytes s), remainder), s') /\ Reader.no_error s' = true /\
    remainder ++ Reader.bytes s' = drop (i + 4) (buf ++ Reader.bytes s).
Proof.
  revert s buf; induction fuel as [|fuel IH]; intros s buf Hs Hn Hb Hi Hcap H; [done|]. cbn [head_loop] in H.
  destruct (Reader.read_ok 1024 s) as (c & s' & Er & _ & Heof & Hmore); [lia|done|]. rewrite Er in H.
  destruct (Nat.eqb_spec (length c) 0) as [Hc|Hc].
  { apply nil_length_inv in Hc. rewrite Heof, app_nil_r in Hi by done. congruence. }
  destruct Hmore as [Eb Hs']; [by intros ->|]. rewrite Eb, (assoc_L (++)) in Hi |- *. cbv zeta in H.
  destruct (find_sub (buf ++ c) crlfcrlf) as [j|] eqn:Ef.
  - pose proof (find_sub_bound _ _ _ Ef) as Hbd. simpl in Hbd.
    rewrite (find_sub_app_Some _ _ (Reader.bytes s') j) in Hi by done. injection Hi as ->.
    rewrite (proj2 (Nat.ltb_ge _ _)) in H by done. injection H as <-.
    rewrite (take_app_le (buf ++ c)), (drop_app_le (buf ++ c)) by lia. do 2 eexists. split; [reflexivity|done].
  - destruct (Nat.ltb_spec cap (length (buf ++ c))) as [Hlt|Hge]; [|by apply (IH s' (buf ++ c))].
    pose proof (head_spec_exceeds cap (buf ++ c) (Reader.bytes s') Ef Hlt) as Hx. unfold head_spec in Hx. rewrite Hi in Hx.
    by rewrite (proj2 (Nat.ltb_ge _ _)) in Hx.
Qed.
Lemma read_head_found s cap i :
  Reader.no_error s = true -> find_sub (Reader.bytes s) crlfcrlf = Some i -> (i + 4 <= cap)%nat ->
  exists remainder s', read_http_head_with_remainder s cap = Some (Ok (take (i + 4) (Reader.bytes s), remainder), s') /\
    Reader.no_error s' = true /\ remainder ++ Reader.bytes s' = drop (i + 4) (Reader.bytes s).
Proof.
  intros Hs Hi Hcap. destruct (head_loop_terminates (cap + 2) s [] cap) as [o E]; [simpl; lia..|].
  destruct (head_loop_found _ _ [] _ i o Hs eq_refl (Nat.le_0_l _) Hi Hcap E) as (rem & s' & -> & H). eauto.
Qed.

(** On every stream whose reads do not fail, however it is fragmented, the
    head reader terminates within its fuel and returns exactly the bytes up to
    and including the first blank line (or the whole stream when it ends without
    one), or reports a header larger than the cap; it never consumes a byte of
    the payload without handing it over as remainder. *)
Theorem read_http_head_exact s cap :
  Reader.no_error s = true ->
  exists r s', read_http_head_with_remainder s cap = Some (r, s') /\
    match r with
    | Ok (head, remainder) =>
        head_spec cap (Reader.bytes s) = Ok head /\
        (head <> Reader.bytes s -> Reader.bytes s = head ++ remainder ++ Reader.bytes s')
    | Err e => head_spec cap (Reader.bytes s) = Err e
    end.
Proof.
  intros Hs. destruct (head_loop_terminates (cap + 2) s [] cap) as [[r s'] E]; [simpl; lia..|].
  exists r, s'. split; [done|]. exact (head_loop_exact _ _ [] _ (r, s') Hs eq_refl (Nat.le_0_l _) E).
Qed.

Definition demo_stream : Reader.t := [Ok (lit "GET / HTTP/1.1"); Ok [13]; Ok [10; 13]; Ok (10 :: lit "body"); Ok (lit "!")].
Lemma read_http_head_exact_witness :
  exists r s', read_http_head_with_remainder demo_stream 64 = Some (r, s') /\
    match r with
    | Ok (head, remainder) =>
        head_spec 64 (Reader.bytes demo_stream) = Ok head /\
        (head <> Reader.bytes demo_stream -> Reader.bytes demo_stream = head ++ remainder ++ Reader.bytes s')
    | Err e => head_spec 64 (Reader.bytes demo_stream) = Err e
    end.
Proof. apply (read_http_head_exact demo_stream 64). reflexivity. Defined.

Example demo_stream_run :
  read_http_head_with_remainder demo_stream 64
  = Some (Ok (lit "GET / HTTP/1.1" ++ crlfcrlf, lit "body"), [Ok (lit "!")]).
Proof. reflexivity. Qed.

(** ** [constant_time_eq] decides equality *)

Lemma foldl_lor_zero {A} (f : A -> Z) (l : list A) d :
  foldl (fun d i => Z.lor d (f i)) d l = 0 <-> d = 0 /\ Forall (fun i => f i = 0) l.
Proof.
  revert d; induction l as [|x l IH]; intros d; simpl; [rewrite Forall_nil; naive_solver|].
  rewrite IH, Z.lor_eq_0_iff, Forall_cons. tauto.
Qed.
Lemma constant_time_eq_spec l r : constant_time_eq l r = true <-> l = r.
Proof.
  unfold constant_time_eq. rewrite Z.eqb_eq, foldl_lor_zero, Z.lxor_eq_0_iff, Forall_forall.
  split; [|intros ->; split; [done|]; intros; apply Z.lxor_nilpotent].
  intros [Hl H]. apply list_eq_same_length with (n := length l); [lia|lia|].
  intros i x y Hi Hx Hy. specialize (H i). rewrite Hx, Hy in H. simpl in H. apply Z.lxor_eq_0_iff, H, elem_of_seq. lia.
Qed.
