(* ===== verification/Sniff.v ===== *)
(** * Sniff: bounded classification of initial TCP payload bytes (src/sniff.rs)

    [ObserveState] watches the first bytes of a stream, decides between TLS and
    HTTP on the first byte and records one observation: the server name of the
    ClientHello, the host of the HTTP request, or why there is none. The rustls
    acceptor, httparse and the url crate are parameters ([Rustls], [Httparse],
    [UrlCrate]); normalization of names, the incremental HTTP scan, the limits,
    the deadlines and the capture loop are the code's own. *)

From Stdlib Require Import ZArith Lia String.
From stdpp Require Import prelude strings list.
From S2P Require Import Prelude RustStr Net Util.

(** ** The crates the classifier calls *)

(** [rustls::server::Acceptor]: [read_tls] takes what is left in the cursor and
    reports how many bytes it consumed; [accept] yields the ClientHello's
    server name once the hello is complete. *)
Class Rustls := {
  Acceptor : Type;
  Acceptor_default : Acceptor;
  read_tls : Acceptor -> list Z -> result unit nat * Acceptor;
  accept : Acceptor -> result unit (option (option str)) * Acceptor;
}.
(** The [Read] contract of a cursor: no more bytes than are left. *)
Class RustlsLaws (R : Rustls) : Prop :=
  read_tls_bound a s n a' : read_tls a s = (Ok n, a') -> (n <= length s)%nat.

Record HttpRequest := mkRequest {
  method : option str;
  path : option str;
  headers : list (str * list Z);
}.
Inductive HttpStatus := HttpPartial | HttpComplete (r : HttpRequest).
(** [httparse::Request::parse] with room for a number of headers. *)
Class Httparse := parse_request : nat -> list Z -> result unit HttpStatus.

Inductive UrlHost := UrlDomain (d : str) | UrlIpv4 (a : Z) | UrlIpv6 (a : Z).
Record Url := mkUrl {
  scheme : str;
  username : str;
  password : option str;
  fragment : option str;
  url_host : option UrlHost;
  port_or_known_default : option Z;
  url_path : str;
  url_query : option str;
}.
(** [url::Url::parse] *)
Class UrlCrate := url_parse : str -> option Url.

(** ** Data *)

Definition HARD_MAX_SNIFF_BYTES : nat := Z.to_nat (64 * 1024).

Inductive SniffProtocol := Tls | Http.
Record SniffedHost := mkSniffed { protocol : SniffProtocol; host : str }.
Inductive SniffResult :=
| RMatched (v : SniffedHost)
| RNeedMore
| RUnsupported
| RMalformed
| RLimitExceeded.
Inductive SniffOutcome := Matched | Unsupported | Timeout | Malformed | LimitExceeded | Incomplete.
Record SniffObservation := mkObs {
  outcome : SniffOutcome;
  obs_protocol : option SniffProtocol;
  obs_host : option str;
}.
#[global] Instance SniffProtocol_dec : EqDecision SniffProtocol.
Proof. solve_decision. Defined.
#[global] Instance SniffedHost_dec : EqDecision SniffedHost.
Proof. solve_decision. Defined.
#[global] Instance SniffResult_dec : EqDecision SniffResult.
Proof. solve_decision. Defined.
#[global] Instance SniffOutcome_dec : EqDecision SniffOutcome.
Proof. solve_decision. Defined.
#[global] Instance SniffObservation_dec : EqDecision SniffObservation.
Proof. solve_decision. Defined.

Definition terminal (o : SniffOutcome) : SniffObservation := mkObs o None None.
Definition obs_matched (v : SniffedHost) : SniffObservation :=
  mkObs Matched (Some (protocol v)) (Some (host v)).
Definition matched (p : SniffProtocol) (h : str) : SniffResult := RMatched (mkSniffed p h).

(** ** Names *)

Definition is_ascii_alphanumeric (b : Z) : bool :=
  is_ascii_digit b || is_ascii_uppercase b || is_ascii_lowercase b.
(** [u8::is_ascii_whitespace]: no vertical tab *)
Definition is_ascii_whitespace (b : Z) : bool :=
  (b =? 9) || (b =? 10) || (b =? 12) || (b =? 13) || (b =? 32).
Definition is_ascii (s : str) : bool := forallb (fun b => b <? 128) s.
Definition zero : Z := 48.

Definition parse_ipv4_number (part : str) : option Z :=
  if is_empty part then None
  else match (match strip_prefix (lit "0x") part with
              | Some hex => Some hex
              | None => strip_prefix (lit "0X") part
              end) with
       | Some hex => if is_empty hex then Some 0 else from_str_radix 16 64 hex
       | None =>
           if (1 <? length part)%nat && starts_with [zero] part then
             match from_str_radix 8 64 part with
             | Some v => Some v
             | None => from_str_radix 10 64 part
             end
           else from_str_radix 10 64 part
       end.

(** The loop of [is_legacy_ipv4_address]: [None] is its early [return false]. *)
Fixpoint legacy_parts (parts : list Z) (labels : list str) : option (list Z) :=
  match labels with
  | [] => Some parts
  | part :: labels =>
      if (length parts =? 4)%nat then None
      else v ← parse_ipv4_number part; legacy_parts (parts ++ [v]) labels
  end.
Definition is_legacy_ipv4_address (h : str) : bool :=
  match legacy_parts [] (split dot h) with
  | Some [a] => a <=? u32_max
  | Some [a; b] => (a <=? 0xff) && (b <=? 0xffffff)
  | Some [a; b; c] => (a <=? 0xff) && (b <=? 0xff) && (c <=? 0xffff)
  | Some [a; b; c; d] => forallb (fun p => p <=? 0xff) [a; b; c; d]
  | _ => false
  end.

Definition option_test {A} (f : A -> bool) (o : option A) : bool :=
  match o with Some x => f x | None => false end.

(** One label of the loop in [normalize_dns_name]. *)
Definition label_bad (label : str) : bool :=
  is_empty label
  || (63 <? length label)%nat
  || negb (forallb (fun b => is_ascii_alphanumeric b || (b =? 45)) label)
  || negb (option_test is_ascii_alphanumeric (head label))
  || negb (option_test is_ascii_alphanumeric (last label)).

Definition is_Some_b {A} (o : option A) : bool := match o with Some _ => true | None => false end.

Definition normalize_dns_name (h : str) : option str :=
  let h := trim_end_matches dot (trim h) in
  if is_empty h
     || (253 <? length h)%nat
     || negb (is_ascii h)
     || is_Some_b (parse_ip_addr h)
     || is_legacy_ipv4_address h
  then None
  else if existsb label_bad (split dot h) then None
  else Some (to_ascii_lowercase h).

(** [s.matches(c).count()] *)
Definition count_matches (c : Z) (s : str) : nat := length (filter (fun b => b = c) s).

Definition normalize_http_authority (authority : str) : option str :=
  let authority := trim authority in
  if is_empty authority
     || starts_with [91] authority
     || existsb (fun b => (b =? 64) || (b =? slash) || (b =? 92)) authority
     || existsb is_ascii_whitespace authority
  then None
  else
    match count_matches colon authority with
    | 0%nat => normalize_dns_name authority
    | 1%nat =>
        '(h, port) ← rsplit_once colon authority;
        port ← from_str_radix 10 16 port;
        if port =? 0 then None else normalize_dns_name h
    | _ => None
    end.

Definition normalize_connect_authority (authority : str) : option str :=
  if (count_matches colon authority =? 1)%nat then normalize_http_authority authority else None.

Fixpoint skip_crlf (prefix : list Z) : list Z :=
  match prefix with
  | x :: ((y :: prefix') as rest) => if (x =? 13) && (y =? 10) then skip_crlf prefix' else prefix
  | _ => prefix
  end.
Definition is_http_token_byte (b : Z) : bool :=
  is_ascii_alphanumeric b || existsb (Z.eqb b) (lit "!#$%&'*+-.^_`|~").
Definition could_be_http (prefix : list Z) : bool :=
  let prefix := skip_crlf prefix in
  match prefix with
  | [] => true
  | b :: _ => str_eqb prefix [13] || is_http_token_byte b
  end.

(** ** The classifiers *)
Section classify.
Context {R : Rustls} {HP : Httparse} {UC : UrlCrate}.

Definition normalize_absolute_http_target (target : str) : option str :=
  url ← url_parse target;
  if negb (str_eqb (scheme url) (lit "http") || str_eqb (scheme url) (lit "https"))
     || negb (is_empty (username url))
     || is_Some_b (password url)
     || is_Some_b (fragment url)
  then None
  else h ← url_host url;
       match h with
       | UrlDomain h => normalize_dns_name h
       | UrlIpv4 _ | UrlIpv6 _ => None
       end.

Fixpoint unique_http_host_from (found : option str) (hs : list (str * list Z))
    : result unit (option str) :=
  match hs with
  | [] => Ok found
  | (name, value) :: hs =>
      if negb (eq_ignore_ascii_case name (lit "host")) then unique_http_host_from found hs
      else if is_Some_b found then Err tt
      else if negb (utf8_valid value) then Err tt
      else h ← ok_or (normalize_http_authority value) tt;
           unique_http_host_from (Some h) hs
  end.
Definition unique_http_host (hs : list (str * list Z)) : result unit (option str) :=
  unique_http_host_from None hs.

Definition http_request_host (request : HttpRequest) : result unit (option str) :=
  header_host ← unique_http_host (headers request);
  method ← ok_or (method request) tt;
  target ← ok_or (path request) tt;
  if eq_ignore_ascii_case method (lit "CONNECT") then
    h ← ok_or (normalize_connect_authority target) tt; Ok (Some h)
  else if starts_with (lit "http://") target || starts_with (lit "https://") target then
    h ← ok_or (normalize_absolute_http_target target) tt; Ok (Some h)
  else if str_eqb target (lit "*") || starts_with [slash] target then Ok header_host
  else Err tt.

Definition classify_http (prefix : list Z) : SniffResult :=
  match parse_request 64 prefix with
  | Ok HttpPartial => RNeedMore
  | Err _ => RMalformed
  | Ok (HttpComplete request) =>
      match http_request_host request with
      | Err _ => RMalformed
      | Ok (Some h) => matched Http h
      | Ok None => RUnsupported
      end
  end.

(** The two loops over [read_tls]/[accept]; [None] when the fuel runs out. *)
Fixpoint classify_tls_loop (fuel : nat) (acceptor : Acceptor) (rest : list Z) : option SniffResult :=
  match fuel with
  | O => None
  | S fuel =>
      match read_tls acceptor rest with
      | (Err _, _) => Some RMalformed
      | (Ok read, acceptor) =>
          match accept acceptor with
          | (Ok (Some name), _) =>
              Some match name with
                   | Some h => match normalize_dns_name h with
                               | Some h => matched Tls h
                               | None => RMalformed
                               end
                   | None => RUnsupported
                   end
          | (Ok None, acceptor) =>
              if (read =? 0)%nat then Some RNeedMore else classify_tls_loop fuel acceptor (drop read rest)
          | (Err _, _) => Some RMalformed
          end
      end
  end.
(** One turn per byte and a last one are enough ([classify_tls_total]). *)
Definition classify_tls (prefix : list Z) : SniffResult :=
  default RNeedMore (classify_tls_loop (S (length prefix)) Acceptor_default prefix).

Definition classify_prefix (prefix : list Z) (max_bytes : nat) : SniffResult :=
  let limit := Nat.min max_bytes HARD_MAX_SNIFF_BYTES in
  if (limit <? length prefix)%nat then RLimitExceeded
  else
    let r := match prefix with
             | [] => RNeedMore
             | b :: _ => if b =? 0x16 then classify_tls prefix
                         else if could_be_http prefix then classify_http prefix
                         else RUnsupported
             end in
    if bool_decide (r = RNeedMore) && (limit <=? length prefix)%nat then RLimitExceeded else r.

Fixpoint observe_tls_loop (fuel : nat) (acceptor : Acceptor) (rest : list Z)
    : option (option SniffObservation * Acceptor) :=
  match fuel with
  | O => None
  | S fuel =>
      match read_tls acceptor rest with
      | (Err _, acceptor) => Some (Some (terminal Malformed), acceptor)
      | (Ok read, acceptor) =>
          match accept acceptor with
          | (Ok (Some name), acceptor) =>
              Some (Some match name with
                         | Some h => match normalize_dns_name h with
                                     | Some h => obs_matched (mkSniffed Tls h)
                                     | None => terminal Malformed
                                     end
                         | None => terminal Unsupported
                         end, acceptor)
          | (Ok None, acceptor) =>
              if (read =? 0)%nat then Some (None, acceptor)
              else observe_tls_loop fuel acceptor (drop read rest)
          | (Err _, acceptor) => Some (Some (terminal Malformed), acceptor)
          end
      end
  end.
Definition observe_tls_incremental (acceptor : Acceptor) (bytes : list Z)
    : option SniffObservation * Acceptor :=
  default (None, acceptor) (observe_tls_loop (S (length bytes)) acceptor bytes).

(** What a complete HTTP head is reported as. *)
Definition http_verdict (head : list Z) : SniffObservation :=
  match classify_http head with
  | RMatched v => obs_matched v
  | RUnsupported => terminal Unsupported
  | RMalformed | RNeedMore | RLimitExceeded => terminal Malformed
  end.

(** The observation, the new prefix and the new [scan_from]. *)
Definition observe_http_incremental (prefix : list Z) (scan_from : nat) (bytes : list Z)
    : option SniffObservation * list Z * nat :=
  let prefix := prefix ++ bytes in
  let start := (scan_from - 3)%nat in
  match find_sub (drop start prefix) crlfcrlf with
  | None => (None, prefix, length prefix)
  | Some relative =>
      let end_ := (start + relative + 4)%nat in
      (Some (http_verdict (take end_ prefix)), prefix, scan_from)
  end.

(** ** The observer *)

Inductive ObserveParser :=
| PUndecided
| PTls (a : Acceptor)
| PHttp (scan_from : nat)
| PDone.

(** [notified] is the stored permit of [done]. *)
Record ObserveState := mkObserve {
  parser : ObserveParser;
  prefix : list Z;
  observed_bytes : nat;
  max_bytes : nat;
  started : Z;
  timeout : Z;
  observation : option SniffObservation;
  notified : bool;
}.

Definition ObserveState_new (max_bytes : nat) (timeout now : Z) : ObserveState :=
  let max_bytes := Nat.min max_bytes HARD_MAX_SNIFF_BYTES in
  mkObserve PUndecided [] 0 max_bytes now timeout None false.

(** [self.started.elapsed() >= self.timeout] *)
Definition expired (st : ObserveState) (now : Z) : bool :=
  timeout st <=? Z.max 0 (now - started st).

Definition finish (st : ObserveState) (o : SniffObservation) : ObserveState :=
  mkObserve PDone [] (observed_bytes st) (max_bytes st) (started st) (timeout st) (Some o) true.

Definition finish_timeout (st : ObserveState) : ObserveState :=
  match observation st with
  | None => finish st (terminal Timeout)
  | Some _ => st
  end.

Definition finish_stream (st : ObserveState) (now : Z) : ObserveState :=
  match observation st with
  | Some _ => st
  | None => finish st (terminal (if expired st now then Timeout else Incomplete))
  end.

(** [snapshot] finishes an open observation and returns what is then recorded. *)
Definition snapshot (st : ObserveState) (now : Z) : option SniffObservation * ObserveState :=
  let st := match observation st with
            | None => finish st (terminal (if expired st now then Timeout else Incomplete))
            | Some _ => st
            end in
  (observation st, st).

(** The parser chosen on the first captured byte; [None] is the early return
    that reports an unsupported stream. *)
Definition decide_parser (p : ObserveParser) (captured : list Z) : option ObserveParser :=
  match p with
  | PUndecided =>
      match captured with
      | [] => Some PUndecided
      | b :: _ => if b =? 0x16 then Some (PTls Acceptor_default)
                  else if could_be_http captured then Some (PHttp 0)
                  else None
      end
  | p => Some p
  end.

(** The state after [taken] more bytes, with the given parser and prefix. *)
Definition advance (st : ObserveState) (taken : nat) (p : ObserveParser) (pre : list Z) : ObserveState :=
  mkObserve p pre (observed_bytes st + taken) (max_bytes st) (started st) (timeout st)
    (observation st) (notified st).

(** The end of [observe]: record the observation, or give up at the limit. *)
Definition settle (o : option SniffObservation) (truncated : bool) (st : ObserveState) : ObserveState :=
  match o with
  | Some o => finish st o
  | None => if truncated || (max_bytes st <=? observed_bytes st)%nat
            then finish st (terminal LimitExceeded) else st
  end.

Definition observe (st : ObserveState) (now : Z) (bytes : list Z) : ObserveState :=
  match observation st with
  | Some _ => st
  | None =>
      if expired st now then finish_timeout st
      else
        let remaining := (max_bytes st - observed_bytes st)%nat in
        let taken := Nat.min (length bytes) remaining in
        let captured := take taken bytes in
        let truncated := (taken <? length bytes)%nat in
        match decide_parser (parser st) captured with
        | None => finish (advance st taken (parser st) (prefix st)) (terminal Unsupported)
        | Some (PTls acceptor) =>
            let '(o, acceptor) := observe_tls_incremental acceptor captured in
            settle o truncated (advance st taken (PTls acceptor) (prefix st))
        | Some (PHttp scan_from) =>
            let '(o, pre, scan_from) := observe_http_incremental (prefix st) scan_from captured in
            settle o truncated (advance st taken (PHttp scan_from) pre)
        | Some p => settle None truncated (advance st taken p (prefix st))
        end
  end.

(** ** The passive wrapper [SniffingIo] *)

Inductive poll A := Pending | Ready (a : A).
Arguments Pending {A}.
Arguments Ready {A} a.

(** [poll_read] into a buffer with [room] bytes left: what the caller sees of the
    inner stream's answer, and the observer's next state. *)
Definition poll_read (st : ObserveState) (now : Z) (room : nat) (inner : poll (result unit (list Z)))
    : poll (result unit (list Z)) * ObserveState :=
  if (room =? 0)%nat then (Ready (Ok []), st)
  else match inner with
       | Ready (Ok filled) =>
           (Ready (Ok filled), if (length filled =? 0)%nat then finish_stream st now else observe st now filled)
       | Ready (Err e) => (Ready (Err e), finish_stream st now)
       | Pending => (Pending, st)
       end.

(** ** [capture_prefix] *)

Record CapturedPrefix := mkCaptured { bytes : list Z; captured_observation : option SniffObservation }.

(** The environment of a capture: the clock at the [i]-th turn, and whether the
    biased select finds the deadline elapsed then. *)
Record CaptureEnv := mkEnv { now_at : nat -> Z; deadline_at : nat -> bool }.

(** One unit of fuel per turn: [None] when it runs out. The state, the bytes
    captured, the turn reached and the rest of the stream. *)
Fixpoint capture_loop (fuel i : nat) (E : CaptureEnv) (max chunk : nat) (st : ObserveState)
    (bytes : list Z) (r : Reader.t) : option (result unit (ObserveState * list Z * nat * Reader.t)) :=
  match fuel with
  | O => None
  | S fuel =>
      match observation st with
      | Some _ => Some (Ok (st, bytes, i, r))
      | None =>
          let remaining := (max - length bytes)%nat in
          if (remaining =? 0)%nat then Some (Ok (observe st (now_at E i) [], bytes, i, r))
          else
            let read_len := Nat.min remaining chunk in
            if deadline_at E i then Some (Ok (finish_timeout st, bytes, i, r))
            else match Reader.read read_len r with
                 | (Err e, _) => Some (Err e)
                 | (Ok read, r) =>
                     if (length read =? 0)%nat then Some (Ok (finish_stream st (now_at E i), bytes, i, r))
                     else capture_loop fuel (S i) E max chunk (observe st (now_at E i) read) (bytes ++ read) r
                 end
      end
  end.

Definition capture_prefix (r : Reader.t) (max_bytes : nat) (timeout start : Z) (E : CaptureEnv)
    : option (result unit (CapturedPrefix * Reader.t)) :=
  let max_bytes := Nat.min max_bytes HARD_MAX_SNIFF_BYTES in
  let st := ObserveState_new max_bytes timeout start in
  let chunk := Nat.min (Nat.max max_bytes 1) 2048 in
  match capture_loop (max_bytes + 2) 0 E max_bytes chunk st [] r with
  | None => None
  | Some (Err e) => Some (Err e)
  | Some (Ok (st, bytes, i, r)) => Some (Ok (mkCaptured bytes (fst (snapshot st (now_at E i))), r))
  end.
End classify.
