(* ===== verification/SniffProps.v ===== *)
(** * SniffProps: what the stream classifier promises

    Names: the normalized names are exactly the canonical DNS names, and
    normalization is a retraction onto them. Observer: in every reachable state
    the observer holds at most [max_bytes] bytes and reports only canonical
    names; an observation never changes. HTTP: the observation does not depend on
    how the stream was fragmented. Capture: the loop terminates and loses no
    byte. *)

From Stdlib Require Import ZArith Lia String.
From stdpp Require Import prelude strings list.
From S2P Require Import Prelude RustStr Net NetProps Util Sniff.

(** ** Parsers that do not look at the case of letters *)

Abbreviation lower := to_ascii_lowercase.
Abbreviation lower_rest := (prod_map id lower).

Definition case_blind {A} (p : Net.parser A) : Prop := forall s, p (lower s) = lower_rest <$> p s.

Lemma ascii_lower_keep c d : is_ascii_uppercase d = false -> is_ascii_lowercase d = false ->
  (ascii_lower c =? d) = (c =? d).
Proof.
  intros Hu Hl. unfold ascii_lower. destruct (is_ascii_uppercase c) eqn:E; [|done].
  unfold is_ascii_uppercase, is_ascii_lowercase in *. lia.
Qed.
Lemma to_digit_lower radix c : to_digit radix (ascii_lower c) = to_digit radix c.
Proof.
  unfold ascii_lower. destruct (is_ascii_uppercase c) eqn:E; [|done].
  unfold to_digit, is_ascii_uppercase, is_ascii_digit in *. apply andb_true_iff in E as [E1 E2].
  apply Z.leb_le in E1, E2.
  repeat match goal with |- context [?a <=? ?b] => destruct (Z.leb_spec a b); try lia end; cbn [andb].
  by replace (c + 32 - 97 + 10) with (c - 65 + 10) by lia.
Qed.
Lemma read_digits_lower radix s :
  read_digits radix (lower s) = lower_rest (read_digits radix s).
Proof.
  induction s as [|c s IH]; [done|]. unfold lower in *. cbn [read_digits map].
  rewrite to_digit_lower. destruct (to_digit radix c); [|done]. rewrite IH.
  by destruct (read_digits radix s).
Qed.
Lemma read_number_blind radix k zero w : case_blind (read_number radix k zero w).
Proof.
  intros s. unfold read_number. rewrite read_digits_lower. destruct (read_digits radix s) as [ds r].
  cbn [prod_map fst snd id]. replace (bool_decide (head (lower s) = Some 48)) with (bool_decide (head s = Some 48)).
  { by repeat case_match. }
  destruct s as [|c s]; [done|]. simpl. apply bool_decide_ext.
  pose proof (ascii_lower_keep c 48 eq_refl eq_refl) as E. split; intros [= H].
  - f_equal. apply Z.eqb_eq. rewrite E. by apply Z.eqb_eq.
  - f_equal. apply Z.eqb_eq. rewrite <- E. by apply Z.eqb_eq.
Qed.
Lemma read_number_unbounded_blind radix w : case_blind (read_number_unbounded radix w).
Proof.
  intros s. unfold read_number_unbounded. rewrite read_digits_lower. destruct (read_digits radix s).
  simpl. by repeat case_match.
Qed.
Lemma read_given_char_blind c :
  is_ascii_uppercase c = false -> is_ascii_lowercase c = false -> case_blind (read_given_char c).
Proof. intros Hu Hl [|x s]; [done|]. simpl. rewrite ascii_lower_keep by done. by case_match. Qed.
Lemma case_blind_bind {A B} (p : Net.parser A) (k : A -> Net.parser B) :
  case_blind p -> (forall a, case_blind (k a)) -> case_blind (fun s => '(a, r) ← p s; k a r).
Proof. intros Hp Hk s. rewrite Hp. destruct (p s) as [[a r]|]; simpl; [apply Hk|done]. Qed.
Lemma read_separator_blind {A} c i (p : Net.parser A) :
  is_ascii_uppercase c = false -> is_ascii_lowercase c = false -> case_blind p ->
  case_blind (read_separator c i p).
Proof.
  intros Hu Hl Hp. destruct i; [apply Hp|]. unfold read_separator.
  apply (case_blind_bind _ (fun _ => p)); [by apply read_given_char_blind|done].
Qed.
#[export] Hint Resolve read_number_blind read_number_unbounded_blind read_given_char_blind
  read_separator_blind case_blind_bind : case_blind.

Lemma read_ipv4_blind : case_blind read_ipv4_addr.
Proof.
  unfold read_ipv4_addr. do 4 (apply case_blind_bind; [auto with case_blind|intros ?]).
  by intros s.
Qed.
#[export] Hint Resolve read_ipv4_blind : case_blind.

Lemma read_groups_lower limit i s :
  read_groups limit i (lower s) = lower_rest (read_groups limit i s).
Proof.
  revert i s; induction limit as [|limit IH]; intros i s; [done|]. cbn [read_groups].
  assert (case_blind (read_separator colon i read_ipv4_addr)) as E4 by auto with case_blind.
  assert (case_blind (read_separator colon i (read_number 16 4 true 16))) as E6 by auto with case_blind.
  replace (if (1 <? S limit)%nat then read_separator colon i read_ipv4_addr (lower s) else None)
    with (lower_rest <$> (if (1 <? S limit)%nat then read_separator colon i read_ipv4_addr s else None))
    by (rewrite E4; by case_match).
  destruct (if (1 <? S limit)%nat then _ else _) as [[v r]|]; [done|]. cbn [fmap option_fmap option_map].
  rewrite E6. destruct (read_separator _ _ _ s) as [[g r]|]; simpl; [|done].
  rewrite IH. by destruct (read_groups limit (S i) r) as [[gs b] r'].
Qed.
Lemma read_ipv6_blind : case_blind read_ipv6_addr.
Proof.
  intros s. unfold read_ipv6_addr. rewrite read_groups_lower.
  destruct (read_groups 8 0 s) as [[gs b] r]. cbn [prod_map fst snd id].
  case_match; [done|]. case_match; [done|].
  rewrite (read_given_char_blind colon eq_refl eq_refl r).
  destruct (read_given_char colon r) as [[[] r1]|]; simpl; [|done].
  rewrite (read_given_char_blind colon eq_refl eq_refl r1).
  destruct (read_given_char colon r1) as [[[] r2]|]; simpl; [|done].
  rewrite read_groups_lower. by destruct (read_groups _ 0 r2) as [[gs' b'] r3].
Qed.
Lemma parse_with_blind {A} (p : Net.parser A) s : case_blind p -> parse_with p (lower s) = parse_with p s.
Proof. intros Hp. unfold parse_with. rewrite Hp. destruct (p s) as [[a [|]]|]; done. Qed.
Lemma parse_ip_addr_lower s : parse_ip_addr (lower s) = parse_ip_addr s.
Proof.
  unfold parse_ip_addr. apply parse_with_blind. intros t. rewrite read_ipv4_blind.
  destruct (read_ipv4_addr t) as [[]|]; [done|]. simpl. rewrite read_ipv6_blind.
  by destruct (read_ipv6_addr t) as [[]|].
Qed.
Lemma from_str_radix_lower radix w s : from_str_radix radix w (lower s) = from_str_radix radix w s.
Proof.
  unfold from_str_radix. destruct s as [|c s]; [done|]. cbn [to_ascii_lowercase map].
  rewrite ascii_lower_keep by done. replace (is_empty (map ascii_lower s)) with (is_empty s) by (by destruct s).
  destruct ((c =? 43) && negb (is_empty s));
    [apply (parse_with_blind _ s)|apply (parse_with_blind _ (c :: s))]; auto with case_blind.
Qed.

(** ** Canonical DNS names *)

Definition name_byte (b : Z) : bool := is_ascii_digit b || is_ascii_lowercase b.
Definition dns_label (l : str) : Prop :=
  (1 <= length l <= 63)%nat /\ Forall (fun b => name_byte b = true \/ b = 45) l /\
  (exists b, head l = Some b /\ name_byte b = true) /\ (exists b, last l = Some b /\ name_byte b = true).
(** Lower-case letters-digits-hyphen labels, at most 253 bytes, no spelling of an
    IP address. *)
Definition dns_name (h : str) : Prop :=
  (length h <= 253)%nat /\ Forall dns_label (split dot h) /\
  parse_ip_addr h = None /\ is_legacy_ipv4_address h = false.

Lemma strip_prefix_0x_lower p :
  (match strip_prefix (lit "0x") (lower p) with Some h => Some h | None => strip_prefix (lit "0X") (lower p) end)
  = lower <$> (match strip_prefix (lit "0x") p with Some h => Some h | None => strip_prefix (lit "0X") p end).
Proof.
  change (lit "0x") with [48; 120]. change (lit "0X") with [48; 88].
  destruct p as [|a [|b p]]; try done; unfold strip_prefix, lower; cbn [map starts_with];
    rewrite ?andb_false_r; try done. rewrite !andb_true_r.
  rewrite (Z.eqb_sym 48 (ascii_lower a)), (ascii_lower_keep a 48), (Z.eqb_sym a 48) by done.
  destruct (Z.eqb_spec 48 a) as [<-|]; [|done]. cbn [andb]. unfold ascii_lower, is_ascii_uppercase.
  destruct (Z.eqb_spec 120 b) as [<-|]; [done|]. destruct (Z.eqb_spec 88 b) as [<-|]; [done|].
  destruct ((65 <=? b) && (b <=? 90)) eqn:E.
  - by rewrite (proj2 (Z.eqb_neq 120 (b + 32))), (proj2 (Z.eqb_neq 88 (b + 32))) by lia.
  - by rewrite (proj2 (Z.eqb_neq 120 b)), (proj2 (Z.eqb_neq 88 b)) by lia.
Qed.
Lemma length_lower s : length (lower s) = length s.
Proof. apply length_map. Qed.
Lemma is_empty_lower s : is_empty (lower s) = is_empty s.
Proof. by destruct s. Qed.
Lemma parse_ipv4_number_lower p : parse_ipv4_number (lower p) = parse_ipv4_number p.
Proof.
  unfold parse_ipv4_number. rewrite strip_prefix_0x_lower, is_empty_lower, length_lower.
  destruct (is_empty p); [done|].
  match goal with |- context [lower <$> ?o] => destruct o end; cbn [fmap option_fmap option_map].
  - by rewrite is_empty_lower, from_str_radix_lower.
  - rewrite !from_str_radix_lower. destruct p as [|a p]; [done|]. cbn [to_ascii_lowercase map starts_with].
    by rewrite (Z.eqb_sym _ (ascii_lower a)), (ascii_lower_keep a zero), (Z.eqb_sym a) by done.
Qed.
Lemma split_lower s : split dot (lower s) = map lower (split dot s).
Proof.
  induction s as [|c s IH]; [done|]. unfold lower in *. cbn [map split].
  rewrite ascii_lower_keep by done. destruct (c =? dot); [by rewrite IH|]. rewrite IH.
  destruct (split dot s) eqn:E; [by destruct (split_nonempty dot s)|done].
Qed.
Lemma legacy_parts_lower parts ls : legacy_parts parts (map lower ls) = legacy_parts parts ls.
Proof.
  revert parts; induction ls as [|l ls IH]; intros parts; [done|]. simpl.
  rewrite parse_ipv4_number_lower. case_match; [done|]. destruct (parse_ipv4_number l); simpl; [apply IH|done].
Qed.
Lemma is_legacy_ipv4_lower s : is_legacy_ipv4_address (lower s) = is_legacy_ipv4_address s.
Proof. unfold is_legacy_ipv4_address. by rewrite split_lower, legacy_parts_lower. Qed.

Lemma name_byte_lower b : is_ascii_alphanumeric b = true -> name_byte (ascii_lower b) = true.
Proof.
  unfold is_ascii_alphanumeric, name_byte, ascii_lower, is_ascii_uppercase, is_ascii_lowercase, is_ascii_digit.
  destruct ((65 <=? b) && (b <=? 90)) eqn:E; lia.
Qed.
Lemma name_byte_alnum b : name_byte b = true -> is_ascii_alphanumeric b = true /\ ascii_lower b = b.
Proof.
  unfold is_ascii_alphanumeric, name_byte, ascii_lower, is_ascii_uppercase, is_ascii_lowercase, is_ascii_digit.
  destruct ((65 <=? b) && (b <=? 90)) eqn:E; lia.
Qed.
Lemma head_lower s : head (lower s) = ascii_lower <$> head s.
Proof. by destruct s. Qed.
Lemma last_lower s : last (lower s) = ascii_lower <$> last s.
Proof. unfold lower. apply (fmap_last ascii_lower s). Qed.
Lemma option_test_true {A} (f : A -> bool) o : option_test f o = true <-> exists x, o = Some x /\ f x = true.
Proof. destruct o; simpl; naive_solver. Qed.

Lemma label_ok l : label_bad l = false <->
  (1 <= length l <= 63)%nat /\ Forall (fun b => is_ascii_alphanumeric b = true \/ b = 45) l /\
  (exists b, head l = Some b /\ is_ascii_alphanumeric b = true) /\
  (exists b, last l = Some b /\ is_ascii_alphanumeric b = true).
Proof.
  unfold label_bad. rewrite !orb_false_iff, !negb_false_iff, !option_test_true, is_empty_false, forallb_forall.
  rewrite Nat.ltb_ge, Forall_forall.
  assert (l <> [] <-> (1 <= length l)%nat) as -> by (destruct l; simpl; split; [done|lia|lia|done]).
  setoid_rewrite list_elem_of_In.
  assert (forall x, (is_ascii_alphanumeric x || (x =? 45)) = true <-> is_ascii_alphanumeric x = true \/ x = 45)
    as E by (intros x; by rewrite orb_true_iff, Z.eqb_eq).
  setoid_rewrite E. tauto.
Qed.
Lemma label_ok_lower l : label_bad l = false -> dns_label (lower l).
Proof.
  rewrite label_ok. intros (Hl & Hf & (b & Hb & Ab) & (c & Hc & Ac)). unfold dns_label.
  rewrite length_lower, head_lower, last_lower, Hb, Hc. split_and!; [lia|lia| | |].
  - unfold lower. apply Forall_fmap. eapply Forall_impl; [exact Hf|]. intros x [H| ->]; simpl.
    + left. by apply name_byte_lower.
    + by right.
  - eexists. split; [done|]. by apply name_byte_lower.
  - eexists. split; [done|]. by apply name_byte_lower.
Qed.
Lemma dns_label_ok l : dns_label l -> label_bad l = false.
Proof.
  intros (Hl & Hf & (b & Hb & Ab) & (c & Hc & Ac)). apply label_ok. split_and!; try lia.
  - eapply Forall_impl; [exact Hf|]. intros x [H|H]; [left; by apply name_byte_alnum|by right].
  - exists b. split; [done|]. by apply name_byte_alnum.
  - exists c. split; [done|]. by apply name_byte_alnum.
Qed.

Lemma head_app_ne {A} (l k : list A) : l <> [] -> head (l ++ k) = head l.
Proof. by destruct l. Qed.
Lemma join_ends P Q c ls :
  ls <> [] -> Forall (fun l => (exists b, head l = Some b /\ P b) /\ (exists b, last l = Some b /\ Q b)) ls ->
  (exists b, head (join [c] ls) = Some b /\ P b) /\ (exists b : Z, last (join [c] ls) = Some b /\ Q b).
Proof.
  intros Hne H. induction H as [|l ls [Hh Hl] Hls IH]; [done|]. destruct ls as [|l' ls]; [done|].
  rewrite join_cons by done. destruct IH as [_ (b & Hb & Qb)]; [done|]. split.
  - destruct Hh as (x & Hx & Px). exists x. rewrite head_app_ne; [done|]. by intros ->.
  - exists b. split; [|done]. rewrite (assoc_L (++)), last_app, Hb. done.
Qed.
Lemma dns_name_ends h : Forall dns_label (split dot h) ->
  (exists b, head h = Some b /\ name_byte b = true) /\ (exists b, last h = Some b /\ name_byte b = true).
Proof.
  intros H. rewrite <- (join_split dot h). apply join_ends; [apply split_nonempty|].
  eapply Forall_impl; [exact H|]. by intros l (_ & _ & ? & ?).
Qed.
Lemma name_byte_range b : name_byte b = true -> 48 <= b <= 57 \/ 97 <= b <= 122.
Proof. unfold name_byte, is_ascii_digit, is_ascii_lowercase. lia. Qed.

Lemma strip_ws_name b s : name_byte b = true -> strip_ws (b :: s) = None.
Proof.
  intros H%name_byte_range. unfold strip_ws, is_ascii_ws.
  replace (_ || _) with false by lia. repeat case_match; try done; lia.
Qed.
Lemma strip_ws_rev_name b s : name_byte b = true -> strip_ws_rev (b :: s) = None.
Proof.
  intros H%name_byte_range. unfold strip_ws_rev, is_ascii_ws, in_2000_200a_or_202x.
  replace (_ || _) with false by lia. repeat case_match; try done; lia.
Qed.
Lemma last_rev_cons {A} (s : list A) b : last s = Some b -> exists t, rev s = b :: t.
Proof. intros (t & ->)%last_Some. exists (rev t). by rewrite rev_app_distr. Qed.
Lemma trim_name h :
  (exists b, head h = Some b /\ name_byte b = true) -> (exists b, last h = Some b /\ name_byte b = true) ->
  trim_end_matches dot (trim h) = h.
Proof.
  intros (b & Hb & Nb) (c & Hc & Nc). destruct h as [|x h]; [done|]. injection Hb as ->.
  apply last_rev_cons in Hc as [t Ht].
  assert (trim (b :: h) = b :: h) as ->.
  { unfold trim, trim_start. rewrite strip_while_none by (by apply strip_ws_name).
    unfold trim_end. rewrite strip_while_none; [apply rev_involutive|]. rewrite Ht. by apply strip_ws_rev_name. }
  unfold trim_end_matches. rewrite Ht. simpl. apply name_byte_range in Nc.
  destruct (Z.eqb_spec c dot) as [->|]; [unfold dot in Nc; lia|]. rewrite <- Ht. apply rev_involutive.
Qed.
Lemma dns_name_bytes h : Forall dns_label (split dot h) ->
  Forall (fun b => name_byte b = true \/ b = 45 \/ b = dot) h.
Proof.
  intros H. rewrite <- (join_split dot h). pose proof (split_nonempty dot h) as Hne.
  induction H as [|l ls (_ & Hl & _) Hls IH]; [done|]. destruct ls as [|l' ls].
  - simpl. eapply Forall_impl; [exact Hl|]. naive_solver.
  - rewrite join_cons by done. apply Forall_app; split.
    + eapply Forall_impl; [exact Hl|]. naive_solver.
    + constructor; [by right; right|]. by apply IH.
Qed.
Lemma existsb_false {A} (f : A -> bool) l : existsb f l = false <-> Forall (fun x => f x = false) l.
Proof.
  induction l as [|x l IH]; simpl; [by rewrite Forall_nil|]. by rewrite orb_false_iff, Forall_cons, IH.
Qed.
Lemma is_Some_b_false {A} (o : option A) : is_Some_b o = false <-> o = None.
Proof. by destruct o. Qed.

Lemma normalize_dns_name_sound s h : normalize_dns_name s = Some h -> dns_name h.
Proof.
  unfold normalize_dns_name. set (t := trim_end_matches dot (trim s)). clearbody t. intros H.
  case_match eqn:E; [done|]. case_match eqn:El; [done|]. simplify_eq.
  rewrite !orb_false_iff, is_Some_b_false, Nat.ltb_ge in E. destruct E as ((((_ & Hl) & _) & Hip) & Hleg).
  split_and!.
  - by rewrite length_lower.
  - rewrite split_lower. apply Forall_fmap. apply existsb_false in El.
    eapply Forall_impl; [exact El|]. intros l. apply label_ok_lower.
  - by rewrite parse_ip_addr_lower.
  - by rewrite is_legacy_ipv4_lower.
Qed.
Lemma normalize_dns_name_fixed h : dns_name h -> normalize_dns_name h = Some h.
Proof.
  intros (Hlen & Hl & Hip & Hleg). unfold normalize_dns_name.
  pose proof (dns_name_ends h Hl) as [Hh Ht]. rewrite trim_name by done.
  pose proof (dns_name_bytes h Hl) as Hb. rewrite Hip, Hleg, (proj2 (Nat.ltb_ge _ _) Hlen).
  assert (is_ascii h = true) as ->.
  { apply forallb_forall. intros x Hx. rewrite Forall_forall in Hb. setoid_rewrite list_elem_of_In in Hb.
    destruct (Hb x Hx) as [H%name_byte_range|[->| ->]]; [lia|done|done]. }
  assert (is_empty h = false) as ->. { destruct h; [|done]. by destruct Hh as (? & ? & _). }
  assert (existsb label_bad (split dot h) = false) as ->.
  { apply existsb_false. eapply Forall_impl; [exact Hl|]. apply dns_label_ok. }
  simpl. f_equal. unfold lower. rewrite <- (map_id h) at 2. apply map_ext_in.
  intros x Hx. rewrite Forall_forall in Hb. setoid_rewrite list_elem_of_In in Hb.
  destruct (Hb x Hx) as [H|[->| ->]]; [by apply name_byte_alnum|done|done].
Qed.

(** The names the classifier reports and listeners are configured with are
    exactly the canonical ones: every normalized name is a lower-case DNS name of
    at most 253 bytes with letters-digits-hyphen labels that spells no IP
    address, in dotted, IPv6 or any legacy inet_aton form; and a name is canonical
    exactly when normalization leaves it unchanged. *)
Theorem normalize_dns_name_canonical s h :
  normalize_dns_name s = Some h -> dns_name h /\ (forall k, dns_name k <-> normalize_dns_name k = Some k).
Proof.
  intros H. split; [by eapply normalize_dns_name_sound|]. intros k. split.
  - apply normalize_dns_name_fixed.
  - apply normalize_dns_name_sound.
Qed.
Lemma normalize_dns_name_canonical_witness :
  dns_name (lit "a-1.example") /\ (forall k, dns_name k <-> normalize_dns_name k = Some k).
Proof. apply (normalize_dns_name_canonical (lit " A-1.Example.. ")). reflexivity. Defined.
Example normalize_rejects :
  map normalize_dns_name [lit "10.0.0.1"; lit "0x7f.1"; lit "0300.0250.1.2"; lit "::1"; lit "a..b"; lit "-a.b"; lit "*.a"]
  = repeat None 7.
Proof. reflexivity. Qed.

(** ** Hosts that are reported are canonical names *)

Section observer.
Context {R : Rustls} {HP : Httparse} {UC : UrlCrate}.

Ltac opt_inv := repeat (case_match || simplify_option_eq || res_step); simplify_eq.

Lemma http_authority_name a h : normalize_http_authority a = Some h -> dns_name h.
Proof.
  unfold normalize_http_authority. intros H. opt_inv; try done; eauto using normalize_dns_name_sound.
Qed.
Lemma connect_authority_name a h : normalize_connect_authority a = Some h -> dns_name h.
Proof. unfold normalize_connect_authority. case_match; [apply http_authority_name|done]. Qed.
Lemma absolute_target_name a h : normalize_absolute_http_target a = Some h -> dns_name h.
Proof.
  unfold normalize_absolute_http_target. intros H. opt_inv; eauto using normalize_dns_name_sound.
Qed.
Lemma unique_http_host_name found hs h :
  (forall k, found = Some k -> dns_name k) -> unique_http_host_from found hs = Ok (Some h) -> dns_name h.
Proof.
  revert found; induction hs as [|[n v] hs IH]; intros found Hf H; simpl in H; [naive_solver|].
  case_match; [by eapply IH|]. case_match; [done|]. case_match; [done|].
  destruct (normalize_http_authority v) eqn:E; simpl in H; [|done]. eapply IH; [|exact H].
  intros k [= <-]. by eapply http_authority_name.
Qed.
Lemma http_request_host_name r h : http_request_host r = Ok (Some h) -> dns_name h.
Proof.
  unfold http_request_host. intros H. res_inv.
  repeat case_match; res_inv; simplify_eq; eauto using connect_authority_name, absolute_target_name.
  by eapply (unique_http_host_name None).
Qed.

Definition observation_ok (o : SniffObservation) : Prop :=
  match outcome o with
  | Matched => exists p h, o = obs_matched (mkSniffed p h) /\ dns_name h
  | _ => obs_protocol o = None /\ obs_host o = None
  end.
Lemma terminal_ok o : o <> Matched -> observation_ok (terminal o).
Proof. by destruct o. Qed.
Lemma obs_matched_ok p h : dns_name h -> observation_ok (obs_matched (mkSniffed p h)).
Proof. intros H. by exists p, h. Qed.
Hint Resolve terminal_ok obs_matched_ok normalize_dns_name_sound : core.

Lemma classify_http_name head v : classify_http head = RMatched v -> dns_name (host v).
Proof.
  unfold classify_http. intros H. repeat case_match; try done. injection H as <-. simpl.
  by eapply http_request_host_name.
Qed.
Lemma http_verdict_ok head : observation_ok (http_verdict head).
Proof.
  unfold http_verdict. destruct (classify_http head) as [[p h]| | | |] eqn:E; auto.
  apply classify_http_name in E. auto.
Qed.
Lemma observe_tls_loop_ok fuel a rest o a' :
  observe_tls_loop fuel a rest = Some (Some o, a') -> observation_ok o.
Proof.
  revert a rest; induction fuel as [|fuel IH]; intros a rest H; simpl in H; [done|].
  destruct (read_tls a rest) as [[read|] a1]; [|simplify_eq; auto].
  destruct (accept a1) as [[[[n|]|]|] a2]; simplify_eq; [case_match; eauto|auto| |auto].
  case_match; simplify_eq. eauto.
Qed.
Lemma observe_tls_ok a bytes o a' :
  observe_tls_incremental a bytes = (Some o, a') -> observation_ok o.
Proof.
  unfold observe_tls_incremental. destruct (observe_tls_loop _ _ _) as [[]|] eqn:E; simpl; intros [= -> ->].
  by eapply observe_tls_loop_ok.
Qed.

(** ** The TLS loops stop *)

Lemma observe_tls_total {RL : RustlsLaws R} fuel a rest :
  (length rest < fuel)%nat -> is_Some (observe_tls_loop fuel a rest).
Proof.
  revert a rest; induction fuel as [|fuel IH]; intros a rest H; [lia|]. simpl.
  destruct (read_tls a rest) as [[read|] a1] eqn:Er; [|eauto]. apply read_tls_bound in Er.
  destruct (accept a1) as [[[n|]|] a2]; eauto. destruct (Nat.eqb_spec read 0); [eauto|].
  apply IH. rewrite length_drop. lia.
Qed.
Lemma classify_tls_total {RL : RustlsLaws R} fuel a rest :
  (length rest < fuel)%nat -> is_Some (classify_tls_loop fuel a rest).
Proof.
  revert a rest; induction fuel as [|fuel IH]; intros a rest H; [lia|]. simpl.
  destruct (read_tls a rest) as [[read|] a1] eqn:Er; [|eauto]. apply read_tls_bound in Er.
  destruct (accept a1) as [[[n|]|] a2]; eauto. destruct (Nat.eqb_spec read 0); [eauto|].
  apply IH. rewrite length_drop. lia.
Qed.
(** The one-shot and the incremental loop agree on the same bytes. *)
Definition result_observation (r : SniffResult) : option SniffObservation :=
  match r with
  | RMatched v => Some (obs_matched v)
  | RNeedMore => None
  | RUnsupported => Some (terminal Unsupported)
  | RMalformed => Some (terminal Malformed)
  | RLimitExceeded => Some (terminal LimitExceeded)
  end.
Lemma tls_loops_agree fuel a rest :
  fst <$> observe_tls_loop fuel a rest = result_observation <$> classify_tls_loop fuel a rest.
Proof.
  revert a rest; induction fuel as [|fuel IH]; intros a rest; [done|]. simpl.
  destruct (read_tls a rest) as [[read|] a1]; [|done].
  destruct (accept a1) as [[[[n|]|]|] a2]; [by simpl; case_match|done| |done]. by case_match.
Qed.

(** ** The observer's invariant, by rule induction over its transitions *)

(** What can happen to an observer: a read of the wrapped stream, a captured
    chunk, the deadline task, the end of the stream, a look at the handle. *)
Inductive sniff_step : ObserveState -> ObserveState -> Prop :=
| step_poll_read st now room inner : sniff_step st (snd (poll_read st now room inner))
| step_observe st now bytes : sniff_step st (observe st now bytes)
| step_deadline st : sniff_step st (finish_timeout st)
| step_end st now : sniff_step st (finish_stream st now)
| step_snapshot st now : sniff_step st (snd (snapshot st now)).

Record observer_inv (st : ObserveState) : Prop := {
  inv_bytes : (observed_bytes st <= max_bytes st)%nat;
  inv_max : (max_bytes st <= HARD_MAX_SNIFF_BYTES)%nat;
  inv_prefix : (length (prefix st) <= observed_bytes st)%nat;
  inv_done : match observation st with
             | None => True
             | Some o => observation_ok o /\ parser st = PDone /\ prefix st = [] /\ notified st = true
             end;
}.

Lemma new_inv max t now : observer_inv (ObserveState_new max t now).
Proof. split; simpl; lia || done. Qed.
Lemma finish_inv st o : observer_inv st -> observation_ok o -> observer_inv (finish st o).
Proof. intros [H1 H2 H3 H4] Ho. split; simpl; try done. lia. Qed.
Lemma finish_timeout_inv st : observer_inv st -> observer_inv (finish_timeout st).
Proof. intros H. unfold finish_timeout. case_match; [done|]. apply finish_inv; auto. Qed.
Lemma finish_stream_inv st now : observer_inv st -> observer_inv (finish_stream st now).
Proof. intros H. unfold finish_stream. case_match; [done|]. apply finish_inv; [done|]. case_match; auto. Qed.

Lemma observe_http_spec pre sf bytes o pre' sf' :
  observe_http_incremental pre sf bytes = (o, pre', sf') ->
  pre' = pre ++ bytes /\ forall x, o = Some x -> observation_ok x.
Proof.
  unfold observe_http_incremental. intros H. case_match; simplify_eq; split; try done.
  intros x [= <-]. apply http_verdict_ok.
Qed.
Lemma advance_inv st taken p pre :
  observer_inv st -> observation st = None -> (observed_bytes st + taken <= max_bytes st)%nat ->
  (length pre <= length (prefix st) + taken)%nat -> observer_inv (advance st taken p pre).
Proof. intros [H1 H2 H3 H4] Ho Ht Hp. split; simpl; try lia. by rewrite Ho. Qed.
Lemma settle_inv o b st :
  observer_inv st -> (forall x, o = Some x -> observation_ok x) -> observer_inv (settle o b st).
Proof. intros H Ho. unfold settle. repeat case_match; [by apply finish_inv; auto..|done]. Qed.
Lemma observe_inv st now bytes : observer_inv st -> observer_inv (observe st now bytes).
Proof.
  intros Hst. pose proof (inv_bytes st Hst) as Hb. unfold observe. destruct (observation st) eqn:Eo; [done|].
  case_match; [by apply finish_timeout_inv|]. cbv zeta. set (taken := Nat.min _ _).
  assert (observed_bytes st + taken <= max_bytes st)%nat as Ht by lia.
  assert (length (take taken bytes) = taken) as Hc by (rewrite length_take; lia).
  destruct (decide_parser _ _) as [[|a|sf|]|].
  - apply settle_inv; [|done]. apply advance_inv; done || lia.
  - destruct (observe_tls_incremental _ _) as [o a'] eqn:E. apply settle_inv.
    + apply advance_inv; done || lia.
    + intros x ->. by eapply observe_tls_ok.
  - destruct (observe_http_incremental _ _ _) as [[o pre] sf'] eqn:E.
    apply observe_http_spec in E as [-> Ho]. apply settle_inv; [|done].
    apply advance_inv; rewrite ?length_app; done || lia.
  - apply settle_inv; [|done]. apply advance_inv; done || lia.
  - apply finish_inv; [|auto]. apply advance_inv; done || lia.
Qed.
Hint Resolve finish_timeout_inv finish_stream_inv observe_inv : core.

Lemma step_inv st st' : sniff_step st st' -> observer_inv st -> observer_inv st'.
Proof.
  intros [s now room inner| | | |s now] H; eauto.
  - unfold poll_read. repeat case_match; simpl; auto.
  - by apply (finish_stream_inv s now) in H.
Qed.
Lemma step_keeps st st' o : sniff_step st st' -> observation st = Some o -> st' = st.
Proof.
  intros Hs Ho. destruct Hs as [s now room inner| | | |s now];
    unfold poll_read, snapshot, observe, finish_timeout, finish_stream; rewrite ?Ho; [|done..].
  by repeat (case_match; simpl).
Qed.

(** C11: whatever reads, deadlines, stream ends and looks at the handle happen and
    in whatever order, the observer never holds more bytes than it has observed,
    observes at most the configured limit and never more than 64 KiB, reports a
    host only when it matched and then a canonical DNS name, and an observation
    that has been recorded never changes. *)
Theorem observer_safe max t0 now st :
  rtc sniff_step (ObserveState_new max t0 now) st ->
  observer_inv st /\
  forall st' o, observation st = Some o -> rtc sniff_step st st' -> observation st' = Some o.
Proof.
  intros H. split.
  - assert (observer_inv (ObserveState_new max t0 now)) as H0 by apply new_inv.
    induction H; eauto using step_inv.
  - clear H. intros st' o Ho H. induction H as [|s s1 s2 Hs _ IH]; [done|]. apply IH.
    by rewrite (step_keeps s s1 o).
Qed.

(** ** Fragmentation of an HTTP stream *)

(** What the observer should report of a stream that starts with [data]. *)
Definition http_reference (max : nat) (data : list Z) : option SniffObservation :=
  match find_sub (take max data) crlfcrlf with
  | Some i => Some (http_verdict (take (i + 4) data))
  | None => if (max <=? length data)%nat then Some (terminal LimitExceeded) else None
  end.

Definition feed (st : ObserveState) (chunks : list (Z * list Z)) : ObserveState :=
  foldl (fun st '(now, c) => observe st now c) st chunks.

Lemma skip_crlf_app n a b : (length a <= n)%nat -> could_be_http (a ++ b) = true -> could_be_http a = true.
Proof.
  revert a; induction n as [|n IH]; intros a Hn H; [by destruct a; [|simpl in Hn; lia]|].
  destruct a as [|x [|y a]]; [done| |].
  - unfold could_be_http in *. cbn [skip_crlf]. destruct (Z.eqb_spec x 13) as [->|Hx]; [done|].
    destruct b as [|y b]; simpl in H; [done|].
    rewrite (proj2 (Z.eqb_neq _ _) Hx) in H. simpl in H.
    assert (str_eqb (x :: y :: b) [13] = false) as E by (by apply str_eqb_neq). rewrite E in H. simpl in H.
    rewrite H. by rewrite orb_true_r.
  - unfold could_be_http in *. cbn [skip_crlf app] in *. destruct ((x =? 13) && (y =? 10)).
    + apply (IH a); [simpl in Hn; lia|done].
    + assert (str_eqb (x :: y :: a ++ b) [13] = false) as E by (by apply str_eqb_neq). rewrite E in H.
      simpl in H. rewrite H. by rewrite orb_true_r.
Qed.
Lemma could_be_http_prefix a b : could_be_http (a ++ b) = true -> could_be_http a = true.
Proof. by apply skip_crlf_app with (n := length a). Qed.
Lemma could_be_http_not_tls b s : could_be_http (b :: s) = true -> (b =? 0x16) = false.
Proof.
  intros H. destruct (Z.eqb_spec b 0x16) as [->|]; [|done]. exfalso. unfold could_be_http in H.
  destruct s; simpl in H; [done|]. done.
Qed.

(** An open observer of an HTTP stream that has seen [D] so far. *)
Record http_open (max : nat) (D : list Z) (st : ObserveState) : Prop := {
  ho_open : observation st = None;
  ho_max : max_bytes st = max;
  ho_observed : observed_bytes st = length D;
  ho_room : (length D < max)%nat;
  ho_prefix : prefix st = D;
  ho_none : find_sub D crlfcrlf = None;
  ho_parser : parser st = PHttp (length D) \/ parser st = PUndecided /\ D = [];
}.

Lemma http_incremental_exact D c :
  find_sub D crlfcrlf = None ->
  observe_http_incremental D (length D) c
  = match find_sub (D ++ c) crlfcrlf with
    | Some i => (Some (http_verdict (take (i + 4) (D ++ c))), D ++ c, length D)
    | None => (None, D ++ c, length (D ++ c))
    end.
Proof.
  intros Hn. unfold observe_http_incremental.
  rewrite (find_sub_resume D crlfcrlf c (length D - 3)) by done.
  by destruct (find_sub (drop _ _) crlfcrlf).
Qed.

Lemma http_decided max D st c t :
  http_open max D st -> could_be_http (D ++ c ++ t) = true -> c <> [] ->
  decide_parser (parser st) c = Some (PHttp (length D)).
Proof.
  intros [] Hc Hne. destruct ho_parser0 as [->|[-> ->]]; [done|]. destruct c as [|b c]; [done|].
  simpl in *. rewrite (could_be_http_not_tls b (c ++ t)) by done.
  by rewrite (could_be_http_prefix (b :: c) t).
Qed.


Lemma observe_open st now c p :
  observation st = None -> expired st now = false ->
  let taken := Nat.min (length c) (max_bytes st - observed_bytes st) in
  decide_parser (parser st) (take taken c) = Some (PHttp p) ->
  observe st now c =
    (let '(o, pre, p) := observe_http_incremental (prefix st) p (take taken c) in
     settle o (taken <? length c)%nat (advance st taken (PHttp p) pre)).
Proof. intros Ho He taken Hp. unfold observe. rewrite Ho, He. fold taken. cbv zeta. by rewrite Hp. Qed.

(** One chunk: the observer has settled on what the reference says, or is open. *)
Lemma observe_chunk max D st now c t :
  http_open max D st -> expired st now = false -> could_be_http (D ++ c ++ t) = true ->
  match http_reference max (D ++ c) with
  | Some o => observation (observe st now c) = Some o
  | None => http_open max (D ++ c) (observe st now c) /\
            started (observe st now c) = started st /\ timeout (observe st now c) = timeout st
  end.
Proof.
  intros Hst He Hc. pose proof Hst as [Ho Hm Hob Hr Hp Hn _].
  set (taken := Nat.min (length c) (max_bytes st - observed_bytes st)).
  assert (take max (D ++ c) = D ++ take taken c) as Htake.
  { rewrite take_app_ge by lia. f_equal. unfold taken. rewrite Hm, Hob.
    destruct (decide (length c <= max - length D)%nat); [rewrite Nat.min_l by lia; rewrite !take_ge by lia; done|].
    by rewrite Nat.min_r by lia. }
  destruct (decide (c = [])) as [->|Hne].
  { unfold http_reference. rewrite app_nil_r, take_ge, Hn by lia. destruct (Nat.leb_spec max (length D)); [lia|].
    unfold observe. rewrite Ho, He. cbn [length Nat.min take].
    destruct Hst as [_ _ _ _ _ _ [E|[E ->]]]; rewrite E; cbn [decide_parser].
    - rewrite Hp, http_incremental_exact, app_nil_r, Hn by done. cbn -[Nat.leb Nat.add].
      rewrite Hm, Hob, Nat.add_0_r. destruct (Nat.leb_spec max (length D)); [lia|]. split; [|done].
      split; simpl; auto; lia.
    - cbn -[Nat.leb Nat.add]. rewrite Hm, Hob. destruct (Nat.leb_spec max (length (@nil Z) + 0)); [simpl in *; lia|].
      split; [|done]. split; simpl in *; auto; lia. }
  assert (take taken c <> []) as Htc.
  { intros E. apply (f_equal length) in E. rewrite length_take in E. unfold taken in E. destruct c; [done|]. cbn [length] in E. lia. }
  rewrite (observe_open st now c (length D)); [|done|done|].
  2:{ fold taken. apply (http_decided max D st (take taken c) (drop taken c ++ t)); [done| |done].
      by rewrite (assoc_L (++) (take taken c)), take_drop. }
  fold taken. rewrite Hp, http_incremental_exact by done. unfold http_reference. rewrite Htake.
  destruct (find_sub (D ++ take taken c) crlfcrlf) as [i|] eqn:Ef.
  - cbn. do 2 f_equal. pose proof (find_sub_bound _ _ _ Ef) as Hb. cbn in Hb.
    rewrite <- Htake, take_take. rewrite <- Htake, length_take in Hb. f_equal. lia.
  - unfold settle. cbn -[Nat.leb Nat.ltb Nat.add]. rewrite Hm, Hob.
    assert (length (D ++ c) = length D + length c)%nat as Hlen by apply length_app.
    destruct (Nat.leb_spec max (length (D ++ c))).
    + replace ((taken <? length c)%nat || (max <=? length D + taken)%nat) with true; [done|].
      destruct (Nat.ltb_spec taken (length c)); [done|]. symmetry. apply Nat.leb_le. lia.
    + assert (taken = length c) as Et by lia. rewrite Et, Nat.ltb_irrefl, take_ge by done. cbn [orb].
      rewrite Et, take_ge in Ef by done. destruct (Nat.leb_spec max (length D + length c)); [lia|].
      split; [|done]. split; simpl; rewrite ?length_app; auto; lia.
Qed.

Lemma http_reference_stable max D t o : http_reference max D = Some o -> http_reference max (D ++ t) = Some o.
Proof.
  unfold http_reference. destruct (find_sub (take max D) crlfcrlf) as [i|] eqn:E.
  - intros [= <-]. pose proof (find_sub_bound _ _ _ E) as Hb. rewrite length_take in Hb. cbn in Hb.
    rewrite take_app, (find_sub_app_Some _ _ _ i) by done. by rewrite take_app_le by lia.
  - destruct (Nat.leb_spec max (length D)); [|done]. intros [= <-].
    rewrite take_app_le, E, length_app by lia. by destruct (Nat.leb_spec max (length D + length t)); [|lia].
Qed.
Lemma feed_settled st chunks o : observation st = Some o -> feed st chunks = st.
Proof.
  unfold feed. induction chunks as [|[now c] chunks IH]; intros Ho; [done|]. cbn [foldl].
  assert (observe st now c = st) as -> by (unfold observe; by rewrite Ho). auto.
Qed.
Lemma feed_exact max D st chunks :
  http_open max D st -> Forall (fun '(now, _) => expired st now = false) chunks ->
  could_be_http (D ++ mjoin (snd <$> chunks)) = true ->
  observation (feed st chunks) = http_reference max (D ++ mjoin (snd <$> chunks)).
Proof.
  revert D st; induction chunks as [|[now c] chunks IH]; intros D st Hst Hx Hc.
  - simpl. rewrite app_nil_r. destruct Hst. unfold http_reference. rewrite take_ge, ho_none0 by lia.
    rewrite ho_open0. by destruct (Nat.leb_spec max (length D)); [lia|].
  - apply Forall_cons in Hx as [Hnow Hx]. cbn [fmap list_fmap map mjoin list_join snd] in *.
    pose proof (observe_chunk max D st now c _ Hst Hnow Hc) as H. rewrite (assoc_L (++)) in *.
    change (feed st ((now, c) :: chunks)) with (feed (observe st now c) chunks).
    destruct (http_reference max (D ++ c)) as [o|] eqn:Er.
    + rewrite (feed_settled _ _ o) by done. rewrite H. symmetry. by apply http_reference_stable.
    + destruct H as (Hopen & Hs & Ht). apply IH; [done| |done].
      eapply Forall_impl; [exact Hx|]. intros [now' ?]. unfold expired. by rewrite Hs, Ht.
Qed.

(** The observation of an HTTP stream does not depend on how its bytes arrive:
    for every fragmentation of a stream that can be HTTP, read before the
    deadline, the observer reports the classification of the head up to its first
    blank line if that lies within the limit, gives up exactly when the limit is
    reached without one, and is still open otherwise. *)
Theorem http_fragmentation max t0 start chunks :
  (0 < max)%nat ->
  Forall (fun '(now, _) => Z.max 0 (now - start) < t0) chunks ->
  could_be_http (mjoin (snd <$> chunks)) = true ->
  observation (feed (ObserveState_new max t0 start) chunks)
  = http_reference (Nat.min max HARD_MAX_SNIFF_BYTES) (mjoin (snd <$> chunks)).
Proof.
  intros Hm Hx Hc. apply (feed_exact _ []); [|eapply Forall_impl; [exact Hx|]|done].
  - split; simpl; try done; [|auto]. unfold HARD_MAX_SNIFF_BYTES. lia.
  - intros [now c] H. unfold expired. simpl. lia.
Qed.


(** ** The capture loop *)

Lemma capture_loop_total fuel i E max chunk st bytes r :
  (0 < chunk)%nat -> (max - length bytes < fuel)%nat -> is_Some (capture_loop fuel i E max chunk st bytes r).
Proof.
  intros Hc. revert i st bytes r; induction fuel as [|fuel IH]; intros i st bytes r Hf; [lia|]. cbn [capture_loop].
  destruct (observation st); [eauto|]. cbv zeta. destruct (Nat.eqb_spec (max - length bytes) 0); [eauto|].
  destruct (deadline_at E i); [eauto|]. destruct (Reader.read _ r) as [[read|] r'] eqn:Er; [|eauto].
  destruct (Nat.eqb_spec (length read) 0); [eauto|]. apply IH. rewrite length_app. lia.
Qed.
Lemma capture_loop_sound fuel i E max chunk st bytes r st' bytes' i' r' :
  (0 < chunk)%nat -> (length bytes <= max)%nat -> observer_inv st ->
  capture_loop fuel i E max chunk st bytes r = Some (Ok (st', bytes', i', r')) ->
  observer_inv st' /\ (length bytes' <= max)%nat /\
  (Reader.no_error r = true ->
   bytes' <> bytes ++ Reader.bytes r -> bytes ++ Reader.bytes r = bytes' ++ Reader.bytes r').
Proof.
  intros Hc. revert i st bytes r; induction fuel as [|fuel IH]; intros i st bytes r Hm Hi H; [done|].
  cbn [capture_loop] in H. destruct (observation st); [by simplify_eq|]. cbv zeta in H.
  destruct (Nat.eqb_spec (max - length bytes) 0) as [|Hrem]; [simplify_eq; auto|].
  destruct (deadline_at E i); [simplify_eq; auto|].
  set (n := Nat.min (max - length bytes) chunk) in *. assert (0 < n)%nat as Hn by lia.
  destruct (Reader.read n r) as [[read|] r1] eqn:Er; [|done]. pose proof (read_progress n r read r1 Hn Er) as Hl.
  destruct (Nat.eqb_spec (length read) 0) as [He|He].
  - simplify_eq. split_and!; auto. intros Hr Hne. exfalso. apply Hne.
    destruct (Reader.read_ok n r Hn Hr) as (c & r2 & Er2 & _ & Heof & _). rewrite Er in Er2. simplify_eq.
    rewrite Heof, app_nil_r; [done|]. by apply nil_length_inv.
  - apply IH in H as (Hi' & Hm' & Hl'); [|rewrite length_app; lia|auto]. split_and!; [done..|]. intros Hr.
    destruct (Reader.read_ok n r Hn Hr) as (c & r2 & Er2 & _ & _ & Hmore). rewrite Er in Er2. simplify_eq.
    destruct Hmore as [-> Hr2]; [by intros ->|]. rewrite (assoc_L (++)). by apply Hl'.
Qed.
Lemma capture_loop_no_error fuel i E max chunk st bytes r e :
  (0 < chunk)%nat -> Reader.no_error r = true -> capture_loop fuel i E max chunk st bytes r <> Some (Err e).
Proof.
  intros Hc. revert i st bytes r; induction fuel as [|fuel IH]; intros i st bytes r Hr; [done|]. cbn [capture_loop].
  destruct (observation st); [done|]. cbv zeta. destruct (Nat.eqb_spec (max - length bytes) 0); [done|].
  destruct (deadline_at E i); [done|].
  destruct (Reader.read_ok (Nat.min (max - length bytes) chunk) r) as (c & r2 & -> & _ & _ & Hmore); [lia|done|].
  destruct (Nat.eqb_spec (length c) 0); [done|]. apply IH, Hmore. by intros ->.
Qed.
Lemma snapshot_some st now : observer_inv st ->
  exists o, fst (snapshot st now) = Some o /\ observation_ok o.
Proof.
  intros [_ _ _ H]. unfold snapshot. destruct (observation st) as [o|] eqn:Eo; simpl.
  - exists o. split; [done|]. apply H.
  - eexists. split; [done|]. case_match; auto.
Qed.

(** C12: capturing a prefix always ends, whatever the stream delivers and whenever
    the deadline fires: it fails only when a read fails, and otherwise returns a
    recorded observation with at most the limit's bytes, handing over exactly the
    bytes taken from the stream. The TLS loop inside it stops on every chunk. *)
Theorem capture_prefix_total {RL : RustlsLaws R} r max t0 start E :
  (forall a bs, is_Some (observe_tls_loop (S (length bs)) a bs)) /\
  exists o, capture_prefix r max t0 start E = Some o /\
    match o with
    | Err _ => Reader.no_error r = false
    | Ok (cap, r') =>
        (length (bytes cap) <= Nat.min max HARD_MAX_SNIFF_BYTES)%nat /\
        (exists obs, captured_observation cap = Some obs /\ observation_ok obs) /\
        (Reader.no_error r = true -> bytes cap <> Reader.bytes r ->
         Reader.bytes r = bytes cap ++ Reader.bytes r')
    end.
Proof.
  split; [intros a bs; apply observe_tls_total; lia|].
  unfold capture_prefix. set (m := Nat.min max HARD_MAX_SNIFF_BYTES). set (chunk := Nat.min _ 2048).
  assert (0 < chunk)%nat as Hc by lia.
  destruct (capture_loop_total (m + 2) 0 E m chunk (ObserveState_new m t0 start) [] r Hc) as [[[[[st bs] i] r']|e] Hl];
    [simpl; lia|..]; rewrite Hl; eexists; (split; [done|]); simpl.
  - apply capture_loop_sound in Hl as (Hi & Hm & Hb); [|done|simpl; lia|apply new_inv].
    split_and!; [done|by apply snapshot_some|done].
  - destruct (Reader.no_error r) eqn:Hr; [|done]. exfalso.
    by eapply capture_loop_no_error.
Qed.

End observer.

(** ** Concrete crates, for runs: an acceptor that takes a hello of five bytes and
    reads the server name out of what follows, and a parser of requests without
    headers other than a fixed host. *)
Module Demo.
Definition rustls : Rustls := {|
  Acceptor := list Z;
  Acceptor_default := [];
  read_tls a s := (Ok (length s), a ++ s);
  accept a := (if (length a <? 5)%nat then Ok None else Ok (Some (Some (drop 5 a))), a);
|}.
#[global] Instance laws : RustlsLaws rustls.
Proof. intros a s n a' [= <- _]. done. Qed.
Definition httparse : Httparse := fun _ s =>
  match find_sub s crlfcrlf with
  | None => Ok HttpPartial
  | Some _ => match split 32 s with
              | m :: p :: _ => Ok (HttpComplete (mkRequest (Some m) (Some p) [(lit "HOST", lit "A.Example:80")]))
              | _ => Err tt
              end
  end.
Definition url : UrlCrate := fun _ => None.
Definition chunks : list (Z * list Z) :=
  [(1, [13]); (2, [10] ++ lit "GET / HTTP/1.1"); (3, [13; 10; 13]); (5, [10] ++ lit "rest")].
Definition env : CaptureEnv := mkEnv Z.of_nat (fun _ => false).
End Demo.

Lemma observer_safe_witness :
  let st := feed (R := Demo.rustls) (HP := Demo.httparse) (UC := Demo.url) (ObserveState_new 100 50 0) Demo.chunks in
  observer_inv st /\
  forall st' o, observation st = Some o ->
    rtc (sniff_step (R := Demo.rustls) (HP := Demo.httparse) (UC := Demo.url)) st st' -> observation st' = Some o.
Proof.
  cbv zeta. apply (observer_safe (R := Demo.rustls) (HP := Demo.httparse) (UC := Demo.url) 100 50 0).
  unfold feed, Demo.chunks. cbn [foldl]. do 4 (eapply rtc_r; [|apply step_observe]). apply rtc_refl.
Defined.
Lemma http_fragmentation_witness :
  observation (feed (R := Demo.rustls) (HP := Demo.httparse) (UC := Demo.url) (ObserveState_new 100 50 0) Demo.chunks)
  = http_reference (HP := Demo.httparse) (UC := Demo.url) (Nat.min 100 HARD_MAX_SNIFF_BYTES)
      (mjoin (snd <$> Demo.chunks)).
Proof.
  apply (http_fragmentation (R := Demo.rustls) 100 50 0 Demo.chunks); [lia| |reflexivity].
  repeat constructor.
Defined.
Example http_demo_observed :
  observation (feed (R := Demo.rustls) (HP := Demo.httparse) (UC := Demo.url) (ObserveState_new 100 50 0) Demo.chunks)
  = Some (obs_matched (mkSniffed Http (lit "a.example"))).
Proof. vm_compute. reflexivity. Qed.
Lemma capture_prefix_total_witness :
  let _ := Demo.rustls in let _ := Demo.httparse in let _ := Demo.url in
  (forall a bs, is_Some (observe_tls_loop (R := Demo.rustls) (S (length bs)) a bs)) /\
  exists o, capture_prefix (R := Demo.rustls) [Ok (0x16 :: lit "1234sni.example")] 64 50 0 Demo.env = Some o /\
    match o with
    | Err _ => Reader.no_error [Ok (0x16 :: lit "1234sni.example")] = false
    | Ok (cap, r') =>
        (length (bytes cap) <= Nat.min 64 HARD_MAX_SNIFF_BYTES)%nat /\
        (exists obs, captured_observation cap = Some obs /\ observation_ok obs) /\
        (Reader.no_error [Ok (0x16 :: lit "1234sni.example")] = true ->
         bytes cap <> Reader.bytes [Ok (0x16 :: lit "1234sni.example")] ->
         Reader.bytes [Ok (0x16 :: lit "1234sni.example")] = bytes cap ++ Reader.bytes r')
    end.
Proof. intros _ HP UC. apply (capture_prefix_total (R := Demo.rustls) (HP := HP) (UC := UC)). Defined.
