(* ===== verification/RustFmt.v ===== *)
(** * RustFmt: the [Display] implementations and text helpers of the standard library

    Integers in decimal and hexadecimal, IP and socket addresses as the standard
    library prints them (the longest run of zero groups of an IPv6 address
    compressed, IPv4-mapped addresses with a dotted tail), lossy UTF-8 decoding,
    [split_whitespace] and [replace]; each printer is shown to be inverted by the
    parser of [Net]. *)

From Stdlib Require Import ZArith Lia String.
From stdpp Require Import prelude strings list.
From S2P Require Import Prelude RustStr Net NetProps.

(** ** Integers *)

(** The digits of [n], most significant first. *)
Fixpoint digits_acc (fuel : nat) (radix n : Z) (acc : list Z) : list Z :=
  match fuel with
  | O => acc
  | S fuel => if n <? radix then n :: acc else digits_acc fuel radix (n / radix) (n mod radix :: acc)
  end.
Definition digits (radix n : Z) : list Z := digits_acc (S (Z.to_nat (Z.log2 n))) radix n [].
Definition digit_char (d : Z) : Z := if d <? 10 then 48 + d else 87 + d.
(** [{n}] for radix 10, [{n:x}] for radix 16 *)
Definition fmt_radix (radix n : Z) : str := map digit_char (digits radix n).
Abbreviation fmt_dec := (fmt_radix 10).
Abbreviation fmt_hex := (fmt_radix 16).
(** [{b:02x}] of a byte *)
Definition fmt_02x (b : Z) : str := [digit_char (b / 16); digit_char (b mod 16)].

Definition value_of (radix : Z) (ds : list Z) : Z := foldl (fun acc d => acc * radix + d) 0 ds.

Lemma foldl_value radix ds v : foldl (fun acc d => acc * radix + d) v ds = v * radix ^ Z.of_nat (length ds) + value_of radix ds.
Proof.
  unfold value_of. revert v; induction ds as [|d ds IH]; intros v; cbn [foldl length].
  - rewrite Z.pow_0_r. lia.
  - rewrite (IH (v * radix + d)), (IH (0 * radix + d)), Nat2Z.inj_succ, Z.pow_succ_r by lia. ring.
Qed.
Lemma value_cons radix d ds : value_of radix (d :: ds) = d * radix ^ Z.of_nat (length ds) + value_of radix ds.
Proof. unfold value_of at 1. cbn [foldl]. by rewrite foldl_value. Qed.

(** What the digit loop computes. *)
Lemma digits_acc_spec fuel radix n acc :
  2 <= radix -> 0 <= n -> n < 2 ^ Z.of_nat fuel -> (0 < fuel)%nat ->
  Forall (fun d => 0 <= d < radix) acc ->
  let ds := digits_acc fuel radix n acc in
  Forall (fun d => 0 <= d < radix) ds /\
  value_of radix ds = n * radix ^ Z.of_nat (length acc) + value_of radix acc /\
  (exists d t, ds = d :: t /\ (n <> 0 -> d <> 0) /\ (n = 0 -> t = acc)) /\
  forall k : nat, (n < radix ^ Z.of_nat k -> (0 < k)%nat -> (length ds <= k + length acc)%nat).
Proof.
  intros Hr. revert n acc; induction fuel as [|fuel IH]; intros n acc Hn Hf H0 Ha; [lia|]. cbn [digits_acc].
  destruct (Z.ltb_spec n radix) as [Hlt|Hge]; cbv zeta.
  - split_and!; [by constructor|by rewrite value_cons|by exists n, acc|]. intros k _ Hk. simpl. lia.
  - pose proof (Z.mod_pos_bound n radix ltac:(lia)) as Hm.
    assert (n / radix < 2 ^ Z.of_nat fuel) as Hq.
    { rewrite Nat2Z.inj_succ, Z.pow_succ_r in Hf by lia. apply Z.div_lt_upper_bound; [lia|]. nia. }
    pose proof (Z.div_str_pos n radix ltac:(lia)) as Hpos.
    destruct fuel as [|fuel]; [simpl in Hq; lia|].
    destruct (IH (n / radix) (n mod radix :: acc)) as (H1 & H2 & (d & t & H3 & H4 & H5) & H6);
      [lia|lia|lia|by constructor|]. split_and!; [done| |exists d, t; split_and!; [done| |lia]; intros _; apply H4; lia|].
    + rewrite H2, value_cons. cbn [length]. rewrite Nat2Z.inj_succ, Z.pow_succ_r by lia.
      pose proof (Z.div_mod n radix ltac:(lia)). nia.
    + intros k Hk H0k. destruct k as [|[|k]]; [lia|rewrite Z.pow_1_r in Hk; lia|].
      specialize (H6 (S k)). cbn [length] in H6. etransitivity; [apply H6|]; [|lia|lia].
      rewrite Nat2Z.inj_succ, Z.pow_succ_r in Hk by lia. apply Z.div_lt_upper_bound; lia.
Qed.
Lemma digits_spec radix n : 2 <= radix -> 0 <= n ->
  Forall (fun d => 0 <= d < radix) (digits radix n) /\ value_of radix (digits radix n) = n /\
  (exists d t, digits radix n = d :: t /\ (n <> 0 -> d <> 0) /\ (n = 0 -> t = [])) /\
  forall k : nat, n < radix ^ Z.of_nat k -> (0 < k)%nat -> (length (digits radix n) <= k)%nat.
Proof.
  intros Hr Hn. destruct (digits_acc_spec (S (Z.to_nat (Z.log2 n))) radix n []) as (H1 & H2 & H3 & H4);
    [done|done| |lia|done|].
  - rewrite Nat2Z.inj_succ, Z2Nat.id by apply Z.log2_nonneg.
    destruct (decide (n = 0)) as [->|]; [done|]. apply Z.log2_spec. lia.
  - unfold digits. split_and!; [done| |done|].
    + rewrite H2. change (Z.of_nat (length [])) with 0. change (value_of radix []) with 0.
      rewrite Z.pow_0_r. lia.
    + intros k Hk H0. specialize (H4 k Hk H0). by rewrite Nat.add_0_r in H4.
Qed.

Lemma to_digit_digit_char radix d : 0 <= d < radix -> radix <= 16 -> to_digit radix (digit_char d) = Some d.
Proof.
  intros Hd Hr. unfold digit_char, to_digit, is_ascii_digit. destruct (Z.ltb_spec d 10).
  - replace ((48 <=? 48 + d) && (48 + d <=? 57)) with true by lia. replace (48 + d - 48) with d by lia.
    by replace (d <? radix) with true by lia.
  - replace ((48 <=? 87 + d) && (87 + d <=? 57)) with false by lia.
    replace ((97 <=? 87 + d) && (87 + d <=? 122)) with true by lia. replace (87 + d - 97 + 10) with d by lia.
    by replace (d <? radix) with true by lia.
Qed.
(** The rest does not go on with a digit. *)
Definition stops (radix : Z) (s : str) : Prop := match s with [] => True | c :: _ => to_digit radix c = None end.
Lemma read_digits_chars radix ds rest :
  radix <= 16 -> Forall (fun d => 0 <= d < radix) ds -> stops radix rest ->
  read_digits radix (map digit_char ds ++ rest) = (ds, rest).
Proof.
  intros Hr H Hs. induction H as [|d ds Hd _ IH]; simpl.
  - destruct rest as [|c rest]; [done|]. simpl in *. by rewrite Hs.
  - by rewrite to_digit_digit_char, IH.
Qed.
Lemma read_digits_fmt radix n rest :
  2 <= radix <= 16 -> 0 <= n -> stops radix rest ->
  read_digits radix (fmt_radix radix n ++ rest) = (digits radix n, rest).
Proof. intros. apply read_digits_chars; [lia|apply digits_spec; lia|done]. Qed.
Lemma fmt_radix_ne radix n : 2 <= radix -> 0 <= n -> fmt_radix radix n <> [].
Proof.
  intros Hr Hn. destruct (digits_spec radix n Hr Hn) as (_ & _ & (d & t & E & _) & _).
  unfold fmt_radix. by rewrite E.
Qed.

(** Reading back what was printed. *)
Lemma read_number_fmt radix k zero w n rest :
  2 <= radix <= 16 -> fits w n -> n < radix ^ Z.of_nat k -> (0 < k)%nat -> stops radix rest ->
  read_number radix k zero w (fmt_radix radix n ++ rest) = Some (n, rest).
Proof.
  intros Hr Hw Hk H0 Hs. pose proof Hw as [Hn _].
  destruct (digits_spec radix n ltac:(lia) Hn) as (_ & Hv & (d & t & E & Hd & Ht) & Hl).
  unfold read_number. rewrite read_digits_fmt by done. fold (value_of radix (digits radix n)). rewrite Hv.
  destruct (Nat.ltb_spec k (length (digits radix n))); [specialize (Hl k Hk H0); lia|].
  rewrite E in *. cbn [is_empty]. rewrite (proj2 (fitsb_spec w n)) by done.
  destruct (negb zero && _ && _) eqn:Ez; [|done]. exfalso.
  apply andb_true_iff in Ez as [Ez E1]. apply andb_true_iff in Ez as [_ E0].
  apply bool_decide_eq_true in E0. unfold fmt_radix in E0. rewrite E in E0. simpl in E0.
  injection E0 as E0. assert (d = 0) as Hz by (unfold digit_char in E0; destruct (Z.ltb_spec d 10); lia).
  destruct (decide (n = 0)) as [Hn0|Hn0]; [rewrite (Ht Hn0) in E1; done|by apply Hd].
Qed.
Lemma read_number_unbounded_fmt radix w n rest :
  2 <= radix <= 16 -> fits w n -> stops radix rest ->
  read_number_unbounded radix w (fmt_radix radix n ++ rest) = Some (n, rest).
Proof.
  intros Hr Hw Hs. pose proof Hw as [Hn _].
  destruct (digits_spec radix n ltac:(lia) Hn) as (_ & Hv & (d & t & E & _) & _).
  unfold read_number_unbounded. rewrite read_digits_fmt by done. fold (value_of radix (digits radix n)).
  rewrite Hv, E. cbn [is_empty]. by rewrite (proj2 (fitsb_spec w n)).
Qed.
(** [n.to_string().parse::<uN>() == Ok(n)] *)
Lemma parse_fmt_dec w n : fits w n -> from_str_radix 10 w (fmt_dec n) = Some n.
Proof.
  intros Hw. pose proof Hw as [Hn _].
  destruct (digits_spec 10 n ltac:(lia) Hn) as (Hd & _ & (d & t & E & _) & _).
  unfold from_str_radix, fmt_radix. rewrite E. cbn [map].
  rewrite E in Hd. apply Forall_cons in Hd as [Hd _].
  replace (digit_char d =? 43) with false by (unfold digit_char; destruct (Z.ltb_spec d 10); lia). cbn [andb].
  change (digit_char d :: map digit_char t) with (map digit_char (d :: t)). rewrite <- E.
  change (map digit_char (digits 10 n)) with (fmt_dec n). unfold parse_with.
  rewrite <- (app_nil_r (fmt_dec n)), read_number_unbounded_fmt; [done|lia|done|done].
Qed.

(** ** Addresses *)

(** [impl Display for Ipv4Addr] *)
Definition display_v4 (a : Z) : str := join [dot] (map (fmt_radix 10) (to_be_bytes 4 a)).

(** The 16-bit groups of an address, most significant first. *)
Fixpoint segs (k : nat) (a : Z) : list Z :=
  match k with O => [] | S k => segs k (a / 2 ^ 16) ++ [a mod 2 ^ 16] end.
(** [Ipv6Addr::segments] *)
Definition segments (a : Z) : list Z := segs 8 a.

(** The first longest run of zero groups, as [(start, len)]. *)
Fixpoint longest_zeros (i : nat) (current longest : nat * nat) (gs : list Z) : nat * nat :=
  match gs with
  | [] => longest
  | g :: gs =>
      if g =? 0 then
        let current := (if (snd current =? 0)%nat then i else fst current, S (snd current)) in
        let longest := if (snd longest <? snd current)%nat then current else longest in
        longest_zeros (S i) current longest gs
      else longest_zeros (S i) (0%nat, 0%nat) longest gs
  end.
(** [fmt_subslice]: the groups in hexadecimal, separated by colons *)
Definition fmt_groups (gs : list Z) : str := join [colon] (map (fmt_radix 16) gs).
(** [impl Display for Ipv6Addr] *)
Definition display_v6 (a : Z) : str :=
  match to_ipv4_mapped a with
  | Some v4 => lit "::ffff:" ++ display_v4 v4
  | None =>
      let gs := segments a in
      let '(start, len) := longest_zeros 0 (0%nat, 0%nat) (0%nat, 0%nat) gs in
      if (1 <? len)%nat then fmt_groups (take start gs) ++ lit "::" ++ fmt_groups (drop (start + len) gs)
      else fmt_groups gs
  end.
Definition display_ip (a : IpAddr) : str := match a with V4 a => display_v4 a | V6 a => display_v6 a end.
(** [impl Display for SocketAddr] *)
Definition display_socket (a : SocketAddr) : str :=
  match a with
  | SockV4 ip port => display_v4 ip ++ [colon] ++ fmt_dec port
  | SockV6 ip port _ scope =>
      [91] ++ display_v6 ip ++ (if scope =? 0 then [] else [37] ++ fmt_dec scope) ++ [93; colon] ++ fmt_dec port
  end.

Example display_v6_ex :
  map display_v6 [0; 1; 0x20010db8 * 2 ^ 96 + 1; 0x1 * 2 ^ 112 + 2 ^ 16; 65535 * 2 ^ 32 + 16909060]
  = [lit "::"; lit "::1"; lit "2001:db8::1"; lit "1::1:0"; lit "::ffff:1.2.3.4"].
Proof. vm_compute. reflexivity. Qed.

Lemma read_octet_fmt b rest : fits 8 b -> stops 10 rest ->
  read_number 10 3 false 8 (fmt_dec b ++ rest) = Some (b, rest).
Proof. intros Hb Hs. apply read_number_fmt; try done; [destruct Hb; lia|lia]. Qed.
Lemma read_ipv4_display a rest : fits 32 a -> stops 10 rest -> read_ipv4_addr (display_v4 a ++ rest) = Some (a, rest).
Proof.
  intros Ha Hs. pose proof (to_be_bytes_ok 4 a) as Hok. pose proof (length_to_be_bytes 4 a) as Hlen.
  pose proof (from_to_be_bytes 4 a ltac:(done)) as Hv. unfold display_v4.
  destruct (to_be_bytes 4 a) as [|b0 [|b1 [|b2 [|b3 [|]]]]]; try done.
  apply Forall_cons in Hok as [H0 Hok]. apply Forall_cons in Hok as [H1 Hok].
  apply Forall_cons in Hok as [H2 Hok]. apply Forall_cons in Hok as [H3 _].
  cbn [map join]. rewrite <- !app_assoc. unfold read_ipv4_addr, read_separator.
  do 3 (rewrite read_octet_fmt by done; cbn [mbind option_bind app read_given_char]; rewrite Z.eqb_refl;
        cbn [mbind option_bind]).
  rewrite read_octet_fmt by done. cbn [mbind option_bind]. by rewrite Hv.
Qed.

Lemma read_digits_split radix s ds r : read_digits radix s = (ds, r) -> exists u, s = u ++ r.
Proof.
  revert ds r; induction s as [|c s IH]; intros ds r; simpl; [intros [= <- <-]; by exists []|].
  destruct (to_digit radix c); [|intros [= <- <-]; by exists []].
  destruct (read_digits radix s) as [ds' r']. intros [= <- <-]. destruct (IH _ _ eq_refl) as [u ->].
  by exists (c :: u).
Qed.
(** A hexadecimal group is not the start of a dotted address. *)
Definition no_dot (s : str) : Prop := match s with [] => True | c :: _ => c <> dot end.
Lemma digit_char_no_dot ds rest : Forall (fun d => 0 <= d < 16) ds -> no_dot rest -> no_dot (map digit_char ds ++ rest).
Proof.
  intros [|d ds' Hd _] Hr; simpl; [done|]. unfold digit_char, dot. destruct (Z.ltb_spec d 10); lia.
Qed.
Lemma read_digits_10 ds rest ds' r : Forall (fun d => 0 <= d < 16) ds -> stops 16 rest -> no_dot rest ->
  read_digits 10 (map digit_char ds ++ rest) = (ds', r) -> no_dot r.
Proof.
  intros H Hs Hn. revert ds' r; induction H as [|d ds Hd Hds IH]; intros ds' r; simpl.
  - destruct rest as [|c rest]; [by intros [= <- <-]|]. simpl in *.
    assert (to_digit 10 c = None) as E.
    { revert Hs. unfold to_digit. repeat case_match; try done; lia. }
    rewrite E. by intros [= <- <-].
  - destruct (to_digit 10 (digit_char d)).
    + destruct (read_digits 10 _) as [ds1 r1]. intros [= <- <-]. by eapply IH.
    + intros [= <- <-]. apply (digit_char_no_dot (d :: ds)); [by constructor|done].
Qed.
Lemma read_ipv4_hex g rest : 0 <= g -> stops 16 rest -> no_dot rest -> read_ipv4_addr (fmt_hex g ++ rest) = None.
Proof.
  intros Hg Hs Hn. unfold read_ipv4_addr, read_separator.
  destruct (read_number 10 3 false 8 (fmt_hex g ++ rest)) as [[a r]|] eqn:E; [|done]. cbn [mbind option_bind].
  assert (no_dot r) as Hr.
  { unfold read_number in E. destruct (read_digits 10 _) as [ds r'] eqn:Ed.
    apply read_digits_10 in Ed; [|apply digits_spec; lia|done..]. by repeat case_match; simplify_eq. }
  destruct r as [|c r]; [done|]. simpl in *. by rewrite (proj2 (Z.eqb_neq c dot)).
Qed.

(** The text of groups from index [i] on, as [read_groups] expects it. *)
Fixpoint groups_text (i : nat) (gs : list Z) : str :=
  match gs with
  | [] => []
  | g :: gs => (match i with O => [] | S _ => [colon] end) ++ fmt_hex g ++ groups_text (S i) gs
  end.
Lemma fmt_groups_text gs : fmt_groups gs = groups_text 0 gs.
Proof.
  unfold fmt_groups. destruct gs as [|g gs]; [done|]. cbn [groups_text app map].
  assert (forall gs i, groups_text (S i) gs = groups_text 1 gs) as Hi.
  { induction gs0 as [|h hs IH]; intros i; [done|]. cbn [groups_text]. by rewrite (IH (S i)), (IH 1%nat). }
  revert g; induction gs as [|h gs IH]; intros g; [by rewrite app_nil_r|].
  cbn [map]. rewrite join_cons by done. rewrite (IH h). cbn [groups_text]. by rewrite (Hi gs 1%nat).
Qed.

(** After the groups comes neither a group nor a dot nor a digit. *)
Definition group_end (i : nat) (rest : str) : Prop :=
  stops 16 rest /\ no_dot rest /\
  read_separator colon i read_ipv4_addr rest = None /\
  read_separator colon i (read_number 16 4 true 16) rest = None.
Lemma colon_stops s : stops 16 (colon :: s) /\ no_dot (colon :: s).
Proof. done. Qed.

Lemma read_group_step limit i g t :
  fits 16 g -> stops 16 t -> no_dot t ->
  read_groups (S limit) i ((match i with O => [] | S _ => [colon] end) ++ fmt_hex g ++ t)
  = let '(gs, v4, r) := read_groups limit (S i) t in (g :: gs, v4, r).
Proof.
  intros Hg Hs Hn. cbn [read_groups].
  assert (forall A (p : Net.parser A), read_separator colon i p
    ((match i with O => [] | S _ => [colon] end) ++ fmt_hex g ++ t) = p (fmt_hex g ++ t)) as E.
  { intros A p. destruct i; [done|]. unfold read_separator. cbn [app read_given_char]. by rewrite Z.eqb_refl. }
  rewrite !E, read_ipv4_hex, read_number_fmt; try done; try (destruct Hg; lia).
  by destruct (1 <? S limit)%nat.
Qed.
Lemma read_groups_text limit i gs rest :
  Forall (fits 16) gs -> (length gs <= limit)%nat -> stops 16 rest -> no_dot rest ->
  (length gs = limit \/ group_end (i + length gs) rest) ->
  read_groups limit i (groups_text i gs ++ rest) = (gs, false, rest).
Proof.
  revert limit i; induction gs as [|g gs IH]; intros limit i Hgs Hl Hs Hn He.
  - destruct limit as [|limit]; [done|]. destruct He as [|(_ & _ & E4 & E6)]; [done|].
    rewrite Nat.add_0_r in *. cbn [groups_text app read_groups]. rewrite E4, E6. by destruct (_ <? _)%nat.
  - destruct limit as [|limit]; [simpl in Hl; lia|]. apply Forall_cons in Hgs as [Hg Hgs].
    cbn [groups_text]. rewrite <- !app_assoc. rewrite read_group_step; [|done|by destruct gs|by destruct gs].
    rewrite IH; [done|done|simpl in Hl; lia|done|done|]. destruct He as [He|He]; [left; simpl in He; lia|right].
    simpl in He. by replace (S i + length gs)%nat with (i + S (length gs))%nat by lia.
Qed.
Lemma double_colon_end i t : group_end i (lit "::" ++ t).
Proof. split_and!; try done; by destruct i. Qed.

Lemma length_segs k a : length (segs k a) = k.
Proof. revert a; induction k as [|k IH]; intros a; simpl; [done|]. rewrite length_app, IH. simpl. lia. Qed.
Lemma segs_fits k a : Forall (fits 16) (segs k a).
Proof.
  revert a; induction k as [|k IH]; intros a; simpl; [done|]. apply Forall_app. split; [apply IH|].
  repeat constructor; apply Z.mod_pos_bound; lia.
Qed.
Lemma groups_value_snoc gs g : groups_value (gs ++ [g]) = groups_value gs * 2 ^ 16 + g.
Proof. unfold groups_value. by rewrite foldl_app. Qed.
Lemma segs_value k a : 0 <= a < 2 ^ (16 * Z.of_nat k) -> groups_value (segs k a) = a.
Proof.
  revert a; induction k as [|k IH]; intros a Ha.
  { change (2 ^ _) with 1 in Ha. change (groups_value (segs 0 a)) with 0. lia. }
  cbn [segs]. rewrite groups_value_snoc, IH.
  - pose proof (Z.div_mod a (2 ^ 16) ltac:(done)). lia.
  - replace (16 * Z.of_nat (S k)) with (16 + 16 * Z.of_nat k) in Ha by lia. rewrite Z.pow_add_r in Ha by lia.
    split; [apply Z.div_pos; lia|]. apply Z.div_lt_upper_bound; lia.
Qed.

Definition zero_run (gs : list Z) (r : nat * nat) : Prop :=
  (fst r + snd r <= length gs)%nat /\ take (snd r) (drop (fst r) gs) = repeat 0 (snd r).
Lemma zero_run_app gs t r : zero_run gs r -> zero_run (gs ++ t) r.
Proof.
  intros [H1 H2]. split; [rewrite length_app; lia|]. rewrite drop_app_le, take_app_le; [done|..]; rewrite ?length_drop; lia.
Qed.
Lemma longest_zeros_run i current longest done gs :
  i = length done -> zero_run done longest -> zero_run done current ->
  (snd current = 0%nat \/ (fst current + snd current = i)%nat) ->
  zero_run (done ++ gs) (longest_zeros i current longest gs).
Proof.
  intros Hi. revert i current longest done Hi; induction gs as [|g gs IH];
    intros i [cs cl] longest done Hi Hl Hc Hcur; cbn [longest_zeros]; [by rewrite app_nil_r|].
  rewrite (app_assoc done [g] gs : done ++ g :: gs = _).
  destruct (Z.eqb_spec g 0) as [->|]; cbv zeta; cbn [fst snd].
  - set (cur := (if (cl =? 0)%nat then i else cs, S cl)).
    assert (zero_run (done ++ [0]) cur) as Hcur'.
    { destruct Hc as [Hc1 Hc2]. cbn [fst snd] in *. unfold cur. split; cbn [fst snd].
      - rewrite length_app. simpl. destruct (Nat.eqb_spec cl 0); lia.
      - destruct (Nat.eqb_spec cl 0) as [->|Hne].
        + rewrite Hi, drop_app_length. done.
        + destruct Hcur as [?|Hcur]; [simpl in *; lia|]. rewrite drop_app_le by lia.
          replace (S cl) with (length (drop cs done) + 1)%nat by (rewrite length_drop; lia).
          rewrite take_app_add. rewrite take_ge in Hc2 by (rewrite length_drop; lia). rewrite Hc2 at 1.
          rewrite length_drop. replace (length done - cs)%nat with cl by lia. simpl.
          by rewrite (repeat_app 0 cl 1). }
    apply IH; [rewrite length_app; simpl; lia|..].
    + destruct (_ <? _)%nat; [done|by apply zero_run_app].
    + done.
    + right. unfold cur. simpl. destruct (Nat.eqb_spec cl 0); [lia|]. destruct Hcur; simpl in *; lia.
  - apply IH; [rewrite length_app; simpl; lia|by apply zero_run_app| |by left].
    split; simpl; [lia|done].
Qed.

(** What may follow an address: nothing, a closing bracket or a scope. *)
Definition ip_end (rest : str) : Prop := match rest with [] => True | c :: _ => c = 93 \/ c = 37 end.
Lemma ip_end_stops rest : ip_end rest -> stops 16 rest /\ no_dot rest /\ forall i, group_end i rest.
Proof.
  destruct rest as [|c rest]; [intros _; split_and!; [done..|intros [|i]; by split_and!]|].
  intros [-> | ->]; (split_and!; [done..|intros [|i]; by split_and!]).
Qed.
Lemma zero_group_split gs start len :
  zero_run gs (start, len) -> take start gs ++ repeat 0 len ++ drop (start + len) gs = gs.
Proof. intros [_ H]. cbn [fst snd] in H. rewrite <- H, <- drop_drop. by rewrite take_drop, take_drop. Qed.
Lemma groups_text_follow i gs rest : stops 16 rest -> no_dot rest ->
  stops 16 (groups_text (S i) gs ++ rest) /\ no_dot (groups_text (S i) gs ++ rest).
Proof. by destruct gs. Qed.
Lemma read_colons t : read_given_char colon (lit "::" ++ t) = Some (tt, colon :: t).
Proof. done. Qed.

Lemma read_v6_mapped v rest : fits 32 v -> ip_end rest ->
  read_ipv6_addr (lit "::ffff:" ++ display_v4 v ++ rest) = Some (65535 * 2 ^ 32 + v, rest).
Proof.
  intros Hv Hr. apply ip_end_stops in Hr as (Hs & Hn & _). unfold read_ipv6_addr.
  change (lit "::ffff:" ++ display_v4 v ++ rest)
    with (groups_text 0 [] ++ lit "::" ++ fmt_hex 65535 ++ [colon] ++ display_v4 v ++ rest).
  rewrite read_groups_text; [|done|simpl; lia|done|done|right; apply double_colon_end].
  cbn [length Nat.eqb Nat.sub Nat.add]. rewrite read_colons. cbn [mbind option_bind read_given_char].
  rewrite Z.eqb_refl. cbn [mbind option_bind].
  pose proof (read_group_step 6 0 65535 ([colon] ++ display_v4 v ++ rest)) as E. cbn [app] in E.
  cbn [app]. rewrite E by done. clear E.
  assert (read_groups 6 1 (colon :: display_v4 v ++ rest) = ([v / 2 ^ 16; v mod 2 ^ 16], true, rest)) as ->.
  { cbn [read_groups]. unfold read_separator at 1. cbn [app read_given_char]. rewrite Z.eqb_refl.
    cbn [mbind option_bind]. rewrite read_ipv4_display; [done|done|].
    destruct rest as [|c rest]; [done|]. revert Hs. simpl. unfold to_digit. repeat case_match; try done; lia. }
  cbn. do 2 f_equal. unfold groups_value. cbn [foldl]. pose proof (Z.div_mod v (2 ^ 16) ltac:(done)). lia.
Qed.
Lemma read_v6_plain gs rest : Forall (fits 16) gs -> length gs = 8%nat -> ip_end rest ->
  read_ipv6_addr (fmt_groups gs ++ rest) = Some (groups_value gs, rest).
Proof.
  intros Hgs Hl Hr. apply ip_end_stops in Hr as (Hs & Hn & _). unfold read_ipv6_addr.
  rewrite fmt_groups_text, read_groups_text; [|done|lia|done|done|by left]. by rewrite Hl.
Qed.
Lemma read_v6_compressed gs start len rest :
  Forall (fits 16) gs -> length gs = 8%nat -> zero_run gs (start, len) -> (1 < len)%nat -> ip_end rest ->
  read_ipv6_addr (fmt_groups (take start gs) ++ lit "::" ++ fmt_groups (drop (start + len) gs) ++ rest)
  = Some (groups_value gs, rest).
Proof.
  intros Hgs Hl Hz Hlen Hr. apply ip_end_stops in Hr as (Hs & Hn & He). pose proof Hz as [Hb _]. cbn [fst snd] in Hb.
  assert (length (take start gs) = start) as Ht by (rewrite length_take; lia).
  assert (length (drop (start + len) gs) = 8 - start - len)%nat as Hd by (rewrite length_drop; lia).
  unfold read_ipv6_addr. rewrite !fmt_groups_text.
  rewrite read_groups_text; [|by apply Forall_take|lia|done|done|right; apply double_colon_end].
  rewrite Ht. destruct (Nat.eqb_spec start 8); [lia|]. rewrite read_colons. cbn [mbind option_bind read_given_char].
  rewrite Z.eqb_refl. cbn [mbind option_bind].
  rewrite read_groups_text; [|by apply Forall_drop|lia|done|done|right; apply He].
  rewrite Hd. replace (8 - start - (8 - start - len))%nat with len by lia. by rewrite zero_group_split.
Qed.
Lemma longest_zeros_segments gs : zero_run gs (longest_zeros 0 (0%nat, 0%nat) (0%nat, 0%nat) gs).
Proof. apply (longest_zeros_run 0 (0%nat, 0%nat) (0%nat, 0%nat) [] gs); try done. by left. Qed.

Lemma read_ipv6_display a rest : fits 128 a -> ip_end rest -> read_ipv6_addr (display_v6 a ++ rest) = Some (a, rest).
Proof.
  intros Ha Hr. unfold display_v6. destruct (to_ipv4_mapped a) as [v|] eqn:Em.
  - apply to_ipv4_mapped_Some in Em as [Hv ->]. rewrite <- app_assoc. by apply read_v6_mapped.
  - cbv zeta. pose proof (longest_zeros_segments (segments a)) as Hz.
    assert (groups_value (segments a) = a) as Hval by (apply segs_value; apply Ha).
    assert (length (segments a) = 8%nat) as Hl by apply length_segs.
    assert (Forall (fits 16) (segments a)) as Hf by apply segs_fits.
    destruct (longest_zeros _ _ _ _) as [start len]. destruct (Nat.ltb_spec 1 len).
    + rewrite <- !app_assoc, read_v6_compressed by done. by rewrite Hval.
    + rewrite read_v6_plain by done. by rewrite Hval.
Qed.
(** An IPv6 text is never read as a dotted address. *)
Lemma read_ipv4_groups gs t : Forall (fits 16) gs -> stops 16 t -> no_dot t ->
  (gs = [] -> exists u, t = colon :: u) -> read_ipv4_addr (fmt_groups gs ++ t) = None.
Proof.
  intros Hgs Hs Hn He. rewrite fmt_groups_text. destruct gs as [|g gs]; [destruct He as [u ->]; done|].
  apply Forall_cons in Hgs as [Hg _]. cbn [groups_text app]. rewrite <- app_assoc.
  apply read_ipv4_hex; [apply Hg|by apply groups_text_follow..].
Qed.
Lemma read_ipv4_display_v6 a rest : ip_end rest -> read_ipv4_addr (display_v6 a ++ rest) = None.
Proof.
  intros Hr. apply ip_end_stops in Hr as (Hs & Hn & _). unfold display_v6. case_match; [done|]. cbv zeta.
  pose proof (segs_fits 8 a : Forall (fits 16) (segments a)) as Hf. pose proof (length_segs 8 a : length (segments a) = _) as Hl.
  destruct (longest_zeros _ _ _ _) as [start len]. case_match.
  - rewrite <- !app_assoc. apply read_ipv4_groups; [by apply Forall_take|done|done|]. intros _. by eexists.
  - apply read_ipv4_groups; [done..|]. intros E. by rewrite E in Hl.
Qed.

(** [a.to_string().parse::<IpAddr>() == Ok(a)] *)
Lemma parse_display_ip a : addr_fits a -> parse_ip_addr (display_ip a) = Some a.
Proof.
  unfold parse_ip_addr, parse_with. rewrite <- (app_nil_r (display_ip a)). destruct a as [a|a]; cbn [display_ip addr_fits]; intros Ha.
  - by rewrite read_ipv4_display.
  - by rewrite read_ipv4_display_v6, read_ipv6_display.
Qed.
Definition socket_fits (a : SocketAddr) : Prop :=
  match a with
  | SockV4 ip port => fits 32 ip /\ fits 16 port
  | SockV6 ip port flow scope => fits 128 ip /\ fits 16 port /\ flow = 0 /\ fits 32 scope
  end.
Lemma read_port_fmt p : fits 16 p -> read_port ([colon] ++ fmt_dec p) = Some (p, []).
Proof.
  intros Hp. unfold read_port. cbn [app read_given_char]. rewrite Z.eqb_refl. cbn [mbind option_bind].
  rewrite <- (app_nil_r (fmt_dec p)). by rewrite read_number_unbounded_fmt.
Qed.
(** [a.to_string().parse::<SocketAddr>() == Ok(a)], for an address without flow
    information (the text does not carry it) *)
Lemma parse_display_socket a : socket_fits a -> parse_socket_addr (display_socket a) = Some a.
Proof.
  unfold parse_socket_addr, parse_with. destruct a as [ip port|ip port flow scope]; cbn [socket_fits display_socket].
  - intros [Hi Hp]. unfold read_socket_addr_v4. rewrite read_ipv4_display by done. cbn [mbind option_bind].
    by rewrite read_port_fmt.
  - intros (Hi & Hp & -> & Hs).
    change (read_socket_addr_v4 ([91] ++ _)) with (@None (SocketAddr * str)). unfold read_socket_addr_v6.
    cbn [app read_given_char]. rewrite Z.eqb_refl. cbn [mbind option_bind].
    rewrite read_ipv6_display; [|done|destruct (scope =? 0); [by left|by right]]. cbn [mbind option_bind].
    destruct (Z.eqb_spec scope 0) as [->|].
    + change (read_scope_id _) with (@None (Z * str)). cbn [app read_given_char]. rewrite Z.eqb_refl. cbn [mbind option_bind].
      change (colon :: fmt_dec port) with ([colon] ++ fmt_dec port). by rewrite read_port_fmt.
    + unfold read_scope_id. cbn [app read_given_char]. rewrite Z.eqb_refl. cbn [mbind option_bind].
      rewrite read_number_unbounded_fmt by done. cbn [read_given_char]. rewrite Z.eqb_refl. cbn [mbind option_bind].
      change (colon :: fmt_dec port) with ([colon] ++ fmt_dec port). by rewrite read_port_fmt.
Qed.

(** ** Text helpers *)

Definition replacement : str := [239; 191; 189].
Definition utf8_second3 (b c : Z) : bool :=
  if b =? 224 then (160 <=? c) && (c <=? 191)
  else if b =? 237 then (128 <=? c) && (c <=? 159) else utf8_cont c.
Definition utf8_second4 (b c : Z) : bool :=
  if b =? 240 then (144 <=? c) && (c <=? 191)
  else if b =? 244 then (128 <=? c) && (c <=? 143) else utf8_cont c.
(** [String::from_utf8_lossy]: each maximal invalid part becomes U+FFFD. *)
Fixpoint from_utf8_lossy (s : list Z) : str :=
  match s with
  | [] => []
  | b :: s1 =>
      if b <? 128 then b :: from_utf8_lossy s1
      else if (194 <=? b) && (b <=? 223) then
        match s1 with
        | c1 :: s2 => if utf8_cont c1 then b :: c1 :: from_utf8_lossy s2 else replacement ++ from_utf8_lossy s1
        | [] => replacement
        end
      else if (224 <=? b) && (b <=? 239) then
        match s1 with
        | c1 :: s2 =>
            if utf8_second3 b c1 then
              match s2 with
              | c2 :: s3 => if utf8_cont c2 then b :: c1 :: c2 :: from_utf8_lossy s3
                            else replacement ++ from_utf8_lossy s2
              | [] => replacement
              end
            else replacement ++ from_utf8_lossy s1
        | [] => replacement
        end
      else if (240 <=? b) && (b <=? 244) then
        match s1 with
        | c1 :: s2 =>
            if utf8_second4 b c1 then
              match s2 with
              | c2 :: s3 =>
                  if utf8_cont c2 then
                    match s3 with
                    | c3 :: s4 => if utf8_cont c3 then b :: c1 :: c2 :: c3 :: from_utf8_lossy s4
                                  else replacement ++ from_utf8_lossy s3
                    | [] => replacement
                    end
                  else replacement ++ from_utf8_lossy s2
              | [] => replacement
              end
            else replacement ++ from_utf8_lossy s1
        | [] => replacement
        end
      else replacement ++ from_utf8_lossy s1
  end.

(** Induction over the characters of a valid text. *)
Lemma utf8_ind (P : str -> Prop) :
  P [] ->
  (forall u t, u <> [] -> (forall t', utf8_valid (u ++ t') = utf8_valid t') ->
               (forall t', from_utf8_lossy (u ++ t') = u ++ from_utf8_lossy t') -> P t -> P (u ++ t)) ->
  forall s, utf8_valid s = true -> P s.
Proof.
  intros H0 Hstep s. remember (length s) as n eqn:Hn. revert s Hn.
  induction n as [n IH] using lt_wf_ind. intros s -> Hv. destruct s as [|b s]; [done|].
  cbn [utf8_valid] in Hv. destruct (b <? 128) eqn:E1; [|destruct ((194 <=? b) && (b <=? 223)) eqn:E2;
    [|destruct ((224 <=? b) && (b <=? 239)) eqn:E3; [|destruct ((240 <=? b) && (b <=? 244)) eqn:E4; [|done]]]].
  - apply (Hstep [b] s); [done|intros t'; simpl; by rewrite E1..|]. eapply IH; [|done|done]. simpl. lia.
  - destruct s as [|c1 s]; [done|]. apply andb_true_iff in Hv as [C1 Hv].
    apply (Hstep [b; c1] s); [done|intros t'; simpl; by rewrite E1, E2, C1..|]. eapply IH; [|done|done]. simpl. lia.
  - destruct s as [|c1 [|c2 s]]; [done..|]. apply andb_true_iff in Hv as [C Hv]. apply andb_true_iff in C as [C1 C2].
    apply (Hstep [b; c1; c2] s); [done| | |eapply IH; [|done|done]; simpl; lia]; intros t'; simpl.
    + by rewrite E1, E2, E3, C1, C2.
    + unfold utf8_second3. by rewrite E1, E2, E3, C1, C2.
  - destruct s as [|c1 [|c2 [|c3 s]]]; [done..|]. apply andb_true_iff in Hv as [C Hv].
    apply andb_true_iff in C as [C C3]. apply andb_true_iff in C as [C1 C2].
    apply (Hstep [b; c1; c2; c3] s); [done| | |eapply IH; [|done|done]; simpl; lia]; intros t'; simpl.
    + by rewrite E1, E2, E3, E4, C1, C2, C3.
    + unfold utf8_second4. by rewrite E1, E2, E3, E4, C1, C2, C3.
Qed.
Lemma utf8_valid_app a b : utf8_valid a = true -> utf8_valid (a ++ b) = utf8_valid b.
Proof.
  intros H. revert a H. apply utf8_ind; [done|]. intros u t _ Hu _ IH. by rewrite <- app_assoc, Hu.
Qed.
Lemma from_utf8_lossy_valid s : utf8_valid s = true -> from_utf8_lossy s = s.
Proof. revert s. apply utf8_ind; [done|]. intros u t _ _ Hu IH. by rewrite Hu, IH. Qed.
Lemma utf8_join sep l :
  utf8_valid sep = true -> Forall (fun s => utf8_valid s = true) l -> utf8_valid (join sep l) = true.
Proof.
  intros Hs H. induction H as [|s l Hv _ IH]; [done|]. destruct l as [|s' l]; [done|].
  rewrite join_cons by done. by rewrite utf8_valid_app, utf8_valid_app.
Qed.

(** [s.split_whitespace()] *)
Fixpoint split_ws_from (fuel : nat) (current : str) (s : str) : list str :=
  let flush := if is_empty current then [] else [current] in
  match fuel with
  | O => flush
  | S fuel =>
      match s with
      | [] => flush
      | b :: s' =>
          match strip_ws s with
          | Some s1 => flush ++ split_ws_from fuel [] s1
          | None => split_ws_from fuel (current ++ [b]) s'
          end
      end
  end.
Definition split_whitespace (s : str) : list str := split_ws_from (length s) [] s.

(** No white-space character starts anywhere in the text. *)
Fixpoint no_ws (s : str) : bool :=
  match s with
  | [] => true
  | _ :: s' => match strip_ws s with Some _ => false | None => no_ws s' end
  end.
Lemma strip_ws_space u t : u <> [] -> strip_ws u = None -> strip_ws (u ++ 32 :: t) = None.
Proof.
  destruct u as [|a [|b [|c u]]]; [done|..]; intros _ H; unfold strip_ws in *; cbn [app] in *;
    destruct (is_ascii_ws a); try done; repeat case_match; try done;
    exfalso; unfold in_2000_200a_or_202x in *; lia.
Qed.
Lemma split_ws_word fuel cur w t :
  no_ws w = true -> (length w < fuel)%nat ->
  split_ws_from fuel cur (w ++ 32 :: t)
  = (if is_empty (cur ++ w) then [] else [cur ++ w]) ++ split_ws_from (fuel - length w - 1) [] t.
Proof.
  revert fuel cur; induction w as [|b w IH]; intros fuel cur Hw Hf.
  - destruct fuel as [|fuel]; [simpl in Hf; lia|]. rewrite app_nil_r. simpl. by rewrite Nat.sub_0_r.
  - destruct fuel as [|fuel]; [simpl in Hf; lia|]. cbn [no_ws] in Hw.
    destruct (strip_ws (b :: w)) eqn:E; [done|]. cbn [split_ws_from app].
    pose proof (strip_ws_space (b :: w) t ltac:(done) E) as Es. cbn [app] in Es. rewrite Es.
    rewrite IH; [|done|simpl in Hf; lia]. rewrite <- !app_assoc. done.
Qed.
Lemma split_ws_last fuel cur w :
  no_ws w = true -> (length w <= fuel)%nat ->
  split_ws_from fuel cur w = if is_empty (cur ++ w) then [] else [cur ++ w].
Proof.
  revert fuel cur; induction w as [|b w IH]; intros fuel cur Hw Hf; [rewrite app_nil_r; by destruct fuel|].
  destruct fuel as [|fuel]; [simpl in Hf; lia|]. cbn [no_ws] in Hw.
  destruct (strip_ws (b :: w)) eqn:E; [done|]. cbn [split_ws_from]. rewrite E.
  rewrite IH; [|done|simpl in Hf; lia]. by rewrite <- app_assoc.
Qed.
Lemma split_whitespace_two a b : a <> [] -> b <> [] -> no_ws a = true -> no_ws b = true ->
  split_whitespace (a ++ 32 :: b) = [a; b].
Proof.
  intros Ha Hb Na Nb. unfold split_whitespace. rewrite length_app. cbn [length].
  rewrite split_ws_word by (done || lia). rewrite split_ws_last by (done || lia). by destruct a, b.
Qed.

(** [text.replace] of CR LF by LF *)
Fixpoint replace_crlf (s : str) : str :=
  match s with
  | [] => []
  | x :: s' => match s' with
               | y :: s'' => if (x =? 13) && (y =? 10) then 10 :: replace_crlf s'' else x :: replace_crlf s'
               | [] => [x]
               end
  end.
Lemma replace_crlf_id s : 13 ∉ s -> replace_crlf s = s.
Proof.
  induction s as [|x s IH]; [done|]. rewrite not_elem_of_cons. intros [Hx Hs].
  destruct s as [|y s]; [done|].
  change (replace_crlf (x :: y :: s))
    with (if (x =? 13) && (y =? 10) then 10 :: replace_crlf s else x :: replace_crlf (y :: s)).
  rewrite (proj2 (Z.eqb_neq x 13)) by congruence. cbn [andb]. by rewrite IH.
Qed.

(** ** Printable ASCII texts are not changed by trimming *)

Definition graphic (b : Z) : Prop := 33 <= b < 127.
Lemma strip_ws_graphic b s : graphic b -> strip_ws (b :: s) = None.
Proof.
  unfold graphic, strip_ws, is_ascii_ws. intros H. replace (_ || _) with false by lia.
  repeat case_match; try done; lia.
Qed.
Lemma strip_ws_rev_graphic b s : graphic b -> strip_ws_rev (b :: s) = None.
Proof.
  unfold graphic, strip_ws_rev, is_ascii_ws, in_2000_200a_or_202x. intros H. replace (_ || _) with false by lia.
  repeat case_match; try done; lia.
Qed.
Lemma trim_graphic s : Forall graphic s -> trim s = s.
Proof.
  intros H. destruct s as [|b s]; [done|]. unfold trim, trim_start.
  rewrite strip_while_none by (apply strip_ws_graphic; by apply Forall_cons in H as [? _]).
  unfold trim_end. rewrite strip_while_none; [apply rev_involutive|].
  assert (Forall graphic (rev (b :: s))) as Hr by (by apply Forall_rev).
  destruct (rev (b :: s)) as [|c t]; [done|]. apply strip_ws_rev_graphic. by apply Forall_cons in Hr as [? _].
Qed.
Lemma no_ws_graphic s : Forall graphic s -> no_ws s = true.
Proof.
  intros H. induction H as [|b s Hb Hs IH]; [done|]. cbn [no_ws]. by rewrite strip_ws_graphic.
Qed.
Lemma utf8_ascii s : Forall (fun b => b < 128) s -> utf8_valid s = true.
Proof.
  intros H. induction H as [|b s Hb _ IH]; [done|]. cbn [utf8_valid]. by rewrite (proj2 (Z.ltb_lt b 128)).
Qed.
Lemma graphic_utf8 s : Forall graphic s -> utf8_valid s = true.
Proof. intros H. apply utf8_ascii. eapply Forall_impl; [exact H|]. unfold graphic. lia. Qed.
Lemma graphic_not s c : Forall graphic s -> ~ graphic c -> c ∉ s.
Proof. intros H Hc Hin. rewrite Forall_forall in H. by apply Hc, H. Qed.

Lemma digit_char_graphic d : 0 <= d < 16 -> graphic (digit_char d) /\ (digit_char d < 58 \/ 97 <= digit_char d).
Proof. unfold graphic, digit_char. destruct (Z.ltb_spec d 10); lia. Qed.
(** The characters of printed numbers and addresses. *)
Lemma fmt_radix_chars (P : Z -> Prop) radix n :
  (forall d, 0 <= d < 16 -> P (digit_char d)) -> 2 <= radix <= 16 -> 0 <= n -> Forall P (fmt_radix radix n).
Proof.
  intros HP Hr Hn. apply Forall_fmap. destruct (digits_spec radix n ltac:(lia) Hn) as (H & _).
  eapply Forall_impl; [exact H|]. intros d Hd. cbn beta in Hd. apply HP. lia.
Qed.
Lemma join_chars (P : Z -> Prop) sep l : Forall P sep -> Forall (Forall P) l -> Forall P (join sep l).
Proof.
  intros Hs H. induction H as [|s l Hg _ IH]; [done|]. destruct l as [|s' l]; [done|].
  rewrite join_cons by done. by rewrite !Forall_app.
Qed.
Section Chars.
Context (P : Z -> Prop) (Hdigit : forall d, 0 <= d < 16 -> P (digit_char d)) (Hdot : P dot) (Hcolon : P colon).
Lemma display_v4_chars a : Forall P (display_v4 a).
Proof.
  apply join_chars; [by repeat constructor|]. apply Forall_fmap. eapply Forall_impl; [apply to_be_bytes_ok|].
  intros b [Hb _]. by apply fmt_radix_chars.
Qed.
Lemma fmt_groups_chars gs : Forall (fits 16) gs -> Forall P (fmt_groups gs).
Proof.
  intros H. apply join_chars; [by repeat constructor|]. apply Forall_fmap. eapply Forall_impl; [exact H|].
  intros b [Hb _]. by apply fmt_radix_chars.
Qed.
Lemma display_v6_chars a : Forall P (display_v6 a).
Proof.
  unfold display_v6. pose proof (segs_fits 8 a : Forall (fits 16) (segments a)) as Hf. case_match eqn:Em.
  - apply Forall_app. split; [|apply display_v4_chars]. pose proof (Hdigit 15 ltac:(lia)) as Hff. by repeat constructor.
  - cbv zeta. destruct (longest_zeros _ _ _ _) as [start len]. case_match; [|by apply fmt_groups_chars].
    rewrite !Forall_app. split_and!; [|by repeat constructor|].
    + by apply fmt_groups_chars, Forall_take.
    + by apply fmt_groups_chars, Forall_drop.
Qed.
End Chars.

Lemma fmt_radix_graphic radix n : 2 <= radix <= 16 -> 0 <= n -> Forall graphic (fmt_radix radix n).
Proof. apply fmt_radix_chars. intros d Hd. by apply digit_char_graphic. Qed.
Lemma join_graphic sep l : Forall graphic sep -> Forall (Forall graphic) l -> Forall graphic (join sep l).
Proof. apply join_chars. Qed.
Lemma graphic_lit (s : str) : forallb (fun b => (33 <=? b) && (b <? 127)) s = true -> Forall graphic s.
Proof.
  rewrite forallb_forall. intros H. apply Forall_forall. intros x Hx. apply list_elem_of_In in Hx.
  specialize (H x Hx). unfold graphic. lia.
Qed.
Lemma display_v4_graphic a : 0 <= a -> Forall graphic (display_v4 a).
Proof. intros _. apply display_v4_chars; [intros d Hd; by apply digit_char_graphic|by vm_compute..]. Qed.
Lemma display_v6_graphic a : fits 128 a -> Forall graphic (display_v6 a).
Proof. intros _. apply display_v6_chars; [intros d Hd; by apply digit_char_graphic|by vm_compute..]. Qed.
Lemma display_socket_graphic a : socket_fits a -> Forall graphic (display_socket a).
Proof.
  destruct a as [ip port|ip port flow scope]; cbn [socket_fits display_socket].
  - intros [[Hi _] [Hp _]]. rewrite !Forall_app. split_and!; [by apply display_v4_graphic|by apply graphic_lit|].
    by apply fmt_radix_graphic.
  - intros (Hi & [Hp _] & _ & [Hs _]). rewrite !Forall_app.
    split_and!; [by apply graphic_lit|by apply display_v6_graphic| |by apply graphic_lit|by apply fmt_radix_graphic].
    case_match; [done|]. apply Forall_app. split; [by apply graphic_lit|]. by apply fmt_radix_graphic.
Qed.

(** ** Lengths *)

Lemma length_fmt_radix radix n k : 2 <= radix -> 0 <= n -> n < radix ^ Z.of_nat k -> (0 < k)%nat ->
  (length (fmt_radix radix n) <= k)%nat.
Proof. intros. unfold fmt_radix. rewrite length_map. apply digits_spec; lia || done. Qed.
Lemma length_v4_text a : (length (display_v4 a) <= 15)%nat.
Proof.
  unfold display_v4. pose proof (to_be_bytes_ok 4 a) as Hok. pose proof (length_to_be_bytes 4 a) as Hlen.
  destruct (to_be_bytes 4 a) as [|b0 [|b1 [|b2 [|b3 [|]]]]]; try done.
  assert (forall b, fits 8 b -> (length (fmt_radix 10 b) <= 3)%nat) as H3.
  { intros b [H1 H2]. apply length_fmt_radix; simpl; lia. }
  apply Forall_cons in Hok as [H0 Hok]. apply Forall_cons in Hok as [H1 Hok].
  apply Forall_cons in Hok as [H2 Hok]. apply Forall_cons in Hok as [Hb3 _].
  cbn [map join]. rewrite !length_app. cbn [length].
  pose proof (H3 _ H0). pose proof (H3 _ H1). pose proof (H3 _ H2). pose proof (H3 _ Hb3). lia.
Qed.
