(* ===== verification/Frame.v ===== *)
(** * Frame: line-oriented header blocks read byte by byte from a stream

    What the `rove-ingress/1` and `rove-reverse/1` framings share: the loop that
    reads single bytes up to a blank line, with a cap, and the lemmas that make
    it exact: a block of non-empty lines is read back as its lines, and the bytes
    that follow it stay in the stream. *)

From Stdlib Require Import ZArith Lia String.
From stdpp Require Import prelude strings list.
From S2P Require Import Prelude RustStr Net NetProps Util RustFmt.

Inductive IoError := ReadError | UnexpectedEof | InvalidData | InvalidInput.

Definition nl : Z := 10.
Definition cr : Z := 13.

(** One byte of the stream *)
Definition read_u8 (r : Reader.t) : result IoError Z * Reader.t :=
  match Reader.read 1 r with
  | (Ok [b], r) => (Ok b, r)
  | (Ok _, r) => (Err UnexpectedEof, r)
  | (Err _, r) => (Err ReadError, r)
  end.

(** The reading loop up to [stop], at most [cap] bytes; [None] when the fuel runs
    out, which [cap + 1] turns exclude ([frame_loop_total]). *)
Fixpoint frame_loop (stop : list Z -> bool) (cap fuel : nat) (r : Reader.t) (buf : list Z)
    : option (result IoError (list Z) * Reader.t) :=
  match fuel with
  | O => None
  | S fuel =>
      match read_u8 r with
      | (Err e, r) => Some (Err e, r)
      | (Ok b, r) =>
          let buf := buf ++ [b] in
          if (cap <? length buf)%nat then Some (Err InvalidData, r)
          else if stop buf then Some (Ok buf, r)
          else frame_loop stop cap fuel r buf
      end
  end.

Lemma frame_loop_total stop cap fuel r buf :
  (cap < fuel + length buf)%nat -> (length buf <= cap)%nat -> is_Some (frame_loop stop cap fuel r buf).
Proof.
  revert r buf; induction fuel as [|fuel IH]; intros r buf Hf Hb; [lia|]. cbn [frame_loop].
  destruct (read_u8 r) as [[b|e] r']; [|eauto]. cbv zeta.
  destruct (Nat.ltb_spec cap (length (buf ++ [b]))) as [|Hl]; [eauto|]. case_match; [eauto|].
  rewrite length_app in Hl. simpl in Hl. apply IH; rewrite length_app; simpl; lia.
Qed.

Lemma read_u8_exact r b t : Reader.no_error r = true -> Reader.bytes r = b :: t ->
  exists r', read_u8 r = (Ok b, r') /\ Reader.no_error r' = true /\ Reader.bytes r' = t.
Proof.
  intros Hr Hb. unfold read_u8. destruct (Reader.read_ok 1 r) as (c & r' & -> & Hl & He & Hm); [lia|done|].
  destruct c as [|x [|y c]]; [by rewrite He in Hb|..]; [|simpl in Hl; lia].
  destruct Hm as [Hm Hn]; [done|]. rewrite Hb in Hm. injection Hm as -> ->. eauto.
Qed.

(** The loop stops at the first prefix that satisfies [stop]. *)
Lemma frame_loop_exact stop cap fuel r buf s t :
  Reader.no_error r = true -> Reader.bytes r = s ++ t -> s <> [] ->
  stop (buf ++ s) = true ->
  (forall u v, s = u ++ v -> u <> [] -> v <> [] -> stop (buf ++ u) = false) ->
  (length (buf ++ s) <= cap)%nat -> (length s <= fuel)%nat ->
  exists r', frame_loop stop cap fuel r buf = Some (Ok (buf ++ s), r') /\ Reader.no_error r' = true /\ Reader.bytes r' = t.
Proof.
  revert fuel r buf; induction s as [|b s IH]; intros fuel r buf Hr Hb Hne Hstop Hmin Hcap Hf; [done|].
  destruct fuel as [|fuel]; [simpl in Hf; lia|]. cbn [frame_loop].
  destruct (read_u8_exact r b (s ++ t)) as (r' & -> & Hr' & Hb'); [done..|]. cbv zeta.
  rewrite length_app in Hcap. simpl in Hcap.
  destruct (Nat.ltb_spec cap (length (buf ++ [b]))) as [H|H]; [rewrite length_app in H; simpl in H; lia|].
  destruct s as [|b' s].
  - rewrite Hstop. eauto.
  - rewrite (Hmin [b] (b' :: s)) by done.
    change (buf ++ b :: b' :: s) with (buf ++ [b] ++ b' :: s) in *. rewrite (app_assoc buf) in *.
    apply IH; try done.
    + intros u v E Hu Hv. rewrite <- app_assoc. apply (Hmin ([b] ++ u) v); [by rewrite E|done|done].
    + rewrite length_app. simpl. rewrite length_app. simpl. simpl in Hcap. lia.
    + simpl in *. lia.
Qed.

(** ** Blocks of lines *)

(** A header block: the lines, each ended, and a blank line. *)
Definition block (lines : list str) : list Z := join [nl] lines ++ [nl; nl].
Definition line_ok (l : str) : Prop := l <> [] /\ nl ∉ l /\ cr ∉ l.

Lemma split_app c a b : split c (a ++ [c] ++ b) = split c a ++ split c b.
Proof.
  induction a as [|x a IH]; [simpl; by rewrite Z.eqb_refl|]. cbn [app split].
  cbn [app] in IH. destruct (Z.eqb_spec x c); [by rewrite IH|]. rewrite IH.
  destruct (split c a) eqn:E; [by destruct (split_nonempty c a)|done].
Qed.
Lemma ends_with_spec p s : ends_with p s = true <-> exists q, s = q ++ p.
Proof.
  unfold ends_with. rewrite starts_with_spec. split.
  - intros [q E]. exists (rev q). by rewrite <- (rev_involutive s), E, rev_app_distr, rev_involutive.
  - intros [q ->]. exists (rev q). by rewrite rev_app_distr.
Qed.
(** A blank line is in the block only at its end. *)
Lemma block_first_blank lines u v :
  lines <> [] -> Forall line_ok lines -> block lines = u ++ v -> v <> [] -> ends_with [nl; nl] u = false.
Proof.
  intros Hne Hl E Hv. apply not_true_iff_false. rewrite ends_with_spec. intros [q ->].
  destruct (exists_last Hv) as (v' & x & ->). unfold block in E.
  change [nl; nl] with ([nl] ++ [nl]) in E at 1. rewrite !app_assoc in E. apply app_inj_tail in E as [E _].
  apply (f_equal (split nl)) in E.
  rewrite <- (app_nil_r (join [nl] lines ++ [nl])), <- app_assoc, split_app, split_join in E;
    [|done|eapply Forall_impl; [exact Hl|]; by intros l (_ & ? & _)].
  change [nl; nl] with ([nl] ++ [nl]) in E. rewrite <- !app_assoc in E. rewrite split_app in E.
  change ([nl] ++ v') with ([] ++ [nl] ++ v') in E. rewrite split_app in E.
  destruct (exists_last (split_nonempty nl v')) as (w & y & Ey). rewrite Ey in E.
  cbn [split] in E. rewrite !app_assoc in E. apply app_inj_tail in E as [E _].
  rewrite Forall_forall in Hl. destruct (Hl []) as [[] _]; [|done]. rewrite E, !elem_of_app, list_elem_of_singleton. auto.
Qed.
Lemma block_no_cr lines : Forall line_ok lines -> cr ∉ block lines.
Proof.
  intros Hl. unfold block. rewrite not_elem_of_app. split; [|by apply (bool_decide_unpack _)].
  induction Hl as [|l ls (_ & _ & H) _ IH]; [by apply not_elem_of_nil|]. destruct ls as [|l' ls]; [done|].
  rewrite join_cons by done. rewrite !not_elem_of_app. split_and!; [done| |done]. by apply (bool_decide_unpack _).
Qed.
Lemma last_join sep lines l : lines <> [] -> last lines = Some l -> l <> [] -> last (join sep lines) = last l.
Proof.
  intros Hne Hl Hn. induction lines as [|x lines IH]; [done|]. destruct lines as [|y lines].
  - by injection Hl as ->.
  - rewrite join_cons, (assoc_L (++)), last_app by done. rewrite IH by done. by destruct (last l) eqn:E; [|destruct l as [|z l]; [|rewrite last_cons in E; case_match]].
Qed.
Lemma block_trim lines : lines <> [] -> Forall line_ok lines ->
  trim_end_matches nl (block lines) = join [nl] lines.
Proof.
  intros Hne Hl. destruct (last lines) as [l|] eqn:El; [|by apply last_None in El].
  assert (line_ok l) as (Hn & Hnl & _).
  { rewrite Forall_forall in Hl. apply Hl. by apply last_Some_elem_of. }
  pose proof (last_join [nl] lines l Hne El Hn) as E. destruct (exists_last Hn) as (k & x & ->).
  rewrite last_snoc in E. apply last_Some in E as [m Em]. unfold trim_end_matches, block. rewrite Em.
  rewrite !rev_app_distr. simpl. rewrite not_elem_of_app, list_elem_of_singleton in Hnl.
  rewrite (proj2 (Z.eqb_neq x nl)) by naive_solver. simpl. by rewrite rev_involutive.
Qed.
Lemma block_utf8 lines : Forall (fun l => utf8_valid l = true) lines -> utf8_valid (block lines) = true.
Proof. intros H. unfold block. by rewrite utf8_valid_app by (by apply utf8_join). Qed.
Lemma block_ends lines : ends_with [nl; nl] (block lines) = true.
Proof. apply ends_with_spec. by exists (join [nl] lines). Qed.
Lemma block_split lines : lines <> [] -> Forall line_ok lines -> split nl (join [nl] lines) = lines.
Proof. intros Hne Hl. apply split_join; [done|]. eapply Forall_impl; [exact Hl|]. by intros l (_ & ? & _). Qed.

(** ** Header lines *)

(** [format!("{name}: {value}")] *)
Definition header_line (name value : str) : str := name ++ [colon; 32] ++ value.

Lemma trim_space v : trim (32 :: v) = trim v.
Proof. done. Qed.
Lemma split_header name value : colon ∉ name -> split_once colon (header_line name value) = Some (name, 32 :: value).
Proof. intros H. by apply split_once_Some. Qed.
Lemma header_line_ok name value : line_ok name -> nl ∉ value -> cr ∉ value -> line_ok (header_line name value).
Proof.
  intros (Hn & H1 & H2) V1 V2. unfold header_line. split_and!.
  - by destruct name.
  - rewrite !not_elem_of_app. split_and!; [done|by apply (bool_decide_unpack _)|done].
  - rewrite !not_elem_of_app. split_and!; [done|by apply (bool_decide_unpack _)|done].
Qed.
Lemma header_line_utf8 name value : utf8_valid name = true -> utf8_valid value = true ->
  utf8_valid (header_line name value) = true.
Proof. intros Hn Hv. unfold header_line. by rewrite utf8_valid_app, utf8_valid_app. Qed.
Lemma block_cons l ls : ls <> [] -> block (l :: ls) = l ++ [nl] ++ block ls.
Proof. intros H. unfold block. rewrite join_cons by done. by rewrite <- !app_assoc. Qed.
Lemma block_one l : block [l] = l ++ [nl; nl].
Proof. done. Qed.
Lemma length_block lines : (length (block lines) <= list_sum (map (fun l => S (length l)) lines) + 2)%nat.
Proof.
  unfold block. rewrite length_app. induction lines as [|l [|k ls] IH]; simpl in *; [lia|lia|].
  rewrite length_app. simpl in *. lia.
Qed.

Definition header_lines (kvs : list (str * str)) : list str := map (fun kv => header_line (fst kv) (snd kv)) kvs.
Lemma block_lines l ls : block (l :: ls) = l ++ [nl] ++ concat (map (fun l => l ++ [nl]) ls) ++ [nl].
Proof.
  revert l; induction ls as [|k ls IH]; intros l; [done|]. rewrite block_cons by done. rewrite IH. cbn [map concat].
  by rewrite <- !app_assoc.
Qed.
Lemma length_header_line n v : length (header_line n v) = (length n + 2 + length v)%nat.
Proof. unfold header_line. rewrite !length_app. cbn [length]. lia. Qed.
Lemma graphic_value v : Forall graphic v -> nl ∉ v /\ cr ∉ v /\ utf8_valid v = true.
Proof.
  intros H. split_and!; [apply (graphic_not _ _ H)|apply (graphic_not _ _ H)|by apply graphic_utf8];
    unfold graphic, nl, cr; lia.
Qed.

Ltac in_list := apply (bool_decide_unpack _); vm_compute; exact I.
Ltac verb_line := split; [split_and!; [done|in_list|in_list]|done].

(** ** Big-endian fields *)

Lemma be_field n (t : list Z) : bytes_ok t -> (n <= length t)%nat ->
  fits (8 * Z.of_nat n) (from_be_bytes (take n t)) /\ to_be_bytes n (from_be_bytes (take n t)) = take n t.
Proof.
  intros Ht Hn. assert (length (take n t) = n) as Hl by (rewrite length_take; lia).
  assert (bytes_ok (take n t)) as Hb by (by apply Forall_take). split.
  - pose proof (from_be_bytes_fits _ Hb) as H. by rewrite Hl in H.
  - pose proof (to_from_be_bytes _ Hb) as H. by rewrite Hl in H.
Qed.
