(* ===== verification/IngressProps.v ===== *)
(** * IngressProps: the ingress codec is exact

    Header blocks: what is encoded is read back, field by field, from any
    fragmentation of the stream, and the bytes after the block stay in it.
    Datagrams: the parser accepts exactly the encodings. *)

From Stdlib Require Import ZArith Lia String.
From stdpp Require Import prelude strings list gmap sorting.
From S2P Require Import Prelude RustStr Net NetProps Util RustFmt Frame IngressFrame.

(** ** Fields and names *)

Lemma validate_field_Ok v max e u : validate_field v max e = Ok u <->
  v <> [] /\ (length v <= max)%nat /\ cr ∉ v /\ nl ∉ v /\ 0 ∉ v.
Proof.
  unfold validate_field. destruct u. case_match eqn:E.
  - split; [done|]. intros (H1 & H2 & H3 & H4 & H5). exfalso.
    apply orb_true_iff in E as [E|E]; [apply orb_true_iff in E as [E|E]|].
    + by apply is_empty_true in E.
    + apply Nat.ltb_lt in E. lia.
    + apply existsb_exists in E as (b & Hb & E). apply list_elem_of_In in Hb.
      repeat (apply orb_true_iff in E as [E|E]); apply Z.eqb_eq in E; subst; done.
  - split; [|done]. intros _. rewrite !orb_false_iff in E. destruct E as [[E1 E2] E3].
    apply is_empty_false in E1. apply Nat.ltb_ge in E2.
    assert (forall c, c ∈ v -> c <> cr /\ c <> nl /\ c <> 0) as Hv.
    { intros c Hc. apply list_elem_of_In in Hc. rewrite <- not_true_iff_false, existsb_exists in E3.
      split_and!; intros ->; apply E3; eexists; (split; [exact Hc|done]). }
    split_and!; try done; intros Hc; by destruct (Hv _ Hc) as (? & ? & ?).
Qed.
Lemma header_name_bytes n : validate_header_name n = Ok tt ->
  n <> [] /\ (length n <= 64)%nat /\
  Forall (fun b => is_ascii_lowercase b || is_ascii_digit b || (b =? 45) = true) n.
Proof.
  unfold validate_header_name. case_match eqn:E; [done|]. intros _.
  rewrite !orb_false_iff, negb_false_iff, forallb_forall in E. destruct E as [[E1 E2] E3].
  apply is_empty_false in E1. apply Nat.ltb_ge in E2. split_and!; [done..|]. apply Forall_forall.
  intros x Hx. apply E3. by apply list_elem_of_In.
Qed.
Lemma header_name_ok n : validate_header_name n = Ok tt ->
  line_ok n /\ to_ascii_lowercase (trim n) = n /\ colon ∉ n /\ utf8_valid n = true.
Proof.
  intros (Hne & _ & H)%header_name_bytes.
  assert (Forall (fun b => 45 <= b <= 57 /\ b <> 46 \/ 97 <= b <= 122) n) as Hb.
  { eapply Forall_impl; [exact H|]. unfold is_ascii_lowercase, is_ascii_digit. lia. }
  assert (Forall graphic n) as Hg by (eapply Forall_impl; [exact Hb|]; unfold graphic; lia).
  split_and!; [split_and!; [done|apply (graphic_not _ _ Hg); unfold graphic, nl; lia
    |apply (graphic_not _ _ Hg); unfold graphic, cr; lia]| | |by apply graphic_utf8].
  - rewrite trim_graphic by done. unfold to_ascii_lowercase. rewrite <- (map_id n) at 2. apply map_ext_in.
    intros x Hx. rewrite Forall_forall in Hb. apply list_elem_of_In, Hb in Hx.
    unfold ascii_lower, is_ascii_uppercase. replace (_ && _) with false by lia. done.
  - intros Hc. rewrite Forall_forall in Hb. apply Hb in Hc. unfold colon in Hc. lia.
Qed.

(** ** Header blocks *)

(** The headers a block carries: the values as the parser trims them. *)
Definition headers_of (kvs : list (str * str)) : Headers :=
  list_to_map (map (fun kv => (fst kv, trim (snd kv))) kvs).
Definition names_ok (kvs : list (str * str)) : Prop :=
  Forall (fun kv => validate_header_name (fst kv) = Ok tt) kvs /\ NoDup (map fst kvs).

Lemma parse_headers_block (kvs : list (str * str)) (m : Headers) :
  names_ok kvs -> (forall n, n ∈ map fst kvs -> m !! n = None) ->
  parse_headers_from m (header_lines kvs) = Ok (headers_of kvs ∪ m).
Proof.
  intros [Hn Hd]. revert m; induction kvs as [|[n v] kvs IH]; intros m Hm; cbn [header_lines map fst snd parse_headers_from].
  - unfold headers_of. simpl. by rewrite (left_id_L ∅ (∪)).
  - apply Forall_cons in Hn as [Hv Hn]. apply NoDup_cons in Hd as [Hnin Hd]. cbn [fst] in *.
    destruct (header_name_ok n Hv) as (_ & Hl & Hc & _).
    rewrite split_header by done. cbn [ok_or mbind result_bind]. cbv zeta. rewrite Hl, Hv. cbn [mbind result_bind].
    rewrite (Hm n) by (by left). rewrite trim_space. fold (header_lines kvs). rewrite IH; [|done|done|].
    + f_equal. unfold headers_of. cbn [map list_to_map fst snd foldr uncurry].
      rewrite <- insert_union_l. rewrite insert_union_r; [done|].
      apply not_elem_of_list_to_map_1. rewrite <- list_fmap_compose. exact Hnin.
    + intros k Hk. rewrite lookup_insert_ne by (intros <-; done). apply Hm. by right.
Qed.
Lemma parse_headers_allowed (kvs : list (str * str)) (allowed : list str) :
  names_ok kvs -> (forall n, n ∈ map fst kvs -> n ∈ allowed) ->
  parse_headers (header_lines kvs) allowed = Ok (headers_of kvs).
Proof.
  intros Hk Ha. unfold parse_headers, parse_headers_unrestricted.
  rewrite parse_headers_block by done. rewrite (right_id_L ∅ (∪)). cbn [mbind result_bind].
  replace (existsb _ _) with false; [done|]. symmetry. apply not_true_iff_false. rewrite existsb_exists.
  intros ([n v] & Hin & Hno). apply list_elem_of_In, elem_of_map_to_list in Hin.
  apply elem_of_list_to_map_2, list_elem_of_fmap in Hin as ([n' v'] & E & Hin). simplify_eq/=.
  apply negb_true_iff, not_true_iff_false in Hno. apply Hno. apply existsb_exists. exists n'.
  split; [|apply str_eqb_refl]. apply list_elem_of_In, Ha. apply list_elem_of_fmap. by exists (n', v').
Qed.
Lemma required_ok (kvs : list (str * str)) (n v : str) : names_ok kvs -> (n, v) ∈ kvs -> trim v <> [] -> required (headers_of kvs) n = Ok (trim v).
Proof.
  intros [_ Hd] Hin Hv. unfold required, headers_of.
  rewrite (elem_of_list_to_map_1 _ n (trim v)).
  - by destruct (trim v).
  - by rewrite <- list_fmap_compose.
  - apply list_elem_of_fmap. by exists (n, v).
Qed.

(** A frame: a verb line and its headers. *)
Record frame_ok (verb : str) (kvs : list (str * str)) : Prop := {
  fr_verb : line_ok verb /\ utf8_valid verb = true;
  fr_names : names_ok kvs;
  fr_values : Forall (fun kv => nl ∉ snd kv /\ cr ∉ snd kv /\ utf8_valid (snd kv) = true) kvs;
  fr_size : (length (block (verb :: header_lines kvs)) <= MAX_FRAME_BYTES)%nat;
}.
Lemma frame_read verb kvs payload r :
  frame_ok verb kvs -> Reader.no_error r = true -> Reader.bytes r = block (verb :: header_lines kvs) ++ payload ->
  exists r', read_frame r = Some (Ok (verb :: header_lines kvs), r') /\
    Reader.no_error r' = true /\ Reader.bytes r' = payload.
Proof.
  intros [[Hv Uv] [Hn _] Hvals Hs] Hr Hb.
  assert (Forall (fun kv => line_ok (header_line (fst kv) (snd kv)) /\
    utf8_valid (header_line (fst kv) (snd kv)) = true) kvs) as Hl.
  { rewrite Forall_forall in *. intros [n v] Hin. destruct (Hvals _ Hin) as (V1 & V2 & V3).
    destruct (header_name_ok n (Hn _ Hin)) as (L & _ & _ & U). split; [by apply header_line_ok|by apply header_line_utf8]. }
  apply read_frame_block; try done; (constructor; [done|]); apply Forall_fmap;
    (eapply Forall_impl; [exact Hl|]; naive_solver).
Qed.

(** ** Identifiers *)

Lemma hex_byte b : fits 8 b ->
  Z.lor (Z.shiftl (hex_nibble (digit_char (b / 16))) 4) (hex_nibble (digit_char (b mod 16))) = b /\
  is_ascii_hexdigit (digit_char (b / 16)) = true /\ is_ascii_hexdigit (digit_char (b mod 16)) = true.
Proof.
  intros Hb. assert (forallb (fun n => let b := Z.of_nat n in
    (Z.lor (Z.shiftl (hex_nibble (digit_char (b / 16))) 4) (hex_nibble (digit_char (b mod 16))) =? b)
    && is_ascii_hexdigit (digit_char (b / 16)) && is_ascii_hexdigit (digit_char (b mod 16))) (seq 0 256) = true)
    as H by (vm_compute; reflexivity).
  rewrite forallb_forall in H. specialize (H (Z.to_nat b)). cbv zeta in H. rewrite Z2Nat.id in H by apply Hb.
  rewrite !andb_true_iff, Z.eqb_eq in H. destruct H as [[H1 H2] H3]; [|done].
  apply in_seq. destruct Hb. lia.
Qed.
Definition id_ok (i : Id128) : Prop := length i = 16%nat /\ bytes_ok i.
Lemma display_id_facts i : bytes_ok i ->
  length (display_id i) = (2 * length i)%nat /\ hex_pairs (display_id i) = i /\
  forallb is_ascii_hexdigit (display_id i) = true /\ Forall graphic (display_id i).
Proof.
  intros H. induction H as [|b i Hb _ (H1 & H2 & H3 & H4)]; [done|].
  destruct (hex_byte b Hb) as (E & E1 & E2). unfold display_id in *. cbn [map concat fmt_02x app].
  split_and!.
  - cbn [length]. lia.
  - cbn [hex_pairs]. by rewrite E, H2.
  - cbn [forallb]. by rewrite E1, E2, H3.
  - destruct Hb as [Hb0 Hb1]. constructor; [|constructor; [|done]]; apply digit_char_graphic.
    + split; [by apply Z.div_pos|apply Z.div_lt_upper_bound; lia].
    + apply Z.mod_pos_bound. lia.
Qed.
Lemma parse_display_id i : id_ok i -> parse_hex (display_id i) = Ok i.
Proof.
  intros [Hl Hb]. destruct (display_id_facts i Hb) as (H1 & H2 & H3 & _). unfold parse_hex.
  rewrite H1, Hl, H3, H2. done.
Qed.

(** ** Lengths of printed values *)

Lemma length_join_le sep (l : list str) k : Forall (fun s => (length s <= k)%nat) l ->
  (length (join sep l) <= length l * (k + length sep))%nat.
Proof.
  intros H. induction H as [|s l Hs _ IH]; [done|]. destruct l as [|s' l]; [simpl; lia|].
  rewrite join_cons, !length_app by done. cbn [length] in *. lia.
Qed.
Lemma length_display_v4 a : (length (display_v4 a) <= 16)%nat.
Proof.
  unfold display_v4. etransitivity; [apply (length_join_le _ _ 3)|].
  - apply Forall_fmap. eapply Forall_impl; [apply to_be_bytes_ok|]. intros b [H1 H2].
    apply length_fmt_radix; simpl; lia.
  - by rewrite length_map, length_to_be_bytes.
Qed.
Lemma length_fmt_groups gs : Forall (fits 16) gs -> (length (fmt_groups gs) <= length gs * 5)%nat.
Proof.
  intros H. unfold fmt_groups. etransitivity; [apply (length_join_le _ _ 4)|].
  - apply Forall_fmap. eapply Forall_impl; [exact H|]. intros b [H1 H2]. apply length_fmt_radix; simpl; lia.
  - by rewrite length_map.
Qed.
Lemma length_display_v6 a : (length (display_v6 a) <= 82)%nat.
Proof.
  unfold display_v6. pose proof (segs_fits 8 a : Forall (fits 16) (segments a)) as Hf.
  pose proof (length_segs 8 a : length (segments a) = _) as Hl. case_match.
  - rewrite length_app. pose proof (length_display_v4 z). cbn. lia.
  - cbv zeta. destruct (longest_zeros _ _ _ _) as [start len]. case_match.
    + pose proof (length_fmt_groups _ (Forall_take _ start _ Hf)) as H1.
      pose proof (length_fmt_groups _ (Forall_drop _ (start + len) _ Hf)) as H2.
      rewrite length_take, Hl in H1. rewrite length_drop, Hl in H2. rewrite !length_app.
      change (length (lit "::")) with 2%nat. lia.
    + pose proof (length_fmt_groups _ Hf). lia.
Qed.
Lemma length_display_socket a : socket_fits a -> (length (display_socket a) <= 120)%nat.
Proof.
  assert (forall p w, 0 <= w <= 32 -> fits w p -> (length (fmt_dec p) <= 10)%nat) as Hd.
  { intros p w Hw [Hp1 Hp2]. apply length_fmt_radix; try lia.
    assert (2 ^ w <= 2 ^ 32) by (apply Z.pow_le_mono_r; lia). simpl. lia. }
  destruct a as [ip port|ip port flow scope]; cbn [socket_fits display_socket].
  - intros [_ Hp]. pose proof (length_display_v4 ip). pose proof (Hd port 16 ltac:(lia) Hp).
    rewrite !length_app. cbn [length]. lia.
  - intros (_ & Hp & _ & Hs). pose proof (length_display_v6 ip). pose proof (Hd port 16 ltac:(lia) Hp).
    pose proof (Hd scope 32 ltac:(lia) Hs). rewrite !length_app. cbn [length].
    destruct (scope =? 0); rewrite ?length_app; cbn [length]; lia.
Qed.

(** ** Messages *)

(** A text field as a client may hold it: a string without surrounding blanks. *)
Definition text_field (v : str) : Prop := utf8_valid v = true /\ trim v = v.

Inductive Message :=
| MRegister (r : RegisterRequest)
| MLease (r : LeaseRequest)
| MOpen (r : OpenTcpRequest)
| MReply (r : Reply).
Definition message_ok (m : Message) : Prop :=
  match m with
  | MRegister r => text_field (node_id r) /\ text_field (token r)
  | MLease r => text_field (listener_id r) /\ fits 16 (public_port r)
  | MOpen r => fits 64 (lease_id r) /\ id_ok (ingress_id r) /\ socket_fits (client_addr r) /\
               socket_fits (public_addr r) /\ text_field (relay_instance_id r) /\ id_ok (tunnel_session_id r)
  | MReply (ReplyOk h) => map_Forall (fun k v => utf8_valid k = true /\ text_field v) h
  | MReply (ReplyErr code) => utf8_valid code = true
  end.
Definition message_encode (m : Message) : result FrameError (list Z) :=
  match m with
  | MRegister r => register_encode r
  | MLease r => lease_encode r
  | MOpen r => open_encode r
  | MReply r => reply_encode r
  end.
(** The lines parse, as a message of that kind, to the message. *)
Definition decodes (m : Message) (lines : list str) : Prop :=
  match m with
  | MRegister r => register_parse lines = Ok r
  | MLease r => lease_parse lines = Ok r
  | MOpen r => open_parse lines = Ok r
  | MReply r => reply_parse lines = Ok r
  end.

Definition framed (m : Message) (bytes : list Z) : Prop :=
  exists verb kvs, frame_ok verb kvs /\ bytes = block (verb :: header_lines kvs) /\ decodes m (verb :: header_lines kvs).

Ltac names := split; [repeat constructor|apply (bool_decide_unpack _); vm_compute; exact I].

Lemma field_value v max e u : validate_field v max e = Ok u -> utf8_valid v = true ->
  nl ∉ v /\ cr ∉ v /\ utf8_valid v = true.
Proof. by intros (_ & _ & ? & ? & _)%validate_field_Ok. Qed.
Lemma required_field kvs n v : names_ok kvs -> (n, v) ∈ kvs -> trim v = v -> v <> [] -> required (headers_of kvs) n = Ok v.
Proof. intros Hk Hin Ht Hne. rewrite (required_ok kvs n v), Ht by (done || by rewrite Ht). done. Qed.

(** Look one header of the block up; what is left is that its value is printed
    without blanks and is not empty. *)
Ltac header_is kvs n v :=
  rewrite (required_field kvs n v);
  [cbn [mbind result_bind]|assumption|repeat ((by left) || right)
  |first [assumption|by apply trim_graphic]|try assumption].
Ltac block_text kvs := unfold block, kvs, header_lines, header_line; cbn [map fst snd join]; by rewrite <- !app_assoc.

Lemma register_framed r bytes :
  message_ok (MRegister r) -> register_encode r = Ok bytes -> framed (MRegister r) bytes.
Proof.
  intros [[Un Tn] [Ut Tt]] H. unfold register_encode in H. res_inv. destruct v, v0.
  pose proof (proj1 (validate_field_Ok _ _ _ _) Hv) as (Nn & Ln & _).
  pose proof (proj1 (validate_field_Ok _ _ _ _) Hv0) as (Nt & Lt & _).
  set (kvs := [(lit "node-id", node_id r); (lit "token", token r)]).
  assert (names_ok kvs) as Hnames by names.
  exists (lit "REGISTER " ++ PROTOCOL_VERSION), kvs. split; [split|split].
  - verb_line.
  - done.
  - constructor; [by eapply field_value|constructor; [by eapply field_value|done]].
  - etransitivity; [apply length_block|]. unfold kvs, header_lines. cbn [map fst snd list_sum foldr].
    rewrite !length_header_line. unfold MAX_NODE_ID_BYTES, MAX_TOKEN_BYTES, MAX_FRAME_BYTES in *. cbn. lia.
  - block_text kvs.
  - unfold decodes, register_parse. cbn [head ok_or mbind result_bind]. rewrite strip_prefix_app.
    cbn [ok_or mbind result_bind drop]. change (negb _) with false. cbn iota.
    rewrite drop_0, parse_headers_allowed; [|done|intros n; done]. cbn [mbind result_bind].
    header_is kvs (lit "node-id") (node_id r). header_is kvs (lit "token") (token r).
    rewrite Hv. cbn [mbind result_bind]. rewrite Hv0. by destruct r.
Qed.

Lemma transport_roundtrip t : transport_parse (transport_str t) = Ok t.
Proof. by destruct t. Qed.
Lemma verb_is_cons l ls : verb_is (l :: ls) l = true.
Proof. apply str_eqb_refl. Qed.

Lemma lease_framed r bytes : message_ok (MLease r) -> lease_encode r = Ok bytes -> framed (MLease r) bytes.
Proof.
  intros [[Un Tn] Hp] H. unfold lease_encode in H. res_inv. destruct v.
  pose proof (proj1 (validate_field_Ok _ _ _ _) Hv) as (Nn & Ln & _). pose proof Hp as [Hp0 Hp1].
  assert (Forall graphic (fmt_dec (public_port r))) as Gp by (by apply fmt_radix_graphic).
  assert (Forall graphic (transport_str (transport r))) as Gt by (destruct (transport r); by apply graphic_lit).
  set (kvs := [(lit "listener-id", listener_id r); (lit "transport", transport_str (transport r));
               (lit "public-port", fmt_dec (public_port r))]).
  assert (names_ok kvs) as Hnames by names.
  exists (lit "LEASE"), kvs. split; [split|split].
  - verb_line.
  - done.
  - constructor; [by eapply field_value|constructor; [by apply graphic_value|constructor; [by apply graphic_value|done]]].
  - etransitivity; [apply length_block|]. unfold kvs, header_lines. cbn [map fst snd list_sum foldr].
    rewrite !length_header_line. pose proof (length_fmt_radix 10 (public_port r) 5 ltac:(lia) Hp0 ltac:(simpl; lia) ltac:(lia)).
    assert (length (transport_str (transport r)) = 3)%nat as Hl by (by destruct (transport r)). cbn [snd] in *.
    rewrite Hl. unfold MAX_LISTENER_ID_BYTES, MAX_FRAME_BYTES in *.
    generalize dependent (length (fmt_dec (public_port r))). generalize dependent (length (listener_id r)). cbn. lia.
  - block_text kvs.
  - unfold decodes, lease_parse. rewrite verb_is_cons. cbn [negb drop]. rewrite drop_0, parse_headers_allowed; [|done|intros n; done].
    cbn [mbind result_bind].
    header_is kvs (lit "listener-id") (listener_id r). rewrite Hv. cbn [mbind result_bind].
    header_is kvs (lit "transport") (transport_str (transport r)); [|by destruct (transport r)].
    rewrite transport_roundtrip. cbn [mbind result_bind].
    header_is kvs (lit "public-port") (fmt_dec (public_port r)); [|by apply fmt_radix_ne].
    rewrite parse_fmt_dec by done. by destruct r.
Qed.

Lemma display_id_ne i : id_ok i -> display_id i <> [].
Proof. intros [Hl Hb] E. destruct (display_id_facts i Hb) as (H & _). rewrite E, Hl in H. done. Qed.
Lemma display_socket_ne a : display_socket a <> [].
Proof. destruct a; cbn [display_socket]; [|done]. by destruct (display_v4 ip). Qed.

Lemma open_framed r bytes : message_ok (MOpen r) -> open_encode r = Ok bytes -> framed (MOpen r) bytes.
Proof.
  intros (Hl & Hi & Hc & Hp & [Un Tn] & Hs) H. unfold open_encode in H. res_inv. destruct v.
  pose proof (proj1 (validate_field_Ok _ _ _ _) Hv) as (Nn & Ln & _). pose proof Hl as [Hl0 Hl1].
  destruct (display_id_facts _ (proj2 Hi)) as (Li & _ & _ & Gi).
  destruct (display_id_facts _ (proj2 Hs)) as (Ls & _ & _ & Gs). rewrite (proj1 Hi) in Li. rewrite (proj1 Hs) in Ls.
  pose proof (display_socket_graphic _ Hc) as Gc. pose proof (display_socket_graphic _ Hp) as Gp.
  pose proof (length_display_socket _ Hc) as Lc. pose proof (length_display_socket _ Hp) as Lp.
  assert (Forall graphic (fmt_dec (lease_id r))) as Gl by (by apply fmt_radix_graphic).
  pose proof (length_fmt_radix 10 (lease_id r) 20 ltac:(lia) Hl0 ltac:(simpl; lia) ltac:(lia)) as Ll.
  set (kvs := [(lit "lease-id", fmt_dec (lease_id r)); (lit "ingress-id", display_id (ingress_id r));
               (lit "client-addr", display_socket (client_addr r)); (lit "public-addr", display_socket (public_addr r));
               (lit "relay-id", relay_instance_id r); (lit "session-id", display_id (tunnel_session_id r))]).
  assert (names_ok kvs) as Hnames by names.
  exists (lit "OPEN_TCP"), kvs. split; [split|split].
  - verb_line.
  - done.
  - repeat (constructor; [(by apply graphic_value) || (by eapply field_value)|]). done.
  - etransitivity; [apply length_block|]. unfold kvs, header_lines. cbn [map fst snd list_sum foldr].
    rewrite !length_header_line, Li, Ls. unfold MAX_NODE_ID_BYTES, MAX_FRAME_BYTES in *. clear - Lc Lp Ll Ln.
    generalize dependent (length (fmt_dec (lease_id r))). generalize dependent (length (relay_instance_id r)).
    generalize dependent (length (display_socket (client_addr r))).
    generalize dependent (length (display_socket (public_addr r))). cbn. lia.
  - block_text kvs.
  - unfold decodes, open_parse. rewrite verb_is_cons. cbn [negb drop].
    rewrite drop_0, parse_headers_allowed; [|done|intros n; done]. cbn [mbind result_bind].
    header_is kvs (lit "relay-id") (relay_instance_id r). rewrite Hv. cbn [mbind result_bind].
    header_is kvs (lit "lease-id") (fmt_dec (lease_id r)); [|by apply fmt_radix_ne].
    rewrite parse_fmt_dec by done. cbn [ok_or mbind result_bind].
    header_is kvs (lit "ingress-id") (display_id (ingress_id r)); [|by apply display_id_ne].
    rewrite parse_display_id by done. cbn [mbind result_bind].
    header_is kvs (lit "client-addr") (display_socket (client_addr r)); [|by apply display_socket_ne].
    rewrite parse_display_socket by done. cbn [ok_or mbind result_bind].
    header_is kvs (lit "public-addr") (display_socket (public_addr r)); [|by apply display_socket_ne].
    rewrite parse_display_socket by done. cbn [ok_or mbind result_bind].
    header_is kvs (lit "session-id") (display_id (tunnel_session_id r)); [|by apply display_id_ne].
    rewrite parse_display_id by done. by destruct r.
Qed.

(** ** Replies *)

Lemma encode_headers_text kvs out bytes : encode_headers kvs out = Ok bytes ->
  Forall (fun kv => validate_header_name (fst kv) = Ok tt /\ validate_field (snd kv) 1024 "invalid reply header" = Ok tt) kvs /\
  bytes = out ++ concat (map (fun l => l ++ [nl]) (header_lines kvs)).
Proof.
  revert out; induction kvs as [|[n v] kvs IH]; intros out H; cbn [encode_headers header_lines map concat fst snd] in *.
  - apply Ok_inj in H as ->. by rewrite app_nil_r.
  - apply bind_Ok in H as ([] & Hn & H). apply bind_Ok in H as ([] & Hv & H). apply IH in H as [Hf ->].
    split; [by constructor|]. unfold header_line. by rewrite <- !app_assoc.
Qed.
Lemma ordered_headers (h : Headers) : list_to_map (merge_sort key_le (map_to_list h)) = h.
Proof.
  rewrite <- (list_to_map_to_list h) at 2. symmetry. apply list_to_map_proper.
  - apply NoDup_fst_map_to_list.
  - symmetry. apply merge_sort_Permutation.
Qed.
Lemma reply_framed r bytes : message_ok (MReply r) -> reply_encode r = Ok bytes -> framed (MReply r) bytes.
Proof.
  destruct r as [h|code]; intros Hm H; unfold reply_encode in H.
  - apply bind_Ok in H as (out & Ho & H). cbv zeta in H.
    destruct (Nat.ltb_spec MAX_FRAME_BYTES (length (out ++ [nl]))) as [|Hlen]; [done|]. apply Ok_inj in H as <-.
    apply encode_headers_text in Ho as [Hf ->]. set (kvs := merge_sort key_le (map_to_list h)) in *.
    assert (kvs ≡ₚ map_to_list h) as Hp by apply merge_sort_Permutation.
    assert (forall n v, (n, v) ∈ kvs -> utf8_valid v = true /\ trim v = v) as Ht.
    { intros n v Hin. rewrite Hp, elem_of_map_to_list in Hin. by destruct (Hm n v Hin) as [_ ?]. }
    assert (names_ok kvs) as Hnames.
    { split; [eapply Forall_impl; [exact Hf|]; naive_solver|].
      assert (map fst kvs ≡ₚ map fst (map_to_list h)) as -> by (by apply fmap_Permutation). apply NoDup_fst_map_to_list. }
    assert (block (lit "OK" :: header_lines kvs) = (lit "OK" ++ [nl]) ++ concat (map (fun l => l ++ [nl]) (header_lines kvs)) ++ [nl])
      as Eb by (rewrite block_lines; by rewrite <- !app_assoc).
    exists (lit "OK"), kvs. rewrite <- app_assoc in Hlen. split; [split|split].
    + verb_line.
    + done.
    + rewrite Forall_forall in *. intros [n v] Hin. destruct (Hf _ Hin) as [_ Hv]. destruct (Ht n v Hin) as [U _].
      by eapply field_value.
    + by rewrite Eb.
    + by rewrite Eb, <- !app_assoc.
    + unfold decodes, reply_parse. cbn [head ok_or mbind result_bind]. rewrite str_eqb_refl. cbn [drop].
      rewrite drop_0. unfold parse_headers_unrestricted. rewrite parse_headers_block by done. rewrite (right_id_L ∅ (∪)).
      cbn [mbind result_bind]. do 2 f_equal. unfold headers_of.
      assert (map (fun kv : str * str => (fst kv, trim (snd kv))) kvs = kvs) as ->; [|apply ordered_headers].
      rewrite <- (map_id kvs) at 2. apply map_ext_in. intros [n v] Hin. apply list_elem_of_In in Hin.
      simpl. by destruct (Ht n v Hin) as [_ ->].
  - res_inv. destruct v. pose proof (field_value _ _ _ _ Hv Hm) as (N1 & N2 & U).
    pose proof (proj1 (validate_field_Ok _ _ _ _) Hv) as (Nn & Ln & _).
    exists (lit "ERR " ++ code), []. split; [split|split].
    + split; [split_and!; [done|rewrite not_elem_of_app; split; [in_list|done]..]|]. by rewrite utf8_valid_app.
    + split; [done|apply NoDup_nil_2].
    + done.
    + unfold block. cbn [join header_lines map]. rewrite !length_app. unfold MAX_FRAME_BYTES. cbn. lia.
    + unfold block. cbn [join header_lines map]. by rewrite <- app_assoc.
    + unfold decodes, reply_parse. cbn [head ok_or mbind result_bind header_lines map].
      change (str_eqb (lit "ERR " ++ code) (lit "OK")) with false. cbn iota. rewrite strip_prefix_app.
      cbn [ok_or mbind result_bind]. by rewrite Hv.
Qed.

Lemma ingress_message_reads m bytes payload r :
  message_ok m -> message_encode m = Ok bytes ->
  Reader.no_error r = true -> Reader.bytes r = bytes ++ payload ->
  write_frame bytes = Ok bytes /\
  exists lines r', read_frame r = Some (Ok lines, r') /\ decodes m lines /\
    Reader.no_error r' = true /\ Reader.bytes r' = payload.
Proof.
  intros Hm He Hr Hb. assert (framed m bytes) as (verb & kvs & Hf & -> & Hd).
  { destruct m; [by apply register_framed|by apply lease_framed|by apply open_framed|by apply reply_framed]. }
  split.
  - unfold write_frame. destruct Hf as [_ _ _ Hs]. by rewrite (proj2 (Nat.ltb_ge _ _) Hs).
  - destruct (frame_read verb kvs payload r Hf Hr Hb) as (r' & H1 & H2 & H3). eauto 10.
Qed.
(** Every ingress message that encodes, a registration, a lease, an open
    request or a reply, with text fields that carry no surrounding blanks, is
    within the frame cap and is read back exactly: over every fragmentation of
    the stream the frame reader returns lines that parse to the message, and the
    bytes that follow the frame stay in the stream. *)
Theorem ingress_message_roundtrip m bytes payload r :
  message_ok m -> message_encode m = Ok bytes ->
  Reader.no_error r = true -> Reader.bytes r = bytes ++ payload ->
  write_frame bytes = Ok bytes /\
  exists lines r', read_frame r = Some (Ok lines, r') /\ decodes m lines /\
    Reader.no_error r' = true /\ Reader.bytes r' = payload.
Proof. apply ingress_message_reads. Qed.
Definition demo_open : OpenTcpRequest :=
  mkOpen 9 (repeat 171 16) (SockV4 3405803777 443) (SockV6 (0x20010db8 * 2 ^ 96 + 1) 8443 0 3) (lit "relay-1") (seqZ 0 16).
Definition demo_open_bytes : list Z := Eval vm_compute in unwrap_or (open_encode demo_open) [].
Lemma ingress_message_roundtrip_witness :
  let r := [Ok (take 20 demo_open_bytes); Ok (drop 20 demo_open_bytes ++ lit "data")] in
  write_frame demo_open_bytes = Ok demo_open_bytes /\
  exists lines r', read_frame r = Some (Ok lines, r') /\ decodes (MOpen demo_open) lines /\
    Reader.no_error r' = true /\ Reader.bytes r' = lit "data".
Proof.
  cbv zeta. apply (ingress_message_roundtrip (MOpen demo_open)); [|vm_compute; reflexivity..].
  apply (bool_decide_unpack _). vm_compute. exact I.
Defined.

(** ** Datagrams *)

Definition addr_wire_ok (a : SocketAddr) : Prop :=
  match a with
  | SockV4 ip port => fits 32 ip /\ fits 16 port
  | SockV6 ip port flow scope => fits 128 ip /\ fits 16 port /\ flow = 0 /\ scope = 0
  end.
Definition datagram_ok (d : Datagram) : Prop :=
  match d with
  | Uplink l f a p => fits 64 l /\ id_ok f /\ addr_wire_ok a /\ bytes_ok p
  | Downlink l f p => fits 64 l /\ id_ok f /\ bytes_ok p
  end.

(** The address after [off] is decoded exactly when its encoding is there. *)
Definition addr_at (b : list Z) (off : nat) (a : SocketAddr) (e : nat) : Prop :=
  addr_wire_ok a /\ exists rest, drop off b = encode_addr a ++ rest /\ e = (off + length (encode_addr a))%nat.
Lemma decode_addr_sound b off a e : bytes_ok b -> decode_addr b off = Ok (a, e) -> addr_at b off a e.
Proof.
  intros Hb. unfold decode_addr, addr_at.
  intros H. apply bind_Ok in H as (k & Hk & H). apply ok_or_Ok in Hk.
  pose proof (drop_S b k off Hk) as Et. rewrite <- Nat.add_1_r in Et.
  set (t := drop (off + 1) b) in *. assert (bytes_ok t) as Ht by (by apply Forall_drop).
  assert (length b = off + 1 + length t)%nat as Hl by (apply lookup_lt_Some in Hk; unfold t; rewrite length_drop; lia).
  assert (forall n, drop (off + S n) b = drop n t) as Hdn.
  { intros n. unfold t. rewrite drop_drop. f_equal. lia. }
  destruct (Z.eqb_spec k 4) as [->|]; [|destruct (Z.eqb_spec k 6) as [->|]; [|done]].
  - destruct (Nat.ltb_spec (length b) (off + 1 + 4 + 2)); [done|]. rewrite (Hdn 4%nat) in H. apply Ok_inj in H.
    destruct (be_field 4 t Ht ltac:(lia)) as [F1 E1].
    destruct (be_field 2 (drop 4 t) ltac:(by apply Forall_drop) ltac:(rewrite length_drop; lia)) as [F2 E2].
    injection H as <- <-. cbn [addr_wire_ok encode_addr]. rewrite E1, E2. split; [done|].
    exists (drop 6 t). rewrite Et. cbn [length app]. rewrite length_app, !length_take, length_drop. split; [|lia].
    f_equal. rewrite <- app_assoc. rewrite <- (take_drop 4 t) at 1. f_equal.
    by rewrite <- (take_drop 2 (drop 4 t)) at 1; rewrite drop_drop.
  - destruct (Nat.ltb_spec (length b) (off + 1 + 16 + 2)); [done|]. rewrite (Hdn 16%nat) in H. apply Ok_inj in H.
    destruct (be_field 16 t Ht ltac:(lia)) as [F1 E1].
    destruct (be_field 2 (drop 16 t) ltac:(by apply Forall_drop) ltac:(rewrite length_drop; lia)) as [F2 E2].
    injection H as <- <-. cbn [addr_wire_ok encode_addr]. rewrite E1, E2. split; [done|].
    exists (drop 18 t). rewrite Et. cbn [length app]. rewrite length_app, !length_take, length_drop. split; [|lia].
    f_equal. rewrite <- app_assoc. rewrite <- (take_drop 16 t) at 1. f_equal.
    by rewrite <- (take_drop 2 (drop 16 t)) at 1; rewrite drop_drop.
Qed.
Lemma decode_addr_complete b off a e : addr_at b off a e -> decode_addr b off = Ok (a, e).
Proof.
  assert (forall k t, drop off b = k :: t -> b !! off = Some k /\ drop (off + 1) b = t) as Hhd.
  { intros k t E. split; [by rewrite <- (Nat.add_0_r off), <- lookup_drop, E|].
    by rewrite <- drop_drop, E. }
  assert (forall n, drop (off + 1 + n) b = drop n (drop (off + 1) b)) as Hdd by (intros; by rewrite drop_drop).
  unfold decode_addr, addr_at.
  intros (Ha & rest & E & ->).
  assert (length b = off + length (encode_addr a ++ rest))%nat as Hl.
  { rewrite <- E, length_drop. destruct (decide (off <= length b)%nat); [lia|].
    rewrite drop_ge in E by lia. by destruct a. }
  rewrite length_app in Hl.
  destruct a as [ip port|ip port flow scope]; cbn [encode_addr app addr_wire_ok] in *;
    apply Hhd in E as [-> E]; cbn [ok_or mbind result_bind length] in *;
    rewrite length_app, !length_to_be_bytes in *.
  - destruct (Nat.ltb_spec (length b) (off + 1 + 4 + 2)); [lia|]. change (4 =? 4) with true. cbn iota.
    replace (off + 5)%nat with (off + 1 + 4)%nat by lia. rewrite Hdd, E, <- app_assoc.
    rewrite (take_app_len _ _ 4), (drop_app_len _ _ 4), (take_app_len _ _ 2) by apply length_to_be_bytes.
    rewrite !from_to_be_bytes by apply Ha. do 2 f_equal. lia.
  - destruct (Nat.ltb_spec (length b) (off + 1 + 16 + 2)); [lia|]. change (6 =? 4) with false. change (6 =? 6) with true. cbn iota.
    replace (off + 17)%nat with (off + 1 + 16)%nat by lia. rewrite Hdd, E, <- app_assoc.
    rewrite (take_app_len _ _ 16), (drop_app_len _ _ 16), (take_app_len _ _ 2) by apply length_to_be_bytes.
    destruct Ha as (H1 & H2 & -> & ->). rewrite !from_to_be_bytes by done. do 2 f_equal. lia.
Qed.

(** A datagram of at least the fixed length is its fields. *)
Lemma fixed_split (b : list Z) : (DATAGRAM_FIXED <= length b)%nat ->
  b = take 2 b ++ [nth 2 b 0; nth 3 b 0] ++ take 8 (drop 4 b) ++ take 16 (drop 12 b) ++ drop 28 b.
Proof.
  unfold DATAGRAM_FIXED. intros H. destruct b as [|b0 [|b1 [|b2 [|b3 t]]]]; [simpl in H; lia..|].
  cbn [take drop nth app]. do 4 f_equal. change (drop 12 (b0 :: b1 :: b2 :: b3 :: t)) with (drop 8 t).
  rewrite <- (take_drop 8 t) at 1. f_equal. rewrite <- (take_drop 16 (drop 8 t)) at 1. by rewrite drop_drop.
Qed.
Lemma datagram_parse_sound b d : bytes_ok b -> datagram_parse b = Ok d -> datagram_ok d /\ datagram_encode d = b.
Proof.
  intros Hb H. unfold datagram_parse in H.
  destruct (Nat.ltb_spec (length b) DATAGRAM_FIXED) as [|Hl]; [done|].
  destruct (negb _ || negb _) eqn:Ev; [done|]. apply orb_false_iff in Ev as [Em Ev].
  apply negb_false_iff, str_eqb_eq in Em. apply negb_false_iff, Z.eqb_eq in Ev. cbv zeta in H.
  pose proof (fixed_split b Hl) as Es. unfold DATAGRAM_FIXED in *.
  destruct (be_field 8 (drop 4 b) ltac:(by apply Forall_drop) ltac:(rewrite length_drop; lia)) as [F1 E1].
  assert (id_ok (take 16 (drop 12 b))) as Hid.
  { split; [rewrite length_take, length_drop; lia|by apply Forall_take, Forall_drop]. }
  destruct (Z.eqb_spec (nth 3 b 0) DATAGRAM_UPLINK) as [Ek|]; [|destruct (Z.eqb_spec (nth 3 b 0) DATAGRAM_DOWNLINK) as [Ek|]; [|done]].
  - apply bind_Ok in H as ([a e] & Ha & H). apply Ok_inj in H as <-. apply decode_addr_sound in Ha as (Ha & rest & Er & ->); [|done].
    replace (2 + 1 + 1 + 8 + 16)%nat with 28%nat in * by lia.
    rewrite <- drop_drop, Er, drop_app_length. split; [split_and!; try done|].
    + assert (bytes_ok (drop 28 b)) as Hd by (by apply Forall_drop). rewrite Er in Hd. by apply Forall_app in Hd as [_ ?].
    + unfold datagram_encode. rewrite E1, <- Er. rewrite Em, Ev, Ek in Es. by rewrite <- Es.
  - apply Ok_inj in H as <-. split; [split_and!; try done; by apply Forall_drop|].
    replace (2 + 1 + 1 + 8 + 16)%nat with 28%nat in * by lia.
    unfold datagram_encode. rewrite E1. rewrite Em, Ev, Ek in Es. by rewrite <- Es.
Qed.
Lemma datagram_parse_complete d : datagram_ok d -> datagram_parse (datagram_encode d) = Ok d.
Proof.
  assert (forall k l f t, fits 64 l -> id_ok f ->
    let b := DATAGRAM_MAGIC ++ [DATAGRAM_VERSION; k] ++ to_be_bytes 8 l ++ f ++ t in
    (length b <? DATAGRAM_FIXED)%nat = false /\ take 2 b = DATAGRAM_MAGIC /\ nth 2 b 0 = DATAGRAM_VERSION /\ nth 3 b 0 = k /\
    from_be_bytes (take 8 (drop 4 b)) = l /\ take 16 (drop 12 b) = f /\ drop DATAGRAM_FIXED b = t) as Hf.
  { intros k l f t Hl [Hf _] b. pose proof (length_to_be_bytes 8 l) as H8.
    assert (drop 4 b = to_be_bytes 8 l ++ f ++ t) as E4 by done.
    assert (drop 12 b = f ++ t) as E12 by (change 12%nat with (4 + 8)%nat; rewrite <- drop_drop, E4; by apply drop_app_len).
    split_and!; try done.
    - apply Nat.ltb_ge. unfold b, DATAGRAM_FIXED. rewrite !length_app. cbn [length]. rewrite H8, Hf.
      change (length DATAGRAM_MAGIC) with 2%nat. lia.
    - rewrite E4, take_app_len by done. by apply from_to_be_bytes.
    - rewrite E12. by apply take_app_len.
    - change DATAGRAM_FIXED with (12 + 16)%nat. rewrite <- drop_drop, E12. by apply drop_app_len. }
  intros Hd. unfold datagram_parse. destruct d as [l f a p|l f p]; cbn [datagram_ok datagram_encode] in *.
  - destruct Hd as (Hl & Hid & Ha & Hp).
    destruct (Hf DATAGRAM_UPLINK l f (encode_addr a ++ p) Hl Hid) as (E1 & E2 & E3 & E4 & E5 & E6 & E7).
    rewrite E1, E2, E3, E4, E5, E6, str_eqb_refl, Z.eqb_refl. cbn [negb orb]. rewrite Z.eqb_refl.
    rewrite (decode_addr_complete _ DATAGRAM_FIXED a (DATAGRAM_FIXED + length (encode_addr a))) by (split; eauto).
    cbn [mbind result_bind]. by rewrite <- drop_drop, E7, drop_app_length.
  - destruct Hd as (Hl & Hid & Hp).
    destruct (Hf DATAGRAM_DOWNLINK l f p Hl Hid) as (E1 & E2 & E3 & E4 & E5 & E6 & E7).
    rewrite E1, E2, E3, E4, E5, E6, E7, str_eqb_refl, Z.eqb_refl. done.
Qed.

(** The datagram parser accepts exactly the encodings: bytes parse to a
    datagram if and only if that datagram is well formed and encodes to those
    bytes, so there is one wire form per datagram and nothing else is accepted. *)
Theorem ingress_datagram_exact b d :
  bytes_ok b -> datagram_parse b = Ok d <-> datagram_ok d /\ datagram_encode d = b.
Proof.
  intros Hb. split; [by apply datagram_parse_sound|]. intros [Hd <-]. by apply datagram_parse_complete.
Qed.
Definition demo_datagram : Datagram := Uplink 7 (repeat 9 16) (SockV6 1 53 0 0) [1; 2; 3].
Lemma ingress_datagram_exact_witness :
  datagram_parse (datagram_encode demo_datagram) = Ok demo_datagram <->
  datagram_ok demo_datagram /\ datagram_encode demo_datagram = datagram_encode demo_datagram.
Proof. apply (ingress_datagram_exact _ demo_datagram). apply (bool_decide_unpack _). vm_compute. exact I. Defined.
