(* ===== verification/RelayConfig.v ===== *)
(** * RelayConfig: what the ingress relay is authorised to open

    Models the configuration of src/src/ingress/relay.rs: the compilation of the
    relay file (identifiers, tokens and their environment variables, port
    grants) and the check that no public port is granted twice. *)

From Stdlib Require Import ZArith Lia String.
From stdpp Require Import prelude strings list gmap sorting.
From S2P Require Import Sniff.
From S2P Require Import Prelude RustStr Net NetProps RustFmt Util IngressFrame.

Definition MAX_PORTS_PER_GRANT : Z := 4096.
Definition MAX_CONFIG_STREAMS : Z := 65536.
Definition MAX_CONFIG_LEASES : Z := 1024.
Definition MAX_CONFIG_CONNECTIONS : Z := 65536.
Definition MAX_CONFIG_UDP_FLOWS : Z := 65536.
Definition MAX_LEASE_GRACE_SECS : Z := 86400.
Definition MIN_QUIC_MTU : Z := 1200.
Definition MAX_QUIC_MTU : Z := 1500.

#[global] Instance Transport_countable : Countable Transport.
Proof.
  refine (inj_countable' (fun t => match t with Tcp => true | Udp => false end) (fun b : bool => if b then Tcp else Udp) _).
  by intros [].
Defined.

Record PortRange := mkRange { pr_start : Z; pr_end : Z }.
(** [ListenerGrant]: its ranges *)
Definition ListenerGrant : Type := list PortRange.
Abbreviation Listeners := (gmap (list Z * Transport) (list PortRange)).
Record NodeGrant := mkGrant {
  ng_tokens : list str; ng_listeners : Listeners; ng_max_leases : Z; ng_max_tcp_connections : Z; ng_max_udp_flows : Z
}.
Abbreviation Nodes := (gmap (list Z) NodeGrant).
Record RelayConfig := mkRelay {
  rl_relay_id : str; rl_listen : SocketAddr; rl_public_bind : IpAddr; rl_cert : str; rl_key : str;
  rl_initial_mtu : option Z; rl_max_streams : Z; rl_lease_grace : Z; rl_nodes : Nodes
}.

(** The file, as serde decodes it. *)
Record ListenerFile := mkListenerFile { lf_id : str; lf_transport : str; lf_ports : list str }.
Record NodeFile := mkNodeFile {
  nf_node_id : str; nf_token : str; nf_token_env : str; nf_tokens : list str; nf_token_envs : list str;
  nf_max_leases : Z; nf_max_tcp_connections : Z; nf_max_udp_flows : Z; nf_listeners : list ListenerFile
}.
Record RelayFile := mkRelayFile {
  rf_relay_id : str; rf_listen : str; rf_public_bind : str; rf_cert : str; rf_key : str; rf_initial_mtu : option Z;
  rf_max_streams : Z; rf_lease_grace_secs : Z; rf_nodes : list NodeFile
}.

Inductive RelayError :=
| IdEmpty | IdTooLong | IdUnsupported | CertRequired | KeyRequired | StreamsOutOfRange | GraceOutOfRange | MtuOutOfRange
| BadListen | BadPublicBind | DuplicateNode | LeasesOutOfRange | ConnectionsOutOfRange | FlowsOutOfRange
| TokenEnvEmpty | TokenEnvUnset | TokenEmpty | TokensMissing | TokenUnsafe | BadTransport | DuplicateListener
| PortsMissing | BadPort | GrantTooLarge | ListenersMissing | NodesMissing | PortOverlap.

Definition in_range (lo hi v : Z) : bool := (lo <=? v) && (v <=? hi).

(** [validate_id] *)
Definition validate_id (value : str) : result RelayError unit :=
  ensure (negb (is_empty value)) IdEmpty ;;
  ensure (length value <=? 128)%nat IdTooLong ;;
  ensure (forallb (fun b => is_ascii_alphanumeric b || bool_decide (b ∈ lit "-_.:")) value) IdUnsupported.
(** [crate::config::validate_initial_mtu] *)
Definition validate_initial_mtu (mtu : option Z) : result RelayError unit :=
  match mtu with Some v => ensure (in_range MIN_QUIC_MTU MAX_QUIC_MTU v) MtuOutOfRange | None => Ok tt end.

(** ** Ports *)

(** The ports of a range, as [range.start..=range.end] iterates them. *)
Definition range_ports (r : PortRange) : list Z := seqZ (pr_start r) (pr_end r - pr_start r + 1).
Definition grant_ports (g : ListenerGrant) : list Z := flat_map range_ports g.

Definition parse_range (raw : str) : result RelayError PortRange :=
  let raw := trim raw in
  range ← match split_once 45 raw with
          | Some (s, e) =>
              start ← ok_or (from_str_radix 10 16 s) BadPort;
              end_ ← ok_or (from_str_radix 10 16 e) BadPort;
              Ok (mkRange start end_)
          | None => port ← ok_or (from_str_radix 10 16 raw) BadPort; Ok (mkRange port port)
          end;
  ensure ((0 <? pr_start range) && (pr_start range <=? pr_end range)) BadPort ;;
  Ok range.
(** [compile_ports] *)
Fixpoint compile_ports_from (values : list str) (total : Z) : result RelayError (list PortRange) :=
  match values with
  | [] => Ok []
  | raw :: values =>
      range ← parse_range raw;
      let total := saturating_add 64 total (pr_end range - pr_start range + 1) in
      ensure (total <=? MAX_PORTS_PER_GRANT) GrantTooLarge ;;
      ranges ← compile_ports_from values total;
      Ok (range :: ranges)
  end.
Definition compile_ports (values : list str) : result RelayError ListenerGrant :=
  ensure (negb (is_empty values)) PortsMissing ;;
  compile_ports_from values 0.

(** ** Nodes *)

Definition str_le (a b : str) : Prop := str_ltb b a = false.
#[global] Instance str_le_dec : RelDecision str_le.
Proof. intros a b. unfold str_le. solve_decision. Defined.
(** [Vec::dedup] *)
Fixpoint dedup (l : list str) : list str :=
  match l with
  | [] => []
  | x :: l' => match l' with y :: _ => if str_eqb x y then dedup l' else x :: dedup l' | [] => [x] end
  end.

Section Env.
(** [std::env::var] *)
Context (env_var : str -> option str).

Definition env_token (name : str) : result RelayError str :=
  let name := trim name in
  ensure (negb (is_empty name)) TokenEnvEmpty ;;
  token ← ok_or (env_var name) TokenEnvUnset;
  ensure (negb (is_empty token)) TokenEmpty ;;
  Ok token.
Definition safe_token (t : str) : bool :=
  (length t <=? MAX_TOKEN_BYTES)%nat && negb (existsb (fun b => (b =? 13) || (b =? 10) || (b =? 0)) t).
Definition nonblank (s : str) : list str := if is_empty (trim s) then [] else [trim s].

(** A node's tokens. *)
Definition compile_tokens (node : NodeFile) : result RelayError (list str) :=
  let tokens := flat_map nonblank (nf_tokens node) ++ nonblank (nf_token node) in
  let token_envs := nf_token_envs node ++ nonblank (nf_token_env node) in
  from_env ← try_map env_token token_envs;
  let tokens := dedup (merge_sort str_le (tokens ++ from_env)) in
  ensure (negb (is_empty tokens)) TokensMissing ;;
  ensure (forallb safe_token tokens) TokenUnsafe ;;
  Ok tokens.
(** A node's listeners. *)
Fixpoint compile_listeners (files : list ListenerFile) (listeners : Listeners) : result RelayError Listeners :=
  match files with
  | [] => Ok listeners
  | f :: files =>
      validate_id (lf_id f) ;;
      transport ← map_err (fun _ => BadTransport) (transport_parse (lf_transport f));
      ensure (bool_decide (listeners !! (lf_id f, transport) = None)) DuplicateListener ;;
      ports ← compile_ports (lf_ports f);
      compile_listeners files (<[(lf_id f, transport) := ports]> listeners)
  end.
Definition compile_node (node : NodeFile) : result RelayError NodeGrant :=
  ensure (in_range 1 MAX_CONFIG_LEASES (nf_max_leases node)) LeasesOutOfRange ;;
  ensure (in_range 1 MAX_CONFIG_CONNECTIONS (nf_max_tcp_connections node)) ConnectionsOutOfRange ;;
  ensure (in_range 1 MAX_CONFIG_UDP_FLOWS (nf_max_udp_flows node)) FlowsOutOfRange ;;
  tokens ← compile_tokens node;
  listeners ← compile_listeners (nf_listeners node) ∅;
  ensure (negb (bool_decide (listeners = ∅))) ListenersMissing ;;
  Ok (mkGrant tokens listeners (nf_max_leases node) (nf_max_tcp_connections node) (nf_max_udp_flows node)).
Fixpoint compile_nodes (files : list NodeFile) (nodes : Nodes) : result RelayError Nodes :=
  match files with
  | [] => Ok nodes
  | f :: files =>
      validate_id (nf_node_id f) ;;
      ensure (bool_decide (nodes !! nf_node_id f = None)) DuplicateNode ;;
      node ← compile_node f;
      compile_nodes files (<[nf_node_id f := node]> nodes)
  end.

(** ** Disjoint grants *)

(** Every public port granted, in the order the maps iterate (any order). *)
Definition granted_ports (nodes : Nodes) : list (Transport * Z) :=
  flat_map (fun '(_, node) => flat_map (fun '((_, transport), grant) => map (pair transport) (grant_ports grant))
    (map_to_list (ng_listeners node))) (map_to_list nodes).
Fixpoint claim_all (claimed : gset (Transport * Z)) (ports : list (Transport * Z)) : result RelayError unit :=
  match ports with
  | [] => Ok tt
  | p :: ports => if decide (p ∈ claimed) then Err PortOverlap else claim_all ({[p]} ∪ claimed) ports
  end.
(** [validate_non_overlapping_grants] *)
Definition validate_non_overlapping_grants (nodes : Nodes) : result RelayError unit := claim_all ∅ (granted_ports nodes).

(** [RelayFile::compile] *)
Definition relay_compile (f : RelayFile) : result RelayError RelayConfig :=
  validate_id (rf_relay_id f) ;;
  ensure (negb (is_empty (trim (rf_cert f)))) CertRequired ;;
  ensure (negb (is_empty (trim (rf_key f)))) KeyRequired ;;
  ensure (in_range 1 MAX_CONFIG_STREAMS (rf_max_streams f)) StreamsOutOfRange ;;
  ensure (in_range 1 MAX_LEASE_GRACE_SECS (rf_lease_grace_secs f)) GraceOutOfRange ;;
  validate_initial_mtu (rf_initial_mtu f) ;;
  listen ← ok_or (parse_socket_addr (rf_listen f)) BadListen;
  public_bind ← ok_or (parse_ip_addr (rf_public_bind f)) BadPublicBind;
  nodes ← compile_nodes (rf_nodes f) ∅;
  ensure (negb (bool_decide (nodes = ∅))) NodesMissing ;;
  validate_non_overlapping_grants nodes ;;
  Ok (mkRelay (rf_relay_id f) listen public_bind (rf_cert f) (rf_key f) (rf_initial_mtu f) (rf_max_streams f)
        (rf_lease_grace_secs f) nodes).

End Env.

(** ** What an accepted configuration guarantees *)

Definition valid_id (s : str) : Prop := validate_id s = Ok tt.
(** A port is granted to a listener of a node for a transport. *)
Definition granted (nodes : Nodes) (node listener : str) (t : Transport) (port : Z) : Prop :=
  exists g ports, nodes !! node = Some g /\ ng_listeners g !! (listener, t) = Some ports /\ port ∈ grant_ports ports.
Definition ports_ok (g : ListenerGrant) : Prop :=
  g <> [] /\ Forall (fun r => 0 < pr_start r <= pr_end r /\ pr_end r < 2 ^ 16) g /\
  Z.of_nat (length (grant_ports g)) <= MAX_PORTS_PER_GRANT.
Record node_ok (g : NodeGrant) : Prop := {
  no_listeners : ng_listeners g <> ∅;
  no_grants : forall l t ports, ng_listeners g !! (l, t) = Some ports -> valid_id l /\ ports_ok ports;
  no_tokens : ng_tokens g <> [];
  no_safe : Forall (fun t => safe_token t = true) (ng_tokens g);
  no_leases : 1 <= ng_max_leases g <= MAX_CONFIG_LEASES;
  no_tcp : 1 <= ng_max_tcp_connections g <= MAX_CONFIG_CONNECTIONS;
  no_udp : 1 <= ng_max_udp_flows g <= MAX_CONFIG_UDP_FLOWS
}.
(** No public port belongs to two listeners. *)
Definition disjoint_grants (nodes : Nodes) : Prop :=
  forall n1 l1 n2 l2 t port, granted nodes n1 l1 t port -> granted nodes n2 l2 t port -> n1 = n2 /\ l1 = l2.
Record relay_ok (c : RelayConfig) : Prop := {
  ro_id : valid_id (rl_relay_id c);
  ro_nodes : rl_nodes c <> ∅;
  ro_node : forall n g, rl_nodes c !! n = Some g -> valid_id n /\ node_ok g;
  ro_disjoint : disjoint_grants (rl_nodes c);
  ro_grace : 1 <= rl_lease_grace c <= MAX_LEASE_GRACE_SECS;
  ro_streams : 1 <= rl_max_streams c <= MAX_CONFIG_STREAMS
}.

Lemma in_range_spec lo hi v : in_range lo hi v = true <-> lo <= v <= hi.
Proof. unfold in_range. lia. Qed.

(** *** Ports *)

Lemma length_range_ports r : pr_start r <= pr_end r -> Z.of_nat (length (range_ports r)) = pr_end r - pr_start r + 1.
Proof. intros H. unfold range_ports. rewrite length_seqZ. lia. Qed.
Lemma range_ports_spec r p : p ∈ range_ports r <-> pr_start r <= p <= pr_end r.
Proof. unfold range_ports. rewrite elem_of_seqZ. lia. Qed.
Lemma parse_range_ok raw r : parse_range raw = Ok r -> 0 < pr_start r <= pr_end r /\ pr_end r < 2 ^ 16.
Proof.
  unfold parse_range. cbv zeta. intros H. apply bind_Ok in H as (r' & Er & H). apply bind_Ok in H as (_ & Hr%ensure_Ok & [= <-]).
  assert (fits 16 (pr_end r')) as [_ Hf]; [|lia].
  destruct (split_once 45 (trim raw)) as [[s e]|].
  - apply bind_Ok in Er as (a & _ & Er). apply bind_Ok in Er as (b & Eb & [= <-]). apply ok_or_Ok in Eb. by apply from_str_radix_fits in Eb.
  - apply bind_Ok in Er as (a & Ea & [= <-]). apply ok_or_Ok in Ea. by apply from_str_radix_fits in Ea.
Qed.
Lemma compile_ports_from_ok values total g :
  0 <= total -> compile_ports_from values total = Ok g ->
  Forall (fun r => 0 < pr_start r <= pr_end r /\ pr_end r < 2 ^ 16) g /\ length g = length values /\
  (g <> [] -> total + Z.of_nat (length (grant_ports g)) <= MAX_PORTS_PER_GRANT).
Proof.
  revert total g; induction values as [|raw values IH]; intros total g Ht H; cbn [compile_ports_from] in H; [by injection H as <-|].
  apply bind_Ok in H as (r & Er & H). cbv zeta in H. apply bind_Ok in H as (_ & Hle%ensure_Ok & H).
  apply bind_Ok in H as (rs & Ers & [= <-]). pose proof (parse_range_ok _ _ Er) as Hr.
  assert (saturating_add 64 total (pr_end r - pr_start r + 1) = total + (pr_end r - pr_start r + 1)) as Esat.
  { unfold saturating_add, MAX_PORTS_PER_GRANT in *. lia. }
  rewrite Esat in Hle, Ers. destruct (IH (total + (pr_end r - pr_start r + 1)) rs ltac:(lia) Ers) as (H1 & H2 & H3). split; [by constructor|]. split; [cbn; by rewrite H2|].
  intros _. unfold grant_ports. cbn [flat_map]. rewrite length_app, Nat2Z.inj_add, length_range_ports by lia. fold (grant_ports rs).
  destruct rs as [|r' rs]; [cbn; unfold MAX_PORTS_PER_GRANT in *; lia|]. specialize (H3 ltac:(done)). lia.
Qed.
Lemma compile_ports_ok values g : compile_ports values = Ok g -> ports_ok g.
Proof.
  unfold compile_ports. intros H. apply bind_Ok in H as (_ & Hne%ensure_Ok & H).
  destruct (compile_ports_from_ok values 0 g ltac:(done) H) as (H1 & H2 & H3).
  assert (g <> []) as Hg by (intros ->; by destruct values). split_and!; [done|done|]. specialize (H3 Hg). lia.
Qed.

(** *** Tokens *)

Lemma dedup_spec x l : x ∈ dedup l <-> x ∈ l.
Proof.
  induction l as [|a l IH]; [done|]. destruct l as [|b l]; [done|]. cbn [dedup] in *.
  destruct (str_eqb a b) eqn:E.
  - apply str_eqb_eq in E as ->. rewrite IH, !elem_of_cons. tauto.
  - rewrite elem_of_cons, IH. by rewrite (elem_of_cons _ x a).
Qed.
Lemma nonblank_spec x s : x ∈ nonblank s <-> x = trim s /\ x <> [].
Proof.
  unfold nonblank. destruct (trim s) as [|b t] eqn:E; cbn [is_empty].
  - rewrite elem_of_nil. split; [done|]. by intros [-> ?].
  - rewrite list_elem_of_singleton. split; [by intros ->|by intros [? _]].
Qed.

Section EnvProps.
Context (env_var : str -> option str).

(** The tokens a node file names. *)
Definition names_token (f : NodeFile) (t : str) : Prop :=
  (exists raw, (raw ∈ nf_tokens f \/ raw = nf_token f) /\ t = trim raw /\ t <> []) \/
  (exists name, name ∈ nf_token_envs f ++ nonblank (nf_token_env f) /\ env_var (trim name) = Some t).

Lemma env_token_spec name t : env_token env_var name = Ok t -> env_var (trim name) = Some t /\ trim name <> [] /\ t <> [].
Proof.
  unfold env_token. cbv zeta. intros H. apply bind_Ok in H as (_ & H1%ensure_Ok & H). apply bind_Ok in H as (t' & Ht & H).
  apply bind_Ok in H as (_ & H2%ensure_Ok & [= <-]). apply ok_or_Ok in Ht. split_and!; [done|by destruct (trim name)|by destruct t'].
Qed.
Lemma compile_tokens_spec f ts :
  compile_tokens env_var f = Ok ts ->
  ts <> [] /\ Forall (fun t => safe_token t = true) ts /\ forall t, t ∈ ts <-> names_token f t.
Proof.
  unfold compile_tokens. cbv zeta. intros H. apply bind_Ok in H as (envs & He & H). apply bind_Ok in H as (_ & Hne%ensure_Ok & H).
  apply bind_Ok in H as (_ & Hs%ensure_Ok & [= <-]). split; [by intros E; rewrite E in Hne|]. split.
  { rewrite forallb_forall in Hs. apply Forall_forall. intros t Ht. apply Hs. by apply list_elem_of_In. }
  intros t. rewrite dedup_spec, merge_sort_Permutation, !elem_of_app. apply try_map_Forall2 in He. unfold names_token.
  assert (t ∈ envs <-> exists name, name ∈ nf_token_envs f ++ nonblank (nf_token_env f) /\ env_var (trim name) = Some t) as ->.
  { split.
    - intros Ht. apply list_elem_of_lookup in Ht as [i Hi]. destruct (Forall2_lookup_r _ _ _ _ _ He Hi) as (name & Hn & Et).
      apply env_token_spec in Et as [Et _]. exists name. split; [by eapply list_elem_of_lookup_2|done].
    - intros (name & Hn & Et). apply list_elem_of_lookup in Hn as [i Hi]. destruct (Forall2_lookup_l _ _ _ _ _ He Hi) as (t' & Ht & Et').
      apply env_token_spec in Et' as [Et' _]. assert (t' = t) as -> by congruence. by eapply list_elem_of_lookup_2. }
  assert (t ∈ flat_map nonblank (nf_tokens f) <-> exists raw, raw ∈ nf_tokens f /\ t = trim raw /\ t <> []) as ->.
  { rewrite list_elem_of_In, in_flat_map. setoid_rewrite <- list_elem_of_In. setoid_rewrite nonblank_spec. done. }
  rewrite nonblank_spec. naive_solver.
Qed.

(** *** Listeners and nodes *)

Lemma compile_listeners_spec files ls r :
  compile_listeners files ls = Ok r ->
  forall l t ports, r !! (l, t) = Some ports ->
    ls !! (l, t) = Some ports \/ (valid_id l /\ ports_ok ports).
Proof.
  revert ls; induction files as [|f files IH]; intros ls H l t ports Hr; cbn [compile_listeners] in H; [by injection H as <-; left|].
  apply bind_Ok in H as ([] & Hid & H). apply bind_Ok in H as (tr & _ & H). apply bind_Ok in H as (_ & _ & H).
  apply bind_Ok in H as (ps & Hps & H). destruct (IH _ H l t ports Hr) as [Hl|]; [|by right].
  apply lookup_insert_Some in Hl as [[[= <- <-] <-]|[_ Hl]]; [|by left]. right. split; [done|by eapply compile_ports_ok].
Qed.
Lemma compile_node_ok f g : compile_node env_var f = Ok g -> node_ok g /\ forall t, t ∈ ng_tokens g <-> names_token f t.
Proof.
  unfold compile_node. intros H. apply bind_Ok in H as (_ & H1%ensure_Ok & H). apply bind_Ok in H as (_ & H2%ensure_Ok & H).
  apply bind_Ok in H as (_ & H3%ensure_Ok & H). apply bind_Ok in H as (ts & Ht & H). apply bind_Ok in H as (ls & Hl & H).
  apply bind_Ok in H as (_ & Hne%ensure_Ok & [= <-]). apply in_range_spec in H1, H2, H3.
  apply compile_tokens_spec in Ht as (Ht1 & Ht2 & Ht3). split; [|done]. constructor; cbn; try done.
  - apply negb_true_iff in Hne. by apply bool_decide_eq_false in Hne.
  - intros l t ports Hp. destruct (compile_listeners_spec _ _ _ Hl l t ports Hp) as [E|]; [by rewrite lookup_empty in E|done].
Qed.
Lemma compile_nodes_spec files ns r :
  compile_nodes env_var files ns = Ok r ->
  (forall n g, ns !! n = Some g -> r !! n = Some g) /\
  (forall n g, r !! n = Some g -> ns !! n = Some g \/ valid_id n) /\
  (forall f, f ∈ files -> exists g, r !! nf_node_id f = Some g /\ compile_node env_var f = Ok g) /\
  (forall n g, r !! n = Some g -> ns !! n = Some g \/ exists f, f ∈ files /\ nf_node_id f = n /\ compile_node env_var f = Ok g).
Proof.
  revert ns; induction files as [|f files IH]; intros ns H; cbn [compile_nodes] in H.
  { injection H as <-. split_and!; [done|by left|by intros f Hf; apply elem_of_nil in Hf|by left]. }
  apply bind_Ok in H as ([] & Hid & H). apply bind_Ok in H as (_ & Hno%ensure_Ok & H). apply bool_decide_eq_true in Hno.
  apply bind_Ok in H as (g & Hg & H). destruct (IH _ H) as (I1 & I2 & I3 & I4). split_and!.
  - intros n g' Hn. apply I1. rewrite lookup_insert_ne; [done|congruence].
  - intros n g' Hn. destruct (I2 n g' Hn) as [E|]; [|by right]. apply lookup_insert_Some in E as [[<- _]|[_ E]]; [by right|by left].
  - intros f' [->|Hf]%elem_of_cons; [|by apply I3]. exists g. split; [apply I1, lookup_insert_eq|done].
  - intros n g' Hn. destruct (I4 n g' Hn) as [E|(f' & Hf & ?)]; [|right; exists f'; split; [by constructor|done]].
    apply lookup_insert_Some in E as [[<- <-]|[_ E]]; [|by left]. right. exists f. split; [by constructor|done].
Qed.
End EnvProps.

(** *** Disjoint grants *)

Lemma claim_all_NoDup claimed ports :
  claim_all claimed ports = Ok tt <-> NoDup ports /\ forall p, p ∈ ports -> p ∉ claimed.
Proof.
  revert claimed; induction ports as [|p ports IH]; intros claimed; cbn [claim_all].
  { split; [|done]. intros _. split; [constructor|]. by intros p Hp%elem_of_nil. }
  destruct (decide (p ∈ claimed)) as [Hp|Hp].
  - split; [done|]. intros [_ H]. exfalso. apply (H p); [by constructor|done].
  - rewrite IH, NoDup_cons. split.
    + intros [Hn Hd]. split; [split; [|done]|].
      * intros Hin. apply (Hd p Hin). set_solver.
      * intros q [->|Hq]%elem_of_cons; [done|]. specialize (Hd q Hq). set_solver.
    + intros [[Hin Hn] Hd]. split; [done|]. intros q Hq. specialize (Hd q ltac:(by constructor)).
      assert (q <> p) by by intros ->. set_solver.
Qed.
Lemma flat_map_NoDup_inj {A B} (f : A -> list B) l a b x :
  NoDup (flat_map f l) -> a ∈ l -> b ∈ l -> x ∈ f a -> x ∈ f b -> a = b.
Proof.
  induction l as [|c l IH]; [by intros _ ?%elem_of_nil|]. cbn [flat_map]. rewrite NoDup_app. intros (H1 & H2 & H3) Ha Hb Hxa Hxb.
  assert (Hin : forall d, d ∈ l -> x ∈ f d -> x ∈ flat_map f l).
  { intros d Hd Hx. apply list_elem_of_In, in_flat_map. exists d. by split; apply list_elem_of_In. }
  apply elem_of_cons in Ha as [->|Ha], Hb as [->|Hb]; [done| | |by apply IH]; exfalso.
  - by apply (H2 x Hxa), (Hin b).
  - by apply (H2 x Hxb), (Hin a).
Qed.
Lemma flat_map_NoDup_part {A B} (f : A -> list B) l a : NoDup (flat_map f l) -> a ∈ l -> NoDup (f a).
Proof.
  induction l as [|c l IH]; [by intros _ ?%elem_of_nil|]. cbn [flat_map]. rewrite NoDup_app. intros (H1 & _ & H3) [->|Ha]%elem_of_cons; auto.
Qed.
Lemma validate_disjoint nodes : validate_non_overlapping_grants nodes = Ok tt -> disjoint_grants nodes.
Proof.
  unfold validate_non_overlapping_grants, granted_ports. rewrite claim_all_NoDup. intros [Hn _].
  intros n1 l1 n2 l2 t port (g1 & p1 & Hg1 & Hp1 & Hin1) (g2 & p2 & Hg2 & Hp2 & Hin2).
  set (inner := fun '((_, tr), grant) => map (pair tr) (grant_ports grant)) in Hn.
  set (outer := fun '(_, node) => flat_map inner (map_to_list (ng_listeners node))) in Hn.
  assert (Hinner : forall l p, port ∈ grant_ports p -> (t, port) ∈ inner ((l, t), p)).
  { intros l p Hp. apply list_elem_of_In, in_map. by apply list_elem_of_In. }
  assert (Houter : forall n g l p, ng_listeners g !! (l, t) = Some p -> port ∈ grant_ports p -> (t, port) ∈ outer (n, g)).
  { intros n g l p Hl Hp. apply list_elem_of_In, in_flat_map. exists ((l, t), p).
    split; apply list_elem_of_In; [by apply elem_of_map_to_list|by apply Hinner]. }
  assert ((n1, g1) = (n2, g2)) as [= -> ->].
  { eapply (flat_map_NoDup_inj outer _ _ _ (t, port) Hn); [by apply elem_of_map_to_list..|by eapply Houter|by eapply Houter]. }
  split; [done|]. pose proof (flat_map_NoDup_part outer _ (n2, g2) Hn ltac:(by apply elem_of_map_to_list)) as Hn2.
  assert (((l1, t), p1) = ((l2, t), p2)) as [= ->]; [|done].
  eapply (flat_map_NoDup_inj inner _ _ _ (t, port) Hn2); [by apply elem_of_map_to_list..|by apply Hinner|by apply Hinner].
Qed.

Lemma relay_compile_nodes (env_var : str -> option str) (f : RelayFile) (c : RelayConfig) :
  relay_compile env_var f = Ok c -> compile_nodes env_var (rf_nodes f) ∅ = Ok (rl_nodes c) /\
    valid_id (rl_relay_id c) /\ rl_nodes c <> ∅ /\ disjoint_grants (rl_nodes c) /\
    1 <= rl_lease_grace c <= MAX_LEASE_GRACE_SECS /\ 1 <= rl_max_streams c <= MAX_CONFIG_STREAMS.
Proof.
  unfold relay_compile. intros H. apply bind_Ok in H as ([] & Hid & H). do 2 (apply bind_Ok in H as (_ & _ & H)).
  apply bind_Ok in H as (_ & Hs%ensure_Ok & H). apply bind_Ok in H as (_ & Hg%ensure_Ok & H). apply bind_Ok in H as (_ & _ & H).
  apply bind_Ok in H as (listen & _ & H). apply bind_Ok in H as (bind & _ & H). apply bind_Ok in H as (nodes & Hn & H).
  apply bind_Ok in H as (_ & Hne%ensure_Ok & H). apply bind_Ok in H as ([] & Hd & [= <-]). apply in_range_spec in Hs, Hg.
  cbn. split_and!; try done; [|by apply validate_disjoint|apply Hg|apply Hg|apply Hs|apply Hs].
  apply negb_true_iff in Hne. by apply bool_decide_eq_false in Hne.
Qed.
Lemma relay_compile_ok (env_var : str -> option str) (f : RelayFile) (c : RelayConfig) :
  relay_compile env_var f = Ok c -> relay_ok c.
Proof.
  intros (Hn & Hid & Hne & Hd & Hg & Hs)%relay_compile_nodes. apply compile_nodes_spec in Hn as (_ & N2 & _ & N4).
  constructor; try done. intros n g Hl. split; [destruct (N2 n g Hl) as [E|]; [by rewrite lookup_empty in E|done]|].
  destruct (N4 n g Hl) as [E|(file & _ & _ & Ec)]; [by rewrite lookup_empty in E|]. by apply compile_node_ok in Ec as [? _].
Qed.

(** A relay file that compiles authorises exactly what it says and nothing
    twice: every identifier is well-formed, every node has listeners, limits in
    range and non-empty, encodable tokens, which are exactly those its file
    names (trimmed, from the file or the environment); every grant has between
    one and 4096 ports, all between 1 and 65535; every node of the file is
    there; and no public port of a transport belongs to two listeners. *)
Theorem relay_config_sound (env_var : str -> option str) (f : RelayFile) (c : RelayConfig) :
  relay_compile env_var f = Ok c ->
  relay_ok c /\
  (forall n g, rl_nodes c !! n = Some g -> exists file, file ∈ rf_nodes f /\ nf_node_id file = n /\
     forall t, t ∈ ng_tokens g <-> names_token env_var file t) /\
  (forall file, file ∈ rf_nodes f -> is_Some (rl_nodes c !! nf_node_id file)).
Proof.
  intros H. split; [by eapply relay_compile_ok|]. apply relay_compile_nodes in H as (Hn & _).
  apply compile_nodes_spec in Hn as (_ & _ & N3 & N4). split.
  - intros n g Hl. destruct (N4 n g Hl) as [E|(file & Hf & En & Ec)]; [by rewrite lookup_empty in E|]. exists file.
    apply compile_node_ok in Ec as [_ ?]. done.
  - intros file Hf. destruct (N3 file Hf) as (g & E & _). eauto.
Qed.

(** ** A concrete file *)

Definition relay_demo_node (id : string) (ports : string) : NodeFile :=
  mkNodeFile (lit id) (lit " token-1 ") (lit "") [] [lit "EDGE_TOKEN"] 2 4 4
    [mkListenerFile (lit "web") (lit "TCP") [lit ports]; mkListenerFile (lit "dns") (lit "udp") [lit "53"]].
Definition relay_demo_env (name : str) : option str := if str_eqb name (lit "EDGE_TOKEN") then Some (lit "token-2") else None.
Definition relay_demo_file : RelayFile :=
  mkRelayFile (lit "relay-1") (lit "0.0.0.0:4433") (lit "0.0.0.0") (lit "c.pem") (lit "k.pem") None 64 30 [relay_demo_node "edge-a" "8080-8082"].
Definition relay_demo : RelayConfig :=
  match relay_compile relay_demo_env relay_demo_file with
  | Ok c => c
  | Err _ => mkRelay [] (SockV4 0 0) (V4 0) [] [] None 0 0 ∅
  end.
Lemma relay_demo_compiles : relay_compile relay_demo_env relay_demo_file = Ok relay_demo.
Proof. vm_compute. reflexivity. Qed.
Lemma relay_config_sound_witness :
  relay_compile relay_demo_env relay_demo_file = Ok relay_demo /\ disjoint_grants (rl_nodes relay_demo).
Proof. split; [apply relay_demo_compiles|]. apply (relay_config_sound relay_demo_env relay_demo_file), relay_demo_compiles. Defined.

(** Two nodes that grant the same port of a transport are refused. *)
Example overlap_refused :
  relay_compile relay_demo_env (mkRelayFile (lit "r") (lit "0.0.0.0:1") (lit "::") (lit "c") (lit "k") None 1 1
    [mkNodeFile (lit "a") (lit "t") [] [] [] 1 1 1 [mkListenerFile (lit "x") (lit "tcp") [lit "80-90"]];
     mkNodeFile (lit "b") (lit "t") [] [] [] 1 1 1 [mkListenerFile (lit "x") (lit "tcp") [lit "85"]]]) = Err PortOverlap.
Proof. vm_compute. reflexivity. Qed.
