(* ===== verification/Relay.v ===== *)
(** * Relay: the public reverse-ingress relay (src/src/ingress/relay.rs)

    A node registers over an authenticated connection and leases public ports;
    the relay opens a TCP or UDP listener per lease and forwards what arrives to
    the node. Every task of the relay runs its own code between two awaits or
    two locks as one atomic step, so the steps of all tasks interleave freely:
    [relay_step] is one such step, named by the event that lets it run. The
    events carry what the outside decides (frames read, random identifiers,
    whether a bind or a write succeeded, the clock in milliseconds).

    [reserve_port], [candidate_ports], [admission], [lease_admit], the flow tables
    and [forward_tcp] are the code's functions of the same names. *)

From Stdlib Require Import ZArith Lia String.
From stdpp Require Import prelude strings list gmap sorting.
From S2P Require Import Sniff.
From S2P Require Import Prelude RustStr Net NetProps RustFmt Util Frame IngressFrame RelayConfig.

Definition DEFAULT_FLOW_IDLE : Z := 60000.

(** ** Ports and reservations *)

(** [ReservationKey]: node, listener, transport *)
Abbreviation ReservationKey := (list Z * list Z * Transport)%type.
Record Reservation := mkReservation { rv_port : Z; rv_expires_at : Z }.
Abbreviation Reservations := (gmap (list Z * list Z * Transport) Reservation).

Definition port_allowed (grant : ListenerGrant) (port : Z) : bool :=
  existsb (fun r => in_range (pr_start r) (pr_end r) port) grant.
(** [reservations.retain] *)
Definition retain_live (now : Z) (m : Reservations) : Reservations :=
  filter (fun kr : ReservationKey * Reservation => now < rv_expires_at kr.2) m.
(** Some other listener holds a reservation of the port. *)
Definition taken_by_other (m : Reservations) (key : ReservationKey) (port : Z) : bool :=
  existsb (fun '(other, r) => negb (bool_decide (other = key)) && (rv_port r =? port)) (map_to_list m).
(** [RelayState::reserve_port] *)
Definition reserve_port (now : Z) (m : Reservations) (key : ReservationKey) (grant : ListenerGrant) (requested : Z) :
    result str Z * Reservations :=
  let m := retain_live now m in
  (if negb (requested =? 0) then
     if negb (port_allowed grant requested) || taken_by_other m key requested then Err FORBIDDEN else Ok requested
   else
     match m !! key with
     | Some r => Ok (rv_port r)
     | None => ok_or (List.find (fun port => negb (taken_by_other m key port)) (grant_ports grant)) PORT_UNAVAILABLE
     end, m).
(** [RelayState::remember_port] *)
Definition remember_port (now grace : Z) (m : Reservations) (key : ReservationKey) (port : Z) : Reservations :=
  <[key := mkReservation port (now + grace * 1000)]> m.
Definition candidate_ports (preferred : Z) (grant : ListenerGrant) (fixed : bool) : list Z :=
  (if negb (preferred =? 0) && port_allowed grant preferred then [preferred] else [])
  ++ (if fixed then [] else List.filter (fun port => negb (port =? preferred)) (grant_ports grant)).

(** ** Flow tables *)

(** [fl_socket] is the public port the flow's socket is bound to. *)
Record RelayFlow := mkFlow {
  fl_lease_id : Z; fl_client_addr : SocketAddr; fl_socket : Z; fl_listener_id : str; fl_last_seen : Z;
  fl_bytes_up : Z; fl_bytes_down : Z
}.
Record FlowTables := mkTables { by_key : gmap (Z * SocketAddr) (list Z); by_id : gmap (Z * list Z) RelayFlow }.
Definition FlowTables_default : FlowTables := mkTables ∅ ∅.

Definition touch_up (now : Z) (n : nat) (f : RelayFlow) : RelayFlow :=
  mkFlow (fl_lease_id f) (fl_client_addr f) (fl_socket f) (fl_listener_id f) now
    (wrap 64 (fl_bytes_up f + Z.of_nat n)) (fl_bytes_down f).
Definition touch_down (now : Z) (n : nat) (f : RelayFlow) : RelayFlow :=
  mkFlow (fl_lease_id f) (fl_client_addr f) (fl_socket f) (fl_listener_id f) now
    (fl_bytes_up f) (wrap 64 (fl_bytes_down f + Z.of_nat n)).
(** The loop drawing an identifier until it is not taken: [None] while the
    draws given do not end it, [Some None] when the generator fails. *)
Fixpoint draw_id (taken : list Z -> bool) (draws : list (option (list Z))) : option (option (list Z)) :=
  match draws with
  | [] => None
  | None :: _ => Some None
  | Some id :: draws => if taken id then draw_id taken draws else Some (Some id)
  end.
(** The table part of [forward_udp]: the flow's identifier, if the datagram is
    to be forwarded, and the tables after it. *)
Definition uplink_flow (max_flows now socket : Z) (listener : str) (lease : Z) (client : SocketAddr) (payload : list Z)
    (draws : list (option (list Z))) (t : FlowTables) : option (option (list Z) * FlowTables) :=
  match by_key t !! (lease, client) with
  | Some id => Some (Some id, mkTables (by_key t) (alter (touch_up now (length payload)) (lease, id) (by_id t)))
  | None =>
      if (max_flows <=? Z.of_nat (size (by_id t))) then Some (None, t)
      else
        match draw_id (fun id => bool_decide (is_Some (by_id t !! (lease, id)))) draws with
        | None => None
        | Some None => Some (None, t)
        | Some (Some id) =>
            let flow := mkFlow lease client socket listener now (Z.of_nat (length payload)) 0 in
            Some (Some id, mkTables (<[(lease, client) := id]> (by_key t)) (<[(lease, id) := flow]> (by_id t)))
        end
  end.
(** What [forward_udp] sends to the node, if it fits the connection's datagrams *)
Definition uplink_datagram (lease : Z) (id : Id128) (client : SocketAddr) (payload : list Z) (max_size : option nat) :
    option (list Z) :=
  let encoded := datagram_encode (Uplink lease id client payload) in
  if match max_size with Some max => (max <? length encoded)%nat | None => false end then None else Some encoded.
Definition remove_flow (key : Z * list Z) (t : FlowTables) : FlowTables :=
  match by_id t !! key with
  | Some flow => mkTables (delete (fl_lease_id flow, fl_client_addr flow) (by_key t)) (delete key (by_id t))
  | None => t
  end.
(** The flows [flow_sweeper] collects *)
Definition idle_flows (now : Z) (t : FlowTables) : list (Z * list Z) :=
  map fst (List.filter (fun '(_, f) => DEFAULT_FLOW_IDLE <=? Z.max 0 (now - fl_last_seen f)) (map_to_list (by_id t))).
(** The flows [remove_lease_flows] collects *)
Definition lease_flows (lease : Z) (t : FlowTables) : list (Z * list Z) :=
  map fst (List.filter (fun '((l, _), _) => l =? lease) (map_to_list (by_id t))).
(** The flow a datagram of the node is for, with its payload *)
Definition downlink_flow (t : FlowTables) (bytes : list Z) : option (Z * list Z * RelayFlow * list Z) :=
  match datagram_parse bytes with
  | Ok (Downlink lease id payload) =>
      match by_id t !! (lease, id) with Some f => Some (lease, id, f, payload) | None => None end
  | _ => None
  end.

(** ** A public TCP connection *)

Inductive TcpForward := TcpAbandoned | TcpRejected | TcpSpliced.
(** [forward_tcp]: the frame written to the node and what becomes of the
    connection; [reply] is [None] after the timeout. *)
Definition forward_tcp (relay_id : str) (session_id : Id128) (lease : Z) (client public : SocketAddr)
    (random : option (list Z)) (opened written : bool) (reply : option (result IoError (list str))) :
    list (list Z) * TcpForward :=
  match random with
  | None => ([], TcpAbandoned)
  | Some ingress_id =>
      if negb opened then ([], TcpAbandoned)
      else
        match open_encode (mkOpen lease ingress_id client public relay_id session_id) with
        | Err _ => ([], TcpAbandoned)
        | Ok encoded =>
            match write_frame encoded with
            | Err _ => ([], TcpAbandoned)
            | Ok bytes =>
                if negb written then ([bytes], TcpAbandoned)
                else
                  match reply with
                  | Some (Ok lines) =>
                      match reply_parse lines with Ok (ReplyOk _) => ([bytes], TcpSpliced) | _ => ([bytes], TcpRejected) end
                  | _ => ([bytes], TcpAbandoned)
                  end
            end
        end
  end.

(** ** The state of the relay *)

(** [RelayState] *)
Record RelayState := mkState {
  rs_relay_id : str; rs_public_bind : IpAddr; rs_nodes : Nodes; rs_sessions : gmap (list Z) Z;
  rs_reservations : Reservations; rs_lease_seq : Z; rs_lease_grace : Z
}.
(** [RelayServer::bind] *)
Definition RelayState_new (c : RelayConfig) : RelayState :=
  mkState (rl_relay_id c) (rl_public_bind c) (rl_nodes c) ∅ ∅ 1 (rl_lease_grace c).

(** A connection from its registration on: writing the reply, serving, and
    waiting for its lease tasks to stop. *)
Inductive SessionPhase := Acking | Serving | Draining.
#[global] Instance SessionPhase_dec : EqDecision SessionPhase.
Proof. solve_decision. Defined.
(** [RegisteredSession], with the keys the sweeper has still to remove *)
Record Session := mkSession {
  se_node : str; se_grant : NodeGrant; se_id : Id128; se_phase : SessionPhase; se_lease_permits : Z; se_tcp_permits : Z;
  se_flows : FlowTables; se_expired : list (Z * list Z)
}.
(** A lease task, by the await it is at. [Refusing]: writing an error, the
    lease permit (and the port bound, if any) still held. [Binding]: the ports
    left to try. [Opening]: writing the reply. [Open]: serving, with the number
    of connections forwarded. [Closing]: the flows to remove. [Releasing]: the
    permit is back, the port is still to be remembered. *)
Inductive LeasePhase :=
| Refusing (port : option Z)
| Binding (candidates : list Z)
| Opening (id port : Z)
| Open (id port : Z) (conns : nat)
| Closing (id port : Z) (flows : list (Z * list Z))
| Releasing (port : Z).
Record Lease := mkLeaseTask { ls_conn : Z; ls_listener : str; ls_transport : Transport; ls_phase : LeasePhase }.
Record Relay := mkRelayWorld { w_state : RelayState; w_conns : gmap Z Session; w_leases : gmap Z Lease }.
Definition relay_new (c : RelayConfig) : Relay := mkRelayWorld (RelayState_new c) ∅ ∅.

(** The port a lease task has bound. *)
Definition held_port (p : LeasePhase) : option Z :=
  match p with
  | Refusing port => port
  | Binding _ => None
  | Opening _ port | Open _ port _ => Some port
  | Closing _ _ _ | Releasing _ => None
  end.
(** The system refuses to bind a port this process has bound already. *)
Definition bound_already (w : Relay) (t : Transport) (port : Z) : bool :=
  existsb (fun '(_, l) => bool_decide (ls_transport l = t) && bool_decide (held_port (ls_phase l) = Some port))
    (map_to_list (w_leases w)).

Definition set_sessions (s : RelayState) (m : gmap (list Z) Z) : RelayState :=
  mkState (rs_relay_id s) (rs_public_bind s) (rs_nodes s) m (rs_reservations s) (rs_lease_seq s) (rs_lease_grace s).
Definition set_reservations (s : RelayState) (m : Reservations) : RelayState :=
  mkState (rs_relay_id s) (rs_public_bind s) (rs_nodes s) (rs_sessions s) m (rs_lease_seq s) (rs_lease_grace s).
Definition set_seq (s : RelayState) (n : Z) : RelayState :=
  mkState (rs_relay_id s) (rs_public_bind s) (rs_nodes s) (rs_sessions s) (rs_reservations s) n (rs_lease_grace s).
Definition set_phase (se : Session) (p : SessionPhase) : Session :=
  mkSession (se_node se) (se_grant se) (se_id se) p (se_lease_permits se) (se_tcp_permits se) (se_flows se) (se_expired se).
Definition add_lease_permits (n : Z) (se : Session) : Session :=
  mkSession (se_node se) (se_grant se) (se_id se) (se_phase se) (se_lease_permits se + n) (se_tcp_permits se)
    (se_flows se) (se_expired se).
Definition add_tcp_permits (n : Z) (se : Session) : Session :=
  mkSession (se_node se) (se_grant se) (se_id se) (se_phase se) (se_lease_permits se) (se_tcp_permits se + n)
    (se_flows se) (se_expired se).
Definition set_flows (t : FlowTables) (se : Session) : Session :=
  mkSession (se_node se) (se_grant se) (se_id se) (se_phase se) (se_lease_permits se) (se_tcp_permits se) t (se_expired se).
Definition set_expired (l : list (Z * list Z)) (se : Session) : Session :=
  mkSession (se_node se) (se_grant se) (se_id se) (se_phase se) (se_lease_permits se) (se_tcp_permits se) (se_flows se) l.
Definition set_lease_phase (l : Lease) (p : LeasePhase) : Lease := mkLeaseTask (ls_conn l) (ls_listener l) (ls_transport l) p.

(** ** Registration *)

(** The checks of [handle_connection]: who registers, or the code of the refusal *)
Definition admission (s : RelayState) (frame : result IoError (list str)) : result str (RegisterRequest * NodeGrant) :=
  lines ← map_err (fun _ => BAD_REQUEST) frame;
  request ← map_err (fun _ => BAD_REQUEST) (register_parse lines);
  grant ← ok_or (rs_nodes s !! node_id request) UNAUTHORIZED;
  ensure (existsb (fun t => constant_time_eq t (token request)) (ng_tokens grant)) UNAUTHORIZED ;;
  ensure (bool_decide (rs_sessions s !! node_id request = None)) DUPLICATE_NODE_ID ;;
  Ok (request, grant).
Definition deregister (s : RelayState) (node : str) (stable_id : Z) : RelayState :=
  if bool_decide (rs_sessions s !! node = Some stable_id) then set_sessions s (delete node (rs_sessions s)) else s.
Definition register_reply (s : RelayState) (session_id : Id128) : Reply :=
  ReplyOk (list_to_map [(lit "relay-id", rs_relay_id s); (lit "session-id", display_id session_id)]).
Definition new_session (request : RegisterRequest) (grant : NodeGrant) (session_id : Id128) : Session :=
  mkSession (node_id request) grant session_id Acking (ng_max_leases grant) (ng_max_tcp_connections grant)
    FlowTables_default [].

(** ** Events and outputs *)

Inductive Event :=
| Connected (sid : Z) (frame : result IoError (list str)) (random : option (list Z))
| Acked (sid : Z) (written : bool)
| LeaseAsked (sid task : Z) (frame : result IoError (list str)) (now : Z)
| Refused (task : Z)
| BindTried (task : Z) (bound local : bool)
| LeaseWritten (task : Z) (written : bool)
| TcpAccepted (task : Z)
| TcpFinished (task : Z)
| UdpReceived (task : Z) (client : SocketAddr) (payload : list Z) (now : Z) (draws : list (option (list Z))) (max_size : option nat)
| NodeDatagram (sid : Z) (bytes : list Z) (now : Z) (sent : bool)
| SweepStarted (sid now : Z)
| SweepRemoves (sid : Z)
| LeaseEnded (task : Z)
| LeaseCleans (task : Z)
| LeaseReleased (task now : Z)
| ConnectionLost (sid : Z)
| LeaseAborted (task now : Z)
| SessionEnded (sid : Z).

Inductive Output :=
| RegisterReplied (sid : Z) (reply : Reply)
| LeaseReplied (task : Z) (reply : Reply)
| ToNode (sid : Z) (datagram : list Z)
| ToClient (port : Z) (client : SocketAddr) (payload : list Z).

(** [write_lease_ok] *)
Definition lease_reply (id port : Z) : Reply :=
  ReplyOk (list_to_map [(lit "lease-id", fmt_dec id); (lit "public-port", fmt_dec port)]).

(** ** Leases *)

(** The checks of [handle_lease] up to the lease permit *)
Definition lease_request (se : Session) (frame : result IoError (list str)) : result str (LeaseRequest * ListenerGrant) :=
  lines ← map_err (fun _ => BAD_REQUEST) frame;
  request ← map_err (fun _ => BAD_REQUEST) (lease_parse lines);
  grant ← ok_or (ng_listeners (se_grant se) !! (listener_id request, transport request)) FORBIDDEN;
  ensure (0 <? se_lease_permits se) AT_CAPACITY ;;
  Ok (request, grant).

Definition with_state (s : RelayState) (w : Relay) : Relay := mkRelayWorld s (w_conns w) (w_leases w).
Definition with_conns (m : gmap Z Session) (w : Relay) : Relay := mkRelayWorld (w_state w) m (w_leases w).
Definition with_leases (m : gmap Z Lease) (w : Relay) : Relay := mkRelayWorld (w_state w) (w_conns w) m.
Definition update_conn (f : Session -> Session) (sid : Z) (w : Relay) : Relay := with_conns (alter f sid (w_conns w)) w.
Definition put_lease (task : Z) (l : Lease) (w : Relay) : Relay := with_leases (<[task := l]> (w_leases w)) w.
Definition to_phase (task : Z) (l : Lease) (p : LeasePhase) (w : Relay) : Relay := put_lease task (set_lease_phase l p) w.
Definition end_lease (task : Z) (w : Relay) : Relay := with_leases (delete task (w_leases w)) w.
Definition lease_key (se : Session) (l : Lease) : ReservationKey := (se_node se, ls_listener l, ls_transport l).
Definition remember (now : Z) (se : Session) (l : Lease) (port : Z) (w : Relay) : Relay :=
  let s := w_state w in
  with_state (set_reservations s (remember_port now (rs_lease_grace s) (rs_reservations s) (lease_key se l) port)) w.
(** A lease task with its session *)
Definition task_of (w : Relay) (task : Z) : option (Lease * Session) :=
  l ← w_leases w !! task; se ← w_conns w !! ls_conn l; Some (l, se).

(** [handle_connection], up to the reply *)
Definition on_connected (w : Relay) (sid : Z) (frame : result IoError (list str)) (random : option (list Z)) :
    Relay * list Output :=
  match admission (w_state w) frame with
  | Err code => (w, [RegisterReplied sid (ReplyErr code)])
  | Ok (request, grant) =>
      let s := set_sessions (w_state w) (<[node_id request := sid]> (rs_sessions (w_state w))) in
      match random with
      | None => (with_state (deregister s (node_id request) sid) w, [RegisterReplied sid (ReplyErr INTERNAL)])
      | Some id =>
          match reply_encode (register_reply s id) with
          | Err _ => (with_state (deregister s (node_id request) sid) w, [])
          | Ok _ =>
              (with_conns (<[sid := new_session request grant id]> (w_conns w)) (with_state s w),
               [RegisterReplied sid (register_reply s id)])
          end
      end
  end.
(** [handle_lease], up to the first bind *)
Definition on_lease_asked (w : Relay) (se : Session) (sid task : Z) (frame : result IoError (list str)) (now : Z) :
    Relay * list Output :=
  match lease_request se frame with
  | Err code => (w, [LeaseReplied task (ReplyErr code)])
  | Ok (request, grant) =>
      let key := (se_node se, listener_id request, transport request) in
      let '(preferred, m) := reserve_port now (rs_reservations (w_state w)) key grant (public_port request) in
      let w := update_conn (add_lease_permits (-1)) sid (with_state (set_reservations (w_state w) m) w) in
      let lease := mkLeaseTask sid (listener_id request) (transport request) in
      match preferred with
      | Err code => (put_lease task (lease (Refusing None)) w, [LeaseReplied task (ReplyErr code)])
      | Ok port =>
          (put_lease task (lease (Binding (candidate_ports port grant (negb (public_port request =? 0))))) w, [])
      end
  end.
(** [bind_tcp] and [bind_udp], one attempt, and what follows when they end *)
Definition on_bind_tried (w : Relay) (task : Z) (l : Lease) (candidates : list Z) (bound local : bool) :
    Relay * list Output :=
  match candidates with
  | [] => (to_phase task l (Refusing None) w, [LeaseReplied task (ReplyErr PORT_UNAVAILABLE)])
  | port :: candidates =>
      if negb bound || bound_already w (ls_transport l) port then (to_phase task l (Binding candidates) w, [])
      else if negb local then (to_phase task l (Refusing (Some port)) w, [LeaseReplied task (ReplyErr INTERNAL)])
      else
        let id := rs_lease_seq (w_state w) in
        (to_phase task l (Opening id port) (with_state (set_seq (w_state w) (wrap 64 (id + 1))) w),
         [LeaseReplied task (lease_reply id port)])
  end.
(** [serve_tcp_lease], a connection accepted: dropped when no permit is left *)
Definition on_tcp_accepted (w : Relay) (task : Z) (l : Lease) (se : Session) (id port : Z) (conns : nat) : Relay :=
  if 0 <? se_tcp_permits se
  then to_phase task l (Open id port (S conns)) (update_conn (add_tcp_permits (-1)) (ls_conn l) w)
  else w.
(** [forward_udp] *)
Definition on_udp_received (w : Relay) (l : Lease) (se : Session) (id port : Z) (client : SocketAddr) (payload : list Z)
    (now : Z) (draws : list (option (list Z))) (max_size : option nat) : option (Relay * list Output) :=
  '(flow, t) ← uplink_flow (ng_max_udp_flows (se_grant se)) now port (ls_listener l) id client payload draws (se_flows se);
  Some (update_conn (set_flows t) (ls_conn l) w,
        match flow with
        | Some flow => match uplink_datagram id flow client payload max_size with Some d => [ToNode (ls_conn l) d] | None => [] end
        | None => []
        end).
(** [downlink_loop], one datagram *)
Definition on_node_datagram (w : Relay) (sid : Z) (se : Session) (bytes : list Z) (now : Z) (sent : bool) :
    Relay * list Output :=
  match downlink_flow (se_flows se) bytes with
  | Some (lease, id, flow, payload) =>
      if sent then
        let t := se_flows se in
        (update_conn (set_flows (mkTables (by_key t) (alter (touch_down now (length payload)) (lease, id) (by_id t)))) sid w,
         [ToClient (fl_socket flow) (fl_client_addr flow) payload])
      else (w, [])
  | None => (w, [])
  end.
(** What dropping the task of a closed connection's lease does at each await *)
Definition on_aborted (w : Relay) (task : Z) (l : Lease) (se : Session) (now : Z) : option Relay :=
  match ls_phase l with
  | Refusing _ | Binding _ | Opening _ _ => Some (end_lease task (update_conn (add_lease_permits 1) (ls_conn l) w))
  | Open _ port conns =>
      Some (end_lease task (remember now se l port
        (update_conn (fun se => add_tcp_permits (Z.of_nat conns) (add_lease_permits 1 se)) (ls_conn l) w)))
  | Closing _ _ _ | Releasing _ => None
  end.

(** ** One step: [None] when the event cannot happen *)
Definition relay_step (w : Relay) (e : Event) : option (Relay * list Output) :=
  match e with
  | Connected sid frame random =>
      if bool_decide (is_Some (w_conns w !! sid)) then None else Some (on_connected w sid frame random)
  | Acked sid written =>
      se ← w_conns w !! sid;
      if negb (bool_decide (se_phase se = Acking)) then None
      else if written then Some (update_conn (fun se => set_phase se Serving) sid w, [])
      else Some (with_conns (delete sid (w_conns w)) (with_state (deregister (w_state w) (se_node se) sid) w), [])
  | LeaseAsked sid task frame now =>
      se ← w_conns w !! sid;
      if negb (bool_decide (se_phase se = Serving)) || bool_decide (is_Some (w_leases w !! task)) then None
      else Some (on_lease_asked w se sid task frame now)
  | Refused task =>
      '(l, se) ← task_of w task;
      match ls_phase l with
      | Refusing _ => Some (end_lease task (update_conn (add_lease_permits 1) (ls_conn l) w), [])
      | _ => None
      end
  | BindTried task bound local =>
      '(l, se) ← task_of w task;
      match ls_phase l with
      | Binding candidates => Some (on_bind_tried w task l candidates bound local)
      | _ => None
      end
  | LeaseWritten task written =>
      '(l, se) ← task_of w task;
      match ls_phase l with
      | Opening id port =>
          if written then Some (to_phase task l (Open id port 0) w, [])
          else Some (end_lease task (update_conn (add_lease_permits 1) (ls_conn l) w), [])
      | _ => None
      end
  | TcpAccepted task =>
      '(l, se) ← task_of w task;
      match ls_phase l, ls_transport l with
      | Open id port conns, Tcp =>
          Some (on_tcp_accepted w task l se id port conns, [])
      | _, _ => None
      end
  | TcpFinished task =>
      '(l, se) ← task_of w task;
      match ls_phase l with
      | Open id port (S conns) =>
          Some (to_phase task l (Open id port conns) (update_conn (add_tcp_permits 1) (ls_conn l) w), [])
      | _ => None
      end
  | UdpReceived task client payload now draws max_size =>
      '(l, se) ← task_of w task;
      match ls_phase l, ls_transport l with
      | Open id port _, Udp => on_udp_received w l se id port client payload now draws max_size
      | _, _ => None
      end
  | NodeDatagram sid bytes now sent =>
      se ← w_conns w !! sid;
      if bool_decide (se_phase se = Acking) then None else Some (on_node_datagram w sid se bytes now sent)
  | SweepStarted sid now =>
      se ← w_conns w !! sid;
      if bool_decide (se_phase se = Acking) || negb (is_empty (se_expired se)) then None
      else Some (update_conn (fun se => set_expired (idle_flows now (se_flows se)) se) sid w, [])
  | SweepRemoves sid =>
      se ← w_conns w !! sid;
      match se_expired se with
      | key :: keys => Some (update_conn (fun se => set_expired keys (set_flows (remove_flow key (se_flows se)) se)) sid w, [])
      | [] => None
      end
  | LeaseEnded task =>
      '(l, se) ← task_of w task;
      match ls_phase l with
      | Open id port conns =>
          let flows := match ls_transport l with Tcp => [] | Udp => lease_flows id (se_flows se) end in
          Some (to_phase task l (Closing id port flows) (update_conn (add_tcp_permits (Z.of_nat conns)) (ls_conn l) w), [])
      | _ => None
      end
  | LeaseCleans task =>
      '(l, se) ← task_of w task;
      match ls_phase l with
      | Closing id port (key :: keys) =>
          Some (to_phase task l (Closing id port keys)
                  (update_conn (fun se => set_flows (remove_flow key (se_flows se)) se) (ls_conn l) w), [])
      | Closing id port [] => Some (to_phase task l (Releasing port) (update_conn (add_lease_permits 1) (ls_conn l) w), [])
      | _ => None
      end
  | LeaseReleased task now =>
      '(l, se) ← task_of w task;
      match ls_phase l with
      | Releasing port => Some (end_lease task (remember now se l port w), [])
      | _ => None
      end
  | ConnectionLost sid =>
      se ← w_conns w !! sid;
      if negb (bool_decide (se_phase se = Serving)) then None
      else Some (update_conn (fun se => set_phase se Draining) sid w, [])
  | LeaseAborted task now =>
      '(l, se) ← task_of w task;
      if negb (bool_decide (se_phase se = Draining)) then None
      else w ← on_aborted w task l se now; Some (w, [])
  | SessionEnded sid =>
      se ← w_conns w !! sid;
      if negb (bool_decide (se_phase se = Draining)) || existsb (fun '(_, l) => ls_conn l =? sid) (map_to_list (w_leases w))
      then None
      else Some (with_conns (delete sid (w_conns w)) (with_state (deregister (w_state w) (se_node se) sid) w), [])
  end.
(** A run, with the outputs of each step *)
Fixpoint relay_run (w : Relay) (es : list Event) : option (Relay * list Output) :=
  match es with
  | [] => Some (w, [])
  | e :: es => '(w, out) ← relay_step w e; '(w, outs) ← relay_run w es; Some (w, out ++ outs)
  end.
