(* ===== verification/RelayProps.v ===== *)
(** * RelayProps: what the ingress relay guarantees in every interleaving

    The flow tables stay inverse to each other and bounded; the invariant
    [relay_inv] of the whole relay (sessions, leases, reservations, permits,
    ports) holds in every reachable state; reservations give a port back to its
    listener; and nothing is sent to a client that did not write first. *)

From Stdlib Require Import ZArith Lia String.
From stdpp Require Import prelude strings list gmap sorting.
From S2P Require Import Sniff.
From S2P Require Import Prelude RustStr Net NetProps RustFmt Util Frame IngressFrame RelayConfig Relay.

(** ** Ports *)

Lemma elem_of_grant_ports g p : p ∈ grant_ports g <-> exists r, r ∈ g /\ pr_start r <= p <= pr_end r.
Proof.
  unfold grant_ports. rewrite list_elem_of_In, in_flat_map. setoid_rewrite <- list_elem_of_In.
  by setoid_rewrite range_ports_spec.
Qed.
Lemma port_allowed_spec g p : port_allowed g p = true <-> p ∈ grant_ports g.
Proof.
  unfold port_allowed. rewrite existsb_exists, elem_of_grant_ports. setoid_rewrite <- list_elem_of_In.
  by setoid_rewrite in_range_spec.
Qed.
Lemma candidate_ports_granted preferred g fixed p : p ∈ candidate_ports preferred g fixed -> p ∈ grant_ports g.
Proof.
  unfold candidate_ports. rewrite elem_of_app. intros [H|H].
  - destruct (negb (preferred =? 0) && port_allowed g preferred) eqn:E; [|by apply elem_of_nil in H].
    apply list_elem_of_singleton in H as ->. bools. by apply port_allowed_spec.
  - destruct fixed; [by apply elem_of_nil in H|]. apply list_elem_of_In, filter_In in H as [H _]. by apply list_elem_of_In.
Qed.
Lemma taken_by_other_spec m key p :
  taken_by_other m key p = true <-> exists other r, m !! other = Some r /\ other <> key /\ rv_port r = p.
Proof.
  unfold taken_by_other. rewrite existsb_exists. split.
  - intros ([other r] & Hin & H). apply list_elem_of_In, elem_of_map_to_list in Hin. bools. exists other, r.
    by split_and!.
  - intros (other & r & Hm & Hne & Hp). exists (other, r). split; [by apply list_elem_of_In, elem_of_map_to_list|].
    apply andb_true_iff. rewrite negb_true_iff, bool_decide_eq_false, Z.eqb_eq. done.
Qed.
Lemma retain_live_lookup now m key r :
  retain_live now m !! key = Some r <-> m !! key = Some r /\ now < rv_expires_at r.
Proof. unfold retain_live. by rewrite map_lookup_filter_Some. Qed.

(** ** Sums over a map *)

Definition msum {A} (f : A -> Z) (m : gmap Z A) : Z := foldr Z.add 0 (map (fun ka => f ka.2) (map_to_list m)).
Lemma foldr_add_perm (l k : list Z) : l ≡ₚ k -> foldr Z.add 0 l = foldr Z.add 0 k.
Proof. induction 1; cbn; lia. Qed.
Lemma msum_insert {A} (f : A -> Z) m k a : m !! k = None -> msum f (<[k := a]> m) = f a + msum f m.
Proof.
  intros H. unfold msum. rewrite (foldr_add_perm _ (map (fun ka => f ka.2) ((k, a) :: map_to_list m))); [done|].
  by rewrite map_to_list_insert.
Qed.
(** The sum after the entry of a key is replaced or removed. *)
Definition oweight {A} (f : A -> Z) (o : option A) : Z := match o with Some a => f a | None => 0 end.
Lemma msum_partial_alter {A} (f : A -> Z) m k o :
  msum f (partial_alter (fun _ => o) k m) = msum f m - oweight f (m !! k) + oweight f o.
Proof.
  assert (Hd : msum f m = oweight f (m !! k) + msum f (delete k m)).
  { destruct (m !! k) as [a|] eqn:E; [|by rewrite delete_id]. rewrite <- (msum_insert f (delete k m) k a) by apply lookup_delete_eq.
    by rewrite insert_delete_id. }
  destruct o as [b|].
  - assert (partial_alter (fun _ => Some b) k m = <[k := b]> (delete k m)) as -> by (by rewrite insert_delete_eq).
    rewrite msum_insert by apply lookup_delete_eq. cbn [oweight]. lia.
  - change (partial_alter (fun _ => None) k m) with (delete k m). cbn [oweight]. lia.
Qed.
Lemma msum_zero {A} (f : A -> Z) m : (forall k a, m !! k = Some a -> f a = 0) -> msum f m = 0.
Proof.
  intros H. unfold msum. assert (forall ka, ka ∈ map_to_list m -> f ka.2 = 0) as Hl.
  { intros [k a] Hka. apply elem_of_map_to_list in Hka. eauto. }
  induction (map_to_list m) as [|ka l IH]; [done|]. cbn. rewrite (Hl ka), IH; [done| |by left]. intros x Hx. apply Hl. by right.
Qed.
Lemma msum_nonneg {A} (f : A -> Z) m : (forall a, 0 <= f a) -> 0 <= msum f m.
Proof. intros H. unfold msum. induction (map_to_list m) as [|ka l IH]; cbn; [done|]. specialize (H ka.2). lia. Qed.

(** ** Flow tables *)

(** The two tables are inverse to each other and within the limit. *)
Record tables_ok (max : Z) (t : FlowTables) : Prop := {
  to_inverse : forall l c id, by_key t !! (l, c) = Some id <-> exists f, by_id t !! (l, id) = Some f /\ fl_client_addr f = c;
  to_lease : forall l id f, by_id t !! (l, id) = Some f -> fl_lease_id f = l;
  to_bound : Z.of_nat (size (by_id t)) <= max
}.
Lemma tables_default_ok max : 0 <= max -> tables_ok max FlowTables_default.
Proof.
  intros H. constructor; cbn; [|by intros ??? E; rewrite lookup_empty in E|by rewrite map_size_empty].
  intros l c id. rewrite lookup_empty. split; [done|]. intros (f & E & _). by rewrite lookup_empty in E.
Qed.
Lemma tables_alter_ok max t g key :
  (forall f, fl_client_addr (g f) = fl_client_addr f /\ fl_lease_id (g f) = fl_lease_id f) ->
  tables_ok max t -> tables_ok max (mkTables (by_key t) (alter g key (by_id t))).
Proof.
  intros Hg [H1 H2 H3]. constructor; cbn.
  - intros l c id. rewrite H1. destruct (decide (key = (l, id))) as [->|Hne].
    + rewrite lookup_alter_eq. split.
      * intros (f & E & <-). exists (g f). rewrite E. split; [done|]. apply Hg.
      * intros (f & E & <-). apply fmap_Some in E as (f0 & E & ->). exists f0. split; [done|]. symmetry. apply Hg.
    + by rewrite lookup_alter_ne.
  - intros l id f. destruct (decide (key = (l, id))) as [->|Hne]; [|rewrite lookup_alter_ne by done; apply H2].
    rewrite lookup_alter_eq. intros (f0 & E & ->)%fmap_Some. destruct (Hg f0) as [_ ->]. by eapply H2.
  - by rewrite <- size_dom, dom_alter_L, size_dom.
Qed.
Lemma tables_remove_ok max t key : tables_ok max t -> tables_ok max (remove_flow key t).
Proof.
  intros [H1 H2 H3]. unfold remove_flow. destruct (by_id t !! key) as [f|] eqn:E; [|done]. destruct key as [l0 id0].
  pose proof (H2 _ _ _ E) as Hl. constructor; cbn.
  - intros l c id. destruct (decide ((l, c) = (fl_lease_id f, fl_client_addr f))) as [[= -> ->]|Hne].
    + rewrite lookup_delete_eq. split; [done|]. intros (f' & E' & Hc). exfalso.
      assert (by_key t !! (fl_lease_id f, fl_client_addr f) = Some id) as K1.
      { apply H1. exists f'. split; [|done]. by apply lookup_delete_Some in E' as [_ E']. }
      assert (by_key t !! (fl_lease_id f, fl_client_addr f) = Some id0) as K2 by (apply H1; exists f; rewrite Hl; done).
      rewrite Hl in E'. apply lookup_delete_Some in E' as [Hd _]. congruence.
    + rewrite lookup_delete_ne by done. rewrite H1. split; intros (f' & E' & Hc); exists f'; (split; [|done]).
      * rewrite lookup_delete_ne; [done|]. intros [= <- <-]. apply Hne. congruence.
      * by apply lookup_delete_Some in E' as [_ E'].
  - intros l id f' (_ & E')%lookup_delete_Some. by eapply H2.
  - rewrite map_size_delete_Some by eauto. lia.
Qed.

Lemma draw_id_fresh taken draws id : draw_id taken draws = Some (Some id) -> taken id = false.
Proof.
  induction draws as [|[d|] draws IH]; cbn [draw_id]; [done| |done]. destruct (taken d) eqn:E; [done|]. by intros [= <-].
Qed.
(** Drawing ends: among more draws than identifiers taken, one is fresh. *)
Lemma draw_id_total taken (used : list (list Z)) draws :
  (forall id, taken id = true -> id ∈ used) -> NoDup draws -> (length used < length draws)%nat ->
  is_Some (draw_id taken draws).
Proof.
  intros Hu Hn Hlen. destruct (draw_id taken draws) eqn:E; [eauto|exfalso].
  assert (forall d, d ∈ draws -> exists id, d = Some id /\ id ∈ used) as Hall.
  { clear Hn Hlen. induction draws as [|[d|] draws IH]; cbn [draw_id] in E; [by intros d ?%elem_of_nil| |done].
    destruct (taken d) eqn:Ed; [|done]. intros d' [->|Hd]%elem_of_cons; eauto. }
  assert (draws ⊆+ map Some used) as Hsub.
  { apply NoDup_submseteq; [done|]. intros d (id & -> & Hid)%Hall. by apply list_elem_of_In, in_map, list_elem_of_In. }
  apply submseteq_length in Hsub. rewrite length_map in Hsub. lia.
Qed.
(** What an uplink datagram does to the tables. *)
Lemma uplink_flow_spec max now socket listener lease client payload draws t flow t' :
  tables_ok max t -> uplink_flow max now socket listener lease client payload draws t = Some (flow, t') ->
  tables_ok max t' /\
  (flow = None -> t' = t) /\
  (forall id, flow = Some id -> by_key t' !! (lease, client) = Some id /\
     forall key f, by_id t' !! key = Some f ->
       key = (lease, id) /\ fl_client_addr f = client /\
         (fl_socket f = socket /\ fl_listener_id f = listener \/
          exists f0, by_id t !! key = Some f0 /\ fl_client_addr f = fl_client_addr f0 /\ fl_socket f = fl_socket f0) \/
       by_id t !! key = Some f).
Proof.
  intros Ht. unfold uplink_flow. destruct (by_key t !! (lease, client)) as [id|] eqn:Ek.
  - intros [= <- <-]. split; [by apply tables_alter_ok|]. split; [done|]. intros _ [= <-]. split; [done|].
    intros key f. cbn [by_id]. destruct (decide (key = (lease, id))) as [->|Hne]; [|rewrite lookup_alter_ne by done; by right].
    rewrite lookup_alter_eq. intros (f0 & E0 & ->)%fmap_Some. left. split; [done|].
    apply (to_inverse _ _ Ht) in Ek as (f1 & E1 & <-). pose proof (eq_trans (eq_sym E1) E0) as [= ->]. split; [done|]. right. by exists f0.
  - destruct (max <=? Z.of_nat (size (by_id t))) eqn:Emax; [intros [= <- <-]; by split_and!|].
    destruct (draw_id _ draws) as [[id|]|] eqn:Ed; [|intros [= <- <-]; by split_and!|done]. intros [= <- <-].
    apply draw_id_fresh, bool_decide_eq_false, eq_None_not_Some in Ed. split; [|split; [done|]].
    + constructor; cbn [by_key by_id].
      * intros l c i. destruct (decide ((l, c) = (lease, client))) as [[= -> ->]|Hne].
        { rewrite lookup_insert_eq. split.
          - intros [= <-]. eexists. by rewrite lookup_insert_eq.
          - intros (f & E & Hc). apply lookup_insert_Some in E as [[[= ->] _]|[Hd E]]; [done|]. exfalso.
            assert (by_key t !! (lease, client) = Some i); [|congruence]. apply (to_inverse _ _ Ht). eauto. }
        rewrite lookup_insert_ne by done. rewrite (to_inverse _ _ Ht). split; intros (f & E & Hc); exists f; (split; [|done]).
        { rewrite lookup_insert_ne; [done|]. intros [= <- <-]. congruence. }
        { apply lookup_insert_Some in E as [[[= <- <-] <-]|[_ E]]; [|done]. cbn in Hc. by subst. }
      * intros l i f [[[= <- <-] <-]|[_ E]]%lookup_insert_Some; [done|]. by eapply (to_lease _ _ Ht).
      * rewrite map_size_insert_None by done. lia.
    + intros _ [= <-]. cbn [by_key by_id]. split; [apply lookup_insert_eq|].
      intros key f [[<- <-]|[_ E]]%lookup_insert_Some; [left|by right]. split; [done|]. split; [done|]. by left.
Qed.

(** ** The invariant *)

(** The ports a lease task may still bind, holds or will remember *)
Definition phase_ports (p : LeasePhase) : list Z :=
  match p with
  | Refusing (Some port) => [port]
  | Refusing None => []
  | Binding candidates => candidates
  | Opening _ port | Open _ port _ | Closing _ port _ | Releasing port => [port]
  end.
(** The permits a lease task holds on its session: of leases, of TCP connections *)
Definition permit_held (p : LeasePhase) : Z := match p with Releasing _ => 0 | _ => 1 end.
Definition conns_held (p : LeasePhase) : Z := match p with Open _ _ conns => Z.of_nat conns | _ => 0 end.
Definition lease_weight (sid : Z) (l : Lease) : Z := if ls_conn l =? sid then permit_held (ls_phase l) else 0.
Definition tcp_weight (sid : Z) (l : Lease) : Z := if ls_conn l =? sid then conns_held (ls_phase l) else 0.
Definition reservations_ok (nodes : Nodes) (m : Reservations) : Prop :=
  forall n l t r, m !! (n, l, t) = Some r -> granted nodes n l t (rv_port r).
(** A lease task acts for a listener of its session's node, on granted ports. *)
Definition lease_ok (nodes : Nodes) (se : Session) (l : Lease) : Prop :=
  se_phase se <> Acking /\ is_Some (ng_listeners (se_grant se) !! (ls_listener l, ls_transport l)) /\
  forall port, port ∈ phase_ports (ls_phase l) -> granted nodes (se_node se) (ls_listener l) (ls_transport l) port.
(** Permits: what is left and what the tasks hold add up to the grant. *)
Definition permits_ok (left held limit : Z) : Prop := 0 <= left /\ left + held = limit.
Record session_ok (nodes : Nodes) (leases : gmap Z Lease) (sid : Z) (se : Session) : Prop := {
  so_grant : nodes !! se_node se = Some (se_grant se);
  so_tables : tables_ok (ng_max_udp_flows (se_grant se)) (se_flows se);
  so_leases : permits_ok (se_lease_permits se) (msum (lease_weight sid) leases) (ng_max_leases (se_grant se));
  so_tcp : permits_ok (se_tcp_permits se) (msum (tcp_weight sid) leases) (ng_max_tcp_connections (se_grant se))
}.
Definition ports_distinct (leases : gmap Z Lease) : Prop :=
  forall t1 l1 t2 l2 p, leases !! t1 = Some l1 -> leases !! t2 = Some l2 -> ls_transport l1 = ls_transport l2 ->
    held_port (ls_phase l1) = Some p -> held_port (ls_phase l2) = Some p -> t1 = t2.
Definition sessions_ok (sessions : gmap (list Z) Z) (conns : gmap Z Session) : Prop :=
  forall n sid, sessions !! n = Some sid <-> exists se, conns !! sid = Some se /\ se_node se = n.
Record relay_inv (nodes : Nodes) (w : Relay) : Prop := {
  ri_nodes : rs_nodes (w_state w) = nodes;
  ri_sessions : sessions_ok (rs_sessions (w_state w)) (w_conns w);
  ri_conn : forall sid se, w_conns w !! sid = Some se -> session_ok nodes (w_leases w) sid se;
  ri_lease : forall task l, w_leases w !! task = Some l -> exists se, w_conns w !! ls_conn l = Some se /\ lease_ok nodes se l;
  ri_reservations : reservations_ok nodes (rs_reservations (w_state w));
  ri_ports : ports_distinct (w_leases w)
}.

Lemma weight_other sid o f : (forall l, f l = if ls_conn l =? sid then f l else 0) ->
  (forall l, o = Some l -> ls_conn l <> sid) -> oweight f o = 0.
Proof. intros Hf Ho. destruct o as [l|]; [|done]. cbn. rewrite Hf. specialize (Ho l eq_refl). by rewrite (proj2 (Z.eqb_neq _ _) Ho). Qed.
Lemma lease_weight_eq sid l : lease_weight sid l = if ls_conn l =? sid then lease_weight sid l else 0.
Proof. unfold lease_weight. by destruct (ls_conn l =? sid). Qed.
Lemma tcp_weight_eq sid l : tcp_weight sid l = if ls_conn l =? sid then tcp_weight sid l else 0.
Proof. unfold tcp_weight. by destruct (ls_conn l =? sid). Qed.

(** What a step may do to one session. *)
Record session_kept (se se' : Session) : Prop := {
  sk_node : se_node se' = se_node se;
  sk_grant : se_grant se' = se_grant se;
  sk_phase : se_phase se <> Acking -> se_phase se' <> Acking;
  sk_tables : tables_ok (ng_max_udp_flows (se_grant se)) (se_flows se) ->
    tables_ok (ng_max_udp_flows (se_grant se)) (se_flows se')
}.
(** What a step may do to the shared state while sessions are kept. *)
Record state_kept (nodes : Nodes) (s s' : RelayState) : Prop := {
  st_nodes : rs_nodes s' = rs_nodes s;
  st_sessions : rs_sessions s' = rs_sessions s;
  st_reservations : reservations_ok nodes (rs_reservations s')
}.
Definition other_port (leases : gmap Z Lease) (task : Z) (l : Lease) : Prop :=
  forall t2 l2 p, t2 <> task -> leases !! t2 = Some l2 -> ls_transport l2 = ls_transport l ->
    held_port (ls_phase l) = Some p -> held_port (ls_phase l2) <> Some p.

(** The one step lemma: a session and at most one lease task of it change. *)
Lemma inv_change nodes w sid se f task ol s' :
  relay_inv nodes w -> w_conns w !! sid = Some se -> state_kept nodes (w_state w) s' -> session_kept se (f se) ->
  (forall l, w_leases w !! task = Some l -> ls_conn l = sid) ->
  (forall l, ol = Some l -> ls_conn l = sid /\ lease_ok nodes (f se) l /\ other_port (w_leases w) task l) ->
  0 <= se_lease_permits (f se) ->
  se_lease_permits (f se) + oweight (lease_weight sid) ol = se_lease_permits se + oweight (lease_weight sid) (w_leases w !! task) ->
  0 <= se_tcp_permits (f se) ->
  se_tcp_permits (f se) + oweight (tcp_weight sid) ol = se_tcp_permits se + oweight (tcp_weight sid) (w_leases w !! task) ->
  relay_inv nodes (mkRelayWorld s' (alter f sid (w_conns w)) (partial_alter (fun _ => ol) task (w_leases w))).
Proof.
  intros [I1 I2 I3 I4 I5 I6] Hse [S1 S2 S3] [K1 K2 K3 K4] Hold Hnew Hp1 Hp2 Hq1 Hq2. constructor; cbn.
  - congruence.
  - intros n i. rewrite S2, (I2 n i). destruct (decide (i = sid)) as [->|Hne]; [|by rewrite lookup_alter_ne].
    rewrite lookup_alter_eq, Hse. cbn. split; intros (x & [= <-] & <-); eexists; (split; [done|congruence]).
  - intros i x. destruct (decide (i = sid)) as [->|Hne].
    + rewrite lookup_alter_eq, Hse. intros [= <-]. destruct (I3 _ _ Hse) as [G1 G2 [G3 G4] [G5 G6]].
      constructor; [congruence|rewrite K2; by apply K4| |]; split; try done; rewrite msum_partial_alter, K2; lia.
    + rewrite lookup_alter_ne by done. intros Hx. destruct (I3 _ _ Hx) as [G1 G2 G3 G4]. constructor; [done..| |].
      * rewrite msum_partial_alter, !(weight_other i _ (lease_weight i)); [by rewrite Z.sub_0_r, Z.add_0_r|apply lease_weight_eq| |apply lease_weight_eq|];
          [intros l E; apply Hnew in E as [-> _]; congruence|intros l E; apply Hold in E as ->; congruence].
      * rewrite msum_partial_alter, !(weight_other i _ (tcp_weight i)); [by rewrite Z.sub_0_r, Z.add_0_r|apply tcp_weight_eq| |apply tcp_weight_eq|];
          [intros l E; apply Hnew in E as [-> _]; congruence|intros l E; apply Hold in E as ->; congruence].
  - intros t l Hl. destruct (decide (t = task)) as [->|Hne].
    + rewrite lookup_partial_alter_eq in Hl. destruct (Hnew l Hl) as (-> & Hok & _). exists (f se). by rewrite lookup_alter_eq, Hse.
    + rewrite lookup_partial_alter_ne in Hl by done. destruct (I4 t l Hl) as (x & Hx & L1 & L2 & L3).
      destruct (decide (ls_conn l = sid)) as [E|Hns].
      * rewrite E in *. assert (x = se) as -> by congruence. exists (f se). rewrite lookup_alter_eq, Hse. split; [done|].
        split; [by apply K3|]. rewrite K1, K2. done.
      * exists x. by rewrite lookup_alter_ne.
  - done.
  - assert (Hsym : forall t l p l', t <> task -> w_leases w !! t = Some l -> ol = Some l' -> ls_transport l = ls_transport l' ->
      held_port (ls_phase l') = Some p -> held_port (ls_phase l) = Some p -> False).
    { intros t l p l' Hne Hl Ho Ht H1 H2. destruct (Hnew l' Ho) as (_ & _ & Hother). by apply (Hother t l p). }
    intros t1 l1 t2 l2 p H1 H2 Ht Hp Hp'. destruct (decide (t1 = task)) as [->|N1], (decide (t2 = task)) as [->|N2]; [done| | |].
    + rewrite lookup_partial_alter_eq in H1. rewrite lookup_partial_alter_ne in H2 by done. exfalso. by eapply (Hsym t2 l2 p l1).
    + rewrite lookup_partial_alter_ne in H1 by done. rewrite lookup_partial_alter_eq in H2. exfalso. by eapply (Hsym t1 l1 p l2).
    + rewrite lookup_partial_alter_ne in H1, H2 by done. by eapply I6.
Qed.

Lemma session_kept_refl se : session_kept se se.
Proof. by constructor. Qed.
Lemma state_kept_refl nodes w : relay_inv nodes w -> state_kept nodes (w_state w) (w_state w).
Proof. intros I. constructor; [done..|apply I]. Qed.
Lemma task_of_Some w task l se :
  task_of w task = Some (l, se) <-> w_leases w !! task = Some l /\ w_conns w !! ls_conn l = Some se.
Proof.
  unfold task_of. destruct (w_leases w !! task) as [l'|] eqn:El; cbn; [|by split; [|intros [? _]]].
  destruct (w_conns w !! ls_conn l') as [se'|] eqn:Es; cbn.
  - split; [by intros [= -> ->]|]. intros [[= <-] H]. congruence.
  - split; [done|]. intros [[= <-] H]. congruence.
Qed.
Lemma other_port_same nodes w task l p :
  relay_inv nodes w -> w_leases w !! task = Some l -> (held_port p = None \/ held_port p = held_port (ls_phase l)) ->
  other_port (w_leases w) task (set_lease_phase l p).
Proof.
  intros I Hl [H|H] t2 l2 q Hne H2 Ht Hq Hq2; cbn in *; [congruence|]. apply Hne. by eapply (ri_ports _ _ I t2 l2 task l q); [..|congruence].
Qed.
Lemma weights sid l : ls_conn l = sid -> lease_weight sid l = permit_held (ls_phase l) /\ tcp_weight sid l = conns_held (ls_phase l).
Proof. intros <-. unfold lease_weight, tcp_weight. by rewrite Z.eqb_refl. Qed.

(** Only a session changes. *)
Lemma inv_session nodes w sid se f :
  relay_inv nodes w -> w_conns w !! sid = Some se -> session_kept se (f se) ->
  se_lease_permits (f se) = se_lease_permits se -> se_tcp_permits (f se) = se_tcp_permits se ->
  relay_inv nodes (update_conn f sid w).
Proof.
  intros I Hse K Hp Hq. destruct (ri_conn _ _ I _ _ Hse) as [_ _ [P1 _] [Q1 _]].
  set (task := fresh (dom (w_leases w))). assert (Hn : w_leases w !! task = None) by apply not_elem_of_dom, is_fresh.
  pose proof (inv_change nodes w sid se f task None (w_state w) I Hse (state_kept_refl _ _ I) K) as H.
  rewrite Hn in H. cbn in H. unfold update_conn, with_conns.
  assert (partial_alter (fun _ => None) task (w_leases w) = w_leases w) as E
    by (change (delete task (w_leases w) = w_leases w); by rewrite delete_id).
  rewrite E in H. apply H; try done; lia.
Qed.
(** A lease task moves on, its session's permits with it. *)
Lemma inv_task nodes w task l se f p s' :
  relay_inv nodes w -> task_of w task = Some (l, se) -> state_kept nodes (w_state w) s' -> session_kept se (f se) ->
  phase_ports p ⊆ phase_ports (ls_phase l) -> other_port (w_leases w) task (set_lease_phase l p) ->
  0 <= se_lease_permits (f se) -> se_lease_permits (f se) + permit_held p = se_lease_permits se + permit_held (ls_phase l) ->
  0 <= se_tcp_permits (f se) -> se_tcp_permits (f se) + conns_held p = se_tcp_permits se + conns_held (ls_phase l) ->
  relay_inv nodes (to_phase task l p (update_conn f (ls_conn l) (with_state s' w))).
Proof.
  intros I [Hl Hse]%task_of_Some S K Hports Hother P1 P2 Q1 Q2.
  destruct (ri_lease _ _ I _ _ Hl) as (se' & E & L1 & L2 & L3). assert (se' = se) as -> by congruence.
  refine (inv_change nodes w (ls_conn l) se f task (Some (set_lease_phase l p)) s' I Hse S K _ _ P1 _ Q1 _).
  - congruence.
  - intros l' [= <-]. split; [done|]. split; [|done]. split; [by apply (sk_phase _ _ K)|].
    rewrite (sk_node _ _ K), (sk_grant _ _ K). split; [done|]. intros port Hport. by apply L3, Hports.
  - rewrite Hl. cbn [oweight]. destruct (weights _ l eq_refl) as [-> _], (weights (ls_conn l) (set_lease_phase l p) eq_refl) as [-> _]. done.
  - rewrite Hl. cbn [oweight]. destruct (weights _ l eq_refl) as [_ ->], (weights (ls_conn l) (set_lease_phase l p) eq_refl) as [_ ->]. done.
Qed.
(** A lease task ends. *)
Lemma inv_end nodes w task l se f s' :
  relay_inv nodes w -> task_of w task = Some (l, se) -> state_kept nodes (w_state w) s' -> session_kept se (f se) ->
  se_lease_permits (f se) = se_lease_permits se + permit_held (ls_phase l) ->
  se_tcp_permits (f se) = se_tcp_permits se + conns_held (ls_phase l) ->
  relay_inv nodes (end_lease task (update_conn f (ls_conn l) (with_state s' w))).
Proof.
  intros I [Hl Hse]%task_of_Some S K P Q. destruct (ri_conn _ _ I _ _ Hse) as [_ _ [P1 _] [Q1 _]].
  assert (0 <= permit_held (ls_phase l) /\ 0 <= conns_held (ls_phase l)) as [? ?] by (destruct (ls_phase l); cbn; lia).
  refine (inv_change nodes w (ls_conn l) se f task None s' I Hse S K _ _ _ _ _ _); [congruence|done|lia| |lia|];
    rewrite Hl; cbn [oweight]; destruct (weights _ l eq_refl) as [E1 E2]; rewrite ?E1, ?E2; lia.
Qed.
Lemma update_conn_id sid w : update_conn id sid w = w.
Proof. unfold update_conn, with_conns. rewrite alter_id by done. by destruct w. Qed.
Lemma with_state_id w : with_state (w_state w) w = w.
Proof. by destruct w. Qed.
(** Remembering a port of the lease keeps the shared state. *)
Lemma remember_kept nodes w task l se now port :
  relay_inv nodes w -> task_of w task = Some (l, se) -> port ∈ phase_ports (ls_phase l) ->
  state_kept nodes (w_state w) (set_reservations (w_state w)
    (remember_port now (rs_lease_grace (w_state w)) (rs_reservations (w_state w)) (lease_key se l) port)).
Proof.
  intros I [Hl Hse]%task_of_Some Hp. destruct (ri_lease _ _ I _ _ Hl) as (se' & E & _ & _ & L). assert (se' = se) as -> by congruence.
  constructor; [done..|]. intros n li t r. cbn. unfold remember_port, lease_key.
  intros [[[= <- <- <-] <-]|[_ H]]%lookup_insert_Some; [by apply L|]. by apply (ri_reservations _ _ I).
Qed.

(** *** Sessions come and go *)

Lemma admission_Ok s frame request grant :
  admission s frame = Ok (request, grant) <->
  exists lines, frame = Ok lines /\ register_parse lines = Ok request /\ rs_nodes s !! node_id request = Some grant /\
    token request ∈ ng_tokens grant /\ rs_sessions s !! node_id request = None.
Proof.
  assert (Htok : forall r g, existsb (fun t => constant_time_eq t (token r)) (ng_tokens g) = true <-> token r ∈ ng_tokens g).
  { intros r g. rewrite existsb_exists, list_elem_of_In. setoid_rewrite constant_time_eq_spec. split.
    - by intros (t & Ht & <-).
    - intros Ht. by exists (token r). }
  unfold admission. split.
  - intros H. apply bind_Ok in H as (lines & Hl & H). apply map_err_Ok in Hl. apply bind_Ok in H as (r & Hr & H).
    apply map_err_Ok in Hr. apply bind_Ok in H as (g & Hg & H). apply ok_or_Ok in Hg. apply bind_Ok in H as (_ & Ht%ensure_Ok & H).
    apply bind_Ok in H as (_ & Hs%ensure_Ok & [= <- <-]). apply bool_decide_eq_true in Hs. apply Htok in Ht. by exists lines.
  - intros (lines & -> & Hr & Hg & Ht & Hs). cbn. rewrite Hr. cbn. rewrite Hg. cbn. rewrite (proj2 (Htok _ _) Ht). cbn.
    by rewrite bool_decide_true by done.
Qed.
Lemma deregister_new s node sid :
  rs_sessions s !! node = None -> deregister (set_sessions s (<[node := sid]> (rs_sessions s))) node sid = s.
Proof.
  intros H. unfold deregister. cbn. rewrite lookup_insert_eq, bool_decide_true by done.
  unfold set_sessions. cbn. rewrite delete_insert_id by done. by destruct s.
Qed.
Lemma inv_connect nodes w sid frame request grant id :
  (forall n g, nodes !! n = Some g -> node_ok g) ->
  relay_inv nodes w -> w_conns w !! sid = None -> admission (w_state w) frame = Ok (request, grant) ->
  relay_inv nodes (with_conns (<[sid := new_session request grant id]> (w_conns w))
    (with_state (set_sessions (w_state w) (<[node_id request := sid]> (rs_sessions (w_state w)))) w)).
Proof.
  intros Hok I Hn (lines & _ & _ & Hg & _ & Hs)%admission_Ok. pose proof I as [I1 I2 I3 I4 I5 I6]. constructor; cbn; [done| | | |done|done].
  - intros n i. rewrite lookup_insert_Some. split.
    + intros [[<- <-]|[Hne H]]; [eexists; by rewrite lookup_insert_eq|]. apply I2 in H as (se & Hse & <-). exists se.
      rewrite lookup_insert_ne; [done|]. congruence.
    + intros (se & [[<- <-]|[Hne Hse]]%lookup_insert_Some & Hnode); [by left|]. right.
      assert (rs_sessions (w_state w) !! n = Some i) as Hi by (apply I2; eauto). split; [|done]. congruence.
  - intros i se [[<- <-]|[Hne Hse]]%lookup_insert_Some; [|by apply I3]. rewrite I1 in Hg. destruct (Hok _ _ Hg) as [_ _ _ _ N1 N2 N3].
    assert (forall t l, w_leases w !! t = Some l -> ls_conn l <> sid) as Hnone.
    { intros t l Hl E. destruct (I4 t l Hl) as (se & Hse & _). congruence. }
    constructor; cbn; [done|apply tables_default_ok; lia| |]; split; try lia; rewrite msum_zero; try lia; intros t l Hl;
      unfold lease_weight, tcp_weight; by rewrite (proj2 (Z.eqb_neq _ _) (Hnone t l Hl)).
  - intros t l Hl. destruct (I4 t l Hl) as (se & Hse & L). exists se. rewrite lookup_insert_ne; [done|]. congruence.
Qed.
Lemma inv_disconnect nodes w sid se :
  relay_inv nodes w -> w_conns w !! sid = Some se -> (forall t l, w_leases w !! t = Some l -> ls_conn l <> sid) ->
  relay_inv nodes (with_conns (delete sid (w_conns w)) (with_state (deregister (w_state w) (se_node se) sid) w)).
Proof.
  intros [I1 I2 I3 I4 I5 I6] Hse Hnone. assert (Hs : rs_sessions (w_state w) !! se_node se = Some sid) by (apply I2; eauto).
  unfold deregister. rewrite bool_decide_true by done. constructor; cbn; [done| | | |done|done].
  - intros n i. rewrite lookup_delete_Some, (I2 n i). split.
    + intros (Hne & x & Hx & <-). exists x. split; [|done]. rewrite lookup_delete_ne; [done|]. intros <-. congruence.
    + intros (x & [Hne Hx]%lookup_delete_Some & <-). split; [|by exists x]. intros E.
      assert (rs_sessions (w_state w) !! se_node x = Some i) by (apply I2; eauto). congruence.
  - intros i x [_ Hx]%lookup_delete_Some. by apply I3.
  - intros t l Hl. destruct (I4 t l Hl) as (x & Hx & L). exists x. rewrite lookup_delete_ne; [done|]. intros E. by eapply Hnone.
Qed.

(** *** Leases *)

Lemma lease_request_Ok se frame request grant :
  lease_request se frame = Ok (request, grant) <->
  exists lines, frame = Ok lines /\ lease_parse lines = Ok request /\
    ng_listeners (se_grant se) !! (listener_id request, transport request) = Some grant /\ 0 < se_lease_permits se.
Proof.
  unfold lease_request. split.
  - intros H. apply bind_Ok in H as (lines & Hl & H). apply map_err_Ok in Hl. apply bind_Ok in H as (r & Hr & H).
    apply map_err_Ok in Hr. apply bind_Ok in H as (g & Hg & H). apply ok_or_Ok in Hg.
    apply bind_Ok in H as (_ & Hp%ensure_Ok & [= <- <-]). exists lines. split_and!; try done. lia.
  - intros (lines & -> & Hr & Hg & Hp). cbn. rewrite Hr. cbn. rewrite Hg. cbn. by rewrite (proj2 (Z.ltb_lt _ _) Hp).
Qed.
Lemma reserve_port_kept nodes now m key grant requested r m' :
  reservations_ok nodes m -> reserve_port now m key grant requested = (r, m') -> reservations_ok nodes m'.
Proof. intros H [= _ <-] n l t x [Hx _]%retain_live_lookup. by apply H. Qed.
Lemma inv_lease_asked nodes w se sid task frame now :
  relay_inv nodes w -> w_conns w !! sid = Some se -> se_phase se = Serving -> w_leases w !! task = None ->
  relay_inv nodes (on_lease_asked w se sid task frame now).1.
Proof.
  intros I Hse Hph Hn. unfold on_lease_asked. destruct (lease_request se frame) as [[request grant]|code] eqn:E; [|done].
  apply lease_request_Ok in E as (lines & _ & _ & Hg & Hp).
  destruct (reserve_port _ _ _ _ _) as [r m] eqn:Er. destruct (ri_conn _ _ I _ _ Hse) as [G1 _ _ [Q1 _]].
  assert (Hgr : forall p, p ∈ grant_ports grant -> granted nodes (se_node se) (listener_id request) (transport request) p).
  { intros p Hpp. exists (se_grant se), grant. done. }
  assert (Hput : forall p, permit_held p = 1 -> conns_held p = 0 -> held_port p = None ->
    (forall port, port ∈ phase_ports p -> port ∈ grant_ports grant) ->
    relay_inv nodes (put_lease task (mkLeaseTask sid (listener_id request) (transport request) p)
      (update_conn (add_lease_permits (-1)) sid (with_state (set_reservations (w_state w) m) w)))).
  { intros p Hp1 Hp2 Hp3 Hports.
    refine (inv_change nodes w sid se (add_lease_permits (-1)) task (Some (mkLeaseTask sid (listener_id request) (transport request) p))
      (set_reservations (w_state w) m) I Hse _ _ _ _ _ _ _ _); try (cbn; lia).
    - constructor; [done..|]. eapply reserve_port_kept; [apply I|done].
    - by constructor.
    - congruence.
    - intros l [= <-]. split; [done|]. split; [|by intros t2 l2 q _ _ _; cbn; rewrite Hp3].
      split; [cbn; congruence|]. split; [cbn; eauto|]. cbn. intros port Hport. by apply Hgr, Hports.
    - rewrite Hn. cbn [oweight]. unfold lease_weight. cbn. rewrite Z.eqb_refl. lia.
    - rewrite Hn. cbn [oweight]. unfold tcp_weight. cbn. rewrite Z.eqb_refl. lia. }
  destruct r as [port|code]; cbn [fst]; apply Hput; cbn; try done.
  - intros q Hq. by apply candidate_ports_granted in Hq.
  - by intros q ?%elem_of_nil.
Qed.
Lemma inv_move nodes w task l se p s' :
  relay_inv nodes w -> task_of w task = Some (l, se) -> state_kept nodes (w_state w) s' ->
  phase_ports p ⊆ phase_ports (ls_phase l) -> other_port (w_leases w) task (set_lease_phase l p) ->
  permit_held p = permit_held (ls_phase l) -> conns_held p = conns_held (ls_phase l) ->
  relay_inv nodes (to_phase task l p (with_state s' w)).
Proof.
  intros I Ht S Hp Ho P Q. rewrite <- (update_conn_id (ls_conn l) (with_state s' w)).
  destruct (proj1 (task_of_Some _ _ _ _) Ht) as [_ Hse]. destruct (ri_conn _ _ I _ _ Hse) as [_ _ [P1 _] [Q1 _]].
  eapply (inv_task _ w task l se id p s'); try done; cbn; lia.
Qed.
Lemma bound_already_false w t port task2 l2 :
  bound_already w t port = false -> w_leases w !! task2 = Some l2 -> ls_transport l2 = t -> held_port (ls_phase l2) <> Some port.
Proof.
  unfold bound_already. intros H Hl Ht Hp. rewrite <- not_true_iff_false, existsb_exists in H. apply H. exists (task2, l2).
  split; [by apply list_elem_of_In, elem_of_map_to_list|]. by rewrite !bool_decide_true by done.
Qed.
Lemma inv_bind_tried nodes w task l se candidates bound local :
  relay_inv nodes w -> task_of w task = Some (l, se) -> ls_phase l = Binding candidates ->
  relay_inv nodes (on_bind_tried w task l candidates bound local).1.
Proof.
  intros I Ht Hph. destruct (proj1 (task_of_Some _ _ _ _) Ht) as [Hl _]. pose proof (state_kept_refl _ _ I) as S.
  assert (Hm : forall p, phase_ports p ⊆ candidates -> permit_held p = 1 -> conns_held p = 0 -> held_port p = None ->
    relay_inv nodes (to_phase task l p w)).
  { intros p H1 H2 H3 H4. rewrite <- (with_state_id w) at 1. eapply (inv_move _ w task l se); try done; rewrite ?Hph; try done.
    eapply other_port_same; eauto. }
  destruct candidates as [|port candidates]; cbn [on_bind_tried]; [by apply Hm|].
  destruct (negb bound || bound_already w (ls_transport l) port) eqn:Eb.
  { apply Hm; [|done..]. cbn. intros q Hq. by right. }
  apply orb_false_iff in Eb as [_ Eb].
  assert (Ho : forall p, held_port p = Some port -> other_port (w_leases w) task (set_lease_phase l p)).
  { intros p Hp t2 l2 q Hne H2 Htr Hq. cbn in Hq. rewrite Hp in Hq. injection Hq as <-. by eapply bound_already_false. }
  assert (Hsub : [port] ⊆ port :: candidates) by (intros q Hq%list_elem_of_singleton; subst; by left).
  destruct local; cbn [negb fst].
  - eapply (inv_move _ w task l se); try done; rewrite ?Hph; try done; [|by apply Ho]. constructor; [done..|]. apply I.
  - rewrite <- (with_state_id w) at 1. eapply (inv_move _ w task l se); try done; rewrite ?Hph; try done. by apply Ho.
Qed.
Lemma inv_aborted nodes w task l se now w' :
  relay_inv nodes w -> task_of w task = Some (l, se) -> on_aborted w task l se now = Some w' -> relay_inv nodes w'.
Proof.
  intros I Ht. unfold on_aborted. pose proof (state_kept_refl _ _ I) as S.
  assert (Hend : permit_held (ls_phase l) = 1 -> conns_held (ls_phase l) = 0 ->
    relay_inv nodes (end_lease task (update_conn (add_lease_permits 1) (ls_conn l) w))).
  { intros P Q. rewrite <- (with_state_id w) at 1. eapply (inv_end _ w task l se); try done; cbn; lia. }
  destruct (ls_phase l) as [| | |id port conns| |] eqn:Hph; try done; try (intros [= <-]; by apply Hend).
  intros [= <-]. eapply (inv_end _ w task l se (fun se => add_tcp_permits (Z.of_nat conns) (add_lease_permits 1 se))); [done|done| | |..].
  - eapply (remember_kept _ w task l se now port); [done|done|]. rewrite Hph. by left.
  - by constructor.
  - rewrite Hph. done.
  - rewrite Hph. done.
Qed.

(** *** Flows *)

Lemma inv_flows nodes w sid se t :
  relay_inv nodes w -> w_conns w !! sid = Some se -> tables_ok (ng_max_udp_flows (se_grant se)) t ->
  relay_inv nodes (update_conn (set_flows t) sid w).
Proof. intros I Hse Ht. eapply inv_session; [done..| |done|done]. by constructor. Qed.
Lemma inv_udp_received nodes w task l se id port client payload now draws max_size w' out :
  relay_inv nodes w -> task_of w task = Some (l, se) ->
  on_udp_received w l se id port client payload now draws max_size = Some (w', out) -> relay_inv nodes w'.
Proof.
  intros I [_ Hse]%task_of_Some. unfold on_udp_received.
  destruct (uplink_flow _ _ _ _ _ _ _ _ _) as [[flow t]|] eqn:E; cbn; [|done]. intros [= <- <-].
  apply (inv_flows _ _ _ se); try done. destruct (ri_conn _ _ I _ _ Hse) as [_ Ht _ _].
  by apply (uplink_flow_spec _ _ _ _ _ _ _ _ _ _ _ Ht) in E as [E _].
Qed.
Lemma inv_node_datagram nodes w sid se bytes now sent :
  relay_inv nodes w -> w_conns w !! sid = Some se -> relay_inv nodes (on_node_datagram w sid se bytes now sent).1.
Proof.
  intros I Hse. unfold on_node_datagram. destruct (downlink_flow _ _) as [[[[lease id] f] payload]|]; [|done].
  destruct sent; [|done]. apply (inv_flows _ _ _ se); try done. apply tables_alter_ok; [done|]. by apply (ri_conn _ _ I _ _ Hse).
Qed.

(** ** Every step keeps the invariant *)

Ltac task_case H :=
  let l := fresh "l" in let se := fresh "se" in let Ht := fresh "Ht" in
  destruct (task_of _ _) as [[l se]|] eqn:Ht in H; cbn in H; [|done].
(** The permits of a task's session are not negative. *)
Ltac permits I Ht :=
  let P := fresh "P" in let Q := fresh "Q" in
  pose proof (so_leases _ _ _ _ (ri_conn _ _ I _ _ (proj2 (proj1 (task_of_Some _ _ _ _) Ht)))) as [P _];
  pose proof (so_tcp _ _ _ _ (ri_conn _ _ I _ _ (proj2 (proj1 (task_of_Some _ _ _ _) Ht)))) as [Q _].
Ltac fst_of H := apply (f_equal fst) in H; cbn [fst] in H; rewrite <- H.
Ltac conn_case H :=
  let se := fresh "se" in let Hse := fresh "Hse" in
  destruct (w_conns _ !! _) as [se|] eqn:Hse in H; cbn in H; [|done].

(** A task of a lease stays on its port. *)
Lemma inv_stay nodes w task l se f p :
  relay_inv nodes w -> task_of w task = Some (l, se) -> session_kept se (f se) ->
  phase_ports p ⊆ phase_ports (ls_phase l) -> (held_port p = None \/ held_port p = held_port (ls_phase l)) ->
  0 <= se_lease_permits (f se) -> se_lease_permits (f se) + permit_held p = se_lease_permits se + permit_held (ls_phase l) ->
  0 <= se_tcp_permits (f se) -> se_tcp_permits (f se) + conns_held p = se_tcp_permits se + conns_held (ls_phase l) ->
  relay_inv nodes (to_phase task l p (update_conn f (ls_conn l) w)).
Proof.
  intros I Ht K H1 H2 P1 P2 Q1 Q2. rewrite <- (with_state_id w) at 1.
  apply (inv_task _ w task l se); try done; [by apply state_kept_refl|]. eapply other_port_same; [done|by apply task_of_Some in Ht as [? _]|done].
Qed.
Lemma relay_step_inv nodes w e w' out :
  (forall n g, nodes !! n = Some g -> node_ok g) ->
  relay_inv nodes w -> relay_step w e = Some (w', out) -> relay_inv nodes w'.
Proof.
  intros Hok I H. pose proof (state_kept_refl _ _ I) as S. destruct e; cbn [relay_step] in H.
  - destruct (bool_decide (is_Some (w_conns w !! sid))) eqn:E; [done|]. injection H as H.
    apply bool_decide_eq_false, eq_None_not_Some in E. fst_of H. unfold on_connected. clear H.
    destruct (admission (w_state w) frame) as [[request grant]|code] eqn:Ea; [|done].
    destruct (proj1 (admission_Ok _ _ _ _) Ea) as (_ & _ & _ & _ & _ & Hs).
    destruct random as [id|]; [destruct (reply_encode _)|]; cbn [fst].
    + by eapply inv_connect.
    + by rewrite deregister_new, with_state_id.
    + by rewrite deregister_new, with_state_id.
  - conn_case H. destruct (bool_decide (se_phase se = Acking)) eqn:E; cbn in H; [|done]. apply bool_decide_eq_true in E.
    destruct written; injection H as <- _; [eapply inv_session; try done; by constructor|]. apply inv_disconnect; [done..|].
    intros t l Hl Hc. destruct (ri_lease _ _ I _ _ Hl) as (x & Hx & L & _). congruence.
  - conn_case H. destruct (bool_decide (se_phase se = Serving)) eqn:E; cbn in H; [|done].
    destruct (bool_decide (is_Some (w_leases w !! task))) eqn:Et; [done|]. injection H as H. bools.
    apply eq_None_not_Some in Et. fst_of H. by apply inv_lease_asked.
  - task_case H. destruct (ls_phase l) eqn:Hph; try done. injection H as <- _. rewrite <- (with_state_id w) at 1.
    eapply (inv_end _ w task l se); try done; rewrite Hph; cbn; lia.
  - task_case H. destruct (ls_phase l) eqn:Hph; try done. injection H as H. fst_of H. by eapply inv_bind_tried.
  - task_case H. destruct (ls_phase l) eqn:Hph; try done. destruct written; injection H as <- _; rewrite <- (with_state_id w) at 1.
    + eapply (inv_move _ w task l se); try done; rewrite ?Hph; try done. eapply other_port_same; [done|by apply task_of_Some in Ht as [? _]|].
      rewrite Hph. by right.
    + eapply (inv_end _ w task l se); try done; rewrite Hph; cbn; lia.
  - task_case H. destruct (ls_phase l) as [| | |id port conns| |] eqn:Hph; try done. destruct (ls_transport l); try done.
    injection H as <- _. unfold on_tcp_accepted. destruct (0 <? se_tcp_permits se) eqn:Ep; [|done]. permits I Ht.
    eapply (inv_stay _ w task l se (add_tcp_permits (-1))); try done; rewrite ?Hph; cbn; try done; auto; lia.
  - task_case H. destruct (ls_phase l) as [| | |id port [|conns]| |] eqn:Hph; try done. injection H as <- _. permits I Ht.
    eapply (inv_stay _ w task l se (add_tcp_permits 1)); try done; rewrite ?Hph; cbn; try done; auto; lia.
  - task_case H. destruct (ls_phase l) as [| | |id port conns| |] eqn:Hph; try done. destruct (ls_transport l); try done.
    by eapply inv_udp_received.
  - conn_case H. destruct (bool_decide (se_phase se = Acking)); [done|]. injection H as H. fst_of H. by apply inv_node_datagram.
  - conn_case H. destruct (_ || _); [done|]. injection H as <- _. by eapply inv_session.
  - conn_case H. destruct (se_expired se) as [|key keys] eqn:Ex; [done|]. injection H as <- _. eapply inv_session; try done.
    constructor; try done. cbn. by apply tables_remove_ok.
  - task_case H. destruct (ls_phase l) as [| | |id port conns| |] eqn:Hph; try done. injection H as <- _. permits I Ht.
    eapply (inv_stay _ w task l se); try done; rewrite ?Hph; cbn; try done; auto; lia.
  - task_case H. destruct (ls_phase l) as [| | | |id port [|key keys]|] eqn:Hph; try done; injection H as <- _; permits I Ht.
    + eapply (inv_stay _ w task l se); try done; rewrite ?Hph; cbn; try done; auto; lia.
    + eapply (inv_stay _ w task l se); try done; rewrite ?Hph; cbn; try done; auto; try lia.
      constructor; try done. cbn. by apply tables_remove_ok.
  - task_case H. destruct (ls_phase l) as [| | | | |port] eqn:Hph; try done. injection H as <- _.
    rewrite <- (update_conn_id (ls_conn l) (remember _ _ _ _ _)).
    eapply (inv_end _ w task l se id); try done; [|rewrite Hph; cbn; lia..].
    eapply (remember_kept _ w task l se now port); [done|done|]. rewrite Hph. by left.
  - conn_case H. destruct (bool_decide (se_phase se = Serving)) eqn:E; cbn in H; [|done]. injection H as <- _.
    by eapply inv_session.
  - task_case H. destruct (bool_decide (se_phase se = Draining)); cbn in H; [|done].
    destruct (on_aborted _ _ _ _ _) as [w1|] eqn:Ea; cbn in H; [|done]. injection H as <- _. by eapply inv_aborted.
  - conn_case H. destruct (negb _ || _) eqn:E; [done|]. injection H as <- _. apply orb_false_iff in E as [_ E].
    apply inv_disconnect; [done..|]. intros t l Hl Hc. rewrite <- not_true_iff_false, existsb_exists in E. apply E. exists (t, l).
    split; [by apply list_elem_of_In, elem_of_map_to_list|lia].
Qed.
Lemma relay_run_inv nodes w es w' outs :
  (forall n g, nodes !! n = Some g -> node_ok g) ->
  relay_inv nodes w -> relay_run w es = Some (w', outs) -> relay_inv nodes w'.
Proof.
  intros Hok. revert w outs; induction es as [|e es IH]; intros w outs I H; cbn in H; [by injection H as <- _|].
  destruct (relay_step w e) as [[w1 out]|] eqn:E; cbn in H; [|done].
  destruct (relay_run w1 es) as [[w2 outs2]|] eqn:E2; cbn in H; [|done]. injection H as <- _.
  eapply IH; [|done]. by eapply relay_step_inv.
Qed.
Lemma relay_new_inv c : relay_inv (rl_nodes c) (relay_new c).
Proof.
  constructor; cbn; [done| | | | |].
  - intros n sid. rewrite lookup_empty. split; [done|]. intros (se & H & _). by rewrite lookup_empty in H.
  - intros sid se H. by rewrite lookup_empty in H.
  - intros t l H. by rewrite lookup_empty in H.
  - intros n l t r H. cbn in H. by rewrite lookup_empty in H.
  - intros t1 l1 t2 l2 p H. by rewrite lookup_empty in H.
Qed.

(** ** Where sessions and flows come from *)

(** An uplink datagram opened the flow: the lease it arrived on was open. *)
Definition uplink_event (w : Relay) (e : Event) (sid : Z) (key : Z * list Z) (f : RelayFlow) : Prop :=
  exists task payload now draws max_size l se n,
    e = UdpReceived task (fl_client_addr f) payload now draws max_size /\ task_of w task = Some (l, se) /\
    ls_conn l = sid /\ ls_phase l = Open key.1 (fl_socket f) n /\ ls_transport l = Udp.
Definition same_flow (f f' : RelayFlow) : Prop := fl_client_addr f' = fl_client_addr f /\ fl_socket f' = fl_socket f.
Definition flows_from (w : Relay) (e : Event) (sid : Z) (t t' : FlowTables) : Prop :=
  forall key f', by_id t' !! key = Some f' -> (exists f, by_id t !! key = Some f /\ same_flow f f') \/ uplink_event w e sid key f'.
Record session_from (w : Relay) (e : Event) (sid : Z) (se se' : Session) : Prop := {
  sf_node : se_node se' = se_node se;
  sf_grant : se_grant se' = se_grant se;
  sf_flows : flows_from w e sid (se_flows se) (se_flows se')
}.
Lemma flows_from_refl w e sid t : flows_from w e sid t t.
Proof. intros key f Hf. left. by exists f. Qed.
Lemma session_from_same w e sid se se' :
  se_node se' = se_node se -> se_grant se' = se_grant se -> se_flows se' = se_flows se -> session_from w e sid se se'.
Proof. intros H1 H2 H3. constructor; [done..|]. rewrite H3. apply flows_from_refl. Qed.
Lemma session_from_remove w e sid se se' key :
  se_node se' = se_node se -> se_grant se' = se_grant se -> se_flows se' = remove_flow key (se_flows se) ->
  session_from w e sid se se'.
Proof.
  intros H1 H2 H3. constructor; [done..|]. rewrite H3. intros k f Hf. left. exists f. split; [|done]. unfold remove_flow in Hf.
  destruct (by_id (se_flows se) !! key); cbn in Hf; [by apply lookup_delete_Some in Hf as [_ Hf]|done].
Qed.
Lemma alter_session (f : Session -> Session) i (m : gmap Z Session) sid se' :
  alter f i m !! sid = Some se' -> exists se, m !! sid = Some se /\ (se' = se \/ (i = sid /\ se' = f se)).
Proof.
  destruct (decide (i = sid)) as [->|Hne]; [|rewrite lookup_alter_ne by done; eauto].
  rewrite lookup_alter_eq. intros (se & H & ->)%fmap_Some. eauto.
Qed.
(** A session of the next state is new, or comes from one of this state. *)
Definition session_origin (w : Relay) (e : Event) (sid : Z) (se' : Session) : Prop :=
  (exists frame random request grant id, e = Connected sid frame random /\
     admission (w_state w) frame = Ok (request, grant) /\ se' = new_session request grant id) \/
  (exists se, w_conns w !! sid = Some se /\ session_from w e sid se se').

Ltac world_of H := apply (f_equal fst) in H; cbn [fst] in H; subst.
Ltac old_session H :=
  let se0 := fresh "se0" in let H0 := fresh "H0" in
  apply alter_session in H as (se0 & H0 & [->|[? ->]]); right; exists se0;
    (split; [exact H0|try by apply session_from_same]).
Lemma on_lease_asked_conns w se sid task frame now i se' :
  w_conns (on_lease_asked w se sid task frame now).1 !! i = Some se' ->
  exists se0, w_conns w !! i = Some se0 /\ (se' = se0 \/ (sid = i /\ se' = add_lease_permits (-1) se0)).
Proof.
  unfold on_lease_asked. destruct (lease_request se frame) as [[r g]|]; [|by eauto].
  destruct (reserve_port _ _ _ _ _) as [[p|code] m]; cbn; apply alter_session.
Qed.
Lemma on_bind_tried_conns w task l cs bound local : w_conns (on_bind_tried w task l cs bound local).1 = w_conns w.
Proof. unfold on_bind_tried. destruct cs as [|p cs]; [done|]. by destruct (negb bound || _), local. Qed.
Lemma udp_received_from nodes w task l se id port n client payload now draws max_size w' out i se' :
  relay_inv nodes w -> task_of w task = Some (l, se) -> ls_phase l = Open id port n -> ls_transport l = Udp ->
  on_udp_received w l se id port client payload now draws max_size = Some (w', out) -> w_conns w' !! i = Some se' ->
  session_origin w (UdpReceived task client payload now draws max_size) i se'.
Proof.
  intros I Ht Hph Htr H Hse'. destruct (proj1 (task_of_Some _ _ _ _) Ht) as [_ Hse]. unfold on_udp_received in H.
  destruct (uplink_flow _ _ _ _ _ _ _ _ _) as [[flow t]|] eqn:E; cbn in H; [|done]. injection H as <- _.
  destruct (ri_conn _ _ I _ _ Hse) as [_ Htab _ _]. apply (uplink_flow_spec _ _ _ _ _ _ _ _ _ _ _ Htab) in E as (_ & E1 & E2).
  old_session Hse'. subst i. assert (se0 = se) as -> by congruence. constructor; [done..|]. intros key f Hf. cbn in Hf.
  destruct flow as [fid|]; [|left; rewrite (E1 eq_refl) in Hf; by exists f].
  destruct (E2 fid eq_refl) as [_ E3]. destruct (E3 key f Hf) as [(-> & <- & [[<- _]|(f0 & Hf0 & ? & ?)])|Hold].
  - right. by exists task, payload, now, draws, max_size, l, se, n.
  - left. by exists f0.
  - left. by exists f.
Qed.
Lemma relay_step_sessions nodes w e w' out sid se' :
  relay_inv nodes w -> relay_step w e = Some (w', out) -> w_conns w' !! sid = Some se' -> session_origin w e sid se'.
Proof.
  intros I H Hs. assert (Hsame : forall i, w_conns w !! i = Some se' -> i = sid -> session_origin w e sid se').
  { intros i Hi ->. right. exists se'. split; [done|]. by apply session_from_same. }
  destruct e; cbn [relay_step] in H.
  - destruct (bool_decide _); [done|]. injection H as H. unfold on_connected in H.
    destruct (admission (w_state w) frame) as [[request grant]|code] eqn:Ea; [|injection H as <- _; eauto].
    destruct random as [id|]; [destruct (reply_encode _)|]; injection H as <- _; cbn in Hs; eauto.
    apply lookup_insert_Some in Hs as [[<- <-]|[_ Hs]]; [left|by eauto]. by exists frame, (Some id), request, grant, id.
  - conn_case H. destruct (bool_decide _); cbn in H; [|done]. destruct written; injection H as <- _; cbn in Hs; [by old_session Hs|].
    apply lookup_delete_Some in Hs as [_ Hs]. eauto.
  - conn_case H. destruct (_ || _); [done|]. injection H as H. world_of H. apply on_lease_asked_conns in Hs as (x & Hx & [->|[<- ->]]); [eauto|].
    right. exists x. split; [done|]. by apply session_from_same.
  - task_case H. destruct (ls_phase l); try done. injection H as <- _. by old_session Hs.
  - task_case H. destruct (ls_phase l); try done. injection H as H. world_of H. rewrite on_bind_tried_conns in Hs. eauto.
  - task_case H. destruct (ls_phase l); try done. destruct written; injection H as <- _; cbn in Hs; [eauto|by old_session Hs].
  - task_case H. destruct (ls_phase l); try done. destruct (ls_transport l); try done.
    injection H as <- _. unfold on_tcp_accepted in Hs. destruct (0 <? se_tcp_permits se); [by old_session Hs|eauto].
  - task_case H. destruct (ls_phase l) as [| | |? ? [|]| |]; try done. injection H as <- _. by old_session Hs.
  - task_case H. destruct (ls_phase l) as [| | |id port n| |] eqn:Hph; try done. destruct (ls_transport l) eqn:Htr; try done.
    by eapply udp_received_from.
  - conn_case H. destruct (bool_decide _); [done|]. injection H as H. world_of H. unfold on_node_datagram in Hs.
    destruct (downlink_flow _ _) as [[[[lease id] f] p]|]; [|eauto]. destruct sent; [|eauto].
    old_session Hs. assert (se0 = se) as -> by congruence. constructor; [done..|]. intros key f' Hf. cbn in Hf. left.
    destruct (decide ((lease, id) = key)) as [<-|Hne]; [|rewrite lookup_alter_ne in Hf by done; by exists f'].
    rewrite lookup_alter_eq in Hf. apply fmap_Some in Hf as (f0 & Hf0 & ->). by exists f0.
  - conn_case H. destruct (_ || _); [done|]. injection H as <- _. by old_session Hs.
  - conn_case H. destruct (se_expired se) as [|key keys]; [done|]. injection H as <- _. old_session Hs. by apply (session_from_remove _ _ _ _ _ key).
  - task_case H. destruct (ls_phase l); try done. injection H as <- _. by old_session Hs.
  - task_case H. destruct (ls_phase l) as [| | | |? ? [|key keys]|]; try done; injection H as <- _; old_session Hs.
    by apply (session_from_remove _ _ _ _ _ key).
  - task_case H. destruct (ls_phase l); try done. injection H as <- _. eauto.
  - conn_case H. destruct (negb _); [done|]. injection H as <- _. by old_session Hs.
  - task_case H. destruct (negb _); [done|]. destruct (on_aborted _ _ _ _ _) as [w1|] eqn:Ea; cbn in H; [|done]. injection H as <- _.
    unfold on_aborted in Ea. destruct (ls_phase l); try done; injection Ea as <-; by old_session Hs.
  - conn_case H. destruct (_ || _); [done|]. injection H as <- _. cbn in Hs. apply lookup_delete_Some in Hs as [_ Hs]. eauto.
Qed.

(** ** Runs *)

Lemma relay_run_app w es1 es2 w2 outs :
  relay_run w (es1 ++ es2) = Some (w2, outs) <->
  exists w1 outs1 outs2, relay_run w es1 = Some (w1, outs1) /\ relay_run w1 es2 = Some (w2, outs2) /\ outs = outs1 ++ outs2.
Proof.
  revert w w2 outs; induction es1 as [|e es1 IH]; intros w w2 outs; cbn [relay_run app].
  { split; [intros H; by exists w, [], outs|]. by intros (w1 & o1 & o2 & [= <- <-] & H & ->). }
  destruct (relay_step w e) as [[w' out]|]; cbn; [|split; [done|by intros (? & ? & ? & ? & _)]]. split.
  - destruct (relay_run w' (es1 ++ es2)) as [[w3 outs3]|] eqn:E; cbn; [|done]. intros [= <- <-].
    apply IH in E as (w1 & o1 & o2 & E1 & E2 & ->). exists w1, (out ++ o1), o2. rewrite E1. cbn. by rewrite app_assoc.
  - intros (w1 & o1 & o2 & H1 & H2 & ->). destruct (relay_run w' es1) as [[x y]|] eqn:Ex; [|done].
    cbn in H1. injection H1 as <- <-. assert (relay_run w' (es1 ++ es2) = Some (w2, y ++ o2)) as -> by (apply IH; eauto 10).
    cbn. by rewrite app_assoc.
Qed.
Lemma relay_run_snoc w es e w2 outs :
  relay_run w (es ++ [e]) = Some (w2, outs) ->
  exists w1 outs1 out, relay_run w es = Some (w1, outs1) /\ relay_step w1 e = Some (w2, out) /\ outs = outs1 ++ out.
Proof.
  intros (w1 & o1 & o2 & H1 & H2 & ->)%relay_run_app. cbn in H2. destruct (relay_step w1 e) as [[w' out]|] eqn:E; cbn in H2; [|done].
  injection H2 as <- <-. exists w1, o1, out. by rewrite app_nil_r.
Qed.

Section Reachable.
Context (c : RelayConfig) (Hc : relay_ok c).

(** The relay can be in state [w] after the events [es]. *)
Definition reaches (es : list Event) (w : Relay) : Prop := exists outs, relay_run (relay_new c) es = Some (w, outs).
Lemma reaches_ind (P : list Event -> Relay -> Prop) :
  P [] (relay_new c) ->
  (forall es w e w' out, reaches es w -> relay_inv (rl_nodes c) w -> P es w -> relay_step w e = Some (w', out) -> P (es ++ [e]) w') ->
  forall es w, reaches es w -> relay_inv (rl_nodes c) w /\ P es w.
Proof.
  intros H0 Hstep. induction es as [|e es IH] using rev_ind; intros w [outs H].
  { cbn in H. injection H as <- _. split; [apply relay_new_inv|done]. }
  apply relay_run_snoc in H as (w1 & o1 & out & H1 & H2 & ->). assert (Hr : reaches es w1) by by exists o1.
  destruct (IH w1 Hr) as [I HP]. split; [|by eapply Hstep]. eapply relay_step_inv; [|done..]. intros n g Hn. by destruct (ro_node c Hc n g Hn).
Qed.

(** A registration with a token of the node opened the session. *)
Definition registered (es : list Event) (sid : Z) (se : Session) : Prop :=
  exists lines random request, Connected sid (Ok lines) random ∈ es /\ register_parse lines = Ok request /\
    node_id request = se_node se /\ token request ∈ ng_tokens (se_grant se) /\ rl_nodes c !! se_node se = Some (se_grant se).
Lemma reaches_registered es w :
  reaches es w -> relay_inv (rl_nodes c) w /\ forall sid se, w_conns w !! sid = Some se -> registered es sid se.
Proof.
  apply (reaches_ind (fun es w => forall sid se, w_conns w !! sid = Some se -> registered es sid se));
    [intros sid se H; cbn in H; by rewrite lookup_empty in H|].
  intros es' w1 e w2 out _ I IH Hstep sid se Hse.
  destruct (relay_step_sessions _ _ _ _ _ _ _ I Hstep Hse) as [(frame & random & request & grant & id & -> & Ha & ->)|(se0 & H0 & [S1 S2 _])].
  - apply admission_Ok in Ha as (lines & -> & Hp & Hg & Ht & _). rewrite (ri_nodes _ _ I) in Hg. exists lines, random, request.
    split_and!; try done. apply elem_of_app. right. by left.
  - destruct (IH sid se0 H0) as (lines & random & request & Hin & Hrest). rewrite <- S1, <- S2 in Hrest.
    exists lines, random, request. split; [|done]. apply elem_of_app. by left.
Qed.
(** Every flow was opened by a datagram that arrived on an open UDP lease. *)
Definition opened (es : list Event) (sid : Z) (key : Z * list Z) (f : RelayFlow) : Prop :=
  exists es1 e es2 w, es = es1 ++ e :: es2 /\ reaches es1 w /\ uplink_event w e sid key f.
Lemma reaches_opened es w :
  reaches es w -> relay_inv (rl_nodes c) w /\
  forall sid se key f, w_conns w !! sid = Some se -> by_id (se_flows se) !! key = Some f -> opened es sid key f.
Proof.
  apply (reaches_ind (fun es w => forall sid se key f, w_conns w !! sid = Some se -> by_id (se_flows se) !! key = Some f -> opened es sid key f));
    [intros sid se key f H; cbn in H; by rewrite lookup_empty in H|].
  intros es' w1 e w2 out Hr I IH Hstep sid se key f Hse Hf.
  destruct (relay_step_sessions _ _ _ _ _ _ _ I Hstep Hse) as [(frame & random & request & grant & id & -> & Ha & ->)|(se0 & H0 & [_ _ S3])].
  - cbn in Hf. by rewrite lookup_empty in Hf.
  - destruct (S3 key f Hf) as [(f0 & Hf0 & Hc0 & Hs0)|Hup]; [|by exists es', e, [], w1].
    destruct (IH sid se0 key f0 H0 Hf0) as (es1 & e1 & es2 & w0 & -> & Hr1 & Hup). exists es1, e1, (es2 ++ [e]), w0.
    rewrite <- app_assoc. split; [done|]. split; [done|]. unfold uplink_event in *. by rewrite Hc0, Hs0.
Qed.
End Reachable.

(** ** Reservations *)

(** A live reservation of the port number for the other transport. *)
Definition reserved_across (now : Z) (m : Reservations) (t : Transport) (port : Z) : Prop :=
  exists n l t' r, m !! (n, l, t') = Some r /\ now < rv_expires_at r /\ t' <> t /\ rv_port r = port.
Lemma taken_across nodes now m n l t port :
  disjoint_grants nodes -> reservations_ok nodes m -> granted nodes n l t port ->
  taken_by_other (retain_live now m) (n, l, t) port = true <-> reserved_across now m t port.
Proof.
  intros Hd Hm Hg. rewrite taken_by_other_spec. unfold reserved_across. split.
  - intros ([[n' l'] t'] & r & [Hr Hlive]%retain_live_lookup & Hne & <-). exists n', l', t', r. split_and!; try done.
    intros ->. apply Hm in Hr. destruct (Hd _ _ _ _ _ _ Hr Hg) as [-> ->]. done.
  - intros (n' & l' & t' & r & Hr & Hlive & Hne & <-). exists (n', l', t'), r. rewrite retain_live_lookup. split_and!; try done. congruence.
Qed.
Lemma find_first {A} (f : A -> bool) l :
  match List.find f l with
  | Some x => exists before after, l = before ++ x :: after /\ f x = true /\ Forall (fun y => f y = false) before
  | None => Forall (fun y => f y = false) l
  end.
Proof.
  induction l as [|a l IH]; cbn; [done|]. destruct (f a) eqn:E; [by exists [], l|].
  destruct (List.find f l) as [x|]; [|by constructor]. destruct IH as (b & d & -> & Hx & Hb). exists (a :: b), d. split; [done|]. split; [done|]. by constructor.
Qed.
(** [reserve_port] on every branch: a fixed port is given exactly when it is
    granted and not reserved under the other transport; otherwise a listener gets
    its reserved port back, or the first granted port that is not so reserved. *)
Theorem reserve_port_exact nodes now m n l t grant requested r m' :
  disjoint_grants nodes -> reservations_ok nodes m ->
  (forall p, p ∈ grant_ports grant -> granted nodes n l t p) ->
  reserve_port now m (n, l, t) grant requested = (r, m') ->
  (requested <> 0 ->
     (r = Ok requested /\ requested ∈ grant_ports grant /\ ~ reserved_across now m t requested) \/
     (r = Err FORBIDDEN /\ (requested ∉ grant_ports grant \/ reserved_across now m t requested))) /\
  (requested = 0 ->
     match retain_live now m !! (n, l, t) with
     | Some x => r = Ok (rv_port x)
     | None =>
         (exists before port after, grant_ports grant = before ++ port :: after /\ r = Ok port /\
            ~ reserved_across now m t port /\ Forall (reserved_across now m t) before) \/
         (r = Err PORT_UNAVAILABLE /\ Forall (reserved_across now m t) (grant_ports grant))
     end).
Proof.
  intros Hd Hm Hg [= <- _]. split; intros Hq.
  - rewrite (proj2 (Z.eqb_neq _ _) Hq). cbn [negb]. destruct (port_allowed grant requested) eqn:Ea; cbn [negb orb].
    + apply port_allowed_spec in Ea. pose proof (taken_across nodes now m n l t requested Hd Hm (Hg _ Ea)) as Ht.
      destruct (taken_by_other _ _ _); [right|left]; split; try done; [by right; apply Ht|]. split; [done|]. intros H%Ht. done.
    + right. split; [done|]. left. intros H%port_allowed_spec. congruence.
  - subst. cbn [negb Z.eqb]. destruct (retain_live now m !! (n, l, t)) as [x|]; [done|].
    pose proof (find_first (fun port => negb (taken_by_other (retain_live now m) (n, l, t) port)) (grant_ports grant)) as Hf.
    assert (Hall : forall ps, ps ⊆ grant_ports grant ->
      Forall (fun p => negb (taken_by_other (retain_live now m) (n, l, t) p) = false) ps -> Forall (reserved_across now m t) ps).
    { intros ps Hs. rewrite !Forall_forall. intros H p Hp. apply (taken_across nodes now m n l t p Hd Hm); [by apply Hg, Hs|].
      by apply negb_false_iff, H. }
    destruct (List.find _ _) as [p|]; [left|right].
    + destruct Hf as (b & a & E & Hp & Hb). exists b, p, a. split; [done|]. split; [done|]. split.
      * intros H%(taken_across nodes now m n l t p Hd Hm); [by rewrite H in Hp|]. apply Hg. rewrite E. apply elem_of_app. right. by left.
      * apply Hall; [|done]. rewrite E. intros q Hin. apply elem_of_app. by left.
    + split; [done|]. by apply Hall.
Qed.

(** Only a datagram of the node makes the relay write to a client. *)
Definition quiet (out : list Output) : Prop := Forall (fun x => match x with ToClient _ _ _ => False | _ => True end) out.
Lemma quiet_nil : quiet [].
Proof. constructor. Qed.
Lemma step_quiet w e w' out :
  relay_step w e = Some (w', out) -> match e with NodeDatagram _ _ _ _ => True | _ => quiet out end.
Proof.
  intros H. destruct e; cbn [relay_step] in H; try done.
  - destruct (bool_decide _); [done|]. injection H as H. unfold on_connected in H.
    destruct (admission _ _) as [[r g]|]; [destruct random; [destruct (reply_encode _)|]|]; injection H as _ <-; by repeat constructor.
  - conn_case H. destruct (negb _); [done|]. destruct written; injection H as _ <-; by repeat constructor.
  - conn_case H. destruct (_ || _); [done|]. injection H as H. unfold on_lease_asked in H.
    destruct (lease_request _ _) as [[r g]|]; [destruct (reserve_port _ _ _ _ _) as [[p|code] m]|]; injection H as _ <-; by repeat constructor.
  - task_case H. destruct (ls_phase l); try done. injection H as _ <-. by repeat constructor.
  - task_case H. destruct (ls_phase l); try done. injection H as H. unfold on_bind_tried in H.
    destruct candidates; [|destruct (negb bound || _), local]; injection H as _ <-; by repeat constructor.
  - task_case H. destruct (ls_phase l); try done. destruct written; injection H as _ <-; by repeat constructor.
  - task_case H. destruct (ls_phase l); try done. destruct (ls_transport l); try done. injection H as _ <-. by repeat constructor.
  - task_case H. destruct (ls_phase l) as [| | |? ? [|]| |]; try done. injection H as _ <-. by repeat constructor.
  - task_case H. destruct (ls_phase l); try done. destruct (ls_transport l); try done. unfold on_udp_received in H.
    destruct (uplink_flow _ _ _ _ _ _ _ _ _) as [[[fid|] t]|]; cbn in H; [|injection H as _ <-; by repeat constructor|done].
    destruct (uplink_datagram _ _ _ _ _); injection H as _ <-; by repeat constructor.
  - conn_case H. destruct (_ || _); [done|]. injection H as _ <-. by repeat constructor.
  - conn_case H. destruct (se_expired se); [done|]. injection H as _ <-. by repeat constructor.
  - task_case H. destruct (ls_phase l); try done. injection H as _ <-. by repeat constructor.
  - task_case H. destruct (ls_phase l) as [| | | |? ? [|]|]; try done; injection H as _ <-; by repeat constructor.
  - task_case H. destruct (ls_phase l); try done. injection H as _ <-. by repeat constructor.
  - conn_case H. destruct (negb _); [done|]. injection H as _ <-. by repeat constructor.
  - task_case H. destruct (negb _); [done|]. destruct (on_aborted _ _ _ _ _); cbn in H; [|done]. injection H as _ <-. by repeat constructor.
  - conn_case H. destruct (_ || _); [done|]. injection H as _ <-. by repeat constructor.
Qed.
Lemma step_to_client w e w' out port client payload :
  relay_step w e = Some (w', out) -> ToClient port client payload ∈ out ->
  exists sid bytes now se lease flow f, e = NodeDatagram sid bytes now true /\ w_conns w !! sid = Some se /\
    datagram_parse bytes = Ok (Downlink lease flow payload) /\ by_id (se_flows se) !! (lease, flow) = Some f /\
    fl_socket f = port /\ fl_client_addr f = client.
Proof.
  intros H Hin. pose proof (step_quiet _ _ _ _ H) as Hq.
  assert (Hno : quiet out -> False) by (unfold quiet; rewrite Forall_forall; intros Hall; exact (Hall _ Hin)).
  destruct e; try (by exfalso; apply Hno). cbn [relay_step] in H. conn_case H.
  destruct (bool_decide _); [done|]. injection H as H. unfold on_node_datagram, downlink_flow in H.
  destruct (datagram_parse bytes) as [[|lease flow p]|] eqn:Ed; try (injection H as _ <-; by apply elem_of_nil in Hin).
  destruct (by_id (se_flows se) !! (lease, flow)) as [f|] eqn:Ef; [|injection H as _ <-; by apply elem_of_nil in Hin].
  destruct sent; injection H as _ <-; [|by apply elem_of_nil in Hin]. apply list_elem_of_singleton in Hin as [= -> -> ->].
  by exists sid, bytes, now, se, lease, flow, f.
Qed.

(** ** The guarantees *)

(** A lease task of the node's session has the port of the listener bound. *)
Definition holds_port (w : Relay) (task : Z) (node listener : str) (t : Transport) (port : Z) : Prop :=
  exists l se, task_of w task = Some (l, se) /\ se_node se = node /\ ls_listener l = listener /\ ls_transport l = t /\
    held_port (ls_phase l) = Some port.
(** What the tasks of a session use of its limits. *)
Definition leases_of (w : Relay) (sid : Z) : Z := msum (lease_weight sid) (w_leases w).
Definition connections_of (w : Relay) (sid : Z) : Z := msum (tcp_weight sid) (w_leases w).

(** C13: in every reachable state of the relay, whatever the interleaving of its
    tasks: a node has at most one session, opened by a registration carrying one
    of its tokens; a session never uses more leases, public connections or UDP
    flows than its grant allows; every public port that is bound was granted to
    that listener of that node; and no two lease tasks have the same port of a
    transport. *)
Theorem relay_safe (c : RelayConfig) (es : list Event) (w : Relay) (outs : list Output) :
  relay_ok c -> relay_run (relay_new c) es = Some (w, outs) ->
  (forall sid se, w_conns w !! sid = Some se ->
     registered c es sid se /\ (forall sid' se', w_conns w !! sid' = Some se' -> se_node se' = se_node se -> sid' = sid) /\
     0 <= leases_of w sid <= ng_max_leases (se_grant se) /\
     0 <= connections_of w sid <= ng_max_tcp_connections (se_grant se) /\
     Z.of_nat (size (by_id (se_flows se))) <= ng_max_udp_flows (se_grant se)) /\
  (forall task node listener t port, holds_port w task node listener t port -> granted (rl_nodes c) node listener t port) /\
  (forall task1 node1 listener1 task2 node2 listener2 t port,
     holds_port w task1 node1 listener1 t port -> holds_port w task2 node2 listener2 t port -> task1 = task2).
Proof.
  intros Hc H. destruct (reaches_registered c Hc es w) as [I Hreg]; [by exists outs|]. split_and!.
  - intros sid se Hse. destruct (ri_conn _ _ I _ _ Hse) as [_ [_ _ Hf] [P1 P2] [Q1 Q2]]. split; [by apply Hreg|]. split.
    { intros sid' se' Hse' E. assert (rs_sessions (w_state w) !! se_node se = Some sid') as H1 by (apply (ri_sessions _ _ I); eauto).
      assert (rs_sessions (w_state w) !! se_node se = Some sid) as H2 by (apply (ri_sessions _ _ I); eauto). congruence. }
    assert (0 <= leases_of w sid /\ 0 <= connections_of w sid) as [? ?].
    { split; apply msum_nonneg; intros l; unfold lease_weight, tcp_weight; destruct (_ =? _); try done; destruct (ls_phase l); cbn; lia. }
    unfold leases_of, connections_of in *. split_and!; try done; lia.
  - intros task node listener t port (l & se & [Hl Hse]%task_of_Some & <- & <- & <- & Hp).
    destruct (ri_lease _ _ I _ _ Hl) as (se' & E & _ & _ & L). assert (se' = se) as -> by congruence. apply L.
    destruct (ls_phase l) as [[q|]| | | | |]; cbn in *; try done; injection Hp as <-; by left.
  - intros t1 n1 l1 t2 n2 l2 t port (x1 & s1 & [H1 _]%task_of_Some & _ & _ & E1 & P1) (x2 & s2 & [H2 _]%task_of_Some & _ & _ & E2 & P2).
    eapply (ri_ports _ _ I); [done|done|congruence|done|done].
Qed.

(** The relay never sends a datagram to an address that did not write first:
    whatever a node sends, a payload goes to a client only when the flow the
    node names was opened by a datagram of that client on a UDP lease of the
    node's session, it leaves from the port of that lease, which is granted to
    the node, and it is the payload of the node's datagram. *)
Theorem relay_no_unsolicited (c : RelayConfig) (es : list Event) (w : Relay) (e : Event) (w' : Relay) (out : list Output)
    (port : Z) (client : SocketAddr) (payload : list Z) :
  relay_ok c -> reaches c es w -> relay_step w e = Some (w', out) -> ToClient port client payload ∈ out ->
  exists sid bytes now lease flow, e = NodeDatagram sid bytes now true /\ datagram_parse bytes = Ok (Downlink lease flow payload) /\
    exists es1 es2 w1 task first now1 draws max_size l se n,
      es = es1 ++ UdpReceived task client first now1 draws max_size :: es2 /\ reaches c es1 w1 /\
      task_of w1 task = Some (l, se) /\ ls_conn l = sid /\ ls_phase l = Open lease port n /\ ls_transport l = Udp /\
      granted (rl_nodes c) (se_node se) (ls_listener l) Udp port.
Proof.
  intros Hc Hr Hstep Hin. destruct (reaches_opened c Hc es w Hr) as [I Hop].
  destruct (step_to_client _ _ _ _ _ _ _ Hstep Hin) as (sid & bytes & now & se & lease & flow & f & -> & Hse & Hp & Hf & <- & <-).
  destruct (Hop sid se (lease, flow) f Hse Hf) as (es1 & e1 & es2 & w1 & -> & Hr1 & Hup).
  destruct Hup as (task & first & now1 & draws & max_size & l & se1 & n & -> & Ht & Hsid & Hph & Htr).
  exists sid, bytes, now, lease, flow. split; [done|]. split; [done|]. exists es1, es2, w1, task, first, now1, draws, max_size, l, se1, n.
  split_and!; try done. destruct (reaches_registered c Hc es1 w1 Hr1) as [I1 _]. apply task_of_Some in Ht as [Hl Hse1].
  destruct (ri_lease _ _ I1 _ _ Hl) as (x & Hx & _ & _ & L). assert (x = se1) as -> by congruence. rewrite <- Htr. apply L. rewrite Hph. by left.
Qed.

(** ** A concrete run *)

Module RelayDemo.
Definition file : RelayFile :=
  mkRelayFile (lit "relay-1") (lit "0.0.0.0:4433") (lit "0.0.0.0") (lit "c.pem") (lit "k.pem") None 64 30
    [mkNodeFile (lit "edge") (lit "secret") [] [] [] 1 2 2
       [mkListenerFile (lit "dns") (lit "udp") [lit "53"]; mkListenerFile (lit "dns-tcp") (lit "tcp") [lit "53"]]].
Definition config : RelayConfig :=
  match relay_compile (fun _ => None) file with
  | Ok c => c
  | Err _ => mkRelay [] (SockV4 0 0) (V4 0) [] [] None 0 0 ∅
  end.
Definition client : SocketAddr := SockV4 167772161 5353.
Definition flow : list Z := repeat 7 16.
Definition lease (transport listener port : string) : result IoError (list str) :=
  Ok [lit "LEASE"; lit "listener-id: " ++ lit listener; lit "transport: " ++ lit transport; lit "public-port: " ++ lit port].
(** An edge registers, leases its UDP port and answers a client. *)
Definition serving : list Event :=
  [Connected 1 (Ok [lit "REGISTER rove-ingress/1"; lit "node-id: edge"; lit "token: secret"]) (Some (repeat 1 16));
   Acked 1 true; LeaseAsked 1 10 (lease "udp" "dns" "0") 0; BindTried 10 true true; LeaseWritten 10 true;
   UdpReceived 10 client [1; 2] 5 [Some flow] None].
Definition answer : Event := NodeDatagram 1 (datagram_encode (Downlink 1 flow [9])) 6 true.
(** It gives the lease back and asks for the TCP port of the same number. *)
Definition released : list Event :=
  [LeaseEnded 10; LeaseCleans 10; LeaseCleans 10; LeaseReleased 10 100; LeaseAsked 1 11 (lease "tcp" "dns-tcp" "53") 200].
Definition state (es : list Event) : Relay := match relay_run (relay_new config) es with Some (w, _) => w | None => relay_new config end.
Definition outputs (es : list Event) : list Output := match relay_run (relay_new config) es with Some (_, outs) => outs | None => [] end.

Lemma config_ok : relay_ok config.
Proof. apply (relay_compile_ok (fun _ => None) file). vm_compute. reflexivity. Qed.
Lemma run_serving : relay_run (relay_new config) serving = Some (state serving, outputs serving).
Proof. vm_compute. reflexivity. Qed.
Lemma step_answer : relay_step (state serving) answer = Some (state (serving ++ [answer]), [ToClient 53 client [9]]).
Proof. vm_compute. reflexivity. Qed.
(** The TCP port is free and granted, but the reservation of the UDP port of the
    same number refuses it while the grace lasts. *)
Example reservation_ignores_transport :
  outputs (serving ++ released) =
  [RegisterReplied 1 (register_reply (w_state (state [])) (repeat 1 16)); LeaseReplied 10 (lease_reply 1 53);
   ToNode 1 (datagram_encode (Uplink 1 flow client [1; 2])); LeaseReplied 11 (ReplyErr FORBIDDEN)].
Proof. vm_compute. reflexivity. Qed.
End RelayDemo.
Import RelayDemo.

Lemma relay_safe_witness :
  relay_run (relay_new config) serving = Some (state serving, outputs serving) /\
  forall task node listener t port, holds_port (state serving) task node listener t port -> granted (rl_nodes config) node listener t port.
Proof. split; [apply run_serving|]. apply (relay_safe config serving (state serving) (outputs serving)); [apply config_ok|apply run_serving]. Defined.
Lemma relay_no_unsolicited_witness :
  relay_step (state serving) answer = Some (state (serving ++ [answer]), [ToClient 53 client [9]]) /\
  exists sid bytes now lease flow, answer = NodeDatagram sid bytes now true /\ datagram_parse bytes = Ok (Downlink lease flow [9]).
Proof.
  split; [apply step_answer|].
  destruct (relay_no_unsolicited config serving (state serving) answer (state (serving ++ [answer])) [ToClient 53 client [9]]
    53 client [9] config_ok (ex_intro _ _ run_serving) step_answer ltac:(by left)) as (sid & bytes & now & l & f & H1 & H2 & _).
  by exists sid, bytes, now, l, f.
Defined.
