(* ===== verification/ReverseFrame.v ===== *)
(** * ReverseFrame: the `rove-reverse/1` wire framing (src/reverse/frame.rs)

    Registration, tunnel, associate and dissociate requests, replies, and the
    binary UDP datagrams between an edge and its reverse hops. Requests are
    header blocks read byte by byte; the encoders do not validate their fields,
    and the theorems say for which fields a request is read back as itself. *)

From Stdlib Require Import ZArith Lia String.
From stdpp Require Import prelude strings list.
From S2P Require Import Prelude RustStr Net NetProps Util RustFmt Frame.

Definition PROTOCOL_VERSION : str := lit "rove-reverse/1".
Definition MAX_FRAME_BYTES : nat := 4096.

Inductive FrameError := Malformed (what : string) | UnsupportedVersion.

(** ** Headers *)

Fixpoint parse_headers (lines : list str) : list (str * str) :=
  match lines with
  | [] => []
  | line :: lines =>
      match split_once colon line with
      | Some (name, value) => (to_ascii_lowercase (trim name), trim value) :: parse_headers lines
      | None => parse_headers lines
      end
  end.
Fixpoint header (headers : list (str * str)) (name : str) : option str :=
  match headers with
  | [] => None
  | (k, v) :: headers => if str_eqb k name then Some v else header headers name
  end.
(** [.filter(|v| !v.is_empty())] *)
Definition nonempty (o : option str) : option str :=
  match o with Some v => if is_empty v then None else Some v | None => None end.
(** [out.push_str] of an optional header line *)
Definition optional_line (name : str) (v : option str) : str :=
  match v with Some v => header_line name v ++ [nl] | None => [] end.

(** ** Requests *)

Record RegisterRequest := mkRegister { hop_id : str; token : str; edge_id : option str; caps : list str }.
Definition supports_udp (r : RegisterRequest) : bool := existsb (str_eqb (lit "udp")) (caps r).
Definition register_encode (r : RegisterRequest) : list Z :=
  lit "REGISTER " ++ PROTOCOL_VERSION ++ [nl]
  ++ header_line (lit "hop-id") (hop_id r) ++ [nl]
  ++ header_line (lit "token") (token r) ++ [nl]
  ++ optional_line (lit "edge-id") (edge_id r)
  ++ (if is_empty (caps r) then [] else header_line (lit "caps") (join [44] (caps r)) ++ [nl])
  ++ [nl].
Definition parse_caps (v : str) : list str :=
  filter (fun c => c <> []) (map (fun c => to_ascii_lowercase (trim c)) (split 44 v)).
Definition register_parse (lines : list str) : result FrameError RegisterRequest :=
  first ← ok_or (head lines) (Malformed "empty register frame");
  version ← ok_or (strip_prefix (lit "REGISTER ") first) (Malformed "expected REGISTER verb");
  if negb (str_eqb (trim version) PROTOCOL_VERSION) then Err UnsupportedVersion
  else
    let headers := parse_headers (drop 1 lines) in
    hop_id ← ok_or (nonempty (header headers (lit "hop-id"))) (Malformed "missing hop-id");
    token ← ok_or (header headers (lit "token")) (Malformed "missing token");
    let edge_id := nonempty (header headers (lit "edge-id")) in
    let caps := match header headers (lit "caps") with Some v => parse_caps v | None => [] end in
    Ok (mkRegister hop_id token edge_id caps).

Record TunnelRequest := mkTunnel { host : str; port : Z; tunnel_id : option str }.
Definition tunnel_encode (r : TunnelRequest) : list Z :=
  lit "CONNECT " ++ host r ++ [32] ++ fmt_dec (port r) ++ [nl]
  ++ optional_line (lit "tunnel-id") (tunnel_id r) ++ [nl].
Definition tunnel_parse (lines : list str) : result FrameError TunnelRequest :=
  first ← ok_or (head lines) (Malformed "empty tunnel frame");
  rest ← ok_or (strip_prefix (lit "CONNECT ") first) (Malformed "expected CONNECT verb");
  let parts := split_whitespace rest in
  host ← ok_or (parts !! 0%nat) (Malformed "missing target host");
  port ← ok_or (parts !! 1%nat) (Malformed "missing target port");
  _ ← ensure (bool_decide (parts !! 2%nat = None)) (Malformed "trailing CONNECT tokens");
  port ← ok_or (from_str_radix 10 16 port) (Malformed "target port not a u16");
  _ ← ensure (negb (is_empty host || (255 <? length host)%nat)) (Malformed "target host length out of range");
  let headers := parse_headers (drop 1 lines) in
  Ok (mkTunnel host port (nonempty (header headers (lit "tunnel-id")))).

Record AssociateRequest := mkAssociate { session_id : Z; assoc_id : option str }.
Definition associate_encode (r : AssociateRequest) : list Z :=
  lit "ASSOCIATE " ++ fmt_dec (session_id r) ++ [nl] ++ optional_line (lit "assoc-id") (assoc_id r) ++ [nl].
Definition associate_parse (lines : list str) : result FrameError AssociateRequest :=
  first ← ok_or (head lines) (Malformed "empty associate frame");
  rest ← ok_or (strip_prefix (lit "ASSOCIATE ") first) (Malformed "expected ASSOCIATE verb");
  session_id ← ok_or (from_str_radix 10 32 (trim rest)) (Malformed "associate session id not a u32");
  let headers := parse_headers (drop 1 lines) in
  Ok (mkAssociate session_id (nonempty (header headers (lit "assoc-id")))).

Record DissociateRequest := mkDissociate { dissociate_session : Z }.
Definition dissociate_encode (r : DissociateRequest) : list Z :=
  lit "DISSOCIATE " ++ fmt_dec (dissociate_session r) ++ [nl; nl].
Definition dissociate_parse (lines : list str) : result FrameError DissociateRequest :=
  first ← ok_or (head lines) (Malformed "empty dissociate frame");
  rest ← ok_or (strip_prefix (lit "DISSOCIATE ") first) (Malformed "expected DISSOCIATE verb");
  session_id ← ok_or (from_str_radix 10 32 (trim rest)) (Malformed "dissociate session id not a u32");
  Ok (mkDissociate session_id).

Inductive Reply := ReplyOk | ReplyErr (code : str).
Definition reply_encode (r : Reply) : list Z :=
  match r with
  | ReplyOk => lit "OK" ++ [nl; nl]
  | ReplyErr code => lit "ERR " ++ code ++ [nl; nl]
  end.
Definition reply_parse (lines : list str) : result FrameError Reply :=
  let first := trim (default [] (head lines)) in
  if str_eqb first (lit "OK") then Ok ReplyOk
  else if str_eqb first (lit "ERR") then Ok (ReplyErr [])
  else match strip_prefix (lit "ERR ") first with
       | Some code => Ok (ReplyErr (trim code))
       | None => Err (Malformed "expected OK or ERR reply")
       end.

(** ** UDP datagrams *)

Definition ATYP_V4 : Z := 1.
Definition ATYP_DOMAIN : Z := 3.
Definition ATYP_V6 : Z := 4.
Record Datagram := mkDatagram { d_session : Z; d_host : str; d_port : Z; d_payload : list Z }.

Definition encode_datagram (session : Z) (host : str) (port : Z) (payload : list Z) : option (list Z) :=
  addr ← match parse_ip_addr host with
         | Some (V4 a) => Some (ATYP_V4 :: to_be_bytes 4 a)
         | Some (V6 a) => Some (ATYP_V6 :: to_be_bytes 16 a)
         | None => if (255 <? length host)%nat then None
                   else Some (ATYP_DOMAIN :: Z.of_nat (length host) :: host)
         end;
  Some (to_be_bytes 4 session ++ addr ++ to_be_bytes 2 port ++ payload).

(** The host of the datagram and the offset after it *)
Definition parse_datagram_host (buf : list Z) (atyp : Z) (off : nat) : result FrameError (str * nat) :=
  if atyp =? ATYP_V4 then
    _ ← ensure (off + 4 <=? length buf)%nat (Malformed "datagram truncated ipv4");
    Ok (display_v4 (from_be_bytes (take 4 (drop off buf))), (off + 4)%nat)
  else if atyp =? ATYP_V6 then
    _ ← ensure (off + 16 <=? length buf)%nat (Malformed "datagram truncated ipv6");
    Ok (display_v6 (from_be_bytes (take 16 (drop off buf))), (off + 16)%nat)
  else if atyp =? ATYP_DOMAIN then
    len ← ok_or (buf !! off) (Malformed "datagram missing domain len");
    let len := Z.to_nat len in
    let off := (off + 1)%nat in
    _ ← ensure (negb (len =? 0)%nat) (Malformed "datagram empty domain");
    _ ← ensure (off + len <=? length buf)%nat (Malformed "datagram truncated domain");
    Ok (from_utf8_lossy (take len (drop off buf)), (off + len)%nat)
  else Err (Malformed "datagram bad atyp").
Definition parse_datagram (buf : list Z) : result FrameError Datagram :=
  _ ← ensure (5 <=? length buf)%nat (Malformed "datagram too short for header");
  let session_id := from_be_bytes (take 4 buf) in
  let atyp := nth 4 buf 0 in
  '(host, off) ← parse_datagram_host buf atyp 5;
  _ ← ensure (off + 2 <=? length buf)%nat (Malformed "datagram truncated port");
  let port := from_be_bytes (take 2 (drop off buf)) in
  Ok (mkDatagram session_id host port (drop (off + 2) buf)).

(** ** Frames on a stream *)

(** The pops of trailing empty lines *)
Fixpoint pop_empty (rev_lines : list str) : list str :=
  match rev_lines with
  | [] :: ls => pop_empty ls
  | ls => ls
  end.
Definition split_lines (buf : list Z) : list str :=
  let lines := map (fun l => default l (strip_suffix [cr] l)) (split nl (from_utf8_lossy buf)) in
  rev (pop_empty (rev lines)).
Definition read_frame (r : Reader.t) : option (result IoError (list str) * Reader.t) :=
  match frame_loop (ends_with [nl; nl]) MAX_FRAME_BYTES (S MAX_FRAME_BYTES) r [] with
  | None => None
  | Some (Err e, r) => Some (Err e, r)
  | Some (Ok buf, r) => Some (Ok (split_lines buf), r)
  end.

(** * What the reverse-hop framing carries faithfully

    Requests and replies whose fields are single-line, blank-free texts are read
    back as themselves from any fragmentation of the stream; datagrams carry
    their session, target and payload, an address target in canonical form. A
    target host with white space is not carried faithfully. *)

(** ** Blocks *)

Lemma strip_suffix_cr l : cr ∉ l -> default l (strip_suffix [cr] l) = l.
Proof.
  intros H. unfold strip_suffix. destruct (ends_with [cr] l) eqn:E; [|done].
  apply ends_with_spec in E as [q ->]. rewrite not_elem_of_app, list_elem_of_singleton in H. by destruct H as [_ []].
Qed.
Lemma split_lines_block lines : lines <> [] -> Forall line_ok lines -> Forall (fun l => utf8_valid l = true) lines ->
  split_lines (block lines) = lines.
Proof.
  intros Hne Hl Hu. unfold split_lines. rewrite from_utf8_lossy_valid by (by apply block_utf8).
  unfold block. change [nl; nl] with ([nl] ++ [nl] ++ []). rewrite split_app, block_split by done.
  change (split nl ([nl] ++ [])) with [@nil Z; []].
  assert (map (fun l => default l (strip_suffix [cr] l)) (lines ++ [[]; []]) = lines ++ [[]; []]) as ->.
  { rewrite <- (map_id (lines ++ _)) at 2. apply map_ext_in. intros l Hin. apply list_elem_of_In in Hin.
    apply strip_suffix_cr. apply elem_of_app in Hin as [Hin|Hin].
    - rewrite Forall_forall in Hl. by destruct (Hl l Hin) as (_ & _ & ?).
    - repeat (apply elem_of_cons in Hin as [->|Hin]; [apply not_elem_of_nil|]). by apply elem_of_nil in Hin. }
  rewrite rev_app_distr. simpl. destruct (exists_last Hne) as (ls & l & ->). rewrite rev_app_distr. simpl.
  apply Forall_app in Hl as [_ Hl]. apply Forall_cons in Hl as [(Hn & _) _]. destruct l; [done|].
  rewrite <- (rev_involutive ls) at 2. simpl. by rewrite rev_involutive.
Qed.
Lemma rev_read_frame_total r : is_Some (read_frame r).
Proof.
  unfold read_frame.
  destruct (frame_loop_total (ends_with [nl; nl]) MAX_FRAME_BYTES (S MAX_FRAME_BYTES) r []) as [[[b|e] r'] ->];
    [cbn [length]; lia|cbn [length]; lia|eauto|eauto].
Qed.
Lemma rev_read_frame_block lines payload r :
  lines <> [] -> Forall line_ok lines -> Forall (fun l => utf8_valid l = true) lines ->
  (length (block lines) <= MAX_FRAME_BYTES)%nat ->
  Reader.no_error r = true -> Reader.bytes r = block lines ++ payload ->
  exists r', read_frame r = Some (Ok lines, r') /\ Reader.no_error r' = true /\ Reader.bytes r' = payload.
Proof.
  intros Hne Hl Hu Hlen Hr Hb. unfold read_frame.
  destruct (frame_loop_exact (ends_with [nl; nl]) MAX_FRAME_BYTES (S MAX_FRAME_BYTES) r [] (block lines) payload)
    as (r' & -> & Hr' & Hb'); try done.
  - unfold block. by destruct (join [nl] lines).
  - apply block_ends.
  - intros u v E _ Hv. by apply (block_first_blank lines u v).
  - lia.
  - exists r'. cbn [app]. by rewrite split_lines_block.
Qed.

(** ** Fields and headers *)

(** A single-line text without surrounding blanks *)
Definition line_field (v : str) : Prop := nl ∉ v /\ cr ∉ v /\ utf8_valid v = true /\ trim v = v.
Definition name_ok (n : str) : Prop := line_ok n /\ utf8_valid n = true /\ to_ascii_lowercase (trim n) = n /\ colon ∉ n.
Ltac name := cbn [fst snd]; split; [split_and!; [done|in_list|in_list]|split_and!; [done|done|in_list]].

Definition kvs_ok (kvs : list (str * str)) : Prop := Forall (fun kv => name_ok (fst kv) /\ line_field (snd kv)) kvs.
Lemma rev_parse_headers_block kvs : kvs_ok kvs -> parse_headers (header_lines kvs) = kvs.
Proof.
  intros H. induction H as [|[n v] kvs [(_ & _ & Hl & Hc) (_ & _ & _ & Ht)] _ IH]; [done|].
  cbn [header_lines map fst snd parse_headers] in *. rewrite split_header by done. rewrite trim_space, Hl, Ht.
  f_equal. exact IH.
Qed.
(** An optional header of a block *)
Definition opt_header (n : str) (v : option str) : list (str * str) := match v with Some v => [(n, v)] | None => [] end.
Lemma opt_header_ok n v : name_ok n -> (forall x, v = Some x -> line_field x) -> kvs_ok (opt_header n v).
Proof. intros Hn Hv. destruct v; constructor; [|done]. split; [done|]. by apply Hv. Qed.
Lemma optional_line_text n v :
  optional_line n v = concat (map (fun l => l ++ [nl]) (header_lines (opt_header n v))).
Proof. destruct v; [|done]. cbn. by rewrite app_nil_r. Qed.
Lemma header_app_l kvs kvs' n : header (kvs ++ kvs') n = match header kvs n with Some v => Some v | None => header kvs' n end.
Proof. induction kvs as [|[k v] kvs IH]; [done|]. cbn [app header]. by destruct (str_eqb k n). Qed.
Lemma header_opt n v : header (opt_header n v) n = v.
Proof. destruct v; [|done]. cbn. by rewrite str_eqb_refl. Qed.
Lemma header_opt_ne n n' v : str_eqb n n' = false -> header (opt_header n v) n' = None.
Proof. intros H. destruct v; [|done]. cbn. by rewrite H. Qed.
Lemma nonempty_id v : (forall x, v = Some x -> x <> []) -> nonempty v = v.
Proof. intros H. destruct v as [[|b x]|]; [|done..]. by destruct (H []). Qed.

(** ** Messages *)

Inductive Message :=
| MRegister (r : RegisterRequest)
| MTunnel (r : TunnelRequest)
| MAssociate (r : AssociateRequest)
| MDissociate (r : DissociateRequest)
| MReply (r : Reply).
Definition opt_ok (v : option str) : Prop := match v with Some v => line_field v /\ v <> [] | None => True end.
Definition cap_ok (c : str) : Prop :=
  Forall graphic c /\ c <> [] /\ to_ascii_lowercase c = c /\ 44 ∉ c.
Definition message_ok (m : Message) : Prop :=
  match m with
  | MRegister r => line_field (hop_id r) /\ hop_id r <> [] /\ line_field (token r) /\ opt_ok (edge_id r) /\ Forall cap_ok (caps r)
  | MTunnel r => (1 <= length (host r) <= 255)%nat /\ no_ws (host r) = true /\ utf8_valid (host r) = true /\
                 fits 16 (port r) /\ opt_ok (tunnel_id r)
  | MAssociate r => fits 32 (session_id r) /\ opt_ok (assoc_id r)
  | MDissociate r => fits 32 (dissociate_session r)
  | MReply ReplyOk => True
  | MReply (ReplyErr code) => line_field code
  end.
Definition message_encode (m : Message) : list Z :=
  match m with
  | MRegister r => register_encode r
  | MTunnel r => tunnel_encode r
  | MAssociate r => associate_encode r
  | MDissociate r => dissociate_encode r
  | MReply r => reply_encode r
  end.
Definition decodes (m : Message) (lines : list str) : Prop :=
  match m with
  | MRegister r => register_parse lines = Ok r
  | MTunnel r => tunnel_parse lines = Ok r
  | MAssociate r => associate_parse lines = Ok r
  | MDissociate r => dissociate_parse lines = Ok r
  | MReply r => reply_parse lines = Ok r
  end.
Definition framed (m : Message) : Prop :=
  exists verb kvs, line_ok verb /\ utf8_valid verb = true /\ kvs_ok kvs /\
    message_encode m = block (verb :: header_lines kvs) /\ decodes m (verb :: header_lines kvs).
Lemma opt_ok_field v : opt_ok v -> forall x, v = Some x -> line_field x.
Proof. intros H x ->. apply H. Qed.
Lemma opt_ok_id v : opt_ok v -> nonempty v = v.
Proof. intros H. apply nonempty_id. intros x ->. apply H. Qed.
Hint Resolve opt_ok_field : core.
Lemma graphic_line v : Forall graphic v -> line_field v.
Proof. intros H. destruct (graphic_value v H) as (? & ? & ?). split_and!; try done. by apply trim_graphic. Qed.

Lemma parse_caps_join cs : cs <> [] -> Forall cap_ok cs -> parse_caps (join [44] cs) = cs.
Proof.
  intros Hne H. unfold parse_caps. rewrite split_join; [|done|eapply Forall_impl; [exact H|]; by intros c (_ & _ & _ & ?)].
  clear Hne. induction H as [|c cs (Hg & Hc & Hl & _) _ IH]; [done|]. cbn [map].
  rewrite trim_graphic, Hl by done. rewrite filter_cons_True by done. by rewrite IH.
Qed.
Lemma rev_register_framed r : message_ok (MRegister r) -> framed (MRegister r).
Proof.
  intros (Hh & Nh & Ht & He & Hc).
  set (cv := if is_empty (caps r) then None else Some (join [44] (caps r))).
  set (kvs := [(lit "hop-id", hop_id r); (lit "token", token r)] ++ opt_header (lit "edge-id") (edge_id r) ++ opt_header (lit "caps") cv).
  assert (Forall (Forall graphic) (caps r)) as Hg by (eapply Forall_impl; [exact Hc|]; by intros c (? & _)).
  assert (kvs_ok kvs) as Hk.
  { unfold kvs. apply Forall_app_2; [constructor; [split; [name|exact Hh]|constructor; [split; [name|exact Ht]|done]]|].
    apply Forall_app_2; [apply opt_header_ok; [name|eauto]|].
    apply opt_header_ok; [name|]. intros x E. unfold cv in E. case_match; [done|]. injection E as <-.
    apply graphic_line, join_graphic; [by apply graphic_lit|done]. }
  exists (lit "REGISTER " ++ PROTOCOL_VERSION), kvs.
  split; [split_and!; [done|in_list|in_list]|split_and!; [done|done|..]].
  - rewrite block_lines. unfold message_encode, register_encode, kvs, header_lines. rewrite !map_app, !concat_app.
    fold (header_lines (opt_header (lit "edge-id") (edge_id r))) (header_lines (opt_header (lit "caps") cv)).
    rewrite <- !optional_line_text. cbn [map concat fst snd]. rewrite app_nil_r, <- !app_assoc. unfold cv. by destruct (is_empty (caps r)).
  - unfold decodes, register_parse. cbn [head ok_or mbind result_bind]. rewrite strip_prefix_app.
    cbn [ok_or mbind result_bind drop]. change (negb _) with false. cbn iota. rewrite drop_0, rev_parse_headers_block by done.
    assert (header kvs (lit "edge-id") = edge_id r) as ->.
    { change (header kvs (lit "edge-id")) with (header (opt_header (lit "edge-id") (edge_id r) ++ opt_header (lit "caps") cv) (lit "edge-id")).
      rewrite header_app_l, header_opt, header_opt_ne by done. by destruct (edge_id r). }
    assert (header kvs (lit "caps") = cv) as ->.
    { change (header kvs (lit "caps")) with (header (opt_header (lit "edge-id") (edge_id r) ++ opt_header (lit "caps") cv) (lit "caps")).
      by rewrite header_app_l, header_opt, header_opt_ne. }
    change (header kvs (lit "hop-id")) with (Some (hop_id r)). change (header kvs (lit "token")) with (Some (token r)).
    rewrite (nonempty_id (Some (hop_id r))) by (intros x [= <-]; done). rewrite opt_ok_id by done. cbn [ok_or mbind result_bind].
    assert (match cv with Some v => parse_caps v | None => [] end = caps r) as E.
    { unfold cv. destruct (is_empty (caps r)) eqn:Ec; [by apply is_empty_true in Ec as ->|].
      by apply parse_caps_join; [apply is_empty_false|]. }
    rewrite E. by destruct r.
Qed.

(** A verb line and one optional header *)
Lemma one_header_text verb n v :
  block (verb :: header_lines (opt_header n v)) = verb ++ [nl] ++ optional_line n v ++ [nl].
Proof. by rewrite block_lines, optional_line_text. Qed.
Lemma no_ws_line s : no_ws s = true -> nl ∉ s /\ cr ∉ s.
Proof.
  induction s as [|b s IH]; [intros _; split; apply not_elem_of_nil|]. cbn [no_ws]. destruct (strip_ws (b :: s)) eqn:E; [done|].
  intros [H1 H2]%IH. assert (is_ascii_ws b = false) as Hb.
  { unfold strip_ws in E. by destruct (is_ascii_ws b). }
  rewrite !not_elem_of_cons. split; (split; [|done]); intros <-; done.
Qed.
Lemma tunnel_framed r : message_ok (MTunnel r) -> framed (MTunnel r).
Proof.
  intros ([Hl1 Hl2] & Hw & Hu & Hp & Ht). pose proof Hp as [Hp0 _]. destruct (no_ws_line _ Hw) as [Hn Hr].
  assert (Forall graphic (fmt_dec (port r))) as Hg by (by apply fmt_radix_graphic).
  destruct (graphic_value _ Hg) as (Gn & Gr & Gu).
  assert (kvs_ok (opt_header (lit "tunnel-id") (tunnel_id r))) as Hk by (apply opt_header_ok; [name|eauto]).
  exists (lit "CONNECT " ++ host r ++ [32] ++ fmt_dec (port r)), (opt_header (lit "tunnel-id") (tunnel_id r)).
  split_and!; [split_and!; [done|rewrite !not_elem_of_app; split_and!; [in_list|done|in_list|done]..]| |done|..].
  - by rewrite !utf8_valid_app.
  - rewrite one_header_text. unfold message_encode, tunnel_encode. by rewrite <- !app_assoc.
  - unfold decodes, tunnel_parse. cbn [head ok_or mbind result_bind]. rewrite strip_prefix_app. cbn [ok_or mbind result_bind].
    assert (host r <> []) as Hne by (by intros E; rewrite E in Hl1; simpl in Hl1; lia).
    change ([32] ++ fmt_dec (port r)) with (32 :: fmt_dec (port r)).
    rewrite split_whitespace_two; [|done|by apply fmt_radix_ne|done|by apply no_ws_graphic].
    cbn [lookup list_lookup ok_or mbind result_bind ensure]. rewrite bool_decide_eq_true_2 by done. cbn [ensure mbind result_bind].
    rewrite parse_fmt_dec by done. cbn [ok_or mbind result_bind].
    rewrite (proj2 (is_empty_false _) Hne), (proj2 (Nat.ltb_ge _ _) Hl2). cbn [orb negb ensure mbind result_bind drop].
    rewrite drop_0, rev_parse_headers_block, header_opt, opt_ok_id by done. by destruct r.
Qed.
Lemma session_line verb n : fits 32 n -> line_ok verb -> utf8_valid verb = true ->
  line_ok (verb ++ fmt_dec n) /\ utf8_valid (verb ++ fmt_dec n) = true /\
  from_str_radix 10 32 (trim (fmt_dec n)) = Some n.
Proof.
  intros Hn (H1 & H2 & H3) Hu. assert (Forall graphic (fmt_dec n)) as Hg by (apply fmt_radix_graphic; [lia|apply Hn]).
  destruct (graphic_value _ Hg) as (Gn & Gr & Gu). split_and!; [split_and!|..].
  - by destruct verb.
  - by rewrite not_elem_of_app.
  - by rewrite not_elem_of_app.
  - by rewrite utf8_valid_app.
  - rewrite trim_graphic by done. by apply parse_fmt_dec.
Qed.
Lemma associate_framed r : message_ok (MAssociate r) -> framed (MAssociate r).
Proof.
  intros (Hs & Ha). assert (kvs_ok (opt_header (lit "assoc-id") (assoc_id r))) as Hk by (apply opt_header_ok; [name|eauto]).
  destruct (session_line (lit "ASSOCIATE ") _ Hs) as (H1 & H2 & H3); [split_and!; [done|in_list|in_list]|done|].
  exists (lit "ASSOCIATE " ++ fmt_dec (session_id r)), (opt_header (lit "assoc-id") (assoc_id r)). split_and!; try done; [apply H1..| |].
  - rewrite one_header_text. unfold message_encode, associate_encode. by rewrite <- !app_assoc.
  - unfold decodes, associate_parse. cbn [head ok_or mbind result_bind]. rewrite strip_prefix_app. cbn [ok_or mbind result_bind].
    rewrite H3. cbn [ok_or mbind result_bind drop]. rewrite drop_0, rev_parse_headers_block, header_opt, opt_ok_id by done. by destruct r.
Qed.
Lemma dissociate_framed r : message_ok (MDissociate r) -> framed (MDissociate r).
Proof.
  intros Hs. destruct (session_line (lit "DISSOCIATE ") _ Hs) as (H1 & H2 & H3); [split_and!; [done|in_list|in_list]|done|].
  exists (lit "DISSOCIATE " ++ fmt_dec (dissociate_session r)), []. split_and!; try done; [apply H1..| |].
  - constructor.
  - unfold decodes, dissociate_parse. cbn [head ok_or mbind result_bind]. rewrite strip_prefix_app. cbn [ok_or mbind result_bind].
    rewrite H3. by destruct r.
Qed.

Lemma strip_ws_rev_space u t : u <> [] -> strip_ws_rev u = None -> strip_ws_rev (u ++ 32 :: t) = None.
Proof.
  destruct u as [|a [|b [|c u]]]; [done|..]; intros _ H; unfold strip_ws_rev in *; cbn [app] in *;
    destruct (is_ascii_ws a); try done; repeat case_match; try done;
    exfalso; unfold in_2000_200a_or_202x in *; lia.
Qed.
Lemma trim_end_stop c : trim c = c -> strip_ws_rev (rev c) = None.
Proof. intros H. rewrite <- H. unfold trim. apply trim_end_stuck. Qed.
Lemma trim_err code : trim code = code -> code <> [] -> trim (lit "ERR " ++ code) = lit "ERR " ++ code.
Proof.
  intros Ht Hne. unfold trim, trim_start. rewrite strip_while_none by done. unfold trim_end.
  rewrite strip_while_none; [apply rev_involutive|]. rewrite rev_app_distr.
  change (rev (lit "ERR ")) with (32 :: lit "RRE"). apply strip_ws_rev_space.
  - by intros E%(f_equal (@rev _)); rewrite rev_involutive in E.
  - by apply trim_end_stop.
Qed.
Lemma rev_reply_framed r : message_ok (MReply r) -> framed (MReply r).
Proof.
  destruct r as [|code]; intros Hm.
  - exists (lit "OK"), []. split_and!; [split_and!; [done|in_list|in_list]|done|constructor|done..].
  - destruct Hm as (H1 & H2 & H3 & H4). exists (lit "ERR " ++ code), [].
    split_and!; [split_and!; [done|rewrite not_elem_of_app; split; [in_list|done]..]|by rewrite utf8_valid_app|constructor|..].
    + unfold message_encode, reply_encode, block. cbn [header_lines map join]. by rewrite <- ?app_assoc.
    + unfold decodes, reply_parse. destruct code as [|b code]; [done|].
      change (default [] (head _)) with (lit "ERR " ++ b :: code). rewrite trim_err by done.
      change (str_eqb (lit "ERR " ++ b :: code) (lit "OK")) with false.
      assert (str_eqb (lit "ERR " ++ b :: code) (lit "ERR") = false) as -> by (by apply str_eqb_neq).
      cbv zeta iota. by rewrite strip_prefix_app, H4.
Qed.

(** A message is read back from any stream that starts with it. *)
Lemma message_reads m payload r :
  message_ok m -> (length (message_encode m) <= MAX_FRAME_BYTES)%nat ->
  Reader.no_error r = true -> Reader.bytes r = message_encode m ++ payload ->
  exists lines r', read_frame r = Some (Ok lines, r') /\ decodes m lines /\
    Reader.no_error r' = true /\ Reader.bytes r' = payload.
Proof.
  intros Hm Hs Hr Hb. assert (framed m) as (verb & kvs & Lv & Uv & Hk & E & Hd).
  { destruct m; [by apply rev_register_framed|by apply tunnel_framed|by apply associate_framed|by apply dissociate_framed|by apply rev_reply_framed]. }
  rewrite E in *. destruct (rev_read_frame_block (verb :: header_lines kvs) payload r) as (r' & H1 & H2 & H3); try done.
  - constructor; [done|]. apply Forall_fmap. eapply Forall_impl; [exact Hk|]. intros [n v] [(? & _) (? & ? & _)]. by apply header_line_ok.
  - constructor; [done|]. apply Forall_fmap. eapply Forall_impl; [exact Hk|].
    intros [n v] [(_ & ? & _) (_ & _ & ? & _)]. by apply header_line_utf8.
  - eauto 10.
Qed.
(** Every reverse-hop request and reply with single-line, blank-free fields
    (and, for a tunnel, a target host without white space) that fits the frame
    cap is read back as itself from every fragmentation of the stream, and the
    tunnel bytes that follow the frame stay in the stream. *)
Theorem reverse_message_roundtrip m payload r :
  message_ok m -> (length (message_encode m) <= MAX_FRAME_BYTES)%nat ->
  Reader.no_error r = true -> Reader.bytes r = message_encode m ++ payload ->
  exists lines r', read_frame r = Some (Ok lines, r') /\ decodes m lines /\
    Reader.no_error r' = true /\ Reader.bytes r' = payload.
Proof. apply message_reads. Qed.
Definition demo_tunnel : Message := MTunnel (mkTunnel (lit "db.internal") 5432 (Some (lit "edge-1-7"))).
Lemma reverse_message_roundtrip_witness :
  let r := [Ok (take 10 (message_encode demo_tunnel)); Ok (drop 10 (message_encode demo_tunnel) ++ lit "raw")] in
  exists lines r', read_frame r = Some (Ok lines, r') /\ decodes demo_tunnel lines /\
    Reader.no_error r' = true /\ Reader.bytes r' = lit "raw".
Proof.
  cbv zeta. apply (reverse_message_roundtrip demo_tunnel); [|apply Nat.leb_le; vm_compute; reflexivity|vm_compute; reflexivity..].
  apply (bool_decide_unpack _). vm_compute. exact I.
Defined.

(** The host is written into the frame unchecked: a host that carries a line
    break (a SOCKS5 domain may) makes the hop connect to another target than the
    one the request names. *)
Lemma tunnel_target_injection :
  let request := mkTunnel (lit "victim.example 22" ++ [nl] ++ lit "x: ") 443 None in
  tunnel_parse (split_lines (tunnel_encode request)) = Ok (mkTunnel (lit "victim.example") 22 None).
Proof. vm_compute. reflexivity. Qed.

(** ** Datagrams *)

(** The host a datagram delivers: an address in canonical spelling *)
Definition canonical_host (h : str) : str := match parse_ip_addr h with Some a => display_ip a | None => h end.
Lemma canonical_host_same h : parse_ip_addr (canonical_host h) = parse_ip_addr h.
Proof.
  unfold canonical_host. destruct (parse_ip_addr h) as [a|] eqn:E; [|done].
  by apply parse_display_ip, (parse_ip_addr_fits h).
Qed.

(** A datagram of a session, an address type, an address and the rest *)
Lemma parse_datagram_parts s k addr t h :
  fits 32 s ->
  let b := to_be_bytes 4 s ++ (k :: addr) ++ t in
  parse_datagram_host b k 5 = Ok (h, (5 + length addr)%nat) ->
  forall p pl, fits 16 p -> t = to_be_bytes 2 p ++ pl -> parse_datagram b = Ok (mkDatagram s h p pl).
Proof.
  intros Hs b Hh p pl Hp ->. pose proof (length_to_be_bytes 4 s) as L4. pose proof (length_to_be_bytes 2 p) as L2.
  assert (length b = 5 + length addr + (2 + length pl))%nat as Lb.
  { unfold b. rewrite !length_app. cbn [length]. lia. }
  assert (drop (5 + length addr) b = to_be_bytes 2 p ++ pl) as Ed.
  { unfold b. rewrite (app_assoc (to_be_bytes 4 s)). apply drop_app_len. rewrite length_app, L4. cbn [length]. lia. }
  unfold parse_datagram. rewrite (proj2 (Nat.leb_le 5 _)) by lia. cbn [ensure mbind result_bind].
  assert (take 4 b = to_be_bytes 4 s) as -> by (by apply take_app_len).
  assert (nth 4 b 0 = k) as ->.
  { unfold b. rewrite app_nth2 by lia. by rewrite L4. }
  rewrite Hh. cbn [mbind result_bind]. rewrite (proj2 (Nat.leb_le _ _)) by lia. cbn [ensure mbind result_bind].
  rewrite Ed, (take_app_len _ _ 2) by done. rewrite <- drop_drop, Ed, (drop_app_len _ _ 2) by done.
  by rewrite !from_to_be_bytes.
Qed.
Lemma datagram_addr_bytes s k addr t : let b := to_be_bytes 4 s ++ (k :: addr) ++ t in
  drop 5 b = addr ++ t /\ length b = (5 + length addr + length t)%nat.
Proof.
  pose proof (length_to_be_bytes 4 s) as L4. split.
  - change 5%nat with (4 + 1)%nat. rewrite <- drop_drop, (drop_app_len _ _ 4) by done. done.
  - rewrite !length_app. cbn [length]. lia.
Qed.

(** A UDP datagram carries its session, port and payload exactly and its
    target as the same address in canonical spelling, or the same domain name;
    only a domain longer than 255 bytes is refused. *)
Theorem reverse_datagram_roundtrip s h p pl :
  fits 32 s -> fits 16 p -> utf8_valid h = true -> h <> [] ->
  (encode_datagram s h p pl = None <-> parse_ip_addr h = None /\ (255 < length h)%nat) /\
  (forall b, encode_datagram s h p pl = Some b ->
     parse_datagram b = Ok (mkDatagram s (canonical_host h) p pl) /\
     parse_ip_addr (canonical_host h) = parse_ip_addr h).
Proof.
  intros Hs Hp Hu Hne. unfold encode_datagram. split.
  - destruct (parse_ip_addr h) as [[a|a]|]; cbn [mbind option_bind]; [naive_solver..|].
    destruct (Nat.ltb_spec 255 (length h)); cbn [mbind option_bind]; naive_solver lia.
  - intros b Hb. split; [|apply canonical_host_same]. unfold canonical_host.
    destruct (parse_ip_addr h) as [[a|a]|] eqn:Ea; cbn [mbind option_bind] in Hb.
    + apply parse_ip_addr_fits in Ea. injection Hb as <-.
      destruct (datagram_addr_bytes s ATYP_V4 (to_be_bytes 4 a) (to_be_bytes 2 p ++ pl)) as [E L].
      apply (parse_datagram_parts s ATYP_V4 (to_be_bytes 4 a) (to_be_bytes 2 p ++ pl)); [done| |done|done].
      unfold parse_datagram_host. rewrite length_to_be_bytes in *.  rewrite (proj2 (Nat.leb_le _ _)) by lia.
      cbn [ensure mbind result_bind]. rewrite E, (take_app_len _ _ 4) by apply length_to_be_bytes. by rewrite from_to_be_bytes.
    + apply parse_ip_addr_fits in Ea. injection Hb as <-.
      destruct (datagram_addr_bytes s ATYP_V6 (to_be_bytes 16 a) (to_be_bytes 2 p ++ pl)) as [E L].
      apply (parse_datagram_parts s ATYP_V6 (to_be_bytes 16 a) (to_be_bytes 2 p ++ pl)); [done| |done|done].
      unfold parse_datagram_host. rewrite (Z.eqb_refl). rewrite (proj2 (Nat.leb_le _ _)) by (rewrite length_to_be_bytes in L; lia).
      cbn [ensure mbind result_bind]. rewrite E, (take_app_len _ _ 16) by apply length_to_be_bytes. by rewrite from_to_be_bytes.
    + destruct (Nat.ltb_spec 255 (length h)) as [|Hl]; [done|]. injection Hb as <-.
      set (addr := Z.of_nat (length h) :: h).
      destruct (datagram_addr_bytes s ATYP_DOMAIN addr (to_be_bytes 2 p ++ pl)) as [E L].
      apply (parse_datagram_parts s ATYP_DOMAIN addr (to_be_bytes 2 p ++ pl)); [done| |done|done].
      unfold parse_datagram_host. change (ATYP_DOMAIN =? ATYP_V4) with false. change (ATYP_DOMAIN =? ATYP_V6) with false.
      change (ATYP_DOMAIN =? ATYP_DOMAIN) with true. cbn iota.
      set (b := to_be_bytes 4 s ++ _) in *. clearbody b. rewrite <- (Nat.add_0_r 5) at 1. rewrite <- lookup_drop, E.
      change ((addr ++ _) !! 0%nat) with (Some (Z.of_nat (length h))). cbn [ok_or mbind result_bind].
      rewrite Nat2Z.id. assert (length addr = S (length h)) as La by done.
      destruct (Nat.eqb_spec (length h) 0) as [E0|]; [by apply nil_length_inv in E0|].
      cbn [negb ensure mbind result_bind]. rewrite (proj2 (Nat.leb_le _ _)) by lia. cbn [ensure mbind result_bind].
      rewrite <- drop_drop, E. change (drop 1 (addr ++ ?t)) with (h ++ t). rewrite take_app_length, from_utf8_lossy_valid by done.
      by rewrite La.
Qed.
Lemma reverse_datagram_roundtrip_witness :
  (encode_datagram 7 (lit "2001:DB8:0::1") 53 [1; 2] = None <->
   parse_ip_addr (lit "2001:DB8:0::1") = None /\ (255 < length (lit "2001:DB8:0::1"))%nat) /\
  (forall b, encode_datagram 7 (lit "2001:DB8:0::1") 53 [1; 2] = Some b ->
     parse_datagram b = Ok (mkDatagram 7 (canonical_host (lit "2001:DB8:0::1")) 53 [1; 2]) /\
     parse_ip_addr (canonical_host (lit "2001:DB8:0::1")) = parse_ip_addr (lit "2001:DB8:0::1")).
Proof. apply (reverse_datagram_roundtrip 7 (lit "2001:DB8:0::1") 53 [1; 2]); done. Defined.
