(* ===== verification/ReverseUdp.v ===== *)
(** * ReverseUdp: the UDP relay of a reverse hop (src/src/reverse/udp.rs)

    On the edge, the table that routes return packets to associations and the
    association handle. On the hop, the associations with their sockets, their
    address filters and resolution caches: [hop_step] is one step of one of the
    hop's tasks (the control streams, the datagram reader, the downlink tasks,
    the sweeper), which interleave freely; the reader is cut where it awaits. *)

From Stdlib Require Import ZArith Lia String.
From stdpp Require Import prelude strings list gmap.
From S2P Require Import Prelude RustStr Net NetProps RustFmt Util Frame ReverseFrame.

Definition UDP_SESSION_IDLE : Z := 60000.
Definition MAX_CONTACTED_PER_SESSION : nat := 512.
Definition RETURN_CHANNEL_CAP : nat := 1024.

(** ** The edge *)

(** [ReturnPacket]: host, port, payload *)
Abbreviation ReturnPacket := (list Z * Z * list Z)%type.
(** [EdgeUdpConn]: the queue of each association, and the counter. *)
Record EdgeUdpConn := mkEdgeUdp { eu_sessions : gmap Z (list (list Z * Z * list Z)); eu_seq : Z }.
Definition EdgeUdpConn_default : EdgeUdpConn := mkEdgeUdp ∅ 0.

(** [next_session_id]; two turns are enough ([next_session_id_total]). *)
Fixpoint next_id_loop (fuel : nat) (seq : Z) : option (Z * Z) :=
  match fuel with
  | O => None
  | S fuel =>
      let next := wrap 32 (seq + 1) in
      if negb (seq =? 0) then Some (seq, next) else next_id_loop fuel next
  end.
Definition next_session_id (e : EdgeUdpConn) : option (Z * EdgeUdpConn) :=
  '(id, seq) ← next_id_loop 2 (eu_seq e);
  Some (id, mkEdgeUdp (eu_sessions e) seq).
(** [register], of [build_relay]'s empty queue, and [remove] *)
Definition register (sid : Z) (e : EdgeUdpConn) : EdgeUdpConn := mkEdgeUdp (<[sid := []]> (eu_sessions e)) (eu_seq e).
Definition remove (sid : Z) (e : EdgeUdpConn) : EdgeUdpConn := mkEdgeUdp (delete sid (eu_sessions e)) (eu_seq e).
(** [route]: [try_send] refuses when the queue is full. *)
Definition route (dg : Datagram) (e : EdgeUdpConn) : EdgeUdpConn :=
  match eu_sessions e !! d_session dg with
  | None => e
  | Some queue =>
      if (length queue <? RETURN_CHANNEL_CAP)%nat
      then mkEdgeUdp (<[d_session dg := queue ++ [(d_host dg, d_port dg, d_payload dg)]]> (eu_sessions e)) (eu_seq e)
      else e
  end.
(** One datagram in [spawn_edge_demux] *)
Definition edge_demux (bytes : list Z) (e : EdgeUdpConn) : EdgeUdpConn :=
  match parse_datagram bytes with Ok dg => route dg e | Err _ => e end.
(** [UdpRelay::recv_from], when a packet is queued *)
Definition relay_recv (sid : Z) (e : EdgeUdpConn) : option (ReturnPacket * EdgeUdpConn) :=
  match eu_sessions e !! sid with
  | Some (packet :: queue) => Some (packet, mkEdgeUdp (<[sid := queue]> (eu_sessions e)) (eu_seq e))
  | _ => None
  end.
Inductive SendDatagramError := TooLarge | OtherSend.
(** [UdpRelay::send_to]: what is handed to the connection, and the result. *)
Definition relay_send (sid : Z) (payload : list Z) (host : str) (port : Z) (max_size : option nat)
    (sent : result SendDatagramError unit) : list (list Z) * result unit unit :=
  match encode_datagram sid host port payload with
  | None => ([], Ok tt)
  | Some bytes =>
      if match max_size with Some max => (max <? length bytes)%nat | None => false end then ([], Ok tt)
      else ([bytes], match sent with Ok _ => Ok tt | Err TooLarge => Ok tt | Err OtherSend => Err tt end)
  end.

(** ** The hop *)

(** [Contacted] *)
Record Contacted := mkContacted { ct_order : list SocketAddr; ct_set : gset SocketAddr }.
Definition Contacted_default : Contacted := mkContacted [] ∅.
Definition contacted_insert (addr : SocketAddr) (c : Contacted) : Contacted :=
  if bool_decide (addr ∈ ct_set c) then c
  else
  let set := {[addr]} ∪ ct_set c in
  let order := ct_order c ++ [addr] in
  if (MAX_CONTACTED_PER_SESSION <? length order)%nat then
    match order with
    | old :: order => mkContacted order (set ∖ {[old]})
    | [] => mkContacted order set
    end
  else mkContacted order set.
Definition contacted_contains (addr : SocketAddr) (c : Contacted) : bool := bool_decide (addr ∈ ct_set c).

(** [HopUdpSession] with its downlink task; [us_sid] is the session the task
    tags its datagrams with, [us_running] whether it runs. *)
Record HopUdpSession := mkUdpSession {
  us_sid : Z; us_contacted : Contacted; us_resolve : gmap (list Z) SocketAddr; us_last_seen : Z; us_running : bool
}.
Definition touch (now : Z) (s : HopUdpSession) : HopUdpSession :=
  mkUdpSession (us_sid s) (us_contacted s) (us_resolve s) now (us_running s).
Definition note (addr : SocketAddr) (s : HopUdpSession) : HopUdpSession :=
  mkUdpSession (us_sid s) (contacted_insert addr (us_contacted s)) (us_resolve s) (us_last_seen s) (us_running s).
Definition cache (key : list Z) (addr : SocketAddr) (s : HopUdpSession) : HopUdpSession :=
  mkUdpSession (us_sid s) (us_contacted s) (<[key := addr]> (us_resolve s)) (us_last_seen s) (us_running s).
Definition halt_task (s : HopUdpSession) : HopUdpSession :=
  mkUdpSession (us_sid s) (us_contacted s) (us_resolve s) (us_last_seen s) false.
(** The cache key [format!("{host}:{port}")] *)
Definition resolve_key (host : str) (port : Z) : list Z := host ++ [colon] ++ fmt_dec port.

(** Where the datagram reader awaits inside [uplink]: the resolver, the
    socket; then it has still to note the destination. *)
Inductive Uplink :=
| Reading
| Resolving (obj : Z) (host : str) (port : Z) (payload : list Z)
| Sending (obj : Z) (addr : SocketAddr) (payload : list Z)
| Noting (obj : Z) (addr : SocketAddr).

(** The hop end of one connection: sessions are shared objects, the table maps
    a session id to its object. *)
Record Hop := mkHop { hp_max : Z; hp_objs : gmap Z HopUdpSession; hp_table : gmap Z Z; hp_uplink : Uplink }.
(** [HopUdpTable::new] *)
Definition HopUdpTable_new (max_sessions : Z) : Hop := mkHop (Z.max max_sessions 1) ∅ ∅ Reading.

Inductive HopEvent :=
| Associated (sid obj now : Z) (bound : bool)
| Removed (sid : Z)
| Swept (now : Z)
| Datagramed (bytes : list Z) (now : Z)
| Resolved (resolver : str -> Z -> option SocketAddr)
| Sent (ok : bool)
| Noted
| Replied (obj : Z) (src : SocketAddr) (data : list Z) (max_size : option nat) (now : Z)
| ReplyFailed (obj : Z)
| TaskStopped (obj : Z).
Inductive HopOutput :=
| ToTarget (obj : Z) (addr : SocketAddr) (payload : list Z)
| ToEdge (obj : Z) (src : SocketAddr) (data bytes : list Z)
| Answered (sid : Z) (ok : bool).

Definition update_obj (f : HopUdpSession -> HopUdpSession) (obj : Z) (h : Hop) : Hop :=
  mkHop (hp_max h) (alter f obj (hp_objs h)) (hp_table h) (hp_uplink h).
Definition set_uplink (u : Uplink) (h : Hop) : Hop := mkHop (hp_max h) (hp_objs h) (hp_table h) u.
Definition set_table (t : gmap Z Z) (h : Hop) : Hop := mkHop (hp_max h) (hp_objs h) t (hp_uplink h).

(** [HopUdpTable::associate]: the object is created, with its task, before the
    table is asked; a refused one is dropped, which aborts the task. *)
Definition associate (h : Hop) (sid obj now : Z) (bound : bool) : Hop * bool :=
  if negb bound then (h, false)
  else
  let session := mkUdpSession sid Contacted_default ∅ now true in
  let objs := <[obj := session]> (hp_objs h) in
  if (hp_max h <=? Z.of_nat (size (hp_table h))) && negb (bool_decide (is_Some (hp_table h !! sid)))
  then (mkHop (hp_max h) objs (hp_table h) (hp_uplink h), false)
  else (mkHop (hp_max h) objs (<[sid := obj]> (hp_table h)) (hp_uplink h), true).
(** [HopUdpTable::remove] *)
Definition hop_remove (sid : Z) (h : Hop) : Hop := set_table (delete sid (hp_table h)) h.
(** [HopUdpSession::idle_for] *)
Definition idle_for (now : Z) (s : HopUdpSession) : Z := Z.max 0 (now - us_last_seen s).
(** [evict_idle] *)
Definition retained (now : Z) (h : Hop) (obj : Z) : bool :=
  match hp_objs h !! obj with Some s => idle_for now s <? UDP_SESSION_IDLE | None => false end.
Definition evict_idle (now : Z) (h : Hop) : Hop :=
  set_table (filter (fun so : Z * Z => retained now h so.2 = true) (hp_table h)) h.
(** [uplink], up to its first await *)
Definition uplink (h : Hop) (bytes : list Z) (now : Z) : Hop :=
  match parse_datagram bytes with
  | Err _ => h
  | Ok dg =>
      match hp_table h !! d_session dg with
      | None => h
      | Some obj =>
          let h := update_obj (touch now) obj h in
          match (s ← hp_objs h !! obj; us_resolve s !! resolve_key (d_host dg) (d_port dg)) with
          | Some addr => set_uplink (Sending obj addr (d_payload dg)) h
          | None => set_uplink (Resolving obj (d_host dg) (d_port dg) (d_payload dg)) h
          end
      end
  end.
(** A packet at an association's socket, in [spawn_downlink] *)
Definition downlink (h : Hop) (obj : Z) (s : HopUdpSession) (src : SocketAddr) (data : list Z) (max_size : option nat) (now : Z) :
    Hop * list HopOutput :=
  if negb (contacted_contains src (us_contacted s)) then (h, [])
  else
  let h := update_obj (touch now) obj h in
  match encode_datagram (us_sid s) (display_ip (match src with SockV4 ip _ => V4 ip | SockV6 ip _ _ _ => V6 ip end))
          (match src with SockV4 _ port => port | SockV6 _ port _ _ => port end) data with
  | None => (h, [])
  | Some bytes =>
      if match max_size with Some max => (max <? length bytes)%nat | None => false end then (h, [])
      else (h, [ToEdge obj src data bytes])
  end.

(** One step, when the task it belongs to is there to take it. *)
Definition hop_step (h : Hop) (e : HopEvent) : option (Hop * list HopOutput) :=
  match e with
  | Associated sid obj now bound =>
      match hp_objs h !! obj with
      | Some _ => None
      | None => let '(h, ok) := associate h sid obj now bound in Some (h, [Answered sid ok])
      end
  | Removed sid => Some (hop_remove sid h, [])
  | Swept now => Some (evict_idle now h, [])
  | Datagramed bytes now =>
      match hp_uplink h with Reading => Some (uplink h bytes now, []) | _ => None end
  | Resolved resolver =>
      match hp_uplink h with
      | Resolving obj host port payload =>
          match resolver host port with
          | None => Some (set_uplink Reading h, [])
          | Some addr => Some (set_uplink (Sending obj addr payload) (update_obj (cache (resolve_key host port) addr) obj h), [])
          end
      | _ => None
      end
  | Sent ok =>
      match hp_uplink h with
      | Sending obj addr payload =>
          if ok then Some (set_uplink (Noting obj addr) h, [ToTarget obj addr payload]) else Some (set_uplink Reading h, [])
      | _ => None
      end
  | Noted =>
      match hp_uplink h with
      | Noting obj addr => Some (set_uplink Reading (update_obj (note addr) obj h), [])
      | _ => None
      end
  | Replied obj src data max_size now =>
      match hp_objs h !! obj with
      | Some s => if us_running s then Some (downlink h obj s src data max_size now) else None
      | None => None
      end
  | ReplyFailed obj =>
      match hp_objs h !! obj with
      | Some s => if us_running s then Some (update_obj halt_task obj h, []) else None
      | None => None
      end
  | TaskStopped obj =>
      if existsb (fun '(_, o) => o =? obj) (map_to_list (hp_table h)) then None else Some (update_obj halt_task obj h, [])
  end.
Fixpoint hop_run (h : Hop) (es : list HopEvent) : option (Hop * list HopOutput) :=
  match es with
  | [] => Some (h, [])
  | e :: es =>
      '(h, out) ← hop_step h e;
      '(h, outs) ← hop_run h es;
      Some (h, out ++ outs)
  end.

(** * What the UDP relay of a reverse hop guarantees

    The hop never relays a packet the client did not invite, within its bounds,
    in every interleaving; the edge's session ids do not repeat and its routing
    keeps associations apart. *)

(** ** The address filter *)

Record contacted_ok (c : Contacted) : Prop := {
  co_set : ct_set c = list_to_set (ct_order c);
  co_nodup : NoDup (ct_order c);
  co_bound : (length (ct_order c) <= MAX_CONTACTED_PER_SESSION)%nat;
}.
Lemma contacted_default_ok : contacted_ok Contacted_default.
Proof. split; [done|constructor|cbn; lia]. Qed.
(** Inserting keeps the set and its order agreed and bounded, adds the address
    and nothing else, and drops the oldest only when the set is full. *)
Lemma contacted_insert_ok addr c :
  contacted_ok c ->
  contacted_ok (contacted_insert addr c) /\ addr ∈ ct_set (contacted_insert addr c) /\
  ct_set (contacted_insert addr c) ⊆ {[addr]} ∪ ct_set c /\
  ((length (ct_order c) < MAX_CONTACTED_PER_SESSION)%nat -> ct_set c ⊆ ct_set (contacted_insert addr c)).
Proof.
  intros [Hs Hn Hb]. unfold contacted_insert. destruct (bool_decide_reflect (addr ∈ ct_set c)) as [Hin|Hin]; [split_and!; [by split|done|apply union_subseteq_r|done]|].
  assert (Hni : addr ∉ ct_order c) by (rewrite Hs in Hin; set_solver).
  assert (Hn' : NoDup (ct_order c ++ [addr])) by (apply NoDup_app; split_and!; [done|set_solver|apply NoDup_singleton]).
  rewrite length_app. cbn [length]. destruct (Nat.ltb_spec MAX_CONTACTED_PER_SESSION (length (ct_order c) + 1)) as [Hfull|Hroom].
  - destruct (ct_order c) as [|old order] eqn:Eo; [cbn in Hfull; unfold MAX_CONTACTED_PER_SESSION in Hfull; lia|]. cbn [app] in *.
    apply NoDup_cons in Hn' as [Ho Hn']. assert (old <> addr) by set_solver.
    assert (Hin' : addr ∈ ({[addr]} ∪ ct_set c) ∖ ({[old]} : gset SocketAddr))
      by (apply elem_of_difference; split; [by apply elem_of_union_l, elem_of_singleton|by rewrite elem_of_singleton]).
    split; [|split; [exact Hin'|split; [cbn [ct_set]; apply subseteq_difference_l; done|intros Hlt; exfalso; cbn in *; lia]]].
    split; cbn [ct_set ct_order]; [|done|rewrite length_app; cbn in *; lia]. rewrite Hs.
    rewrite list_to_set_app_L. cbn. assert (old ∉ (list_to_set order : gset SocketAddr)) by set_solver. set_solver.
  - split_and!; cbn [ct_set ct_order]; [|set_solver..]. split; cbn [ct_set ct_order]; [|done|rewrite length_app; cbn; lia].
    rewrite Hs, list_to_set_app_L. set_solver.
Qed.
Opaque contacted_insert.

(** A cache key tells the host and the port. *)
Lemma resolve_key_inj h p h' p' : fits 16 p -> fits 16 p' -> resolve_key h p = resolve_key h' p' -> h = h' /\ p = p'.
Proof.
  intros Hp Hp' E. unfold resolve_key in E.
  assert (Hc : forall q, fits 16 q -> colon ∉ fmt_dec q).
  { intros q [Hq _] Hin. assert (Forall (fun c => c <> colon) (fmt_dec q)) as Hf; [|by rewrite Forall_forall in Hf; apply (Hf colon)].
    apply fmt_radix_chars; [|lia|done]. intros d Hd. unfold digit_char, colon. destruct (d <? 10) eqn:Ed; bools; lia. }
  pose proof (rsplit_once_sep colon h (fmt_dec p) (Hc p Hp)) as H1. rewrite E, rsplit_once_sep in H1 by by apply Hc. injection H1 as -> Ef.
  split; [done|]. pose proof (parse_fmt_dec 16 p Hp) as Hq. rewrite <- Ef, parse_fmt_dec in Hq by done. by injection Hq.
Qed.

(** ** The hop *)

Definition sid_of (h : Hop) (obj : Z) : option Z := us_sid <$> hp_objs h !! obj.
(** The edge sent this packet for the session of [obj]. *)
Definition asked (es : list HopEvent) (h : Hop) (obj : Z) (host : str) (port : Z) (payload : list Z) : Prop :=
  exists bytes now dg, Datagramed bytes now ∈ es /\ parse_datagram bytes = Ok dg /\ d_host dg = host /\ d_port dg = port /\
    d_payload dg = payload /\ sid_of h obj = Some (d_session dg).
(** The resolver gave [addr] for this target, at some time. *)
Definition resolved (es : list HopEvent) (key : list Z) (addr : SocketAddr) : Prop :=
  exists resolver host port, Resolved resolver ∈ es /\ resolver host port = Some addr /\ key = resolve_key host port.
Definition sent_to (outs : list HopOutput) (obj : Z) (addr : SocketAddr) : Prop := exists p, ToTarget obj addr p ∈ outs.
Definition socket_host (a : SocketAddr) : str := display_ip (match a with SockV4 ip _ => V4 ip | SockV6 ip _ _ _ => V6 ip end).
Definition socket_port (a : SocketAddr) : Z := match a with SockV4 _ port => port | SockV6 _ port _ _ => port end.

Definition hop_output_ok (es : list HopEvent) (h : Hop) (out : HopOutput) : Prop :=
  match out with
  | ToTarget obj addr payload => exists host port, asked es h obj host port payload /\ resolved es (resolve_key host port) addr
  | ToEdge obj src data bytes =>
      exists sid, sid_of h obj = Some sid /\ encode_datagram sid (socket_host src) (socket_port src) data = Some bytes
  | Answered _ _ => True
  end.
(** Whatever an association relays back was invited before. *)
Definition invited (outs : list HopOutput) : Prop :=
  forall pre obj src data bytes post, outs = pre ++ ToEdge obj src data bytes :: post -> sent_to pre obj src.
Record session_ok (es : list HopEvent) (outs : list HopOutput) (obj : Z) (s : HopUdpSession) : Prop := {
  so_contacted : contacted_ok (us_contacted s);
  so_sent : forall a, a ∈ ct_set (us_contacted s) -> sent_to outs obj a;
  so_cache : forall key a, us_resolve s !! key = Some a -> resolved es key a;
}.
Definition uplink_ok (es : list HopEvent) (outs : list HopOutput) (h : Hop) (u : Uplink) : Prop :=
  match u with
  | Reading => True
  | Resolving obj host port payload => asked es h obj host port payload
  | Sending obj addr payload => exists host port, asked es h obj host port payload /\ resolved es (resolve_key host port) addr
  | Noting obj addr => sent_to outs obj addr
  end.
Record hop_inv (max_sessions : Z) (es : list HopEvent) (outs : list HopOutput) (h : Hop) : Prop := {
  hi_max : hp_max h = Z.max max_sessions 1;
  hi_size : Z.of_nat (size (hp_table h)) <= Z.max max_sessions 1;
  hi_table : forall sid obj, hp_table h !! sid = Some obj -> sid_of h obj = Some sid;
  hi_sessions : forall obj s, hp_objs h !! obj = Some s -> session_ok es outs obj s;
  hi_uplink : uplink_ok es outs h (hp_uplink h);
  hi_outputs : Forall (hop_output_ok es h) outs;
  hi_invited : invited outs;
}.

Lemma sent_to_app outs outs' obj a : sent_to outs obj a -> sent_to (outs ++ outs') obj a.
Proof. intros [p H]. exists p. set_solver. Qed.
Section Mono.
Context (es es' : list HopEvent) (h h' : Hop).
Context (Hes : forall e, e ∈ es -> e ∈ es') (Hh : forall obj s, sid_of h obj = Some s -> sid_of h' obj = Some s).
Lemma asked_mono obj host port payload : asked es h obj host port payload -> asked es' h' obj host port payload.
Proof using Hes Hh. intros (b & n & dg & ? & ? & ? & ? & ? & ?). exists b, n, dg. eauto 10. Qed.
Lemma resolved_mono key a : resolved es key a -> resolved es' key a.
Proof using Hes. intros (r & x & y & ? & ? & ?). exists r, x, y. eauto. Qed.
Lemma hop_output_mono out : hop_output_ok es h out -> hop_output_ok es' h' out.
Proof using Hes Hh.
  destruct out; cbn; [|intros (sid & ? & ?); eauto|done]. intros (x & y & ? & ?). exists x, y. split; [by apply asked_mono|by apply resolved_mono].
Qed.
Lemma uplink_mono outs outs' u : uplink_ok es outs h u -> uplink_ok es' (outs ++ outs') h' u.
Proof using Hes Hh.
  destruct u; cbn; [done|apply asked_mono| |apply sent_to_app]. intros (x & y & ? & ?). exists x, y.
  split; [by apply asked_mono|by apply resolved_mono].
Qed.
Lemma session_mono outs outs' obj s : session_ok es outs obj s -> session_ok es' (outs ++ outs') obj s.
Proof using Hes. intros [? Hs Hc]. split; [done|intros a Ha; by apply sent_to_app, Hs|intros k a Ha; by apply resolved_mono, Hc]. Qed.
End Mono.

(** The changes a step is made of. *)
Lemma hop_inv_event m es outs h e : hop_inv m es outs h -> hop_inv m (es ++ [e]) outs h.
Proof.
  intros [Hm Hs Ht Ho Hu Hout Hi]. assert (He : forall x, x ∈ es -> x ∈ es ++ [e]) by set_solver. split; try done.
  - intros obj s H. rewrite <- (app_nil_r outs). eapply session_mono; eauto.
  - rewrite <- (app_nil_r outs). eapply uplink_mono; [exact He| |exact Hu]. auto.
  - eapply Forall_impl; [exact Hout|]. intros out. apply hop_output_mono; auto.
Qed.
Lemma sid_of_update f obj h obj' : (forall s, us_sid (f s) = us_sid s) -> sid_of (update_obj f obj h) obj' = sid_of h obj'.
Proof.
  intros Hf. unfold sid_of, update_obj. cbn. destruct (decide (obj = obj')) as [->|].
  - rewrite lookup_alter_eq. destruct (hp_objs h !! obj'); cbn; [by rewrite Hf|done].
  - by rewrite lookup_alter_ne.
Qed.
Lemma hop_inv_update m es outs h f obj :
  hop_inv m es outs h -> (forall s, us_sid (f s) = us_sid s) ->
  (forall s, hp_objs h !! obj = Some s -> session_ok es outs obj s -> session_ok es outs obj (f s)) ->
  hop_inv m es outs (update_obj f obj h).
Proof.
  intros [Hm Hs Ht Ho Hu Hout Hi] Hf Hok. assert (Hsid : forall o s, sid_of h o = Some s -> sid_of (update_obj f obj h) o = Some s)
    by (intros o s H; by rewrite sid_of_update). split; try done.
  - intros sid o H. rewrite sid_of_update by done. by apply Ht.
  - intros o s. cbn. destruct (decide (obj = o)) as [->|]; [|rewrite lookup_alter_ne by done; apply Ho].
    rewrite lookup_alter_eq. destruct (hp_objs h !! o) as [s0|] eqn:E; [|done]. intros [= <-]. auto.
  - rewrite <- (app_nil_r outs). eapply uplink_mono; [by intros|exact Hsid|exact Hu].
  - eapply Forall_impl; [exact Hout|]. intros out. apply hop_output_mono; auto.
Qed.
Lemma hop_inv_table m es outs h t : hop_inv m es outs h -> t ⊆ hp_table h -> hop_inv m es outs (set_table t h).
Proof.
  intros [Hm Hs Ht Ho Hu Hout Hi] Hsub. split; try done; cbn.
  - pose proof (map_subseteq_size _ _ Hsub). lia.
  - intros sid obj H. apply Ht. by eapply lookup_weaken.
Qed.
Lemma hop_inv_uplink m es outs h u : hop_inv m es outs h -> uplink_ok es outs h u -> hop_inv m es outs (set_uplink u h).
Proof. intros [Hm Hs Ht Ho Hu Hout Hi] H. by split. Qed.
Lemma hop_inv_output m es outs h out :
  hop_inv m es outs h -> hop_output_ok es h out ->
  match out with ToEdge obj src _ _ => sent_to outs obj src | _ => True end -> hop_inv m es (outs ++ [out]) h.
Proof.
  intros [Hm Hs Ht Ho Hu Hout Hi] Hok Hinv. split; try done.
  - intros obj s H. eapply session_mono; [by intros|by apply Ho].
  - eapply uplink_mono; [by intros..|exact Hu].
  - apply Forall_app. split; [done|by constructor].
  - intros pre obj src data bytes post E. destruct post as [|x post] using rev_ind.
    + apply app_inj_tail in E as [-> ->]. exact Hinv.
    + rewrite app_comm_cons, app_assoc in E. apply app_inj_tail in E as [E _]. by eapply Hi.
Qed.
Lemma hop_inv_new m es outs h sid obj now :
  hop_inv m es outs h -> hp_objs h !! obj = None ->
  hop_inv m es outs (mkHop (hp_max h) (<[obj := mkUdpSession sid Contacted_default ∅ now true]> (hp_objs h)) (hp_table h) (hp_uplink h)).
Proof.
  intros [Hm Hs Ht Ho Hu Hout Hi] Hnew. set (h' := mkHop _ _ _ _).
  assert (Hsid : forall o s, sid_of h o = Some s -> sid_of h' o = Some s).
  { intros o s H. unfold sid_of in *. cbn. rewrite lookup_insert_ne; [done|]. intros ->. by rewrite Hnew in H. }
  split; try done.
  - intros s o H. by apply Hsid, Ht.
  - intros o s H. cbn in H. destruct (decide (obj = o)) as [->|]; [|rewrite lookup_insert_ne in H by done; by apply Ho].
    rewrite lookup_insert_eq in H. injection H as <-. split; cbn; [apply contacted_default_ok|set_solver|done].
  - rewrite <- (app_nil_r outs). eapply uplink_mono; [by intros|exact Hsid|exact Hu].
  - eapply Forall_impl; [exact Hout|]. intros out. apply hop_output_mono; auto.
Qed.
Lemma associate_inv m es outs h sid obj now bound :
  hop_inv m es outs h -> hp_objs h !! obj = None -> hop_inv m es outs (fst (associate h sid obj now bound)).
Proof.
  intros I Hnew. unfold associate. destruct bound; [|done]. cbn [negb]. pose proof (hop_inv_new m es outs h sid obj now I Hnew) as I'.
  destruct (_ && _) eqn:Eb; [exact I'|]. destruct I' as [Hm Hs Ht Ho Hu Hout Hi]. cbn in Hs, Ht. split; try done; cbn.
  - destruct (hp_table h !! sid) as [o|] eqn:E; [by rewrite map_size_insert_Some|]. rewrite map_size_insert_None by done.
    rewrite (hi_max _ _ _ _ I) in Eb. apply andb_false_iff in Eb as [Eb|Eb]; bools; [lia|]. by destruct Eb.
  - intros s o H. destruct (decide (sid = s)) as [->|]; [|rewrite lookup_insert_ne in H by done; by apply Ht].
    rewrite lookup_insert_eq in H. injection H as <-. unfold sid_of. cbn. by rewrite lookup_insert_eq.
Qed.
Lemma uplink_inv m es outs h bytes now :
  hop_inv m es outs h -> Datagramed bytes now ∈ es -> hop_inv m es outs (uplink h bytes now).
Proof.
  intros I Hin. unfold uplink. destruct (parse_datagram bytes) as [dg|] eqn:Ep; [|done].
  destruct (hp_table h !! d_session dg) as [obj|] eqn:Et; [|done].
  assert (I' : hop_inv m es outs (update_obj (touch now) obj h)) by (apply hop_inv_update; [done|done|by intros s _ []]).
  set (h' := update_obj (touch now) obj h) in *.
  assert (Ha : asked es h' obj (d_host dg) (d_port dg) (d_payload dg)).
  { exists bytes, now, dg. split_and!; try done. unfold h'. rewrite sid_of_update by done. by apply (hi_table _ _ _ _ I). }
  destruct (hp_objs h' !! obj) as [s|] eqn:Eo; cbn [mbind option_bind]; [|by apply hop_inv_uplink].
  destruct (us_resolve s !! _) as [addr|] eqn:Er; [|by apply hop_inv_uplink].
  apply hop_inv_uplink; [done|]. exists (d_host dg), (d_port dg). split; [done|]. by eapply so_cache; [apply (hi_sessions _ _ _ _ I')|].
Qed.
Lemma hop_step_inv m es outs h e h' out :
  hop_inv m es outs h -> hop_step h e = Some (h', out) -> hop_inv m (es ++ [e]) (outs ++ out) h'.
Proof.
  intros I H. apply (hop_inv_event _ _ _ _ e) in I. assert (Hin : e ∈ es ++ [e]) by set_solver.
  remember (es ++ [e]) as es' eqn:Ees. clear Ees. destruct e as [sid obj now bound|sid|now|bytes now|resolver|ok| |obj src data max now|obj|obj]; cbn in H.
  - destruct (hp_objs h !! obj) eqn:E; [done|]. pose proof (associate_inv m es' outs h sid obj now bound I E) as Ia.
    destruct (associate _ _ _ _ _) as [h1 b]. injection H as <- <-. by apply hop_inv_output.
  - injection H as <- <-. rewrite app_nil_r. apply hop_inv_table; [done|]. apply delete_subseteq.
  - injection H as <- <-. rewrite app_nil_r. apply hop_inv_table; [done|]. apply map_filter_subseteq.
  - destruct (hp_uplink h); try done. injection H as <- <-. rewrite app_nil_r. by apply uplink_inv.
  - pose proof (hi_uplink _ _ _ _ I) as Hu. destruct (hp_uplink h) as [|obj host port payload| |]; try done. cbn in Hu.
    destruct (resolver host port) as [addr|] eqn:Er; injection H as <- <-; rewrite app_nil_r; [|by apply hop_inv_uplink].
    assert (Hres : resolved es' (resolve_key host port) addr) by (exists resolver, host, port; done).
    apply hop_inv_uplink.
    + apply hop_inv_update; [done|done|]. intros s _ [? ? Hc]. split; [done|done|]. intros k a. cbn.
      destruct (decide (resolve_key host port = k)) as [<-|]; [rewrite lookup_insert_eq; by intros [= <-]|].
      rewrite lookup_insert_ne by done. apply Hc.
    + exists host, port. split; [|done]. destruct Hu as (b & n & dg & ? & ? & ? & ? & ? & ?). exists b, n, dg. split_and!; try done. by rewrite sid_of_update.
  - pose proof (hi_uplink _ _ _ _ I) as Hu. destruct (hp_uplink h) as [| |obj addr payload|]; try done. cbn in Hu.
    destruct ok; injection H as <- <-; [|rewrite app_nil_r; by apply hop_inv_uplink].
    apply hop_inv_uplink; [by apply hop_inv_output|]. exists payload. set_solver.
  - pose proof (hi_uplink _ _ _ _ I) as Hu. destruct (hp_uplink h) as [| | |obj addr]; try done. cbn in Hu. injection H as <- <-. rewrite app_nil_r.
    apply hop_inv_uplink; [|done]. apply hop_inv_update; [done|done|]. intros s _ [Hc Hs Hr]. split; cbn; [by apply contacted_insert_ok| |done].
    intros a Ha. destruct (contacted_insert_ok addr _ Hc) as (_ & _ & Hsub & _). apply Hsub in Ha. apply elem_of_union in Ha as [->%elem_of_singleton|Ha]; auto.
  - destruct (hp_objs h !! obj) as [s|] eqn:Eo; [|done]. destruct (us_running s); [|done]. unfold downlink in H.
    destruct (contacted_contains src (us_contacted s)) eqn:Ec; cbn [negb] in H; [|injection H as <- <-; by rewrite app_nil_r].
    unfold contacted_contains in Ec. bools.
    assert (I' : hop_inv m es' outs (update_obj (touch now) obj h)) by (apply hop_inv_update; [done|done|by intros ? _ []]).
    destruct (encode_datagram _ _ _ _) as [bytes|] eqn:Ed; [|injection H as <- <-; by rewrite app_nil_r].
    destruct (match max with Some _ => _ | None => _ end); injection H as <- <-; [by rewrite app_nil_r|].
    apply hop_inv_output; [done| |]; cbn.
    + exists (us_sid s). rewrite sid_of_update by done. split; [unfold sid_of; by rewrite Eo|exact Ed].
    + by eapply so_sent; [apply (hi_sessions _ _ _ _ I)|].
  - destruct (hp_objs h !! obj) as [s|] eqn:Eo; [|done]. destruct (us_running s); [|done]. injection H as <- <-. rewrite app_nil_r.
    apply hop_inv_update; [done|done|by intros ? _ []].
  - destruct (existsb _ _); [done|]. injection H as <- <-. rewrite app_nil_r. apply hop_inv_update; [done|done|by intros ? _ []].
Qed.
Lemma hop_run_snoc h es e :
  hop_run h (es ++ [e]) = ('(h1, outs) ← hop_run h es; '(h2, out) ← hop_step h1 e; Some (h2, outs ++ out)).
Proof.
  revert h; induction es as [|x es IH]; intros h; cbn [app hop_run].
  - cbn. destruct (hop_step h e) as [[h1 o]|]; cbn; [by rewrite app_nil_r|done].
  - destruct (hop_step h x) as [[h1 o1]|]; cbn; [|done]. rewrite IH. destruct (hop_run h1 es) as [[h2 o2]|]; cbn; [|done].
    destruct (hop_step h2 e) as [[h3 o3]|]; cbn; [by rewrite app_assoc|done].
Qed.

(** C18: the hop is no open reflector. In every interleaving of its control
    streams, datagram reader, downlink tasks and sweeper there are never more
    associations than the connection's ceiling, each on a socket of its own;
    a packet leaves for a target only with the payload of a datagram the edge
    sent for that association, to an address the resolver gave for the target
    that datagram names; and a packet is relayed back only to the association
    whose socket it came to, tagged with its session, unchanged, and only from
    a source the association had already sent to; what is remembered of
    destinations stays within 512, the oldest forgotten first. *)
Theorem hop_udp_safe (max_sessions : Z) (es : list HopEvent) (h : Hop) (outs : list HopOutput) :
  hop_run (HopUdpTable_new max_sessions) es = Some (h, outs) -> hop_inv max_sessions es outs h.
Proof.
  revert h outs; induction es as [|e es IH] using rev_ind; intros h outs H.
  - injection H as <- <-. split; cbn; try done; [|intros ? ? ? ? ? ? ?; by destruct pre]. rewrite map_size_empty. lia.
  - rewrite hop_run_snoc in H. destruct (hop_run _ es) as [[h1 o1]|]; [|done]. cbn in H.
    destruct (hop_step h1 e) as [[h2 o2]|] eqn:Es; [|done]. injection H as <- <-. eapply hop_step_inv; [by apply IH|done].
Qed.

(** ** The edge *)

(** The identifier a draw gives: the counter, zero skipped. *)
Definition drawn (seq : Z) : Z := if seq =? 0 then 1 else seq.
Lemma next_session_id_total e :
  fits 32 (eu_seq e) -> next_session_id e = Some (drawn (eu_seq e), mkEdgeUdp (eu_sessions e) (wrap 32 (drawn (eu_seq e) + 1))).
Proof.
  intros Hf. unfold next_session_id, drawn. cbn [next_id_loop]. destruct (Z.eqb_spec (eu_seq e) 0) as [->|Hne]; [done|]. done.
Qed.
Fixpoint draw_ids (n : nat) (e : EdgeUdpConn) : option (list Z * EdgeUdpConn) :=
  match n with
  | O => Some ([], e)
  | S n => '(id, e) ← next_session_id e; '(ids, e) ← draw_ids n e; Some (id :: ids, e)
  end.
Lemma drawn_next seq : fits 32 seq -> drawn (wrap 32 (drawn seq + 1)) = drawn seq mod (2 ^ 32 - 1) + 1.
Proof.
  intros [H0 H1]. set (d := drawn seq). assert (1 <= d < 2 ^ 32) as Hd by (unfold d, drawn; destruct (Z.eqb_spec seq 0); lia).
  unfold wrap. destruct (Z.eq_dec d (2 ^ 32 - 1)) as [->|Hne]; [done|]. rewrite Z.mod_small by lia. unfold drawn.
  destruct (Z.eqb_spec (d + 1) 0); [lia|]. rewrite Z.mod_small by lia. done.
Qed.
Lemma draw_ids_spec n e :
  fits 32 (eu_seq e) ->
  exists ids e', draw_ids n e = Some (ids, e') /\ eu_sessions e' = eu_sessions e /\
    ids = map (fun k => (drawn (eu_seq e) - 1 + Z.of_nat k) mod (2 ^ 32 - 1) + 1) (seq 0 n).
Proof.
  revert e; induction n as [|n IH]; intros e Hf; cbn [draw_ids]; [eauto|].
  rewrite next_session_id_total by done. cbn [mbind option_bind]. set (d := drawn (eu_seq e)).
  set (e1 := mkEdgeUdp _ _). assert (Hf1 : fits 32 (eu_seq e1)) by (apply wrap_range; lia).
  destruct (IH e1 Hf1) as (ids & e' & -> & Es & ->). cbn [mbind option_bind]. eexists _, e'. split; [done|]. split; [done|].
  assert (1 <= d < 2 ^ 32) as Hd by (unfold d, drawn; destruct Hf; destruct (Z.eqb_spec (eu_seq e) 0); lia).
  cbn [seq map]. f_equal; [rewrite Z.mod_small; lia|]. rewrite <- seq_shift, map_map. apply map_ext. intros k.
  change (eu_seq e1) with (wrap 32 (drawn (eu_seq e) + 1)). rewrite drawn_next by done. fold d. f_equal.
  replace (d mod (2 ^ 32 - 1) + 1 - 1 + Z.of_nat k) with (d mod (2 ^ 32 - 1) + Z.of_nat k) by lia.
  rewrite Z.add_mod_idemp_l by lia. f_equal. lia.
Qed.
(** Session ids are never zero and do not repeat within a counter's round. *)
Lemma edge_ids_distinct n e ids e' :
  Z.of_nat n <= 2 ^ 32 - 1 -> fits 32 (eu_seq e) -> draw_ids n e = Some (ids, e') ->
  length ids = n /\ NoDup ids /\ Forall (fun id => id <> 0 /\ fits 32 id) ids.
Proof.
  intros Hn Hf H. destruct (draw_ids_spec n e Hf) as (ids' & e1 & E & _ & ->). rewrite E in H. injection H as <- _.
  set (d := drawn (eu_seq e) - 1). split; [by rewrite length_map, length_seq|]. split.
  - apply NoDup_fmap_2_strong; [|apply NoDup_seq]. intros i j Hi Hj Hij. apply elem_of_seq in Hi, Hj.
    assert (Hm : (d + Z.of_nat i) mod (2 ^ 32 - 1) = (d + Z.of_nat j) mod (2 ^ 32 - 1)) by lia. clear Hij.
    assert (Hz : (Z.of_nat i - Z.of_nat j) mod (2 ^ 32 - 1) = 0).
    { replace (Z.of_nat i - Z.of_nat j) with ((d + Z.of_nat i) - (d + Z.of_nat j)) by lia. rewrite Zminus_mod, Hm, Z.sub_diag. done. }
    apply Z.mod_divide in Hz as [q Hq]; [|lia]. nia.
  - apply Forall_forall. intros x Hx. apply list_elem_of_fmap in Hx as (k & -> & _).
    pose proof (Z.mod_pos_bound (d + Z.of_nat k) (2 ^ 32 - 1) ltac:(lia)). unfold fits. lia.
Qed.

(** Routing and receiving on one connection; [Received] is refused while the
    association's queue is empty. *)
Inductive EdgeEvent := Routed (bytes : list Z) | Received (sid : Z).
Fixpoint edge_run (es : list EdgeEvent) (e : EdgeUdpConn) : option (EdgeUdpConn * list (Z * ReturnPacket)) :=
  match es with
  | [] => Some (e, [])
  | Routed bytes :: es => edge_run es (edge_demux bytes e)
  | Received sid :: es => '(packet, e) ← relay_recv sid e; '(e, outs) ← edge_run es e; Some (e, (sid, packet) :: outs)
  end.
(** The packets the hop sent for an association, in order. *)
Definition packets_for (sid : Z) (es : list EdgeEvent) : list ReturnPacket :=
  omap (fun ev => match ev with
                  | Routed bytes =>
                      match parse_datagram bytes with
                      | Ok dg => if d_session dg =? sid then Some (d_host dg, d_port dg, d_payload dg) else None
                      | Err _ => None
                      end
                  | Received _ => None
                  end) es.
Definition received_by (sid : Z) (outs : list (Z * ReturnPacket)) : list ReturnPacket :=
  omap (fun sp => if sp.1 =? sid then Some sp.2 else None) outs.
(** Each association receives, in order, packets the hop sent for it and no
    other's, and its queue is bounded; what is missing was refused by a full queue. *)
Lemma edge_routing sid es e queue e' outs :
  eu_sessions e !! sid = Some queue -> (length queue <= RETURN_CHANNEL_CAP)%nat -> edge_run es e = Some (e', outs) ->
  exists queue' kept, eu_sessions e' !! sid = Some queue' /\ (length queue' <= RETURN_CHANNEL_CAP)%nat /\
    received_by sid outs ++ queue' = queue ++ kept /\ sublist kept (packets_for sid es).
Proof.
  revert e queue outs; induction es as [|[bytes|sid'] es IH]; intros e queue outs Hq Hb H; cbn [edge_run] in H.
  - injection H as <- <-. exists queue, []. by rewrite app_nil_r.
  - unfold packets_for. cbn. unfold edge_demux in H. destruct (parse_datagram bytes) as [dg|] eqn:Ep; [|by eapply IH].
    unfold route in H. destruct (Z.eqb_spec (d_session dg) sid) as [<-|Hne].
    + rewrite Hq in H. destruct (Nat.ltb_spec (length queue) RETURN_CHANNEL_CAP) as [Hlt|Hge].
      * eapply IH in H as (q' & kept & Hq' & Hb' & E & Hs); [|cbn; by rewrite lookup_insert_eq|rewrite length_app; cbn; lia].
        exists q', ((d_host dg, d_port dg, d_payload dg) :: kept). rewrite E, <- app_assoc. split_and!; try done. by apply sublist_skip.
      * eapply IH in H as (q' & kept & Hq' & Hb' & E & Hs); [|done|done]. exists q', kept. split_and!; try done. by apply sublist_cons.
    + destruct (eu_sessions e !! d_session dg) as [q|]; [|by eapply IH]. destruct (_ <? _)%nat; [|by eapply IH].
      eapply IH in H; [exact H| |done]. cbn. by rewrite lookup_insert_ne.
  - unfold relay_recv in H. destruct (eu_sessions e !! sid') as [[|packet q]|] eqn:Es; try done. cbn [mbind option_bind] in H.
    destruct (edge_run es _) as [[e1 o1]|] eqn:Er; [|done]. injection H as <- <-. unfold received_by, packets_for. cbn.
    destruct (Z.eqb_spec sid' sid) as [->|Hne].
    + rewrite Hq in Es. injection Es as ->. eapply IH in Er as (q' & kept & Hq' & Hb' & E & Hs); [|cbn; by rewrite lookup_insert_eq|cbn in Hb; lia].
      exists q', kept. split_and!; try done. unfold received_by in E; cbn [app]; by rewrite E.
    + eapply IH in Er; [exact Er| |done]. cbn. by rewrite lookup_insert_ne.
Qed.
(** A full queue refuses the newest packet. *)
Lemma route_full dg e queue :
  eu_sessions e !! d_session dg = Some queue -> length queue = RETURN_CHANNEL_CAP -> route dg e = e.
Proof. intros Hq Hl. unfold route. rewrite Hq, Hl. by rewrite Nat.ltb_irrefl. Qed.

(** ** A session *)

Module HopDemo.
Definition target : SocketAddr := SockV4 167772161 3478.
Definition stranger : SocketAddr := SockV4 167772162 9.
Definition resolver (host : str) (port : Z) : option SocketAddr := if str_eqb host (lit "sfu.example") then Some target else None.
Definition request : list Z := default [] (encode_datagram 7 (lit "sfu.example") 3478 (lit "hello")).
Definition answer : list Z := default [] (encode_datagram 7 (lit "10.0.0.1") 3478 (lit "world")).
(** An answer before the request, the request, an answer and a stranger's
    packet, a second session over the ceiling, and the idle sweep. *)
Definition events : list HopEvent :=
  [Associated 7 1 0 true; Replied 1 target (lit "early") None 5; Datagramed request 10; Resolved resolver; Sent true; Noted;
   Replied 1 target (lit "world") None 20; Replied 1 stranger (lit "spam") None 30; Associated 8 2 40 true; Swept 60020; TaskStopped 1;
   Datagramed request 60030].
Definition final : Hop := mkHop 1
  (<[1 := mkUdpSession 7 (contacted_insert target Contacted_default) {[resolve_key (lit "sfu.example") 3478 := target]} 20 false]>
   {[2 := mkUdpSession 8 Contacted_default ∅ 40 true]}) ∅ Reading.
Definition produced : list HopOutput :=
  [Answered 7 true; ToTarget 1 target (lit "hello"); ToEdge 1 target (lit "world") answer; Answered 8 false].
Lemma ran : hop_run (HopUdpTable_new 1) events = Some (final, produced).
Proof. vm_compute. reflexivity. Qed.
(** The answer is read on the edge as the packet the target sent. *)
Example answered : parse_datagram answer = Ok (mkDatagram 7 (lit "10.0.0.1") 3478 (lit "world")).
Proof. vm_compute. reflexivity. Qed.
End HopDemo.
Lemma hop_udp_safe_witness : hop_inv 1 HopDemo.events HopDemo.produced HopDemo.final.
Proof. exact (hop_udp_safe 1 HopDemo.events HopDemo.final HopDemo.produced HopDemo.ran). Defined.
