(* ===== verification/Stream.v ===== *)
(** * Stream: exact reads and readers as functions of the bytes

    [read_exact] over a scripted stream, a small state-and-error monad for the
    readers built from it, and when such a reader is a function of the bytes
    that arrive, whatever their fragmentation. *)

From Stdlib Require Import ZArith Lia String.
From stdpp Require Import prelude strings list.
From S2P Require Import Prelude RustStr Util Frame.

(** [r.read_exact(&mut buf)] for a buffer of [n] bytes: one read per step, with
    what is still missing *)
Fixpoint read_exact_from (fuel : nat) (n : nat) (r : Reader.t) (acc : list Z) : result IoError (list Z) * Reader.t :=
  match n with
  | O => (Ok acc, r)
  | _ =>
      match fuel with
      | O => (Ok acc, r)
      | S fuel =>
          match Reader.read n r with
          | (Err _, r) => (Err ReadError, r)
          | (Ok [], r) => (Err UnexpectedEof, r)
          | (Ok c, r) => read_exact_from fuel (n - length c) r (acc ++ c)
          end
      end
  end.
(** Every read delivers a byte, so [n] steps are enough ([read_exact_ok]). *)
Definition read_exact (n : nat) (r : Reader.t) : result IoError (list Z) * Reader.t := read_exact_from n n r [].

(** A small state-and-error monad for the readers *)
Definition reading (A : Type) : Type := Reader.t -> result IoError A * Reader.t.
Definition rret {A} (a : A) : reading A := fun r => (Ok a, r).
Definition rbind {A B} (m : reading A) (k : A -> reading B) : reading B := fun r =>
  match m r with (Ok a, r) => k a r | (Err e, r) => (Err e, r) end.
Declare Scope reading_scope.
Delimit Scope reading_scope with reading.
Notation "'let!' x ':=' m 'in' k" := (rbind m (fun x => k)) (at level 200, x pattern, m at level 100, k at level 200) : reading_scope.
Open Scope reading_scope.
Definition rfail {A} (e : IoError) : reading A := fun r => (Err e, r).

(** ** Readers as functions of the bytes that arrive *)

(** The reader takes from every stream that delivers [b] what [f b] says, and
    leaves the rest in it; it fails when [f b] is undefined. *)
Definition agrees {A} (m : reading A) (f : list Z -> option (A * list Z)) : Prop :=
  forall r, Reader.no_error r = true ->
    match f (Reader.bytes r) with
    | Some (a, rest) => exists r', m r = (Ok a, r') /\ Reader.no_error r' = true /\ Reader.bytes r' = rest
    | None => exists e r', m r = (Err e, r')
    end.

Lemma read_exact_from_ok fuel n r acc : Reader.no_error r = true -> (n <= fuel)%nat ->
  if (n <=? length (Reader.bytes r))%nat
  then exists r', read_exact_from fuel n r acc = (Ok (acc ++ take n (Reader.bytes r)), r') /\
         Reader.no_error r' = true /\ Reader.bytes r' = drop n (Reader.bytes r)
  else exists r', read_exact_from fuel n r acc = (Err UnexpectedEof, r').
Proof.
  revert n r acc; induction fuel as [|fuel IH]; intros n r acc Hr Hn.
  { replace n with 0%nat by lia. cbn. rewrite app_nil_r. eauto. }
  destruct n as [|n]; [cbn; rewrite app_nil_r; eauto|]. cbn [read_exact_from].
  destruct (Reader.read_ok (S n) r) as (c & r' & -> & Hl & He & Hm); [lia|done|]. destruct c as [|b c].
  - rewrite He by done. cbn. eauto.
  - destruct Hm as [Eb Hr']; [done|]. specialize (IH (S n - length (b :: c))%nat r' (acc ++ b :: c) Hr').
    rewrite Eb, length_app in *. assert (S n - length (b :: c) <= fuel)%nat as Hf by (simpl; lia). specialize (IH Hf).
    destruct (Nat.leb_spec (S n) (length (b :: c) + length (Reader.bytes r'))) as [Hle|Hgt].
    + rewrite (proj2 (Nat.leb_le _ _)) in IH by lia. destruct IH as (r2 & -> & Hr2 & Eb2). exists r2.
      rewrite take_app_ge, drop_app_ge by lia. by rewrite <- app_assoc.
    + rewrite (proj2 (Nat.leb_gt _ _)) in IH by lia. done.
Qed.
Lemma read_exact_agrees n : agrees (read_exact n) (fun b => if (n <=? length b)%nat then Some (take n b, drop n b) else None).
Proof.
  intros r Hr. pose proof (read_exact_from_ok n n r [] Hr ltac:(lia)) as H. unfold read_exact.
  destruct (n <=? length (Reader.bytes r))%nat; [done|]. destruct H as [r' ->]. eauto.
Qed.
Lemma agrees_ret {A} (a : A) : agrees (rret a) (fun b => Some (a, b)).
Proof. intros r Hr. eauto. Qed.
Lemma agrees_fail {A} e : agrees (@rfail A e) (fun _ => None).
Proof. intros r Hr. unfold rfail. eauto. Qed.
Lemma agrees_bind {A B} (m : reading A) (k : A -> reading B) f g :
  agrees m f -> (forall a, agrees (k a) (g a)) -> agrees (rbind m k) (fun b => '(a, rest) ← f b; g a rest).
Proof.
  intros Hm Hk r Hr. specialize (Hm r Hr). unfold rbind. destruct (f (Reader.bytes r)) as [[a rest]|]; cbn [mbind option_bind].
  - destruct Hm as (r' & -> & Hr' & <-). by apply (Hk a r').
  - destruct Hm as (e & r' & ->). eauto.
Qed.
Lemma agrees_ext {A} (m : reading A) f g : agrees m f -> (forall b, f b = g b) -> agrees m g.
Proof. intros H E r Hr. rewrite <- E. by apply H. Qed.
