(* ===== verification/Tuic.v ===== *)
(** * Tuic: the TUIC v5 wire codec (src/inbound/tuic/codec.rs)

    Addresses and packet commands, parsed from whole datagrams and read
    incrementally from streams. A packet that is sent is parsed back, and the
    stream reader and the buffer parser accept the same addresses. *)

From Stdlib Require Import ZArith Lia String.
From stdpp Require Import prelude strings list.
From S2P Require Import Prelude RustStr Net NetProps Util RustFmt Frame Stream.

Definition VERSION : Z := 5.
Definition PACKET : Z := 2.
Definition HEARTBEAT : Z := 4.
Definition ATYP_NONE : Z := 255.
Definition ATYP_DOMAIN : Z := 0.
Definition ATYP_V4 : Z := 1.
Definition ATYP_V6 : Z := 2.

Inductive Address :=
| ANone
| ADomain (h : str) (p : Z)
| AV4 (ip : Z) (p : Z)
| AV6 (ip : Z) (p : Z).
#[global] Instance Address_dec : EqDecision Address.
Proof. solve_decision. Defined.

Definition host_port (a : Address) : option (str * Z) :=
  match a with
  | ANone => None
  | ADomain h p => Some (h, p)
  | AV4 ip p => Some (display_v4 ip, p)
  | AV6 ip p => Some (display_v6 ip, p)
  end.
Definition from_host_port (host : str) (port : Z) : Address :=
  match parse_ipv4_addr host with
  | Some v4 => AV4 v4 port
  | None => match parse_ipv6_addr host with
            | Some v6 => AV6 v6 port
            | None => ADomain host port
            end
  end.
Definition address_encode (a : Address) : list Z :=
  match a with
  | ANone => [ATYP_NONE]
  | ADomain h p =>
      let l := Nat.min (length h) 255 in
      [ATYP_DOMAIN; Z.of_nat l] ++ take l h ++ to_be_bytes 2 p
  | AV4 ip p => [ATYP_V4] ++ to_be_bytes 4 ip ++ to_be_bytes 2 p
  | AV6 ip p => [ATYP_V6] ++ to_be_bytes 16 ip ++ to_be_bytes 2 p
  end.

(** ** Stream readers *)

Definition read_u16 : reading Z := let! p := read_exact 2 in rret (from_be_bytes p).
Definition read_command_type : reading Z :=
  let! hdr := read_exact 2 in
  if negb (nth 0 hdr 0 =? VERSION) then rfail InvalidData else rret (nth 1 hdr 0).
Definition read_authenticate : reading (list Z * list Z) :=
  let! uuid := read_exact 16 in
  let! token := read_exact 32 in
  rret (uuid, token).
Definition read_address : reading Address :=
  let! t := read_exact 1 in
  let t := nth 0 t 0 in
  if t =? ATYP_NONE then rret ANone
  else if t =? ATYP_DOMAIN then
    let! l := read_exact 1 in
    let! d := read_exact (Z.to_nat (nth 0 l 0)) in
    let! port := read_u16 in
    rret (ADomain (from_utf8_lossy d) port)
  else if t =? ATYP_V4 then
    let! a := read_exact 4 in
    let! p := read_u16 in
    rret (AV4 (from_be_bytes a) p)
  else if t =? ATYP_V6 then
    let! a := read_exact 16 in
    let! p := read_u16 in
    rret (AV6 (from_be_bytes a) p)
  else rfail InvalidData.

(** ** Datagrams *)

Definition bad {A} (msg : string) : result string A := Err msg.

Definition parse_address (buf : list Z) : result string (Address * nat) :=
  t ← ok_or (head buf) "tuic: empty address"%string;
  if t =? ATYP_NONE then Ok (ANone, 1%nat)
  else if t =? ATYP_DOMAIN then
    l ← ok_or (buf !! 1%nat) "tuic: address domain len"%string;
    let end_ := (2 + Z.to_nat l)%nat in
    if (length buf <? end_ + 2)%nat then bad "tuic: address domain truncated"
    else
      let host := from_utf8_lossy (take (Z.to_nat l) (drop 2 buf)) in
      let port := from_be_bytes (take 2 (drop end_ buf)) in
      Ok (ADomain host port, (end_ + 2)%nat)
  else if t =? ATYP_V4 then
    if (length buf <? 7)%nat then bad "tuic: address v4 truncated"
    else Ok (AV4 (from_be_bytes (take 4 (drop 1 buf))) (from_be_bytes (take 2 (drop 5 buf))), 7%nat)
  else if t =? ATYP_V6 then
    if (length buf <? 19)%nat then bad "tuic: address v6 truncated"
    else Ok (AV6 (from_be_bytes (take 16 (drop 1 buf))) (from_be_bytes (take 2 (drop 17 buf))), 19%nat)
  else bad "tuic: bad address type".

Record PacketHeader := mkHeader {
  assoc_id : Z;
  pkt_id : Z;
  frag_total : Z;
  frag_id : Z;
  size : Z;
  addr : Address;
}.
Inductive DatagramCommand := Packet (h : PacketHeader) (payload : list Z) | Heartbeat.

Definition parse_packet_header (buf : list Z) : result string (PacketHeader * nat) :=
  if (length buf <? 8)%nat then bad "tuic: packet header too short"
  else
    let assoc_id := from_be_bytes (take 2 buf) in
    let pkt_id := from_be_bytes (take 2 (drop 2 buf)) in
    let frag_total := nth 4 buf 0 in
    let frag_id := nth 5 buf 0 in
    let size := from_be_bytes (take 2 (drop 6 buf)) in
    '(addr, addr_len) ← parse_address (drop 8 buf);
    Ok (mkHeader assoc_id pkt_id frag_total frag_id size addr, (8 + addr_len)%nat).

Definition parse_datagram (buf : list Z) : result string DatagramCommand :=
  if (length buf <? 2)%nat then bad "tuic: datagram too short"
  else if negb (nth 0 buf 0 =? VERSION) then bad "tuic: datagram bad version"
  else
    let command := nth 1 buf 0 in
    if command =? HEARTBEAT then Ok Heartbeat
    else if command =? PACKET then
      '(hdr, off) ← parse_packet_header (drop 2 buf);
      let start := (2 + off)%nat in
      end_ ← ok_or (checked_add 64 (Z.of_nat start) (size hdr)) "tuic: packet size overflow"%string;
      let end_ := Z.to_nat end_ in
      if (length buf <? end_)%nat then bad "tuic: packet payload truncated"
      else Ok (Packet hdr (take (end_ - start) (drop start buf)))
    else bad "tuic: unsupported datagram command".

(** The size field is the payload's length cast to sixteen bits. *)
Definition encode_packet_datagram (assoc_id pkt_id : Z) (addr : Address) (payload : list Z) : list Z :=
  [VERSION; PACKET] ++ to_be_bytes 2 assoc_id ++ to_be_bytes 2 pkt_id ++ [1; 0]
  ++ to_be_bytes 2 (wrap 16 (Z.of_nat (length payload))) ++ address_encode addr ++ payload.

(** ** Readers as functions of the bytes that arrive *)

(** What [read_address] takes from the bytes, through the buffer parser *)
Definition take_address (b : list Z) : option (Address * list Z) :=
  match parse_address b with Ok (a, n) => Some (a, drop n b) | Err _ => None end.

Definition read_u16_spec (b : list Z) : option (Z * list Z) :=
  if (2 <=? length b)%nat then Some (from_be_bytes (take 2 b), drop 2 b) else None.
Lemma read_u16_agrees : agrees read_u16 read_u16_spec.
Proof.
  eapply agrees_ext; [apply agrees_bind; [apply read_exact_agrees|intros p; apply agrees_ret]|].
  intros b. unfold read_u16_spec. cbv beta. by destruct (2 <=? length b)%nat.
Qed.
Lemma fixed_address_agrees n (c : Z -> Z -> Address) :
  agrees (let! a := read_exact n in let! p := read_u16 in rret (c (from_be_bytes a) p))
    (fun b => if (length b <? n + 2)%nat then None
              else Some (c (from_be_bytes (take n b)) (from_be_bytes (take 2 (drop n b))), drop (n + 2) b)).
Proof.
  eapply agrees_ext; [apply agrees_bind; [apply read_exact_agrees|intros a; apply agrees_bind;
    [apply read_u16_agrees|intros p; apply agrees_ret]]|]. intros b. cbv beta. unfold read_u16_spec.
  destruct (Nat.leb_spec n (length b)), (Nat.ltb_spec (length b) (n + 2)); try lia; cbn [mbind option_bind]; [|..|done];
    rewrite length_drop.
  - by rewrite (proj2 (Nat.leb_gt _ _)) by lia.
  - rewrite (proj2 (Nat.leb_le _ _)) by lia. cbn [mbind option_bind]. by rewrite drop_drop.
Qed.
Lemma domain_agrees :
  agrees (let! l := read_exact 1 in let! d := read_exact (Z.to_nat (nth 0 l 0)) in
          let! port := read_u16 in rret (ADomain (from_utf8_lossy d) port))
    (fun b => match b with
              | [] => None
              | l :: t => let n := Z.to_nat l in
                  if (length t <? n + 2)%nat then None
                  else Some (ADomain (from_utf8_lossy (take n t)) (from_be_bytes (take 2 (drop n t))), drop (n + 2) t)
              end).
Proof.
  eapply agrees_ext; [apply agrees_bind; [apply read_exact_agrees|intros l; apply agrees_bind; [apply read_exact_agrees|
    intros d; apply agrees_bind; [apply read_u16_agrees|intros p; apply agrees_ret]]]|].
  intros [|l t]; [done|]. cbn [length Nat.leb take drop mbind option_bind nth]. rewrite drop_0. cbv zeta. unfold read_u16_spec.
  destruct (Nat.leb_spec (Z.to_nat l) (length t)), (Nat.ltb_spec (length t) (Z.to_nat l + 2)); try lia; cbn [mbind option_bind]; [|..|done];
    rewrite length_drop.
  - by rewrite (proj2 (Nat.leb_gt _ _)) by lia.
  - rewrite (proj2 (Nat.leb_le _ _)) by lia. cbn [mbind option_bind]. by rewrite drop_drop.
Qed.

(** The incremental reader and the whole-buffer parser of addresses are the
    same function: over every fragmentation, a stream read yields exactly the
    address the parser finds at the front of the bytes and leaves the rest, and
    fails exactly when the parser does. *)
Theorem tuic_stream_agrees : agrees read_address take_address.
Proof.
  eapply agrees_ext; [eapply (agrees_bind _ _ _ (fun t b =>
     let t := nth 0 t 0 in
     if t =? ATYP_NONE then Some (ANone, b)
     else if t =? ATYP_DOMAIN then
       match b with
       | [] => None
       | l :: u => let n := Z.to_nat l in
           if (length u <? n + 2)%nat then None
           else Some (ADomain (from_utf8_lossy (take n u)) (from_be_bytes (take 2 (drop n u))), drop (n + 2) u)
       end
     else if t =? ATYP_V4 then
       if (length b <? 4 + 2)%nat then None
       else Some (AV4 (from_be_bytes (take 4 b)) (from_be_bytes (take 2 (drop 4 b))), drop (4 + 2) b)
     else if t =? ATYP_V6 then
       if (length b <? 16 + 2)%nat then None
       else Some (AV6 (from_be_bytes (take 16 b)) (from_be_bytes (take 2 (drop 16 b))), drop (16 + 2) b)
     else None)); [apply read_exact_agrees|]|].
  - intros t. cbv zeta. repeat (case_match; [first [apply agrees_ret|apply domain_agrees|apply fixed_address_agrees]|]).
    apply agrees_fail.
  - intros [|t b]; [done|]. cbn [length Nat.leb take drop mbind option_bind nth]. rewrite drop_0. cbv zeta.
    unfold take_address, parse_address. cbn [head ok_or mbind result_bind length].
    destruct (t =? ATYP_NONE); [done|]. destruct (t =? ATYP_DOMAIN); [destruct b as [|l b]; [done|]|].
    + cbn [lookup list_lookup ok_or mbind result_bind length drop]. rewrite drop_0. cbv zeta.
      destruct (Nat.ltb_spec (length b) (Z.to_nat l + 2)), (Nat.ltb_spec (S (S (length b))) (2 + Z.to_nat l + 2)); try lia; done.
    + destruct (t =? ATYP_V4); [by destruct (Nat.ltb_spec (length b) (4 + 2)), (Nat.ltb_spec (S (length b)) 7); try lia|].
      destruct (t =? ATYP_V6); [|done].
      by destruct (Nat.ltb_spec (length b) (16 + 2)), (Nat.ltb_spec (S (length b)) 19); try lia.
Qed.

(** ** Packets *)

Definition address_ok (a : Address) : Prop :=
  match a with
  | ANone => True
  | ADomain h p => utf8_valid h = true /\ (length h <= 255)%nat /\ fits 16 p
  | AV4 ip p => fits 32 ip /\ fits 16 p
  | AV6 ip p => fits 128 ip /\ fits 16 p
  end.
Lemma parse_address_encode a t : address_ok a -> parse_address (address_encode a ++ t) = Ok (a, length (address_encode a)).
Proof.
  pose proof (length_to_be_bytes 2) as L2. pose proof (length_to_be_bytes 4) as L4. pose proof (length_to_be_bytes 16) as L16.
  destruct a as [|h p|ip p|ip p]; cbn [address_ok address_encode]; unfold parse_address; [done|..].
  - intros (Hu & Hl & Hp). rewrite Nat.min_l by done. rewrite (take_ge h) by lia.
    cbn [app head ok_or mbind result_bind]. change (ATYP_DOMAIN =? ATYP_NONE) with false. rewrite Z.eqb_refl.
    cbn [lookup list_lookup ok_or mbind result_bind length drop]. rewrite drop_0, Nat2Z.id. cbv zeta.
    rewrite !length_app, L2. destruct (Nat.ltb_spec (S (S (length h + 2 + length t))) (2 + length h + 2)); [lia|].
    rewrite <- app_assoc. change (drop (2 + length h) _) with (drop (length h) (h ++ to_be_bytes 2 p ++ t)).
    rewrite take_app_length, drop_app_length, (take_app_len _ _ 2) by done.
    rewrite from_utf8_lossy_valid, from_to_be_bytes by done. done.
  - intros (Hi & Hp). cbn [app head ok_or mbind result_bind]. change (ATYP_V4 =? ATYP_NONE) with false.
    change (ATYP_V4 =? ATYP_DOMAIN) with false. rewrite Z.eqb_refl. cbn iota. cbn [length]. rewrite !length_app, L4, L2.
    destruct (Nat.ltb_spec (S (4 + 2 + length t)) 7); [lia|]. rewrite <- app_assoc.
    change (drop 1 (ATYP_V4 :: ?x)) with x. change (drop 5 (ATYP_V4 :: ?x)) with (drop 4 x).
    rewrite (take_app_len _ _ 4), (drop_app_len _ _ 4), (take_app_len _ _ 2) by done. by rewrite !from_to_be_bytes.
  - intros (Hi & Hp). cbn [app head ok_or mbind result_bind]. change (ATYP_V6 =? ATYP_NONE) with false.
    change (ATYP_V6 =? ATYP_DOMAIN) with false. change (ATYP_V6 =? ATYP_V4) with false. rewrite Z.eqb_refl. cbn iota.
    cbn [length]. rewrite !length_app, L16, L2.
    destruct (Nat.ltb_spec (S (16 + 2 + length t)) 19); [lia|]. rewrite <- app_assoc.
    change (drop 1 (ATYP_V6 :: ?x)) with x. change (drop 17 (ATYP_V6 :: ?x)) with (drop 16 x).
    rewrite (take_app_len _ _ 16), (drop_app_len _ _ 16), (take_app_len _ _ 2) by done. by rewrite !from_to_be_bytes.
Qed.
Lemma length_address_encode a : address_ok a -> (length (address_encode a) <= 259)%nat.
Proof.
  destruct a as [|h p|ip p|ip p]; cbn [address_ok address_encode]; intros H;
    rewrite ?length_app, ?length_to_be_bytes, ?length_take; cbn [length]; lia.
Qed.
Lemma parse_packet_header_encode aid pid sz a t :
  fits 16 aid -> fits 16 pid -> fits 16 sz -> address_ok a ->
  parse_packet_header (to_be_bytes 2 aid ++ to_be_bytes 2 pid ++ [1; 0] ++ to_be_bytes 2 sz ++ address_encode a ++ t)
  = Ok (mkHeader aid pid 1 0 sz a, (8 + length (address_encode a))%nat).
Proof.
  intros Ha Hp Hs Hadr. pose proof (length_to_be_bytes 2) as L2. unfold parse_packet_header.
  set (b := to_be_bytes 2 aid ++ _).
  assert (drop 2 b = to_be_bytes 2 pid ++ [1; 0] ++ to_be_bytes 2 sz ++ address_encode a ++ t) as D2 by (by apply drop_app_len).
  assert (drop 4 b = [1; 0] ++ to_be_bytes 2 sz ++ address_encode a ++ t) as D4.
  { change 4%nat with (2 + 2)%nat. rewrite <- drop_drop, D2. by apply drop_app_len. }
  assert (drop 6 b = to_be_bytes 2 sz ++ address_encode a ++ t) as D6.
  { change 6%nat with (4 + 2)%nat. by rewrite <- drop_drop, D4. }
  assert (drop 8 b = address_encode a ++ t) as D8.
  { change 8%nat with (6 + 2)%nat. rewrite <- drop_drop, D6. by apply drop_app_len. }
  assert (forall i x, b !! i = Some x -> nth i b 0 = x) as Hnth by (intros i x Hx; by apply nth_lookup_Some).
  assert (length b = 8 + length (address_encode a ++ t))%nat as Hl.
  { unfold b. rewrite !length_app, !L2. cbn [length]. lia. }
  destruct (Nat.ltb_spec (length b) 8); [lia|]. cbv zeta.
  rewrite (Hnth 4%nat 1), (Hnth 5%nat 0).
  2:{ change 5%nat with (4 + 1)%nat. by rewrite <- lookup_drop, D4. }
  2:{ change 4%nat with (4 + 0)%nat. by rewrite <- lookup_drop, D4. }
  rewrite D2, D6, D8, parse_address_encode by done. cbn [mbind result_bind].
  unfold b. rewrite !(take_app_len _ _ 2) by done. by rewrite !from_to_be_bytes.
Qed.

(** A packet command that is encoded, with a payload a UDP datagram can
    carry, parses back to the same association, packet id, address and payload
    as a single fragment, whatever trails the datagram. *)
Theorem tuic_packet_roundtrip aid pid a payload trailing :
  fits 16 aid -> fits 16 pid -> address_ok a -> Z.of_nat (length payload) <= u16_max ->
  parse_datagram (encode_packet_datagram aid pid a payload ++ trailing)
  = Ok (Packet (mkHeader aid pid 1 0 (Z.of_nat (length payload)) a) payload).
Proof.
  intros Ha Hp Hadr Hl. pose proof (length_address_encode a Hadr) as La.
  assert (fits 16 (Z.of_nat (length payload))) as Hs by (unfold fits, u16_max in *; lia).
  unfold encode_packet_datagram. rewrite wrap_fits by done. rewrite <- !app_assoc. unfold parse_datagram.
  set (t := to_be_bytes 2 aid ++ _). change ([VERSION; PACKET] ++ t) with (VERSION :: PACKET :: t).
  cbn [length nth]. change (S (S (length t)) <? 2)%nat with false. rewrite Z.eqb_refl.
  change (negb true) with false. change (PACKET =? HEARTBEAT) with false. change (PACKET =? PACKET) with true. cbv zeta iota.
  change (drop 2 (VERSION :: PACKET :: t)) with t.
  assert (parse_packet_header t = Ok (mkHeader aid pid 1 0 (Z.of_nat (length payload)) a, (8 + length (address_encode a))%nat))
    as -> by (by apply parse_packet_header_encode).
  cbn [mbind result_bind size].
  assert (checked_add 64 (Z.of_nat (2 + (8 + length (address_encode a)))) (Z.of_nat (length payload))
          = Some (Z.of_nat (10 + length (address_encode a) + length payload))) as ->.
  { apply checked_add_Some. destruct Hs. unfold fits. split; lia. }
  cbn [ok_or mbind result_bind]. rewrite Nat2Z.id.
  assert (drop (8 + length (address_encode a)) t = payload ++ trailing) as Ed.
  { unfold t. rewrite <- drop_drop.
    replace (drop 8 _) with (address_encode a ++ payload ++ trailing); [by apply drop_app_len|].
    symmetry. rewrite !(app_assoc _ _ (address_encode a ++ _)). apply drop_app_len.
    rewrite !length_app, !length_to_be_bytes. done. }
  assert (length t = 8 + length (address_encode a) + length (payload ++ trailing))%nat as Lt.
  { unfold t. rewrite !length_app, !length_to_be_bytes. cbn [length]. lia. }
  rewrite length_app in Lt. destruct (Nat.ltb_spec (S (S (length t))) (10 + length (address_encode a) + length payload)); [lia|].
  change (drop (2 + (8 + length (address_encode a))) (VERSION :: PACKET :: t)) with (drop (8 + length (address_encode a)) t).
  rewrite Ed. do 2 f_equal. apply take_app_len. lia.
Qed.
Lemma tuic_packet_roundtrip_witness :
  parse_datagram (encode_packet_datagram 3 9 (ADomain (lit "a.example") 53) [1; 2; 3] ++ [0])
  = Ok (Packet (mkHeader 3 9 1 0 3 (ADomain (lit "a.example") 53)) [1; 2; 3]).
Proof.
  apply (tuic_packet_roundtrip 3 9 (ADomain (lit "a.example") 53) [1; 2; 3] [0]); [done|done| |apply Z.leb_le; reflexivity].
  split_and!; [done|apply Nat.leb_le; vm_compute; reflexivity|done].
Defined.

(** [from_host_port] undoes [host_port]. *)
Lemma from_host_port_address a h p : address_ok a -> host_port a = Some (h, p) ->
  match a with ADomain d _ => parse_ipv4_addr d = None /\ parse_ipv6_addr d = None | _ => True end -> from_host_port h p = a.
Proof.
  destruct a as [|d q|ip q|ip q]; cbn [host_port address_ok]; intros Ha [= <- <-] Hd; unfold from_host_port.
  - by destruct Hd as [-> ->].
  - assert (length (display_v4 ip) <= 15)%nat as Hl by apply length_v4_text. unfold parse_ipv4_addr.
    rewrite (proj2 (Nat.ltb_ge _ _) Hl). unfold parse_with. rewrite <- (app_nil_r (display_v4 ip)).
    destruct Ha as [Ha _]. by rewrite read_ipv4_display.
  - destruct Ha as [Ha _]. unfold parse_ipv4_addr, parse_ipv6_addr, parse_with.
    rewrite <- (app_nil_r (display_v6 ip)), read_ipv4_display_v6, read_ipv6_display by done.
    by destruct (15 <? _)%nat.
Qed.
