(* ===== verification/Replay.v ===== *)
(** * Replay: the anti-replay window of src/src/subnetra/replay.rs

    [ReplayWindow] is the pair of machine words the code keeps; [check_and_set]
    is its one operation. The abstract specification [Spec] keeps the list of
    every sequence number ever accepted; the window refines it, so a number is
    accepted exactly when it was never accepted before and lies less than 64
    below the highest accepted number. *)

From Stdlib Require Import ZArith Lia.
From stdpp Require Import prelude list.
From S2P Require Import Prelude.

(** [const WINDOW: u64 = 64] *)
Definition WINDOW : Z := 64.

Record ReplayWindow := mkWindow { highest : Z; bitmap : Z }.

(** [ReplayWindow::new], [Default] *)
Definition replay_new : ReplayWindow := mkWindow 0 0.

(** [ReplayWindow::reset]: both words cleared whatever they held. *)
Definition replay_reset (w : ReplayWindow) : ReplayWindow := mkWindow 0 0.

(** [ReplayWindow::check_and_set]: the new window and the verdict. *)
Definition check_and_set (w : ReplayWindow) (seq : Z) : ReplayWindow * bool :=
  if highest w <? seq then
    let shift := seq - highest w in
    let b := if WINDOW <=? shift then 0 else wrap 64 (Z.shiftl (bitmap w) shift) in
    (mkWindow seq (Z.lor b 1), true)
  else
    let diff := highest w - seq in
    if WINDOW <=? diff then (w, false)
    else
      let mask := wrap 64 (Z.shiftl 1 diff) in
      if negb (Z.land (bitmap w) mask =? 0) then (w, false)
      else (mkWindow (highest w) (Z.lor (bitmap w) mask), true).

(** ** Abstract specification: the history of accepted numbers *)

Module Spec.

(** Highest accepted number, [0] when none was. *)
Definition top (acc : list Z) : Z := foldr Z.max 0 acc.

Definition accepts (acc : list Z) (seq : Z) : bool :=
  bool_decide (seq ∉ acc) && (top acc - seq <? WINDOW).

Definition check (acc : list Z) (seq : Z) : list Z * bool :=
  if accepts acc seq then (seq :: acc, true) else (acc, false).

Lemma top_nonneg acc : 0 <= top acc.
Proof. induction acc; simpl; lia. Qed.
Lemma le_top acc s : s ∈ acc -> s <= top acc.
Proof. induction 1; simpl; lia. Qed.

End Spec.

(** ** The refinement relation *)

Record window_refines (w : ReplayWindow) (acc : list Z) : Prop := {
  wr_bitmap : fits 64 (bitmap w);
  wr_highest : highest w = Spec.top acc;
  wr_range : Forall (fits 64) acc;
  wr_bits : forall i, 0 <= i < 64 ->
    Z.testbit (bitmap w) i = true <-> highest w - i ∈ acc
}.

Lemma new_refines : window_refines replay_new [].
Proof.
  split; simpl; [done|done|constructor|].
  intros i Hi. rewrite Z.bits_0, elem_of_nil. done.
Qed.

Lemma testbit_above_64 b i : fits 64 b -> 64 <= i -> Z.testbit b i = false.
Proof. apply testbit_above. lia. Qed.

Lemma testbit_wrap b i : 0 <= i -> Z.testbit (wrap 64 b) i = (i <? 64) && Z.testbit b i.
Proof.
  intros Hi. unfold wrap. rewrite Z.testbit_mod_pow2 by lia. done.
Qed.

Lemma mask_bit diff : 0 <= diff < 64 -> wrap 64 (Z.shiftl 1 diff) = 2 ^ diff.
Proof.
  intros H. rewrite Z.shiftl_1_l, wrap_fits; [done|]. split; [lia|].
  apply Z.pow_lt_mono_r; lia.
Qed.

(** Advancing past the highest number. *)
Lemma advance_refines w acc seq :
  window_refines w acc -> fits 64 seq -> highest w < seq ->
  window_refines (fst (check_and_set w seq)) (seq :: acc).
Proof.
  intros [Hb Hh Hr Hbits] Hs Hlt. unfold check_and_set.
  rewrite (proj2 (Z.ltb_lt _ _)) by lia. simpl.
  pose proof (Spec.top_nonneg acc) as Htop.
  assert (fits 64 1) as H1 by done.
  split; simpl.
  - apply fits_lor; [|done]. destruct (_ <=? _); [done|]. apply wrap_range. lia.
  - lia.
  - by constructor.
  - intros i Hi. rewrite Z.lor_spec, elem_of_cons, orb_true_iff.
    change 1 with (2 ^ 0). rewrite testbit_pow2, Z.eqb_eq by lia.
    destruct (decide (i = 0)) as [->|Hi0].
    { split; intros; [left; lia|by right]. }
    assert (seq - i ∈ acc <-> i >= seq - highest w /\ seq - i ∈ acc) as ->.
    { split; [|tauto]. intros Hin. split; [|done].
      apply Spec.le_top in Hin. lia. }
    unfold WINDOW. destruct (Z.leb_spec 64 (seq - highest w)).
    + rewrite Z.bits_0. split; [intros [?|?]; [done|lia]|intros [?|?]; lia].
    + rewrite testbit_wrap by lia. rewrite Z.shiftl_spec by lia.
      rewrite (proj2 (Z.ltb_lt i 64)) by lia. simpl.
      destruct (Z.ltb_spec i (seq - highest w)).
      * rewrite Z.testbit_neg_r by lia. split; [intros [?|?]; [done|lia]|intros [?|?]; lia].
      * rewrite Hbits by lia.
        replace (highest w - (i - (seq - highest w))) with (seq - i) by lia.
        split; [intros [?|?]; [right; split; [lia|done]|lia]|intros [?|[_ ?]]; [lia|by left]].
Qed.

(** One step of the code is one step of the specification. *)
Lemma check_refines w acc seq :
  window_refines w acc -> fits 64 seq ->
  snd (check_and_set w seq) = snd (Spec.check acc seq) /\
  window_refines (fst (check_and_set w seq)) (fst (Spec.check acc seq)).
Proof.
  intros HR Hs. pose proof HR as [Hb Hh Hr Hbits].
  destruct (Z.ltb_spec (highest w) seq) as [Hlt|Hge].
  - assert (Spec.accepts acc seq = true) as Hacc.
    { unfold Spec.accepts, WINDOW. rewrite andb_true_iff, Z.ltb_lt, bool_decide_eq_true.
      split; [|lia]. intros ?%Spec.le_top. lia. }
    unfold Spec.check. rewrite Hacc. simpl. split; [|by apply advance_refines].
    unfold check_and_set. by rewrite (proj2 (Z.ltb_lt _ _)) by lia.
  - unfold check_and_set, Spec.check, Spec.accepts.
    rewrite (proj2 (Z.ltb_ge _ _)) by lia. rewrite <- Hh. unfold WINDOW.
    destruct (Z.leb_spec 64 (highest w - seq)).
    { rewrite (proj2 (Z.ltb_ge _ 64)) by lia. rewrite andb_false_r. done. }
    rewrite (proj2 (Z.ltb_lt _ 64)) by lia. rewrite andb_true_r.
    rewrite mask_bit, land_pow2_testbit, negb_involutive by lia.
    pose proof (Hbits (highest w - seq)) as Hbit.
    replace (highest w - (highest w - seq)) with seq in Hbit by lia.
    destruct (Z.testbit (bitmap w) (highest w - seq)) eqn:Et.
    { rewrite bool_decide_eq_false_2 by (intros Hn; apply Hn, Hbit; [lia|done]). done. }
    rewrite bool_decide_eq_true_2 by (intros Hn; apply Hbit in Hn; [congruence|lia]).
    simpl. split; [done|]. split; simpl.
    + apply fits_lor; [done|]. split; [lia|]. apply Z.pow_lt_mono_r; lia.
    + lia.
    + by constructor.
    + intros i Hi. rewrite Z.lor_spec, orb_true_iff, elem_of_cons, testbit_pow2, Z.eqb_eq by lia.
      rewrite Hbits by lia. split; (intros [?|?]; [|]); auto with lia.
Qed.

(** ** Runs: a sequence of calls on a fresh window *)

Fixpoint run (w : ReplayWindow) (seqs : list Z) : ReplayWindow * list bool :=
  match seqs with
  | [] => (w, [])
  | s :: seqs =>
      let '(w', b) := check_and_set w s in
      let '(w'', bs) := run w' seqs in (w'', b :: bs)
  end.
Fixpoint spec_run (acc : list Z) (seqs : list Z) : list Z * list bool :=
  match seqs with
  | [] => (acc, [])
  | s :: seqs =>
      let '(acc', b) := Spec.check acc s in
      let '(acc'', bs) := spec_run acc' seqs in (acc'', b :: bs)
  end.

Lemma run_refines_gen w acc seqs :
  window_refines w acc -> Forall (fits 64) seqs ->
  snd (run w seqs) = snd (spec_run acc seqs) /\
  window_refines (fst (run w seqs)) (fst (spec_run acc seqs)).
Proof.
  intros HR Hs. revert w acc HR; induction Hs as [|s seqs Hs _ IH]; intros w acc HR; [done|].
  simpl. destruct (check_refines w acc s HR Hs) as [Hb HR'].
  destruct (check_and_set w s) as [w' b], (Spec.check acc s) as [acc' b']. simpl in *. subst b'.
  destruct (IH w' acc' HR') as [Hbs HR''].
  destruct (run w' seqs) as [w'' bs], (spec_run acc' seqs) as [acc'' bs']. simpl in *. by subst.
Qed.

(** The numbers a run accepted, in order. *)
Fixpoint accepted (seqs : list Z) (bs : list bool) : list Z :=
  match seqs, bs with
  | s :: seqs, b :: bs => if b then s :: accepted seqs bs else accepted seqs bs
  | _, _ => []
  end.

Lemma spec_run_history acc seqs :
  fst (spec_run acc seqs) = rev (accepted seqs (snd (spec_run acc seqs))) ++ acc.
Proof.
  revert acc; induction seqs as [|s seqs IH]; intros acc; simpl; [done|].
  unfold Spec.check. destruct (Spec.accepts acc s) eqn:Ha.
  - specialize (IH (s :: acc)). destruct (spec_run (s :: acc) seqs) as [acc'' bs]. simpl in *.
    by rewrite IH, <- app_assoc.
  - specialize (IH acc). destruct (spec_run acc seqs) as [acc'' bs]. simpl in *.
    by rewrite IH.
Qed.

Lemma spec_run_nodup acc seqs : NoDup acc -> NoDup (fst (spec_run acc seqs)).
Proof.
  revert acc; induction seqs as [|s seqs IH]; intros acc H; simpl; [done|].
  unfold Spec.check. destruct (Spec.accepts acc s) eqn:Ha.
  - unfold Spec.accepts in Ha. bools.
    specialize (IH (s :: acc)). destruct (spec_run (s :: acc) seqs). simpl in *.
    apply IH. by constructor.
  - specialize (IH acc). destruct (spec_run acc seqs). simpl in *. by apply IH.
Qed.

(** ** Properties *)

(** C1: on any sequence of [u64] sequence numbers fed to a fresh window, the
    verdicts of the bitmap code are exactly those of the specification that
    remembers every accepted number: accepted iff never accepted before and
    less than 64 below the highest accepted number so far. *)
Theorem replay_run_refines_spec seqs (Hseqs : Forall (fits 64) seqs) :
  snd (run replay_new seqs) = snd (spec_run [] seqs).
Proof. apply run_refines_gen; [apply new_refines|done]. Qed.

Lemma replay_run_refines_spec_witness :
  snd (run replay_new [5; 3; 3; 100; 36; 37]) = [true; true; false; true; false; true] /\
  snd (run replay_new [5; 3; 3; 100; 36; 37]) = snd (spec_run [] [5; 3; 3; 100; 36; 37]).
Proof.
  split; [reflexivity|]. apply replay_run_refines_spec.
  repeat constructor; vm_compute; congruence.
Defined.

(** No sequence number is accepted twice, whatever the order, duplication
    or loss of the numbers presented. *)
Theorem replay_never_accepts_twice seqs (Hseqs : Forall (fits 64) seqs) :
  NoDup (accepted seqs (snd (run replay_new seqs))).
Proof.
  destruct (run_refines_gen replay_new [] seqs new_refines Hseqs) as [-> _].
  pose proof (spec_run_nodup [] seqs (NoDup_nil_2)) as H.
  rewrite spec_run_history, app_nil_r in H.
  by rewrite (Permutation_rev (accepted _ _)).
Qed.

Lemma replay_never_accepts_twice_witness :
  accepted [7; 7; 6; 7] (snd (run replay_new [7; 7; 6; 7])) = [7; 6] /\
  NoDup (accepted [7; 7; 6; 7] (snd (run replay_new [7; 7; 6; 7]))).
Proof.
  split; [reflexivity|]. apply replay_never_accepts_twice.
  repeat constructor; vm_compute; congruence.
Defined.
