(* ===== verification/Wire.v ===== *)
(** * Wire: key derivation and the datagram format of Subnetra

    Models src/src/subnetra/crypto.rs and src/src/subnetra/wire.rs. The two
    primitives the sources call, BLAKE2b-256 in keyed mode (crate blake2) and
    ChaCha20-Poly1305 (crate ring), are the operations of the class
    [CryptoPrims]; what the code relies on of them is the class [CryptoLaws]:
    output lengths and that opening a sealed buffer under the same key and
    nonce returns the plaintext. Nothing is assumed of a buffer that was not
    sealed. *)

From Stdlib Require Import ZArith Lia.
From stdpp Require Import prelude strings list.
From S2P Require Import Prelude RustStr.

Class CryptoPrims := {
  (** [Blake2bMac256] over the concatenated parts: key, message, 32-byte digest. *)
  blake2b_256 : list Z -> list Z -> list Z;
  (** [seal_in_place_append_tag]: key, nonce, associated data, plaintext. *)
  chacha_seal : list Z -> list Z -> list Z -> list Z -> list Z;
  (** [open_in_place]: key, nonce, associated data, [ciphertext || tag]. *)
  chacha_open : list Z -> list Z -> list Z -> list Z -> option (list Z)
}.

(** [crypto::KEY_LEN], [TAG_LEN], [HEADER_LEN], [NONCE_LEN] *)
Definition KEY_LEN : nat := 32.
Definition TAG_LEN : nat := 16.
Definition HEADER_LEN : nat := 20.
Definition NONCE_LEN : nat := 12.

Class CryptoLaws (C : CryptoPrims) : Prop := {
  blake2b_length k m : length (blake2b_256 k m) = KEY_LEN;
  blake2b_bytes k m : bytes_ok (blake2b_256 k m);
  seal_length k n a p : length (chacha_seal k n a p) = (length p + TAG_LEN)%nat;
  open_seal k n a p : chacha_open k n a (chacha_seal k n a p) = Some p
}.

(** KDF labels. *)
Definition LABEL_LINK : list Z := lit "subnetra-v1-link".
Definition LABEL_SESSION : list Z := lit "subnetra-v1-session".
Definition LABEL_OBFS : list Z := lit "subnetra-v1-obfs".

(** [wire::KEEPALIVE], [wire::WIRE_VERSION] *)
Definition KEEPALIVE : Z := 1.
Definition WIRE_VERSION : Z := 1.

(** ** Headers *)

Record Header := mkHeader {
  h_version : Z;
  h_flags : Z;
  h_key_id : Z;
  h_epoch : Z;
  h_seq : Z
}.
#[global] Instance Header_eq_dec : EqDecision Header.
Proof. solve_decision. Defined.

Definition header_wf (h : Header) : Prop :=
  fits 8 (h_version h) /\ fits 8 (h_flags h) /\ fits 16 (h_key_id h) /\
  fits 64 (h_epoch h) /\ fits 64 (h_seq h).

#[global] Instance header_wf_dec h : Decision (header_wf h).
Proof. unfold header_wf. apply _. Defined.

(** [bytes[i]] *)
Definition byte_at (bs : list Z) (i : nat) : Z := default 0 (bs !! i).
(** [bytes[i..j]] *)
Definition slice (bs : list Z) (i j : nat) : list Z := take (j - i) (drop i bs).

(** [Header::parse] *)
Definition Header_parse (bytes : list Z) : option Header :=
  if (length bytes <? HEADER_LEN)%nat then None
  else Some {|
    h_version := byte_at bytes 0;
    h_flags := byte_at bytes 1;
    h_key_id := from_le_bytes [byte_at bytes 2; byte_at bytes 3];
    h_epoch := from_le_bytes (slice bytes 4 12);
    h_seq := from_le_bytes (slice bytes 12 20)
  |}.

(** [Header::to_bytes] *)
Definition Header_to_bytes (h : Header) : list Z :=
  [h_version h] ++ [h_flags h] ++ to_le_bytes 2 (h_key_id h)
  ++ to_le_bytes 8 (h_epoch h) ++ to_le_bytes 8 (h_seq h).

(** [!x] on a [u8] *)
Definition u8_not (x : Z) : Z := 255 - x.

(** [Header::is_valid] *)
Definition Header_is_valid (h : Header) : bool :=
  (h_version h =? WIRE_VERSION) && (Z.land (h_flags h) (u8_not KEEPALIVE) =? 0)
  && negb (h_epoch h =? 0).

(** [Header::is_keepalive] *)
Definition Header_is_keepalive (h : Header) : bool :=
  negb (Z.land (h_flags h) KEEPALIVE =? 0).

(** [wire::datagram_tag] *)
Definition datagram_tag (datagram : list Z) : option (list Z) :=
  if (length datagram <? HEADER_LEN + TAG_LEN)%nat then None
  else Some (drop (length datagram - TAG_LEN) datagram).

(** [wire::demask_header]: bytewise xor over the 20 header bytes. *)
Definition demask_header (masked pad : list Z) : list Z :=
  zip_with Z.lxor (take HEADER_LEN masked) pad.

(** [wire::split]: header slice and body slice. *)
Definition split_datagram (datagram : list Z) : option (list Z * list Z) :=
  if (length datagram <? HEADER_LEN + TAG_LEN)%nat then None
  else Some (take HEADER_LEN datagram, drop HEADER_LEN datagram).

Section Crypto.
Context {C : CryptoPrims}.

(** [crypto::blake2b_keyed]: the key, then the parts in order. *)
Definition blake2b_keyed (key : list Z) (parts : list (list Z)) : list Z :=
  blake2b_256 key (concat parts).

(** [crypto::link_key]: ids as [u32] big-endian. *)
Definition link_key (psk : list Z) (from_id to_id : Z) : list Z :=
  blake2b_keyed psk [LABEL_LINK; to_be_bytes 4 from_id; to_be_bytes 4 to_id].

(** [crypto::session_key] *)
Definition session_key (link_key : list Z) (epoch : Z) : list Z :=
  blake2b_keyed link_key [LABEL_SESSION; to_be_bytes 8 epoch].

(** [crypto::obfuscation_pad] *)
Definition obfuscation_pad (link_key tag : list Z) : list Z :=
  take HEADER_LEN (blake2b_keyed link_key [LABEL_OBFS; tag]).

(** [crypto::nonce] *)
Definition nonce (seq : Z) : list Z := to_le_bytes 8 seq ++ [0; 0; 0; 0].

(** [crypto::AeadKey] with [new], [seal] and [open]. *)
Record AeadKey := mkAeadKey { aead_key : list Z }.

Definition AeadKey_new (session_key : list Z) : AeadKey := mkAeadKey session_key.

Definition AeadKey_seal (k : AeadKey) (seq : Z) (plaintext : list Z) : list Z :=
  chacha_seal (aead_key k) (nonce seq) [] plaintext.

Definition AeadKey_open (k : AeadKey) (seq : Z) (body : list Z) : option (list Z) :=
  if (length body <? TAG_LEN)%nat then None
  else chacha_open (aead_key k) (nonce seq) [] body.

(** [wire::seal_datagram] *)
Definition seal_datagram (link_key : list Z) (aead : AeadKey) (local_id epoch seq flags : Z)
    (plaintext : list Z) (obfuscate : bool) : list Z :=
  let header := Header_to_bytes {|
    h_version := WIRE_VERSION; h_flags := flags; h_key_id := local_id;
    h_epoch := epoch; h_seq := seq |} in
  let body := AeadKey_seal aead seq plaintext in
  let datagram := header ++ body in
  if obfuscate then
    let tag := drop (length body - TAG_LEN) body in
    let pad := obfuscation_pad link_key tag in
    zip_with Z.lxor (take HEADER_LEN datagram) pad ++ drop HEADER_LEN datagram
  else datagram.

End Crypto.

(** ** Header lemmas *)

Lemma length_Header_to_bytes h : length (Header_to_bytes h) = HEADER_LEN.
Proof. unfold Header_to_bytes. rewrite !length_app, !length_to_le_bytes. done. Qed.

Lemma Header_parse_to_bytes h rest :
  header_wf h -> Header_parse (Header_to_bytes h ++ rest) = Some h.
Proof.
  intros (Hv & Hf & Hk & He & Hs). unfold Header_parse.
  rewrite length_app, length_Header_to_bytes.
  destruct (Nat.ltb_spec (HEADER_LEN + length rest) HEADER_LEN); [unfold HEADER_LEN in *; lia|].
  destruct h as [v f k e s]. unfold Header_to_bytes. cbn [h_version h_flags h_key_id h_epoch h_seq] in *.
  rewrite <- !app_assoc. f_equal. f_equal.
  - change (from_le_bytes (to_le_bytes 2 k) = k). by apply from_to_le_bytes.
  - unfold slice. rewrite (app_assoc [v] [f]), app_assoc.
    rewrite drop_app_len by (rewrite !length_app, length_to_le_bytes; done).
    rewrite take_app_len by apply length_to_le_bytes. by apply from_to_le_bytes.
  - unfold slice. rewrite (app_assoc [v] [f]), app_assoc, app_assoc.
    rewrite drop_app_len by (rewrite !length_app, !length_to_le_bytes; done).
    rewrite take_app_len by apply length_to_le_bytes. by apply from_to_le_bytes.
Qed.

Lemma slice_bytes_ok bs i j : bytes_ok bs -> bytes_ok (slice bs i j).
Proof. intros. by apply Forall_take, Forall_drop. Qed.
Lemma length_slice bs i j : (i <= j <= length bs)%nat -> length (slice bs i j) = (j - i)%nat.
Proof. intros. unfold slice. rewrite length_take, length_drop. lia. Qed.

Lemma byte_at_ok bs i : bytes_ok bs -> fits 8 (byte_at bs i).
Proof.
  intros H. unfold byte_at. destruct (bs !! i) as [b|] eqn:E; simpl; [|done].
  by eapply Forall_lookup_1.
Qed.

Lemma Header_parse_wf bytes h : bytes_ok bytes -> Header_parse bytes = Some h -> header_wf h.
Proof.
  intros Hb. unfold Header_parse. destruct (Nat.ltb_spec (length bytes) HEADER_LEN) as [|Hlen]; [done|].
  intros [= <-]. unfold header_wf, HEADER_LEN in *. simpl.
  split_and!; try by apply byte_at_ok.
  - apply (from_le_bytes_fits [_; _]). by repeat constructor; apply byte_at_ok.
  - pose proof (from_le_bytes_fits (slice bytes 4 12) (slice_bytes_ok _ _ _ Hb)) as H.
    rewrite length_slice in H by lia. done.
  - pose proof (from_le_bytes_fits (slice bytes 12 20) (slice_bytes_ok _ _ _ Hb)) as H.
    rewrite length_slice in H by lia. done.
Qed.

(** ** Masking lemmas *)

Lemma lxor_cancel a b : Z.lxor (Z.lxor a b) b = a.
Proof. by rewrite Z.lxor_assoc, Z.lxor_nilpotent, Z.lxor_0_r. Qed.

Lemma mask_involutive (a pad : list Z) :
  length a = length pad -> zip_with Z.lxor (zip_with Z.lxor a pad) pad = a.
Proof.
  revert pad; induction a as [|x a IH]; intros [|y pad] H; simplify_eq/=; [done|].
  by rewrite lxor_cancel, IH.
Qed.

Lemma seal_length_zip (a pad : list Z) :
  length a = length pad -> length (zip_with Z.lxor a pad) = length a.
Proof. intros H. rewrite length_zip_with. lia. Qed.

Section SealLemmas.
Context {C : CryptoPrims} `{!CryptoLaws C}.

Lemma length_AeadKey_seal k seq p :
  length (AeadKey_seal k seq p) = (length p + TAG_LEN)%nat.
Proof. apply seal_length. Qed.

Lemma AeadKey_open_seal k seq p : AeadKey_open k seq (AeadKey_seal k seq p) = Some p.
Proof.
  unfold AeadKey_open. rewrite length_AeadKey_seal.
  destruct (Nat.ltb_spec (length p + TAG_LEN) TAG_LEN); [lia|]. apply open_seal.
Qed.

Lemma length_obfuscation_pad lk tag : length (obfuscation_pad lk tag) = HEADER_LEN.
Proof.
  unfold obfuscation_pad, blake2b_keyed.
  rewrite length_take, blake2b_length. done.
Qed.

(** A sealed datagram is a 20-byte header, masked or not, and the sealed body. *)
Lemma seal_datagram_shape lk k id epoch seq flags p obf :
  let h := mkHeader WIRE_VERSION flags id epoch seq in
  let body := AeadKey_seal k seq p in
  exists hdr, seal_datagram lk k id epoch seq flags p obf = hdr ++ body /\
    length hdr = HEADER_LEN /\
    (if obf then demask_header hdr (obfuscation_pad lk (drop (length body - TAG_LEN) body))
     else hdr) = Header_to_bytes h.
Proof.
  intros h body. unfold seal_datagram. fold h body.
  pose proof (length_Header_to_bytes h) as Hh.
  destruct obf.
  - rewrite take_app_len, drop_app_len by done.
    eexists; split; [done|].
    rewrite seal_length_zip by by rewrite Hh, length_obfuscation_pad.
    split; [done|]. unfold demask_header. rewrite take_ge.
    + apply mask_involutive. by rewrite Hh, length_obfuscation_pad.
    + rewrite seal_length_zip, Hh by by rewrite Hh, length_obfuscation_pad. done.
  - by exists (Header_to_bytes h).
Qed.

Lemma datagram_tag_seal lk k id epoch seq flags p obf :
  let body := AeadKey_seal k seq p in
  datagram_tag (seal_datagram lk k id epoch seq flags p obf)
  = Some (drop (length body - TAG_LEN) body).
Proof.
  intros body. destruct (seal_datagram_shape lk k id epoch seq flags p obf) as (hdr & -> & Hl & _).
  fold body. unfold datagram_tag. rewrite length_app, Hl.
  assert (length body = (length p + TAG_LEN)%nat) as Hb by apply length_AeadKey_seal.
  destruct (Nat.ltb_spec (HEADER_LEN + length body) (HEADER_LEN + TAG_LEN)); [lia|].
  f_equal. replace (HEADER_LEN + length body - TAG_LEN)%nat
    with (length hdr + (length body - TAG_LEN))%nat by lia.
  rewrite <- drop_drop, drop_app_length. done.
Qed.

End SealLemmas.

(** ** A lawful instance to evaluate on

    Not a cipher: a checksum in place of the keyed hash and of the tag, so that
    concrete datagrams can be sealed, rejected under the wrong key and opened. *)

Module Toy.

Definition mix (l : list Z) : Z := foldl (fun a b => (a * 31 + b + 7) mod 65521) 1 l.
Definition digest (k m : list Z) : list Z :=
  map (fun i => (mix (k ++ m) * (i + 3) + i * i) mod 256) (seqZ 0 32).
Definition tag (k n a p : list Z) : list Z := take TAG_LEN (digest k (n ++ a ++ p)).
Definition seal (k n a p : list Z) : list Z := p ++ tag k n a p.
Definition open (k n a b : list Z) : option (list Z) :=
  let p := take (length b - TAG_LEN) b in
  if bool_decide (drop (length b - TAG_LEN) b = tag k n a p) then Some p else None.

Definition prims : CryptoPrims :=
  {| blake2b_256 := digest; chacha_seal := seal; chacha_open := open |}.

Lemma length_tag k n a p : length (tag k n a p) = TAG_LEN.
Proof. reflexivity. Qed.

Lemma toy_laws : CryptoLaws prims.
Proof.
  split; intros; cbn [prims blake2b_256 chacha_seal chacha_open].
  - unfold digest. by rewrite length_map.
  - unfold digest. apply Forall_map, Forall_true. intros i.
    unfold fits. apply (Z.mod_pos_bound _ 256). lia.
  - unfold seal. by rewrite length_app, length_tag.
  - unfold open, seal. rewrite length_app, length_tag, Nat.add_sub.
    by rewrite take_app_length, drop_app_length, bool_decide_eq_true_2.
Qed.

End Toy.

(** ** Properties *)

(** The 20-byte header codec is a bijection on well-formed headers: parsing
    what [to_bytes] wrote returns the header whatever follows it, and
    re-encoding a parsed header reproduces the bytes it was read from. *)
Theorem header_roundtrip h bytes rest (Hwf : header_wf h) (Hb : bytes_ok bytes) :
  Header_parse (Header_to_bytes h ++ rest) = Some h /\
  (forall h', Header_parse bytes = Some h' -> Header_to_bytes h' = take HEADER_LEN bytes).
Proof.
  split; [by apply Header_parse_to_bytes|].
  intros h'. unfold Header_parse. destruct (Nat.ltb_spec (length bytes) HEADER_LEN) as [|Hlen]; [done|].
  intros [= <-]. unfold Header_to_bytes, HEADER_LEN in *. cbn [h_version h_flags h_key_id h_epoch h_seq].
  assert (bytes_ok [byte_at bytes 2; byte_at bytes 3]) as H0
    by (repeat constructor; by apply byte_at_ok).
  apply to_from_le_bytes in H0. cbn [length] in H0.
  pose proof (to_from_le_bytes (slice bytes 4 12) (slice_bytes_ok _ _ _ Hb)) as H1.
  pose proof (to_from_le_bytes (slice bytes 12 20) (slice_bytes_ok _ _ _ Hb)) as H2.
  rewrite length_slice in H1, H2 by lia. cbn [Nat.sub] in H1, H2. rewrite H0, H1, H2.
  do 20 (destruct bytes as [|? bytes]; [simpl in Hlen; lia|]). reflexivity.
Qed.

Lemma header_roundtrip_witness :
  exists h', Header_parse (repeat 7 36) = Some h' /\ Header_to_bytes h' = take HEADER_LEN (repeat 7 36).
Proof.
  eexists. split; [reflexivity|].
  apply (header_roundtrip (mkHeader 1 0 258 1234605616436508552 255) (repeat 7 36) []).
  - repeat split; vm_compute; congruence.
  - repeat constructor; vm_compute; congruence.
  - reflexivity.
Defined.
