(* ===== verification/Session.v ===== *)
(** * Session: per-link receive and transmit state of src/src/subnetra/session.rs

    [RxSession_accept] is the receive path of one directional link (epoch
    ordering, candidate key, anti-replay) and [TxSession_seal] the transmit path.
    The abstract specification [SessionSpec] keeps the current epoch and the
    numbers accepted in it; a datagram enters it only through whether it
    authenticates under the key of the epoch its header claims. *)

From Stdlib Require Import ZArith Lia Sorted.
From stdpp Require Import prelude strings list.
From S2P Require Import Prelude RustStr Replay Wire.

Inductive RxOutcome :=
| Accept (plaintext : list Z)
| Drop.
#[global] Instance RxOutcome_eq_dec : EqDecision RxOutcome.
Proof. solve_decision. Defined.

Record RxSession := mkRx {
  rx_link_key : list Z;
  cur_epoch : Z;
  cur_key : option AeadKey;
  rx_replay : ReplayWindow
}.

Record TxSession := mkTx {
  tx_link_key : list Z;
  tx_epoch : Z;
  tx_key : AeadKey;
  tx_local_id : Z;
  next_seq : Z;
  tx_obfuscate : bool
}.

Section Session.
Context {C : CryptoPrims}.

(** [RxSession::new] *)
Definition RxSession_new (rx_link_key : list Z) : RxSession :=
  mkRx rx_link_key 0 None replay_new.

(** [RxSession::with_epoch] *)
Definition RxSession_with_epoch (rx_link_key : list Z) (epoch : Z) : RxSession :=
  let s := RxSession_new rx_link_key in
  if negb (epoch =? 0) then
    mkRx rx_link_key epoch (Some (AeadKey_new (session_key rx_link_key epoch))) (rx_replay s)
  else s.

(** [if self.replay.check_and_set(seq) { Accept(pt) } else { Drop }] *)
Definition replay_verdict (s : RxSession) (seq : Z) (pt : list Z) : RxSession * RxOutcome :=
  let '(w, fresh) := check_and_set (rx_replay s) seq in
  (mkRx (rx_link_key s) (cur_epoch s) (cur_key s) w, if fresh then Accept pt else Drop).

(** [RxSession::accept] *)
Definition RxSession_accept (s : RxSession) (header : Header) (body : list Z)
    : RxSession * RxOutcome :=
  match h_epoch header ?= cur_epoch s with
  | Lt => (s, Drop)
  | Eq =>
      match cur_key s with
      | None => (s, Drop)
      | Some key =>
          match AeadKey_open key (h_seq header) body with
          | None => (s, Drop)
          | Some pt => replay_verdict s (h_seq header) pt
          end
      end
  | Gt =>
      let candidate := AeadKey_new (session_key (rx_link_key s) (h_epoch header)) in
      match AeadKey_open candidate (h_seq header) body with
      | None => (s, Drop)
      | Some pt =>
          let s' := mkRx (rx_link_key s) (h_epoch header) (Some candidate)
                      (replay_reset (rx_replay s)) in
          replay_verdict s' (h_seq header) pt
      end
  end.

(** [RxSession::current_epoch] *)
Definition current_epoch (s : RxSession) : Z := cur_epoch s.

(** [TxSession::new] *)
Definition TxSession_new (tx_link_key : list Z) (local_id epoch : Z) (obfuscate : bool) : TxSession :=
  mkTx tx_link_key epoch (AeadKey_new (session_key tx_link_key epoch)) local_id 1 obfuscate.

(** [TxSession::seal]: the successor session and the datagram. *)
Definition TxSession_seal (s : TxSession) (flags : Z) (plaintext : list Z)
    : TxSession * list Z :=
  let seq := next_seq s in
  (mkTx (tx_link_key s) (tx_epoch s) (tx_key s) (tx_local_id s)
        (saturating_add 64 (next_seq s) 1) (tx_obfuscate s),
   seal_datagram (tx_link_key s) (tx_key s) (tx_local_id s) (tx_epoch s) seq flags
     plaintext (tx_obfuscate s)).

(** ** Receive side *)

(** What authenticates a datagram on a link: the body opens under the session
    key of the epoch its header claims. *)
Definition authenticates (lk : list Z) (header : Header) (body : list Z) : option (list Z) :=
  AeadKey_open (AeadKey_new (session_key lk (h_epoch header))) (h_seq header) body.

(** The cached key is the session key of the current epoch, absent at epoch 0. *)
Definition rx_key_inv (s : RxSession) : Prop :=
  cur_key s = if cur_epoch s =? 0 then None
              else Some (AeadKey_new (session_key (rx_link_key s) (cur_epoch s))).

(** Abstract session: the epoch in force and the numbers accepted in it. *)
Record spec_session := mkSpec { sp_epoch : Z; sp_acc : list Z }.

Definition spec_accept (s : spec_session) (epoch seq : Z) (auth : option (list Z))
    : spec_session * RxOutcome :=
  match auth with
  | None => (s, Drop)
  | Some pt =>
      match epoch ?= sp_epoch s with
      | Lt => (s, Drop)
      | Eq => if Spec.accepts (sp_acc s) seq
              then (mkSpec epoch (seq :: sp_acc s), Accept pt) else (s, Drop)
      | Gt => (mkSpec epoch [seq], Accept pt)
      end
  end.

Record rx_refines (lk : list Z) (s : RxSession) (a : spec_session) : Prop := {
  rr_link : rx_link_key s = lk;
  rr_epoch : cur_epoch s = sp_epoch a;
  rr_key : rx_key_inv s;
  rr_window : window_refines (rx_replay s) (sp_acc a)
}.

Lemma rx_new_refines lk : rx_refines lk (RxSession_new lk) (mkSpec 0 []).
Proof. split; try done. apply new_refines. Qed.

Lemma rx_with_epoch_refines lk e :
  0 <= e -> rx_refines lk (RxSession_with_epoch lk e) (mkSpec e []).
Proof.
  intros He. unfold RxSession_with_epoch. destruct (Z.eqb_spec e 0) as [->|Hne]; simpl.
  - apply rx_new_refines.
  - split; simpl; try done; [|apply new_refines].
    unfold rx_key_inv; simpl. by rewrite (proj2 (Z.eqb_neq _ _)).
Qed.

Lemma replay_verdict_refines lk s e acc seq pt :
  rx_refines lk s (mkSpec e acc) -> fits 64 seq ->
  snd (replay_verdict s seq pt) = (if Spec.accepts acc seq then Accept pt else Drop) /\
  rx_refines lk (fst (replay_verdict s seq pt))
    (if Spec.accepts acc seq then mkSpec e (seq :: acc) else mkSpec e acc).
Proof.
  intros [Hl He Hk Hw] Hs. simpl in *. unfold replay_verdict.
  destruct (check_refines _ _ _ Hw Hs) as [Hv Hw'].
  destruct (check_and_set (rx_replay s) seq) as [w b]. simpl in *.
  unfold Spec.check in *. destruct (Spec.accepts acc seq); simpl in *; subst b;
    (split; [done|]; split; simpl; done).
Qed.

(** One received datagram is one step of the abstract session. *)
Lemma accept_refines lk s a h body :
  rx_refines lk s a -> header_wf h -> Header_is_valid h = true ->
  snd (RxSession_accept s h body)
    = snd (spec_accept a (h_epoch h) (h_seq h) (authenticates lk h body)) /\
  rx_refines lk (fst (RxSession_accept s h body))
    (fst (spec_accept a (h_epoch h) (h_seq h) (authenticates lk h body))).
Proof.
  intros HR (_ & _ & _ & _ & Hseq) Hv. destruct a as [e acc].
  pose proof HR as [Hl He Hk Hw]; simpl in *.
  unfold Header_is_valid in Hv. bools.
  unfold RxSession_accept, spec_accept, authenticates. rewrite He; simpl.
  destruct (Z.compare_spec (h_epoch h) e) as [Heq|Hlt|Hgt].
  - unfold rx_key_inv in Hk. rewrite He, <- Heq in Hk.
    rewrite (proj2 (Z.eqb_neq _ _)) in Hk by done. rewrite Hk, Hl.
    destruct (AeadKey_open _ _ _) as [pt|]; [|done].
    destruct (replay_verdict_refines lk s e acc (h_seq h) pt HR Hseq) as [Hs HR'].
    rewrite Hs, Heq. by destruct (Spec.accepts acc (h_seq h)).
  - by destruct (AeadKey_open _ _ _).
  - rewrite Hl. destruct (AeadKey_open _ _ _) as [pt|]; [|done].
    set (s' := mkRx _ _ _ _).
    assert (rx_refines lk s' (mkSpec (h_epoch h) [])) as HR'.
    { split; simpl; try done; [|apply new_refines].
      unfold rx_key_inv; simpl. by rewrite (proj2 (Z.eqb_neq _ _)). }
    destruct (replay_verdict_refines lk s' _ [] (h_seq h) pt HR' Hseq) as [Hs HR''].
    assert (Spec.accepts [] (h_seq h) = true) as Ha.
    { apply andb_true_iff. split; [apply bool_decide_eq_true, not_elem_of_nil|].
      apply Z.ltb_lt. unfold WINDOW, fits in *. simpl. lia. }
    rewrite Ha in Hs, HR''. done.
Qed.

(** A datagram stream as the table delivers it: validated headers and bodies. *)
Definition rx_input : Type := Header * list Z.
Definition input_ok (i : rx_input) : Prop := header_wf (fst i) /\ Header_is_valid (fst i) = true.
#[global] Instance input_ok_dec i : Decision (input_ok i).
Proof. unfold input_ok. apply _. Defined.

Fixpoint rx_run (s : RxSession) (inputs : list rx_input) : RxSession * list RxOutcome :=
  match inputs with
  | [] => (s, [])
  | i :: inputs =>
      let '(s', o) := RxSession_accept s (fst i) (snd i) in
      let '(s'', os) := rx_run s' inputs in (s'', o :: os)
  end.
Fixpoint spec_rx_run (lk : list Z) (a : spec_session) (inputs : list rx_input)
    : spec_session * list RxOutcome :=
  match inputs with
  | [] => (a, [])
  | i :: inputs =>
      let '(a', o) := spec_accept a (h_epoch (fst i)) (h_seq (fst i))
                        (authenticates lk (fst i) (snd i)) in
      let '(a'', os) := spec_rx_run lk a' inputs in (a'', o :: os)
  end.

Lemma rx_run_refines lk s a inputs :
  rx_refines lk s a -> Forall input_ok inputs ->
  snd (rx_run s inputs) = snd (spec_rx_run lk a inputs) /\
  rx_refines lk (fst (rx_run s inputs)) (fst (spec_rx_run lk a inputs)).
Proof.
  intros HR Hok. revert s a HR; induction Hok as [|[h b] l [Hwf Hv] _ IH]; intros s a HR; [done|].
  simpl in *. destruct (accept_refines lk s a h b HR Hwf Hv) as [Ho HR'].
  destruct (RxSession_accept s h b) as [s' o], (spec_accept a _ _ _) as [a' o'].
  simpl in *. subst o'. destruct (IH s' a' HR') as [Hos HR''].
  destruct (rx_run s' l) as [s'' os], (spec_rx_run lk a' l) as [a'' os']. simpl in *. by subst.
Qed.

(** The (epoch, seq) pairs a run accepted, in order. *)
Fixpoint accepted_pairs (inputs : list rx_input) (os : list RxOutcome) : list (Z * Z) :=
  match inputs, os with
  | (h, _) :: inputs, Accept _ :: os => (h_epoch h, h_seq h) :: accepted_pairs inputs os
  | _ :: inputs, Drop :: os => accepted_pairs inputs os
  | _, _ => []
  end.

(** History invariant: [hist] is everything accepted so far. *)
Definition hist_inv (a : spec_session) (hist : list (Z * Z)) : Prop :=
  NoDup hist /\ (forall e s, (e, s) ∈ hist -> e <= sp_epoch a) /\
  (forall s, (sp_epoch a, s) ∈ hist -> s ∈ sp_acc a).

Lemma spec_accept_hist a e s auth hist :
  hist_inv a hist ->
  match snd (spec_accept a e s auth) with
  | Accept _ => hist_inv (fst (spec_accept a e s auth)) ((e, s) :: hist) /\ sp_epoch a <= e
  | Drop => fst (spec_accept a e s auth) = a
  end.
Proof.
  intros (Hnd & Hle & Hacc). unfold spec_accept. destruct auth as [pt|]; [|done].
  destruct (Z.compare_spec e (sp_epoch a)) as [->|Hlt|Hgt]; [|done|].
  - destruct (Spec.accepts (sp_acc a) s) eqn:Ea; [|done]. simpl.
    unfold Spec.accepts in Ea. bools. split; [|lia]. unfold hist_inv; simpl. split_and!.
    + constructor; [naive_solver|done].
    + intros e' s'. rewrite elem_of_cons. intros [[= -> ->]|?]; [lia|eauto].
    + intros s'. rewrite !elem_of_cons. intros [[= ->]|?]; eauto.
  - simpl. split; [|lia]. unfold hist_inv; simpl. split_and!.
    + constructor; [|done]. intros Hin%Hle. lia.
    + intros e' s'. rewrite elem_of_cons. intros [[= -> ->]|Hin]; [lia|]. apply Hle in Hin. lia.
    + intros s'. rewrite elem_of_cons. intros [[= ->]|Hin]; [by left|].
      apply Hle in Hin. lia.
Qed.

Lemma spec_run_hist lk a inputs hist :
  hist_inv a hist ->
  NoDup (rev (accepted_pairs inputs (snd (spec_rx_run lk a inputs))) ++ hist) /\
  Forall (fun p => sp_epoch a <= fst p) (accepted_pairs inputs (snd (spec_rx_run lk a inputs))) /\
  Sorted (fun p q => fst p <= fst q) (accepted_pairs inputs (snd (spec_rx_run lk a inputs))).
Proof.
  revert a hist; induction inputs as [|[h b] l IH]; intros a hist Hinv; simpl.
  { destruct Hinv as [? _]. split_and!; [done|constructor|constructor]. }
  pose proof (spec_accept_hist a (h_epoch h) (h_seq h) (authenticates lk h b) hist Hinv) as Hstep.
  destruct (spec_accept a _ _ _) as [a' o]. simpl in Hstep.
  destruct o as [pt|].
  - destruct Hstep as [Hinv' Hle]. destruct (IH a' _ Hinv') as (Hnd & Hall & Hsort).
    destruct (spec_rx_run lk a' l) as [a'' os]. simpl in *.
    assert (h_epoch h <= sp_epoch a') as Hle'.
    { destruct Hinv' as (_ & Hall' & _). apply (Hall' _ (h_seq h)). by left. }
    split_and!.
    + by rewrite <- app_assoc.
    + constructor; [done|]. eapply Forall_impl; [exact Hall|]. simpl. intros. lia.
    + constructor; [done|]. destruct (accepted_pairs l os); constructor.
      inversion Hall; subst. simpl in *. lia.
  - subst a'. destruct (IH a _ Hinv) as (Hnd & Hall & Hsort).
    by destruct (spec_rx_run lk a l).
Qed.

(** Inputs that authenticate on the link. *)
Definition is_authentic (lk : list Z) (i : rx_input) : bool :=
  match authenticates lk (fst i) (snd i) with Some _ => true | None => false end.

Lemma accept_forged lk s a h body :
  rx_refines lk s a -> header_wf h -> Header_is_valid h = true ->
  authenticates lk h body = None -> RxSession_accept s h body = (s, Drop).
Proof.
  intros [Hl He Hk _] _ Hv Hn. unfold RxSession_accept, authenticates in *.
  unfold Header_is_valid in Hv. bools.
  destruct (Z.compare_spec (h_epoch h) (cur_epoch s)) as [Heq|Hlt|Hgt]; [|done|].
  - unfold rx_key_inv in Hk. rewrite <- Heq, (proj2 (Z.eqb_neq _ _)) in Hk by done.
    by rewrite Hk, Hl, Hn.
  - by rewrite Hl, Hn.
Qed.

Lemma rx_run_ignores_forged lk s a inputs :
  rx_refines lk s a -> Forall input_ok inputs ->
  let good := List.filter (is_authentic lk) inputs in
  fst (rx_run s inputs) = fst (rx_run s good) /\
  accepted_pairs inputs (snd (rx_run s inputs)) = accepted_pairs good (snd (rx_run s good)).
Proof.
  intros HR Hok. revert s a HR; induction Hok as [|[h b] l [Hwf Hv] _ IH]; intros s a HR; [done|].
  cbn [List.filter]. destruct (is_authentic lk (h, b)) eqn:Ei;
    unfold is_authentic in Ei; cbn [fst snd] in Ei;
    destruct (authenticates lk h b) as [pt|] eqn:Ea; try done; cbn [rx_run fst snd].
  - destruct (accept_refines lk s a h b HR Hwf Hv) as [_ HR'].
    destruct (RxSession_accept s h b) as [s' o]. simpl in HR'.
    destruct (IH s' _ HR') as [H1 H2].
    destruct (rx_run s' l), (rx_run s' (List.filter _ l)). simpl in *.
    destruct o; split; try done. by rewrite H2.
  - rewrite (accept_forged lk s a h b HR Hwf Hv Ea).
    destruct (IH s _ HR) as [H1 H2].
    by destruct (rx_run s l), (rx_run s (List.filter _ l)).
Qed.

(** ** Transmit side *)

(** The successive datagrams of a sender, and the numbers they carry. *)
Fixpoint tx_run (s : TxSession) (msgs : list (Z * list Z)) : TxSession * list (list Z) :=
  match msgs with
  | [] => (s, [])
  | (flags, p) :: msgs =>
      let '(s', d) := TxSession_seal s flags p in
      let '(s'', ds) := tx_run s' msgs in (s'', d :: ds)
  end.
Fixpoint tx_seqs (s : TxSession) (msgs : list (Z * list Z)) : list Z :=
  match msgs with
  | [] => []
  | (flags, p) :: msgs => next_seq s :: tx_seqs (fst (TxSession_seal s flags p)) msgs
  end.

Lemma tx_seqs_spec s msgs :
  1 <= next_seq s -> next_seq s + Z.of_nat (length msgs) <= u64_max + 1 ->
  tx_seqs s msgs = seqZ (next_seq s) (Z.of_nat (length msgs)).
Proof.
  revert s; induction msgs as [|[f p] msgs IH]; intros s H1 H2; [done|].
  simpl length in *. cbn [tx_seqs]. rewrite seqZ_cons by lia.
  replace (Z.pred (Z.of_nat (S (length msgs)))) with (Z.of_nat (length msgs)) by lia.
  destruct msgs as [|m msgs]; [done|].
  f_equal. rewrite IH; unfold TxSession_seal, saturating_add in *; simpl in *.
  - f_equal. unfold u64_max in *. lia.
  - unfold u64_max in *. lia.
  - unfold u64_max in *. lia.
Qed.

(** The header a receiver recovers from a datagram on this link: the trailing
    tag keys the pad that unmasks it when the mesh obfuscates headers. *)
Definition recover_header (lk : list Z) (obf : bool) (d : list Z) : option Header :=
  tag ← datagram_tag d;
  if obf then Header_parse (demask_header (take HEADER_LEN d) (obfuscation_pad lk tag))
  else Header_parse (take HEADER_LEN d).

Section Delivery.
Context `{!CryptoLaws C}.

Lemma recover_header_seal lk k id epoch seq flags p obf :
  header_wf (mkHeader WIRE_VERSION flags id epoch seq) ->
  recover_header lk obf (seal_datagram lk k id epoch seq flags p obf)
    = Some (mkHeader WIRE_VERSION flags id epoch seq) /\
  drop HEADER_LEN (seal_datagram lk k id epoch seq flags p obf) = AeadKey_seal k seq p.
Proof.
  intros Hwf. unfold recover_header. rewrite datagram_tag_seal. simpl.
  destruct (seal_datagram_shape lk k id epoch seq flags p obf) as (hdr & -> & Hl & Hh).
  rewrite take_app_len, drop_app_len by done. split; [|done].
  rewrite <- (Header_parse_to_bytes _ [] Hwf), app_nil_r, <- Hh. by destruct obf.
Qed.

Definition msg_ok (m : Z * list Z) : Prop := fst m = 0 \/ fst m = KEEPALIVE.

Lemma tx_run_datagram s msgs i flags p :
  tx_key s = AeadKey_new (session_key (tx_link_key s) (tx_epoch s)) ->
  fits 16 (tx_local_id s) -> fits 64 (tx_epoch s) -> tx_epoch s <> 0 ->
  Forall msg_ok msgs -> 1 <= next_seq s ->
  next_seq s + Z.of_nat (length msgs) <= u64_max + 1 ->
  msgs !! i = Some (flags, p) ->
  exists d h, snd (tx_run s msgs) !! i = Some d /\
    recover_header (tx_link_key s) (tx_obfuscate s) d = Some h /\
    input_ok (h, drop HEADER_LEN d) /\
    h_epoch h = tx_epoch s /\ h_seq h = next_seq s + Z.of_nat i /\
    authenticates (tx_link_key s) h (drop HEADER_LEN d) = Some p.
Proof.
  intros Hk Hid He Hne. revert s i Hk Hid He Hne.
  induction msgs as [|[f q] msgs IH]; intros s i Hk Hid He Hne Hok H1 Hn Hi; [done|].
  inversion Hok as [|? ? Hf Hok']; subst. cbn [length] in Hn. cbn [tx_run].
  destruct (TxSession_seal s f q) as [s' d] eqn:Es.
  unfold TxSession_seal in Es. injection Es as <- <-.
  destruct (tx_run _ msgs) as [s'' ds] eqn:Er.
  destruct i as [|i]; simpl in Hi.
  - injection Hi as -> ->.
    assert (header_wf (mkHeader WIRE_VERSION flags (tx_local_id s) (tx_epoch s) (next_seq s))) as Hwf.
    { unfold header_wf; simpl. split_and!; try done.
      - destruct Hf as [Hf|Hf]; simpl in Hf; rewrite Hf; done.
      - unfold fits, u64_max in *. lia. }
    destruct (recover_header_seal (tx_link_key s) (tx_key s) _ _ _ _ p (tx_obfuscate s) Hwf) as [Hr Hd].
    eexists _, _. split; [done|]. split; [exact Hr|]. rewrite Hd. simpl.
    split; [|split; [done|split; [lia|]]].
    + split; [done|]. unfold Header_is_valid; simpl. rewrite (proj2 (Z.eqb_neq (tx_epoch s) 0)) by done.
      destruct Hf as [Hf|Hf]; simpl in Hf; rewrite Hf; done.
    + unfold authenticates; simpl. rewrite <- Hk. apply AeadKey_open_seal.
  - pose proof (lookup_lt_Some _ _ _ Hi) as Hlt.
    destruct (IH (mkTx (tx_link_key s) (tx_epoch s) (tx_key s) (tx_local_id s)
        (saturating_add 64 (next_seq s) 1) (tx_obfuscate s)) i) as (d & h & Hd & Hr & Hin & Hep & Hsq & Ha);
      simpl in *; try done; unfold saturating_add, u64_max in *; try lia.
    rewrite Er in Hd. simpl in Hd. eexists d, h. split_and!; try done. lia.
Qed.

(** With every datagram authentic and of one epoch, the abstract session is the
    replay specification. *)
Definition outcome_of (b : bool) (p : list Z) : RxOutcome := if b then Accept p else Drop.

Lemma spec_rx_run_one_epoch lk e acc inputs ps :
  Forall2 (fun i p => h_epoch (fst i) = e /\ authenticates lk (fst i) (snd i) = Some p) inputs ps ->
  snd (spec_rx_run lk (mkSpec e acc) inputs)
  = zip_with outcome_of (snd (spec_run acc (map (fun i => h_seq (fst i)) inputs))) ps.
Proof.
  intros H. revert acc; induction H as [|[h b] p inputs ps [He Ha] _ IH]; intros acc; [done|].
  simpl in *. rewrite Ha. unfold spec_accept; simpl. rewrite He, Z.compare_refl.
  unfold Spec.check. destruct (Spec.accepts acc (h_seq h)).
  - specialize (IH (h_seq h :: acc)). destruct (spec_rx_run _ _ _), (spec_run _ _). simpl in *. by rewrite IH.
  - specialize (IH acc). destruct (spec_rx_run _ _ _), (spec_run _ _). simpl in *. by rewrite IH.
Qed.

Lemma spec_rx_run_first_epoch lk e inputs ps :
  0 < e -> Forall (fun i => fits 64 (h_seq (fst i))) inputs ->
  Forall2 (fun i p => h_epoch (fst i) = e /\ authenticates lk (fst i) (snd i) = Some p) inputs ps ->
  snd (spec_rx_run lk (mkSpec 0 []) inputs) = snd (spec_rx_run lk (mkSpec e []) inputs).
Proof.
  intros He Hf H. destruct H as [|[h b] p inputs ps [Hep Ha] _]; [done|].
  inversion Hf; subst. simpl in *. rewrite Ha. unfold spec_accept; simpl.
  rewrite Z.compare_refl, (proj2 (Z.compare_gt_iff (h_epoch h) 0)) by lia.
  assert (Spec.accepts [] (h_seq h) = true) as ->; [|done].
  apply andb_true_iff. split; [apply bool_decide_eq_true, not_elem_of_nil|].
  apply Z.ltb_lt. unfold WINDOW, fits in *. simpl. lia.
Qed.

(** The inputs a network delivers: any indices of the sent datagrams, in any
    order, with any repetitions and omissions. *)
Definition delivered (lk : list Z) (obf : bool) (ds : list (list Z)) (order : list nat)
    : list rx_input :=
  omap (fun i => d ← ds !! i; h ← recover_header lk obf d; Some (h, drop HEADER_LEN d)) order.

End Delivery.
End Session.

(** ** Properties *)

Section Properties.
Context {C : CryptoPrims}.

(** C2: over any stream of validated datagrams, forged or genuine, reordered or
    replayed, a receive session accepts no (epoch, sequence) pair twice, and the
    epochs it accepts never go backwards. *)
Theorem rx_session_no_replay lk inputs (Hok : Forall input_ok inputs) :
  let out := accepted_pairs inputs (snd (rx_run (RxSession_new lk) inputs)) in
  NoDup out /\ Sorted (fun p q => fst p <= fst q) out.
Proof.
  destruct (rx_run_refines lk _ _ inputs (rx_new_refines lk) Hok) as [-> _].
  destruct (spec_run_hist lk (mkSpec 0 []) inputs []) as (Hnd & _ & Hs).
  { split_and!; [constructor|intros ?? []%not_elem_of_nil|intros ? []%not_elem_of_nil]. }
  rewrite app_nil_r in Hnd. split; [|done].
  by rewrite (Permutation_rev (accepted_pairs _ _)).
Qed.

(** A datagram that does not authenticate under the session key of the epoch
    its header claims has no effect at all: the final receive state and the
    accepted pairs of a stream are those of the stream with every forged
    datagram removed, so a forged epoch or sequence number cannot poison a
    session. *)
Theorem rx_session_forgery_transparent lk inputs (Hok : Forall input_ok inputs) :
  let good := List.filter (is_authentic lk) inputs in
  fst (rx_run (RxSession_new lk) inputs) = fst (rx_run (RxSession_new lk) good) /\
  accepted_pairs inputs (snd (rx_run (RxSession_new lk) inputs))
    = accepted_pairs good (snd (rx_run (RxSession_new lk) good)).
Proof. by apply (rx_run_ignores_forged lk _ (mkSpec 0 [])); [apply rx_new_refines|]. Qed.

(** C3: end-to-end delivery on a link. Seal any messages on a fresh transmit
    session and let the network deliver the datagrams in any order, with any
    repetitions and losses: a fresh receive session holding the same link key
    recovers each header (masked or not), and its outcome for each delivery is
    the original plaintext exactly when the replay specification accepts the
    datagram's position, and a drop otherwise. *)
Theorem link_delivery `{!CryptoLaws C} lk id epoch obf msgs order
    (Hid : fits 16 id) (He : fits 64 epoch) (Hne : epoch <> 0)
    (Hmsgs : Forall msg_ok msgs) (Hlen : Z.of_nat (length msgs) <= u64_max)
    (Horder : Forall (fun i => (i < length msgs)%nat) order) :
  let ds := snd (tx_run (TxSession_new lk id epoch obf) msgs) in
  snd (rx_run (RxSession_new lk) (delivered lk obf ds order))
  = zip_with outcome_of (snd (spec_run [] (map (fun i => 1 + Z.of_nat i) order)))
      (omap (fun i => snd <$> msgs !! i) order).
Proof.
  intros ds.
  assert (exists inputs ps, delivered lk obf ds order = inputs /\
    omap (fun i => snd <$> msgs !! i) order = ps /\ Forall input_ok inputs /\
    map (fun i => 1 + Z.of_nat i) order = map (fun i => h_seq (fst i)) inputs /\
    Forall2 (fun i p => h_epoch (fst i) = epoch /\ authenticates lk (fst i) (snd i) = Some p) inputs ps)
    as (inputs & ps & -> & -> & Hok & -> & H2).
  { induction Horder as [|i order Hi _ (inputs & ps & H1 & H2 & Hok & H3 & H4)].
    { exists [], []. split_and!; constructor. }
    destruct (lookup_lt_is_Some_2 msgs i Hi) as [[f p] Hm].
    destruct (tx_run_datagram (TxSession_new lk id epoch obf) msgs i f p)
      as (d & h & Hd & Hr & Hin & Hep & Hsq & Ha); simpl; try done; try lia.
    simpl in *. exists ((h, drop HEADER_LEN d) :: inputs), (p :: ps).
    unfold delivered in *. simpl. rewrite Hm. fold ds in Hd. rewrite Hd. simpl. rewrite Hr. simpl.
    split_and!; [by rewrite H1|by f_equal|by constructor| |by constructor].
    by rewrite Hsq, H3. }
  destruct (rx_run_refines lk _ _ inputs (rx_new_refines lk) Hok) as [-> _].
  rewrite (spec_rx_run_first_epoch lk epoch inputs ps); [|unfold fits in *; lia| |done].
  - by apply spec_rx_run_one_epoch.
  - eapply Forall_impl; [exact Hok|]. intros i [(_ & _ & _ & _ & ?) _]. done.
Qed.

(** A transmit session uses the numbers 1, 2, 3, ... without repetition for
    its first 2^64-1 datagrams, so no (key, nonce) pair repeats among them; the
    saturating counter then stays at [u64::MAX], and the next datagram reuses
    the nonce of the previous one. *)
Theorem tx_nonce_uniqueness lk id epoch obf msgs
    (Hlen : Z.of_nat (length msgs) <= u64_max) :
  tx_seqs (TxSession_new lk id epoch obf) msgs = seqZ 1 (Z.of_nat (length msgs)) /\
  NoDup (tx_seqs (TxSession_new lk id epoch obf) msgs) /\
  (forall s m, next_seq s = u64_max ->
     next_seq (fst (TxSession_seal s (fst m) (snd m))) = next_seq s).
Proof.
  assert (tx_seqs (TxSession_new lk id epoch obf) msgs = seqZ 1 (Z.of_nat (length msgs))) as Heq.
  { rewrite tx_seqs_spec; simpl; [done|lia|lia]. }
  rewrite Heq. split_and!; [done|apply NoDup_seqZ|].
  intros s m Hs. unfold TxSession_seal, saturating_add. simpl. rewrite Hs. unfold u64_max. lia.
Qed.

End Properties.

(** Witnesses, on the lawful toy primitives. *)

Definition demo_link : list Z := repeat 90 32.
Definition demo_msgs : list (Z * list Z) := [(0, lit "hello"); (KEEPALIVE, []); (0, lit "bye")].
Definition demo_datagrams (obf : bool) : list (list Z) :=
  snd (tx_run (C:=Toy.prims) (TxSession_new (C:=Toy.prims) demo_link 1 1704067200000000000 obf) demo_msgs).
Definition demo_inputs : list rx_input :=
  delivered (C:=Toy.prims) demo_link true (demo_datagrams true) [0; 2; 0; 1]%nat.
Definition forged_input : rx_input := (mkHeader 1 0 1 1800000000000000000 9, repeat 3 40).

Lemma demo_inputs_ok : Forall input_ok (forged_input :: demo_inputs).
Proof. apply (bool_decide_unpack _). vm_compute. exact I. Qed.

Lemma rx_session_no_replay_witness :
  accepted_pairs demo_inputs (snd (rx_run (C:=Toy.prims) (RxSession_new demo_link) demo_inputs))
    = [(1704067200000000000, 1); (1704067200000000000, 3); (1704067200000000000, 2)] /\
  NoDup (accepted_pairs demo_inputs (snd (rx_run (C:=Toy.prims) (RxSession_new demo_link) demo_inputs))).
Proof.
  split; [vm_compute; reflexivity|].
  apply (rx_session_no_replay (C:=Toy.prims)).
  pose proof demo_inputs_ok as H. by inversion H.
Defined.

Lemma rx_session_forgery_transparent_witness :
  snd (RxSession_accept (C:=Toy.prims) (RxSession_new demo_link) (fst forged_input) (snd forged_input)) = Drop /\
  fst (rx_run (C:=Toy.prims) (RxSession_new demo_link) (forged_input :: demo_inputs))
  = fst (rx_run (C:=Toy.prims) (RxSession_new demo_link)
      (List.filter (is_authentic (C:=Toy.prims) demo_link) (forged_input :: demo_inputs))).
Proof.
  split; [vm_compute; reflexivity|].
  exact (proj1 (rx_session_forgery_transparent (C:=Toy.prims) demo_link _ demo_inputs_ok)).
Defined.

Lemma link_delivery_witness :
  snd (rx_run (C:=Toy.prims) (RxSession_new demo_link) demo_inputs)
  = [Accept (lit "hello"); Accept (lit "bye"); Drop; Accept []].
Proof.
  etransitivity.
  - apply (link_delivery (C:=Toy.prims) (CryptoLaws0:=Toy.toy_laws) demo_link 1 1704067200000000000 true
      demo_msgs [0; 2; 0; 1]%nat).
    + apply (bool_decide_unpack _). vm_compute. exact I.
    + apply (bool_decide_unpack _). vm_compute. exact I.
    + done.
    + repeat apply Forall_cons_2; [by left|by right|by left|constructor].
    + vm_compute. congruence.
    + apply (bool_decide_unpack _). vm_compute. exact I.
  - vm_compute. reflexivity.
Defined.

Lemma tx_nonce_uniqueness_witness :
  tx_seqs (C:=Toy.prims) (TxSession_new (C:=Toy.prims) demo_link 1 5 false) demo_msgs = [1; 2; 3].
Proof.
  etransitivity.
  - apply (tx_nonce_uniqueness (C:=Toy.prims) demo_link 1 5 false demo_msgs). vm_compute. congruence.
  - reflexivity.
Defined.
