(* ===== verification/SubnetraConfig.v ===== *)
(** * SubnetraConfig: fail-closed validation of src/src/subnetra/config.rs

    [to_runtime] lowers the file configuration to the runtime one, with one
    error constructor per [ensure!]/[bail!] site. [usize] values are natural
    lengths, ids and ports are [u16] values. *)

From Stdlib Require Import ZArith Lia.
From stdpp Require Import prelude strings list gmap.
From S2P Require Import Prelude RustStr Net NetProps Wire.

(** [subnetra::INNER_MTU], [MIN_INNER_MTU], [MIN_EPOCH_NS] *)
Definition INNER_MTU : Z := 1452.
Definition MIN_INNER_MTU : Z := 576.
Definition MIN_EPOCH_NS : Z := 1704067200000000000.

Record TunConfig := mkTun { tun_name : str; tun_manage : bool }.

Record PeerConfig := mkPeerConfig {
  pc_id : Z; pc_psk : str; pc_allowed_src : str; pc_endpoint : option str; pc_name : str
}.

Record SubnetraConfig := mkSubnetraConfig {
  sc_enable : bool; sc_mode : str; sc_local_id : Z; sc_listen : str; sc_overlay_cidr : str;
  sc_obfuscate : bool; sc_keepalive_secs : Z; sc_mtu : option Z; sc_device : str;
  sc_tun : TunConfig; sc_proxy_protocol : str; sc_proxy_port : Z; sc_peers : list PeerConfig
}.

Inductive Mode := Hub | Spoke.
#[global] Instance Mode_eq_dec : EqDecision Mode.
Proof. solve_decision. Defined.

Inductive Device :=
| Netstack (hub_proxy : option (str * Z))
| Tun (name : str) (manage : bool).

(** [default_obfuscate], [default_keepalive_secs], [default_device],
    [default_tun_name], [default_tun_manage], [TunConfig::default] *)
Definition default_obfuscate : bool := true.
Definition default_keepalive_secs : Z := 25.
Definition default_device : str := lit "netstack".
Definition TunConfig_default : TunConfig := mkTun (lit "rove0") true.

Inductive config_error :=
| BadMode | ZeroLocalId | BadListen | BadOverlayCidr | NoPeers | MtuOutOfRange
| BadProxyProtocol | ZeroProxyPort | TunWithProxy | EmptyTunName | TunNameTooLong
| TunNameInvalid | BadDevice | ZeroPeerId | PeerIdIsLocal | DuplicatePeerId
| PskLength | PskNotHex | PskSlicePanic | BadAllowedSrc | BadEndpoint | SpokeNeedsEndpoint
| EpochOverflow | EpochTooLow.

(** [Mode::parse] *)
Definition Mode_parse (s : str) : result config_error Mode :=
  let m := to_ascii_lowercase (trim s) in
  if str_eqb m (lit "hub") then Ok Hub
  else if str_eqb m (lit "spoke") then Ok Spoke
  else Err BadMode.

(** [s.is_char_boundary(i)]: not a UTF-8 continuation byte. *)
Definition is_char_boundary (s : str) (i : nat) : bool :=
  match s !! i with
  | Some b => negb ((128 <=? b) && (b <? 192))
  | None => (i =? length s)%nat
  end.

(** [u8::from_str_radix(&s[i*2..i*2+2], 16)]: slicing off a character boundary
    panics. *)
Definition psk_byte (s : str) (i : nat) : result config_error Z :=
  if is_char_boundary s (i * 2) && is_char_boundary s (i * 2 + 2)
  then ok_or (from_str_radix 16 8 (slice s (i * 2) (i * 2 + 2))) PskNotHex
  else Err PskSlicePanic.

(** [parse_psk] *)
Definition parse_psk (s : str) : result config_error (list Z) :=
  let s := trim s in
  ensure (length s =? KEY_LEN * 2)%nat PskLength ;;
  try_map (psk_byte s) (seq 0 KEY_LEN).

(** [name.chars().any(|c| c.is_whitespace() || c == '/' || c == '\0')] *)
Fixpoint has_invalid_tun_char (s : str) : bool :=
  match s with
  | [] => false
  | c :: r => (match strip_ws s with Some _ => true | None => false end)
              || (c =? slash) || (c =? 0) || has_invalid_tun_char r
  end.

(** [sample_boot_epoch] on the nanoseconds the clock returned. *)
Definition sample_boot_epoch (ns : Z) : result config_error Z :=
  epoch ← ok_or (try_from 64 ns) EpochOverflow;
  ensure (MIN_EPOCH_NS <=? epoch) EpochTooLow ;;
  Ok epoch.

Section Runtime.
Context {N : Ipnet}.

Record RuntimePeer := mkRuntimePeer {
  rp_id : Z; rp_psk : list Z; rp_allowed_src : Ipv4Net; rp_endpoint : option SocketAddr; rp_name : str
}.

Record RuntimeConfig := mkRuntimeConfig {
  rc_mode : Mode; rc_local_id : Z; rc_listen : SocketAddr; rc_overlay : Ipv4Net;
  rc_obfuscate : bool; rc_keepalive_secs : Z; rc_mtu : Z; rc_device : Device;
  rc_peers : list RuntimePeer
}.

(** [RuntimeConfig::overlay_ip], [RuntimeConfig::hub_proxy] *)
Definition overlay_ip (c : RuntimeConfig) : Z := v4net_addr (rc_overlay c).
Definition hub_proxy (c : RuntimeConfig) : option (str * Z) :=
  match rc_device c with Netstack p => p | Tun _ _ => None end.

(** The MTU arm of [to_runtime]. *)
Definition runtime_mtu (c : SubnetraConfig) : result config_error Z :=
  match sc_mtu c with
  | None => Ok INNER_MTU
  | Some v => ensure ((MIN_INNER_MTU <=? v) && (v <=? INNER_MTU)) MtuOutOfRange ;; Ok v
  end.

(** The device arm of [to_runtime]. *)
Definition runtime_device (c : SubnetraConfig) (mode : Mode) : result config_error Device :=
  let dev_type := to_ascii_lowercase (trim (sc_device c)) in
  if str_eqb dev_type (lit "netstack") then
    if decide (mode = Hub) then
      let proto := to_ascii_lowercase (trim (sc_proxy_protocol c)) in
      ensure (str_eqb proto (lit "http") || str_eqb proto (lit "socks5")) BadProxyProtocol ;;
      ensure (negb (sc_proxy_port c =? 0)) ZeroProxyPort ;;
      Ok (Netstack (Some (proto, sc_proxy_port c)))
    else Ok (Netstack None)
  else if str_eqb dev_type (lit "tun") then
    ensure (is_empty (trim (sc_proxy_protocol c)) && (sc_proxy_port c =? 0)) TunWithProxy ;;
    let name := trim (tun_name (sc_tun c)) in
    ensure (negb (is_empty name)) EmptyTunName ;;
    ensure (length name <=? 15)%nat TunNameTooLong ;;
    ensure (negb (has_invalid_tun_char name)) TunNameInvalid ;;
    Ok (Tun name (tun_manage (sc_tun c)))
  else Err BadDevice.

(** One iteration of the peer loop: the ids seen so far are threaded through. *)
Definition runtime_peer (c : SubnetraConfig) (mode : Mode) (seen : gset Z) (p : PeerConfig)
    : result config_error RuntimePeer :=
  ensure (negb (pc_id p =? 0)) ZeroPeerId ;;
  ensure (negb (pc_id p =? sc_local_id c)) PeerIdIsLocal ;;
  ensure (bool_decide (pc_id p ∉ seen)) DuplicatePeerId ;;
  psk ← parse_psk (pc_psk p);
  allowed_src ← ok_or (v4net_parse (trim (pc_allowed_src p))) BadAllowedSrc;
  endpoint ← match pc_endpoint p with
             | Some ep => a ← ok_or (parse_socket_addr (trim ep)) BadEndpoint; Ok (Some a)
             | None => Ok None
             end;
  ensure (negb (bool_decide (mode = Spoke)) || bool_decide (is_Some endpoint)) SpokeNeedsEndpoint ;;
  Ok (mkRuntimePeer (pc_id p) psk allowed_src endpoint (pc_name p)).

Fixpoint runtime_peers (c : SubnetraConfig) (mode : Mode) (seen : gset Z) (ps : list PeerConfig)
    : result config_error (list RuntimePeer) :=
  match ps with
  | [] => Ok []
  | p :: ps =>
      r ← runtime_peer c mode seen p;
      rs ← runtime_peers c mode ({[pc_id p]} ∪ seen) ps;
      Ok (r :: rs)
  end.

(** [SubnetraConfig::to_runtime] *)
Definition to_runtime (c : SubnetraConfig) : result config_error RuntimeConfig :=
  mode ← Mode_parse (sc_mode c);
  ensure (negb (sc_local_id c =? 0)) ZeroLocalId ;;
  listen ← ok_or (parse_socket_addr (trim (sc_listen c))) BadListen;
  overlay ← ok_or (v4net_parse (trim (sc_overlay_cidr c))) BadOverlayCidr;
  ensure (negb (is_empty (sc_peers c))) NoPeers ;;
  mtu ← runtime_mtu c;
  device ← runtime_device c mode;
  peers ← runtime_peers c mode ∅ (sc_peers c);
  Ok {| rc_mode := mode; rc_local_id := sc_local_id c; rc_listen := listen;
        rc_overlay := overlay; rc_obfuscate := sc_obfuscate c;
        rc_keepalive_secs := sc_keepalive_secs c; rc_mtu := mtu; rc_device := device;
        rc_peers := peers |}.

(** ** What a runtime configuration guarantees *)

Record runtime_ok (c : RuntimeConfig) : Prop := {
  ro_local : rc_local_id c <> 0;
  ro_nonempty : rc_peers c <> [];
  ro_mtu : MIN_INNER_MTU <= rc_mtu c <= INNER_MTU;
  ro_unique : NoDup (map rp_id (rc_peers c));
  ro_ids : Forall (fun p => rp_id p <> 0 /\ rp_id p <> rc_local_id c) (rc_peers c);
  ro_psk : Forall (fun p => length (rp_psk p) = KEY_LEN /\ bytes_ok (rp_psk p)) (rc_peers c);
  ro_spoke : rc_mode c = Spoke -> Forall (fun p => is_Some (rp_endpoint p)) (rc_peers c);
  ro_hub : rc_mode c = Hub -> forall p, rc_device c = Netstack p ->
    exists proto port, p = Some (proto, port) /\ port <> 0 /\ proto ∈ [lit "http"; lit "socks5"];
  ro_tun : forall name m, rc_device c = Tun name m ->
    (1 <= length name <= 15)%nat /\ has_invalid_tun_char name = false
}.

Lemma parse_psk_ok s k : parse_psk s = Ok k -> length k = KEY_LEN /\ bytes_ok k.
Proof.
  unfold parse_psk. intros H. res_inv. apply try_map_Forall2 in H.
  split; [apply Forall2_length in H; by rewrite <- H, length_seq|].
  clear Hv. induction H as [|i b l r Hb _ IH]; constructor; [|done].
  unfold psk_byte in Hb. destruct (_ && _); [|done]. apply ok_or_Ok in Hb.
  by apply from_str_radix_fits in Hb.
Qed.

Lemma runtime_peer_Ok c mode seen p r :
  runtime_peer c mode seen p = Ok r ->
  rp_id r = pc_id p /\ rp_id r <> 0 /\ rp_id r <> sc_local_id c /\ rp_id r ∉ seen /\
  length (rp_psk r) = KEY_LEN /\ bytes_ok (rp_psk r) /\
  (mode = Spoke -> is_Some (rp_endpoint r)).
Proof.
  unfold runtime_peer. intros H. res_inv.
  destruct (parse_psk_ok _ _ Hv2) as [Hl Hb]. simpl. bools.
  split_and!; try done.
  intros ->. rewrite orb_true_iff in *. destruct Hv5 as [Hv5|Hv5]; bools; done.
Qed.

Lemma runtime_peers_Ok c mode seen ps rs :
  runtime_peers c mode seen ps = Ok rs ->
  NoDup (map rp_id rs) /\ length rs = length ps /\
  Forall (fun p => rp_id p ∉ seen /\ rp_id p <> 0 /\ rp_id p <> sc_local_id c) rs /\
  Forall (fun p => length (rp_psk p) = KEY_LEN /\ bytes_ok (rp_psk p)) rs /\
  (mode = Spoke -> Forall (fun p => is_Some (rp_endpoint p)) rs).
Proof.
  revert seen rs; induction ps as [|p ps IH]; intros seen rs H; simpl in H.
  - res_inv. split_and!; try constructor; auto.
  - res_inv. destruct (runtime_peer_Ok _ _ _ _ _ Hv) as (Hid & H0 & Hl & Hs & Hk & Hb & He).
    destruct (IH _ _ Hv0) as (Hnd & Hlen & Hids & Hpsk & Hsp). simpl. split_and!.
    + constructor; [|done]. rewrite list_elem_of_In, in_map_iff. intros (q & Hq & Hin).
      rewrite Forall_forall in Hids. apply list_elem_of_In in Hin.
      destruct (Hids q Hin) as [Hn _]. rewrite Hq, Hid in Hn. set_solver.
    + by rewrite Hlen.
    + constructor; [done|]. eapply Forall_impl; [exact Hids|]. simpl. set_solver.
    + by constructor.
    + intros Hm. constructor; auto.
Qed.

Lemma runtime_device_hub c d :
  runtime_device c Hub = Ok d -> forall p, d = Netstack p ->
  exists proto port, p = Some (proto, port) /\ port <> 0 /\ proto ∈ [lit "http"; lit "socks5"].
Proof.
  unfold runtime_device. intros H p ->. destruct (str_eqb _ _).
  - simpl in H. res_inv. injection H as <-. eexists _, _. split; [done|]. bools.
    split; [done|]. rewrite orb_true_iff, !str_eqb_eq in Hv. rewrite !elem_of_cons. tauto.
  - destruct (str_eqb _ _); [|done]. res_inv.
Qed.

Lemma runtime_device_tun c m d :
  runtime_device c m = Ok d -> forall name b, d = Tun name b ->
  (1 <= length name <= 15)%nat /\ has_invalid_tun_char name = false.
Proof.
  unfold runtime_device. intros H name b ->. destruct (str_eqb _ _).
  - destruct (decide _); res_inv.
  - destruct (str_eqb _ _); [|done]. res_inv. injection H as <- <-. bools.
    apply is_empty_false in Hv0. apply Nat.leb_le in Hv1.
    split; [|done]. destruct (trim (tun_name (sc_tun c))); [done|]. simpl in *. lia.
Qed.

(** A configuration that validates yields a runtime configuration a mesh can
    run on: non-zero ids, peer ids unique and different from the local one,
    32-byte keys, MTU within the protocol bounds, an endpoint for every peer of
    a spoke, a served proxy on a netstack hub, a legal interface name for TUN. *)
Theorem to_runtime_ok c rc (H : to_runtime c = Ok rc) : runtime_ok rc.
Proof.
  unfold to_runtime in H. res_inv. bools.
  destruct (runtime_peers_Ok _ _ _ _ _ Hv6) as (Hnd & Hlen & Hids & Hpsk & Hsp).
  split; simpl; try done.
  - apply is_empty_false in Hv3. destruct v6; [|done]. by destruct (sc_peers c).
  - unfold runtime_mtu in Hv4. destruct (sc_mtu c).
    + res_inv. bools. done.
    + res_inv. done.
  - eapply Forall_impl; [exact Hids|]. simpl. naive_solver.
  - intros Hm p Hp. subst. by eapply runtime_device_hub.
  - intros name m Hp. by eapply runtime_device_tun.
Qed.

End Runtime.

(** ** Pre-shared key syntax *)

Lemma to_digit_range radix c d : to_digit radix c = Some d -> 0 <= d < radix.
Proof.
  unfold to_digit, is_ascii_digit. intros H.
  repeat case_match; simplify_eq; bools; lia.
Qed.
Lemma to_digit_plus : to_digit 16 43 = None.
Proof. reflexivity. Qed.

(** The two-character readings [u8::from_str_radix(_, 16)] accepts. *)
Definition psk_pair (a b v : Z) : Prop :=
  (a = 43 /\ to_digit 16 b = Some v) \/
  (exists x y, to_digit 16 a = Some x /\ to_digit 16 b = Some y /\ v = 16 * x + y).

Lemma from_str_radix_pair a b v : from_str_radix 16 8 [a; b] = Some v <-> psk_pair a b v.
Proof.
  unfold from_str_radix, psk_pair, parse_with, read_number_unbounded. simpl.
  destruct (Z.eqb_spec a 43) as [->|Ha]; simpl.
  - rewrite to_digit_plus. destruct (to_digit 16 b) as [y|] eqn:Eb; simpl.
    + assert (0 <= y < 16) by (by eapply to_digit_range).
      replace (0 * 16 + y) with y by lia.
      rewrite (proj2 (fitsb_spec 8 y)) by (unfold fits; lia).
      split; [intros [= <-]; by left|]. intros [[_ [= <-]]|(x & z & Hx & _)]; done.
    + split; [done|]. intros [[_ ?]|(x & z & Hx & _)]; done.
  - destruct (to_digit 16 a) as [x|] eqn:Ea; simpl.
    2: { split; [done|]. intros [[? _]|(x & y & ? & _)]; done. }
    destruct (to_digit 16 b) as [y|] eqn:Eb; simpl.
    + assert (0 <= x < 16) by (by eapply to_digit_range).
      assert (0 <= y < 16) by (by eapply to_digit_range).
      replace ((0 * 16 + x) * 16 + y) with (x * 16 + y) by lia.
      rewrite (proj2 (fitsb_spec 8 (x * 16 + y))) by (unfold fits; lia).
      split.
      * intros [= <-]. right. exists x, y. split_and!; try done; lia.
      * intros [[? _]|(x' & y' & [= <-] & [= <-] & ->)]; [done|]. f_equal. lia.
    + destruct (fitsb 8 _); split; try done; intros [[? _]|(? & ? & _ & ? & _)]; done.
Qed.

(** A pre-shared key that parses is 64 bytes read as 32 pairs, each pair two
    hexadecimal digits or, beyond the documented syntax, a plus sign and one
    digit; the key has 32 bytes. *)
Theorem parse_psk_syntax s k (H : parse_psk s = Ok k) :
  length (trim s) = 64%nat /\ length k = 32%nat /\
  forall i a b v, (i < 32)%nat -> trim s !! (2 * i)%nat = Some a -> trim s !! (2 * i + 1)%nat = Some b ->
    k !! i = Some v -> psk_pair a b v.
Proof.
  destruct (parse_psk_ok s k H) as [Hlen _]. unfold parse_psk in H. res_inv.
  apply Nat.eqb_eq in Hv. split_and!; [done|done|].
  intros i a b x Hi Ha Hb Hk. apply try_map_Forall2 in H.
  eapply Forall2_lookup_lr in H; [|by apply lookup_seq_lt|exact Hk].
  unfold psk_byte in H. destruct (_ && _); [|done]. apply ok_or_Ok in H.
  apply from_str_radix_pair. rewrite <- H. f_equal.
  unfold slice. replace (0 + i)%nat with i by lia. replace (i * 2)%nat with (2 * i)%nat by lia.
  replace (2 * i + 2 - 2 * i)%nat with 2%nat by lia.
  rewrite (drop_S _ a) by done. replace (S (2 * i)) with (2 * i + 1)%nat by lia.
  by rewrite (drop_S _ b) by done.
Qed.

Definition plus_psk : str := concat (repeat (lit "+f") 32).

Lemma parse_psk_syntax_witness :
  parse_psk plus_psk = Ok (repeat 15 32) /\ psk_pair 43 102 15.
Proof.
  split; [vm_compute; reflexivity|].
  apply (parse_psk_syntax plus_psk (repeat 15 32) ltac:(vm_compute; reflexivity)) with (i := 3%nat);
    [lia|vm_compute; reflexivity..].
Defined.

(** A 64-byte key with a two-byte character across a pair boundary panics. *)
Example parse_psk_panics :
  parse_psk ([97; 195; 169] ++ repeat 97 61) = Err PskSlicePanic.
Proof. vm_compute. reflexivity. Qed.

Definition demo_config : SubnetraConfig := {|
  sc_enable := true; sc_mode := lit "Hub"; sc_local_id := 1; sc_listen := lit "0.0.0.0:18020";
  sc_overlay_cidr := lit "10.0.0.1/24"; sc_obfuscate := true; sc_keepalive_secs := 25;
  sc_mtu := None; sc_device := default_device; sc_tun := TunConfig_default;
  sc_proxy_protocol := lit "http"; sc_proxy_port := 8080;
  sc_peers := [mkPeerConfig 2 (concat (repeat (lit "5a") 32)) (lit "10.0.0.2/32") None (lit "spoke")]
|}.

Lemma to_runtime_ok_witness :
  exists rc, to_runtime (N:=CidrNet.inst) demo_config = Ok rc /\ NoDup (map rp_id (rc_peers rc)).
Proof.
  assert (is_ok (to_runtime (N:=CidrNet.inst) demo_config) = true) as Hok by (vm_compute; reflexivity).
  destruct (to_runtime demo_config) as [rc|e] eqn:E; [|discriminate Hok].
  exists rc. split; [reflexivity|].
  exact (ro_unique (N:=CidrNet.inst) rc (to_runtime_ok (N:=CidrNet.inst) demo_config rc E)).
Defined.
