(* ===== verification/Peer.v ===== *)
(** * Peer: the peer table of src/src/subnetra/peer.rs

    Identity selection (by key id, or by trial unmasking when headers are
    obfuscated), the receive path [ingest] with the inner-source check and
    endpoint learning, longest-prefix routing, and [seal_for]. Every operation
    takes and returns the whole table, as the [&mut self] methods do. *)

From Stdlib Require Import ZArith Lia.
From stdpp Require Import prelude strings list gmap.
From S2P Require Import Prelude RustStr Net Replay Wire Session SubnetraConfig.

Inductive Ingest :=
| Data (peer_id : Z) (inner : list Z)
| Keepalive (peer_id : Z)
| IngestDrop.
#[global] Instance Ingest_eq_dec : EqDecision Ingest.
Proof. solve_decision. Defined.

(** [ipv4_src], [ipv4_dst]: at least 20 bytes and version nibble 4. *)
Definition ipv4_field (off : nat) (packet : list Z) : option Z :=
  if (length packet <? 20)%nat || negb (Z.shiftr (byte_at packet 0) 4 =? 4) then None
  else Some (from_be_bytes (slice packet off (off + 4))).
Definition ipv4_src (packet : list Z) : option Z := ipv4_field 12 packet.
Definition ipv4_dst (packet : list Z) : option Z := ipv4_field 16 packet.

Section Peer.
Context {C : CryptoPrims} {N : Ipnet}.

Record Peer := mkPeer {
  p_id : Z;
  p_name : str;
  p_allowed_src : Ipv4Net;
  p_endpoint : option SocketAddr;
  p_rx_link_key : list Z;
  p_rx : RxSession;
  p_tx : TxSession
}.

Record PeerTable := mkTable {
  t_local_id : Z;
  t_obfuscate : bool;
  t_peers : list Peer;
  t_by_id : gmap Z nat
}.

Definition set_endpoint (p : Peer) (e : SocketAddr) : Peer :=
  mkPeer (p_id p) (p_name p) (p_allowed_src p) (Some e) (p_rx_link_key p) (p_rx p) (p_tx p).
Definition set_rx (p : Peer) (rx : RxSession) : Peer :=
  mkPeer (p_id p) (p_name p) (p_allowed_src p) (p_endpoint p) (p_rx_link_key p) rx (p_tx p).
Definition set_tx (p : Peer) (tx : TxSession) : Peer :=
  mkPeer (p_id p) (p_name p) (p_allowed_src p) (p_endpoint p) (p_rx_link_key p) (p_rx p) tx.
(** [self.peers[idx] = p] *)
Definition set_peer (t : PeerTable) (idx : nat) (p : Peer) : PeerTable :=
  mkTable (t_local_id t) (t_obfuscate t) (<[idx := p]> (t_peers t)) (t_by_id t).

(** The peer entry [PeerTable::new] builds for one configured peer. *)
Definition new_peer (cfg : RuntimeConfig) (local_epoch : Z) (p : RuntimePeer) : Peer :=
  let rx_lk := link_key (rp_psk p) (rp_id p) (rc_local_id cfg) in
  let tx_lk := link_key (rp_psk p) (rc_local_id cfg) (rp_id p) in
  mkPeer (rp_id p) (rp_name p) (rp_allowed_src p) (rp_endpoint p) rx_lk (RxSession_new rx_lk)
    (TxSession_new tx_lk (rc_local_id cfg) local_epoch (rc_obfuscate cfg)).

(** The index: [by_id.insert(p.id, i)] in declaration order. *)
Definition index_ids (ids : list Z) : gmap Z nat :=
  foldl (fun m '(i, id) => <[id := i]> m) ∅ (enumerate ids).

(** [PeerTable::new] *)
Definition PeerTable_new (cfg : RuntimeConfig) (local_epoch : Z) : PeerTable :=
  mkTable (rc_local_id cfg) (rc_obfuscate cfg) (map (new_peer cfg local_epoch) (rc_peers cfg))
    (index_ids (map rp_id (rc_peers cfg))).

(** The obfuscated arm of [select]: trial unmasking over the peers in order. *)
Fixpoint select_trial (datagram tag : list Z) (ps : list (nat * Peer)) : option (nat * Header) :=
  match ps with
  | [] => None
  | (i, p) :: ps =>
      let pad := obfuscation_pad (p_rx_link_key p) tag in
      let clear := demask_header (take HEADER_LEN datagram) pad in
      header ← Header_parse clear;
      if (h_version header =? WIRE_VERSION) && (h_key_id header =? p_id p) && Header_is_valid header
      then Some (i, header)
      else select_trial datagram tag ps
  end.

(** [PeerTable::select] *)
Definition select (t : PeerTable) (datagram tag : list Z) : option (nat * Header) :=
  if t_obfuscate t then select_trial datagram tag (enumerate (t_peers t))
  else
    header ← Header_parse (take HEADER_LEN datagram);
    idx ← t_by_id t !! h_key_id header;
    if Header_is_valid header then Some (idx, header) else None.

(** [PeerTable::ingest]. The lookup failure below is the code's index panic; the
    index [select] returns is always in range. *)
Definition ingest (t : PeerTable) (datagram : list Z) (src : SocketAddr) : PeerTable * Ingest :=
  match datagram_tag datagram with
  | None => (t, IngestDrop)
  | Some tag =>
      match select t datagram tag with
      | None => (t, IngestDrop)
      | Some (idx, header) =>
          match t_peers t !! idx with
          | None => (t, IngestDrop)
          | Some p =>
              let '(rx, out) := RxSession_accept (p_rx p) header (drop HEADER_LEN datagram) in
              let p := set_rx p rx in
              let t := set_peer t idx p in
              match out with
              | Drop => (t, IngestDrop)
              | Accept inner =>
                  if Header_is_keepalive header
                  then (set_peer t idx (set_endpoint p src), Keepalive (p_id p))
                  else
                    match ipv4_src inner with
                    | None => (t, IngestDrop)
                    | Some inner_src =>
                        if negb (v4net_contains (p_allowed_src p) inner_src) then (t, IngestDrop)
                        else (set_peer t idx (set_endpoint p src), Data (p_id p) inner)
                    end
              end
          end
      end
  end.

(** [Iterator::max_by_key]: the last of the maximal elements. *)
Definition max_by_key {A} (key : A -> Z) (l : list A) : option A :=
  foldl (fun best x => match best with
                       | None => Some x
                       | Some b => if key x <? key b then Some b else Some x
                       end) None l.

(** [PeerTable::route] *)
Definition route (t : PeerTable) (dst : Z) : option Z :=
  p_id <$> max_by_key (fun p => v4net_prefix_len (p_allowed_src p))
             (List.filter (fun p => v4net_contains (p_allowed_src p) dst) (t_peers t)).

(** [PeerTable::seal_for] *)
Definition seal_for (t : PeerTable) (peer_id flags : Z) (inner : list Z)
    : PeerTable * option (list Z * SocketAddr) :=
  match t_by_id t !! peer_id with
  | None => (t, None)
  | Some idx =>
      match t_peers t !! idx with
      | None => (t, None)
      | Some p =>
          match p_endpoint p with
          | None => (t, None)
          | Some endpoint =>
              let '(tx, datagram) := TxSession_seal (p_tx p) flags inner in
              (set_peer t idx (set_tx p tx), Some (datagram, endpoint))
          end
      end
  end.

(** [peers_with_endpoint], [peer_ids], [local_id], [name_of] *)
Definition peers_with_endpoint (t : PeerTable) : list Z :=
  map p_id (List.filter (fun p => match p_endpoint p with Some _ => true | None => false end) (t_peers t)).
Definition peer_ids (t : PeerTable) : list Z := map p_id (t_peers t).
Definition local_id (t : PeerTable) : Z := t_local_id t.
Definition name_of (t : PeerTable) (peer_id : Z) : option str :=
  idx ← t_by_id t !! peer_id; p ← t_peers t !! idx; Some (p_name p).

(** ** The table invariant *)

Record table_ok (t : PeerTable) : Prop := {
  to_unique : NoDup (map p_id (t_peers t));
  to_index : forall id i, t_by_id t !! id = Some i <-> (map p_id (t_peers t)) !! i = Some id;
  to_rx : forall i p, t_peers t !! i = Some p ->
    exists a, rx_refines (p_rx_link_key p) (p_rx p) a
}.

Lemma index_ids_gen (ids : list Z) (j : nat) (m : gmap Z nat) :
  NoDup ids -> (forall id, id ∈ ids -> m !! id = None) ->
  forall id i, foldl (fun m '(i, id) => <[id := i]> m) m (enumerate_from j ids) !! id = Some i <->
    m !! id = Some i \/ ((j <= i)%nat /\ ids !! (i - j)%nat = Some id).
Proof.
  revert j m; induction ids as [|x ids IH]; intros j m Hnd Hm id i; simpl.
  { naive_solver. }
  apply NoDup_cons in Hnd as [Hx Hnd].
  rewrite IH; [|done|].
  2: { intros y Hy. rewrite lookup_insert_ne by (intros ->; done). apply Hm. by right. }
  destruct (decide (x = id)) as [->|Hne].
  - rewrite lookup_insert_eq, (Hm id) by by left. split.
    + intros [[= <-]|[Hle Hl]]; right.
      * by rewrite Nat.sub_diag.
      * split; [lia|]. by replace (i - j)%nat with (S (i - S j)) by lia.
    + intros [?|[Hle Hl]]; [done|]. destruct (decide (i = j)) as [->|]; [by left|].
      exfalso. replace (i - j)%nat with (S (i - S j)) in Hl by lia.
      apply Hx. by eapply list_elem_of_lookup_2.
  - rewrite lookup_insert_ne by done. split.
    + intros [?|[Hle Hl]]; [by left|right]. split; [lia|].
      by replace (i - j)%nat with (S (i - S j)) by lia.
    + intros [?|[Hle Hl]]; [by left|right]. destruct (decide (i = j)) as [->|].
      * rewrite Nat.sub_diag in Hl. naive_solver.
      * split; [lia|]. by replace (i - j)%nat with (S (i - S j)) in Hl by lia.
Qed.

Lemma index_ids_spec (ids : list Z) id i :
  NoDup ids -> index_ids ids !! id = Some i <-> ids !! i = Some id.
Proof.
  intros H. unfold index_ids. rewrite index_ids_gen; [|done|intros; apply lookup_empty].
  rewrite lookup_empty, Nat.sub_0_r. split; [intros [?|[_ ?]]; done|]. right. split; [lia|done].
Qed.

Lemma PeerTable_new_ok cfg epoch : runtime_ok cfg -> table_ok (PeerTable_new cfg epoch).
Proof.
  intros Hc. assert (map p_id (map (new_peer cfg epoch) (rc_peers cfg)) = map rp_id (rc_peers cfg)) as Hm.
  { rewrite map_map. by apply map_ext. }
  split; simpl.
  - rewrite Hm. by apply ro_unique.
  - intros id i. rewrite Hm. apply index_ids_spec. by apply ro_unique.
  - intros i p Hp. apply list_lookup_fmap_Some in Hp as (rp & -> & _). simpl.
    eexists. apply rx_new_refines.
Qed.

Lemma map_id_insert t idx p p' :
  t_peers t !! idx = Some p -> p_id p' = p_id p ->
  map p_id (<[idx := p']> (t_peers t)) = map p_id (t_peers t).
Proof.
  intros Hp Hid. change (p_id <$> <[idx := p']> (t_peers t) = p_id <$> t_peers t).
  rewrite list_fmap_insert, list_insert_id; [done|].
  rewrite list_lookup_fmap, Hp. simpl. by rewrite Hid.
Qed.

(** Replacing a peer by one with the same id, key and a refining session. *)
Lemma set_peer_ok t idx p p' :
  table_ok t -> t_peers t !! idx = Some p -> p_id p' = p_id p ->
  (exists a, rx_refines (p_rx_link_key p') (p_rx p') a) -> table_ok (set_peer t idx p').
Proof.
  intros [Hu Hi Hr] Hp Hid Ha. split; simpl.
  - by erewrite map_id_insert.
  - by erewrite map_id_insert.
  - intros j q Hq. destruct (decide (j = idx)) as [->|Hne].
    + rewrite list_lookup_insert_eq in Hq by by eapply lookup_lt_Some. by injection Hq as <-.
    + rewrite list_lookup_insert_ne in Hq by done. eauto.
Qed.

Lemma set_peer_twice t idx p q : set_peer (set_peer t idx p) idx q = set_peer t idx q.
Proof. unfold set_peer. simpl. by rewrite list_insert_insert_eq. Qed.

(** ** Selection *)

Lemma select_trial_Some d tag ps i h :
  select_trial d tag ps = Some (i, h) ->
  exists p, (i, p) ∈ ps /\ h_key_id h = p_id p /\ Header_is_valid h = true /\
    Header_parse (demask_header (take HEADER_LEN d) (obfuscation_pad (p_rx_link_key p) tag)) = Some h.
Proof.
  induction ps as [|[j p] ps IH]; intros H; [done|]. simpl in H.
  apply bind_Some in H as (h' & Hp & H). destruct (_ && _) eqn:E.
  - injection H as -> ->. bools. exists p. split_and!; try done. by left.
  - destruct (IH H) as (q & Hin & Hq). exists q. split; [by right|done].
Qed.

Lemma lxor_byte a b : fits 8 a -> fits 8 b -> fits 8 (Z.lxor a b).
Proof.
  intros [Ha1 Ha2] [Hb1 Hb2]. split; [by apply Z.lxor_nonneg|].
  destruct (Z.eq_dec (Z.lxor a b) 0) as [->|Hne]; [done|].
  assert (0 <= Z.lxor a b) by by apply Z.lxor_nonneg.
  apply Z.log2_lt_pow2; [lia|].
  eapply Z.le_lt_trans; [by apply Z.log2_lxor|].
  apply Z.max_lub_lt.
  - destruct (Z.eq_dec a 0) as [->|]; [done|]. apply Z.log2_lt_pow2; lia.
  - destruct (Z.eq_dec b 0) as [->|]; [done|]. apply Z.log2_lt_pow2; lia.
Qed.

Lemma zip_lxor_bytes a b : bytes_ok a -> bytes_ok b -> bytes_ok (zip_with Z.lxor a b).
Proof.
  intros Ha. revert b; induction Ha as [|x a Hx _ IH]; intros [|y b] Hb; simpl; try constructor.
  - inversion Hb; subst. by apply lxor_byte.
  - inversion Hb; subst. by apply IH.
Qed.

Lemma select_Some `{!CryptoLaws C} t d tag i h :
  table_ok t -> bytes_ok d -> select t d tag = Some (i, h) ->
  exists p, t_peers t !! i = Some p /\ h_key_id h = p_id p /\ Header_is_valid h = true /\ header_wf h.
Proof.
  intros Ht Hd. unfold select. destruct (t_obfuscate t).
  - intros (p & Hin & Hk & Hv & Hp)%select_trial_Some. exists p.
    apply elem_of_enumerate_from in Hin as [_ Hin]. rewrite Nat.sub_0_r in Hin.
    split_and!; try done. eapply Header_parse_wf; [|exact Hp].
    unfold demask_header. apply zip_lxor_bytes; [by apply Forall_take, Forall_take|].
    unfold obfuscation_pad, blake2b_keyed. apply Forall_take, blake2b_bytes.
  - intros (h' & Hp & H)%bind_Some. apply bind_Some in H as (j & Hj & H).
    destruct (Header_is_valid h') eqn:Hv; [|done]. injection H as -> ->.
    apply (to_index _ Ht) in Hj. apply list_lookup_fmap_Some in Hj as (p & Hid & Hp').
    exists p. split_and!; try done. eapply Header_parse_wf; [|exact Hp]. by apply Forall_take.
Qed.

(** ** The receive path *)

Lemma accept_keeps_refining lk s h body :
  (exists a, rx_refines lk s a) -> header_wf h -> Header_is_valid h = true ->
  exists a, rx_refines lk (fst (RxSession_accept s h body)) a.
Proof. intros [a Ha] Hw Hv. eexists. by apply (accept_refines lk s a h body). Qed.

Lemma accept_authentic lk s a h body pt :
  rx_refines lk s a -> header_wf h -> Header_is_valid h = true ->
  snd (RxSession_accept s h body) = Accept pt -> authenticates lk h body = Some pt.
Proof.
  intros HR Hw Hv. destruct (accept_refines lk s a h body HR Hw Hv) as [-> _].
  unfold spec_accept. destruct (authenticates lk h body) as [q|]; [|done].
  destruct (_ ?= _); [|done|by intros [= ->]]. destruct (Spec.accepts _ _); [|done]. by intros [= ->].
Qed.

(** What one call may do to the endpoints, in terms of the verdict it returns. *)
Definition endpoints (t : PeerTable) : list (option SocketAddr) := map p_endpoint (t_peers t).

Definition ingest_effect (t : PeerTable) (d : list Z) (src : SocketAddr) (t' : PeerTable) (r : Ingest) : Prop :=
  match r with
  | IngestDrop => endpoints t' = endpoints t
  | Keepalive id | Data id _ =>
      exists idx p h pt, t_peers t !! idx = Some p /\ p_id p = id /\ h_key_id h = id /\
        endpoints t' = <[idx := Some src]> (endpoints t) /\
        authenticates (p_rx_link_key p) h (drop HEADER_LEN d) = Some pt /\
        match r with
        | Data _ inner => inner = pt /\ Header_is_keepalive h = false /\
            exists s, ipv4_src inner = Some s /\ v4net_contains (p_allowed_src p) s = true
        | _ => Header_is_keepalive h = true
        end
  end.

Lemma endpoints_set t idx p p' :
  t_peers t !! idx = Some p -> p_endpoint p' = p_endpoint p -> endpoints (set_peer t idx p') = endpoints t.
Proof.
  intros Hp He. unfold endpoints, set_peer. simpl.
  change (p_endpoint <$> <[idx := p']> (t_peers t) = p_endpoint <$> t_peers t).
  rewrite list_fmap_insert, list_insert_id; [done|].
  rewrite list_lookup_fmap, Hp. simpl. by rewrite He.
Qed.
Lemma endpoints_learn t idx p' src :
  p_endpoint p' = Some src -> endpoints (set_peer t idx p') = <[idx := Some src]> (endpoints t).
Proof.
  intros He. unfold endpoints, set_peer. simpl.
  change (p_endpoint <$> <[idx := p']> (t_peers t) = <[idx := Some src]> (p_endpoint <$> t_peers t)).
  by rewrite list_fmap_insert, He.
Qed.
Lemma txs_set t idx p p' :
  t_peers t !! idx = Some p -> p_tx p' = p_tx p -> map p_tx (t_peers (set_peer t idx p')) = map p_tx (t_peers t).
Proof.
  intros Hp He. unfold set_peer. simpl.
  change (p_tx <$> <[idx := p']> (t_peers t) = p_tx <$> t_peers t).
  rewrite list_fmap_insert, list_insert_id; [done|].
  rewrite list_lookup_fmap, Hp. simpl. by rewrite He.
Qed.

Lemma ingest_sound `{!CryptoLaws C} t d src :
  table_ok t -> bytes_ok d ->
  let '(t', r) := ingest t d src in
  table_ok t' /\ map p_tx (t_peers t') = map p_tx (t_peers t) /\ ingest_effect t d src t' r.
Proof.
  intros Ht Hd. unfold ingest. destruct (datagram_tag d) as [tag|]; [|done].
  destruct (select t d tag) as [[idx h]|] eqn:Es; [|done].
  destruct (select_Some t d tag idx h Ht Hd Es) as (p & Hp & Hk & Hv & Hw). rewrite Hp.
  pose proof (to_rx t Ht idx p Hp) as Hrx.
  pose proof (accept_keeps_refining _ _ h (drop HEADER_LEN d) Hrx Hw Hv) as Hrx'.
  destruct Hrx as [a Hrx].
  pose proof (fun pt => accept_authentic _ _ a h (drop HEADER_LEN d) pt Hrx Hw Hv) as Hauth.
  destruct (RxSession_accept (p_rx p) h (drop HEADER_LEN d)) as [rx out]. simpl in Hrx', Hauth.
  assert (table_ok (set_peer t idx (set_rx p rx))) as Ht' by by eapply set_peer_ok.
  assert (t_peers (set_peer t idx (set_rx p rx)) !! idx = Some (set_rx p rx)) as Hp'
    by (apply list_lookup_insert_eq; by eapply lookup_lt_Some).
  destruct out as [inner|].
  2: { split_and!; [done|by eapply txs_set|by eapply endpoints_set]. }
  specialize (Hauth inner eq_refl).
  assert (table_ok (set_peer (set_peer t idx (set_rx p rx)) idx (set_endpoint (set_rx p rx) src)))
    as Hlearn by by eapply set_peer_ok.
  destruct (Header_is_keepalive h) eqn:Eka.
  { rewrite set_peer_twice in *. split_and!; [done|by eapply txs_set|].
    exists idx, p, h, inner. split_and!; try done. by apply endpoints_learn. }
  destruct (ipv4_src inner) as [s|] eqn:Esrc.
  2: { split_and!; [done|by eapply txs_set|by eapply endpoints_set]. }
  simpl p_allowed_src. destruct (v4net_contains (p_allowed_src p) s) eqn:Ec; cbn [negb].
  2: { split_and!; [done|by eapply txs_set|by eapply endpoints_set]. }
  rewrite set_peer_twice in *. split_and!; [done|by eapply txs_set|].
  exists idx, p, h, inner. split_and!; try done; [by apply endpoints_learn|].
  eauto.
Qed.

Lemma ingest_table_ok `{!CryptoLaws C} t d src :
  table_ok t -> bytes_ok d -> table_ok (fst (ingest t d src)).
Proof.
  intros Ht Hd. pose proof (ingest_sound t d src Ht Hd) as H.
  destruct (ingest t d src). by destruct H.
Qed.

(** C4: the receive path is safe on any bytes from any address. It keeps the
    table invariant and the transmit sessions; a drop moves no endpoint; an
    endpoint is learned only for the one peer whose key authenticated the
    datagram; and data is handed on only when, in addition, its inner IPv4
    source lies in that peer's allowed prefix. *)
Theorem ingest_safe `{!CryptoLaws C} t d src (Ht : table_ok t) (Hd : bytes_ok d) :
  let '(t', r) := ingest t d src in
  table_ok t' /\ map p_tx (t_peers t') = map p_tx (t_peers t) /\ ingest_effect t d src t' r.
Proof. by apply ingest_sound. Qed.

(** ** Sealing for a peer and ingesting at the other end *)

(** The sender's transmit session and the receiver's entry share a link. *)
Record linked (tx : TxSession) (q : Peer) (obf : bool) : Prop := {
  lk_key : tx_link_key tx = p_rx_link_key q;
  lk_session : tx_key tx = AeadKey_new (session_key (tx_link_key tx) (tx_epoch tx));
  lk_id : tx_local_id tx = p_id q;
  lk_obf : tx_obfuscate tx = obf;
  lk_ids : fits 16 (p_id q);
  lk_epoch : fits 64 (tx_epoch tx) /\ tx_epoch tx <> 0;
  lk_seq : fits 64 (next_seq tx)
}.

(** Trial unmasking under this peer's key yields a header it would claim. *)
Definition trial_matches (d tag : list Z) (q : Peer) : bool :=
  match Header_parse (demask_header (take HEADER_LEN d) (obfuscation_pad (p_rx_link_key q) tag)) with
  | Some h => (h_version h =? WIRE_VERSION) && (h_key_id h =? p_id q) && Header_is_valid h
  | None => false
  end.

Lemma demask_parses `{!CryptoLaws C} d lk tag :
  (HEADER_LEN <= length d)%nat ->
  is_Some (Header_parse (demask_header (take HEADER_LEN d) (obfuscation_pad lk tag))).
Proof.
  intros Hd. unfold Header_parse.
  assert (length (demask_header (take HEADER_LEN d) (obfuscation_pad lk tag)) = HEADER_LEN) as ->.
  { unfold demask_header. rewrite length_zip_with, !length_take, length_obfuscation_pad. lia. }
  rewrite Nat.ltb_irrefl. eauto.
Qed.

Lemma select_trial_skip `{!CryptoLaws C} d tag ps i q h :
  (HEADER_LEN <= length d)%nat -> ps !! i = Some q ->
  (forall j r, (j < i)%nat -> ps !! j = Some r -> trial_matches d tag r = false) ->
  Header_parse (demask_header (take HEADER_LEN d) (obfuscation_pad (p_rx_link_key q) tag)) = Some h ->
  h_version h = WIRE_VERSION -> h_key_id h = p_id q -> Header_is_valid h = true ->
  forall j, select_trial d tag (enumerate_from j ps) = Some ((j + i)%nat, h).
Proof.
  intros Hd Hq Hno Hp Hver Hk Hv. revert i Hq Hno; induction ps as [|r ps IH]; intros i Hq Hno j; [done|].
  simpl. destruct i as [|i].
  - injection Hq as ->. rewrite Hp. simpl. rewrite Hver, Hk, Hv, !Z.eqb_refl, Nat.add_0_r. done.
  - pose proof (Hno 0%nat r ltac:(lia) eq_refl) as Hr. unfold trial_matches in Hr.
    destruct (demask_parses d (p_rx_link_key r) tag Hd) as [h' Hh']. rewrite Hh' in *. simpl. rewrite Hr.
    rewrite (IH i Hq); [by rewrite Nat.add_succ_comm|].
    intros k r' Hk' Hl. apply (Hno (S k) r'); [lia|done].
Qed.

Lemma select_sealed `{!CryptoLaws C} t i q tx flags inner :
  table_ok t -> t_peers t !! i = Some q -> linked tx q (t_obfuscate t) ->
  (flags = 0 \/ flags = KEEPALIVE) ->
  let d := snd (TxSession_seal tx flags inner) in
  let h := mkHeader WIRE_VERSION flags (p_id q) (tx_epoch tx) (next_seq tx) in
  (t_obfuscate t = true -> forall tag j r, datagram_tag d = Some tag -> (j < i)%nat ->
     t_peers t !! j = Some r -> trial_matches d tag r = false) ->
  header_wf h /\ Header_is_valid h = true /\ drop HEADER_LEN d = AeadKey_seal (tx_key tx) (next_seq tx) inner /\
  exists tag, datagram_tag d = Some tag /\ select t d tag = Some (i, h).
Proof.
  intros Ht Hq [Hkey Hses Hid Hobf Hfid [He Hne] Hseq] Hfl d h Hno.
  assert (header_wf h) as Hw.
  { unfold header_wf, h; simpl. split_and!; try done; destruct Hfl as [->| ->]; done. }
  assert (Header_is_valid h = true) as Hv.
  { unfold Header_is_valid, h; simpl. rewrite (proj2 (Z.eqb_neq (tx_epoch tx) 0)) by done.
    destruct Hfl as [->| ->]; done. }
  assert (d = seal_datagram (tx_link_key tx) (tx_key tx) (p_id q) (tx_epoch tx) (next_seq tx)
                flags inner (t_obfuscate t)) as Heq.
  { unfold d, TxSession_seal. cbn [snd]. by rewrite Hid, Hobf. }
  destruct (recover_header_seal (tx_link_key tx) (tx_key tx) (p_id q) (tx_epoch tx) (next_seq tx)
              flags inner (t_obfuscate t) Hw) as [Hr Hd].
  rewrite <- Heq in Hr, Hd. fold h in Hr.
  assert (h_version h = WIRE_VERSION /\ h_key_id h = p_id q) as [Hver Hk] by done.
  clearbody d h.
  split_and!; [done|done|done|].
  unfold recover_header in Hr. apply bind_Some in Hr as (tag & Htag & Hr).
  exists tag. split; [done|]. unfold select. destruct (t_obfuscate t).
  - rewrite (select_trial_skip d tag (t_peers t) i q h); try done.
    + assert (length d >= HEADER_LEN + TAG_LEN)%nat.
      { unfold datagram_tag in Htag. destruct (Nat.ltb_spec (length d) (HEADER_LEN + TAG_LEN)); [done|lia]. }
      lia.
    + intros j r Hj Hl. by eapply (Hno eq_refl).
    + by rewrite <- Hkey.
  - assert (t_by_id t !! h_key_id h = Some i) as Hi; [|by rewrite Hr; simpl; rewrite Hi; simpl; rewrite Hv].
    apply (to_index t Ht). rewrite Hk.
    change ((p_id <$> t_peers t) !! i = Some (p_id q)). by rewrite list_lookup_fmap, Hq.
Qed.

(** What one node seals for another is delivered there unchanged: the
    datagram [seal_for] produces for a peer with a known endpoint is ingested at
    the linked table as data from the sender with the same inner packet, and the
    sender's source address becomes its endpoint. Under obfuscation no earlier
    entry of the receiving table may claim the datagram by chance. *)
Theorem seal_for_ingest_roundtrip `{!CryptoLaws C} ta tb b ib pb ep ia q e acc inner s src
    (Hta : table_ok ta) (Htb : table_ok tb)
    (Hidx : t_by_id ta !! b = Some ib) (Hpb : t_peers ta !! ib = Some pb) (Hep : p_endpoint pb = Some ep)
    (Hq : t_peers tb !! ia = Some q) (Hlink : linked (p_tx pb) q (t_obfuscate tb))
    (Hrx : rx_refines (p_rx_link_key q) (p_rx q) (mkSpec e acc))
    (Hfresh : e < tx_epoch (p_tx pb) \/ (e = tx_epoch (p_tx pb) /\ Spec.accepts acc (next_seq (p_tx pb)) = true))
    (Hsrc : ipv4_src inner = Some s) (Hallow : v4net_contains (p_allowed_src q) s = true)
    (Hno : t_obfuscate tb = true -> forall tag j r,
       datagram_tag (snd (TxSession_seal (p_tx pb) 0 inner)) = Some tag -> (j < ia)%nat ->
       t_peers tb !! j = Some r -> trial_matches (snd (TxSession_seal (p_tx pb) 0 inner)) tag r = false) :
  exists ta' d tb', seal_for ta b 0 inner = (ta', Some (d, ep)) /\
    ingest tb d src = (tb', Data (p_id q) inner) /\
    endpoints tb' = <[ia := Some src]> (endpoints tb).
Proof.
  destruct (select_sealed tb ia q (p_tx pb) 0 inner Htb Hq Hlink (or_introl eq_refl) Hno)
    as (Hw & Hv & Hd & tag & Htag & Hsel).
  set (h := mkHeader _ _ _ _ _) in *.
  unfold seal_for. rewrite Hidx, Hpb, Hep.
  destruct (TxSession_seal (p_tx pb) 0 inner) as [tx' d] eqn:Eseal. simpl in *.
  enough (exists tb', ingest tb d src = (tb', Data (p_id q) inner) /\
    endpoints tb' = <[ia := Some src]> (endpoints tb)) as (tb' & ? & ?) by eauto 10.
  unfold ingest. rewrite Htag, Hsel, Hq.
  destruct (accept_refines _ _ _ h (drop HEADER_LEN d) Hrx Hw Hv) as [Hout _].
  assert (authenticates (p_rx_link_key q) h (drop HEADER_LEN d) = Some inner) as Hauth.
  { unfold authenticates. simpl. rewrite <- (lk_key _ _ _ Hlink), <- (lk_session _ _ _ Hlink), Hd.
    apply AeadKey_open_seal. }
  rewrite Hauth in Hout. unfold spec_accept in Hout. simpl in Hout.
  assert (snd (RxSession_accept (p_rx q) h (drop HEADER_LEN d)) = Accept inner) as Hacc.
  { rewrite Hout. destruct Hfresh as [Hlt|[-> Ha]].
    - by rewrite (proj2 (Z.compare_gt_iff _ _)) by lia.
    - by rewrite Z.compare_refl, Ha. }
  clear Hout. destruct (RxSession_accept (p_rx q) h (drop HEADER_LEN d)) as [rx out]. simpl in Hacc. subst out.
  change (Header_is_keepalive h) with false. cbv iota beta. rewrite Hsrc. simpl p_allowed_src.
  rewrite Hallow. cbn [negb]. eexists. split; [reflexivity|]. rewrite set_peer_twice. by apply endpoints_learn.
Qed.

(** ** Sealing keeps the table *)

Lemma seal_for_ok t id flags inner : table_ok t -> table_ok (fst (seal_for t id flags inner)).
Proof.
  intros Ht. unfold seal_for. destruct (t_by_id t !! id) as [idx|]; [|done].
  destruct (t_peers t !! idx) as [p|] eqn:Hp; [|done]. destruct (p_endpoint p); [|done].
  destruct (TxSession_seal (p_tx p) flags inner). simpl. eapply set_peer_ok; try done.
  by apply (to_rx t Ht idx p).
Qed.

(** Two fresh tables whose configurations name each other with one key are linked. *)
Lemma new_tables_linked ca cb ea eb pa pb :
  rp_psk pa = rp_psk pb -> rp_id pb = rc_local_id cb -> rp_id pa = rc_local_id ca ->
  rc_obfuscate ca = rc_obfuscate cb -> fits 16 (rc_local_id ca) -> fits 64 ea -> ea <> 0 ->
  linked (p_tx (new_peer ca ea pb)) (new_peer cb eb pa) (rc_obfuscate cb).
Proof.
  intros Hk Hb Ha Ho Hid He Hne. split; simpl; try done; try congruence.
Qed.

(** ** Routing *)

Lemma max_by_key_gen {A} (key : A -> Z) l init :
  match foldl (fun best x => match best with
                       | None => Some x
                       | Some b => if key x <? key b then Some b else Some x
                       end) init l with
  | None => init = None /\ l = []
  | Some m => (m ∈ l \/ init = Some m) /\ (forall x, x ∈ l \/ init = Some x -> key x <= key m)
  end.
Proof.
  revert init; induction l as [|x l IH]; intros init; simpl.
  - destruct init; [|done]. split; [by right|]. intros y [?%elem_of_nil|[= ->]]; [done|lia].
  - specialize (IH (match init with Some b => if key x <? key b then Some b else Some x | None => Some x end)).
    destruct (foldl _ _ l) as [m|].
    2: { destruct IH as [H _]. destruct init as [b|]; [|done]. by destruct (key x <? key b). }
    destruct IH as [Hm Hall]. split.
    + destruct Hm as [Hm|Hm]; [left; by right|].
      destruct init as [b|]; [|injection Hm as ->; left; by left].
      destruct (key x <? key b); injection Hm as ->; [by right|left; by left].
    + intros y [[->|Hy]%elem_of_cons| ->].
      * destruct init as [b|]; [|apply Hall; by right].
        destruct (Z.ltb_spec (key x) (key b)); [|apply Hall; by right].
        assert (key b <= key m) by (apply Hall; by right). lia.
      * apply Hall. by left.
      * destruct (Z.ltb_spec (key x) (key y)); [apply Hall; by right|].
        assert (key x <= key m) by (apply Hall; by right). lia.
Qed.

(** Routing an inner destination picks a peer whose allowed prefix contains
    it and whose prefix is the longest among all such peers, and finds none
    exactly when no peer's prefix contains it. *)
Theorem route_longest_prefix t dst :
  match route t dst with
  | Some id => exists p, p ∈ t_peers t /\ p_id p = id /\ v4net_contains (p_allowed_src p) dst = true /\
      forall q, q ∈ t_peers t -> v4net_contains (p_allowed_src q) dst = true ->
        v4net_prefix_len (p_allowed_src q) <= v4net_prefix_len (p_allowed_src p)
  | None => forall q, q ∈ t_peers t -> v4net_contains (p_allowed_src q) dst = false
  end.
Proof.
  unfold route. set (key := fun p => v4net_prefix_len (p_allowed_src p)).
  set (l := List.filter _ (t_peers t)).
  assert (forall q, q ∈ l <-> q ∈ t_peers t /\ v4net_contains (p_allowed_src q) dst = true) as Hl.
  { intros q. unfold l. rewrite !list_elem_of_In, filter_In. done. }
  pose proof (max_by_key_gen key l None) as H. fold (max_by_key key l) in H.
  destruct (max_by_key key l) as [m|]; simpl.
  - destruct H as [[Hm|?] Hall]; [|done]. apply Hl in Hm as [Hm Hc].
    exists m. split_and!; try done. intros q Hq Hqc. apply Hall. left. by apply Hl.
  - intros q Hq. destruct (v4net_contains _ _) eqn:E; [|done]. destruct H as [_ H].
    assert (q ∈ l) as Hin by by apply Hl. rewrite H in Hin. by apply elem_of_nil in Hin.
Qed.

End Peer.

(** ** Witnesses: a hub and a spoke on the lawful instances *)

#[local] Existing Instances Toy.prims CidrNet.inst Toy.toy_laws CidrNet.cidr_laws.

Definition demo_net (a l : Z) (H : bool_decide (fits 32 a /\ 0 <= l <= 32) = true) : CidrNet.net 32 :=
  CidrNet.mkNet 32 a l H.
Definition demo_psk : list Z := repeat 90 32.
Definition overlay_net := demo_net 167772161 24 eq_refl.
Definition hub_peer : RuntimePeer :=
  mkRuntimePeer 2 demo_psk (demo_net 167772162 32 eq_refl) None (lit "spoke").
Definition hub_other_peer : RuntimePeer :=
  mkRuntimePeer 3 (repeat 17 32) (demo_net 167772160 24 eq_refl) None (lit "wide").
Definition spoke_peer : RuntimePeer :=
  mkRuntimePeer 1 demo_psk overlay_net (Some (SockV4 3405803777 18020)) (lit "hub").
Definition demo_rc (mode : Mode) (id : Z) (ps : list RuntimePeer)
    : RuntimeConfig :=
  mkRuntimeConfig mode id (SockV4 0 18020) overlay_net true 25 1452
    (Tun (lit "rove0") true) ps.
Definition hub_rc := demo_rc Hub 1 [hub_other_peer; hub_peer].
Definition spoke_rc := demo_rc Spoke 2 [spoke_peer].
Definition hub_table := PeerTable_new hub_rc 1704067200000000001.
Definition spoke_table := PeerTable_new spoke_rc 1704067200000000002.
(** 10.0.0.2 -> 10.0.0.1 *)
Definition demo_packet : list Z := [69] ++ repeat 0 11 ++ [10; 0; 0; 2] ++ [10; 0; 0; 1].
Definition demo_src : SocketAddr := SockV4 3325256713 40000.
Definition demo_sealed : list Z :=
  match snd (seal_for spoke_table 1 0 demo_packet) with Some (d, _) => d | None => [] end.

Lemma demo_rc_ok mode id ps :
  id <> 0 -> ps <> [] -> NoDup (map rp_id ps) ->
  Forall (fun p => rp_id p <> 0 /\ rp_id p <> id) ps ->
  Forall (fun p => length (rp_psk p) = KEY_LEN /\ bytes_ok (rp_psk p)) ps ->
  (mode = Spoke -> Forall (fun p => is_Some (rp_endpoint p)) ps) ->
  runtime_ok (demo_rc mode id ps).
Proof.
  intros. split; simpl; try done.
  intros name m [= <- <-]. split; [simpl; lia|reflexivity].
Qed.

Lemma hub_rc_ok : runtime_ok hub_rc.
Proof.
  apply demo_rc_ok; try done.
  - apply (bool_decide_unpack _). vm_compute. exact I.
  - repeat constructor; simpl; lia.
  - repeat apply Forall_cons_2; try constructor; try done; apply (bool_decide_unpack _); vm_compute; exact I.
Qed.
Lemma hub_table_ok : table_ok hub_table.
Proof. apply PeerTable_new_ok, hub_rc_ok. Qed.
Lemma spoke_table_ok : table_ok spoke_table.
Proof.
  apply PeerTable_new_ok, demo_rc_ok; try done.
  - apply (bool_decide_unpack _). vm_compute. exact I.
  - repeat constructor; simpl; lia.
  - repeat apply Forall_cons_2; try constructor; try done; apply (bool_decide_unpack _); vm_compute; exact I.
  - intros _. repeat constructor; simpl; eauto.
Qed.

Lemma ingest_safe_witness :
  snd (ingest hub_table (repeat 0 60) demo_src) = IngestDrop /\
  table_ok
    (fst (ingest hub_table (repeat 0 60) demo_src)).
Proof.
  split; [vm_compute; reflexivity|].
  pose proof (ingest_safe 
    hub_table (repeat 0 60) demo_src hub_table_ok) as H.
  destruct (ingest hub_table (repeat 0 60) demo_src). apply H.
  apply (bool_decide_unpack _). vm_compute. exact I.
Defined.

Lemma seal_for_ingest_roundtrip_witness :
  exists tb', ingest hub_table demo_sealed demo_src
    = (tb', Data 2 demo_packet).
Proof.
  destruct (seal_for_ingest_roundtrip 
    spoke_table hub_table 1 0 (new_peer spoke_rc 1704067200000000002 spoke_peer)
    (SockV4 3405803777 18020) 1 (new_peer hub_rc 1704067200000000001 hub_peer) 0 []
    demo_packet 167772162 demo_src) as (ta' & d & tb' & Hs & Hi & _).
  - exact spoke_table_ok.
  - exact hub_table_ok.
  - vm_compute. reflexivity.
  - reflexivity.
  - reflexivity.
  - reflexivity.
  - apply new_tables_linked; try done; apply (bool_decide_unpack _); vm_compute; exact I.
  - apply rx_new_refines.
  - left. simpl. lia.
  - vm_compute. reflexivity.
  - vm_compute. reflexivity.
  - intros _ tag j r Htag Hj Hr. assert (j = 0%nat) as -> by lia.
    injection Hr as <-. revert Htag.
    replace (datagram_tag _) with (Some (default [] (datagram_tag demo_sealed))) by (vm_compute; reflexivity).
    intros [= <-]. vm_compute. reflexivity.
  - exists tb'. assert (demo_sealed = d) as -> by (unfold demo_sealed; by rewrite Hs). exact Hi.
Defined.
