(* ===== verification/Reactor.v ===== *)
(** * Reactor: the Subnetra data-plane task

    Models src/src/subnetra/reactor.rs: inbound, relay, outbound, keepalives and
    the select loop as a step relation. Socket and channel writes are recorded
    as actions; their failures only log. *)

From Stdlib Require Import ZArith Lia.
From stdpp Require Import prelude strings list gmap relations.
From S2P Require Import Prelude RustStr Net Replay Wire Session SubnetraConfig Peer.

(** What a handler asks the runtime to do. *)
Inductive action :=
| SendTo (datagram : list Z) (endpoint : SocketAddr)
| ToLocal (inner : list Z).

(** The sources [run] selects over. *)
Inductive event :=
| Recv (datagram : list Z) (src : SocketAddr)
| RecvError
| Outbound (packet : list Z)
| KeepaliveTick.

Section Reactor.
Context {C : CryptoPrims} {N : Ipnet}.

Record Reactor := mkReactor {
  r_table : PeerTable;
  r_mode : Mode;
  r_overlay_ip : Z;
  r_keepalive_secs : Z;
  r_obfuscate : bool
}.

Definition set_table (r : Reactor) (t : PeerTable) : Reactor :=
  mkReactor t (r_mode r) (r_overlay_ip r) (r_keepalive_secs r) (r_obfuscate r).

(** The reactor [spawn] builds. *)
Definition Reactor_new (cfg : RuntimeConfig) (epoch : Z) : Reactor :=
  mkReactor (PeerTable_new cfg epoch) (rc_mode cfg) (overlay_ip cfg) (rc_keepalive_secs cfg)
    (rc_obfuscate cfg).

(** Seal for a peer and send when an endpoint is known. *)
Definition seal_and_send (r : Reactor) (to_peer flags : Z) (inner : list Z) : Reactor * list action :=
  let '(t, out) := seal_for (r_table r) to_peer flags inner in
  (set_table r t, match out with Some (d, ep) => [SendTo d ep] | None => [] end).

(** [Reactor::relay] *)
Definition relay (r : Reactor) (from_peer dst : Z) (inner : list Z) : Reactor * list action :=
  match route (r_table r) dst with
  | None => (r, [])
  | Some to_peer =>
      if to_peer =? from_peer then (r, [])
      else seal_and_send r to_peer 0 inner
  end.

(** [Reactor::handle_inbound] *)
Definition handle_inbound (r : Reactor) (datagram : list Z) (src : SocketAddr) : Reactor * list action :=
  let '(t, out) := ingest (r_table r) datagram src in
  let r := set_table r t in
  match out with
  | Data peer_id inner =>
      match ipv4_dst inner with
      | None => (r, [])
      | Some dst =>
          if dst =? r_overlay_ip r then (r, [ToLocal inner])
          else if bool_decide (r_mode r = Hub) then relay r peer_id dst inner
          else (r, [])
      end
  | Keepalive _ => (r, [])
  | IngestDrop => (r, [])
  end.

(** [Reactor::handle_outbound] *)
Definition handle_outbound (r : Reactor) (packet : list Z) : Reactor * list action :=
  match ipv4_dst packet with
  | None => (r, [])
  | Some dst =>
      match route (r_table r) dst with
      | None => (r, [])
      | Some to_peer => seal_and_send r to_peer 0 packet
      end
  end.

(** [Reactor::send_keepalives]: the peer list is taken before the loop. *)
Fixpoint send_keepalives_to (r : Reactor) (ids : list Z) : Reactor * list action :=
  match ids with
  | [] => (r, [])
  | id :: ids =>
      let '(r, a) := seal_and_send r id KEEPALIVE [] in
      let '(r, b) := send_keepalives_to r ids in (r, a ++ b)
  end.
Definition send_keepalives (r : Reactor) : Reactor * list action :=
  send_keepalives_to r (peers_with_endpoint (r_table r)).

(** [Reactor::keepalive_interval], in seconds, for one random [u64]. *)
Definition keepalive_interval (r : Reactor) (random : Z) : Z :=
  let k := Z.max (r_keepalive_secs r) 1 in
  if r_obfuscate r then
    let half := k / 2 in
    let jitter := if 0 <? half then random mod (k - half + 1) else 0 in
    half + jitter
  else k.

(** One iteration of [Reactor::run]; the keepalive arm is enabled for a spoke. *)
Definition reactor_step (r : Reactor) (e : event) : Reactor * list action :=
  match e with
  | Recv d src => handle_inbound r d src
  | RecvError => (r, [])
  | Outbound p => handle_outbound r p
  | KeepaliveTick => if bool_decide (r_mode r = Spoke) then send_keepalives r else (r, [])
  end.

Inductive reactor_steps : Reactor -> list event -> Reactor -> list action -> Prop :=
| steps_done r : reactor_steps r [] r []
| steps_more r e es r' acts r'' acts' :
    reactor_step r e = (r', acts) -> reactor_steps r' es r'' acts' ->
    reactor_steps r (e :: es) r'' (acts ++ acts').

(** The same sequence, executable. *)
Fixpoint reactor_run (r : Reactor) (es : list event) : Reactor * list action :=
  match es with
  | [] => (r, [])
  | e :: es =>
      let s := reactor_step r e in
      let t := reactor_run (fst s) es in (fst t, snd s ++ snd t)
  end.

Lemma reactor_run_steps r es : reactor_steps r es (fst (reactor_run r es)) (snd (reactor_run r es)).
Proof.
  revert r; induction es as [|e es IH]; intros r; simpl; [constructor|].
  econstructor; [apply surjective_pairing|apply IH].
Qed.

Definition event_ok (e : event) : Prop :=
  match e with Recv d _ => bytes_ok d | _ => True end.

(** ** Preservation *)

Definition same_role (r r' : Reactor) : Prop :=
  r_mode r' = r_mode r /\ r_overlay_ip r' = r_overlay_ip r.

Lemma seal_and_send_ok r id flags inner :
  table_ok (r_table r) ->
  table_ok (r_table (fst (seal_and_send r id flags inner))) /\ same_role r (fst (seal_and_send r id flags inner)).
Proof.
  intros Ht. unfold seal_and_send. pose proof (seal_for_ok _ id flags inner Ht) as H.
  destruct (seal_for (r_table r) id flags inner). done.
Qed.

Lemma send_keepalives_ok r ids :
  table_ok (r_table r) ->
  table_ok (r_table (fst (send_keepalives_to r ids))) /\ same_role r (fst (send_keepalives_to r ids)).
Proof.
  revert r; induction ids as [|id ids IH]; intros r Ht; simpl; [done|].
  destruct (seal_and_send_ok r id KEEPALIVE [] Ht) as [Ht' [Hm Ho]].
  destruct (seal_and_send r id KEEPALIVE []) as [r' a]. simpl in *.
  destruct (IH r' Ht') as [Ht'' [Hm' Ho']]. destruct (send_keepalives_to r' ids) as [r'' b]. simpl in *.
  split; [done|]. unfold same_role. by rewrite Hm', Ho'.
Qed.

Lemma relay_ok r from dst inner :
  table_ok (r_table r) ->
  table_ok (r_table (fst (relay r from dst inner))) /\ same_role r (fst (relay r from dst inner)).
Proof.
  intros Ht. unfold relay. destruct (route _ _); [|done]. destruct (_ =? _); [done|].
  by apply seal_and_send_ok.
Qed.

Lemma handle_inbound_ok `{!CryptoLaws C} r d src :
  table_ok (r_table r) -> bytes_ok d ->
  table_ok (r_table (fst (handle_inbound r d src))) /\ same_role r (fst (handle_inbound r d src)).
Proof.
  intros Ht Hd. unfold handle_inbound.
  pose proof (ingest_table_ok (r_table r) d src Ht Hd) as Ht'.
  destruct (ingest (r_table r) d src) as [t out]. simpl in Ht'.
  destruct out; [|done..]. destruct (ipv4_dst inner); [|done].
  destruct (_ =? _); [done|]. destruct (bool_decide _); [|done]. by apply (relay_ok (set_table r t)).
Qed.

Lemma step_ok `{!CryptoLaws C} r e r' acts :
  table_ok (r_table r) -> event_ok e -> reactor_step r e = (r', acts) ->
  table_ok (r_table r') /\ same_role r r'.
Proof.
  intros Ht He Hs. assert (r' = fst (reactor_step r e)) as -> by by rewrite Hs. clear Hs.
  destruct e as [d src| |p|]; simpl in *; try done.
  - by apply handle_inbound_ok.
  - unfold handle_outbound. destruct (ipv4_dst p); [|done]. destruct (route _ _); [|done].
    by apply seal_and_send_ok.
  - destruct (bool_decide _); [|done]. by apply send_keepalives_ok.
Qed.

Lemma steps_ok `{!CryptoLaws C} r es r' acts :
  reactor_steps r es r' acts -> table_ok (r_table r) -> Forall event_ok es ->
  table_ok (r_table r') /\ same_role r r'.
Proof.
  induction 1 as [r|r e es r1 a1 r2 a2 Hs _ IH]; intros Ht Hes; [done|].
  inversion Hes; subst. destruct (step_ok r e r1 a1) as [Ht' [Hm Ho]]; try done.
  destruct IH as [Ht'' [Hm' Ho']]; try done. split; [done|]. unfold same_role. by rewrite Hm', Ho'.
Qed.

(** ** Properties *)

(** Whatever the mesh and the host feed it, a reactor started from a
    validated configuration keeps its peer table consistent: over every finite
    sequence of events (datagrams of any bytes, receive errors, local packets,
    keepalive ticks) the ids stay unique and correctly indexed, every receive
    session stays a refinement of its replay history, and the role and overlay
    address never change. *)
Theorem reactor_invariant `{!CryptoLaws C} cfg epoch es r acts
    (Hcfg : runtime_ok cfg) (Hes : Forall event_ok es)
    (Hsteps : reactor_steps (Reactor_new cfg epoch) es r acts) :
  table_ok (r_table r) /\ r_mode r = rc_mode cfg /\ r_overlay_ip r = overlay_ip cfg.
Proof.
  destruct (steps_ok _ _ _ _ Hsteps) as [Ht [Hm Ho]]; [by apply PeerTable_new_ok|done|done].
Qed.

(** What one received datagram can cause. Nothing; or delivery to the local
    stack of a packet addressed to this node; or, on a hub only, one relayed
    datagram, to the peer that owns the destination and never back to the peer
    it came from. In the last two cases the packet authenticated as data. *)
Theorem handle_inbound_actions r d src :
  let '(r', acts) := handle_inbound r d src in
  acts = [] \/
  exists from inner dst, snd (ingest (r_table r) d src) = Data from inner /\ ipv4_dst inner = Some dst /\
    ((dst = r_overlay_ip r /\ acts = [ToLocal inner]) \/
     (dst <> r_overlay_ip r /\ r_mode r = Hub /\ exists to dg ep,
        to <> from /\ route (fst (ingest (r_table r) d src)) dst = Some to /\
        snd (seal_for (fst (ingest (r_table r) d src)) to 0 inner) = Some (dg, ep) /\
        acts = [SendTo dg ep])).
Proof.
  unfold handle_inbound. destruct (ingest (r_table r) d src) as [t out] eqn:Ei.
  destruct out as [from inner| |]; [|by left..].
  destruct (ipv4_dst inner) as [dst|] eqn:Ed; [|by left]. simpl.
  destruct (Z.eqb_spec dst (r_overlay_ip r)) as [Heq|Hne].
  { right. exists from, inner, dst. split_and!; [done|done|]. by left. }
  destruct (bool_decide_reflect (r_mode r = Hub)) as [Hm|]; [|by left].
  unfold relay. simpl. destruct (route t dst) as [to|] eqn:Er; [|by left].
  destruct (Z.eqb_spec to from) as [|Hto]; [by left|].
  unfold seal_and_send. simpl. destruct (seal_for t to 0 inner) as [t' [[dg ep]|]] eqn:Es; [|by left].
  right. exists from, inner, dst. split_and!; [done|done|]. right. split_and!; try done.
  exists to, dg, ep. by rewrite Es.
Qed.

(** The keepalive interval lies in [[k/2, k]] for the configured [k], as
    documented, and is positive for [k >= 2]; with obfuscation on and [k] at
    most 1 it is zero for every random draw, a period tokio's interval timer
    rejects with a panic. *)
Theorem keepalive_interval_bounds r random
    (Hrand : fits 64 random) (Hk : fits 64 (r_keepalive_secs r)) :
  let k := Z.max (r_keepalive_secs r) 1 in
  k / 2 <= keepalive_interval r random <= k /\
  (2 <= k -> 0 < keepalive_interval r random) /\
  (k = 1 -> r_obfuscate r = true -> keepalive_interval r random = 0).
Proof.
  unfold keepalive_interval, fits in *. set (k := Z.max _ 1). assert (1 <= k) as Hk1 by lia.
  clearbody k. assert (0 <= k / 2 <= k) as Hh.
  { split; [apply Z.div_pos; lia|]. apply Z.div_le_upper_bound; lia. }
  destruct (r_obfuscate r); [|split_and!; [lia|lia|lia|done]].
  destruct (Z.ltb_spec 0 (k / 2)) as [Hpos|Hz].
  - pose proof (Z.mod_pos_bound random (k - k / 2 + 1)). split_and!; try lia.
    intros ->. change (1 / 2) with 0 in Hpos. lia.
  - assert (k / 2 = 0) as -> by lia. split_and!; try lia. intros H2.
    assert (1 <= k / 2) by (apply Z.div_le_lower_bound; lia). lia.
Qed.

End Reactor.

(** ** Witnesses *)

#[local] Existing Instances Toy.prims CidrNet.inst Toy.toy_laws CidrNet.cidr_laws.

Definition demo_events : list event :=
  [RecvError; Recv (repeat 0 60) demo_src; Recv demo_sealed demo_src; Outbound (repeat 0 8)].

Lemma demo_sealed_bytes : bytes_ok demo_sealed.
Proof. apply (bool_decide_unpack _). vm_compute. exact I. Qed.
Lemma demo_events_ok : Forall event_ok demo_events.
Proof.
  apply Forall_cons_2; [done|]. apply Forall_cons_2.
  2: { apply Forall_cons_2; [exact demo_sealed_bytes|]. apply Forall_cons_2; [done|apply Forall_nil_2]. }
  change (bytes_ok (repeat 0 60)). apply (bool_decide_unpack _). vm_compute. exact I.
Qed.

Lemma reactor_invariant_witness :
  snd (reactor_run (Reactor_new hub_rc 1704067200000000001) demo_events) = [ToLocal demo_packet] /\
  table_ok (r_table (fst (reactor_run (Reactor_new hub_rc 1704067200000000001) demo_events))).
Proof.
  split; [vm_compute; reflexivity|].
  refine (proj1 (reactor_invariant hub_rc 1704067200000000001 demo_events _ _ _ _ (reactor_run_steps _ _))).
  - apply hub_rc_ok.
  - apply demo_events_ok.
Defined.

(** A zero interval is reachable: [keepalive_secs = 1] under the default obfuscation. *)
Definition eager_spoke : Reactor := mkReactor spoke_table Spoke 167772162 1 true.

Lemma keepalive_interval_bounds_witness : keepalive_interval eager_spoke 12345 = 0.
Proof.
  apply (keepalive_interval_bounds eager_spoke 12345); try done;
    apply (bool_decide_unpack _); vm_compute; exact I.
Defined.
