(* ===== verification/Pump.v ===== *)
(** * Pump: the host-device side of Subnetra

    Models src/src/subnetra/device/mod.rs: the egress verdict on packets a host
    process hands to the TUN device, the pump's counters and its two forwarding
    tasks as an event-driven state machine. The 60 s reporter only logs. *)

From Stdlib Require Import ZArith Lia.
From stdpp Require Import prelude strings list gmap.
From S2P Require Import Prelude RustStr Net Replay Wire Session SubnetraConfig Peer.

Inductive Verdict := Forward | DropNotIpv4 | DropTooBig | DropSpoofedSrc | DropOffOverlay.
#[global] Instance Verdict_eq_dec : EqDecision Verdict.
Proof. solve_decision. Defined.

Record PumpCounters := mkPumpCounters {
  to_mesh : Z;
  to_device : Z;
  drop_not_ipv4 : Z;
  drop_too_big : Z;
  drop_spoofed_src : Z;
  drop_off_overlay : Z;
  device_errors : Z
}.
Definition PumpCounters_default : PumpCounters := mkPumpCounters 0 0 0 0 0 0 0.

(** [fetch_add(1, Relaxed)] wraps at 64 bits. *)
Definition bump (x : Z) : Z := wrap 64 (x + 1).

Section Pump.
Context {N : Ipnet}.

Record PumpPolicy := mkPumpPolicy {
  pp_overlay_ip : Z;
  pp_overlay_net : Ipv4Net;
  pp_mtu : Z
}.

Definition len (pkt : list Z) : Z := Z.of_nat (length pkt).

(** [egress_verdict] *)
Definition egress_verdict (pkt : list Z) (policy : PumpPolicy) : Verdict :=
  if len pkt <? 20 then DropNotIpv4
  else
    let version := Z.shiftr (byte_at pkt 0) 4 in
    if negb (version =? 4) then DropNotIpv4
    else
      let ihl := Z.land (byte_at pkt 0) 15 * 4 in
      if (ihl <? 20) || (len pkt <? ihl) then DropNotIpv4
      else
        let total_len := from_be_bytes (slice pkt 2 4) in
        if (total_len <? 20) || (len pkt <? total_len) then DropNotIpv4
        else if (pp_mtu policy <? len pkt) || (pp_mtu policy <? total_len) then DropTooBig
        else
          let src := from_be_bytes (slice pkt 12 16) in
          if negb (src =? pp_overlay_ip policy) then DropSpoofedSrc
          else
            let dst := from_be_bytes (slice pkt 16 20) in
            if negb (v4net_contains (pp_overlay_net policy) dst) then DropOffOverlay
            else Forward.

(** The counter a verdict bumps. *)
Definition count_verdict (v : Verdict) (c : PumpCounters) : PumpCounters :=
  match v with
  | Forward => mkPumpCounters (bump (to_mesh c)) (to_device c) (drop_not_ipv4 c) (drop_too_big c)
                 (drop_spoofed_src c) (drop_off_overlay c) (device_errors c)
  | DropNotIpv4 => mkPumpCounters (to_mesh c) (to_device c) (bump (drop_not_ipv4 c)) (drop_too_big c)
                 (drop_spoofed_src c) (drop_off_overlay c) (device_errors c)
  | DropTooBig => mkPumpCounters (to_mesh c) (to_device c) (drop_not_ipv4 c) (bump (drop_too_big c))
                 (drop_spoofed_src c) (drop_off_overlay c) (device_errors c)
  | DropSpoofedSrc => mkPumpCounters (to_mesh c) (to_device c) (drop_not_ipv4 c) (drop_too_big c)
                 (bump (drop_spoofed_src c)) (drop_off_overlay c) (device_errors c)
  | DropOffOverlay => mkPumpCounters (to_mesh c) (to_device c) (drop_not_ipv4 c) (drop_too_big c)
                 (drop_spoofed_src c) (bump (drop_off_overlay c)) (device_errors c)
  end.
Definition count_device_error (c : PumpCounters) : PumpCounters :=
  mkPumpCounters (to_mesh c) (to_device c) (drop_not_ipv4 c) (drop_too_big c)
    (drop_spoofed_src c) (drop_off_overlay c) (bump (device_errors c)).
Definition count_to_device (c : PumpCounters) : PumpCounters :=
  mkPumpCounters (to_mesh c) (bump (to_device c)) (drop_not_ipv4 c) (drop_too_big c)
    (drop_spoofed_src c) (drop_off_overlay c) (device_errors c).

(** What the two loops of [run_pump] select over. [reactor_up] is whether
    [send_inner] succeeds, [write_ok] whether the device accepts the packet. *)
Inductive pump_event :=
| DeviceRead (pkt : list Z) (reactor_up : bool)
| DeviceReadError
| MeshPacket (pkt : list Z) (write_ok : bool)
| MeshClosed
| Shutdown.

Record Pump := mkPump {
  counters : PumpCounters;
  rx_running : bool;
  tx_running : bool;
  mesh_out : list (list Z);
  device_out : list (list Z)
}.
Definition Pump_new : Pump := mkPump PumpCounters_default true true [] [].

(** One iteration of the outbound task. *)
Definition rx_step (policy : PumpPolicy) (p : Pump) (pkt : list Z) (reactor_up : bool) : Pump :=
  match egress_verdict pkt policy with
  | Forward =>
      if reactor_up then
        mkPump (count_verdict Forward (counters p)) true (tx_running p) (mesh_out p ++ [pkt]) (device_out p)
      else mkPump (counters p) false (tx_running p) (mesh_out p) (device_out p)
  | v => mkPump (count_verdict v (counters p)) true (tx_running p) (mesh_out p) (device_out p)
  end.

(** One iteration of the inbound task. *)
Definition tx_step (p : Pump) (pkt : list Z) (write_ok : bool) : Pump :=
  if write_ok then
    mkPump (count_to_device (counters p)) (rx_running p) true (mesh_out p) (device_out p ++ [pkt])
  else mkPump (count_device_error (counters p)) (rx_running p) true (mesh_out p) (device_out p).

Definition pump_step (policy : PumpPolicy) (p : Pump) (e : pump_event) : Pump :=
  match e with
  | DeviceRead pkt up => if rx_running p then rx_step policy p pkt up else p
  | DeviceReadError =>
      if rx_running p then
        mkPump (count_device_error (counters p)) true (tx_running p) (mesh_out p) (device_out p)
      else p
  | MeshPacket pkt ok => if tx_running p then tx_step p pkt ok else p
  | MeshClosed => mkPump (counters p) (rx_running p) false (mesh_out p) (device_out p)
  | Shutdown => mkPump (counters p) false false (mesh_out p) (device_out p)
  end.

Definition pump_run (policy : PumpPolicy) (es : list pump_event) : Pump :=
  foldl (pump_step policy) Pump_new es.

(** ** Invariant *)

(** What the policy promises the mesh of each forwarded packet. *)
Definition admissible (policy : PumpPolicy) (pkt : list Z) : Prop :=
  ipv4_src pkt = Some (pp_overlay_ip policy) /\
  (exists dst, ipv4_dst pkt = Some dst /\ v4net_contains (pp_overlay_net policy) dst = true) /\
  20 <= from_be_bytes (slice pkt 2 4) <= len pkt /\ 20 <= len pkt <= pp_mtu policy.

Definition total (c : PumpCounters) : Z :=
  to_mesh c + to_device c + drop_not_ipv4 c + drop_too_big c + drop_spoofed_src c
  + drop_off_overlay c + device_errors c.

(** Counters agree with the traffic of [n] events. *)
Record pump_ok (policy : PumpPolicy) (n : nat) (p : Pump) : Prop := {
  ok_mesh : Forall (admissible policy) (mesh_out p);
  ok_to_mesh : to_mesh (counters p) = Z.of_nat (length (mesh_out p));
  ok_to_device : to_device (counters p) = Z.of_nat (length (device_out p));
  ok_nonneg : 0 <= drop_not_ipv4 (counters p) /\ 0 <= drop_too_big (counters p) /\
    0 <= drop_spoofed_src (counters p) /\ 0 <= drop_off_overlay (counters p) /\
    0 <= device_errors (counters p);
  ok_total : total (counters p) <= Z.of_nat n
}.

Ltac dropped :=
  split; [discriminate|]; intros ((Hsrc & (dst & Hdst & Hin) & Htl & Hlen) & Hihl & Hihl');
  exfalso; first [lia | congruence].

Lemma egress_verdict_spec pkt policy :
  egress_verdict pkt policy = Forward <->
  admissible policy pkt /\ 5 <= Z.land (byte_at pkt 0) 15 /\ Z.land (byte_at pkt 0) 15 * 4 <= len pkt.
Proof.
  unfold egress_verdict, admissible, ipv4_src, ipv4_dst, ipv4_field. simpl.
  assert ((length pkt <? 20)%nat = (len pkt <? 20)) as ->.
  { unfold len. destruct (Nat.ltb_spec (length pkt) 20), (Z.ltb_spec (Z.of_nat (length pkt)) 20); lia. }
  set (total_len := from_be_bytes (slice pkt 2 4)). set (ihl := Z.land (byte_at pkt 0) 15).
  destruct (Z.ltb_spec (len pkt) 20); cbn [orb]; [dropped|].
  destruct (Z.shiftr _ 4 =? 4); cbn [negb]; [|dropped].
  destruct (Z.ltb_spec (ihl * 4) 20); cbn [orb]; [dropped|].
  destruct (Z.ltb_spec (len pkt) (ihl * 4)); [dropped|].
  destruct (Z.ltb_spec total_len 20); cbn [orb]; [dropped|].
  destruct (Z.ltb_spec (len pkt) total_len); [dropped|].
  destruct (Z.ltb_spec (pp_mtu policy) (len pkt)); cbn [orb]; [dropped|].
  destruct (Z.ltb_spec (pp_mtu policy) total_len); [dropped|].
  destruct (Z.eqb_spec (from_be_bytes (slice pkt 12 16)) (pp_overlay_ip policy)); cbn [negb]; [|dropped].
  destruct (v4net_contains _ _) eqn:Ec; cbn [negb]; [|dropped].
  split; [|done]. intros _. repeat split; try lia; try congruence; eauto.
Qed.

Lemma bump_small x : 0 <= x < 2 ^ 64 - 1 -> bump x = x + 1.
Proof. intros. unfold bump. apply wrap_fits. unfold fits. lia. Qed.

Lemma pump_step_ok policy n p e :
  Z.of_nat n < 2 ^ 64 - 1 -> pump_ok policy n p -> pump_ok policy (S n) (pump_step policy p e).
Proof.
  intros Hn [Hmesh Hm Hd Hnn Ht]. unfold total in Ht.
  assert (Hb : forall x, 0 <= x -> x <= Z.of_nat n -> bump x = x + 1)
    by (intros; apply bump_small; lia).
  destruct e as [pkt up| |pkt ok| |]; unfold pump_step, rx_step, tx_step.
  - destruct (rx_running p); [|split; unfold total; simpl; try done; lia].
    destruct (egress_verdict pkt policy) eqn:Ev; [destruct up|..];
      split; unfold total; simpl; rewrite ?Hb by lia; try done; try lia.
    + apply Forall_app_2; [done|]. apply Forall_singleton. by apply egress_verdict_spec in Ev as [? _].
    + rewrite length_app. simpl. lia.
  - destruct (rx_running p); split; unfold total; simpl; rewrite ?Hb by lia; try done; lia.
  - destruct (tx_running p); [destruct ok|]; split; unfold total; simpl; rewrite ?Hb by lia; try done; try lia.
    rewrite length_app. simpl. lia.
  - split; unfold total; simpl; try done; lia.
  - split; unfold total; simpl; try done; lia.
Qed.

Lemma pump_run_ok policy es :
  Z.of_nat (length es) < 2 ^ 64 -> pump_ok policy (length es) (pump_run policy es).
Proof.
  induction es as [|e es IH] using rev_ind; intros Hn.
  - split; unfold total; simpl; try done; lia.
  - unfold pump_run. rewrite foldl_app. simpl. rewrite length_app in *. simpl in *.
    rewrite Nat.add_1_r in *. apply pump_step_ok; [lia|]. apply IH. lia.
Qed.

(** ** Properties *)

(** C5: over every sequence of fewer than 2^64 device reads, mesh packets, errors and
    shutdowns, each packet the pump hands to the mesh is IPv4, carries this
    node's own overlay address as its source (anti-spoofing), is addressed
    inside the overlay subnet and fits the MTU; the counters equal what was
    forwarded in each direction and never count an event twice. *)
Theorem pump_forwards_only_admissible policy es (Hlen : Z.of_nat (length es) < 2 ^ 64) :
  let p := pump_run policy es in
  Forall (admissible policy) (mesh_out p) /\
  to_mesh (counters p) = Z.of_nat (length (mesh_out p)) /\
  to_device (counters p) = Z.of_nat (length (device_out p)) /\
  total (counters p) <= Z.of_nat (length es).
Proof. simpl. destruct (pump_run_ok policy es Hlen). done. Qed.

End Pump.

(** ** Witness *)

#[local] Existing Instances CidrNet.inst.

Definition demo_policy : PumpPolicy := mkPumpPolicy 167772162 overlay_net 1400.
Definition host_packet : list Z :=
  [69; 0; 0; 20] ++ repeat 0 8 ++ [10; 0; 0; 2] ++ [10; 0; 0; 1].
Definition spoofed_packet : list Z :=
  [69; 0; 0; 20] ++ repeat 0 8 ++ [10; 0; 0; 9] ++ [10; 0; 0; 1].
Definition demo_pump := pump_run demo_policy
  [DeviceRead host_packet true; DeviceRead spoofed_packet true; DeviceReadError; MeshPacket host_packet true].

Example demo_pump_counters : counters demo_pump = mkPumpCounters 1 1 0 0 1 0 1.
Proof. vm_compute. reflexivity. Qed.

Lemma pump_forwards_only_admissible_witness :
  mesh_out demo_pump = [host_packet] /\ Forall (admissible demo_policy) (mesh_out demo_pump).
Proof.
  split; [vm_compute; reflexivity|].
  apply (pump_forwards_only_admissible demo_policy
    [DeviceRead host_packet true; DeviceRead spoofed_packet true; DeviceReadError; MeshPacket host_packet true]).
  simpl. lia.
Defined.
