(* ===== verification/Trie.v ===== *)
(** * Trie: label tries keyed by reversed domain labels

    src/src/policy/domain.rs ([LabelNode], a [bool] per node) and
    src/src/policy/mod.rs ([IndexedNode], an [Option<u32>] per node) keep the
    same tree: a value and a [HashMap<String, Node>] of children. The tree, its
    insertion walk ([entry(..).or_default()]) and its enumeration are shared
    here, with the finite-map laws that characterise them. *)

From Stdlib Require Import ZArith Lia.
From stdpp Require Import prelude strings list gmap.
From S2P Require Import Prelude RustStr.

Inductive node (A : Type) : Type := Node (v : A) (ch : gmap str (node A)).
Arguments Node {A} v ch.

Section Trie.
Context {A : Type} (d : A).

Definition value (n : node A) : A := match n with Node v _ => v end.
Definition children (n : node A) : gmap str (node A) := match n with Node _ ch => ch end.

(** [Default] *)
Definition new_node : node A := Node d ∅.

(** Walk to the node of [labels], creating the missing ones, and apply [f] to
    its value. *)
Fixpoint update (f : A -> A) (labels : list str) (n : node A) : node A :=
  match n, labels with
  | Node v ch, [] => Node (f v) ch
  | Node v ch, l :: ls =>
      let child := match ch !! l with Some c => c | None => new_node end in
      Node v (<[l := update f ls child]> ch)
  end.

(** The value stored under a path, the default where the path is absent. *)
Fixpoint value_at (n : node A) (labels : list str) : A :=
  match labels with
  | [] => value n
  | l :: ls => match children n !! l with Some c => value_at c ls | None => d end
  end.

(** Values met walking down [labels], the root's excluded. *)
Fixpoint trail (n : node A) (labels : list str) : list A :=
  match labels with
  | [] => []
  | l :: ls => match children n !! l with Some c => value c :: trail c ls | None => [] end
  end.

(** Every node with the path from the root that leads to it. *)
Fixpoint paths (n : node A) (labels : list str) : list (list str * A) :=
  match n with
  | Node v ch =>
      (labels, v) :: map_fold (fun l c acc => paths c (labels ++ [l]) ++ acc) [] ch
  end.

Lemma value_at_new labels : value_at new_node labels = d.
Proof. destruct labels; simpl; [done|]. by rewrite lookup_empty. Qed.

Lemma value_at_update f labels n labels' :
  value_at (update f labels n) labels' =
  if decide (labels' = labels) then f (value_at n labels) else value_at n labels'.
Proof.
  revert n labels'; induction labels as [|l ls IH]; intros [v ch] labels'.
  - destruct (decide (labels' = [])) as [->|Hne]; [done|]. by destruct labels'.
  - destruct labels' as [|l' ls']; [by rewrite decide_False|]. cbn [update value_at children].
    destruct (decide (l' = l)) as [->|Hne].
    + rewrite lookup_insert_eq, IH. destruct (decide (ls' = ls)) as [->|Hls].
      * rewrite decide_True by done. destruct (ch !! l); [done|]. by rewrite value_at_new.
      * rewrite decide_False by congruence. destruct (ch !! l); [done|]. apply value_at_new.
    + rewrite lookup_insert_ne by done. by rewrite decide_False by congruence.
Qed.

(** The values on the trail that differ from the default are those stored under
    the non-empty prefixes of the path. *)
Lemma elem_of_trail n labels v :
  v <> d ->
  v ∈ trail n labels <-> exists p, p <> [] /\ p `prefix_of` labels /\ value_at n p = v.
Proof.
  intros Hv. revert n; induction labels as [|l ls IH]; intros n; simpl.
  - split; [by intros ?%not_elem_of_nil|]. intros (p & Hp & Hpre & _).
    by apply prefix_nil_inv in Hpre.
  - destruct (children n !! l) as [c|] eqn:Ec.
    + rewrite elem_of_cons, IH. split.
      * intros [->|(p & Hp & Hpre & <-)].
        { exists [l]. simpl. rewrite Ec. split_and!; [done|by apply prefix_cons, prefix_nil|done]. }
        exists (l :: p). simpl. rewrite Ec. split_and!; [done|by apply prefix_cons|done].
      * intros (p & Hp & Hpre & Hval). destruct p as [|l' p]; [done|].
        pose proof (prefix_cons_inv_1 _ _ _ _ Hpre) as ->. apply prefix_cons_inv_2 in Hpre.
        simpl in Hval. rewrite Ec in Hval. destruct p as [|l'' p]; [by left|].
        right. exists (l'' :: p). done.
    + split; [by intros ?%not_elem_of_nil|]. intros (p & Hp & Hpre & Hval).
      destruct p as [|l' p]; [done|].
      pose proof (prefix_cons_inv_1 _ _ _ _ Hpre) as ->. simpl in Hval.
      rewrite Ec in Hval. by destruct Hv.
Qed.

Fixpoint height (n : node A) : nat :=
  match n with Node _ ch => S (map_fold (fun _ c acc => max (height c) acc) 0%nat ch) end.

Lemma height_child n l c : children n !! l = Some c -> (height c < height n)%nat.
Proof.
  destruct n as [v ch]. simpl. intros Hc.
  assert (Hgen : forall k x, ch !! k = Some x ->
    (height x <= map_fold (fun _ c acc => max (height c) acc) 0 ch)%nat).
  { apply (map_fold_weak_ind (fun r m => forall k x, m !! k = Some x -> (height x <= r)%nat)).
    - intros k x H. by rewrite lookup_empty in H.
    - intros i x m r _ IH k y. rewrite lookup_insert_Some. intros [[-> ->]|[_ Hy]]; [lia|].
      specialize (IH _ _ Hy). lia. }
  specialize (Hgen _ _ Hc). lia.
Qed.

Lemma elem_of_paths_children (ch : gmap str (node A)) labels x :
  x ∈ map_fold (fun l c acc => paths c (labels ++ [l]) ++ acc) [] ch <->
  exists l c, ch !! l = Some c /\ x ∈ paths c (labels ++ [l]).
Proof.
  apply (map_fold_weak_ind (fun r m => x ∈ r <-> exists l c, m !! l = Some c /\ x ∈ paths c (labels ++ [l]))).
  - split; [by intros ?%not_elem_of_nil|]. intros (l & c & Hl & _). by rewrite lookup_empty in Hl.
  - intros i y m r Hi IH. rewrite elem_of_app, IH. split.
    + intros [H|(l & c & Hl & H)].
      * exists i, y. by rewrite lookup_insert_eq.
      * exists l, c. rewrite lookup_insert_ne by congruence. done.
    + intros (l & c & Hl & H). apply lookup_insert_Some in Hl as [[-> ->]|[_ Hl]]; eauto.
Qed.

(** The enumeration lists exactly the stored values, where they differ from the
    default. *)
Lemma elem_of_paths n labels p v :
  v <> d ->
  (p, v) ∈ paths n labels <-> exists q, p = labels ++ q /\ value_at n q = v.
Proof.
  intros Hv. remember (height n) as h eqn:Hh. revert n labels Hh.
  induction (lt_wf h) as [h _ IH]. intros n labels ->. destruct n as [w ch].
  cbn [paths]. rewrite elem_of_cons, elem_of_paths_children. split.
  - intros [[= -> ->]|(l & c & Hl & H)].
    + exists []. by rewrite app_nil_r.
    + apply (IH (height c)) in H as (q & -> & Hq); [|by apply (height_child (Node w ch) l)|done].
      exists (l :: q). rewrite <- app_assoc. simpl. by rewrite Hl.
  - intros ([|l q] & -> & Hq).
    + left. rewrite app_nil_r. by rewrite <- Hq.
    + right. simpl in Hq. destruct (ch !! l) as [c|] eqn:Hl; [|by destruct Hv].
      exists l, c. split; [done|]. apply (IH (height c)); [by apply (height_child (Node w ch) l)|done|].
      exists q. by rewrite <- app_assoc.
Qed.

End Trie.
