(* ===== verification/Domain.v ===== *)
(** * Domain: the domain matcher of routing rules

    Models src/src/policy/domain.rs. A [HashMap<String, ()>] is a [gset], a
    [HashMap<String, LabelNode>] the children map of a label trie. *)

From Stdlib Require Import ZArith Lia.
From stdpp Require Import prelude strings list gmap.
From S2P Require Import Prelude RustStr Trie.

(** [normalize] *)
Definition normalize (s : str) : str := to_ascii_lowercase (trim_matches dot (trim s)).

Abbreviation LabelNode := (node bool).

(** [s.split('.').rev()] *)
Definition rlabels (s : str) : list str := rev (split dot s).

Record SubDomainMatcher := mkSub { sub_root : LabelNode; sub_len : Z }.
Definition SubDomainMatcher_default : SubDomainMatcher := mkSub (new_node false) 0.

(** What [SubDomainMatcher::add] inserts for a pattern: [*.] is an alias. *)
Definition suffix_of (s : str) : str :=
  let s := normalize s in default s (strip_prefix (lit "*.") s).

(** [SubDomainMatcher::add] *)
Definition sub_add (m : SubDomainMatcher) (s : str) : SubDomainMatcher :=
  let s := suffix_of s in
  if is_empty s then m
  else
    let labels := rlabels s in
    mkSub (update false (fun terminal => if negb terminal then true else terminal) labels (sub_root m))
      (if negb (value_at false (sub_root m) labels) then sub_len m + 1 else sub_len m).

(** The loop of [SubDomainMatcher::matches_normalized]. *)
Fixpoint sub_walk (n : LabelNode) (labels : list str) (matched : bool) : bool :=
  match labels with
  | [] => matched
  | label :: labels =>
      match children n !! label with
      | Some child => sub_walk child labels (if value child then true else matched)
      | None => matched
      end
  end.
Definition sub_matches_normalized (m : SubDomainMatcher) (s : str) : bool :=
  if is_empty s then false else sub_walk (sub_root m) (rlabels s) false.

(** [SubDomainMatcher::contribute_suffixes]: the domains [f] is called with, in
    one order of the children maps. *)
Definition sub_contribute_suffixes (m : SubDomainMatcher) : list str :=
  map (fun '(labels, _) => join [dot] (rev labels))
    (filter (fun '(labels, terminal) => Is_true (terminal && negb (is_empty labels)))
       (paths (sub_root m) [])).

Record DomainMatcher := mkDomains {
  dm_full : gset str;
  dm_domain : SubDomainMatcher;
  dm_keyword : list str
}.
(** [DomainMatcher::new] *)
Definition DomainMatcher_new : DomainMatcher := mkDomains ∅ SubDomainMatcher_default [].

(** [DomainMatcher::add] *)
Definition domain_add (m : DomainMatcher) (rule : str) : DomainMatcher :=
  let '(typ, pattern) := match split_once colon rule with
                         | Some (t, p) => (t, p)
                         | None => (lit "domain", rule)
                         end in
  if str_eqb typ (lit "full") then
    mkDomains ({[normalize pattern]} ∪ dm_full m) (dm_domain m) (dm_keyword m)
  else if str_eqb typ (lit "keyword") then
    let k := normalize pattern in
    if is_empty k then m else mkDomains (dm_full m) (dm_domain m) (dm_keyword m ++ [k])
  else mkDomains (dm_full m) (sub_add (dm_domain m) pattern) (dm_keyword m).

(** [DomainMatcher::matches_normalized], [DomainMatcher::matches] *)
Definition matches_normalized (m : DomainMatcher) (n : str) : bool :=
  if is_empty n then false
  else if bool_decide (n ∈ dm_full m) then true
  else if sub_matches_normalized (dm_domain m) n then true
  else existsb (fun k => contains k n) (dm_keyword m).
Definition domain_matches (m : DomainMatcher) (host : str) : bool :=
  matches_normalized m (normalize host).

(** [contribute_full], [contribute_keywords], [contribute_suffixes] *)
Definition contribute_full (m : DomainMatcher) : list str := elements (dm_full m).
Definition contribute_keywords (m : DomainMatcher) : list str := dm_keyword m.
Definition contribute_suffixes (m : DomainMatcher) : list str := sub_contribute_suffixes (dm_domain m).

(** [DomainMatcher::is_empty] *)
Definition domain_is_empty (m : DomainMatcher) : bool :=
  bool_decide (dm_full m = ∅) && (sub_len (dm_domain m) =? 0) && is_empty (dm_keyword m).

Definition domain_add_all (m : DomainMatcher) (rules : list str) : DomainMatcher :=
  foldl domain_add m rules.

(** ** Abstract specification: rules as patterns on names *)

Inductive pattern := PFull (p : str) | PKeyword (p : str) | PSuffix (p : str).

Definition pattern_of (rule : str) : pattern :=
  match split_once colon rule with
  | Some (t, p) =>
      if str_eqb t (lit "full") then PFull (normalize p)
      else if str_eqb t (lit "keyword") then PKeyword (normalize p)
      else PSuffix (suffix_of p)
  | None => PSuffix (suffix_of rule)
  end.

(** A name equals a domain or ends with it at a label boundary. *)
Definition under (domain name : str) : Prop :=
  name = domain \/ exists sub, name = sub ++ [dot] ++ domain.

(** An empty pattern never matches, an empty name is never matched. *)
Definition pattern_matches (p : pattern) (n : str) : Prop :=
  n <> [] /\
  match p with
  | PFull f => n = f
  | PKeyword k => k <> [] /\ exists a b, n = a ++ k ++ b
  | PSuffix d => d <> [] /\ under d n
  end.

(** ** Label boundaries *)

Lemma under_labels d n : under d n <-> rlabels d `prefix_of` rlabels n.
Proof.
  unfold under, rlabels. split.
  - intros [->|[sub ->]]; [done|].
    assert (split dot (sub ++ [dot] ++ d) = split dot sub ++ split dot d) as ->.
    { induction sub as [|x sub IH]; [done|]. cbn [app split] in *.
      rewrite IH. destruct (x =? dot); [done|].
      pose proof (split_nonempty dot sub). by destruct (split dot sub). }
    rewrite rev_app_distr. by eexists.
  - intros [r Hr]. apply (f_equal (@rev _)) in Hr. rewrite rev_app_distr, !rev_involutive in Hr.
    rewrite <- (join_split dot n), <- (join_split dot d), Hr.
    destruct (rev r) as [|x l] eqn:El; [by left|]. right. clear Hr El.
    exists (join [dot] (x :: l)). apply join_app; [done|apply split_nonempty].
Qed.

Lemma rlabels_nonempty s : rlabels s <> [].
Proof.
  unfold rlabels. intros H. apply (f_equal (@rev _)) in H. rewrite rev_involutive in H.
  by apply (split_nonempty dot s).
Qed.
Lemma rlabels_inj s t : rlabels s = rlabels t -> s = t.
Proof.
  unfold rlabels. intros H. apply (f_equal (@rev _)) in H. rewrite !rev_involutive in H.
  by apply split_inj in H.
Qed.

(** ** The trie holds the added domains *)

Lemma sub_walk_trail n labels b : sub_walk n labels b = b || existsb id (trail n labels).
Proof.
  revert n b; induction labels as [|l ls IH]; intros n b; simpl; [by rewrite orb_false_r|].
  destruct (children n !! l) as [c|]; simpl; [|by rewrite orb_false_r].
  rewrite IH. by destruct b, (value c).
Qed.

(** [m] holds exactly the domains [ds]. *)
Record sub_holds (m : SubDomainMatcher) (ds : list str) : Prop := {
  holds_labels : forall labels, value_at false (sub_root m) labels = true <-> labels ∈ map rlabels ds;
  holds_len : 0 <= sub_len m;
  holds_empty : sub_len m = 0 <-> ds = []
}.

Lemma sub_holds_default : sub_holds SubDomainMatcher_default [].
Proof.
  split; simpl; try done. intros labels. rewrite value_at_new.
  split; [done|by intros ?%not_elem_of_nil].
Qed.

Lemma sub_add_holds m ds s :
  sub_holds m ds ->
  sub_holds (sub_add m s) (if is_empty (suffix_of s) then ds else suffix_of s :: ds).
Proof.
  intros [Hl Hn He]. unfold sub_add. destruct (is_empty (suffix_of s)); [done|].
  split; cbn [sub_root sub_len].
  - intros labels. rewrite value_at_update. cbn [map]. rewrite elem_of_cons.
    destruct (decide (labels = rlabels (suffix_of s))) as [->|Hne].
    + split; [by left|]. by destruct (value_at _ _ _).
    + rewrite Hl. naive_solver.
  - destruct (negb _); lia.
  - split; [|done]. destruct (value_at false (sub_root m) (rlabels (suffix_of s))) eqn:E; simpl; [|lia].
    intros H0. apply He in H0 as ->. apply Hl in E. by apply not_elem_of_nil in E.
Qed.

Lemma sub_matches_spec m ds n :
  sub_holds m ds -> n <> [] -> sub_matches_normalized m n = true <-> exists d, d ∈ ds /\ under d n.
Proof.
  intros [Hl _ _] Hn. unfold sub_matches_normalized. destruct n as [|c n0]; [done|]. simpl is_empty.
  set (n := c :: n0) in *. cbn match. rewrite sub_walk_trail. simpl orb.
  rewrite existsb_exists. transitivity (true ∈ trail (sub_root m) (rlabels n)).
  { split; [intros ([] & ?%list_elem_of_In & ?); done|]. intros H%list_elem_of_In. eauto. }
  rewrite (elem_of_trail false) by done. setoid_rewrite under_labels. split.
  - intros (p & _ & Hpre & Hv). apply Hl, list_elem_of_In, in_map_iff in Hv as (d & <- & Hd%list_elem_of_In).
    eauto.
  - intros (d & Hd & Hpre). exists (rlabels d). split_and!; [apply rlabels_nonempty|done|].
    apply Hl, list_elem_of_In, in_map, list_elem_of_In, Hd.
Qed.

Lemma sub_contribute_spec m ds d :
  sub_holds m ds -> d ∈ sub_contribute_suffixes m <-> d ∈ ds.
Proof.
  intros [Hl _ _]. unfold sub_contribute_suffixes. rewrite list_elem_of_In, in_map_iff.
  assert (Hjoin : forall s, join [dot] (rev (rlabels s)) = s).
  { intros s. unfold rlabels. by rewrite rev_involutive, join_split. }
  split.
  - intros ([labels t] & <- & [Ht Hin]%list_elem_of_In%list_elem_of_filter).
    destruct t; [|done]. apply (elem_of_paths false) in Hin as (q & -> & Hq); [|done].
    apply Hl, list_elem_of_In, in_map_iff in Hq as (d' & <- & Hd'). simpl.
    rewrite Hjoin. by apply list_elem_of_In.
  - intros Hd. exists (rlabels d, true). split; [apply Hjoin|].
    apply list_elem_of_In, list_elem_of_filter. split.
    + destruct (rlabels d) eqn:E; [by destruct (rlabels_nonempty d)|done].
    + apply (elem_of_paths false); [done|]. exists (rlabels d). split; [done|].
      apply Hl, list_elem_of_In, in_map, list_elem_of_In, Hd.
Qed.

(** ** The matcher holds the added rules *)

(** What each part of the matcher holds for a list of patterns. *)
Definition fulls (ps : list pattern) : list str :=
  omap (fun p => match p with PFull f => Some f | _ => None end) ps.
Definition keywords (ps : list pattern) : list str :=
  omap (fun p => match p with PKeyword k => if is_empty k then None else Some k | _ => None end) ps.
Definition suffixes (ps : list pattern) : list str :=
  omap (fun p => match p with PSuffix d => if is_empty d then None else Some d | _ => None end) ps.

Record domain_holds (m : DomainMatcher) (ps : list pattern) : Prop := {
  dh_full : forall f, f ∈ dm_full m <-> f ∈ fulls ps;
  dh_domain : exists ds, sub_holds (dm_domain m) ds /\ forall d, d ∈ ds <-> d ∈ suffixes ps;
  dh_keyword : dm_keyword m = keywords ps
}.

Lemma domain_holds_new : domain_holds DomainMatcher_new [].
Proof.
  split; simpl; [|exists []; split; [apply sub_holds_default|done]|done].
  intros f. set_solver.
Qed.

Lemma domain_add_holds m ps rule :
  domain_holds m ps -> domain_holds (domain_add m rule) (ps ++ [pattern_of rule]).
Proof.
  intros [Hf (ds & Hds & Hmem) Hk]. unfold domain_add, pattern_of.
  assert (Hsub : forall s, domain_holds (mkDomains (dm_full m) (sub_add (dm_domain m) s) (dm_keyword m))
                             (ps ++ [PSuffix (suffix_of s)])).
  { intros s. split; cbn [dm_full dm_domain dm_keyword]; unfold fulls, keywords, suffixes.
    - intros f. by rewrite omap_app, app_nil_r.
    - eexists; split; [by apply sub_add_holds|]. intros d. rewrite omap_app, elem_of_app, <- Hmem. cbn.
      destruct (is_empty (suffix_of s)); set_solver.
    - by rewrite omap_app, app_nil_r. }
  destruct (split_once colon rule) as [[t p]|]; [|apply Hsub].
  destruct (str_eqb t (lit "full")); [|destruct (str_eqb t (lit "keyword")); [|apply Hsub]].
  - split; cbn [dm_full dm_domain dm_keyword]; unfold fulls, keywords, suffixes.
    + intros f. rewrite omap_app, elem_of_app, <- Hf. cbn. set_solver.
    + exists ds. split; [done|]. intros d. by rewrite omap_app, app_nil_r.
    + by rewrite omap_app, app_nil_r.
  - destruct (is_empty (normalize p)) eqn:Ep; split; cbn [dm_full dm_domain dm_keyword];
      unfold fulls, keywords, suffixes; try (intros f; by rewrite omap_app, app_nil_r);
      try (exists ds; split; [done|]; intros d; by rewrite omap_app, app_nil_r);
      rewrite omap_app; cbn; rewrite Ep, ?app_nil_r, Hk; done.
Qed.

Lemma domain_add_all_holds m ps rules :
  domain_holds m ps -> domain_holds (domain_add_all m rules) (ps ++ map pattern_of rules).
Proof.
  revert m ps; induction rules as [|r rules IH]; intros m ps H; simpl; [by rewrite app_nil_r|].
  replace (ps ++ pattern_of r :: map pattern_of rules)
    with ((ps ++ [pattern_of r]) ++ map pattern_of rules) by by rewrite <- app_assoc.
  apply IH. by apply domain_add_holds.
Qed.

(** Membership of the three projections. *)
Lemma elem_of_fulls ps f : f ∈ fulls ps <-> PFull f ∈ ps.
Proof.
  unfold fulls. rewrite list_elem_of_omap. split.
  - intros ([] & Hp & [= ->]); done.
  - intros H. by exists (PFull f).
Qed.
Lemma elem_of_keywords ps k : k ∈ keywords ps <-> PKeyword k ∈ ps /\ k <> [].
Proof.
  unfold keywords. rewrite list_elem_of_omap. split.
  - intros ([|k'|] & Hp & H); try done. destruct k'; simplify_eq/=. done.
  - intros [H Hne]. exists (PKeyword k). split; [done|]. by destruct k.
Qed.
Lemma elem_of_suffixes ps d : d ∈ suffixes ps <-> PSuffix d ∈ ps /\ d <> [].
Proof.
  unfold suffixes. rewrite list_elem_of_omap. split.
  - intros ([| |d'] & Hp & H); try done. destruct d'; simplify_eq/=. done.
  - intros [H Hne]. exists (PSuffix d). split; [done|]. by destruct d.
Qed.

Lemma matches_normalized_spec m ps n :
  domain_holds m ps ->
  matches_normalized m n = true <-> exists p, p ∈ ps /\ pattern_matches p n.
Proof.
  intros [Hf (ds & Hds & Hmem) Hk]. unfold matches_normalized, pattern_matches.
  destruct n as [|c n0]; [cbn; naive_solver|]. simpl is_empty. set (n := c :: n0). cbn match.
  assert (Hn : n <> []) by done. clearbody n.
  destruct (bool_decide_reflect (n ∈ dm_full m)) as [Hin|Hout].
  { split; [intros _|done]. exists (PFull n). by rewrite <- elem_of_fulls, <- Hf. }
  destruct (sub_matches_normalized (dm_domain m) n) eqn:Es.
  { split; [intros _|done]. apply (sub_matches_spec _ ds) in Es as (d & Hd & Hu); [|done..].
    apply Hmem, elem_of_suffixes in Hd as [Hd Hne]. by exists (PSuffix d). }
  rewrite existsb_exists. setoid_rewrite contains_spec. rewrite Hk. split.
  - intros (k & [Hp Hne]%list_elem_of_In%elem_of_keywords & Hc). exists (PKeyword k). done.
  - intros ([f|k|d] & Hp & _ & Hm).
    + subst n. destruct Hout. by rewrite Hf, elem_of_fulls.
    + destruct Hm as [Hne Hm]. exists k. rewrite <- list_elem_of_In, elem_of_keywords. done.
    + destruct Hm as [Hne Hu]. assert (sub_matches_normalized (dm_domain m) n = true); [|congruence].
      apply (sub_matches_spec _ ds); [done..|]. exists d. by rewrite Hmem, elem_of_suffixes.
Qed.

(** ** Properties *)

(** A domain matcher built from any list of rule strings matches a host
    exactly when some rule does by its meaning: [full:] is equality with the
    normalised name, [keyword:] is containment, and everything else (with [*.]
    as an alias) is the name itself or a subdomain of it at a label boundary.
    The hash set, the label trie and the keyword list implement that disjunction;
    empty patterns and empty hosts never match. *)
Theorem domain_matcher_refines rules host :
  domain_matches (domain_add_all DomainMatcher_new rules) host = true <->
  exists rule, rule ∈ rules /\ pattern_matches (pattern_of rule) (normalize host).
Proof.
  unfold domain_matches.
  rewrite (matches_normalized_spec _ ([] ++ map pattern_of rules)) by apply domain_add_all_holds, domain_holds_new.
  simpl. split.
  - intros (p & (r & <- & Hr%list_elem_of_In)%list_elem_of_In%in_map_iff & Hm). eauto.
  - intros (r & Hr & Hm). exists (pattern_of r). split; [|done].
    by apply list_elem_of_In, in_map, list_elem_of_In.
Qed.

Definition demo_domains : DomainMatcher :=
  domain_add_all DomainMatcher_new [lit "*.Api.OpenAI.com"; lit "full:gmail.com"; lit "keyword:ads"].
Example demo_domains_match :
  map (domain_matches demo_domains)
    (map lit ["CDN.api.openai.com."; "notapi.openai.com"; "gmail.com"; "mail.gmail.com"; "x.ads1.net"; ""]%string)
  = [true; false; true; false; true; false].
Proof. vm_compute. reflexivity. Qed.
