(* ===== verification/Policy.v ===== *)
(** * Policy: rule sets and the first-match route index

    Models src/src/policy/ip.rs (host and network matcher) and
    src/src/policy/mod.rs (rule sets, the [RouteIndex] that answers a first-match
    query with one walk per matcher). The address book is used through the
    interface [BookApi]; Book.v provides the instance. *)

From Stdlib Require Import ZArith Lia.
From stdpp Require Import prelude strings list gmap.
From S2P Require Import Prelude RustStr Net Trie Domain.

(** What a rule set uses of the address book: resolving category patterns to a
    mask and matching a host against one. *)
Class BookApi := {
  AddrBook : Type;
  book_error : Type;
  book_resolve : AddrBook -> list str -> result book_error (list Z);
  book_matches : AddrBook -> str -> list Z -> bool
}.

(** [Selector]: a mask and the address of its shared allocation. *)
Record Selector := mkSelector { sel_mask : list Z; sel_addr : Z }.
(** [Selector::allocation]: address and size in bytes of the [Arc<[u64]>]. *)
Definition selector_allocation (s : Selector) : Z * Z :=
  (sel_addr s, 8 * Z.of_nat (length (sel_mask s))).

Section IpMatcher.
Context {N : Ipnet}.

Record IpMatcher := mkIps { ip_exact : gset IpAddr; ip_cidrs : list IpNet }.
Definition IpMatcher_new : IpMatcher := mkIps ∅ [].

(** [is_host_route] *)
Definition is_host_route (net : IpNet) : bool :=
  match net with
  | inl n => v4net_prefix_len n =? 32
  | inr n => v6net_prefix_len n =? 128
  end.

(** [IpMatcher::insert_net] *)
Definition insert_net (m : IpMatcher) (net : IpNet) : IpMatcher :=
  if is_host_route net then mkIps ({[ipnet_addr net]} ∪ ip_exact m) (ip_cidrs m)
  else mkIps (ip_exact m) (ip_cidrs m ++ [net]).

(** [IpMatcher::add] *)
Definition ip_add (m : IpMatcher) (entry : str) : IpMatcher * bool :=
  let s := trim entry in
  match ipnet_parse s with
  | Some net => (insert_net m net, true)
  | None =>
      match parse_ip_addr s with
      | Some addr => (mkIps ({[addr]} ∪ ip_exact m) (ip_cidrs m), true)
      | None => (m, false)
      end
  end.

(** [IpMatcher::matches], [IpMatcher::is_empty] *)
Definition ip_matches (m : IpMatcher) (addr : IpAddr) : bool :=
  bool_decide (addr ∈ ip_exact m) || existsb (fun n => ipnet_contains n addr) (ip_cidrs m).
Definition ip_is_empty (m : IpMatcher) : bool :=
  bool_decide (ip_exact m = ∅) && is_empty (ip_cidrs m).

(** [contribute_exact], [contribute_cidrs] *)
Definition contribute_exact (m : IpMatcher) : list IpAddr := elements (ip_exact m).
Definition contribute_cidrs (m : IpMatcher) : list IpNet := ip_cidrs m.

End IpMatcher.

Inductive rule_error (E : Type) := EmptyBookRule | NoAddrBook | Unresolved (e : E).
Arguments EmptyBookRule {E}.
Arguments NoAddrBook {E}.
Arguments Unresolved {E} e.

(** [note_min] *)
Definition note_min {K} `{Countable K} (m : gmap K Z) (key : K) (idx : Z) : gmap K Z :=
  match m !! key with
  | Some current => <[key := Z.min current idx]> m
  | None => <[key := idx]> m
  end.

Abbreviation IndexedNode := (node (option Z)).

(** [IndexedSuffix::add] *)
Definition indexed_add (root : IndexedNode) (domain : str) (idx : Z) : IndexedNode :=
  if is_empty domain then root
  else update None (fun best => Some (match best with Some b => Z.min b idx | None => idx end))
         (rlabels domain) root.

(** [IndexedSuffix::best] *)
Fixpoint indexed_walk (n : IndexedNode) (labels : list str) (best : option Z) : option Z :=
  match labels with
  | [] => best
  | label :: labels =>
      match children n !! label with
      | Some child =>
          indexed_walk child labels
            (match value child with
             | Some idx => Some (match best with Some current => Z.min current idx | None => idx end)
             | None => best
             end)
      | None => best
      end
  end.
Definition indexed_best (root : IndexedNode) (domain : str) : option Z :=
  if is_empty domain then None else indexed_walk root (rlabels domain) None.

(** The selector loops of [first_match]: skip an entry that cannot improve on
    [best], stop early once the best possible index is reached. *)
Fixpoint scan {X} (key : X -> Z) (hit : X -> bool) (l : list X) (best : Z) : Z :=
  match l with
  | [] => best
  | x :: l =>
      if (key x <? best) && hit x then
        if key x =? 0 then key x else scan key hit l (key x)
      else scan key hit l best
  end.

Section Policy.
Context {N : Ipnet} {B : BookApi}.

Record BookRules := mkBookRules { br_book : AddrBook; br_selector : Selector }.
Record RuleSet := mkRuleSet {
  rs_domains : DomainMatcher;
  rs_ips : IpMatcher;
  rs_book : option BookRules
}.
Definition RuleSet_default : RuleSet := mkRuleSet DomainMatcher_new IpMatcher_new None.

Definition rs_matches_book (rs : RuleSet) (host : str) : bool :=
  match rs_book rs with
  | Some b => book_matches (br_book b) host (sel_mask (br_selector b))
  | None => false
  end.

(** One iteration of the loop of [RuleSet::from_rules]. *)
Definition from_rule (acc : RuleSet * list str) (r : str)
    : result (rule_error book_error) (RuleSet * list str) :=
  let '(rs, book_patterns) := acc in
  let t := trim r in
  if is_empty t then Ok (rs, book_patterns)
  else
    match strip_prefix (lit "book:") t with
    | Some pattern =>
        let pattern := trim pattern in
        if is_empty pattern then Err EmptyBookRule
        else Ok (rs, book_patterns ++ [pattern])
    | None =>
        let '(ips, added) := ip_add (rs_ips rs) t in
        Ok (mkRuleSet (if added then rs_domains rs else domain_add (rs_domains rs) t) ips (rs_book rs),
            book_patterns)
    end.

(** [RuleSet::from_rules]; [addr] is where the runtime placed the selector. *)
Definition from_rules (rules : list str) (book : option AddrBook) (addr : Z)
    : result (rule_error book_error) RuleSet :=
  acc ← try_fold from_rule (RuleSet_default, []) rules;
  let '(rs, book_patterns) := acc in
  if is_empty book_patterns then Ok rs
  else
    book ← ok_or book NoAddrBook;
    mask ← map_err Unresolved (book_resolve book book_patterns);
    Ok (mkRuleSet (rs_domains rs) (rs_ips rs) (Some (mkBookRules book (mkSelector mask addr)))).

(** [RuleSet::matches] *)
Definition rs_matches (rs : RuleSet) (host : str) : bool :=
  let book := rs_matches_book rs host in
  match parse_ip_addr host with
  | Some addr => if ip_matches (rs_ips rs) addr then true else book
  | None => if domain_matches (rs_domains rs) host then true else book
  end.

(** [RuleSet::is_empty], [RuleSet::book_selector_allocation] *)
Definition rs_is_empty (rs : RuleSet) : bool :=
  domain_is_empty (rs_domains rs) && ip_is_empty (rs_ips rs)
  && match rs_book rs with None => true | Some _ => false end.
Definition book_selector_allocation (rs : RuleSet) : option (Z * Z) :=
  (fun b => selector_allocation (br_selector b)) <$> rs_book rs.

Record RouteIndex := mkIndex {
  ix_full : gmap str Z;
  ix_suffix : IndexedNode;
  ix_keywords : list (str * Z);
  ix_exact_ip : gmap IpAddr Z;
  ix_cidrs : list (IpNet * Z);
  ix_books : list (Z * BookRules)
}.
Definition RouteIndex_default : RouteIndex := mkIndex ∅ (new_node None) [] ∅ [] [].

(** [RuleSet::index_into], with the [note_*] methods in place. *)
Definition index_into (rs : RuleSet) (route_idx : Z) (ix : RouteIndex) : RouteIndex :=
  mkIndex
    (foldl (fun m host => note_min m host route_idx) (ix_full ix) (contribute_full (rs_domains rs)))
    (foldl (fun root host => indexed_add root host route_idx) (ix_suffix ix)
       (contribute_suffixes (rs_domains rs)))
    (ix_keywords ix ++ map (fun k => (k, route_idx)) (contribute_keywords (rs_domains rs)))
    (foldl (fun m addr => note_min m addr route_idx) (ix_exact_ip ix) (contribute_exact (rs_ips rs)))
    (ix_cidrs ix ++ map (fun n => (n, route_idx)) (contribute_cidrs (rs_ips rs)))
    (ix_books ix ++ match rs_book rs with Some b => [(route_idx, b)] | None => [] end).

(** [best.min(idx)] when the map holds an index. *)
Definition improve (best : Z) (o : option Z) : Z :=
  match o with Some idx => Z.min best idx | None => best end.

(** [RouteIndex::first_match] *)
Definition first_match (ix : RouteIndex) (host : str) : option Z :=
  let best := u32_max in
  let best :=
    match parse_ip_addr host with
    | Some addr =>
        let best := improve best (ix_exact_ip ix !! addr) in
        scan snd (fun e => ipnet_contains (fst e) addr) (ix_cidrs ix) best
    | None =>
        let normalized := normalize host in
        if is_empty normalized then best
        else
          let best := improve best (ix_full ix !! normalized) in
          let best := improve best (indexed_best (ix_suffix ix) normalized) in
          scan snd (fun e => contains (fst e) normalized) (ix_keywords ix) best
    end in
  let best := scan fst (fun e => book_matches (br_book (snd e)) host (sel_mask (br_selector (snd e))))
                (ix_books ix) best in
  if best =? u32_max then None else Some best.

(** The index [RoutingPolicy::from_routes] builds over its routes' selectors. *)
Definition build_index (routes : list RuleSet) : RouteIndex :=
  foldl (fun ix '(idx, rs) => index_into rs (wrap 32 (Z.of_nat idx)) ix) RouteIndex_default (enumerate routes).

(** ** Minima

    [is_min o P]: [o] is the least index satisfying [P], if any does. *)

Definition is_min (o : option Z) (P : Z -> Prop) : Prop :=
  match o with
  | Some i => P i /\ forall j, P j -> i <= j
  | None => forall j, ~ P j
  end.

Lemma is_min_iff o P Q : (forall j, P j <-> Q j) -> is_min o P -> is_min o Q.
Proof. intros H. destruct o; simpl; naive_solver. Qed.

#[local] Instance is_min_proper : Proper (eq ==> pointwise_relation Z iff ==> iff) is_min.
Proof. intros o ? <- P Q H. split; apply is_min_iff; [done|]. intros j. by rewrite H. Qed.

Lemma is_min_add o P idx :
  is_min o P ->
  is_min (Some (match o with Some b => Z.min b idx | None => idx end)) (fun j => P j \/ j = idx).
Proof.
  destruct o as [b|]; simpl.
  - intros [Hb Hle]. split.
    + destruct (Z.min_spec b idx) as [[_ ->]|[_ ->]]; auto.
    + intros j [Hj| ->]; [specialize (Hle j Hj)|]; lia.
  - intros Hn. split; [by right|]. intros j [Hj| ->]; [by destruct (Hn j)|lia].
Qed.

Lemma is_min_unique o o' P : is_min o P -> is_min o' P -> o = o'.
Proof.
  destruct o as [i|], o' as [i'|]; simpl; try naive_solver.
  intros [Hi Hle] [Hi' Hle']. f_equal. specialize (Hle _ Hi'). specialize (Hle' _ Hi). lia.
Qed.

Lemma note_min_spec {K} `{Countable K} (m : gmap K Z) key idx k P :
  is_min (m !! k) P -> is_min (note_min m key idx !! k) (fun j => P j \/ (k = key /\ j = idx)).
Proof.
  intros Hm. unfold note_min. destruct (decide (k = key)) as [->|Hne].
  - pose proof (is_min_add _ _ idx Hm) as Ha.
    destruct (m !! key); rewrite lookup_insert_eq; (eapply is_min_iff; [|exact Ha]); naive_solver.
  - eapply (is_min_iff _ P); [naive_solver|].
    destruct (m !! key); by rewrite lookup_insert_ne.
Qed.

Lemma note_all_spec {K} `{Countable K} keys idx (m : gmap K Z) k P :
  is_min (m !! k) P ->
  is_min (foldl (fun m key => note_min m key idx) m keys !! k) (fun j => P j \/ (k ∈ keys /\ j = idx)).
Proof.
  revert m P; induction keys as [|key keys IH]; intros m P Hm; simpl.
  - eapply is_min_iff; [|exact Hm]. intros j. rewrite elem_of_nil. naive_solver.
  - eapply is_min_iff; [|apply IH, note_min_spec, Hm]. intros j. rewrite elem_of_cons. naive_solver.
Qed.

Lemma indexed_add_spec root domain idx labels P :
  is_min (value_at None root labels) P ->
  is_min (value_at None (indexed_add root domain idx) labels)
    (fun j => P j \/ (domain <> [] /\ labels = rlabels domain /\ j = idx)).
Proof.
  intros Hm. unfold indexed_add. destruct domain as [|c domain].
  { eapply is_min_iff; [|exact Hm]. naive_solver. }
  cbn [is_empty]. set (d := c :: domain). assert (d <> []) by done. clearbody d.
  rewrite value_at_update. destruct (decide (labels = rlabels d)) as [->|Hne].
  - eapply is_min_iff; [|exact (is_min_add _ _ idx Hm)]. naive_solver.
  - eapply is_min_iff; [|exact Hm]. naive_solver.
Qed.

Lemma indexed_add_all_spec domains idx root labels P :
  is_min (value_at None root labels) P ->
  is_min (value_at None (foldl (fun root d => indexed_add root d idx) root domains) labels)
    (fun j => P j \/ exists d, d ∈ domains /\ d <> [] /\ labels = rlabels d /\ j = idx).
Proof.
  revert root P; induction domains as [|d domains IH]; intros root P Hm; simpl.
  - eapply is_min_iff; [|exact Hm]. intros j. setoid_rewrite elem_of_nil. naive_solver.
  - eapply is_min_iff; [|apply IH, indexed_add_spec, Hm]. intros j. setoid_rewrite elem_of_cons. naive_solver.
Qed.

Lemma indexed_walk_spec n labels best P :
  is_min best P ->
  is_min (indexed_walk n labels best) (fun j => P j \/ Some j ∈ trail n labels).
Proof.
  revert n best P; induction labels as [|l ls IH]; intros n best P Hb; simpl.
  - eapply is_min_iff; [|exact Hb]. intros j. rewrite elem_of_nil. naive_solver.
  - destruct (children n !! l) as [c|] eqn:Ec.
    + destruct (value c) as [idx|] eqn:Ev.
      * eapply is_min_iff; [|apply IH, is_min_add, Hb]. intros j. simpl.
        rewrite elem_of_cons. naive_solver.
      * eapply is_min_iff; [|apply IH, Hb]. intros j. simpl. rewrite elem_of_cons. naive_solver.
    + eapply is_min_iff; [|exact Hb]. intros j. rewrite elem_of_nil. naive_solver.
Qed.

(** The walk answers the minimum over every added domain the name lies under. *)
Lemma indexed_best_spec root name (R : list str -> Z -> Prop) :
  (forall labels, is_min (value_at None root labels) (R labels)) -> name <> [] ->
  is_min (indexed_best root name)
    (fun j => exists labels, labels <> [] /\ labels `prefix_of` rlabels name /\ R labels j).
Proof.
  intros HR Hn. unfold indexed_best. destruct name as [|c name]; [done|]. cbn [is_empty].
  set (n := c :: name). clearbody n.
  pose proof (indexed_walk_spec root (rlabels n) None (fun _ => False) (fun _ H => H)) as H.
  destruct (indexed_walk root (rlabels n) None) as [i|]; simpl in *.
  - destruct H as [[[]|Hi] Hle]. split.
    + apply (elem_of_trail None) in Hi as (p & Hp & Hpre & Hv); [|done].
      exists p. split_and!; [done..|]. specialize (HR p). rewrite Hv in HR. apply HR.
    + intros j (p & Hp & Hpre & HRj). specialize (HR p).
      destruct (value_at None root p) as [i'|] eqn:Ev; [|by destruct (HR j)].
      destruct HR as [_ HR]. specialize (HR _ HRj).
      assert (i <= i'); [|lia]. apply Hle. right. apply (elem_of_trail None); [done|]. eauto.
  - intros j (p & Hp & Hpre & HRj). specialize (HR p).
    destruct (value_at None root p) as [i'|] eqn:Ev; [|by destruct (HR j)].
    apply (H i'). right. apply (elem_of_trail None); [done|]. eauto.
Qed.

(** ** The sentinel [u32::MAX] *)

(** [best] is the least index satisfying [P], or [u32::MAX]. *)
Record best_is (best : Z) (P : Z -> Prop) : Prop := {
  best_le : forall j, P j -> best <= j;
  best_in : best = u32_max \/ P best;
  best_range : forall j, P j -> 0 <= j < u32_max
}.

Lemma best_is_iff b P Q : (forall j, P j <-> Q j) -> best_is b P -> best_is b Q.
Proof. intros H [H1 H2 H3]. split; naive_solver. Qed.

Lemma improve_spec b P o Q :
  best_is b P -> is_min o Q -> (forall j, Q j -> 0 <= j < u32_max) ->
  best_is (improve b o) (fun j => P j \/ Q j).
Proof.
  intros [Hle Hin Hr] Ho HQ. destruct o as [i|]; simpl in *.
  - destruct Ho as [Hi Hmin]. split; [| |naive_solver].
    + intros j [Hj|Hj]; [specialize (Hle j Hj)|specialize (Hmin j Hj)]; lia.
    + destruct (Z.min_spec b i) as [[_ ->]|[_ ->]]; naive_solver.
  - split; naive_solver.
Qed.

Lemma scan_spec {X} (key : X -> Z) hit l b P :
  best_is b P -> (forall x, x ∈ l -> 0 <= key x < u32_max) ->
  best_is (scan key hit l b) (fun j => P j \/ exists x, x ∈ l /\ key x = j /\ hit x = true).
Proof.
  revert b P; induction l as [|x l IH]; intros b P Hb Hl; simpl.
  - eapply best_is_iff; [|exact Hb]. intros j. setoid_rewrite elem_of_nil. naive_solver.
  - assert (Hx : 0 <= key x < u32_max) by (apply Hl; set_solver).
    assert (Hl' : forall y, y ∈ l -> 0 <= key y < u32_max) by (intros; apply Hl; set_solver).
    destruct (hit x) eqn:Eh.
    + assert (Hb' : best_is (improve b (Some (key x))) (fun j => P j \/ j = key x)).
      { apply improve_spec; [done|simpl; split; [done|]; naive_solver lia|naive_solver]. }
      rewrite andb_true_r. simpl in Hb'. destruct (Z.ltb_spec (key x) b) as [Hlt|Hge].
      * rewrite Z.min_r in Hb' by lia. destruct (Z.eqb_spec (key x) 0) as [H0|_].
        { destruct Hb as [_ _ Hr]. split.
          - intros j [Hj|(y & Hy & <- & _)]; [specialize (Hr j Hj)|specialize (Hl y Hy)]; lia.
          - right. right. exists x. set_solver.
          - intros j [Hj|(y & Hy & <- & _)]; [by apply Hr|by apply Hl]. }
        eapply best_is_iff; [|apply IH; [exact Hb'|done]]. intros j. setoid_rewrite elem_of_cons. naive_solver.
      * rewrite Z.min_l in Hb' by lia.
        eapply best_is_iff; [|apply IH; [exact Hb'|done]]. intros j. setoid_rewrite elem_of_cons. naive_solver.
    + rewrite andb_false_r. eapply best_is_iff; [|apply IH; [exact Hb|done]].
      intros j. setoid_rewrite elem_of_cons. naive_solver congruence.
Qed.

Lemma best_is_min b P : best_is b P -> is_min (if b =? u32_max then None else Some b) P.
Proof.
  intros [Hle Hin Hr]. destruct (Z.eqb_spec b u32_max) as [->|Hne]; simpl.
  - intros j Hj. specialize (Hle j Hj). specialize (Hr j Hj). lia.
  - split; [naive_solver|done].
Qed.

(** ** The index holds every route's selectors *)

Definition ruleset_ok (rs : RuleSet) : Prop := exists ps, domain_holds (rs_domains rs) ps.

(** [ix] indexes exactly the (route index, rule set) pairs of [S]. *)
Record index_holds (ix : RouteIndex) (S : list (Z * RuleSet)) : Prop := {
  ih_full : forall k, is_min (ix_full ix !! k)
    (fun j => exists rs, (j, rs) ∈ S /\ k ∈ contribute_full (rs_domains rs));
  ih_suffix : forall labels, is_min (value_at None (ix_suffix ix) labels)
    (fun j => exists rs d, (j, rs) ∈ S /\ d ∈ contribute_suffixes (rs_domains rs) /\ d <> [] /\ labels = rlabels d);
  ih_keywords : forall k j, (k, j) ∈ ix_keywords ix <->
    exists rs, (j, rs) ∈ S /\ k ∈ contribute_keywords (rs_domains rs);
  ih_exact : forall a, is_min (ix_exact_ip ix !! a)
    (fun j => exists rs, (j, rs) ∈ S /\ a ∈ contribute_exact (rs_ips rs));
  ih_cidrs : forall n j, (n, j) ∈ ix_cidrs ix <->
    exists rs, (j, rs) ∈ S /\ n ∈ contribute_cidrs (rs_ips rs);
  ih_books : forall j b, (j, b) ∈ ix_books ix <-> exists rs, (j, rs) ∈ S /\ rs_book rs = Some b
}.

Lemma index_holds_default : index_holds RouteIndex_default [].
Proof.
  split; simpl.
  - intros k. rewrite lookup_empty. intros j (rs & H & _). by apply not_elem_of_nil in H.
  - intros labels. rewrite value_at_new. intros j (rs & d & H & _). by apply not_elem_of_nil in H.
  - intros k j. setoid_rewrite elem_of_nil. naive_solver.
  - intros k. rewrite lookup_empty. intros j (rs & H & _). by apply not_elem_of_nil in H.
  - intros k j. setoid_rewrite elem_of_nil. naive_solver.
  - intros j b. setoid_rewrite elem_of_nil. naive_solver.
Qed.

(** Membership after one more route, for each kind of selector. *)
Lemma snoc_iff (S : list (Z * RuleSet)) i rs j (Q : RuleSet -> Prop) :
  (exists r, (j, r) ∈ S ++ [(i, rs)] /\ Q r) <-> (exists r, (j, r) ∈ S /\ Q r) \/ (j = i /\ Q rs).
Proof. setoid_rewrite elem_of_app. setoid_rewrite list_elem_of_singleton. naive_solver. Qed.

Lemma index_into_holds ix S rs idx :
  index_holds ix S -> index_holds (index_into rs idx ix) (S ++ [(idx, rs)]).
Proof.
  intros [Hf Hs Hk He Hc Hb]. unfold index_into.
  split; cbn [ix_full ix_suffix ix_keywords ix_exact_ip ix_cidrs ix_books].
  - intros k. eapply is_min_iff; [|apply note_all_spec, Hf]. intros j. rewrite snoc_iff. naive_solver.
  - intros labels. eapply is_min_iff; [|apply indexed_add_all_spec, Hs]. intros j.
    setoid_rewrite elem_of_app. setoid_rewrite list_elem_of_singleton. naive_solver.
  - intros k j. rewrite elem_of_app, Hk, snoc_iff, (list_elem_of_fmap (fun k => (k, idx))). naive_solver.
  - intros a. eapply is_min_iff; [|apply note_all_spec, He]. intros j. rewrite snoc_iff. naive_solver.
  - intros n j. rewrite elem_of_app, Hc, snoc_iff, (list_elem_of_fmap (fun n => (n, idx))). naive_solver.
  - intros j b. rewrite elem_of_app, Hb, snoc_iff. destruct (rs_book rs) as [b'|];
      rewrite ?list_elem_of_singleton, ?elem_of_nil; naive_solver.
Qed.

Lemma index_fold_holds l ix S :
  (forall j rs, (j, rs) ∈ l -> Z.of_nat j < 2 ^ 32) -> index_holds ix S ->
  index_holds (foldl (fun ix '(idx, rs) => index_into rs (wrap 32 (Z.of_nat idx)) ix) ix l)
    (S ++ map (fun '(idx, rs) => (Z.of_nat idx, rs)) l).
Proof.
  revert ix S; induction l as [|[j rs] l IH]; intros ix S Hl Hix; simpl; [by rewrite app_nil_r|].
  rewrite wrap_fits by (split; [lia|apply (Hl j rs); left]).
  rewrite cons_middle, app_assoc. apply IH; [|by apply index_into_holds].
  intros j' rs' H. apply (Hl j' rs'). by right.
Qed.

(** The pairs a policy indexes. *)
Definition numbered (routes : list RuleSet) : list (Z * RuleSet) :=
  map (fun '(idx, rs) => (Z.of_nat idx, rs)) (enumerate routes).

Lemma elem_of_numbered routes j rs :
  (j, rs) ∈ numbered routes <-> exists i, j = Z.of_nat i /\ routes !! i = Some rs.
Proof.
  unfold numbered. rewrite list_elem_of_In, in_map_iff. setoid_rewrite <- list_elem_of_In. split.
  - intros ([i r] & [= <- <-] & H). apply elem_of_enumerate_from in H as [_ H].
    rewrite Nat.sub_0_r in H. eauto.
  - intros (i & -> & H). exists (i, rs). split; [done|]. apply elem_of_enumerate_from.
    rewrite Nat.sub_0_r. split; [lia|done].
Qed.

Lemma build_index_holds routes :
  Z.of_nat (length routes) <= u32_max -> index_holds (build_index routes) (numbered routes).
Proof.
  intros Hlen. apply (index_fold_holds _ _ []); [|apply index_holds_default].
  intros j rs H. apply elem_of_enumerate_from in H as [_ H]. rewrite Nat.sub_0_r in H.
  apply lookup_lt_Some in H. unfold u32_max in Hlen. lia.
Qed.

(** ** What the index answers *)

(** The part of a rule set's match that is not the address book. *)
Definition rs_matches_own (rs : RuleSet) (host : str) : bool :=
  match parse_ip_addr host with
  | Some addr => ip_matches (rs_ips rs) addr
  | None => domain_matches (rs_domains rs) host
  end.
Lemma rs_matches_split rs host : rs_matches rs host = rs_matches_own rs host || rs_matches_book rs host.
Proof. unfold rs_matches, rs_matches_own. destruct (parse_ip_addr host); by case_match. Qed.

(** The suffixes a matcher contributes are those its own trie matches. *)
Lemma contributed_suffixes_match rs n :
  ruleset_ok rs -> n <> [] ->
  sub_matches_normalized (dm_domain (rs_domains rs)) n = true <->
  exists d, d ∈ contribute_suffixes (rs_domains rs) /\ d <> [] /\ rlabels d `prefix_of` rlabels n.
Proof.
  intros (ps & [_ (ds & Hds & Hmem) _]) Hn. rewrite (sub_matches_spec _ ds) by done.
  unfold contribute_suffixes. setoid_rewrite (sub_contribute_spec _ ds); [|done].
  setoid_rewrite under_labels. split; [|naive_solver].
  intros (d & Hd & Hpre). exists d. split_and!; [done| |done].
  apply Hmem, elem_of_suffixes in Hd. naive_solver.
Qed.

Lemma matches_normalized_contributed rs n :
  ruleset_ok rs -> n <> [] ->
  matches_normalized (rs_domains rs) n = true <->
  n ∈ contribute_full (rs_domains rs) \/
  (exists d, d ∈ contribute_suffixes (rs_domains rs) /\ d <> [] /\ rlabels d `prefix_of` rlabels n) \/
  (exists k, k ∈ contribute_keywords (rs_domains rs) /\ contains k n = true).
Proof.
  intros Hok Hn. unfold matches_normalized. destruct n as [|c n0]; [done|]. cbn [is_empty].
  set (n := c :: n0) in *. clearbody n. rewrite <- contributed_suffixes_match by done.
  unfold contribute_full. rewrite elem_of_elements.
  destruct (bool_decide_reflect (n ∈ dm_full (rs_domains rs))); [naive_solver|].
  destruct (sub_matches_normalized _ _); [naive_solver|].
  rewrite existsb_exists. setoid_rewrite <- list_elem_of_In. unfold contribute_keywords. naive_solver.
Qed.

Lemma scan_pairs_spec {X} (hit : X -> bool) (l : list (X * Z)) b P (S : list (Z * RuleSet)) (C : RuleSet -> list X) :
  best_is b P -> (forall j rs, (j, rs) ∈ S -> 0 <= j < u32_max) ->
  (forall x j, (x, j) ∈ l <-> exists rs, (j, rs) ∈ S /\ x ∈ C rs) ->
  best_is (scan snd (fun e => hit (fst e)) l b)
    (fun j => P j \/ exists rs, (j, rs) ∈ S /\ exists x, x ∈ C rs /\ hit x = true).
Proof.
  intros Hb HS Hl. eapply best_is_iff; [|apply scan_spec; [exact Hb|]].
  - intros j. apply or_iff_compat_l. split.
    + intros ([x j'] & Hin & <- & Hh). apply Hl in Hin as (rs & Hrs & Hx). eauto.
    + intros (rs & Hrs & x & Hx & Hh). exists (x, j). rewrite Hl. eauto.
  - intros [x j] Hin. apply Hl in Hin as (rs & Hrs & _). by apply (HS j rs).
Qed.

(** The selectors of the rule sets themselves, before the address books. *)
Lemma first_match_own ix S host :
  index_holds ix S -> (forall j rs, (j, rs) ∈ S -> 0 <= j < u32_max /\ ruleset_ok rs) ->
  best_is
    match parse_ip_addr host with
    | Some addr =>
        scan snd (fun e => ipnet_contains (fst e) addr) (ix_cidrs ix)
          (improve u32_max (ix_exact_ip ix !! addr))
    | None =>
        if is_empty (normalize host) then u32_max
        else scan snd (fun e => contains (fst e) (normalize host)) (ix_keywords ix)
               (improve (improve u32_max (ix_full ix !! normalize host))
                  (indexed_best (ix_suffix ix) (normalize host)))
    end (fun j => exists rs, (j, rs) ∈ S /\ rs_matches_own rs host = true).
Proof.
  intros [Hf Hs Hk He Hc _] HS. unfold rs_matches_own, domain_matches.
  assert (Hr : forall j rs, (j, rs) ∈ S -> 0 <= j < u32_max) by (intros; by eapply HS).
  assert (H0 : best_is u32_max (fun _ => False)) by (split; [done|by left|done]).
  destruct (parse_ip_addr host) as [addr|].
  - pose proof (improve_spec _ _ _ _ H0 (He addr) ltac:(naive_solver)) as H1.
    pose proof (scan_pairs_spec (fun n => ipnet_contains n addr) _ _ _ S
      (fun rs => contribute_cidrs (rs_ips rs)) H1 Hr Hc) as H2.
    eapply best_is_iff; [|exact H2].
    intros j. unfold ip_matches, contribute_exact, contribute_cidrs. setoid_rewrite elem_of_elements.
    setoid_rewrite orb_true_iff. setoid_rewrite bool_decide_eq_true. setoid_rewrite existsb_exists.
    setoid_rewrite <- list_elem_of_In. naive_solver.
  - destruct (normalize host) as [|c n0] eqn:En.
    { cbn [is_empty]. eapply best_is_iff; [|exact H0]. cbn. naive_solver. }
    cbn [is_empty]. set (n := c :: n0) in *. assert (n <> []) as Hn by done. clearbody n.
    pose proof (improve_spec _ _ _ _ H0 (Hf n) ltac:(naive_solver)) as H1.
    pose proof (improve_spec _ _ _ _ H1 (indexed_best_spec _ _ _ Hs Hn) ltac:(naive_solver)) as H2.
    pose proof (scan_pairs_spec (fun k => contains k n) _ _ _ S
      (fun rs => contribute_keywords (rs_domains rs)) H2 Hr Hk) as H3.
    eapply best_is_iff; [|exact H3].
    intros j. cbn beta. split.
    + intros [[[[]|(rs & Hrs & Hin)]|(labels & Hl & Hpre & rs & d & Hrs & Hd & Hne & ->)]|(rs & Hrs & Hin)];
        exists rs; (split; [done|]); (apply matches_normalized_contributed; [by eapply HS|done|eauto 10]).
    + intros (rs & Hrs & Hm). apply matches_normalized_contributed in Hm; [|by eapply HS|done].
      destruct Hm as [Hm|[(d & Hd & Hne & Hpre)|Hm]]; [by eauto 6| |by eauto 6].
      left. right. exists (rlabels d). split_and!; [apply rlabels_nonempty|done|]. eauto 8.
Qed.

Lemma first_match_spec ix S host :
  index_holds ix S -> (forall j rs, (j, rs) ∈ S -> 0 <= j < u32_max /\ ruleset_ok rs) ->
  is_min (first_match ix host) (fun j => exists rs, (j, rs) ∈ S /\ rs_matches rs host = true).
Proof.
  intros Hix HS. pose proof (first_match_own ix S host Hix HS) as Hown.
  destruct Hix as [_ _ _ _ _ Hb]. unfold first_match. apply best_is_min.
  eapply best_is_iff; [|apply scan_spec; [exact Hown|]].
  - intros j. setoid_rewrite rs_matches_split. setoid_rewrite orb_true_iff. unfold rs_matches_book. split.
    + intros [?|([j' b] & Hin & <- & Hm)]; [naive_solver|]. apply Hb in Hin as (rs & Hrs & Hbk).
      exists rs. rewrite Hbk. auto.
    + intros (rs & Hrs & [Hm|Hm]); [naive_solver|]. destruct (rs_book rs) as [b|] eqn:Ebk; [|done].
      right. exists (j, b). rewrite Hb. eauto.
  - intros [j b] Hin. apply Hb in Hin as (rs & Hrs & _). by eapply HS.
Qed.

(** ** What a rule means *)

Inductive rule_kind :=
| RBlank
| RBook (pattern : str)
| RNet (net : IpNet)
| RAddr (addr : IpAddr)
| RDomain (p : pattern).

Definition rule_kind_of (r : str) : rule_kind :=
  let t := trim r in
  if is_empty t then RBlank
  else match strip_prefix (lit "book:") t with
       | Some p => RBook (trim p)
       | None =>
           match ipnet_parse (trim t) with
           | Some net => RNet net
           | None => match parse_ip_addr (trim t) with
                     | Some addr => RAddr addr
                     | None => RDomain (pattern_of t)
                     end
           end
       end.

(** The operator-written rules against a host: address rules against literals,
    domain rules against names. *)
Definition kind_matches (k : rule_kind) (host : str) : Prop :=
  match parse_ip_addr host, k with
  | Some a, RNet net => ipnet_contains net a = true
  | Some a, RAddr b => a = b
  | None, RDomain p => pattern_matches p (normalize host)
  | _, _ => False
  end.

Definition book_patterns_of (rules : list str) : list str :=
  omap (fun r => match rule_kind_of r with RBook p => Some p | _ => None end) rules.
Definition domain_patterns_of (rules : list str) : list pattern :=
  omap (fun r => match rule_kind_of r with RDomain p => Some p | _ => None end) rules.

Lemma host_route_contains `{!IpnetLaws N} net a :
  is_host_route net = true -> ipnet_contains net a = true <-> a = ipnet_addr net.
Proof.
  destruct net as [n|n], a as [a|a]; simpl; intros H%Z.eqb_eq.
  - rewrite ipnet_contains_v4, v4net_contains_iff. destruct (v4net_host n H) as [-> ->].
    split; [intros; f_equal; lia|intros [= ->]; lia].
  - rewrite ipnet_contains_v4_v6. done.
  - rewrite ipnet_contains_v6_v4. done.
  - rewrite ipnet_contains_v6. destruct (v6net_host n H) as [-> ->].
    split; [intros; f_equal; lia|intros [= ->]; lia].
Qed.

Lemma ip_matches_spec m a :
  ip_matches m a = true <-> a ∈ ip_exact m \/ exists n, n ∈ ip_cidrs m /\ ipnet_contains n a = true.
Proof.
  unfold ip_matches. rewrite orb_true_iff, bool_decide_eq_true, existsb_exists.
  by setoid_rewrite <- list_elem_of_In.
Qed.

Lemma insert_net_spec `{!IpnetLaws N} m net a :
  ip_matches (insert_net m net) a = true <-> ip_matches m a = true \/ ipnet_contains net a = true.
Proof.
  unfold insert_net. destruct (is_host_route net) eqn:Eh; rewrite !ip_matches_spec; cbn.
  - rewrite (host_route_contains net) by done. set_solver.
  - setoid_rewrite elem_of_app. setoid_rewrite list_elem_of_singleton. naive_solver.
Qed.

(** The state of the loop after [rules]: the addresses, the domain patterns and
    the pending book patterns. *)
Record loop_holds (rules : list str) (rs : RuleSet) (pats : list str) : Prop := {
  lh_ips : forall a, ip_matches (rs_ips rs) a = true <->
    exists r, r ∈ rules /\ match rule_kind_of r with
                         | RNet net => ipnet_contains net a = true
                         | RAddr b => a = b
                         | _ => False
                         end;
  lh_domains : domain_holds (rs_domains rs) (domain_patterns_of rules);
  lh_book : rs_book rs = None;
  lh_pats : pats = book_patterns_of rules;
  lh_nonempty : [] ∉ pats
}.

Lemma from_rule_holds `{!IpnetLaws N} rules rs pats r acc :
  loop_holds rules rs pats -> from_rule (rs, pats) r = Ok acc ->
  loop_holds (rules ++ [r]) (fst acc) (snd acc).
Proof.
  intros [Hi Hd Hb Hp Hne]. unfold from_rule.
  assert (Hsnoc : forall (Q : str -> Prop), (exists r', r' ∈ rules ++ [r] /\ Q r') <->
            (exists r', r' ∈ rules /\ Q r') \/ Q r).
  { intros Q. setoid_rewrite elem_of_app. setoid_rewrite list_elem_of_singleton. naive_solver. }
  assert (Hkind : rule_kind_of r = rule_kind_of r) by done. unfold rule_kind_of at 1 in Hkind. cbn zeta in Hkind.
  destruct (is_empty (trim r)); [intros [= <-]|
    destruct (strip_prefix (lit "book:") (trim r)) as [p|];
      [destruct (is_empty (trim p)) eqn:Ep; intros [= <-]|
       unfold ip_add; destruct (ipnet_parse (trim (trim r))) as [net|];
         [intros [= <-]|destruct (parse_ip_addr (trim (trim r))) as [b|]; intros [= <-]]]];
    split; cbn [fst snd rs_ips rs_domains rs_book]; try done; try (intros a; rewrite Hsnoc, <- Hkind);
    unfold domain_patterns_of, book_patterns_of in *; rewrite ?omap_app; cbn; rewrite <- ?Hkind, ?app_nil_r; try done.
  - naive_solver.
  - naive_solver.
  - by rewrite Hp.
  - rewrite elem_of_app, list_elem_of_singleton. intros [?|He]; [done|]. by rewrite <- He in Ep.
  - rewrite insert_net_spec. naive_solver.
  - rewrite ip_matches_spec. cbn. rewrite <- Hi, ip_matches_spec. set_solver.
  - naive_solver.
  - by apply domain_add_holds.
Qed.

Lemma from_rules_loop `{!IpnetLaws N} rules done rs pats acc :
  loop_holds done rs pats -> try_fold from_rule (rs, pats) rules = Ok acc ->
  loop_holds (done ++ rules) (fst acc) (snd acc).
Proof.
  revert done rs pats; induction rules as [|r rules IH]; intros done rs pats H; cbn.
  - intros [= <-]. by rewrite app_nil_r.
  - intros Hf. apply bind_Ok in Hf as ([rs' pats'] & Hr & Hf).
    rewrite cons_middle, app_assoc. eapply IH; [|exact Hf].
    by apply (from_rule_holds _ _ _ _ (rs', pats') H Hr).
Qed.

Lemma loop_holds_default : loop_holds [] RuleSet_default [].
Proof.
  split; cbn; try done.
  - intros a. rewrite ip_matches_spec. cbn. set_solver.
  - apply domain_holds_new.
  - apply not_elem_of_nil.
Qed.

(** What a successful [from_rules] holds. *)
Lemma from_rules_holds `{!IpnetLaws N} rules book addr rs :
  from_rules rules book addr = Ok rs ->
  exists rs0, loop_holds rules rs0 (book_patterns_of rules) /\
    rs_domains rs = rs_domains rs0 /\ rs_ips rs = rs_ips rs0 /\
    ((book_patterns_of rules = [] /\ rs_book rs = None) \/
     (book_patterns_of rules <> [] /\ exists b mask, book = Some b /\
        book_resolve b (book_patterns_of rules) = Ok mask /\
        rs_book rs = Some (mkBookRules b (mkSelector mask addr)))).
Proof.
  unfold from_rules. intros H. apply bind_Ok in H as ([rs0 pats] & Hl & H).
  pose proof (from_rules_loop _ [] _ _ _ loop_holds_default Hl) as Hh. cbn [fst snd app] in Hh.
  destruct Hh as [Hi Hd Hb Hp Hne]. subst pats. exists rs0. split; [by split|].
  destruct (book_patterns_of rules) as [|p ps] eqn:Ep; cbn [is_empty] in H.
  - apply Ok_inj in H as <-. eauto.
  - res_inv. cbn. split_and!; try done. right. split; [done|]. eauto.
Qed.

Lemma from_rules_ok `{!IpnetLaws N} rules book addr rs : from_rules rules book addr = Ok rs -> ruleset_ok rs.
Proof.
  intros (rs0 & [_ Hd _ _ _] & He & _)%from_rules_holds.
  unfold ruleset_ok. rewrite He. eauto.
Qed.

(** The index against a scan, for any rule sets in a consistent state. *)
Lemma first_match_find (routes : list RuleSet) host :
  Z.of_nat (length routes) <= u32_max -> Forall ruleset_ok routes ->
  first_match (build_index routes) host =
  (fun '(i, _) => Z.of_nat i) <$> list_find (fun rs => Is_true (rs_matches rs host)) routes.
Proof.
  intros Hlen Hroutes.
  assert (HS : forall j rs, (j, rs) ∈ numbered routes -> 0 <= j < u32_max /\ ruleset_ok rs).
  { intros j rs (i & -> & Hi)%elem_of_numbered. pose proof (lookup_lt_Some _ _ _ Hi).
    rewrite Forall_lookup in Hroutes. specialize (Hroutes _ _ Hi). split; [lia|done]. }
  eapply is_min_unique; [apply first_match_spec; [by apply build_index_holds|done]|].
  setoid_rewrite elem_of_numbered.
  destruct (list_find _ routes) as [[i rs]|] eqn:Ef; cbn.
  - apply list_find_Some in Ef as (Hi & Hm & Hbefore). split.
    + exists rs. split; [eauto|]. by apply Is_true_true.
    + intros j (rs' & (i' & -> & Hi') & Hm'). destruct (decide (i <= i')%nat) as [|Hlt]; [lia|].
      destruct (Hbefore i' rs' Hi' ltac:(lia)). by apply Is_true_true.
  - apply list_find_None in Ef. rewrite Forall_lookup in Ef.
    intros j (rs & (i & -> & Hi) & Hm). apply (Ef _ _ Hi). by apply Is_true_true.
Qed.

(** ** Properties *)

(** A rule set compiled from any list of rule strings matches a host
    exactly when one of its rules does (address and network rules on IP
    literals, domain rules on names) or when the pinned address book places the
    host in a category its [book:] rules resolved to. It fails closed: with a
    [book:] rule present compilation only succeeds if a book is configured, the
    patterns are non-empty and all of them resolve in that very book. *)
Theorem from_rules_meaning `{!IpnetLaws N} rules book addr rs host
    (Hrs : from_rules rules book addr = Ok rs) :
  (rs_matches rs host = true <->
    (exists r, r ∈ rules /\ kind_matches (rule_kind_of r) host) \/
    (exists b mask, book = Some b /\ book_patterns_of rules <> [] /\
       book_resolve b (book_patterns_of rules) = Ok mask /\ book_matches b host mask = true)) /\
  (book_patterns_of rules <> [] ->
    [] ∉ book_patterns_of rules /\
    exists b mask, book = Some b /\ book_resolve b (book_patterns_of rules) = Ok mask).
Proof.
  destruct (from_rules_holds _ _ _ _ Hrs) as (rs0 & [Hi Hd Hb _ Hne] & Edom & Eips & Hbook).
  split; [|destruct Hbook as [[? _]|[_ (b & mask & ? & ? & _)]]; naive_solver].
  rewrite rs_matches_split, orb_true_iff. apply Morphisms_Prop.or_iff_morphism.
  - unfold rs_matches_own, kind_matches, domain_matches. rewrite Edom, Eips.
    destruct (parse_ip_addr host) as [a|].
    + rewrite Hi. split; intros (r & Hr & Hm); exists r; (split; [done|]); by destruct (rule_kind_of r).
    + rewrite (matches_normalized_spec _ _ _ Hd). unfold domain_patterns_of.
      setoid_rewrite list_elem_of_omap. split.
      * intros (p & (r & Hr & Hk) & Hm). exists r. split; [done|]. by destruct (rule_kind_of r); simplify_eq.
      * intros (r & Hr & Hm). destruct (rule_kind_of r) as [| | | |p] eqn:Ek; try done.
        exists p. split; [|done]. exists r. by rewrite Ek.
  - unfold rs_matches_book. destruct Hbook as [[He ->]|[Hp (b & mask & -> & Hres & ->)]]; cbn.
    + naive_solver.
    + split; [eauto 10|]. intros (b' & mask' & [= <-] & _ & Hres' & Hm). congruence.
Qed.

(** C6: the compiled index answers exactly as trying the routes in declaration
    order: for every host the smallest index of a matching rule set, [None] when
    none matches. The hash maps that keep a minimum per key, the suffix trie with
    a minimum per node, the skipping loops with their early exit at index 0 and
    the [u32::MAX] sentinel together compute the naive first match, for up to
    [u32::MAX] routes. *)
Theorem first_match_naive `{!IpnetLaws N} (routes : list RuleSet) host
    (Hlen : Z.of_nat (length routes) <= u32_max)
    (Hroutes : Forall (fun rs => exists rules book addr, from_rules rules book addr = Ok rs) routes) :
  first_match (build_index routes) host =
  (fun '(i, _) => Z.of_nat i) <$> list_find (fun rs => Is_true (rs_matches rs host)) routes.
Proof.
  apply first_match_find; [done|]. eapply Forall_impl; [exact Hroutes|].
  intros rs (rules & book & addr & Hrs). by eapply from_rules_ok.
Qed.

End Policy.
