(* ===== verification/Rab.v ===== *)
(** * Rab: the [.rab] address-book artifact

    Models src/src/addrbook/format.rs: the encoder, the strict decoder and the
    structural validation they share. SHA-256 is a parameter. A cursor is the
    list of bytes it has not read yet, its position the number it has. *)

From Stdlib Require Import ZArith Lia.
From stdpp Require Import prelude strings list gmap.
From S2P Require Import Prelude RustStr.

(** The digest function of the [ring] crate. *)
Class Sha256 := sha256 : list Z -> list Z.
Class Sha256Laws (H : Sha256) : Prop :=
  sha256_bytes bs : length (sha256 bs) = 32%nat /\ bytes_ok (sha256 bs).

Definition len {A} (l : list A) : Z := Z.of_nat (length l).

Definition MAGIC : list Z := lit "RAB1".
Definition FORMAT_VERSION : Z := 1.
Definition CHECKSUM_LEN : Z := 32.
Definition SEC_CATEGORIES : Z := 1.
Definition SEC_CATSETS : Z := 2.
Definition SEC_IP4 : Z := 3.
Definition SEC_IP6 : Z := 4.
Definition SEC_DOMAIN_EXACT : Z := 5.
Definition SEC_DOMAIN_SUFFIX : Z := 6.
Definition SEC_KEYWORD : Z := 7.
Definition SECTION_COUNT : Z := 7.
Definition IPV4_MAPPED_START : Z := Z.shiftl 65535 32.
Definition IPV4_MAPPED_END : Z := Z.lor IPV4_MAPPED_START u32_max.
Definition MAX_CATEGORIES : Z := 100000.
Definition MAX_ENTRIES : Z := 8000000.
Definition MAX_DECODED_HEAP_BYTES : Z := 256 * 1024 * 1024.
Definition PER_STRING_ALLOCATION_OVERHEAD : Z := 16.

(** [size_of] of the types the decoder charges for, on a 64-bit target. *)
Definition SIZE_HEAD : Z := 24.
Definition SIZE_STR_ENTRY : Z := 32.
Definition SIZE_IP4 : Z := 12.
Definition SIZE_IP6 : Z := 48.

Record Category := mkCategory { cat_name : str; cat_parent : Z }.
Record StrEntry := mkStrEntry { text : str; catset : Z }.
Abbreviation range := (Z * Z * Z)%type.

Record RawBook := mkRawBook {
  build_epoch : Z;
  categories : list Category;
  catset_words : Z;
  catsets : list Z;
  ip4 : list range;
  ip6 : list range;
  domain_exact : list StrEntry;
  domain_suffix : list StrEntry;
  keywords : list StrEntry
}.
Definition RawBook_default (epoch : Z) : RawBook := mkRawBook epoch [] 0 [] [] [] [] [] [].

Inductive rab_error :=
| TooManyCategories | CatsetWords | CatsetsWithoutWords | CatsetsNotMultiple | CategoriesUnsorted
| EmptyCategory | CategorySyntax | MissingParent | DanglingParent | ParentMismatch | RootWithParent
| CatsetBits | DanglingCatset | RangeReversed | RangesOverlap | RangeMapped
| StringsUnsorted | EmptyString | NoncanonicalString
| TooLarge
| TooSmall | BadChecksum | Truncated | BadMagic | BadVersion | BadReserved | BadSectionCount
| SectionOutOfBounds | SectionOverlapsHeader | SectionsOverlap | UnreferencedBytes
| DuplicateSection | UnknownSection | TrailingBytes | CountExceedsLimit | CountInconsistent
| PoolReference | PoolBounds | BadUtf8 | PoolUnreferenced | HeapBudget.

(** ** Validation *)

(** [for w in l.windows(2) { if w[0] >= w[1] { bail } }] *)
Fixpoint strictly_sorted (l : list str) : bool :=
  match l with
  | x :: (y :: _) as l => str_ltb x y && strictly_sorted l
  | _ => true
  end.

(** The characters of a category path segment. *)
Definition category_char (c : Z) : bool :=
  is_ascii_lowercase c || is_ascii_digit c
  || (c =? 45) || (c =? 95) || (c =? 46) || (c =? 64) || (c =? 33).
Definition category_syntax (name : str) : bool :=
  negb (existsb (fun seg => is_empty seg || negb (forallb category_char seg)) (split slash name)).

Definition is_none_parent (p : Z) : bool := p =? u32_max.

(** One iteration of the category loop of [validate]. *)
Definition validate_category (cats : list Category) (c : Category) : result rab_error unit :=
  ensure (negb (is_empty (cat_name c))) EmptyCategory ;;
  ensure (category_syntax (cat_name c)) CategorySyntax ;;
  match rsplit_once slash (cat_name c) with
  | Some (expected_parent, _) =>
      ensure (negb (is_none_parent (cat_parent c))) MissingParent ;;
      ensure (cat_parent c <? len cats) DanglingParent ;;
      match cats !! Z.to_nat (cat_parent c) with
      | Some p => ensure (str_eqb (cat_name p) expected_parent) ParentMismatch
      | None => Err DanglingParent
      end
  | None => ensure (is_none_parent (cat_parent c)) RootWithParent
  end.

(** [chunks_exact(words)] *)
Fixpoint chunks_exact {A} (fuel words : nat) (l : list A) : list (list A) :=
  match fuel with
  | O => []
  | S fuel =>
      if (words <=? length l)%nat && negb (words =? 0)%nat
      then take words l :: chunks_exact fuel words (drop words l) else []
  end.

Definition u64_not (x : Z) : Z := u64_max - x.

Definition check_catset (n_sets cs : Z) : result rab_error unit := ensure (cs <? n_sets) DanglingCatset.

(** The range loops; [mapped] is the IPv4-mapped exclusion of the IPv6 table. *)
Fixpoint validate_ranges (mapped : bool) (n_sets : Z) (prev_end : option Z) (l : list range)
    : result rab_error unit :=
  match l with
  | [] => Ok tt
  | (s, e, c) :: l =>
      ensure (s <=? e) RangeReversed ;;
      ensure (negb (mapped && (s <=? IPV4_MAPPED_END) && (IPV4_MAPPED_START <=? e))) RangeMapped ;;
      ensure (match prev_end with Some pe => pe <? s | None => true end) RangesOverlap ;;
      check_catset n_sets c ;;
      validate_ranges mapped n_sets (Some e) l
  end.

(** [is_normalized_match_text] *)
Definition is_normalized_match_text (t : str) : bool :=
  str_eqb t (trim_matches dot (trim t)) && negb (existsb is_ascii_uppercase t).

Fixpoint validate_entries (n_sets : Z) (l : list StrEntry) : result rab_error unit :=
  match l with
  | [] => Ok tt
  | e :: l =>
      ensure (negb (is_empty (text e))) EmptyString ;;
      ensure (is_normalized_match_text (text e)) NoncanonicalString ;;
      check_catset n_sets (catset e) ;;
      validate_entries n_sets l
  end.
Definition validate_strings (n_sets : Z) (l : list StrEntry) : result rab_error unit :=
  ensure (strictly_sorted (map text l)) StringsUnsorted ;; validate_entries n_sets l.

Definition div_ceil (a b : Z) : Z := (a + b - 1) / b.

(** [validate] *)
Definition validate (book : RawBook) : result rab_error unit :=
  let n_cats := len (categories book) in
  ensure (n_cats <=? MAX_CATEGORIES) TooManyCategories ;;
  let words := catset_words book in
  ensure (words =? div_ceil n_cats 64) CatsetWords ;;
  n_sets ← (if words =? 0 then ensure (is_empty (catsets book)) CatsetsWithoutWords ;; Ok 0
            else ensure (len (catsets book) mod words =? 0) CatsetsNotMultiple ;;
                 Ok (len (catsets book) / words));
  ensure (strictly_sorted (map cat_name (categories book))) CategoriesUnsorted ;;
  try_fold (fun _ c => validate_category (categories book) c) tt (categories book) ;;
  let remainder := n_cats mod 64 in
  ensure ((remainder =? 0) ||
          forallb (fun set => Z.land (default 0 (last set)) (u64_not (2 ^ remainder - 1)) =? 0)
            (chunks_exact (length (catsets book)) (Z.to_nat words) (catsets book))) CatsetBits ;;
  validate_ranges false n_sets None (ip4 book) ;;
  validate_ranges true n_sets None (ip6 book) ;;
  validate_strings n_sets (domain_exact book) ;;
  validate_strings n_sets (domain_suffix book) ;;
  validate_strings n_sets (keywords book).

(** ** Encoding *)

Definition le16 : Z -> list Z := to_le_bytes 2.
Definition le32 : Z -> list Z := to_le_bytes 4.
Definition le64 : Z -> list Z := to_le_bytes 8.
Definition le128 : Z -> list Z := to_le_bytes 16.

(** The [{off, len, tag}] records of a pool section, from pool offset [off]. *)
Fixpoint encode_heads (off : Z) (entries : list (str * Z)) : result rab_error (list Z) :=
  match entries with
  | [] => Ok []
  | (t, tag) :: entries =>
      o ← ok_or (try_from 32 off) TooLarge;
      l ← ok_or (try_from 16 (len t)) TooLarge;
      rest ← encode_heads (off + len t) entries;
      Ok (le32 o ++ le16 l ++ le32 tag ++ rest)
  end.

(** [n | heads | pool_len | pool]: [encode_str_section] and the CATEGORIES block. *)
Definition encode_pool (entries : list (str * Z)) : result rab_error (list Z) :=
  n ← ok_or (try_from 32 (len entries)) TooLarge;
  heads ← encode_heads 0 entries;
  let pool := concat (map fst entries) in
  pool_len ← ok_or (try_from 32 (len pool)) TooLarge;
  Ok (le32 n ++ heads ++ le32 pool_len ++ pool).

Definition cat_pair (c : Category) : str * Z := (cat_name c, cat_parent c).
Definition str_pair (e : StrEntry) : str * Z := (text e, catset e).

Definition encode_catsets (book : RawBook) : result rab_error (list Z) :=
  let words := catset_words book in
  let n := if words =? 0 then 0 else len (catsets book) / words in
  n ← ok_or (try_from 32 n) TooLarge;
  Ok (le32 words ++ le32 n ++ concat (map le64 (catsets book))).

Definition encode_ranges (width : Z -> list Z) (l : list range) : result rab_error (list Z) :=
  n ← ok_or (try_from 32 (len l)) TooLarge;
  Ok (le32 n ++ concat (map (fun '(s, e, c) => width s ++ width e ++ le32 c) l)).

(** The section table of payloads laid out from [off]. *)
Fixpoint section_table (off : Z) (sections : list (Z * list Z)) : list Z :=
  match sections with
  | [] => []
  | (kind, payload) :: sections =>
      le32 kind ++ le64 off ++ le64 (len payload) ++ section_table (off + len payload) sections
  end.

Definition header_len (n_sections : Z) : Z := 20 + n_sections * 20.

(** [encode] *)
Definition encode_sections (book : RawBook) : result rab_error (list (Z * list Z)) :=
  s1 ← encode_pool (map cat_pair (categories book));
  s2 ← encode_catsets book;
  s3 ← encode_ranges le32 (ip4 book);
  s4 ← encode_ranges le128 (ip6 book);
  s5 ← encode_pool (map str_pair (domain_exact book));
  s6 ← encode_pool (map str_pair (domain_suffix book));
  s7 ← encode_pool (map str_pair (keywords book));
  Ok [(SEC_CATEGORIES, s1); (SEC_CATSETS, s2); (SEC_IP4, s3); (SEC_IP6, s4);
      (SEC_DOMAIN_EXACT, s5); (SEC_DOMAIN_SUFFIX, s6); (SEC_KEYWORD, s7)].

Definition encode_body (book : RawBook) (sections : list (Z * list Z)) : list Z :=
  MAGIC ++ le16 FORMAT_VERSION ++ le16 0 ++ le64 (build_epoch book) ++ le32 (len sections)
  ++ section_table (header_len (len sections)) sections ++ concat (map snd sections).

Definition encode `{Sha256} (book : RawBook) : result rab_error (list Z) :=
  validate book ;;
  sections ← encode_sections book;
  let out := encode_body book sections in
  Ok (out ++ sha256 out).

(** ** Decoding *)

Definition parser (A : Type) : Type := list Z -> result rab_error (A * list Z).

(** [Cursor::take] and the integer reads *)
Definition rd_take (n : Z) : parser (list Z) := fun cur =>
  if n <=? len cur then Ok (take (Z.to_nat n) cur, drop (Z.to_nat n) cur) else Err Truncated.
Definition rd_uint (n : Z) : parser Z := fun cur =>
  '(b, cur) ← rd_take n cur; Ok (from_le_bytes b, cur).
Definition rd_u16 : parser Z := rd_uint 2.
Definition rd_u32 : parser Z := rd_uint 4.
Definition rd_u64 : parser Z := rd_uint 8.
Definition rd_u128 : parser Z := rd_uint 16.
(** [Cursor::done] *)
Definition rd_done (cur : list Z) : result rab_error unit := ensure (is_empty cur) TrailingBytes.

(** [for _ in 0..n { v.push(p(cur)?) }] *)
Fixpoint rd_many {A} (n : nat) (p : parser A) : parser (list A) := fun cur =>
  match n with
  | O => Ok ([], cur)
  | S n => '(x, cur) ← p cur; '(xs, cur) ← rd_many n p cur; Ok (x :: xs, cur)
  end.

Definition rd_head : parser (Z * Z * Z) := fun cur =>
  '(off, cur) ← rd_u32 cur; '(l, cur) ← rd_u16 cur; '(tag, cur) ← rd_u32 cur; Ok (off, l, tag, cur).
Definition rd_range (rd : parser Z) : parser range := fun cur =>
  '(s, cur) ← rd cur; '(e, cur) ← rd cur; '(c, cur) ← rd_u32 cur; Ok (s, e, c, cur).
Definition rd_table_entry : parser (Z * Z * Z) := fun cur =>
  '(kind, cur) ← rd_u32 cur; '(off, cur) ← rd_u64 cur; '(l, cur) ← rd_u64 cur; Ok (kind, off, l, cur).

(** [charge_decoded_heap] *)
Definition charge_decoded_heap (total bytes : Z) : result rab_error Z :=
  t ← ok_or (checked_add 64 total bytes) HeapBudget;
  ensure (t <=? MAX_DECODED_HEAP_BYTES) HeapBudget ;;
  Ok t.

(** The loop that cuts the entries out of the pool: references are contiguous,
    in bounds, valid UTF-8. *)
Fixpoint place_strings (pool : list Z) (next : Z) (heads : list (Z * Z * Z))
    : result rab_error (list (str * Z) * Z) :=
  match heads with
  | [] => Ok ([], next)
  | (off, l, tag) :: heads =>
      ensure (off =? next) PoolReference ;;
      let e := off + l in
      ensure (e <=? len pool) PoolBounds ;;
      let t := take (Z.to_nat l) (drop (Z.to_nat off) pool) in
      ensure (utf8_valid t) BadUtf8 ;;
      '(rest, next) ← place_strings pool e heads;
      Ok ((t, tag) :: rest, next)
  end.

(** [decode_str_section] and the CATEGORIES arm: [limit] is the entry cap. *)
Definition decode_pool (limit : Z) (payload : list Z) (heap : Z)
    : result rab_error (list (str * Z) * Z) :=
  '(n, cur) ← rd_u32 payload;
  ensure (n <=? limit) CountExceedsLimit ;;
  ensure (8 + n * 10 <=? len payload) CountInconsistent ;;
  heap ← charge_decoded_heap heap
           (n * (SIZE_HEAD + SIZE_STR_ENTRY + PER_STRING_ALLOCATION_OVERHEAD) + len payload);
  '(heads, cur) ← rd_many (Z.to_nat n) rd_head cur;
  '(pool_len, cur) ← rd_u32 cur;
  '(pool, cur) ← rd_take pool_len cur;
  rd_done cur ;;
  '(entries, next) ← place_strings pool 0 heads;
  ensure (next =? len pool) PoolUnreferenced ;;
  Ok (entries, heap).

(** The CATSETS arm *)
Definition decode_catsets (payload : list Z) (heap : Z) : result rab_error (Z * list Z * Z) :=
  '(words, cur) ← rd_u32 payload;
  '(n, cur) ← rd_u32 cur;
  let total := words * n in
  ensure (total <=? MAX_ENTRIES) CountExceedsLimit ;;
  ensure (len payload =? 8 + total * 8) CountInconsistent ;;
  heap ← charge_decoded_heap heap (total * 8);
  '(sets, cur) ← rd_many (Z.to_nat total) rd_u64 cur;
  rd_done cur ;;
  Ok (words, sets, heap).

(** The IP4 and IP6 arms: [width] bytes per address, [size] bytes of heap per entry. *)
Definition decode_ranges (width size : Z) (payload : list Z) (heap : Z)
    : result rab_error (list range * Z) :=
  '(n, cur) ← rd_u32 payload;
  ensure (n <=? MAX_ENTRIES) CountExceedsLimit ;;
  ensure (len payload =? 4 + n * (2 * width + 4)) CountInconsistent ;;
  heap ← charge_decoded_heap heap (n * size);
  '(l, cur) ← rd_many (Z.to_nat n) (rd_range (rd_uint width)) cur;
  rd_done cur ;;
  Ok (l, heap).

Definition pair_cat (p : str * Z) : Category := mkCategory (fst p) (snd p).
Definition pair_str (p : str * Z) : StrEntry := mkStrEntry (fst p) (snd p).

(** One iteration of the section loop of [decode]. *)
Definition decode_section (st : RawBook * Z * list Z) (sec : Z * list Z)
    : result rab_error (RawBook * Z * list Z) :=
  let '(b, heap, seen) := st in
  let '(kind, payload) := sec in
  ensure (negb (existsb (Z.eqb kind) seen)) DuplicateSection ;;
  let seen := kind :: seen in
  if kind =? SEC_CATEGORIES then
    '(es, heap) ← decode_pool MAX_CATEGORIES payload heap;
    Ok (mkRawBook (build_epoch b) (map pair_cat es) (catset_words b) (catsets b) (ip4 b) (ip6 b)
          (domain_exact b) (domain_suffix b) (keywords b), heap, seen)
  else if kind =? SEC_CATSETS then
    '(words, sets, heap) ← decode_catsets payload heap;
    Ok (mkRawBook (build_epoch b) (categories b) words sets (ip4 b) (ip6 b)
          (domain_exact b) (domain_suffix b) (keywords b), heap, seen)
  else if kind =? SEC_IP4 then
    '(l, heap) ← decode_ranges 4 SIZE_IP4 payload heap;
    Ok (mkRawBook (build_epoch b) (categories b) (catset_words b) (catsets b) l (ip6 b)
          (domain_exact b) (domain_suffix b) (keywords b), heap, seen)
  else if kind =? SEC_IP6 then
    '(l, heap) ← decode_ranges 16 SIZE_IP6 payload heap;
    Ok (mkRawBook (build_epoch b) (categories b) (catset_words b) (catsets b) (ip4 b) l
          (domain_exact b) (domain_suffix b) (keywords b), heap, seen)
  else if kind =? SEC_DOMAIN_EXACT then
    '(es, heap) ← decode_pool MAX_ENTRIES payload heap;
    Ok (mkRawBook (build_epoch b) (categories b) (catset_words b) (catsets b) (ip4 b) (ip6 b)
          (map pair_str es) (domain_suffix b) (keywords b), heap, seen)
  else if kind =? SEC_DOMAIN_SUFFIX then
    '(es, heap) ← decode_pool MAX_ENTRIES payload heap;
    Ok (mkRawBook (build_epoch b) (categories b) (catset_words b) (catsets b) (ip4 b) (ip6 b)
          (domain_exact b) (map pair_str es) (keywords b), heap, seen)
  else if kind =? SEC_KEYWORD then
    '(es, heap) ← decode_pool MAX_ENTRIES payload heap;
    Ok (mkRawBook (build_epoch b) (categories b) (catset_words b) (catsets b) (ip4 b) (ip6 b)
          (domain_exact b) (domain_suffix b) (map pair_str es), heap, seen)
  else Err UnknownSection.

(** [sort_unstable_by_key(|(off, _, _)| *off)]: insertion by offset. *)
Fixpoint insert_by_off (x : Z * Z) (l : list (Z * Z)) : list (Z * Z) :=
  match l with
  | [] => [x]
  | y :: l' => if fst x <=? fst y then x :: l else y :: insert_by_off x l'
  end.
Definition sort_by_off (l : list (Z * Z)) : list (Z * Z) := foldr insert_by_off [] l.

(** Each section lies between the table and the end of the body. *)
Definition section_bounds (payload_start body_len : Z) (t : Z * Z * Z) : result rab_error (Z * Z) :=
  let '(kind, off, l) := t in
  e ← ok_or (checked_add 64 off l) SectionOutOfBounds;
  ensure (e <=? body_len) SectionOutOfBounds ;;
  ensure (payload_start <=? off) SectionOverlapsHeader ;;
  Ok (off, e).

(** The sorted sections tile the payload without gap or overlap. *)
Fixpoint check_coverage (next : Z) (cov : list (Z * Z)) : result rab_error Z :=
  match cov with
  | [] => Ok next
  | (off, e) :: cov =>
      ensure (next <=? off) SectionsOverlap ;;
      ensure (off <=? next) UnreferencedBytes ;;
      check_coverage e cov
  end.

(** [decode] *)
Definition decode_body (body : list Z) : result rab_error RawBook :=
  '(magic, cur) ← rd_take 4 body;
  ensure (bool_decide (magic = MAGIC)) BadMagic ;;
  '(version, cur) ← rd_u16 cur;
  ensure (version =? FORMAT_VERSION) BadVersion ;;
  '(reserved, cur) ← rd_u16 cur;
  ensure (reserved =? 0) BadReserved ;;
  '(epoch, cur) ← rd_u64 cur;
  '(n_sections, cur) ← rd_u32 cur;
  ensure (n_sections =? SECTION_COUNT) BadSectionCount ;;
  '(table, cur) ← rd_many (Z.to_nat n_sections) rd_table_entry cur;
  let payload_start := len body - len cur in
  coverage ← try_map (section_bounds payload_start (len body)) table;
  next ← check_coverage payload_start (sort_by_off coverage);
  ensure (next =? len body) UnreferencedBytes ;;
  let sections := map (fun '(kind, off, l) => (kind, take (Z.to_nat l) (drop (Z.to_nat off) body))) table in
  '(book, _, _) ← try_fold decode_section (RawBook_default epoch, 0, []) sections;
  validate book ;;
  Ok book.

Definition decode `{Sha256} (bytes : list Z) : result rab_error RawBook :=
  ensure (4 + 2 + 2 + 8 + 4 + CHECKSUM_LEN <=? len bytes) TooSmall ;;
  let at_ := Z.to_nat (len bytes - CHECKSUM_LEN) in
  let body := take at_ bytes in
  let checksum := drop at_ bytes in
  ensure (bool_decide (sha256 body = checksum)) BadChecksum ;;
  decode_body body.
