(* ===== verification/RabCodec.v ===== *)
(** * RabCodec: the decoder inverts the encoder

    Theorems on Rab.v: what the encoder writes within the decoder's resource
    limits is read back as the same book, and whatever the decoder accepts is
    authenticated by its checksum and structurally valid. *)

From Stdlib Require Import ZArith Lia.
From stdpp Require Import prelude strings list gmap.
From S2P Require Import Prelude RustStr Rab.

(** Run one successful monadic step of the goal. *)
Ltac rstep := cbn [mbind result_bind ensure ok_or].

(** ** Reading back what was written *)

Lemma len_app {A} (a b : list A) : len (a ++ b) = len a + len b.
Proof. unfold len. rewrite length_app. lia. Qed.
Lemma len_nonneg {A} (a : list A) : 0 <= len a.
Proof. unfold len. lia. Qed.
Lemma len_nat {A} (a : list A) : Z.to_nat (len a) = length a.
Proof. unfold len. lia. Qed.

Lemma rd_take_app a r : rd_take (len a) (a ++ r) = Ok (a, r).
Proof.
  unfold rd_take. rewrite len_app. destruct (Z.leb_spec (len a) (len a + len r)) as [_|H].
  - by rewrite len_nat, take_app_len, drop_app_len by done.
  - pose proof (len_nonneg r). lia.
Qed.

Lemma rd_uint_le n x r :
  fits (8 * Z.of_nat n) x -> rd_uint (Z.of_nat n) (to_le_bytes n x ++ r) = Ok (x, r).
Proof.
  intros Hx. unfold rd_uint. replace (Z.of_nat n) with (len (to_le_bytes n x))
    by (unfold len; by rewrite length_to_le_bytes).
  rewrite rd_take_app. cbn. by rewrite from_to_le_bytes.
Qed.
Lemma rd_u16_le x r : fits 16 x -> rd_u16 (le16 x ++ r) = Ok (x, r).
Proof. apply (rd_uint_le 2). Qed.
Lemma rd_u32_le x r : fits 32 x -> rd_u32 (le32 x ++ r) = Ok (x, r).
Proof. apply (rd_uint_le 4). Qed.
Lemma rd_u64_le x r : fits 64 x -> rd_u64 (le64 x ++ r) = Ok (x, r).
Proof. apply (rd_uint_le 8). Qed.
Lemma rd_u128_le x r : fits 128 x -> rd_u128 (le128 x ++ r) = Ok (x, r).
Proof. apply (rd_uint_le 16). Qed.

Lemma rd_many_concat {A} (p : parser A) (enc : A -> list Z) l r :
  Forall (fun x => forall r, p (enc x ++ r) = Ok (x, r)) l ->
  rd_many (length l) p (concat (map enc l) ++ r) = Ok (l, r).
Proof.
  induction 1 as [|x l Hx _ IH]; cbn; [done|]. rewrite <- app_assoc, Hx. cbn. by rewrite IH.
Qed.

Lemma len_concat_const {A} (enc : A -> list Z) k l :
  (forall x, len (enc x) = k) -> len (concat (map enc l)) = len l * k.
Proof.
  intros Hk. induction l as [|x l IH]; cbn; [done|]. rewrite len_app, Hk, IH. unfold len. cbn. lia.
Qed.

(** ** Pool sections *)

Definition enc_head (h : Z * Z * Z) : list Z := let '(off, l, tag) := h in le32 off ++ le16 l ++ le32 tag.
Fixpoint heads_of (off : Z) (es : list (str * Z)) : list (Z * Z * Z) :=
  match es with
  | [] => []
  | (t, tag) :: es => (off, len t, tag) :: heads_of (off + len t) es
  end.
Definition head_fits (h : Z * Z * Z) : Prop := let '(off, l, tag) := h in fits 32 off /\ fits 16 l /\ fits 32 tag.
Definition entry_ok (e : str * Z) : Prop := utf8_valid (fst e) = true /\ fits 32 (snd e).

Lemma rd_head_enc h r : head_fits h -> rd_head (enc_head h ++ r) = Ok (h, r).
Proof.
  destruct h as [[off l] tag]. intros (Ho & Hl & Ht). unfold rd_head, enc_head.
  rewrite <- !app_assoc, rd_u32_le by done. cbn. rewrite rd_u16_le by done. cbn. by rewrite rd_u32_le.
Qed.

Lemma encode_heads_Ok off es hs :
  Forall entry_ok es -> encode_heads off es = Ok hs ->
  hs = concat (map enc_head (heads_of off es)) /\ Forall head_fits (heads_of off es).
Proof.
  revert off hs; induction es as [|[t tag] es IH]; intros off hs Hes; cbn.
  - intros [= <-]. done.
  - intros H. inversion Hes as [|? ? [_ Htag] Hes']; subst. res_inv.
    apply try_from_Some in Hv as [-> Ho]. apply try_from_Some in Hv0 as [-> Hl].
    destruct (IH _ _ Hes' Hv1) as [-> Hf]. split; [by rewrite <- !app_assoc|].
    constructor; [|done]. done.
Qed.

Lemma length_heads_of off es : length (heads_of off es) = length es.
Proof. revert off; induction es as [|[t tag] es IH]; intros off; cbn; auto. Qed.

Lemma place_strings_heads pre es :
  Forall entry_ok es ->
  place_strings (pre ++ concat (map fst es)) (len pre) (heads_of (len pre) es)
  = Ok (es, len (pre ++ concat (map fst es))).
Proof.
  revert pre; induction es as [|[t tag] es IH]; intros pre Hes; cbn [heads_of place_strings map concat].
  { by rewrite app_nil_r. }
  inversion Hes as [|? ? [Hu _] Hes']; subst. cbn [fst] in *. rewrite Z.eqb_refl. rstep.
  rewrite !len_app. destruct (Z.leb_spec (len pre + len t) (len pre + (len t + len (concat (map fst es)))))
    as [_|Hlt]; [|pose proof (len_nonneg (concat (map fst es))); lia].
  rstep.
  rewrite !len_nat, drop_app_len, take_app_len, Hu by done. rstep.
  specialize (IH (pre ++ t) Hes'). rewrite <- app_assoc, len_app in IH.
  rewrite IH. rstep. by rewrite !len_app, Z.add_assoc.
Qed.

(** What [charge_decoded_heap] is charged for a pool section. *)
Definition pool_len (es : list (str * Z)) : Z := 8 + 10 * len es + len (concat (map fst es)).
Definition pool_charge (es : list (str * Z)) : Z := len es * 72 + pool_len es.

Lemma charge_ok heap b :
  0 <= heap -> 0 <= b -> heap + b <= MAX_DECODED_HEAP_BYTES -> charge_decoded_heap heap b = Ok (heap + b).
Proof.
  intros Hh Hb Hle. unfold charge_decoded_heap, checked_add.
  change MAX_DECODED_HEAP_BYTES with 268435456 in *.
  destruct (Z.ltb_spec (heap + b) (2 ^ 64)); [|lia]. cbn [ok_or mbind result_bind].
  destruct (Z.leb_spec (heap + b) 268435456); [done|lia].
Qed.

Lemma encode_pool_Ok es p :
  Forall entry_ok es -> encode_pool es = Ok p ->
  p = le32 (len es) ++ concat (map enc_head (heads_of 0 es)) ++ le32 (len (concat (map fst es)))
        ++ concat (map fst es) /\
  fits 32 (len es) /\ fits 32 (len (concat (map fst es))) /\
  Forall head_fits (heads_of 0 es) /\ len p = pool_len es.
Proof.
  intros Hes H. unfold encode_pool in H. res_inv.
  apply try_from_Some in Hv as [-> Hn]. apply try_from_Some in Hv1 as [-> Hp].
  destruct (encode_heads_Ok _ _ _ Hes Hv0) as [-> Hf]. split_and!; try done.
  rewrite !len_app, (len_concat_const _ 10) by (intros [[? ?] ?]; done).
  assert (len (heads_of 0 es) = len es) as -> by (unfold len; by rewrite length_heads_of).
  unfold pool_len. assert (forall x, len (le32 x) = 4) as Hl by done. rewrite !Hl. lia.
Qed.

Lemma decode_pool_encode limit es p heap :
  Forall entry_ok es -> encode_pool es = Ok p -> len es <= limit ->
  0 <= heap -> heap + pool_charge es <= MAX_DECODED_HEAP_BYTES ->
  decode_pool limit p heap = Ok (es, heap + pool_charge es).
Proof.
  intros Hes Hp Hlim Hheap Hbud. destruct (encode_pool_Ok _ _ Hes Hp) as (Ep & Hn & Hpl & Hf & Hlen).
  unfold decode_pool. rewrite Ep at 1. rewrite rd_u32_le by done. rstep.
  rewrite (proj2 (Z.leb_le _ _) Hlim). rstep. rewrite Hlen.
  assert (8 + len es * 10 <=? pool_len es = true) as ->.
  { apply Z.leb_le. unfold pool_len. pose proof (len_nonneg (concat (map fst es))). lia. }
  rstep.
  change (len es * (SIZE_HEAD + SIZE_STR_ENTRY + PER_STRING_ALLOCATION_OVERHEAD) + pool_len es) with (pool_charge es).
  rewrite charge_ok; [|done| |done].
  2: { unfold pool_charge, pool_len. pose proof (len_nonneg (concat (map fst es))). pose proof (len_nonneg es). lia. }
  rstep. replace (Z.to_nat (len es)) with (length (heads_of 0 es)) by (rewrite length_heads_of, len_nat; done).
  rewrite rd_many_concat by (eapply Forall_impl; [exact Hf|intros h Hh r; by apply rd_head_enc]).
  rstep. rewrite rd_u32_le by done. rstep.
  rewrite <- (app_nil_r (concat (map fst es))) at 2. rewrite rd_take_app. unfold rd_done at 1; cbn [is_empty]; rstep.
  pose proof (place_strings_heads [] es Hes) as Hpl'. cbn [app] in Hpl'. change (len []) with 0 in Hpl'.
  rewrite Hpl'. rstep. rewrite Z.eqb_refl. done.
Qed.

(** ** Fixed-width sections *)

Lemma decode_catsets_encode book p heap :
  fits 32 (catset_words book) -> Forall (fits 64) (catsets book) ->
  (if catset_words book =? 0 then catsets book = []
   else len (catsets book) mod catset_words book = 0) ->
  encode_catsets book = Ok p -> len (catsets book) <= MAX_ENTRIES ->
  0 <= heap -> heap + len (catsets book) * 8 <= MAX_DECODED_HEAP_BYTES ->
  decode_catsets p heap = Ok (catset_words book, catsets book, heap + len (catsets book) * 8) /\
  len p = 8 + len (catsets book) * 8.
Proof.
  intros Hw Hs Hmul H Hmax Hh Hb. unfold encode_catsets in H. res_inv.
  apply try_from_Some in Hv as [-> Hn].
  set (n := if catset_words book =? 0 then 0 else len (catsets book) / catset_words book) in *.
  assert (catset_words book * n = len (catsets book)) as Htot.
  { subst n. destruct (Z.eqb_spec (catset_words book) 0) as [->|Hne]; [by rewrite Hmul|].
    rewrite (Z.div_mod (len (catsets book)) (catset_words book)) at 2 by done. lia. }
  assert (Hlen : len (le32 (catset_words book) ++ le32 n ++ concat (map le64 (catsets book)))
                 = 8 + len (catsets book) * 8).
  { rewrite !len_app, (len_concat_const _ 8) by done. assert (forall x, len (le32 x) = 4) as Hl by done.
    rewrite !Hl. lia. }
  split; [|done]. unfold decode_catsets. rewrite Hlen. rewrite rd_u32_le by done. rstep.
  rewrite rd_u32_le by done. rstep. rewrite Htot, (proj2 (Z.leb_le _ _) Hmax). rstep.
  rewrite Z.eqb_refl. rstep. pose proof (len_nonneg (catsets book)).
  rewrite charge_ok by lia. rstep. rewrite len_nat, <- (app_nil_r (concat _)), rd_many_concat; [done|].
  eapply Forall_impl; [exact Hs|]. intros x Hx r. by apply rd_u64_le.
Qed.

Definition range_fits (w : Z) (x : range) : Prop := let '(s, e, c) := x in fits w s /\ fits w e /\ fits 32 c.

Lemma decode_ranges_encode (w : nat) size l p heap :
  Forall (range_fits (8 * Z.of_nat w)) l -> 0 <= size ->
  encode_ranges (to_le_bytes w) l = Ok p -> len l <= MAX_ENTRIES ->
  0 <= heap -> heap + len l * size <= MAX_DECODED_HEAP_BYTES ->
  decode_ranges (Z.of_nat w) size p heap = Ok (l, heap + len l * size) /\
  len p = 4 + len l * (2 * Z.of_nat w + 4).
Proof.
  intros Hl Hsize H Hmax Hh Hb. unfold encode_ranges in H. res_inv.
  apply try_from_Some in Hv as [-> Hn].
  assert (Hlen : len (le32 (len l) ++ concat (map (fun '(s, e, c) =>
            to_le_bytes w s ++ to_le_bytes w e ++ le32 c) l)) = 4 + len l * (2 * Z.of_nat w + 4)).
  { rewrite len_app, (len_concat_const _ (2 * Z.of_nat w + 4)).
    - assert (forall x, len (le32 x) = 4) as Hl4 by done. rewrite Hl4. reflexivity.
    - intros [[s e] c]. rewrite !len_app. assert (forall x, len (le32 x) = 4) as Hl4 by done.
      rewrite Hl4. unfold len. rewrite !length_to_le_bytes. lia. }
  split; [|done]. unfold decode_ranges. rewrite Hlen, rd_u32_le by done. rstep.
  rewrite (proj2 (Z.leb_le _ _) Hmax). rstep. rewrite Z.eqb_refl. rstep.
  pose proof (len_nonneg l). rewrite charge_ok by nia. rstep.
  rewrite len_nat, <- (app_nil_r (concat _)), rd_many_concat; [done|].
  eapply Forall_impl; [exact Hl|]. intros [[s e] c] (Hs & He & Hc) r. unfold rd_range.
  rewrite <- !app_assoc, rd_uint_le by done. rstep. rewrite rd_uint_le by done. rstep. by rewrite rd_u32_le.
Qed.

(** ** Section layout *)

Fixpoint table_of (off : Z) (sections : list (Z * list Z)) : list (Z * Z * Z) :=
  match sections with
  | [] => []
  | (kind, p) :: sections => (kind, off, len p) :: table_of (off + len p) sections
  end.
Definition payload_of (sections : list (Z * list Z)) : list Z := concat (map snd sections).

Lemma len_payload_cons kind p sections : len (payload_of ((kind, p) :: sections)) = len p + len (payload_of sections).
Proof. unfold payload_of. cbn. by rewrite len_app. Qed.

Lemma rd_table_entry_enc kind off l r :
  fits 32 kind -> fits 64 off -> fits 64 l ->
  rd_table_entry (le32 kind ++ le64 off ++ le64 l ++ r) = Ok (kind, off, l, r).
Proof.
  intros. unfold rd_table_entry. rewrite rd_u32_le by done. rstep. rewrite rd_u64_le by done. rstep.
  by rewrite rd_u64_le.
Qed.

Lemma rd_table_of off sections r :
  0 <= off -> off + len (payload_of sections) < 2 ^ 64 -> Forall (fun s => fits 32 (fst s)) sections ->
  rd_many (length sections) rd_table_entry (section_table off sections ++ r) = Ok (table_of off sections, r).
Proof.
  intros Hoff Hmax Hk. revert off Hoff Hmax; induction Hk as [|[kind p] sections Hk _ IH]; intros off Hoff Hmax.
  { done. }
  rewrite len_payload_cons in Hmax. pose proof (len_nonneg p). pose proof (len_nonneg (payload_of sections)).
  cbn [length rd_many section_table table_of]. rewrite <- !app_assoc.
  rewrite rd_table_entry_enc by (done || unfold fits; lia). rstep. rewrite IH by lia. done.
Qed.

Lemma len_section_table off sections : len (section_table off sections) = len sections * 20.
Proof.
  revert off; induction sections as [|[kind p] sections IH]; intros off; [done|].
  cbn [section_table]. rewrite !len_app, IH.
  assert (forall x, len (le32 x) = 4) as H4 by done. assert (forall x, len (le64 x) = 8) as H8 by done.
  rewrite H4, !H8. unfold len. cbn [length]. lia.
Qed.

(** The sections of a table laid out back to back pass every layout check. *)
Lemma bounds_table start off sections total :
  0 <= start <= off -> off + len (payload_of sections) <= total -> total < 2 ^ 64 ->
  try_map (section_bounds start total) (table_of off sections) =
  Ok (map (fun '(_, o, l) => (o, o + l)) (table_of off sections)).
Proof.
  intros Hs Ho Ht. revert off Hs Ho; induction sections as [|[kind p] sections IH]; intros off Hs Ho; [done|].
  rewrite len_payload_cons in Ho. pose proof (len_nonneg p). pose proof (len_nonneg (payload_of sections)).
  cbn [table_of try_map map section_bounds]. unfold checked_add.
  rewrite (proj2 (Z.ltb_lt _ _)) by lia. rstep. rewrite (proj2 (Z.leb_le _ _)) by lia. rstep.
  rewrite (proj2 (Z.leb_le _ _)) by lia. rstep. by rewrite IH by lia.
Qed.

Lemma sort_table off sections :
  sort_by_off (map (fun '(_, o, l) => (o, o + l)) (table_of off sections)) =
  map (fun '(_, o, l) => (o, o + l)) (table_of off sections).
Proof.
  revert off; induction sections as [|[kind p] sections IH]; intros off; [done|].
  cbn [table_of map]. unfold sort_by_off in *. cbn [foldr]. rewrite IH.
  destruct sections as [|[kind' p'] sections]; [done|]. cbn [table_of map insert_by_off fst].
  pose proof (len_nonneg p). by rewrite (proj2 (Z.leb_le _ _)) by lia.
Qed.

Lemma coverage_table off sections :
  check_coverage off (map (fun '(_, o, l) => (o, o + l)) (table_of off sections)) =
  Ok (off + len (payload_of sections)).
Proof.
  revert off; induction sections as [|[kind p] sections IH]; intros off.
  { cbn. f_equal. unfold len. cbn. lia. }
  rewrite len_payload_cons. cbn [table_of map check_coverage]. rewrite !Z.leb_refl. rstep. rewrite IH. f_equal. lia.
Qed.

Lemma slices_table pre sections :
  map (fun '(kind, off, l) => (kind, take (Z.to_nat l) (drop (Z.to_nat off) (pre ++ payload_of sections))))
    (table_of (len pre) sections) = sections.
Proof.
  revert pre; induction sections as [|[kind p] sections IH]; intros pre; [done|].
  cbn [table_of map]. unfold payload_of. cbn [map concat snd]. fold (payload_of sections).
  rewrite !len_nat, drop_app_len, take_app_len by done. f_equal.
  rewrite app_assoc, <- len_app. apply IH.
Qed.

(** ** The whole artifact *)

(** The Rust types of a [RawBook]: machine widths and UTF-8 strings. *)
Record book_typed (b : RawBook) : Prop := {
  ty_epoch : fits 64 (build_epoch b);
  ty_categories : Forall entry_ok (map cat_pair (categories b));
  ty_words : fits 32 (catset_words b);
  ty_catsets : Forall (fits 64) (catsets b);
  ty_ip4 : Forall (range_fits 32) (ip4 b);
  ty_ip6 : Forall (range_fits 128) (ip6 b);
  ty_exact : Forall entry_ok (map str_pair (domain_exact b));
  ty_suffix : Forall entry_ok (map str_pair (domain_suffix b));
  ty_keywords : Forall entry_ok (map str_pair (keywords b))
}.

(** The decoder's own caps, which the encoder does not check. *)
Record within_limits (b : RawBook) : Prop := {
  lim_catsets : len (catsets b) <= MAX_ENTRIES;
  lim_ip4 : len (ip4 b) <= MAX_ENTRIES;
  lim_ip6 : len (ip6 b) <= MAX_ENTRIES;
  lim_exact : len (domain_exact b) <= MAX_ENTRIES;
  lim_suffix : len (domain_suffix b) <= MAX_ENTRIES;
  lim_keywords : len (keywords b) <= MAX_ENTRIES;
  lim_heap : pool_charge (map cat_pair (categories b)) + len (catsets b) * 8
    + len (ip4 b) * SIZE_IP4 + len (ip6 b) * SIZE_IP6
    + pool_charge (map str_pair (domain_exact b)) + pool_charge (map str_pair (domain_suffix b))
    + pool_charge (map str_pair (keywords b)) <= MAX_DECODED_HEAP_BYTES
}.

Lemma len_map {A B} (f : A -> B) l : len (map f l) = len l.
Proof. unfold len. by rewrite length_map. Qed.

Lemma pair_cat_map l : map pair_cat (map cat_pair l) = l.
Proof. induction l as [|[] l IH]; cbn; by rewrite ?IH. Qed.
Lemma pair_str_map l : map pair_str (map str_pair l) = l.
Proof. induction l as [|[] l IH]; cbn; by rewrite ?IH. Qed.

Lemma pool_charge_nonneg es : 0 <= pool_len es <= pool_charge es.
Proof.
  unfold pool_charge, pool_len. pose proof (len_nonneg es). pose proof (len_nonneg (concat (map fst es))). lia.
Qed.

(** The facts [encode] needs of [validate]. *)
Lemma validate_catsets b :
  validate b = Ok tt ->
  len (categories b) <= MAX_CATEGORIES /\
  (if catset_words b =? 0 then catsets b = [] else len (catsets b) mod catset_words b = 0).
Proof.
  intros H. unfold validate in H. res_inv. bools. split; [done|].
  destruct (catset_words b =? 0); res_inv; bools; [|done].
  by destruct (catsets b).
Qed.

Lemma try_fold_cons {E A S} (f : S -> A -> result E S) s x s' l :
  f s x = Ok s' -> try_fold f s (x :: l) = try_fold f s' l.
Proof. intros H. cbn. by rewrite H. Qed.

Ltac section_step D :=
  erewrite try_fold_cons;
  [|unfold decode_section;
    cbn -[decode_pool decode_catsets decode_ranges MAX_CATEGORIES MAX_ENTRIES SIZE_IP4 SIZE_IP6 map];
    rewrite D; rstep; reflexivity].

(** The section loop on the canonical order of sections. *)
Lemma decode_sections_canonical epoch s1 s2 s3 s4 s5 s6 s7 cats words sets l4 l6 ex su kw h1 h2 h3 h4 h5 h6 h7 :
  decode_pool MAX_CATEGORIES s1 0 = Ok (cats, h1) -> decode_catsets s2 h1 = Ok (words, sets, h2) ->
  decode_ranges 4 SIZE_IP4 s3 h2 = Ok (l4, h3) -> decode_ranges 16 SIZE_IP6 s4 h3 = Ok (l6, h4) ->
  decode_pool MAX_ENTRIES s5 h4 = Ok (ex, h5) -> decode_pool MAX_ENTRIES s6 h5 = Ok (su, h6) ->
  decode_pool MAX_ENTRIES s7 h6 = Ok (kw, h7) ->
  try_fold decode_section (RawBook_default epoch, 0, [])
    [(SEC_CATEGORIES, s1); (SEC_CATSETS, s2); (SEC_IP4, s3); (SEC_IP6, s4);
     (SEC_DOMAIN_EXACT, s5); (SEC_DOMAIN_SUFFIX, s6); (SEC_KEYWORD, s7)]
  = Ok (mkRawBook epoch (map pair_cat cats) words sets l4 l6 (map pair_str ex) (map pair_str su)
          (map pair_str kw), h7, [7; 6; 5; 4; 3; 2; 1]).
Proof.
  intros D1 D2 D3 D4 D5 D6 D7.
  section_step D1.
  section_step D2.
  section_step D3.
  section_step D4.
  section_step D5.
  section_step D6.
  section_step D7. done.
Qed.

Lemma decode_pool_pairs limit es p heap :
  Forall entry_ok es -> encode_pool es = Ok p -> len es <= limit -> 0 <= heap ->
  heap + pool_charge es <= MAX_DECODED_HEAP_BYTES ->
  decode_pool limit p heap = Ok (es, heap + pool_charge es) /\ len p = pool_len es.
Proof.
  intros He Hp Hl Hh Hb. split; [by apply decode_pool_encode|]. by apply encode_pool_Ok.
Qed.

Lemma decode_sections_encode b secs :
  book_typed b -> validate b = Ok tt -> within_limits b -> encode_sections b = Ok secs ->
  (exists heap seen, try_fold decode_section (RawBook_default (build_epoch b), 0, []) secs = Ok (b, heap, seen)) /\
  len (payload_of secs) <= MAX_DECODED_HEAP_BYTES + 16 /\ len secs = 7 /\ Forall (fun s => fits 32 (fst s)) secs.
Proof.
  intros [_ Tc Tw Ts T4 T6 Te Tf Tk] Hval [Ls L4 L6 Le Lf Lk Lh] H.
  destruct (validate_catsets _ Hval) as [Hcats Hmul]. unfold encode_sections in H. res_inv.
  pose proof (pool_charge_nonneg (map cat_pair (categories b))).
  pose proof (pool_charge_nonneg (map str_pair (domain_exact b))).
  pose proof (pool_charge_nonneg (map str_pair (domain_suffix b))).
  pose proof (pool_charge_nonneg (map str_pair (keywords b))).
  pose proof (len_nonneg (catsets b)). pose proof (len_nonneg (ip4 b)). pose proof (len_nonneg (ip6 b)).
  change SIZE_IP4 with 12 in Lh. change SIZE_IP6 with 48 in Lh.
  rewrite <- !(len_map cat_pair), <- !(len_map str_pair) in *.
  destruct (decode_pool_pairs MAX_CATEGORIES _ v 0 Tc Hv) as [D1 N1]; [lia..|]. set (h1 := 0 + _) in D1.
  destruct (decode_catsets_encode b v0 h1) as [D2 N2]; [done..|lia|lia|]. set (h2 := h1 + _) in D2.
  destruct (decode_ranges_encode 4 12 (ip4 b) v1 h2) as [D3 N3]; [done|lia|done|done|lia|lia|].
  set (h3 := h2 + _) in D3.
  destruct (decode_ranges_encode 16 48 (ip6 b) v2 h3) as [D4 N4]; [done|lia|done|done|lia|lia|].
  set (h4 := h3 + _) in D4.
  destruct (decode_pool_pairs MAX_ENTRIES _ v3 h4 Te Hv3) as [D5 N5]; [done|lia|lia|]. set (h5 := h4 + _) in D5.
  destruct (decode_pool_pairs MAX_ENTRIES _ v4 h5 Tf Hv4) as [D6 N6]; [done|lia|lia|]. set (h6 := h5 + _) in D6.
  destruct (decode_pool_pairs MAX_ENTRIES _ v5 h6 Tk Hv5) as [D7 N7]; [done|lia|lia|].
  split; [|split; [|split; [done|repeat constructor; done]]].
  - do 2 eexists. rewrite (decode_sections_canonical _ _ _ _ _ _ _ _ _ _ _ _ _ _ _ _ _ _ _ _ _ _ _ D1 D2 D3 D4 D5 D6 D7).
    rewrite pair_cat_map, !pair_str_map. by destruct b.
  - rewrite !len_payload_cons, N1, N2, N3, N4, N5, N6, N7. change (len (payload_of [])) with 0. lia.
Qed.

Lemma decode_body_encode b secs :
  book_typed b -> validate b = Ok tt -> within_limits b -> encode_sections b = Ok secs ->
  decode_body (encode_body b secs) = Ok b.
Proof.
  intros Ht Hval Hlim Hs.
  destruct (decode_sections_encode _ _ Ht Hval Hlim Hs) as ((heap & seen & Hd) & Hmax & Hn & Hk).
  change MAX_DECODED_HEAP_BYTES with 268435456 in Hmax.
  unfold decode_body. set (body := encode_body b secs). unfold encode_body in body.
  assert (Hbody : body = (MAGIC ++ le16 FORMAT_VERSION ++ le16 0 ++ le64 (build_epoch b) ++ le32 (len secs)
            ++ section_table (header_len (len secs)) secs) ++ payload_of secs).
  { subst body. by rewrite <- !app_assoc. }
  match type of Hbody with _ = ?p ++ _ => set (pre := p) in Hbody end.
  assert (Hpre : len pre = 160).
  { subst pre. rewrite !len_app, len_section_table, Hn. done. }
  pose proof (rd_take_app MAGIC _ : rd_take 4 body = _) as Hmagic. rewrite Hmagic. rstep.
  rewrite bool_decide_true by done. rstep.
  rewrite rd_u16_le by done. rstep. rewrite Z.eqb_refl. rstep.
  rewrite rd_u16_le by done. rstep. rewrite Z.eqb_refl. rstep.
  rewrite rd_u64_le by apply Ht. rstep. rewrite rd_u32_le by (rewrite Hn; done). rstep.
  rewrite Hn. cbn [Z.eqb SECTION_COUNT Pos.eqb]. rstep.
  change (header_len 7) with 160. replace (Z.to_nat 7) with (length secs) by (unfold len in Hn; lia).
  rewrite rd_table_of by (fold (payload_of secs); done || lia). rstep. fold (payload_of secs).
  assert (Hlen : len body = 160 + len (payload_of secs)) by (rewrite Hbody, len_app, Hpre; done).
  rewrite Hlen. replace (160 + len (payload_of secs) - len (payload_of secs)) with 160 by lia.
  rewrite bounds_table by lia. rstep. rewrite sort_table, coverage_table. rstep. rewrite Z.eqb_refl. rstep.
  rewrite Hbody, <- Hpre, slices_table, Hd. rstep. rewrite Hval. done.
Qed.

(** ** Properties *)

(** C7: decoding what [encode] wrote gives the book back, field for field: the
    header, the section table, the string pools with their offsets, the
    fixed-width tables and the checksum. The hypotheses are the Rust types of the
    book and the decoder's own resource caps, which [encode] itself does not
    enforce. *)
Theorem rab_roundtrip `{Sha256Laws} (b : RawBook) bytes
    (Hty : book_typed b) (Hlim : within_limits b) (Henc : encode b = Ok bytes) :
  decode bytes = Ok b.
Proof.
  unfold encode in Henc. res_inv. destruct v. unfold decode.
  set (out := encode_body b v0). destruct (sha256_bytes out) as [Hsha _].
  assert (Hlen : len (out ++ sha256 out) = len out + 32) by (rewrite len_app; unfold len at 2; by rewrite Hsha).
  rewrite Hlen. assert (20 <= len out) as H20.
  { subst out. unfold encode_body. rewrite !len_app.
    pose proof (len_nonneg (section_table (header_len (len v0)) v0)).
    pose proof (len_nonneg (concat (map snd v0))). change (len MAGIC) with 4.
    assert (forall x, len (le16 x) = 2) as E2 by done. assert (forall x, len (le32 x) = 4) as E4 by done.
    assert (forall x, len (le64 x) = 8) as E8 by done. rewrite !E2, E4, E8. lia. }
  unfold CHECKSUM_LEN. rewrite (proj2 (Z.leb_le _ _)) by lia. rstep.
  replace (Z.to_nat (len out + 32 - 32)) with (length out) by (unfold len; lia).
  rewrite take_app_len, drop_app_len by done. rewrite bool_decide_true by done. rstep.
  by apply decode_body_encode.
Qed.


(** ** Witnesses *)

(** A checksum of the digest's shape. *)
Module ToySha.

Definition byte_i (bs : list Z) (i : nat) : Z :=
  foldl (fun a b => (a * 31 + b + Z.of_nat i) mod 251) 7 bs.
Definition toy_sha256 : Sha256 := fun bs => map (byte_i bs) (seq 0 32).

Lemma byte_i_ok bs i : fits 8 (byte_i bs i).
Proof.
  unfold byte_i. destruct bs as [|b bs _] using rev_ind; [done|]. rewrite foldl_app. cbn.
  unfold fits. match goal with |- context [?x mod 251] => pose proof (Z.mod_pos_bound x 251) end. lia.
Qed.
Lemma toy_sha_laws : Sha256Laws toy_sha256.
Proof.
  intros bs. unfold sha256, toy_sha256. split; [by rewrite length_map, length_seq|].
  apply Forall_map, Forall_forall. intros i _. apply byte_i_ok.
Qed.

End ToySha.

#[local] Existing Instances ToySha.toy_sha256 ToySha.toy_sha_laws.

Definition demo_book : RawBook :=
  mkRawBook 1700000000
    [mkCategory (lit "blocked") u32_max; mkCategory (lit "google") u32_max; mkCategory (lit "google/ads") 1]
    1 [2; 4; 1]
    [(134744064, 134744319, 0); (167772160, 184549375, 2)]
    [(42540766411282592856903984951653826560, 42540766490510755371168322545197776895, 0)]
    [mkStrEntry (lit "dns.google") 0]
    [mkStrEntry (lit "com.google") 0; mkStrEntry (lit "com.google.ads") 1; mkStrEntry (lit "example.bad") 2]
    [mkStrEntry (lit "adserver") 1].

Definition demo_artifact : list Z := match encode demo_book with Ok bytes => bytes | Err _ => [] end.

Lemma demo_book_encodes : encode demo_book = Ok demo_artifact.
Proof. unfold demo_artifact. destruct (encode demo_book) eqn:E; [done|]. vm_compute in E. discriminate E. Qed.

Lemma demo_book_typed : book_typed demo_book.
Proof.
  split; cbn -[range_fits entry_ok fits]; repeat apply Forall_cons_2; try apply Forall_nil_2;
    repeat split; try reflexivity; vm_compute; congruence.
Qed.

Lemma demo_book_limits : within_limits demo_book.
Proof. split; apply Z.leb_le; vm_compute; reflexivity. Qed.

Lemma rab_roundtrip_witness : decode demo_artifact = Ok demo_book.
Proof. exact (rab_roundtrip demo_book demo_artifact demo_book_typed demo_book_limits demo_book_encodes). Defined.


(** One flipped bit is rejected by the checksum. *)
Example corrupt_rejected : decode (1 :: tail demo_artifact) = Err BadChecksum.
Proof. vm_compute. reflexivity. Qed.
