(* ===== verification/RabValid.v ===== *)
(** * RabValid: what a validated address book guarantees

    The declarative content of [validate] of Rab.v: sorted and unique tables,
    disjoint ranges, references in range, a category tree whose parents precede
    their children. *)

From Stdlib Require Import ZArith Lia.
From stdpp Require Import prelude strings list gmap.
From S2P Require Import Prelude RustStr Rab.

(** Strictly increasing by index. *)
Definition increasing {A} (lt : A -> A -> Prop) (l : list A) : Prop :=
  forall i j x y, (i < j)%nat -> l !! i = Some x -> l !! j = Some y -> lt x y.

Lemma increasing_cons {A} (lt : A -> A -> Prop) x l :
  increasing lt (x :: l) <-> Forall (lt x) l /\ increasing lt l.
Proof.
  split.
  - intros H. split.
    + apply Forall_lookup. intros i y Hy. apply (H 0%nat (S i)); [lia|done|done].
    + intros i j a b Hij Ha Hb. apply (H (S i) (S j)); [lia|done|done].
  - intros [Hx Hl] [|i] [|j] a b Hij Ha Hb; try lia; cbn in *; simplify_eq.
    + rewrite Forall_lookup in Hx. by apply (Hx j).
    + apply (Hl i j); [lia|done|done].
Qed.

Lemma strictly_sorted_increasing l : strictly_sorted l = true -> increasing str_lt l.
Proof.
  induction l as [|x [|y l] IH].
  - intros _ i j a b _ H. by rewrite lookup_nil in H.
  - intros _. apply increasing_cons. split; [constructor|].
    intros i j a b _ H. by rewrite lookup_nil in H.
  - cbn [strictly_sorted]. intros [Hxy%str_ltb_lt Hl]%andb_true_iff.
    specialize (IH Hl). apply increasing_cons. split; [|done].
    apply increasing_cons in IH as [Hy _]. constructor; [done|].
    eapply Forall_impl; [exact Hy|]. intros z Hz. by apply (str_lt_trans x y z).
Qed.

(** Sorted by start, pairwise disjoint, non-empty. *)
Definition range_lt (x y : range) : Prop := let '(_, e, _) := x in let '(s, _, _) := y in e < s.
Record ranges_ok (n_sets : Z) (l : list range) : Prop := {
  ro_increasing : increasing range_lt l;
  ro_each : Forall (fun '(s, e, c) => s <= e /\ c < n_sets) l
}.

Lemma validate_ranges_ok mapped n_sets prev l :
  validate_ranges mapped n_sets prev l = Ok tt ->
  ranges_ok n_sets l /\
  (forall pe, prev = Some pe -> Forall (fun '(s, _, _) => pe < s) l) /\
  (mapped = true -> Forall (fun '(s, e, _) => IPV4_MAPPED_END < s \/ e < IPV4_MAPPED_START) l).
Proof.
  revert prev; induction l as [|[[s e] c] l IH]; intros prev H; cbn in H.
  { split; [split; [intros ? ? ? ? _ Hl; by rewrite lookup_nil in Hl|constructor]|].
    split; constructor. }
  unfold check_catset in H. res_inv. destruct (IH _ H) as ([Hi He] & Hprev & Hm). bools.
  split; [split|split].
  - apply increasing_cons. split; [|done]. eapply Forall_impl; [exact (Hprev e eq_refl)|].
    by intros [[? ?] ?].
  - constructor; [done|done].
  - intros pe ->. bools. constructor; [done|].
    eapply Forall_impl; [exact (Hprev e eq_refl)|]. intros [[s' e'] c'] Hs. cbn in *. lia.
  - intros ->. constructor; [|auto].
    destruct (Z.leb_spec s IPV4_MAPPED_END), (Z.leb_spec IPV4_MAPPED_START e); by (lia || discriminate).
Qed.

Record strings_ok (n_sets : Z) (l : list StrEntry) : Prop := {
  so_increasing : increasing str_lt (map text l);
  so_each : Forall (fun e => text e <> [] /\ is_normalized_match_text (text e) = true /\ catset e < n_sets) l
}.

Lemma validate_strings_ok n_sets l : validate_strings n_sets l = Ok tt -> strings_ok n_sets l.
Proof.
  unfold validate_strings. intros H. res_inv. split; [by apply strictly_sorted_increasing|].
  clear Hv. induction l as [|e l IH]; [constructor|]. cbn in H. unfold check_catset in H. res_inv. bools.
  constructor; [|by apply IH]. split_and!; [|done..]. by destruct (text e).
Qed.

(** The number of category sets. *)
Definition n_sets (b : RawBook) : Z :=
  if catset_words b =? 0 then 0 else len (catsets b) / catset_words b.

Record book_valid (b : RawBook) : Prop := {
  bv_count : len (categories b) <= MAX_CATEGORIES;
  bv_words : catset_words b = div_ceil (len (categories b)) 64;
  bv_catsets : len (catsets b) = catset_words b * n_sets b;
  bv_names : increasing str_lt (map cat_name (categories b));
  bv_categories : Forall (fun c => validate_category (categories b) c = Ok tt) (categories b);
  bv_ip4 : ranges_ok (n_sets b) (ip4 b);
  bv_ip6 : ranges_ok (n_sets b) (ip6 b);
  bv_unmapped : Forall (fun '(s, e, _) => IPV4_MAPPED_END < s \/ e < IPV4_MAPPED_START) (ip6 b);
  bv_exact : strings_ok (n_sets b) (domain_exact b);
  bv_suffix : strings_ok (n_sets b) (domain_suffix b);
  bv_keywords : strings_ok (n_sets b) (keywords b)
}.

Lemma try_fold_unit {E A} (f : A -> result E unit) l :
  try_fold (fun _ x => f x) tt l = Ok tt -> Forall (fun x => f x = Ok tt) l.
Proof.
  induction l as [|x l IH]; cbn; [constructor|]. intros H. apply bind_Ok in H as ([] & Hx & H).
  constructor; auto.
Qed.

Lemma validate_valid b : validate b = Ok tt -> book_valid b.
Proof.
  intros H. unfold validate in H.
  apply bind_Ok in H as (? & Hn & H). apply bind_Ok in H as (? & Hw & H).
  apply bind_Ok in H as (ns & Hs & H). apply bind_Ok in H as (? & Hsort & H).
  apply bind_Ok in H as ([] & Hcats & H). apply bind_Ok in H as (? & _ & H).
  apply bind_Ok in H as ([] & H4 & H). apply bind_Ok in H as ([] & H6 & H).
  apply bind_Ok in H as ([] & He & H). apply bind_Ok in H as ([] & Hf & Hk).
  apply ensure_Ok, Z.leb_le in Hn. apply ensure_Ok, Z.eqb_eq in Hw. apply ensure_Ok in Hsort.
  assert (ns = n_sets b /\ len (catsets b) = catset_words b * n_sets b) as [-> Hlen].
  { unfold n_sets. destruct (Z.eqb_spec (catset_words b) 0) as [H0|H0]; res_inv; bools.
    - split; [done|]. destruct (catsets b); [rewrite H0; done|done].
    - split; [done|]. rewrite (Z.div_mod (len (catsets b)) (catset_words b)) at 1 by done. lia. }
  destruct (validate_ranges_ok _ _ _ _ H4) as (Hr4 & _ & _).
  destruct (validate_ranges_ok _ _ _ _ H6) as (Hr6 & _ & Hm).
  split; try done; [by apply strictly_sorted_increasing|by apply try_fold_unit|by apply Hm|
    by apply validate_strings_ok..].
Qed.

(** ** The category tree *)

Lemma rsplit_once_Some c s a b : rsplit_once c s = Some (a, b) -> s = a ++ [c] ++ b.
Proof.
  unfold rsplit_once. destruct (split_once c (rev s)) as [[b' a']|] eqn:E; [|done]. intros [= <- <-].
  apply split_once_Some in E as [E _]. apply (f_equal (@rev _)) in E. rewrite rev_involutive in E.
  rewrite E, rev_app_distr. cbn. by rewrite <- app_assoc.
Qed.

Lemma str_lt_app_r s c r : str_lt s (s ++ c :: r).
Proof.
  unfold str_lt. induction s as [|x s IH]; [done|]. cbn [app str_cmp]. by rewrite Z.compare_refl.
Qed.

(** The parent a validated category names is the category of its path without
    the last segment, and it comes earlier in the table (the [debug_assert] of
    [validate] never fires). *)
Lemma parent_precedes b i c :
  book_valid b -> categories b !! i = Some c -> cat_parent c <> u32_max -> 0 <= cat_parent c ->
  exists p last, categories b !! Z.to_nat (cat_parent c) = Some p /\
    cat_name c = cat_name p ++ [slash] ++ last /\ (Z.to_nat (cat_parent c) < i)%nat.
Proof.
  intros Hv Hc Hp Hpos. pose proof (bv_categories b Hv) as Hcat. rewrite Forall_lookup in Hcat.
  specialize (Hcat _ _ Hc). unfold validate_category in Hcat. res_inv.
  destruct (rsplit_once slash (cat_name c)) as [[q last]|] eqn:Er; res_inv.
  2: { unfold is_none_parent in Hcat. bools. done. }
  destruct (categories b !! Z.to_nat (cat_parent c)) as [p|] eqn:Ep; res_inv.
  apply str_eqb_eq in Hcat. apply rsplit_once_Some in Er. subst q. exists p, last.
  split_and!; [done..|]. destruct (decide (Z.to_nat (cat_parent c) < i)%nat) as [|Hge]; [done|exfalso].
  assert (Hlt : str_lt (cat_name p) (cat_name c)) by (rewrite Er; apply str_lt_app_r).
  destruct (decide (Z.to_nat (cat_parent c) = i)) as [Heq|Hne].
  - rewrite Heq, Hc in Ep. injection Ep as ->. by apply str_lt_irrefl in Hlt.
  - assert (str_lt (cat_name c) (cat_name p)) as Hlt'.
    { apply (bv_names b Hv i (Z.to_nat (cat_parent c))); [lia|..]; rewrite list_lookup_fmap.
      - by rewrite Hc.
      - by rewrite Ep. }
    apply (str_lt_irrefl (cat_name c)). by apply (str_lt_trans _ (cat_name p)).
Qed.
