(* ===== verification/Search.v ===== *)
(** * Search: the standard library's slice searches

    [slice::binary_search_by] and [slice::partition_point] as the halving loop
    of the standard library, used by src/src/addrbook/book.rs, with what they
    return on partitioned slices. *)

From Stdlib Require Import ZArith Lia.
From stdpp Require Import prelude list.
From S2P Require Import Prelude.

Section Search.
Context {A : Type}.
Implicit Types l : list A.

(** [while size > 1 { half = size / 2; .. size -= half }] *)
Fixpoint halve (f : A -> comparison) (l : list A) (fuel base size : nat) : nat :=
  match fuel with
  | O => base
  | S fuel =>
      if (size <=? 1)%nat then base
      else
        let half := (size / 2)%nat in
        let mid := (base + half)%nat in
        let base := match l !! mid with
                    | Some x => match f x with Gt => base | _ => mid end
                    | None => base
                    end in
        halve f l fuel base (size - half)
  end.

(** [l.binary_search_by(f)]: [inl] is [Ok], [inr] is [Err]. *)
Definition binary_search_by (f : A -> comparison) (l : list A) : nat + nat :=
  match l with
  | [] => inr 0%nat
  | _ =>
      let base := halve f l (length l) 0 (length l) in
      match l !! base with
      | Some x => match f x with
                  | Eq => inl base
                  | Lt => inr (base + 1)%nat
                  | Gt => inr base
                  end
      | None => inr base
      end
  end.

(** [l.partition_point(pred)] *)
Definition partition_point (pred : A -> bool) (l : list A) : nat :=
  match binary_search_by (fun x => if pred x then Lt else Gt) l with inl i | inr i => i end.

(** Greater elements come last. *)
Definition gt_closed (f : A -> comparison) l : Prop :=
  forall i j x y, (i <= j)%nat -> l !! i = Some x -> l !! j = Some y -> f x = Gt -> f y = Gt.
Definition lt_closed (f : A -> comparison) l : Prop :=
  forall i j x y, (i <= j)%nat -> l !! i = Some x -> l !! j = Some y -> f y = Lt -> f x = Lt.

Lemma halve_spec f l fuel base size :
  gt_closed f l -> (size <= fuel)%nat -> (1 <= size)%nat -> (base + size <= length l)%nat ->
  (base = 0%nat \/ exists x, l !! base = Some x /\ f x <> Gt) ->
  (forall j x, (base + size <= j)%nat -> l !! j = Some x -> f x = Gt) ->
  let b := halve f l fuel base size in
  (b < length l)%nat /\ (b = 0%nat \/ exists x, l !! b = Some x /\ f x <> Gt) /\
  (forall j x, (b < j)%nat -> l !! j = Some x -> f x = Gt).
Proof.
  intros Hgt. revert base size; induction fuel as [|fuel IH]; intros base size Hf H1 Hlen Hb Ha; [lia|].
  cbn [halve]. destruct (Nat.leb_spec size 1) as [Hle|Hbig].
  { assert (size = 1)%nat as -> by lia. split_and!; [lia|done|]. intros j x Hj. apply Ha. lia. }
  pose proof (Nat.div_lt size 2 ltac:(lia) ltac:(lia)). pose proof (Nat.Div0.mul_div_le size 2).
  assert (1 <= size / 2)%nat by (apply (Nat.div_le_lower_bound size 2 1); lia).
  destruct (l !! (base + size / 2)%nat) as [x|] eqn:Ex.
  2: { apply lookup_ge_None in Ex. lia. }
  destruct (f x) eqn:Ef; apply IH; try lia.
  - right. exists x. by rewrite Ef.
  - intros j y Hj. apply Ha. lia.
  - right. exists x. by rewrite Ef.
  - intros j y Hj. apply Ha. lia.
  - done.
  - intros j y Hj Hy. apply (Hgt _ _ _ _ (ltac:(lia) : (base + size / 2 <= j)%nat) Ex Hy Ef).
Qed.

Lemma binary_search_found f l i :
  binary_search_by f l = inl i -> exists x, l !! i = Some x /\ f x = Eq.
Proof.
  unfold binary_search_by. destruct l as [|a l]; [done|]. set (b := halve _ _ _ _ _).
  destruct ((a :: l) !! b) as [x|] eqn:Ex; [|done]. destruct (f x) eqn:Ef; intros [= <-]. eauto.
Qed.

Lemma binary_search_missing f l i :
  gt_closed f l -> lt_closed f l -> binary_search_by f l = inr i ->
  forall j x, l !! j = Some x -> f x <> Eq.
Proof.
  intros Hgt Hlt. unfold binary_search_by. destruct l as [|a l]; [done|].
  set (l' := a :: l) in *.
  destruct (halve_spec f l' (length l') 0 (length l') Hgt) as (Hb & Hb' & Hafter);
    [lia|subst l'; cbn; lia|lia|by left|intros j x Hj Hx; apply lookup_lt_Some in Hx; lia|].
  set (b := halve _ _ _ _ _) in *. intros Hr j x Hj Heq.
  destruct (l' !! b) as [y|] eqn:Ey; [|apply lookup_ge_None in Ey; lia].
  destruct (decide (b < j)%nat) as [Hbj|Hbj]; [by rewrite (Hafter j x) in Heq|].
  destruct (f y) eqn:Ef; [done| |].
  - rewrite (Hlt j b x y ltac:(lia) Hj Ey Ef) in Heq. done.
  - destruct Hb' as [Hb0|(z & Hz & Hne)]; [|congruence].
    assert (j = b) as -> by lia. congruence.
Qed.

(** On a slice whose [true]s come first, the number of them. *)
Lemma partition_point_spec pred l :
  (forall i j x y, (i <= j)%nat -> l !! i = Some x -> l !! j = Some y -> pred y = true -> pred x = true) ->
  let p := partition_point pred l in
  (p <= length l)%nat /\ forall j x, l !! j = Some x -> pred x = true <-> (j < p)%nat.
Proof.
  intros Hmono. unfold partition_point, binary_search_by. destruct l as [|a l]; [done|].
  set (l' := a :: l) in *. set (f := fun x => if pred x then Lt else Gt).
  assert (Hgt : gt_closed f l').
  { intros i j x y Hij Hx Hy. unfold f. destruct (pred x) eqn:Ex; [done|].
    destruct (pred y) eqn:Ey; [|done]. rewrite (Hmono i j x y) in Ex by done. done. }
  destruct (halve_spec f l' (length l') 0 (length l') Hgt) as (Hb & Hb' & Hafter);
    [lia|subst l'; cbn; lia|lia|by left|intros j x Hj Hx; apply lookup_lt_Some in Hx; lia|].
  set (b := halve _ _ _ _ _) in *.
  destruct (l' !! b) as [y|] eqn:Ey; [|apply lookup_ge_None in Ey; lia].
  assert (Haf : forall j x, (b < j)%nat -> l' !! j = Some x -> pred x = false).
  { intros j x Hj Hx. specialize (Hafter j x Hj Hx). unfold f in Hafter. by destruct (pred x). }
  destruct (pred y) eqn:Epy; cbn beta iota.
  - split; [lia|]. intros j x Hj. split.
    + intros Hp. destruct (decide (b < j)%nat) as [Hbj|]; [by rewrite (Haf j x) in Hp|lia].
    + intros Hlt. apply (Hmono j b x y); try done. lia.
  - destruct Hb' as [Hb0|(z & Hz & Hne)].
    2: { injection Hz as ->. unfold f in Hne. by rewrite Epy in Hne. }
    rewrite Hb0 in *. split; [lia|]. intros j x Hj. split; [|lia]. intros Hp.
    destruct j as [|j]; [congruence|]. rewrite (Haf (S j) x) in Hp by (lia || done). done.
Qed.

End Search.
