(* ===== verification/Book.v ===== *)
(** * Book: queries over a decoded address book

    Models src/src/addrbook/book.rs: category resolution into selector masks
    (with its cache), and matching of IP literals and domains by binary search.
    Instantiates the interface [BookApi] of Policy.v. *)

From Stdlib Require Import ZArith Lia.
From stdpp Require Import prelude strings list gmap.
From S2P Require Import Prelude RustStr Net Search Domain Rab Policy.

Definition MAX_SELECTOR_CACHE_ENTRIES : Z := 20000.

(** [normalize_domain], [reverse_labels], [normalize_category] *)
Definition normalize_domain (s : str) : str := to_ascii_lowercase (trim_matches dot (trim s)).
Definition reverse_labels (domain : str) : str := join [dot] (rev (split dot domain)).
Definition normalize_category (s : str) : str := to_ascii_lowercase (trim_matches slash (trim s)).

(** [set_bit], [get_bit] on a [u64] bitmap *)
Definition set_bit (mask : list Z) (id : Z) : list Z :=
  let w := Z.to_nat (id / 64) in
  match mask !! w with
  | Some x => <[w := Z.lor x (Z.shiftl 1 (id mod 64))]> mask
  | None => mask
  end.
Definition get_bit (mask : list Z) (id : Z) : bool :=
  match mask !! Z.to_nat (id / 64) with
  | Some x => negb (Z.land x (Z.shiftl 1 (id mod 64)) =? 0)
  | None => false
  end.

(** [AddrBook]: the decoded payload, its name index and digest. *)
Record Book := mkBook { raw : RawBook; name_index : gmap str Z; checksum : list Z }.

(** [AddrBook::from_raw]: the name index is collected in table order. *)
Definition index_names (m : gmap str Z) (l : list (nat * Category)) : gmap str Z :=
  foldl (fun m '(i, c) => <[cat_name c := Z.of_nat i]> m) m l.
Definition from_raw (raw : RawBook) (checksum : list Z) : Book :=
  mkBook raw (index_names ∅ (enumerate (categories raw))) checksum.

(** [AddrBook::from_bytes] *)
Definition from_bytes `{Sha256} (bytes : list Z) : result rab_error Book :=
  raw ← decode bytes;
  Ok (from_raw raw (sha256 bytes)).

(** [names.sort(); names.dedup()] *)
Fixpoint insert_str (x : str) (l : list str) : list str :=
  match l with
  | [] => [x]
  | y :: l' => if str_ltb y x then y :: insert_str x l' else x :: l
  end.
Definition sort_strs (l : list str) : list str := foldr insert_str [] l.
Fixpoint dedup (l : list str) : list str :=
  match l with
  | x :: (y :: _) as l' => if str_eqb x y then dedup l' else x :: dedup l'
  | _ => l
  end.

Inductive resolve_error := EmptyPattern | UnknownCategory (name : str).

(** The pattern loop of [resolve]. *)
Definition pattern_name (pattern : str) : result resolve_error str :=
  let name := normalize_category pattern in
  ensure (negb (is_empty name)) EmptyPattern ;; Ok name.
Definition pattern_names (patterns : list str) : result resolve_error (list str) :=
  names ← try_map pattern_name patterns;
  Ok (dedup (sort_strs names)).

(** The bits one name selects: the category and its descendants. *)
Definition select_name (b : Book) (mask : list Z) (name : str) : result resolve_error (list Z) :=
  let '(mask, hit) := match name_index b !! name with
                      | Some id => (set_bit mask id, true)
                      | None => (mask, false)
                      end in
  let lo := name ++ [47] in
  let hi := name ++ [48] in
  let cats := categories (raw b) in
  let start := partition_point (fun c => str_ltb (cat_name c) lo) cats in
  let end_ := partition_point (fun c => str_ltb (cat_name c) hi) cats in
  let ids := seq start (end_ - start) in
  let mask := foldl (fun m id => set_bit m (Z.of_nat id)) mask ids in
  if hit || negb (is_empty ids) then Ok mask else Err (UnknownCategory name).

Definition empty_mask (b : Book) : list Z := repeat 0 (Z.to_nat (catset_words (raw b))).

(** [resolve] on sorted names, without the cache. *)
Definition resolve_names (b : Book) (names : list str) : result resolve_error (list Z) :=
  if is_empty names then Ok []
  else try_fold (select_name b) (empty_mask b) names.

Definition resolve (b : Book) (patterns : list str) : result resolve_error (list Z) :=
  names ← pattern_names patterns; resolve_names b names.

(** The selector cache: a live mask, or a dead weak pointer ([None]). *)
Abbreviation cache := (gmap (list str) (option (list Z))).
Definition upgrade (c : cache) (names : list str) : option (list Z) := mjoin (c !! names).

(** [AddrBook::resolve]; [c1] is the cache when first locked, [c2] when locked
    again to insert (other threads may have run in between). *)
Definition resolve_cached (b : Book) (c1 c2 : cache) (patterns : list str)
    : cache * result resolve_error (list Z) :=
  match pattern_names patterns with
  | Err e => (c1, Err e)
  | Ok names =>
      if is_empty names then (c1, Ok [])
      else
        match upgrade c1 names with
        | Some mask => (c1, Ok mask)
        | None =>
            match resolve_names b names with
            | Err e => (c1, Err e)
            | Ok mask =>
                match upgrade c2 names with
                | Some existing => (c2, Ok existing)
                | None =>
                    (if Z.of_nat (size c2) <? MAX_SELECTOR_CACHE_ENTRIES
                     then <[names := Some mask]> c2 else c2, Ok mask)
                end
            end
        end
  end.

(** [AddrBook::prune_selector_cache] *)
Definition prune_selector_cache (c : cache) : cache := filter (fun '(_, m) => is_Some m) c.

(** [lookup_range4], [lookup_range6] *)
Definition lookup_range (l : list range) (key : Z) : option Z :=
  let idx := partition_point (fun '(s, _, _) => s <=? key) l in
  match idx with
  | O => None
  | S i => match l !! i with
           | Some (_, end_, catset) => if key <=? end_ then Some catset else None
           | None => None
           end
  end.

(** The words of one category set. *)
Definition catset_slice (b : Book) (cs : Z) : list Z :=
  let w := Z.to_nat (catset_words (raw b)) in
  take w (drop (Z.to_nat cs * w) (catsets (raw b))).

(** [catset_intersects] *)
Definition catset_intersects (b : Book) (cs : Z) (sel : list Z) : bool :=
  if catset_words (raw b) =? 0 then false
  else existsb (fun '(a, m) => negb (Z.land a m =? 0)) (zip (catset_slice b cs) sel).

(** The category set an IP literal falls in, in either family. *)
Definition lookup_ip (b : Book) (ip : IpAddr) : option Z :=
  match ip with
  | V4 v4 => lookup_range (ip4 (raw b)) v4
  | V6 v6 => match to_ipv4_mapped v6 with
             | Some v4 => lookup_range (ip4 (raw b)) v4
             | None => lookup_range (ip6 (raw b)) v6
             end
  end.

(** [AddrBook::matches_ip] *)
Definition matches_ip (b : Book) (ip : IpAddr) (sel : list Z) : bool :=
  match lookup_ip b ip with Some cs => catset_intersects b cs sel | None => false end.

(** [binary_search_by(|e| e.text.cmp(key))] and the entry found. *)
Definition find_entry (l : list StrEntry) (key : str) : option Z :=
  match binary_search_by (fun e => str_cmp (text e) key) l with
  | inl i => catset <$> l !! i
  | inr _ => None
  end.

(** The ends of the label-boundary prefixes, [boundary] onwards. *)
Fixpoint position (c : Z) (s : str) : option nat :=
  match s with
  | [] => None
  | x :: s => if x =? c then Some 0%nat else S <$> position c s
  end.
Fixpoint prefix_ends (fuel : nat) (bytes : str) (boundary : nat) : list nat :=
  match fuel with
  | O => []
  | S fuel =>
      match position dot (drop boundary bytes) with
      | Some p => (boundary + p)%nat :: prefix_ends fuel bytes (boundary + p + 1)
      | None => [length bytes]
      end
  end.

(** The category sets a domain name falls in, in the order they are tried. *)
Definition suffix_catsets (b : Book) (name : str) : list Z :=
  let rev := reverse_labels name in
  omap (fun end_ => find_entry (domain_suffix (raw b)) (take end_ rev))
    (prefix_ends (S (length rev)) rev 0).
Definition keyword_catsets (b : Book) (name : str) : list Z :=
  omap (fun k => if contains (text k) name then Some (catset k) else None) (keywords (raw b)).

(** [AddrBook::matches_domain] *)
Definition matches_domain (b : Book) (host : str) (sel : list Z) : bool :=
  let name := normalize_domain host in
  if is_empty name then false
  else if match find_entry (domain_exact (raw b)) name with
          | Some cs => catset_intersects b cs sel
          | None => false
          end then true
  else if existsb (fun cs => catset_intersects b cs sel) (suffix_catsets b name) then true
  else existsb (fun cs => catset_intersects b cs sel) (keyword_catsets b name).

(** [AddrBook::matches] *)
Definition book_host_matches (b : Book) (host : str) (sel : list Z) : bool :=
  match parse_ip_addr host with
  | Some ip => matches_ip b ip sel
  | None => matches_domain b host sel
  end.

(** Every category set a host falls in. *)
Definition host_catsets (b : Book) (host : str) : list Z :=
  match parse_ip_addr host with
  | Some ip => option_list (lookup_ip b ip)
  | None =>
      let name := normalize_domain host in
      if is_empty name then []
      else option_list (find_entry (domain_exact (raw b)) name) ++ suffix_catsets b name ++ keyword_catsets b name
  end.

(** [acc[i] |= word] over the words of a set *)
Definition add_set (b : Book) (acc : list Z) (cs : Z) : list Z :=
  zip_with Z.lor acc (catset_slice b cs ++ repeat 0 (length acc - length (catset_slice b cs))).

(** [AddrBook::lookup_categories] *)
Definition lookup_categories (b : Book) (host : str) : list str :=
  let acc := repeat 0 (Z.to_nat (Z.max (catset_words (raw b)) 1)) in
  let acc := foldl (add_set b) acc (host_catsets b host) in
  omap (fun '(id, c) => if get_bit acc (Z.of_nat id) then Some (cat_name c) else None)
    (enumerate (categories (raw b))).

#[export] Instance Book_api : BookApi := {|
  AddrBook := Book;
  book_error := resolve_error;
  book_resolve := resolve;
  book_matches := book_host_matches
|}.
