(* ===== verification/BookProps.v ===== *)
(** * BookProps: the address book answers by category

    Refinement of the searches of Book.v to the declarative content of a
    validated book: which category sets a host falls in, which categories a
    selector holds, and that matching is their intersection. *)

From Stdlib Require Import ZArith Lia.
From stdpp Require Import prelude strings list gmap.
From S2P Require Import Prelude RustStr Net Search Domain Rab RabCodec RabValid Policy Book.

(** ** Declarative content *)

(** A category path lies at or below another. *)
Definition covers (name cat : str) : Prop := cat = name \/ exists r, cat = name ++ [slash] ++ r.

Definition in_ranges (l : list range) (key cs : Z) : Prop :=
  exists s e, (s, e, cs) ∈ l /\ s <= key <= e.

(** The category sets the tables assign to a host. *)
Definition host_set (r : RawBook) (host : str) (cs : Z) : Prop :=
  match parse_ip_addr host with
  | Some (V4 a) => in_ranges (ip4 r) a cs
  | Some (V6 a) => match to_ipv4_mapped a with
                   | Some v4 => in_ranges (ip4 r) v4 cs
                   | None => in_ranges (ip6 r) a cs
                   end
  | None =>
      let name := normalize_domain host in
      name <> [] /\
      ((exists e, e ∈ domain_exact r /\ text e = name /\ catset e = cs) \/
       (exists e, e ∈ domain_suffix r /\ under (reverse_labels (text e)) name /\ catset e = cs) \/
       (exists e, e ∈ keywords r /\ (exists a b, name = a ++ text e ++ b) /\ catset e = cs))
  end.

(** A host belongs to category [id]. *)
Definition host_in (b : Book) (host : str) (id : Z) : Prop :=
  exists cs, host_set (raw b) host cs /\ get_bit (catset_slice b cs) id = true.

(** ** Range tables *)

Lemma lookup_range_spec ns l key cs :
  ranges_ok ns l -> lookup_range l key = Some cs <-> in_ranges l key cs.
Proof.
  intros [Hinc Heach]. unfold lookup_range, in_ranges.
  set (pred := fun '(s, _, _) => s <=? key).
  destruct (partition_point_spec pred l) as [Hp Hpt].
  { intros i j [[s e] c] [[s' e'] c'] Hij Hx Hy. unfold pred. rewrite !Z.leb_le. intros Hs.
    destruct (decide (i = j)) as [->|Hne]; [simplify_eq; done|].
    pose proof (Hinc i j _ _ ltac:(lia) Hx Hy) as Hlt. cbn in Hlt.
    rewrite Forall_lookup in Heach. specialize (Heach _ _ Hx). cbn in Heach. lia. }
  set (p := partition_point pred l) in *. clearbody p.
  assert (Hlast : forall j s e c, l !! j = Some (s, e, c) -> s <= key <= e -> S j = p).
  { intros j s e c Hj [Hs He]. pose proof (proj1 (Hpt j _ Hj) (proj2 (Z.leb_le _ _) Hs)) as Hjp.
    destruct (decide (S j = p)) as [|Hne]; [done|exfalso].
    destruct (lookup_lt_is_Some_2 l (S j)) as [[[s' e'] c'] Hj']; [lia|].
    pose proof (Hinc j (S j) _ _ ltac:(lia) Hj Hj') as Hlt. cbn in Hlt.
    pose proof (proj2 (Hpt (S j) _ Hj') ltac:(lia)) as Hs'. cbn in Hs'. rewrite Z.leb_le in Hs'. lia. }
  split.
  - destruct p as [|i] eqn:Ep; [done|]. destruct (l !! i) as [[[s e] c]|] eqn:Ei; [|done].
    destruct (Z.leb_spec key e) as [Hke|]; [|done]. intros [= <-]. exists s, e.
    split; [by apply list_elem_of_lookup_2 in Ei|]. split; [|done].
    pose proof (proj2 (Hpt i _ Ei) ltac:(lia)) as Hs. cbn in Hs. by rewrite Z.leb_le in Hs.
  - intros (s & e & Hin & Hk). apply list_elem_of_lookup in Hin as [j Hj].
    rewrite <- (Hlast j s e cs Hj Hk). rewrite Hj. rewrite (proj2 (Z.leb_le _ _)) by lia. done.
Qed.

(** ** Sorted string tables *)

Lemma find_entry_spec ns l key cs :
  strings_ok ns l -> find_entry l key = Some cs <-> exists e, e ∈ l /\ text e = key /\ catset e = cs.
Proof.
  intros [Hinc _]. unfold find_entry.
  assert (Hlt : forall i j x y, (i < j)%nat -> l !! i = Some x -> l !! j = Some y -> str_lt (text x) (text y)).
  { intros i j x y Hij Hx Hy. apply (Hinc i j); [done|..]; rewrite list_lookup_fmap; by rewrite ?Hx, ?Hy. }
  set (f := fun e => str_cmp (text e) key).
  assert (Hg : gt_closed f l).
  { intros i j x y Hij Hx Hy. unfold f. destruct (decide (i = j)) as [->|]; [by simplify_eq|].
    rewrite !str_cmp_gt. intros Hk. apply (str_lt_trans _ (text x)); [done|].
    by apply (Hlt i j); [lia|..]. }
  assert (Hl : lt_closed f l).
  { intros i j x y Hij Hx Hy. unfold f. destruct (decide (i = j)) as [->|]; [by simplify_eq|].
    intros Hk. apply (str_lt_trans _ (text y)); [|done]. by apply (Hlt i j); [lia|..]. }
  destruct (binary_search_by f l) as [i|i] eqn:Eb.
  - apply binary_search_found in Eb as (x & Hx & Heq). unfold f in Heq. apply str_cmp_eq in Heq.
    rewrite Hx. cbn. split.
    + intros [= <-]. exists x. split; [by apply list_elem_of_lookup_2 in Hx|done].
    + intros (e & He & Ht & <-). f_equal. apply list_elem_of_lookup in He as [j Hj].
      destruct (decide (i = j)) as [->|Hne]; [congruence|exfalso].
      destruct (decide (i < j)%nat).
      * pose proof (Hlt i j x e ltac:(lia) Hx Hj) as H. rewrite Ht, Heq in H. by apply str_lt_irrefl in H.
      * pose proof (Hlt j i e x ltac:(lia) Hj Hx) as H. rewrite Ht, Heq in H. by apply str_lt_irrefl in H.
  - split; [done|]. intros (e & He & Ht & _). apply list_elem_of_lookup in He as [j Hj].
    destruct (binary_search_missing f l i Hg Hl Eb j e Hj). unfold f. rewrite Ht. apply str_cmp_refl.
Qed.

(** ** Label-boundary prefixes *)

Lemma position_Some c s p : position c s = Some p -> split c s = take p s :: split c (drop (S p) s).
Proof.
  revert p; induction s as [|x s IH]; intros p; cbn [position split]; [done|].
  destruct (x =? c); [by intros [= <-]|]. intros H.
  destruct (position c s) as [p'|] eqn:E; [|done]. injection H as <-.
  rewrite (IH p' eq_refl). done.
Qed.
Lemma position_None c s : position c s = None -> split c s = [s].
Proof.
  induction s as [|x s IH]; cbn [position split]; [done|]. destruct (x =? c); [done|].
  destruct (position c s); [done|]. intros _. by rewrite IH.
Qed.
Lemma position_lt c s p : position c s = Some p -> (p < length s)%nat.
Proof.
  revert p; induction s as [|x s IH]; intros p; cbn; [done|]. destruct (x =? c); [intros [= <-]; lia|].
  destruct (position c s) as [p'|]; [|done]. intros [= <-]. specialize (IH p' eq_refl). lia.
Qed.

Lemma position_lookup c s p : position c s = Some p -> s !! p = Some c.
Proof.
  revert p; induction s as [|x s IH]; intros p; cbn; [done|].
  destruct (Z.eqb_spec x c) as [->|]; [by intros [= <-]|].
  destruct (position c s) as [p'|]; [|done]. intros [= <-]. by apply IH.
Qed.
Lemma take_split {A} n m (l : list A) : take (n + m) l = take n l ++ take m (drop n l).
Proof. revert l; induction n as [|n IH]; intros [|x l]; cbn; rewrite ?IH, ?take_nil; done. Qed.

(** The candidates of the loop are the prefixes at label boundaries. *)
Lemma prefix_ends_spec fuel bytes boundary t :
  (length bytes < boundary + fuel)%nat -> (boundary <= length bytes)%nat ->
  t ∈ map (fun e => take e bytes) (prefix_ends fuel bytes boundary) <->
  exists k, (1 <= k <= length (split dot (drop boundary bytes)))%nat /\
    t = take boundary bytes ++ join [dot] (take k (split dot (drop boundary bytes))).
Proof.
  revert boundary; induction fuel as [|fuel IH]; intros bd Hf Hb; [lia|]. cbn [prefix_ends].
  destruct (position dot (drop bd bytes)) as [p|] eqn:Ep.
  - pose proof (position_lt _ _ _ Ep) as Hp. rewrite length_drop in Hp.
    pose proof (position_Some _ _ _ Ep) as Hs. rewrite drop_drop in Hs.
    cbn [map]. rewrite elem_of_cons, IH by lia. replace (bd + p + 1)%nat with (bd + S p)%nat by lia.
    rewrite Hs. set (ls := split dot (drop (bd + S p) bytes)) in *.
    assert (Hjoin : forall k, (1 <= k <= length ls)%nat ->
      take (bd + S p) bytes ++ join [dot] (take k ls) =
      take bd bytes ++ join [dot] (take (S k) (take p (drop bd bytes) :: ls))).
    { intros k Hk. cbn [take]. rewrite join_cons by (destruct ls, k; cbn in *; done || lia).
      rewrite take_split, (take_S_r _ p dot) by by apply position_lookup. by rewrite <- !app_assoc. }
    rewrite take_split. cbn [length]. split.
    + intros [->|(k & Hk & ->)]; [exists 1%nat; cbn; split; [lia|done]|].
      exists (S k). split; [lia|]. by apply Hjoin.
    + intros ([|[|k]] & Hk & ->); [lia|by left|]. right. exists (S k). split; [lia|].
      symmetry. apply Hjoin. lia.
  - rewrite (position_None _ _ Ep). cbn [map length]. rewrite list_elem_of_singleton, firstn_all. split.
    + intros ->. exists 1%nat. split; [lia|]. cbn. by rewrite take_drop.
    + intros ([|[|k]] & Hk & ->); [lia| |lia]. cbn. by rewrite take_drop.
Qed.

Lemma labels_reverse s : split dot (reverse_labels s) = rev (split dot s).
Proof.
  unfold reverse_labels. apply split_join.
  - intros H. apply (f_equal (@rev _)) in H. rewrite rev_involutive in H. by apply (split_nonempty dot s).
  - apply Forall_rev, split_labels.
Qed.
Lemma reverse_labels_involutive s : reverse_labels (reverse_labels s) = s.
Proof. unfold reverse_labels at 1. by rewrite labels_reverse, rev_involutive, join_split. Qed.

(** A stored (reversed) suffix is a candidate exactly when the name is under it. *)
Lemma candidate_under name t :
  t ∈ map (fun e => take e (reverse_labels name))
        (prefix_ends (S (length (reverse_labels name))) (reverse_labels name) 0) <->
  under (reverse_labels t) name.
Proof.
  rewrite prefix_ends_spec by lia. rewrite drop_0, take_0, labels_reverse, under_labels.
  unfold rlabels. rewrite labels_reverse, rev_involutive. split.
  - intros (k & Hk & ->). cbn [app]. rewrite split_join.
    + apply prefix_take.
    + destruct (rev (split dot name)), k; cbn in *; done || lia.
    + apply Forall_take, Forall_rev, split_labels.
  - intros [r Hr]. exists (length (split dot t)). rewrite Hr, length_app. split.
    + pose proof (split_nonempty dot t). destruct (split dot t); [done|cbn; lia].
    + rewrite take_app_len by done. by rewrite join_split.
Qed.

Lemma host_catsets_spec b host cs :
  book_valid (raw b) -> cs ∈ host_catsets b host <-> host_set (raw b) host cs.
Proof.
  intros Hv. unfold host_catsets, host_set.
  assert (Hopt : forall (o : option Z), cs ∈ option_list o <-> o = Some cs).
  { intros [x|]; cbn; rewrite ?list_elem_of_singleton, ?elem_of_nil; naive_solver. }
  destruct (parse_ip_addr host) as [[a|a]|]; cbn [lookup_ip]; rewrite ?Hopt.
  - apply (lookup_range_spec (n_sets (raw b))), Hv.
  - destruct (to_ipv4_mapped a) as [v4|]; apply (lookup_range_spec (n_sets (raw b))), Hv.
  - set (name := normalize_domain host). destruct name as [|c name0] eqn:En.
    { cbn. rewrite elem_of_nil. naive_solver. }
    rewrite <- En. assert (name <> []) by by rewrite En. cbn [is_empty]. clearbody name.
    rewrite En at 1. cbn [is_empty]. rewrite !elem_of_app, Hopt.
    rewrite (find_entry_spec (n_sets (raw b))) by apply Hv. unfold suffix_catsets, keyword_catsets.
    rewrite !list_elem_of_omap. split.
    + intros [He|[(t & Ht & Hf)|(k & Hk & Hc)]]; (split; [done|]); [by left| |].
      * right; left. apply (find_entry_spec (n_sets (raw b))) in Hf as (e & He & Et & Ec); [|apply Hv].
        exists e. split_and!; [done| |done]. apply candidate_under, list_elem_of_In, in_map_iff.
        exists t. split; [by rewrite Et|]. by apply list_elem_of_In.
      * right; right. exists k. destruct (contains (text k) name) eqn:Ek; [|done].
        injection Hc as <-. apply contains_spec in Ek. done.
    + intros [_ [He|[(e & He & Hu & Ec)|(e & He & Hc & Ec)]]]; [by left| |].
      * right; left. apply candidate_under, list_elem_of_In, in_map_iff in Hu as (t & Et & Ht%list_elem_of_In).
        exists t. split; [done|]. apply (find_entry_spec (n_sets (raw b))); [apply Hv|]. eauto.
      * right; right. exists e. split; [done|]. rewrite (proj2 (contains_spec _ _) Hc). by rewrite Ec.
Qed.

Lemma book_host_matches_sets b host sel :
  book_host_matches b host sel = existsb (fun cs => catset_intersects b cs sel) (host_catsets b host).
Proof.
  unfold book_host_matches, host_catsets. destruct (parse_ip_addr host) as [ip|].
  - unfold matches_ip. destruct (lookup_ip b ip); cbn; by rewrite ?orb_false_r.
  - unfold matches_domain. destruct (is_empty (normalize_domain host)); [done|].
    rewrite !existsb_app.
    generalize (existsb (fun cs => catset_intersects b cs sel) (suffix_catsets b (normalize_domain host))).
    intros bs. destruct (find_entry _ _) as [cs|]; cbn; rewrite ?orb_false_r.
    + by destruct (catset_intersects b cs sel), bs.
    + by destruct bs.
Qed.

(** ** Bitmaps *)

Lemma get_bit_testbit mask id :
  get_bit mask id = match mask !! Z.to_nat (id / 64) with Some x => Z.testbit x (id mod 64) | None => false end.
Proof.
  unfold get_bit. destruct (mask !! _) as [x|]; [|done].
  pose proof (Z.mod_pos_bound id 64 ltac:(lia)). rewrite Z.shiftl_1_l, land_pow2_testbit by lia.
  apply negb_involutive.
Qed.

Lemma get_bit_set_bit mask id id' :
  0 <= id -> 0 <= id' ->
  get_bit (set_bit mask id) id' = get_bit mask id' || ((id =? id') && (id / 64 <? Rab.len mask)).
Proof.
  intros Hi Hi'. unfold set_bit. rewrite !get_bit_testbit.
  assert (0 <= id / 64) by (apply Z.div_pos; lia). assert (0 <= id' / 64) by (apply Z.div_pos; lia).
  pose proof (Z.mod_pos_bound id 64 ltac:(lia)). pose proof (Z.mod_pos_bound id' 64 ltac:(lia)).
  pose proof (Z.div_mod id 64 ltac:(lia)). pose proof (Z.div_mod id' 64 ltac:(lia)).
  destruct (mask !! Z.to_nat (id / 64)) as [x|] eqn:Ex.
  - pose proof (lookup_lt_Some _ _ _ Ex). rewrite (proj2 (Z.ltb_lt _ _)) by (unfold Rab.len; lia).
    rewrite andb_true_r. destruct (decide (Z.to_nat (id / 64) = Z.to_nat (id' / 64))) as [Heq|Hne].
    + rewrite <- Heq, list_lookup_insert_eq, Ex by done.
      rewrite Z.shiftl_1_l, Z.lor_spec, testbit_pow2 by lia. f_equal.
      destruct (Z.eqb_spec (id mod 64) (id' mod 64)), (Z.eqb_spec id id'); lia.
    + rewrite list_lookup_insert_ne by done. destruct (Z.eqb_spec id id'); [subst; lia|by rewrite orb_false_r].
  - apply lookup_ge_None in Ex. destruct (Z.ltb_spec (id / 64) (Rab.len mask)); [unfold Rab.len in *; lia|].
    by rewrite andb_false_r, orb_false_r.
Qed.

Lemma length_set_bit mask id : length (set_bit mask id) = length mask.
Proof. unfold set_bit. destruct (mask !! _); [apply length_insert|done]. Qed.

Lemma set_bit_nonneg mask id : Forall (fun x => 0 <= x) mask -> Forall (fun x => 0 <= x) (set_bit mask id).
Proof.
  intros Hm. unfold set_bit. destruct (mask !! _) as [x|] eqn:Ex; [|done]. apply Forall_insert; [done|].
  apply Z.lor_nonneg. split; [by apply (Forall_lookup_1 _ _ _ _ Hm Ex)|]. rewrite Z.shiftl_1_l. lia.
Qed.

Lemma get_bit_zeros n id : get_bit (repeat 0 n) id = false.
Proof.
  rewrite get_bit_testbit. destruct (repeat 0 n !! _) as [x|] eqn:E; [|done].
  apply list_elem_of_lookup_2, list_elem_of_In, repeat_spec in E. subst x. apply Z.bits_0.
Qed.

(** Two bitmaps share a word with a common bit iff they share a bit. *)
Lemma zip_intersects a m :
  Forall (fits 64) a -> Forall (fun x => 0 <= x) m ->
  existsb (fun '(x, y) => negb (Z.land x y =? 0)) (zip a m) = true <->
  exists id, 0 <= id /\ get_bit a id = true /\ get_bit m id = true.
Proof.
  intros Ha Hm. rewrite existsb_exists. setoid_rewrite get_bit_testbit. split.
  - intros ([x y] & Hin%list_elem_of_In & Hne). apply list_elem_of_lookup in Hin as [w Hw].
    apply lookup_zip_with_Some in Hw as (x' & y' & [= <- <-] & Hx & Hy).
    apply negb_true_iff, Z.eqb_neq in Hne.
    apply (land_nonzero 64) in Hne as (i & Hi & Hbx & Hby); [|lia| |].
    2: { by apply (Forall_lookup_1 _ _ _ _ Ha Hx). }
    2: { by apply (Forall_lookup_1 _ _ _ _ Hm Hy). }
    exists (64 * Z.of_nat w + i).
    replace ((64 * Z.of_nat w + i) / 64) with (Z.of_nat w) by (apply (Z.div_unique _ _ _ i); lia).
    replace ((64 * Z.of_nat w + i) mod 64) with i by (apply (Z.mod_unique _ _ (Z.of_nat w)); lia).
    rewrite Nat2Z.id, Hx, Hy. split; [lia|done].
  - intros (id & Hid & Hba & Hbm). set (w := Z.to_nat (id / 64)) in *.
    destruct (a !! w) as [x|] eqn:Ex; [|done]. destruct (m !! w) as [y|] eqn:Ey; [|done].
    exists (x, y). split.
    + apply list_elem_of_In, (list_elem_of_lookup_2 _ w). apply lookup_zip_with_Some. eauto.
    + apply negb_true_iff, Z.eqb_neq. apply (land_nonzero 64); [lia| | |].
      * by apply (Forall_lookup_1 _ _ _ _ Ha Ex).
      * by apply (Forall_lookup_1 _ _ _ _ Hm Ey).
      * exists (id mod 64). pose proof (Z.mod_pos_bound id 64 ltac:(lia)). done.
Qed.

Lemma catset_intersects_spec b cs sel :
  Forall (fits 64) (catsets (raw b)) -> Forall (fun x => 0 <= x) sel -> 0 <= catset_words (raw b) ->
  catset_intersects b cs sel = true <->
  exists id, 0 <= id /\ get_bit (catset_slice b cs) id = true /\ get_bit sel id = true.
Proof.
  intros Hc Hs Hw. unfold catset_intersects. destruct (Z.eqb_spec (catset_words (raw b)) 0) as [H0|H0].
  - split; [done|]. intros (id & _ & Hb & _). unfold catset_slice in Hb. rewrite H0 in Hb. cbn in Hb.
    rewrite get_bit_testbit in Hb. by rewrite take_0, lookup_nil in Hb.
  - apply zip_intersects; [|done]. unfold catset_slice. by apply Forall_take, Forall_drop.
Qed.

(** ** Category names *)

(** ['/'] is followed by ['0'] in byte order, so the names from [name/] to
    [name0] are the descendants of [name]. *)
Lemma between_slash name n :
  (~ str_lt n (name ++ [47]) /\ str_lt n (name ++ [48])) <-> exists r, n = name ++ [slash] ++ r.
Proof.
  unfold str_lt, slash. revert n; induction name as [|x name IH]; intros [|y n]; cbn [app str_cmp].
  - split; [naive_solver|]. intros [r [=]].
  - destruct (Z.compare_spec y 47) as [->|Hlt|Hgt].
    + split; [intros _; by exists n|]. intros _. split; [by destruct n|]. done.
    + split; [intros [Hn _]; by destruct Hn|]. intros [r [= -> _]]. lia.
    + destruct (Z.compare_spec y 48) as [->|Hlt|Hgt']; [|lia|].
      * split; [intros [_ Hn]; by destruct n|]. intros [r [=]].
      * split; [by intros [_ Hn]|]. intros [r [= -> _]]. lia.
  - split; [naive_solver|]. intros [r [=]].
  - destruct (Z.compare_spec y x) as [->|Hlt|Hgt].
    + rewrite IH. split; [intros [r ->]; by exists r|intros [r [= ->]]; by exists r].
    + split; [intros [Hn _]; by destruct Hn|]. intros [r [= -> _]]. lia.
    + split; [by intros [_ Hn]|]. intros [r [= -> _]]. lia.
Qed.

Lemma index_fold l m name id :
  index_names m l !! name = Some id ->
  (exists i c, (i, c) ∈ l /\ cat_name c = name /\ id = Z.of_nat i) \/ m !! name = Some id.
Proof.
  revert m; induction l as [|[i c] l IH]; intros m; cbn; [by right|]. intros H. apply IH in H as [H|H].
  - left. destruct H as (i' & c' & Hin & H). exists i', c'. rewrite elem_of_cons. auto.
  - apply lookup_insert_Some in H as [[<- <-]|[_ H]]; [|by right].
    left. exists i, c. rewrite elem_of_cons. auto.
Qed.
Lemma index_fold_has l m i (c : Category) :
  (i, c) ∈ l -> is_Some (index_names m l !! cat_name c).
Proof.
  assert (Hkeep : forall l (m : gmap str Z) k, is_Some (m !! k) ->
    is_Some (index_names m l !! k)).
  { clear. induction l as [|[i c] l IH]; intros m k Hk; cbn; [done|]. apply IH.
    destruct (decide (cat_name c = k)) as [<-|]; [by rewrite lookup_insert_eq|by rewrite lookup_insert_ne]. }
  revert m; induction l as [|[i' c'] l IH]; intros m; [by intros ?%not_elem_of_nil|]. cbn.
  rewrite elem_of_cons. intros [[= <- <-]|H]; [|by apply IH]. apply Hkeep. by rewrite lookup_insert_eq.
Qed.

Lemma name_index_spec r sum name id :
  book_valid r ->
  name_index (from_raw r sum) !! name = Some id <->
  exists c, 0 <= id /\ categories r !! Z.to_nat id = Some c /\ cat_name c = name.
Proof.
  intros Hv. cbn [name_index from_raw].
  assert (Hen : forall i c, (i, c) ∈ enumerate (categories r) <-> categories r !! i = Some c).
  { intros i c. rewrite elem_of_enumerate_from, Nat.sub_0_r. naive_solver lia. }
  assert (Hf : forall id, index_names ∅ (enumerate (categories r)) !! name
             = Some id -> exists c, 0 <= id /\ categories r !! Z.to_nat id = Some c /\ cat_name c = name).
  { intros id' H. apply index_fold in H as [(i & c & Hin & Hn & ->)|H]; [|by rewrite lookup_empty in H].
    exists c. rewrite Nat2Z.id. apply Hen in Hin. split_and!; [lia|done|done]. }
  split; [apply Hf|]. intros (c & Hid & Hc & Hn).
  destruct (index_fold_has (enumerate (categories r)) ∅ (Z.to_nat id) c) as [id' Hid']; [by apply Hen|].
  rewrite Hn in Hid'. rewrite Hid'. f_equal. apply Hf in Hid' as (c' & Hpos & Hc' & Hn').
  pose proof (bv_names r Hv) as Hinc.
  assert (Hlt : forall i j, (i < j)%nat -> categories r !! i = Some c -> categories r !! j = Some c' -> False).
  { intros i j Hij Hi Hj. apply (str_lt_irrefl name). rewrite <- Hn at 1. rewrite <- Hn'.
    apply (Hinc i j); [done|..]; rewrite list_lookup_fmap; by rewrite ?Hi, ?Hj. }
  assert (Hlt' : forall i j, (i < j)%nat -> categories r !! i = Some c' -> categories r !! j = Some c -> False).
  { intros i j Hij Hi Hj. apply (str_lt_irrefl name). rewrite <- Hn' at 1. rewrite <- Hn.
    apply (Hinc i j); [done|..]; rewrite list_lookup_fmap; by rewrite ?Hi, ?Hj. }
  destruct (Nat.lt_trichotomy (Z.to_nat id) (Z.to_nat id')) as [H|[H|H]]; [by destruct (Hlt _ _ H)|lia|].
  by destruct (Hlt' _ _ H).
Qed.

(** The categories a name selects. *)
Definition selects (r : RawBook) (name : str) (id : Z) : Prop :=
  exists c, categories r !! Z.to_nat id = Some c /\ covers name (cat_name c).

Lemma descendant_range r name i c :
  book_valid r -> categories r !! i = Some c ->
  let start := partition_point (fun c => str_ltb (cat_name c) (name ++ [47])) (categories r) in
  let end_ := partition_point (fun c => str_ltb (cat_name c) (name ++ [48])) (categories r) in
  i ∈ seq start (end_ - start) <-> exists x, cat_name c = name ++ [slash] ++ x.
Proof.
  intros Hv Hc start end_.
  assert (Hmono : forall bound i j x y, (i <= j)%nat -> categories r !! i = Some x -> categories r !! j = Some y ->
            str_ltb (cat_name y) bound = true -> str_ltb (cat_name x) bound = true).
  { intros bound i' j x y Hij Hx Hy. rewrite !str_ltb_lt. intros Hlt.
    destruct (decide (i' = j)) as [->|]; [by simplify_eq|]. apply (str_lt_trans _ (cat_name y)); [|done].
    apply (bv_names r Hv i' j); [lia|..]; rewrite list_lookup_fmap; by rewrite ?Hx, ?Hy. }
  destruct (partition_point_spec _ (categories r) (Hmono (name ++ [47]))) as [_ Hs].
  destruct (partition_point_spec _ (categories r) (Hmono (name ++ [48]))) as [_ He].
  specialize (Hs i c Hc). specialize (He i c Hc). fold start in Hs. fold end_ in He.
  rewrite str_ltb_lt in Hs, He. rewrite <- between_slash, Hs, He, elem_of_seq. lia.
Qed.

Lemma fold_set_bits ids mask id :
  0 <= id ->
  get_bit (foldl (fun m id => set_bit m (Z.of_nat id)) mask ids) id = true <->
  get_bit mask id = true \/ (Z.to_nat id ∈ ids /\ id / 64 < Rab.len mask).
Proof.
  intros Hid. revert mask; induction ids as [|i ids IH]; intros mask; cbn [foldl].
  { rewrite elem_of_nil. naive_solver. }
  rewrite IH, get_bit_set_bit, orb_true_iff, andb_true_iff, Z.eqb_eq, Z.ltb_lt by lia.
  unfold Rab.len. rewrite length_set_bit, elem_of_cons. split.
  - intros [[?|[<- ?]]|[? ?]]; [by left| |by right; auto]. right. split; [left; lia|done].
  - intros [?|[[?|?] ?]]; [by left; left| |by right; split]. left. right.
    assert (Z.of_nat i = id) as -> by lia. done.
Qed.

Lemma fold_set_bits_shape ids mask :
  Forall (fun x => 0 <= x) mask ->
  length (foldl (fun m id => set_bit m (Z.of_nat id)) mask ids) = length mask /\
  Forall (fun x => 0 <= x) (foldl (fun m id => set_bit m (Z.of_nat id)) mask ids).
Proof.
  revert mask; induction ids as [|i ids IH]; intros mask Hm; cbn [foldl]; [done|].
  destruct (IH (set_bit mask (Z.of_nat i))) as [Hl Hf]; [by apply set_bit_nonneg|].
  by rewrite length_set_bit in Hl.
Qed.

(** A mask has a word for every category. *)
Definition mask_ok (r : RawBook) (mask : list Z) : Prop :=
  length mask = Z.to_nat (catset_words r) /\ Forall (fun x => 0 <= x) mask.

Lemma id_in_mask r mask i c :
  book_valid r -> mask_ok r mask -> categories r !! i = Some c -> Z.of_nat i / 64 < Rab.len mask.
Proof.
  intros Hv [Hl _] Hc. apply lookup_lt_Some in Hc. unfold Rab.len. rewrite Hl, (bv_words r Hv).
  unfold div_ceil, Rab.len. rewrite Z2Nat.id by (apply Z.div_pos; lia).
  apply Z.div_lt_upper_bound; [lia|].
  pose proof (Z.div_mod (Z.of_nat (length (categories r)) + 64 - 1) 64 ltac:(lia)).
  pose proof (Z.mod_pos_bound (Z.of_nat (length (categories r)) + 64 - 1) 64 ltac:(lia)). lia.
Qed.

(** The exact-name arm of [select_name]. *)
Lemma select_exact r sum mask name :
  book_valid r -> mask_ok r mask ->
  let '(mask0, hit) := match name_index (from_raw r sum) !! name with
                       | Some id => (set_bit mask id, true)
                       | None => (mask, false)
                       end in
  mask_ok r mask0 /\
  (hit = true -> exists id c, 0 <= id /\ categories r !! Z.to_nat id = Some c /\ cat_name c = name) /\
  forall id, 0 <= id -> get_bit mask0 id = true <->
    get_bit mask id = true \/ exists c, categories r !! Z.to_nat id = Some c /\ cat_name c = name.
Proof.
  intros Hv Hm. pose proof (fun id => name_index_spec r sum name id Hv) as Hix.
  destruct (name_index (from_raw r sum) !! name) as [nid|].
  - destruct (proj1 (Hix nid) eq_refl) as (c & Hnid & Hc & Hn).
    split; [split; [rewrite length_set_bit; apply Hm|apply set_bit_nonneg, Hm]|].
    split; [intros _; by exists nid, c|]. intros id Hid.
    rewrite get_bit_set_bit, orb_true_iff, andb_true_iff, Z.eqb_eq, Z.ltb_lt by done. split.
    + intros [?|[<- _]]; eauto.
    + intros [?|(c' & Hc' & Hn')]; [by left|]. right.
      assert (nid = id) as <- by (assert (Some nid = Some id) by (apply Hix; eauto); congruence).
      split; [done|]. pose proof (id_in_mask r mask _ c Hv Hm Hc) as H. by rewrite Z2Nat.id in H.
  - split; [done|]. split; [done|]. intros id Hid. split; [by left|].
    intros [?|(c & Hc & Hn)]; [done|]. assert (None = Some id) by (apply Hix; eauto). done.
Qed.

Lemma select_name_Ok r sum mask name mask' :
  book_valid r -> mask_ok r mask -> select_name (from_raw r sum) mask name = Ok mask' ->
  mask_ok r mask' /\ (exists id, 0 <= id /\ selects r name id) /\
  forall id, 0 <= id -> get_bit mask' id = true <-> get_bit mask id = true \/ selects r name id.
Proof.
  intros Hv Hm. unfold select_name. cbn [raw from_raw]. fold (from_raw r sum).
  set (ids := seq _ _).
  assert (Hids : forall i c, categories r !! i = Some c -> i ∈ ids <-> exists x, cat_name c = name ++ [slash] ++ x).
  { intros i c Hc. by apply (descendant_range r name i c Hv Hc). }
  assert (Hidc : forall i, i ∈ ids -> is_Some (categories r !! i)).
  { intros i Hi. apply lookup_lt_is_Some. apply elem_of_seq in Hi.
    enough (partition_point (fun c => str_ltb (cat_name c) (name ++ [48%Z])) (categories r) <= length (categories r))%nat by lia.
    apply partition_point_spec. intros i' j x y Hij Hx Hy. rewrite !str_ltb_lt. intros Hlt.
    destruct (decide (i' = j)) as [->|]; [by simplify_eq|]. apply (str_lt_trans _ (cat_name y)); [|done].
    apply (bv_names r Hv i' j); [lia|..]; rewrite list_lookup_fmap; by rewrite ?Hx, ?Hy. }
  clearbody ids. pose proof (select_exact r sum mask name Hv Hm) as Hex.
  destruct (match name_index (from_raw r sum) !! name with Some id => _ | None => _ end) as [mask0 hit].
  destruct Hex as (Hm0 & Hhit & Hbits).
  destruct (hit || negb (is_empty ids)) eqn:Eh; [|done]. intros [= <-].
  pose proof (fold_set_bits_shape ids mask0 (proj2 Hm0)) as [Hl Hf].
  split; [split; [rewrite Hl; apply Hm0|done]|]. split.
  - destruct hit; [destruct (Hhit eq_refl) as (id & c & Hid & Hc & Hn); exists id; split; [done|]; exists c; by split; [|left]|].
    destruct ids as [|i ids]; [done|]. exists (Z.of_nat i). split; [lia|].
    destruct (Hidc i) as [c Hc]; [by left|]. exists c. rewrite Nat2Z.id. split; [done|]. right.
    apply (Hids i c Hc). by left.
  - intros id Hid. rewrite fold_set_bits, Hbits by done. unfold selects, covers. split.
    + intros [[?|(c & Hc & Hn)]|[Hin _]]; [by left|right; exists c; auto|].
      destruct (Hidc _ Hin) as [c Hc]. right. exists c. split; [done|]. right. by apply (Hids _ c Hc).
    + intros [?|(c & Hc & [Hn|Hx])]; [by left; left|left; right; eauto|].
      right. split; [by apply (Hids _ c Hc)|].
      pose proof (id_in_mask r mask0 _ c Hv Hm0 Hc) as H. by rewrite Z2Nat.id in H.
Qed.

(** ** Resolution *)

Lemma elem_of_insert_str x y l : x ∈ insert_str y l <-> x = y \/ x ∈ l.
Proof.
  induction l as [|z l IH]; cbn; [by rewrite list_elem_of_singleton, elem_of_nil; naive_solver|].
  destruct (str_ltb z y); rewrite !elem_of_cons, ?IH; naive_solver.
Qed.
Lemma elem_of_sort_strs x l : x ∈ sort_strs l <-> x ∈ l.
Proof.
  unfold sort_strs. induction l as [|y l IH]; cbn; [done|]. by rewrite elem_of_insert_str, IH, elem_of_cons.
Qed.
Lemma elem_of_dedup x l : x ∈ dedup l <-> x ∈ l.
Proof.
  induction l as [|y [|z l] IH]; [done..|]. cbn [dedup].
  destruct (str_eqb y z) eqn:E; [|by rewrite !(elem_of_cons _ _ y), IH].
  apply str_eqb_eq in E as ->. rewrite IH, !elem_of_cons. naive_solver.
Qed.

Lemma pattern_names_Ok patterns names :
  pattern_names patterns = Ok names ->
  (forall n, n ∈ names <-> exists p, p ∈ patterns /\ n = normalize_category p) /\
  Forall (fun p => normalize_category p <> []) patterns.
Proof.
  unfold pattern_names. intros H. res_inv. apply try_map_Forall2 in Hv.
  assert (Hp : forall p n, pattern_name p = Ok n -> n = normalize_category p /\ n <> []).
  { intros p n H. unfold pattern_name in H. res_inv. bools. split; [done|]. by destruct (normalize_category p). }
  split.
  - intros n. rewrite elem_of_dedup, elem_of_sort_strs. split.
    + intros Hn. apply list_elem_of_lookup in Hn as [i Hi].
      destruct (Forall2_lookup_r _ _ _ _ _ Hv Hi) as (p & Hpi & Hok). apply Hp in Hok as [-> _].
      exists p. split; [by apply list_elem_of_lookup_2 in Hpi|done].
    + intros (p & Hin & ->). apply list_elem_of_lookup in Hin as [i Hi].
      destruct (Forall2_lookup_l _ _ _ _ _ Hv Hi) as (n & Hn & Hok). apply Hp in Hok as [<- _].
      by apply list_elem_of_lookup_2 in Hn.
  - apply Forall_lookup. intros i p Hi. destruct (Forall2_lookup_l _ _ _ _ _ Hv Hi) as (n & _ & Hok).
    apply Hp in Hok as [<- Hne]. done.
Qed.

Lemma resolve_fold_Ok r sum names mask mask' :
  book_valid r -> mask_ok r mask -> try_fold (select_name (from_raw r sum)) mask names = Ok mask' ->
  mask_ok r mask' /\ Forall (fun n => exists id, 0 <= id /\ selects r n id) names /\
  forall id, 0 <= id -> get_bit mask' id = true <-> get_bit mask id = true \/ exists n, n ∈ names /\ selects r n id.
Proof.
  intros Hv. revert mask; induction names as [|n names IH]; intros mask Hm; cbn.
  - intros [= <-]. split_and!; [done|constructor|]. setoid_rewrite elem_of_nil. naive_solver.
  - intros H. apply bind_Ok in H as (m1 & H1 & H). destruct (select_name_Ok r sum _ _ _ Hv Hm H1) as (Hm1 & Hsel & Hb1).
    destruct (IH m1 Hm1 H) as (Hm' & Hf & Hb). split_and!; [done|by constructor|].
    intros id Hid. rewrite Hb, Hb1 by done. setoid_rewrite elem_of_cons. naive_solver.
Qed.

(** What a resolved selector holds: the categories at or below one of the
    patterns. *)
Lemma resolve_Ok r sum patterns mask :
  book_valid r -> resolve (from_raw r sum) patterns = Ok mask ->
  Forall (fun x => 0 <= x) mask /\
  Forall (fun p => normalize_category p <> [] /\ exists id, 0 <= id /\ selects r (normalize_category p) id) patterns /\
  forall id, 0 <= id -> get_bit mask id = true <-> exists p, p ∈ patterns /\ selects r (normalize_category p) id.
Proof.
  intros Hv. unfold resolve. intros H. apply bind_Ok in H as (names & Hn & H).
  destruct (pattern_names_Ok _ _ Hn) as [Hmem Hne]. unfold resolve_names in H.
  destruct names as [|n names]; cbn [is_empty] in H.
  - apply Ok_inj in H as <-. assert (patterns = []) as ->.
    { destruct patterns as [|p ps]; [done|]. assert (normalize_category p ∈ []) as Hin
        by (apply Hmem; exists p; split; [by left|done]). by apply not_elem_of_nil in Hin. }
    split_and!; [constructor|constructor|]. intros id _. split; [done|].
    intros (p & Hp & _). by apply not_elem_of_nil in Hp.
  - set (ns := n :: names) in *. clearbody ns.
    assert (Hm0 : mask_ok r (empty_mask (from_raw r sum))).
    { split; [apply repeat_length|]. apply Forall_forall. intros x Hx%list_elem_of_In%repeat_spec. lia. }
    destruct (resolve_fold_Ok _ _ _ _ _ Hv Hm0 H) as (Hm & Hsel & Hb). split_and!; [apply Hm| |].
    + rewrite Forall_forall in Hsel, Hne |- *. intros p Hp. split; [by apply Hne|].
      apply Hsel, Hmem. eauto.
    + intros id Hid. rewrite Hb by done. unfold empty_mask. rewrite get_bit_zeros. setoid_rewrite Hmem. naive_solver.
Qed.

(** ** Accumulating sets *)

Lemma get_bit_app_zeros l n id : get_bit (l ++ repeat 0 n) id = get_bit l id.
Proof.
  rewrite !get_bit_testbit. set (w := Z.to_nat (id / 64)).
  destruct (l !! w) as [x|] eqn:E; [by rewrite (lookup_app_l_Some _ _ _ _ E)|].
  apply lookup_ge_None in E. rewrite lookup_app_r by done.
  destruct (repeat 0 n !! _) as [y|] eqn:Ey; [|done].
  apply list_elem_of_lookup_2, list_elem_of_In, repeat_spec in Ey. subst y. apply Z.bits_0.
Qed.

Lemma add_set_spec b acc cs id :
  (length (catset_slice b cs) <= length acc)%nat ->
  length (add_set b acc cs) = length acc /\
  get_bit (add_set b acc cs) id = get_bit acc id || get_bit (catset_slice b cs) id.
Proof.
  intros Hle. unfold add_set. set (pad := catset_slice b cs ++ _).
  assert (Hpad : length pad = length acc) by (subst pad; rewrite length_app, repeat_length; lia).
  split; [rewrite length_zip_with; lia|].
  rewrite <- (get_bit_app_zeros (catset_slice b cs) (length acc - length (catset_slice b cs))). fold pad.
  clearbody pad. rewrite !get_bit_testbit. set (w := Z.to_nat (id / 64)).
  rewrite lookup_zip_with. destruct (acc !! w) as [x|] eqn:Ex, (pad !! w) as [y|] eqn:Ey; cbn; try done.
  - apply Z.lor_spec.
  - apply lookup_lt_Some in Ex. apply lookup_ge_None in Ey. lia.
  - apply lookup_lt_Some in Ey. apply lookup_ge_None in Ex. lia.
Qed.

Lemma fold_add_set b css acc id :
  (Z.to_nat (catset_words (raw b)) <= length acc)%nat ->
  get_bit (foldl (add_set b) acc css) id = true <->
  get_bit acc id = true \/ exists cs, cs ∈ css /\ get_bit (catset_slice b cs) id = true.
Proof.
  revert acc; induction css as [|cs css IH]; intros acc Hle; cbn [foldl].
  { setoid_rewrite elem_of_nil. naive_solver. }
  destruct (add_set_spec b acc cs id) as [Hl Hb].
  { unfold catset_slice. rewrite length_take. lia. }
  rewrite IH by lia. rewrite Hb, orb_true_iff. setoid_rewrite elem_of_cons. naive_solver.
Qed.

(** ** Properties *)

(** Matching a host against a resolved selector is exactly membership in a
    selected category: [matches] answers true if and only if the book's tables
    place the host (IP ranges of the right family, IPv4-mapped addresses in the
    IPv4 table; exact, label-boundary suffix and keyword entries for names) in a
    category at or below one of the patterns. Binary searches, reversed-label
    prefixes and word-wise bitmap intersection implement that relation. *)
Theorem book_matches_by_category r sum patterns mask host
    (Hval : validate r = Ok tt) (Hsets : Forall (fits 64) (catsets r))
    (Hres : resolve (from_raw r sum) patterns = Ok mask) :
  book_host_matches (from_raw r sum) host mask = true <->
  exists id p, 0 <= id /\ p ∈ patterns /\ selects r (normalize_category p) id /\
    host_in (from_raw r sum) host id.
Proof.
  pose proof (validate_valid r Hval) as Hv. destruct (resolve_Ok r sum _ _ Hv Hres) as (Hpos & _ & Hb).
  rewrite book_host_matches_sets, existsb_exists.
  assert (Hw : 0 <= catset_words r).
  { rewrite (bv_words r Hv). unfold div_ceil, Rab.len. apply Z.div_pos; lia. }
  setoid_rewrite <- list_elem_of_In. setoid_rewrite host_catsets_spec; [|done].
  setoid_rewrite catset_intersects_spec; [|done..]. unfold host_in. split.
  - intros (cs & Hcs & id & Hid & Hc & Hm). apply Hb in Hm as (p & Hp & Hs); [|done].
    exists id, p. split_and!; [done..|]. exists cs. done.
  - intros (id & p & Hid & Hp & Hs & cs & Hcs & Hc). exists cs. split; [done|].
    exists id. split_and!; [done..|]. apply Hb; eauto.
Qed.

(** Live cache entries hold what resolution would compute. *)
Definition cache_ok (b : Book) (c : cache) : Prop :=
  forall names mask, c !! names = Some (Some mask) -> resolve_names b names = Ok mask.

(** The selector cache is invisible. Whatever mix of live, dead and pruned
    entries the two locked sections see, [resolve] returns exactly the uncached
    result, never evaluates to another book's or pattern's mask, leaves the
    cache consistent and within its bound; and it fails closed, succeeding only
    if every pattern is non-empty and names at least one known category. *)
Theorem resolve_cache_transparent r sum c1 c2 patterns
    (Hval : validate r = Ok tt)
    (H1 : cache_ok (from_raw r sum) c1) (H2 : cache_ok (from_raw r sum) c2)
    (Hs1 : Z.of_nat (size c1) <= MAX_SELECTOR_CACHE_ENTRIES)
    (Hs2 : Z.of_nat (size c2) <= MAX_SELECTOR_CACHE_ENTRIES) :
  let '(c, out) := resolve_cached (from_raw r sum) c1 c2 patterns in
  out = resolve (from_raw r sum) patterns /\
  cache_ok (from_raw r sum) c /\ Z.of_nat (size c) <= MAX_SELECTOR_CACHE_ENTRIES /\
  cache_ok (from_raw r sum) (prune_selector_cache c) /\
  (is_ok out = true ->
     Forall (fun p => normalize_category p <> [] /\ exists id, 0 <= id /\ selects r (normalize_category p) id) patterns).
Proof.
  assert (Hprune : forall c, cache_ok (from_raw r sum) c -> cache_ok (from_raw r sum) (prune_selector_cache c)).
  { intros c Hc names mask Hl. apply map_lookup_filter_Some in Hl as [Hl _]. by apply Hc. }
  assert (Hsound : is_ok (resolve (from_raw r sum) patterns) = true -> Forall (fun p => normalize_category p <> [] /\
             exists id, 0 <= id /\ selects r (normalize_category p) id) patterns).
  { destruct (resolve (from_raw r sum) patterns) eqn:E; [|done]. intros _.
    by destruct (resolve_Ok r sum _ _ (validate_valid r Hval) E) as (_ & Hf & _). }
  assert (Hup : forall c names mask, cache_ok (from_raw r sum) c -> upgrade c names = Some mask ->
             resolve_names (from_raw r sum) names = Ok mask).
  { intros c names mask Hc. unfold upgrade. destruct (c !! names) as [[m|]|] eqn:E; try done.
    intros [= <-]. by apply Hc. }
  unfold resolve_cached. unfold resolve in *. destruct (pattern_names patterns) as [names|e] eqn:En; cbn in *.
  2: { split_and!; auto. }
  destruct (is_empty names) eqn:Ee.
  { destruct names; [|done]. split_and!; auto. }
  destruct (upgrade c1 names) as [m|] eqn:Eu1.
  { pose proof (Hup _ _ _ H1 Eu1) as Hm. rewrite Hm in *. split_and!; auto. }
  destruct (resolve_names (from_raw r sum) names) as [m|e] eqn:Er; [|split_and!; auto].
  destruct (upgrade c2 names) as [m'|] eqn:Eu2.
  { pose proof (Hup _ _ _ H2 Eu2) as Hm. split_and!; auto; congruence. }
  destruct (Z.ltb_spec (Z.of_nat (size c2)) MAX_SELECTOR_CACHE_ENTRIES); [|split_and!; auto].
  assert (Hc : cache_ok (from_raw r sum) (<[names := Some m]> c2)).
  { intros n' m' Hl. apply lookup_insert_Some in Hl as [[<- [= <-]]|[_ Hl]]; [done|by apply H2]. }
  split_and!; auto.
  rewrite map_size_insert. destruct (c2 !! names); cbn; lia.
Qed.

(** The lookup tool lists exactly the categories a host belongs to. *)
Theorem lookup_categories_complete r sum host name (Hval : validate r = Ok tt) :
  name ∈ lookup_categories (from_raw r sum) host <->
  exists i c, categories r !! i = Some c /\ cat_name c = name /\ host_in (from_raw r sum) host (Z.of_nat i).
Proof.
  pose proof (validate_valid r Hval) as Hv. unfold lookup_categories. rewrite list_elem_of_omap.
  set (acc := foldl _ _ _).
  assert (Hacc : forall i, get_bit acc (Z.of_nat i) = true <-> host_in (from_raw r sum) host (Z.of_nat i)).
  { intros i. unfold acc, host_in. rewrite fold_add_set by (rewrite repeat_length; cbn; lia).
    rewrite get_bit_zeros. setoid_rewrite host_catsets_spec; [|done]. naive_solver. }
  clearbody acc. split.
  - intros ([i c] & Hin & H). apply elem_of_enumerate_from in Hin as [_ Hi]. rewrite Nat.sub_0_r in Hi.
    destruct (get_bit acc (Z.of_nat i)) eqn:Eb; [|done]. injection H as <-. exists i, c.
    split_and!; [done..|]. by apply Hacc.
  - intros (i & c & Hi & <- & Hh). exists (i, c). split.
    + apply elem_of_enumerate_from. rewrite Nat.sub_0_r. split; [lia|done].
    + apply Hacc in Hh. by rewrite Hh.
Qed.

(** ** Witnesses *)

#[local] Existing Instances CidrNet.inst CidrNet.cidr_laws.

Definition demo_query : Book := from_raw demo_book [].

Lemma demo_book_valid : validate demo_book = Ok tt.
Proof. vm_compute. reflexivity. Qed.

Lemma book_matches_by_category_witness :
  exists id p, 0 <= id /\ p ∈ [lit "google"] /\ selects demo_book (normalize_category p) id /\
    host_in demo_query (lit "x.ads.google.com") id.
Proof.
  apply (book_matches_by_category demo_book [] [lit "google"] [6] (lit "x.ads.google.com")).
  - exact demo_book_valid.
  - apply (bool_decide_unpack _). vm_compute. exact I.
  - vm_compute. reflexivity.
  - vm_compute. reflexivity.
Defined.

Lemma empty_cache_ok : cache_ok demo_query ∅.
Proof. intros names mask H. by rewrite lookup_empty in H. Qed.

Lemma resolve_cache_transparent_witness :
  snd (resolve_cached demo_query ∅ ∅ [lit "blocked"; lit " Google/ "]) = Ok [7].
Proof.
  pose proof (resolve_cache_transparent demo_book [] ∅ ∅ [lit "blocked"; lit " Google/ "]
    demo_book_valid empty_cache_ok empty_cache_ok) as H.
  change (from_raw demo_book []) with demo_query in H.
  destruct (resolve_cached demo_query ∅ ∅ [lit "blocked"; lit " Google/ "]) as [c out].
  destruct H as [-> _]; vm_compute; first [reflexivity|discriminate].
Defined.

Lemma lookup_categories_complete_witness :
  lit "google/ads" ∈ lookup_categories demo_query (lit "x.ads.google.com") /\
  host_in demo_query (lit "x.ads.google.com") 2.
Proof.
  assert (lit "google/ads" ∈ lookup_categories demo_query (lit "x.ads.google.com")) as H.
  { apply (bool_decide_unpack _). vm_compute. exact I. }
  split; [exact H|].
  apply (lookup_categories_complete demo_book [] _ _ demo_book_valid) in H as (i & c & Hi & Hn & Hh).
  destruct i as [|[|[|i]]]; cbn in Hi; try discriminate Hi; injection Hi as <-; try discriminate Hn. exact Hh.
Defined.

Definition demo_rules : list str := [lit "book:google"; lit "api.example.com"; lit "10.0.0.0/8"; lit "  "].
Definition demo_ruleset : RuleSet (B := Book_api) :=
  unwrap_or (from_rules (B := Book_api) demo_rules (Some demo_query) 4096) RuleSet_default.
Definition demo_block : RuleSet (B := Book_api) :=
  unwrap_or (from_rules (B := Book_api) [lit "full:ads.google.com"; lit "keyword:track"] None 0) RuleSet_default.

Lemma demo_ruleset_compiled : from_rules (B := Book_api) demo_rules (Some demo_query) 4096 = Ok demo_ruleset.
Proof. apply Ok_unwrap_or. vm_compute. reflexivity. Qed.
Lemma demo_block_compiled : from_rules (B := Book_api) [lit "full:ads.google.com"; lit "keyword:track"] None 0 = Ok demo_block.
Proof. apply Ok_unwrap_or. vm_compute. reflexivity. Qed.

Lemma from_rules_meaning_witness :
  rs_matches demo_ruleset (lit "cdn.api.example.com") = true /\
  exists b mask, Some demo_query = Some b /\ resolve b (book_patterns_of demo_rules) = Ok mask.
Proof.
  split; [vm_compute; reflexivity|].
  apply (from_rules_meaning (B := Book_api) demo_rules (Some demo_query) 4096 demo_ruleset (lit "a") demo_ruleset_compiled).
  vm_compute. discriminate.
Defined.

Lemma first_match_naive_witness :
  first_match (build_index [demo_ruleset; demo_block]) (lit "ads.google.com") = Some 0 /\
  first_match (build_index [demo_block; demo_ruleset]) (lit "8.8.8.8") = Some 1.
Proof.
  split.
  - etransitivity; [apply (first_match_naive [demo_ruleset; demo_block])|vm_compute; reflexivity].
    + vm_compute. discriminate.
    + repeat constructor; do 3 eexists; [exact demo_ruleset_compiled|exact demo_block_compiled].
  - etransitivity; [apply (first_match_naive [demo_block; demo_ruleset])|vm_compute; reflexivity].
    + vm_compute. discriminate.
    + repeat constructor; do 3 eexists; [exact demo_block_compiled|exact demo_ruleset_compiled].
Defined.
