(* ===== verification/BTree.v ===== *)
(** * BTree: ordered maps and sets

    A [BTreeMap] or [BTreeSet] is a finite map or set together with the order of
    its keys: iteration goes through the entries in strictly ascending key order,
    whatever the order they were inserted in. *)

From Stdlib Require Import ZArith Lia.
From stdpp Require Import prelude strings list gmap sorting.
From S2P Require Import Prelude RustStr RabValid.

Class KeyOrder (K : Type) := key_ltb : K -> K -> bool.
Definition key_lt `{KeyOrder K} (a b : K) : Prop := key_ltb a b = true.
Class KeyOrderLaws K `{KeyOrder K} : Prop := {
  key_lt_irrefl a : ~ key_lt a a;
  key_lt_trans a b c : key_lt a b -> key_lt b c -> key_lt a c;
  key_lt_total a b : key_lt a b \/ a = b \/ key_lt b a
}.

(** Byte-wise order of strings; pairs are compared lexicographically. *)
#[export] Instance str_order : KeyOrder str := str_ltb.
#[export] Instance str_order_laws : KeyOrderLaws str.
Proof.
  split; unfold key_lt, key_ltb, str_order; setoid_rewrite str_ltb_lt;
    [apply str_lt_irrefl|apply str_lt_trans|apply str_lt_total].
Qed.

(** A boundary [(is_infinity, position)]. *)
#[export] Instance boundary_order : KeyOrder (bool * Z) := fun a b =>
  (negb (fst a) && fst b) || (Bool.eqb (fst a) (fst b) && (snd a <? snd b)).
#[export] Instance boundary_order_laws : KeyOrderLaws (bool * Z).
Proof.
  assert (Hlt : forall a b : bool * Z, key_lt a b <->
    (fst a = false /\ fst b = true) \/ (fst a = fst b /\ snd a < snd b)).
  { intros [[] x] [[] y]; unfold key_lt, key_ltb, boundary_order; cbn;
      rewrite ?orb_false_r; destruct (Z.ltb_spec x y); naive_solver lia. }
  split.
  - intros a. rewrite Hlt. intros [[? ?]|[_ ?]]; [congruence|lia].
  - intros a b c. rewrite !Hlt. intuition (congruence || lia).
  - intros [[] x] [[] y]; rewrite !Hlt; cbn; destruct (Z.lt_total x y) as [|[->|]]; auto.
Qed.

Section BTree.
Context {K V : Type} `{Countable K} `{KeyOrderLaws K}.

Definition key_le (a b : K) : Prop := Is_true (negb (key_ltb b a)).
Definition entry_le (a b : K * V) : Prop := key_le (fst a) (fst b).

(** Iteration over a set and over a map. *)
Definition bt_elements (s : gset K) : list K := merge_sort key_le (elements s).
Definition bt_entries (m : gmap K V) : list (K * V) := merge_sort entry_le (map_to_list m).

Lemma key_le_iff a b : key_le a b <-> ~ key_lt b a.
Proof. unfold key_le, key_lt. rewrite Is_true_true, negb_true_iff. by destruct (key_ltb b a). Qed.
#[local] Instance key_le_trans : Transitive key_le.
Proof.
  intros a b c. rewrite !key_le_iff. intros Hab Hbc Hca. destruct (key_lt_total b c) as [Hl|[->|Hl]]; [|done|done].
  apply Hab. by apply (key_lt_trans _ c).
Qed.
#[local] Instance key_le_total : Total key_le.
Proof.
  intros a b. rewrite !key_le_iff. destruct (key_lt_total a b) as [Hl|[->|Hl]].
  - left. intros H'. apply (key_lt_irrefl a). by apply (key_lt_trans _ b).
  - left. apply key_lt_irrefl.
  - right. intros H'. apply (key_lt_irrefl b). by apply (key_lt_trans _ a).
Qed.
#[local] Instance entry_le_trans : Transitive entry_le.
Proof. intros a b c. apply key_le_trans. Qed.
#[local] Instance entry_le_total : Total entry_le.
Proof. intros a b. apply key_le_total. Qed.

(** Weakly sorted without repetition is strictly sorted. *)
Lemma sorted_strict (l : list K) : StronglySorted key_le l -> NoDup l -> StronglySorted key_lt l.
Proof.
  induction 1 as [|k l Hs IH Hk]; intros Hnd; [constructor|]. inversion Hnd as [|? ? Hin Hnd']; subst.
  constructor; [by apply IH|]. rewrite Forall_forall in Hk |- *. intros k' Hk'. specialize (Hk k' Hk').
  rewrite key_le_iff in Hk. destruct (key_lt_total k k') as [|[->|]]; [done|contradiction|contradiction].
Qed.

Lemma elem_of_bt_elements s k : k ∈ bt_elements s <-> k ∈ s.
Proof. unfold bt_elements. by rewrite merge_sort_Permutation, elem_of_elements. Qed.
Lemma bt_elements_sorted s : StronglySorted key_lt (bt_elements s).
Proof.
  apply sorted_strict; [apply (StronglySorted_merge_sort _)|].
  unfold bt_elements. rewrite merge_sort_Permutation. apply NoDup_elements.
Qed.

Lemma elem_of_bt_entries m k v : (k, v) ∈ bt_entries m <-> m !! k = Some v.
Proof. unfold bt_entries. by rewrite merge_sort_Permutation, elem_of_map_to_list. Qed.
Lemma bt_entries_sorted m : StronglySorted key_lt (map fst (bt_entries m)).
Proof.
  apply sorted_strict.
  - assert (Hs : StronglySorted entry_le (bt_entries m)) by apply (StronglySorted_merge_sort _).
    induction Hs as [|[k v] l Hs IH Hk]; cbn; [constructor|]. constructor; [done|].
    apply Forall_map. exact Hk.
  - unfold bt_entries. change (map fst) with (fmap (M:=list) (@fst K V)).
    rewrite merge_sort_Permutation. apply NoDup_fst_map_to_list.
Qed.

End BTree.

#[export] Hint Resolve bt_elements_sorted bt_entries_sorted : core.

(** A strictly sorted list is increasing by index. *)
Lemma strongly_increasing {A} (R : A -> A -> Prop) l : StronglySorted R l -> increasing R l.
Proof.
  induction 1 as [|x l Hs IH Hx]; [intros ? ? ? ? _ Hl; by rewrite lookup_nil in Hl|].
  by apply increasing_cons.
Qed.
