(* ===== verification/Export.v ===== *)
(** * Export: the control-plane projection of an address book (src/src/addrbook/export.rs)

    Ranges are written as CIDR blocks by a greedy loop; a category's expansion
    collects, in order and without duplicates, the entries tagged with it. The
    JSON text of the projection is not modelled. *)

From Stdlib Require Import ZArith Lia String.
From stdpp Require Import prelude strings list gmap sorting.
From S2P Require Import Prelude RustStr Net NetProps RustFmt Domain Rab RabCodec RabValid BTree Policy Book BookProps.

Definition SIDE_CAR_SCHEMA_VERSION : Z := 1.

(** ** Ranges to CIDR blocks *)

(** [trailing_zeros] of a [w]-bit integer *)
Fixpoint trailing_zeros (w : nat) (x : Z) : nat :=
  match w with
  | O => 0
  | S w => if Z.even x then S (trailing_zeros w (x / 2)) else 0%nat
  end.
(** The inner loop: the largest block at [start] within the range; [last_of] is
    the last address of a block in the integers of the address family. *)
Fixpoint fit_bits (last_of : Z -> Z -> Z) (host_bits : nat) (start end_ : Z) : nat :=
  let size := Z.shiftl 1 (Z.of_nat host_bits) in
  if (last_of start size <=? end_) && (Z.land start (size - 1) =? 0) then host_bits
  else match host_bits with O => 0%nat | S host_bits => fit_bits last_of host_bits start end_ end.
(** A block: its first address and prefix length. The loop from [start], in
    [fuel] rounds: [None] when it has not ended by then. *)
Fixpoint cidr_loop (w : nat) (last_of : Z -> Z -> Z) (fuel : nat) (start end_ : Z) : option (list (Z * Z)) :=
  match fuel with
  | O => None
  | S fuel =>
      if end_ <? start then Some []
      else
        let host_bits := fit_bits last_of (Nat.min (trailing_zeros w start) (w - 1)) start end_ in
        let block := (start, Z.of_nat w - Z.of_nat host_bits) in
        let next := start + Z.shiftl 1 (Z.of_nat host_bits) in
        if 2 ^ Z.of_nat w <=? next then Some [block]
        else cons block <$> cidr_loop w last_of fuel next end_
  end.
Definition last_v4 (start size : Z) : Z := start + size - 1.
Definition last_v6 (start size : Z) : Z := saturating_add 128 start (size - 1).
(** [ipv4_range_to_cidrs] and [ipv6_range_to_cidrs], before formatting; two
    rounds per bit are enough (Lemma [cidr_loop_total]). *)
Definition ipv4_blocks (start end_ : Z) : list (Z * Z) := default [] (cidr_loop 32 last_v4 66 start end_).
Definition ipv6_blocks (start end_ : Z) : list (Z * Z) := default [] (cidr_loop 128 last_v6 258 start end_).
Definition show_block (display : Z -> str) (b : Z * Z) : str := display b.1 ++ [slash] ++ fmt_dec b.2.
Definition ipv4_range_to_cidrs (start end_ : Z) : list str := map (show_block display_v4) (ipv4_blocks start end_).
Definition ipv6_range_to_cidrs (start end_ : Z) : list str := map (show_block display_v6) (ipv6_blocks start end_).

(** ** The projection *)

Definition catset_has (raw : RawBook) (catset category_id : Z) : bool :=
  let words := catset_words raw in
  if words =? 0 then false
  else
    let base := catset * words in
    let word := category_id / 64 in
    let bit := category_id mod 64 in
    match catsets raw !! Z.to_nat (base + word) with
    | Some x => negb (Z.land x (Z.shiftl 1 bit) =? 0)
    | None => false
    end.

Record DomainExpansion := mkDomains { de_exact : list str; de_suffix : list str; de_keyword : list str }.
Record CategoryExpansion := mkExpansion { ce_domains : DomainExpansion; ce_cidrs : list str }.
Record ControlPlaneCatalog := mkCatalog {
  cc_schema_version : Z; cc_addrbook_epoch : Z; cc_categories : list str; cc_expansions : gmap (list Z) CategoryExpansion
}.
Inductive export_error := NoCategories.

(** The entries tagged with a category. *)
Definition tagged (raw : RawBook) (id : Z) (entries : list StrEntry) : list str :=
  map text (List.filter (fun e => catset_has raw (catset e) id) entries).
Definition tagged_ranges (raw : RawBook) (id : Z) (ranges : list range) : list (Z * Z) :=
  map fst (List.filter (fun '(_, catset) => catset_has raw catset id) ranges).
(** A [BTreeSet] collected from strings, iterated *)
Definition btree_set (l : list str) : list str := bt_elements (list_to_set l : gset (list Z)).
Definition expansion (raw : RawBook) (id : Z) : CategoryExpansion :=
  mkExpansion
    (mkDomains (btree_set (tagged raw id (domain_exact raw)))
       (btree_set (map reverse_labels (tagged raw id (domain_suffix raw))))
       (btree_set (tagged raw id (keywords raw))))
    (btree_set (flat_map (fun '(s, e) => ipv4_range_to_cidrs s e) (tagged_ranges raw id (ip4 raw))
       ++ flat_map (fun '(s, e) => ipv6_range_to_cidrs s e) (tagged_ranges raw id (ip6 raw)))).
(** The expansions, in the order of the categories *)
Definition expansions (raw : RawBook) (l : list (nat * Category)) (m : gmap (list Z) CategoryExpansion) :
    gmap (list Z) CategoryExpansion :=
  foldl (fun m '(i, c) => <[cat_name c := expansion raw (Z.of_nat i)]> m) m l.
(** [control_plane_catalog] *)
Definition control_plane_catalog (raw : RawBook) : result export_error ControlPlaneCatalog :=
  ensure (negb (is_empty (categories raw))) NoCategories ;;
  Ok (mkCatalog SIDE_CAR_SCHEMA_VERSION (build_epoch raw) (map cat_name (categories raw))
        (expansions raw (enumerate (categories raw)) ∅)).

Example export_ex : map (show_block display_v4) (ipv4_blocks (10 * 2 ^ 24 + 1) (10 * 2 ^ 24 + 6))
  = map lit ["10.0.0.1/32"; "10.0.0.2/31"; "10.0.0.4/31"; "10.0.0.6/32"]%string.
Proof. vm_compute. reflexivity. Qed.
(** The whole IPv4 space is written as two blocks, one would do. *)
Example full_range : ipv4_range_to_cidrs 0 (2 ^ 32 - 1) = map lit ["0.0.0.0/1"; "128.0.0.0/1"]%string.
Proof. vm_compute. reflexivity. Qed.

(** * The projected blocks are the ranges, and as few as possible

    The greedy loop ends within two rounds per bit; its blocks are aligned and
    cover exactly the range; no exact cover by aligned blocks has fewer, the
    whole address space excepted. The projection of a book holds exactly the
    entries tagged with each category. *)

(** ** Powers of two *)

Abbreviation pow2 h := (2 ^ Z.of_nat h).
Lemma pow2_pos h : 0 < pow2 h.
Proof. apply Z.pow_pos_nonneg; lia. Qed.
Lemma pow2_S h : pow2 (S h) = 2 * pow2 h.
Proof. rewrite Nat2Z.inj_succ, Z.pow_succ_r; lia. Qed.
Lemma pow2_le h k : (h <= k)%nat -> pow2 h <= pow2 k.
Proof. intros H. apply Z.pow_le_mono_r; lia. Qed.
Lemma pow2_lt h k : (h < k)%nat -> 2 * pow2 h <= pow2 k.
Proof. intros H. rewrite <- pow2_S. apply pow2_le. lia. Qed.
Lemma pow2_divide h k : (h <= k)%nat -> (pow2 h | pow2 k).
Proof.
  intros H. exists (pow2 (k - h)). rewrite <- Z.pow_add_r by lia. f_equal. lia.
Qed.
Lemma pow2_divide_trans h k x : (h <= k)%nat -> (pow2 k | x) -> (pow2 h | x).
Proof. intros H. apply Z.divide_trans. by apply pow2_divide. Qed.
(** Multiples of a power of two closer than it are equal. *)
Lemma multiple_close m a b : 0 < m -> (m | a) -> (m | b) -> a <= b < a + m -> a = b.
Proof. intros Hm [x ->] [y ->] H. assert (x = y) as -> by nia. done. Qed.
Lemma divide_add_pow h x : (pow2 h | x) -> (pow2 h | x + pow2 h).
Proof. intros H. apply Z.divide_add_r; [done|]. apply Z.divide_refl. Qed.
Lemma divide_odd_step h x : (pow2 h | x) -> ~ (pow2 (S h) | x) -> (pow2 (S h) | x + pow2 h).
Proof.
  intros [q ->] Hn. rewrite pow2_S in *. destruct (Z.Even_or_Odd q) as [[r ->]|[r ->]].
  - exfalso. apply Hn. exists r. lia.
  - exists (r + 1). lia.
Qed.

Lemma trailing_zeros_spec w x h : (h <= w)%nat -> (pow2 h | x) <-> (h <= trailing_zeros w x)%nat.
Proof.
  revert x h; induction w as [|w IH]; intros x h Hh; cbn [trailing_zeros].
  { assert (h = 0)%nat as -> by lia. split; [lia|]. intros _. apply Z.divide_1_l. }
  destruct h as [|h]; [split; [lia|intros _; apply Z.divide_1_l]|]. destruct (Z.even x) eqn:E.
  - apply Z.even_spec in E as [y ->]. rewrite (Z.mul_comm 2 y), Z.div_mul by done. rewrite pow2_S.
    rewrite (Z.mul_comm y 2). rewrite Z.mul_divide_cancel_l by done. rewrite IH by lia. lia.
  - split; [|lia]. intros [q ->]. rewrite pow2_S, Z.even_mul, Z.even_mul in E. cbn in E. by rewrite orb_true_r in E.
Qed.

(** ** The greedy choice *)

(** A block of [h] host bits fits at [start]. *)
Definition fits_at (start end_ : Z) (h : nat) : Prop := start + pow2 h - 1 <= end_ /\ (pow2 h | start).
(** The largest block, at most half the address space *)
Definition greedy (w : nat) (start end_ : Z) (h : nat) : Prop :=
  (h <= w - 1)%nat /\ fits_at start end_ h /\ forall k, (k <= w - 1)%nat -> fits_at start end_ k -> (k <= h)%nat.

Definition last_ok (w : nat) (last_of : Z -> Z -> Z) : Prop :=
  forall start h end_, 0 <= start < pow2 w -> (h <= w - 1)%nat -> end_ < pow2 w -> (pow2 h | start) ->
    last_of start (pow2 h) <= end_ <-> start + pow2 h - 1 <= end_.
Lemma last_v4_ok w : last_ok w last_v4.
Proof. done. Qed.
Lemma last_v6_ok : last_ok 128 last_v6.
Proof.
  intros start h end_ Hs Hh He [q ->]. unfold last_v6, saturating_add. pose proof (pow2_pos h) as Hp.
  destruct (pow2_divide h 128 ltac:(lia)) as [r Hr]. change (pow2 128) with (2 ^ 128) in *.
  assert (q + 1 <= r) by (apply Z.lt_pred_le; nia). assert (q * pow2 h + pow2 h <= 2 ^ 128) by (rewrite Hr; nia). lia.
Qed.
Section Greedy.
Context (w : nat) (last_of : Z -> Z -> Z) (Hw : (1 <= w)%nat) (Hlast : last_ok w last_of).

Lemma fit_test start end_ h :
  0 <= start < pow2 w -> end_ < pow2 w -> (h <= w - 1)%nat ->
  (last_of start (Z.shiftl 1 (Z.of_nat h)) <=? end_) && (Z.land start (Z.shiftl 1 (Z.of_nat h) - 1) =? 0) = true
  <-> fits_at start end_ h.
Proof.
  intros Hs He Hh. rewrite Z.shiftl_1_l. assert (pow2 h - 1 = Z.ones (Z.of_nat h)) as -> by (rewrite Z.ones_equiv; lia).
  rewrite Z.land_ones by lia. rewrite andb_true_iff, Z.leb_le, Z.eqb_eq, Z.mod_divide by (pose proof (pow2_pos h); lia).
  unfold fits_at. split; intros [H1 H2]; (split; [by apply Hlast|done]).
Qed.
Lemma fit_bits_spec n start end_ :
  0 <= start <= end_ -> end_ < pow2 w -> (n <= w - 1)%nat ->
  let h := fit_bits last_of n start end_ in
  (h <= n)%nat /\ fits_at start end_ h /\ forall k, (k <= n)%nat -> fits_at start end_ k -> (k <= h)%nat.
Proof.
  intros Hs He. induction n as [|n IH]; intros Hn; cbn [fit_bits].
  - assert (fits_at start end_ 0) by (split; [cbn; lia|apply Z.divide_1_l]). rewrite (proj2 (fit_test start end_ 0 ltac:(lia) He Hn)) by done.
    split_and!; [done..|]. lia.
  - destruct (_ && _) eqn:E; [apply fit_test in E; [|lia..]; split_and!; [done..|]; lia|].
    destruct (IH ltac:(lia)) as (I1 & I2 & I3). split; [lia|]. split; [done|]. intros k Hk Hf.
    destruct (decide (k = S n)) as [->|]; [|apply I3; [lia|done]]. apply fit_test in Hf; [congruence|lia..].
Qed.
Lemma greedy_bits start end_ :
  0 <= start <= end_ -> end_ < pow2 w ->
  greedy w start end_ (fit_bits last_of (Nat.min (trailing_zeros w start) (w - 1)) start end_).
Proof.
  intros Hs He. destruct (fit_bits_spec (Nat.min (trailing_zeros w start) (w - 1)) start end_ Hs He ltac:(lia)) as (H1 & H2 & H3).
  split; [lia|]. split; [done|]. intros k Hk Hf. apply H3; [|done]. destruct Hf as [_ Hd].
  apply (trailing_zeros_spec w) in Hd; lia.
Qed.
Lemma cidr_loop_step fuel start end_ :
  0 <= start <= end_ -> end_ < pow2 w ->
  exists h, greedy w start end_ h /\
    cidr_loop w last_of (S fuel) start end_ =
      if pow2 w <=? start + pow2 h then Some [(start, Z.of_nat w - Z.of_nat h)]
      else cons (start, Z.of_nat w - Z.of_nat h) <$> cidr_loop w last_of fuel (start + pow2 h) end_.
Proof.
  intros Hs He. eexists. split; [by apply greedy_bits|]. cbn [cidr_loop]. rewrite (proj2 (Z.ltb_ge end_ start)) by lia.
  by rewrite Z.shiftl_1_l.
Qed.

(** *** The loop ends *)

Lemma cidr_loop_done fuel start end_ : end_ < start -> is_Some (cidr_loop w last_of (S fuel) start end_).
Proof. intros H. cbn [cidr_loop]. rewrite (proj2 (Z.ltb_lt _ _) H). eauto. Qed.
(** Once the end of the range is the limit, the blocks shrink. *)
Lemma cidr_loop_down k fuel start end_ :
  (k <= w)%nat -> (pow2 k | start) -> 0 <= start -> end_ < pow2 w -> end_ - start + 1 < pow2 k -> (k + 1 <= fuel)%nat ->
  is_Some (cidr_loop w last_of fuel start end_).
Proof.
  revert fuel start; induction k as [k IH] using lt_wf_ind; intros fuel start Hk Hd Hs He Hr Hf.
  destruct fuel as [|fuel]; [lia|]. destruct (Z.lt_ge_cases end_ start) as [|Hle]; [by apply cidr_loop_done|].
  destruct (cidr_loop_step fuel start end_ ltac:(lia) He) as (h & (G1 & [G2 G3] & G4) & ->).
  destruct (_ <=? _); [eauto|]. assert (h < k)%nat as Hhk.
  { apply not_le. intros Hge. pose proof (pow2_le k h ltac:(lia)). lia. }
  assert (end_ - start + 1 < pow2 (S h)) as Hr'.
  { apply Z.nle_gt. intros Hge. assert (S h <= h)%nat; [|lia]. apply G4.
    - assert (S h < k)%nat; [|lia]. apply not_le. intros ?. pose proof (pow2_le k (S h) ltac:(lia)). lia.
    - split; [lia|]. apply (pow2_divide_trans _ k); [lia|done]. }
  rewrite pow2_S in Hr'. destruct (IH h Hhk fuel (start + pow2 h)) as [l ->]; try lia; [by apply divide_add_pow|cbn; eauto].
Qed.
(** The last half of the address space is one block. *)
Lemma cidr_loop_half fuel start end_ :
  start = pow2 (w - 1) -> end_ < pow2 w -> end_ - start + 1 <= pow2 (w - 1) -> (w + 1 <= fuel)%nat ->
  is_Some (cidr_loop w last_of fuel start end_).
Proof.
  intros Hs He Hr Hf. assert (Hww : pow2 w = 2 * pow2 (w - 1)) by (rewrite <- pow2_S; do 2 f_equal; lia).
  pose proof (pow2_pos (w - 1)) as Hp. destruct (Z.lt_ge_cases (end_ - start + 1) (pow2 (w - 1))) as [Hlt|Hge].
  - apply (cidr_loop_down (w - 1)); try lia. rewrite Hs. apply Z.divide_refl.
  - destruct fuel as [|fuel]; [lia|]. destruct (cidr_loop_step fuel start end_ ltac:(lia) He) as (h & (G1 & _ & G4) & ->).
    assert (w - 1 <= h)%nat as Hh by (apply G4; [done|]; split; [lia|rewrite Hs; apply Z.divide_refl]).
    assert (h = w - 1)%nat as -> by lia. rewrite (proj2 (Z.leb_le _ _)) by lia. eauto.
Qed.
Lemma cidr_loop_up n a fuel start end_ :
  (n + a = w)%nat -> (pow2 a | start) -> 0 <= start < pow2 w -> end_ < pow2 w -> (n + w + 2 <= fuel)%nat ->
  is_Some (cidr_loop w last_of fuel start end_).
Proof.
  revert a fuel start; induction n as [n IH] using lt_wf_ind; intros a fuel start Hn Hd Hs He Hf.
  destruct fuel as [|fuel]; [lia|]. destruct (Z.lt_ge_cases end_ start) as [|Hle]; [by apply cidr_loop_done|].
  destruct (cidr_loop_step fuel start end_ ltac:(lia) He) as (h & (G1 & [G2 G3] & G4) & ->).
  destruct (pow2 w <=? start + pow2 h) eqn:Eb; [eauto|]. apply Z.leb_gt in Eb. pose proof (pow2_pos h) as Hp.
  assert (is_Some (cidr_loop w last_of fuel (start + pow2 h) end_)) as [l ->]; [|cbn; eauto].
  destruct (decide (start mod pow2 (S h) = 0)) as [Hd2|Hd2]; rewrite Z.mod_divide in Hd2 by (pose proof (pow2_pos (S h)); lia).
  - destruct (decide (S h <= w - 1)%nat) as [Hsh|Hsh].
    + assert (end_ - start + 1 < pow2 (S h)) as Hr.
      { apply Z.nle_gt. intros Hge. assert (S h <= h)%nat; [|lia]. apply G4; [done|]. split; [lia|done]. }
      rewrite pow2_S in Hr. apply (cidr_loop_down h); try lia. by apply divide_add_pow.
    + assert (h = w - 1)%nat as -> by lia. assert (S (w - 1) = w) as E by lia. rewrite E in Hd2.
      assert (0 = start) as <- by (apply (multiple_close (pow2 w)); [lia|apply Z.divide_0_r|done|lia]).
      apply cidr_loop_half; try lia. pose proof (pow2_S (w - 1)) as E2. rewrite E in E2. lia.
  - assert (a < S h)%nat as Hah.
    { apply not_le. intros Hge. apply Hd2. by apply (pow2_divide_trans _ a). }
    apply (IH (w - S h)%nat ltac:(lia) (S h)); try lia. by apply divide_odd_step.
Qed.
Lemma cidr_loop_total fuel start end_ :
  0 <= start < pow2 w -> end_ < pow2 w -> (2 * w + 2 <= fuel)%nat -> is_Some (cidr_loop w last_of fuel start end_).
Proof. intros. apply (cidr_loop_up w 0); try lia. apply Z.divide_1_l. Qed.

(** *** What it returns *)

Inductive greedy_cover (end_ : Z) : Z -> list (Z * Z) -> Prop :=
| cover_done start : end_ < start -> greedy_cover end_ start []
| cover_block start h l : 0 <= start <= end_ -> greedy w start end_ h -> greedy_cover end_ (start + pow2 h) l ->
    greedy_cover end_ start ((start, Z.of_nat w - Z.of_nat h) :: l).
Lemma cidr_loop_cover fuel start end_ l :
  0 <= start -> end_ < pow2 w -> cidr_loop w last_of fuel start end_ = Some l -> greedy_cover end_ start l.
Proof.
  revert start l; induction fuel as [|fuel IH]; intros start l Hs He H; [done|].
  destruct (Z.lt_ge_cases end_ start) as [Hlt|Hle].
  { cbn [cidr_loop] in H. rewrite (proj2 (Z.ltb_lt _ _) Hlt) in H. injection H as <-. by constructor. }
  destruct (cidr_loop_step fuel start end_ ltac:(lia) He) as (h & Hg & E). rewrite E in H. pose proof (pow2_pos h).
  destruct (pow2 w <=? start + pow2 h) eqn:Eb.
  - injection H as <-. constructor; [lia|done|]. constructor. lia.
  - apply fmap_Some in H as (l' & Hl & ->). constructor; [lia|done|]. apply IH; [lia|done|done].
Qed.
End Greedy.

(** ** Blocks as sets of addresses *)

Definition in_block (w : nat) (b : Z * Z) (x : Z) : Prop := b.1 <= x < b.1 + 2 ^ (Z.of_nat w - b.2).
(** An aligned block of the address space *)
Definition block_ok (w : nat) (b : Z * Z) : Prop :=
  0 <= b.2 <= Z.of_nat w /\ (2 ^ (Z.of_nat w - b.2) | b.1).
(** The blocks are aligned and hold exactly the addresses of the range. *)
Definition exact_cover (w : nat) (start end_ : Z) (l : list (Z * Z)) : Prop :=
  Forall (block_ok w) l /\ forall x, (exists b, b ∈ l /\ in_block w b x) <-> start <= x <= end_.
Lemma in_block_bits w start h x : (h <= w)%nat -> in_block w (start, Z.of_nat w - Z.of_nat h) x <-> start <= x < start + pow2 h.
Proof. intros H. unfold in_block. cbn. by replace (Z.of_nat w - (Z.of_nat w - Z.of_nat h)) with (Z.of_nat h) by lia. Qed.
Lemma block_bits w b : block_ok w b ->
  exists k, (k <= w)%nat /\ (pow2 k | b.1) /\ forall x, in_block w b x <-> b.1 <= x < b.1 + pow2 k.
Proof.
  intros [Hp Hd]. exists (Z.to_nat (Z.of_nat w - b.2)). rewrite Z2Nat.id by lia. split; [lia|]. done.
Qed.
Lemma block_nonempty w b : block_ok w b -> in_block w b b.1.
Proof. intros (k & _ & _ & H)%block_bits. apply H. pose proof (pow2_pos k). lia. Qed.

Lemma greedy_cover_exact w start end_ l :
  (1 <= w)%nat -> 0 <= start -> greedy_cover w end_ start l ->
  exact_cover w start end_ l /\ NoDup l /\ Forall (fun b => start <= b.1) l.
Proof.
  intros Hw Hs H. induction H as [start Hlt|start h l Hle (G1 & [G2 G3] & _) _ IH].
  { split_and!; [split; [constructor|]|constructor|constructor]. intros x. split; [|lia]. by intros (b & ?%elem_of_nil & _). }
  pose proof (pow2_pos h). destruct (IH ltac:(lia)) as ((I1 & I2) & I3 & I4). rewrite Forall_forall in I4. split_and!.
  - split.
    + constructor; [|done]. split; cbn; [lia|]. by replace (Z.of_nat w - (Z.of_nat w - Z.of_nat h)) with (Z.of_nat h) by lia.
    + intros x. split.
      * intros (b & [->|Hb]%elem_of_cons & Hx); [apply in_block_bits in Hx; lia|].
        assert (start + pow2 h <= x <= end_); [|lia]. apply I2. eauto.
      * intros Hx. destruct (Z.lt_ge_cases x (start + pow2 h)) as [Hl|Hg].
        { eexists. split; [by left|]. apply in_block_bits; lia. }
        { destruct (proj2 (I2 x) ltac:(lia)) as (b & Hb & Hbx). exists b. split; [by right|done]. }
  - constructor; [|done]. intros Hin. specialize (I4 _ Hin). cbn in I4. lia.
  - constructor; [cbn; lia|]. apply Forall_forall. intros b Hb. specialize (I4 b Hb). lia.
Qed.

(** *** No cover has fewer blocks *)

Lemma greedy_minimal w start end_ h (C : list (Z * Z)) :
  (1 <= w)%nat -> 0 <= start <= end_ -> end_ < pow2 w -> (start <> 0 \/ end_ <> pow2 w - 1) -> greedy w start end_ h ->
  exact_cover w start end_ C ->
  exists C', exact_cover w (start + pow2 h) end_ C' /\ (length C' < length C)%nat.
Proof.
  intros Hw Hs He Hfull (G1 & [G2 G3] & G4) [Hok Hc]. pose proof (pow2_pos h) as Hp. rewrite Forall_forall in Hok.
  assert (Hin : forall b x, b ∈ C -> in_block w b x -> start <= x <= end_) by (intros b x Hb Hx; apply Hc; eauto).
  (* a block that starts at [start] is inside the greedy one *)
  assert (Hmax : forall b k, b ∈ C -> b.1 = start -> (k <= w)%nat -> (pow2 k | b.1) ->
    (forall x, in_block w b x <-> b.1 <= x < b.1 + pow2 k) -> (k <= h)%nat).
  { intros b k Hb E Hk Hd Hx. pose proof (pow2_pos k). pose proof (Hin b (start + pow2 k - 1) Hb ltac:(apply Hx; lia)) as Hlast.
    rewrite E in Hd. apply G4; [|split; [lia|done]]. apply not_lt. intros Hgt. assert (k = w) as -> by lia.
    assert (0 = start); [|lia]. apply (multiple_close (pow2 w)); [lia|apply Z.divide_0_r|done|lia]. }
  (* every block is inside the greedy one or beyond it *)
  assert (Hsep : forall b, b ∈ C -> (start + pow2 h <= b.1 \/ forall x, in_block w b x -> x < start + pow2 h)).
  { intros b Hb. destruct (block_bits w b (Hok b Hb)) as (k & Hk & Hd & Hx). pose proof (pow2_pos k).
    destruct (Z.lt_ge_cases b.1 (start + pow2 h)) as [Hlt|]; [right|by left]. pose proof (Hin b b.1 Hb ltac:(apply Hx; lia)) as Hge.
    destruct (decide (k <= h)%nat) as [Hkh|Hkh].
    - intros x Hxb%Hx. destruct (pow2_divide_trans k h _ Hkh G3) as [q1 E1]. destruct (pow2_divide k h Hkh) as [q2 E2].
      destruct Hd as [q3 E3]. rewrite E1, E2, E3 in *. assert (q3 + 1 <= q1 + q2) by nia. nia.
    - assert (start = b.1) as E by (apply (multiple_close (pow2 h)); [lia|done|by apply (pow2_divide_trans h k); [lia|]|lia]).
      exfalso. apply Hkh. by apply (Hmax b). }
  exists (List.filter (fun b => start + pow2 h <=? b.1) C). split; [split|].
  - apply Forall_forall. intros b [Hb _]%list_elem_of_In%filter_In. apply Hok. by apply list_elem_of_In.
  - intros x. split.
    + intros (b & Hb & Hx). apply list_elem_of_In, filter_In in Hb as [Hb Hge]. apply list_elem_of_In in Hb.
      apply Z.leb_le in Hge. pose proof (Hin b x Hb Hx). unfold in_block in Hx. lia.
    + intros Hx. destruct (proj2 (Hc x) ltac:(lia)) as (b & Hb & Hbx). exists b. split; [|done].
      apply list_elem_of_In, filter_In. split; [by apply list_elem_of_In|]. apply Z.leb_le.
      destruct (Hsep b Hb) as [|Hno]; [done|]. specialize (Hno x Hbx). lia.
  - destruct (proj2 (Hc start) ltac:(lia)) as (b & Hb & Hbx).
    apply list_elem_of_split in Hb as (l1 & l2 & ->). rewrite List.filter_app, !length_app. cbn [List.filter].
    assert (start + pow2 h <=? b.1 = false) as -> by (apply Z.leb_gt; unfold in_block in Hbx; lia).
    pose proof (List.filter_length_le (fun b => start + pow2 h <=? b.1) l1).
    pose proof (List.filter_length_le (fun b => start + pow2 h <=? b.1) l2). cbn [length]. lia.
Qed.
Lemma greedy_cover_minimal w start end_ l C :
  (1 <= w)%nat -> 0 <= start -> end_ < pow2 w -> (start <> 0 \/ end_ <> pow2 w - 1) ->
  greedy_cover w end_ start l -> exact_cover w start end_ C -> (length l <= length C)%nat.
Proof.
  intros Hw Hs He Hfull H. revert C. induction H as [start Hlt|start h l Hle Hg _ IH]; intros C HC; [cbn; lia|].
  destruct (greedy_minimal w start end_ h C Hw Hle He Hfull Hg HC) as (C' & HC' & Hlen).
  pose proof (pow2_pos h). specialize (IH ltac:(lia) ltac:(left; lia) C' HC'). cbn [length]. lia.
Qed.

Definition width (v6 : bool) : nat := if v6 then 128%nat else 32%nat.
Definition blocks (v6 : bool) (start end_ : Z) : list (Z * Z) := if v6 then ipv6_blocks start end_ else ipv4_blocks start end_.
Lemma blocks_greedy v6 start end_ :
  0 <= start < pow2 (width v6) -> end_ < pow2 (width v6) -> greedy_cover (width v6) end_ start (blocks v6 start end_).
Proof.
  unfold blocks, ipv4_blocks, ipv6_blocks. destruct v6; cbn [width]; intros Hs He.
  - destruct (cidr_loop_total 128 last_v6 ltac:(lia) last_v6_ok 258 start end_ Hs He ltac:(lia)) as [l E]. rewrite E. cbn [default].
    apply (cidr_loop_cover 128 last_v6 ltac:(lia) last_v6_ok 258); [apply Hs|done|exact E].
  - destruct (cidr_loop_total 32 last_v4 ltac:(lia) (last_v4_ok 32) 66 start end_ Hs He ltac:(lia)) as [l E]. rewrite E. cbn [default].
    apply (cidr_loop_cover 32 last_v4 ltac:(lia) (last_v4_ok 32) 66); [apply Hs|done|exact E].
Qed.
Lemma width_pos v6 : (1 <= width v6)%nat.
Proof. destruct v6; cbn; lia. Qed.

(** A range of addresses is written as aligned blocks that hold exactly its
    addresses, each block once, and no exact cover by aligned blocks has fewer;
    the loop ends. The one exception to being fewest is the whole address space,
    which is written as two halves. *)
Theorem range_to_cidrs_exact (v6 : bool) (start end_ : Z) :
  0 <= start < 2 ^ Z.of_nat (width v6) -> end_ < 2 ^ Z.of_nat (width v6) ->
  exact_cover (width v6) start end_ (blocks v6 start end_) /\ NoDup (blocks v6 start end_) /\
  (start <> 0 \/ end_ <> 2 ^ Z.of_nat (width v6) - 1 ->
   forall C, exact_cover (width v6) start end_ C -> (length (blocks v6 start end_) <= length C)%nat).
Proof.
  intros Hs He. pose proof (blocks_greedy v6 start end_ Hs He) as Hg. pose proof (width_pos v6) as Hw.
  destruct (greedy_cover_exact (width v6) start end_ (blocks v6 start end_)) as (H1 & H2 & _); [done|lia|done|].
  split; [done|]. split; [done|].
  intros Hfull C HC. apply (greedy_cover_minimal (width v6) start end_); [done|lia|done..].
Qed.

(** ** The projection of a book *)

#[local] Opaque cidr_loop.

(** The blocks exported for a category. *)
Definition exported4 (raw : RawBook) (id : Z) : list (Z * Z) :=
  flat_map (fun '(s, e) => ipv4_blocks s e) (tagged_ranges raw id (ip4 raw)).
Definition exported6 (raw : RawBook) (id : Z) : list (Z * Z) :=
  flat_map (fun '(s, e) => ipv6_blocks s e) (tagged_ranges raw id (ip6 raw)).
Definition exports (raw : RawBook) (id : Z) (cidr : str) : Prop :=
  (exists b, b ∈ exported4 raw id /\ cidr = show_block display_v4 b) \/
  (exists b, b ∈ exported6 raw id /\ cidr = show_block display_v6 b).
Definition has_entry (raw : RawBook) (id : Z) (entries : list StrEntry) (t : str) : Prop :=
  exists e, e ∈ entries /\ text e = t /\ get_bit (catset_slice (from_raw raw []) (catset e)) id = true.

Lemma elem_of_btree_set t l : t ∈ btree_set l <-> t ∈ l.
Proof. unfold btree_set. by rewrite elem_of_bt_elements, elem_of_list_to_set. Qed.
Lemma catset_has_bit raw cs id :
  book_valid raw -> 0 <= cs -> 0 <= id < len (categories raw) ->
  catset_has raw cs id = get_bit (catset_slice (from_raw raw []) cs) id.
Proof.
  intros Hv Hcs Hid. unfold catset_has, get_bit, catset_slice. cbn [Book.raw from_raw].
  assert (Hw : 0 <= id / 64 < catset_words raw).
  { rewrite (bv_words raw Hv). unfold div_ceil. split; [apply Z.div_pos; lia|]. apply Z.div_lt_upper_bound; [lia|].
    pose proof (Z.mul_succ_div_gt (len (categories raw) + 64 - 1) 64 ltac:(lia)). lia. }
  rewrite (proj2 (Z.eqb_neq (catset_words raw) 0)) by lia. rewrite lookup_take, lookup_drop.
  destruct (decide _); [|lia].
  replace (Z.to_nat cs * Z.to_nat (catset_words raw) + Z.to_nat (id / 64))%nat
    with (Z.to_nat (cs * catset_words raw + id / 64)) by nia. done.
Qed.
Lemma elem_of_tagged raw id entries t :
  book_valid raw -> 0 <= id < len (categories raw) -> Forall (fun e => 0 <= catset e) entries ->
  t ∈ tagged raw id entries <-> has_entry raw id entries t.
Proof.
  intros Hv Hid Hc. unfold tagged, has_entry. rewrite list_elem_of_In, in_map_iff. setoid_rewrite filter_In. rewrite Forall_forall in Hc. split.
  - intros (e & <- & He & Hb). apply list_elem_of_In in He. exists e. split; [done|]. split; [done|]. rewrite <- catset_has_bit; auto.
  - intros (e & He & <- & Hb). exists e. split; [done|]. split; [by apply list_elem_of_In|]. rewrite catset_has_bit; auto.
Qed.
Lemma elem_of_tagged_ranges raw id rs s e :
  book_valid raw -> 0 <= id < len (categories raw) -> Forall (fun r => 0 <= r.2) rs ->
  (s, e) ∈ tagged_ranges raw id rs <-> exists cs, (s, e, cs) ∈ rs /\ get_bit (catset_slice (from_raw raw []) cs) id = true.
Proof.
  intros Hv Hid Hc. unfold tagged_ranges. rewrite list_elem_of_In, in_map_iff. setoid_rewrite filter_In. rewrite Forall_forall in Hc. split.
  - intros ([[s' e'] cs] & [= -> ->] & He & Hb). apply list_elem_of_In in He. exists cs. split; [done|].
    rewrite <- catset_has_bit; auto. by apply (Hc (s, e, cs)).
  - intros (cs & He & Hb). exists (s, e, cs). split; [done|]. split; [by apply list_elem_of_In|].
    rewrite catset_has_bit; auto. by apply (Hc (s, e, cs)).
Qed.
(** An address is in the blocks of the tagged ranges exactly when the table has it. *)
Lemma exported_blocks v6 raw id rs a :
  book_valid raw -> 0 <= id < len (categories raw) -> Forall (range_fits (Z.of_nat (width v6))) rs ->
  (exists b, b ∈ flat_map (fun '(s, e) => blocks v6 s e) (tagged_ranges raw id rs) /\ in_block (width v6) b a)
  <-> exists cs, in_ranges rs a cs /\ get_bit (catset_slice (from_raw raw []) cs) id = true.
Proof.
  intros Hv Hid Hf. assert (Hc : Forall (fun r : range => 0 <= r.2) rs).
  { eapply Forall_impl; [exact Hf|]. intros [[s e] cs]. cbn. unfold fits. lia. }
  rewrite Forall_forall in Hf.
  assert (Hblk : forall s e cs, (s, e, cs) ∈ rs -> exact_cover (width v6) s e (blocks v6 s e)).
  { intros s e cs Hin. destruct (Hf _ Hin) as (Hs & [_ He] & _).
    apply (greedy_cover_exact (width v6) s e); [apply width_pos|apply Hs|by apply blocks_greedy]. }
  unfold in_ranges. split.
  - intros (b & Hb & Hx). apply list_elem_of_In, in_flat_map in Hb as ([s e] & Hse & Hb). apply list_elem_of_In in Hse, Hb.
    apply (elem_of_tagged_ranges raw id rs s e Hv Hid Hc) in Hse as (cs & Hin & Hbit). exists cs. split; [|done]. exists s, e.
    split; [done|]. apply (Hblk s e cs Hin). eauto.
  - intros (cs & (s & e & Hin & Hse) & Hbit). destruct (proj2 (proj2 (Hblk s e cs Hin) a) Hse) as (b & Hb & Hx). exists b. split; [|done].
    apply list_elem_of_In, in_flat_map. exists (s, e). split; apply list_elem_of_In; [|done]. apply elem_of_tagged_ranges; [done..|]. eauto.
Qed.
(** The names of a valid book are its keys. *)
Lemma expansions_lookup raw i c :
  book_valid raw -> categories raw !! i = Some c ->
  expansions raw (enumerate (categories raw)) ∅ !! cat_name c = Some (expansion raw (Z.of_nat i)).
Proof.
  intros Hv Hc. assert (Hmap : forall l (m : gmap (list Z) Z), expansions raw l (expansion raw <$> m) = expansion raw <$> index_names m l).
  { unfold expansions. induction l as [|[j d] l IH]; intros m; cbn; [done|]. by rewrite <- fmap_insert, IH. }
  rewrite <- (fmap_empty (M := gmap (list Z)) (expansion raw)), Hmap, lookup_fmap.
  assert (name_index (from_raw raw []) !! cat_name c = Some (Z.of_nat i)) as E.
  { apply name_index_spec; [done|]. exists c. rewrite Nat2Z.id. split_and!; [lia|done|done]. }
  cbn [name_index from_raw] in E. by rewrite E.
Qed.

Lemma exports_spec raw id t :
  t ∈ flat_map (fun '(s, e) => ipv4_range_to_cidrs s e) (tagged_ranges raw id (ip4 raw))
    ++ flat_map (fun '(s, e) => ipv6_range_to_cidrs s e) (tagged_ranges raw id (ip6 raw)) <-> exports raw id t.
Proof.
  assert (Hshow : forall (f : Z * Z -> str) (g : Z -> Z -> list (Z * Z)) l,
    t ∈ flat_map (fun '(s, e) => map f (g s e)) l <-> exists b, b ∈ flat_map (fun '(s, e) => g s e) l /\ t = f b).
  { intros f g l. rewrite list_elem_of_In, in_flat_map. split.
    - intros ([s e] & Hse & Hin). apply in_map_iff in Hin as (b & <- & Hb). exists b. split; [|done].
      apply list_elem_of_In, in_flat_map. by exists (s, e).
    - intros (b & Hb & ->). apply list_elem_of_In, in_flat_map in Hb as ([s e] & Hse & Hb). exists (s, e). split; [done|].
      by apply in_map. }
  pose proof (Hshow (show_block display_v4) ipv4_blocks (tagged_ranges raw id (ip4 raw))) as H4.
  pose proof (Hshow (show_block display_v6) ipv6_blocks (tagged_ranges raw id (ip6 raw))) as H6.
  rewrite elem_of_app. unfold exports, exported4, exported6, ipv4_range_to_cidrs, ipv6_range_to_cidrs.
  split; (intros [H|H]; [left|right]); [exact (proj1 H4 H)|exact (proj1 H6 H)|exact (proj2 H4 H)|exact (proj2 H6 H)].
Qed.
Lemma entry_catset e : entry_ok (str_pair e) -> 0 <= catset e.
Proof. by intros [_ [? _]]. Qed.

(** The exported projection says of every category of the book exactly what
    the book says: its exact, suffix and keyword entries are those tagged with
    it, its CIDR list is that of its blocks, and an address is in one of its
    blocks exactly when the book itself places the address in the category. *)
Theorem catalog_exact (raw : RawBook) (c : ControlPlaneCatalog) (i : nat) (cat : Category) :
  book_typed raw -> validate raw = Ok tt -> control_plane_catalog raw = Ok c -> categories raw !! i = Some cat ->
  let id := Z.of_nat i in
  cc_categories c = map cat_name (categories raw) /\
  exists e, cc_expansions c !! cat_name cat = Some e /\
    (forall t, t ∈ de_exact (ce_domains e) <-> has_entry raw id (domain_exact raw) t) /\
    (forall t, t ∈ de_suffix (ce_domains e) <-> has_entry raw id (domain_suffix raw) (reverse_labels t)) /\
    (forall t, t ∈ de_keyword (ce_domains e) <-> has_entry raw id (keywords raw) t) /\
    (forall t, t ∈ ce_cidrs e <-> exports raw id t) /\
    (forall a, fits 32 a -> (exists b, b ∈ exported4 raw id /\ in_block 32 b a) <-> host_in (from_raw raw []) (display_v4 a) id) /\
    (forall a, fits 128 a -> to_ipv4_mapped a = None ->
       (exists b, b ∈ exported6 raw id /\ in_block 128 b a) <-> host_in (from_raw raw []) (display_v6 a) id).
Proof.
  intros Ht Hval%validate_valid Hc Hi id. unfold control_plane_catalog in Hc. apply bind_Ok in Hc as (_ & _ & [= <-]).
  split; [done|]. exists (expansion raw id). split; [by apply expansions_lookup|].
  assert (Hid : 0 <= id < len (categories raw)) by (apply lookup_lt_Some in Hi; unfold id, len; lia).
  assert (Hcs : forall l, Forall entry_ok (map str_pair l) -> Forall (fun e => 0 <= catset e) l).
  { intros l. rewrite !Forall_forall. intros Hl e He. apply entry_catset, Hl. by apply list_elem_of_In, in_map, list_elem_of_In. }
  cbn [expansion ce_domains ce_cidrs de_exact de_suffix de_keyword]. split_and!.
  - intros t. rewrite elem_of_btree_set. apply elem_of_tagged; [done..|]. apply Hcs, Ht.
  - intros t. rewrite elem_of_btree_set, list_elem_of_In, in_map_iff. setoid_rewrite <- list_elem_of_In.
    setoid_rewrite (fun x => elem_of_tagged raw id (domain_suffix raw) x Hval Hid (Hcs _ (ty_suffix raw Ht))). split.
    + intros (x & <- & Hx). by rewrite reverse_labels_involutive.
    + intros Hx. exists (reverse_labels t). by rewrite reverse_labels_involutive.
  - intros t. rewrite elem_of_btree_set. apply elem_of_tagged; [done..|]. apply Hcs, Ht.
  - intros t. rewrite elem_of_btree_set. apply exports_spec.
  - intros a Ha. unfold host_in, host_set. pose proof (parse_display_ip (V4 a) Ha) as E. cbn [display_ip] in E. rewrite E.
    exact (exported_blocks false raw id (ip4 raw) a Hval Hid (ty_ip4 raw Ht)).
  - intros a Ha Hm. unfold host_in, host_set. pose proof (parse_display_ip (V6 a) Ha) as E. cbn [display_ip] in E. rewrite E, Hm.
    exact (exported_blocks true raw id (ip6 raw) a Hval Hid (ty_ip6 raw Ht)).
Qed.

Lemma demo_catalog : is_ok (control_plane_catalog demo_book) = true.
Proof. vm_compute. reflexivity. Qed.
Definition demo_export : ControlPlaneCatalog := unwrap_or (control_plane_catalog demo_book) (mkCatalog 0 0 [] ∅).
Lemma range_to_cidrs_exact_witness :
  0 <= 167772161 < 2 ^ 32 /\ (length (blocks false 167772161 167772166) <= 4)%nat /\ NoDup (blocks false 167772161 167772166).
Proof.
  split; [done|]. split; [by apply (bool_decide_unpack _)|].
  apply (range_to_cidrs_exact false 167772161 167772166); cbn; lia.
Defined.
Lemma catalog_exact_witness :
  control_plane_catalog demo_book = Ok demo_export /\
  exists e, cc_expansions demo_export !! lit "google" = Some e /\ forall t, t ∈ ce_cidrs e <-> exports demo_book (Z.of_nat 1) t.
Proof.
  assert (H : control_plane_catalog demo_book = Ok demo_export) by (apply Ok_unwrap_or, demo_catalog). split; [done|].
  destruct (catalog_exact demo_book demo_export 1 (mkCategory (lit "google") u32_max) demo_book_typed ltac:(vm_compute; reflexivity) H eq_refl)
    as (_ & e & He & _ & _ & _ & Hc & _). exists e. split; [exact He|exact Hc].
Defined.
