(* ===== verification/Builder.v ===== *)
(** * Builder: the deterministic address-book builder

    Models src/src/addrbook/builder.rs: registering categories, adding rules
    (with the partial effects an error leaves behind), the boundary sweep over
    overlapping ranges, category-set interning and the final assembly. Ordered
    maps and sets are those of BTree.v. [Panicked] marks the indexing and
    [expect] failures the source would panic on. *)

From Stdlib Require Import ZArith Lia.
From stdpp Require Import prelude strings list gmap.
From S2P Require Import Prelude RustStr Net Domain Rab Policy Book BTree.

Record BookBuilder := mkBuilder {
  bb_epoch : Z;
  bb_categories : gset str;
  bb_ip4 : list (Z * Z * str);
  bb_ip6 : list (Z * Z * str);
  bb_exact : gmap str (gset str);
  bb_suffix : gmap str (gset str);
  bb_keywords : gmap str (gset str)
}.

(** [BookBuilder::new], [BookBuilder::is_empty] *)
Definition builder_new (epoch : Z) : BookBuilder := mkBuilder epoch ∅ [] [] ∅ ∅ ∅.
Definition builder_is_empty (bb : BookBuilder) : bool :=
  is_empty (bb_ip4 bb) && is_empty (bb_ip6 bb) && bool_decide (bb_exact bb = ∅)
  && bool_decide (bb_suffix bb = ∅) && bool_decide (bb_keywords bb = ∅).

Inductive builder_error :=
| EmptyPath | EmptySegment | InvalidSegment | EmptyRule | EmptyDomain | EmptyKeyword
| Ip4OutOfRange | WordsOverflow | Invalid (e : rab_error) | Panicked.

(** Methods on [&mut self] that may fail: the builder keeps what was done. *)
Definition bop (A : Type) : Type := BookBuilder -> BookBuilder * result builder_error A.
#[global] Instance bop_bind : MBind bop := fun A B k m bb =>
  match m bb with
  | (bb, Ok a) => k a bb
  | (bb, Err e) => (bb, Err e)
  end.
Definition bret {A} (r : result builder_error A) : bop A := fun bb => (bb, r).
Definition bmodify (f : BookBuilder -> BookBuilder) : bop unit := fun bb => (f bb, Ok tt).

Definition set_categories (c : gset str) (bb : BookBuilder) : BookBuilder :=
  mkBuilder (bb_epoch bb) c (bb_ip4 bb) (bb_ip6 bb) (bb_exact bb) (bb_suffix bb) (bb_keywords bb).
Definition set_exact m bb :=
  mkBuilder (bb_epoch bb) (bb_categories bb) (bb_ip4 bb) (bb_ip6 bb) m (bb_suffix bb) (bb_keywords bb).
Definition set_suffix m bb :=
  mkBuilder (bb_epoch bb) (bb_categories bb) (bb_ip4 bb) (bb_ip6 bb) (bb_exact bb) m (bb_keywords bb).
Definition set_keywords m bb :=
  mkBuilder (bb_epoch bb) (bb_categories bb) (bb_ip4 bb) (bb_ip6 bb) (bb_exact bb) (bb_suffix bb) m.

(** ** Categories *)

(** The segment checks of [add_category]. *)
Definition check_segment (seg : str) : result builder_error unit :=
  ensure (negb (is_empty seg)) EmptySegment ;; ensure (forallb category_char seg) InvalidSegment.

(** [acc] and every longer path are registered. *)
Fixpoint register (acc : str) (segs : list str) (cats : gset str) : gset str :=
  match segs with
  | [] => cats
  | seg :: segs =>
      let acc := (if is_empty acc then acc else acc ++ [slash]) ++ seg in
      register acc segs ({[acc]} ∪ cats)
  end.

(** [BookBuilder::add_category] *)
Definition add_category (path : str) : bop str := fun bb =>
  let norm := to_ascii_lowercase (trim_matches slash (trim path)) in
  if is_empty norm then (bb, Err EmptyPath)
  else
    match try_fold (fun _ seg => check_segment seg) tt (split slash norm) with
    | Err e => (bb, Err e)
    | Ok _ => (set_categories (register [] (split slash norm) (bb_categories bb)) bb, Ok norm)
    end.

(** ** Rules *)

(** [map.entry(k).or_default().insert(cat)] *)
Definition entry_insert (k cat : str) (m : gmap str (gset str)) : gmap str (gset str) :=
  <[k := {[cat]} ∪ default ∅ (m !! k)]> m.

(** [add_domain_suffix], [add_domain_exact], [add_keyword] *)
Definition add_domain_suffix (category host : str) : bop unit :=
  cat ← add_category category;
  let name := normalize_domain host in
  let name := default name (strip_prefix (lit "*.") name) in
  if is_empty name then bret (Err EmptyDomain)
  else bmodify (fun bb => set_suffix (entry_insert (reverse_labels name) cat (bb_suffix bb)) bb).
Definition add_domain_exact (category host : str) : bop unit :=
  cat ← add_category category;
  let name := normalize_domain host in
  if is_empty name then bret (Err EmptyDomain)
  else bmodify (fun bb => set_exact (entry_insert name cat (bb_exact bb)) bb).
Definition add_keyword (category fragment : str) : bop unit :=
  cat ← add_category category;
  let frag := normalize_domain fragment in
  if is_empty frag then bret (Err EmptyKeyword)
  else bmodify (fun bb => set_keywords (entry_insert frag cat (bb_keywords bb)) bb).

(** [canonicalize_ip_range] *)
Definition canonicalize_ip_range (r : Z * Z * bool) : list (Z * Z * bool) :=
  let '(start, end_, is_v4) := r in
  if is_v4 || (end_ <? IPV4_MAPPED_START) || (IPV4_MAPPED_END <? start) then [(start, end_, is_v4)]
  else
    (if start <? IPV4_MAPPED_START then [(start, IPV4_MAPPED_START - 1, false)] else [])
    ++ [(Z.max start IPV4_MAPPED_START - IPV4_MAPPED_START,
         Z.min end_ IPV4_MAPPED_END - IPV4_MAPPED_START, true)]
    ++ (if IPV4_MAPPED_END <? end_ then [(IPV4_MAPPED_END + 1, end_, false)] else []).

Section Rules.
Context {N : Ipnet}.

(** [parse_ip_entries] *)
Definition parse_ip_entries (s : str) : option (list (Z * Z * bool)) :=
  let t := trim s in
  match ipnet_parse t with
  | Some (inl n) => Some (canonicalize_ip_range (v4net_network n, v4net_broadcast n, true))
  | Some (inr n) => Some (canonicalize_ip_range (v6net_network n, v6net_broadcast n, false))
  | None =>
      match parse_ip_addr t with
      | Some (V4 a) => Some (canonicalize_ip_range (a, a, true))
      | Some (V6 a) => Some (canonicalize_ip_range (a, a, false))
      | None => None
      end
  end.

Definition push_range (cat : str) (bb : BookBuilder) (r : Z * Z * bool) : BookBuilder :=
  let '(start, end_, v4) := r in
  if v4
  then mkBuilder (bb_epoch bb) (bb_categories bb) (bb_ip4 bb ++ [(start, end_, cat)]) (bb_ip6 bb)
         (bb_exact bb) (bb_suffix bb) (bb_keywords bb)
  else mkBuilder (bb_epoch bb) (bb_categories bb) (bb_ip4 bb) (bb_ip6 bb ++ [(start, end_, cat)])
         (bb_exact bb) (bb_suffix bb) (bb_keywords bb).

(** [BookBuilder::add_rule] *)
Definition add_rule (category rule : str) : bop unit :=
  cat ← add_category category;
  let r := trim rule in
  if is_empty r then bret (Err EmptyRule)
  else
    match strip_prefix (lit "full:") r, strip_prefix (lit "keyword:") r, strip_prefix (lit "domain:") r with
    | Some host, _, _ => add_domain_exact cat host
    | None, Some frag, _ => add_keyword cat frag
    | None, None, Some host => add_domain_suffix cat host
    | None, None, None =>
        match parse_ip_entries r with
        | Some ranges => bmodify (fun bb => foldl (push_range cat) bb ranges)
        | None =>
            let pattern := match split_once colon r with Some (_, pattern) => pattern | None => r end in
            add_domain_suffix cat pattern
        end
    end.

End Rules.

(** ** The boundary sweep *)

Abbreviation Boundary := (bool * Z)%type.
Abbreviation segment := (Z * Z * list Z)%type.

(** [events.entry(b).or_default().push(d)] *)
Definition push_event (events : gmap Boundary (list (Z * Z))) (b : Boundary) (d : Z * Z)
    : gmap Boundary (list (Z * Z)) :=
  <[b := default [] (events !! b) ++ [d]]> events.
Definition range_events (events : gmap Boundary (list (Z * Z))) (r : range) : gmap Boundary (list (Z * Z)) :=
  let '(start, end_, cat) := r in
  let events := push_event events (false, start) (cat, 1) in
  let end_excl := match checked_add 128 end_ 1 with Some v => (false, v) | None => (true, 0) end in
  push_event events end_excl (cat, -1).

(** The counter update of one event. *)
Definition apply_delta (active : gmap Z Z) (d : Z * Z) : gmap Z Z :=
  let '(cat, delta) := d in
  let counter := default 0 (active !! cat) + delta in
  if counter <=? 0 then delete cat active else <[cat := counter]> active.

(** A mask with the bits of [ids]. *)
Definition mask_of_ids (words : Z) (ids : list Z) : list Z := foldl set_bit (repeat 0 (Z.to_nat words)) ids.

(** [out.last_mut()] is extended when it touches and has the same mask. *)
Definition push_segment (out : list segment) (s e : Z) (mask : list Z) : list segment :=
  match last out with
  | Some (s0, e0, m0) =>
      if bool_decide (m0 = mask) && bool_decide (checked_add 128 e0 1 = Some s)
      then removelast out ++ [(s0, e, m0)]
      else out ++ [(s, e, mask)]
  | None => out ++ [(s, e, mask)]
  end.

(** One boundary. *)
Definition sweep_step (words : Z) (st : gmap Z Z * list segment * option Boundary)
    (ev : Boundary * list (Z * Z)) : gmap Z Z * list segment * option Boundary :=
  let '(active, out, prev) := st in
  let '(boundary, deltas) := ev in
  let out :=
    match prev with
    | Some (prev_inf, prev_pos) =>
        if negb (bool_decide (active = ∅)) && negb prev_inf then
          let seg_end := match boundary with (false, pos) => pos - 1 | (true, _) => u128_max end in
          push_segment out prev_pos seg_end (mask_of_ids words (map fst (map_to_list active)))
        else out
    | None => out
    end in
  (foldl apply_delta active deltas, out, Some boundary).

(** [sweep] *)
Definition sweep (ranges : list range) (words : Z) : list segment :=
  if is_empty ranges then []
  else
    let events := foldl range_events ∅ ranges in
    let '(_, out, _) := foldl (sweep_step words) (∅, [], None) (bt_entries events) in
    out.

(** ** Assembly *)

(** The position of every category in table order. *)
Definition cat_ids (cat_list : list str) : gmap str Z :=
  foldl (fun m '(i, name) => <[name := wrap 32 (Z.of_nat i)]> m) ∅ (enumerate cat_list).
Definition cat_id (ids : gmap str Z) (c : str) : result builder_error Z := ok_or (ids !! c) Panicked.

Definition build_words (cat_list : list str) : Z :=
  Z.max (div_ceil (len cat_list) 64) (if is_empty cat_list then 0 else 1).

Definition build_category (ids : gmap str Z) (name : str) : result builder_error Category :=
  match rsplit_once slash name with
  | Some (p, _) => parent ← cat_id ids p; Ok (mkCategory name parent)
  | None => Ok (mkCategory name u32_max)
  end.

(** [mask_of] *)
Definition mask_of (ids : gmap str Z) (words : Z) (cats : gset str) : result builder_error (list Z) :=
  l ← try_map (cat_id ids) (bt_elements cats);
  Ok (mask_of_ids words l).

(** The interner: ids of the masks seen, and their words in id order. *)
Definition interner : Type := gmap (list Z) Z * list Z.
Definition intern (st : interner) (mask : list Z) : result builder_error (interner * Z) :=
  let '(ids, catsets) := st in
  match ids !! mask with
  | Some id => Ok (st, id)
  | None =>
      id ← ok_or (try_from 32 (Z.of_nat (size ids))) Panicked;
      Ok ((<[mask := id]> ids, catsets ++ mask), id)
  end.

Definition resolve_range (ids : gmap str Z) (r : Z * Z * str) : result builder_error range :=
  let '(s, e, c) := r in id ← cat_id ids c; Ok (s, e, id).

(** The loops that intern swept ranges and string entries. *)
Fixpoint intern_ranges (narrow : Z -> result builder_error Z) (st : interner) (l : list segment)
    : result builder_error (interner * list range) :=
  match l with
  | [] => Ok (st, [])
  | (s, e, mask) :: l =>
      s ← narrow s;
      e ← narrow e;
      '(st, id) ← intern st mask;
      '(st, rest) ← intern_ranges narrow st l;
      Ok (st, (s, e, id) :: rest)
  end.
Definition narrow4 (x : Z) : result builder_error Z := ok_or (try_from 32 x) Ip4OutOfRange.

Fixpoint intern_entries (ids : gmap str Z) (words : Z) (st : interner) (l : list (str * gset str))
    : result builder_error (interner * list StrEntry) :=
  match l with
  | [] => Ok (st, [])
  | (t, cats) :: l =>
      mask ← mask_of ids words cats;
      '(st, id) ← intern st mask;
      '(st, rest) ← intern_entries ids words st l;
      Ok (st, mkStrEntry t id :: rest)
  end.

(** [BookBuilder::build], [BookBuilder::build_bytes] *)
Definition build (bb : BookBuilder) : result builder_error RawBook :=
  let cat_list := bt_elements (bb_categories bb) in
  let ids := cat_ids cat_list in
  let words := build_words cat_list in
  categories ← try_map (build_category ids) cat_list;
  r4 ← try_map (resolve_range ids) (bb_ip4 bb);
  '(st, ip4) ← intern_ranges narrow4 (∅, []) (sweep r4 words);
  r6 ← try_map (resolve_range ids) (bb_ip6 bb);
  '(st, ip6) ← intern_ranges Ok st (sweep r6 words);
  '(st, domain_exact) ← intern_entries ids words st (bt_entries (bb_exact bb));
  '(st, domain_suffix) ← intern_entries ids words st (bt_entries (bb_suffix bb));
  '(st, keywords) ← intern_entries ids words st (bt_entries (bb_keywords bb));
  words32 ← ok_or (try_from 32 words) WordsOverflow;
  let book := mkRawBook (bb_epoch bb) categories words32 (snd st) ip4 ip6 domain_exact domain_suffix keywords in
  map_err Invalid (validate book) ;;
  Ok book.
Definition build_bytes `{Sha256} (bb : BookBuilder) : result builder_error (list Z) :=
  book ← build bb; map_err Invalid (encode book).

(** ** Examples *)

Definition demo_sweep := sweep [(10, 20, 0); (15, 30, 1); (31, 40, 1); (50, u128_max, 0)] 1.
Example demo_sweep_eq :
  demo_sweep = [(10, 14, [1]); (15, 20, [3]); (21, 40, [2]); (50, u128_max, [1])].
Proof. vm_compute. reflexivity. Qed.
