(* ===== verification/SweepProps.v ===== *)
(** * SweepProps: the boundary sweep is exact and canonical

    [sweep] of Builder.v turns overlapping categorized ranges into disjoint
    segments: a segment's mask is the set of categories covering each of its
    points, every covered point lies in a segment, and touching segments differ. *)

From Stdlib Require Import ZArith Lia.
From stdpp Require Import prelude strings list gmap sorting.
From S2P Require Import Prelude RustStr Rab RabValid Book BookProps BTree Builder.

(** ** Counting covers *)

(** Whether range [r] of category [c] covers point [x], as a number. *)
Definition hit (c x : Z) (r : range) : Z :=
  let '(s, e, c') := r in if (c' =? c) && (s <=? x) && (x <=? e) then 1 else 0.
Fixpoint count (l : list range) (c x : Z) : Z :=
  match l with [] => 0 | r :: l => hit c x r + count l c x end.

(** Some range of category [c] covers [x]. *)
Definition covered (l : list range) (x c : Z) : Prop := exists s e, (s, e, c) ∈ l /\ s <= x <= e.

Lemma count_covered l c x : 0 <= count l c x /\ (0 < count l c x <-> covered l x c).
Proof.
  unfold covered. induction l as [|[[s e] c'] l [Hn IH]]; cbn [count hit].
  - split; [lia|]. split; [lia|]. intros (? & ? & []%elem_of_nil & _).
  - destruct ((c' =? c) && (s <=? x) && (x <=? e)) eqn:E.
    + bools. subst c'. split; [lia|]. split; [|lia]. intros _. exists s, e. split; [left|lia].
    + split; [lia|]. rewrite Z.add_0_l, IH. split.
      * intros (s' & e' & Hin & Hx). exists s', e'. split; [by right|done].
      * intros (s' & e' & Hin & Hx). apply elem_of_cons in Hin as [Heq|Hin]; [|eauto]. injection Heq as -> -> ->.
        rewrite Z.eqb_refl, (proj2 (Z.leb_le _ _)), (proj2 (Z.leb_le _ _)) in E by lia. done.
Qed.

(** ** Boundaries and their events *)

Definition bpos (b : Boundary) : Z := let '(inf, p) := b in if inf then 2 ^ 128 else p.
Definition bvalid (b : Boundary) : Prop := b = (true, 0) \/ exists p, b = (false, p) /\ 0 <= p < 2 ^ 128.
Definition bend (e : Z) : Boundary := match checked_add 128 e 1 with Some v => (false, v) | None => (true, 0) end.

Lemma bend_spec e : 0 <= e < 2 ^ 128 -> bvalid (bend e) /\ bpos (bend e) = e + 1.
Proof.
  intros He. unfold bend, checked_add, bvalid. destruct (Z.ltb_spec (e + 1) (2 ^ 128)).
  - split; [right; exists (e + 1); split; [done|lia]|done].
  - split; [by left|]. cbn -[Z.pow]. lia.
Qed.

Lemma bpos_inj a b : bvalid a -> bvalid b -> bpos a = bpos b -> a = b.
Proof. intros [->|(p & -> & Hp)] [->|(q & -> & Hq)]; cbn -[Z.pow]; intros; try done; try lia. by subst. Qed.

Lemma bpos_lt a b : bvalid a -> bvalid b -> key_lt a b -> bpos a < bpos b.
Proof.
  intros [->|(p & -> & Hp)] [->|(q & -> & Hq)]; unfold key_lt, key_ltb, boundary_order; cbn -[Z.pow];
    rewrite ?orb_false_r; intros H; bools; try done; lia.
Qed.

(** The events a range list produces, in order, and those at one boundary. *)
Definition flat1 (r : range) : list (Boundary * (Z * Z)) :=
  let '(s, e, c) := r in [((false, s), (c, 1)); (bend e, (c, -1))].
Definition at_boundary (b : Boundary) (l : list range) : list (Z * Z) :=
  omap (fun '(b', d) => if decide (b' = b) then Some d else None) (concat (map flat1 l)).

Lemma at_boundary_cons b s e c l :
  at_boundary b ((s, e, c) :: l) =
  (if decide ((false, s) = b) then [(c, 1)] else []) ++ (if decide (bend e = b) then [(c, -1)] else []) ++ at_boundary b l.
Proof.
  unfold at_boundary. cbn [map concat flat1 app omap list_omap].
  by destruct (decide ((false, s) = b)), (decide (bend e = b)).
Qed.

Lemma push_event_lookup ev b d b' :
  push_event ev b d !! b' = if decide (b = b') then Some (default [] (ev !! b') ++ [d]) else ev !! b'.
Proof.
  unfold push_event. destruct (decide (b = b')) as [->|]; [by rewrite lookup_insert_eq|by rewrite lookup_insert_ne].
Qed.

Lemma events_lookup_gen l ev b :
  foldl range_events ev l !! b =
  match at_boundary b l with [] => ev !! b | ds => Some (default [] (ev !! b) ++ ds) end.
Proof.
  revert ev; induction l as [|[[s e] c] l IH]; intros ev; cbn [foldl]; [done|].
  rewrite IH, at_boundary_cons. cbn [range_events]. fold (bend e). rewrite !push_event_lookup.
  destruct (decide ((false, s) = b)), (decide (bend e = b)); cbn [app default];
    destruct (at_boundary b l); cbn; by rewrite <- ?app_assoc.
Qed.

Lemma events_lookup l b ds :
  foldl range_events ∅ l !! b = Some ds <-> ds = at_boundary b l /\ ds <> [].
Proof.
  rewrite events_lookup_gen, lookup_empty. cbn. destruct (at_boundary b l); naive_solver.
Qed.

(** ** Counters *)

Fixpoint net (c : Z) (ds : list (Z * Z)) : Z :=
  match ds with [] => 0 | (c', d) :: ds => (if c' =? c then d else 0) + net c ds end.
Fixpoint negs (c : Z) (ds : list (Z * Z)) : Z :=
  match ds with [] => 0 | (c', d) :: ds => (if (c' =? c) && (d <? 0) then 1 else 0) + negs c ds end.

Lemma net_app c a b : net c (a ++ b) = net c a + net c b.
Proof. induction a as [|[c' d] a IH]; cbn [app net]; lia. Qed.
Lemma negs_app c a b : negs c (a ++ b) = negs c a + negs c b.
Proof. induction a as [|[c' d] a IH]; cbn [app negs]; lia. Qed.
Lemma negs_nonneg c ds : 0 <= negs c ds.
Proof. induction ds as [|[c' d] ds IH]; cbn [negs]; [lia|]. destruct (_ && _); lia. Qed.

Definition counter (active : gmap Z Z) (c : Z) : Z := default 0 (active !! c).
Definition positive (active : gmap Z Z) : Prop := map_Forall (fun _ v => 0 < v) active.

Lemma counter_apply active cat d c :
  positive active -> 0 <= counter active cat + d ->
  counter (apply_delta active (cat, d)) c = counter active c + (if cat =? c then d else 0) /\
  positive (apply_delta active (cat, d)).
Proof.
  intros Hp Hd. unfold apply_delta. fold (counter active cat).
  destruct (Z.leb_spec (counter active cat + d) 0) as [Hle|Hgt]; unfold counter at 1.
  - split; [|by apply map_Forall_delete]. destruct (Z.eqb_spec cat c) as [->|Hne].
    + rewrite lookup_delete_eq. cbn. lia.
    + rewrite lookup_delete_ne by done. unfold counter. lia.
  - split; [|by apply map_Forall_insert_2]. destruct (Z.eqb_spec cat c) as [->|Hne].
    + by rewrite lookup_insert_eq.
    + rewrite lookup_insert_ne by done. unfold counter. lia.
Qed.

(** When no counter would go negative, the events of a boundary add up. *)
Lemma apply_deltas ds active :
  positive active -> Forall (fun '(_, d) => d = 1 \/ d = -1) ds ->
  (forall c, negs c ds <= counter active c) ->
  positive (foldl apply_delta active ds) /\
  forall c, counter (foldl apply_delta active ds) c = counter active c + net c ds.
Proof.
  revert active; induction ds as [|[cat d] ds IH]; intros active Hp Hd Hn; cbn [foldl].
  { split; [done|]. intros. cbn. lia. }
  inversion Hd as [|? ? Hd1 Hds]; subst.
  assert (H0 : 0 <= counter active cat + d).
  { specialize (Hn cat). cbn [negs] in Hn. pose proof (negs_nonneg cat ds). rewrite Z.eqb_refl in Hn.
    destruct Hd1 as [->| ->]; cbn in Hn; lia. }
  destruct (IH (apply_delta active (cat, d))) as [Hp' Hc]; [by apply (counter_apply _ _ _ 0)|done| |].
  - intros c. destruct (counter_apply active cat d c Hp H0) as [-> _].
    specialize (Hn c). cbn [negs] in Hn. destruct (cat =? c), Hd1 as [->| ->]; cbn in Hn; lia.
  - split; [done|]. intros c. rewrite Hc. destruct (counter_apply active cat d c Hp H0) as [-> _].
    cbn [net]. lia.
Qed.

(** ** One step along the axis *)

Definition range_ok (n : Z) (r : range) : Prop :=
  let '(s, e, c) := r in 0 <= s <= e /\ e < 2 ^ 128 /\ 0 <= c < n.

(** [b] is a boundary of the range. *)
Definition edge (r : range) (b : Boundary) : Prop := let '(s, e, _) := r in b = (false, s) \/ b = bend e.
(** No boundary lies strictly between positions [p] and [q]. *)
Definition gap (l : list range) (p q : Z) : Prop :=
  Forall (fun r => forall b, edge r b -> bpos b <= p \/ q <= bpos b) l.

Lemma gap_cons n s e c l p q :
  range_ok n (s, e, c) -> gap ((s, e, c) :: l) p q -> (s <= p \/ q <= s) /\ (e < p \/ q <= e + 1) /\ gap l p q.
Proof.
  intros (Hs & He & _) Hg. inversion Hg as [|? ? H1 H2]; subst. split_and!; [| |done].
  - apply (H1 (false, s)). by left.
  - pose proof (H1 (bend e) ltac:(by right)) as H3. rewrite (proj2 (bend_spec e ltac:(lia))) in H3. lia.
Qed.

(** Between boundaries the covers do not change. *)
Lemma count_gap n l c p q x :
  Forall (range_ok n) l -> gap l p q -> p <= x < q -> count l c x = count l c p.
Proof.
  induction l as [|[[s e] c'] l IH]; intros Hok Hg Hx; [done|]. inversion Hok as [|? ? H1 H2]; subst.
  destruct (gap_cons n _ _ _ _ _ _ H1 Hg) as (Hs & He & Hg'). cbn [count hit]. rewrite IH by done. f_equal.
  destruct (c' =? c); [|done]. cbn [andb].
  destruct (Z.leb_spec s x), (Z.leb_spec x e), (Z.leb_spec s p), (Z.leb_spec p e); cbn; lia.
Qed.

(** At a boundary they change by its events. *)
Lemma count_step n l c p b :
  Forall (range_ok n) l -> bvalid b -> p < bpos b -> gap l p (bpos b) ->
  count l c (bpos b) = count l c p + net c (at_boundary b l) /\ negs c (at_boundary b l) <= count l c p.
Proof.
  intros Hok Hb Hp. induction l as [|[[s e] c'] l IH]; intros Hg; [done|]. inversion Hok as [|? ? H1 H2]; subst.
  destruct (gap_cons n _ _ _ _ _ _ H1 Hg) as (Hs & He & Hg'). destruct H1 as (Hse & He' & _).
  destruct (IH H2 Hg') as [IH1 IH2]. cbn [count hit]. rewrite at_boundary_cons, !net_app, !negs_app.
  rewrite IH1. remember (bpos b) as q eqn:Eq. destruct (bend_spec e ltac:(lia)) as [Hve Hpe].
  assert (Ds : if decide ((false, s) = b) then s = q else s <> q).
  { destruct (decide _) as [<-|Hne]; [done|]. intros Hq. apply Hne. apply bpos_inj; [right; eexists; split; [done|lia]|done|]. by rewrite <- Eq. }
  assert (De : if decide (bend e = b) then e + 1 = q else e + 1 <> q).
  { destruct (decide (bend e = b)) as [Hd|Hne]; [by rewrite Eq, <- Hd, Hpe|]. intros Hq. apply Hne. apply bpos_inj; [done|done|]. by rewrite Hpe, Hq. }
  destruct (decide ((false, s) = b)), (decide (bend e = b)); cbn [net negs]; destruct (c' =? c); cbn [andb];
    destruct (Z.leb_spec s q), (Z.leb_spec q e), (Z.leb_spec s p), (Z.leb_spec p e); cbn [andb] in *; cbn; lia.
Qed.

(** ** Masks *)

Lemma mask_of_ids_gen mask ids id :
  Forall (fun i => 0 <= i) ids -> 0 <= id ->
  get_bit (foldl set_bit mask ids) id = true <-> get_bit mask id = true \/ (id ∈ ids /\ id / 64 < Rab.len mask).
Proof.
  intros Hids Hid. revert mask; induction Hids as [|i ids Hi Hids IH]; intros mask; cbn [foldl].
  { rewrite elem_of_nil. naive_solver. }
  rewrite IH, get_bit_set_bit, orb_true_iff, andb_true_iff, Z.eqb_eq, Z.ltb_lt by lia.
  unfold Rab.len. rewrite length_set_bit, elem_of_cons. naive_solver.
Qed.

Lemma mask_of_ids_bit words ids id :
  Forall (fun i => 0 <= i < 64 * words) ids -> 0 <= id ->
  get_bit (mask_of_ids words ids) id = true <-> id ∈ ids.
Proof.
  intros Hids Hid. unfold mask_of_ids. rewrite mask_of_ids_gen, get_bit_zeros; [|eapply Forall_impl; [exact Hids|]; cbn; lia|done].
  unfold Rab.len. rewrite repeat_length. split; [naive_solver|]. intros Hin. right. split; [done|].
  rewrite Forall_forall in Hids. specialize (Hids id Hin). apply Z.div_lt_upper_bound; lia.
Qed.

(** A mask of [words] 64-bit words. *)
Definition mask_shape (words : Z) (m : list Z) : Prop := length m = Z.to_nat words /\ Forall (fits 64) m.

Lemma set_bit_shape words m id : mask_shape words m -> mask_shape words (set_bit m id).
Proof.
  intros [Hl Hf]. split; [by rewrite length_set_bit|]. unfold set_bit.
  destruct (m !! Z.to_nat (id / 64)) as [x|] eqn:Ex; [|done]. apply Forall_insert; [done|].
  pose proof (Forall_lookup_1 _ _ _ _ Hf Ex) as [Hx1 Hx2]. pose proof (Z.mod_pos_bound id 64 ltac:(lia)).
  apply fits_lor; [done|]. rewrite Z.shiftl_1_l. split; [lia|]. apply Z.pow_lt_mono_r; lia.
Qed.

Lemma mask_of_ids_shape words ids : mask_shape words (mask_of_ids words ids).
Proof.
  unfold mask_of_ids.
  assert (H0 : mask_shape words (repeat 0 (Z.to_nat words))).
  { split; [apply repeat_length|]. apply Forall_forall. intros x Hx%list_elem_of_In%repeat_spec. subst. done. }
  revert H0. generalize (repeat 0 (Z.to_nat words)). induction ids as [|i ids IH]; intros m Hm; [done|].
  apply IH. by apply set_bit_shape.
Qed.

(** Masks of the same shape and bits are equal. *)
Lemma mask_ext words m1 m2 :
  mask_shape words m1 -> mask_shape words m2 ->
  (forall id, 0 <= id -> get_bit m1 id = true <-> get_bit m2 id = true) -> m1 = m2.
Proof.
  intros [Hl1 Hf1] [Hl2 Hf2] Hb. apply list_eq_same_length with (Z.to_nat words); [done|done|].
  intros i x y Hi Hx Hy. pose proof (Forall_lookup_1 _ _ _ _ Hf1 Hx) as [Hx0 Hx1].
  pose proof (Forall_lookup_1 _ _ _ _ Hf2 Hy) as [Hy0 Hy1]. apply Z.bits_inj'. intros k Hk.
  destruct (Z.lt_ge_cases k 64) as [Hk64|Hk64].
  - specialize (Hb (64 * Z.of_nat i + k) ltac:(lia)). rewrite !get_bit_testbit in Hb.
    replace ((64 * Z.of_nat i + k) / 64) with (Z.of_nat i) in Hb by (apply Z.div_unique with k; lia).
    replace ((64 * Z.of_nat i + k) mod 64) with k in Hb by (apply Z.mod_unique with (Z.of_nat i); lia).
    rewrite Nat2Z.id, Hx, Hy in Hb. destruct (Z.testbit x k), (Z.testbit y k); naive_solver.
  - by rewrite !(testbit_above 64).
Qed.

(** ** The sweep *)

(** Disjoint and ascending; touching segments have different masks. *)
Definition seg_lt (a b : segment) : Prop :=
  let '(_, e, m) := a in let '(s', _, m') := b in e < s' /\ (e + 1 = s' -> m <> m').

Section Sweep.
Context (words : Z) (l : list range) (Hl : Forall (range_ok (64 * words)) l).

(** A segment states exactly the categories covering each of its points. *)
Definition seg_exact (seg : segment) : Prop :=
  let '(s, e, m) := seg in
  0 <= s <= e /\ mask_shape words m /\ (exists c, 0 <= c /\ get_bit m c = true) /\
  forall x c, s <= x <= e -> 0 <= c -> get_bit m c = true <-> covered l x c.

(** The segments describe the points below [p]. *)
Record out_ok (p : Z) (out : list segment) : Prop := {
  oo_exact : Forall seg_exact out;
  oo_below : Forall (fun '(_, e, _) => e < p) out;
  oo_complete : forall x c, x < p -> covered l x c -> exists s e m, (s, e, m) ∈ out /\ s <= x <= e;
  oo_sorted : StronglySorted seg_lt out
}.

Lemma out_ok_skip p q out :
  out_ok p out -> p <= q -> (forall x c, p <= x < q -> ~ covered l x c) -> out_ok q out.
Proof.
  intros [He Hb Hc Hs] Hpq Hn. split; [done| | |done].
  - eapply Forall_impl; [exact Hb|]. intros [[? ?] ?]. lia.
  - intros x c Hx Hcov. destruct (Z.lt_ge_cases x p); [by apply (Hc x c)|]. exfalso. by apply (Hn x c); [lia|].
Qed.

Lemma out_ok_merge p q out s0 e0 m :
  out_ok p (out ++ [(s0, e0, m)]) -> e0 + 1 = p -> p < q ->
  (forall x c, p <= x < q -> 0 <= c -> get_bit m c = true <-> covered l x c) ->
  out_ok q (out ++ [(s0, q - 1, m)]).
Proof.
  intros [He Hb Hc Hs] He0 Hpq Hm. apply Forall_app in He as [He He1]. apply Forall_app in Hb as [Hb Hb1].
  apply Forall_singleton in He1 as (Hs0 & Hsh & Hne & Hex). subst p. split.
  - apply Forall_app. split; [done|]. constructor; [|constructor]. split; [lia|]. split; [done|]. split; [done|].
    intros x c Hx Hc0. destruct (Z.le_gt_cases x e0); [apply Hex; lia|apply Hm; lia].
  - apply Forall_app. split; [|by repeat constructor; lia]. eapply Forall_impl; [exact Hb|]. intros [[? ?] ?]. lia.
  - intros x c Hx Hcov. destruct (Z.lt_ge_cases x (e0 + 1)) as [Hlt|Hge].
    + destruct (Hc x c Hlt Hcov) as (s & e & m' & Hin & Hxe). apply elem_of_app in Hin as [Hin|Hin].
      * exists s, e, m'. split; [apply elem_of_app; by left|done].
      * apply list_elem_of_singleton in Hin. injection Hin as -> -> ->.
        exists s0, (q - 1), m. split; [apply elem_of_app; right; left|lia].
    + exists s0, (q - 1), m. split; [apply elem_of_app; right; left|lia].
  - apply StronglySorted_app in Hs as (H1 & H2 & _). apply StronglySorted_app. split_and!; [|done|by repeat constructor].
    intros [[s1 e1] m1] x2 Hx1 ->%list_elem_of_singleton. exact (H1 (s1, e1, m1) (s0, e0, m) Hx1 ltac:(left)).
Qed.

Lemma out_ok_push p q out m :
  out_ok p out -> 0 <= p < q -> mask_shape words m -> (exists c, 0 <= c /\ get_bit m c = true) ->
  (forall x c, p <= x < q -> 0 <= c -> get_bit m c = true <-> covered l x c) ->
  Forall (fun '(_, e, m') => e + 1 = p -> m' <> m) out ->
  out_ok q (out ++ [(p, q - 1, m)]).
Proof.
  intros [He Hb Hc Hs] Hpq Hsh Hne Hm Ht. split.
  - apply Forall_app. split; [done|]. constructor; [|constructor]. split; [lia|]. split; [done|]. split; [done|].
    intros x c Hx Hc0. apply Hm; lia.
  - apply Forall_app. split; [|by repeat constructor; lia]. eapply Forall_impl; [exact Hb|]. intros [[? ?] ?]. lia.
  - intros x c Hx Hcov. destruct (Z.lt_ge_cases x p) as [Hlt|Hge].
    + destruct (Hc x c Hlt Hcov) as (s & e & m' & Hin & Hxe). exists s, e, m'. split; [apply elem_of_app; by left|done].
    + exists p, (q - 1), m. split; [apply elem_of_app; right; left|lia].
  - apply StronglySorted_app. split_and!; [|done|by repeat constructor].
    intros [[s1 e1] m1] x2 Hx1 ->%list_elem_of_singleton. rewrite Forall_forall in Hb, Ht.
    split; [exact (Hb _ Hx1)|exact (Ht _ Hx1)].
Qed.

(** Only the last segment can touch the next one. *)
Lemma last_touches p out s0 e0 m0 m :
  out_ok p (out ++ [(s0, e0, m0)]) -> (e0 + 1 = p -> m0 <> m) ->
  Forall (fun '(_, e, m') => e + 1 = p -> m' <> m) (out ++ [(s0, e0, m0)]).
Proof.
  intros [He Hb _ Hs] Hm. apply Forall_app. split; [|by repeat constructor].
  apply StronglySorted_app in Hs as (H1 & _ & _). apply Forall_app in Hb as [_ Hb]. apply Forall_app in He as [_ He].
  rewrite Forall_singleton in Hb. apply Forall_singleton in He as (Hs0 & _).
  apply Forall_forall. intros [[s1 e1] m1] Hin Heq.
  destruct (H1 (s1, e1, m1) (s0, e0, m0) Hin ltac:(left)) as [Hlt _]. lia.
Qed.

Lemma push_segment_ok p q out m :
  out_ok p out -> 0 <= p < q -> p < 2 ^ 128 -> mask_shape words m -> (exists c, 0 <= c /\ get_bit m c = true) ->
  (forall x c, p <= x < q -> 0 <= c -> get_bit m c = true <-> covered l x c) ->
  out_ok q (push_segment out p (q - 1) m).
Proof.
  intros Hok Hpq Hp Hsh Hne Hm. unfold push_segment.
  destruct (last out) as [[[s0 e0] m0]|] eqn:El.
  - apply last_Some in El as [out' ->]. rewrite removelast_last.
    destruct (bool_decide (m0 = m) && bool_decide (checked_add 128 e0 1 = Some p)) eqn:E.
    + apply andb_true_iff in E as [->%bool_decide_eq_true Hadd%bool_decide_eq_true].
      apply (out_ok_merge p q out' s0 e0 m Hok); [|lia|done]. unfold checked_add in Hadd.
      destruct (Z.ltb_spec (e0 + 1) (2 ^ 128)); [|done]. by injection Hadd.
    + apply out_ok_push; try done. apply last_touches; [done|]. intros <- ->.
      rewrite bool_decide_eq_true_2 in E by done. unfold checked_add in E.
      rewrite (proj2 (Z.ltb_lt _ _)), bool_decide_eq_true_2 in E by done. done.
  - apply last_None in El as ->. by apply out_ok_push.
Qed.

(** The state after the events up to position [p]. *)
Record sweep_inv (p : Z) (st : gmap Z Z * list segment * option Boundary) : Prop := {
  si_positive : positive (fst (fst st));
  si_counts : forall c, counter (fst (fst st)) c = count l c p;
  si_out : out_ok p (snd (fst st));
  si_prev : match snd st with None => p = -1 | Some b => bvalid b /\ p = bpos b end
}.

Lemma active_mask p active :
  positive active -> (forall c, counter active c = count l c p) ->
  (forall c, 0 <= c -> get_bit (mask_of_ids words (map fst (map_to_list active))) c = true <-> covered l p c) /\
  (active = ∅ -> forall c, ~ covered l p c) /\ (active <> ∅ -> exists c, 0 <= c /\ covered l p c).
Proof.
  intros Hpos Hcnt.
  assert (Hkey : forall c, c ∈ map fst (map_to_list active) <-> covered l p c).
  { intros c. rewrite <- (proj2 (count_covered l c p)), <- Hcnt. unfold counter.
    change (map fst) with (fmap (M:=list) (@fst Z Z)). rewrite list_elem_of_fmap. split.
    - intros ([c' v] & -> & Hin%elem_of_map_to_list). cbn. rewrite Hin. cbn. exact (Hpos _ _ Hin).
    - intros Hc. destruct (active !! c) as [v|] eqn:Ev; [|cbn in Hc; lia]. exists (c, v).
      by rewrite elem_of_map_to_list. }
  assert (Hrange : forall c, covered l p c -> 0 <= c < 64 * words).
  { intros c (s & e & Hin & _). rewrite Forall_forall in Hl. specialize (Hl _ Hin). cbn in Hl. lia. }
  split_and!.
  - intros c Hc. rewrite mask_of_ids_bit; [apply Hkey| |done]. apply Forall_forall. intros c'. rewrite Hkey. apply Hrange.
  - intros -> c. rewrite <- Hkey, map_to_list_empty. apply not_elem_of_nil.
  - intros Hne. apply map_choose in Hne as (c & v & Hv). exists c. assert (covered l p c) as Hc.
    { apply Hkey. change (map fst) with (fmap (M:=list) (@fst Z Z)). apply list_elem_of_fmap. exists (c, v).
      by rewrite elem_of_map_to_list. }
    split; [|done]. apply Hrange in Hc. lia.
Qed.

Lemma sweep_step_ok p st b :
  sweep_inv p st -> bvalid b -> p < bpos b -> gap l p (bpos b) ->
  sweep_inv (bpos b) (sweep_step words st (b, at_boundary b l)).
Proof.
  destruct st as [[active out] prev]. intros [Hpos Hcnt Hout Hprev] Hb Hlt Hgap. cbn in Hpos, Hcnt, Hout, Hprev.
  assert (Hsame : forall x c, p <= x < bpos b -> covered l x c <-> covered l p c).
  { intros x c Hx. rewrite <- !(proj2 (count_covered _ _ _)). by rewrite (count_gap _ l c p (bpos b) x Hl). }
  destruct (active_mask p active Hpos Hcnt) as (Hmask & Hempty & Hnonempty).
  assert (Hds : Forall (fun '(_, d) => d = 1 \/ d = -1) (at_boundary b l)).
  { clear. induction l as [|[[s e] c] l' IH]; [constructor|]. rewrite at_boundary_cons.
    repeat apply Forall_app_2; [| |done]; (destruct (decide _); [apply Forall_singleton; auto|constructor]). }
  destruct (apply_deltas (at_boundary b l) active Hpos Hds) as [Hpos' Hcnt'].
  { intros c. rewrite Hcnt. by apply (count_step (64 * words) l c p b). }
  unfold sweep_step. split; cbn [fst snd]; [done| | |done].
  - intros c. rewrite Hcnt', Hcnt. symmetry. by apply (count_step (64 * words)).
  - assert (Hskip : active = ∅ -> out_ok (bpos b) out).
    { intros He. apply (out_ok_skip p); [done|lia|]. intros x c Hx. rewrite Hsame by done. by apply Hempty. }
    destruct prev as [[inf pos]|].
    + destruct Hprev as [Hv ->]. destruct (decide (active = ∅)) as [He|Hne].
      { rewrite bool_decide_eq_true_2 by done. by apply Hskip. }
      rewrite bool_decide_eq_false_2 by done. destruct Hv as [[= -> ->]|(q & [= -> ->] & Hq)]; cbn [negb andb].
      { exfalso. destruct Hb as [->|(q & -> & Hq)]; cbn -[Z.pow] in Hlt; lia. }
      cbn [bpos] in *. replace (match b with (false, pos) => pos - 1 | (true, _) => u128_max end) with (bpos b - 1)
        by (destruct b as [[] ?]; reflexivity).
      apply push_segment_ok; [done|lia|lia|apply mask_of_ids_shape| |].
      * destruct (Hnonempty Hne) as (c & Hc & Hcov). exists c. split; [done|]. by apply Hmask.
      * intros x c Hx Hc. rewrite Hsame by done. by apply Hmask.
    + apply Hskip. apply map_empty. intros c. destruct (active !! c) as [v|] eqn:Ev; [exfalso|done].
      assert (0 < v) by exact (Hpos _ _ Ev). specialize (Hcnt c). unfold counter in Hcnt. rewrite Ev in Hcnt. cbn in Hcnt.
      assert (covered l p c) as (s & e & Hin & Hse) by (apply count_covered; lia).
      rewrite Forall_forall in Hl. specialize (Hl _ Hin). cbn in Hl. lia.
Qed.

Lemma sweep_fold evs p st :
  sweep_inv p st -> StronglySorted key_lt (map fst evs) ->
  Forall (fun '(b, ds) => ds = at_boundary b l /\ bvalid b /\ p < bpos b) evs ->
  (forall r b, r ∈ l -> edge r b -> p < bpos b -> b ∈ map fst evs) ->
  exists p', sweep_inv p' (foldl (sweep_step words) st evs) /\ forall r b, r ∈ l -> edge r b -> bpos b <= p'.
Proof.
  revert p st; induction evs as [|[b ds] evs IH]; intros p st Hinv Hs Hev Hcomp; cbn [foldl].
  - exists p. split; [done|]. intros r b Hr He. destruct (Z.le_gt_cases (bpos b) p); [done|].
    by apply Hcomp, elem_of_nil in He.
  - apply Forall_cons in Hev as [(-> & Hb & Hlt) Hev']. cbn [map fst] in Hs. inversion Hs as [|? ? Hs' Hall]; subst.
    rewrite Forall_map in Hall.
    assert (Hafter : Forall (fun '(b', ds) => ds = at_boundary b' l /\ bvalid b' /\ bpos b < bpos b') evs).
    { rewrite Forall_forall in Hall, Hev' |- *. intros [b' ds] Hin. destruct (Hev' _ Hin) as (? & Hv & _).
      split_and!; [done|done|]. apply bpos_lt; [done|done|]. exact (Hall _ Hin). }
    apply (IH (bpos b)); [|done|done|].
    + apply (sweep_step_ok p); [done..|]. apply Forall_forall. intros r Hr b' He.
      destruct (Z.le_gt_cases (bpos b') p); [by left|right]. apply (Hcomp _ _ Hr) in He; [|lia]. cbn [map fst] in He.
      apply elem_of_cons in He as [->|He]; [lia|]. apply list_elem_of_In, in_map_iff in He as ([b2 ds] & <- & Hin%list_elem_of_In).
      rewrite Forall_forall in Hafter. destruct (Hafter _ Hin) as (_ & _ & ?). cbn. lia.
    + intros r b' Hr He Hgt. apply (Hcomp _ _ Hr) in He; [|lia]. cbn [map fst] in He. apply elem_of_cons in He as [->|He]; [lia|done].
Qed.

Lemma at_boundary_edge b : at_boundary b l <> [] <-> exists r, r ∈ l /\ edge r b.
Proof.
  clear Hl. induction l as [|[[s e] c] l' IH].
  - split; [done|]. intros (? & []%elem_of_nil & _).
  - rewrite at_boundary_cons. setoid_rewrite elem_of_cons. split.
    + destruct (decide ((false, s) = b)) as [<-|]; [intros _; exists (s, e, c); split; [by left|by left]|].
      destruct (decide (bend e = b)) as [<-|]; [intros _; exists (s, e, c); split; [by left|by right]|].
      cbn. rewrite IH. naive_solver.
    + intros (r & [->|Hr] & He).
      * destruct He as [-> | ->]; [by rewrite decide_True|]. rewrite (decide_True (P := bend e = bend e)) by done.
        by destruct (decide _).
      * intros [_ [_ Hn]%app_eq_nil]%app_eq_nil. by apply (proj2 IH (ex_intro _ r (conj Hr He))).
Qed.

(** The whole sweep: exact, complete, canonical. *)
Record sweep_spec (out : list segment) : Prop := {
  ss_sorted : StronglySorted seg_lt out;
  ss_exact : Forall seg_exact out;
  ss_covers : forall x c, 0 <= c ->
    (exists s e m, (s, e, m) ∈ out /\ s <= x <= e /\ get_bit m c = true) <-> covered l x c
}.

Lemma sweep_ok : sweep_spec (sweep l words).
Proof.
  unfold sweep. destruct (is_empty l) eqn:El.
  { assert (El' : l = []) by by destruct l. split; [constructor|constructor|]. unfold covered. rewrite El'.
    intros x c _. split; [by intros (? & ? & ? & []%elem_of_nil & _)|by intros (? & ? & []%elem_of_nil & _)]. }
  assert (Hvalid : forall r b, r ∈ l -> edge r b -> bvalid b /\ -1 < bpos b).
  { intros [[s e] c] b Hr He. rewrite Forall_forall in Hl. specialize (Hl _ Hr). cbn in Hl.
    destruct He as [->| ->]; [split; [right; eexists; split; [done|lia]|cbn; lia]|].
    destruct (bend_spec e ltac:(lia)) as [? ->]. split; [done|lia]. }
  destruct (sweep_fold (bt_entries (foldl range_events ∅ l)) (-1) (∅, [], None)) as (p' & Hinv & Hmax).
  - split; cbn; [apply map_Forall_empty| | |done].
    + intros c. unfold counter. rewrite lookup_empty. cbn. destruct (count_covered l c (-1)) as [Hn Hc].
      destruct (Z.eq_dec (count l c (-1)) 0) as [|Hne]; [done|]. destruct (proj1 Hc ltac:(lia)) as (s & e & Hin & ?).
      rewrite Forall_forall in Hl. specialize (Hl _ Hin). cbn in Hl. lia.
    + split; [constructor|constructor| |constructor]. intros x c Hx (s & e & Hin & ?).
      rewrite Forall_forall in Hl. specialize (Hl _ Hin). cbn in Hl. lia.
  - apply bt_entries_sorted.
  - apply Forall_forall. intros [b ds] Hin%elem_of_bt_entries%events_lookup. destruct Hin as [-> Hne].
    apply at_boundary_edge in Hne as (r & Hr & He). split; [done|]. by eapply Hvalid.
  - intros r b Hr He _. apply list_elem_of_In, in_map_iff. exists (b, at_boundary b l). split; [done|].
    apply list_elem_of_In, elem_of_bt_entries, events_lookup. split; [done|]. apply at_boundary_edge. eauto.
  - destruct (foldl (sweep_step words) _ _) as [[active out] prev]. destruct Hinv as [_ _ [He Hb Hc Hs] _]. cbn in *.
    split; [done|done|]. intros x c Hc0. rewrite Forall_forall in He. split.
    + intros (s & e & m & Hin & Hx & Hbit). destruct (He _ Hin) as (_ & _ & _ & Hex). by apply Hex.
    + intros Hcov. pose proof Hcov as (s0 & e0 & Hin0 & Hx0).
      assert (x < p') as Hxp.
      { pose proof (Hmax _ (bend e0) Hin0 ltac:(by right)) as Hm. rewrite Forall_forall in Hl. specialize (Hl _ Hin0).
        cbn in Hl. rewrite (proj2 (bend_spec e0 ltac:(lia))) in Hm. lia. }
      destruct (Hc x c Hxp Hcov) as (s & e & m & Hin & Hx). exists s, e, m. split; [done|]. split; [lia|].
      destruct (He _ Hin) as (_ & _ & _ & Hex). by apply (Hex x).
Qed.

End Sweep.

(** ** The result depends only on what is covered *)

Lemma sweep_spec_equiv words l1 l2 out :
  (forall x c, covered l1 x c <-> covered l2 x c) -> sweep_spec words l2 out -> sweep_spec words l1 out.
Proof.
  intros Heq [Hs He Hc]. split; [done| |].
  - eapply Forall_impl; [exact He|]. intros [[s e] m] (H1 & H2 & H3 & H4). split; [done|]. split; [done|].
    split; [done|]. intros x c Hx Hc0. rewrite Heq. by apply H4.
  - intros x c Hc0. rewrite Heq. by apply Hc.
Qed.

(** A canonical description of the points from [p] on. *)
Definition from (words : Z) (l : list range) (p : Z) (out : list segment) : Prop :=
  StronglySorted seg_lt out /\ Forall (seg_exact words l) out /\ Forall (fun '(s, _, _) => p <= s) out /\
  forall x c, p <= x -> covered l x c -> exists s e m, (s, e, m) ∈ out /\ s <= x <= e.

(** The rest of a canonical description starts after its first segment. *)
Lemma from_tail words l p s e m out : from words l p ((s, e, m) :: out) -> from words l (e + 1) out.
Proof.
  intros (Hs & He & Hp & Hc). inversion Hs as [|? ? Hs' Hall]; subst. apply Forall_cons in He as [(Hse & _) He].
  apply Forall_cons in Hp as [Hp _].
  assert (Hafter : Forall (fun '(s', _, _) => e + 1 <= s') out).
  { eapply Forall_impl; [exact Hall|]. intros [[s' e'] m'] [Hlt _]. lia. }
  split; [done|]. split; [done|]. split; [done|]. intros x c Hx Hcov.
  destruct (Hc x c) as (s' & e' & m' & Hin & Hx'); [|done|].
  - lia.
  - apply elem_of_cons in Hin as [[= -> -> ->]|Hin]; [lia|eauto].
Qed.

(** Two descriptions start at the same point, with the same mask. *)
Lemma from_start words l p s1 e1 m1 o1 s2 e2 m2 o2 :
  from words l p ((s1, e1, m1) :: o1) -> from words l p ((s2, e2, m2) :: o2) -> s2 <= s1.
Proof.
  intros (_ & He1 & Hp1 & _) (Hs2 & He2 & _ & Hc2). apply Forall_cons in He1 as [(Hse & _ & (c & Hc0 & Hb) & Hex) _].
  apply Forall_cons in Hp1 as [Hp1 _]. apply (Hex s1) in Hb; [|lia|done].
  destruct (Hc2 s1 c) as (s & e & m & Hin & Hx); [lia|done|]. inversion Hs2 as [|? ? _ Hall]; subst.
  apply Forall_cons in He2 as [(Hse2 & _) _]. apply elem_of_cons in Hin as [[= -> -> ->]|Hin]; [lia|].
  rewrite Forall_forall in Hall. destruct (Hall _ Hin) as [Hlt _]. lia.
Qed.

Lemma from_mask words l p s e1 m1 o1 e2 m2 o2 :
  from words l p ((s, e1, m1) :: o1) -> from words l p ((s, e2, m2) :: o2) -> m1 = m2.
Proof.
  intros (_ & He1 & _) (_ & He2 & _). apply Forall_cons in He1 as [(Hse1 & Hsh1 & _ & Hex1) _].
  apply Forall_cons in He2 as [(Hse2 & Hsh2 & _ & Hex2) _]. apply (mask_ext words); [done|done|].
  intros c Hc. rewrite (Hex1 s c), (Hex2 s c) by lia. done.
Qed.

(** A segment extends as far as its mask does. *)
Lemma from_end words l p s e1 m o1 e2 o2 :
  from words l p ((s, e1, m) :: o1) -> from words l p ((s, e2, m) :: o2) -> e2 <= e1.
Proof.
  intros H1 (_ & He2 & _). destruct (Z.le_gt_cases e2 e1) as [|Hgt]; [done|exfalso].
  pose proof (from_tail _ _ _ _ _ _ _ H1) as (_ & He1 & Hp1 & Hc1).
  apply Forall_cons in He2 as [(Hse2 & Hsh2 & (c & Hc0 & Hb) & Hex2) _].
  destruct H1 as (Hs1 & He1' & _). apply Forall_cons in He1' as [(Hse1 & _) _].
  destruct (Hc1 (e1 + 1) c) as (s' & e' & m' & Hin & Hx); [lia|apply Hex2; [lia|done|done]|].
  rewrite Forall_forall in He1, Hp1. specialize (Hp1 _ Hin). cbn in Hp1.
  destruct (He1 _ Hin) as (_ & Hsh' & _ & Hex'). inversion Hs1 as [|? ? _ Hall]; subst. rewrite Forall_forall in Hall.
  destruct (Hall _ Hin) as [_ Hne]. apply Hne; [lia|]. apply (mask_ext words); [done|done|].
  intros c' Hc'. rewrite (Hex2 (e1 + 1) c'), (Hex' (e1 + 1) c') by lia. done.
Qed.

Lemma from_unique words l p o1 o2 : from words l p o1 -> from words l p o2 -> o1 = o2.
Proof.
  assert (Hnil : forall p s e m o, from words l p [] -> ~ from words l p ((s, e, m) :: o)).
  { clear. intros p s e m o (_ & _ & _ & Hc) (_ & He & Hp & _).
    apply Forall_cons in He as [(Hse & _ & (c & Hc0 & Hb) & Hex) _]. apply Forall_cons in Hp as [Hp _].
    apply (Hex s) in Hb; [|lia|done]. by destruct (Hc s c Hp Hb) as (? & ? & ? & []%elem_of_nil & _). }
  revert p o2; induction o1 as [|[[s1 e1] m1] o1 IH]; intros p [|[[s2 e2] m2] o2] H1 H2; [done| | |].
  - by apply Hnil in H2.
  - by apply Hnil in H1.
  - assert (s1 = s2) as -> by (apply Z.le_antisymm; eauto using from_start).
    assert (m1 = m2) as -> by eauto using from_mask.
    assert (e1 = e2) as -> by (apply Z.le_antisymm; eauto using from_end).
    f_equal. apply (IH (e2 + 1)); eauto using from_tail.
Qed.

Lemma sweep_spec_unique words l o1 o2 :
  Forall (range_ok (64 * words)) l -> sweep_spec words l o1 -> sweep_spec words l o2 -> o1 = o2.
Proof.
  intros Hl. assert (Hfrom : forall o, sweep_spec words l o -> from words l 0 o).
  { intros o [Hs He Hc]. split; [done|]. split; [done|]. split.
    - eapply Forall_impl; [exact He|]. intros [[s e] m] (Hse & _). lia.
    - intros x c _ Hcov. assert (0 <= c).
      { destruct Hcov as (s & e & Hin & _). rewrite Forall_forall in Hl. specialize (Hl _ Hin). cbn in Hl. lia. }
      apply Hc in Hcov as (s & e & m & Hin & Hx & _); [eauto|done]. }
  eauto using from_unique.
Qed.

Lemma sweep_coverage_only words l1 l2 :
  Forall (range_ok (64 * words)) l1 -> Forall (range_ok (64 * words)) l2 ->
  (forall x c, covered l1 x c <-> covered l2 x c) -> sweep l1 words = sweep l2 words.
Proof.
  intros H1 H2 Heq. apply (sweep_spec_unique words l1); [done|by apply sweep_ok|].
  by apply (sweep_spec_equiv _ _ l2), sweep_ok.
Qed.

(** The sweep over any overlapping ranges yields ascending disjoint
    segments in which touching neighbours differ, each with exactly the
    categories covering each of its points, and no covered point is lost. *)
Theorem sweep_exact words ranges (Hr : Forall (range_ok (64 * words)) ranges) : sweep_spec words ranges (sweep ranges words).
Proof. by apply sweep_ok. Qed.

Definition demo_ranges : list range := [(10, 20, 0); (15, 30, 1); (31, 40, 1); (50, u128_max, 64)].
Lemma demo_ranges_ok : Forall (range_ok (64 * 2)) demo_ranges.
Proof. repeat constructor; vm_compute; congruence. Qed.
Lemma sweep_exact_witness :
  sweep demo_ranges 2 = [(10, 14, [1; 0]); (15, 20, [3; 0]); (21, 40, [2; 0]); (50, u128_max, [0; 1])] /\
  covered demo_ranges 35 1.
Proof.
  split; [vm_compute; reflexivity|]. apply (ss_covers _ _ _ (sweep_exact 2 demo_ranges demo_ranges_ok)); [done|].
  exists 21, 40, [2; 0]. split; [|split; [lia|reflexivity]]. apply (bool_decide_unpack _). vm_compute. exact I.
Defined.
