(* ===== verification/BuilderProps.v ===== *)
(** * BuilderProps: what is built is what was added

    The builder of Builder.v keeps its invariant under every operation, and the
    book it assembles places a host in a category exactly when some rule added
    to that category covers the host. *)

From Stdlib Require Import ZArith Lia.
From stdpp Require Import prelude strings list gmap sorting.
From S2P Require Import Prelude RustStr Net Domain Rab RabValid Policy Book BookProps BTree Builder SweepProps.

(** ** Category ids *)

Lemma cat_ids_gen (l : list str) (i : nat) (m : gmap str Z) c id :
  NoDup l -> Z.of_nat (i + length l) <= 2 ^ 32 -> (forall c, c ∈ l -> m !! c = None) ->
  foldl (fun m '(i, name) => <[name := wrap 32 (Z.of_nat i)]> m) m (enumerate_from i l) !! c = Some id <->
  m !! c = Some id \/ (Z.of_nat i <= id /\ l !! Z.to_nat (id - Z.of_nat i) = Some c).
Proof.
  revert i m; induction l as [|x l IH]; intros i m Hnd Hlen Hfresh; cbn [enumerate_from foldl].
  - setoid_rewrite lookup_nil. naive_solver.
  - inversion Hnd as [|? ? Hx Hnd']; subst. cbn [length] in Hlen. unfold wrap.
    rewrite Z.mod_small by lia. rewrite IH; [|done|lia|].
    + destruct (decide (c = x)) as [->|Hne].
      * rewrite lookup_insert_eq, (Hfresh x ltac:(left)). split.
        -- intros [[= <-]|[Hi Hl]]; [right; split; [lia|]; by rewrite Z.sub_diag|].
           apply list_elem_of_lookup_2 in Hl. contradiction.
        -- intros [?|[Hi Hl]]; [done|]. destruct (Z.eq_dec id (Z.of_nat i)) as [->|]; [by left|].
           replace (Z.to_nat (id - Z.of_nat i)) with (S (Z.to_nat (id - Z.of_nat (S i)))) in Hl by lia.
           cbn in Hl. apply list_elem_of_lookup_2 in Hl. contradiction.
      * rewrite lookup_insert_ne by done. split; (intros [?|[Hi Hl]]; [by left|right]).
        -- split; [lia|]. by replace (Z.to_nat (id - Z.of_nat i)) with (S (Z.to_nat (id - Z.of_nat (S i)))) by lia.
        -- destruct (Z.eq_dec id (Z.of_nat i)) as [->|]; [rewrite Z.sub_diag in Hl; injection Hl as ->; done|].
           replace (Z.to_nat (id - Z.of_nat i)) with (S (Z.to_nat (id - Z.of_nat (S i)))) in Hl by lia.
           split; [lia|done].
    + intros c' Hc'. rewrite lookup_insert_ne by (intros ->; contradiction). apply Hfresh. by right.
Qed.

Lemma cat_ids_spec l c id :
  NoDup l -> Rab.len l <= 2 ^ 32 -> cat_ids l !! c = Some id <-> 0 <= id /\ l !! Z.to_nat id = Some c.
Proof.
  intros Hnd Hlen. unfold cat_ids. rewrite cat_ids_gen; [|done|done|by intros; apply lookup_empty].
  rewrite lookup_empty, Z.sub_0_r. naive_solver.
Qed.

Lemma sorted_nodup l : StronglySorted (key_lt (K := str)) l -> NoDup l.
Proof.
  induction 1 as [|x l Hs IH Hx]; constructor; [|done]. intros Hin. rewrite Forall_forall in Hx.
  by apply (key_lt_irrefl x), Hx.
Qed.

(** ** Interning *)

(** [masks] are the interned masks in id order. *)
Record interner_ok (words : Z) (st : interner) (masks : list (list Z)) : Prop := {
  io_ids : forall m id, fst st !! m = Some id <-> 0 <= id /\ masks !! Z.to_nat id = Some m;
  io_size : size (fst st) = length masks;
  io_catsets : snd st = concat masks;
  io_shape : Forall (mask_shape words) masks
}.

Lemma intern_ok words st masks mask st' id :
  interner_ok words st masks -> mask_shape words mask -> intern st mask = Ok (st', id) ->
  exists masks', interner_ok words st' masks' /\ masks `prefix_of` masks' /\ 0 <= id /\
    masks' !! Z.to_nat id = Some mask.
Proof.
  intros [Hids Hsize Hcs Hsh] Hm. destruct st as [ids catsets]. cbn in Hids, Hsize, Hcs. unfold intern.
  destruct (ids !! mask) as [i|] eqn:Ei.
  - intros [= <- <-]. exists masks. split; [by split|]. split; [done|]. by apply Hids.
  - intros H. apply bind_Ok in H as (i & Hi & H). apply ok_or_Ok in Hi. unfold try_from in Hi.
    destruct (fitsb _ _); [|done]. injection Hi as <-. injection H as <- <-. exists (masks ++ [mask]).
    split_and!; [split; cbn| |lia|].
    + intros m j. destruct (decide (m = mask)) as [->|Hne].
      * rewrite lookup_insert_eq, Hsize. split.
        -- intros [= <-]. split; [lia|]. by rewrite Nat2Z.id, list_lookup_middle.
        -- intros [Hj Hl]. destruct (decide (Z.to_nat j < length masks)%nat).
           ++ rewrite lookup_app_l in Hl by done. destruct (Hids mask j) as [_ H']. rewrite H' in Ei by done. done.
           ++ rewrite lookup_app_r in Hl by lia. destruct (Z.to_nat j - length masks)%nat eqn:Ej; [|done]. f_equal. lia.
      * rewrite lookup_insert_ne, Hids by done. split; intros [Hj Hl]; (split; [done|]).
        -- by apply lookup_app_l_Some.
        -- apply lookup_app_Some in Hl as [?|[? Hl]]; [done|]. apply list_elem_of_lookup_2, list_elem_of_singleton in Hl. done.
    + rewrite map_size_insert_None, length_app by done. cbn. lia.
    + rewrite concat_app. cbn. by rewrite app_nil_r, Hcs.
    + apply Forall_app. split; [done|]. by constructor.
    + by apply prefix_app_r.
    + by rewrite Hsize, Nat2Z.id, list_lookup_middle.
Qed.

Lemma prefix_lookup {A} (l1 l2 : list A) i x : l1 `prefix_of` l2 -> l1 !! i = Some x -> l2 !! i = Some x.
Proof. intros [k ->]. apply lookup_app_l_Some. Qed.

(** A table entry carries the id of the mask computed for it. *)
Definition interned (masks : list (list Z)) (cs : Z) (m : list Z) : Prop := 0 <= cs /\ masks !! Z.to_nat cs = Some m.
Definition range_interned (masks : list (list Z)) (seg : segment) (r : range) : Prop :=
  let '(s, e, m) := seg in let '(s', e', cs) := r in s' = s /\ e' = e /\ interned masks cs m.

Lemma interned_mono masks masks' cs m : masks `prefix_of` masks' -> interned masks cs m -> interned masks' cs m.
Proof. intros Hp [? ?]. split; [done|]. by eapply prefix_lookup. Qed.

Lemma intern_ranges_ok words narrow segs st masks st' out :
  (forall x y, narrow x = Ok y -> y = x) ->
  interner_ok words st masks -> Forall (fun '(_, _, m) => mask_shape words m) segs ->
  intern_ranges narrow st segs = Ok (st', out) ->
  exists masks', interner_ok words st' masks' /\ masks `prefix_of` masks' /\ Forall2 (range_interned masks') segs out.
Proof.
  intros Hnarrow. revert st masks st' out; induction segs as [|[[s e] m] segs IH]; intros st masks st' out Hok Hsh; cbn.
  - intros [= <- <-]. exists masks. split_and!; [done|done|constructor].
  - intros H. apply bind_Ok in H as (s' & Hs & H). apply bind_Ok in H as (e' & He & H).
    apply bind_Ok in H as ([st1 id] & Hi & H). apply bind_Ok in H as ([st2 rest] & Hr & H). injection H as <- <-.
    apply Hnarrow in Hs as ->. apply Hnarrow in He as ->. apply Forall_cons in Hsh as [Hm Hsh].
    destruct (intern_ok _ _ _ _ _ _ Hok Hm Hi) as (masks1 & Hok1 & Hp1 & Hid & Hl1).
    destruct (IH _ _ _ _ Hok1 Hsh Hr) as (masks2 & Hok2 & Hp2 & Hf).
    exists masks2. split_and!; [done|by etrans|]. constructor; [|done].
    split_and!; [done..|]. by apply (interned_mono masks1).
Qed.

Definition entry_interned (ids : gmap str Z) (words : Z) (masks : list (list Z)) (e : str * gset str) (r : StrEntry) : Prop :=
  text r = fst e /\ exists m, mask_of ids words (snd e) = Ok m /\ interned masks (catset r) m.

Lemma mask_of_shape ids words cats m : mask_of ids words cats = Ok m -> mask_shape words m.
Proof. unfold mask_of. intros H. apply bind_Ok in H as (l & _ & H). injection H as <-. apply mask_of_ids_shape. Qed.

Lemma intern_entries_ok ids words l st masks st' out :
  interner_ok words st masks -> intern_entries ids words st l = Ok (st', out) ->
  exists masks', interner_ok words st' masks' /\ masks `prefix_of` masks' /\
    Forall2 (entry_interned ids words masks') l out.
Proof.
  revert st masks st' out; induction l as [|[t cats] l IH]; intros st masks st' out Hok; cbn.
  - intros [= <- <-]. exists masks. split_and!; [done|done|constructor].
  - intros H. apply bind_Ok in H as (m & Hm & H). apply bind_Ok in H as ([st1 id] & Hi & H).
    apply bind_Ok in H as ([st2 rest] & Hr & H). injection H as <- <-.
    destruct (intern_ok _ _ _ _ _ _ Hok (mask_of_shape _ _ _ _ Hm) Hi) as (masks1 & Hok1 & Hp1 & Hid & Hl1).
    destruct (IH _ _ _ _ Hok1 Hr) as (masks2 & Hok2 & Hp2 & Hf).
    exists masks2. split_and!; [done|by etrans|]. constructor; [|done]. split; [done|]. exists m. split; [done|].
    by apply (interned_mono masks1).
Qed.

(** The slice of an interned id is its mask. *)
Lemma concat_slice {A} (w : nat) (ls : list (list A)) i m :
  Forall (fun l => length l = w) ls -> ls !! i = Some m -> take w (drop (i * w) (concat ls)) = m.
Proof.
  intros Hw. revert i; induction Hw as [|l ls Hl Hw IH]; intros [|i]; cbn; intros H; try done.
  - injection H as ->. rewrite drop_0, take_app_le by lia. by rewrite firstn_all2 by lia.
  - rewrite drop_app_ge by lia. replace (w + i * w - length l)%nat with (i * w)%nat by lia. by apply IH.
Qed.

(** ** The builder's content and invariant *)

Definition in_named (l : list (Z * Z * str)) (key : Z) (cat : str) : Prop :=
  exists s e, (s, e, cat) ∈ l /\ s <= key <= e.
Definition in_table (m : gmap str (gset str)) (P : str -> Prop) (cat : str) : Prop :=
  exists t cats, m !! t = Some cats /\ P t /\ cat ∈ cats.

(** A host belongs to category [cat] by the entries added so far. *)
Definition builder_in (bb : BookBuilder) (host cat : str) : Prop :=
  match parse_ip_addr host with
  | Some (V4 a) => in_named (bb_ip4 bb) a cat
  | Some (V6 a) => match to_ipv4_mapped a with
                   | Some v4 => in_named (bb_ip4 bb) v4 cat
                   | None => in_named (bb_ip6 bb) a cat
                   end
  | None =>
      let name := normalize_domain host in
      name <> [] /\
      (in_table (bb_exact bb) (fun t => t = name) cat \/
       in_table (bb_suffix bb) (fun t => under (reverse_labels t) name) cat \/
       in_table (bb_keywords bb) (fun t => exists a b, name = a ++ t ++ b) cat)
  end.

Definition entries_in (cats : gset str) (m : gmap str (gset str)) : Prop :=
  map_Forall (fun t cs => t <> [] /\ cs ⊆ cats) m.

Record builder_ok (bb : BookBuilder) : Prop := {
  bo_syntax : forall n, n ∈ bb_categories bb -> n <> [] /\ category_syntax n = true;
  bo_closed : forall n p rest, n ∈ bb_categories bb -> rsplit_once slash n = Some (p, rest) -> p ∈ bb_categories bb;
  bo_ip4 : Forall (fun '(s, e, c) => 0 <= s <= e /\ e < 2 ^ 32 /\ c ∈ bb_categories bb) (bb_ip4 bb);
  bo_ip6 : Forall (fun '(s, e, c) => 0 <= s <= e /\ e < 2 ^ 128 /\ (IPV4_MAPPED_END < s \/ e < IPV4_MAPPED_START) /\
                                     c ∈ bb_categories bb) (bb_ip6 bb);
  bo_exact : entries_in (bb_categories bb) (bb_exact bb);
  bo_suffix : entries_in (bb_categories bb) (bb_suffix bb);
  bo_keywords : entries_in (bb_categories bb) (bb_keywords bb)
}.

(** ** Tables *)

Section Tables.
Context (cats : list str) (Hnd : NoDup cats) (Hlen : Rab.len cats <= 2 ^ 32).
Let words : Z := build_words cats.
Let ids : gmap str Z := cat_ids cats.

Lemma id_bound c id : ids !! c = Some id -> 0 <= id < 64 * words.
Proof.
  assert (Hw : Z.of_nat (length cats) <= 64 * words).
  { unfold words, build_words, div_ceil, Rab.len.
    pose proof (Z.div_mod (Z.of_nat (length cats) + 64 - 1) 64 ltac:(lia)).
    pose proof (Z.mod_pos_bound (Z.of_nat (length cats) + 64 - 1) 64 ltac:(lia)). lia. }
  enough (Hgen : forall l i (m : gmap str Z), Z.of_nat (i + length l) <= 64 * words ->
    map_Forall (fun _ id => 0 <= id < 64 * words) m ->
    map_Forall (fun _ id => 0 <= id < 64 * words)
      (foldl (fun m '(i, name) => <[name := wrap 32 (Z.of_nat i)]> m) m (enumerate_from i l))).
  { apply (Hgen cats 0%nat ∅ Hw (map_Forall_empty _)). }
  induction l as [|x l IH]; intros i m Hl Hm; cbn [enumerate_from foldl length] in *; [done|]. apply IH; [lia|].
  apply map_Forall_insert_2; [|done]. unfold wrap. pose proof (Z.mod_pos_bound (Z.of_nat i) (2 ^ 32) ltac:(lia)).
  pose proof (Z.mod_le (Z.of_nat i) (2 ^ 32) ltac:(lia) ltac:(lia)). lia.
Qed.

Lemma resolve_ranges_covered l r x id :
  try_map (resolve_range ids) l = Ok r ->
  covered r x id <-> exists c, ids !! c = Some id /\ in_named l x c.
Proof.
  rewrite try_map_Forall2. unfold covered, in_named.
  induction 1 as [|[[s e] c] [[s' e'] i] l r H1 Hf IH].
  - setoid_rewrite elem_of_nil. naive_solver.
  - unfold resolve_range, cat_id in H1. apply bind_Ok in H1 as (j & Hj%ok_or_Ok & H1). injection H1 as <- <- <-.
    setoid_rewrite elem_of_cons. split.
    + intros (s1 & e1 & [[= -> -> ->]|Hin] & Hx); [eauto 8|].
      destruct (proj1 IH) as (c1 & ? & s2 & e2 & ? & ?); eauto 8.
    + intros (c1 & Hc1 & s1 & e1 & [[= -> -> ->]|Hin] & Hx).
      * exists s, e. split; [left; congruence|done].
      * destruct (proj2 IH) as (s2 & e2 & ? & ?); eauto 8.
Qed.

Lemma resolve_ranges_ok l r :
  Forall (fun '(s, e, _) => 0 <= s <= e /\ e < 2 ^ 128) l -> try_map (resolve_range ids) l = Ok r ->
  Forall (range_ok (64 * words)) r.
Proof.
  intros Hl. rewrite try_map_Forall2. intros Hf. induction Hf as [|[[s e] c] [[s' e'] i] l r H1 Hf IH]; [constructor|].
  unfold resolve_range, cat_id in H1. apply bind_Ok in H1 as (j & Hj%ok_or_Ok & H1). injection H1 as <- <- <-.
  apply Forall_cons in Hl as [Hse Hl]. constructor; [|by apply IH]. apply id_bound in Hj. cbn in Hse |- *. lia.
Qed.

(** The bits of [mask_of]. *)
Lemma mask_of_bit cs m id :
  mask_of ids words cs = Ok m -> 0 <= id ->
  get_bit m id = true <-> exists c, c ∈ cs /\ ids !! c = Some id.
Proof.
  unfold mask_of, cat_id. intros H Hid. apply bind_Ok in H as (l & Hl & H). injection H as <-.
  apply try_map_Forall2 in Hl. rewrite mask_of_ids_bit; [| |done].
  - setoid_rewrite <- elem_of_bt_elements. split.
    + intros [i Hi]%list_elem_of_lookup. destruct (Forall2_lookup_r _ _ _ _ _ Hl Hi) as (c & Hc & Hcid%ok_or_Ok).
      exists c. split; [by eapply list_elem_of_lookup_2|done].
    + intros (c & [i Hi]%list_elem_of_lookup & Hc). destruct (Forall2_lookup_l _ _ _ _ _ Hl Hi) as (j & Hj & Hcid%ok_or_Ok).
      rewrite Hc in Hcid. injection Hcid as ->. by eapply list_elem_of_lookup_2.
  - apply Forall_lookup. intros i j Hj. destruct (Forall2_lookup_r _ _ _ _ _ Hl Hj) as (c & _ & Hc%ok_or_Ok).
    by eapply id_bound.
Qed.

End Tables.

(** Ranges and segments describe the same points. *)
Lemma ranges_interned masks segs table x (P : list Z -> Prop) :
  Forall2 (range_interned masks) segs table ->
  (exists cs m, in_ranges table x cs /\ interned masks cs m /\ P m) <->
  (exists s e m, (s, e, m) ∈ segs /\ s <= x <= e /\ P m).
Proof.
  intros Hf. split.
  - intros (cs & m & (s & e & [i Hi]%list_elem_of_lookup & Hx) & Hm & HP).
    destruct (Forall2_lookup_r _ _ _ _ _ Hf Hi) as ([[s' e'] m'] & Hs & -> & -> & Hm').
    exists s', e', m'. split; [by eapply list_elem_of_lookup_2|]. split; [done|].
    destruct Hm as [_ Hm], Hm' as [_ Hm']. congruence.
  - intros (s & e & m & [i Hi]%list_elem_of_lookup & Hx & HP).
    destruct (Forall2_lookup_l _ _ _ _ _ Hf Hi) as ([[s' e'] cs] & Hs & -> & -> & Hm).
    exists cs, m. split; [|done]. exists s, e. split; [by eapply list_elem_of_lookup_2|done].
Qed.

Lemma entries_interned ids words masks m table (Q P : _ -> Prop) :
  Forall2 (entry_interned ids words masks) (bt_entries m) table ->
  (exists cs mask, (exists e, e ∈ table /\ Q (text e) /\ catset e = cs) /\ interned masks cs mask /\ P mask) <->
  (exists t cats mask, m !! t = Some cats /\ Q t /\ mask_of ids words cats = Ok mask /\ P mask).
Proof.
  intros Hf. split.
  - intros (cs & mask & (e & [i Hi]%list_elem_of_lookup & HQ & <-) & Hm & HP).
    destruct (Forall2_lookup_r _ _ _ _ _ Hf Hi) as ([t cats] & Ht & Htext & mask' & Hmask & Hm').
    cbn in *. exists t, cats, mask'. rewrite <- elem_of_bt_entries, <- Htext. split_and!; [|done..|].
    + rewrite Htext. by eapply list_elem_of_lookup_2.
    + destruct Hm as [_ Hm], Hm' as [_ Hm']. congruence.
  - intros (t & cats & mask & [i Hi]%elem_of_bt_entries%list_elem_of_lookup & HQ & Hmask & HP).
    destruct (Forall2_lookup_l _ _ _ _ _ Hf Hi) as (e & He & Htext & mask' & Hmask' & Hm). cbn in *.
    exists (catset e), mask. split; [|split; [congruence|done]]. exists e. rewrite Htext.
    split; [by eapply list_elem_of_lookup_2|done].
Qed.

(** ** The assembled book *)

(** What a successful [build] leaves behind. *)
Record built (bb : BookBuilder) (raw : RawBook) (masks : list (list Z)) : Prop := {
  bl_valid : validate raw = Ok tt;
  bl_names : map cat_name (categories raw) = bt_elements (bb_categories bb);
  bl_words : catset_words raw = build_words (bt_elements (bb_categories bb));
  bl_catsets : catsets raw = concat masks;
  bl_masks : Forall (mask_shape (catset_words raw)) masks;
  bl_ip4 : exists r4, try_map (resolve_range (cat_ids (bt_elements (bb_categories bb)))) (bb_ip4 bb) = Ok r4 /\
    Forall2 (range_interned masks) (sweep r4 (catset_words raw)) (ip4 raw);
  bl_ip6 : exists r6, try_map (resolve_range (cat_ids (bt_elements (bb_categories bb)))) (bb_ip6 bb) = Ok r6 /\
    Forall2 (range_interned masks) (sweep r6 (catset_words raw)) (ip6 raw);
  bl_strings : Forall (fun '(m, table) =>
    Forall2 (entry_interned (cat_ids (bt_elements (bb_categories bb))) (catset_words raw) masks) (bt_entries m) table)
    [(bb_exact bb, domain_exact raw); (bb_suffix bb, domain_suffix raw); (bb_keywords bb, keywords raw)]
}.

Lemma range_interned_mono masks masks' segs table :
  masks `prefix_of` masks' -> Forall2 (range_interned masks) segs table -> Forall2 (range_interned masks') segs table.
Proof.
  intros Hp Hf. eapply Forall2_impl; [exact Hf|]. intros [[s e] m] [[s' e'] cs] (? & ? & ?). split_and!; [done|done|].
  by eapply interned_mono.
Qed.
Lemma entry_interned_mono ids words masks masks' l table :
  masks `prefix_of` masks' -> Forall2 (entry_interned ids words masks) l table ->
  Forall2 (entry_interned ids words masks') l table.
Proof.
  intros Hp Hf. eapply Forall2_impl; [exact Hf|]. intros e r (? & m & ? & ?). split; [done|]. exists m. split; [done|].
  by eapply interned_mono.
Qed.

Lemma build_categories ids l cs : try_map (build_category ids) l = Ok cs -> map cat_name cs = l.
Proof.
  rewrite try_map_Forall2. induction 1 as [|n c l cs H1 Hf IH]; [done|]. cbn. f_equal; [|done].
  unfold build_category in H1. destruct (rsplit_once slash n) as [[p ?]|]; res_inv; done.
Qed.

Lemma narrow4_Ok x y : narrow4 x = Ok y -> y = x.
Proof. unfold narrow4, try_from. intros H%ok_or_Ok. destruct (fitsb 32 x); [by injection H|done]. Qed.

Lemma sweep_shapes words r :
  Forall (range_ok (64 * words)) r -> Forall (fun '(_, _, m) => mask_shape words m) (sweep r words).
Proof.
  intros Hr. eapply Forall_impl; [exact (ss_exact _ _ _ (sweep_ok words r Hr))|]. by intros [[s e] m] (_ & Hm & _).
Qed.

Lemma ip4_wide bb : builder_ok bb -> Forall (fun '(s, e, _) => 0 <= s <= e /\ e < 2 ^ 128) (bb_ip4 bb).
Proof. intros Hok. eapply Forall_impl; [exact (bo_ip4 bb Hok)|]. intros [[s e] c]. lia. Qed.
Lemma ip6_wide bb : builder_ok bb -> Forall (fun '(s, e, _) => 0 <= s <= e /\ e < 2 ^ 128) (bb_ip6 bb).
Proof. intros Hok. eapply Forall_impl; [exact (bo_ip6 bb Hok)|]. intros [[s e] c]. lia. Qed.

Lemma interner_empty words : interner_ok words (∅, []) [].
Proof. split; cbn; [|done|done|constructor]. intros m id. rewrite lookup_empty, lookup_nil. naive_solver. Qed.

Lemma cats_nodup (s : gset str) : NoDup (bt_elements s).
Proof. apply sorted_nodup, bt_elements_sorted. Qed.

(** The steps of a successful [build]. *)
Record build_steps (bb : BookBuilder) (raw : RawBook) (s1 s2 s3 s4 s5 : interner) (r4 r6 : list range) : Prop := {
  bs_cats : try_map (build_category (cat_ids (bt_elements (bb_categories bb)))) (bt_elements (bb_categories bb)) = Ok (categories raw);
  bs_r4 : try_map (resolve_range (cat_ids (bt_elements (bb_categories bb)))) (bb_ip4 bb) = Ok r4;
  bs_ip4 : intern_ranges narrow4 (∅, []) (sweep r4 (catset_words raw)) = Ok (s1, ip4 raw);
  bs_r6 : try_map (resolve_range (cat_ids (bt_elements (bb_categories bb)))) (bb_ip6 bb) = Ok r6;
  bs_ip6 : intern_ranges Ok s1 (sweep r6 (catset_words raw)) = Ok (s2, ip6 raw);
  bs_exact : intern_entries (cat_ids (bt_elements (bb_categories bb))) (catset_words raw) s2 (bt_entries (bb_exact bb)) = Ok (s3, domain_exact raw);
  bs_suffix : intern_entries (cat_ids (bt_elements (bb_categories bb))) (catset_words raw) s3 (bt_entries (bb_suffix bb)) = Ok (s4, domain_suffix raw);
  bs_keywords : intern_entries (cat_ids (bt_elements (bb_categories bb))) (catset_words raw) s4 (bt_entries (bb_keywords bb)) = Ok (s5, keywords raw);
  bs_words : catset_words raw = build_words (bt_elements (bb_categories bb));
  bs_catsets : catsets raw = snd s5;
  bs_valid : validate raw = Ok tt
}.

Lemma build_inv bb raw : build bb = Ok raw -> exists s1 s2 s3 s4 s5 r4 r6, build_steps bb raw s1 s2 s3 s4 s5 r4 r6.
Proof.
  unfold build. intros H.
  apply bind_Ok in H as (cs & Hcs & H). apply bind_Ok in H as (r4 & H4 & H).
  apply bind_Ok in H as ([st1 t4] & Hi4 & H). apply bind_Ok in H as (r6 & H6 & H).
  apply bind_Ok in H as ([st2 t6] & Hi6 & H). apply bind_Ok in H as ([st3 te] & Hie & H).
  apply bind_Ok in H as ([st4 ts] & His & H). apply bind_Ok in H as ([st5 tk] & Hik & H).
  apply bind_Ok in H as (w & Hw & H). apply bind_Ok in H as ([] & Hval & H). injection H as <-.
  apply ok_or_Ok in Hw. unfold try_from in Hw. destruct (fitsb _ _); [|done]. injection Hw as <-.
  apply map_err_Ok in Hval. exists st1, st2, st3, st4, st5, r4, r6. by split.
Qed.

Lemma build_small bb raw : build bb = Ok raw -> Rab.len (bt_elements (bb_categories bb)) <= 2 ^ 32.
Proof.
  intros (? & ? & ? & ? & ? & ? & ? & Hb)%build_inv. pose proof (bv_count _ (validate_valid _ (bs_valid _ _ _ _ _ _ _ _ _ Hb))) as Hn.
  rewrite <- (build_categories _ _ _ (bs_cats _ _ _ _ _ _ _ _ _ Hb)). unfold Rab.len, MAX_CATEGORIES in *.
  rewrite length_map. lia.
Qed.

Lemma build_built bb raw : builder_ok bb -> build bb = Ok raw -> exists masks, built bb raw masks.
Proof.
  intros Hok H. pose proof (build_small _ _ H) as Hlen.
  apply build_inv in H as (s1 & s2 & s3 & s4 & s5 & r4 & r6 & [Hcs H4 Hi4 H6 Hi6 Hie His Hik Hw Hc Hval]).
  pose proof (resolve_ranges_ok _ _ _ (ip4_wide _ Hok) H4) as Hr4.
  pose proof (resolve_ranges_ok _ _ _ (ip6_wide _ Hok) H6) as Hr6. rewrite <- Hw in Hr4, Hr6.
  destruct (intern_ranges_ok _ _ _ _ _ _ _ narrow4_Ok (interner_empty _) (sweep_shapes _ _ Hr4) Hi4) as (m1 & Ho1 & _ & F4).
  destruct (intern_ranges_ok _ Ok _ _ _ _ _ ltac:(congruence) Ho1 (sweep_shapes _ _ Hr6) Hi6) as (m2 & Ho2 & P2 & F6).
  destruct (intern_entries_ok _ _ _ _ _ _ _ Ho2 Hie) as (m3 & Ho3 & P3 & Fe).
  destruct (intern_entries_ok _ _ _ _ _ _ _ Ho3 His) as (m4 & Ho4 & P4 & Fs).
  destruct (intern_entries_ok _ _ _ _ _ _ _ Ho4 Hik) as (m5 & Ho5 & P5 & Fk).
  assert (P35 : m3 `prefix_of` m5) by (by etrans). assert (P25 : m2 `prefix_of` m5) by (by etrans).
  assert (P15 : m1 `prefix_of` m5) by (by etrans).
  exists m5. split; [done|by eapply build_categories|done|rewrite Hc; by destruct Ho5|by destruct Ho5| | |].
  - exists r4. split; [done|]. by apply (range_interned_mono m1).
  - exists r6. split; [done|]. by apply (range_interned_mono m2).
  - repeat constructor; [by apply (entry_interned_mono _ _ m3)|by apply (entry_interned_mono _ _ m4)|done].
Qed.

Section Built.
Context (bb : BookBuilder) (r : RawBook) (masks : list (list Z)) (sum : list Z) (i : nat) (cat : Category).
Context (Hok : builder_ok bb) (Hsmall : Rab.len (bt_elements (bb_categories bb)) <= 2 ^ 32) (Hb : built bb r masks).
Context (Hcat : categories r !! i = Some cat).
Let ids : gmap str Z := cat_ids (bt_elements (bb_categories bb)).

Lemma slice_interned cs m : interned masks cs m -> catset_slice (from_raw r sum) cs = m.
Proof.
  intros [Hcs Hm]. unfold catset_slice. cbn [raw from_raw]. rewrite (bl_catsets _ _ _ Hb).
  apply concat_slice; [|done]. eapply Forall_impl; [exact (bl_masks _ _ _ Hb)|]. by intros l [Hl _].
Qed.

Lemma bits_interned (A : Z -> Prop) :
  (forall cs, A cs -> exists m, interned masks cs m) ->
  (exists cs, A cs /\ get_bit (catset_slice (from_raw r sum) cs) (Z.of_nat i) = true) <->
  (exists cs m, A cs /\ interned masks cs m /\ get_bit m (Z.of_nat i) = true).
Proof.
  intros HA. split.
  - intros (cs & Hcs & Hbit). destruct (HA _ Hcs) as [m Hm]. rewrite (slice_interned _ _ Hm) in Hbit. eauto.
  - intros (cs & m & Hcs & Hm & Hbit). exists cs. by rewrite (slice_interned _ _ Hm).
Qed.

(** The id of a category is its position. *)
Lemma id_is_name c : ids !! c = Some (Z.of_nat i) <-> c = cat_name cat.
Proof.
  unfold ids. rewrite cat_ids_spec by (apply cats_nodup || done). rewrite Nat2Z.id, <- (bl_names _ _ _ Hb).
  rewrite list_lookup_fmap, Hcat. cbn. split; [intros [_ [=]]; done|intros ->; split; [lia|done]].
Qed.

Lemma built_ranges l t :
  Forall (fun '(s, e, _) => 0 <= s <= e /\ e < 2 ^ 128) l ->
  (exists rs, try_map (resolve_range ids) l = Ok rs /\ Forall2 (range_interned masks) (sweep rs (catset_words r)) t) ->
  forall x, (exists cs, in_ranges t x cs /\ get_bit (catset_slice (from_raw r sum) cs) (Z.of_nat i) = true) <->
            in_named l x (cat_name cat).
Proof.
  intros Hl (rs & Hrs & Hf) x.
  pose proof (resolve_ranges_ok _ _ _ Hl Hrs) as Hr. rewrite <- (bl_words _ _ _ Hb) in Hr.
  rewrite bits_interned.
  - rewrite (ranges_interned masks _ _ x (fun m => get_bit m (Z.of_nat i) = true) Hf).
    rewrite (ss_covers _ _ _ (sweep_ok _ _ Hr)) by lia.
    rewrite (resolve_ranges_covered (bt_elements (bb_categories bb)) l rs) by done. fold ids. setoid_rewrite id_is_name.
    split; [intros (c & -> & Hc); done|eauto].
  - intros cs (s & e & [j Hj]%list_elem_of_lookup & _).
    destruct (Forall2_lookup_r _ _ _ _ _ Hf Hj) as ([[? ?] m] & _ & _ & _ & Hm). eauto.
Qed.

Lemma built_entries m t :
  Forall2 (entry_interned ids (catset_words r) masks) (bt_entries m) t ->
  forall Q : str -> Prop,
  (exists cs, (exists e, e ∈ t /\ Q (text e) /\ catset e = cs) /\
     get_bit (catset_slice (from_raw r sum) cs) (Z.of_nat i) = true) <-> in_table m Q (cat_name cat).
Proof.
  intros Hf Q. rewrite bits_interned.
  - rewrite (entries_interned ids (catset_words r) masks m t Q (fun m => get_bit m (Z.of_nat i) = true) Hf).
    unfold in_table. split.
    + intros (tx & cats & mask & Hm & HQ & Hmask & Hbit). exists tx, cats. split; [done|]. split; [done|].
      rewrite (bl_words _ _ _ Hb) in Hmask. apply (mask_of_bit _ _ _ _ Hmask) in Hbit; [|lia].
      destruct Hbit as (c & Hc & Hid). by apply id_is_name in Hid as ->.
    + intros (tx & cats & Hm & HQ & Hc).
      destruct (proj1 (list_elem_of_lookup _ _) (proj2 (elem_of_bt_entries m tx cats) Hm)) as [j Hj].
      destruct (Forall2_lookup_l _ _ _ _ _ Hf Hj) as (e & _ & _ & mask & Hmask & _). cbn in Hmask.
      exists tx, cats, mask. split_and!; try done. rewrite (bl_words _ _ _ Hb) in Hmask.
      apply (mask_of_bit _ _ _ _ Hmask); [lia|]. exists (cat_name cat). split; [done|].
      by apply id_is_name.
  - intros cs (e & [j Hj]%list_elem_of_lookup & _ & <-).
    destruct (Forall2_lookup_r _ _ _ _ _ Hf Hj) as (? & _ & _ & mask & _ & Hm). eauto.
Qed.

Lemma host_in_built host : host_in (from_raw r sum) host (Z.of_nat i) <-> builder_in bb host (cat_name cat).
Proof.
  unfold host_in, host_set, builder_in. cbn [raw from_raw].
  pose proof (built_ranges _ _ (ip4_wide _ Hok) (bl_ip4 _ _ _ Hb)) as H4.
  pose proof (built_ranges _ _ (ip6_wide _ Hok) (bl_ip6 _ _ _ Hb)) as H6.
  destruct (parse_ip_addr host) as [[a|a]|]; [apply H4|destruct (to_ipv4_mapped a); [apply H4|apply H6]|].
  pose proof (bl_strings _ _ _ Hb) as Hs. apply Forall_cons in Hs as [He Hs]. apply Forall_cons in Hs as [Hs Hk].
  apply Forall_cons in Hk as [Hk _].
  set (name := normalize_domain host).
  rewrite <- (built_entries _ _ He), <- (built_entries _ _ Hs), <- (built_entries _ _ Hk). naive_solver.
Qed.

End Built.

(** The book a builder assembles is exactly what was added to it: its
    categories are the registered paths in order, and a host belongs to a
    category of the book exactly when an entry added under that category covers
    it, through the sweep, the interning and the reversed suffix keys. *)
Theorem build_faithful bb raw sum (Hok : builder_ok bb) (Hbuild : build bb = Ok raw) :
  map cat_name (categories raw) = bt_elements (bb_categories bb) /\
  forall host i c, categories raw !! i = Some c ->
    host_in (from_raw raw sum) host (Z.of_nat i) <-> builder_in bb host (cat_name c).
Proof.
  pose proof (build_small _ _ Hbuild) as Hsmall. destruct (build_built _ _ Hok Hbuild) as [masks Hb].
  split; [exact (bl_names _ _ _ Hb)|]. intros host i c Hc. by apply (host_in_built bb raw masks).
Qed.
