(* ===== verification/BuilderOps.v ===== *)
(** * BuilderOps: the builder's operations

    Every operation of Builder.v keeps the builder's invariant (also when it
    fails) and adds exactly the meaning of its rule; rules mean in a book what
    they mean in a routing policy, up to IPv4-mapped addresses. *)

From Stdlib Require Import ZArith Lia.
From stdpp Require Import prelude strings list gmap sorting.
From S2P Require Import Prelude RustStr Net NetProps Domain Rab RabValid Policy Book BookProps BTree Builder SweepProps BuilderProps.

(** ** Category paths *)

Definition seg_ok (seg : str) : Prop := seg <> [] /\ Forall (fun c => category_char c = true) seg.

Lemma category_syntax_segs n : category_syntax n = true <-> Forall seg_ok (split slash n).
Proof.
  unfold category_syntax. rewrite negb_true_iff, <- not_true_iff_false, existsb_exists. split.
  - intros H. apply Forall_forall. intros seg Hseg.
    assert (is_empty seg || negb (forallb category_char seg) = false) as Hs.
    { apply not_true_iff_false. intros He. apply H. exists seg. by rewrite <- list_elem_of_In. }
    bools. split; [by apply is_empty_false|]. apply Forall_forall. intros c Hc.
    by apply (proj1 (forallb_forall category_char seg)); [|apply list_elem_of_In].
  - intros H (seg & Hin%list_elem_of_In & Hs). rewrite Forall_forall in H. destruct (H _ Hin) as [Hne Hc].
    apply is_empty_false in Hne. rewrite Hne in Hs. cbn in Hs. apply negb_true_iff in Hs.
    rewrite (proj2 (forallb_forall category_char seg)) in Hs; [done|]. intros x Hx%list_elem_of_In.
    rewrite Forall_forall in Hc. auto.
Qed.

Lemma check_segments segs :
  match try_fold (fun _ seg => check_segment seg) tt segs with
  | Ok _ => Forall seg_ok segs
  | Err _ => ~ Forall seg_ok segs
  end.
Proof.
  induction segs as [|seg segs IH]; cbn [try_fold]; [constructor|].
  unfold check_segment, ensure. destruct (is_empty seg) eqn:E1; cbn.
  { intros H. apply Forall_cons in H as [[Hne _] _]. by apply is_empty_true in E1. }
  destruct (forallb category_char seg) eqn:E2; cbn.
  - assert (seg_ok seg).
    { split; [by apply is_empty_false|]. apply Forall_forall. intros c Hc%list_elem_of_In.
      by apply (proj1 (forallb_forall category_char seg)). }
    destruct (try_fold _ tt segs); [by constructor|]. by intros [_ ?]%Forall_cons.
  - intros [[_ Hc] _]%Forall_cons. rewrite (proj2 (forallb_forall category_char seg)) in E2; [done|].
    intros x Hx%list_elem_of_In. rewrite Forall_forall in Hc. auto.
Qed.

Lemma elem_of_split c s b : b ∈ s -> b = c \/ exists seg, seg ∈ split c s /\ b ∈ seg.
Proof.
  induction s as [|x s IH]; [by intros ?%not_elem_of_nil|]. cbn [split]. destruct (Z.eqb_spec x c) as [->|Hne].
  - intros [->|Hb]%elem_of_cons; [by left|]. destruct (IH Hb) as [|(seg & Hs & Hin)]; [by left|].
    right. exists seg. split; [by right|done].
  - pose proof (split_nonempty c s) as Hn. destruct (split c s) as [|l ls] eqn:E; [done|].
    intros [->|Hb]%elem_of_cons; [right; exists (x :: l); split; left|].
    destruct (IH Hb) as [|(seg & [->|Hs]%elem_of_cons & Hin)]; [by left| |].
    + right. exists (x :: l). split; [left|by right].
    + right. exists seg. split; [by right|done].
Qed.

Lemma category_char_plain c : category_char c = true -> 32 < c < 128 /\ c <> slash /\ is_ascii_uppercase c = false.
Proof.
  unfold category_char, is_ascii_lowercase, is_ascii_digit, is_ascii_uppercase, slash. intros H.
  repeat (apply orb_true_iff in H as [H|H]); bools;
    (split; [lia|]; split; [lia|]; destruct (Z.leb_spec 65 c), (Z.leb_spec c 90); cbn; lia || done).
Qed.

Lemma syntax_bytes n b : category_syntax n = true -> b ∈ n -> 32 < b < 128 /\ is_ascii_uppercase b = false.
Proof.
  intros Hs%category_syntax_segs Hb. destruct (elem_of_split slash n b Hb) as [->|(seg & Hin & Hc)]; [done|].
  rewrite Forall_forall in Hs. destruct (Hs _ Hin) as [_ Hf]. rewrite Forall_forall in Hf.
  destruct (category_char_plain b (Hf _ Hc)) as (? & _ & ?). done.
Qed.

(** A valid path is its own normal form. *)
Lemma trim_plain s : Forall (fun b => 32 < b < 128) s -> trim s = s.
Proof.
  intros Hs.
  assert (H1 : forall s, Forall (fun b => 32 < b < 128) s -> strip_ws s = None /\ strip_ws_rev s = None).
  { clear. intros s H. destruct H as [|a s Ha H]; [done|]. unfold strip_ws, strip_ws_rev, is_ascii_ws.
    rewrite (proj2 (Z.leb_gt a 13)), andb_false_r, (proj2 (Z.eqb_neq a 32)) by lia. cbn.
    destruct H as [|b s Hb H]; [done|]. rewrite (proj2 (Z.eqb_neq a 194)), (proj2 (Z.eqb_neq b 194)) by lia. cbn.
    destruct H as [|c s Hc H]; [done|]. rewrite (proj2 (Z.eqb_neq a 225)), (proj2 (Z.eqb_neq a 226)), (proj2 (Z.eqb_neq a 227)),
      (proj2 (Z.eqb_neq c 225)), (proj2 (Z.eqb_neq c 226)), (proj2 (Z.eqb_neq c 227)) by lia. done. }
  unfold trim, trim_start, trim_end. destruct (H1 s Hs) as [E1 _].
  assert (strip_while strip_ws (length s) s = s) as -> by (destruct (length s); cbn; by rewrite ?E1).
  destruct (H1 (rev s) ltac:(by apply Forall_rev)) as [_ E2].
  assert (strip_while strip_ws_rev (length s) (rev s) = rev s) as -> by (destruct (length s); cbn; by rewrite ?E2).
  apply rev_involutive.
Qed.

Lemma split_snoc c s : split c (s ++ [c]) = split c s ++ [[]].
Proof.
  induction s as [|x s IH]; cbn [app split]; [by rewrite Z.eqb_refl|]. rewrite IH.
  destruct (x =? c); [done|]. pose proof (split_nonempty c s). by destruct (split c s).
Qed.

Lemma trim_slash_syntax n : category_syntax n = true -> trim_matches slash n = n.
Proof.
  intros Hs%category_syntax_segs. unfold trim_matches.
  assert (trim_start_matches slash n = n) as ->.
  { destruct n as [|x n]; [done|]. cbn in *. destruct (x =? slash); [|done].
    apply Forall_cons in Hs as [[? _] _]. done. }
  unfold trim_end_matches. rewrite <- (rev_involutive n) at 2. f_equal. rewrite <- (rev_involutive n) in Hs.
  destruct (rev n) as [|x m]; [done|]. cbn in *. destruct (Z.eqb_spec x slash) as [->|]; [|done].
  rewrite split_snoc in Hs. apply Forall_app in Hs as [_ Hs]. apply Forall_singleton in Hs as [? _]. done.
Qed.

Lemma lower_plain s : Forall (fun b => is_ascii_uppercase b = false) s -> to_ascii_lowercase s = s.
Proof.
  induction 1 as [|b s Hb H IH]; [done|]. cbn. unfold ascii_lower. rewrite Hb. by f_equal.
Qed.

Lemma normalize_category_id n : category_syntax n = true -> normalize_category n = n.
Proof.
  intros Hs. unfold normalize_category.
  assert (Hb : Forall (fun b => 32 < b < 128 /\ is_ascii_uppercase b = false) n).
  { apply Forall_forall. intros b. by apply syntax_bytes. }
  rewrite trim_plain by (eapply Forall_impl; [exact Hb|]; by intros b [? _]).
  rewrite trim_slash_syntax by done. apply lower_plain. eapply Forall_impl; [exact Hb|]. by intros b [_ ?].
Qed.

(** ** Registering a path *)

(** A path extended by segments, as the loop of [add_category] does it. *)
Fixpoint extend (acc : str) (segs : list str) : str :=
  match segs with
  | [] => acc
  | seg :: segs => extend ((if is_empty acc then acc else acc ++ [slash]) ++ seg) segs
  end.

Lemma elem_of_register n acc segs cats :
  n ∈ register acc segs cats <->
  n ∈ cats \/ exists pre post, segs = pre ++ post /\ pre <> [] /\ n = extend acc pre.
Proof.
  revert acc cats; induction segs as [|seg segs IH]; intros acc cats; cbn [register].
  - split; [by left|]. intros [?|(pre & post & H & Hne & _)]; [done|]. by destruct pre.
  - rewrite IH. set (acc' := _ ++ seg). rewrite elem_of_union, elem_of_singleton. split.
    + intros [[->|?]|(pre & post & -> & Hne & ->)]; [|by left|].
      * right. exists [seg], segs. done.
      * right. exists (seg :: pre), post. done.
    + intros [?|(pre & post & H & Hne & ->)]; [by left; right|].
      destruct pre as [|x pre]; [done|]. injection H as <- ->. cbn [extend]. fold acc'.
      destruct pre as [|y pre]; [by left; left|]. right. by exists (y :: pre), post.
Qed.

Lemma extend_join acc segs :
  Forall (fun s => s <> []) segs -> segs <> [] ->
  extend acc segs = (if is_empty acc then [] else acc ++ [slash]) ++ join [slash] segs.
Proof.
  revert acc; induction segs as [|s segs IH]; intros acc Hs Hne; [done|]. apply Forall_cons in Hs as [Hs1 Hs].
  cbn [extend]. destruct segs as [|s' segs].
  - cbn. by destruct acc.
  - rewrite IH by done. rewrite (join_cons _ s) by done.
    replace (is_empty ((if is_empty acc then acc else acc ++ [slash]) ++ s)) with false
      by (destruct acc, s; done).
    destruct acc; cbn [is_empty app]; by rewrite <- ?app_assoc.
Qed.

(** The parent of a path is the path without its last segment. *)
Lemma rsplit_once_none s : slash ∉ s -> rsplit_once slash s = None.
Proof.
  intros Hs. unfold rsplit_once. replace (split_once slash (rev s)) with (@None (str * str)); [done|].
  symmetry. apply split_once_None. intros H. apply Hs. by apply list_elem_of_In, in_rev, list_elem_of_In.
Qed.

(** The registered paths: every non-empty prefix of the segments. *)
Lemma elem_of_registered n norm cats :
  category_syntax norm = true ->
  n ∈ register [] (split slash norm) cats <->
  n ∈ cats \/ exists pre post, split slash norm = pre ++ post /\ pre <> [] /\ n = join [slash] pre.
Proof.
  intros Hs%category_syntax_segs. rewrite elem_of_register. split.
  - intros [?|(pre & post & E & Hne & ->)]; [by left|right]. exists pre, post. split_and!; [done..|].
    rewrite extend_join; [done| |done]. rewrite E in Hs. apply Forall_app in Hs as [Hs _].
    eapply Forall_impl; [exact Hs|]. by intros s [? _].
  - intros [?|(pre & post & E & Hne & ->)]; [by left|right]. exists pre, post. split_and!; [done..|].
    rewrite extend_join; [done| |done]. rewrite E in Hs. apply Forall_app in Hs as [Hs _].
    eapply Forall_impl; [exact Hs|]. by intros s [? _].
Qed.

Lemma seg_no_slash seg : seg_ok seg -> slash ∉ seg.
Proof. intros [_ H] Hin. rewrite Forall_forall in H. by destruct (category_char_plain _ (H _ Hin)) as (_ & ? & _). Qed.

Lemma join_syntax pre : Forall seg_ok pre -> pre <> [] -> category_syntax (join [slash] pre) = true.
Proof.
  intros Hs Hne. apply category_syntax_segs. rewrite split_join; [done|done|].
  eapply Forall_impl; [exact Hs|]. apply seg_no_slash.
Qed.

(** Paths closed under parents, all well formed. *)
Definition cats_ok (cats : gset str) : Prop :=
  (forall n, n ∈ cats -> n <> [] /\ category_syntax n = true) /\
  (forall n p rest, n ∈ cats -> rsplit_once slash n = Some (p, rest) -> p ∈ cats).

Lemma syntax_nonempty n : category_syntax n = true -> n <> [].
Proof. intros H ->. done. Qed.

Lemma register_ok norm cats :
  cats_ok cats -> category_syntax norm = true ->
  cats_ok (register [] (split slash norm) cats) /\ cats ⊆ register [] (split slash norm) cats /\
  norm ∈ register [] (split slash norm) cats.
Proof.
  intros [Hsyn Hclo] Hs. pose proof (proj1 (category_syntax_segs norm) Hs) as Hsegs. split_and!.
  - split.
    + intros n Hn. apply elem_of_registered in Hn as [Hn|(pre & post & E & Hne & ->)]; [by apply Hsyn| |done].
      rewrite E in Hsegs. apply Forall_app in Hsegs as [Hpre _]. pose proof (join_syntax pre Hpre Hne).
      split; [by apply syntax_nonempty|done].
    + intros n p rest Hn Hr. apply elem_of_registered; [done|].
      apply elem_of_registered in Hn as [Hn|(pre & post & E & Hne & ->)]; [left; by eapply Hclo| |done]. right.
      rewrite E in Hsegs. apply Forall_app in Hsegs as [Hpre _].
      destruct (exists_last Hne) as (pre' & x & ->). apply Forall_app in Hpre as [Hp' Hx].
      rewrite Forall_singleton in Hx. destruct pre' as [|y pre'].
      { cbn in Hr. rewrite rsplit_once_none in Hr by by apply seg_no_slash. done. }
      rewrite join_app in Hr by done. rewrite rsplit_once_sep in Hr by by apply seg_no_slash. injection Hr as <- <-.
      exists (y :: pre'), (x :: post). rewrite E, <- app_assoc. done.
  - intros n Hn. apply elem_of_registered; [done|by left].
  - apply elem_of_registered; [done|]. right. exists (split slash norm), [].
    rewrite app_nil_r, join_split. split_and!; [done|apply split_nonempty|done].
Qed.

Lemma register_known n cats :
  cats_ok cats -> n ∈ cats -> register [] (split slash n) cats = cats.
Proof.
  intros Hok Hn. destruct (proj1 Hok n Hn) as [_ Hs]. apply set_eq. intros m.
  rewrite elem_of_registered by done. split; [|by left]. intros [?|(pre & post & E & Hne & ->)]; [done|].
  revert E Hne. revert n Hn Hs. induction post as [|x post IH] using rev_ind; intros n Hn Hs E Hne.
  - rewrite app_nil_r in E. by rewrite <- E, join_split.
  - apply category_syntax_segs in Hs as Hsegs. rewrite E in Hsegs.
    apply Forall_app in Hsegs as [Hpre Hpost]. apply Forall_app in Hpost as [Hpost Hx]. rewrite Forall_singleton in Hx.
    assert (Hpp : pre ++ post <> []) by by destruct pre. assert (Forall seg_ok (pre ++ post)) as Hf by by apply Forall_app_2.
    assert (n = join [slash] (pre ++ post) ++ [slash] ++ x) as En.
    { rewrite <- (join_split slash n), E, app_assoc. by apply join_app. }
    apply (IH (join [slash] (pre ++ post))); [|by apply join_syntax| |done].
    + eapply (proj2 Hok); [exact Hn|]. rewrite En. by apply rsplit_once_sep, seg_no_slash.
    + rewrite split_join; [done|done|]. eapply Forall_impl; [exact Hf|]. apply seg_no_slash.
Qed.

(** ** Adding entries *)

Lemma add_category_spec path bb :
  match add_category path bb with
  | (bb', Ok n) => n = normalize_category path /\ category_syntax n = true /\
                   bb' = set_categories (register [] (split slash n) (bb_categories bb)) bb
  | (bb', Err _) => bb' = bb /\ category_syntax (normalize_category path) = false
  end.
Proof.
  unfold add_category. fold (normalize_category path). set (n := normalize_category path).
  destruct (is_empty n) eqn:E.
  - apply is_empty_true in E as ->. done.
  - pose proof (check_segments (split slash n)) as Hc.
    destruct (try_fold _ _ _); rewrite <- category_syntax_segs in Hc; [done|]. split; [done|].
    by destruct (category_syntax n).
Qed.

Lemma builder_cats_ok bb : builder_ok bb -> cats_ok (bb_categories bb).
Proof. intros []. by split. Qed.

Lemma entries_in_mono c1 c2 m : c1 ⊆ c2 -> entries_in c1 m -> entries_in c2 m.
Proof. intros Hs H. eapply map_Forall_impl; [exact H|]. intros t cs [? ?]. split; [done|set_solver]. Qed.

Lemma set_categories_ok cats bb :
  builder_ok bb -> cats_ok cats -> bb_categories bb ⊆ cats -> builder_ok (set_categories cats bb).
Proof.
  intros [_ _ H4 H6 He Hs Hk] [Hsyn Hclo] Hsub. split; cbn; [done|done| | |by eapply entries_in_mono..].
  - eapply Forall_impl; [exact H4|]. intros [[s e] c]. set_solver.
  - eapply Forall_impl; [exact H6|]. intros [[s e] c]. set_solver.
Qed.

(** [add_category] keeps the entries, and the path it returns is registered. *)
Lemma add_category_ok path bb :
  builder_ok bb ->
  let '(bb', r) := add_category path bb in
  builder_ok bb' /\ (forall host c, builder_in bb' host c <-> builder_in bb host c) /\
  is_ok r = category_syntax (normalize_category path) /\
  (forall n, r = Ok n -> n = normalize_category path /\ n ∈ bb_categories bb').
Proof.
  intros Hok. pose proof (add_category_spec path bb) as H.
  destruct (add_category path bb) as [bb' [n|e]].
  - destruct H as (-> & Hs & ->). destruct (register_ok _ _ (builder_cats_ok _ Hok) Hs) as (Hc & Hsub & Hin).
    split; [by apply set_categories_ok|]. split; [done|]. split; [done|]. intros n' [= <-]. done.
  - destruct H as [-> Hs]. done.
Qed.

(** A path that is already registered is left alone. *)
Lemma add_category_known n bb : builder_ok bb -> n ∈ bb_categories bb -> add_category n bb = (bb, Ok n).
Proof.
  intros Hok Hn. pose proof (add_category_spec n bb) as H. destruct (bo_syntax _ Hok n Hn) as [_ Hs].
  destruct (add_category n bb) as [bb' [m|e]].
  - destruct H as (Hm & _ & ->). rewrite (normalize_category_id n Hs) in Hm. subst m.
    rewrite register_known by (by apply builder_cats_ok || done). by destruct bb.
  - destruct H as [_ H]. rewrite (normalize_category_id n Hs) in H. congruence.
Qed.

Lemma in_table_insert k cat m P c :
  in_table (entry_insert k cat m) P c <-> in_table m P c \/ (c = cat /\ P k).
Proof.
  unfold in_table, entry_insert. split.
  - intros (t & cats & Ht & HP & Hc). apply lookup_insert_Some in Ht as [[<- <-]|[_ Ht]]; [|left; eauto].
    apply elem_of_union in Hc as [->%elem_of_singleton|Hc]; [by right|]. left.
    destruct (m !! k) as [cs|] eqn:E; cbn in Hc; [eauto|set_solver].
  - intros [(t & cats & Ht & HP & Hc)|[-> HP]].
    + destruct (decide (t = k)) as [->|Hne].
      * exists k. eexists. rewrite lookup_insert_eq, Ht. split; [done|]. cbn. set_solver.
      * exists t, cats. by rewrite lookup_insert_ne.
    + exists k. eexists. rewrite lookup_insert_eq. split; [done|]. set_solver.
Qed.

Lemma entries_in_insert k cat cats m :
  k <> [] -> cat ∈ cats -> entries_in cats m -> entries_in cats (entry_insert k cat m).
Proof.
  intros Hk Hc Hm. apply map_Forall_insert_2; [|done]. split; [done|].
  destruct (m !! k) as [cs|] eqn:E; cbn; [|set_solver]. destruct (Hm _ _ E). set_solver.
Qed.

(** What one operation does: it keeps the invariant, succeeds exactly when
    [good] holds, and then adds [P] under [cat]; a failure adds nothing. *)
Definition adds (bb bb' : BookBuilder) (r : result builder_error unit) (good : Prop) (cat : str) (P : str -> Prop) : Prop :=
  builder_ok bb' /\ (is_ok r = true <-> good) /\
  forall host c, builder_in bb' host c <-> builder_in bb host c \/ (good /\ c = cat /\ P host).

(** A name pattern holds of a host that is not an IP literal. *)
Definition on_name (P : str -> Prop) (host : str) : Prop :=
  parse_ip_addr host = None /\ normalize_domain host <> [] /\ P (normalize_domain host).

Lemma add_failed bb bb' e good cat P :
  builder_ok bb' -> (forall host c, builder_in bb' host c <-> builder_in bb host c) -> ~ good ->
  adds bb bb' (Err e) good cat P.
Proof. intros Hok Hin Hg. split; [done|]. split; [by split|]. intros host c. rewrite Hin. naive_solver. Qed.

Ltac builder_name host :=
  unfold builder_in, on_name; cbn;
  destruct (parse_ip_addr host) as [[?|?]|]; [naive_solver| |]; [destruct (to_ipv4_mapped _); naive_solver|].

Lemma add_domain_exact_adds category host bb :
  builder_ok bb ->
  let '(bb', r) := add_domain_exact category host bb in
  adds bb bb' r (category_syntax (normalize_category category) = true /\ normalize_domain host <> [])
    (normalize_category category) (on_name (fun n => n = normalize_domain host)).
Proof.
  intros Hok. unfold add_domain_exact, mbind, bop_bind. pose proof (add_category_ok category bb Hok) as H.
  destruct (add_category category bb) as [bb1 [cat|e]]; destruct H as (Hok1 & Hin1 & Hg & Hn);
    [|apply add_failed; [done|done|]; rewrite <- Hg; by intros [? _]].
  destruct (Hn _ eq_refl) as [-> Hcat]. destruct (is_empty (normalize_domain host)) eqn:E;
    [apply is_empty_true in E; apply add_failed; [done|done|]; by intros [_ ?]|].
  apply is_empty_false in E. unfold bmodify. split; [|split].
  - destruct Hok1 as [H1 H2 H3 H4 H5 H6 H7]. split; cbn; try done. by apply entries_in_insert.
  - by rewrite <- Hg.
  - intros h c. rewrite <- Hin1, <- Hg. builder_name h. rewrite in_table_insert. naive_solver.
Qed.

Lemma add_keyword_adds category frag bb :
  builder_ok bb ->
  let '(bb', r) := add_keyword category frag bb in
  adds bb bb' r (category_syntax (normalize_category category) = true /\ normalize_domain frag <> [])
    (normalize_category category) (on_name (fun n => exists a b, n = a ++ normalize_domain frag ++ b)).
Proof.
  intros Hok. unfold add_keyword, mbind, bop_bind. pose proof (add_category_ok category bb Hok) as H.
  destruct (add_category category bb) as [bb1 [cat|e]]; destruct H as (Hok1 & Hin1 & Hg & Hn);
    [|apply add_failed; [done|done|]; rewrite <- Hg; by intros [? _]].
  destruct (Hn _ eq_refl) as [-> Hcat]. destruct (is_empty (normalize_domain frag)) eqn:E;
    [apply is_empty_true in E; apply add_failed; [done|done|]; by intros [_ ?]|].
  apply is_empty_false in E. unfold bmodify. split; [|split].
  - destruct Hok1 as [H1 H2 H3 H4 H5 H6 H7]. split; cbn; try done. by apply entries_in_insert.
  - by rewrite <- Hg.
  - intros h c. rewrite <- Hin1, <- Hg. builder_name h. rewrite in_table_insert. naive_solver.
Qed.

Lemma reverse_labels_nonempty s : s <> [] -> reverse_labels s <> [].
Proof. intros Hs H. apply Hs. rewrite <- (reverse_labels_involutive s), H. done. Qed.

Lemma add_domain_suffix_adds category host bb :
  builder_ok bb ->
  let '(bb', r) := add_domain_suffix category host bb in
  adds bb bb' r (category_syntax (normalize_category category) = true /\ suffix_of host <> [])
    (normalize_category category) (on_name (fun n => under (suffix_of host) n)).
Proof.
  intros Hok. unfold add_domain_suffix, mbind, bop_bind. pose proof (add_category_ok category bb Hok) as H.
  destruct (add_category category bb) as [bb1 [cat|e]]; destruct H as (Hok1 & Hin1 & Hg & Hn);
    [|apply add_failed; [done|done|]; rewrite <- Hg; by intros [? _]].
  destruct (Hn _ eq_refl) as [-> Hcat].
  change (default (normalize_domain host) (strip_prefix (lit "*.") (normalize_domain host))) with (suffix_of host).
  destruct (is_empty (suffix_of host)) eqn:E;
    [apply is_empty_true in E; apply add_failed; [done|done|]; by intros [_ ?]|].
  apply is_empty_false in E. unfold bmodify. split; [|split].
  - destruct Hok1 as [H1 H2 H3 H4 H5 H6 H7]. split; cbn; try done.
    apply entries_in_insert; [by apply reverse_labels_nonempty|done|done].
  - by rewrite <- Hg.
  - intros h c. rewrite <- Hin1, <- Hg. builder_name h. rewrite in_table_insert, reverse_labels_involutive. naive_solver.
Qed.

(** ** Address ranges *)

(** A canonical address lies in a range of its family. *)
Definition range_has (r : Z * Z * bool) (a : IpAddr) : Prop :=
  let '(s, e, v4) := r in
  match a with V4 x => v4 = true /\ s <= x <= e | V6 x => v4 = false /\ s <= x <= e end.
Definition range_fit (r : Z * Z * bool) : Prop :=
  let '(s, e, v4) := r in
  0 <= s <= e /\ if v4 : bool then e < 2 ^ 32 else e < 2 ^ 128 /\ (IPV4_MAPPED_END < s \/ e < IPV4_MAPPED_START).

Lemma mapped_start : IPV4_MAPPED_START = 65535 * 2 ^ 32.
Proof. reflexivity. Qed.
Lemma mapped_end : IPV4_MAPPED_END = 65536 * 2 ^ 32 - 1.
Proof. reflexivity. Qed.

(** Canonicalization splits an IPv6 range into the canonical addresses it holds. *)
Lemma canonicalize_v6 s e a :
  0 <= s <= e -> e < 2 ^ 128 ->
  (exists r, r ∈ canonicalize_ip_range (s, e, false) /\ range_has r a) <->
  (exists b, s <= b <= e /\ canon (V6 b) = a).
Proof.
  intros Hs He. unfold canonicalize_ip_range. cbn [orb]. pose proof mapped_start as Hms. pose proof mapped_end as Hme.
  destruct ((e <? IPV4_MAPPED_START) || (IPV4_MAPPED_END <? s)) eqn:E.
  - assert (Hn : forall b, s <= b <= e -> to_ipv4_mapped b = None).
    { intros b Hb. apply to_ipv4_mapped_None. apply orb_true_iff in E as [E%Z.ltb_lt|E%Z.ltb_lt]; lia. }
    setoid_rewrite list_elem_of_singleton. split.
    + intros (r & -> & Hr). destruct a as [x|x]; destruct Hr as [? Hr]; [done|]. exists x. split; [done|]. cbn. by rewrite Hn.
    + intros (b & Hb & <-). eexists. split; [done|]. cbn. rewrite Hn by done. done.
  - apply orb_false_iff in E as [E1%Z.ltb_ge E2%Z.ltb_ge]. setoid_rewrite elem_of_app. setoid_rewrite elem_of_app. split.
    + intros (r & [Hr|[Hr|Hr]] & Ha).
      * destruct (Z.ltb_spec s IPV4_MAPPED_START); [|by apply not_elem_of_nil in Hr]. apply list_elem_of_singleton in Hr as ->.
        destruct a as [x|x]; destruct Ha as [? Ha]; [done|]. exists x. split; [lia|]. cbn.
        by rewrite (proj2 (to_ipv4_mapped_None x)) by lia.
      * apply list_elem_of_singleton in Hr as ->. destruct a as [x|x]; destruct Ha as [? Ha]; [|done].
        exists (65535 * 2 ^ 32 + x). split; [lia|]. cbn. by rewrite (proj2 (to_ipv4_mapped_Some _ x)) by lia.
      * destruct (Z.ltb_spec IPV4_MAPPED_END e); [|by apply not_elem_of_nil in Hr]. apply list_elem_of_singleton in Hr as ->.
        destruct a as [x|x]; destruct Ha as [? Ha]; [done|]. exists x. split; [lia|]. cbn.
        by rewrite (proj2 (to_ipv4_mapped_None x)) by lia.
    + intros (b & Hb & <-). cbn. destruct (to_ipv4_mapped b) as [v|] eqn:Em.
      * apply to_ipv4_mapped_Some in Em as [Hv ->]. eexists. split; [right; left; by apply list_elem_of_singleton|].
        split; [done|]. lia.
      * apply to_ipv4_mapped_None in Em as [Hlt|Hge].
        -- exists (s, IPV4_MAPPED_START - 1, false). rewrite (proj2 (Z.ltb_lt s _)) by lia.
           split; [left; by apply list_elem_of_singleton|]. split; [done|lia].
        -- exists (IPV4_MAPPED_END + 1, e, false). rewrite (proj2 (Z.ltb_lt _ e)) by lia.
           split; [right; right; by apply list_elem_of_singleton|]. split; [done|lia].
Qed.

Lemma canonicalize_fit s e v4 :
  0 <= s <= e -> (if v4 : bool then e < 2 ^ 32 else e < 2 ^ 128) -> Forall range_fit (canonicalize_ip_range (s, e, v4)).
Proof.
  intros Hs He. unfold canonicalize_ip_range. pose proof mapped_start as Hms. pose proof mapped_end as Hme.
  destruct v4; cbn [orb].
  - apply Forall_singleton. done.
  - destruct ((e <? IPV4_MAPPED_START) || (IPV4_MAPPED_END <? s)) eqn:E.
    + apply Forall_singleton. split; [done|]. split; [done|]. apply orb_true_iff in E as [E%Z.ltb_lt|E%Z.ltb_lt]; auto.
    + apply orb_false_iff in E as [E1%Z.ltb_ge E2%Z.ltb_ge].
      repeat apply Forall_app_2; [destruct (Z.ltb_spec s IPV4_MAPPED_START)| |destruct (Z.ltb_spec IPV4_MAPPED_END e)];
        try apply Forall_nil_2; apply Forall_singleton; cbn -[Z.pow IPV4_MAPPED_START IPV4_MAPPED_END]; lia.
Qed.

(** An IP literal's categories, by its canonical form. *)
Lemma builder_in_ip bb host a c :
  parse_ip_addr host = Some a ->
  builder_in bb host c <-> match canon a with V4 x => in_named (bb_ip4 bb) x c | V6 x => in_named (bb_ip6 bb) x c end.
Proof. intros Hp. unfold builder_in. rewrite Hp. destruct a as [x|x]; cbn; [done|]. by destruct (to_ipv4_mapped x). Qed.

Lemma in_named_app l s e cat x c :
  in_named (l ++ [(s, e, cat)]) x c <-> in_named l x c \/ (c = cat /\ s <= x <= e).
Proof.
  unfold in_named. setoid_rewrite elem_of_app. setoid_rewrite list_elem_of_singleton. naive_solver.
Qed.

(** An IP literal whose canonical form satisfies [P]. *)
Definition on_ip (P : IpAddr -> Prop) (host : str) : Prop := exists a, parse_ip_addr host = Some a /\ P (canon a).

Lemma push_ranges_adds cat rs bb :
  builder_ok bb -> cat ∈ bb_categories bb -> Forall range_fit rs ->
  let bb' := foldl (push_range cat) bb rs in
  builder_ok bb' /\
  forall host c, builder_in bb' host c <-> builder_in bb host c \/ (c = cat /\ on_ip (fun a => exists r, r ∈ rs /\ range_has r a) host).
Proof.
  revert bb; induction rs as [|[[s e] v4] rs IH]; intros bb Hok Hcat Hrs; cbn [foldl].
  - split; [done|]. intros host c. unfold on_ip. setoid_rewrite elem_of_nil. naive_solver.
  - apply Forall_cons in Hrs as [Hr Hrs].
    destruct (IH (push_range cat bb (s, e, v4))) as [Hok' Hin]; [|by destruct v4|done|].
    { destruct Hok as [H1 H2 H3 H4 H5 H6 H7]. destruct v4; split; cbn [push_range bb_categories bb_ip4 bb_ip6 bb_exact bb_suffix bb_keywords];
        try done; apply Forall_app_2; [done| |done|]; apply Forall_singleton.
      - destruct Hr as [? ?]. done.
      - destruct Hr as (? & ? & ?). done. }
    split; [done|]. intros host c. rewrite Hin.
    assert (Hone : builder_in (push_range cat bb (s, e, v4)) host c <->
      builder_in bb host c \/ (c = cat /\ on_ip (fun a => range_has (s, e, v4) a) host)).
    { destruct (parse_ip_addr host) as [a|] eqn:Ea.
      - assert (on_ip (fun a => range_has (s, e, v4) a) host <-> range_has (s, e, v4) (canon a)) as ->.
        { unfold on_ip. rewrite Ea. clear. split; [by intros (? & [= <-] & ?)|eauto]. }
        rewrite !(builder_in_ip _ _ _ _ Ea). clear. destruct v4, (canon a) as [x|x];
          cbn [push_range bb_ip4 bb_ip6 range_has]; rewrite ?in_named_app; naive_solver.
      - unfold builder_in, on_ip. rewrite Ea. clear. destruct v4; cbn; naive_solver. }
    rewrite Hone. unfold on_ip. clear. setoid_rewrite elem_of_cons. naive_solver.
Qed.

(** ** Rules *)

Section Rules.
Context {N : Ipnet} `{!IpnetLaws N} `{!IpnetGrammar N}.

(** The kind of a rule for the builder: there is no [book:] form, so such a line
    is an unknown [type:pattern]. *)
Definition builder_kind_of (r : str) : rule_kind :=
  match rule_kind_of r with RBook _ => RDomain (pattern_of (trim r)) | k => k end.

(** Rules with something to match. *)
Definition kind_usable (k : rule_kind) : Prop :=
  match k with
  | RBlank | RBook _ => False
  | RNet _ | RAddr _ => True
  | RDomain (PFull p) | RDomain (PKeyword p) | RDomain (PSuffix p) => p <> []
  end.

(** A rule against a host, with addresses compared in canonical form. *)
Definition canon_matches (k : rule_kind) (host : str) : Prop :=
  match parse_ip_addr host, k with
  | Some a, RNet net => exists b, canon b = canon a /\ ipnet_contains net b = true
  | Some a, RAddr b => canon b = canon a
  | None, RDomain p => pattern_matches p (normalize host)
  | _, _ => False
  end.

(** The canonical ranges of an address rule. *)
Definition kind_ranges (k : rule_kind) : option (list (Z * Z * bool)) :=
  match k with
  | RNet (inl n) => Some (canonicalize_ip_range (v4net_network n, v4net_broadcast n, true))
  | RNet (inr n) => Some (canonicalize_ip_range (v6net_network n, v6net_broadcast n, false))
  | RAddr (V4 a) => Some (canonicalize_ip_range (a, a, true))
  | RAddr (V6 a) => Some (canonicalize_ip_range (a, a, false))
  | _ => None
  end.

Lemma v4_has s e a : (exists r, r ∈ canonicalize_ip_range (s, e, true) /\ range_has r a) <-> exists x, a = V4 x /\ s <= x <= e.
Proof.
  cbn. setoid_rewrite list_elem_of_singleton. split.
  - intros (r & -> & Hr). destruct a as [x|x]; destruct Hr as [? Hr]; [eauto|done].
  - intros (x & -> & Hx). eexists. split; [done|]. done.
Qed.

Lemma canon_v4 b x : canon b = V4 x -> b = V4 x \/ exists y, b = V6 y.
Proof. destruct b as [y|y]; cbn; [intros [= ->]; by left|eauto]. Qed.

Lemma kind_ranges_matches k rs host :
  kind_ranges k = Some rs -> (forall b, k = RAddr b -> addr_fits b) ->
  Forall range_fit rs /\ (on_ip (fun a => exists r, r ∈ rs /\ range_has r a) host <-> canon_matches k host).
Proof.
  intros Hk Hfit. unfold on_ip, canon_matches.
  destruct k as [| |[n|n]|[a|a]|]; try done; cbn [kind_ranges] in Hk; apply Some_inj in Hk; subst rs.
  - destruct (v4net_bounds n) as [Hb1 Hb2]. split; [by apply canonicalize_fit|].
    destruct (parse_ip_addr host) as [a|]; [|naive_solver]. split.
    + intros (? & [= <-] & (x & Ha & Hx)%v4_has). exists (V4 x). split; [done|].
      by rewrite ipnet_contains_v4, v4net_contains_iff.
    + intros ([x|x] & Hc & Hn); [|by rewrite ipnet_contains_v4_v6 in Hn]. exists a. split; [done|].
      apply v4_has. exists x. rewrite ipnet_contains_v4, v4net_contains_iff in Hn. done.
  - destruct (v6net_bounds n) as [Hb1 Hb2]. split; [by apply canonicalize_fit|].
    destruct (parse_ip_addr host) as [a|]; [|naive_solver]. split.
    + intros (? & [= <-] & Hr). apply canonicalize_v6 in Hr as (b & Hb & Hc); [|done|done]. exists (V6 b).
      split; [done|]. by apply ipnet_contains_v6.
    + intros ([x|x] & Hc & Hn); [by rewrite ipnet_contains_v6_v4 in Hn|]. exists a. split; [done|].
      apply canonicalize_v6; [done|done|]. exists x. split; [by apply ipnet_contains_v6|done].
  - pose proof (Hfit _ eq_refl) as [Ha1 Ha2]. split; [apply canonicalize_fit; [lia|done]|].
    destruct (parse_ip_addr host) as [b|]; [|naive_solver]. split.
    + intros (? & [= <-] & (x & Hx & Hxa)%v4_has). rewrite Hx. cbn. f_equal. lia.
    + intros Hc. exists b. split; [done|]. apply v4_has. exists a. split; [done|lia].
  - pose proof (Hfit _ eq_refl) as [Ha1 Ha2]. split; [apply canonicalize_fit; [lia|done]|].
    destruct (parse_ip_addr host) as [b|]; [|naive_solver]. split.
    + intros (? & [= <-] & Hr). apply canonicalize_v6 in Hr as (y & Hy & Hc); [|lia|done].
      assert (y = a) as -> by lia. done.
    + intros Hc. exists b. split; [done|]. apply canonicalize_v6; [lia|done|]. exists a. split; [lia|done].
Qed.

(** A typed line is never an address. *)
Lemma typed_not_addr p c rest :
  addr_char c = false -> c ∈ p -> parse_ip_addr (p ++ rest) = None /\ ipnet_parse (p ++ rest) = None.
Proof.
  intros Hc Hin. assert (Hno : ~ addr_text (p ++ rest)).
  { intros H. apply Forall_app in H as [H _]. rewrite Forall_forall in H. specialize (H _ Hin). congruence. }
  split.
  - destruct (parse_ip_addr (p ++ rest)) eqn:E; [|done]. by apply parse_ip_addr_text in E.
  - destruct (ipnet_parse (p ++ rest)) eqn:E; [|done]. by apply ipnet_parse_text in E.
Qed.

(** How the builder reads a trimmed line. *)
Inductive reading := ReadExact (h : str) | ReadKeyword (f : str) | ReadSuffix (h : str) | ReadRanges (rs : list (Z * Z * bool)).
Definition read_rule (r : str) : reading :=
  match strip_prefix (lit "full:") r, strip_prefix (lit "keyword:") r, strip_prefix (lit "domain:") r with
  | Some h, _, _ => ReadExact h
  | None, Some f, _ => ReadKeyword f
  | None, None, Some h => ReadSuffix h
  | None, None, None =>
      match parse_ip_entries r with
      | Some rs => ReadRanges rs
      | None => ReadSuffix (match split_once colon r with Some (_, p) => p | None => r end)
      end
  end.

Definition kind_read (k : rule_kind) (rd : reading) : Prop :=
  match rd with
  | ReadExact h => k = RDomain (PFull (normalize h))
  | ReadKeyword f => k = RDomain (PKeyword (normalize f))
  | ReadSuffix h => k = RDomain (PSuffix (suffix_of h))
  | ReadRanges rs => kind_ranges k = Some rs /\ forall b, k = RAddr b -> addr_fits b
  end.

Lemma pattern_of_typed t rest :
  colon ∉ t -> pattern_of (t ++ colon :: rest) =
  if str_eqb t (lit "full") then PFull (normalize rest)
  else if str_eqb t (lit "keyword") then PKeyword (normalize rest) else PSuffix (suffix_of rest).
Proof.
  intros Ht. unfold pattern_of.
  assert (split_once colon (t ++ colon :: rest) = Some (t, rest)) as ->; [|done].
  induction t as [|x t IH]; cbn [app split_once]; [by rewrite Z.eqb_refl|].
  apply not_elem_of_cons in Ht as [Hx Ht]. destruct (Z.eqb_spec x colon) as [->|]; [done|]. by rewrite IH.
Qed.

(** A line with a type of its own is a domain rule for the policy too. *)
Lemma kind_typed r p c t rest :
  trim r = p ++ rest -> p = t ++ [colon] -> colon ∉ t -> addr_char c = false -> c ∈ p -> trim r <> [] ->
  (strip_prefix (lit "book:") (trim r) = None) -> trim (trim r) = trim r ->
  builder_kind_of r = RDomain (pattern_of (t ++ colon :: rest)).
Proof.
  intros Er -> Ht Hc Hin Hne Hb Htt. unfold builder_kind_of, rule_kind_of. apply is_empty_false in Hne.
  rewrite Hne, Hb, Htt. rewrite Er. destruct (typed_not_addr (t ++ [colon]) c rest Hc Hin) as [-> ->].
  by rewrite <- app_assoc.
Qed.

Lemma strip_other (p q r : str) rest :
  r = p ++ rest -> (exists i x y, p !! i = Some x /\ q !! i = Some y /\ x <> y) -> strip_prefix q r = None.
Proof.
  intros -> (i & x & y & Hx & Hy & Hne). destruct (strip_prefix q (p ++ rest)) as [u|] eqn:E; [|done].
  apply strip_prefix_Some in E. apply (f_equal (fun l => l !! i)) in E.
  rewrite (lookup_app_l_Some _ _ _ _ Hx), (lookup_app_l_Some _ _ _ _ Hy) in E. congruence.
Qed.

Lemma parse_ip_entries_kind t :
  parse_ip_entries t =
  match ipnet_parse (trim t) with
  | Some net => kind_ranges (RNet net)
  | None => match parse_ip_addr (trim t) with Some a => kind_ranges (RAddr a) | None => None end
  end.
Proof. unfold parse_ip_entries. destruct (ipnet_parse (trim t)) as [[n|n]|]; [done|done|]. by destruct (parse_ip_addr (trim t)) as [[a|a]|]. Qed.

Lemma strip_prefix_None p s : strip_prefix p s = None <-> forall r, s <> p ++ r.
Proof.
  split.
  - intros H r ->. by rewrite strip_prefix_app in H.
  - intros H. destruct (strip_prefix p s) as [r|] eqn:E; [|done]. apply strip_prefix_Some in E. by apply H in E.
Qed.

Ltac decided := apply (bool_decide_unpack _); vm_compute; exact I.

(** Both parsers read a line the same way. *)
Lemma read_rule_kind r : trim r <> [] -> kind_read (builder_kind_of r) (read_rule (trim r)).
Proof.
  intros Hne. pose proof (trim_idem r) as Htt. unfold read_rule.
  destruct (strip_prefix (lit "full:") (trim r)) as [h|] eqn:Ef.
  { apply strip_prefix_Some in Ef. cbn [kind_read].
    rewrite (kind_typed r (lit "full:") 117 (lit "full") h); try done; [decided|decided|].
    eapply strip_other; [exact Ef|]. exists 0%nat, 102, 98. done. }
  destruct (strip_prefix (lit "keyword:") (trim r)) as [f|] eqn:Ek.
  { apply strip_prefix_Some in Ek. cbn [kind_read].
    rewrite (kind_typed r (lit "keyword:") 107 (lit "keyword") f); try done; [decided|decided|].
    eapply strip_other; [exact Ek|]. exists 0%nat, 107, 98. done. }
  destruct (strip_prefix (lit "domain:") (trim r)) as [h|] eqn:Ed.
  { apply strip_prefix_Some in Ed. cbn [kind_read].
    rewrite (kind_typed r (lit "domain:") 111 (lit "domain") h); try done; [decided|decided|].
    eapply strip_other; [exact Ed|]. exists 0%nat, 100, 98. done. }
  assert (Hsuf : pattern_of (trim r) = PSuffix (suffix_of match split_once colon (trim r) with Some (_, p) => p | None => trim r end)).
  { unfold pattern_of. destruct (split_once colon (trim r)) as [[t p]|] eqn:E; [|done].
    apply split_once_Some in E as [E _].
    assert (Htype : forall ty, strip_prefix (ty ++ [colon]) (trim r) = None -> str_eqb t ty = false).
    { intros ty Hty. apply str_eqb_neq. intros ->. rewrite strip_prefix_None in Hty. apply (Hty p). by rewrite E, <- app_assoc. }
    by rewrite (Htype (lit "full") Ef), (Htype (lit "keyword") Ek). }
  rewrite parse_ip_entries_kind, Htt. unfold builder_kind_of, rule_kind_of. apply is_empty_false in Hne. rewrite Hne, Htt.
  destruct (strip_prefix (lit "book:") (trim r)) as [b|] eqn:Eb.
  - apply strip_prefix_Some in Eb. destruct (typed_not_addr (lit "book:") 111 b) as [E1 E2]; [done| |].
    { decided. }
    rewrite <- Eb in E1, E2. rewrite E1, E2. cbn [kind_read]. by rewrite Hsuf.
  - destruct (ipnet_parse (trim r)) as [[n|n]|]; [done|done|].
    destruct (parse_ip_addr (trim r)) as [[a|a]|] eqn:Ea; [..|cbn [kind_read]; by rewrite Hsuf];
      (split; [done|]; intros b [= <-]; by eapply parse_ip_addr_fits in Ea).
Qed.

Lemma builder_kind_blank r : trim r = [] -> builder_kind_of r = RBlank.
Proof. intros H. unfold builder_kind_of, rule_kind_of. by rewrite H. Qed.

Lemma on_name_pattern p host :
  kind_usable (RDomain p) ->
  canon_matches (RDomain p) host <->
  on_name (fun n => match p with
                    | PFull f => n = f
                    | PKeyword k => exists a b, n = a ++ k ++ b
                    | PSuffix d => under d n
                    end) host.
Proof.
  unfold canon_matches, on_name, pattern_matches. change (normalize host) with (normalize_domain host).
  destruct (parse_ip_addr host); [naive_solver|]. destruct p; naive_solver.
Qed.

Lemma adds_equiv bb bb1 bb' r G G1 cat cat1 (P P1 : str -> Prop) :
  (forall host c, builder_in bb1 host c <-> builder_in bb host c) -> (G1 <-> G) -> cat1 = cat ->
  (G -> forall host, P1 host <-> P host) -> adds bb1 bb' r G1 cat1 P1 -> adds bb bb' r G cat P.
Proof.
  intros Hin HG -> HP (Hok & Hg & Ha). split; [done|]. split; [by rewrite Hg|]. intros host c.
  rewrite Ha, Hin, HG. naive_solver.
Qed.

(** [add_rule] after the category, by how the line reads. *)
Definition add_reading (cat : str) (rd : reading) : bop unit :=
  match rd with
  | ReadExact h => add_domain_exact cat h
  | ReadKeyword f => add_keyword cat f
  | ReadSuffix h => add_domain_suffix cat h
  | ReadRanges rs => bmodify (fun bb => foldl (push_range cat) bb rs)
  end.

Lemma add_rule_reading category rule :
  add_rule category rule =
  (cat ← add_category category; if is_empty (trim rule) then bret (Err EmptyRule) else add_reading cat (read_rule (trim rule))).
Proof.
  unfold add_rule, read_rule. destruct (is_empty (trim rule)); [done|].
  destruct (strip_prefix (lit "full:") (trim rule)); [done|]. destruct (strip_prefix (lit "keyword:") (trim rule)); [done|].
  destruct (strip_prefix (lit "domain:") (trim rule)); [done|]. by destruct (parse_ip_entries (trim rule)).
Qed.

Lemma add_reading_adds cat k rd bb :
  builder_ok bb -> cat ∈ bb_categories bb -> kind_read k rd ->
  let '(bb', r) := add_reading cat rd bb in adds bb bb' r (kind_usable k) cat (canon_matches k).
Proof.
  intros Hok Hcat Hk. destruct (bo_syntax _ Hok _ Hcat) as [_ Hs]. pose proof (normalize_category_id _ Hs) as Hcc.
  destruct rd as [h|f|h|rs]; cbn [add_reading kind_read] in *; [subst k..|].
  - pose proof (add_domain_exact_adds cat h bb Hok) as H. destruct (add_domain_exact cat h bb) as [bb' r].
    rewrite Hcc in H. eapply (adds_equiv bb bb bb' r _ _ cat cat); [done| |done| |exact H].
    + cbn. change (normalize h) with (normalize_domain h). naive_solver.
    + intros Hu host. by rewrite on_name_pattern.
  - pose proof (add_keyword_adds cat f bb Hok) as H. destruct (add_keyword cat f bb) as [bb' r].
    rewrite Hcc in H. eapply (adds_equiv bb bb bb' r _ _ cat cat); [done| |done| |exact H].
    + cbn. change (normalize f) with (normalize_domain f). naive_solver.
    + intros Hu host. by rewrite on_name_pattern.
  - pose proof (add_domain_suffix_adds cat h bb Hok) as H. destruct (add_domain_suffix cat h bb) as [bb' r].
    rewrite Hcc in H. eapply (adds_equiv bb bb bb' r _ _ cat cat); [done| |done| |exact H].
    + cbn. naive_solver.
    + intros Hu host. by rewrite on_name_pattern.
  - destruct Hk as [Hk Hfit]. destruct (kind_ranges_matches k rs [] Hk Hfit) as [Hrs _].
    destruct (push_ranges_adds cat rs bb Hok Hcat Hrs) as [Hok' Hin]. unfold bmodify. split; [done|].
    assert (kind_usable k) as Hu by (destruct k as [| |[n|n]|[a|a]|]; done). split; [done|]. intros host c. rewrite Hin.
    destruct (kind_ranges_matches k rs host Hk Hfit) as [_ ->]. clear -Hu. naive_solver.
Qed.

Lemma add_rule_adds category rule bb :
  builder_ok bb ->
  let '(bb', r) := add_rule category rule bb in
  adds bb bb' r (category_syntax (normalize_category category) = true /\ kind_usable (builder_kind_of rule))
    (normalize_category category) (canon_matches (builder_kind_of rule)).
Proof.
  intros Hok. rewrite add_rule_reading. unfold mbind, bop_bind. pose proof (add_category_ok category bb Hok) as H.
  destruct (add_category category bb) as [bb1 [cat|e]]; destruct H as (Hok1 & Hin1 & Hg & Hn);
    [|apply add_failed; [done|done|]; rewrite <- Hg; by intros [? _]].
  destruct (Hn _ eq_refl) as [-> Hcat]. destruct (is_empty (trim rule)) eqn:E.
  { apply is_empty_true, builder_kind_blank in E. apply add_failed; [done|done|]. rewrite E. by intros [_ ?]. }
  apply is_empty_false in E.
  pose proof (add_reading_adds _ _ _ bb1 Hok1 Hcat (read_rule_kind rule E)) as H.
  destruct (add_reading _ _ bb1) as [bb' r]. eapply adds_equiv; [exact Hin1| |done|done|exact H]. cbn in Hg. rewrite <- Hg. naive_solver.
Qed.
End Rules.
