(* ===== verification/BookBuild.v ===== *)
(** * BookBuild: from source lines to a book

    The theorems on the builder as a whole: a book built from source lines holds
    exactly what the lines say, independently of their order, and a line means
    in a book what it means in a routing policy up to IPv4-mapped spellings. *)

From Stdlib Require Import ZArith Lia.
From stdpp Require Import prelude strings list gmap sorting.
From S2P Require Import Prelude RustStr Net NetProps Domain Rab RabCodec RabValid Policy Book BookProps BTree Builder SweepProps BuilderProps BuilderOps.

Lemma builder_new_ok epoch : builder_ok (builder_new epoch).
Proof. split; cbn; [set_solver|set_solver|constructor|constructor|apply map_Forall_empty..]. Qed.
Lemma builder_new_in epoch host c : ~ builder_in (builder_new epoch) host c.
Proof.
  assert (Hr : forall x, ~ in_named [] x c) by (intros x (s & e & []%elem_of_nil & _)).
  assert (Ht : forall P, ~ in_table ∅ P c) by (intros P (t & cats & Ht & _); by rewrite lookup_empty in Ht).
  unfold builder_in. cbn. destruct (parse_ip_addr host) as [[a|a]|]; [apply Hr|destruct (to_ipv4_mapped a); apply Hr|].
  intros (_ & [H|[H|H]]); by apply Ht in H.
Qed.

Section Lines.
Context {N : Ipnet} `{!IpnetLaws N} `{!IpnetGrammar N}.

(** Lines [(category, rule)] added in order; a line that fails is skipped. *)
Definition add_line (bb : BookBuilder) (line : str * str) : BookBuilder := fst (add_rule (fst line) (snd line) bb).
Definition add_lines (bb : BookBuilder) (lines : list (str * str)) : BookBuilder := foldl add_line bb lines.

(** What a line says of a host. *)
Definition line_says (line : str * str) (cat host : str) : Prop :=
  category_syntax (normalize_category (fst line)) = true /\ normalize_category (fst line) = cat /\
  kind_usable (builder_kind_of (snd line)) /\ canon_matches (builder_kind_of (snd line)) host.

Lemma add_lines_in lines bb :
  builder_ok bb ->
  builder_ok (add_lines bb lines) /\
  forall host c, builder_in (add_lines bb lines) host c <->
    builder_in bb host c \/ exists line, line ∈ lines /\ line_says line c host.
Proof.
  revert bb; induction lines as [|[cat rule] lines IH]; intros bb Hok; cbn [add_lines foldl].
  - split; [done|]. intros. setoid_rewrite elem_of_nil. naive_solver.
  - pose proof (add_rule_adds cat rule bb Hok) as H. unfold add_line at 2 4. cbn [fst snd].
    destruct (add_rule cat rule bb) as [bb1 r]. destruct H as (Hok1 & _ & Hin1). cbn [fst].
    destruct (IH bb1 Hok1) as [Hok' Hin']. split; [done|]. intros host c. rewrite Hin', Hin1.
    setoid_rewrite elem_of_cons. unfold line_says. naive_solver.
Qed.

(** End to end, a book built from source lines places a host in a category
    exactly when one of the lines of that category covers the host; lines with a
    malformed category or an empty rule contribute nothing. *)
Theorem book_from_lines epoch lines raw sum (Hbuild : build (add_lines (builder_new epoch) lines) = Ok raw) :
  forall host i c, categories raw !! i = Some c ->
    host_in (from_raw raw sum) host (Z.of_nat i) <-> exists line, line ∈ lines /\ line_says line (cat_name c) host.
Proof.
  destruct (add_lines_in lines (builder_new epoch) (builder_new_ok epoch)) as [Hok Hin]. intros host i c Hc.
  destruct (build_built _ _ Hok Hbuild) as [masks Hb].
  rewrite (host_in_built _ raw masks sum i c Hok (build_small _ _ Hbuild) Hb Hc), Hin.
  pose proof (builder_new_in epoch host (cat_name c)). naive_solver.
Qed.

(** A line means in a book what it means in a routing policy (where it is
    not a [book:] rule), except for addresses with two spellings: whatever the
    policy matches the book matches, and if only the book matches, the host is
    an IP literal that has another address with the same canonical form. *)
Theorem policy_and_book_agree rule host (Hbook : forall p, rule_kind_of rule <> RBook p) :
  (kind_matches (rule_kind_of rule) host -> canon_matches (builder_kind_of rule) host) /\
  (canon_matches (builder_kind_of rule) host ->
     kind_matches (rule_kind_of rule) host \/
     exists a b, parse_ip_addr host = Some a /\ canon b = canon a /\ b <> a).
Proof.
  assert (builder_kind_of rule = rule_kind_of rule) as ->.
  { unfold builder_kind_of. destruct (rule_kind_of rule); naive_solver. }
  unfold kind_matches, canon_matches. destruct (parse_ip_addr host) as [a|].
  - destruct (rule_kind_of rule) as [| |net|b|]; [done|done| | |done].
    + split; [eauto|]. intros (b & Hc & Hn). destruct (decide (b = a)) as [->|]; [by left|right; eauto].
    + split; [by intros ->|]. intros Hc. destruct (decide (b = a)) as [->|]; [by left|right; eauto].
  - destruct (rule_kind_of rule); naive_solver.
Qed.

(** ** The effect of a line, whatever the builder holds *)

Definition line_cat (line : str * str) : option str :=
  let c := normalize_category (fst line) in if category_syntax c then Some c else None.
Definition line_reading (line : str * str) : option (str * reading) :=
  c ← line_cat line; if is_empty (trim (snd line)) then None else Some (c, read_rule (trim (snd line))).
Definition line_cats (line : str * str) : gset str :=
  match line_cat line with Some c => register [] (split slash c) ∅ | None => ∅ end.
Definition line_ranges (v4 : bool) (line : str * str) : list (Z * Z * str) :=
  match line_reading line with
  | Some (c, ReadRanges rs) => omap (fun '(s, e, f) => if Bool.eqb f v4 then Some (s, e, c) else None) rs
  | _ => []
  end.
Definition unless_empty (k c : str) : option (str * str) := if is_empty k then None else Some (k, c).
Definition line_exact (line : str * str) : option (str * str) :=
  match line_reading line with Some (c, ReadExact h) => unless_empty (normalize_domain h) c | _ => None end.
Definition line_keyword (line : str * str) : option (str * str) :=
  match line_reading line with Some (c, ReadKeyword f) => unless_empty (normalize_domain f) c | _ => None end.
Definition line_suffix (line : str * str) : option (str * str) :=
  match line_reading line with
  | Some (c, ReadSuffix h) => (fun '(k, c) => (reverse_labels k, c)) <$> unless_empty (suffix_of h) c
  | _ => None
  end.
Definition opt_insert (o : option (str * str)) (m : gmap str (gset str)) : gmap str (gset str) :=
  match o with Some (k, c) => entry_insert k c m | None => m end.

Definition effect (bb : BookBuilder) (line : str * str) : BookBuilder :=
  mkBuilder (bb_epoch bb) (line_cats line ∪ bb_categories bb)
    (bb_ip4 bb ++ line_ranges true line) (bb_ip6 bb ++ line_ranges false line)
    (opt_insert (line_exact line) (bb_exact bb)) (opt_insert (line_suffix line) (bb_suffix bb))
    (opt_insert (line_keyword line) (bb_keywords bb)).

Lemma register_union acc segs cats : register acc segs cats = register acc segs ∅ ∪ cats.
Proof. apply set_eq. intros n. rewrite elem_of_union, !elem_of_register. set_solver. Qed.

Lemma push_ranges_fields cat rs bb :
  foldl (push_range cat) bb rs =
  mkBuilder (bb_epoch bb) (bb_categories bb)
    (bb_ip4 bb ++ omap (fun '(s, e, f) => if Bool.eqb f true then Some (s, e, cat) else None) rs)
    (bb_ip6 bb ++ omap (fun '(s, e, f) => if Bool.eqb f false then Some (s, e, cat) else None) rs)
    (bb_exact bb) (bb_suffix bb) (bb_keywords bb).
Proof.
  revert bb; induction rs as [|[[s e] v4] rs IH]; intros bb; cbn [foldl].
  - cbn. rewrite !app_nil_r. by destruct bb.
  - rewrite IH. destruct v4; cbn; by rewrite <- ?app_assoc.
Qed.

Lemma add_line_effect bb line : builder_ok bb -> add_line bb line = effect bb line.
Proof.
  destruct line as [category rule]. intros Hok. unfold add_line, effect, line_cats, line_ranges, line_exact, line_suffix, line_keyword, line_reading, line_cat.
  cbn [fst snd]. rewrite add_rule_reading. unfold mbind, bop_bind, option_bind.
  pose proof (add_category_ok category bb Hok) as Hc. pose proof (add_category_spec category bb) as Hspec.
  destruct (add_category category bb) as [bb1 [cat|e]].
  2: { destruct Hspec as [-> ->]. cbn. rewrite !app_nil_r, union_empty_l_L. by destruct bb. }
  destruct Hspec as (-> & Hs & ->). destruct Hc as (Hok1 & _ & _ & Hn). destruct (Hn _ eq_refl) as [_ Hcat]. rewrite Hs.
  rewrite register_union in Hok1, Hcat |- *.
  set (cat := normalize_category category) in *. set (bb1 := set_categories _ bb) in *.
  destruct (is_empty (trim rule)); [cbn; by rewrite !app_nil_r|].
  destruct (read_rule (trim rule)) as [h|f|h|rs]; cbn [add_reading].
  - unfold add_domain_exact, mbind, bop_bind. rewrite add_category_known by done. unfold unless_empty.
    destruct (is_empty (normalize_domain h)); cbn; by rewrite !app_nil_r.
  - unfold add_keyword, mbind, bop_bind. rewrite add_category_known by done. unfold unless_empty.
    destruct (is_empty (normalize_domain f)); cbn; by rewrite !app_nil_r.
  - unfold add_domain_suffix, mbind, bop_bind. rewrite add_category_known by done. unfold unless_empty.
    change (default (normalize_domain h) (strip_prefix (lit "*.") (normalize_domain h))) with (suffix_of h).
    destruct (is_empty (suffix_of h)); cbn; by rewrite !app_nil_r.
  - unfold bmodify. cbn [fst]. by rewrite push_ranges_fields.
Qed.

Lemma add_lines_effect lines bb : builder_ok bb -> add_lines bb lines = foldl effect bb lines.
Proof.
  revert bb; induction lines as [|line lines IH]; intros bb Hok; [done|]. cbn.
  rewrite <- (add_line_effect bb line Hok). apply IH. apply (add_lines_in [line] bb Hok).
Qed.

(** ** Builders up to the order of their ranges *)

Record same_content (b1 b2 : BookBuilder) : Prop := {
  sc_epoch : bb_epoch b1 = bb_epoch b2;
  sc_categories : bb_categories b1 = bb_categories b2;
  sc_ip4 : bb_ip4 b1 ≡ₚ bb_ip4 b2;
  sc_ip6 : bb_ip6 b1 ≡ₚ bb_ip6 b2;
  sc_exact : bb_exact b1 = bb_exact b2;
  sc_suffix : bb_suffix b1 = bb_suffix b2;
  sc_keywords : bb_keywords b1 = bb_keywords b2
}.
#[global] Instance same_content_equiv : Equivalence same_content.
Proof.
  split.
  - intros b. by split.
  - intros b1 b2 []. by split.
  - intros b1 b2 b3 [] []. split; by etrans.
Qed.

Lemma entry_insert_comm k1 c1 k2 c2 m :
  entry_insert k1 c1 (entry_insert k2 c2 m) = entry_insert k2 c2 (entry_insert k1 c1 m).
Proof.
  unfold entry_insert. destruct (decide (k1 = k2)) as [->|Hne].
  - rewrite !lookup_insert_eq, !insert_insert_eq. f_equal. cbn. set_solver.
  - rewrite !lookup_insert_ne by done. by apply insert_insert_ne.
Qed.
Lemma opt_insert_comm o1 o2 m : opt_insert o1 (opt_insert o2 m) = opt_insert o2 (opt_insert o1 m).
Proof. destruct o1 as [[k1 c1]|], o2 as [[k2 c2]|]; try done. apply entry_insert_comm. Qed.

Instance effect_proper : Proper (same_content ==> eq ==> same_content) effect.
Proof.
  intros b1 b2 [? ? H4 H6 ? ? ?] line ? <-. split; cbn; try congruence; [by rewrite H4|by rewrite H6].
Qed.
Lemma effect_comm bb x y : same_content (effect (effect bb x) y) (effect (effect bb y) x).
Proof.
  split; cbn; [done|set_solver| | |apply opt_insert_comm..]; rewrite <- !app_assoc; f_equiv; apply Permutation_app_comm.
Qed.
Lemma effects_perm l1 l2 b1 b2 : l1 ≡ₚ l2 -> same_content b1 b2 -> same_content (foldl effect b1 l1) (foldl effect b2 l2).
Proof.
  intros Hp. revert b1 b2. induction Hp as [|x l1 l2 Hp IH|x y l|l1 l2 l3 Hp1 IH1 Hp2 IH2]; intros b1 b2 Hb; cbn.
  - done.
  - apply IH. by f_equiv.
  - assert (Hl : forall b1 b2, same_content b1 b2 -> same_content (foldl effect b1 l) (foldl effect b2 l)).
    { clear. induction l as [|z l IH]; intros b1 b2 Hb; cbn; [done|]. apply IH. by f_equiv. }
    apply Hl. rewrite effect_comm. by repeat f_equiv.
  - etrans; [by apply IH1|]. by apply IH2.
Qed.

End Lines.

(** ** Building *)

(** The result of [try_map] over a permutation, for a single kind of error. *)
Lemma try_map_perm {E A B} (f : A -> result E B) (e0 : E) l1 l2 :
  (forall x e, f x = Err e -> e = e0) -> l1 ≡ₚ l2 ->
  match try_map f l1, try_map f l2 with
  | Ok r1, Ok r2 => r1 ≡ₚ r2
  | Err e1, Err e2 => e1 = e0 /\ e2 = e0
  | _, _ => False
  end.
Proof.
  intros Hf. assert (Herr : forall l e, try_map f l = Err e -> e = e0).
  { clear l1 l2. induction l as [|x l IH]; intros e; cbn; [done|]. destruct (f x) as [y|e1] eqn:Ex; cbn.
    - destruct (try_map f l) eqn:El; cbn; [done|]. intros [= <-]. by apply IH.
    - intros [= <-]. by eapply Hf. }
  induction 1 as [|x l1 l2 Hp IH|x y l|l1 l2 l3 Hp1 IH1 Hp2 IH2]; cbn.
  - done.
  - destruct (f x) as [y|e] eqn:Ex; cbn; [|by apply Hf in Ex].
    destruct (try_map f l1), (try_map f l2); cbn; try done. by f_equiv.
  - destruct (f x) as [u|e1] eqn:Ex, (f y) as [v|e2] eqn:Ey; cbn; try apply Hf in Ex; try apply Hf in Ey; subst;
      try done; destruct (try_map f l) eqn:El; cbn; try done; try (by apply Herr in El as ->). by apply perm_swap.
  - destruct (try_map f l1), (try_map f l2), (try_map f l3); try done; [by etrans|]. naive_solver.
Qed.

Lemma resolve_range_err ids x e : resolve_range ids x = Err e -> e = Panicked.
Proof. destruct x as [[s e'] c]. unfold resolve_range, cat_id. destruct (ids !! c); cbn; congruence. Qed.

Lemma covered_perm r1 r2 : r1 ≡ₚ r2 -> forall x c, covered r1 x c <-> covered r2 x c.
Proof. intros Hp x c. unfold covered. by setoid_rewrite Hp. Qed.

(** Permuted ranges resolve alike and sweep to the same segments. *)
Lemma sweep_resolved cats l1 l2 :
  Forall (fun '(s, e, _) => 0 <= s <= e /\ e < 2 ^ 128) l1 -> l1 ≡ₚ l2 ->
  match try_map (resolve_range (cat_ids cats)) l1, try_map (resolve_range (cat_ids cats)) l2 with
  | Ok r1, Ok r2 => sweep r1 (build_words cats) = sweep r2 (build_words cats)
  | Err e1, Err e2 => e1 = e2
  | _, _ => False
  end.
Proof.
  intros Hl Hp. assert (Hl2 : Forall (fun '(s, e, _) => 0 <= s <= e /\ e < 2 ^ 128) l2) by by rewrite <- Hp.
  pose proof (try_map_perm _ Panicked l1 l2 (resolve_range_err (cat_ids cats)) Hp) as H.
  destruct (try_map _ l1) as [r1|] eqn:E1, (try_map _ l2) as [r2|] eqn:E2; try done; [|naive_solver congruence].
  apply sweep_coverage_only; [exact (resolve_ranges_ok cats l1 r1 Hl E1)|exact (resolve_ranges_ok cats l2 r2 Hl2 E2)|by apply covered_perm].
Qed.

Lemma build_same b1 b2 : builder_ok b1 -> same_content b1 b2 -> build b1 = build b2.
Proof.
  intros Hok [E1 E2 P4 P6 E5 E6 E7]. unfold build. rewrite E1, E2, E5, E6, E7.
  pose proof (sweep_resolved (bt_elements (bb_categories b2)) _ _ (ip4_wide _ Hok) P4) as H4.
  pose proof (sweep_resolved (bt_elements (bb_categories b2)) _ _ (ip6_wide _ Hok) P6) as H6.
  destruct (try_map (build_category _) _) as [cs|]; [|done]. cbn [mbind result_bind].
  destruct (try_map _ (bb_ip4 b1)) as [r4|], (try_map _ (bb_ip4 b2)) as [r4'|]; try done; cbn [mbind result_bind]; [|by rewrite H4].
  rewrite H4. destruct (intern_ranges narrow4 _ _) as [[st t4]|]; [|done]. cbn [mbind result_bind].
  destruct (try_map _ (bb_ip6 b1)) as [r6|], (try_map _ (bb_ip6 b2)) as [r6'|]; try done; cbn [mbind result_bind]; [|by rewrite H6].
  by rewrite H6.
Qed.

(** The build is deterministic in the sense the builder promises: the order
    in which the lines arrive does not matter, the resulting book (or the error)
    is the same, hence so are the bytes of the artifact. *)
Theorem build_order_irrelevant {N : Ipnet} `{!IpnetLaws N} `{!IpnetGrammar N} `{Sha256} epoch lines lines'
    (Hperm : lines ≡ₚ lines') :
  build_bytes (add_lines (builder_new epoch) lines) = build_bytes (add_lines (builder_new epoch) lines').
Proof.
  unfold build_bytes. erewrite build_same; [done|by apply add_lines_in, builder_new_ok|].
  rewrite !add_lines_effect by apply builder_new_ok. by apply effects_perm.
Qed.

(** ** Examples *)

#[local] Existing Instances CidrNet.inst CidrNet.cidr_laws cidr_grammar.

Definition demo_lines : list (str * str) :=
  [(lit " Google/ ", lit "google.com"); (lit "google/ads", lit "full:Ads.google.com."); (lit "lan", lit "10.0.0.0/8");
   (lit "lan", lit "::ffff:1.2.3.4"); (lit "google", lit "10.1.0.0/16"); (lit "no good", lit "lost.example");
   (lit "google/ads", lit "keyword:track"); (lit "lan", lit "book:intra")].
Definition demo_builder : BookBuilder := add_lines (builder_new 7) demo_lines.
Definition demo_built : RawBook :=
  mkRawBook 7 [mkCategory (lit "google") u32_max; mkCategory (lit "google/ads") 0; mkCategory (lit "lan") u32_max]
    1 [4; 5; 2; 1] [(16909060, 16909060, 0); (167772160, 167837695, 0); (167837696, 167903231, 1); (167903232, 184549375, 0)] []
    [mkStrEntry (lit "ads.google.com") 2] [mkStrEntry (lit "com.google") 3; mkStrEntry (lit "intra") 0]
    [mkStrEntry (lit "track") 2].

Lemma demo_builds : build demo_builder = Ok demo_built.
Proof. vm_compute. reflexivity. Qed.
Lemma demo_builder_ok : builder_ok demo_builder.
Proof. apply add_lines_in, builder_new_ok. Qed.

Lemma build_faithful_witness :
  builder_in demo_builder (lit "x.google.com") (lit "google") /\
  host_in (from_raw demo_built []) (lit "x.google.com") 0.
Proof.
  assert (host_in (from_raw demo_built []) (lit "x.google.com") 0) as H.
  { exists 3. split; [|vm_compute; reflexivity]. split; [vm_compute; discriminate|]. right. left.
    exists (mkStrEntry (lit "com.google") 3). split; [left|]. split; [|reflexivity]. right. exists (lit "x"). vm_compute. reflexivity. }
  split; [|exact H].
  destruct (build_faithful demo_builder demo_built [] demo_builder_ok demo_builds) as [_ Hb].
  apply (proj1 (Hb _ 0%nat _ eq_refl) H).
Defined.

Lemma book_from_lines_witness :
  exists line, line ∈ demo_lines /\ line_says line (lit "lan") (lit "1.2.3.4").
Proof.
  apply (proj1 (book_from_lines 7 demo_lines demo_built [] demo_builds (lit "1.2.3.4") 2%nat _ eq_refl)).
  exists 0. split; [|vm_compute; reflexivity]. exists 16909060, 16909060. split; [left|vm_compute; split; discriminate].
Defined.

(** A mapped literal is the same address for a book but not for a policy. *)
Lemma policy_and_book_agree_witness :
  canon_matches (builder_kind_of (lit "1.2.3.4")) (lit "::ffff:1.2.3.4") /\
  ~ kind_matches (rule_kind_of (lit "1.2.3.4")) (lit "::ffff:1.2.3.4") /\
  exists a b, parse_ip_addr (lit "::ffff:1.2.3.4") = Some a /\ canon b = canon a /\ b <> a.
Proof.
  assert (Hc : canon_matches (builder_kind_of (lit "1.2.3.4")) (lit "::ffff:1.2.3.4")) by (vm_compute; reflexivity).
  assert (Hk : ~ kind_matches (rule_kind_of (lit "1.2.3.4")) (lit "::ffff:1.2.3.4")) by (vm_compute; discriminate).
  split; [exact Hc|]. split; [exact Hk|].
  destruct (policy_and_book_agree (lit "1.2.3.4") (lit "::ffff:1.2.3.4")) as [_ H].
  - intros p. assert (E : rule_kind_of (lit "1.2.3.4") = RAddr (V4 16909060)) by reflexivity. rewrite E. discriminate.
  - destruct (H Hc) as [H'|H']; [contradiction|exact H'].
Defined.

Lemma build_order_irrelevant_witness :
  build_bytes (H := ToySha.toy_sha256) demo_builder =
  build_bytes (H := ToySha.toy_sha256) (add_lines (builder_new 7) (rev demo_lines)).
Proof.
  apply (build_order_irrelevant (H := ToySha.toy_sha256) 7 demo_lines (rev demo_lines)). apply Permutation_rev.
Defined.
