(* ===== verification/Model.v ===== *)
(** * Model: the control-plane snapshot and its decisions

    Models src/src/model.rs: the wire types, the fail-closed compilation of a
    snapshot (egresses, failover chains, routing policies, users and front-end
    credentials), routing decisions with a sniffed host, and the credential-free
    views. A wire [HashMap] is the list of its entries in the order the hasher
    iterates them (any order, keys distinct); a compiled one is a finite map. *)

From Stdlib Require Import ZArith Lia.
From stdpp Require Import prelude strings list gmap sorting.
From S2P Require Import Prelude RustStr Net Domain Policy.

Definition MAX_SNAPSHOT_USERS : Z := 100000.
Definition MAX_SNAPSHOT_POLICIES : Z := 10000.
Definition MAX_SNAPSHOT_EGRESSES : Z := 10000.
Definition MAX_SNAPSHOT_RULES : Z := 200000.
Definition MAX_SNAPSHOT_NODE_OVERRIDES : Z := 10000.
Definition MAX_CHAIN_MEMBERS : Z := 16.
Definition MAX_ADDRBOOK_SELECTOR_BYTES : Z := 64 * 1024 * 1024.
Definition SCHEMA_VERSION : Z := 1.
Definition MAX_SUPPORTED_SCHEMA_VERSION : Z := SCHEMA_VERSION.

(** [schema_version_supported] *)
Definition schema_version_supported (schema_version max_supported : Z) : bool :=
  (1 <=? schema_version) && (schema_version <=? max_supported).

(** The [chrono] dates a user's expiry is parsed to and printed from. *)
Class Chrono := {
  NaiveDate : Type;
  parse_date : str -> option NaiveDate;
  format_date : NaiveDate -> str
}.

(** ** Wire format *)

Record RawUpstream := mkRawUpstream {
  ru_kind : str; ru_addr : str; ru_username : option str; ru_password : option str;
  ru_tls : bool; ru_skip_cert_verify : bool
}.
Record RawChainMember := mkRawChainMember { rm_id : str; rm_priority : Z; rm_backend : RawUpstream }.
Record RawFrontendCred := mkRawFrontendCred { rf_uuid : option str; rf_password : option str }.

Inductive RawAction := RawEgressTo (egress : str) | RawDirect | RawBlock.
Record RawActionWire := mkActionWire { aw_kind : str; aw_egress : option str }.
Inductive RawEgress := RawUp (backend : RawUpstream) | RawChain (members : list RawChainMember).
Record RawEgressWire := mkEgressWire {
  ew_kind : str; ew_backend : option RawUpstream; ew_members : option (list RawChainMember)
}.

Record RawRoute := mkRawRoute { rr_selectors : list str; rr_action : RawAction }.
Record RawRoutingPolicy := mkRawPolicy { rp_routes : list RawRoute; rp_default_action : option RawAction }.
Record RawUser := mkRawUser {
  u_password : str; u_expire : option str; u_up_rate : Z; u_down_rate : Z; u_max_connections : Z;
  u_policy : str; u_frontends : list (str * RawFrontendCred)
}.
Record RawSnapshot := mkRawSnapshot {
  rs_schema_version : Z;
  rs_version : Z;
  rs_users : list (str * RawUser);
  rs_policies : list (str * RawRoutingPolicy);
  rs_egresses : list (str * RawEgress);
  rs_node_overrides : list (str * list (str * RawEgress))
}.

Inductive compile_error :=
| ActionNeedsEgress | ActionHasEgress | UnknownActionType
| EgressHasMembers | EgressNeedsBackend | EgressHasBackend | EgressNeedsMembers | UnknownEgressType
| UnsupportedSchema | TooManyUsers | TooManyPolicies | TooManyOverrides | TooManyEgresses | TooManyRules
| EmptyOverrideId | OverrideNotBase | EmptyEgressId | EmptyPolicyId
| NoSelector | BadSelectors | SelectorBudget
| UnsupportedKind | EmptyHopId | UpstreamCredentials | UpstreamTls
| ActionEmptyEgress | DanglingEgress
| EmptyChainId | EmptyChain | ChainTooLong | EmptyMemberId | DuplicateMemberId | DuplicatePriority | NestedChain
| PolicyRequired | UnknownPolicy | BadExpire | DuplicateUuid.

(** [TryFrom<RawActionWire> for RawAction] and back *)
Definition RawAction_try_from (w : RawActionWire) : result compile_error RawAction :=
  if str_eqb (aw_kind w) (lit "egress") then
    e ← ok_or (aw_egress w) ActionNeedsEgress; Ok (RawEgressTo e)
  else if str_eqb (aw_kind w) (lit "direct") then
    match aw_egress w with Some _ => Err ActionHasEgress | None => Ok RawDirect end
  else if str_eqb (aw_kind w) (lit "block") then
    match aw_egress w with Some _ => Err ActionHasEgress | None => Ok RawBlock end
  else Err UnknownActionType.
Definition RawActionWire_from (a : RawAction) : RawActionWire :=
  match a with
  | RawEgressTo e => mkActionWire (lit "egress") (Some e)
  | RawDirect => mkActionWire (lit "direct") None
  | RawBlock => mkActionWire (lit "block") None
  end.

(** [TryFrom<RawEgressWire> for RawEgress] and back *)
Definition RawEgress_try_from (w : RawEgressWire) : result compile_error RawEgress :=
  if str_eqb (ew_kind w) (lit "upstream") then
    match ew_members w with
    | Some _ => Err EgressHasMembers
    | None => b ← ok_or (ew_backend w) EgressNeedsBackend; Ok (RawUp b)
    end
  else if str_eqb (ew_kind w) (lit "chain") then
    match ew_backend w with
    | Some _ => Err EgressHasBackend
    | None => m ← ok_or (ew_members w) EgressNeedsMembers; Ok (RawChain m)
    end
  else Err UnknownEgressType.
Definition RawEgressWire_from (e : RawEgress) : RawEgressWire :=
  match e with
  | RawUp b => mkEgressWire (lit "upstream") (Some b) None
  | RawChain m => mkEgressWire (lit "chain") None (Some m)
  end.

(** ** Compiled format *)

Inductive UpstreamKind := Http | Socks5 | Reverse | Subnetra.
#[global] Instance UpstreamKind_eq_dec : EqDecision UpstreamKind.
Proof. solve_decision. Defined.

Record Upstream := mkUpstream {
  up_kind : UpstreamKind; up_addr : str; up_username : option str; up_password : option str;
  up_tls : bool; up_skip_cert_verify : bool
}.
Record ChainMember := mkChainMember { cm_id : str; cm_priority : Z; cm_upstream : Upstream }.
Record Chain := mkChain { ch_id : str; ch_members : list ChainMember }.
Record FrontendCred := mkFrontendCred { fc_uuid : option str; fc_password : option str }.
Inductive EgressKind := KUpstream (u : Upstream) | KChain (c : Chain).
Record Egress := mkEgress { eg_id : str; eg_kind : EgressKind }.
Inductive RouteAction := ToEgress (e : Egress) | ActDirect | ActBlock.
Inductive Decision := Direct | Via (u : Upstream) | ViaChain (c : Chain) | Block.

(** [compile_upstream] *)
Definition upstream_kind_of (k : str) : result compile_error UpstreamKind :=
  let k := to_ascii_lowercase k in
  if str_eqb k (lit "http") || str_eqb k (lit "https") then Ok Http
  else if str_eqb k (lit "socks5") || str_eqb k (lit "socks") then Ok Socks5
  else if str_eqb k (lit "reverse") then Ok Reverse
  else if str_eqb k (lit "subnetra") then Ok Subnetra
  else Err UnsupportedKind.
Definition no_credentials (u : RawUpstream) : bool :=
  match ru_username u, ru_password u with None, None => true | _, _ => false end.
Definition no_tls (u : RawUpstream) : bool := negb (ru_tls u) && negb (ru_skip_cert_verify u).

Definition compile_upstream (u : RawUpstream) : result compile_error Upstream :=
  kind ← upstream_kind_of (ru_kind u);
  match kind with
  | Reverse =>
      let hop_id := trim (ru_addr u) in
      ensure (negb (is_empty hop_id)) EmptyHopId ;;
      ensure (no_credentials u) UpstreamCredentials ;;
      ensure (no_tls u) UpstreamTls ;;
      Ok (mkUpstream Reverse hop_id None None false false)
  | Subnetra =>
      ensure (no_credentials u) UpstreamCredentials ;;
      ensure (no_tls u) UpstreamTls ;;
      Ok (mkUpstream Subnetra (ru_addr u) None None false false)
  | k => Ok (mkUpstream k (ru_addr u) (ru_username u) (ru_password u) (ru_tls u) (ru_skip_cert_verify u))
  end.

(** One iteration of the member loop of [compile_chain]. *)
Definition compile_member (st : gset str * gset Z * list ChainMember) (m : RawChainMember)
    : result compile_error (gset str * gset Z * list ChainMember) :=
  let '(ids, priorities, members) := st in
  let member_id := trim (rm_id m) in
  ensure (negb (is_empty member_id)) EmptyMemberId ;;
  ensure (bool_decide (member_id ∉ ids)) DuplicateMemberId ;;
  ensure (bool_decide (rm_priority m ∉ priorities)) DuplicatePriority ;;
  ensure (negb (eq_ignore_ascii_case (ru_kind (rm_backend m)) (lit "chain"))) NestedChain ;;
  upstream ← compile_upstream (rm_backend m);
  Ok ({[member_id]} ∪ ids, {[rm_priority m]} ∪ priorities,
      members ++ [mkChainMember member_id (rm_priority m) upstream]).

(** [members.sort_by_key(|m| m.priority)]: stable insertion sort. *)
Fixpoint insert_member (m : ChainMember) (l : list ChainMember) : list ChainMember :=
  match l with
  | [] => [m]
  | x :: l' => if cm_priority m <=? cm_priority x then m :: l else x :: insert_member m l'
  end.
Definition sort_members (l : list ChainMember) : list ChainMember := foldr insert_member [] l.

(** [compile_chain] *)
Definition compile_chain (id : str) (raw_members : list RawChainMember) : result compile_error Chain :=
  ensure (negb (is_empty (trim id))) EmptyChainId ;;
  ensure (negb (is_empty raw_members)) EmptyChain ;;
  ensure (Z.of_nat (length raw_members) <=? MAX_CHAIN_MEMBERS) ChainTooLong ;;
  st ← try_fold compile_member (∅, ∅, []) raw_members;
  let '(_, _, members) := st in
  Ok (mkChain id (sort_members members)).

(** [compile_egress] *)
Definition compile_egress (id : str) (raw : RawEgress) : result compile_error Egress :=
  match raw with
  | RawUp backend =>
      ensure (negb (eq_ignore_ascii_case (ru_kind backend) (lit "chain"))) NestedChain ;;
      u ← compile_upstream backend;
      Ok (mkEgress id (KUpstream u))
  | RawChain members => c ← compile_chain id members; Ok (mkEgress id (KChain c))
  end.

(** [compile_action] *)
Definition compile_action (a : RawAction) (egresses : gmap str Egress) : result compile_error RouteAction :=
  match a with
  | RawEgressTo e =>
      let e := trim e in
      ensure (negb (is_empty e)) ActionEmptyEgress ;;
      eg ← ok_or (egresses !! e) DanglingEgress;
      Ok (ToEgress eg)
  | RawDirect => Ok ActDirect
  | RawBlock => Ok ActBlock
  end.

(** [Egress::decision] and [Snapshot::route_action_decision] *)
Definition egress_decision (e : Egress) : Decision :=
  match eg_kind e with KUpstream u => Via u | KChain c => ViaChain c end.
Definition route_action_decision (a : RouteAction) : Decision :=
  match a with
  | ToEgress e => egress_decision e
  | ActDirect => Direct
  | ActBlock => Block
  end.

(** Node overrides only whole-replace an existing base egress. *)
Fixpoint assoc_lookup {A} (k : str) (l : list (str * A)) : option A :=
  match l with
  | [] => None
  | (k', x) :: l => if str_eqb k k' then Some x else assoc_lookup k l
  end.
Definition assoc_replace {A} (k : str) (v : A) (l : list (str * A)) : list (str * A) :=
  map (fun '(k', x) => if str_eqb k k' then (k', v) else (k', x)) l.
Definition apply_override (egresses : list (str * RawEgress)) (o : str * RawEgress)
    : result compile_error (list (str * RawEgress)) :=
  let '(egress_id, egress) := o in
  ensure (negb (is_empty (trim egress_id))) EmptyOverrideId ;;
  ensure (bool_decide (is_Some (assoc_lookup egress_id egresses))) OverrideNotBase ;;
  Ok (assoc_replace egress_id egress egresses).

Definition compile_egresses (raw : list (str * RawEgress)) : result compile_error (gmap str Egress) :=
  try_fold (fun m '(id, e) =>
    ensure (negb (is_empty (trim id))) EmptyEgressId ;;
    eg ← compile_egress id e;
    Ok (<[id := eg]> m)) ∅ raw.

Section Snapshot.
Context {N : Ipnet} {B : BookApi} {D : Chrono}.

Record User := mkUser {
  us_password : str; us_expire : option NaiveDate; us_up_rate : Z; us_down_rate : Z;
  us_max_connections : Z; us_policy : str; us_frontends : gmap str FrontendCred
}.
Record Route := mkRoute { ro_selectors : RuleSet; ro_selector_rules : list str; ro_action : RouteAction }.
Record RoutingPolicy := mkPolicy {
  po_routes : list Route; po_default_action : RouteAction; po_index : RouteIndex
}.

(** [RoutingPolicy::from_routes], [RoutingPolicy::first_match] *)
Definition from_routes (routes : list Route) (default_action : RouteAction) : RoutingPolicy :=
  mkPolicy routes default_action (build_index (map ro_selectors routes)).
Definition policy_first_match (p : RoutingPolicy) (host : str) : option (Z * RouteAction) :=
  idx ← first_match (po_index p) host;
  route ← po_routes p !! Z.to_nat idx;
  Some (idx, ro_action route).

Record Snapshot := mkSnapshot {
  sn_version : Z;
  sn_schema_version : Z;
  sn_users : gmap str User;
  sn_policies : gmap str RoutingPolicy;
  sn_frontend_index : gmap str (gmap str str)
}.
(** [Snapshot::empty] *)
Definition Snapshot_empty : Snapshot := mkSnapshot 0 SCHEMA_VERSION ∅ ∅ ∅.

(** [account_book_selector] *)
Definition account_book_selector (rules : RuleSet) (st : gset Z * Z) (limit : Z)
    : result compile_error (gset Z * Z) :=
  let '(allocations, total_bytes) := st in
  match book_selector_allocation rules with
  | None => Ok st
  | Some (allocation, bytes) =>
      if bool_decide (allocation ∈ allocations) then Ok st
      else
        let allocations := {[allocation]} ∪ allocations in
        total ← ok_or (checked_add 64 total_bytes bytes) SelectorBudget;
        ensure (total <=? limit) SelectorBudget ;;
        Ok (allocations, total)
  end.

(** The counters the policy loop threads through: selector allocations and
    bytes, and the number of rules. *)
Definition budget : Type := gset Z * Z * Z.

(** One route; [addr] is where the runtime placed its selector. *)
Definition compile_route (book : option AddrBook) (egresses : gmap str Egress) (addr : Z)
    (st : budget) (raw : RawRoute) : result compile_error (budget * Route) :=
  let '(alloc, bytes, total_rules) := st in
  let non_empty := Z.of_nat (length (filter (fun s => Is_true (negb (is_empty (trim s)))) (rr_selectors raw))) in
  ensure (0 <? non_empty) NoSelector ;;
  let total_rules := saturating_add 64 total_rules non_empty in
  ensure (total_rules <=? MAX_SNAPSHOT_RULES) TooManyRules ;;
  selectors ← map_err (fun _ => BadSelectors) (from_rules (rr_selectors raw) book addr);
  acc ← account_book_selector selectors (alloc, bytes) MAX_ADDRBOOK_SELECTOR_BYTES;
  action ← compile_action (rr_action raw) egresses;
  Ok ((acc, total_rules), mkRoute selectors (rr_selectors raw) action).

Fixpoint compile_routes (book : option AddrBook) (egresses : gmap str Egress) (addr : nat -> Z)
    (idx : nat) (st : budget) (raw : list RawRoute) : result compile_error (budget * list Route) :=
  match raw with
  | [] => Ok (st, [])
  | r :: raw =>
      '(st, route) ← compile_route book egresses (addr idx) st r;
      '(st, routes) ← compile_routes book egresses addr (S idx) st raw;
      Ok (st, route :: routes)
  end.

Definition compile_policy (book : option AddrBook) (egresses : gmap str Egress) (addr : str -> nat -> Z)
    (acc : gmap str RoutingPolicy * budget) (raw : str * RawRoutingPolicy)
    : result compile_error (gmap str RoutingPolicy * budget) :=
  let '(policies, st) := acc in
  let '(id, p) := raw in
  ensure (negb (is_empty (trim id))) EmptyPolicyId ;;
  default_action ← match rp_default_action p with
                   | Some a => compile_action a egresses
                   | None => Ok ActDirect
                   end;
  '(st, routes) ← compile_routes book egresses (addr id) 0 st (rp_routes p);
  Ok (<[id := from_routes routes default_action]> policies, st).

(** One front-end credential of [compile_user]. *)
Definition index_frontend (name : str) (st : gmap str (gmap str str) * gmap str FrontendCred)
    (f : str * RawFrontendCred) : result compile_error (gmap str (gmap str str) * gmap str FrontendCred) :=
  let '(index, frontends) := st in
  let '(proto, cred) := f in
  let frontends := <[proto := mkFrontendCred (rf_uuid cred) (rf_password cred)]> frontends in
  match rf_uuid cred with
  | None => Ok (index, frontends)
  | Some uuid =>
      let key := to_ascii_lowercase (trim uuid) in
      if is_empty key then Ok (index, frontends)
      else
        let idx := default ∅ (index !! proto) in
        match idx !! key with
        | Some _ => Err DuplicateUuid
        | None => Ok (<[proto := <[key := name]> idx]> index, frontends)
        end
  end.

(** [compile_user] *)
Definition compile_user (name : str) (u : RawUser) (index : gmap str (gmap str str))
    : result compile_error (gmap str (gmap str str) * User) :=
  expire ← match u_expire u with
           | Some s => if is_empty (trim s) then Ok None
                       else d ← ok_or (parse_date (trim s)) BadExpire; Ok (Some d)
           | None => Ok None
           end;
  '(index, frontends) ← try_fold (index_frontend name) (index, ∅) (u_frontends u);
  Ok (index, mkUser (u_password u) expire (u_up_rate u) (u_down_rate u) (u_max_connections u)
               (u_policy u) frontends).

Definition compile_one_user (policies : gmap str RoutingPolicy)
    (acc : gmap str User * gmap str (gmap str str)) (raw : str * RawUser)
    : result compile_error (gmap str User * gmap str (gmap str str)) :=
  let '(users, index) := acc in
  let '(name, u) := raw in
  ensure (negb (is_empty (trim (u_policy u)))) PolicyRequired ;;
  ensure (bool_decide (is_Some (policies !! u_policy u))) UnknownPolicy ;;
  '(index, user) ← compile_user name u index;
  Ok (<[name := user]> users, index).

(** [Snapshot::compile_checked]; [addr] places each route's selector. *)
Definition compile_checked (raw : RawSnapshot) (node_id : str) (book : option AddrBook) (addr : str -> nat -> Z)
    : result compile_error Snapshot :=
  ensure (schema_version_supported (rs_schema_version raw) MAX_SUPPORTED_SCHEMA_VERSION) UnsupportedSchema ;;
  ensure (rs_schema_version raw =? SCHEMA_VERSION) UnsupportedSchema ;;
  ensure (Z.of_nat (length (rs_users raw)) <=? MAX_SNAPSHOT_USERS) TooManyUsers ;;
  ensure (Z.of_nat (length (rs_policies raw)) <=? MAX_SNAPSHOT_POLICIES) TooManyPolicies ;;
  ensure (Z.of_nat (length (rs_node_overrides raw)) <=? MAX_SNAPSHOT_NODE_OVERRIDES) TooManyOverrides ;;
  raw_egresses ← match assoc_lookup node_id (rs_node_overrides raw) with
                 | Some o => try_fold apply_override (rs_egresses raw) o
                 | None => Ok (rs_egresses raw)
                 end;
  ensure (Z.of_nat (length raw_egresses) <=? MAX_SNAPSHOT_EGRESSES) TooManyEgresses ;;
  egresses ← compile_egresses raw_egresses;
  '(policies, _) ← try_fold (compile_policy book egresses addr) (∅, (∅, 0, 0)) (rs_policies raw);
  '(users, frontend_index) ← try_fold (compile_one_user policies) (∅, ∅) (rs_users raw);
  Ok (mkSnapshot (rs_version raw) (rs_schema_version raw) users policies frontend_index).

(** [Snapshot::user], [Snapshot::frontend_user] *)
Definition snapshot_user (s : Snapshot) (username : str) : option User := sn_users s !! username.
Definition frontend_user (s : Snapshot) (protocol key : str) : option (str * User) :=
  idx ← sn_frontend_index s !! protocol;
  name ← (idx : gmap str str) !! to_ascii_lowercase key;
  u ← sn_users s !! name;
  Some (name, u).

Record ResolvedDecision := mkResolved {
  rd_decision : Decision;
  rd_effective_policy_host : str;
  rd_snapshot_version : Z;
  rd_policy_id : option str;
  rd_matched_route : option Z
}.

(** [Snapshot::decide_with_sniff] *)
Definition decide_with_sniff (s : Snapshot) (username requested_host : str) (sniffed_host : option str)
    : ResolvedDecision :=
  let unattributed_block host := mkResolved Block host (sn_version s) None None in
  match sn_users s !! username with
  | None => unattributed_block requested_host
  | Some user =>
      match sn_policies s !! us_policy user with
      | None => unattributed_block requested_host
      | Some policy =>
          let resolved decision host matched :=
            mkResolved decision host (sn_version s) (Some (us_policy user)) matched in
          let requested_action := policy_first_match policy requested_host in
          let sniffed := (fun host => (host, policy_first_match policy host)) <$> sniffed_host in
          match requested_action, sniffed with
          | Some (idx, ActBlock), _ => resolved Block requested_host (Some idx)
          | _, Some (host, Some (idx, ActBlock)) => resolved Block host (Some idx)
          | _, _ =>
              match parse_ip_addr requested_host, sniffed with
              | Some _, Some (host, Some (idx, action)) =>
                  resolved (route_action_decision action) host (Some idx)
              | _, _ =>
                  match requested_action with
                  | Some (idx, action) =>
                      resolved (route_action_decision action) requested_host (Some idx)
                  | None => resolved (route_action_decision (po_default_action policy)) requested_host None
                  end
              end
          end
      end
  end.
(** [Snapshot::decide] *)
Definition snapshot_decide (s : Snapshot) (username host : str) : Decision :=
  rd_decision (decide_with_sniff s username host None).

(** ** Credential-free views *)

Record ChainMemberView := mkMemberView {
  mv_id : str; mv_priority : Z; mv_kind : str; mv_addr : str; mv_tls : bool; mv_auth : bool
}.
Record UpstreamView := mkUpstreamView {
  uv_kind : str; uv_addr : str; uv_tls : bool; uv_auth : bool; uv_members : option (list ChainMemberView)
}.
Record EgressView := mkEgressView { ev_id : str; ev_upstream : UpstreamView }.
Record ActionView := mkActionView { av_action : str; av_egress : option EgressView }.
Record RouteView := mkRouteView { rv_selectors : list str; rv_action : ActionView }.
Record RoutingPolicyView := mkPolicyView { pv_id : str; pv_routes : list RouteView; pv_default : ActionView }.
Record UserPolicyView := mkUserView {
  vw_username : str; vw_expire : option str; vw_policy : str; vw_up_rate : Z; vw_down_rate : Z;
  vw_max_connections : Z; vw_routing_policy : option RoutingPolicyView
}.

Definition upstream_kind_name (k : UpstreamKind) : str :=
  match k with
  | Http => lit "http" | Socks5 => lit "socks5" | Reverse => lit "reverse" | Subnetra => lit "subnetra"
  end.
Definition has_auth (u : Upstream) : bool :=
  match up_username u, up_password u with None, None => false | _, _ => true end.
Definition upstream_view (u : Upstream) : UpstreamView :=
  mkUpstreamView (upstream_kind_name (up_kind u)) (up_addr u) (up_tls u) (has_auth u) None.
Definition chain_view (c : Chain) : UpstreamView :=
  mkUpstreamView (lit "chain") (ch_id c) false false
    (Some (map (fun m => mkMemberView (cm_id m) (cm_priority m) (upstream_kind_name (up_kind (cm_upstream m)))
                           (up_addr (cm_upstream m)) (up_tls (cm_upstream m)) (has_auth (cm_upstream m)))
             (ch_members c))).
Definition egress_view (e : Egress) : EgressView :=
  mkEgressView (eg_id e) (match eg_kind e with KUpstream u => upstream_view u | KChain c => chain_view c end).
Definition action_view (a : RouteAction) : ActionView :=
  match a with
  | ToEgress e => mkActionView (lit "egress") (Some (egress_view e))
  | ActDirect => mkActionView (lit "direct") None
  | ActBlock => mkActionView (lit "block") None
  end.
Definition route_view (r : Route) : RouteView := mkRouteView (ro_selector_rules r) (action_view (ro_action r)).
Definition policy_view (id : str) (p : RoutingPolicy) : RoutingPolicyView :=
  mkPolicyView id (map route_view (po_routes p)) (action_view (po_default_action p)).

(** [Snapshot::user_policy] *)
Definition user_policy (s : Snapshot) (username : str) : option UserPolicyView :=
  user ← sn_users s !! username;
  Some (mkUserView username (format_date <$> us_expire user) (us_policy user) (us_up_rate user)
          (us_down_rate user) (us_max_connections user)
          (policy_view (us_policy user) <$> sn_policies s !! us_policy user)).

End Snapshot.
