(* ===== verification/ModelProps.v ===== *)
(** * ModelProps: what a compiled snapshot guarantees

    Theorems on Model.v: strict wire unions, validated chains and upstreams, no
    dangling references, decisions as declaration-order first match with block
    veto, unambiguous front-end credentials, credential-free views. *)

From Stdlib Require Import ZArith Lia.
From stdpp Require Import prelude strings list gmap sorting.
From S2P Require Import Prelude RustStr Net Domain Policy Book BookProps Model.

(** ** Upstreams and chains *)

(** Overlay and reverse upstreams never carry credentials or TLS settings. *)
Definition upstream_ok (u : Upstream) : Prop :=
  match up_kind u with
  | Reverse | Subnetra =>
      up_username u = None /\ up_password u = None /\ up_tls u = false /\ up_skip_cert_verify u = false /\
      (up_kind u = Reverse -> up_addr u <> [])
  | _ => True
  end.

Lemma compile_upstream_ok u v : compile_upstream u = Ok v -> upstream_ok v.
Proof.
  unfold compile_upstream. intros H. apply bind_Ok in H as (k & _ & H).
  destruct k; res_inv; unfold upstream_ok; cbn; try done.
  split_and!; try done. intros _. bools. by destruct (trim (ru_addr u)).
Qed.

Lemma insert_member_perm m l : insert_member m l ≡ₚ m :: l.
Proof.
  induction l as [|x l IH]; cbn; [done|]. destruct (_ <=? _); [done|]. rewrite IH. apply perm_swap.
Qed.
Lemma sort_members_perm l : sort_members l ≡ₚ l.
Proof.
  unfold sort_members. induction l as [|m l IH]; cbn; [done|]. by rewrite insert_member_perm, IH.
Qed.

Definition before (a b : ChainMember) : Prop := cm_priority a < cm_priority b.

Lemma insert_member_sorted m l :
  Forall (fun x => cm_priority x <> cm_priority m) l -> StronglySorted before l ->
  StronglySorted before (insert_member m l).
Proof.
  induction l as [|x l IH]; cbn; intros Hne Hs; [by repeat constructor|].
  inversion Hne as [|? ? Hx Hl]; subst. inversion Hs as [|? ? Hs' Hall]; subst.
  destruct (Z.leb_spec (cm_priority m) (cm_priority x)) as [Hle|Hgt].
  - constructor; [done|]. constructor; [unfold before; lia|].
    eapply Forall_impl; [exact Hall|]. unfold before. intros. lia.
  - constructor; [by apply IH|]. rewrite insert_member_perm. by constructor.
Qed.

Lemma sort_members_sorted l : NoDup (map cm_priority l) -> StronglySorted before (sort_members l).
Proof.
  unfold sort_members. induction l as [|m l IH]; cbn; intros Hnd; [constructor|].
  inversion Hnd as [|? ? Hm Hl]; subst. apply insert_member_sorted; [|by apply IH].
  fold (sort_members l). rewrite sort_members_perm. apply Forall_forall. intros x Hx Heq. apply Hm.
  rewrite <- Heq. by apply list_elem_of_In, in_map, list_elem_of_In.
Qed.

(** A validated failover chain: its try order is strictly by priority. *)
Record chain_ok (c : Chain) : Prop := {
  co_count : (1 <= length (ch_members c) <= 16)%nat;
  co_order : StronglySorted before (ch_members c);
  co_ids : NoDup (map cm_id (ch_members c));
  co_members : Forall (fun m => cm_id m <> [] /\ upstream_ok (cm_upstream m)) (ch_members c)
}.

(** The loop state: the sets are those of the members pushed so far. *)
Record members_ok (ids : gset str) (prios : gset Z) (ms : list ChainMember) : Prop := {
  mo_ids : ids = list_to_set (map cm_id ms);
  mo_prios : prios = list_to_set (map cm_priority ms);
  mo_nodup : NoDup (map cm_id ms) /\ NoDup (map cm_priority ms);
  mo_each : Forall (fun m => cm_id m <> [] /\ upstream_ok (cm_upstream m)) ms
}.

Lemma compile_member_ok ids prios ms m ids' prios' ms' :
  members_ok ids prios ms -> compile_member (ids, prios, ms) m = Ok (ids', prios', ms') ->
  members_ok ids' prios' ms' /\ length ms' = S (length ms).
Proof.
  intros [Hi Hp [Hni Hnp] He] H. unfold compile_member in H.
  apply bind_Ok in H as (? & H1 & H). apply bind_Ok in H as (? & H2 & H). apply bind_Ok in H as (? & H3 & H).
  apply bind_Ok in H as (? & _ & H). apply bind_Ok in H as (u & Hu & H). injection H as <- <- <-.
  apply ensure_Ok in H1. apply ensure_Ok, bool_decide_eq_true in H2. apply ensure_Ok, bool_decide_eq_true in H3.
  rewrite Hi, elem_of_list_to_set in H2. rewrite Hp, elem_of_list_to_set in H3.
  split; [|rewrite length_app; cbn; lia]. split; rewrite ?map_app; cbn [map cm_id cm_priority].
  - rewrite list_to_set_app_L, Hi. cbn. set_solver.
  - rewrite list_to_set_app_L, Hp. cbn. set_solver.
  - split; apply NoDup_app; (split_and!; [done| |apply NoDup_singleton]);
      intros y Hy Hy'%list_elem_of_singleton; subst y; contradiction.
  - apply Forall_app_2; [done|]. constructor; [|constructor]. cbn. split; [|by eapply compile_upstream_ok].
    by destruct (trim (rm_id m)).
Qed.

Lemma compile_members_ok raw ids prios ms st :
  members_ok ids prios ms -> try_fold compile_member (ids, prios, ms) raw = Ok st ->
  members_ok (fst (fst st)) (snd (fst st)) (snd st) /\ length (snd st) = (length ms + length raw)%nat.
Proof.
  revert ids prios ms; induction raw as [|m raw IH]; intros ids prios ms Hok; cbn.
  - intros [= <-]. cbn. split; [done|lia].
  - intros H. apply bind_Ok in H as ([[ids' prios'] ms'] & Hm & H).
    destruct (compile_member_ok _ _ _ _ _ _ _ Hok Hm) as [Hok' Hl]. destruct (IH _ _ _ Hok' H). split; [done|lia].
Qed.

Lemma compile_chain_ok id raw c : compile_chain id raw = Ok c -> chain_ok c /\ ch_id c = id.
Proof.
  unfold compile_chain. intros H. apply bind_Ok in H as (? & _ & H). apply bind_Ok in H as (? & H1 & H).
  apply bind_Ok in H as (? & H2 & H). apply bind_Ok in H as ([[ids prios] ms] & Hf & H). injection H as <-.
  apply ensure_Ok in H1. apply ensure_Ok, Z.leb_le in H2. unfold MAX_CHAIN_MEMBERS in H2.
  destruct (compile_members_ok raw ∅ ∅ [] _ ltac:(split; cbn; [done|done|split; constructor|constructor]) Hf)
    as [[_ _ [Hni Hnp] He] Hl]. cbn in *.
  split; [|done]. split; cbn.
  - rewrite (Permutation_length (sort_members_perm ms)). destruct raw; [done|cbn in *; lia].
  - by apply sort_members_sorted.
  - by rewrite sort_members_perm.
  - by rewrite sort_members_perm.
Qed.

Definition egress_ok (e : Egress) : Prop :=
  match eg_kind e with KUpstream u => upstream_ok u | KChain c => chain_ok c /\ ch_id c = eg_id e end.

Lemma compile_egress_ok id raw e : compile_egress id raw = Ok e -> egress_ok e /\ eg_id e = id.
Proof.
  unfold compile_egress. destruct raw; intros H; res_inv; unfold egress_ok; cbn.
  - split; [by eapply compile_upstream_ok|done].
  - by apply compile_chain_ok in Hv.
Qed.

Lemma compile_egresses_ok raw m :
  compile_egresses raw = Ok m -> map_Forall (fun id e => egress_ok e /\ eg_id e = id) m.
Proof.
  unfold compile_egresses.
  assert (Hgen : forall raw (m0 m : gmap str Egress), map_Forall (fun id e => egress_ok e /\ eg_id e = id) m0 ->
    try_fold (fun m '(id, e) => ensure (negb (is_empty (trim id))) EmptyEgressId ;;
                eg ← compile_egress id e; Ok (<[id := eg]> m)) m0 raw = Ok m ->
    map_Forall (fun id e => egress_ok e /\ eg_id e = id) m).
  { clear. induction raw as [|[id e] raw IH]; intros m0 m Hm0; cbn.
    - intros [= <-]. done.
    - intros H. apply bind_Ok in H as (m1 & H1 & H). eapply IH; [|exact H]. res_inv.
      apply map_Forall_insert_2; [|done]. by apply compile_egress_ok in Hv0. }
  apply Hgen. apply map_Forall_empty.
Qed.

Section Snapshots.
Context {N : Ipnet} {B : BookApi} {D : Chrono}.

(** ** Policies *)

(** An action refers to an entry of the compiled egress table. *)
Definition action_ok (egresses : gmap str Egress) (a : RouteAction) : Prop :=
  match a with ToEgress e => egress_ok e /\ egresses !! eg_id e = Some e | _ => True end.

Record policy_ok (egresses : gmap str Egress) (p : RoutingPolicy) : Prop := {
  po_routes_ok : Forall (fun r => ruleset_ok (ro_selectors r) /\ action_ok egresses (ro_action r)) (po_routes p);
  po_default_ok : action_ok egresses (po_default_action p);
  po_index_ok : po_index p = build_index (map ro_selectors (po_routes p));
  po_count : Z.of_nat (length (po_routes p)) <= MAX_SNAPSHOT_RULES
}.

Lemma compile_action_ok raw egresses a :
  map_Forall (fun id e => egress_ok e /\ eg_id e = id) egresses ->
  compile_action raw egresses = Ok a -> action_ok egresses a.
Proof.
  intros Hm H. destruct raw; cbn in H; res_inv; cbn; try done.
  destruct (Hm _ _ Hv0) as [He Hid]. split; [done|]. by rewrite Hid.
Qed.

Definition rules_of (st : budget) : Z := snd st.

Lemma compile_route_ok `{!IpnetLaws N} book egresses addr st raw st' r :
  map_Forall (fun id e => egress_ok e /\ eg_id e = id) egresses -> 0 <= rules_of st ->
  compile_route book egresses addr st raw = Ok (st', r) ->
  (ruleset_ok (ro_selectors r) /\ action_ok egresses (ro_action r)) /\
  rules_of st + 1 <= rules_of st' <= MAX_SNAPSHOT_RULES.
Proof.
  intros Hm Hst. destruct st as [[alloc bytes] total]. unfold compile_route. cbn in Hst.
  set (ne := Z.of_nat _). intros H. apply bind_Ok in H as (? & H1 & H). apply bind_Ok in H as (? & H2 & H).
  apply bind_Ok in H as (sel & H3 & H). apply bind_Ok in H as (acc & _ & H). apply bind_Ok in H as (a & H4 & H).
  injection H as <- <-. apply ensure_Ok, Z.ltb_lt in H1. apply ensure_Ok, Z.leb_le in H2.
  apply map_err_Ok in H3. cbn. split.
  - split; [by eapply from_rules_ok|by eapply compile_action_ok].
  - unfold saturating_add, MAX_SNAPSHOT_RULES in *. lia.
Qed.

Lemma compile_routes_ok `{!IpnetLaws N} book egresses addr idx st raw st' rs :
  map_Forall (fun id e => egress_ok e /\ eg_id e = id) egresses -> 0 <= rules_of st <= MAX_SNAPSHOT_RULES ->
  compile_routes book egresses addr idx st raw = Ok (st', rs) ->
  Forall (fun r => ruleset_ok (ro_selectors r) /\ action_ok egresses (ro_action r)) rs /\
  rules_of st + Z.of_nat (length rs) <= rules_of st' <= MAX_SNAPSHOT_RULES.
Proof.
  intros Hm. revert idx st st' rs; induction raw as [|r raw IH]; intros idx st st' rs Hst; cbn [compile_routes].
  - intros [= <- <-]. cbn. split; [constructor|lia].
  - intros H. apply bind_Ok in H as ([st1 r1] & H1 & H). apply bind_Ok in H as ([st2 rs2] & H2 & H).
    injection H as <- <-. destruct (compile_route_ok _ _ _ _ _ _ _ Hm (proj1 Hst) H1) as [Hr Hb].
    destruct (IH (S idx) st1 st2 rs2) as [Hrs Hb2]; [lia|done|]. split; [by constructor|]. cbn [length]. lia.
Qed.

Lemma compile_policies_ok `{!IpnetLaws N} book egresses addr raw ps st ps' st' :
  map_Forall (fun id e => egress_ok e /\ eg_id e = id) egresses ->
  map_Forall (fun _ p => policy_ok egresses p) ps -> 0 <= rules_of st <= MAX_SNAPSHOT_RULES ->
  try_fold (compile_policy book egresses addr) (ps, st) raw = Ok (ps', st') ->
  map_Forall (fun _ p => policy_ok egresses p) ps'.
Proof.
  intros Hm. revert ps st; induction raw as [|[id p] raw IH]; intros ps st Hps Hst; cbn [try_fold].
  - intros [= <- _]. done.
  - intros H. apply bind_Ok in H as ([ps1 st1] & H1 & H). unfold compile_policy in H1.
    apply bind_Ok in H1 as (? & _ & H1). apply bind_Ok in H1 as (da & Hda & H1).
    apply bind_Ok in H1 as ([st2 rs] & Hrs & H1). injection H1 as <- <-.
    destruct (compile_routes_ok _ _ _ _ _ _ _ _ Hm Hst Hrs) as [Hr Hb].
    apply (IH _ st2) in H; [done| |lia]. apply map_Forall_insert_2; [|done]. split; cbn; [done| |done|lia].
    destruct (rp_default_action p); [by eapply compile_action_ok|]. injection Hda as <-. done.
Qed.

(** First match on a compiled policy is the first route in declaration order. *)
Definition declared_match (p : RoutingPolicy) (host : str) : option (nat * Route) :=
  list_find (fun r => Is_true (rs_matches (ro_selectors r) host)) (po_routes p).

Lemma list_find_map {A C} (f : A -> C) (P : C -> bool) l :
  list_find (fun y => Is_true (P y)) (map f l) =
  (fun '(i, x) => (i, f x)) <$> list_find (fun x => Is_true (P (f x))) l.
Proof.
  induction l as [|x l IH]; [done|]. cbn [map]. simpl. destruct (decide (Is_true (P (f x)))); [done|].
  rewrite IH. destruct (list_find _ l) as [[]|]; done.
Qed.

Lemma policy_first_match_declared egresses p host :
  policy_ok egresses p ->
  policy_first_match p host = (fun '(i, r) => (Z.of_nat i, ro_action r)) <$> declared_match p host.
Proof.
  intros [Hr _ Hix Hn]. unfold policy_first_match, declared_match. rewrite Hix, first_match_find.
  - rewrite (list_find_map ro_selectors (fun rs => rs_matches rs host)).
    destruct (list_find _ (po_routes p)) as [[i r]|] eqn:Ef; [|done]. cbn.
    apply list_find_Some in Ef as (Hi & _ & _). by rewrite Nat2Z.id, Hi.
  - rewrite length_map. unfold MAX_SNAPSHOT_RULES, u32_max in *. lia.
  - apply Forall_map. eapply Forall_impl; [exact Hr|]. by intros r [? _].
Qed.

(** ** Users and front-end credentials *)

Definition lookup2 (index : gmap str (gmap str str)) (proto key : str) : option str :=
  index !! proto ≫= (fun m => m !! key).

(** The key a credential is indexed under. *)
Definition cred_key (c : FrontendCred) : option str :=
  match fc_uuid c with
  | Some uuid => let key := to_ascii_lowercase (trim uuid) in if is_empty key then None else Some key
  | None => None
  end.

Lemma index_frontend_ok name I F proto cred I' F' :
  index_frontend name (I, F) (proto, cred) = Ok (I', F') ->
  F' = <[proto := mkFrontendCred (rf_uuid cred) (rf_password cred)]> F /\
  forall p k n, lookup2 I' p k = Some n <->
    lookup2 I p k = Some n \/
    (n = name /\ p = proto /\ cred_key (mkFrontendCred (rf_uuid cred) (rf_password cred)) = Some k).
Proof.
  unfold index_frontend, cred_key. cbn [fc_uuid]. destruct (rf_uuid cred) as [uuid|].
  2: { intros [= <- <-]. naive_solver. }
  set (key := to_ascii_lowercase (trim uuid)). destruct (is_empty key).
  { intros [= <- <-]. naive_solver. }
  destruct (default ∅ (I !! proto) !! key) eqn:El; [done|]. intros [= <- <-]. split; [done|].
  intros p k n. unfold lookup2. destruct (decide (p = proto)) as [->|Hp].
  - rewrite lookup_insert_eq. cbn. destruct (decide (k = key)) as [->|Hk].
    + rewrite lookup_insert_eq. destruct (I !! proto) as [m|]; cbn in *; naive_solver.
    + rewrite lookup_insert_ne by done. destruct (I !! proto) as [m|]; cbn in *; [naive_solver|].
      rewrite lookup_empty. naive_solver.
  - rewrite lookup_insert_ne by done. naive_solver.
Qed.

Lemma index_frontends_ok name l I F I' F' :
  NoDup (map fst l) -> (forall p, p ∈ map fst l -> F !! p = None) ->
  try_fold (index_frontend name) (I, F) l = Ok (I', F') ->
  (forall p, F !! p <> None -> F' !! p = F !! p) /\
  forall p k n, lookup2 I' p k = Some n <->
    lookup2 I p k = Some n \/ (n = name /\ F !! p = None /\ exists c, F' !! p = Some c /\ cred_key c = Some k).
Proof.
  revert I F; induction l as [|[proto cred] l IH]; intros I F Hnd Hfresh; cbn [try_fold].
  - intros [= <- <-]. split; [done|]. naive_solver congruence.
  - intros H. apply bind_Ok in H as ([I1 F1] & H1 & H). apply index_frontend_ok in H1 as [-> HI1].
    cbn in Hnd. inversion Hnd as [|? ? Hp Hnd']; subst.
    assert (Hpn : F !! proto = None) by (apply Hfresh; cbn; left).
    set (F1 := <[proto := _]> F) in *.
    destruct (IH I1 F1 Hnd') as [Hkeep HI]; [|done|].
    { intros p Hin. unfold F1. rewrite lookup_insert_ne by (intros ->; contradiction). apply Hfresh. by right. }
    unfold F1 in *. clear F1.
    split.
    + intros p HF. rewrite Hkeep; [|rewrite lookup_insert_ne by congruence; done].
      by rewrite lookup_insert_ne by congruence.
    + intros p k n. rewrite HI, HI1. destruct (decide (p = proto)) as [->|Hne].
      * rewrite (Hkeep proto) by by rewrite lookup_insert_eq. rewrite lookup_insert_eq. naive_solver.
      * rewrite lookup_insert_ne by done. naive_solver.
Qed.

(** Users against the policy table and the front-end index. *)
Record users_ok (policies : gmap str RoutingPolicy) (users : gmap str User) (index : gmap str (gmap str str)) : Prop := {
  uo_policy : map_Forall (fun _ u => is_Some (policies !! us_policy u)) users;
  uo_index : forall p k n, lookup2 index p k = Some n <->
    exists u c, users !! n = Some u /\ us_frontends u !! p = Some c /\ cred_key c = Some k
}.

(** The keys of the wire maps are distinct. *)
Record raw_ok (raw : RawSnapshot) : Prop := {
  rk_users : NoDup (map fst (rs_users raw));
  rk_frontends : Forall (fun '(_, u) => NoDup (map fst (u_frontends u))) (rs_users raw)
}.

Lemma compile_one_user_ok policies users index name u users' index' :
  users_ok policies users index -> users !! name = None -> NoDup (map fst (u_frontends u)) ->
  compile_one_user policies (users, index) (name, u) = Ok (users', index') ->
  users_ok policies users' index' /\ exists usr, users' = <[name := usr]> users.
Proof.
  intros [Hpol Hidx] Hfresh Hnd H. unfold compile_one_user in H.
  apply bind_Ok in H as (? & _ & H). apply bind_Ok in H as (? & Hp & H). apply ensure_Ok, bool_decide_eq_true in Hp.
  apply bind_Ok in H as ([index1 usr] & Hu & H). injection H as <- <-. split; [|by exists usr].
  unfold compile_user in Hu. apply bind_Ok in Hu as (ex & _ & Hu).
  apply bind_Ok in Hu as ([index2 fr] & Hf & Hu). injection Hu as <- <-.
  destruct (index_frontends_ok name _ index ∅ index2 fr Hnd) as [_ HI]; [intros; apply lookup_empty|done|].
  split.
  - apply map_Forall_insert_2; [done|done].
  - intros p k n. rewrite HI, Hidx, lookup_empty. split.
    + intros [(u' & c & Hn & Hc & Hk)|(-> & _ & c & Hc & Hk)].
      * exists u', c. rewrite lookup_insert_ne by congruence. done.
      * eexists _, c. rewrite lookup_insert_eq. done.
    + intros (u' & c & Hn & Hc & Hk). apply lookup_insert_Some in Hn as [[<- <-]|[_ Hn]]; [right|left]; eauto 10.
Qed.

Lemma compile_users_ok policies raw users index users' index' :
  users_ok policies users index -> NoDup (map fst raw) ->
  (forall n, n ∈ map fst raw -> users !! n = None) ->
  Forall (fun '(_, u) => NoDup (map fst (u_frontends u))) raw ->
  try_fold (compile_one_user policies) (users, index) raw = Ok (users', index') ->
  users_ok policies users' index'.
Proof.
  revert users index; induction raw as [|[name u] raw IH]; intros users index Hok Hnd Hfresh Hfr; cbn [try_fold].
  - intros [= <- <-]. done.
  - intros H. apply bind_Ok in H as ([users1 index1] & H1 & H). cbn in Hnd. inversion Hnd; subst.
    inversion Hfr as [|? ? Hu Hfr']; subst.
    destruct (compile_one_user_ok _ _ _ _ _ _ _ Hok (Hfresh name ltac:(left)) Hu H1) as [Hok1 [usr ->]].
    eapply IH; [exact Hok1|done| |done|exact H].
    intros n Hn. rewrite lookup_insert_ne by (intros ->; contradiction). apply Hfresh. by right.
Qed.

(** ** The compiled snapshot *)

Record snapshot_ok (s : Snapshot) : Prop := {
  so_policies : exists egresses, map_Forall (fun id e => egress_ok e /\ eg_id e = id) egresses /\
                  map_Forall (fun _ p => policy_ok egresses p) (sn_policies s);
  so_users : users_ok (sn_policies s) (sn_users s) (sn_frontend_index s)
}.

Lemma compile_checked_ok `{!IpnetLaws N} raw node book addr s :
  raw_ok raw -> compile_checked raw node book addr = Ok s -> snapshot_ok s.
Proof.
  intros [Hnd Hfr] H. unfold compile_checked in H.
  do 5 (apply bind_Ok in H as (? & _ & H)). apply bind_Ok in H as (reg & _ & H).
  apply bind_Ok in H as (? & _ & H). apply bind_Ok in H as (eg & He & H).
  apply bind_Ok in H as ([ps st] & Hp & H). apply bind_Ok in H as ([us ix] & Hu & H). injection H as <-.
  apply compile_egresses_ok in He. split; cbn.
  - exists eg. split; [done|]. eapply compile_policies_ok; [done|apply map_Forall_empty| |exact Hp].
    cbn. unfold MAX_SNAPSHOT_RULES. lia.
  - eapply compile_users_ok; [|exact Hnd| |exact Hfr|exact Hu].
    + split; [apply map_Forall_empty|]. intros p k n. unfold lookup2. rewrite lookup_empty. cbn.
      setoid_rewrite lookup_empty. naive_solver.
    + intros. apply lookup_empty.
Qed.

(** ** Decisions *)

(** The declared reading of a decision: candidates in order, the first block
    vetoes, then the first match selects, then the default. *)
Definition spec_decide (s : Snapshot) (username req : str) (sniffed : option str) : ResolvedDecision :=
  match sn_users s !! username with
  | None => mkResolved Block req (sn_version s) None None
  | Some user =>
      match sn_policies s !! us_policy user with
      | None => mkResolved Block req (sn_version s) None None
      | Some p =>
          let verdict host := (fun '(i, r) => (host, Z.of_nat i, ro_action r)) <$> declared_match p host in
          let vetoes := omap (fun host => match verdict host with
                                          | Some (h, i, ActBlock) => Some (h, i) | _ => None end)
                          (req :: option_list sniffed) in
          let choices := omap verdict
                           ((if parse_ip_addr req then option_list sniffed else []) ++ [req]) in
          match head vetoes, head choices with
          | Some (h, i), _ => mkResolved Block h (sn_version s) (Some (us_policy user)) (Some i)
          | None, Some (h, i, a) =>
              mkResolved (route_action_decision a) h (sn_version s) (Some (us_policy user)) (Some i)
          | None, None =>
              mkResolved (route_action_decision (po_default_action p)) req (sn_version s)
                (Some (us_policy user)) None
          end
      end
  end.

Lemma decide_spec s username req sniffed :
  snapshot_ok s -> decide_with_sniff s username req sniffed = spec_decide s username req sniffed.
Proof.
  intros [(eg & _ & Hp) _]. unfold decide_with_sniff, spec_decide.
  destruct (sn_users s !! username) as [user|]; [|done].
  destruct (sn_policies s !! us_policy user) as [p|] eqn:Ep; [|done].
  specialize (Hp _ _ Ep). rewrite (policy_first_match_declared eg p req Hp).
  destruct sniffed as [h|]; cbn [fmap option_fmap option_map option_list].
  - rewrite (policy_first_match_declared eg p h Hp). destruct (parse_ip_addr req) as [ip|]; cbn;
    destruct (declared_match p req) as [[i [? ? a]]|], (declared_match p h) as [[j [? ? a']]|];
      try (destruct a as [?| |]); try (destruct a' as [?| |]); reflexivity.
  - destruct (parse_ip_addr req) as [ip|]; cbn;
      destruct (declared_match p req) as [[i [? ? a]]|]; try (destruct a as [?| |]); reflexivity.
Qed.

(** The front-end index is exactly the users' credentials. *)
Lemma frontend_user_spec s proto key name u :
  snapshot_ok s ->
  frontend_user s proto key = Some (name, u) <->
  sn_users s !! name = Some u /\
      exists c, us_frontends u !! proto = Some c /\ cred_key c = Some (to_ascii_lowercase key).
Proof.
  intros Hok. destruct (so_users _ Hok) as [_ Hix].
  specialize (Hix proto (to_ascii_lowercase key)). unfold frontend_user, lookup2 in *.
  destruct (sn_frontend_index s !! proto) as [m|]; cbn in *.
  - destruct (m !! to_ascii_lowercase key) as [n|]; cbn.
    + destruct (proj1 (Hix n) eq_refl) as (u' & c' & Hu' & Hc' & Hk'). rewrite Hu'. cbn. split.
      * intros [= <- <-]. eauto.
      * intros (Hu & c & Hc & Hk). assert (Some n = Some name) as [= ->] by (apply Hix; eauto). congruence.
    + split; [done|]. intros (Hu & c & Hc & Hk). by assert (None = Some name) by (apply Hix; eauto).
  - split; [done|]. intros (Hu & c & Hc & Hk). by assert (None = Some name) by (apply Hix; eauto).
Qed.

(** Decisions of a snapshot [compile_checked] accepted. *)
Section Compiled.
Context `{!IpnetLaws N} (raw : RawSnapshot) (node : str) (book : option AddrBook) (addr : str -> nat -> Z) (s : Snapshot).
Hypothesis Hraw : raw_ok raw.
Hypothesis Hs : compile_checked raw node book addr = Ok s.

(** C9: a snapshot that compiles is closed and validated: every user is bound
    to a compiled policy, every route and default action that names an egress
    holds a validated entry of the egress table, failover chains have 1 to 16
    distinct members tried in strictly ascending priority, overlay and reverse
    upstreams carry neither credentials nor TLS settings, and the front-end
    index is exactly the users' credentials. *)
Theorem compiled_snapshot_validated : snapshot_ok s.
Proof. exact (compile_checked_ok raw node book addr s Hraw Hs). Qed.

(** C10: on a compiled snapshot [decide_with_sniff] implements the declared
    reading: the first declared route that blocks the requested host, then the
    sniffed one, vetoes; else the first declared route selects (the sniffed host
    first when the request is an IP literal); else the policy default. *)
Theorem decide_refines_spec username req sniffed :
  decide_with_sniff s username req sniffed = spec_decide s username req sniffed.
Proof. apply decide_spec. exact (compile_checked_ok raw node book addr s Hraw Hs). Qed.

(** A user's policy is compiled. *)
Lemma compiled_user_policy username u :
  sn_users s !! username = Some u -> exists p, sn_policies s !! us_policy u = Some p.
Proof. exact (uo_policy _ _ _ (so_users _ (compile_checked_ok raw node book addr s Hraw Hs)) username u). Qed.

(** Decisions fail closed and are attributed: a decision names no policy
    exactly for an unknown user, and then it blocks; for a known user it names
    the bound policy, and it blocks whenever the first declared route matching
    the requested or the sniffed host is a block route. *)
Theorem decide_fails_closed username req sniffed :
  let d := decide_with_sniff s username req sniffed in
  match sn_users s !! username with
  | None => rd_decision d = Block /\ rd_policy_id d = None /\ rd_matched_route d = None
  | Some u =>
      rd_policy_id d = Some (us_policy u) /\
      forall p host i r,
        sn_policies s !! us_policy u = Some p -> host ∈ req :: option_list sniffed ->
        declared_match p host = Some (i, r) -> ro_action r = ActBlock ->
        rd_decision d = Block
  end.
Proof.
  cbn zeta. rewrite decide_spec by exact (compile_checked_ok raw node book addr s Hraw Hs). unfold spec_decide.
  destruct (sn_users s !! username) as [u|] eqn:Eu; [|done].
  destruct (compiled_user_policy _ _ Eu) as [p Ep]. rewrite Ep. split; [by repeat case_match|].
  intros p' host i r [= <-] Hin Hm Ha. set (vetoes := omap _ _).
  assert (Hv : (host, Z.of_nat i) ∈ vetoes).
  { apply list_elem_of_omap. exists host. split; [done|]. rewrite Hm. cbn. by rewrite Ha. }
  destruct vetoes as [|[h j] vs]; [by apply not_elem_of_nil in Hv|]. done.
Qed.

(** Front-end authentication is exact: a lookup finds a user precisely when
    that user holds the credential for the protocol (ASCII case-insensitively),
    and no two users hold the same one. *)
Theorem frontend_user_exact proto key name u :
  frontend_user s proto key = Some (name, u) <->
  sn_users s !! name = Some u /\
      exists c, us_frontends u !! proto = Some c /\ cred_key c = Some (to_ascii_lowercase key).
Proof. apply frontend_user_spec. exact (compile_checked_ok raw node book addr s Hraw Hs). Qed.

End Compiled.

(** ** Views *)

(** Every secret replaced; only whether an upstream has credentials is kept. *)
Definition redact_secret (o : option str) : option str := (fun _ => lit "*") <$> o.
Definition redact_upstream (u : Upstream) : Upstream :=
  mkUpstream (up_kind u) (up_addr u) (redact_secret (up_username u)) (redact_secret (up_password u))
    (up_tls u) (up_skip_cert_verify u).
Definition redact_chain (c : Chain) : Chain :=
  mkChain (ch_id c) (map (fun m => mkChainMember (cm_id m) (cm_priority m) (redact_upstream (cm_upstream m)))
                       (ch_members c)).
Definition redact_action (a : RouteAction) : RouteAction :=
  match a with
  | ToEgress e => ToEgress (mkEgress (eg_id e) match eg_kind e with
                                               | KUpstream u => KUpstream (redact_upstream u)
                                               | KChain c => KChain (redact_chain c)
                                               end)
  | a => a
  end.
Definition redact_policy (p : RoutingPolicy) : RoutingPolicy :=
  mkPolicy (map (fun r => mkRoute (ro_selectors r) (ro_selector_rules r) (redact_action (ro_action r))) (po_routes p))
    (redact_action (po_default_action p)) (po_index p).
Definition redact_user (u : User) : User :=
  mkUser [] (us_expire u) (us_up_rate u) (us_down_rate u) (us_max_connections u) (us_policy u) ∅.
Definition redact (s : Snapshot) : Snapshot :=
  mkSnapshot (sn_version s) (sn_schema_version s) (redact_user <$> sn_users s) (redact_policy <$> sn_policies s) ∅.

Lemma has_auth_redact u : has_auth (redact_upstream u) = has_auth u.
Proof. unfold has_auth. cbn. by destruct (up_username u), (up_password u). Qed.

Lemma action_view_redact a : action_view (redact_action a) = action_view a.
Proof.
  destruct a as [[id [u|c]]| |]; [| |done|done]; cbn; unfold egress_view; cbn; do 3 f_equal.
  - unfold upstream_view. cbn. by rewrite has_auth_redact.
  - unfold chain_view. cbn. rewrite map_map. do 2 f_equal. apply map_ext. intros m. cbn. by rewrite has_auth_redact.
Qed.

(** The policy view handed to clients does not depend on any secret: it is
    the same for the snapshot with every password, upstream credential and
    front-end credential erased. *)
Theorem user_policy_secret_free s username : user_policy (redact s) username = user_policy s username.
Proof.
  unfold user_policy. cbn [sn_users sn_policies redact]. rewrite lookup_fmap.
  destruct (sn_users s !! username) as [u|]; [|done]. cbn. rewrite lookup_fmap.
  destruct (sn_policies s !! us_policy u) as [p|]; [|done]. cbn. do 3 f_equal.
  unfold policy_view. cbn. rewrite map_map, action_view_redact. f_equal. apply map_ext. intros r.
  unfold route_view. cbn. by rewrite action_view_redact.
Qed.

End Snapshots.

(** The wire unions are strict: an action or egress object is accepted
    exactly when it is the canonical encoding of the result, so no contradictory
    object (a block with an egress, a chain with a backend) gets through. *)
Theorem wire_unions_exact :
  (forall w a, RawAction_try_from w = Ok a <-> w = RawActionWire_from a) /\
      (forall w e, RawEgress_try_from w = Ok e <-> w = RawEgressWire_from e).
Proof.
  split; intros w x; (split; [|intros ->; by destruct x]).
  - destruct w as [k [e|]]; unfold RawAction_try_from; cbn; intros H;
      repeat case_match; res_inv; try done; cbn; f_equal; by apply str_eqb_eq.
  - destruct w as [k [b|] [m|]]; unfold RawEgress_try_from; cbn; intros H;
      repeat case_match; res_inv; try done; cbn; f_equal; by apply str_eqb_eq.
Qed.

(** ** A concrete snapshot *)

#[local] Existing Instances CidrNet.inst CidrNet.cidr_laws Book_api.

(** Dates by their ISO text, for the examples. *)
#[local] Instance iso_dates : Chrono := {|
  NaiveDate := str;
  parse_date := fun s => if (length s =? 10)%nat then Some s else None;
  format_date := fun d => d
|}.

Definition demo_raw : RawSnapshot := {|
  rs_schema_version := 1;
  rs_version := 42;
  rs_users :=
    [(lit "alice", mkRawUser (lit "pw") (Some (lit "2030-01-01")) 0 0 4 (lit "p")
                     [(lit "tuic", mkRawFrontendCred (Some (lit " AB-1 ")) (Some (lit "tok")))]);
     (lit "bob", mkRawUser (lit "pw2") None 0 0 4 (lit "p")
                   [(lit "tuic", mkRawFrontendCred (Some (lit "ab-2")) None)])];
  rs_policies :=
    [(lit "p", mkRawPolicy
       [mkRawRoute [lit "book:google/ads"; lit "evil.com"] RawBlock;
        mkRawRoute [lit "google.com"; lit "10.0.0.0/8"] (RawEgressTo (lit " jp "));
        mkRawRoute [lit "ads.google.com"] RawDirect]
       (Some (RawEgressTo (lit "out"))))];
  rs_egresses :=
    [(lit "jp", RawChain [mkRawChainMember (lit "b") 20 (mkRawUpstream (lit "SOCKS") (lit "b:1") (Some (lit "u")) (Some (lit "s")) false false);
                          mkRawChainMember (lit "a") 10 (mkRawUpstream (lit "reverse") (lit " hop1 ") None None false false)]);
     (lit "out", RawUp (mkRawUpstream (lit "http") (lit "base:8080") None None false false))];
  rs_node_overrides :=
    [(lit "n1", [(lit "out", RawUp (mkRawUpstream (lit "https") (lit "n1:8080") None None true false))])]
|}.
Definition demo_addr (p : str) (i : nat) : Z := 4096 + 64 * Z.of_nat i.
Definition demo_compile := compile_checked demo_raw (lit "n1") (Some demo_query) demo_addr.
Definition demo_snapshot : Snapshot := unwrap_or demo_compile Snapshot_empty.

Lemma demo_compiled : demo_compile = Ok demo_snapshot.
Proof. apply Ok_unwrap_or. vm_compute. reflexivity. Qed.
Lemma demo_raw_ok : raw_ok demo_raw.
Proof. split; [apply (bool_decide_unpack _); vm_compute; exact I|]. repeat constructor; apply (bool_decide_unpack _); vm_compute; exact I. Qed.

Lemma compiled_snapshot_validated_witness : snapshot_ok demo_snapshot.
Proof. exact (compiled_snapshot_validated (B := Book_api) demo_raw (lit "n1") (Some demo_query) demo_addr demo_snapshot demo_raw_ok demo_compiled). Defined.

(** The declared reading on the example: the sniffed advert host is blocked by
    the first route although the request is an allowed address. *)
Lemma decide_refines_spec_witness :
  spec_decide demo_snapshot (lit "alice") (lit "10.1.2.3") (Some (lit "x.ads.google.com")) =
  mkResolved Block (lit "x.ads.google.com") 42 (Some (lit "p")) (Some 0).
Proof.
  rewrite <- (decide_refines_spec (B := Book_api) demo_raw (lit "n1") (Some demo_query) demo_addr demo_snapshot demo_raw_ok demo_compiled).
  vm_compute. reflexivity.
Defined.

Lemma decide_fails_closed_witness :
  rd_decision (decide_with_sniff demo_snapshot (lit "mallory") (lit "google.com") None) = Block.
Proof.
  pose proof (decide_fails_closed (B := Book_api) demo_raw (lit "n1") (Some demo_query) demo_addr demo_snapshot demo_raw_ok demo_compiled
                (lit "mallory") (lit "google.com") None) as H.
  assert (E : sn_users demo_snapshot !! lit "mallory" = None) by (vm_compute; reflexivity).
  cbn zeta in H. rewrite E in H. exact (proj1 H).
Defined.

Lemma frontend_user_exact_witness :
  match frontend_user demo_snapshot (lit "tuic") (lit "Ab-1") with
  | Some (name, u) => name = lit "alice" /\ sn_users demo_snapshot !! name = Some u
  | None => False
  end.
Proof.
  destruct (frontend_user demo_snapshot (lit "tuic") (lit "Ab-1")) as [[name u]|] eqn:E.
  - pose proof (proj1 (frontend_user_exact (B := Book_api) demo_raw (lit "n1") (Some demo_query) demo_addr demo_snapshot demo_raw_ok demo_compiled
                  (lit "tuic") (lit "Ab-1") name u) E) as [Hu _].
    split; [|exact Hu]. apply (f_equal (fmap fst)) in E. vm_compute in E. injection E as <-. reflexivity.
  - exfalso. apply (f_equal (fmap fst)) in E. vm_compute in E. discriminate E.
Defined.
