(* ===== verification/Engine.v ===== *)
(** * Engine: the in-process decision engine

    Models src/src/engine.rs and src/src/error.rs: the swappable serving
    snapshot, the three authentication paths, and the connection permits with
    their shared per-user counters. The mutex serialises the counter updates,
    so a run of the engine is a sequence of atomic events; a permit is its
    user name, held in the pool of live permits until it is dropped. *)

From Stdlib Require Import ZArith Lia.
From stdpp Require Import prelude strings list gmap.
From S2P Require Import Prelude RustStr Net RustFmt Util Domain Policy Rab Book Model ModelProps.

(** ** Errors (error.rs) *)

Inductive ProxyError :=
| AuthRequired
| AuthFailed
| Expired
| ConnectionLimitExceeded (current max : Z)
| Blocked (what : str)
| BadRequest (what : str)
| UpstreamFailed (what : str)
| Dns (what : str)
| Dial (what : str)
| Tls (what : str)
| ReverseUnavailable (what : str)
| ReverseOpen (what : str)
| ReverseHopConnect (what : str)
| ChainExhausted (chain : str) (attempts : Z) (last : ProxyError)
| Io (what : str).

(** [ProxyError::failure_stage], [ProxyError::chain_attempts] *)
Definition failure_stage (e : ProxyError) : str :=
  match e with
  | AuthRequired | AuthFailed | Expired => lit "auth"
  | ConnectionLimitExceeded _ _ => lit "limit"
  | Blocked _ => lit "policy"
  | BadRequest _ => lit "parse"
  | Dns _ => lit "dns"
  | Dial _ => lit "dial"
  | Tls _ => lit "tls"
  | UpstreamFailed _ => lit "outbound"
  | ReverseUnavailable _ => lit "reverse_lookup"
  | ReverseOpen _ => lit "reverse_open"
  | ReverseHopConnect _ => lit "hop_connect"
  | ChainExhausted _ _ _ => lit "chain_exhausted"
  | Io _ => lit "outbound"
  end.
Definition chain_attempts (e : ProxyError) : option Z :=
  match e with ChainExhausted _ attempts _ => Some attempts | _ => None end.

(** ** Constant-time comparison and UUID text *)

Definition constant_time_eq_bytes (left right : list Z) : bool :=
  let len := Nat.max (length left) (length right) in
  let diff := Z.lxor (Z.of_nat (length left)) (Z.of_nat (length right)) in
  let diff := foldl (fun diff i =>
      let a := default 0 (left !! i) in
      let b := default 0 (right !! i) in
      Z.lor diff (Z.lxor a b)) diff (seq 0 len) in
  diff =? 0.
Definition password_eq (left right : str) : bool := constant_time_eq_bytes left right.

Lemma constant_time_eq_bytes_spec l r : constant_time_eq_bytes l r = true <-> l = r.
Proof. exact (constant_time_eq_spec l r). Qed.

(** [&hex[a..b]] *)
Definition slice (a b : nat) (s : str) : str := take (b - a) (drop a s).
Definition format_uuid (b : list Z) : option str :=
  if negb (length b =? 16)%nat then None
  else
    let hex := flat_map fmt_02x b in
    Some (slice 0 8 hex ++ [45] ++ slice 8 12 hex ++ [45] ++ slice 12 16 hex ++ [45] ++
          slice 16 20 hex ++ [45] ++ slice 20 32 hex).

Example format_uuid_ex : format_uuid (map Z.of_nat (seq 1 16)) = Some (lit "01020304-0506-0708-090a-0b0c0d0e0f10").
Proof. reflexivity. Qed.

(** [chrono]'s order on dates: [date_gt a b] is [a > b]. *)
Class ChronoOrder (D : Chrono) := date_gt : NaiveDate -> NaiveDate -> bool.

Section Engine.
Context {N : Ipnet} {B : BookApi} {D : Chrono} {O : ChronoOrder D}.

Record AuthOk := mkAuthOk { ao_up_rate : Z; ao_down_rate : Z; ao_max_connections : Z }.

(** [snap] and [active_connections] *)
Record Engine := mkEngine { en_snap : Snapshot; en_active : gmap str Z }.

Definition engine_new : Engine := mkEngine Snapshot_empty ∅.
Definition engine_replace (e : Engine) (snap : Snapshot) : Engine := mkEngine snap (en_active e).
Definition engine_version (e : Engine) : Z := sn_version (en_snap e).
Definition engine_schema_version (e : Engine) : Z := sn_schema_version (en_snap e).
Definition engine_decide (e : Engine) (username host : str) : Decision := snapshot_decide (en_snap e) username host.
Definition engine_decide_with_sniff (e : Engine) (username requested_host : str) (sniffed_host : option str)
    : ResolvedDecision := decide_with_sniff (en_snap e) username requested_host sniffed_host.

(** The expiry check and the answer the three paths share; [today] is the local date. *)
Definition expired (today : NaiveDate) (u : User) : bool :=
  match us_expire u with Some exp => date_gt today exp | None => false end.
Definition auth_ok (u : User) : AuthOk := mkAuthOk (us_up_rate u) (us_down_rate u) (us_max_connections u).

(** [Engine::authenticate] *)
Definition authenticate (e : Engine) (today : NaiveDate) (username password : str) : result ProxyError AuthOk :=
  user ← ok_or (snapshot_user (en_snap e) username) AuthFailed;
  ensure (password_eq (us_password user) password) AuthFailed ;;
  ensure (negb (expired today user)) Expired ;;
  Ok (auth_ok user).

(** [Engine::authenticate_bound_identity] *)
Definition authenticate_bound_identity (e : Engine) (today : NaiveDate) (username : str) : result ProxyError AuthOk :=
  user ← ok_or (snapshot_user (en_snap e) username) AuthFailed;
  ensure (negb (expired today user)) Expired ;;
  Ok (auth_ok user).

Definition TUIC_TOKEN_LEN : nat := 32.

(** [Engine::authenticate_tuic]; [exporter] is the TLS keying-material exporter. *)
Definition authenticate_tuic (e : Engine) (today : NaiveDate) (uuid_bytes token : list Z)
    (exporter : list Z -> list Z -> nat -> option (list Z)) : result ProxyError (str * AuthOk) :=
  ensure (length token =? TUIC_TOKEN_LEN)%nat AuthFailed ;;
  uuid ← ok_or (format_uuid uuid_bytes) AuthFailed;
  '(username, user) ← ok_or (frontend_user (en_snap e) (lit "tuic") uuid) AuthFailed;
  password ← ok_or (us_frontends user !! lit "tuic" ≫= fc_password) AuthFailed;
  expected ← ok_or (exporter uuid_bytes password TUIC_TOKEN_LEN) AuthFailed;
  ensure (constant_time_eq_bytes expected token) AuthFailed ;;
  ensure (negb (expired today user)) Expired ;;
  Ok (username, auth_ok user).

(** ** Connection permits *)

Record ConnectionPermit := mkPermit { cp_username : str }.

(** [Engine::acquire_connection] *)
Definition acquire_connection (e : Engine) (username : str) (max_connections : Z)
    : result ProxyError (ConnectionPermit * Engine) :=
  let current := default 0 (en_active e !! username) in
  if (0 <? max_connections) && (max_connections <=? current)
  then Err (ConnectionLimitExceeded current max_connections)
  else Ok (mkPermit username, mkEngine (en_snap e) (<[username := wrap 64 (current + 1)]> (en_active e))).

(** [Drop for ConnectionPermit] *)
Definition drop_permit (e : Engine) (p : ConnectionPermit) : Engine :=
  match en_active e !! cp_username p with
  | None => e
  | Some count =>
      if 1 <? count then mkEngine (en_snap e) (<[cp_username p := count - 1]> (en_active e))
      else mkEngine (en_snap e) (delete (cp_username p) (en_active e))
  end.

(** What the tasks sharing the engine do to it. *)
Inductive engine_event :=
| EvAcquire (username : str) (max_connections : Z)
| EvDrop (i : nat)            (* the holder of the [i]-th live permit drops it *)
| EvReplace (snap : Snapshot).

(** The engine with the permits its tasks hold. *)
Definition pool : Type := Engine * list ConnectionPermit.
Definition engine_step (st : pool) (ev : engine_event) : pool :=
  let '(e, live) := st in
  match ev with
  | EvAcquire username max =>
      match acquire_connection e username max with
      | Ok (p, e) => (e, p :: live)
      | Err _ => st
      end
  | EvDrop i =>
      match live !! i with
      | Some p => (drop_permit e p, delete i live)
      | None => st
      end
  | EvReplace snap => (engine_replace e snap, live)
  end.
Definition engine_run (evs : list engine_event) : pool := foldl engine_step (engine_new, []) evs.

(** ** Permit accounting *)

Definition live_of (u : str) (live : list ConnectionPermit) : Z :=
  Z.of_nat (length (filter (fun p => cp_username p = u) live)).

(** The counter of a user is the number of their live permits; users without
    one have no entry. *)
Definition counted (st : pool) : Prop :=
  forall u, en_active (fst st) !! u =
    if decide (live_of u (snd st) = 0) then None else Some (live_of u (snd st)).

Lemma live_cons u p live : live_of u (p :: live) = (if decide (cp_username p = u) then 1 else 0) + live_of u live.
Proof. unfold live_of. rewrite filter_cons. case_decide; simpl; lia. Qed.
Lemma live_delete u live i p : live !! i = Some p ->
  live_of u live = (if decide (cp_username p = u) then 1 else 0) + live_of u (delete i live).
Proof. intros Hi. rewrite <- live_cons. unfold live_of. by rewrite (delete_Permutation _ _ _ Hi) at 1. Qed.
Lemma live_nonneg u live : 0 <= live_of u live.
Proof. unfold live_of. lia. Qed.
Lemma live_le u live : live_of u live <= Z.of_nat (length live).
Proof. unfold live_of. pose proof (length_filter (fun p => cp_username p = u) live). lia. Qed.

Lemma counted_current st u : counted st -> default 0 (en_active (fst st) !! u) = live_of u (snd st).
Proof. intros H. rewrite H. case_decide; simpl; lia. Qed.

Lemma acquire_counted e live username max p e' :
  counted (e, live) -> Z.of_nat (length live) < 2 ^ 64 - 1 ->
  acquire_connection e username max = Ok (p, e') -> counted (e', p :: live).
Proof.
  intros Hc Hl. unfold acquire_connection. case_match; [done|]. intros [= <- <-] u. cbn [fst snd en_active].
  rewrite live_cons. cbn [cp_username]. change (en_active e) with (en_active (fst (e, live))).
  rewrite (counted_current _ _ Hc). cbn [snd]. pose proof (live_nonneg username live). pose proof (live_le username live).
  rewrite wrap_fits by (unfold fits; lia).
  destruct (decide (username = u)) as [->|Hne].
  - rewrite lookup_insert_eq, decide_False by lia. f_equal. lia.
  - rewrite lookup_insert_ne by done. rewrite (Hc u). cbn [snd]. done.
Qed.
Lemma drop_counted e live i p :
  counted (e, live) -> live !! i = Some p -> counted (drop_permit e p, delete i live).
Proof.
  intros Hc Hi u. pose proof (fun v => live_delete v live i p Hi) as Hd. cbn [fst snd].
  pose proof (Hc (cp_username p)) as Hp. pose proof (Hd (cp_username p)) as Hdp. rewrite decide_True in Hdp by done.
  pose proof (live_nonneg (cp_username p) (delete i live)). cbn [fst snd] in Hp.
  rewrite decide_False in Hp by lia. unfold drop_permit. rewrite Hp.
  pose proof (Hc u) as Hu. cbn [fst snd] in Hu. specialize (Hd u). cbn [en_active].
  destruct (decide (cp_username p = u)) as [<-|Hne].
  - destruct (Z.ltb_spec 1 (live_of (cp_username p) live)); cbn [en_active].
    + rewrite lookup_insert_eq, decide_False by lia. f_equal. lia.
    + rewrite lookup_delete_eq, decide_True by lia. done.
  - replace (live_of u (delete i live)) with (live_of u live) by lia.
    destruct (1 <? live_of (cp_username p) live); cbn [en_active]; [by rewrite lookup_insert_ne|by rewrite lookup_delete_ne].
Qed.

Lemma engine_step_length st ev : (length (snd (engine_step st ev)) <= S (length (snd st)))%nat.
Proof.
  destruct st as [e live], ev as [u max|i|s]; cbn.
  - destruct (acquire_connection e u max) as [[p e']|err]; simpl; lia.
  - destruct (live !! i) eqn:E; simpl; [rewrite length_delete by eauto|]; lia.
  - lia.
Qed.
Lemma engine_step_counted st ev :
  counted st -> Z.of_nat (length (snd st)) < 2 ^ 64 - 1 -> counted (engine_step st ev).
Proof.
  destruct st as [e live], ev as [u max|i|s]; cbn; intros Hc Hl.
  - destruct (acquire_connection e u max) as [[p e']|err] eqn:E; [by eapply acquire_counted|done].
  - destruct (live !! i) eqn:E; [by apply drop_counted|done].
  - exact Hc.
Qed.

Lemma engine_run_snoc evs ev : engine_run (evs ++ [ev]) = engine_step (engine_run evs) ev.
Proof. unfold engine_run. by rewrite foldl_app. Qed.
Lemma engine_run_length evs : (length (snd (engine_run evs)) <= length evs)%nat.
Proof.
  induction evs as [|ev evs IH] using rev_ind; [done|]. rewrite engine_run_snoc, length_app.
  pose proof (engine_step_length (engine_run evs) ev). simpl. lia.
Qed.
Lemma engine_run_counted evs : Z.of_nat (length evs) < 2 ^ 64 -> counted (engine_run evs).
Proof.
  induction evs as [|ev evs IH] using rev_ind; intros Hl.
  - intros u. cbn. by rewrite lookup_empty.
  - rewrite engine_run_snoc. rewrite length_app in Hl. simpl in Hl. pose proof (engine_run_length evs).
    apply engine_step_counted; [apply IH; lia|lia].
Qed.

(** Every acquisition of [u] in the run is under a limit between 1 and [m]. *)
Definition limited (u : str) (m : Z) (evs : list engine_event) : Prop :=
  Forall (fun ev => match ev with EvAcquire v max => v = u -> 1 <= max <= m | _ => True end) evs.

Lemma engine_run_limited evs u m :
  0 <= m -> Z.of_nat (length evs) < 2 ^ 64 -> limited u m evs -> live_of u (snd (engine_run evs)) <= m.
Proof.
  intros Hm. induction evs as [|ev evs IH] using rev_ind; intros Hl Hlim; [exact Hm|].
  rewrite length_app in Hl. simpl in Hl. apply Forall_app in Hlim as [Hlim [Hev _]%Forall_cons].
  specialize (IH ltac:(lia) Hlim). pose proof (engine_run_counted evs ltac:(lia)) as Hc.
  rewrite engine_run_snoc. destruct (engine_run evs) as [e live] eqn:E. cbn [snd] in IH.
  destruct ev as [v max|i|s]; cbn [engine_step].
  - unfold acquire_connection. pose proof (counted_current _ v Hc) as Hcur. cbn [fst snd] in Hcur. rewrite Hcur.
    destruct ((0 <? max) && _) eqn:Eb; cbn [snd]; [exact IH|]. rewrite live_cons. cbn [cp_username]. destruct (decide (v = u)) as [->|]; [|lia].
    specialize (Hev eq_refl). apply andb_false_iff in Eb. rewrite Z.ltb_ge, Z.leb_gt in Eb. lia.
  - destruct (live !! i) as [p|] eqn:Ei; cbn [snd]; [|done]. pose proof (live_delete u live i p Ei). case_decide; lia.
  - done.
Qed.

(** C19: connection accounting is exact in every interleaving of acquisitions,
    drops and snapshot swaps: a user's counter is the number of their live
    permits and users without permits have no entry; an acquisition is refused,
    reporting that number, exactly when a positive limit is already reached;
    and a user acquired only under limits of at most [m] never holds more than
    [m] connections at once. *)
Theorem permit_accounting (evs : list engine_event) :
  Z.of_nat (length evs) < 2 ^ 64 ->
  let '(e, live) := engine_run evs in
  (forall u, en_active e !! u = if decide (live_of u live = 0) then None else Some (live_of u live)) /\
  (forall u max, match acquire_connection e u max with
                 | Err err => err = ConnectionLimitExceeded (live_of u live) max /\ 0 < max <= live_of u live
                 | Ok (p, _) => p = mkPermit u /\ (max <= 0 \/ live_of u live < max)
                 end) /\
  (forall u m, 0 <= m -> limited u m evs -> live_of u live <= m).
Proof.
  intros Hl. pose proof (engine_run_counted evs Hl) as Hc. pose proof (fun u m Hm => engine_run_limited evs u m Hm Hl) as Hlim.
  destruct (engine_run evs) as [e live]. split_and!; [exact Hc| |exact Hlim].
  intros u max. pose proof (counted_current _ u Hc) as Hcur. cbn [fst snd] in Hcur. unfold acquire_connection. rewrite Hcur.
  destruct ((0 <? max) && _) eqn:Eb.
  - bools. split; [done|lia].
  - apply andb_false_iff in Eb. rewrite Z.ltb_ge, Z.leb_gt in Eb. split; [done|lia].
Qed.

(** ** Authentication *)

Lemma fmt_02x_lower b : 0 <= b < 256 -> to_ascii_lowercase (fmt_02x b) = fmt_02x b.
Proof.
  intros Hb. pose proof (Z.mod_pos_bound b 16 ltac:(lia)). pose proof (Z.div_mod b 16 ltac:(lia)).
  assert (Hd : forall d, 0 <= d < 16 -> ascii_lower (digit_char d) = digit_char d).
  { intros d Hd. unfold ascii_lower, is_ascii_uppercase, digit_char. repeat case_match; bools; lia. }
  cbn. rewrite !Hd by lia. done.
Qed.
Lemma to_ascii_lowercase_app a b : to_ascii_lowercase (a ++ b) = to_ascii_lowercase a ++ to_ascii_lowercase b.
Proof. apply map_app. Qed.
Lemma slice_lower a b s : to_ascii_lowercase s = s -> to_ascii_lowercase (slice a b s) = slice a b s.
Proof. intros E. rewrite <- E at 2. unfold slice, to_ascii_lowercase. by rewrite skipn_map, firstn_map. Qed.
Lemma format_uuid_lower b s : Forall (fits 8) b -> format_uuid b = Some s -> to_ascii_lowercase s = s.
Proof.
  intros Hb. unfold format_uuid. case_match; [done|].
  assert (E : to_ascii_lowercase (flat_map fmt_02x b) = flat_map fmt_02x b).
  { clear H. induction Hb as [|x b Hx Hb IH]; [done|]. cbn [flat_map]. by rewrite to_ascii_lowercase_app, fmt_02x_lower, IH by (unfold fits in Hx; lia). }
  intros <-%(inj Some). rewrite !to_ascii_lowercase_app, !slice_lower by done. done.
Qed.

(** Who holds which credential, independently of the code's lookup order. *)
Definition password_holder (s : Snapshot) (password : str) (name : str) (u : User) : Prop :=
  sn_users s !! name = Some u /\ us_password u = password.
Definition tuic_holder (s : Snapshot) (uuid token : list Z) (exporter : list Z -> list Z -> nat -> option (list Z))
    (name : str) (u : User) : Prop :=
  sn_users s !! name = Some u /\ length token = TUIC_TOKEN_LEN /\
  exists c text password, us_frontends u !! lit "tuic" = Some c /\ format_uuid uuid = Some text /\
    cred_key c = Some text /\ fc_password c = Some password /\ exporter uuid password TUIC_TOKEN_LEN = Some token.

(** Password authentication is exact: it admits a user with their quota
    exactly when the snapshot's user of that name has that password and has not
    expired; only the holder of the password is told of an expiry; every other
    attempt gets the same refusal. *)
Theorem authenticate_exact (e : Engine) today name password :
  match authenticate e today name password with
  | Ok a => exists u, password_holder (en_snap e) password name u /\ expired today u = false /\ a = auth_ok u
  | Err Expired => exists u, password_holder (en_snap e) password name u /\ expired today u = true
  | Err err => err = AuthFailed /\ forall u, ~ password_holder (en_snap e) password name u
  end.
Proof.
  unfold authenticate, password_holder, snapshot_user, password_eq.
  destruct (sn_users (en_snap e) !! name) as [u|] eqn:Eu; cbn; [|split; [done|]; by intros ? [? _]].
  destruct (constant_time_eq_bytes (us_password u) password) eqn:Ep; cbn.
  - apply constant_time_eq_bytes_spec in Ep. destruct (expired today u) eqn:Ex; cbn; eauto.
  - split; [done|]. intros u' [[= <-] Hp]. apply constant_time_eq_bytes_spec in Hp. congruence.
Qed.

Lemma tuic_holder_lookup s uuid token exporter name u :
  snapshot_ok s -> Forall (fits 8) uuid ->
  tuic_holder s uuid token exporter name u <->
  length token = TUIC_TOKEN_LEN /\ exists text password, format_uuid uuid = Some text /\
    frontend_user s (lit "tuic") text = Some (name, u) /\
    us_frontends u !! lit "tuic" ≫= fc_password = Some password /\ exporter uuid password TUIC_TOKEN_LEN = Some token.
Proof.
  intros Hs Hb. unfold tuic_holder. split.
  - intros (Hu & Hl & c & text & pw & Hc & Ht & Hk & Hp & He). split; [done|]. exists text, pw. split_and!; try done.
    + apply frontend_user_spec; [done|]. split; [done|]. exists c. by rewrite (format_uuid_lower _ _ Hb Ht).
    + by rewrite Hc.
  - intros (Hl & text & pw & Ht & Hf & Hp & He). apply frontend_user_spec in Hf as (Hu & c & Hc & Hk); [|done].
    split_and!; try done. rewrite (format_uuid_lower _ _ Hb Ht) in Hk. exists c, text, pw. rewrite Hc in Hp. by split_and!.
Qed.

(** No user can be the holder: the lookups of the code decide it. *)
Ltac refused Hh :=
  split; [done|]; let H := fresh in intros ?name ?u H;
  apply Hh in H as (? & ? & ? & ? & ? & ? & ?); simplify_eq.

(** TUIC authentication is exact and fails closed on a validated snapshot:
    it admits the one user whose credential is the presented UUID exactly when
    the token is the 32-byte value the session's exporter derives from that
    user's TUIC password and the user has not expired; only the holder of a
    valid token is told of an expiry; every other attempt gets the same refusal. *)
Theorem authenticate_tuic_exact (e : Engine) today (uuid token : list Z) exporter :
  snapshot_ok (en_snap e) -> Forall (fits 8) uuid ->
  let holder := tuic_holder (en_snap e) uuid token exporter in
  match authenticate_tuic e today uuid token exporter with
  | Ok (name, a) => exists u, holder name u /\ expired today u = false /\ a = auth_ok u
  | Err Expired => exists name u, holder name u /\ expired today u = true
  | Err err => err = AuthFailed /\ forall name u, ~ holder name u
  end.
Proof.
  intros Hs Hb holder.
  assert (Hh : forall name u, holder name u <-> _) by (intros; by apply tuic_holder_lookup).
  unfold authenticate_tuic. destruct (Nat.eqb_spec (length token) TUIC_TOKEN_LEN) as [Hl|Hl]; cbn [mbind result_bind ok_or ensure]; [|by refused Hh].
  destruct (format_uuid uuid) as [text|] eqn:Et; cbn [mbind result_bind ok_or ensure]; [|by refused Hh].
  destruct (frontend_user (en_snap e) (lit "tuic") text) as [[name u]|] eqn:Ef; cbn [mbind result_bind ok_or ensure]; [|by refused Hh].
  destruct (us_frontends u !! lit "tuic" ≫= fc_password) as [pw|] eqn:Ep; cbn [mbind result_bind ok_or ensure]; [|by refused Hh].
  destruct (exporter uuid pw TUIC_TOKEN_LEN) as [expected|] eqn:Ee; cbn [mbind result_bind ok_or ensure]; [|by refused Hh].
  destruct (constant_time_eq_bytes expected token) eqn:Ec; cbn [mbind result_bind ok_or ensure].
  - apply constant_time_eq_bytes_spec in Ec as ->.
    assert (holder name u) by (apply Hh; eauto 10). destruct (expired today u) eqn:Ex; cbn; eauto.
  - refused Hh. by rewrite (proj2 (constant_time_eq_bytes_spec expected expected) eq_refl) in Ec.
Qed.

End Engine.

(** ** Witnesses *)

#[local] Existing Instances CidrNet.inst CidrNet.cidr_laws Book_api.
#[local] Instance day_dates : Chrono := {|
  NaiveDate := Z;
  parse_date := from_str_radix 10 32;
  format_date := fmt_dec
|}.
#[local] Instance day_order : ChronoOrder day_dates := fun a b => b <? a.

Definition engine_raw : RawSnapshot := {|
  rs_schema_version := 1;
  rs_version := 7;
  rs_users :=
    [(lit "alice", mkRawUser (lit "login-pw") (Some (lit "20300")) 100 200 2 (lit "g")
       [(lit "tuic", mkRawFrontendCred (Some (lit "01020304-0506-0708-090A-0B0C0D0E0F10")) (Some (lit "tuic-pw")))])];
  rs_policies := [(lit "g", mkRawPolicy [] None)];
  rs_egresses := [];
  rs_node_overrides := []
|}.
Definition engine_demo : Engine :=
  mkEngine (unwrap_or (compile_checked engine_raw (lit "n") None (fun _ _ => 0)) Snapshot_empty) ∅.
Lemma engine_demo_ok : snapshot_ok (en_snap engine_demo).
Proof.
  apply (compile_checked_ok engine_raw (lit "n") None (fun _ _ => 0)).
  - split; repeat constructor; try (by rewrite list_elem_of_In; intros []).
  - apply Ok_unwrap_or. vm_compute. reflexivity.
Qed.

(** Two live permits under a limit of two: the third acquisition is refused. *)
Lemma permit_accounting_witness :
  let a := lit "alice" in
  let evs := [EvAcquire a 2; EvAcquire (lit "bob") 0; EvAcquire a 2; EvReplace Snapshot_empty; EvAcquire a 2; EvDrop 1] in
  live_of a (snd (engine_run evs)) <= 2.
Proof.
  intros a evs. pose proof (permit_accounting evs ltac:(vm_compute; reflexivity)) as H.
  destruct (engine_run evs) as [e live]. destruct H as (_ & _ & H). apply H; [lia|].
  unfold limited, evs. rewrite !Forall_cons. split_and!; try done; lia.
Defined.

(** Alice's UUID and the exporter's token admit her until her last day. *)
Definition demo_exporter (label context : list Z) (len : nat) : option (list Z) :=
  Some (map (fun i => Z.lxor (default 0 (label !! (i mod 16)%nat)) (default 0 (context !! (i mod 7)%nat))) (seq 0 len)).
Definition demo_uuid : list Z := map Z.of_nat (seq 1 16).
Definition demo_token : list Z := default [] (demo_exporter demo_uuid (lit "tuic-pw") 32).

Lemma authenticate_tuic_exact_witness :
  exists u : User, tuic_holder (en_snap engine_demo) demo_uuid demo_token demo_exporter (lit "alice") u /\ expired 20300 u = false.
Proof.
  pose proof (authenticate_tuic_exact engine_demo 20300 demo_uuid demo_token demo_exporter engine_demo_ok
    ltac:(apply (bool_decide_unpack _); vm_compute; exact I)) as H.
  assert (E : authenticate_tuic engine_demo 20300 demo_uuid demo_token demo_exporter =
    Ok (lit "alice", mkAuthOk 100 200 2)) by (vm_compute; reflexivity).
  rewrite E in H. destruct H as (u & Hh & Hx & _). exists u. by split.
Defined.
