(* ===== verification/ReverseEdge.v ===== *)
(** * ReverseEdge: the edge's side of reverse hops (src/src/reverse/edge.rs)

    Hops register over authenticated connections; the edge opens a stream per
    tunnel or UDP association on the connection registered under a hop id.
    [edge_step] is one step of one of its tasks between two awaits or locks: a
    connection's handler, an opening of a tunnel, the end of one. Steps of all
    tasks interleave freely; the events carry what the hops and QUIC decide. *)

From Stdlib Require Import ZArith Lia String.
From stdpp Require Import prelude strings list gmap.
From S2P Require Import Prelude RustStr Net NetProps RustFmt Util Frame ReverseFrame ReverseUdp Model Engine.

Inductive DuplicatePolicy := RejectNew | ReplaceOld.
(** [DuplicatePolicy::parse] *)
Definition duplicate_parse (value : str) : option DuplicatePolicy :=
  let v := to_ascii_lowercase (trim value) in
  if str_eqb v (lit "reject") then Some RejectNew
  else if str_eqb v (lit "replace") then Some ReplaceOld
  else None.
Definition UNAUTHORIZED : str := lit "unauthorized".
Definition DUPLICATE_HOP_ID : str := lit "duplicate_hop_id".
Definition BAD_REQUEST : str := lit "bad_request".

(** The part of [ReverseListenerConfig] the manager keeps. *)
Record ReverseListenerConfig := mkListenerConfig {
  lc_tokens : list str; lc_duplicate : DuplicatePolicy; lc_max_streams_per_hop : Z; lc_edge_id : str
}.

(** [HopSession]; the semaphore, the gauge and the UDP state are shared by its
    clones and belong to the connection, which is named by its stable id. *)
Record HopSession := mkHopSession { hs_stable_id : Z; hs_edge_id : option str; hs_remote : SocketAddr; hs_supports_udp : bool }.
(** Where a registered connection's handler is. *)
Inductive HandlerPhase := Acking | Serving | Ended.
#[global] Instance HandlerPhase_eq_dec : EqDecision HandlerPhase.
Proof. solve_decision. Defined.
(** A connection whose registration was accepted: the request, its handler,
    whether the edge closed it, and the shared parts of its session. *)
Record ConnState := mkConnState {
  cs_request : RegisterRequest; cs_phase : HandlerPhase; cs_closed : bool; cs_permits : Z; cs_active : Z; cs_udp : EdgeUdpConn
}.
(** An opening in progress, or an open tunnel or association; it holds a permit
    of its connection until it ends. *)
Inductive Opening := OpeningTcp (host : str) (port : Z) (tunnel : str) | OpeningUdp (sid : Z) (assoc : str) | OpenTcp | OpenUdp (sid : Z).
Record Held := mkHeld { hd_hop : str; hd_conn : Z; hd_what : Opening }.

(** [ReverseHopManager] with its connections and openings *)
Record Manager := mkManager {
  mg_registry : gmap (list Z) HopSession; mg_tokens : list str; mg_duplicate : DuplicatePolicy; mg_max_streams : Z; mg_edge_id : str;
  mg_tunnel_seq : Z; mg_conns : gmap Z ConnState; mg_held : gmap Z Held
}.
(** [spawn]: its checks, and the manager *)
Definition manager_spawn (c : ReverseListenerConfig) : option Manager :=
  if is_empty (lc_tokens c) || existsb (fun t => is_empty (trim t)) (lc_tokens c) then None
  else Some (mkManager ∅ (lc_tokens c) (lc_duplicate c) (Z.max (lc_max_streams_per_hop c) 1) (lc_edge_id c) 1 ∅ ∅).

Definition token_accepted (m : Manager) (token : str) : bool := existsb (fun t => constant_time_eq t token) (mg_tokens m).
Definition with_registry (r : gmap (list Z) HopSession) (m : Manager) : Manager :=
  mkManager r (mg_tokens m) (mg_duplicate m) (mg_max_streams m) (mg_edge_id m) (mg_tunnel_seq m) (mg_conns m) (mg_held m).
Definition with_conns (c : gmap Z ConnState) (m : Manager) : Manager :=
  mkManager (mg_registry m) (mg_tokens m) (mg_duplicate m) (mg_max_streams m) (mg_edge_id m) (mg_tunnel_seq m) c (mg_held m).
Definition with_held (h : gmap Z Held) (m : Manager) : Manager :=
  mkManager (mg_registry m) (mg_tokens m) (mg_duplicate m) (mg_max_streams m) (mg_edge_id m) (mg_tunnel_seq m) (mg_conns m) h.
Definition with_seq (n : Z) (m : Manager) : Manager :=
  mkManager (mg_registry m) (mg_tokens m) (mg_duplicate m) (mg_max_streams m) (mg_edge_id m) n (mg_conns m) (mg_held m).
Definition on_conn (f : ConnState -> ConnState) (c : Z) (m : Manager) : Manager := with_conns (alter f c (mg_conns m)) m.
Definition to_phase (p : HandlerPhase) (s : ConnState) : ConnState := mkConnState (cs_request s) p (cs_closed s) (cs_permits s) (cs_active s) (cs_udp s).
Definition closed (s : ConnState) : ConnState := mkConnState (cs_request s) (cs_phase s) true (cs_permits s) (cs_active s) (cs_udp s).
Definition add_permits (n : Z) (s : ConnState) : ConnState :=
  mkConnState (cs_request s) (cs_phase s) (cs_closed s) (cs_permits s + n) (cs_active s) (cs_udp s).
Definition add_active (n : Z) (s : ConnState) : ConnState :=
  mkConnState (cs_request s) (cs_phase s) (cs_closed s) (cs_permits s) (cs_active s + n) (cs_udp s).
Definition set_udp (u : EdgeUdpConn) (s : ConnState) : ConnState :=
  mkConnState (cs_request s) (cs_phase s) (cs_closed s) (cs_permits s) (cs_active s) u.

Inductive RegisterOutcome := Accepted | Duplicate.
(** [register]: a replaced connection is closed. *)
Definition register (m : Manager) (request : RegisterRequest) (conn : Z) (remote : SocketAddr) : RegisterOutcome * Manager :=
  let session := mkHopSession conn (edge_id request) remote (supports_udp request) in
  let accept m := (Accepted, with_registry (<[hop_id request := session]> (mg_registry m)) m) in
  match mg_registry m !! hop_id request with
  | None => accept m
  | Some old =>
      match mg_duplicate m with
      | RejectNew => (Duplicate, m)
      | ReplaceOld => accept (on_conn closed (hs_stable_id old) m)
      end
  end.
(** [deregister] *)
Definition deregister (hop : str) (conn : Z) (m : Manager) : Manager :=
  match mg_registry m !! hop with
  | Some s => if hs_stable_id s =? conn then with_registry (delete hop (mg_registry m)) m else m
  | None => m
  end.

Inductive Event :=
| Connected (conn : Z) (remote : SocketAddr) (frame : result IoError (list str))
| Acknowledged (conn : Z) (written : bool)
| ConnectionClosed (conn : Z)
| Datagram_ (conn : Z) (bytes : list Z)
| OpenAsked (op : Z) (hop host : str) (port : Z)
| OpenUdpAsked (op : Z) (hop : str)
| OpenAnswered (op : Z) (opened written : bool) (reply : option (result IoError (list str)))
| Dropped (op : Z).
Inductive Output :=
| Rejected (conn : Z) (reply : Reply)
| AckSent (conn : Z) (hop : str)
| Wrote (op conn : Z) (frame : list Z)
| Opened (op : Z) (hop : str)
| OpenFailed (op : Z) (e : ProxyError).

(** Taking and giving back a permit of a connection *)
Definition permits_of (m : Manager) (conn : Z) : Z := match mg_conns m !! conn with Some s => cs_permits s | None => 0 end.
Definition hold_permit (op : Z) (h : Held) (m : Manager) : Manager :=
  with_held (<[op := h]> (mg_held m)) (on_conn (add_permits (-1)) (hd_conn h) m).
Definition release_permit (op : Z) (h : Held) (m : Manager) : Manager :=
  with_held (delete op (mg_held m)) (on_conn (add_permits 1) (hd_conn h) m).
(** The identifier of an opening *)
Definition opening_id (m : Manager) (udp : bool) : str :=
  mg_edge_id m ++ lit "-" ++ (if udp then lit "u" else []) ++ fmt_dec (mg_tunnel_seq m).

(** [handle_connection], up to the acknowledgement; only an accepted connection
    stays. *)
Definition on_connected (m : Manager) (conn : Z) (remote : SocketAddr) (frame : result IoError (list str)) : Manager * list Output :=
  match frame with
  | Err _ => (m, [])
  | Ok lines =>
      match register_parse lines with
      | Err _ => (m, [Rejected conn (ReplyErr BAD_REQUEST)])
      | Ok request =>
          if negb (token_accepted m (token request)) then (m, [Rejected conn (ReplyErr UNAUTHORIZED)])
          else
            match register m request conn remote with
            | (Duplicate, m) => (m, [Rejected conn (ReplyErr DUPLICATE_HOP_ID)])
            | (Accepted, m) =>
                (with_conns (<[conn := mkConnState request Acking false (mg_max_streams m) 0 EdgeUdpConn_default]> (mg_conns m)) m, [])
            end
      end
  end.
(** [open], up to its first await *)
Definition on_open (m : Manager) (op : Z) (hop host : str) (port : Z) : Manager * list Output :=
  match mg_registry m !! hop with
  | None => (m, [OpenFailed op (ReverseUnavailable (lit "no authenticated reverse session"))])
  | Some s =>
      if permits_of m (hs_stable_id s) <=? 0 then (m, [OpenFailed op (ReverseHopConnect (lit "at per-hop stream capacity"))])
      else
      let tunnel := opening_id m false in
      let m := with_seq (wrap 64 (mg_tunnel_seq m + 1)) m in
      (hold_permit op (mkHeld hop (hs_stable_id s) (OpeningTcp host port tunnel)) m, [])
  end.
(** [open_udp], up to its first await *)
Definition on_open_udp (m : Manager) (op : Z) (hop : str) : option (Manager * list Output) :=
  match mg_registry m !! hop with
  | None => Some (m, [OpenFailed op (ReverseUnavailable (lit "no authenticated reverse session"))])
  | Some s =>
      if negb (hs_supports_udp s) then Some (m, [OpenFailed op (ReverseHopConnect (lit "does not advertise udp support"))])
      else if permits_of m (hs_stable_id s) <=? 0 then Some (m, [OpenFailed op (ReverseHopConnect (lit "at per-hop session capacity"))])
      else
        c ← mg_conns m !! hs_stable_id s;
        '(sid, udp) ← next_session_id (cs_udp c);
        let m := on_conn (set_udp udp) (hs_stable_id s) m in
        let assoc := opening_id m true in
        let m := with_seq (wrap 64 (mg_tunnel_seq m + 1)) m in
        Some (hold_permit op (mkHeld hop (hs_stable_id s) (OpeningUdp sid assoc)) m, [])
  end.
(** The rest of [open] and [open_udp]: the stream, the request, the reply
    ([None] after the time-out). *)
Definition request_frame (w : Opening) : list Z :=
  match w with
  | OpeningTcp host port tunnel => tunnel_encode (mkTunnel host port (Some tunnel))
  | OpeningUdp sid assoc => associate_encode (mkAssociate sid (Some assoc))
  | _ => []
  end.
Definition on_answered (m : Manager) (op : Z) (h : Held) (opened written : bool) (reply : option (result IoError (list str))) :
    Manager * list Output :=
  let failed e out := (release_permit op h m, out ++ [OpenFailed op e]) in
  if negb opened then failed (ReverseOpen (lit "open stream")) []
  else if negb written then failed (ReverseOpen (lit "send request")) []
  else
  let sent := [Wrote op (hd_conn h) (request_frame (hd_what h))] in
  match reply with
  | None => failed (ReverseOpen (lit "reply timed out")) sent
  | Some (Err _) => failed (ReverseOpen (lit "read reply")) sent
  | Some (Ok lines) =>
      match reply_parse lines with
      | Err _ => failed (ReverseOpen (lit "malformed reply")) sent
      | Ok (ReplyErr code) => failed (ReverseHopConnect code) sent
      | Ok ReplyOk =>
          match hd_what h with
          | OpeningTcp _ _ _ =>
              (with_held (<[op := mkHeld (hd_hop h) (hd_conn h) OpenTcp]> (mg_held m)) (on_conn (add_active 1) (hd_conn h) m),
               sent ++ [Opened op (hd_hop h)])
          | OpeningUdp sid _ =>
              (with_held (<[op := mkHeld (hd_hop h) (hd_conn h) (OpenUdp sid)]> (mg_held m))
                 (on_conn (fun s => set_udp (ReverseUdp.register sid (cs_udp s)) s) (hd_conn h) m),
               sent ++ [Opened op (hd_hop h)])
          | _ => (m, [])
          end
      end
  end.
(** A tunnel, an association or an unfinished opening is dropped. *)
Definition on_dropped (m : Manager) (op : Z) (h : Held) : Manager :=
  release_permit op h
    match hd_what h with
    | OpenTcp => on_conn (add_active (-1)) (hd_conn h) m
    | OpenUdp sid => on_conn (fun s => set_udp (ReverseUdp.remove sid (cs_udp s)) s) (hd_conn h) m
    | _ => m
    end.
Definition pending (w : Opening) : bool := match w with OpeningTcp _ _ _ | OpeningUdp _ _ => true | _ => false end.

Definition edge_step (m : Manager) (e : Event) : option (Manager * list Output) :=
  match e with
  | Connected conn remote frame =>
      match mg_conns m !! conn with Some _ => None | None => Some (on_connected m conn remote frame) end
  | Acknowledged conn written =>
      match mg_conns m !! conn with
      | Some s =>
          match cs_phase s with
          | Acking =>
              if written then Some (on_conn (to_phase Serving) conn m, [AckSent conn (hop_id (cs_request s))])
              else Some (on_conn (fun s => to_phase Ended (closed s)) conn (deregister (hop_id (cs_request s)) conn m), [])
          | _ => None
          end
      | None => None
      end
  | ConnectionClosed conn =>
      match mg_conns m !! conn with
      | Some s =>
          match cs_phase s with
          | Serving => Some (on_conn (to_phase Ended) conn (deregister (hop_id (cs_request s)) conn m), [])
          | _ => None
          end
      | None => None
      end
  | Datagram_ conn bytes =>
      match mg_conns m !! conn with
      | Some s =>
          match cs_phase s with
          | Serving =>
              if supports_udp (cs_request s) then Some (on_conn (fun s => set_udp (edge_demux bytes (cs_udp s)) s) conn m, []) else None
          | _ => None
          end
      | None => None
      end
  | OpenAsked op hop host port => match mg_held m !! op with Some _ => None | None => Some (on_open m op hop host port) end
  | OpenUdpAsked op hop => match mg_held m !! op with Some _ => None | None => on_open_udp m op hop end
  | OpenAnswered op opened written reply =>
      match mg_held m !! op with
      | Some h => if pending (hd_what h) then Some (on_answered m op h opened written reply) else None
      | None => None
      end
  | Dropped op => match mg_held m !! op with Some h => Some (on_dropped m op h, []) | None => None end
  end.
Fixpoint edge_run (m : Manager) (es : list Event) : option (Manager * list Output) :=
  match es with
  | [] => Some (m, [])
  | e :: es => '(m, out) ← edge_step m e; '(m, outs) ← edge_run m es; Some (m, out ++ outs)
  end.

(** * What the edge guarantees of reverse hops

    Only authenticated hops are used, each under its own id; permits and gauges
    account for exactly the openings there are; and the edge writes to a hop
    only what was asked of it. *)

Definition on (conn : Z) (h : Held) : bool := hd_conn h =? conn.
Definition live_tunnel (conn : Z) (h : Held) : bool := (hd_conn h =? conn) && match hd_what h with OpenTcp => true | _ => false end.
Definition needs_udp (w : Opening) : bool := match w with OpeningUdp _ _ | OpenUdp _ => true | _ => false end.

(** ** The invariant *)

(** The connection presented an accepted token, in this registration. *)
Definition authenticated (tokens : list str) (es : list Event) (conn : Z) (request : RegisterRequest) : Prop :=
  exists remote lines, Connected conn remote (Ok lines) ∈ es /\ register_parse lines = Ok request /\ token request ∈ tokens.
(** What was asked for [op], and what an opening of it writes. *)
Definition asked_for (es : list Event) (op : Z) (hop : str) (w : Opening) : Prop :=
  match w with
  | OpeningTcp host port _ => OpenAsked op hop host port ∈ es
  | OpeningUdp _ _ => OpenUdpAsked op hop ∈ es
  | OpenTcp => exists host port, OpenAsked op hop host port ∈ es
  | OpenUdp _ => OpenUdpAsked op hop ∈ es
  end.
Definition edge_output_ok (es : list Event) (m : Manager) (out : Output) : Prop :=
  match out with
  | Wrote op conn frame =>
      exists c w, mg_conns m !! conn = Some c /\ asked_for es op (hop_id (cs_request c)) w /\ pending w = true /\ frame = request_frame w
  | Opened op hop =>
      exists opened written lines, OpenAnswered op opened written (Some (Ok lines)) ∈ es /\ reply_parse lines = Ok ReplyOk
  | AckSent conn hop => exists c, mg_conns m !! conn = Some c /\ hop_id (cs_request c) = hop
  | Rejected _ _ | OpenFailed _ _ => True
  end.
Record edge_inv (tokens : list str) (limit : Z) (es : list Event) (outs : list Output) (m : Manager) : Prop := {
  ei_tokens : mg_tokens m = tokens;
  ei_limit : mg_max_streams m = limit;
  ei_registry : forall hop s, mg_registry m !! hop = Some s ->
    exists c, mg_conns m !! hs_stable_id s = Some c /\ hop_id (cs_request c) = hop /\
      hs_supports_udp s = supports_udp (cs_request c) /\ cs_phase c <> Ended;
  ei_auth : forall conn c, mg_conns m !! conn = Some c -> authenticated tokens es conn (cs_request c);
  ei_permits : forall conn c, mg_conns m !! conn = Some c -> 0 <= cs_permits c /\ cs_permits c + count (on conn) (mg_held m) = limit;
  ei_active : forall conn c, mg_conns m !! conn = Some c -> cs_active c = count (live_tunnel conn) (mg_held m);
  ei_counter : forall conn c, mg_conns m !! conn = Some c -> fits 32 (eu_seq (cs_udp c));
  ei_held : forall op h, mg_held m !! op = Some h ->
    asked_for es op (hd_hop h) (hd_what h) /\
    exists c, mg_conns m !! hd_conn h = Some c /\ hop_id (cs_request c) = hd_hop h /\ (needs_udp (hd_what h) = true -> supports_udp (cs_request c) = true);
  ei_outputs : Forall (edge_output_ok es m) outs;
}.

Lemma asked_for_mono es e op hop w : asked_for es op hop w -> asked_for (es ++ [e]) op hop w.
Proof. destruct w; cbn; set_solver. Qed.
Lemma authenticated_mono tokens es e conn r : authenticated tokens es conn r -> authenticated tokens (es ++ [e]) conn r.
Proof. intros (x & l & ? & ?). exists x, l. split; [set_solver|done]. Qed.
(** Requests of known connections do not change. *)
Definition keeps (m m' : Manager) : Prop :=
  forall conn c, mg_conns m !! conn = Some c -> exists c', mg_conns m' !! conn = Some c' /\ cs_request c' = cs_request c.
Lemma edge_output_keeps es m m' out : keeps m m' -> edge_output_ok es m out -> edge_output_ok es m' out.
Proof.
  intros Hk. destruct out as [? ?|conn hop|op conn frame|op hop|? ?]; cbn; try done.
  - intros (c & Hc & <-). destruct (Hk _ _ Hc) as (c' & ? & E). exists c'. by rewrite E.
  - intros (c & w & Hc & Ha & Hw). destruct (Hk _ _ Hc) as (c' & ? & E). exists c', w. by rewrite E.
Qed.
Lemma edge_output_mono es e m out : edge_output_ok es m out -> edge_output_ok (es ++ [e]) m out.
Proof.
  destruct out as [? ?|conn hop|op conn frame|op hop|? ?]; cbn; try done.
  - intros (c & w & Hc & Ha & Hw). exists c, w. split; [done|]. split; [by apply asked_for_mono|done].
  - intros (o & w & l & ? & ?). exists o, w, l. split; [set_solver|done].
Qed.

Section Inv.
Context (tokens : list str) (limit : Z).
Abbreviation inv := (edge_inv tokens limit).

Lemma edge_inv_event es outs m e : inv es outs m -> inv (es ++ [e]) outs m.
Proof.
  intros [Ht Hl Hr Ha Hp Hac Hc Hh Ho]. split; try done.
  - intros conn c H. by apply authenticated_mono, Ha.
  - intros op h H. destruct (Hh op h H) as [H1 H2]. split; [by apply asked_for_mono|done].
  - eapply Forall_impl; [exact Ho|]. intros out. apply edge_output_mono.
Qed.
Lemma edge_inv_output es outs m out : inv es outs m -> Forall (edge_output_ok es m) out -> inv es (outs ++ out) m.
Proof. intros [Ht Hl Hr Ha Hp Hac Hc Hh Ho] H. split; try done. by apply Forall_app. Qed.
Lemma edge_inv_seq es outs m n : inv es outs m -> inv es outs (with_seq n m).
Proof. intros [Ht Hl Hr Ha Hp Hac Hc Hh Ho]. by split. Qed.
(** Changes of one connection that leave its request and accounts alone. *)
Lemma on_conn_lookup f conn m conn' :
  mg_conns (on_conn f conn m) !! conn' = if decide (conn = conn') then f <$> mg_conns m !! conn' else mg_conns m !! conn'.
Proof. unfold on_conn. cbn. destruct (decide (conn = conn')) as [->|]; [by rewrite lookup_alter_eq|by rewrite lookup_alter_ne]. Qed.
Lemma on_conn_keeps f conn m : (forall s, cs_request (f s) = cs_request s) -> keeps m (on_conn f conn m).
Proof. intros Hf c s H. rewrite on_conn_lookup, H. case_decide; eexists; split; try done; cbn; auto. Qed.
Lemma edge_inv_conn es outs m f conn :
  inv es outs m ->
  (forall s, cs_request (f s) = cs_request s /\ cs_permits (f s) = cs_permits s /\ cs_active (f s) = cs_active s) ->
  (forall s, fits 32 (eu_seq (cs_udp s)) -> fits 32 (eu_seq (cs_udp (f s)))) ->
  (forall s hop r, mg_conns m !! conn = Some s -> mg_registry m !! hop = Some r -> hs_stable_id r = conn -> cs_phase (f s) <> Ended) ->
  inv es outs (on_conn f conn m).
Proof.
  intros [Ht Hl Hr Ha Hp Hac Hc Hh Ho] Hf Hu Hph.
  assert (Hk : keeps m (on_conn f conn m)) by (apply on_conn_keeps; intros s; apply Hf).
  assert (Hget : forall i c, mg_conns (on_conn f conn m) !! i = Some c -> exists c0, mg_conns m !! i = Some c0 /\
    cs_request c = cs_request c0 /\ cs_permits c = cs_permits c0 /\ cs_active c = cs_active c0 /\
    (fits 32 (eu_seq (cs_udp c0)) -> fits 32 (eu_seq (cs_udp c)))).
  { intros i c H. rewrite on_conn_lookup in H. case_decide; [|by exists c; split_and!]. destruct (mg_conns m !! i) as [c0|]; [|done].
    injection H as <-. destruct (Hf c0) as (? & ? & ?). exists c0. split_and!; auto. }
  split; try done.
  - intros hop s H. destruct (Hr hop s H) as (c & Hcs & E1 & E2 & E3). rewrite on_conn_lookup. rewrite Hcs. case_decide as Hd; [|eauto].
    exists (f c). destruct (Hf c) as (F1 & _). rewrite F1. split_and!; try done. subst conn. by eapply Hph.
  - intros i c H. destruct (Hget i c H) as (c0 & H0 & -> & _). by apply Ha.
  - intros i c H. destruct (Hget i c H) as (c0 & H0 & _ & -> & _). by apply Hp.
  - intros i c H. destruct (Hget i c H) as (c0 & H0 & _ & _ & -> & _). by apply Hac.
  - intros i c H. destruct (Hget i c H) as (c0 & H0 & _ & _ & _ & HH). by eapply HH, Hc.
  - intros op h H. destruct (Hh op h H) as (H1 & c & H2 & H3 & H4). split; [done|]. destruct (Hk _ _ H2) as (c' & ? & E). exists c'. by rewrite E.
  - eapply Forall_impl; [exact Ho|]. intros out. by apply edge_output_keeps.
Qed.
Lemma edge_inv_registry es outs m r :
  inv es outs m -> (forall hop s, r !! hop = Some s -> mg_registry m !! hop = Some s) -> inv es outs (with_registry r m).
Proof. intros [Ht Hl Hr Ha Hp Hac Hc Hh Ho] H. split; try done. intros hop s Hs. by apply Hr, H. Qed.
Lemma deregister_inv es outs m hop conn : inv es outs m -> inv es outs (deregister hop conn m).
Proof.
  intros I. unfold deregister. repeat case_match; try done. apply edge_inv_registry; [done|]. intros hop' x Hx.
  by apply lookup_delete_Some in Hx as [_ Hx].
Qed.
(** After deregistering, no entry names a connection whose request is for [hop]. *)
Lemma deregister_gone es outs m hop conn h r c :
  inv es outs m -> mg_conns m !! conn = Some c -> hop_id (cs_request c) = hop ->
  mg_registry (deregister hop conn m) !! h = Some r -> hs_stable_id r <> conn.
Proof.
  intros I Hc Hh Hr E. assert (Hr' : mg_registry m !! h = Some r).
  { unfold deregister in Hr. repeat case_match; try done. cbn in Hr. by apply lookup_delete_Some in Hr as [_ Hr]. }
  destruct (ei_registry _ _ _ _ _ I h r Hr') as (c' & Hc' & Hh' & _). rewrite E, Hc in Hc'. injection Hc' as <-.
  rewrite Hh in Hh'. subst h. unfold deregister in Hr. rewrite Hr', E, Z.eqb_refl in Hr. cbn in Hr. by rewrite lookup_delete_eq in Hr.
Qed.

(** A change of the openings with the accounts of their connection. *)
Lemma edge_inv_accounts es outs m g conn held' dp da :
  inv es outs m ->
  (forall s, cs_request (g s) = cs_request s /\ cs_phase (g s) = cs_phase s /\ cs_permits (g s) = cs_permits s + dp /\
             cs_active (g s) = cs_active s + da /\ (fits 32 (eu_seq (cs_udp s)) -> fits 32 (eu_seq (cs_udp (g s))))) ->
  (forall c, mg_conns m !! conn = Some c -> 0 <= cs_permits c + dp) ->
  (forall i, count (on i) held' = count (on i) (mg_held m) - if conn =? i then dp else 0) ->
  (forall i, count (live_tunnel i) held' = count (live_tunnel i) (mg_held m) + if conn =? i then da else 0) ->
  (forall op h, held' !! op = Some h -> asked_for es op (hd_hop h) (hd_what h) /\
    exists c, mg_conns m !! hd_conn h = Some c /\ hop_id (cs_request c) = hd_hop h /\ (needs_udp (hd_what h) = true -> supports_udp (cs_request c) = true)) ->
  inv es outs (with_held held' (on_conn g conn m)).
Proof.
  intros [Ht Hl Hr Ha Hp Hac Hc Hh Ho] Hg Hpos Hon Hlive Hheld.
  assert (Hk : keeps m (with_held held' (on_conn g conn m))) by (apply (on_conn_keeps g conn m); intros s; apply Hg).
  assert (Hget : forall i c, mg_conns (with_held held' (on_conn g conn m)) !! i = Some c -> exists c0, mg_conns m !! i = Some c0 /\
    cs_request c = cs_request c0 /\ cs_permits c = cs_permits c0 + (if conn =? i then dp else 0) /\
    cs_active c = cs_active c0 + (if conn =? i then da else 0) /\ (fits 32 (eu_seq (cs_udp c0)) -> fits 32 (eu_seq (cs_udp c)))).
  { intros i c H. change (mg_conns (with_held held' (on_conn g conn m))) with (mg_conns (on_conn g conn m)) in H. rewrite on_conn_lookup in H.
    destruct (decide (conn = i)) as [->|Hne].
    - destruct (mg_conns m !! i) as [c0|]; [|done]. injection H as <-. destruct (Hg c0) as (? & ? & ? & ? & ?). exists c0. rewrite Z.eqb_refl. by split_and!.
    - exists c. rewrite (proj2 (Z.eqb_neq conn i) Hne). split_and!; try done; lia. }
  split; try done.
  - intros hop s H. destruct (Hr hop s H) as (c & Hcs & E1 & E2 & E3). destruct (Hk _ _ Hcs) as (c' & Hc' & E). exists c'. rewrite E. split_and!; try done.
    change (mg_conns (with_held held' (on_conn g conn m))) with (mg_conns (on_conn g conn m)) in Hc'. rewrite on_conn_lookup, Hcs in Hc'.
    case_decide; [|congruence]. injection Hc' as <-. destruct (Hg c) as (_ & F & _). congruence.
  - intros i c H. destruct (Hget i c H) as (c0 & H0 & -> & _). by apply Ha.
  - intros i c H. destruct (Hget i c H) as (c0 & H0 & _ & -> & _). destruct (Hp i c0 H0). cbn. rewrite Hon. specialize (Hpos c0).
    destruct (Z.eqb_spec conn i) as [->|]; [specialize (Hpos H0)|]; lia.
  - intros i c H. destruct (Hget i c H) as (c0 & H0 & _ & _ & -> & _). cbn. rewrite Hlive, (Hac i c0 H0). done.
  - intros i c H. destruct (Hget i c H) as (c0 & H0 & _ & _ & _ & HH). by eapply HH, Hc.
  - intros op h H. destruct (Hheld op h H) as (H1 & c & H2 & H3 & H4). split; [done|]. destruct (Hk _ _ H2) as (c' & ? & E). exists c'. by rewrite E.
  - eapply Forall_impl; [exact Ho|]. intros out. by apply edge_output_keeps.
Qed.
Lemma on_conn_compose f g c m : on_conn g c (on_conn f c m) = on_conn (fun s => g (f s)) c m.
Proof. unfold on_conn, with_conns. cbn. f_equal. apply map_eq. intros i.
  destruct (decide (c = i)) as [->|]; [rewrite !lookup_alter_eq|by rewrite !lookup_alter_ne]. by destruct (mg_conns m !! i).
Qed.
Lemma edge_inv_hold es outs m op h c :
  inv es outs m -> mg_held m !! op = None -> mg_conns m !! hd_conn h = Some c -> 0 < cs_permits c -> pending (hd_what h) = true ->
  asked_for es op (hd_hop h) (hd_what h) -> hop_id (cs_request c) = hd_hop h ->
  (needs_udp (hd_what h) = true -> supports_udp (cs_request c) = true) ->
  inv es outs (hold_permit op h m).
Proof.
  intros I Hn Hc Hpos Hpend Ha Hh Hu. apply (edge_inv_accounts _ _ _ _ _ _ (-1) 0); [done|..].
  - intros s. cbn. split_and!; (done || lia).
  - intros c' Hc'. rewrite Hc in Hc'. injection Hc' as <-. lia.
  - intros i. rewrite count_insert by done. unfold on. destruct (hd_conn h =? i); lia.
  - intros i. rewrite count_insert by done. unfold live_tunnel. destruct (hd_what h); try done; rewrite andb_false_r; destruct (_ =? _); lia.
  - intros op' h'. destruct (decide (op = op')) as [->|Hne]; [rewrite lookup_insert_eq|rewrite lookup_insert_ne by done; apply (ei_held _ _ _ _ _ I)].
    intros [= <-]. split; [done|]. by exists c.
Qed.
(** An opening ends: its permit goes back, whatever else changes on its connection. *)
Lemma edge_inv_release es outs m op h f :
  inv es outs m -> mg_held m !! op = Some h ->
  (forall s, cs_request (f s) = cs_request s /\ cs_phase (f s) = cs_phase s /\ cs_permits (f s) = cs_permits s /\
     cs_active (f s) = cs_active s - (match hd_what h with OpenTcp => 1 | _ => 0 end) /\
     (fits 32 (eu_seq (cs_udp s)) -> fits 32 (eu_seq (cs_udp (f s))))) ->
  inv es outs (release_permit op h (on_conn f (hd_conn h) m)).
Proof.
  intros I Hs Hf. unfold release_permit. rewrite on_conn_compose. cbn [mg_held on_conn with_conns].
  apply (edge_inv_accounts _ _ _ _ _ _ 1 (- match hd_what h with OpenTcp => 1 | _ => 0 end)); [done|..].
  - intros s. destruct (Hf s) as (E1 & E2 & E3 & E4 & E5). cbn. rewrite E1, E2, E3, E4. split_and!; (done || lia).
  - intros c Hc. pose proof (ei_permits _ _ _ _ _ I _ c Hc). lia.
  - intros i. rewrite (count_delete _ _ _ h) by done. unfold on. destruct (hd_conn h =? i); lia.
  - intros i. rewrite (count_delete _ _ _ h) by done. unfold live_tunnel. destruct (hd_conn h =? i); cbn; destruct (hd_what h); lia.
  - intros op' h' H. apply lookup_delete_Some in H as [_ H]. by apply (ei_held _ _ _ _ _ I).
Qed.
Lemma on_conn_id c m : on_conn (fun s => s) c m = m.
Proof. unfold on_conn, with_conns. 
  replace (alter (fun s => s) c (mg_conns m)) with (mg_conns m); [by destruct m|]. apply map_eq. intros i.
  destruct (decide (c = i)) as [->|]; [rewrite lookup_alter_eq|by rewrite lookup_alter_ne]. by destruct (mg_conns m !! i).
Qed.
Lemma register_inv es outs m request conn remote :
  inv es outs m -> mg_conns m !! conn = None -> authenticated tokens es conn request -> 0 <= limit ->
  match register m request conn remote with
  | (Accepted, m') => inv es outs (with_conns (<[conn := mkConnState request Acking false (mg_max_streams m') 0 EdgeUdpConn_default]> (mg_conns m')) m')
  | (Duplicate, m') => m' = m
  end.
Proof.
  intros I Hn Ha Hlim. set (session := mkHopSession conn (edge_id request) remote (supports_udp request)).
  assert (Hacc : forall m', inv es outs m' -> mg_conns m' !! conn = None ->
    let m'' := with_registry (<[hop_id request := session]> (mg_registry m')) m' in
    inv es outs (with_conns (<[conn := mkConnState request Acking false (mg_max_streams m'') 0 EdgeUdpConn_default]> (mg_conns m'')) m'')).
  { clear I Hn. intros m' [Ht Hl Hr Hau Hp Hac Hc Hh Ho] Hn. cbv zeta. set (st := mkConnState _ _ _ _ _ _).
    assert (Hzero : forall f, (forall h, f h = true -> hd_conn h = conn) -> count f (mg_held m') = 0).
    { intros f Hf. apply count_zero. intros op h Hop. destruct (f h) eqn:E; [|done]. destruct (Hh op h Hop) as (_ & c & Hc' & _).
      rewrite (Hf h E), Hn in Hc'. done. }
    assert (Hne : forall i c, mg_conns m' !! i = Some c -> conn <> i) by (intros i c H ->; by rewrite Hn in H).
    split; cbn; try done.
    - intros hop s0. destruct (decide (hop_id request = hop)) as [<-|Hd].
      + rewrite lookup_insert_eq. intros [= <-]. exists st. cbn. by rewrite lookup_insert_eq.
      + rewrite lookup_insert_ne by done. intros H. destruct (Hr hop s0 H) as (c & Hcs & H'). exists c. by rewrite lookup_insert_ne by by eapply Hne.
    - intros i c. destruct (decide (conn = i)) as [<-|Hd]; [rewrite lookup_insert_eq; by intros [= <-]|rewrite lookup_insert_ne by done; apply Hau].
    - intros i c. destruct (decide (conn = i)) as [<-|Hd]; [rewrite lookup_insert_eq|rewrite lookup_insert_ne by done; apply Hp].
      intros [= <-]. cbn. rewrite Hl, Hzero; [lia|]. intros h. unfold on. by intros ?%Z.eqb_eq.
    - intros i c. destruct (decide (conn = i)) as [<-|Hd]; [rewrite lookup_insert_eq|rewrite lookup_insert_ne by done; apply Hac].
      intros [= <-]. cbn. rewrite Hzero; [done|]. intros h. unfold live_tunnel. intros H. apply andb_true_iff in H as [H _]. by apply Z.eqb_eq.
    - intros i c. destruct (decide (conn = i)) as [<-|Hd]; [rewrite lookup_insert_eq; by intros [= <-]|rewrite lookup_insert_ne by done; apply Hc].
    - intros op h H. destruct (Hh op h H) as (H1 & c & H2 & H3). split; [done|]. exists c. by rewrite lookup_insert_ne by by eapply Hne.
    - eapply Forall_impl; [exact Ho|]. intros out. apply edge_output_keeps. intros i c H. exists c. cbn. by rewrite lookup_insert_ne by by eapply Hne. }
  unfold register. cbv zeta. fold session. destruct (mg_registry m !! hop_id request) as [old|] eqn:Er; [|by apply Hacc].
  destruct (mg_duplicate m); [done|]. apply Hacc.
  - apply edge_inv_conn; [done|done|done|]. intros s0 hop r Hs Hr E. cbn. destruct (ei_registry _ _ _ _ _ I hop r Hr) as (c & Hc' & _ & _ & Hph).
    rewrite E, Hs in Hc'. by injection Hc' as ->.
  - rewrite on_conn_lookup. case_decide as Hd; [by rewrite Hn|done].
Qed.
Lemma edge_step_inv es outs m e m' out :
  0 <= limit -> inv es outs m -> edge_step m e = Some (m', out) -> inv (es ++ [e]) (outs ++ out) m'.
Proof.
  intros Hlim I H. apply (edge_inv_event _ _ _ e) in I. assert (Hin : e ∈ es ++ [e]) by set_solver.
  remember (es ++ [e]) as es' eqn:Ees. clear Ees. destruct e as [conn remote frame|conn written|conn|conn bytes|op hop host port|op hop|op opened written reply|op]; cbn [edge_step] in H.
  - destruct (mg_conns m !! conn) eqn:Hn; [done|]. injection H as H. unfold on_connected in H.
    destruct frame as [lines|]; [|injection H as <- <-; by rewrite app_nil_r].
    destruct (register_parse lines) as [request|] eqn:Ep; [|injection H as <- <-; apply edge_inv_output; [done|by repeat constructor]].
    destruct (token_accepted m (token request)) eqn:Et; cbn [negb] in H; [|injection H as <- <-; apply edge_inv_output; [done|by repeat constructor]].
    assert (Ha : authenticated tokens es' conn request).
    { exists remote, lines. split_and!; try done. unfold token_accepted in Et. rewrite (ei_tokens _ _ _ _ _ I) in Et.
      apply existsb_exists in Et as (t & Hin' & Eq). apply constant_time_eq_spec in Eq as <-. by apply list_elem_of_In. }
    pose proof (register_inv es' outs m request conn remote I Hn Ha Hlim) as Hreg.
    destruct (register m request conn remote) as [[] m1]; injection H as <- <-; [by rewrite app_nil_r|].
    subst m1. apply edge_inv_output; [done|by repeat constructor].
  - destruct (mg_conns m !! conn) as [s|] eqn:Hs; [|done]. destruct (cs_phase s) eqn:Eph; try done. destruct written; injection H as <- <-.
    + apply edge_inv_output; [by apply edge_inv_conn|]. constructor; [|constructor]. cbn. exists (to_phase Serving s).
      by rewrite lookup_alter_eq, Hs.
    + rewrite app_nil_r. apply edge_inv_conn; [by apply deregister_inv|done|done|]. intros s0 hop r Hs0 Hr E. exfalso.
      eapply deregister_gone; [exact I|exact Hs|done|exact Hr|done].
  - destruct (mg_conns m !! conn) as [s|] eqn:Hs; [|done]. destruct (cs_phase s) eqn:Eph; try done. injection H as <- <-.
    rewrite app_nil_r. apply edge_inv_conn; [by apply deregister_inv|done|done|]. intros s0 hop r Hs0 Hr E. exfalso.
    eapply deregister_gone; [exact I|exact Hs|done|exact Hr|done].
  - destruct (mg_conns m !! conn) as [s|] eqn:Hs; [|done]. destruct (cs_phase s) eqn:Eph; try done. destruct (supports_udp _); [|done].
    injection H as <- <-. rewrite app_nil_r. apply edge_inv_conn; [done|done| |].
    + intros s0 Hf. cbn. unfold edge_demux, route. repeat case_match; done.
    + intros s0 hop r Hs0 Hr E. cbn. rewrite Hs in Hs0. injection Hs0 as <-. by rewrite Eph.
  - destruct (mg_held m !! op) eqn:Hn; [done|]. injection H as H. unfold on_open in H.
    destruct (mg_registry m !! hop) as [s|] eqn:Er; [|injection H as <- <-; apply edge_inv_output; [done|by repeat constructor]].
    destruct (ei_registry _ _ _ _ _ I hop s Er) as (c & Hc & Eh & Eu & _). unfold permits_of in H. rewrite Hc in H.
    destruct (Z.leb_spec (cs_permits c) 0); injection H as <- <-; [apply edge_inv_output; [done|by repeat constructor]|]. rewrite app_nil_r.
    eapply edge_inv_hold; [by apply edge_inv_seq|done|exact Hc|done|done|exact Hin|done|done].
  - destruct (mg_held m !! op) eqn:Hn; [done|]. unfold on_open_udp in H.
    destruct (mg_registry m !! hop) as [s|] eqn:Er; [|injection H as <- <-; apply edge_inv_output; [done|by repeat constructor]].
    destruct (ei_registry _ _ _ _ _ I hop s Er) as (c & Hc & Eh & Eu & _). unfold permits_of in H. rewrite Hc in H.
    destruct (hs_supports_udp s) eqn:Es; cbn [negb] in H; [|injection H as <- <-; apply edge_inv_output; [done|by repeat constructor]].
    destruct (Z.leb_spec (cs_permits c) 0); [injection H as <- <-; apply edge_inv_output; [done|by repeat constructor]|].
    cbn [mbind option_bind] in H. rewrite next_session_id_total in H by by apply (ei_counter _ _ _ _ _ I _ _ Hc). cbn [mbind option_bind] in H.
    injection H as <- <-. rewrite app_nil_r. set (u := mkEdgeUdp _ _).
    assert (I' : inv es' outs (on_conn (set_udp u) (hs_stable_id s) m)).
    { apply edge_inv_conn; [done|done| |].
      - intros s0 _. cbn. apply wrap_range. lia.
      - intros s0 hop0 r Hs0 Hr E. cbn. destruct (ei_registry _ _ _ _ _ I hop0 r Hr) as (c' & Hc' & _ & _ & Hph). rewrite E, Hs0 in Hc'. by injection Hc' as ->. }
    eapply (edge_inv_hold _ _ _ _ _ (set_udp u c)); [by apply edge_inv_seq|done| |done|done|exact Hin|done|intros _; cbn; by rewrite <- Eu].
    change (mg_conns (on_conn (set_udp u) (hs_stable_id s) m) !! hs_stable_id s = Some (set_udp u c)).
    rewrite on_conn_lookup, decide_True, Hc by done. done.
  - destruct (mg_held m !! op) as [h|] eqn:Hs; [|done]. destruct (pending (hd_what h)) eqn:Epend; [|done]. injection H as H.
    destruct (ei_held _ _ _ _ _ I op h Hs) as (Hasked & c & Hc & Eh & Eu).
    assert (Hfail : forall e o, Forall (edge_output_ok es' m) o -> inv es' (outs ++ o ++ [OpenFailed op e]) (release_permit op h m)).
    { intros e o Ho. assert (Ir : inv es' outs (release_permit op h m)).
      { rewrite <- (on_conn_id (hd_conn h) m) at 1. eapply edge_inv_release; [done|done|]. intros s. split_and!; try done.
        destruct (hd_what h); try done; lia. }
      apply edge_inv_output; [exact Ir|]. apply Forall_app. split; [|by repeat constructor]. eapply Forall_impl; [exact Ho|]. intros x.
      apply edge_output_keeps. apply (on_conn_keeps (add_permits 1) (hd_conn h) m). done. }
    assert (Hsent : Forall (edge_output_ok es' m) [Wrote op (hd_conn h) (request_frame (hd_what h))]).
    { constructor; [|constructor]. exists c, (hd_what h). rewrite Eh. done. }
    unfold on_answered in H. destruct opened; cbn [negb] in H; [|injection H as <- <-; by apply (Hfail _ [])].
    destruct written; cbn [negb] in H; [|injection H as <- <-; by apply (Hfail _ [])].
    assert (Hrefused : forall e, inv es' (outs ++ [Wrote op (hd_conn h) (request_frame (hd_what h)); OpenFailed op e]) (release_permit op h m))
      by (intros e; exact (Hfail e _ Hsent)).
    destruct reply as [[lines|err]|]; [|injection H as <- <-; by apply Hrefused|injection H as <- <-; by apply Hrefused].
    destruct (reply_parse lines) as [[|code]|err] eqn:Ep; [|injection H as <- <-; by apply Hrefused|injection H as <- <-; by apply Hrefused].
    assert (Hopened : forall m2, keeps m m2 -> inv es' outs m2 -> inv es' (outs ++ [Wrote op (hd_conn h) (request_frame (hd_what h)); Opened op (hd_hop h)]) m2).
    { intros m2 Hk I2. apply edge_inv_output; [done|]. apply (Forall_app _ [_] [_]). split; [eapply Forall_impl; [exact Hsent|]; intros x; by apply edge_output_keeps|].
      constructor; [|constructor]. exists true, true, lines. done. }
    destruct (hd_what h) as [host port tunnel|sid assoc| |] eqn:Ew; try done; injection H as <- <-.
    + apply Hopened; [by apply (on_conn_keeps (add_active 1) (hd_conn h) m)|].
      apply (edge_inv_accounts _ _ _ _ _ _ 0 1); [done|intros s; cbn; split_and!; (done || lia)| | | |].
      * intros c' Hc'. pose proof (ei_permits _ _ _ _ _ I _ _ Hc'). lia.
      * intros i. rewrite (count_replace _ _ _ h) by done. unfold on. cbn. destruct (_ =? _); lia.
      * intros i. rewrite (count_replace _ _ _ h) by done. unfold live_tunnel. rewrite Ew. cbn. destruct (_ =? _); cbn; lia.
      * intros op' h'. destruct (decide (op = op')) as [->|Hne]; [rewrite lookup_insert_eq|rewrite lookup_insert_ne by done; apply (ei_held _ _ _ _ _ I)].
        intros [= <-]. split; [by exists host, port|]. by exists c.
    + apply Hopened; [by apply (on_conn_keeps (fun s => set_udp (ReverseUdp.register sid (cs_udp s)) s) (hd_conn h) m)|].
      apply (edge_inv_accounts _ _ _ _ _ _ 0 0); [done|intros s; cbn; split_and!; (done || lia)| | | |].
      * intros c' Hc'. pose proof (ei_permits _ _ _ _ _ I _ _ Hc'). lia.
      * intros i. rewrite (count_replace _ _ _ h) by done. unfold on. cbn. destruct (_ =? _); lia.
      * intros i. rewrite (count_replace _ _ _ h) by done. unfold live_tunnel. rewrite Ew. cbn. rewrite !andb_false_r. destruct (_ =? _); lia.
      * intros op' h'. destruct (decide (op = op')) as [->|Hne]; [rewrite lookup_insert_eq|rewrite lookup_insert_ne by done; apply (ei_held _ _ _ _ _ I)].
        intros [= <-]. split; [done|]. exists c. by split_and!.
  - destruct (mg_held m !! op) as [h|] eqn:Hs; [|done]. injection H as <- <-. rewrite app_nil_r. unfold on_dropped.
    destruct (hd_what h) as [host port tunnel|sid assoc| |] eqn:Ew.
    + rewrite <- (on_conn_id (hd_conn h) m) at 1. eapply edge_inv_release; [done|done|]. intros s. rewrite Ew. split_and!; try done. lia.
    + rewrite <- (on_conn_id (hd_conn h) m) at 1. eapply edge_inv_release; [done|done|]. intros s. rewrite Ew. split_and!; try done. lia.
    + eapply edge_inv_release; [done|done|]. intros s. rewrite Ew. split_and!; done.
    + eapply edge_inv_release; [done|done|]. intros s. rewrite Ew. cbn. split_and!; try done. lia.
Qed.
End Inv.

Lemma edge_run_snoc m es e :
  edge_run m (es ++ [e]) = ('(m1, outs) ← edge_run m es; '(m2, out) ← edge_step m1 e; Some (m2, outs ++ out)).
Proof.
  revert m; induction es as [|x es IH]; intros m; cbn [app edge_run].
  - cbn. destruct (edge_step m e) as [[m1 o]|]; cbn; [by rewrite app_nil_r|done].
  - destruct (edge_step m x) as [[m1 o1]|]; cbn; [|done]. rewrite IH. destruct (edge_run m1 es) as [[m2 o2]|]; cbn; [|done].
    destruct (edge_step m2 e) as [[m3 o3]|]; cbn; [by rewrite app_assoc|done].
Qed.
Lemma spawned_tokens c m : manager_spawn c = Some m -> lc_tokens c <> [] /\ Forall (fun t => trim t <> []) (lc_tokens c).
Proof.
  unfold manager_spawn. destruct (is_empty (lc_tokens c) || _) eqn:E; [done|]. intros _. apply orb_false_iff in E as [E1 E2]. split; [intros E0; by rewrite E0 in E1|].
  apply Forall_forall. intros t Ht Hb. apply not_true_iff_false in E2. apply E2, existsb_exists. exists t. split; [by apply list_elem_of_In|by rewrite Hb].
Qed.

(** C17: the edge uses only hops it authenticated, and never beyond their
    capacity. In every interleaving of registrations, closings, openings and
    ends: the connection listed under a hop id is one whose own registration
    named that id and presented one of the configured, non-blank tokens, and
    whose handler has not ended; every opening in progress and every open
    tunnel or association holds one permit of such a connection, no connection
    has more of them than the ceiling, and the gauge counts the open tunnels;
    what is written to a hop is the request asked for under its id, a UDP one
    only if it advertised UDP; and an opening succeeds only on the hop's OK. *)
Theorem edge_safe (c : ReverseListenerConfig) m0 es m outs :
  manager_spawn c = Some m0 -> edge_run m0 es = Some (m, outs) ->
  Forall (fun t => trim t <> []) (lc_tokens c) /\
  edge_inv (lc_tokens c) (Z.max (lc_max_streams_per_hop c) 1) es outs m /\
  (forall conn, count (on conn) (mg_held m) <= Z.max (lc_max_streams_per_hop c) 1).
Proof.
  intros Hc H. split; [by eapply spawned_tokens|]. enough (I : edge_inv (lc_tokens c) (Z.max (lc_max_streams_per_hop c) 1) es outs m).
  { split; [done|]. intros conn. destruct (mg_conns m !! conn) as [s|] eqn:E; [pose proof (ei_permits _ _ _ _ _ I conn s E); lia|].
    rewrite count_zero; [lia|]. intros op h Hh. destruct (ei_held _ _ _ _ _ I op h Hh) as (_ & s & Hs & _).
    unfold on. apply Z.eqb_neq. intros <-. by rewrite E in Hs. }
  revert m outs H; induction es as [|e es IH] using rev_ind; intros m outs H.
  - injection H as <- <-. unfold manager_spawn in Hc. destruct (_ || _); [done|]. injection Hc as <-.
    split; cbn; try done.
  - rewrite edge_run_snoc in H. destruct (edge_run m0 es) as [[m1 o1]|]; [|done]. cbn in H.
    destruct (edge_step m1 e) as [[m2 o2]|] eqn:Es; [|done]. injection H as <- <-. eapply edge_step_inv; [lia|by apply IH|done].
Qed.

(** A listed session stays until its own connection ends, or, when the policy
    is to replace, until an accepted registration for its id takes its place. *)
Lemma registry_stable m e m' out hop s :
  edge_step m e = Some (m', out) -> mg_registry m !! hop = Some s ->
  mg_registry m' !! hop = Some s \/
  e = Acknowledged (hs_stable_id s) false \/ e = ConnectionClosed (hs_stable_id s) \/
  (mg_duplicate m = ReplaceOld /\ exists conn remote lines request, e = Connected conn remote (Ok lines) /\
     register_parse lines = Ok request /\ hop_id request = hop /\ token_accepted m (token request) = true).
Proof.
  intros H Hr. assert (Hd : forall h c f, (h <> hop \/ c <> hs_stable_id s) -> mg_registry (on_conn f c (deregister h c m)) !! hop = Some s).
  { intros h c f Hne. cbn. unfold deregister. destruct (mg_registry m !! h) as [x|] eqn:E; [|done]. destruct (Z.eqb_spec (hs_stable_id x) c); [|done].
    cbn. destruct (decide (h = hop)) as [->|]; [|by rewrite lookup_delete_ne]. rewrite Hr in E. injection E as ->. by destruct Hne. }
  destruct e as [conn remote frame|conn written|conn|conn bytes|op h host port|op h|op opened written reply|op]; cbn [edge_step] in H.
  - destruct (mg_conns m !! conn); [done|]. injection H as H. unfold on_connected in H. destruct frame as [lines|]; [|injection H as <- _; by left].
    destruct (register_parse lines) as [request|] eqn:Ep; [|injection H as <- _; by left].
    destruct (token_accepted m (token request)) eqn:Et; [|injection H as <- _; by left]. cbn [negb] in H. unfold register in H. cbv zeta in H.
    destruct (decide (hop_id request = hop)) as [Eh|Hne].
    + rewrite Eh, Hr in H. destruct (mg_duplicate m) eqn:Ed; [injection H as <- _; by left|]. do 3 right. eauto 10.
    + left. destruct (mg_registry m !! hop_id request); [destruct (mg_duplicate m)|]; injection H as <- _; try done;
        cbn; by rewrite lookup_insert_ne.
  - destruct (mg_conns m !! conn) as [c|]; [|done]. destruct (cs_phase c); try done. destruct written; injection H as <- _; [by left|].
    destruct (decide (conn = hs_stable_id s)) as [->|Hne]; [by right; left|]. left. apply Hd. by right.
  - destruct (mg_conns m !! conn) as [c|]; [|done]. destruct (cs_phase c); try done. injection H as <- _.
    destruct (decide (conn = hs_stable_id s)) as [->|Hne]; [by right; right; left|]. left. apply Hd. by right.
  - destruct (mg_conns m !! conn) as [c|]; [|done]. destruct (cs_phase c); try done. destruct (supports_udp _); [|done]. injection H as <- _. by left.
  - destruct (mg_held m !! op); [done|]. injection H as H. unfold on_open in H. left. repeat case_match; by injection H as <- _.
  - destruct (mg_held m !! op); [done|]. unfold on_open_udp in H. left.
    destruct (mg_registry m !! h) as [x|]; [|by injection H as <- _]. destruct (negb _); [by injection H as <- _|]. destruct (_ <=? _); [by injection H as <- _|].
    destruct (mg_conns m !! _) as [c|]; [|done]. cbn [mbind option_bind] in H. destruct (next_session_id _) as [[sid u]|]; [|done]. by injection H as <- _.
  - destruct (mg_held m !! op) as [h|]; [|done]. destruct (pending _); [|done]. injection H as H. unfold on_answered in H. left.
    repeat case_match; by injection H as <- _.
  - destruct (mg_held m !! op) as [h|]; [|done]. injection H as <- _. left. unfold on_dropped. by destruct (hd_what h).
Qed.

(** ** A session *)

Module EdgeDemo.
Definition config : ReverseListenerConfig := mkListenerConfig [lit "s3cret"] RejectNew 1 (lit "e1").
Definition frame (hop tok : str) : result IoError (list str) :=
  Ok (split_lines (register_encode (mkRegister hop tok None [lit "udp"]))).
Definition peer : SocketAddr := SockV4 1 4433.
Definition ok_reply : option (result IoError (list str)) := Some (Ok [lit "OK"]).
(** A bad token, a hop, a second one under its id, a tunnel, one over the
    ceiling, a UDP association after the tunnel, and the hop's end. *)
Definition events : list Event :=
  [Connected 1 peer (frame (lit "hop1") (lit "guess")); Connected 2 peer (frame (lit "hop1") (lit "s3cret")); Acknowledged 2 true;
   Connected 3 peer (frame (lit "hop1") (lit "s3cret")); OpenAsked 1 (lit "hop1") (lit "db") 5432; OpenAsked 2 (lit "hop1") (lit "db") 5432;
   OpenAnswered 1 true true ok_reply; Dropped 1; OpenUdpAsked 3 (lit "hop1"); OpenAnswered 3 true true ok_reply; ConnectionClosed 2;
   OpenAsked 4 (lit "hop1") (lit "db") 5432].
Definition start : Manager := default (mkManager ∅ [] RejectNew 0 [] 0 ∅ ∅) (manager_spawn config).
Definition ran : Manager * list Output := default (start, []) (edge_run start events).
Lemma spawned : manager_spawn config = Some start.
Proof. vm_compute. reflexivity. Qed.
Lemma edge_ran : edge_run start events = Some (ran.1, ran.2).
Proof. vm_compute. reflexivity. Qed.
Example outputs_seen :
  ran.2 = [Rejected 1 (ReplyErr UNAUTHORIZED); AckSent 2 (lit "hop1"); Rejected 3 (ReplyErr DUPLICATE_HOP_ID);
    OpenFailed 2 (ReverseHopConnect (lit "at per-hop stream capacity"));
    Wrote 1 2 (tunnel_encode (mkTunnel (lit "db") 5432 (Some (lit "e1-1")))); Opened 1 (lit "hop1");
    Wrote 3 2 (associate_encode (mkAssociate 1 (Some (lit "e1-u2")))); Opened 3 (lit "hop1");
    OpenFailed 4 (ReverseUnavailable (lit "no authenticated reverse session"))].
Proof. vm_compute. reflexivity. Qed.
End EdgeDemo.
Lemma edge_safe_witness :
  Forall (fun t => trim t <> []) [lit "s3cret"] /\
  edge_inv [lit "s3cret"] 1 EdgeDemo.events EdgeDemo.ran.2 EdgeDemo.ran.1 /\ (forall conn, count (on conn) (mg_held EdgeDemo.ran.1) <= 1).
Proof. exact (edge_safe EdgeDemo.config EdgeDemo.start EdgeDemo.events EdgeDemo.ran.1 EdgeDemo.ran.2 EdgeDemo.spawned EdgeDemo.edge_ran). Defined.
