(* ===== verification/Cache.v ===== *)
(** * Cache: the on-disk snapshot cache and its atomic replacement

    Models the file handling of src/src/sync/mod.rs: [save_cache] writes a
    temporary file next to the cache and renames it over. A disk is a finite
    map from path text to contents; every call that can fail takes its outcome
    from an [IoScript], and the disk after each call is recorded, so that a
    crash at any point is one of the recorded disks. Paths follow the Unix
    [std::path] rules. *)

From Stdlib Require Import ZArith Lia.
From stdpp Require Import prelude strings list gmap.
From S2P Require Import Prelude RustStr RustFmt.

Definition MAX_SNAPSHOT_BYTES : Z := 8 * 1024 * 1024.

(** ** Unix paths *)

(** The path text reversed, without trailing separators and [.] components. *)
Fixpoint skip_tail (r : str) : str :=
  match r with
  | c :: r' =>
      if c =? slash then skip_tail r'
      else match r' with
           | s :: r'' => if (c =? dot) && (s =? slash) then skip_tail r'' else r
           | [] => r
           end
  | [] => []
  end.
(** The last component, reversed, and what precedes it, reversed. *)
Fixpoint last_component (r : str) : str * str :=
  match r with
  | [] => ([], [])
  | c :: r' => if c =? slash then ([], r) else let '(name, rest) := last_component r' in (c :: name, rest)
  end.
(** [Path::file_name] and the parent [Path::parent] pairs it with *)
Definition split_file_name (path : str) : option (str * str) :=
  let '(name, rest) := last_component (skip_tail (rev path)) in
  let name := rev name in
  if is_empty name || str_eqb name [dot; dot] || (str_eqb name [dot] && is_empty rest) then None
  else
    let parent := if is_empty rest then []
                  else match skip_tail rest with [] => [slash] | r => rev r end in
    Some (parent, name).
Definition file_name (path : str) : option str := snd <$> split_file_name path.
(** [Path::with_file_name], for a path that has one *)
Definition with_file_name (path name : str) : option str :=
  '(parent, _) ← split_file_name path;
  Some (match last parent with
        | None => name
        | Some c => if c =? slash then parent ++ name else parent ++ [slash] ++ name
        end).

Example path_ex :
  split_file_name (lit "/var/lib//rove/./snap.json/") = Some (lit "/var/lib//rove", lit "snap.json") /\
  with_file_name (lit "/snap") (lit "x") = Some (lit "/x") /\
  with_file_name (lit "snap") (lit "x") = Some (lit "x") /\
  file_name (lit "/") = None /\ file_name (lit "a/..") = None /\ file_name (lit "./a") = Some (lit "a").
Proof. vm_compute. done. Qed.

(** ** The disk *)

Abbreviation Disk := (gmap str (list Z)).

Record IoScript := mkIo {
  io_mkdir : bool;
  io_create : bool;          (* create_new also fails when the file exists *)
  io_write : option nat;     (* fails after that many bytes *)
  io_sync : bool;
  io_rename : bool;
  io_remove : bool;
  io_pid : Z;
  io_nanos : Z
}.

Inductive cache_error := CacheJson | CacheTooLarge | CacheNoFileName | CacheIo.

(** [temporary_cache_path] *)
Definition temporary_cache_path (path : str) (pid nanos : Z) : result cache_error str :=
  name ← ok_or (file_name path) CacheNoFileName;
  ok_or (with_file_name path (name ++ lit ".tmp." ++ fmt_dec pid ++ [dot] ++ fmt_dec nanos)) CacheNoFileName.

(** [write_cache_temp_then_rename], with the disks it goes through; the
    directory sync at its end reports nothing and changes no file. *)
Definition write_cache_temp_then_rename (io : IoScript) (path tmp : str) (bytes : list Z) (d : Disk)
    : list Disk * result cache_error Disk * Disk :=
  if negb (io_create io) || bool_decide (is_Some (d !! tmp)) then ([], Err CacheIo, d)
  else
    let d1 := <[tmp := []]> d in
    match io_write io with
    | Some k => let d2 := <[tmp := take k bytes]> d1 in ([d1; d2], Err CacheIo, d2)
    | None =>
        let d2 := <[tmp := bytes]> d1 in
        if negb (io_sync io) then ([d1; d2], Err CacheIo, d2)
        else if negb (io_rename io) then ([d1; d2], Err CacheIo, d2)
        else let d3 := <[path := bytes]> (delete tmp d2) in ([d1; d2; d3], Ok d3, d3)
    end.

(** [atomic_write_cache] *)
Definition atomic_write_cache (io : IoScript) (path : str) (bytes : list Z) (d : Disk)
    : list Disk * result cache_error unit * Disk :=
  match temporary_cache_path path (io_pid io) (io_nanos io) with
  | Err e => ([], Err e, d)
  | Ok tmp =>
      let '(trace, result, d) := write_cache_temp_then_rename io path tmp bytes d in
      match result with
      | Ok _ => (trace, Ok tt, d)
      | Err e => if io_remove io then (trace ++ [delete tmp d], Err e, delete tmp d) else (trace, Err e, d)
      end
  end.

(** [save_cache], given the serialized document *)
Definition save_bytes (io : IoScript) (path : str) (payload : option (list Z)) (d : Disk)
    : list Disk * result cache_error unit * Disk :=
  match payload with
  | None => ([], Err CacheJson, d)
  | Some bytes =>
      if MAX_SNAPSHOT_BYTES <? Z.of_nat (length bytes) then ([], Err CacheTooLarge, d)
      else if match split_file_name path with
              | Some (dir, _) => negb (is_empty dir) && negb (io_mkdir io)
              | None => false
              end then ([], Err CacheIo, d)
      else atomic_write_cache io path bytes d
  end.

(** ** The temporary file is not the cache *)

Lemma elem_of_rev (x : Z) (l : str) : x ∈ rev l <-> x ∈ l.
Proof. rewrite !list_elem_of_In. symmetry. apply in_rev. Qed.

Lemma skip_tail_id c r : c <> slash -> (c <> dot \/ head r <> Some slash) -> skip_tail (c :: r) = c :: r.
Proof.
  intros Hc Hd. cbn. apply Z.eqb_neq in Hc as ->. destruct r as [|s r]; [done|].
  destruct (Z.eqb_spec c dot) as [->|]; [|done]. destruct (Z.eqb_spec s slash) as [->|]; [|done]. by destruct Hd.
Qed.
Lemma last_component_app n r : slash ∉ n -> last_component (n ++ slash :: r) = (n, slash :: r).
Proof.
  induction n as [|c n IH]; intros Hn; [done|]. apply not_elem_of_cons in Hn as [Hc Hn]. cbn [app last_component].
  destruct (Z.eqb_spec c slash); [congruence|]. by rewrite IH.
Qed.
Lemma last_component_nil n : slash ∉ n -> last_component n = (n, []).
Proof.
  induction n as [|c n IH]; intros Hn; [done|]. apply not_elem_of_cons in Hn as [Hc Hn]. cbn [last_component].
  destruct (Z.eqb_spec c slash); [congruence|]. by rewrite IH.
Qed.
Lemma last_component_name r : slash ∉ fst (last_component r).
Proof.
  induction r as [|c r IH]; [apply not_elem_of_nil|]. cbn. case_match eqn:E; [apply not_elem_of_nil|].
  destruct (last_component r). apply Z.eqb_neq in E. cbn in *. apply not_elem_of_cons. by split.
Qed.
Lemma split_file_name_noslash p parent n : split_file_name p = Some (parent, n) -> slash ∉ n.
Proof.
  unfold split_file_name. destruct (last_component _) as [name rest] eqn:E. case_match; [done|].
  intros [= _ <-]. rewrite elem_of_rev. pose proof (last_component_name (skip_tail (rev p))) as H1. by rewrite E in H1.
Qed.

(** A normal component: what a file name can be. *)
Definition normal (n : str) : Prop := slash ∉ n /\ n <> [] /\ last n <> Some dot.
Lemma split_file_name_snoc u n :
  normal n -> (u = [] \/ exists u', u = u' ++ [slash]) ->
  file_name (u ++ n) = Some n.
Proof.
  intros (Hs & Hne & Hd) Hu. destruct n as [|c n _] using rev_ind; [done|].
  assert (c <> slash) by (intros ->; set_solver). assert (c <> dot) by (intros ->; by rewrite last_snoc in Hd).
  unfold file_name, split_file_name. rewrite rev_app_distr, rev_unit. cbn [app].
  rewrite skip_tail_id by auto. change (c :: rev n ++ rev u) with ((c :: rev n) ++ rev u). rewrite <- rev_unit.
  assert (slash ∉ rev (n ++ [c])) by by rewrite elem_of_rev.
  assert (Hr : last_component (rev (n ++ [c]) ++ rev u) = (rev (n ++ [c]), rev u)).
  { destruct Hu as [->|[u' ->]]; [cbn; rewrite app_nil_r; by apply last_component_nil|].
    rewrite (rev_unit u'). by apply last_component_app. }
  rewrite Hr, rev_involutive.
  assert (is_empty (n ++ [c]) = false) as -> by by destruct n.
  assert (forall m, last m = Some dot -> str_eqb (n ++ [c]) m = false) as E.
  { intros m Hm. apply str_eqb_neq. intros <-. rewrite last_snoc in Hm. congruence. }
  rewrite !E by done. done.
Qed.
Lemma fmt_dec_last n s : 0 <= n -> last (s ++ fmt_dec n) <> Some dot.
Proof.
  intros Hn. pose proof (fmt_radix_ne 10 n ltac:(lia) Hn) as Hne. rewrite last_app.
  destruct (last (fmt_radix 10 n)) eqn:E; [|by apply last_None in E].
  intros [= ->]. apply last_Some in E as [l E]. unfold fmt_radix in E.
  assert (dot ∈ map digit_char (digits 10 n)) as Hin by (rewrite E; set_solver).
  apply list_elem_of_fmap in Hin as (d & Hd & Hin).
  pose proof (proj1 (digits_spec 10 n ltac:(lia) Hn)) as HF. rewrite Forall_forall in HF. specialize (HF d Hin).
  unfold digit_char, dot in Hd. case_match; lia.
Qed.
Lemma fmt_dec_noslash n : 0 <= n -> slash ∉ fmt_dec n.
Proof.
  intros Hn Hin. apply list_elem_of_fmap in Hin as (d & Hd & Hin).
  pose proof (proj1 (digits_spec 10 n ltac:(lia) Hn)) as HF. rewrite Forall_forall in HF. specialize (HF d Hin).
  unfold digit_char, slash in Hd. case_match; lia.
Qed.

Lemma tmp_distinct path pid nanos tmp :
  0 <= pid -> 0 <= nanos -> temporary_cache_path path pid nanos = Ok tmp -> tmp <> path.
Proof.
  intros Hp Hn H. unfold temporary_cache_path in H. apply bind_Ok in H as (name & H1 & H). apply ok_or_Ok in H1, H.
  unfold with_file_name in H. destruct (split_file_name path) as [[parent name']|] eqn:E; [|done].
  assert (name' = name) as -> by (unfold file_name in H1; rewrite E in H1; by injection H1).
  set (n := name ++ _) in H. cbn in H. injection H as H.
  assert (normal n) as Hnorm.
  { split_and!.
    - unfold n. rewrite !elem_of_app. pose proof (split_file_name_noslash _ _ _ E).
      pose proof (fmt_dec_noslash pid Hp). pose proof (fmt_dec_noslash nanos Hn).
      assert (slash ∉ lit ".tmp.") by (apply (bool_decide_unpack _); vm_compute; exact I). set_solver.
    - unfold n. by destruct name.
    - unfold n. rewrite !app_assoc. by apply fmt_dec_last. }
  assert (file_name tmp = Some n) as Hf.
  { subst tmp. destruct (last parent) as [c|] eqn:El.
    - apply last_Some in El as [l ->]. destruct (Z.eqb_spec c slash) as [->|].
      + apply split_file_name_snoc; eauto.
      + change (slash :: n) with ([slash] ++ n). rewrite app_assoc. apply split_file_name_snoc; eauto.
    - exact (split_file_name_snoc [] n Hnorm (or_introl eq_refl)). }
  intros ->. rewrite H1 in Hf. injection Hf as Hf. apply (f_equal length) in Hf. unfold n in Hf.
  rewrite !length_app in Hf. simpl in Hf. lia.
Qed.

(** ** Atomicity *)

(** The cache file is the old one or the new one, whole. *)
Definition old_or_new (path : str) (d0 : Disk) (bytes : list Z) (d : Disk) : Prop :=
  d !! path = d0 !! path \/ d !! path = Some bytes.

Lemma write_cache_trace io path tmp bytes d :
  tmp <> path ->
  let '(trace, r, d') := write_cache_temp_then_rename io path tmp bytes d in
  Forall (old_or_new path d bytes) trace /\
  match r with
  | Ok _ => d' = <[path := bytes]> d
  | Err _ => d' !! path = d !! path /\ (d' = d \/ d !! tmp = None /\ delete tmp d' = d)
  end.
Proof.
  intros Hne. unfold write_cache_temp_then_rename, old_or_new.
  destruct (negb (io_create io) || _) eqn:E; [split; [constructor|auto]|]. apply orb_false_iff in E as [_ E].
  apply bool_decide_eq_false, eq_None_not_Some in E.
  assert (forall c, delete tmp (<[tmp := c]> d) = d) as Hd by (intros; by apply delete_insert_id).
  assert (forall c, <[tmp := c]> d !! path = d !! path) as Hold by (intros; by apply lookup_insert_ne).
  destruct (io_write io) as [k|]; [|destruct (io_sync io), (io_rename io)]; cbn [negb]; cbv zeta iota beta;
    rewrite ?insert_insert_eq, ?Hd; (split; [repeat (constructor; [auto|]); try by constructor|]); auto.
  right. apply lookup_insert_eq.
Qed.

(** C23: replacing the snapshot cache is atomic: whatever step fails or wherever
    the process stops, the cache file holds its previous contents or the whole
    new document, never a part; when the call reports success it is the new
    document and no other file changed, when it reports an error it is the
    previous one, and the temporary file is gone unless its removal failed. *)
Theorem save_cache_atomic (io : IoScript) (path : str) (payload : option (list Z)) (d : Disk) :
  0 <= io_pid io -> 0 <= io_nanos io ->
  let '(trace, r, d') := save_bytes io path payload d in
  Forall (old_or_new path d (default [] payload)) (trace ++ [d']) /\
  match r with
  | Ok _ => exists bytes, payload = Some bytes /\ Z.of_nat (length bytes) <= MAX_SNAPSHOT_BYTES /\ d' = <[path := bytes]> d
  | Err _ => d' !! path = d !! path /\ (io_remove io = true -> d' = d \/ exists tmp, d' = delete tmp d)
  end.
Proof.
  intros Hp Hn. unfold save_bytes. destruct payload as [bytes|]; [|split; [constructor; [by left|constructor]|by auto]].
  destruct (Z.ltb_spec MAX_SNAPSHOT_BYTES (Z.of_nat (length bytes))); [split; [constructor; [by left|constructor]|by auto]|].
  match goal with |- context [if ?b then ([], _, _) else _] => destruct b end; [split; [constructor; [by left|constructor]|by auto]|]. unfold atomic_write_cache.
  destruct (temporary_cache_path _ _ _) as [tmp|e] eqn:Et; [|split; [constructor; [by left|constructor]|by auto]].
  pose proof (tmp_distinct _ _ _ _ Hp Hn Et) as Hne. pose proof (write_cache_trace io path tmp bytes d Hne) as Hw.
  destruct (write_cache_temp_then_rename io path tmp bytes d) as [[trace r] d']. destruct Hw as [Htr Hr].
  cbn [default]. destruct r as [d''|e].
  - subst d'. split; [apply Forall_app; split; [done|]; constructor; [right; apply lookup_insert_eq|constructor]|eauto].
  - destruct Hr as [Hpath Hd].
    assert (Hdel : delete tmp d' !! path = d !! path) by by rewrite lookup_delete_ne.
    destruct (io_remove io).
    + split; [repeat (apply Forall_app; split); try done; (constructor; [by left|constructor])|]. split; [done|].
      intros _. destruct Hd as [->|[_ Hd]]; eauto.
    + split; [apply Forall_app; split; [done|]; (constructor; [by left|constructor])|]. done.
Qed.

Lemma save_cache_atomic_witness :
  let d : Disk := {[ lit "/var/rove/snap.json" := [1; 2] ]} in
  let io := mkIo true true (Some 1%nat) true true false 7 99 in
  snd (save_bytes io (lit "/var/rove/snap.json") (Some [3; 4; 5]) d) !! lit "/var/rove/snap.json" = Some [1; 2].
Proof.
  intros d io. pose proof (save_cache_atomic io (lit "/var/rove/snap.json") (Some [3; 4; 5]) d ltac:(done) ltac:(done)) as H.
  assert (E : is_ok (snd (fst (save_bytes io (lit "/var/rove/snap.json") (Some [3; 4; 5]) d))) = false) by (vm_compute; reflexivity).
  destruct (save_bytes _ _ _ d) as [[trace r] d']. cbn [fst snd] in E. destruct r; [done|]. destruct H as [_ [H _]]. exact H.
Defined.
