(* ===== verification/Service.v ===== *)
(** * Service: the address book service and its file poller

    Models src/src/addrbook/mod.rs: reading a stable artifact, the serving book
    with the stamp last acknowledged, and the decisions of one poll. What the
    file system answers to each call is given by an [Attempt]. *)

From Stdlib Require Import ZArith Lia.
From stdpp Require Import prelude strings list gmap.
From S2P Require Import Prelude RustStr Net Domain Policy Rab Book.

Definition MAX_ARTIFACT_BYTES : Z := 256 * 1024 * 1024.

Record ArtifactStamp := mkStamp { st_modified : Z; st_len : Z; st_dev : Z; st_ino : Z }.
#[global] Instance ArtifactStamp_eq_dec : EqDecision ArtifactStamp.
Proof. solve_decision. Defined.

(** What one turn of [read_stable_artifact] gets from the system: [None] is a
    failing call; [at_contents] is what the open file holds. *)
Record Attempt := mkAttempt {
  at_open : bool;
  at_before : option ArtifactStamp;
  at_contents : option (list Z);
  at_after : option ArtifactStamp;
  at_path : option ArtifactStamp
}.

Inductive service_error := OpenFailed | StatFailed | ReadError | ArtifactTooLarge | Unstable | BadBook (e : rab_error).

(** [take(MAX + 1)] of a reader, without building the bound. *)
Definition take_bytes (n : Z) (l : list Z) : list Z := if Z.of_nat (length l) <=? n then l else take (Z.to_nat n) l.

(** One turn: [Ok None] is another turn. *)
Definition read_attempt (a : Attempt) : result service_error (option (list Z * ArtifactStamp)) :=
  ensure (at_open a) OpenFailed ;;
  before ← ok_or (at_before a) StatFailed;
  ensure (st_len before <=? MAX_ARTIFACT_BYTES) ArtifactTooLarge ;;
  contents ← ok_or (at_contents a) ReadError;
  let bytes := take_bytes (MAX_ARTIFACT_BYTES + 1) contents in
  ensure (Z.of_nat (length bytes) <=? MAX_ARTIFACT_BYTES) ArtifactTooLarge ;;
  after ← ok_or (at_after a) StatFailed;
  path_stamp ← ok_or (at_path a) StatFailed;
  Ok (if bool_decide (before = after) && bool_decide (after = path_stamp) then Some (bytes, after) else None).

(** [read_stable_artifact]: [for _ in 0..3] *)
Fixpoint read_turns (n i : nat) (script : nat -> Attempt) : result service_error (list Z * ArtifactStamp) :=
  match n with
  | O => Err Unstable
  | S n =>
      r ← read_attempt (script i);
      match r with Some out => Ok out | None => read_turns n (S i) script end
  end.
Definition read_stable_artifact (script : nat -> Attempt) : result service_error (list Z * ArtifactStamp) :=
  read_turns 3 0 script.

(** [AddrBookService] *)
Record AddrBookService := mkService { sv_current : Book; sv_last_stamp : option ArtifactStamp }.

Section Service.
Context {H : Sha256}.

(** [AddrBookService::load] *)
Definition service_load (script : nat -> Attempt) : result service_error AddrBookService :=
  '(bytes, stamp) ← read_stable_artifact script;
  book ← map_err BadBook (from_bytes bytes);
  Ok (mkService book (Some stamp)).

(** [AddrBookService::try_read_new] *)
Definition try_read_new (s : AddrBookService) (script : nat -> Attempt)
    : result service_error (option Book * ArtifactStamp) :=
  '(bytes, stamp) ← read_stable_artifact script;
  book ← map_err BadBook (from_bytes bytes);
  if bool_decide (checksum book = checksum (sv_current s)) then Ok (None, stamp)
  else Ok (Some book, stamp).

(** [AddrBookService::install], [changed_stamp], [acknowledge_stamp] *)
Definition service_install (s : AddrBookService) (book : Book) : AddrBookService :=
  mkService book (sv_last_stamp s).
Definition changed_stamp (s : AddrBookService) (meta : option ArtifactStamp)
    : result service_error (option ArtifactStamp) :=
  stamp ← ok_or meta StatFailed;
  if bool_decide (sv_last_stamp s = Some stamp) then Ok None else Ok (Some stamp).
Definition acknowledge_stamp (s : AddrBookService) (stamp : ArtifactStamp) : AddrBookService :=
  mkService (sv_current s) (Some stamp).

(** What one tick of [poll_file_changes] decides before it asks the syncer. *)
Inductive poll_decision := PollIdle | PollAcknowledge (stamp : ArtifactStamp) | PollAdopt (book : Book) (stamp : ArtifactStamp).
Definition poll_tick (s : AddrBookService) (meta : option ArtifactStamp) (script : nat -> Attempt) : poll_decision :=
  match changed_stamp s meta with
  | Ok None | Err _ => PollIdle
  | Ok (Some _) =>
      match try_read_new s script with
      | Ok (None, stamp) => PollAcknowledge stamp
      | Ok (Some book, stamp) => PollAdopt book stamp
      | Err _ => PollIdle
      end
  end.

(** ** What is read was there, unchanged, for the whole reading *)

Lemma take_bytes_length n l : 0 <= n -> Z.of_nat (length (take_bytes (n + 1) l)) <= n -> take_bytes (n + 1) l = l.
Proof.
  intros Hn. unfold take_bytes. destruct (Z.leb_spec (Z.of_nat (length l)) (n + 1)); [done|].
  rewrite length_take. lia.
Qed.

Definition stable_read (a : Attempt) (bytes : list Z) (stamp : ArtifactStamp) : Prop :=
  at_open a = true /\ at_contents a = Some bytes /\ Z.of_nat (length bytes) <= MAX_ARTIFACT_BYTES /\
  at_before a = Some stamp /\ at_after a = Some stamp /\ at_path a = Some stamp.

Lemma read_attempt_stable a bytes stamp :
  read_attempt a = Ok (Some (bytes, stamp)) -> stable_read a bytes stamp.
Proof.
  unfold read_attempt. intros Hr. res_inv. apply Z.leb_le in Hv3.
  apply take_bytes_length in Hv3 as E; [|done]. rewrite E in *.
  destruct (bool_decide _ && bool_decide _) eqn:Eb; [|done]. apply andb_true_iff in Eb as [E1%bool_decide_eq_true E2%bool_decide_eq_true]. subst.
  injection Hr as <- <-. by unfold stable_read.
Qed.
Lemma read_turns_stable n i script bytes stamp :
  read_turns n i script = Ok (bytes, stamp) ->
  exists j, (i <= j < i + n)%nat /\ stable_read (script j) bytes stamp.
Proof.
  revert i; induction n as [|n IH]; intros i; cbn [read_turns]; [done|]. intros Hr.
  apply bind_Ok in Hr as (r & H1 & Hr). destruct r as [[b s]|].
  - injection Hr as <- <-. exists i. split; [lia|]. by apply read_attempt_stable.
  - destruct (IH _ Hr) as (j & ? & ?). exists j. split; [lia|done].
Qed.

(** An adopted candidate was read whole under one identity of the file, decodes,
    and differs from the serving book. *)
Lemma poll_tick_adopt s meta script book stamp :
  poll_tick s meta script = PollAdopt book stamp ->
  checksum book <> checksum (sv_current s) /\
  exists j bytes, (j < 3)%nat /\ stable_read (script j) bytes stamp /\ from_bytes bytes = Ok book.
Proof.
  unfold poll_tick. destruct (changed_stamp s meta) as [[st|]|]; try done.
  destruct (try_read_new s script) as [[[b|] st']|] eqn:E; try done. intros [= -> ->].
  unfold try_read_new in E. apply bind_Ok in E as ([bytes st'] & H1 & E). apply bind_Ok in E as (b & H2 & E).
  apply map_err_Ok in H2. case_bool_decide; [done|]. injection E as -> ->. split; [done|].
  apply read_turns_stable in H1 as (j & ? & ?). exists j, bytes. split_and!; [lia|done|done].
Qed.

End Service.
