(* ===== verification/Sync.v ===== *)
(** * Sync: control-plane synchronisation

    Models src/src/sync/mod.rs: fetching and decoding a snapshot, compiling it
    against the serving address book, caching it, swapping it into the engine,
    adopting a new address book, the health record and the polling back-off.
    The syncer is a state machine: a synchronisation holds the gate from the
    request it sends to the reply it handles, and other tasks (MQTT commands,
    the address book poller) take their steps in between. *)

From Stdlib Require Import ZArith Lia.
From stdpp Require Import prelude strings list gmap relations.
From S2P Require Import Prelude RustStr Net RustFmt Util Domain Policy Rab Book Model ModelProps Engine Cache Service.

Definition MAX_POLL_BACKOFF_SECS : Z := 300.

(** serde_json's reading and printing of the snapshot document. *)
Class SnapshotJson := {
  json_from_slice : list Z -> option RawSnapshot;
  json_to_vec : RawSnapshot -> option (list Z)
}.

(** The [ControlPlane] section of the configuration. *)
Record ControlPlane := mkControlPlane {
  cp_snapshot_url : str; cp_token : str; cp_poll_interval_secs : Z; cp_cache_path : str
}.

Inductive sync_message :=
| MsgCacheNotFound | MsgCacheFailed | MsgNoUpdates | MsgAlreadyRunning | MsgSyncFailed | MsgCompileFailed | MsgApplied.
Record SyncOutcome := mkOutcome {
  so_success : bool; so_updated : bool; so_already_running : bool; so_message : sync_message;
  so_version : Z; so_elapsed_ms : Z
}.
Record SyncHealth := mkHealth {
  sh_last_attempt : option Z; sh_last_success : option Z; sh_failure_since : option Z; sh_failures : Z
}.
(** [SyncHealth::default] *)
Definition health_default : SyncHealth := mkHealth None None None 0.

(** [next_poll_delay], in seconds; [base] is a whole number of seconds. *)
Definition next_poll_delay (base consecutive_failures : Z) : Z :=
  if consecutive_failures =? 0 then base
  else
    let base_secs := Z.max base 1 in
    let cap_secs := Z.max MAX_POLL_BACKOFF_SECS base_secs in
    let multiplier := Z.shiftl 1 (Z.min consecutive_failures 5) in
    Z.min (Z.min (base_secs * multiplier) u64_max) cap_secs.

(** The reply of the control plane: status, declared length, and what the
    successive [chunk] calls deliver ([None] fails). *)
Record Response := mkResponse { re_status : Z; re_content_length : option Z; re_chunks : list (option (list Z)) }.

Inductive fetch_error := SendFailed | BadStatus | ResponseTooLarge | ChunkFailed | BadDocument | UnsupportedDocument.

(** [read_limited_response] *)
Fixpoint read_chunks (body : list Z) (chunks : list (option (list Z))) (cap : Z) : result fetch_error (list Z) :=
  match chunks with
  | [] => Ok body
  | None :: _ => Err ChunkFailed
  | Some chunk :: chunks =>
      ensure (saturating_add 64 (Z.of_nat (length body)) (Z.of_nat (length chunk)) <=? cap) ResponseTooLarge ;;
      read_chunks (body ++ chunk) chunks cap
  end.
Definition read_limited_response (resp : Response) (cap : Z) : result fetch_error (list Z) :=
  ensure (match re_content_length resp with Some size => size <=? cap | None => true end) ResponseTooLarge ;;
  read_chunks [] (re_chunks resp) cap.

(** The URL [fetch] requests. *)
Definition fetch_url (cfg : ControlPlane) (since : Z) : str :=
  let separator := if bool_decide (63 ∈ cp_snapshot_url cfg) then 38 else 63 in
  cp_snapshot_url cfg ++ [separator] ++ lit "since=" ++ fmt_dec since.

Section Sync.
Context {N : Ipnet} {D : Chrono} {J : SnapshotJson} {H : Sha256}.
#[local] Existing Instance Book_api.

(** [decode_snapshot] *)
Definition decode_snapshot (bytes : list Z) : result fetch_error RawSnapshot :=
  doc ← ok_or (json_from_slice bytes) BadDocument;
  ensure (schema_version_supported (rs_schema_version doc) MAX_SUPPORTED_SCHEMA_VERSION) UnsupportedDocument ;;
  Ok doc.

(** [fetch], given what the request for [since] was answered ([None]: the
    request failed) *)
Definition fetch (reply : option Response) (since : Z) : result fetch_error (option RawSnapshot) :=
  resp ← ok_or reply SendFailed;
  if re_status resp =? 304 then Ok None
  else
    ensure ((200 <=? re_status resp) && (re_status resp <=? 299)) BadStatus ;;
    body ← read_limited_response resp MAX_SNAPSHOT_BYTES;
    doc ← decode_snapshot body;
    if rs_version doc <=? since then Ok None else Ok (Some doc).

(** [load_cache(path)]: [readable] is whether the metadata and read calls succeed *)
Definition load_cache_file (d : Disk) (path : str) (readable : bool) : result fetch_error (option RawSnapshot) :=
  match d !! path with
  | None => Ok None
  | Some bytes =>
      ensure readable ChunkFailed ;;
      ensure (Z.of_nat (length bytes) <=? MAX_SNAPSHOT_BYTES) ResponseTooLarge ;;
      doc ← decode_snapshot bytes; Ok (Some doc)
  end.

(** A synchronisation in flight: its [since] and the request it sent. *)
Record InFlight := mkInFlight { if_since : Z; if_url : str }.

(** The [Syncer] with the engine, the address book service and the disk it
    acts on, the holder of its gate, and the candidate the poller waits with. *)
Record Syncer := mkSyncer {
  sy_cfg : ControlPlane;
  sy_node_id : str;
  sy_engine : Engine;
  sy_health : SyncHealth;
  sy_addrbook : option AddrBookService;
  sy_last_raw : option RawSnapshot;
  sy_disk : Disk;
  sy_gate : option InFlight;
  sy_candidate : option (Book * ArtifactStamp)
}.

(** [Syncer::new], [with_addrbook] *)
Definition syncer_new (cfg : ControlPlane) (node_id : str) (service : option AddrBookService) (d : Disk) : Syncer :=
  mkSyncer cfg node_id engine_new health_default service None d None None.

Definition current_book (s : Syncer) : option Book := sv_current <$> sy_addrbook s.
Definition sync_version (s : Syncer) : Z := engine_version (sy_engine s).

(** Field updates. *)
Definition set_serving (s : Syncer) (snap : Snapshot) (raw : RawSnapshot) : Syncer :=
  mkSyncer (sy_cfg s) (sy_node_id s) (engine_replace (sy_engine s) snap) (sy_health s) (sy_addrbook s) (Some raw)
    (sy_disk s) (sy_gate s) (sy_candidate s).
Definition set_disk (s : Syncer) (d : Disk) : Syncer :=
  mkSyncer (sy_cfg s) (sy_node_id s) (sy_engine s) (sy_health s) (sy_addrbook s) (sy_last_raw s) d (sy_gate s) (sy_candidate s).
Definition set_health (s : Syncer) (h : SyncHealth) : Syncer :=
  mkSyncer (sy_cfg s) (sy_node_id s) (sy_engine s) h (sy_addrbook s) (sy_last_raw s) (sy_disk s) (sy_gate s) (sy_candidate s).
Definition set_gate (s : Syncer) (g : option InFlight) : Syncer :=
  mkSyncer (sy_cfg s) (sy_node_id s) (sy_engine s) (sy_health s) (sy_addrbook s) (sy_last_raw s) (sy_disk s) g (sy_candidate s).
Definition set_service (s : Syncer) (service : AddrBookService) : Syncer :=
  mkSyncer (sy_cfg s) (sy_node_id s) (sy_engine s) (sy_health s) (Some service) (sy_last_raw s) (sy_disk s) (sy_gate s) (sy_candidate s).
Definition set_candidate (s : Syncer) (c : option (Book * ArtifactStamp)) : Syncer :=
  mkSyncer (sy_cfg s) (sy_node_id s) (sy_engine s) (sy_health s) (sy_addrbook s) (sy_last_raw s) (sy_disk s) (sy_gate s) c.

Record SnapshotMeta := mkMeta { me_version : Z; me_users : Z; me_policies : Z }.

(** [compile_snapshot]; [place] is where the runtime places selectors. *)
Definition compile_snapshot (doc : RawSnapshot) (current_version : Z) (node_id : str) (book : option Book)
    (place : str -> nat -> Z) (elapsed : Z) : result SyncOutcome (Snapshot * SnapshotMeta) :=
  let meta := mkMeta (rs_version doc) (Z.of_nat (length (rs_users doc))) (Z.of_nat (length (rs_policies doc))) in
  match compile_checked doc node_id book place with
  | Ok snapshot => Ok (snapshot, meta)
  | Err _ => Err (mkOutcome false false false MsgCompileFailed current_version elapsed)
  end.

(** [Syncer::apply] and [replace_snapshot] *)
Definition applied (version elapsed : Z) : SyncOutcome := mkOutcome true true false MsgApplied version elapsed.
Definition apply_doc (s : Syncer) (doc : RawSnapshot) (place : str -> nat -> Z) (elapsed : Z) : Syncer * SyncOutcome :=
  match compile_snapshot doc (sync_version s) (sy_node_id s) (current_book s) place elapsed with
  | Ok (snapshot, meta) => (set_serving s snapshot doc, applied (me_version meta) elapsed)
  | Err outcome => (s, outcome)
  end.

(** [Syncer::apply_remote] *)
Definition apply_remote (s : Syncer) (doc : RawSnapshot) (place : str -> nat -> Z) (io : IoScript) (elapsed : Z)
    : Syncer * SyncOutcome :=
  match compile_snapshot doc (sync_version s) (sy_node_id s) (current_book s) place elapsed with
  | Err outcome => (s, outcome)
  | Ok (snapshot, meta) =>
      let '(_, _, d) := save_bytes io (cp_cache_path (sy_cfg s)) (json_to_vec doc) (sy_disk s) in
      (set_serving (set_disk s d) snapshot doc, applied (me_version meta) elapsed)
  end.

(** [Syncer::load_cache] *)
Definition load_cache (s : Syncer) (place : str -> nat -> Z) (readable : bool) (elapsed : Z) : Syncer * SyncOutcome :=
  match load_cache_file (sy_disk s) (cp_cache_path (sy_cfg s)) readable with
  | Ok (Some raw) => apply_doc s raw place elapsed
  | Ok None => (s, mkOutcome true false false MsgCacheNotFound (sync_version s) elapsed)
  | Err _ => (s, mkOutcome false false false MsgCacheFailed (sync_version s) elapsed)
  end.

(** [Syncer::record_health] *)
Definition record_health (h : SyncHealth) (success : bool) (now : Z) : SyncHealth :=
  if success then mkHealth (Some now) (Some now) None 0
  else mkHealth (Some now) (sh_last_success h)
         (Some (default now (sh_failure_since h))) (saturating_add 32 (sh_failures h) 1).

(** [Syncer::sync_once_locked], in two halves: the request is sent with the
    gate held, then its reply is handled and the gate released. *)
Definition sync_begin (s : Syncer) : Syncer :=
  let since := sync_version s in
  set_gate s (Some (mkInFlight since (fetch_url (sy_cfg s) since))).
Definition sync_reply (s : Syncer) (since : Z) (reply : option Response) (place : str -> nat -> Z) (io : IoScript)
    (now elapsed : Z) : Syncer * SyncOutcome :=
  let '(s, outcome) :=
    match fetch reply since with
    | Ok (Some raw) => apply_remote s raw place io elapsed
    | Ok None => (s, mkOutcome true false false MsgNoUpdates (sync_version s) elapsed)
    | Err _ => (s, mkOutcome false false false MsgSyncFailed (sync_version s) elapsed)
    end in
  (set_gate (set_health s (record_health (sy_health s) (so_success outcome) now)) None, outcome).
(** [Syncer::try_sync_once] when the gate is taken *)
Definition sync_busy (s : Syncer) : SyncOutcome := mkOutcome false false true MsgAlreadyRunning (sync_version s) 0.

(** [Syncer::adopt_addrbook] *)
Definition adopt_addrbook (s : Syncer) (book : Book) (place : str -> nat -> Z) : result unit Syncer :=
  match sy_addrbook s with
  | None => Err tt
  | Some service =>
      match sy_last_raw s with
      | Some doc =>
          match compile_checked doc (sy_node_id s) (Some book) place with
          | Ok snapshot => Ok (set_serving (set_service s (service_install service book)) snapshot doc)
          | Err _ => Err tt
          end
      | None => Ok (set_service s (service_install service book))
      end
  end.

(** The poller, after the gate is its own: acknowledge what was adopted. *)
Definition poll_adopt (s : Syncer) (book : Book) (stamp : ArtifactStamp) (place : str -> nat -> Z) : Syncer :=
  let s := set_candidate s None in
  match adopt_addrbook s book place with
  | Err _ => s
  | Ok s => match sy_addrbook s with
            | Some service => set_service s (acknowledge_stamp service stamp)
            | None => s
            end
  end.
Definition poll_read (s : Syncer) (meta : option ArtifactStamp) (script : nat -> Attempt) : Syncer :=
  match sy_addrbook s with
  | None => s
  | Some service =>
      match poll_tick service meta script with
      | PollIdle => s
      | PollAcknowledge stamp => set_service s (acknowledge_stamp service stamp)
      | PollAdopt book stamp => set_candidate s (Some (book, stamp))
      end
  end.

(** One turn of [run_polling]: a whole synchronisation, then the sleep; the
    environment of the turn is the reply and what the system calls answer. *)
Record Turn := mkTurn {
  tu_reply : option Response; tu_place : str -> nat -> Z; tu_io : IoScript; tu_now : Z; tu_elapsed : Z
}.
Definition poll_interval (cfg : ControlPlane) : Z := Z.max (cp_poll_interval_secs cfg) 1.
Definition poll_turn (st : Syncer * Z * Z) (t : Turn) : Syncer * Z * Z :=
  let '(s, failures, slept) := st in
  let s := sync_begin s in
  let since := match sy_gate s with Some g => if_since g | None => 0 end in
  let '(s, outcome) := sync_reply s since (tu_reply t) (tu_place t) (tu_io t) (tu_now t) (tu_elapsed t) in
  let failures := if so_success outcome then 0 else saturating_add 32 failures 1 in
  (s, failures, slept + next_poll_delay (poll_interval (sy_cfg s)) failures).
(** [run_polling] over the turns of its environment, with the seconds it slept *)
Definition run_polling (s : Syncer) (turns : list Turn) : Syncer * Z * Z := foldl poll_turn (s, 0, 0) turns.

(** ** The machine *)

Inductive sync_event :=
| EvLoadCache (outcome : SyncOutcome)
| EvSyncBegin
| EvSyncReply (reply : option Response) (outcome : SyncOutcome)
| EvSyncBusy (outcome : SyncOutcome)
| EvPollRead
| EvPollAdopt.

(** The cache is loaded before the pollers start, so with the gate free. *)
Inductive sync_step : Syncer -> sync_event -> Syncer -> Prop :=
| step_load s place readable elapsed s' o :
    sy_gate s = None -> load_cache s place readable elapsed = (s', o) -> sync_step s (EvLoadCache o) s'
| step_begin s : sy_gate s = None -> sync_step s EvSyncBegin (sync_begin s)
| step_reply s g reply place io now elapsed s' o :
    sy_gate s = Some g -> sync_reply s (if_since g) reply place io now elapsed = (s', o) ->
    sync_step s (EvSyncReply reply o) s'
| step_busy s : sy_gate s <> None -> sync_step s (EvSyncBusy (sync_busy s)) s
| step_poll_read s meta script : sy_candidate s = None -> sync_step s EvPollRead (poll_read s meta script)
| step_poll_adopt s book stamp place :
    sy_gate s = None -> sy_candidate s = Some (book, stamp) -> sync_step s EvPollAdopt (poll_adopt s book stamp place).

Inductive sync_run : Syncer -> list sync_event -> Syncer -> Prop :=
| run_nil s : sync_run s [] s
| run_cons s ev s1 evs s2 : sync_step s ev s1 -> sync_run s1 evs s2 -> sync_run s (ev :: evs) s2.

End Sync.

(** * What synchronisation guarantees

    The serving snapshot is always the compilation of the last accepted
    document against the installed address book; failures change nothing that
    is served; versions only grow; polling backs off within bounds and recovers. *)

(** ** Polling delay *)

(** The polling delay without failures is the configured interval; after
    [f] consecutive failures it is the interval doubled [f] times, at most five,
    cut at five minutes or at the interval if that is longer: it never falls
    below the interval, never exceeds that cap and never overflows. *)
Theorem next_poll_delay_bounds base f :
  1 <= base <= u64_max -> 0 <= f ->
  next_poll_delay base f = Z.min (base * 2 ^ Z.min f 5) (Z.max MAX_POLL_BACKOFF_SECS base) /\
  base <= next_poll_delay base f <= Z.max MAX_POLL_BACKOFF_SECS base /\
  next_poll_delay base f <= next_poll_delay base (f + 1).
Proof.
  intros Hb Hf.
  assert (Hd : forall f, 0 <= f -> next_poll_delay base f = Z.min (base * 2 ^ Z.min f 5) (Z.max MAX_POLL_BACKOFF_SECS base)).
  { clear f Hf. intros f Hf. unfold next_poll_delay. rewrite Z.shiftl_1_l. replace (Z.max base 1) with base by lia.
    destruct (Z.eqb_spec f 0) as [->|Hne]; [change (2 ^ Z.min 0 5) with 1; unfold MAX_POLL_BACKOFF_SECS; lia|].
    assert (Z.max MAX_POLL_BACKOFF_SECS base <= u64_max) by (unfold MAX_POLL_BACKOFF_SECS, u64_max in *; lia). lia. }
  assert (Hp : forall f, 0 <= f -> 1 <= 2 ^ Z.min f 5) by (intros; pose proof (Z.pow_pos_nonneg 2 (Z.min f0 5)); lia).
  rewrite (Hd f Hf), (Hd (f + 1) ltac:(lia)). pose proof (Hp f Hf).
  assert (2 ^ Z.min f 5 <= 2 ^ Z.min (f + 1) 5) by (apply Z.pow_le_mono_r; lia).
  split; [done|]. split; [split; nia|]. assert (base * 2 ^ Z.min f 5 <= base * 2 ^ Z.min (f + 1) 5) by nia. lia.
Qed.

Lemma next_poll_delay_bounds_witness : next_poll_delay 30 4 = 300 /\ next_poll_delay 30 3 <= next_poll_delay 30 (3 + 1).
Proof.
  split; [apply (proj1 (next_poll_delay_bounds 30 4 ltac:(unfold u64_max; lia) ltac:(lia)))|].
  apply (next_poll_delay_bounds 30 3); unfold u64_max; lia.
Defined.

(** The documents the decoder returns are maps: their keys are distinct. *)
Class SnapshotJsonLaws (J : SnapshotJson) : Prop :=
  json_keys_distinct : forall bytes doc, json_from_slice bytes = Some doc -> raw_ok doc.

Section Sync.
Context {N : Ipnet} `{!IpnetLaws N} {D : Chrono} {J : SnapshotJson} {H : Sha256}.
#[local] Existing Instance Book_api.

(** ** The invariant *)

(** What is served is the compilation of the remembered document against the
    installed book; a synchronisation in flight asked for what is served. *)
Record consistent (s : Syncer) : Prop := {
  co_serving : match sy_last_raw s with
               | None => en_snap (sy_engine s) = Snapshot_empty
               | Some doc => exists place, compile_checked doc (sy_node_id s) (current_book s) place = Ok (en_snap (sy_engine s))
               end;
  co_since : match sy_gate s with Some g => if_since g = sync_version s | None => True end
}.

Lemma compile_version raw node book place snap : compile_checked raw node book place = Ok snap -> sn_version snap = rs_version raw.
Proof.
  intros Hc. unfold compile_checked in Hc. do 8 (apply bind_Ok in Hc as (? & _ & Hc)).
  apply bind_Ok in Hc as ([? ?] & _ & Hc). apply bind_Ok in Hc as ([? ?] & _ & Hc). by injection Hc as <-.
Qed.

Lemma compile_snapshot_Ok doc v node book place el snap meta :
  compile_snapshot doc v node book place el = Ok (snap, meta) ->
  compile_checked doc node book place = Ok snap /\ me_version meta = rs_version doc.
Proof. unfold compile_snapshot. destruct (compile_checked _ _ _ _) eqn:E; [|done]. by intros [= <- <-]. Qed.
Lemma compile_snapshot_Err doc v node book place el o :
  compile_snapshot doc v node book place el = Err o -> so_success o = false /\ so_updated o = false /\ so_version o = v.
Proof. unfold compile_snapshot. destruct (compile_checked _ _ _ _); [done|]. by intros [= <-]. Qed.

(** What a call that may replace the snapshot did: nothing that is served
    changed, or the document was compiled and swapped in. *)
Inductive apply_result (s : Syncer) (doc : RawSnapshot) : Syncer -> SyncOutcome -> Prop :=
| apply_refused o : so_success o = false -> so_updated o = false -> so_version o = sync_version s -> apply_result s doc s o
| apply_done d place snap el :
    compile_checked doc (sy_node_id s) (current_book s) place = Ok snap ->
    apply_result s doc (set_serving (set_disk s d) snap doc) (applied (rs_version doc) el).

Lemma apply_remote_result s doc place io el s' o : apply_remote s doc place io el = (s', o) -> apply_result s doc s' o.
Proof.
  unfold apply_remote. destruct (compile_snapshot _ _ _ _ _ _) as [[snap meta]|err] eqn:E.
  - destruct (save_bytes _ _ _ _) as [[? ?] d]. intros [= <- <-].
    apply compile_snapshot_Ok in E as [E ->]. by econstructor.
  - intros [= <- <-]. apply compile_snapshot_Err in E as (? & ? & ?). by constructor.
Qed.
Lemma apply_doc_result s doc place el s' o : apply_doc s doc place el = (s', o) -> apply_result s doc s' o.
Proof.
  unfold apply_doc. destruct (compile_snapshot _ _ _ _ _ _) as [[snap meta]|err] eqn:E.
  - intros [= <- <-]. apply compile_snapshot_Ok in E as [E ->].
    assert (set_serving s snap doc = set_serving (set_disk s (sy_disk s)) snap doc) as -> by by destruct s. by econstructor.
  - intros [= <- <-]. apply compile_snapshot_Err in E as (? & ? & ?). by constructor.
Qed.

Lemma consistent_apply s doc s' o :
  apply_result s doc s' o -> consistent s ->
  match sy_last_raw s' with
  | None => en_snap (sy_engine s') = Snapshot_empty
  | Some doc => exists place, compile_checked doc (sy_node_id s') (current_book s') place = Ok (en_snap (sy_engine s'))
  end.
Proof. intros Hr [Hs _]. destruct Hr; [done|]. cbn. eauto. Qed.

(** The serving part of a state: what the steps below preserve together. *)
Definition same_serving (s s' : Syncer) : Prop :=
  sy_node_id s' = sy_node_id s /\ sy_engine s' = sy_engine s /\ sy_last_raw s' = sy_last_raw s /\ current_book s' = current_book s.

Lemma same_serving_consistent s s' :
  same_serving s s' -> match sy_gate s' with Some g => if_since g = sync_version s' | None => True end ->
  consistent s -> consistent s'.
Proof. intros (H1 & H2 & H3 & H4) Hg [Hs _]. split; [|done]. rewrite H3, H2, H1, H4. exact Hs. Qed.

Lemma poll_read_serving s meta script :
  same_serving s (poll_read s meta script) /\ sy_gate (poll_read s meta script) = sy_gate s.
Proof.
  unfold poll_read, same_serving, current_book. destruct (sy_addrbook s) as [sv|] eqn:E; [|by rewrite E].
  destruct (poll_tick sv meta script); cbn; rewrite ?E; done.
Qed.

Lemma adopt_spec s book place :
  match adopt_addrbook s book place with
  | Err _ => True
  | Ok s' => sy_node_id s' = sy_node_id s /\ sy_gate s' = sy_gate s /\ current_book s' = Some book /\
             sy_last_raw s' = sy_last_raw s /\
             match sy_last_raw s with
             | None => sy_engine s' = sy_engine s
             | Some doc => compile_checked doc (sy_node_id s) (Some book) place = Ok (en_snap (sy_engine s'))
             end
  end.
Proof.
  unfold adopt_addrbook. destruct (sy_addrbook s) as [sv|]; [|done]. destruct (sy_last_raw s) as [doc|] eqn:El; [|by cbn; rewrite El].
  destruct (compile_checked _ _ _ _) eqn:E; done.
Qed.

Lemma poll_adopt_consistent s book stamp place : sy_gate s = None -> consistent s -> consistent (poll_adopt s book stamp place).
Proof.
  intros Hg Hc. unfold poll_adopt. pose proof (adopt_spec (set_candidate s None) book place) as Ha.
  destruct (adopt_addrbook _ book place) as [s'|].
  2: { eapply same_serving_consistent; [|cbn; by rewrite Hg|exact Hc]. done. }
  destruct Ha as (Hn & Hgate & Hb & Hl & He). cbn in Hn, Hgate, Hl, He.
  assert (consistent s') as Hc'.
  { destruct Hc as [Hs _]. split; [|by rewrite Hgate, Hg]. rewrite Hl, Hn, Hb.
    destruct (sy_last_raw s); [eauto|by rewrite He]. }
  destruct (sy_addrbook s') as [sv|] eqn:Es; [|done].
  eapply same_serving_consistent; [|cbn; by rewrite Hgate, Hg|exact Hc']. split_and!; try done. unfold current_book. cbn. by rewrite Es.
Qed.

Lemma sync_reply_result s since reply place io now el s' o :
  sync_reply s since reply place io now el = (s', o) ->
  exists s1, s' = set_gate (set_health s1 (record_health (sy_health s1) (so_success o) now)) None /\
    match fetch reply since with
    | Ok (Some raw) => apply_result s raw s1 o
    | _ => s1 = s /\ so_updated o = false /\ so_version o = sync_version s /\ so_success o = is_ok (fetch reply since)
    end.
Proof.
  unfold sync_reply. destruct (fetch reply since) as [[raw|]|].
  - destruct (apply_remote s raw place io el) as [s1 o1] eqn:E. intros [= <- <-]. exists s1.
    split; [done|]. by eapply apply_remote_result.
  - intros [= <- <-]. by exists s.
  - intros [= <- <-]. by exists s.
Qed.

Lemma sync_step_consistent s ev s' : sync_step s ev s' -> consistent s -> consistent s'.
Proof.
  intros Hstep Hc. destruct Hstep as [s place r el s' o Hg Hl|s Hg|s g reply place io now el s' o Hg Hr|s Hg|s meta script Hcand|s book stamp place Hg Hcand].
  - unfold load_cache in Hl. destruct (load_cache_file _ _ _) as [[raw|]|]; [|by injection Hl as <- <-|by injection Hl as <- <-].
    apply apply_doc_result in Hl. split; [by eapply consistent_apply|].
    destruct Hl; cbn; by rewrite Hg.
  - by apply (same_serving_consistent s).
  - apply sync_reply_result in Hr as (s1 & -> & Hr).
    destruct (fetch reply (if_since g)) as [[raw|]|]; [|by destruct Hr as (-> & _); destruct Hc as [Hs _]; split..].
    split; [|done]. cbn. by eapply consistent_apply.
  - done.
  - destruct (poll_read_serving s meta script) as [Hs Hg]. eapply same_serving_consistent; [exact Hs| |exact Hc].
    rewrite Hg. destruct Hs as (_ & He & _). unfold sync_version. rewrite He. apply Hc.
  - by apply poll_adopt_consistent.
Qed.

Lemma sync_run_consistent s evs s' : sync_run s evs s' -> consistent s -> consistent s'.
Proof. induction 1; eauto using sync_step_consistent. Qed.
Lemma syncer_new_consistent cfg node service d : consistent (syncer_new cfg node service d).
Proof. by split. Qed.

(** ** Documents are maps *)

Context `{!SnapshotJsonLaws J}.
Definition last_raw_ok (s : Syncer) : Prop := match sy_last_raw s with Some doc => raw_ok doc | None => True end.

Lemma decode_raw_ok bytes doc : decode_snapshot bytes = Ok doc -> raw_ok doc.
Proof. unfold decode_snapshot. intros Hd. res_inv. by eapply json_keys_distinct. Qed.
Lemma fetch_raw_ok reply since doc : fetch reply since = Ok (Some doc) -> raw_ok doc /\ since < rs_version doc.
Proof.
  unfold fetch. intros Hf. apply bind_Ok in Hf as (resp & _ & Hf). case_match; [done|].
  apply bind_Ok in Hf as (? & _ & Hf). apply bind_Ok in Hf as (body & _ & Hf). apply bind_Ok in Hf as (doc' & Hd & Hf).
  destruct (Z.leb_spec (rs_version doc') since); [done|]. injection Hf as <-. split; [by eapply decode_raw_ok|done].
Qed.
Lemma load_cache_raw_ok d path r doc : load_cache_file d path r = Ok (Some doc) -> raw_ok doc.
Proof.
  unfold load_cache_file. destruct (d !! path); [|done]. intros Hf. res_inv. injection Hf as ->. by eapply decode_raw_ok.
Qed.
Lemma apply_raw_ok s doc s' o : apply_result s doc s' o -> raw_ok doc -> last_raw_ok s -> last_raw_ok s'.
Proof. by intros [] ? ?. Qed.
Lemma sync_step_raw_ok s ev s' : sync_step s ev s' -> last_raw_ok s -> last_raw_ok s'.
Proof.
  intros Hstep Hc. destruct Hstep as [s place r el s' o Hg Hl|s Hg|s g reply place io now el s' o Hg Hr|s Hg|s meta script Hcand|s book stamp place Hg Hcand];
    try done.
  - unfold load_cache in Hl. destruct (load_cache_file _ _ _) as [[raw|]|] eqn:E; [|by injection Hl as <- <-|by injection Hl as <- <-].
    apply apply_doc_result in Hl. apply load_cache_raw_ok in E. by eapply apply_raw_ok.
  - apply sync_reply_result in Hr as (s1 & -> & Hr).
    destruct (fetch reply (if_since g)) as [[raw|]|] eqn:E; [|by destruct Hr as (-> & _)..].
    apply fetch_raw_ok in E as [E _]. exact (apply_raw_ok _ _ _ _ Hr E Hc).
  - destruct (poll_read_serving s meta script) as [(_ & _ & Hl & _) _]. unfold last_raw_ok. by rewrite Hl.
  - unfold poll_adopt. pose proof (adopt_spec (set_candidate s None) book place) as Ha.
    destruct (adopt_addrbook _ book place) as [s'|]; [|done]. destruct Ha as (_ & _ & _ & Hl & _).
    assert (last_raw_ok s') by (unfold last_raw_ok; by rewrite Hl). by destruct (sy_addrbook s').
Qed.
Lemma sync_run_raw_ok s evs s' : sync_run s evs s' -> last_raw_ok s -> last_raw_ok s'.
Proof. induction 1; eauto using sync_step_raw_ok. Qed.

Lemma snapshot_empty_ok : snapshot_ok Snapshot_empty.
Proof.
  split; [exists ∅; split; apply map_Forall_empty|]. split; cbn.
  - intros n u Hu. by rewrite lookup_empty in Hu.
  - intros p k n. unfold lookup2. rewrite lookup_empty. split; [done|]. intros (u & c & Hu & _). by rewrite lookup_empty in Hu.
Qed.

(** C20: in every state a node reaches, through any interleaving of cache loads,
    synchronisations, concurrent sync commands and address book polls, the
    serving snapshot is validated and is exactly the compilation of the last
    accepted document against the installed address book, or the empty snapshot
    when none was accepted yet: book and snapshot are never mixed. *)
Theorem serving_snapshot_consistent cfg node service d evs s :
  sync_run (syncer_new cfg node service d) evs s ->
  snapshot_ok (en_snap (sy_engine s)) /\
  match sy_last_raw s with
  | None => en_snap (sy_engine s) = Snapshot_empty
  | Some doc => exists place, compile_checked doc (sy_node_id s) (current_book s) place = Ok (en_snap (sy_engine s))
  end.
Proof.
  intros Hr. pose proof (sync_run_consistent _ _ _ Hr (syncer_new_consistent cfg node service d)) as [Hs _].
  pose proof (sync_run_raw_ok _ _ _ Hr I) as Hd. unfold last_raw_ok in Hd. split; [|done].
  destruct (sy_last_raw s); [destruct Hs as [place Hs]; by eapply compile_checked_ok|rewrite Hs; apply snapshot_empty_ok].
Qed.

(** ** One synchronisation *)

(** C21: a handled reply has exactly three outcomes. An error (transport,
    status, size, decoding or compilation) leaves the snapshot, the document,
    the book and the cache as they were and counts one more failure since the
    first; a reply without a newer version changes nothing but the health
    record; a newer document that compiles is served from then on, under its
    own, strictly greater version. *)
Theorem sync_reply_outcomes s g reply o s' :
  consistent s -> sy_gate s = Some g -> sync_step s (EvSyncReply reply o) s' ->
  match so_success o, so_updated o with
  | false, _ => same_serving s s' /\ sy_disk s' = sy_disk s /\ so_updated o = false /\ so_version o = sync_version s /\
      sh_last_success (sy_health s') = sh_last_success (sy_health s) /\
      sh_failures (sy_health s') = saturating_add 32 (sh_failures (sy_health s)) 1
  | true, false => same_serving s s' /\ sy_disk s' = sy_disk s /\ fetch reply (sync_version s) = Ok None /\
      sh_failure_since (sy_health s') = None /\ sh_failures (sy_health s') = 0
  | true, true => exists doc place, fetch reply (sync_version s) = Ok (Some doc) /\
      compile_checked doc (sy_node_id s) (current_book s) place = Ok (en_snap (sy_engine s')) /\
      sy_last_raw s' = Some doc /\ so_version o = rs_version doc /\ sync_version s' = rs_version doc /\
      sync_version s < sync_version s' /\ sh_failure_since (sy_health s') = None /\ sh_failures (sy_health s') = 0
  end.
Proof.
  intros [_ Hsince] Hg Hstep. inversion Hstep as [| |? g' ? place io now el ? ? Hg' Hr| | |]; subst.
  rewrite Hg in Hg', Hsince. injection Hg' as <-. rewrite Hsince in Hr.
  apply sync_reply_result in Hr as (s1 & -> & Hr).
  destruct (fetch reply (sync_version s)) as [[raw|]|] eqn:Ef.
  - apply fetch_raw_ok in Ef as Hv. destruct Hr as [o E1 E2 E3|dk pl snap el' Hc].
    + rewrite E1. by split_and!.
    + cbn. exists raw, pl. apply compile_version in Hc as Hver.
      split_and!; try done. change (sync_version s < sn_version snap). rewrite Hver. apply Hv.
  - destruct Hr as (-> & E1 & E2 & E3). rewrite E3, E1. by split_and!.
  - destruct Hr as (-> & E1 & E2 & E3). rewrite E3, E1. by split_and!.
Qed.

(** ** Versions *)

Lemma apply_version s doc s' o : apply_result s doc s' o -> sync_version s < rs_version doc -> sync_version s <= sync_version s'.
Proof.
  intros Ha Hv. destruct Ha; [lia|]. unfold sync_version at 2, engine_version. cbn.
  erewrite compile_version by done. lia.
Qed.
Lemma sync_step_version s ev s' :
  consistent s -> sync_step s ev s' -> (forall o, ev <> EvLoadCache o) -> sync_version s <= sync_version s'.
Proof.
  intros [Hs Hsince] Hstep Hev.
  destruct Hstep as [s place r el s' o Hg Hl|s Hg|s g reply place io now el s' o Hg Hr|s Hg|s meta script Hcand|s book stamp place Hg Hcand].
  - by destruct (Hev o).
  - done.
  - rewrite Hg in Hsince. rewrite Hsince in Hr. apply sync_reply_result in Hr as (s1 & -> & Hr).
    destruct (fetch reply (sync_version s)) as [[raw|]|] eqn:E; [|by destruct Hr as (-> & _)..].
    apply fetch_raw_ok in E as [_ E]. exact (apply_version _ _ _ _ Hr E).
  - done.
  - destruct (poll_read_serving s meta script) as [(_ & He & _) _]. unfold sync_version. by rewrite He.
  - unfold poll_adopt. pose proof (adopt_spec (set_candidate s None) book place) as Ha.
    destruct (adopt_addrbook _ book place) as [s'|]; [|done]. destruct Ha as (_ & _ & _ & _ & Ha). cbn in Ha.
    assert (sync_version s <= sync_version s') as Hle; [|by destruct (sy_addrbook s')].
    unfold sync_version, engine_version. destruct (sy_last_raw s) as [doc|]; [|by rewrite Ha].
    destruct Hs as [pl Hs]. apply compile_version in Ha, Hs. lia.
Qed.

(** The served version never decreases, whatever the control plane
    answers and the disk holds: only the cache load at start-up can go back. *)
Theorem served_version_monotone s evs s' :
  consistent s -> sync_run s evs s' -> Forall (fun ev => forall o, ev <> EvLoadCache o) evs ->
  sync_version s <= sync_version s'.
Proof.
  intros Hc Hr Hev. induction Hr as [|s ev s1 evs s2 Hstep Hr IH]; [done|]. inversion Hev; subst.
  pose proof (sync_step_version _ _ _ Hc Hstep ltac:(done)). pose proof (sync_step_consistent _ _ _ Hstep Hc).
  specialize (IH ltac:(done) ltac:(done)). lia.
Qed.

End Sync.

(** ** A concrete node *)

Module SyncDemo.
#[export] Existing Instances CidrNet.inst CidrNet.cidr_laws day_dates Book_api.
(** A codec with one document, [engine_raw], under the text [v7]. *)
#[export] Instance json : SnapshotJson := {|
  json_from_slice := fun bytes => if str_eqb bytes (lit "v7") then Some engine_raw else None;
  json_to_vec := fun _ => Some (lit "v7")
|}.
#[export] Instance json_laws : SnapshotJsonLaws json.
Proof.
  intros bytes doc. cbn. case_match; [|done]. intros [= <-].
  split; repeat constructor; try (by rewrite list_elem_of_In; intros []).
Qed.
#[export] Instance sha : Sha256 := fun _ => [].

Definition cfg : ControlPlane := mkControlPlane (lit "https://cp.example/s?x=1") (lit "t") 30 (lit "/var/rove/snap.json").
Definition place (_ : str) (_ : nat) : Z := 0.
Definition io : IoScript := mkIo true true None true true true 7 99.
Definition good : Response := mkResponse 200 (Some 2) [Some (lit "v"); Some (lit "7")].
Definition start : Syncer := syncer_new cfg (lit "n") None ∅.
(** The request is out: its URL asks for what is newer than version 0. *)
Definition asked : Syncer := sync_begin start.
Definition served : Syncer := fst (sync_reply asked 0 (Some good) place io 1000 5).
Definition outcome : SyncOutcome := snd (sync_reply asked 0 (Some good) place io 1000 5).

Example asked_url : if_url <$> sy_gate asked = Some (lit "https://cp.example/s?x=1&since=0").
Proof. vm_compute. reflexivity. Qed.
Lemma reply_step : sync_step asked (EvSyncReply (Some good) outcome) served.
Proof. apply (step_reply asked (mkInFlight 0 (fetch_url cfg 0)) (Some good) place io 1000 5); reflexivity. Qed.
Lemma demo_run : sync_run start [EvSyncBegin; EvSyncReply (Some good) outcome] served.
Proof. eapply run_cons; [by apply step_begin|]. eapply run_cons; [exact reply_step|]. constructor. Qed.
End SyncDemo.

Section SyncWitness.
Import SyncDemo.

Lemma serving_snapshot_consistent_witness : snapshot_ok (en_snap (sy_engine served)) /\ sync_version served = 7.
Proof.
  split; [|vm_compute; reflexivity].
  exact (proj1 (serving_snapshot_consistent cfg (lit "n") None ∅ _ served demo_run)).
Defined.

Lemma sync_reply_outcomes_witness : sync_version asked < sync_version served /\ sh_failures (sy_health served) = 0.
Proof.
  pose proof (sync_reply_outcomes asked (mkInFlight 0 (fetch_url cfg 0)) (Some good) outcome served
    ltac:(by split) ltac:(reflexivity) reply_step) as Ho.
  assert (E1 : so_success outcome = true) by (vm_compute; reflexivity).
  assert (E2 : so_updated outcome = true) by (vm_compute; reflexivity). rewrite E1, E2 in Ho. destruct Ho as (? & ? & _ & _ & _ & _ & _ & Hlt & _ & Hf). by split.
Defined.

Lemma served_version_monotone_witness : sync_version start <= sync_version served.
Proof.
  apply (served_version_monotone start _ served (syncer_new_consistent cfg (lit "n") None ∅) demo_run).
  repeat constructor; done.
Defined.
End SyncWitness.
