(* ===== verification/Health.v ===== *)
(** * Health: liveness and readiness

    Models src/src/health.rs: the runtime health state with its data-plane
    leases and drain flag, the classification, and the HTTP endpoint from the
    bytes of a request to the bytes of the response. *)

From Stdlib Require Import ZArith Lia.
From stdpp Require Import prelude strings list gmap.
From S2P Require Import Prelude RustStr Net RustFmt Util Domain Policy Rab Book Model ModelProps Engine Cache Service Sync.

Record DataPlaneHealth := mkDataPlane { dp_required : bool; dp_active_listeners : Z }.
Record SnapshotHealth := mkSnapHealth { sp_loaded : bool; sp_version : Z; sp_schema_version : Z }.
Record ControlPlaneHealth := mkControlHealth {
  ch_status : str; ch_consecutive_failures : Z; ch_last_attempt : option Z; ch_last_success : option Z
}.
Record HealthSnapshot := mkHealthSnapshot {
  hs_status : str; hs_ready : bool; hs_version : str; hs_snapshot : SnapshotHealth;
  hs_control_plane : ControlPlaneHealth; hs_data_plane : DataPlaneHealth
}.
Definition CARGO_PKG_VERSION : str := lit "0.2.0".

Definition saturating_sub (a b : Z) : Z := Z.max 0 (a - b).

(** [classify]; times and durations in seconds *)
Definition unreachable (sync : SyncHealth) (now unreachable_after : Z) : bool :=
  match sh_failure_since sync with
  | Some since => unreachable_after <=? saturating_sub now since
  | None => false
  end.
Definition classify (snapshot_version schema_version : Z) (sync : SyncHealth) (now unreachable_after : Z)
    (data_plane : DataPlaneHealth) (draining : bool) : HealthSnapshot :=
  let loaded := 0 <? snapshot_version in
  let unreachable := unreachable sync now unreachable_after in
  let data_plane_ready := negb (dp_required data_plane) || (0 <? dp_active_listeners data_plane) in
  let '(status, ready) :=
    if draining then (lit "draining", false)
    else if negb loaded then (lit "starting", false)
    else if negb data_plane_ready then (lit "unavailable", false)
    else if unreachable then (lit "degraded", false)
    else (lit "ready", true) in
  let control_plane :=
    if unreachable then lit "unreachable"
    else if bool_decide (is_Some (sh_last_success sync)) then lit "ok"
    else if bool_decide (is_Some (sh_failure_since sync)) then lit "retrying"
    else lit "unknown" in
  mkHealthSnapshot status ready CARGO_PKG_VERSION
    (mkSnapHealth loaded snapshot_version schema_version)
    (mkControlHealth control_plane (sh_failures sync) (sh_last_attempt sync) (sh_last_success sync))
    data_plane.

(** [respond]: the writes it makes, in order *)
Definition respond (status : Z) (reason : str) (body : list Z) (head_only : bool) : list (list Z) :=
  let head := lit "HTTP/1.1 " ++ fmt_dec status ++ [32] ++ reason ++ [13; 10] ++
              lit "Content-Type: application/json" ++ [13; 10] ++
              lit "Content-Length: " ++ fmt_dec (Z.of_nat (length body)) ++ [13; 10] ++
              lit "Connection: close" ++ [13; 10; 13; 10] in
  head :: (if head_only then [] else [body]).

(** The constant bodies, an object with a status. *)
Definition status_body (s : str) : list Z := [123; 34] ++ lit "status" ++ [34; 58; 34] ++ s ++ [34; 125].

(** [s.lines().next().unwrap_or("")] *)
Definition first_line (s : str) : str :=
  match split_once 10 s with
  | Some (line, _) => default line (strip_suffix [13] line)
  | None => s
  end.

Section Health.
Context {N : Ipnet} {D : Chrono} {J : SnapshotJson} {H : Sha256}.
#[local] Existing Instance Book_api.
(** serde_json's text of a health snapshot *)
Context (health_json : HealthSnapshot -> option (list Z)).

Record RuntimeHealth := mkRuntime {
  rh_syncer : Syncer;              (* the engine is the one the syncer swaps *)
  rh_unreachable_after : Z;
  rh_data_plane_required : bool;
  rh_active_listeners : Z;
  rh_draining : bool
}.

(** [RuntimeHealth::new_with_data_plane] *)
Definition runtime_new (s : Syncer) (unreachable_after : Z) (required : bool) : RuntimeHealth :=
  mkRuntime s unreachable_after required 0 false.
(** [data_plane_online] and [Drop for DataPlaneLease]: atomic, wrapping *)
Definition set_listeners (h : RuntimeHealth) (n : Z) : RuntimeHealth :=
  mkRuntime (rh_syncer h) (rh_unreachable_after h) (rh_data_plane_required h) n (rh_draining h).
Definition data_plane_online (h : RuntimeHealth) : RuntimeHealth := set_listeners h (wrap 64 (rh_active_listeners h + 1)).
Definition drop_lease (h : RuntimeHealth) : RuntimeHealth := set_listeners h (wrap 64 (rh_active_listeners h - 1)).
(** [begin_draining] *)
Definition begin_draining (h : RuntimeHealth) : RuntimeHealth :=
  mkRuntime (rh_syncer h) (rh_unreachable_after h) (rh_data_plane_required h) (rh_active_listeners h) true.

(** [RuntimeHealth::snapshot] at time [now] *)
Definition health_snapshot (h : RuntimeHealth) (now : Z) : HealthSnapshot :=
  classify (engine_version (sy_engine (rh_syncer h))) (engine_schema_version (sy_engine (rh_syncer h)))
    (sy_health (rh_syncer h)) now (rh_unreachable_after h)
    (mkDataPlane (rh_data_plane_required h) (rh_active_listeners h)) (rh_draining h).

(** What [serve_request] writes once the head is read. *)
Definition answer (bytes : list Z) (h : RuntimeHealth) (now : Z) : list (list Z) :=
  let request := from_utf8_lossy bytes in
  let parts := split_whitespace (first_line request) in
  let method := default [] (parts !! 0%nat) in
  let target := default [] (parts !! 1%nat) in
  let head_only := eq_ignore_ascii_case method (lit "HEAD") in
  if negb (eq_ignore_ascii_case method (lit "GET")) && negb head_only
  then respond 405 (lit "Method Not Allowed") (status_body (lit "method_not_allowed")) false
  else
    let path := default target (head (split 63 target)) in
    if str_eqb path (lit "/healthz")
    then respond 200 (lit "OK") (default (lit "{}") (health_json (health_snapshot h now))) head_only
    else if str_eqb path (lit "/readyz")
    then
      let snapshot := health_snapshot h now in
      let status := if hs_ready snapshot then 200 else 503 in
      let reason := if hs_ready snapshot then lit "OK" else lit "Service Unavailable" in
      respond status reason (default (lit "{}") (health_json snapshot)) head_only
    else respond 404 (lit "Not Found") (status_body (lit "not_found")) head_only.

(** [serve_request], when its writes succeed *)
Definition HEAD_CAP : nat := 8 * 1024.
Definition serve_request (stream : Reader.t) (h : RuntimeHealth) (now : Z)
    : option (result HeadError (list (list Z)) * Reader.t) :=
  match read_http_head stream HEAD_CAP with
  | Some (Ok head, stream) => Some (Ok (answer head h now), stream)
  | Some (Err e, stream) => Some (Err e, stream)
  | None => None
  end.

(** ** Readiness *)

(** Ready to take traffic: not draining, a snapshot is served, the data plane
    is up if it is required, and the control plane has not been failing for
    [unreachable_after] seconds. *)
Definition ready_spec (h : RuntimeHealth) (now : Z) : Prop :=
  rh_draining h = false /\ 0 < sync_version (rh_syncer h) /\
  (rh_data_plane_required h = true -> 0 < rh_active_listeners h) /\
  match sh_failure_since (sy_health (rh_syncer h)) with
  | Some since => now - since < rh_unreachable_after h /\ 0 < rh_unreachable_after h
  | None => True
  end.

Lemma health_snapshot_ready h now : hs_ready (health_snapshot h now) = true <-> ready_spec h now.
Proof.
  unfold health_snapshot, classify, ready_spec, unreachable, saturating_sub, sync_version. cbn [dp_required dp_active_listeners].
  destruct (rh_draining h); [by split; [|intros [? _]]|].
  destruct (Z.ltb_spec 0 (engine_version (sy_engine (rh_syncer h)))); cbn [negb]; [|by split; [|lia]].
  destruct (rh_data_plane_required h), (Z.ltb_spec 0 (rh_active_listeners h)); cbn [negb orb];
    try (split; [done|intros (_ & _ & Hd & _); specialize (Hd eq_refl); lia]);
    (destruct (sh_failure_since _) as [since|]; [destruct (Z.leb_spec (rh_unreachable_after h) (Z.max 0 (now - since)))|]); cbn;
    (split; [try done; intros _; split_and!; try done; lia|intros; try done; lia]).
Qed.

(** ** The request line *)

Lemma lossy_graphic a s : Forall (fun b => b < 128) a -> from_utf8_lossy (a ++ s) = a ++ from_utf8_lossy s.
Proof. induction 1 as [|b a Hb Ha IH]; [done|]. cbn [app from_utf8_lossy]. rewrite (proj2 (Z.ltb_lt b 128)) by done. by rewrite IH. Qed.
Lemma first_line_prefix a s : 10 ∉ a -> (exists b a', a = a' ++ [b] /\ b <> 13) -> exists t, first_line (a ++ s) = a ++ t.
Proof.
  intros Ha (b & a' & -> & Hb). unfold first_line. destruct (split_once 10 ((a' ++ [b]) ++ s)) as [[l r]|] eqn:E; [|eauto].
  apply split_once_Some in E as [E Hl].
  assert (exists t, l = (a' ++ [b]) ++ t) as [t ->].
  { apply app_eq_inv in E as [(k & E1 & E2)|(k & E1 & E2)]; [|eauto].
    destruct k as [|x k]; [exists []; by rewrite app_nil_r in E1; rewrite app_nil_r|].
    cbn in E2. injection E2 as <- E2. exfalso. apply Ha. rewrite E1. set_solver. }
  unfold strip_suffix. destruct (ends_with [13] _) eqn:Ee; cbn [default]; [|eauto].
  destruct t as [|c t _] using rev_ind.
  - exfalso. rewrite app_nil_r in Ee. unfold ends_with in Ee. rewrite rev_unit in Ee. cbn [rev app starts_with] in Ee. apply andb_true_iff in Ee as [Ee%Z.eqb_eq _]. congruence.
  - exists t. rewrite (app_assoc (a' ++ [b])), length_app. cbn [length]. rewrite take_app_le by lia. apply take_ge. lia.
Qed.

(** A request line's first two words. *)
Definition request_prefix (m t : str) : str := m ++ [32] ++ t ++ [32].
Lemma prefix_chars m t c : Forall graphic m -> Forall graphic t -> c ∈ request_prefix m t -> c = 32 \/ graphic c.
Proof.
  intros Hm Ht. unfold request_prefix. rewrite !elem_of_app, !list_elem_of_singleton. rewrite Forall_forall in Hm, Ht.
  naive_solver.
Qed.
Lemma request_parts m t rest :
  Forall graphic m -> Forall graphic t -> m <> [] -> t <> [] ->
  exists tl, split_whitespace (first_line (from_utf8_lossy (request_prefix m t ++ rest))) = m :: t :: tl.
Proof.
  intros Hm Ht Hm0 Ht0. pose proof (fun c => prefix_chars m t c Hm Ht) as Hc.
  rewrite lossy_graphic by (apply Forall_forall; intros c Hin; destruct (Hc c Hin); unfold graphic in *; lia).
  destruct (first_line_prefix (request_prefix m t) (from_utf8_lossy rest)) as [u ->].
  - intros Hin. destruct (Hc _ Hin); unfold graphic in *; lia.
  - exists 32, (m ++ [32] ++ t). unfold request_prefix. by rewrite <- !app_assoc.
  - unfold split_whitespace, request_prefix. rewrite <- !app_assoc. cbn [app]. rewrite !length_app. cbn [length].
    rewrite split_ws_word by (by apply no_ws_graphic || lia). cbn [app].
    rewrite split_ws_word; [|by apply no_ws_graphic|rewrite !length_app; cbn [length]; lia]. cbn [app].
    destruct m, t; try done. cbn [is_empty app]. eauto.
Qed.

(** The bytes the head reader hands over start like the stream. *)
Lemma head_keeps_prefix s p rest bytes s' :
  Reader.no_error s = true -> Reader.bytes s = p ++ rest -> 13 ∉ p ->
  read_http_head s HEAD_CAP = Some (Ok bytes, s') -> exists rest', bytes = p ++ rest'.
Proof.
  intros Hs Hb Hp Hr. unfold read_http_head, read_http_head_with_remainder in Hr.
  destruct (head_loop _ s [] HEAD_CAP) as [[[[head rem]|] s1]|] eqn:E; simplify_eq.
  apply (head_loop_exact _ _ [] _ _ Hs eq_refl (Nat.le_0_l _)) in E as [E _]. cbn [app] in E. rewrite Hb in E.
  assert (exists r, head = p ++ r) as [r ->]; [|exists (r ++ rem); by rewrite app_assoc].
  unfold head_spec in E. destruct (find_sub _ _) as [i|] eqn:Ef; case_match; simplify_eq; [|eauto].
  apply find_sub_Some in Ef as [[t Ht] _]; [|done].
  destruct (decide (i < length p)%nat) as [Hlt|Hge].
  - exfalso. apply Hp. apply list_elem_of_lookup. exists i. rewrite <- (lookup_app_l p rest) by done.
    rewrite <- (Nat.add_0_r i), <- lookup_drop, Ht. done.
  - rewrite take_app_ge by lia. eauto.
Qed.

(** The readiness endpoint tells the truth: on a request for /readyz (with
    or without a query, GET or HEAD in any case) arriving in any fragmentation
    with a head of at most 8 KiB, the response is written in full, with status
    200 exactly when the node is ready - not draining, serving a snapshot, the
    required data plane up, the control plane not failing for longer than
    configured - and 503 otherwise; a HEAD request gets no body. *)
Theorem readyz_exact (h : RuntimeHealth) (now : Z) (s : Reader.t) (m t rest : str) :
  Reader.no_error s = true -> Reader.bytes s = request_prefix m t ++ rest ->
  is_ok (head_spec HEAD_CAP (Reader.bytes s)) = true ->
  Forall graphic m -> Forall graphic t -> m <> [] -> t <> [] ->
  eq_ignore_ascii_case m (lit "GET") || eq_ignore_ascii_case m (lit "HEAD") = true ->
  head (split 63 t) = Some (lit "/readyz") ->
  exists status reason body s',
    serve_request s h now = Some (Ok (respond status reason body (eq_ignore_ascii_case m (lit "HEAD"))), s') /\
    (status = 200 /\ ready_spec h now \/ status = 503 /\ ~ ready_spec h now).
Proof.
  intros Hs Hb Hok Hm Ht Hm0 Ht0 Hmeth Hpath.
  assert (exists bytes s', read_http_head s HEAD_CAP = Some (Ok bytes, s')) as (bytes & s' & Hr).
  { unfold read_http_head, read_http_head_with_remainder.
    destruct (head_loop_terminates (HEAD_CAP + 2) s [] HEAD_CAP) as [[r s'] E]; [simpl; lia..|]. rewrite E.
    pose proof (head_loop_exact _ _ [] _ (r, s') Hs eq_refl (Nat.le_0_l _) E) as Hx. cbn [app] in Hx.
    destruct r as [[hd rem]|e]; [eauto|]. by rewrite Hx in Hok. }
  destruct (head_keeps_prefix _ _ _ _ _ Hs Hb ltac:(intros Hin; destruct (prefix_chars m t 13 Hm Ht Hin); unfold graphic in *; lia) Hr)
    as [rest' ->].
  unfold serve_request. rewrite Hr. unfold answer.
  destruct (request_parts m t rest' Hm Ht Hm0 Ht0) as [tl ->]. cbn [lookup list_lookup default]; unfold id.
  rewrite <- negb_orb, Hmeth. cbn [negb]. rewrite Hpath. cbn [default]. unfold id.
  rewrite (proj2 (str_eqb_neq (lit "/readyz") (lit "/healthz"))) by done. rewrite (proj2 (str_eqb_eq _ _) eq_refl).
  do 4 eexists. split; [reflexivity|].
  destruct (hs_ready (health_snapshot h now)) eqn:Er; [left|right]; (split; [done|]); rewrite <- health_snapshot_ready; [done|congruence].
Qed.

(** ** Recovery *)

(** A turn of the polling loop in which the control plane gives no usable answer. *)
Definition outage_turn (t : Turn) : Prop := forall since, is_ok (fetch (tu_reply t) since) = false.

(** What an outage leaves alone. *)
Definition unserved (s s' : Syncer) : Prop :=
  sy_cfg s' = sy_cfg s /\ sy_node_id s' = sy_node_id s /\ sy_engine s' = sy_engine s /\ sy_addrbook s' = sy_addrbook s.

Lemma poll_turn_outage s f slept t :
  outage_turn t ->
  exists s', poll_turn (s, f, slept) t =
    (s', saturating_add 32 f 1, slept + next_poll_delay (poll_interval (sy_cfg s)) (saturating_add 32 f 1)) /\
    unserved s s'.
Proof.
  intros Ho. unfold poll_turn, sync_reply. cbn [sync_begin sy_gate set_gate if_since].
  specialize (Ho (sync_version s)). destruct (fetch (tu_reply t) (sync_version s)); [done|].
  cbn. eexists. split; [reflexivity|]. done.
Qed.

Lemma next_poll_delay_cap base f : 1 <= base -> next_poll_delay base f <= Z.max MAX_POLL_BACKOFF_SECS base.
Proof. intros Hb. unfold next_poll_delay. case_match; lia. Qed.

Lemma run_outage s outage : Forall outage_turn outage ->
  exists s' f slept, run_polling s outage = (s', f, slept) /\ unserved s s' /\ 0 <= slept /\
    slept <= Z.of_nat (length outage) * Z.max MAX_POLL_BACKOFF_SECS (poll_interval (sy_cfg s)).
Proof.
  unfold run_polling. induction outage as [|t outage IH] using rev_ind; intros Ho.
  - exists s, 0, 0. by split_and!.
  - apply Forall_app in Ho as [Ho [Ht _]%Forall_cons]. destruct (IH Ho) as (s1 & f & slept & E & Hu & Hge & Hle).
    rewrite foldl_app, E. cbn [foldl]. destruct (poll_turn_outage s1 f slept t Ht) as (s2 & E2 & Hu2).
    exists s2. do 2 eexists. split; [exact E2|]. destruct Hu as (H1 & H2 & H3 & H4), Hu2 as (K1 & K2 & K3 & K4).
    split; [split_and!; congruence|]. rewrite H1, length_app. cbn [length].
    pose proof (next_poll_delay_cap (poll_interval (sy_cfg s)) (saturating_add 32 f 1) ltac:(unfold poll_interval; lia)).
    assert (0 <= next_poll_delay (poll_interval (sy_cfg s)) (saturating_add 32 f 1)).
    { unfold next_poll_delay, poll_interval, u64_max, MAX_POLL_BACKOFF_SECS. case_match; [lia|].
      pose proof (Z.shiftl_nonneg 1 (Z.min (saturating_add 32 f 1) 5)). nia. }
    split; [lia|]. lia.
Qed.


End Health.

(** ** Witnesses *)

Section HealthWitness.
Import SyncDemo.

Definition demo_health : RuntimeHealth := data_plane_online (runtime_new start 90 true).
Definition lost : Turn := mkTurn None place io 1000 0.
Definition back : Turn := mkTurn (Some good) place io 2000 0.


Lemma readyz_exact_witness :
  let s : Reader.t := [Ok (lit "hEaD /ready"); Ok (lit "z?probe=1 HTTP/1.1"); Ok [13; 10]; Ok [13; 10]] in
  exists status reason body s',
    serve_request (fun _ => None) s demo_health 0 = Some (Ok (respond status reason body true), s') /\
    (status = 200 /\ ready_spec demo_health 0 \/ status = 503 /\ ~ ready_spec demo_health 0).
Proof.
  intros s.
  apply (readyz_exact (fun _ => None) demo_health 0 s (lit "hEaD") (lit "/readyz?probe=1") (lit "HTTP/1.1" ++ [13; 10; 13; 10]));
    try (by apply graphic_lit; vm_compute); try (vm_compute; reflexivity); done.
Defined.
End HealthWitness.
