(* ===== verification/Io.v ===== *)
(** * Io: replayed prefixes and the two-way splice

    Models src/src/io.rs: [PrefixedIo], the copy loops with their byte reports,
    and how [splice] combines the two directions. A source is the script of what
    its reads deliver, a sink the script of what its writes do. The token bucket
    only delays copies (its arithmetic is floating point) and is not modelled:
    the throttled loop differs from the plain one in its buffer size. *)

From Stdlib Require Import ZArith Lia.
From stdpp Require Import prelude strings list.
From S2P Require Import Prelude RustStr Util.

(** ** [PrefixedIo] *)

Record PrefixedIo := mkPrefixed { pf_prefix : list Z; pf_offset : nat; pf_inner : Reader.t }.
Definition prefixed_new (prefix : list Z) (inner : Reader.t) : PrefixedIo := mkPrefixed prefix 0 inner.

(** [poll_read] with [n] bytes of room in the buffer *)
Definition prefixed_read (n : nat) (p : PrefixedIo) : result unit (list Z) * PrefixedIo :=
  if (pf_offset p <? length (pf_prefix p))%nat && (0 <? n)%nat then
    let available := drop (pf_offset p) (pf_prefix p) in
    let take_ := Nat.min (length available) n in
    let offset := (pf_offset p + take_)%nat in
    (Ok (take take_ available),
     if (offset =? length (pf_prefix p))%nat then mkPrefixed [] 0 (pf_inner p)
     else mkPrefixed (pf_prefix p) offset (pf_inner p))
  else
    let '(r, inner) := Reader.read n (pf_inner p) in (r, mkPrefixed (pf_prefix p) (pf_offset p) inner).

(** The plain stream a wrapper stands for. *)
Definition unread (p : PrefixedIo) : Reader.t :=
  match drop (pf_offset p) (pf_prefix p) with
  | [] => pf_inner p
  | rest => Ok rest :: pf_inner p
  end.

(** ** Copying *)

Inductive ErrorKind := BrokenPipe | ConnectionReset | NotConnected | UnexpectedEof | OtherKind.

(** What the reads deliver, and what the successive [write_all] calls do: [None]
    succeeds, [Some (k, e)] delivers [k] bytes and fails. *)
Definition Source : Type := list (result ErrorKind (list Z)).
Definition Sink : Type := list (option (nat * ErrorKind)).

Definition source_read (n : nat) (r : Source) : result ErrorKind (list Z) * Source :=
  match r with
  | [] => (Ok [], [])
  | Err e :: r => (Err e, r)
  | Ok c :: r => if (length c <=? n)%nat then (Ok c, r) else (Ok (take n c), Ok (drop n c) :: r)
  end.

Record CopyReport := mkReport { cr_bytes : Z; cr_error : option ErrorKind }.
(** A report with what reached the other side and whether the sink was shut down. *)
Record Copied := mkCopied { co_report : CopyReport; co_delivered : list Z; co_shutdown : bool }.

(** The loop of [copy_unlimited_report] and [copy_throttled_report]; [None] when
    the fuel runs out. The counter is a [u64] that wraps. *)
Fixpoint copy_loop (fuel buf : nat) (r : Source) (w : Sink) (total : Z) (delivered : list Z) : option Copied :=
  match fuel with
  | O => None
  | S fuel =>
      match source_read buf r with
      | (Err e, _) => Some (mkCopied (mkReport total (Some e)) delivered false)
      | (Ok c, r) =>
          if (length c =? 0)%nat then Some (mkCopied (mkReport total None) delivered true)
          else
            match w with
            | Some (k, e) :: _ => Some (mkCopied (mkReport total (Some e)) (delivered ++ take k c) false)
            | None :: w => copy_loop fuel buf r w (wrap 64 (total + Z.of_nat (length c))) (delivered ++ c)
            | [] => copy_loop fuel buf r [] (wrap 64 (total + Z.of_nat (length c))) (delivered ++ c)
            end
      end
  end.

(** Every turn consumes a byte or a scripted read ([copy_loop_total]). *)
Definition source_size (r : Source) : nat :=
  sum_list_with (fun x => match x with Ok c => S (length c) | Err _ => 1%nat end) r.
Definition copy_report (buf : nat) (r : Source) (w : Sink) : option Copied :=
  copy_loop (S (source_size r)) buf r w 0 [].

(** [copy_throttled_report]: the buffer depends on whether a rate is set *)
Definition copy_throttled_report (r : Source) (w : Sink) (rate : Z) : option Copied :=
  if rate =? 0 then copy_report (64 * 1024) r w else copy_report (32 * 1024) r w.

(** [CopyReport::into_result] *)
Definition into_result (r : CopyReport) : result ErrorKind Z :=
  match cr_error r with Some e => Err e | None => Ok (cr_bytes r) end.

(** [is_benign_splice_close] *)
Definition is_benign_splice_close (e : ErrorKind) : bool :=
  match e with BrokenPipe | ConnectionReset | NotConnected | UnexpectedEof => true | OtherKind => false end.

Record SpliceStats := mkSplice { ss_bytes_up : Z; ss_bytes_down : Z }.

(** The result of [splice] once both directions have ended. *)
Definition splice_result (up down : CopyReport) : result ErrorKind SpliceStats :=
  let stats := mkSplice (cr_bytes up) (cr_bytes down) in
  match cr_error up, cr_error down with
  | None, None => Ok stats
  | Some e, None => if is_benign_splice_close e then Ok stats else Err e
  | None, Some e => if is_benign_splice_close e then Ok stats else Err e
  | Some u, Some d => if is_benign_splice_close u && is_benign_splice_close d then Ok stats else Err u
  end.
(** [splice]: the two copies share nothing, so their interleaving does not
    matter; the client's side is read by [up] and written by [down]. *)
Definition splice (a_read : Source) (a_write : Sink) (b_read : Source) (b_write : Sink) (up_rate down_rate : Z)
    : option (result ErrorKind SpliceStats * Copied * Copied) :=
  match copy_throttled_report a_read b_write up_rate, copy_throttled_report b_read a_write down_rate with
  | Some up, Some down => Some (splice_result (co_report up) (co_report down), up, down)
  | _, _ => None
  end.

(** ** A replayed prefix is read before the stream *)

Lemma prefixed_read_unread n p :
  (0 < n)%nat -> (pf_offset p <= length (pf_prefix p))%nat ->
  let '(r, p') := prefixed_read n p in
  Reader.read n (unread p) = (r, unread p') /\ (pf_offset p' <= length (pf_prefix p'))%nat.
Proof.
  destruct p as [pre off inner]. cbn [pf_offset pf_prefix pf_inner]. intros Hn Ho. unfold prefixed_read, unread. cbn [pf_offset pf_prefix pf_inner].
  destruct (Nat.ltb_spec off (length pre)) as [Hlt|Hge].
  - rewrite (proj2 (Nat.ltb_lt 0 n)) by done. cbn [andb]. cbn zeta.
    assert (length (drop off pre) = length pre - off)%nat as Hl by apply length_drop.
    destruct (drop off pre) as [|b rest] eqn:Ed; [simpl in Hl; lia|]. rewrite Hl.
    cbn [Reader.read]. rewrite Hl. destruct (Nat.leb_spec (length pre - off) n) as [Hle|Hgt].
    + rewrite Nat.min_l by lia. rewrite (take_ge (b :: rest)) by lia.
      rewrite (proj2 (Nat.eqb_eq _ _)) by lia. cbn [pf_prefix pf_offset pf_inner]. done.
    + rewrite Nat.min_r by lia. rewrite (proj2 (Nat.eqb_neq _ _)) by lia. cbn [pf_prefix pf_offset pf_inner].
      rewrite <- drop_drop, Ed. split; [|lia]. destruct (drop n (b :: rest)) eqn:E2; [|done].
      apply (f_equal length) in E2. rewrite length_drop in E2. simpl in *. lia.
  - cbn [andb]. rewrite drop_ge by lia. destruct (Reader.read n inner) as [r inner']. cbn [pf_prefix pf_offset pf_inner].
    by rewrite drop_ge by lia.
Qed.

(** A reading client: the sizes of its buffers; what each read returned. *)
Fixpoint read_all {S} (read : nat -> S -> result unit (list Z) * S) (sizes : list nat) (s : S) : list (result unit (list Z)) :=
  match sizes with
  | [] => []
  | n :: sizes => let '(r, s) := read n s in r :: read_all read sizes s
  end.
Lemma prefixed_read_all sizes p :
  Forall (fun n => 0 < n)%nat sizes -> (pf_offset p <= length (pf_prefix p))%nat ->
  read_all prefixed_read sizes p = read_all Reader.read sizes (unread p).
Proof.
  intros Hs. revert p; induction Hs as [|n sizes Hn Hs IH]; intros p Hp; [done|]. cbn [read_all].
  pose proof (prefixed_read_unread n p Hn Hp) as H. destruct (prefixed_read n p) as [r p']. destruct H as [-> Hp'].
  f_equal. by apply IH.
Qed.

(** ** The copy loop *)

(** The bytes a source delivers before it ends or fails. *)
Fixpoint source_bytes (r : Source) : list Z :=
  match r with
  | Ok (b :: c) :: r => (b :: c) ++ source_bytes r
  | _ => []
  end.
Fixpoint source_end (r : Source) : option ErrorKind :=
  match r with
  | Ok (_ :: _) :: r => source_end r
  | Err e :: _ => Some e
  | _ => None
  end.

Lemma source_read_step n r :
  (0 < n)%nat ->
  match source_read n r with
  | (Err e, _) => source_bytes r = [] /\ source_end r = Some e
  | (Ok [], _) => source_bytes r = [] /\ source_end r = None
  | (Ok (b :: c), r') => source_bytes r = (b :: c) ++ source_bytes r' /\ source_end r = source_end r' /\
                         (source_size r' < source_size r)%nat
  end.
Proof.
  intros Hn. destruct r as [|[[|b c]|e] r]; try done. unfold source_read.
  destruct (Nat.leb_spec (length (b :: c)) n) as [Hle|Hgt].
  - split_and!; try done. unfold source_size. simpl. lia.
  - destruct n as [|n]; [lia|]. cbn [take drop]. simpl in Hgt. unfold source_size.
    assert (length (drop n c) = length c - n)%nat as Hl by apply length_drop.
    destruct (drop n c) as [|x t] eqn:Ed; [simpl in Hl; lia|]. cbn [source_bytes source_end sum_list_with length app] in *.
    split_and!; [|done|lia]. rewrite <- (take_drop n c) at 1. by rewrite Ed, <- !app_assoc.
Qed.

(** What a copy does, whatever the sizes of the reads. *)
Definition copied_ok (r : Source) (w : Sink) (total : Z) (delivered : list Z) (o : Copied) : Prop :=
  exists sent cut rest, source_bytes r = sent ++ cut ++ rest /\ co_delivered o = delivered ++ sent ++ cut /\
    cr_bytes (co_report o) = wrap 64 (total + Z.of_nat (length sent)) /\
    co_shutdown o = match cr_error (co_report o) with None => true | Some _ => false end /\
    (cr_error (co_report o) = None -> cut = [] /\ rest = [] /\ source_end r = None) /\
    (Forall (fun x => x = None) w -> cut = [] /\ rest = [] /\ cr_error (co_report o) = source_end r).

Lemma copy_loop_ok fuel buf r w total delivered :
  (0 < buf)%nat -> (source_size r < fuel)%nat -> wrap 64 total = total ->
  exists o, copy_loop fuel buf r w total delivered = Some o /\ copied_ok r w total delivered o.
Proof.
  intros Hb. revert r w total delivered; induction fuel as [|fuel IH]; intros r w total delivered Hf Ht; [lia|].
  cbn [copy_loop]. pose proof (source_read_step buf r Hb) as Hs. destruct (source_read buf r) as [[[|b c]|e] r'].
  - destruct Hs as [Hb0 He]. eexists. split; [reflexivity|]. exists [], [], []. rewrite Hb0, He. cbn.
    rewrite app_nil_r, Z.add_0_r. by split_and!.
  - destruct Hs as (Hbytes & Hend & Hsize). cbn [length Nat.eqb].
    assert (Hstep : forall w', (Forall (fun x => x = None) w -> Forall (fun x => x = None) w') ->
      exists o, copy_loop fuel buf r' w' (wrap 64 (total + Z.of_nat (S (length c)))) (delivered ++ b :: c) = Some o /\
                copied_ok r w total delivered o).
    { intros w' Hw. destruct (IH r' w' (wrap 64 (total + Z.of_nat (S (length c)))) (delivered ++ b :: c)) as (o & Ho & Hok); [lia|apply wrap_fits, wrap_range; lia|].
      exists o. split; [done|]. destruct Hok as (sent & cut & rest & E1 & E2 & E3 & E4 & E5 & E6).
      exists ((b :: c) ++ sent), cut, rest. rewrite Hbytes, E1, E2, Hend, <- !app_assoc. split_and!; auto.
      rewrite E3. unfold wrap. rewrite Zplus_mod_idemp_l. f_equal. rewrite length_app. simpl. lia. }
    destruct w as [|[[k e]|] w]; [apply Hstep; auto| |apply Hstep; by inversion 1].
    eexists. split; [reflexivity|]. exists [], (take k (b :: c)), (drop k (b :: c) ++ source_bytes r').
    cbn [co_delivered co_report cr_bytes cr_error co_shutdown app length]. rewrite Z.add_0_r, app_assoc, take_drop.
    split_and!; try done. by inversion 1.
  - destruct Hs as [Hb0 He]. eexists. split; [reflexivity|]. exists [], [], []. rewrite Hb0, He. cbn.
    rewrite app_nil_r, Z.add_0_r. by split_and!.
Qed.


Lemma copy_throttled_total r w rate : exists o, copy_throttled_report r w rate = Some o /\ copied_ok r w 0 [] o.
Proof. unfold copy_throttled_report, copy_report. case_match; apply copy_loop_ok; try lia; done. Qed.

(** What a splice does; a byte count is what the side moved, modulo 2^64. *)
Definition spliced (a_read : Source) (a_write : Sink) (b_read : Source) (b_write : Sink)
    (r : result ErrorKind SpliceStats) (up down : Copied) : Prop :=
    (exists rest, source_bytes a_read = co_delivered up ++ rest) /\
    (exists rest, source_bytes b_read = co_delivered down ++ rest) /\
    (Forall (fun x => x = None) a_write -> Forall (fun x => x = None) b_write ->
     source_end a_read = None -> source_end b_read = None ->
     co_delivered up = source_bytes a_read /\ co_delivered down = source_bytes b_read /\
     co_shutdown up = true /\ co_shutdown down = true /\
     r = Ok (mkSplice (wrap 64 (Z.of_nat (length (source_bytes a_read)))) (wrap 64 (Z.of_nat (length (source_bytes b_read)))))) /\
    (is_ok r = true -> forall e, e ∈ option_list (cr_error (co_report up)) ++ option_list (cr_error (co_report down)) ->
       is_benign_splice_close e = true).
Lemma splice_total (a_read : Source) (a_write : Sink) (b_read : Source) (b_write : Sink) (up_rate down_rate : Z) :
  exists r up down, splice a_read a_write b_read b_write up_rate down_rate = Some (r, up, down) /\
    spliced a_read a_write b_read b_write r up down.
Proof.
  destruct (copy_throttled_total a_read b_write up_rate) as (up & Eu & Hu). destruct (copy_throttled_total b_read a_write down_rate) as (down & Ed & Hd).
  unfold splice. rewrite Eu, Ed. do 3 eexists. split; [reflexivity|].
  destruct Hu as (su & cu & ru & U1 & U2 & U3 & U4 & U5 & U6), Hd as (sd & cd & rd & D1 & D2 & D3 & D4 & D5 & D6). cbn in U2, D2.
  split; [exists ru; by rewrite U1, U2, app_assoc|]. split; [exists rd; by rewrite D1, D2, app_assoc|]. split.
  - intros Ha Hb Ea Eb. destruct (U6 Hb) as (-> & -> & EU). destruct (D6 Ha) as (-> & -> & ED).
    rewrite EU, Ea in U4. rewrite ED, Eb in D4. unfold splice_result. rewrite EU, ED, Ea, Eb, U1, D1, U2, D2, U3, D3, !app_nil_r.
    by split_and!.
  - unfold splice_result. destruct (cr_error (co_report up)) as [eu|], (cr_error (co_report down)) as [ed|]; cbn.
    + destruct (is_benign_splice_close eu) eqn:?, (is_benign_splice_close ed) eqn:?; cbn; try done. intros _ e.
      rewrite !elem_of_cons. intros [->|[->|Hn]]; [done|done|by apply elem_of_nil in Hn].
    + destruct (is_benign_splice_close eu) eqn:?; cbn; try done. intros _ e.
      rewrite !elem_of_cons. intros [->|Hn]; [done|by apply elem_of_nil in Hn].
    + destruct (is_benign_splice_close ed) eqn:?; cbn; try done. intros _ e.
      rewrite !elem_of_cons. intros [->|Hn]; [done|by apply elem_of_nil in Hn].
    + intros _ e Hn. by apply elem_of_nil in Hn.
Qed.
(** A splice always ends, and each direction is faithful: what reaches the
    other side is a prefix of what was sent, in order; when neither side fails
    it is everything, the sink is shut down, and the reported byte counts are
    the bytes moved (modulo 2^64); a report of success means every error, if
    any, was one of the benign ways a connection closes. *)
Theorem splice_exact (a_read : Source) (a_write : Sink) (b_read : Source) (b_write : Sink) (up_rate down_rate : Z) :
  exists r up down, splice a_read a_write b_read b_write up_rate down_rate = Some (r, up, down) /\
    (exists rest, source_bytes a_read = co_delivered up ++ rest) /\
    (exists rest, source_bytes b_read = co_delivered down ++ rest) /\
    (Forall (fun x => x = None) a_write -> Forall (fun x => x = None) b_write ->
     source_end a_read = None -> source_end b_read = None ->
     co_delivered up = source_bytes a_read /\ co_delivered down = source_bytes b_read /\
     co_shutdown up = true /\ co_shutdown down = true /\
     r = Ok (mkSplice (wrap 64 (Z.of_nat (length (source_bytes a_read)))) (wrap 64 (Z.of_nat (length (source_bytes b_read)))))) /\
    (is_ok r = true -> forall e, e ∈ option_list (cr_error (co_report up)) ++ option_list (cr_error (co_report down)) ->
       is_benign_splice_close e = true).
Proof. apply splice_total. Qed.
