(* ===== verification/Conn.v ===== *)
(** * Conn: a connection as the handlers see it

    The script of what the peer's reads deliver, the bytes written so far, and
    which of the coming writes succeed; with the state-and-error monad the
    protocol handlers are written in. *)

From Stdlib Require Import ZArith Lia String.
From stdpp Require Import prelude strings list.
From S2P Require Import Prelude RustStr Util Frame Stream.

(** [cn_writes]: the outcomes of the coming [write_all] calls; past its end they succeed. *)
Record Conn := mkConn { cn_in : Reader.t; cn_sent : list Z; cn_writes : list bool }.

Definition conn_m (E A : Type) : Type := Conn -> result E A * Conn.
#[global] Instance conn_ret {E} : MRet (conn_m E) := fun A a c => (Ok a, c).
#[global] Instance conn_bind {E} : MBind (conn_m E) := fun A B k m c =>
  match m c with (Ok a, c) => k a c | (Err e, c) => (Err e, c) end.
Definition cfail {E A} (e : E) : conn_m E A := fun c => (Err e, c).

(** [stream.read_exact] into [n] bytes, [stream.write_all]; [io] is the conversion
    the question mark applies. *)
Definition cread {E} (io : IoError -> E) (n : nat) : conn_m E (list Z) := fun c =>
  let '(r, rd) := read_exact n (cn_in c) in
  (map_err io r, mkConn rd (cn_sent c) (cn_writes c)).
Definition cread_u8 {E} (io : IoError -> E) : conn_m E Z := b ← cread io 1; mret (nth 0 b 0).
Definition cwrite {E} (io : IoError -> E) (bytes : list Z) : conn_m E unit := fun c =>
  match cn_writes c with
  | false :: w => (Err (io ReadError), mkConn (cn_in c) (cn_sent c) w)
  | true :: w => (Ok tt, mkConn (cn_in c) (cn_sent c ++ bytes) w)
  | [] => (Ok tt, mkConn (cn_in c) (cn_sent c ++ bytes) [])
  end.

(** A peer whose reads and writes do not fail. *)
Definition sound (c : Conn) : Prop := Reader.no_error (cn_in c) = true /\ Forall (fun b => b = true) (cn_writes c).

(** From a sound connection whose peer sends [input], [m] ends with [r], has
    written [out], and leaves [rest] unread in a sound connection. *)
Definition exchanges {E A} (m : conn_m E A) (input : list Z) (r : result E A) (out rest : list Z) : Prop :=
  forall c, sound c -> Reader.bytes (cn_in c) = input ->
    exists c', m c = (r, c') /\ sound c' /\ Reader.bytes (cn_in c') = rest /\ cn_sent c' = cn_sent c ++ out.

Lemma exchanges_ret {E A} (a : A) input : exchanges (mret (M := conn_m E) a) input (Ok a) [] input.
Proof. intros c Hs Hb. exists c. rewrite app_nil_r. done. Qed.
Lemma exchanges_fail {E A} (e : E) input : exchanges (cfail (A := A) e) input (Err e) [] input.
Proof. intros c Hs Hb. exists c. rewrite app_nil_r. done. Qed.
Lemma exchanges_bind {E A B} (m : conn_m E A) (k : A -> conn_m E B) input a out1 mid r out2 rest :
  exchanges m input (Ok a) out1 mid -> exchanges (k a) mid r out2 rest ->
  exchanges (m ≫= k) input r (out1 ++ out2) rest.
Proof.
  intros Hm Hk c Hs Hb. destruct (Hm c Hs Hb) as (c1 & E1 & Hs1 & Hb1 & Hw1).
  destruct (Hk c1 Hs1 Hb1) as (c2 & E2 & Hs2 & Hb2 & Hw2). exists c2. unfold mbind, conn_bind. rewrite E1.
  split; [done|]. split; [done|]. split; [done|]. by rewrite Hw2, Hw1, app_assoc.
Qed.
Lemma exchanges_read {E} (io : IoError -> E) n a rest :
  length a = n -> exchanges (cread io n) (a ++ rest) (Ok a) [] rest.
Proof.
  intros Hl c [Hn Hw] Hb. unfold cread. pose proof (read_exact_agrees n (cn_in c) Hn) as Ha. rewrite Hb in Ha.
  rewrite length_app in Ha. rewrite (proj2 (Nat.leb_le _ _)) in Ha by lia.
  destruct Ha as (r' & -> & Hr' & Eb). rewrite take_app_length' in * by done. rewrite drop_app_length' in Eb by done.
  eexists. split; [reflexivity|]. cbn. rewrite app_nil_r. by split_and!.
Qed.
Lemma exchanges_read_u8 {E} (io : IoError -> E) b rest : exchanges (cread_u8 io) (b :: rest) (Ok b) [] rest.
Proof. apply (exchanges_bind _ _ _ [b] [] rest _ []); [by apply (exchanges_read io 1 [b])|apply exchanges_ret]. Qed.
Lemma exchanges_write {E} (io : IoError -> E) bytes input : exchanges (cwrite io bytes) input (Ok tt) bytes input.
Proof.
  intros c [Hn Hw] Hb. unfold cwrite. destruct (cn_writes c) as [|b w] eqn:Ew.
  - eexists. split; [reflexivity|]. by split_and!.
  - inversion Hw as [|? ? -> Hw']. subst. eexists. split; [reflexivity|]. by split_and!.
Qed.
Lemma exchanges_out {E A} (m : conn_m E A) input r out out' rest :
  exchanges m input r out rest -> out = out' -> exchanges m input r out' rest.
Proof. by intros H <-. Qed.
