(* ===== verification/ConnectorConfig.v ===== *)
(** * ConnectorConfig: the ingress connector's configuration (src/src/ingress/connector.rs)

    The checks of [ReverseIngressConfig::validate] and the lowering
    [to_runtime]: a mapping leads to a local listener of the node by name, and
    only to a loopback address. *)

From Stdlib Require Import ZArith Lia String.
From stdpp Require Import prelude strings list gmap sorting.
From S2P Require Import Sniff.
From S2P Require Import Prelude RustStr Net NetProps RustFmt Util Frame IngressFrame RelayConfig.

Definition MAX_RECONNECT_SECS : Z := 3600.

Record IngressListenerConfig := mkIngressListener {
  il_id : str; il_transport : str; il_public_port : Z; il_local_listener : str; il_max_inner_datagram : Z
}.
Record ReverseIngressConfig := mkIngressConfig {
  ri_enable : bool; ri_relay : str; ri_server_name : str; ri_token : str; ri_token_env : str; ri_skip_cert_verify : bool;
  ri_initial_mtu : option Z; ri_max_streams : Z; ri_max_udp_flows : Z; ri_reconnect_min_secs : Z; ri_reconnect_max_secs : Z;
  ri_listeners : list IngressListenerConfig
}.
(** [ReverseIngressConfig::default] *)
Definition ReverseIngressConfig_default : ReverseIngressConfig :=
  mkIngressConfig false [] [] [] [] false None 1024 4096 1 30 [].

Inductive IngressError :=
| RelayRequired | RelayInvalid | ServerNameRequired | TokenSource | StreamsRange | FlowsRange | ReconnectBounds | ReconnectMax
| TokenUnsafe_ | Shared (e : RelayError) | ListenersRequired | TransportInvalid | DuplicateMapping | InnerRange | TokenUnset
| UnknownTcpListener | UnknownTuicListener | ListenAddress | NotLoopback.

(** [validate_token] *)
Definition validate_token (t : str) : result IngressError unit :=
  ensure (negb (is_empty t)) TokenUnsafe_ ;;
  ensure ((length t <=? MAX_TOKEN_BYTES)%nat && negb (existsb (fun b => (b =? 13) || (b =? 10) || (b =? 0)) t)) TokenUnsafe_.
Fixpoint validate_mappings (l : list IngressListenerConfig) (ids : gset (list Z * Transport)) : result IngressError unit :=
  match l with
  | [] => Ok tt
  | m :: l =>
      map_err Shared (validate_id (il_id m)) ;;
      map_err Shared (validate_id (il_local_listener m)) ;;
      transport ← map_err (fun _ => TransportInvalid) (transport_parse (il_transport m));
      ensure (bool_decide ((il_id m, transport) ∉ ids)) DuplicateMapping ;;
      ensure (in_range 576 65507 (il_max_inner_datagram m)) InnerRange ;;
      validate_mappings l ({[(il_id m, transport)]} ∪ ids)
  end.
(** [ReverseIngressConfig::validate] *)
Definition ingress_validate (c : ReverseIngressConfig) : result IngressError unit :=
  if negb (ri_enable c) then Ok tt
  else
    ensure (negb (is_empty (trim (ri_relay c)))) RelayRequired ;;
    ensure (bool_decide (is_Some (split_host_port (ri_relay c)))) RelayInvalid ;;
    ensure (negb (is_empty (trim (ri_server_name c))) || ri_skip_cert_verify c) ServerNameRequired ;;
    ensure (negb (eqb (is_empty (trim (ri_token c))) (is_empty (trim (ri_token_env c))))) TokenSource ;;
    ensure (in_range 1 MAX_CONFIG_STREAMS (ri_max_streams c)) StreamsRange ;;
    ensure (in_range 1 MAX_CONFIG_UDP_FLOWS (ri_max_udp_flows c)) FlowsRange ;;
    ensure ((0 <? ri_reconnect_min_secs c) && (ri_reconnect_min_secs c <=? ri_reconnect_max_secs c)) ReconnectBounds ;;
    ensure (ri_reconnect_max_secs c <=? MAX_RECONNECT_SECS) ReconnectMax ;;
    (if negb (is_empty (trim (ri_token c))) then validate_token (trim (ri_token c)) else Ok tt) ;;
    map_err Shared (validate_initial_mtu (ri_initial_mtu c)) ;;
    ensure (negb (is_empty (ri_listeners c))) ListenersRequired ;;
    validate_mappings (ri_listeners c) ∅.

(** [IpAddr::is_unspecified], [IpAddr::is_loopback] *)
Definition is_unspecified (a : IpAddr) : bool := match a with V4 a => a =? 0 | V6 a => a =? 0 end.
Definition is_loopback (a : IpAddr) : bool := match a with V4 a => Z.shiftr a 24 =? 127 | V6 a => a =? 1 end.
Definition with_ip (ip : IpAddr) (port : Z) : SocketAddr := match ip with V4 a => SockV4 a port | V6 a => SockV6 a port 0 0 end.
Definition ip_of (a : SocketAddr) : IpAddr := match a with SockV4 ip _ => V4 ip | SockV6 ip _ _ _ => V6 ip end.
Definition port_of (a : SocketAddr) : Z := match a with SockV4 _ port => port | SockV6 _ port _ _ => port end.
(** [normalize_loopback_target] *)
Definition normalize_loopback_target (raw : str) : result IngressError SocketAddr :=
  address ← ok_or (parse_socket_addr raw) ListenAddress;
  let ip := if is_unspecified (ip_of address)
            then match ip_of address with V6 _ => V6 1 | V4 _ => V4 (127 * 2 ^ 24 + 1) end
            else ip_of address in
  ensure (is_loopback ip) NotLoopback ;;
  Ok (with_ip ip (port_of address)).

(** [LocalTarget], [ConnectorConfig] *)
Record LocalTarget := mkTarget {
  lt_id : str; lt_transport : Transport; lt_public_port : Z; lt_local_listener : str; lt_local_addr : SocketAddr; lt_max_inner_datagram : Z
}.
Record ConnectorConfig := mkConnectorConfig {
  cn_node_id : str; cn_relay : str; cn_server_name : str; cn_token : str; cn_skip_cert_verify : bool; cn_initial_mtu : option Z;
  cn_max_streams : Z; cn_max_udp_flows : Z; cn_reconnect_min : Z; cn_reconnect_max : Z; cn_targets : list LocalTarget
}.
(** The node's listeners: their names and addresses *)
Abbreviation Named := (list (list Z * list Z)).
Definition find_listener (l : Named) (name : str) : option str := snd <$> List.find (fun kv => str_eqb (fst kv) name) l.
Definition lower_mapping (tcp tuic : Named) (m : IngressListenerConfig) : result IngressError LocalTarget :=
  transport ← map_err (fun _ => TransportInvalid) (transport_parse (il_transport m));
  listen ← match transport with
           | Tcp => ok_or (find_listener tcp (il_local_listener m)) UnknownTcpListener
           | Udp => ok_or (find_listener tuic (il_local_listener m)) UnknownTuicListener
           end;
  local_addr ← normalize_loopback_target listen;
  Ok (mkTarget (il_id m) transport (il_public_port m) (il_local_listener m) local_addr (il_max_inner_datagram m)).
(** [ReverseIngressConfig::to_runtime] *)
Definition to_runtime (env_var : str -> option str) (node_id : str) (tcp tuic : Named) (c : ReverseIngressConfig) :
    result IngressError (option ConnectorConfig) :=
  ingress_validate c ;;
  if negb (ri_enable c) then Ok None
  else
    token ← (if is_empty (trim (ri_token_env c)) then Ok (trim (ri_token c)) else ok_or (env_var (trim (ri_token_env c))) TokenUnset);
    validate_token token ;;
    map_err Shared (validate_id node_id) ;;
    targets ← try_map (lower_mapping tcp tuic) (ri_listeners c);
    server_name ← (if is_empty (trim (ri_server_name c)) then ok_or (fst <$> split_host_port (ri_relay c)) RelayInvalid
                   else Ok (trim (ri_server_name c)));
    Ok (Some (mkConnectorConfig node_id (ri_relay c) server_name token (ri_skip_cert_verify c) (ri_initial_mtu c) (ri_max_streams c)
                (ri_max_udp_flows c) (ri_reconnect_min_secs c * 1000) (ri_reconnect_max_secs c * 1000) targets)).

(** ** What an accepted configuration guarantees *)

Lemma transport_of_mapping raw t : map_err (fun _ => TransportInvalid) (transport_parse raw) = Ok t <-> transport_parse raw = Ok t.
Proof. destruct (transport_parse raw); cbn; split; congruence. Qed.
(** A listener of the file, by name, at a loopback address or the wildcard. *)
Record target_ok (tcp tuic : Named) (m : IngressListenerConfig) (t : LocalTarget) : Prop := {
  to_id : lt_id t = il_id m;
  to_valid : valid_id (lt_id t);
  to_transport : transport_parse (il_transport m) = Ok (lt_transport t);
  to_port : lt_public_port t = il_public_port m;
  to_size : 576 <= lt_max_inner_datagram t <= 65507;
  to_listener : exists listen address,
    (il_local_listener m, listen) ∈ match lt_transport t with Tcp => tcp | Udp => tuic end /\
    parse_socket_addr listen = Some address /\ port_of (lt_local_addr t) = port_of address /\
    (ip_of (lt_local_addr t) = ip_of address \/ is_unspecified (ip_of address) = true);
  to_loopback : is_loopback (ip_of (lt_local_addr t)) = true;
}.
Lemma normalize_loopback_target_ok raw a : normalize_loopback_target raw = Ok a ->
  is_loopback (ip_of a) = true /\
  exists address, parse_socket_addr raw = Some address /\ port_of a = port_of address /\
    (ip_of a = ip_of address \/ is_unspecified (ip_of address) = true).
Proof.
  unfold normalize_loopback_target. intros H. apply bind_Ok in H as (address & Ha%ok_or_Ok & H). cbv zeta in H.
  apply bind_Ok in H as ([] & Hl%ensure_Ok & [= <-]).
  destruct (is_unspecified (ip_of address)) eqn:Eu; (split; [by destruct (ip_of address)|exists address]).
  - split_and!; [done|by destruct (ip_of address)|by right].
  - split_and!; [done|by destruct (ip_of address)|left; by destruct (ip_of address)].
Qed.
Lemma find_listener_Some l name listen : find_listener l name = Some listen -> (name, listen) ∈ l.
Proof.
  unfold find_listener. destruct (List.find _ l) as [[n v]|] eqn:E; [|done]. intros [= <-]. apply List.find_some in E as [Hin E].
  apply str_eqb_eq in E. cbn in E. subst. by apply list_elem_of_In.
Qed.
Lemma validate_mappings_ok l ids : validate_mappings l ids = Ok tt ->
  Forall (fun m => valid_id (il_id m) /\ 576 <= il_max_inner_datagram m <= 65507) l /\
  forall ts, Forall2 (fun m t => lt_id t = il_id m /\ transport_parse (il_transport m) = Ok (lt_transport t)) l ts ->
    NoDup (map (fun t => (lt_id t, lt_transport t)) ts) /\ forall t, t ∈ ts -> (lt_id t, lt_transport t) ∉ ids.
Proof.
  revert ids; induction l as [|m l IH]; intros ids H.
  { split; [done|]. intros ts Hf. apply Forall2_nil_inv_l in Hf as ->. split; [constructor|]. intros t Ht. by apply elem_of_nil in Ht. }
  cbn [validate_mappings] in H. apply bind_Ok in H as ([] & Hid & H). apply bind_Ok in H as ([] & _ & H).
  apply bind_Ok in H as (t & Ht%transport_of_mapping & H). apply bind_Ok in H as ([] & Hd%ensure_Ok%bool_decide_eq_true & H).
  apply bind_Ok in H as ([] & Hr%ensure_Ok%in_range_spec & H). destruct (IH _ H) as [Hf Hn]. split.
  { constructor; [|done]. split; [|done]. unfold valid_id. by destruct (validate_id (il_id m)) as [[]|]. }
  intros ts Hts. apply Forall2_cons_inv_l in Hts as (t0 & ts' & [E1 E2] & Hts & ->). rewrite Ht in E2. injection E2 as ->. rewrite <- E1 in *.
  destruct (Hn ts' Hts) as [Hnd Hni]. split.
  - cbn. constructor; [|done]. intros Hin. apply list_elem_of_fmap in Hin as (t & E & Ht'). apply (Hni t Ht'). rewrite <- E. set_solver.
  - intros t [->|Hin]%elem_of_cons; [done|]. pose proof (Hni t Hin). set_solver.
Qed.
Lemma validate_token_encodable tok : validate_token tok = Ok tt -> validate_field tok MAX_TOKEN_BYTES "invalid token" = Ok tt.
Proof.
  unfold validate_token. intros H. apply bind_Ok in H as ([] & H1%ensure_Ok & H2%ensure_Ok). unfold validate_field.
  apply andb_true_iff in H2 as [Hl He]. apply negb_true_iff in He, H1. rewrite H1, (proj2 (Nat.ltb_ge _ _)) by (by apply Nat.leb_le). cbn.
  assert (existsb (fun b => (b =? cr) || (b =? nl) || (b =? 0)) tok = false) as ->; [|done]. by rewrite <- He.
Qed.
Lemma valid_id_encodable v e : valid_id v -> validate_field v 128 e = Ok tt.
Proof.
  unfold valid_id, validate_id. intros H. apply bind_Ok in H as ([] & H1%ensure_Ok & H). apply bind_Ok in H as ([] & H2%ensure_Ok & H3%ensure_Ok).
  unfold validate_field. apply negb_true_iff in H1. rewrite H1, (proj2 (Nat.ltb_ge _ _)) by (by apply Nat.leb_le). cbn.
  assert (existsb (fun b => (b =? cr) || (b =? nl) || (b =? 0)) v = false) as ->; [|done].
  apply not_true_iff_false. rewrite existsb_exists. intros (b & Hb & Eb). rewrite forallb_forall in H3. specialize (H3 b Hb).
  repeat (apply orb_true_iff in Eb as [Eb|Eb]); apply Z.eqb_eq in Eb; subst b; vm_compute in H3; done.
Qed.
Lemma ingress_validate_ok c : ri_enable c = true -> ingress_validate c = Ok tt ->
  ri_listeners c <> [] /\ validate_mappings (ri_listeners c) ∅ = Ok tt /\
  1 <= ri_max_streams c <= MAX_CONFIG_STREAMS /\ 1 <= ri_max_udp_flows c <= MAX_CONFIG_UDP_FLOWS /\
  0 < ri_reconnect_min_secs c <= ri_reconnect_max_secs c /\ ri_reconnect_max_secs c <= MAX_RECONNECT_SECS.
Proof.
  intros He H. unfold ingress_validate in H. rewrite He in H. cbn [negb] in H.
  do 4 (apply bind_Ok in H as ([] & _ & H)).
  apply bind_Ok in H as ([] & Hs%ensure_Ok%in_range_spec & H). apply bind_Ok in H as ([] & Hf%ensure_Ok%in_range_spec & H).
  apply bind_Ok in H as ([] & Hb%ensure_Ok & H). apply bind_Ok in H as ([] & Hm%ensure_Ok & H).
  do 2 (apply bind_Ok in H as ([] & _ & H)). apply bind_Ok in H as ([] & Hl%ensure_Ok & H). bools.
  split_and!; try done; try lia. by apply is_empty_false.
Qed.
Lemma lower_mapping_ok tcp tuic m t :
  lower_mapping tcp tuic m = Ok t -> valid_id (il_id m) -> 576 <= il_max_inner_datagram m <= 65507 -> target_ok tcp tuic m t.
Proof.
  unfold lower_mapping. intros H Hid Hsz. apply bind_Ok in H as (tr & Ht%transport_of_mapping & H). apply bind_Ok in H as (listen & Hl & H).
  apply bind_Ok in H as (a & Ha%normalize_loopback_target_ok & [= <-]). destruct Ha as (Hlo & address & Hp & Hport & Hip).
  split; cbn; try done. exists listen, address. split_and!; try done. destruct tr; apply ok_or_Ok in Hl; by apply find_listener_Some.
Qed.
Lemma to_runtime_inv env_var node tcp tuic file c :
  to_runtime env_var node tcp tuic file = Ok (Some c) ->
  ri_enable file = true /\ ingress_validate file = Ok tt /\ validate_token (cn_token c) = Ok tt /\ valid_id node /\ cn_node_id c = node /\
  try_map (lower_mapping tcp tuic) (ri_listeners file) = Ok (cn_targets c) /\ cn_max_udp_flows c = ri_max_udp_flows file /\
  cn_relay c = ri_relay file /\ cn_reconnect_min c = ri_reconnect_min_secs file * 1000 /\ cn_reconnect_max c = ri_reconnect_max_secs file * 1000.
Proof.
  unfold to_runtime. intros H. apply bind_Ok in H as ([] & Hv & H). destruct (ri_enable file); [|done]. cbn [negb] in H.
  apply bind_Ok in H as (tok & _ & H). apply bind_Ok in H as ([] & Htok & H). apply bind_Ok in H as ([] & Hid & H).
  apply bind_Ok in H as (ts & Hts & H). apply bind_Ok in H as (sn & _ & [= <-]). cbn. split_and!; try done.
  unfold valid_id. by destruct (validate_id node) as [[]|].
Qed.
(** Every target comes from a mapping of the file. *)
Lemma runtime_targets env_var node tcp tuic file c :
  to_runtime env_var node tcp tuic file = Ok (Some c) -> Forall2 (target_ok tcp tuic) (ri_listeners file) (cn_targets c).
Proof.
  intros (He & Hv & _ & _ & _ & Hts & _)%to_runtime_inv. apply ingress_validate_ok in Hv as (_ & Hm & _); [|done].
  apply validate_mappings_ok in Hm as [Hf _]. apply try_map_Forall2 in Hts. revert Hf.
  induction Hts as [|m t l ts Hlow Hts IH]; intros Hf; [constructor|]. apply Forall_cons in Hf as [[? ?] Hf]. constructor; [by apply lower_mapping_ok|by apply IH].
Qed.

(** An enabled ingress section that lowers to a connector leads only to the
    node's own listeners: every target is a mapping of the file, in order, to a
    listener the node has under that name for that transport, at a loopback
    address (a wildcard becomes the family's loopback) and the listener's own
    port; no listener id is mapped twice for a transport; the registration and
    every lease request can be encoded; flow and back-off bounds are in range. *)
Theorem connector_config_sound (env_var : str -> option str) (node : str) (tcp tuic : Named) (file : ReverseIngressConfig)
    (c : ConnectorConfig) :
  to_runtime env_var node tcp tuic file = Ok (Some c) ->
  Forall2 (target_ok tcp tuic) (ri_listeners file) (cn_targets c) /\ cn_targets c <> [] /\
  NoDup (map (fun t => (lt_id t, lt_transport t)) (cn_targets c)) /\
  (exists bytes, register_encode (mkRegister (cn_node_id c) (cn_token c)) = Ok bytes) /\
  (forall t, t ∈ cn_targets c -> exists bytes, lease_encode (mkLease (lt_id t) (lt_transport t) (lt_public_port t)) = Ok bytes) /\
  1 <= cn_max_udp_flows c <= MAX_CONFIG_UDP_FLOWS /\
  0 < cn_reconnect_min c <= cn_reconnect_max c /\ cn_reconnect_max c <= MAX_RECONNECT_SECS * 1000.
Proof.
  intros H. pose proof (runtime_targets _ _ _ _ _ _ H) as Ht.
  apply to_runtime_inv in H as (He & Hv & Htok & Hid & En & Hts & Ef & _ & Emin & Emax).
  apply ingress_validate_ok in Hv as (Hne & Hm & _ & Hf & Hb & Hmax); [|done]. apply validate_mappings_ok in Hm as [_ Hd].
  rewrite Ef, Emin, Emax. split; [done|]. split; [intros E; rewrite E in Ht; by apply Forall2_nil_inv_r in Ht|].
  split; [apply (Hd (cn_targets c)); eapply Forall2_impl; [exact Ht|]; intros m t []; done|].
  split; [unfold register_encode; cbn; rewrite En, (valid_id_encodable _ _ Hid); cbn; rewrite validate_token_encodable by done; cbn; by eexists|].
  split; [|lia]. intros t Hin. apply list_elem_of_lookup in Hin as [i Hi]. destruct (Forall2_lookup_r _ _ _ _ _ Ht Hi) as (m & _ & []).
  unfold lease_encode. cbn. rewrite (valid_id_encodable (lt_id t)) by done. cbn. by eexists.
Qed.

(** ** A concrete section *)

Definition connector_demo_file : ReverseIngressConfig :=
  mkIngressConfig true (lit "relay.example:4433") (lit "relay.example") (lit " tok-1 ") [] false None 64 2 1 30
    [mkIngressListener (lit "web") (lit "TCP") 8080 (lit "https-in") 1200; mkIngressListener (lit "web") (lit "udp") 0 (lit "tuic-in") 1200].
Definition connector_demo_tcp : Named := [(lit "https-in", lit "0.0.0.0:8443")].
Definition connector_demo_tuic : Named := [(lit "tuic-in", lit "[::]:8443")].
Definition connector_demo : ConnectorConfig :=
  match to_runtime (fun _ => None) (lit "node-1") connector_demo_tcp connector_demo_tuic connector_demo_file with
  | Ok (Some c) => c
  | _ => mkConnectorConfig [] [] [] [] false None 0 0 0 0 []
  end.
Lemma connector_demo_lowers :
  to_runtime (fun _ => None) (lit "node-1") connector_demo_tcp connector_demo_tuic connector_demo_file = Ok (Some connector_demo).
Proof. vm_compute. reflexivity. Qed.
Lemma connector_config_sound_witness :
  map lt_local_addr (cn_targets connector_demo) = [SockV4 (127 * 2 ^ 24 + 1) 8443; SockV6 1 8443 0 0] /\ 1 <= cn_max_udp_flows connector_demo <= 65536.
Proof. split; [vm_compute; reflexivity|]. apply (connector_config_sound _ _ _ _ _ _ connector_demo_lowers). Defined.
(** A listener that is not on loopback is refused. *)
Example exposed_listener_refused :
  to_runtime (fun _ => None) (lit "n") [(lit "https-in", lit "203.0.113.2:8443")] connector_demo_tuic connector_demo_file = Err NotLoopback.
Proof. vm_compute. reflexivity. Qed.
