(* ===== verification/Connector.v ===== *)
(** * Connector: the NAT side of the reverse ingress (src/src/ingress/connector.rs, metadata.rs)

    The node registers with a relay and leases its listeners; what the relay
    then sends is handed to a local listener over loopback, after the client it
    comes from has been written to a registry under the socket's source
    address. [connector_step] is one atomic step of one of the session's tasks:
    the datagram reader, the sweeper, the return task of each flow, a task per
    TCP stream, the end of the session, and the listeners reading the registry.
    A step runs from one await, or one lock, to the next. *)

From Stdlib Require Import ZArith Lia String.
From stdpp Require Import prelude strings list gmap sorting.
From S2P Require Import Sniff.
From S2P Require Import Prelude RustStr Net NetProps RustFmt Util Frame Stream Conn IngressFrame RelayConfig ConnectorConfig.

(** ** The registries (metadata.rs) *)

Definition MAX_PENDING_TCP : nat := 8192.
Definition MAX_UDP_FLOWS : Z := 65536.
Record IngressMetadata := mkMetadata {
  im_relay_instance_id : str; im_tunnel_session_id : str; im_lease_id : Z; im_listener_id : str;
  im_ingress_id : option str; im_flow_id : option str; im_client_addr : SocketAddr; im_relay_addr : SocketAddr
}.
Abbreviation Entries := (gmap SocketAddr IngressMetadata).
Definition insert_bounded (entries : Entries) (source : SocketAddr) (metadata : IngressMetadata) (limit : Z) : bool * Entries :=
  if negb (bool_decide (is_Some (entries !! source))) && (limit <=? Z.of_nat (size entries)) then (false, entries)
  else (true, <[source := metadata]> entries).
Definition register_tcp (entries : Entries) (source : SocketAddr) (metadata : IngressMetadata) : bool * Entries :=
  insert_bounded entries source metadata (Z.of_nat MAX_PENDING_TCP).
Definition take_tcp (entries : Entries) (source : SocketAddr) : option IngressMetadata * Entries :=
  (entries !! source, delete source entries).
Definition remove_tcp (entries : Entries) (source : SocketAddr) : Entries := delete source entries.
Definition register_udp (entries : Entries) (source : SocketAddr) (metadata : IngressMetadata) : bool * Entries :=
  insert_bounded entries source metadata MAX_UDP_FLOWS.
Definition lookup_udp (entries : Entries) (source : SocketAddr) : option IngressMetadata := entries !! source.
Definition remove_udp (entries : Entries) (source : SocketAddr) : Entries := delete source entries.

(** ** Registration and leases *)

Record ActiveLease := mkActive { al_lease_id : Z; al_target : LocalTarget; al_public_port : Z }.
(** [ConnectorSession], but for its flows *)
Record ConnectorSession := mkConnectorSession {
  cs_relay_addr : SocketAddr; cs_relay_id : str; cs_session_id : Id128; cs_leases : gmap Z ActiveLease; cs_max_udp_flows : Z
}.
Inductive SessionError :=
| BadRelay | RelayUnresolved | RelayUnreached | StreamIo | Unencodable | BadReply | RegistrationRefused
| MissingHeader (name : string) | BadSessionId | BadLeaseId | BadPublicPort | LeaseRefused (code : str).

Definition of_result {A} (r : result SessionError A) : conn_m SessionError A := fun conn => (r, conn).
(** [frame::write_frame] of an encoded message, and [Reply::parse] of a frame read *)
Definition write_message (encoded : result FrameError (list Z)) : conn_m SessionError unit :=
  bytes ← of_result (map_err (fun _ => Unencodable) encoded);
  bytes ← of_result (map_err (fun _ => StreamIo) (write_frame bytes));
  cwrite (fun _ => StreamIo) bytes.
Definition read_reply : conn_m SessionError Reply := fun conn =>
  match read_frame (cn_in conn) with
  | Some (Ok lines, rd) => (map_err (fun _ => BadReply) (reply_parse lines), mkConn rd (cn_sent conn) (cn_writes conn))
  | Some (Err _, rd) => (Err StreamIo, mkConn rd (cn_sent conn) (cn_writes conn))
  | None => (Err StreamIo, conn)
  end.
Definition header_of (reply : Reply) (name : string) : result SessionError str :=
  ok_or (reply_header reply (lit name)) (MissingHeader name).
(** The registration in [connect_and_serve], on the control stream *)
Definition register_node (c : ConnectorConfig) : conn_m SessionError (str * Id128) :=
  write_message (register_encode (mkRegister (cn_node_id c) (cn_token c))) ;;
  reply ← read_reply;
  match reply with
  | ReplyErr _ => cfail RegistrationRefused
  | ReplyOk _ =>
      relay_id ← of_result (header_of reply "relay-id");
      session_id ← of_result (header_of reply "session-id");
      session_id ← of_result (map_err (fun _ => BadSessionId) (parse_hex session_id));
      mret (relay_id, session_id)
  end.
(** One turn of the lease loop, on a stream of its own *)
Definition lease_target (t : LocalTarget) : conn_m SessionError ActiveLease :=
  write_message (lease_encode (mkLease (lt_id t) (lt_transport t) (lt_public_port t))) ;;
  reply ← read_reply;
  match reply with
  | ReplyOk _ =>
      id ← of_result (header_of reply "lease-id");
      id ← of_result (ok_or (from_str_radix 10 64 id) BadLeaseId);
      port ← of_result (header_of reply "public-port");
      port ← of_result (ok_or (from_str_radix 10 16 port) BadPublicPort);
      mret (mkActive id t port)
  | ReplyErr code => cfail (LeaseRefused code)
  end.
(** The lease loop; [streams] are the streams opened, [None] for a failure. *)
Fixpoint lease_targets (targets : list LocalTarget) (streams : list (option Conn)) (leases : gmap Z ActiveLease) :
    result SessionError (gmap Z ActiveLease) :=
  match targets, streams with
  | [], _ => Ok leases
  | t :: targets, Some stream :: streams =>
      lease ← fst (lease_target t stream);
      lease_targets targets streams (<[al_lease_id lease := lease]> leases)
  | _ :: _, _ => Err StreamIo
  end.
(** [connect_and_serve], up to the tasks it spawns *)
Definition establish (c : ConnectorConfig) (resolve : str -> Z -> option SocketAddr) (reach : SocketAddr -> bool)
    (control : option Conn) (streams : list (option Conn)) : result SessionError ConnectorSession :=
  '(host, port) ← ok_or (split_host_port (cn_relay c)) BadRelay;
  remote ← ok_or (resolve host port) RelayUnresolved;
  ensure (reach remote) RelayUnreached ;;
  control ← ok_or control StreamIo;
  '(relay_id, session_id) ← fst (register_node c control);
  leases ← lease_targets (cn_targets c) streams ∅;
  Ok (mkConnectorSession remote relay_id session_id leases (cn_max_udp_flows c)).
(** [run_until]: the back-off slept after a session of [elapsed] ms, and the next *)
Definition run_backoff (c : ConnectorConfig) (elapsed backoff : Z) : Z * Z :=
  let backoff := if 30000 <=? elapsed then cn_reconnect_min c else backoff in
  (backoff, Z.min (backoff * 2) (cn_reconnect_max c)).

(** ** The session's state *)

Definition FLOW_IDLE : Z := 60000.

(** A flow's socket with its return task: what [spawn_udp_return] was given, the
    clock shared with the flow, whether the task was aborted and still runs. *)
Record FlowSocket := mkFlowSocket {
  fs_lease_id : Z; fs_flow_id : Id128; fs_expected : SocketAddr; fs_max : Z; fs_last_seen : Z; fs_aborted : bool; fs_running : bool
}.
Definition touch (now : Z) (s : FlowSocket) : FlowSocket :=
  mkFlowSocket (fs_lease_id s) (fs_flow_id s) (fs_expected s) (fs_max s) now (fs_aborted s) (fs_running s).
Definition abort_task (s : FlowSocket) : FlowSocket :=
  mkFlowSocket (fs_lease_id s) (fs_flow_id s) (fs_expected s) (fs_max s) (fs_last_seen s) true (fs_running s).
Definition halt_task (s : FlowSocket) : FlowSocket :=
  mkFlowSocket (fs_lease_id s) (fs_flow_id s) (fs_expected s) (fs_max s) (fs_last_seen s) (fs_aborted s) false.
(** [ConnectorFlow]; [cf_socket] names its socket. *)
Record ConnectorFlow := mkConnectorFlow { cf_client_addr : SocketAddr; cf_source_addr : SocketAddr; cf_socket : Z }.
Abbreviation FlowKey := (Z * list Z)%type.

(** A datagram on its way through [udp_loop] *)
Record Uplinked := mkUplinked { ul_lease : ActiveLease; ul_flow_id : Id128; ul_client : SocketAddr; ul_payload : list Z }.
Definition ul_key (u : Uplinked) : FlowKey := (al_lease_id (ul_lease u), ul_flow_id u).
(** Where [udp_loop] awaits: a datagram, the flows (to look the flow up), the
    bind of a new socket, the flows again (to insert it), the send, the flows
    (to touch the clock). *)
Inductive UdpLoop :=
| Reading
| Looking (u : Uplinked)
| Binding (u : Uplinked)
| Inserting (u : Uplinked) (source : SocketAddr) (socket : Z)
| Sending (u : Uplinked) (socket : Z)
| Touching (key : FlowKey)
| Stopped.
(** The end of a session: not begun; tasks aborted; the flows taken, with those
    still to release. *)
Inductive Ending := Live | Aborting | Clearing (flows : list ConnectorFlow).
(** A task of [handle_tcp] once its entry is registered: connecting; failed,
    with the entry to remove; writing the reply; splicing. *)
Inductive TcpTask :=
| Connecting (source : SocketAddr) (metadata : IngressMetadata) (target : SocketAddr)
| Failed (source : SocketAddr)
| Replying (source : SocketAddr) (metadata : IngressMetadata)
| Splicing (source : SocketAddr) (metadata : IngressMetadata).

(** [co_expired]: the keys the sweeper has still to remove; [None] once stopped. *)
Record Connector := mkConnector {
  co_session : ConnectorSession; co_flows : gmap (Z * list Z) ConnectorFlow; co_sockets : gmap Z FlowSocket;
  co_udp_entries : Entries; co_tcp_entries : Entries; co_loop : UdpLoop; co_expired : option (list FlowKey); co_ending : Ending;
  co_tasks : gmap Z TcpTask
}.
Definition connector_new (s : ConnectorSession) (udp tcp : Entries) : Connector :=
  mkConnector s ∅ ∅ udp tcp Reading (Some []) Live ∅.
Definition set_loop (l : UdpLoop) (w : Connector) : Connector :=
  mkConnector (co_session w) (co_flows w) (co_sockets w) (co_udp_entries w) (co_tcp_entries w) l (co_expired w) (co_ending w) (co_tasks w).
Definition set_flows (m : gmap (Z * list Z) ConnectorFlow) (w : Connector) : Connector :=
  mkConnector (co_session w) m (co_sockets w) (co_udp_entries w) (co_tcp_entries w) (co_loop w) (co_expired w) (co_ending w) (co_tasks w).
Definition set_sockets (m : gmap Z FlowSocket) (w : Connector) : Connector :=
  mkConnector (co_session w) (co_flows w) m (co_udp_entries w) (co_tcp_entries w) (co_loop w) (co_expired w) (co_ending w) (co_tasks w).
Definition set_udp (m : Entries) (w : Connector) : Connector :=
  mkConnector (co_session w) (co_flows w) (co_sockets w) m (co_tcp_entries w) (co_loop w) (co_expired w) (co_ending w) (co_tasks w).
Definition set_tcp (m : Entries) (w : Connector) : Connector :=
  mkConnector (co_session w) (co_flows w) (co_sockets w) (co_udp_entries w) m (co_loop w) (co_expired w) (co_ending w) (co_tasks w).
Definition set_expired (l : option (list FlowKey)) (w : Connector) : Connector :=
  mkConnector (co_session w) (co_flows w) (co_sockets w) (co_udp_entries w) (co_tcp_entries w) (co_loop w) l (co_ending w) (co_tasks w).
Definition set_ending (e : Ending) (w : Connector) : Connector :=
  mkConnector (co_session w) (co_flows w) (co_sockets w) (co_udp_entries w) (co_tcp_entries w) (co_loop w) (co_expired w) e (co_tasks w).
Definition set_tasks (m : gmap Z TcpTask) (w : Connector) : Connector :=
  mkConnector (co_session w) (co_flows w) (co_sockets w) (co_udp_entries w) (co_tcp_entries w) (co_loop w) (co_expired w) (co_ending w) m.
Definition update_socket (f : FlowSocket -> FlowSocket) (socket : Z) (w : Connector) : Connector :=
  set_sockets (alter f socket (co_sockets w)) w.

(** ** Events and outputs *)

Inductive Event :=
| Datagramed (bytes : list Z)
| Looked
| Bound (socket : Z) (port : option Z) (now : Z)
| Inserted
| Sent (ok : bool)
| Touched (now : Z)
| Returned (socket : Z) (src : SocketAddr) (data : list Z) (max_size : option nat) (now : Z) (sent : bool)
| ReturnFailed (socket : Z)
| ReturnStopped (socket : Z)
| Swept (now : Z)
| SweepRemoves
| SessionEnded
| LoopStopped
| SweeperStopped
| FlowsTaken
| FlowReleased
| StreamOpened (task : Z) (frame : result IoError (list str)) (port : option Z)
| TargetConnected (task : Z) (ok : bool)
| EntryRemoved (task : Z)
| ReplyWritten (task : Z) (ok : bool)
| StreamClosed (task : Z)
| ListenerTakes (source : SocketAddr)
| ListenerLooks (source : SocketAddr).

Inductive Output :=
| FlowOpened (socket : Z) (source : SocketAddr) (metadata : IngressMetadata)
| ToLocal (socket : Z) (target : SocketAddr) (payload : list Z)
| ToRelay (socket : Z) (datagram : list Z)
| Answered (task : Z) (reply : Reply)
| LocalConnected (task : Z) (source target : SocketAddr)
| Observed (source : SocketAddr) (metadata : option IngressMetadata).

(** ** Datagrams *)

Definition active_lease (s : ConnectorSession) (id : Z) (t : Transport) : option ActiveLease :=
  lease ← cs_leases s !! id;
  if bool_decide (lt_transport (al_target lease) = t) then Some lease else None.
(** The checks of [udp_loop] before the flow is looked up *)
Definition uplinked (s : ConnectorSession) (bytes : list Z) : option Uplinked :=
  match datagram_parse bytes with
  | Ok (Uplink lease_id flow_id client payload) =>
      lease ← active_lease s lease_id Udp;
      if lt_max_inner_datagram (al_target lease) <? Z.of_nat (length payload) then None
      else Some (mkUplinked lease flow_id client payload)
  | _ => None
  end.
Definition is_ipv6 (a : SocketAddr) : bool := match a with SockV4 _ _ => false | SockV6 _ _ _ _ => true end.
(** Sockets are bound to the loopback address of the target's family; the
    system chooses the port. *)
Definition local_source (target : SocketAddr) (port : Z) : SocketAddr :=
  with_ip (if is_ipv6 target then V6 1 else V4 (127 * 2 ^ 24 + 1)) port.
Definition udp_metadata (s : ConnectorSession) (u : Uplinked) : IngressMetadata :=
  mkMetadata (cs_relay_id s) (display_id (cs_session_id s)) (al_lease_id (ul_lease u)) (lt_id (al_target (ul_lease u)))
    None (Some (display_id (ul_flow_id u))) (ul_client u) (cs_relay_addr s).
(** The system does not give out a source address a live flow has. *)
Definition releasing (e : Ending) : list ConnectorFlow := match e with Clearing flows => flows | _ => [] end.
Definition held_flows (w : Connector) : list ConnectorFlow := map snd (map_to_list (co_flows w)) ++ releasing (co_ending w).
Definition udp_in_use (w : Connector) (source : SocketAddr) : bool :=
  existsb (fun f => bool_decide (cf_source_addr f = source)) (held_flows w).

(** The first critical section of [get_or_open_flow] *)
Definition on_looked (w : Connector) (u : Uplinked) : UdpLoop :=
  match co_flows w !! ul_key u with
  | Some flow => if bool_decide (cf_client_addr flow = ul_client u) then Sending u (cf_socket flow) else Reading
  | None => if cs_max_udp_flows (co_session w) <=? Z.of_nat (size (co_flows w)) then Reading else Binding u
  end.
(** From the bind to the second critical section: the entry, the return task *)
Definition on_bound (w : Connector) (u : Uplinked) (socket : Z) (port : option Z) (now : Z) : option (Connector * list Output) :=
  match port with
  | None => Some (set_loop Reading w, [])
  | Some port =>
      let target := lt_local_addr (al_target (ul_lease u)) in
      let source := local_source target port in
      if udp_in_use w source || bool_decide (is_Some (co_sockets w !! socket)) then None
      else
        match register_udp (co_udp_entries w) source (udp_metadata (co_session w) u) with
        | (false, _) => Some (set_loop Reading w, [])
        | (true, entries) =>
            let task := mkFlowSocket (al_lease_id (ul_lease u)) (ul_flow_id u) target (lt_max_inner_datagram (al_target (ul_lease u)))
                          now false true in
            Some (set_loop (Inserting u source socket) (set_udp entries (set_sockets (<[socket := task]> (co_sockets w)) w)),
                  [FlowOpened socket source (udp_metadata (co_session w) u)])
        end
  end.
(** The second critical section *)
Definition on_inserted (w : Connector) (u : Uplinked) (source : SocketAddr) (socket : Z) : Connector :=
  match co_flows w !! ul_key u with
  | Some existing =>
      set_loop (Sending u (cf_socket existing)) (update_socket abort_task socket (set_udp (remove_udp (co_udp_entries w) source) w))
  | None =>
      set_loop (Sending u socket) (set_flows (<[ul_key u := mkConnectorFlow (ul_client u) source socket]> (co_flows w)) w)
  end.
(** A packet at a flow's socket, in [spawn_udp_return] *)
Definition on_returned (w : Connector) (socket : Z) (s : FlowSocket) (src : SocketAddr) (data : list Z) (max_size : option nat)
    (now : Z) (sent : bool) : Connector * list Output :=
  if negb (bool_decide (src = fs_expected s)) || (fs_max s <? Z.of_nat (length data)) then (w, [])
  else
    let w := update_socket (touch now) socket w in
    let encoded := datagram_encode (Downlink (fs_lease_id s) (fs_flow_id s) data) in
    if match max_size with Some max => (max <? length encoded)%nat | None => false end then (w, [])
    else if sent then (w, [ToRelay socket encoded]) else (update_socket halt_task socket w, []).
Definition release_flow (f : ConnectorFlow) (w : Connector) : Connector :=
  update_socket abort_task (cf_socket f) (set_udp (remove_udp (co_udp_entries w) (cf_source_addr f)) w).
Definition remove_flow (key : FlowKey) (w : Connector) : Connector :=
  match co_flows w !! key with
  | Some flow => release_flow flow (set_flows (delete key (co_flows w)) w)
  | None => w
  end.
(** The flows [flow_sweeper] collects *)
Definition expired (w : Connector) (now : Z) : list FlowKey :=
  map fst (List.filter (fun '(_, f) => match co_sockets w !! cf_socket f with
                                       | Some s => FLOW_IDLE <=? Z.max 0 (now - fs_last_seen s)
                                       | None => false
                                       end) (map_to_list (co_flows w))).

(** ** Streams *)

(** The checks of [handle_tcp], or the code of the refusal *)
Definition tcp_request (s : ConnectorSession) (frame : result IoError (list str)) : result str (ActiveLease * OpenTcpRequest) :=
  lines ← map_err (fun _ => BAD_REQUEST) frame;
  request ← map_err (fun _ => BAD_REQUEST) (open_parse lines);
  lease ← ok_or (active_lease s (lease_id request) Tcp) FORBIDDEN;
  ensure (str_eqb (relay_instance_id request) (cs_relay_id s) && bool_decide (tunnel_session_id request = cs_session_id s)) FORBIDDEN ;;
  Ok (lease, request).
Definition tcp_metadata (s : ConnectorSession) (lease : ActiveLease) (request : OpenTcpRequest) : IngressMetadata :=
  mkMetadata (cs_relay_id s) (display_id (cs_session_id s)) (lease_id request) (lt_id (al_target lease))
    (Some (display_id (ingress_id request))) None (client_addr request) (cs_relay_addr s).
(** The source address a task's socket is open on. *)
Definition tcp_source (t : TcpTask) : option (SocketAddr * IngressMetadata) :=
  match t with
  | Connecting source m _ | Replying source m | Splicing source m => Some (source, m)
  | Failed _ => None
  end.
Definition tcp_in_use (w : Connector) (source : SocketAddr) : bool :=
  existsb (fun '(_, t) => bool_decide (fst <$> tcp_source t = Some source)) (map_to_list (co_tasks w)).
(** [handle_tcp] and [connect_local_tcp], up to the connect *)
Definition on_stream_opened (w : Connector) (task : Z) (frame : result IoError (list str)) (port : option Z) :
    option (Connector * list Output) :=
  match tcp_request (co_session w) frame with
  | Err code => Some (w, [Answered task (ReplyErr code)])
  | Ok (lease, request) =>
      match port with
      | None => Some (w, [Answered task (ReplyErr LOCAL_UNAVAILABLE)])
      | Some port =>
          let target := lt_local_addr (al_target lease) in
          let source := local_source target port in
          if tcp_in_use w source then None
          else
            let metadata := tcp_metadata (co_session w) lease request in
            match register_tcp (co_tcp_entries w) source metadata with
            | (false, _) => Some (w, [Answered task (ReplyErr LOCAL_UNAVAILABLE)])
            | (true, entries) => Some (set_tcp entries (set_tasks (<[task := Connecting source metadata target]> (co_tasks w)) w), [])
            end
      end
  end.
Definition to_task (task : Z) (t : TcpTask) (w : Connector) : Connector := set_tasks (<[task := t]> (co_tasks w)) w.
Definition end_task (task : Z) (w : Connector) : Connector := set_tasks (delete task (co_tasks w)) w.

(** ** One step: [None] when the event cannot happen *)
Definition connector_step (w : Connector) (e : Event) : option (Connector * list Output) :=
  match e with
  | Datagramed bytes =>
      match co_loop w with
      | Reading => Some (match uplinked (co_session w) bytes with Some u => set_loop (Looking u) w | None => w end, [])
      | _ => None
      end
  | Looked => match co_loop w with Looking u => Some (set_loop (on_looked w u) w, []) | _ => None end
  | Bound socket port now => match co_loop w with Binding u => on_bound w u socket port now | _ => None end
  | Inserted => match co_loop w with Inserting u source socket => Some (on_inserted w u source socket, []) | _ => None end
  | Sent ok =>
      match co_loop w with
      | Sending u socket =>
          if ok then Some (set_loop (Touching (ul_key u)) w, [ToLocal socket (lt_local_addr (al_target (ul_lease u))) (ul_payload u)])
          else Some (set_loop Reading w, [])
      | _ => None
      end
  | Touched now =>
      match co_loop w with
      | Touching key =>
          Some (set_loop Reading (match co_flows w !! key with Some f => update_socket (touch now) (cf_socket f) w | None => w end), [])
      | _ => None
      end
  | Returned socket src data max_size now sent =>
      s ← co_sockets w !! socket;
      if fs_running s then Some (on_returned w socket s src data max_size now sent) else None
  | ReturnFailed socket =>
      s ← co_sockets w !! socket;
      if fs_running s then Some (update_socket halt_task socket w, []) else None
  | ReturnStopped socket =>
      s ← co_sockets w !! socket;
      if fs_aborted s then Some (update_socket halt_task socket w, []) else None
  | Swept now => match co_expired w with Some [] => Some (set_expired (Some (expired w now)) w, []) | _ => None end
  | SweepRemoves => match co_expired w with Some (key :: keys) => Some (set_expired (Some keys) (remove_flow key w), []) | _ => None end
  | SessionEnded => match co_ending w with Live => Some (set_ending Aborting w, []) | _ => None end
  | LoopStopped => match co_ending w with Live => None | _ => Some (set_loop Stopped w, []) end
  | SweeperStopped => match co_ending w with Live => None | _ => Some (set_expired None w, []) end
  | FlowsTaken =>
      match co_ending w with
      | Aborting => Some (set_ending (Clearing (map snd (map_to_list (co_flows w)))) (set_flows ∅ w), [])
      | _ => None
      end
  | FlowReleased =>
      match co_ending w with
      | Clearing (f :: flows) => Some (set_ending (Clearing flows) (release_flow f w), [])
      | _ => None
      end
  | StreamOpened task frame port =>
      match co_tasks w !! task with Some _ => None | None => on_stream_opened w task frame port end
  | TargetConnected task ok =>
      match co_tasks w !! task with
      | Some (Connecting source metadata target) =>
          if ok then Some (to_task task (Replying source metadata) w, [LocalConnected task source target])
          else Some (to_task task (Failed source) w, [])
      | _ => None
      end
  | EntryRemoved task =>
      match co_tasks w !! task with
      | Some (Failed source) =>
          Some (end_task task (set_tcp (remove_tcp (co_tcp_entries w) source) w), [Answered task (ReplyErr LOCAL_UNAVAILABLE)])
      | _ => None
      end
  | ReplyWritten task ok =>
      match co_tasks w !! task with
      | Some (Replying source metadata) =>
          if ok then Some (to_task task (Splicing source metadata) w, [Answered task (ReplyOk ∅)]) else Some (end_task task w, [])
      | _ => None
      end
  | StreamClosed task => match co_tasks w !! task with Some (Splicing _ _) => Some (end_task task w, []) | _ => None end
  | ListenerTakes source =>
      let '(m, entries) := take_tcp (co_tcp_entries w) source in Some (set_tcp entries w, [Observed source m])
  | ListenerLooks source => Some (w, [Observed source (lookup_udp (co_udp_entries w) source)])
  end.
Fixpoint connector_run (w : Connector) (es : list Event) : option (Connector * list Output) :=
  match es with
  | [] => Some (w, [])
  | e :: es => '(w, out) ← connector_step w e; '(w, outs) ← connector_run w es; Some (w, out ++ outs)
  end.
