(* ===== verification/ConnectorProps.v ===== *)
(** * ConnectorProps: what the ingress connector guarantees

    In every interleaving of its tasks a flow's socket carries one client's
    datagrams to the leased listener and back, and what a listener reads in the
    registry under a live socket's source is that connection's client. *)

From Stdlib Require Import ZArith Lia String.
From stdpp Require Import prelude strings list gmap sorting.
From S2P Require Import Sniff.
From S2P Require Import Prelude RustStr Net NetProps RustFmt Util Frame Stream Conn IngressFrame IngressProps RelayConfig ConnectorConfig Connector.

(** ** The registries *)

Lemma insert_bounded_spec entries source m limit ok entries' :
  insert_bounded entries source m limit = (ok, entries') ->
  entries' = (if ok then <[source := m]> entries else entries) /\
  (Z.of_nat (size entries) <= limit -> Z.of_nat (size entries') <= limit).
Proof.
  unfold insert_bounded. destruct (bool_decide_reflect (is_Some (entries !! source))) as [[x Hx]|Hn]; cbn [negb andb].
  - intros [= <- <-]. split; [done|]. by rewrite map_size_insert_Some.
  - apply eq_None_not_Some in Hn. destruct (Z.leb_spec limit (Z.of_nat (size entries))); intros [= <- <-]; split; try done.
    rewrite map_size_insert_None by done. lia.
Qed.
Lemma delete_bounded (entries : gmap SocketAddr IngressMetadata) source (limit : Z) :
  Z.of_nat (size entries) <= limit -> Z.of_nat (size (delete source entries)) <= limit.
Proof. pose proof (map_subseteq_size _ _ (delete_subseteq entries source)). lia. Qed.

(** ** The invariant *)

Section Session.
Context (s : ConnectorSession) (udp0 : gmap SocketAddr IngressMetadata).
Context (Hleases : forall id l, cs_leases s !! id = Some l -> al_lease_id l = id).

(** The relay sent this datagram for an active UDP lease, within its size. *)
Definition came (es : list Event) (u : Uplinked) : Prop := exists bytes, Datagramed bytes ∈ es /\ uplinked s bytes = Some u.
(** This socket was opened for the flow and client of [u]. *)
Definition opened (outs : list Output) (socket : Z) (source : SocketAddr) (u : Uplinked) : Prop :=
  FlowOpened socket source (udp_metadata s u) ∈ outs.
Definition target_of (u : Uplinked) : LocalTarget := al_target (ul_lease u).
(** The stream's frame asked for this lease, and passed the checks. *)
Definition requested (es : list Event) (task : Z) (l : ActiveLease) (r : OpenTcpRequest) : Prop :=
  exists frame port, StreamOpened task frame port ∈ es /\ tcp_request s frame = Ok (l, r).

Definition output_ok (es : list Event) (outs : list Output) (out : Output) : Prop :=
  match out with
  | FlowOpened socket source m =>
      exists u port, came es u /\ m = udp_metadata s u /\ source = local_source (lt_local_addr (target_of u)) port
  | ToLocal socket target payload =>
      exists u source, came es u /\ opened outs socket source u /\ target = lt_local_addr (target_of u) /\ payload = ul_payload u
  | ToRelay socket d =>
      exists u source data max now, came es u /\ opened outs socket source u /\
        Returned socket (lt_local_addr (target_of u)) data max now true ∈ es /\
        Z.of_nat (length data) <= lt_max_inner_datagram (target_of u) /\
        d = datagram_encode (Downlink (al_lease_id (ul_lease u)) (ul_flow_id u) data)
  | LocalConnected task source target =>
      exists l r port, requested es task l r /\ target = lt_local_addr (al_target l) /\ source = local_source target port
  | Answered _ _ | Observed _ _ => True
  end.
Definition pending (l : UdpLoop) : list ConnectorFlow :=
  match l with Inserting u source socket => [mkConnectorFlow (ul_client u) source socket] | _ => [] end.
Definition all_flows (w : Connector) : list ConnectorFlow := pending (co_loop w) ++ held_flows w.
Record known (es : list Event) (outs : list Output) (entries : gmap SocketAddr IngressMetadata) (f : ConnectorFlow) (u : Uplinked) : Prop := {
  kn_came : came es u;
  kn_client : ul_client u = cf_client_addr f;
  kn_opened : opened outs (cf_socket f) (cf_source_addr f) u;
  kn_entry : entries !! cf_source_addr f = Some (udp_metadata s u);
}.
Definition room (w : Connector) (u : Uplinked) : Prop :=
  co_flows w !! ul_key u = None /\ Z.of_nat (size (co_flows w)) < cs_max_udp_flows s.
Definition loop_ok (es : list Event) (outs : list Output) (w : Connector) : Prop :=
  match co_loop w with
  | Looking u => came es u
  | Binding u => came es u /\ room w u
  | Inserting u source socket => known es outs (co_udp_entries w) (mkConnectorFlow (ul_client u) source socket) u /\ room w u
  | Sending u socket => came es u /\ exists source, opened outs socket source u
  | _ => True
  end.
Definition socket_ok (es : list Event) (outs : list Output) (socket : Z) (k : FlowSocket) : Prop :=
  exists source u, came es u /\ opened outs socket source u /\ fs_lease_id k = al_lease_id (ul_lease u) /\
    fs_flow_id k = ul_flow_id u /\ fs_expected k = lt_local_addr (target_of u) /\ fs_max k = lt_max_inner_datagram (target_of u).
Definition task_ok (es : list Event) (entries : gmap SocketAddr IngressMetadata) (task : Z) (t : TcpTask) : Prop :=
  match tcp_source t with
  | Some (source, m) =>
      (entries !! source = None \/ entries !! source = Some m) /\
      exists l r port, requested es task l r /\ m = tcp_metadata s l r /\ source = local_source (lt_local_addr (al_target l)) port /\
        match t with Connecting _ _ target => target = lt_local_addr (al_target l) | _ => True end
  | None => True
  end.
Record udp_inv (es : list Event) (outs : list Output) (w : Connector) : Prop := {
  ui_size : Z.of_nat (size (co_flows w)) <= Z.max 0 (cs_max_udp_flows s);
  ui_distinct : NoDup (map cf_source_addr (all_flows w));
  ui_held : forall f, f ∈ held_flows w -> exists u, known es outs (co_udp_entries w) f u;
  ui_flows : forall key f, co_flows w !! key = Some f -> exists u, known es outs (co_udp_entries w) f u /\ ul_key u = key;
  ui_loop : loop_ok es outs w;
  ui_sockets : forall socket k, co_sockets w !! socket = Some k -> socket_ok es outs socket k;
  ui_once : forall socket source source' m m', FlowOpened socket source m ∈ outs -> FlowOpened socket source' m' ∈ outs ->
    source = source' /\ m = m' /\ is_Some (co_sockets w !! socket);
  ui_live : co_ending w = Live -> forall source, is_Some (co_udp_entries w !! source) ->
    is_Some (udp0 !! source) \/ source ∈ map cf_source_addr (all_flows w);
  ui_entries : Z.of_nat (size (co_udp_entries w)) <= MAX_UDP_FLOWS;
}.
Record tcp_inv (es : list Event) (w : Connector) : Prop := {
  ti_entries : Z.of_nat (size (co_tcp_entries w)) <= Z.of_nat MAX_PENDING_TCP;
  ti_tasks : forall task t, co_tasks w !! task = Some t -> task_ok es (co_tcp_entries w) task t;
  ti_distinct : forall i j t t' source m m', co_tasks w !! i = Some t -> co_tasks w !! j = Some t' ->
    tcp_source t = Some (source, m) -> tcp_source t' = Some (source, m') -> i = j;
}.
Record connector_inv (es : list Event) (outs : list Output) (w : Connector) : Prop := {
  ci_session : co_session w = s;
  ci_udp : udp_inv es outs w;
  ci_tcp : tcp_inv es w;
  ci_outs : Forall (output_ok es outs) outs;
}.

(** ** Growing histories *)

Section Mono.
Context (es es' : list Event) (outs outs' : list Output) (He : es ⊆ es') (Ho : outs ⊆ outs').
Lemma came_mono u : came es u -> came es' u.
Proof using He. intros (b & ? & ?). exists b. auto. Qed.
Lemma opened_mono socket source u : opened outs socket source u -> opened outs' socket source u.
Proof using Ho. apply Ho. Qed.
Lemma requested_mono task l r : requested es task l r -> requested es' task l r.
Proof using He. intros (f & p & ? & ?). exists f, p. auto. Qed.
Hint Resolve came_mono opened_mono requested_mono : core.
Lemma known_mono entries f u : known es outs entries f u -> known es' outs' entries f u.
Proof using He Ho. intros []. split; auto. Qed.
Hint Resolve known_mono : core.
Lemma output_ok_mono out : output_ok es outs out -> output_ok es' outs' out.
Proof using He Ho.
  destruct out; cbn; try done.
  - intros (u & p & ? & ? & ?). exists u, p. auto.
  - intros (u & src & ? & ? & ? & ?). exists u, src. auto.
  - intros (u & src & data & mx & now & ? & ? & ? & ? & ?). exists u, src, data, mx, now. split_and!; auto.
  - intros (l & r & p & ? & ? & ?). exists l, r, p. auto.
Qed.
Lemma loop_ok_mono w : loop_ok es outs w -> loop_ok es' outs' w.
Proof using He Ho. unfold loop_ok. destruct (co_loop w); try naive_solver. Qed.
Lemma socket_ok_mono socket k : socket_ok es outs socket k -> socket_ok es' outs' socket k.
Proof using He Ho. intros (src & u & ? & ? & ?). exists src, u. auto. Qed.
Lemma task_ok_mono entries task t : task_ok es entries task t -> task_ok es' entries task t.
Proof using He. unfold task_ok. destruct (tcp_source t) as [[]|]; [|done]. intros (? & l & r & p & ? & ?). split; [done|]. exists l, r, p. auto. Qed.
End Mono.
Lemma tcp_inv_mono es es' w : es ⊆ es' -> tcp_inv es w -> tcp_inv es' w.
Proof. intros He [H1 H2 H3]. split; [done| |done]. intros i t Hi. eapply task_ok_mono; eauto. Qed.
(** The outputs that open nothing change nothing. *)
Definition silent (out : list Output) : Prop := Forall (fun o => match o with FlowOpened _ _ _ => False | _ => True end) out.
Lemma udp_inv_mono es es' outs out w : es ⊆ es' -> silent out -> udp_inv es outs w -> udp_inv es' (outs ++ out) w.
Proof.
  intros He Hq [H1 H2 H3 H4 H5 H6 H7 H8 H9]. assert (Ho : outs ⊆ outs ++ out) by set_solver.
  split; try done.
  - intros f Hf. destruct (H3 f Hf) as [u Hu]. exists u. eapply known_mono; eauto.
  - intros key f Hf. destruct (H4 key f Hf) as (u & Hu & ?). exists u. split; [|done]. eapply known_mono; eauto.
  - eapply loop_ok_mono; eauto.
  - intros k x Hk. eapply socket_ok_mono; eauto.
  - assert (Hin : forall k x m, FlowOpened k x m ∈ outs ++ out -> FlowOpened k x m ∈ outs).
    { intros k x m [Hin|Hin]%elem_of_app; [done|]. exfalso. by apply (proj1 (Forall_forall _ _) Hq) in Hin. }
    intros k x x' m m' A B. eapply H7; eauto.
Qed.
Lemma connector_inv_mono es es' outs out w :
  es ⊆ es' -> silent out -> Forall (output_ok es' (outs ++ out)) out ->
  connector_inv es outs w -> connector_inv es' (outs ++ out) w.
Proof.
  intros He Hq Hok [H1 H2 H3 H4]. split; [done|by eapply udp_inv_mono|by eapply tcp_inv_mono|].
  apply Forall_app. split; [|done]. eapply Forall_impl; [exact H4|]. intros o. apply output_ok_mono; set_solver.
Qed.

(** ** Changes that leave the flows alone *)

Lemma udp_frame es outs w w' :
  co_session w' = co_session w -> co_flows w' = co_flows w -> co_udp_entries w' = co_udp_entries w -> co_loop w' = co_loop w ->
  co_ending w' = co_ending w -> co_sockets w' = co_sockets w -> udp_inv es outs w -> udp_inv es outs w'.
Proof.
  intros E1 E2 E3 E4 E5 E6 [H1 H2 H3 H4 H5 H6 H7 H8 H9].
  split; unfold all_flows, held_flows, loop_ok, room in *; rewrite ?E2, ?E3, ?E4, ?E5, ?E6; done.
Qed.
Lemma tcp_frame es w w' : co_tcp_entries w' = co_tcp_entries w -> co_tasks w' = co_tasks w -> tcp_inv es w -> tcp_inv es w'.
Proof. intros E1 E2 [H1 H2 H3]. split; rewrite ?E1, ?E2; done. Qed.
(** Moving the loop to a state that holds no flow of its own *)
Lemma udp_set_loop es outs w l :
  udp_inv es outs w -> pending l = [] -> (pending (co_loop w) = [] \/ co_ending w <> Live) -> loop_ok es outs (set_loop l w) ->
  udp_inv es outs (set_loop l w).
Proof.
  intros [H1 H2 H3 H4 H5 H6 H7 H8 H9] Hp Hlive Hl. split; try done; unfold all_flows in *; cbn in *; rewrite Hp; cbn.
  - rewrite map_app in H2. by apply NoDup_app in H2 as (_ & _ & ?).
  - intros E source Hs. destruct (H8 E source Hs) as [?|Hin]; [by left|]. right. destruct Hlive as [Hlive|]; [|done]. by rewrite Hlive in Hin.
Qed.
Lemma udp_update_socket es outs w f socket :
  (forall k, fs_lease_id (f k) = fs_lease_id k /\ fs_flow_id (f k) = fs_flow_id k /\ fs_expected (f k) = fs_expected k /\ fs_max (f k) = fs_max k) ->
  udp_inv es outs w -> udp_inv es outs (update_socket f socket w).
Proof.
  intros Hf [H1 H2 H3 H4 H5 H6 H7 H8 H9]. split; try done; cbn.
  - intros k x. destruct (decide (socket = k)) as [->|]; [|rewrite lookup_alter_ne by done; apply H6].
    rewrite lookup_alter_eq. destruct (co_sockets w !! k) as [y|] eqn:Ey; [|done]. intros [= <-].
    destruct (H6 k y Ey) as (src & u & ? & ? & ? & ? & ? & ?). destruct (Hf y) as (? & ? & ? & ?). exists src, u. split_and!; congruence.
  - intros k x x' m m' A B. destruct (H7 k x x' m m' A B) as (-> & -> & [y Hy]). split_and!; try done.
    destruct (decide (socket = k)) as [->|]; [rewrite lookup_alter_eq, Hy|rewrite lookup_alter_ne, Hy by done]; by eexists.
Qed.

(** ** The datagram reader *)

Lemma active_lease_Some id t l : active_lease s id t = Some l -> cs_leases s !! id = Some l /\ al_lease_id l = id /\ lt_transport (al_target l) = t.
Proof using Hleases.
  unfold active_lease. destruct (cs_leases s !! id) as [l'|] eqn:E; cbn; [|done]. destruct (bool_decide_reflect (lt_transport (al_target l') = t)); [|done].
  intros [= <-]. auto.
Qed.
Lemma uplinked_Some bytes u : uplinked s bytes = Some u ->
  datagram_parse bytes = Ok (Uplink (al_lease_id (ul_lease u)) (ul_flow_id u) (ul_client u) (ul_payload u)) /\
  cs_leases s !! al_lease_id (ul_lease u) = Some (ul_lease u) /\ lt_transport (target_of u) = Udp /\
  Z.of_nat (length (ul_payload u)) <= lt_max_inner_datagram (target_of u).
Proof using Hleases.
  unfold uplinked, target_of. destruct (datagram_parse bytes) as [[id flow client payload|]|]; try done.
  destruct (active_lease s id Udp) as [l|] eqn:E; cbn; [|done]. apply active_lease_Some in E as (El & <- & Ht).
  destruct (Z.ltb_spec (lt_max_inner_datagram (al_target l)) (Z.of_nat (length payload))); [done|]. intros [= <-]. done.
Qed.
Lemma same_metadata es u u' : came es u -> came es u' -> ul_key u = ul_key u' -> ul_client u = ul_client u' -> udp_metadata s u = udp_metadata s u'.
Proof using Hleases.
  intros (b & _ & (_ & L & _)%uplinked_Some) (b' & _ & (_ & L' & _)%uplinked_Some) [= E1 E2] E3.
  rewrite E1, L' in L. injection L as L. unfold udp_metadata. by rewrite E2, E3, L.
Qed.
Lemma held_flow w key f : co_flows w !! key = Some f -> f ∈ held_flows w.
Proof. intros H. apply elem_of_app. left. apply list_elem_of_fmap. exists (key, f). split; [done|]. by apply elem_of_map_to_list. Qed.
Lemma looked_ok es outs w u :
  co_session w = s -> udp_inv es outs w -> came es u -> loop_ok es outs (set_loop (on_looked w u) w).
Proof using Hleases.
  intros Es [H1 H2 H3 H4 H5 H6 H7 H8 H9] Hu. unfold on_looked. rewrite Es. destruct (co_flows w !! ul_key u) as [f|] eqn:Ef.
  - destruct (bool_decide_reflect (cf_client_addr f = ul_client u)) as [Ec|]; [|done]. cbn. split; [done|].
    destruct (H4 _ _ Ef) as (u' & [Hc Hcl Hop _] & Ek). exists (cf_source_addr f). unfold opened.
    rewrite (same_metadata es u u'); [done|done|done|by rewrite Ek|congruence].
  - destruct (Z.leb_spec (cs_max_udp_flows s) (Z.of_nat (size (co_flows w)))); done.
Qed.
Lemma not_in_use w source : udp_in_use w source = false -> source ∉ map cf_source_addr (held_flows w).
Proof.
  intros H Hin. apply list_elem_of_fmap in Hin as (f & -> & Hf). unfold udp_in_use in H.
  assert (existsb (fun g => bool_decide (cf_source_addr g = cf_source_addr f)) (held_flows w) = true) as E; [|by rewrite E in H].
  apply existsb_exists. exists f. split; [by apply list_elem_of_In|by apply bool_decide_eq_true_2].
Qed.

Lemma bound_ok es outs w u socket port now w' out :
  co_session w = s -> udp_inv es outs w -> co_loop w = Binding u -> on_bound w u socket port now = Some (w', out) ->
  udp_inv es (outs ++ out) w' /\ Forall (output_ok es (outs ++ out)) out /\ co_session w' = s /\ co_tcp_entries w' = co_tcp_entries w /\ co_tasks w' = co_tasks w.
Proof.
  intros Es I El H. pose proof (ui_loop _ _ _ I) as Hl. unfold loop_ok in Hl. rewrite El in Hl. destruct Hl as [Hu [Hr1 Hr2]].
  assert (Hread : udp_inv es (outs ++ []) (set_loop Reading w)).
  { rewrite app_nil_r. apply udp_set_loop; [done|done| |done]. left. by rewrite El. }
  unfold on_bound in H. destruct port as [port|]; [|by injection H as <- <-].
  set (source := local_source (lt_local_addr (al_target (ul_lease u))) port) in *.
  destruct (udp_in_use w source) eqn:Ein; [done|]. apply not_in_use in Ein. cbn [orb] in H.
  destruct (bool_decide_reflect (is_Some (co_sockets w !! socket))) as [|Hnew%eq_None_not_Some]; [done|].
  destruct (register_udp _ _ _) as [[] entries] eqn:Er; [|by injection H as <- <-].
  apply insert_bounded_spec in Er as [-> Hsize]. injection H as <- <-. rewrite Es in *.
  set (o := FlowOpened socket source (udp_metadata s u)). assert (Ho : outs ⊆ outs ++ [o]) by set_solver.
  assert (Hop : opened (outs ++ [o]) socket source u) by (unfold opened; set_solver).
  destruct I as [H1 H2 H3 H4 H5 H6 H7 H8 H9].
  assert (Hknown : forall f v, f ∈ held_flows w -> known es outs (co_udp_entries w) f v ->
    known es (outs ++ [o]) (<[source := udp_metadata s u]> (co_udp_entries w)) f v).
  { intros f v Hf [K1 K2 K3 K4]. split; [done|done|by apply Ho|]. rewrite lookup_insert_ne; [done|]. intros ->. apply Ein. by apply list_elem_of_fmap_2. }
  split; [|split; [constructor; [|done]; by exists u, port|done]]. split; try done; cbn.
  - constructor; [exact Ein|]. unfold all_flows in H2. rewrite El in H2. exact H2.
  - intros f Hf. destruct (H3 f Hf) as [v Hv]. exists v. by apply Hknown.
  - intros key f Hf. destruct (H4 key f Hf) as (v & Hv & Ek). exists v. split; [|done]. apply Hknown; [by eapply held_flow|done].
  - split; [|done]. split; [done|done|done|]. cbn. by rewrite lookup_insert_eq.
  - intros k x. destruct (decide (socket = k)) as [->|].
    + rewrite lookup_insert_eq. intros [= <-]. by exists source, u.
    + rewrite lookup_insert_ne by done. intros Hx. eapply socket_ok_mono; [reflexivity|exact Ho|]. by apply H6.
  - assert (Hsplit : forall k x m, FlowOpened k x m ∈ outs ++ [o] -> FlowOpened k x m ∈ outs /\ k <> socket \/ k = socket /\ x = source /\ m = udp_metadata s u).
    { intros k x m [Hin|Hin]%elem_of_app; [|apply list_elem_of_singleton in Hin; injection Hin as -> -> ->; by right]. left. split; [done|].
      intros ->. destruct (H7 _ _ _ _ _ Hin Hin) as (_ & _ & [y Hy]). by rewrite Hnew in Hy. }
    intros k x x' m m' [[A An]|(-> & -> & ->)]%Hsplit [[B Bn]|(? & -> & ->)]%Hsplit; try done.
    + rewrite lookup_insert_ne by done. eauto.
    + split_and!; try done. rewrite lookup_insert_eq. by eexists.
  - intros Hlive x. destruct (decide (source = x)) as [->|]; [intros _; right; set_solver|]. rewrite lookup_insert_ne by done.
    intros Hx. destruct (H8 Hlive x Hx) as [?|Hin]; [by left|]. right. unfold all_flows in Hin. rewrite El in Hin. cbn in Hin. set_solver.
  - by apply Hsize.
Qed.

Lemma inserted_ok es outs w u source socket :
  udp_inv es outs w -> co_loop w = Inserting u source socket ->
  on_inserted w u source socket =
    set_loop (Sending u socket) (set_flows (<[ul_key u := mkConnectorFlow (ul_client u) source socket]> (co_flows w)) w) /\
  udp_inv es outs (on_inserted w u source socket).
Proof.
  intros [H1 H2 H3 H4 H5 H6 H7 H8 H9] El. unfold loop_ok in H5. rewrite El in H5. destruct H5 as [Hk [Hr1 Hr2]].
  unfold on_inserted. rewrite Hr1. split; [done|]. set (f := mkConnectorFlow (ul_client u) source socket).
  set (w' := set_loop _ _). assert (Hp : all_flows w' ≡ₚ all_flows w).
  { unfold all_flows, held_flows, w'. rewrite El. cbn. rewrite map_to_list_insert by done. done. }
  split; try done.
  - unfold w'. cbn. rewrite map_size_insert_None by done. lia.
  - by rewrite Hp.
  - intros g Hg. assert (Hg' : g ∈ all_flows w) by (rewrite <- Hp; by apply elem_of_app; right).
    unfold all_flows in Hg'. rewrite El in Hg'. cbn in Hg'. apply elem_of_cons in Hg' as [->|Hg']; [by exists u|by apply H3].
  - intros key g. unfold w'. cbn. destruct (decide (ul_key u = key)) as [<-|]; [|rewrite lookup_insert_ne by done; apply H4].
    rewrite lookup_insert_eq. intros [= <-]. by exists u.
  - unfold loop_ok, w'. cbn. destruct Hk as [K1 _ K3 _]. split; [done|]. by exists source.
  - intros Hlive x Hx. rewrite Hp. by apply H8.
Qed.
(** A flow leaves: its entry is removed, the others keep theirs. *)
Lemma udp_drop es outs w w1 f :
  udp_inv es outs w -> all_flows w ≡ₚ f :: all_flows w1 -> co_flows w1 ⊆ co_flows w -> held_flows w1 ⊆ held_flows w ->
  co_loop w1 = co_loop w -> co_sockets w1 = co_sockets w -> co_udp_entries w1 = co_udp_entries w ->
  (co_ending w1 = Live -> co_ending w = Live) -> udp_inv es outs (release_flow f w1).
Proof.
  intros [H1 H2 H3 H4 H5 H6 H7 H8 H9] Hp Hsub Hheld El Es Ee Hlive. unfold release_flow. apply udp_update_socket; [done|].
  rewrite Hp in H2. cbn in H2. apply NoDup_cons in H2 as [Hf Hn].
  assert (Hknown : forall g v, g ∈ all_flows w1 -> known es outs (co_udp_entries w) g v ->
    known es outs (remove_udp (co_udp_entries w) (cf_source_addr f)) g v).
  { intros g v Hg [K1 K2 K3 K4]. split; try done. unfold remove_udp. rewrite lookup_delete_ne; [done|]. intros E. apply Hf. rewrite E. by apply list_elem_of_fmap_2. }
  assert (Hin : forall g, g ∈ held_flows w1 -> g ∈ all_flows w1) by (intros g Hg; apply elem_of_app; by right).
  split; cbn; rewrite ?Ee, ?Es; try done.
  - pose proof (map_subseteq_size _ _ Hsub). lia.
  - intros g Hg. destruct (H3 g (Hheld g Hg)) as [v Hv]. exists v. by apply Hknown; [apply Hin|].
  - intros key g Hg. destruct (H4 key g (lookup_weaken _ _ _ _ Hg Hsub)) as (v & Hv & Ek). exists v. split; [|done].
    apply Hknown; [|done]. apply Hin. by eapply held_flow.
  - unfold loop_ok in *. cbn. rewrite El.
    assert (Hroom : forall u, room w u -> room (set_udp (remove_udp (co_udp_entries w) (cf_source_addr f)) w1) u).
    { intros u [R1 R2]. split; [by eapply lookup_weaken_None|]. cbn. pose proof (map_subseteq_size _ _ Hsub). lia. }
    destruct (co_loop w) as [|u|u|u source socket|u socket|key|] eqn:E; cbn; rewrite ?Ee; try done.
    + destruct H5 as [? R]. split; [done|]. by apply Hroom.
    + destruct H5 as [K R]. split; [|by apply Hroom]. apply Hknown; [|done]. apply elem_of_app. left. rewrite El. apply list_elem_of_here.
  - intros Hl x. unfold remove_udp. destruct (decide (cf_source_addr f = x)) as [->|Hx]; [rewrite lookup_delete_eq; by intros []|].
    rewrite lookup_delete_ne by done. intros Hs. destruct (H8 (Hlive Hl) x Hs) as [?|Hin']; [by left|]. right.
    rewrite Hp in Hin'. cbn in Hin'. apply elem_of_cons in Hin' as [->|]; [by destruct Hx|done].
  - by apply delete_bounded.
Qed.
Lemma remove_flow_ok es outs w key : udp_inv es outs w -> udp_inv es outs (remove_flow key w).
Proof.
  intros I. unfold remove_flow. destruct (co_flows w !! key) as [f|] eqn:Ef; [|done].
  assert (Hp : held_flows w ≡ₚ f :: held_flows (set_flows (delete key (co_flows w)) w)).
  { unfold held_flows. cbn. rewrite <- (map_to_list_delete _ _ _ Ef). done. }
  apply (udp_drop es outs w); try done.
  - unfold all_flows at 1. rewrite Hp. unfold all_flows. cbn. by rewrite Permutation_middle.
  - cbn. apply delete_subseteq.
  - intros g Hg. rewrite Hp. set_solver.
Qed.
Lemma released_ok es outs w f flows :
  udp_inv es outs w -> co_ending w = Clearing (f :: flows) ->
  udp_inv es outs (set_ending (Clearing flows) (release_flow f w)).
Proof.
  intros I Ee. change (set_ending (Clearing flows) (release_flow f w)) with (release_flow f (set_ending (Clearing flows) w)).
  assert (Hp : held_flows w ≡ₚ f :: held_flows (set_ending (Clearing flows) w)).
  { unfold held_flows. rewrite Ee. cbn. by rewrite Permutation_middle. }
  apply (udp_drop es outs w); try done.
  - unfold all_flows at 1. rewrite Hp. unfold all_flows. cbn. by rewrite Permutation_middle.
  - intros g Hg. rewrite Hp. set_solver.
Qed.
Lemma taken_ok es outs w :
  udp_inv es outs w -> co_ending w = Aborting -> udp_inv es outs (set_ending (Clearing (map snd (map_to_list (co_flows w)))) (set_flows ∅ w)).
Proof.
  intros [H1 H2 H3 H4 H5 H6 H7 H8 H9] Ee. set (w' := set_ending _ _).
  assert (Hh : held_flows w' = held_flows w) by (unfold held_flows, w'; rewrite Ee; cbn; by rewrite app_nil_r, map_to_list_empty).
  assert (Ha : all_flows w' = all_flows w) by (unfold all_flows; rewrite Hh; done).
  split; try done.
  - cbn. rewrite map_size_empty. lia.
  - by rewrite Ha.
  - by rewrite Hh.
  - unfold loop_ok in *. unfold w'. cbn.
    assert (Hroom : forall u, room w u -> room (set_ending (Clearing (map snd (map_to_list (co_flows w)))) (set_flows ∅ w)) u).
    { intros u [_ R]. split; [done|]. cbn. rewrite map_size_empty. lia. }
    destruct (co_loop w); try done; destruct H5; split; auto.
Qed.

(** ** Streams *)

Lemma tcp_delete_entry es w source : tcp_inv es w -> tcp_inv es (set_tcp (delete source (co_tcp_entries w)) w).
Proof.
  intros [H1 H2 H3]. split; cbn; [by apply delete_bounded| |done]. intros i t Hi. specialize (H2 i t Hi). unfold task_ok in *.
  destruct (tcp_source t) as [[src m]|]; [|done]. destruct H2 as [He Hr]. split; [|done].
  destruct (decide (source = src)) as [->|]; [left; apply lookup_delete_eq|by rewrite lookup_delete_ne].
Qed.
(** A task goes on with the same socket, or without one. *)
Lemma tcp_put es w i t t' :
  tcp_inv es w -> co_tasks w !! i = Some t -> (tcp_source t' = tcp_source t \/ tcp_source t' = None) ->
  match t' with Connecting _ _ _ => False | _ => True end -> tcp_inv es (to_task i t' w).
Proof.
  intros [H1 H2 H3] Hi Hs Hc. split; cbn; [done| |].
  - intros j x. destruct (decide (i = j)) as [<-|]; [|rewrite lookup_insert_ne by done; apply H2]. rewrite lookup_insert_eq. intros [= <-].
    specialize (H2 i t Hi). unfold task_ok in *. destruct Hs as [-> | ->]; [|done]. destruct (tcp_source t) as [[src m]|]; [|done].
    destruct H2 as (? & l & r & p & ? & ? & ? & ?). split; [done|]. exists l, r, p. destruct t'; done.
  - assert (Hget : forall j x src m, <[i := t']> (co_tasks w) !! j = Some x -> tcp_source x = Some (src, m) -> exists y, co_tasks w !! j = Some y /\ tcp_source y = Some (src, m)).
    { intros j x src m. destruct (decide (i = j)) as [<-|]; [|rewrite lookup_insert_ne by done; eauto]. rewrite lookup_insert_eq. intros [= <-] E.
      exists t. split; [done|]. destruct Hs as [<-|Hn]; [done|by rewrite Hn in E]. }
    intros a b x y src m m' Ha Hb Ea Eb. destruct (Hget _ _ _ _ Ha Ea) as (x' & ? & ?), (Hget _ _ _ _ Hb Eb) as (y' & ? & ?). by eapply H3.
Qed.
Lemma tcp_end es w i : tcp_inv es w -> tcp_inv es (end_task i w).
Proof.
  intros [H1 H2 H3]. split; cbn; [done| |].
  - intros j x [_ Hj]%lookup_delete_Some. by apply H2.
  - intros a b x y src m m' [_ Ha]%lookup_delete_Some [_ Hb]%lookup_delete_Some. by eapply H3.
Qed.
Lemma tcp_not_in_use w source i t m :
  tcp_in_use w source = false -> co_tasks w !! i = Some t -> tcp_source t = Some (source, m) -> False.
Proof.
  intros H Hi Ht. unfold tcp_in_use in H.
  assert (existsb (fun '(_, x) => bool_decide (fst <$> tcp_source x = Some source)) (map_to_list (co_tasks w)) = true) as E; [|by rewrite E in H].
  apply existsb_exists. exists (i, t). split; [by apply list_elem_of_In, elem_of_map_to_list|]. rewrite Ht. by apply bool_decide_eq_true_2.
Qed.
Lemma tcp_request_Ok frame l r : tcp_request s frame = Ok (l, r) ->
  exists lines, frame = Ok lines /\ open_parse lines = Ok r /\ cs_leases s !! lease_id r = Some l /\ lt_transport (al_target l) = Tcp /\
    relay_instance_id r = cs_relay_id s /\ tunnel_session_id r = cs_session_id s.
Proof using Hleases.
  unfold tcp_request. intros H. destruct frame as [lines|]; [|done]. cbn in H. destruct (open_parse lines) as [r'|] eqn:Ep; [|done]. cbn in H.
  destruct (active_lease s (lease_id r') Tcp) as [l'|] eqn:El; [|done]. cbn in H. apply active_lease_Some in El as (El & _ & Ht).
  unfold str_eqb in H. destruct (bool_decide_reflect (relay_instance_id r' = cs_relay_id s)) as [E1|]; [|done].
  destruct (bool_decide_reflect (tunnel_session_id r' = cs_session_id s)) as [E2|]; [|done]. injection H as <- <-. by exists lines.
Qed.
Lemma stream_opened_ok es w task frame port w' out :
  co_session w = s -> tcp_inv es w -> co_tasks w !! task = None -> StreamOpened task frame port ∈ es ->
  on_stream_opened w task frame port = Some (w', out) ->
  tcp_inv es w' /\ silent out /\ Forall (fun o => match o with Answered _ _ => True | _ => False end) out /\
  exists tcp tasks, w' = set_tcp tcp (set_tasks tasks w).
Proof.
  intros Es I Hi Hin H. assert (Hsame : exists tcp tasks, w = set_tcp tcp (set_tasks tasks w)) by (exists (co_tcp_entries w), (co_tasks w); by destruct w).
  unfold on_stream_opened in H. destruct (tcp_request (co_session w) frame) as [[l r]|code] eqn:Er; [|injection H as <- <-; split_and!; try done; by repeat constructor].
  destruct port as [port|]; [|injection H as <- <-; split_and!; try done; by repeat constructor].
  set (source := local_source (lt_local_addr (al_target l)) port) in *.
  destruct (tcp_in_use w source) eqn:Eu; [done|].
  destruct (register_tcp _ _ _) as [[] entries] eqn:Eg; [|injection H as <- <-; split_and!; try done; by repeat constructor].
  apply insert_bounded_spec in Eg as [-> Hsize]. injection H as <- <-. rewrite Es in *. destruct I as [H1 H2 H3].
  split; [|split_and!; try done; by repeat constructor; eauto]. split; cbn; [by apply Hsize| |].
  - intros j x. destruct (decide (task = j)) as [<-|].
    + rewrite lookup_insert_eq. intros [= <-]. cbn. rewrite lookup_insert_eq. split; [by right|]. exists l, r, port. split_and!; try done.
      by exists frame, (Some port).
    + rewrite lookup_insert_ne by done. intros Hj. specialize (H2 j x Hj). unfold task_ok in *.
      destruct (tcp_source x) as [[src m]|] eqn:Ex; [|done]. destruct H2 as [He Hr]. split; [|done].
      rewrite lookup_insert_ne; [done|]. intros ->. by eapply tcp_not_in_use.
  - assert (Hget : forall j x src m, <[task := Connecting source (tcp_metadata s l r) (lt_local_addr (al_target l))]> (co_tasks w) !! j = Some x ->
      tcp_source x = Some (src, m) -> j = task /\ src = source \/ co_tasks w !! j = Some x).
    { intros j x src m. destruct (decide (task = j)) as [<-|]; [|rewrite lookup_insert_ne by done; by right]. rewrite lookup_insert_eq. intros [= <-] [= <- _]. by left. }
    intros a b x y src m m' Ha Hb Ea Eb. destruct (Hget _ _ _ _ Ha Ea) as [[-> ->]|Ha'], (Hget _ _ _ _ Hb Eb) as [[-> E]|Hb'].
    + done.
    + exfalso. by eapply tcp_not_in_use.
    + subst. exfalso. by eapply tcp_not_in_use.
    + by eapply H3.
Qed.

(** ** Every step *)

Lemma inv_udp_only es outs w w' :
  connector_inv es outs w -> udp_inv es outs w' -> co_session w' = co_session w -> co_tcp_entries w' = co_tcp_entries w -> co_tasks w' = co_tasks w ->
  connector_inv es outs w'.
Proof. intros [H1 H2 H3 H4] Hu Es Et Ek. split; [congruence|done|by eapply tcp_frame|done]. Qed.
Lemma inv_tcp_only es outs w w' :
  connector_inv es outs w -> tcp_inv es w' ->
  co_session w' = co_session w -> co_flows w' = co_flows w -> co_udp_entries w' = co_udp_entries w -> co_loop w' = co_loop w ->
  co_ending w' = co_ending w -> co_sockets w' = co_sockets w -> connector_inv es outs w'.
Proof. intros [H1 H2 H3 H4] Ht E1 E2 E3 E4 E5 E6. split; [congruence|by eapply udp_frame|done|done]. Qed.
Lemma inv_more es outs out w : connector_inv es outs w -> silent out -> Forall (output_ok es (outs ++ out)) out -> connector_inv es (outs ++ out) w.
Proof. intros I Hq Hok. by eapply connector_inv_mono. Qed.
Lemma inv_stream_task es outs w i t t' :
  connector_inv es outs w -> co_tasks w !! i = Some t -> (tcp_source t' = tcp_source t \/ tcp_source t' = None) ->
  match t' with Connecting _ _ _ => False | _ => True end -> connector_inv es outs (to_task i t' w).
Proof. intros I Hi Hs Hc. eapply inv_tcp_only; [exact I| |done..]. by eapply tcp_put; [apply I|..]. Qed.
Lemma inv_end_task es outs w i : connector_inv es outs w -> connector_inv es outs (end_task i w).
Proof. intros I. eapply inv_tcp_only; [exact I| |done..]. by eapply tcp_end, I. Qed.
Lemma inv_delete_entry es outs w source : connector_inv es outs w -> connector_inv es outs (set_tcp (delete source (co_tcp_entries w)) w).
Proof. intros I. eapply inv_tcp_only; [exact I| |done..]. by apply tcp_delete_entry, I. Qed.
Lemma inv_loop es outs w l :
  connector_inv es outs w -> pending l = [] -> (pending (co_loop w) = [] \/ co_ending w <> Live) -> loop_ok es outs (set_loop l w) ->
  connector_inv es outs (set_loop l w).
Proof. intros I Hp Hl Hok. eapply inv_udp_only; [exact I| |done..]. apply udp_set_loop; [apply I|done..]. Qed.
Lemma inv_socket es outs w f socket :
  (forall k, fs_lease_id (f k) = fs_lease_id k /\ fs_flow_id (f k) = fs_flow_id k /\ fs_expected (f k) = fs_expected k /\ fs_max (f k) = fs_max k) ->
  connector_inv es outs w -> connector_inv es outs (update_socket f socket w).
Proof. intros Hf I. eapply inv_udp_only; [exact I| |done..]. apply udp_update_socket; [done|apply I]. Qed.
Lemma inv_returned es outs w socket k src data max_size now sent :
  connector_inv es outs w -> co_sockets w !! socket = Some k -> Returned socket src data max_size now sent ∈ es ->
  connector_inv es (outs ++ (on_returned w socket k src data max_size now sent).2) (on_returned w socket k src data max_size now sent).1.
Proof.
  intros I Hk Hin. unfold on_returned. destruct (bool_decide_reflect (src = fs_expected k)) as [Es|]; cbn [negb orb fst snd]; [|by rewrite app_nil_r].
  destruct (Z.ltb_spec (fs_max k) (Z.of_nat (length data))) as [|Hlen]; cbn [fst snd]; [by rewrite app_nil_r|].
  assert (I' : connector_inv es outs (update_socket (touch now) socket w)) by (by apply inv_socket).
  destruct (match max_size with Some _ => _ | None => _ end); cbn [fst snd]; [by rewrite app_nil_r|].
  destruct sent; cbn [fst snd]; [|rewrite app_nil_r; by apply inv_socket].
  apply inv_more; [done|by repeat constructor|]. constructor; [|done].
  destruct (ui_sockets _ _ _ (ci_udp _ _ _ I) _ _ Hk) as (source & u & Hu & Hop & E1 & E2 & E3 & E4).
  exists u, source, data, max_size, now. rewrite <- E1, <- E2, <- E3, <- E4, <- Es. split_and!; try done.
  eapply opened_mono; [|exact Hop]. set_solver.
Qed.
Lemma step_loop es outs w e w' out :
  connector_inv es outs w -> e ∈ es ->
  match e with Datagramed _ | Looked | Bound _ _ _ | Inserted | Sent _ | Touched _ => True | _ => False end ->
  connector_step w e = Some (w', out) -> connector_inv es (outs ++ out) w'.
Proof using Hleases.
  intros I Hin Hk H. pose proof (ci_session _ _ _ I) as Es. pose proof (ci_udp _ _ _ I) as U. pose proof (ui_loop _ _ _ U) as L. unfold loop_ok in L.
  destruct e as [bytes| |socket port now| |ok|now|socket src data mx now sent|socket|socket|now| | | | | | |task frame port|task ok|task|task ok|task|source|source]; try done;
    cbn in H; destruct (co_loop w) as [|u|u|u src socket'|u socket'|key|] eqn:El; try done.
  - injection H as <- <-. rewrite app_nil_r. destruct (uplinked (co_session w) bytes) as [u|] eqn:Eu; [|done].
    apply inv_loop; [done|done|by left; rewrite El|]. exists bytes. by rewrite <- Es.
  - injection H as <- <-. rewrite app_nil_r. apply inv_loop; [done| |by left; rewrite El|by apply looked_ok].
    unfold on_looked. destruct (co_flows w !! ul_key u); [by destruct (bool_decide _)|by destruct (_ <=? _)].
  - destruct (bound_ok _ _ _ _ _ _ _ _ _ Es U El H) as (U' & Ho & Es' & Et & Ek). split; [done|done|by eapply tcp_frame; [..|apply I]|].
    apply Forall_app. split; [|done]. eapply Forall_impl; [apply I|]. intros o. apply output_ok_mono; set_solver.
  - injection H as <- <-. rewrite app_nil_r. destruct (inserted_ok _ _ _ _ _ _ U El) as [E U']. eapply inv_udp_only; [exact I|exact U'|by rewrite E..].
  - destruct L as [Hu [source Hop]]. assert (Hop' : opened (outs ++ [ToLocal socket' (lt_local_addr (al_target (ul_lease u))) (ul_payload u)]) socket' source u)
      by (eapply opened_mono; [|exact Hop]; set_solver).
    destruct ok; injection H as <- <-; [|rewrite app_nil_r; by apply inv_loop; [..|left; rewrite El|]].
    apply inv_loop; [|done|by left; cbn; rewrite El|done]. apply inv_more; [done|by repeat constructor|]. constructor; [|done]. by exists u, source.
  - injection H as <- <-. rewrite app_nil_r. apply inv_loop; [|done| |done]; destruct (co_flows w !! key); try done; [by apply inv_socket|left; cbn; by rewrite El..].
Qed.
Lemma step_other es outs w e w' out :
  connector_inv es outs w -> e ∈ es ->
  match e with Datagramed _ | Looked | Bound _ _ _ | Inserted | Sent _ | Touched _ => False | _ => True end ->
  connector_step w e = Some (w', out) -> connector_inv es (outs ++ out) w'.
Proof using Hleases.
  intros I Hin Hk H. pose proof (ci_session _ _ _ I) as Es. pose proof (ci_udp _ _ _ I) as U.
  destruct e as [bytes| |socket port now| |ok|now|socket src data mx now sent|socket|socket|now| | | | | | |task frame port|task ok|task|task ok|task|source|source]; try done; cbn in H.
  - destruct (co_sockets w !! socket) as [k|] eqn:Ek; [|done]. cbn in H. destruct (fs_running k); [|done].
    injection H as E. pose proof (inv_returned _ _ _ _ _ _ _ _ _ _ I Ek Hin) as R. by rewrite E in R.
  - destruct (co_sockets w !! socket) as [k|] eqn:Ek; [|done]. cbn in H. destruct (fs_running k); [|done].
    injection H as <- <-. rewrite app_nil_r. by apply inv_socket.
  - destruct (co_sockets w !! socket) as [k|] eqn:Ek; [|done]. cbn in H. destruct (fs_aborted k); [|done].
    injection H as <- <-. rewrite app_nil_r. by apply inv_socket.
  - destruct (co_expired w) as [[]|]; try done. injection H as <- <-. rewrite app_nil_r. eapply inv_udp_only; [exact I| |done..]. by eapply udp_frame; [..|exact U].
  - destruct (co_expired w) as [[|key keys]|]; try done. injection H as <- <-. rewrite app_nil_r.
    assert (Er : co_session (remove_flow key w) = co_session w /\ co_tcp_entries (remove_flow key w) = co_tcp_entries w /\ co_tasks (remove_flow key w) = co_tasks w)
      by (unfold remove_flow; by destruct (co_flows w !! key)). destruct Er as (E1 & E2 & E3).
    eapply inv_udp_only; [exact I| |exact E1|exact E2|exact E3]. eapply (udp_frame _ _ (remove_flow key w)); [done..|]. by apply remove_flow_ok.
  - destruct (co_ending w) eqn:Ee; try done. injection H as <- <-. rewrite app_nil_r. eapply inv_udp_only; [exact I| |done..].
    destruct U as [H1 H2 H3 H4 H5 H6 H7 H8 H9]. split; unfold all_flows, held_flows in *; rewrite Ee in *; cbn; done.
  - destruct (co_ending w) eqn:Ee; try done; injection H as <- <-; rewrite app_nil_r; apply inv_loop; try done; right; by rewrite Ee.
  - destruct (co_ending w) eqn:Ee; try done; injection H as <- <-; rewrite app_nil_r; (eapply inv_udp_only; [exact I| |done..]); by eapply udp_frame; [..|exact U].
  - destruct (co_ending w) eqn:Ee; try done. injection H as <- <-. rewrite app_nil_r. eapply inv_udp_only; [exact I| |done..]. by apply taken_ok.
  - destruct (co_ending w) as [| |[|f flows]] eqn:Ee; try done. injection H as <- <-. rewrite app_nil_r. eapply inv_udp_only; [exact I| |done..]. by apply released_ok.
  - destruct (co_tasks w !! task) eqn:Et; [done|]. destruct (stream_opened_ok _ _ _ _ _ _ _ Es (ci_tcp _ _ _ I) Et Hin H) as (T & Hq & Ho & tcp & tasks & ->).
    apply inv_more; [by eapply inv_tcp_only|done|]. eapply Forall_impl; [exact Ho|]. by intros [].
  - destruct (co_tasks w !! task) as [[source m target| | |]|] eqn:Et; try done. destruct ok; injection H as <- <-.
    + apply inv_more; [by eapply inv_stream_task; [..|left|]|by repeat constructor|]. constructor; [|done].
      destruct (ti_tasks _ _ (ci_tcp _ _ _ I) _ _ Et) as (_ & l & r & p & ? & ? & -> & ->). by exists l, r, p.
    + rewrite app_nil_r. by eapply inv_stream_task; [..|right|].
  - destruct (co_tasks w !! task) as [[|source| |]|] eqn:Et; try done. injection H as <- <-.
    apply inv_more; [|by repeat constructor|by repeat constructor]. by apply inv_end_task, inv_delete_entry.
  - destruct (co_tasks w !! task) as [[| |source m|]|] eqn:Et; try done. destruct ok; injection H as <- <-.
    + apply inv_more; [by eapply inv_stream_task; [..|left|]|by repeat constructor|by repeat constructor].
    + rewrite app_nil_r. by apply inv_end_task.
  - destruct (co_tasks w !! task) as [[| | |source m]|] eqn:Et; try done. injection H as <- <-. rewrite app_nil_r. by apply inv_end_task.
  - injection H as <- <-. apply inv_more; [by apply inv_delete_entry|by repeat constructor|by repeat constructor].
  - injection H as <- <-. apply inv_more; [done|by repeat constructor|by repeat constructor].
Qed.
Lemma connector_step_inv es outs w e w' out :
  connector_inv es outs w -> e ∈ es -> connector_step w e = Some (w', out) -> connector_inv es (outs ++ out) w'.
Proof using Hleases.
  intros I Hin H. assert (Hc : match e with Datagramed _ | Looked | Bound _ _ _ | Inserted | Sent _ | Touched _ => True | _ => False end \/
    match e with Datagramed _ | Looked | Bound _ _ _ | Inserted | Sent _ | Touched _ => False | _ => True end) by (destruct e; tauto).
  destruct Hc; [by eapply step_loop|by eapply step_other].
Qed.
Lemma run_inv es0 outs0 w es w' outs :
  connector_inv es0 outs0 w -> connector_run w es = Some (w', outs) -> connector_inv (es0 ++ es) (outs0 ++ outs) w'.
Proof using Hleases.
  revert es0 outs0 w outs; induction es as [|e es IH]; intros es0 outs0 w outs I H; cbn [connector_run] in H.
  { injection H as <- <-. by rewrite !app_nil_r. }
  destruct (connector_step w e) as [[w1 out]|] eqn:E; cbn in H; [|done]. destruct (connector_run w1 es) as [[w2 outs2]|] eqn:E2; cbn in H; [|done].
  injection H as <- <-. rewrite cons_middle, !app_assoc. apply (IH _ _ w1); [|done]. apply (connector_step_inv (es0 ++ [e]) outs0 w e); [|set_solver|done].
  rewrite <- (app_nil_r outs0). apply (connector_inv_mono es0); [set_solver|by constructor|by constructor|done].
Qed.
Lemma connector_new_inv tcp :
  Z.of_nat (size udp0) <= MAX_UDP_FLOWS -> Z.of_nat (size tcp) <= Z.of_nat MAX_PENDING_TCP -> connector_inv [] [] (connector_new s udp0 tcp).
Proof.
  intros Hu Ht. split; [done| | |by constructor].
  - assert (Ha : all_flows (connector_new s udp0 tcp) = []) by (unfold all_flows, held_flows; cbn; by rewrite map_to_list_empty).
    split; try done.
    + cbn. rewrite map_size_empty. lia.
    + rewrite Ha. constructor.
    + intros f Hf. exfalso. assert (f ∈ all_flows (connector_new s udp0 tcp)) as Hin by (apply elem_of_app; by right). rewrite Ha in Hin. by apply elem_of_nil in Hin.
    + intros socket a a' m m' Hin. by apply elem_of_nil in Hin.
    + intros _ x Hx. by left.
  - split; done.
Qed.
End Session.

(** ** Sessions as established *)

Lemma lease_target_target t conn l conn' : lease_target t conn = (Ok l, conn') -> al_target l = t.
Proof.
  unfold lease_target, of_result, cfail, mret, conn_ret, mbind, conn_bind. intros H.
  repeat match goal with H : context [match ?x with _ => _ end] |- _ => destruct x eqn:?; try done end; simplify_eq; done.
Qed.
Lemma lease_targets_ok targets streams leases m :
  lease_targets targets streams leases = Ok m ->
  (forall id l, leases !! id = Some l -> al_lease_id l = id) -> forall id l, m !! id = Some l ->
  al_lease_id l = id /\ (leases !! id = Some l \/ al_target l ∈ targets).
Proof.
  revert streams leases; induction targets as [|t targets IH]; intros streams leases H Hl id l Hm; [injection H as <-; auto|].
  destruct streams as [|[conn|] streams]; try done. cbn [lease_targets] in H. apply bind_Ok in H as (l0 & E & H).
  destruct (lease_target t conn) as [r conn'] eqn:Et. cbn in E. subst r. apply lease_target_target in Et.
  edestruct (IH _ _ H) as [? [Hin|Hin]]; [|exact Hm| |].
  - intros i x. destruct (decide (al_lease_id l0 = i)) as [<-|]; [rewrite lookup_insert_eq; by intros [= <-]|rewrite lookup_insert_ne by done; apply Hl].
  - split; [done|]. destruct (decide (al_lease_id l0 = id)) as [<-|].
    + rewrite lookup_insert_eq in Hin. injection Hin as <-. right. rewrite Et. apply list_elem_of_here.
    + rewrite lookup_insert_ne in Hin by done. by left.
  - split; [done|]. right. by apply list_elem_of_further.
Qed.
Lemma establish_ok c resolve reach control streams s :
  establish c resolve reach control streams = Ok s ->
  (forall id l, cs_leases s !! id = Some l -> al_lease_id l = id /\ al_target l ∈ cn_targets c) /\ cs_max_udp_flows s = cn_max_udp_flows c.
Proof.
  unfold establish. intros H. apply bind_Ok in H as ([host port] & _ & H). apply bind_Ok in H as (remote & _ & H).
  apply bind_Ok in H as ([] & _ & H). apply bind_Ok in H as (conn & _ & H). apply bind_Ok in H as ([relay_id session_id] & _ & H).
  apply bind_Ok in H as (leases & Hl & [= <-]). cbn. split; [|done]. intros id l Hi.
  destruct (lease_targets_ok _ _ _ _ Hl ltac:(done) id l Hi) as [? [?|?]]; done.
Qed.

(** C14: in every interleaving of a session's tasks, from a lowered configuration
    and an established session on: every packet sent locally is the payload of a
    datagram the relay sent for an active UDP lease, goes to that lease's
    listener, which is on loopback, through the socket opened for that flow and
    client, and every datagram returned to the relay is a packet that listener
    sent to the flow's socket, tagged with the flow ([output_ok]); a socket is
    opened once, for one client; the flows stay within the configured maximum and
    the registries within theirs; live flows have distinct source addresses, and
    what the registry holds under a flow's source is that flow's client, lease
    and session; what it holds under an open stream's source, if not consumed, is
    that stream's request; streams connect only to a leased TCP listener; and
    while the session lives no entry outlasts its flow. *)
Theorem connector_safe (env_var : str -> option str) (node : str) (tcpl tuicl : Named) (file : ReverseIngressConfig) (c : ConnectorConfig)
    (resolve : str -> Z -> option SocketAddr) (reach : SocketAddr -> bool) (control : option Conn) (streams : list (option Conn))
    (s : ConnectorSession) (udp tcp : Entries) (es : list Event) (w : Connector) (outs : list Output) :
  to_runtime env_var node tcpl tuicl file = Ok (Some c) -> establish c resolve reach control streams = Ok s ->
  Z.of_nat (size udp) <= MAX_UDP_FLOWS -> Z.of_nat (size tcp) <= Z.of_nat MAX_PENDING_TCP ->
  connector_run (connector_new s udp tcp) es = Some (w, outs) ->
  Forall (output_ok s es outs) outs /\
  (forall out target, out ∈ outs -> match out with ToLocal _ a _ | LocalConnected _ _ a => a = target | _ => False end ->
     exists t, t ∈ cn_targets c /\ target = lt_local_addr t /\ is_loopback (ip_of target) = true) /\
  (forall socket source source' m m', FlowOpened socket source m ∈ outs -> FlowOpened socket source' m' ∈ outs -> source = source' /\ m = m') /\
  Z.of_nat (size (co_flows w)) <= cn_max_udp_flows c /\ Z.of_nat (size (co_udp_entries w)) <= MAX_UDP_FLOWS /\
  Z.of_nat (size (co_tcp_entries w)) <= Z.of_nat MAX_PENDING_TCP /\
  NoDup (map cf_source_addr (all_flows w)) /\
  (forall key f, co_flows w !! key = Some f -> exists u, came s es u /\ ul_key u = key /\ ul_client u = cf_client_addr f /\
     opened s outs (cf_socket f) (cf_source_addr f) u /\ lookup_udp (co_udp_entries w) (cf_source_addr f) = Some (udp_metadata s u)) /\
  (forall task t source m, co_tasks w !! task = Some t -> tcp_source t = Some (source, m) -> exists l r, requested s es task l r /\
     m = tcp_metadata s l r /\ (fst (take_tcp (co_tcp_entries w) source) = None \/ fst (take_tcp (co_tcp_entries w) source) = Some m)) /\
  (co_ending w = Live -> forall source, is_Some (lookup_udp (co_udp_entries w) source) ->
     is_Some (udp !! source) \/ source ∈ map cf_source_addr (all_flows w)).
Proof.
  intros Hc Hs Hu Ht H. apply establish_ok in Hs as [Hl Hm]. pose proof (runtime_targets _ _ _ _ _ _ Hc) as Htg.
  assert (Hleases : forall id l, cs_leases s !! id = Some l -> al_lease_id l = id) by (intros id l E; by apply (Hl id l)).
  apply (run_inv s udp Hleases [] [] _ _ _ _ (connector_new_inv s udp tcp Hu Ht)) in H as [_ [U1 U2 U3 U4 U5 U6 U7 U8 U9] [T1 T2 T3] Ho].
  assert (Hloop : forall id l, cs_leases s !! id = Some l -> al_target l ∈ cn_targets c /\ is_loopback (ip_of (lt_local_addr (al_target l))) = true).
  { intros id l E. destruct (Hl id l E) as [_ Hin]. split; [done|]. apply list_elem_of_lookup in Hin as [i Hi].
    by destruct (Forall2_lookup_r _ _ _ _ _ Htg Hi) as (m & _ & []). }
  split; [exact Ho|]. split.
  { intros out target Hin Hout. apply (proj1 (Forall_forall _ _) Ho) in Hin. destruct out; try done; cbn in Hin; subst.
    - destruct Hin as (u & src & (b & _ & Hb) & _ & -> & _). apply uplinked_Some in Hb as (_ & E & _); [|done].
      destruct (Hloop _ _ E). exists (target_of u). done.
    - destruct Hin as (l & r & p & (f & q & _ & Hf) & -> & _). apply tcp_request_Ok in Hf as (_ & _ & _ & E & _); [|done].
      destruct (Hloop _ _ E). by exists (al_target l). }
  split; [intros k a a' m m' A B; by destruct (U7 k a a' m m' A B) as (? & ? & _)|]. rewrite Hm in U1.
  apply to_runtime_inv in Hc as (He & Hv & _ & _ & _ & _ & Ef & _). apply ingress_validate_ok in Hv as (_ & _ & _ & Hf & _); [|done].
  split; [rewrite Ef in *; lia|]. split_and!; try done.
  - intros key f E. destruct (U4 key f E) as (u & [] & ?). by exists u.
  - intros task t source m E Es. specialize (T2 task t E). unfold task_ok in T2. rewrite Es in T2. destruct T2 as (He' & l & r & p & ? & ? & ? & _).
    by exists l, r.
Qed.

(** ** A concrete session *)

Module ConnectorDemo.
Definition text (lines : list string) : list Z := concat (map (fun l => lit l ++ [nl]) lines) ++ [nl].
Definition stream (lines : list string) : option Conn := Some (mkConn [Ok (text lines)] [] []).
Definition control : option Conn := stream ["OK"; "relay-id: relay-1"; "session-id: 000102030405060708090a0b0c0d0e0f"]%string.
Definition streams : list (option Conn) :=
  [stream ["OK"; "lease-id: 1"; "public-port: 8080"]%string; stream ["OK"; "lease-id: 2"; "public-port: 9000"]%string].
Definition resolve (h : str) (p : Z) : option SocketAddr := Some (SockV4 3405803777 p).
Definition session : ConnectorSession :=
  match establish connector_demo resolve (fun _ => true) control streams with Ok s => s | Err _ => mkConnectorSession (SockV4 0 0) [] [] ∅ 0 end.
Lemma established : establish connector_demo resolve (fun _ => true) control streams = Ok session.
Proof. vm_compute. reflexivity. Qed.
Definition flow : list Z := repeat 7 16.
Definition client : SocketAddr := SockV4 167772161 5353.
Definition sent_by (client : SocketAddr) (payload : list Z) : Event := Datagramed (datagram_encode (Uplink 2 flow client payload)).
Definition request : list str :=
  [lit "OPEN_TCP"; lit "lease-id: 1"; lit "ingress-id: 0707070707070707070707070707070a"; lit "client-addr: 10.0.0.1:5353"; lit "public-addr: 203.0.113.1:8080";
   lit "relay-id: relay-1"; lit "session-id: 000102030405060708090a0b0c0d0e0f"].
Definition target : SocketAddr := SockV6 1 8443 0 0.
(** A flow is opened, another client is not let into it; a stream is served. *)
Definition events : list Event :=
  [sent_by client [1; 2]; Looked; Bound 1 (Some 40000) 0; Inserted; Sent true; Touched 1;
   Returned 1 target [9] None 2 true; Returned 1 client [9] None 2 true;
   sent_by (SockV4 1 1) [6]; Looked; ListenerLooks (SockV6 1 40000 0 0);
   StreamOpened 5 (Ok request) (Some 40001); ListenerTakes (SockV4 (127 * 2 ^ 24 + 1) 40001); TargetConnected 5 true; ReplyWritten 5 true].
Definition state (es : list Event) : Connector :=
  match connector_run (connector_new session ∅ ∅) es with Some (w, _) => w | None => connector_new session ∅ ∅ end.
Definition outputs (es : list Event) : list Output :=
  match connector_run (connector_new session ∅ ∅) es with Some (_, outs) => outs | None => [] end.
Lemma runs : connector_run (connector_new session ∅ ∅) events = Some (state events, outputs events).
Proof. vm_compute. reflexivity. Qed.
Definition metadata : IngressMetadata :=
  mkMetadata (lit "relay-1") (lit "000102030405060708090a0b0c0d0e0f") 2 (lit "web") None (Some (display_id flow)) client (SockV4 3405803777 4433).
Example served :
  outputs events = [FlowOpened 1 (SockV6 1 40000 0 0) metadata; ToLocal 1 target [1; 2]; ToRelay 1 (datagram_encode (Downlink 2 flow [9]));
    Observed (SockV6 1 40000 0 0) (Some metadata);
    Observed (SockV4 (127 * 2 ^ 24 + 1) 40001) (Some (mkMetadata (lit "relay-1") (lit "000102030405060708090a0b0c0d0e0f") 1 (lit "web")
      (Some (lit "0707070707070707070707070707070a")) None client (SockV4 3405803777 4433)));
    LocalConnected 5 (SockV4 (127 * 2 ^ 24 + 1) 40001) (SockV4 (127 * 2 ^ 24 + 1) 8443); Answered 5 (ReplyOk ∅)].
Proof. vm_compute. reflexivity. Qed.
(** When the reader is aborted between opening a socket and inserting its flow,
    the entry stays and no task is told to stop. *)
Definition aborted : list Event :=
  [sent_by client [1]; Looked; Bound 1 (Some 40000) 0; SessionEnded; LoopStopped; SweeperStopped; FlowsTaken].
Example entry_outlasts_session :
  co_flows (state aborted) = ∅ /\ co_ending (state aborted) = Clearing [] /\ co_loop (state aborted) = Stopped /\
  lookup_udp (co_udp_entries (state aborted)) (SockV6 1 40000 0 0) = Some metadata /\
  fs_aborted <$> co_sockets (state aborted) !! 1 = Some false.
Proof. vm_compute. done. Qed.
End ConnectorDemo.
Lemma connector_safe_witness :
  Z.of_nat (size (co_flows (ConnectorDemo.state ConnectorDemo.events))) = 1 /\
  Forall (output_ok ConnectorDemo.session ConnectorDemo.events (ConnectorDemo.outputs ConnectorDemo.events)) (ConnectorDemo.outputs ConnectorDemo.events).
Proof.
  split; [vm_compute; reflexivity|].
  refine (proj1 (connector_safe _ _ _ _ _ _ _ _ _ _ _ ∅ ∅ _ _ _ connector_demo_lowers ConnectorDemo.established _ _ ConnectorDemo.runs)); vm_compute; discriminate.
Defined.
