(* ===== verification/IngressPath.v ===== *)
(** * IngressPath: the two ends of the reverse ingress together

    What the connector (Connector) writes is what the relay (Relay) reads, and
    the other way round: registration, leases, streams and datagrams. *)

From Stdlib Require Import ZArith Lia String.
From stdpp Require Import prelude strings list gmap sorting.
From S2P Require Import Sniff.
From S2P Require Import Prelude RustStr Net NetProps RustFmt Util Frame Stream Conn IngressFrame IngressProps RelayConfig Relay RelayProps.
From S2P Require Import ConnectorConfig Connector.

(** ** Messages over a sound connection *)

Lemma valid_id_graphic v : valid_id v -> Forall graphic v.
Proof.
  unfold valid_id, validate_id. intros H. apply bind_Ok in H as ([] & _ & H). apply bind_Ok in H as ([] & _ & H%ensure_Ok).
  apply Forall_forall. intros b Hb. rewrite forallb_forall in H. specialize (H b (proj1 (list_elem_of_In _ _) Hb)). unfold graphic.
  apply orb_true_iff in H as [H|H%bool_decide_eq_true].
  - unfold is_ascii_alphanumeric, is_ascii_lowercase, is_ascii_uppercase, is_ascii_digit in H. lia.
  - cbn in H. rewrite !elem_of_cons, elem_of_nil in H. lia.
Qed.
Lemma graphic_field v : Forall graphic v -> text_field v.
Proof. intros H. split; [by apply graphic_utf8|by apply trim_graphic]. Qed.
Lemma valid_id_field v : valid_id v -> text_field v.
Proof. intros H. by apply graphic_field, valid_id_graphic. Qed.

Lemma exchanges_of_result {A} (r : result SessionError A) input : exchanges (of_result r) input r [] input.
Proof. intros c Hs Hb. exists c. rewrite app_nil_r. done. Qed.
Lemma exchanges_message m encoded input :
  message_ok m -> message_encode m = Ok encoded -> exchanges (write_message (Ok encoded)) input (Ok tt) encoded input.
Proof.
  intros Hm He. destruct (ingress_message_reads m encoded [] [Ok encoded] Hm He) as [Hw _]; [by destruct encoded|destruct encoded; [done|cbn; by rewrite !app_nil_r]|].
  unfold write_message. cbn [map_err]. apply (exchanges_bind _ _ _ encoded [] input _ encoded); [apply exchanges_of_result|].
  rewrite Hw. apply (exchanges_bind _ _ _ encoded [] input _ encoded); [apply exchanges_of_result|apply exchanges_write].
Qed.
Lemma exchanges_reply r encoded rest :
  message_ok (MReply r) -> reply_encode r = Ok encoded -> exchanges read_reply (encoded ++ rest) (Ok r) [] rest.
Proof.
  intros Hm He c [Hn Hw] Hb. destruct (ingress_message_reads (MReply r) encoded rest (cn_in c) Hm He Hn Hb) as (_ & lines & rd & Hr & Hd & Hn' & Hb').
  cbn in Hd. exists (mkConn rd (cn_sent c) (cn_writes c)). unfold read_reply. rewrite Hr, Hd, app_nil_r. done.
Qed.

(** ** Registration and leases *)

Lemma register_headers (x y : list Z) :
  merge_sort key_le (map_to_list (list_to_map [(lit "relay-id", x); (lit "session-id", y)] : gmap (list Z) (list Z)))
  = [(lit "relay-id", x); (lit "session-id", y)].
Proof. vm_compute. reflexivity. Qed.
Lemma lease_headers (x y : list Z) :
  merge_sort key_le (map_to_list (list_to_map [(lit "lease-id", x); (lit "public-port", y)] : gmap (list Z) (list Z)))
  = [(lit "lease-id", x); (lit "public-port", y)].
Proof. vm_compute. reflexivity. Qed.
Lemma graphic_encodable v max e : Forall graphic v -> v <> [] -> (length v <= max)%nat -> validate_field v max e = Ok tt.
Proof. intros G Hn Hl. apply validate_field_Ok. split_and!; try done; apply graphic_not; try done; unfold graphic, cr, nl; lia. Qed.
Lemma encode_two n x n' y :
  validate_header_name n = Ok tt -> validate_header_name n' = Ok tt -> Forall graphic x -> Forall graphic y -> x <> [] -> y <> [] ->
  (length x <= 200)%nat -> (length y <= 200)%nat ->
  exists out, encode_headers [(n, x); (n', y)] (lit "OK" ++ [nl]) = Ok out /\ (length out <= 1000)%nat.
Proof.
  intros V V' Gx Gy Hx Hy Lx Ly. cbn [encode_headers]. rewrite V, V'. cbn [mbind result_bind].
  rewrite (graphic_encodable x), (graphic_encodable y) by (done || lia). cbn [mbind result_bind]. eexists. split; [reflexivity|].
  assert (Hname : forall m, validate_header_name m = Ok tt -> (length m <= 64)%nat).
  { intros m Hm. unfold validate_header_name in Hm. destruct (is_empty m); [done|]. destruct (Nat.ltb_spec 64 (length m)); [done|]. done. }
  apply Hname in V, V'. rewrite !length_app. change (length (lit "OK")) with 2%nat. cbn [length]. lia.
Qed.
Lemma reply_encodes kvs out :
  merge_sort key_le (map_to_list (list_to_map kvs : gmap (list Z) (list Z))) = kvs ->
  encode_headers kvs (lit "OK" ++ [nl]) = Ok out -> (length out <= 1000)%nat -> reply_encode (ReplyOk (list_to_map kvs)) = Ok (out ++ [nl]).
Proof.
  intros Hs He Hl. unfold reply_encode. rewrite Hs, He. cbn [mbind result_bind]. cbv zeta. rewrite length_app. cbn [length].
  rewrite (proj2 (Nat.ltb_ge _ _)); [done|]. unfold MAX_FRAME_BYTES. lia.
Qed.
Lemma two_ok n x n' y : n <> n' -> utf8_valid n = true -> utf8_valid n' = true -> Forall graphic x -> Forall graphic y ->
  message_ok (MReply (ReplyOk (list_to_map [(n, x); (n', y)]))).
Proof.
  intros Hn U U' Gx Gy k v. cbn. intros [[<- <-]|[_ [[<- <-]|[_ H]]%lookup_insert_Some]]%lookup_insert_Some; [..|done]; (split; [done|by apply graphic_field]).
Qed.
Lemma id_text i : id_ok i -> Forall graphic (display_id i) /\ display_id i <> [] /\ length (display_id i) = 32%nat.
Proof. intros Hi. destruct (display_id_facts i (proj2 Hi)) as (L & _ & _ & G). rewrite (proj1 Hi) in L. split_and!; [done|by apply display_id_ne|done]. Qed.
Lemma valid_id_size v : valid_id v -> v <> [] /\ (length v <= 128)%nat.
Proof.
  unfold valid_id, validate_id. intros H. apply bind_Ok in H as ([] & H1%ensure_Ok & H). apply bind_Ok in H as ([] & H2%ensure_Ok & _).
  apply negb_true_iff, is_empty_false in H1. apply Nat.leb_le in H2. done.
Qed.
(** Reading the reply to a request and what follows from it *)
Lemma exchanges_request {A} m request r reply (k : Reply -> conn_m SessionError A) res rest :
  message_ok m -> message_encode m = Ok request -> message_ok (MReply r) -> reply_encode r = Ok reply ->
  (forall input, exchanges (k r) input res [] input) ->
  exchanges (write_message (Ok request) ;; reply ← read_reply; k reply) (reply ++ rest) res request rest.
Proof.
  intros Hm He Hr Hre Hk. eapply exchanges_out; [|apply app_nil_r]. eapply exchanges_bind; [by apply (exchanges_message m)|].
  eapply exchanges_out; [|apply app_nil_r]. eapply exchanges_bind; [by apply exchanges_reply|]. apply Hk.
Qed.
Lemma exchanges_pure {A B} (r : result SessionError A) a (k : A -> conn_m SessionError B) res input :
  r = Ok a -> exchanges (k a) input res [] input -> exchanges (of_result r ≫= k) input res [] input.
Proof. intros -> H. eapply exchanges_out; [|apply app_nil_r]. by eapply exchanges_bind; [apply exchanges_of_result|]. Qed.

Section Node.
Context (c : ConnectorConfig) (st : RelayState) (grant : NodeGrant).
Context (Hnode : valid_id (cn_node_id c)) (Htoken : text_field (cn_token c)) (Hsafe : validate_token (cn_token c) = Ok tt).
Context (Hrelay : valid_id (rs_relay_id st)).

Lemma register_exchange id : id_ok id -> exists request reply,
  register_encode (mkRegister (cn_node_id c) (cn_token c)) = Ok request /\ reply_encode (register_reply st id) = Ok reply /\
  forall rest, exchanges (register_node c) (reply ++ rest) (Ok (rs_relay_id st, id)) request rest.
Proof using Hnode Htoken Hsafe Hrelay.
  intros Hi. destruct (id_text id Hi) as (Gi & Ni & Li). pose proof (valid_id_graphic _ Hrelay) as Gr. destruct (valid_id_size _ Hrelay) as [Nr Lr].
  assert (exists request, register_encode (mkRegister (cn_node_id c) (cn_token c)) = Ok request) as [request Ereq].
  { unfold register_encode. cbn. rewrite (valid_id_encodable _ _ Hnode). cbn. rewrite validate_token_encodable by done. cbn. by eexists. }
  destruct (encode_two (lit "relay-id") (rs_relay_id st) (lit "session-id") (display_id id)) as (out & Eo & Lo); try done; [lia..|].
  pose proof (reply_encodes _ _ (register_headers _ _) Eo Lo) as Er. exists request, (out ++ [nl]). split_and!; [done|done|].
  intros rest. unfold register_node. rewrite Ereq. unfold register_reply in *.
  apply (exchanges_request (MRegister (mkRegister (cn_node_id c) (cn_token c))) request
           (ReplyOk (list_to_map [(lit "relay-id", rs_relay_id st); (lit "session-id", display_id id)])));
    [split; cbn; [by apply valid_id_field|done]|done|by apply two_ok|done|].
  intros input. apply (exchanges_pure _ (rs_relay_id st)); [reflexivity|]. apply (exchanges_pure _ (display_id id)); [reflexivity|].
  apply (exchanges_pure _ id); [by rewrite parse_display_id|]. apply exchanges_ret.
Qed.
Lemma register_admitted request payload r :
  rs_nodes st !! cn_node_id c = Some grant -> cn_token c ∈ ng_tokens grant -> rs_sessions st !! cn_node_id c = None ->
  register_encode (mkRegister (cn_node_id c) (cn_token c)) = Ok request -> Reader.no_error r = true -> Reader.bytes r = request ++ payload ->
  exists lines r', read_frame r = Some (Ok lines, r') /\ Reader.bytes r' = payload /\
    admission st (Ok lines) = Ok (mkRegister (cn_node_id c) (cn_token c), grant).
Proof using Hnode Htoken.
  intros Hg Ht Hs Hreq Hn Hb.
  destruct (ingress_message_reads (MRegister (mkRegister (cn_node_id c) (cn_token c))) request payload r) as (_ & lines & r' & Hr & Hd & _ & Hp);
    [split; cbn; [by apply valid_id_field|done]|done..|].
  exists lines, r'. split_and!; [done|done|]. apply admission_Ok. by exists lines.
Qed.
End Node.

Lemma lease_exchange t id port : valid_id (lt_id t) -> fits 16 (lt_public_port t) -> fits 64 id -> fits 16 port -> exists request reply,
  lease_encode (mkLease (lt_id t) (lt_transport t) (lt_public_port t)) = Ok request /\ reply_encode (lease_reply id port) = Ok reply /\
  (forall rest, exchanges (lease_target t) (reply ++ rest) (Ok (mkActive id t port)) request rest) /\
  forall r payload, Reader.no_error r = true -> Reader.bytes r = request ++ payload ->
    exists lines r', read_frame r = Some (Ok lines, r') /\ Reader.bytes r' = payload /\
      lease_parse lines = Ok (mkLease (lt_id t) (lt_transport t) (lt_public_port t)).
Proof.
  intros Hv Hp Hid Hport.
  assert (exists request, lease_encode (mkLease (lt_id t) (lt_transport t) (lt_public_port t)) = Ok request) as [request Ereq].
  { unfold lease_encode. cbn. rewrite (valid_id_encodable _ _ Hv). cbn. by eexists. }
  assert (Hm : message_ok (MLease (mkLease (lt_id t) (lt_transport t) (lt_public_port t)))) by (split; [by apply valid_id_field|done]).
  assert (Gi : Forall graphic (fmt_dec id)) by (by apply fmt_radix_graphic; destruct Hid). assert (Gp : Forall graphic (fmt_dec port)) by (by apply fmt_radix_graphic; destruct Hport).
  assert (Ni : fmt_dec id <> []) by (apply fmt_radix_ne; destruct Hid; lia). assert (Np : fmt_dec port <> []) by (apply fmt_radix_ne; destruct Hport; lia).
  pose proof (length_fmt_radix 10 id 20 ltac:(lia) ltac:(apply Hid) ltac:(destruct Hid; simpl; lia) ltac:(lia)) as Li.
  pose proof (length_fmt_radix 10 port 20 ltac:(lia) ltac:(apply Hport) ltac:(destruct Hport; simpl; lia) ltac:(lia)) as Lp.
  destruct (encode_two (lit "lease-id") (fmt_dec id) (lit "public-port") (fmt_dec port)) as (out & Eo & Lo); try done; [unfold fmt_dec in *; lia..|].
  pose proof (reply_encodes _ _ (lease_headers _ _) Eo Lo) as Er. exists request, (out ++ [nl]). split_and!; [done|done| |].
  - intros rest. unfold lease_target. rewrite Ereq. unfold lease_reply in *.
    apply (exchanges_request (MLease (mkLease (lt_id t) (lt_transport t) (lt_public_port t))) request
             (ReplyOk (list_to_map [(lit "lease-id", fmt_dec id); (lit "public-port", fmt_dec port)]))); [done|done|by apply two_ok|done|].
    intros input. apply (exchanges_pure _ (fmt_dec id)); [reflexivity|]. apply (exchanges_pure _ id); [by rewrite parse_fmt_dec|].
    apply (exchanges_pure _ (fmt_dec port)); [reflexivity|]. apply (exchanges_pure _ port); [by rewrite parse_fmt_dec|]. apply exchanges_ret.
  - intros r payload Hn Hb.
    destruct (ingress_message_reads (MLease (mkLease (lt_id t) (lt_transport t) (lt_public_port t))) request payload r) as (_ & lines & r' & Hr & Hd & _ & Hb'); [done..|].
    exists lines, r'. split; [exact Hr|]. split; [exact Hb'|exact Hd].
Qed.

(** ** Streams and datagrams *)

Section Path.
Context (s : ConnectorSession) (lease : Z) (l : ActiveLease).
Context (Hrelay : valid_id (cs_relay_id s)) (Hsession : id_ok (cs_session_id s)).
Context (Hlease : cs_leases s !! lease = Some l) (Hid : al_lease_id l = lease) (Hfits : fits 64 lease).

Lemma active_lease_of t : lt_transport (al_target l) = t -> active_lease s lease t = Some l.
Proof using Hlease. intros Ht. unfold active_lease. rewrite Hlease. cbn. by rewrite bool_decide_true. Qed.
Definition open_request (client public : SocketAddr) (ingress : list Z) : OpenTcpRequest :=
  mkOpen lease ingress client public (cs_relay_id s) (cs_session_id s).
Lemma open_path client public ingress :
  lt_transport (al_target l) = Tcp -> socket_fits client -> socket_fits public -> id_ok ingress -> exists frame,
  (forall reply, forward_tcp (cs_relay_id s) (cs_session_id s) lease client public (Some ingress) true true reply =
     ([frame], match reply with
               | Some (Ok lines) => match reply_parse lines with Ok (ReplyOk _) => TcpSpliced | _ => TcpRejected end
               | _ => TcpAbandoned
               end)) /\
  forall r payload, Reader.no_error r = true -> Reader.bytes r = frame ++ payload -> exists lines r',
    read_frame r = Some (Ok lines, r') /\ Reader.bytes r' = payload /\ tcp_request s (Ok lines) = Ok (l, open_request client public ingress).
Proof using Hrelay Hsession Hlease Hfits.
  intros Ht Hc Hp Hi.
  assert (exists frame, open_encode (open_request client public ingress) = Ok frame) as [frame Ef].
  { unfold open_encode. cbn. rewrite (valid_id_encodable _ _ Hrelay). cbn. by eexists. }
  assert (Hm : message_ok (MOpen (open_request client public ingress))) by (split_and!; try done; by apply valid_id_field).
  exists frame. split.
  - intros reply. destruct (ingress_message_reads (MOpen (open_request client public ingress)) frame [] [Ok frame] Hm Ef) as [Hw _];
      [by destruct frame|destruct frame; [done|cbn; by rewrite !app_nil_r]|].
    unfold forward_tcp. cbn [negb]. fold (open_request client public ingress). rewrite Ef, Hw. destruct reply as [[lines|]|]; [|done..].
    by destruct (reply_parse lines) as [[]|].
  - intros r payload Hn Hb. destruct (ingress_message_reads (MOpen (open_request client public ingress)) frame payload r Hm Ef Hn Hb) as (_ & lines & r' & Hr & Hd & _ & Hb').
    exists lines, r'. split; [exact Hr|]. split; [exact Hb'|]. unfold tcp_request. cbn [map_err mbind result_bind]. cbn [decodes] in Hd. rewrite Hd.
    cbn [map_err mbind result_bind lease_id open_request relay_instance_id tunnel_session_id]. rewrite (active_lease_of Tcp Ht).
    cbn [ok_or mbind result_bind]. by rewrite str_eqb_refl, bool_decide_true.
Qed.
Lemma uplink_path client flow payload max d :
  lt_transport (al_target l) = Udp -> id_ok flow -> addr_wire_ok client -> bytes_ok payload ->
  Z.of_nat (length payload) <= lt_max_inner_datagram (al_target l) ->
  uplink_datagram lease flow client payload max = Some d -> uplinked s d = Some (mkUplinked l flow client payload).
Proof using Hlease Hfits.
  intros Ht Hf Hc Hp Hl H. unfold uplink_datagram in H. destruct (match max with Some _ => _ | None => _ end); [done|].
  apply Some_inj in H as <-. unfold uplinked. rewrite datagram_parse_complete by done. rewrite (active_lease_of Udp Ht). cbn [mbind option_bind].
  by rewrite (proj2 (Z.ltb_ge _ _)).
Qed.
Lemma downlink_path flow data t f :
  id_ok flow -> bytes_ok data -> by_id t !! (lease, flow) = Some f ->
  downlink_flow t (datagram_encode (Downlink lease flow data)) = Some (lease, flow, f, data).
Proof using Hfits. intros Hf Hd Ht. unfold downlink_flow. rewrite datagram_parse_complete by done. by rewrite Ht. Qed.
End Path.

(** ** The session both ends agree on *)

(** A stream on which the relay answers, unread data after it *)
Definition answers (stream : option Conn) (r : Reply) : Prop :=
  exists conn reply rest, stream = Some conn /\ sound conn /\ reply_encode r = Ok reply /\ Reader.bytes (cn_in conn) = reply ++ rest.
Definition granted_leases (ts : list LocalTarget) (gs : list (Z * Z)) (m : gmap Z ActiveLease) : gmap Z ActiveLease :=
  foldl (fun m tg => <[tg.2.1 := mkActive tg.2.1 tg.1 tg.2.2]> m) m (zip ts gs).
Lemma lease_targets_granted ts gs streams m :
  Forall (fun t => valid_id (lt_id t) /\ fits 16 (lt_public_port t)) ts -> Forall (fun g => fits 64 g.1 /\ fits 16 g.2) gs ->
  length ts = length gs -> Forall2 (fun stream g => answers stream (lease_reply g.1 g.2)) streams gs ->
  lease_targets ts streams m = Ok (granted_leases ts gs m).
Proof.
  revert gs streams m; induction ts as [|t ts IH]; intros [|[id port] gs] streams m Hts Hgs Hlen Hst; try done.
  apply Forall_cons in Hts as [[Hv Hp] Hts]. apply Forall_cons in Hgs as [[Hid Hport] Hgs]. cbn in Hid, Hport.
  apply Forall2_cons_inv_r in Hst as (stream & streams' & (conn & reply & rest & -> & Hs & Hr & Hb) & Hst & ->).
  destruct (lease_exchange t id port Hv Hp Hid Hport) as (request & reply' & _ & Hr' & Hex & _). cbn [fst snd] in Hr. rewrite Hr in Hr'. injection Hr' as <-.
  destruct (Hex rest conn Hs Hb) as (conn' & E & _). cbn [lease_targets]. rewrite E. cbn [fst mbind result_bind].
  apply (IH gs streams' _ Hts Hgs); [by injection Hlen|exact Hst].
Qed.
Lemma granted_leases_lookup ts gs m id port t :
  NoDup (map fst gs) -> (t, (id, port)) ∈ zip ts gs -> granted_leases ts gs m !! id = Some (mkActive id t port).
Proof.
  assert (Hkeep : forall ts gs m id x, id ∉ map fst gs -> m !! id = Some x -> granted_leases ts gs m !! id = Some x).
  { intros ts'; induction ts' as [|u ts' IH]; intros [|[i p] gs'] m' k x Hni Hm; try done. cbn in Hni. apply not_elem_of_cons in Hni as [? ?].
    unfold granted_leases. cbn. apply IH; [done|]. by rewrite lookup_insert_ne. }
  revert gs m; induction ts as [|u ts IH]; intros [|[i p] gs] m Hn Hin; try (by apply elem_of_nil in Hin). cbn in Hn, Hin. apply NoDup_cons in Hn as [Hi Hn].
  unfold granted_leases. cbn. apply elem_of_cons in Hin as [[= <- <- <-]|Hin].
  - apply (Hkeep ts gs _ id); [done|]. by rewrite lookup_insert_eq.
  - by apply IH.
Qed.

(** A TCP connection to the leased port reaches the connector as what it is:
    one frame, over any fragmentation, that the connector accepts for this lease,
    with the client's address; the relay splices exactly when it is answered. *)
Definition tcp_carried (st : RelayState) (id : Id128) (s : ConnectorSession) (lease : Z) (l : ActiveLease) : Prop :=
  forall client public ingress, socket_fits client -> socket_fits public -> id_ok ingress -> exists frame,
  (forall reply, forward_tcp (rs_relay_id st) id lease client public (Some ingress) true true reply =
     ([frame], match reply with
               | Some (Ok lines) => match reply_parse lines with Ok (ReplyOk _) => TcpSpliced | _ => TcpRejected end
               | _ => TcpAbandoned
               end)) /\
  forall r payload, Reader.no_error r = true -> Reader.bytes r = frame ++ payload -> exists lines r' request,
    read_frame r = Some (Ok lines, r') /\ Reader.bytes r' = payload /\ tcp_request s (Ok lines) = Ok (l, request) /\
    im_client_addr (tcp_metadata s l request) = client /\ im_ingress_id (tcp_metadata s l request) = Some (display_id ingress).
(** A datagram to the leased port reaches the connector's flow with its client
    and payload, and a datagram of that flow is routed back to the client. *)
Definition udp_carried (s : ConnectorSession) (lease : Z) (l : ActiveLease) : Prop :=
  (forall client flow payload max d, id_ok flow -> addr_wire_ok client -> bytes_ok payload ->
     Z.of_nat (length payload) <= lt_max_inner_datagram (al_target l) ->
     uplink_datagram lease flow client payload max = Some d -> uplinked s d = Some (mkUplinked l flow client payload)) /\
  (forall flow data t f, id_ok flow -> bytes_ok data -> by_id t !! (lease, flow) = Some f ->
     downlink_flow t (datagram_encode (Downlink lease flow data)) = Some (lease, flow, f, data)).

(** C15: a lowered configuration whose token the relay knows for that node gets
    exactly the session the relay grants: the relay admits the registration,
    however it is fragmented; from the relay's replies the connector obtains its
    relay id, session id and, for every target in order, the lease granted; and
    on those leases TCP connections and datagrams pass between the two as they
    are ([tcp_carried], [udp_carried]). *)
Theorem ingress_end_to_end (env_var : str -> option str) (node : str) (tcpl tuicl : Named) (file : ReverseIngressConfig)
    (c : ConnectorConfig) (st : RelayState) (grant : NodeGrant) (id : Id128) (resolve : str -> Z -> option SocketAddr)
    (reach : SocketAddr -> bool) (host : str) (port : Z) (remote : SocketAddr) (control : option Conn) (streams : list (option Conn))
    (gs : list (Z * Z)) :
  to_runtime env_var node tcpl tuicl file = Ok (Some c) -> text_field (cn_token c) ->
  Forall (fun m => fits 16 (il_public_port m)) (ri_listeners file) ->
  valid_id (rs_relay_id st) -> id_ok id -> rs_nodes st !! node = Some grant -> cn_token c ∈ ng_tokens grant -> rs_sessions st !! node = None ->
  split_host_port (cn_relay c) = Some (host, port) -> resolve host port = Some remote -> reach remote = true ->
  answers control (register_reply st id) ->
  length (cn_targets c) = length gs -> NoDup (map fst gs) -> Forall (fun g => fits 64 g.1 /\ fits 16 g.2) gs ->
  Forall2 (fun stream g => answers stream (lease_reply g.1 g.2)) streams gs ->
  exists s request, establish c resolve reach control streams = Ok s /\ cs_relay_id s = rs_relay_id st /\ cs_session_id s = id /\
  register_encode (mkRegister node (cn_token c)) = Ok request /\
  (forall r payload, Reader.no_error r = true -> Reader.bytes r = request ++ payload -> exists lines r',
     read_frame r = Some (Ok lines, r') /\ Reader.bytes r' = payload /\ admission st (Ok lines) = Ok (mkRegister node (cn_token c), grant)) /\
  forall t lease pub, (t, (lease, pub)) ∈ zip (cn_targets c) gs ->
    (lt_transport t = Tcp -> tcp_carried st id s lease (mkActive lease t pub)) /\
    (lt_transport t = Udp -> udp_carried s lease (mkActive lease t pub)).
Proof.
  intros Hc Htok Hpub Hrid Hid Hn Ht Hs Hrelay Hres Hreach (conn & reply & rest & -> & Hsound & Hreply & Hb) Hlen Hnd Hgs Hst.
  pose proof (runtime_targets _ _ _ _ _ _ Hc) as Htg. apply to_runtime_inv in Hc as (_ & _ & Hsafe & Hnode & En & _). rewrite <- En in *.
  destruct (register_exchange c st Hnode Htok Hsafe Hrid id Hid) as (request & reply' & Ereq & Er & Hex). rewrite Hreply in Er. injection Er as <-.
  destruct (Hex rest conn Hsound Hb) as (conn' & E & _).
  assert (Hts : Forall (fun t => valid_id (lt_id t) /\ fits 16 (lt_public_port t)) (cn_targets c)).
  { apply Forall_forall. intros t Hin. apply list_elem_of_lookup in Hin as [i Hi]. destruct (Forall2_lookup_r _ _ _ _ _ Htg Hi) as (m & Hm & [_ Hv _ Ep _ _ _]).
    split; [done|]. rewrite Ep. by apply (Forall_lookup_1 _ _ _ _ Hpub Hm). }
  pose proof (lease_targets_granted _ _ _ ∅ Hts Hgs Hlen Hst) as Hl.
  exists (mkConnectorSession remote (rs_relay_id st) id (granted_leases (cn_targets c) gs ∅) (cn_max_udp_flows c)), request.
  split; [unfold establish; rewrite Hrelay; cbn [ok_or mbind result_bind]; rewrite Hres; cbn [ok_or mbind result_bind]; rewrite Hreach;
          cbn [ensure mbind result_bind ok_or]; rewrite E; cbn [fst mbind result_bind]; by rewrite Hl|].
  split; [done|]. split; [done|]. split; [done|]. split; [intros r payload; by eapply register_admitted|].
  intros t lease pub Hin. set (s := mkConnectorSession _ _ _ _ _).
  assert (El : cs_leases s !! lease = Some (mkActive lease t pub)) by (by apply granted_leases_lookup).
  assert (Hf : fits 64 lease) by (apply elem_of_zip_r in Hin; by apply (proj1 (Forall_forall _ _) Hgs) in Hin as [? _]).
  split; intros Htr.
  - intros client public ingress Hcl Hp Hi. destruct (open_path s lease _ Hrid Hid El Hf client public ingress Htr Hcl Hp Hi) as (frame & H1 & H2).
    exists frame. split; [exact H1|]. intros r payload Hr Hrb. destruct (H2 r payload Hr Hrb) as (lines & r' & A & B & C).
    exists lines, r', (open_request s lease client public ingress). split; [exact A|]. split; [exact B|]. split; [exact C|]. split; reflexivity.
  - split; [intros; by eapply uplink_path|intros; by apply downlink_path].
Qed.

(** ** A concrete session *)

Definition path_env (_ : str) : option str := None.
Definition path_file : ReverseIngressConfig :=
  mkIngressConfig true (lit "relay.example:4433") (lit "relay.example") (lit "token-1") [] false None 64 2 1 30
    [mkIngressListener (lit "web") (lit "tcp") 8080 (lit "https-in") 1200; mkIngressListener (lit "dns") (lit "udp") 53 (lit "tuic-in") 1200].
Definition path_config : ConnectorConfig :=
  match to_runtime path_env (lit "edge-a") connector_demo_tcp connector_demo_tuic path_file with
  | Ok (Some c) => c
  | _ => connector_demo
  end.
Lemma path_lowers : to_runtime path_env (lit "edge-a") connector_demo_tcp connector_demo_tuic path_file = Ok (Some path_config).
Proof. vm_compute. reflexivity. Qed.
Definition path_state : RelayState := RelayState_new relay_demo.
Definition path_grant : NodeGrant := default (mkGrant [] ∅ 0 0 0) (rs_nodes path_state !! lit "edge-a").
Definition path_id : Id128 := seqZ 0 16.
Definition path_stream (r : Reply) : option Conn := Some (mkConn [Ok (unwrap_or (reply_encode r) [])] [] []).
Definition path_grants : list (Z * Z) := [(1, 8080); (2, 53)].
Definition path_streams : list (option Conn) := map (fun g => path_stream (lease_reply g.1 g.2)) path_grants.
Definition path_resolve (_ : str) (p : Z) : option SocketAddr := Some (SockV4 3405803777 p).
Lemma path_answers r bytes : reply_encode r = Ok bytes -> bytes <> [] -> answers (path_stream r) r.
Proof.
  intros E Hn. exists (mkConn [Ok bytes] [] []), bytes, []. unfold path_stream. rewrite E. split; [done|]. split; [by split; [destruct bytes|]|].
  split; [done|]. cbn. by destruct bytes.
Qed.
Definition encoded (r : Reply) : list Z := unwrap_or (reply_encode r) [].
Lemma ingress_end_to_end_witness :
  exists s request, establish path_config path_resolve (fun _ => true) (path_stream (register_reply path_state path_id)) path_streams = Ok s /\
    register_encode (mkRegister (lit "edge-a") (cn_token path_config)) = Ok request /\ cs_session_id s = path_id.
Proof.
  destruct (ingress_end_to_end path_env (lit "edge-a") connector_demo_tcp connector_demo_tuic path_file path_config path_state path_grant path_id
    path_resolve (fun _ => true) (lit "relay.example") 4433 (SockV4 3405803777 4433) (path_stream (register_reply path_state path_id)) path_streams path_grants)
    as (s & request & H1 & _ & H2 & H3 & _);
    [exact path_lowers|..|exists s, request; split; [exact H1|split; [exact H3|exact H2]]].
  - by vm_compute.
  - by repeat constructor.
  - by vm_compute.
  - split; [done|]. apply (bool_decide_unpack _). vm_compute. exact I.
  - by vm_compute.
  - apply (bool_decide_unpack _). vm_compute. exact I.
  - by vm_compute.
  - by vm_compute.
  - by vm_compute.
  - by vm_compute.
  - apply (path_answers _ (encoded (register_reply path_state path_id))); by vm_compute.
  - by vm_compute.
  - apply (bool_decide_unpack _). vm_compute. exact I.
  - by repeat constructor.
  - constructor; [apply (path_answers _ (encoded (lease_reply 1 8080))); by vm_compute|].
    constructor; [apply (path_answers _ (encoded (lease_reply 2 53))); by vm_compute|constructor].
Defined.
