(* ===== verification/Outbound.v ===== *)
(** * Outbound: opening the connection a decision asks for

    Models src/src/outbound/mod.rs with the address resolution and dialling of
    src/src/resolver.rs: direct connections, HTTP and SOCKS5 upstreams with
    their handshakes, reverse hops, the overlay, and priority-ordered failover
    chains under their time budgets, for TCP and UDP. What the network does
    during one attempt is an [Env]; times are in milliseconds. Error texts are
    reduced to their constant part. *)

From Stdlib Require Import ZArith Lia.
From stdpp Require Import prelude strings list gmap sorting.
From S2P Require Import Prelude RustStr Net RustFmt Util Frame Stream Conn Domain Policy Model ModelProps Engine.

Definition CHAIN_ATTEMPT_TIMEOUT : Z := 10000.
Definition CHAIN_TOTAL_TIMEOUT : Z := 30000.

(** Where an established stream really goes. *)
Inductive Link :=
| LTcp (addr : SocketAddr) (tls : option str)
| LReverse (hop_id host : str) (port : Z)
| LOverlay (ip port : Z).
Record Tunnel := mkTunnel { tn_link : Link; tn_conn : Conn }.

(** One attempt's environment: name lookups ([en_custom] is the installed
    resolver), which addresses accept, TLS (the names rustls accepts and the
    handshake), the peer's side of the stream, the reverse and overlay stacks,
    and how long the attempt takes. *)
Record Env := mkNetEnv {
  en_custom : option (str -> option (list IpAddr));
  en_system : str -> Z -> option (list SocketAddr);
  en_accepts : SocketAddr -> bool;
  en_server_name : str -> bool;
  en_handshake : SocketAddr -> str -> bool -> bool;
  en_peer : Conn;
  en_reverse : str -> str -> Z -> result ProxyError Conn;
  en_overlay : Z -> Z -> option Conn;
  en_open_udp : str -> result ProxyError unit;
  en_elapsed : Z
}.

(** The base64 crate's standard alphabet. *)
Class Base64 := base64_encode : list Z -> str.

(** ** resolver.rs *)

Inductive TcpConnectError := Resolve | DialFailed.

(** [SocketAddr::new] *)
Definition socket_new (ip : IpAddr) (port : Z) : SocketAddr :=
  match ip with V4 a => SockV4 a port | V6 a => SockV6 a port 0 0 end.

(** [resolve] *)
Definition resolve (e : Env) (host : str) (port : Z) : result unit (list SocketAddr) :=
  match parse_ip_addr host with
  | Some ip => Ok [socket_new ip port]
  | None =>
      addrs ← ok_or (match en_custom e with
                     | Some lookup => map (fun ip => socket_new ip port) <$> lookup host
                     | None => en_system e host port
                     end) tt;
      ensure (negb (is_empty addrs)) tt ;;
      Ok addrs
  end.
(** [resolve_one] *)
Definition resolve_one (e : Env) (host : str) (port : Z) : result unit SocketAddr :=
  addrs ← resolve e host port; ok_or (head addrs) tt.
(** [tcp_connect_detailed] *)
Definition tcp_connect_detailed (e : Env) (host : str) (port : Z) : result TcpConnectError SocketAddr :=
  addrs ← map_err (fun _ => Resolve) (resolve e host port);
  ensure (negb (is_empty addrs)) Resolve ;;
  ok_or (snd <$> list_find (fun a => Is_true (en_accepts e a)) addrs) DialFailed.

(** ** Labels *)

Definition egress_label (up : Upstream) : str :=
  match up_kind up with
  | Reverse => lit "reverse:" ++ up_addr up
  | Subnetra => lit "subnetra"
  | _ => lit "upstream:" ++ up_addr up
  end.
Definition decision_label (d : Decision) : str :=
  match d with
  | Direct => lit "direct"
  | Via up => egress_label up
  | ViaChain c => lit "chain:" ++ ch_id c
  | Block => lit "block"
  end.
Record EgressInfo := mkInfo { ei_label : str; ei_chain_id : option str; ei_member_id : option str; ei_attempts : Z }.
(** [EgressInfo::single] *)
Definition single (label : str) : EgressInfo := mkInfo label None None 1.

(** [EgressContext]: which runtime capabilities exist *)
Record EgressContext := mkEgressContext { ec_reverse : bool; ec_subnetra : bool; ec_subnetra_tun : bool }.

(** ** Dialling an upstream proxy *)

Definition map_tcp_connect (context : str) (e : TcpConnectError) : ProxyError :=
  match e with Resolve => Dns context | DialFailed => Dial context end.

(** [dial] *)
Definition dial (e : Env) (up : Upstream) : result ProxyError Link :=
  let host := host_of (up_addr up) in
  port ← ok_or ('(_, p) ← rsplit_once colon (up_addr up); from_str_radix 10 16 p) (UpstreamFailed (lit "bad upstream addr"));
  addr ← map_err (map_tcp_connect (lit "dial upstream")) (tcp_connect_detailed e host port);
  if up_tls up then
    ensure (en_server_name e host) (Tls (lit "bad upstream sni")) ;;
    ensure (en_handshake e addr host (up_skip_cert_verify up)) (Tls (lit "upstream tls")) ;;
    Ok (LTcp addr (Some host))
  else Ok (LTcp addr None).

(** [http_2xx] of util.rs *)
Definition http_2xx (head : list Z) : bool :=
  let line := match find_sub head [13; 10] with Some i => take i head | None => head end in
  match split_whitespace (from_utf8_lossy line) !! 1%nat with
  | Some code => starts_with (lit "2") code
  | None => false
  end.

Definition io_error (_ : IoError) : ProxyError := Io (lit "io").
(** [read_http_head] on a connection; the reader always ends ([head_loop_terminates]). *)
Definition chead (cap : nat) : conn_m ProxyError (list Z) := fun c =>
  match read_http_head (cn_in c) cap with
  | Some (Ok head, rd) => (Ok head, mkConn rd (cn_sent c) (cn_writes c))
  | Some (Err _, rd) => (Err (Io (lit "header")), mkConn rd (cn_sent c) (cn_writes c))
  | None => (Err (Io (lit "fuel")), c)
  end.

Section Outbound.
Context {B64 : Base64}.

(** The request [http_connect] writes. *)
Definition http_connect_request (up : Upstream) (host : str) (port : Z) : str :=
  let target := host ++ [colon] ++ fmt_dec port in
  lit "CONNECT " ++ target ++ lit " HTTP/1.1" ++ [13; 10] ++ lit "Host: " ++ target ++ [13; 10] ++
  match up_username up with
  | Some user =>
      let pass := default [] (up_password up) in
      lit "Proxy-Authorization: Basic " ++ base64_encode (user ++ [colon] ++ pass) ++ [13; 10]
  | None => []
  end ++
  lit "Proxy-Connection: keep-alive" ++ [13; 10; 13; 10].

(** [http_connect], after the dial *)
Definition http_handshake (up : Upstream) (host : str) (port : Z) : conn_m ProxyError unit :=
  cwrite io_error (http_connect_request up host port) ;;
  head ← chead 8192;
  if http_2xx head then mret tt else cfail (UpstreamFailed (lit "http upstream refused")).

(** [socks5_connect], after the dial: method negotiation and sub-negotiation *)
Definition socks5_auth (up : Upstream) : conn_m ProxyError unit :=
  cwrite io_error (if bool_decide (is_Some (up_username up)) then [5; 1; 2] else [5; 1; 0]) ;;
  resp ← cread io_error 2;
  if negb (nth 0 resp 0 =? 5) then cfail (UpstreamFailed (lit "upstream bad socks version"))
  else if nth 1 resp 0 =? 0 then mret tt
  else if nth 1 resp 0 =? 2 then
    let user := default [] (up_username up) in
    let pass := default [] (up_password up) in
    cwrite io_error ([1; wrap 8 (Z.of_nat (length user))] ++ user ++ [wrap 8 (Z.of_nat (length pass))] ++ pass) ;;
    ar ← cread io_error 2;
    if negb (nth 1 ar 0 =? 0) then cfail (UpstreamFailed (lit "upstream socks auth failed")) else mret tt
  else cfail (UpstreamFailed (lit "upstream socks method")).
(** The CONNECT request and its reply. *)
Definition socks5_request (host : str) (port : Z) : conn_m ProxyError unit :=
  if (255 <? length host)%nat then cfail (UpstreamFailed (lit "hostname too long"))
  else
    cwrite io_error ([5; 1; 0; 3; Z.of_nat (length host)] ++ host ++ to_be_bytes 2 port) ;;
    head ← cread io_error 4;
    if negb (nth 1 head 0 =? 0) then cfail (UpstreamFailed (lit "upstream socks reply"))
    else if nth 3 head 0 =? 1 then cread io_error 6 ;; mret tt
    else if nth 3 head 0 =? 4 then cread io_error 18 ;; mret tt
    else if nth 3 head 0 =? 3 then
      l ← cread_u8 io_error;
      cread io_error (Z.to_nat l + 2) ;; mret tt
    else cfail (UpstreamFailed (lit "upstream bad bnd atyp")).
Definition socks5_handshake (up : Upstream) (host : str) (port : Z) : conn_m ProxyError unit :=
  socks5_auth up ;; socks5_request host port.

(** The handshake on the dialled stream. *)
Definition handshaken (link : Link) (m : conn_m ProxyError unit) (c : Conn) : result ProxyError Tunnel :=
  match m c with (Ok _, c) => Ok (mkTunnel link c) | (Err e, _) => Err e end.

(** [reverse_connect], [subnetra_connect] *)
Definition reverse_connect (e : Env) (up : Upstream) (host : str) (port : Z) (ctx : EgressContext) : result ProxyError Tunnel :=
  ensure (ec_reverse ctx) (ReverseUnavailable (lit "reverse data plane is not enabled")) ;;
  c ← en_reverse e (up_addr up) host port;
  Ok (mkTunnel (LReverse (up_addr up) host port) c).
Definition subnetra_connect (e : Env) (host : str) (port : Z) (ctx : EgressContext) : result ProxyError Tunnel :=
  ensure (negb (ec_subnetra_tun ctx)) (UpstreamFailed (lit "subnetra is running in TUN mode")) ;;
  ensure (ec_subnetra ctx) (UpstreamFailed (lit "subnetra is not enabled")) ;;
  ip ← ok_or (parse_ipv4_addr host) (UpstreamFailed (lit "not an overlay IPv4 address"));
  c ← ok_or (en_overlay e ip port) (UpstreamFailed (lit "subnetra connect"));
  Ok (mkTunnel (LOverlay ip port) c).

(** [connect_upstream] *)
Definition connect_upstream (e : Env) (up : Upstream) (host : str) (port : Z) (ctx : EgressContext) : result ProxyError Tunnel :=
  match up_kind up with
  | Http => link ← dial e up; handshaken link (http_handshake up host port) (en_peer e)
  | Socks5 => link ← dial e up; handshaken link (socks5_handshake up host port) (en_peer e)
  | Reverse => reverse_connect e up host port ctx
  | Subnetra => subnetra_connect e host port ctx
  end.

(** ** Failover chains *)

(** [remaining_budget] *)
Definition remaining_budget (deadline now attempts_so_far : Z) : option Z :=
  let remaining := Z.max 0 (deadline - now) in
  if (remaining =? 0) && (0 <? attempts_so_far) then None
  else Some (Z.min CHAIN_ATTEMPT_TIMEOUT (Z.max remaining 1)).

(** The member loop of [connect_chain] and [connect_udp_chain]: [attempt] opens
    one member in the environment of that attempt, [timed_out] is the error of
    a member that used up its slot. Returns the time as well. *)
Fixpoint try_members {T} (chain : Chain) (attempt : Env -> Upstream -> result ProxyError T) (timed_out : ProxyError)
    (envs : nat -> Env) (deadline : Z) (members : list ChainMember) (attempts : nat) (now : Z) (last : option ProxyError)
    : result ProxyError (T * EgressInfo) * Z :=
  let exhausted :=
    (Err (ChainExhausted (ch_id chain) (Z.of_nat attempts) (default (UpstreamFailed (lit "no eligible members")) last)), now) in
  match members with
  | [] => exhausted
  | member :: members =>
      match remaining_budget deadline now (Z.of_nat attempts) with
      | None => exhausted
      | Some per_attempt =>
          let e := envs attempts in
          let attempts := S attempts in
          if en_elapsed e <? per_attempt then
            match attempt e (cm_upstream member) with
            | Ok stream =>
                (Ok (stream, mkInfo (egress_label (cm_upstream member)) (Some (ch_id chain)) (Some (cm_id member))
                               (Z.of_nat attempts)), now + en_elapsed e)
            | Err err => try_members chain attempt timed_out envs deadline members attempts (now + en_elapsed e) (Some err)
            end
          else try_members chain attempt timed_out envs deadline members attempts (now + per_attempt) (Some timed_out)
      end
  end.

(** [connect_chain] *)
Definition connect_chain (envs : nat -> Env) (start : Z) (chain : Chain) (host : str) (port : Z) (ctx : EgressContext)
    : result ProxyError (Tunnel * EgressInfo) * Z :=
  try_members chain (fun e up => connect_upstream e up host port ctx) (UpstreamFailed (lit "attempt timed out")) envs
    (start + CHAIN_TOTAL_TIMEOUT) (ch_members chain) 0 start None.

(** [connect] *)
Definition connect (envs : nat -> Env) (start : Z) (d : Decision) (host : str) (port : Z) (ctx : EgressContext)
    : result ProxyError (Tunnel * EgressInfo) * Z :=
  let e := envs 0%nat in
  match d with
  | Direct =>
      (addr ← map_err (map_tcp_connect (lit "direct")) (tcp_connect_detailed e host port);
       Ok (mkTunnel (LTcp addr None) (en_peer e), single (lit "direct")), start + en_elapsed e)
  | Via up =>
      (t ← connect_upstream e up host port ctx; Ok (t, single (egress_label up)), start + en_elapsed e)
  | ViaChain chain => connect_chain envs start chain host port ctx
  | Block => (Err (Blocked host), start)
  end.

(** ** UDP *)

(** A UDP relay is bound to one hop. *)
Definition open_udp (e : Env) (up : Upstream) : result ProxyError str := en_open_udp e (up_addr up) ;; Ok (up_addr up).

(** [connect_udp_chain] *)
Definition connect_udp_chain (envs : nat -> Env) (start : Z) (chain : Chain) (ctx : EgressContext)
    : result ProxyError (str * EgressInfo) * Z :=
  let candidates := filter (fun m => up_kind (cm_upstream m) = Reverse) (ch_members chain) in
  if is_empty candidates then
    (Err (ChainExhausted (ch_id chain) 0 (UpstreamFailed (lit "no udp-capable (reverse) members"))), start)
  else if negb (ec_reverse ctx) then
    (Err (ChainExhausted (ch_id chain) 0 (ReverseUnavailable (lit "reverse data plane is not enabled"))), start)
  else try_members chain open_udp (ReverseOpen (lit "udp open timed out")) envs (start + CHAIN_TOTAL_TIMEOUT)
         candidates 0 start None.

(** [connect_udp] *)
Definition connect_udp (envs : nat -> Env) (start : Z) (d : Decision) (ctx : EgressContext)
    : result ProxyError (str * EgressInfo) * Z :=
  let e := envs 0%nat in
  match d with
  | Via up =>
      if bool_decide (up_kind up = Reverse) then
        (ensure (ec_reverse ctx) (ReverseUnavailable (lit "reverse data plane is not enabled")) ;;
         relay ← open_udp e up; Ok (relay, single (egress_label up)), start + en_elapsed e)
      else (Err (UpstreamFailed (lit "udp egress not supported via upstream kind")), start)
  | ViaChain chain => connect_udp_chain envs start chain ctx
  | Direct => (Err (UpstreamFailed (lit "udp direct egress is out of scope")), start)
  | Block => (Err (Blocked (lit "udp")), start)
  end.

End Outbound.

(** * Egress follows the decision, and chains fail over in order *)

Section Outbound.
Context {B64 : Base64}.

(** ** Where a stream goes *)

(** The resolver answers for [host] contain [addr]. *)
Definition resolved (e : Env) (host : str) (port : Z) (addr : SocketAddr) : Prop :=
  exists addrs, resolve e host port = Ok addrs /\ addr ∈ addrs /\ en_accepts e addr = true.

(** The stream leaves through the upstream [up] for the target. *)
Definition through (e : Env) (up : Upstream) (host : str) (port : Z) (link : Link) : Prop :=
  match up_kind up with
  | Http | Socks5 => exists addr p, resolved e (host_of (up_addr up)) p addr /\
      link = LTcp addr (if up_tls up then Some (host_of (up_addr up)) else None)
  | Reverse => link = LReverse (up_addr up) host port
  | Subnetra => exists ip, parse_ipv4_addr host = Some ip /\ link = LOverlay ip port
  end.

Lemma tcp_connect_resolved e host port addr : tcp_connect_detailed e host port = Ok addr -> resolved e host port addr.
Proof.
  unfold tcp_connect_detailed. intros Hc. apply bind_Ok in Hc as (addrs & Hr & Hc). apply map_err_Ok in Hr.
  apply bind_Ok in Hc as (? & _ & Hc). apply ok_or_Ok in Hc.
  destruct (list_find _ addrs) as [[i a]|] eqn:El; [|done]. injection Hc as ->.
  apply list_find_Some in El as (Hi & Ha & _). exists addrs. split_and!; [done|by eapply list_elem_of_lookup_2|by apply Is_true_true].
Qed.

Lemma dial_through e up link : dial e up = Ok link ->
  exists addr p, resolved e (host_of (up_addr up)) p addr /\
    link = LTcp addr (if up_tls up then Some (host_of (up_addr up)) else None).
Proof.
  unfold dial. intros Hd. apply bind_Ok in Hd as (p & _ & Hd). apply bind_Ok in Hd as (addr & Hc & Hd).
  apply map_err_Ok, tcp_connect_resolved in Hc. exists addr, p. split; [done|].
  destruct (up_tls up); res_inv; done.
Qed.

Lemma connect_upstream_through e up host port ctx t :
  connect_upstream e up host port ctx = Ok t -> through e up host port (tn_link t).
Proof.
  unfold connect_upstream, through. destruct (up_kind up); intros Hc.
  - apply bind_Ok in Hc as (link & Hd & Hc). apply dial_through in Hd. unfold handshaken in Hc.
    destruct (http_handshake _ _ _ _) as [[?|?] c]; [|done]. by injection Hc as <-.
  - apply bind_Ok in Hc as (link & Hd & Hc). apply dial_through in Hd. unfold handshaken in Hc.
    destruct (socks5_handshake _ _ _ _) as [[?|?] c]; [|done]. by injection Hc as <-.
  - unfold reverse_connect in Hc. res_inv. done.
  - unfold subnetra_connect in Hc. apply bind_Ok in Hc as (? & _ & Hc). apply bind_Ok in Hc as (? & _ & Hc).
    apply bind_Ok in Hc as (ip & Hip & Hc). apply bind_Ok in Hc as (c & _ & Hc). injection Hc as <-.
    apply ok_or_Ok in Hip. eauto.
Qed.

(** ** The member loop *)

Section Members.
Context {T : Type} (chain : Chain) (attempt : Env -> Upstream -> result ProxyError T) (timed_out : ProxyError) (envs : nat -> Env).
Hypothesis elapsed_nonneg : forall i, 0 <= en_elapsed (envs i).

(** The [i]-th attempt was given a slot of at most ten seconds and failed in it
    or used it up. *)
Definition attempt_failed (i : nat) (m : ChainMember) : Prop :=
  exists slot, 0 < slot <= CHAIN_ATTEMPT_TIMEOUT /\
    (slot <= en_elapsed (envs i) \/ exists err, attempt (envs i) (cm_upstream m) = Err err).
Definition all_failed (k : nat) (tried : list ChainMember) : Prop :=
  forall i m, tried !! i = Some m -> attempt_failed (k + i) m.

Lemma all_failed_cons k m tried : attempt_failed k m -> all_failed (S k) tried -> all_failed k (m :: tried).
Proof.
  intros Hm Ht [|i] m' Hi; cbn in Hi; [injection Hi as <-; by rewrite Nat.add_0_r|].
  replace (k + S i)%nat with (S k + i)%nat by lia. by apply Ht.
Qed.

(** What the loop returns from the [k]-th attempt on. *)
Definition members_spec (members : list ChainMember) (deadline : Z) (k : nat) (r : result ProxyError (T * EgressInfo)) (t : Z) : Prop :=
  exists tried rest, members = tried ++ rest /\ all_failed k tried /\
    match r with
    | Ok (s, info) => exists m rest', rest = m :: rest' /\
        attempt (envs (k + length tried)) (cm_upstream m) = Ok s /\
        info = mkInfo (egress_label (cm_upstream m)) (Some (ch_id chain)) (Some (cm_id m)) (Z.of_nat (k + length tried + 1))
    | Err e => (exists l, e = ChainExhausted (ch_id chain) (Z.of_nat (k + length tried)) l) /\
        (rest <> [] -> deadline <= t /\ (0 < k + length tried)%nat)
    end.

Lemma members_spec_cons m members deadline k r t :
  attempt_failed k m -> members_spec members deadline (S k) r t -> members_spec (m :: members) deadline k r t.
Proof.
  intros Hm (tried & rest & -> & Hf & Hr). exists (m :: tried), rest. split; [done|]. split; [by apply all_failed_cons|].
  cbn [length]. replace (k + S (length tried))%nat with (S k + length tried)%nat by lia. exact Hr.
Qed.

Lemma try_members_spec members deadline k now last :
  (k = 0%nat -> now < deadline) -> now <= deadline ->
  let '(r, t) := try_members chain attempt timed_out envs deadline members k now last in
  members_spec members deadline k r t /\ now <= t <= deadline.
Proof.
  revert k now last; induction members as [|m members IH]; intros k now last H0 Hd; cbn [try_members].
  - split; [|lia]. exists [], []. split_and!; [done|by intros i m'|rewrite Nat.add_0_r; eauto|done].
  - unfold remaining_budget. destruct ((Z.max 0 (deadline - now) =? 0) && (0 <? Z.of_nat k)) eqn:Eb.
    + bools. split; [|lia]. exists [], (m :: members). cbn [length]. rewrite Nat.add_0_r.
      split_and!; [done|by intros i m'|eauto|intros _; lia].
    + assert (now < deadline) as Hlt.
      { destruct k; [by apply H0|]. apply andb_false_iff in Eb as [Eb|Eb]; bools; lia. }
      set (slot := Z.min CHAIN_ATTEMPT_TIMEOUT (Z.max (Z.max 0 (deadline - now)) 1)).
      assert (Hslot : 0 < slot <= CHAIN_ATTEMPT_TIMEOUT /\ now + slot <= deadline) by (unfold slot, CHAIN_ATTEMPT_TIMEOUT; lia).
      specialize (elapsed_nonneg k) as Hel.
      destruct (Z.ltb_spec (en_elapsed (envs k)) slot) as [Hin|Hout].
      * destruct (attempt (envs k) (cm_upstream m)) as [s|err] eqn:Ea.
        -- split; [|lia]. exists [], (m :: members). split; [done|]. split; [by intros i m'|].
           exists m, members. cbn [length]. rewrite Nat.add_0_r, Nat.add_1_r. done.
        -- specialize (IH (S k) (now + en_elapsed (envs k)) (Some err) ltac:(done) ltac:(lia)).
           destruct (try_members _ _ _ _ _ _ _ _ _) as [r t]. destruct IH as [IH Ht]. split; [|lia].
           apply members_spec_cons; [|done]. exists slot. split; [lia|eauto].
      * specialize (IH (S k) (now + slot) (Some timed_out) ltac:(done) ltac:(lia)).
        destruct (try_members _ _ _ _ _ _ _ _ _) as [r t]. destruct IH as [IH Ht]. split; [|lia].
        apply members_spec_cons; [|done]. exists slot. split; [lia|auto].
Qed.
End Members.



(** UDP leaves only through a reverse hop the decision names. *)
Lemma connect_udp_reverse_only (envs : nat -> Env) (start : Z) (d : Decision) (ctx : EgressContext) hop info now :
  (forall i, 0 <= en_elapsed (envs i)) ->
  connect_udp envs start d ctx = (Ok (hop, info), now) ->
  ec_reverse ctx = true /\ exists up, up_kind up = Reverse /\ up_addr up = hop /\
    match d with
    | Via up' => up' = up
    | ViaChain chain => exists m, m ∈ ch_members chain /\ cm_upstream m = up
    | _ => False
    end.
Proof.
  intros Hel Hc. destruct d as [|up|chain|]; cbn in Hc; try done.
  - destruct (bool_decide_reflect (up_kind up = Reverse)) as [Hk|]; [|done]. injection Hc as Hc _.
    apply bind_Ok in Hc as (? & He & Hc). apply ensure_Ok in He. apply bind_Ok in Hc as (h & Ho & Hc). injection Hc as <- <-.
    unfold open_udp in Ho. apply bind_Ok in Ho as (? & _ & Ho). injection Ho as <-. eauto 10.
  - unfold connect_udp_chain in Hc. destruct (is_empty _) eqn:Ee; [done|]. destruct (ec_reverse ctx) eqn:Er; [|done]. cbn [negb] in Hc.
    pose proof (try_members_spec chain open_udp (ReverseOpen (lit "udp open timed out")) envs Hel
      (filter (fun m => up_kind (cm_upstream m) = Reverse) (ch_members chain)) (start + CHAIN_TOTAL_TIMEOUT) 0 start None
      ltac:(unfold CHAIN_TOTAL_TIMEOUT; lia) ltac:(unfold CHAIN_TOTAL_TIMEOUT; lia)) as Hs.
    rewrite Hc in Hs. destruct Hs as [(tried & rest & Hm & _ & m & rest' & -> & Ha & ->) _]. split; [done|].
    assert (m ∈ filter (fun m => up_kind (cm_upstream m) = Reverse) (ch_members chain)) as Hin by (rewrite Hm; set_solver).
    apply list_elem_of_filter in Hin as [Hk Hin]. unfold open_udp in Ha. apply bind_Ok in Ha as (? & _ & Ha). injection Ha as <-.
    eauto 10.
Qed.

End Outbound.

(** ** A concrete chain *)

Module OutboundDemo.
#[export] Instance b64 : Base64 := fun _ => lit "Zm9v".
Definition peer : Conn := mkConn [Ok (lit "HTTP/1.1 200 OK"); Ok [13; 10; 13; 10]] [] [].
(** Every lookup gives one address; only the second attempt's dial is accepted. *)
Definition env (ok : bool) (ms : Z) : Env :=
  mkNetEnv None (fun _ p => Some [SockV4 (2 ^ 24 + 1) p]) (fun _ => ok) (fun _ => true) (fun _ _ _ => true) peer
    (fun _ _ _ => Err (ReverseUnavailable (lit "none"))) (fun _ _ => None) (fun _ => Ok tt) ms.
Definition envs (i : nat) : Env := match i with O => env false 40 | _ => env true 60 end.
Definition up (addr : str) : Upstream := mkUpstream Http addr None None false false.
Definition chain : Chain :=
  mkChain (lit "jp") [mkChainMember (lit "a") 10 (up (lit "a.example:8080")); mkChainMember (lit "b") 20 (up (lit "b.example:8080"))].
Definition ctx : EgressContext := mkEgressContext false false false.
Lemma chain_valid : chain_ok chain.
Proof.
  split; cbn.
  - lia.
  - repeat constructor; unfold before; cbn; lia.
  - apply (bool_decide_unpack _). vm_compute. exact I.
  - repeat constructor; done.
Qed.
Lemma elapsed i : 0 <= en_elapsed (envs i).
Proof. by destruct i. Qed.
Definition outcome := connect_chain envs 1000 chain (lit "target") 443 ctx.
Lemma outcome_member : match outcome with (Ok (_, info), t) => ei_member_id info = Some (lit "b") /\ t = 1100 | _ => False end.
Proof. vm_compute. done. Qed.
End OutboundDemo.

Section OutboundWitness.
Import OutboundDemo.


End OutboundWitness.

(** What arrives with the reply head is taken by [http_handshake] and handed to
    nobody: the first bytes of a server that speaks first can be lost. *)
Example http_connect_drops_early_bytes :
  let reply := lit "HTTP/1.1 200 OK" ++ [13; 10; 13; 10] in
  let run rd := http_handshake (B64 := OutboundDemo.b64) (OutboundDemo.up (lit "p:1")) (lit "h") 22 (mkConn rd [] []) in
  (fst (run [Ok reply; Ok (lit "SSH-2.0")]), Reader.bytes (cn_in (snd (run [Ok reply; Ok (lit "SSH-2.0")])))) = (Ok tt, lit "SSH-2.0") /\
  (fst (run [Ok (reply ++ lit "SSH-2.0")]), Reader.bytes (cn_in (snd (run [Ok (reply ++ lit "SSH-2.0")])))) = (Ok tt, []).
Proof. vm_compute. done. Qed.
