(* ===== verification/Handler.v ===== *)
(** * Handler: what the inbound handlers share

    The context of src/src/inbound/mod.rs, the audit records of
    src/src/trace.rs and src/src/model.rs, and the monad the handlers are
    written in: a client connection, the permit held, and the log of what the
    handler did to the rest of the node, in order. A permit is given back when
    the handler ends, however it ends. *)

From Stdlib Require Import ZArith Lia String.
From stdpp Require Import prelude strings list gmap.
From S2P Require Import Sniff.
From S2P Require Import Prelude RustStr Net RustFmt Util Frame Stream Conn Domain Policy Model Engine Outbound Io.

Inductive SniffMode := Observe | Route_.
Record SniffConfig := mkSniffConfig { sc_enabled : bool; sc_mode : SniffMode; sc_max_bytes : nat; sc_timeout_ms : Z }.

(** [Ctx]; [cx_consumers] is whether a tracer, diagnostics or access log is set. *)
Record Ctx := mkCtx { cx_listener : str; cx_sniff : SniffConfig; cx_consumers : bool; cx_egress : EgressContext }.

Record PolicyAttribution := mkAttribution { pa_effective_policy_host : str; pa_policy_id : option str; pa_matched_route : option Z }.
(** [PolicyAttribution::for_host] *)
Definition for_host (host : str) : PolicyAttribution := mkAttribution host None None.
(** [ResolvedDecision::attribution] *)
Definition attribution (r : ResolvedDecision) : PolicyAttribution :=
  mkAttribution (rd_effective_policy_host r) (rd_policy_id r) (rd_matched_route r).

(** [TrafficIdentity] and its builders *)
Record TrafficIdentity := mkIdentity {
  ti_requested_host : str; ti_requested_port : Z; ti_sniff : option SniffObservation; ti_policy : PolicyAttribution;
  ti_dial_host : str; ti_dial_port : Z; ti_ingress_mode : option str; ti_origin_id : option str
}.
Definition identity_new (host : str) (port : Z) : TrafficIdentity :=
  mkIdentity host port None (for_host host) host port None None.
Definition with_observation (i : TrafficIdentity) (o : SniffObservation) : TrafficIdentity :=
  mkIdentity (ti_requested_host i) (ti_requested_port i) (Some o) (ti_policy i) (ti_dial_host i) (ti_dial_port i)
    (ti_ingress_mode i) (ti_origin_id i).
Definition with_policy (i : TrafficIdentity) (p : PolicyAttribution) : TrafficIdentity :=
  mkIdentity (ti_requested_host i) (ti_requested_port i) (ti_sniff i) p (ti_dial_host i) (ti_dial_port i)
    (ti_ingress_mode i) (ti_origin_id i).

Inductive TraceResult := TraceOk | TraceError.
Record TraceCandidate := mkCandidate {
  tc_listener : str; tc_protocol : str; tc_client_addr : option str; tc_username : option str;
  tc_target_host : option str; tc_target_port : option Z; tc_traffic : option TrafficIdentity;
  tc_sniff : option SniffObservation; tc_decision : option str; tc_egress : option str; tc_chain_member : option str;
  tc_attempts : option Z; tc_result : TraceResult; tc_failure_stage : option str; tc_message : option str;
  tc_snapshot_version : Z; tc_duration_ms : Z
}.

(** ** Effects *)

Inductive action :=
| ListenerOpen | ListenerClose
| Authenticated (user : str)
| Acquired (user : str) | Released (user : str)
| Dialled (d : Decision) (host : str) (port : Z)
| EgressOpen (label : str) | EgressClose (label : str)
| Relayed (up down : Copied)
| Forwarded (up : list Z) (down : Copied)
| Associate (user : str)
| RecordListener (up down : Z) | RecordSniff (o : SniffOutcome) | RecordEgress (label : str) (up down : Z)
| Report (c : TraceCandidate)
| Logged (c : TraceCandidate) (up down : Z).

(** Why a handler ended early: its own [return Ok(())], or an error. *)
Inductive stop := Return | IoFailed | RelayFailed.

Record World := mkWorld { wd_conn : Conn; wd_permit : option ConnectionPermit; wd_log : list action }.
Definition handler (A : Type) : Type := World -> result stop A * World.
#[global] Instance handler_ret : MRet handler := fun A a w => (Ok a, w).
#[global] Instance handler_bind : MBind handler := fun A B k m w =>
  match m w with (Ok a, w) => k a w | (Err e, w) => (Err e, w) end.

Definition halt {A} (s : stop) : handler A := fun w => (Err s, w).
Definition act (a : action) : handler unit := fun w => (Ok tt, mkWorld (wd_conn w) (wd_permit w) (wd_log w ++ [a])).
Definition acts (l : list action) : handler unit := fun w => (Ok tt, mkWorld (wd_conn w) (wd_permit w) (wd_log w ++ l)).
(** An operation of the client stream, with the question mark. *)
Definition on_conn {A} (m : conn_m IoError A) : handler A := fun w =>
  match m (wd_conn w) with
  | (Ok a, c) => (Ok a, mkWorld c (wd_permit w) (wd_log w))
  | (Err _, c) => (Err IoFailed, mkWorld c (wd_permit w) (wd_log w))
  end.
(** The same, with the error kept. *)
Definition attempt {A} (m : conn_m IoError A) : handler (result IoError A) := fun w =>
  let '(r, c) := m (wd_conn w) in (Ok r, mkWorld c (wd_permit w) (wd_log w)).
Definition recv (n : nat) : handler (list Z) := on_conn (cread id n).
Definition recv_u8 : handler Z := on_conn (cread_u8 id).
Definition send (bytes : list Z) : handler unit := on_conn (cwrite id bytes).
(** Holding and dropping the connection permit. *)
Definition hold (p : ConnectionPermit) : handler unit := fun w =>
  (Ok tt, mkWorld (wd_conn w) (Some p) (wd_log w ++ [Acquired (cp_username p)])).
Definition release : handler unit := fun w =>
  match wd_permit w with
  | Some p => (Ok tt, mkWorld (wd_conn w) None (wd_log w ++ [Released (cp_username p)]))
  | None => (Ok tt, w)
  end.
(** The end of a handler's scope: the permit and the listener guard are dropped. *)
Definition scope (m : handler unit) : handler unit := fun w =>
  let '(r, w) := m w in
  let '(_, w) := release w in
  let '(_, w) := act ListenerClose w in
  (r, w).
(** An egress guard around the rest of a handler. *)
Definition with_egress (label : str) (m : handler unit) : handler unit := fun w =>
  let '(_, w) := act (EgressOpen label) w in
  let '(r, w) := m w in
  let '(_, w) := act (EgressClose label) w in
  (r, w).

(** The client stream and a tunnel as the two ends of a splice. *)
Definition source_of (r : Reader.t) : Source := map (map_err (fun _ => OtherKind)) r.
Definition sink_of (w : list bool) : Sink := map (fun b : bool => if b then None else Some (0%nat, OtherKind)) w.
Lemma source_bytes_of r : source_bytes (source_of r) = Reader.bytes r.
Proof. unfold source_of. induction r as [|[[|b c]|e] r IH]; try done. cbn [map map_err source_bytes Reader.bytes]. by rewrite IH. Qed.
Lemma source_end_of r : Reader.no_error r = true -> source_end (source_of r) = None.
Proof. unfold source_of. induction r as [|[[|b c]|e] r IH]; try done. Qed.
Lemma sink_of_sound w : Forall (fun b => b = true) w -> Forall (fun x => x = None) (sink_of w).
Proof. intros H. apply Forall_fmap. eapply Forall_impl; [exact H|]. by intros b ->. Qed.

(** [splice(client, target, up_rate, down_rate)]; it always ends ([copy_loop_ok]). *)
Definition relay (target : Conn) (up_rate down_rate : Z) : handler (result ErrorKind SpliceStats) := fun w =>
  match splice (source_of (cn_in (wd_conn w))) (sink_of (cn_writes (wd_conn w)))
               (source_of (cn_in target)) (sink_of (cn_writes target)) up_rate down_rate with
  | Some (r, up, down) =>
      (Ok r, mkWorld (mkConn [] (cn_sent (wd_conn w) ++ co_delivered down) []) (wd_permit w)
                     (wd_log w ++ [Relayed up down]))
  | None => (Err RelayFailed, w)
  end.

(** ** Reasoning: what a handler adds to the log *)

(** [m] only adds actions that satisfy [P], keeps the permit as it is, and what
    it returns satisfies [Q]. *)
Definition does {A} (P : action -> Prop) (Q : A -> Prop) (m : handler A) : Prop :=
  forall w, exists l, wd_log (snd (m w)) = wd_log w ++ l /\ Forall P l /\ wd_permit (snd (m w)) = wd_permit w /\
    forall a, fst (m w) = Ok a -> Q a.

Lemma does_ret {A} P (Q : A -> Prop) (a : A) : Q a -> does P Q (mret (M := handler) a).
Proof. intros Ha w. exists []. rewrite app_nil_r. split_and!; [done..|]. by intros ? [= <-]. Qed.
Lemma does_halt {A} P Q s : does P Q (@halt A s).
Proof. intros w. exists []. rewrite app_nil_r. by split_and!. Qed.
Lemma does_acts P (Q : unit -> Prop) l : Forall P l -> Q tt -> does P Q (acts l).
Proof. intros Ha Hq w. exists l. split_and!; try done. by intros [] _. Qed.
Lemma does_act P (Q : unit -> Prop) a : P a -> Q tt -> does P Q (act a).
Proof. intros Ha. apply does_acts. by constructor. Qed.
Lemma does_bind {A B} P (R : A -> Prop) (Q : B -> Prop) (m : handler A) (k : A -> handler B) :
  does P R m -> (forall a, R a -> does P Q (k a)) -> does P Q (m ≫= k).
Proof.
  intros Hm Hk w. destruct (Hm w) as (l & E & Hl & Hp & Ha). unfold mbind, handler_bind.
  destruct (m w) as [[a|e] w1]; cbn [fst snd] in *.
  - destruct (Hk a (Ha a eq_refl) w1) as (l' & E' & Hl' & Hp' & Ha'). exists (l ++ l'). rewrite E', E, app_assoc.
    split_and!; [done|by apply Forall_app|congruence|done].
  - exists l. by split_and!.
Qed.
Lemma does_seq {A B} P (Q : B -> Prop) (m : handler A) (k : A -> handler B) :
  does P (fun _ => True) m -> (forall a, does P Q (k a)) -> does P Q (m ≫= k).
Proof. intros Hm Hk. eapply does_bind; [exact Hm|auto]. Qed.
Lemma does_conn {A} P (m : conn_m IoError A) : does P (fun _ => True) (on_conn m).
Proof.
  intros w. exists []. unfold on_conn. destruct (m (wd_conn w)) as [[a|e] c]; cbn; rewrite app_nil_r; by split_and!.
Qed.
Lemma does_attempt {A} P (m : conn_m IoError A) : does P (fun _ => True) (attempt m).
Proof. intros w. exists []. unfold attempt. destruct (m (wd_conn w)) as [r c]; cbn. rewrite app_nil_r. by split_and!. Qed.
Lemma does_with_egress P label m : P (EgressOpen label) -> P (EgressClose label) -> does P (fun _ => True) m ->
  does P (fun _ => True) (with_egress label m).
Proof.
  intros Ho Hc Hm w. unfold with_egress, act.
  destruct (Hm (mkWorld (wd_conn w) (wd_permit w) (wd_log w ++ [EgressOpen label]))) as (l & E & Hl & Hp & _).
  destruct (m _) as [r w1]. cbn in *. exists ([EgressOpen label] ++ l ++ [EgressClose label]).
  rewrite E, <- !app_assoc. split_and!; try done. rewrite !Forall_app. repeat split; try done; by constructor.
Qed.
Lemma does_weaken {A} (P P' : action -> Prop) (Q : A -> Prop) m : (forall a, P a -> P' a) -> does P Q m -> does P' Q m.
Proof. intros H Hm w. destruct (Hm w) as (l & ? & ? & ? & ?). exists l. split_and!; try done. by eapply Forall_impl. Qed.
#[export] Hint Resolve does_ret does_halt does_conn : rove.

(** From world [w], [m] adds actions that satisfy [P] and keeps the permit. *)
Definition adds {A} (P : action -> Prop) (m : handler A) (w : World) : Prop :=
  exists l, wd_log (snd (m w)) = wd_log w ++ l /\ Forall P l /\ wd_permit (snd (m w)) = wd_permit w.
Lemma adds_does {A} P {Q : A -> Prop} (m : handler A) w : does P Q m -> adds P m w.
Proof. intros H. destruct (H w) as (l & H1 & H2 & H3 & _). by exists l. Qed.
Lemma adds_with_egress (P : action -> Prop) label m w :
  P (EgressOpen label) -> P (EgressClose label) ->
  adds P m (mkWorld (wd_conn w) (wd_permit w) (wd_log w ++ [EgressOpen label])) -> adds P (with_egress label m) w.
Proof.
  intros Ho Hc (l & E & Hl & Hp). unfold adds, with_egress, act. destruct (m _) as [r w1]. cbn in *.
  exists ([EgressOpen label] ++ l ++ [EgressClose label]). rewrite E, <- !app_assoc. split_and!; try done.
  rewrite !Forall_app. repeat split; try done; by constructor.
Qed.
Lemma adds_acts {A} (P : action -> Prop) acts' (m : unit -> handler A) w :
  Forall P acts' -> adds P (m tt) (mkWorld (wd_conn w) (wd_permit w) (wd_log w ++ acts')) -> adds P (acts acts' ≫= m) w.
Proof.
  intros Ha (l & E & Hl & Hp). unfold adds, acts, mbind, handler_bind. cbn in *. exists (acts' ++ l). rewrite E, <- !app_assoc.
  split_and!; try done. by apply Forall_app.
Qed.
Lemma adds_act {A} (P : action -> Prop) a (m : handler A) w :
  P a -> adds P m (mkWorld (wd_conn w) (wd_permit w) (wd_log w ++ [a])) -> adds P (act a ;; m) w.
Proof. intros Ha H. apply (adds_acts P [a] (fun _ => m)); [by constructor|done]. Qed.
(** A relay: what the target is sent is a prefix of the stream's bytes. *)
Lemma relay_adds {A} (P : action -> Prop) t up down (k : result ErrorKind SpliceStats -> handler A) w :
  (forall ou od, (exists rest, Reader.bytes (cn_in (wd_conn w)) = co_delivered ou ++ rest) -> P (Relayed ou od)) ->
  (forall r w', adds P (k r) w') -> adds P (relay t up down ≫= k) w.
Proof.
  intros Hr Hk. unfold adds, relay, mbind, handler_bind.
  set (a := source_of (cn_in (wd_conn w))). set (b := sink_of _). set (c := source_of (cn_in t)). set (d := sink_of (cn_writes t)).
  unfold splice. destruct (copy_throttled_total a d up) as (ou & Eu & Hu). destruct (copy_throttled_total c b down) as (od & Ed & _).
  rewrite Eu, Ed. set (w1 := mkWorld _ _ (_ ++ [Relayed _ _])).
  destruct (Hk (splice_result (co_report ou) (co_report od)) w1) as (l & L1 & L2 & L3).
  exists ([Relayed ou od] ++ l). rewrite L1, L3. subst w1. cbn [wd_log wd_permit]. rewrite <- app_assoc. split; [done|]. split; [|done].
  apply Forall_app. split; [|done]. constructor; [|constructor]. apply Hr.
  destruct Hu as (sent & cut & rest & U1 & U2 & _). subst a. rewrite source_bytes_of in U1. rewrite U1, U2.
  exists rest. cbn [app]. by rewrite <- app_assoc.
Qed.

(** With a permit held: [m] keeps it, adding actions that satisfy [P], or drops
    it once, adding actions that satisfy [P] before and [P'] after. *)
Definition kept_or_released (P P' : action -> Prop) (p : ConnectionPermit) (w w' : World) : Prop :=
  (exists l, wd_permit w' = Some p /\ wd_log w' = wd_log w ++ l /\ Forall P l) \/
  (exists l l', wd_permit w' = None /\ wd_log w' = wd_log w ++ l ++ [Released (cp_username p)] ++ l' /\ Forall P l /\ Forall P' l').
Definition holding {A} (P P' : action -> Prop) (p : ConnectionPermit) (m : handler A) : Prop :=
  forall w, wd_permit w = Some p -> kept_or_released P P' p w (snd (m w)).

Lemma holding_does {A} P P' p (Q : A -> Prop) m : does P Q m -> holding P P' p m.
Proof. intros Hm w Hp. destruct (Hm w) as (l & E & Hl & Hpp & _). left. exists l. split_and!; [congruence|done|done]. Qed.
Lemma holding_bind {A B} P P' p (Q : A -> Prop) (m : handler A) (k : A -> handler B) :
  does P Q m -> (forall a, Q a -> holding P P' p (k a)) -> holding P P' p (m ≫= k).
Proof.
  intros Hm Hk w Hp. destruct (Hm w) as (l & E & Hl & Hpp & Ha). unfold mbind, handler_bind.
  destruct (m w) as [[a|e] w1]; cbn [fst snd] in *; [|left; exists l; split_and!; [congruence|done|done]].
  destruct (Hk a (Ha a eq_refl) w1) as [(l2 & Hp2 & E2 & Hl2)|(l2 & l3 & Hp2 & E2 & Hl2 & Hl3)]; [congruence|left|right].
  - exists (l ++ l2). rewrite E2, E, app_assoc. split_and!; [done|done|by apply Forall_app].
  - exists (l ++ l2), l3. rewrite E2, E, <- !app_assoc. split_and!; [done|done|by apply Forall_app|done].
Qed.
Lemma holding_seq {A B} P P' p (m : handler A) (k : A -> handler B) :
  does P (fun _ => True) m -> (forall a, holding P P' p (k a)) -> holding P P' p (m ≫= k).
Proof. intros Hm Hk. eapply holding_bind; [exact Hm|auto]. Qed.
Lemma holding_release {A} P P' p (k : unit -> handler A) :
  (forall a, does P' (fun _ => True) (k a)) -> holding P P' p (release ≫= k).
Proof.
  intros Hk w Hp. unfold mbind, handler_bind, release. rewrite Hp. right.
  destruct (Hk tt (mkWorld (wd_conn w) None (wd_log w ++ [Released (cp_username p)]))) as (l & E & Hl & Hpp & _).
  exists [], l. cbn in *. rewrite Hpp, E, <- app_assoc. split_and!; try done.
Qed.
Lemma holding_with_egress P P' p label m :
  P (EgressOpen label) -> P (EgressClose label) -> P' (EgressClose label) -> holding P P' p m -> holding P P' p (with_egress label m).
Proof.
  intros Ho Hc Hc' Hm w Hp. unfold with_egress, act.
  specialize (Hm (mkWorld (wd_conn w) (wd_permit w) (wd_log w ++ [EgressOpen label])) Hp).
  destruct (m _) as [r w1]. destruct Hm as [(l & Hp1 & E & Hl)|(l & l' & Hp1 & E & Hl & Hl')]; [left|right]; cbn in *.
  - exists ([EgressOpen label] ++ l ++ [EgressClose label]). rewrite E, <- !app_assoc. split_and!; try done.
    rewrite !Forall_app. repeat split; try done; by constructor.
  - exists ([EgressOpen label] ++ l), (l' ++ [EgressClose label]). rewrite E, <- !app_assoc. split_and!; try done.
    + apply Forall_app. split; [by constructor|done].
    + apply Forall_app. split; [done|by constructor].
Qed.

(** The end of the scope: every permit taken inside has been given back. *)
Lemma scope_released m w :
  wd_permit (snd (scope m w)) = None /\
  exists l, wd_log (snd (scope m w)) = wd_log (snd (m w)) ++ l ++ [ListenerClose] /\
    l = match wd_permit (snd (m w)) with Some p => [Released (cp_username p)] | None => [] end.
Proof.
  unfold scope, release, act. destruct (m w) as [r w1]. cbn [snd]. destruct (wd_permit w1) as [p|] eqn:E; cbn.
  - split; [done|]. eexists. split; [|done]. by rewrite <- app_assoc.
  - split; [by rewrite E|]. by exists [].
Qed.

(** ** Reasoning: what a handler says to a client that sends [input] *)

(** As [exchanges], for a handler: it also adds [log] to the log. *)
Definition converses {A} (m : handler A) (input : list Z) (r : result stop A) (out rest : list Z) (log : list action) : Prop :=
  forall w, sound (wd_conn w) -> Reader.bytes (cn_in (wd_conn w)) = input ->
    exists w', m w = (r, w') /\ sound (wd_conn w') /\ Reader.bytes (cn_in (wd_conn w')) = rest /\
      cn_sent (wd_conn w') = cn_sent (wd_conn w) ++ out /\ wd_log w' = wd_log w ++ log /\ wd_permit w' = wd_permit w.

Lemma converses_conn {A} (m : conn_m IoError A) input a out rest :
  exchanges m input (Ok a) out rest -> converses (on_conn m) input (Ok a) out rest [].
Proof.
  intros Hm w Hs Hb. destruct (Hm (wd_conn w) Hs Hb) as (c' & E & Hs' & Hb' & Hw). unfold on_conn. rewrite E.
  eexists. split; [reflexivity|]. cbn. rewrite app_nil_r. by split_and!.
Qed.
Lemma converses_ret {A} (a : A) input : converses (mret (M := handler) a) input (Ok a) [] input [].
Proof. intros w Hs Hb. exists w. rewrite !app_nil_r. by split_and!. Qed.
Lemma converses_act a input : converses (act a) input (Ok tt) [] input [a].
Proof. intros w Hs Hb. eexists. split; [reflexivity|]. cbn. rewrite app_nil_r. by split_and!. Qed.
Lemma converses_bind {A B} (m : handler A) (k : A -> handler B) input a out1 mid l1 r out2 rest l2 :
  converses m input (Ok a) out1 mid l1 -> converses (k a) mid r out2 rest l2 ->
  converses (m ≫= k) input r (out1 ++ out2) rest (l1 ++ l2).
Proof.
  intros Hm Hk w Hs Hb. destruct (Hm w Hs Hb) as (w1 & E1 & Hs1 & Hb1 & Hw1 & Hl1 & Hp1).
  destruct (Hk w1 Hs1 Hb1) as (w2 & E2 & Hs2 & Hb2 & Hw2 & Hl2 & Hp2). exists w2. unfold mbind, handler_bind. rewrite E1.
  split; [done|]. split; [done|]. split; [done|]. rewrite Hw2, Hw1, Hl2, Hl1, !app_assoc. split_and!; [done|done|congruence].
Qed.
Lemma converses_recv a rest : converses (recv (length a)) (a ++ rest) (Ok a) [] rest [].
Proof. by apply converses_conn, exchanges_read. Qed.
Lemma converses_recv_u8 b rest : converses recv_u8 (b :: rest) (Ok b) [] rest [].
Proof. apply converses_conn, exchanges_read_u8. Qed.
Lemma converses_send bytes input : converses (send bytes) input (Ok tt) bytes input [].
Proof. apply converses_conn, exchanges_write. Qed.
