(* ===== verification/ReverseHop.v ===== *)
(** * ReverseHop: the reverse hop (src/src/reverse/hop.rs)

    A hop dials an edge, registers, and serves the streams the edge opens: a
    TCP tunnel or a UDP association each. A stream's task is a function of what
    the edge sends on it and of the hop's network; it returns what it did. The
    tasks of one connection share two semaphores, [serve_step]. *)

From Stdlib Require Import ZArith Lia String.
From stdpp Require Import prelude strings list gmap.
From S2P Require Import Sniff.
From S2P Require Import Prelude RustStr Net NetProps RustFmt Util Frame ReverseFrame Stream Conn Domain Policy Model Engine Outbound Io Handler.

Definition UNAUTHORIZED : str := lit "unauthorized".
Definition DUPLICATE_HOP_ID : str := lit "duplicate_hop_id".
Definition BAD_REQUEST : str := lit "bad_request".
Definition CONNECT_FAILED : str := lit "connect_failed".
Definition AT_CAPACITY : str := lit "at_capacity".
Definition UDP_AT_CAPACITY : str := lit "udp_at_capacity".

(** [ReverseEdgeConfig] *)
Record ReverseEdgeConfig := mkEdgeConfig {
  ec_edge_addr : str; ec_server_name : str; ec_hop_id : str; ec_token : str; ec_edge_id : option str;
  ec_skip_cert_verify : bool; ec_max_streams : Z; ec_initial_mtu : option Z
}.
(** [effective_server_name] *)
Definition effective_server_name (c : ReverseEdgeConfig) : str :=
  let trimmed := trim (ec_server_name c) in
  if is_empty trimmed then host_of (ec_edge_addr c) else trimmed.
(** The edge's host and port *)
Definition edge_target (addr : str) : option (str * Z) :=
  '(h, p) ← rsplit_once colon addr;
  p ← from_str_radix 10 16 p;
  Some (h, p).

(** ** What a stream's task does *)

Inductive hop_action :=
| HDialled (host : str) (port : Z)
| HEgressOpen | HEgressClose
| HRelayed (up down : Copied)
| HRecordEgress (up down : Z)
| HRecorded (c : TraceCandidate) (up down : Z)
| HAssociate (sid : Z) | HRemove (sid : Z).

(** The stream, and the actions so far. *)
Definition hop (A : Type) : Type := Conn -> A * (Conn * list hop_action).
#[global] Instance hop_ret : MRet hop := fun A a c => (a, (c, [])).
#[global] Instance hop_bind : MBind hop := fun A B k m c =>
  let '(a, (c, l)) := m c in
  let '(b, (c, l')) := k a c in
  (b, (c, l ++ l')).
Definition did (a : hop_action) : hop unit := fun c => (tt, (c, [a])).
(** [frame::read_frame]; it always ends ([rev_read_frame_total]). *)
Definition read_lines : hop (result IoError (list str)) := fun c =>
  match read_frame (cn_in c) with
  | Some (r, rd) => (r, (mkConn rd (cn_sent c) (cn_writes c), []))
  | None => (Err ReadError, (c, []))
  end.
(** [frame::write_frame] of a reply *)
Definition write_reply (r : Reply) : hop (result IoError unit) := fun c =>
  let '(x, c) := cwrite id (reply_encode r) c in (x, (c, [])).

(** [TunnelCtx]; [tx_logged] is whether an access log is set. *)
Record TunnelCtx := mkTunnelCtx { tx_edge_addr : str; tx_edge_id : option str; tx_hop_id : str; tx_remote : SocketAddr; tx_logged : bool }.

(** [record] *)
Definition hop_candidate (ctx : TunnelCtx) (target : option (str * Z)) (r : TraceResult) (stage message : option str) (duration : Z) : TraceCandidate :=
  mkCandidate (lit "reverse:" ++ default (tx_edge_addr ctx) (tx_edge_id ctx)) (lit "reverse") (Some (display_socket (tx_remote ctx)))
    None (fst <$> target) (snd <$> target) None None (Some (lit "reverse:" ++ tx_hop_id ctx)) None None None r stage message 0 duration.
Definition record (ctx : TunnelCtx) (target : option (str * Z)) (r : TraceResult) (stage message : option str) (up down duration : Z) : hop unit :=
  if tx_logged ctx then did (HRecorded (hop_candidate ctx target r stage message duration) up down) else mret tt.
(** A refused stream: the reply, and the error record. *)
Definition refuse (ctx : TunnelCtx) (code : str) (target : option (str * Z)) (stage message : str) (duration : Z) : hop unit :=
  write_reply (ReplyErr code) ;; record ctx target TraceError (Some stage) (Some message) 0 0 duration.

(** [splice] of the stream and the target, unthrottled; it always ends
    ([copy_throttled_total]). *)
Definition hop_splice (target : Conn) : hop (result ErrorKind SpliceStats) := fun c =>
  match splice (source_of (cn_in c)) (sink_of (cn_writes c)) (source_of (cn_in target)) (sink_of (cn_writes target)) 0 0 with
  | Some (r, up, down) => (r, (mkConn [] (cn_sent c ++ co_delivered down) [], [HRelayed up down]))
  | None => (Err OtherKind, (c, []))
  end.
(** [serve_tcp_tunnel] *)
Definition serve_tcp_tunnel (ctx : TunnelCtx) (e : Env) (lines : list str) (duration : Z) : hop unit :=
  match tunnel_parse lines with
  | Err _ => refuse ctx BAD_REQUEST None (lit "reverse_open") (lit "malformed connect frame") duration
  | Ok request =>
      let target := Some (host request, port request) in
      did (HDialled (host request) (port request)) ;;
      match tcp_connect_detailed e (host request) (port request) with
      | Err _ => refuse ctx CONNECT_FAILED target (lit "hop_connect") (lit "target connect failed") duration
      | Ok _ =>
          ok ← write_reply ReplyOk;
          match ok with
          | Err _ => record ctx target TraceError (Some (lit "stream_io")) (Some (lit "ok write failed")) 0 0 duration
          | Ok _ =>
              did HEgressOpen ;;
              r ← hop_splice (en_peer e);
              (match r with
               | Ok s =>
                   did (HRecordEgress (ss_bytes_up s) (ss_bytes_down s)) ;;
                   record ctx target TraceOk None None (ss_bytes_up s) (ss_bytes_down s) duration
               | Err _ =>
                   did (HRecordEgress 0 0) ;;
                   record ctx target TraceError (Some (lit "stream_io")) (Some (lit "tunnel io failed")) 0 0 duration
               end) ;;
              did HEgressClose
          end
      end
  end.

(** The bytes a stream's reads can deliver *)
Definition stream_size (r : Reader.t) : nat :=
  sum_list_with (fun c : result unit (list Z) => match c with Ok c => length c | Err _ => 0%nat end) r.
(** The control stream is held until a matching DISSOCIATE or its end; each
    frame takes a byte at least, so that much fuel is enough
    ([hold_control_ends]). *)
Fixpoint hold_control (fuel : nat) (sid : Z) (r : Reader.t) : option Reader.t :=
  match fuel with
  | O => None
  | S fuel =>
      match read_frame r with
      | Some (Ok lines, r) =>
          if match dissociate_parse lines with Ok d => dissociate_session d =? sid | Err _ => false end then Some r
          else hold_control fuel sid r
      | Some (Err _, r) => Some r
      | None => None
      end
  end.
(** [serve_udp_associate]; [granted] is what the table's [associate] returned. *)
Definition serve_udp_associate (granted : bool) (lines : list str) : hop unit :=
  match associate_parse lines with
  | Err _ => write_reply (ReplyErr BAD_REQUEST) ;; mret tt
  | Ok req =>
      did (HAssociate (session_id req)) ;;
      if negb granted then write_reply (ReplyErr UDP_AT_CAPACITY) ;; mret tt
      else
        ok ← write_reply ReplyOk;
        match ok with
        | Err _ => did (HRemove (session_id req))
        | Ok _ =>
            (fun c => match hold_control (S (stream_size (cn_in c))) (session_id req) (cn_in c) with
                      | Some rd => (tt, (mkConn rd (cn_sent c) (cn_writes c), []))
                      | None => (tt, (c, []))
                      end) ;;
            did (HRemove (session_id req))
        end
  end.
(** [serve_stream] *)
Definition serve_stream (ctx : TunnelCtx) (e : Env) (granted : bool) (duration : Z) : hop unit :=
  frame ← read_lines;
  match frame with
  | Err _ => refuse ctx BAD_REQUEST None (lit "reverse_open") (lit "unreadable frame") duration
  | Ok lines =>
      let verb := default [] (l ← head lines; head (split_whitespace l)) in
      if str_eqb verb (lit "CONNECT") then serve_tcp_tunnel ctx e lines duration
      else if str_eqb verb (lit "ASSOCIATE") then serve_udp_associate granted lines
      else refuse ctx BAD_REQUEST None (lit "reverse_open") (lit "unknown verb") duration
  end.

(** ** Capacity *)

(** The permits left: of this edge's semaphore, and of the global one if there
    is one; [sv_tasks] are the streams being served. *)
Record Serving := mkServing { sv_edge : Z; sv_global : option Z; sv_tasks : list Z }.
(** [edge_session_loop] and [spawn] *)
Definition Serving_new (c : ReverseEdgeConfig) (global_max_streams : Z) : Serving :=
  mkServing (Z.max (ec_max_streams c) 1) (if global_max_streams =? 0 then None else Some global_max_streams) [].
(** A stream of this edge is accepted or ends, or the other edges' tasks take or
    give back a global permit. *)
Inductive ServeEvent := StreamAccepted (task : Z) | StreamEnded (task : Z) | GlobalTaken | GlobalGiven.
Definition serve_step (s : Serving) (ev : ServeEvent) : option (Serving * list Reply) :=
  match ev with
  | StreamAccepted task =>
      if bool_decide (task ∈ sv_tasks s) then None
      else if (0 <? sv_edge s) && match sv_global s with Some g => 0 <? g | None => true end
      then Some (mkServing (sv_edge s - 1) ((fun g => g - 1) <$> sv_global s) (task :: sv_tasks s), [])
      else Some (s, [ReplyErr AT_CAPACITY])
  | StreamEnded task =>
      if bool_decide (task ∈ sv_tasks s)
      then Some (mkServing (sv_edge s + 1) ((fun g => g + 1) <$> sv_global s) (filter (fun t => t <> task) (sv_tasks s)), [])
      else None
  | GlobalTaken =>
      match sv_global s with
      | Some g => if 0 <? g then Some (mkServing (sv_edge s) (Some (g - 1)) (sv_tasks s), []) else None
      | None => None
      end
  | GlobalGiven => match sv_global s with Some g => Some (mkServing (sv_edge s) (Some (g + 1)) (sv_tasks s), []) | None => None end
  end.

(** ** The session loop *)

Definition MIN_BACKOFF : Z := 1000.
Definition MAX_BACKOFF : Z := 30000.
(** The back-off slept after a session that lasted [elapsed], and the next one. *)
Definition session_backoff (elapsed backoff : Z) : Z * Z :=
  let backoff := if 30000 <=? elapsed then MIN_BACKOFF else backoff in
  (backoff, Z.min (backoff * 2) MAX_BACKOFF).
(** The registration part of [connect_and_serve]: [resolved] and [reached] are
    the resolver's answer and the QUIC handshake; what is written, and whether
    the hop goes on to serve. *)
Inductive SessionError := BadEdgeAddr | EdgeUnresolved | EdgeUnreached | RegisterIo | Refused (code : str) | MalformedReply.
Definition register_hop (c : ReverseEdgeConfig) (resolve : str -> Z -> option SocketAddr) (reach : SocketAddr -> str -> bool) : conn_m SessionError SocketAddr :=
  fun conn =>
  match edge_target (ec_edge_addr c) with
  | None => (Err BadEdgeAddr, conn)
  | Some (h, p) =>
      match resolve h p with
      | None => (Err EdgeUnresolved, conn)
      | Some remote =>
          if negb (reach remote (effective_server_name c)) then (Err EdgeUnreached, conn)
          else
          match cwrite id (register_encode (mkRegister (ec_hop_id c) (ec_token c) (ec_edge_id c) [lit "udp"])) conn with
          | (Err _, conn) => (Err RegisterIo, conn)
          | (Ok _, conn) =>
              match read_frame (cn_in conn) with
              | Some (Ok lines, rd) =>
                  (match reply_parse lines with
                   | Ok ReplyOk => Ok remote
                   | Ok (ReplyErr code) => Err (Refused code)
                   | Err _ => Err MalformedReply
                   end, mkConn rd (cn_sent conn) (cn_writes conn))
              | Some (Err _, rd) => (Err RegisterIo, mkConn rd (cn_sent conn) (cn_writes conn))
              | None => (Err RegisterIo, conn)
              end
          end
      end
  end.

(** * What a reverse hop guarantees

    A tunnel, end to end between the edge's request and the hop's target; the
    ends of an association's control stream; capacity; and the session loop. *)

(** ** The control stream *)

Lemma read_size n r c r' : (0 < n)%nat -> Reader.read n r = (Ok c, r') -> c <> [] -> (stream_size r' < stream_size r)%nat.
Proof.
  intros Hn H Hc. unfold stream_size. destruct r as [|[b|e] r]; [by injection H as <- _| |done]. cbn in H.
  destruct (Nat.leb_spec (length b) n); injection H as <- <-; cbn [sum_list_with].
  - destruct b; [done|]. cbn. lia.
  - rewrite length_drop. lia.
Qed.
Lemma frame_loop_size stop cap fuel r buf b r' :
  frame_loop stop cap fuel r buf = Some (Ok b, r') -> (stream_size r' < stream_size r)%nat.
Proof.
  revert r buf; induction fuel as [|fuel IH]; intros r buf H; [done|]. cbn [frame_loop] in H. unfold read_u8 in H.
  destruct (Reader.read 1 r) as [[[|x c]|e] r1] eqn:Er; try done. pose proof (read_size 1 r _ _ ltac:(lia) Er ltac:(done)) as Hs.
  assert (Hgo : forall y, (if (cap <? length (buf ++ [y]))%nat then Some (Err InvalidData, r1)
     else if stop (buf ++ [y]) then Some (Ok (buf ++ [y]), r1) else frame_loop stop cap fuel r1 (buf ++ [y])) = Some (Ok b, r') ->
     (stream_size r' < stream_size r)%nat).
  { intros y Hy. destruct (_ <? _)%nat; [done|]. destruct (stop _); [by injection Hy as _ <-|]. apply IH in Hy. lia. }
  destruct c; [exact (Hgo x H)|done].
Qed.
(** Holding the control stream always ends. *)
Lemma hold_control_ends fuel sid r : (stream_size r < fuel)%nat -> is_Some (hold_control fuel sid r).
Proof.
  revert r; induction fuel as [|fuel IH]; intros r Hf; [lia|]. cbn [hold_control]. destruct (rev_read_frame_total r) as [[[lines|e] r'] Er].
  - rewrite Er. case_match; [eauto|]. apply IH. unfold read_frame in Er.
    destruct (frame_loop _ _ _ _ _) as [[[b|e] r1]|] eqn:El; [|done|done]. injection Er as _ <-. apply frame_loop_size in El. lia.
  - rewrite Er. eauto.
Qed.

(** ** A tunnel, end to end *)

Section Tunnel.
Context (ctx : TunnelCtx) (e : Env) (duration : Z).

Definition log_line (target : option (str * Z)) (r : TraceResult) (stage message : option str) (up down : Z) : list hop_action :=
  if tx_logged ctx then [HRecorded (hop_candidate ctx target r stage message duration) up down] else [].
Lemma record_did target r stage message up down c :
  record ctx target r stage message up down duration c = (tt, (c, log_line target r stage message up down)).
Proof. unfold record, log_line. by destruct (tx_logged ctx). Qed.
Lemma cwrite_sound bytes c : sound c -> exists c', cwrite (@id IoError) bytes c = (Ok tt, c') /\ sound c' /\ cn_in c' = cn_in c /\ cn_sent c' = cn_sent c ++ bytes.
Proof.
  intros [Hn Hw]. unfold cwrite. destruct (cn_writes c) as [|b w]; [eexists; by split_and!|]. inversion Hw as [|? ? -> ?]; subst. eexists; by split_and!.
Qed.

(** The reply is read on the edge, the target's bytes after it. *)
Definition edge_reads (sent : list Z) (reply : Reply) (rest : list Z) : Prop :=
  forall r, Reader.no_error r = true -> Reader.bytes r = sent ->
    exists lines r', read_frame r = Some (Ok lines, r') /\ reply_parse lines = Ok reply /\ Reader.bytes r' = rest.
Lemma edge_reads_reply reply rest :
  message_ok (MReply reply) -> (length (reply_encode reply) <= MAX_FRAME_BYTES)%nat -> edge_reads (reply_encode reply ++ rest) reply rest.
Proof.
  intros Hm Hl r Hr Hb. destruct (message_reads (MReply reply) rest r Hm Hl Hr Hb) as (lines & r' & E & Hd & _ & Hb').
  exists lines, r'. split_and!; done.
Qed.

(** The bytes an edge writes on a stream it opened for a tunnel: its request,
    then the client's bytes. *)
Definition edge_stream (request : TunnelRequest) (payload : list Z) (c : Conn) : Prop :=
  message_ok (MTunnel request) /\ (length (tunnel_encode request) <= MAX_FRAME_BYTES)%nat /\
  sound c /\ Reader.bytes (cn_in c) = tunnel_encode request ++ payload.
Lemma split_whitespace_head a t :
  a <> [] -> no_ws a = true -> head (split_whitespace (a ++ 32 :: t)) = Some a.
Proof.
  intros Ha Na. unfold split_whitespace. rewrite length_app. cbn [length]. rewrite split_ws_word by (done || lia). by destruct a.
Qed.
Lemma connect_verb lines request : tunnel_parse lines = Ok request -> (l ← head lines; head (split_whitespace l)) = Some (lit "CONNECT").
Proof.
  unfold tunnel_parse. intros H. apply bind_Ok in H as (first & Hf & H). apply ok_or_Ok in Hf. rewrite Hf. cbn [mbind option_bind].
  apply bind_Ok in H as (rest & Hr & _). apply ok_or_Ok in Hr. apply strip_prefix_Some in Hr as ->. by apply (split_whitespace_head (lit "CONNECT") rest).
Qed.
Lemma serve_stream_tunnel request payload c granted :
  edge_stream request payload c ->
  exists lines rd, tunnel_parse lines = Ok request /\ Reader.no_error rd = true /\ Reader.bytes rd = payload /\
    serve_stream ctx e granted duration c = serve_tcp_tunnel ctx e lines duration (mkConn rd (cn_sent c) (cn_writes c)).
Proof.
  intros (Hm & Hl & [Hn Hw] & Hb). destruct (message_reads (MTunnel request) payload (cn_in c) Hm Hl Hn Hb) as (lines & rd & E & Hd & Hn' & Hb').
  exists lines, rd. split_and!; try done. unfold serve_stream, mbind at 1, hop_bind, read_lines. rewrite E.
  pose proof (connect_verb lines request Hd) as Hv. rewrite Hv.
  assert (str_eqb (default [] (Some (lit "CONNECT"))) (lit "CONNECT") = true) as -> by (vm_compute; reflexivity).
  by destruct (serve_tcp_tunnel _ _ _ _ _) as [[] [c' l]].
Qed.

(** C16: a reverse tunnel works end to end. Whatever the fragmentation, the hop
    reads on a stream of the edge exactly the target the edge asked for and
    dials that target and no other. When the dial succeeds and the connections
    hold, the target receives exactly the client's bytes after the request and
    the edge reads the acknowledgement and then exactly the target's bytes, with
    the byte counts recorded; when it fails, the edge reads the refusal, and
    nothing is relayed. *)
Theorem reverse_tunnel_end_to_end request payload c granted :
  edge_stream request payload c ->
  match tcp_connect_detailed e (host request) (port request) with
  | Ok _ =>
      sound (en_peer e) ->
      let answer := Reader.bytes (cn_in (en_peer e)) in
      let up := wrap 64 (Z.of_nat (length payload)) in
      let down := wrap 64 (Z.of_nat (length answer)) in
      exists c' u d, serve_stream ctx e granted duration c =
        (tt, (c', [HDialled (host request) (port request); HEgressOpen; HRelayed u d; HRecordEgress up down] ++
                  log_line (Some (host request, port request)) TraceOk None None up down ++ [HEgressClose])) /\
        co_delivered u = payload /\ cn_sent c' = cn_sent c ++ reply_encode ReplyOk ++ answer /\
        edge_reads (reply_encode ReplyOk ++ answer) ReplyOk answer
  | Err _ =>
      exists c', serve_stream ctx e granted duration c =
        (tt, (c', HDialled (host request) (port request) ::
                  log_line (Some (host request, port request)) TraceError (Some (lit "hop_connect")) (Some (lit "target connect failed")) 0 0)) /\
        cn_sent c' = cn_sent c ++ reply_encode (ReplyErr CONNECT_FAILED) /\
        edge_reads (reply_encode (ReplyErr CONNECT_FAILED)) (ReplyErr CONNECT_FAILED) []
  end.
Proof.
  intros He. destruct (serve_stream_tunnel request payload c granted He) as (lines & rd & Hp & Hn & Hb & ->).
  destruct He as (_ & _ & [_ Hw] & _). set (c0 := mkConn rd (cn_sent c) (cn_writes c)). assert (Hs : sound c0) by done.
  unfold serve_tcp_tunnel. rewrite Hp. cbv zeta. destruct (tcp_connect_detailed _ _ _) as [addr|err].
  - intros Hpeer. destruct (cwrite_sound (reply_encode ReplyOk) c0 Hs) as (c1 & E1 & [_ Hs1] & I1 & S1).
    destruct Hpeer as [Pn Pw].
    destruct (splice_total (source_of (cn_in c1)) (sink_of (cn_writes c1)) (source_of (cn_in (en_peer e))) (sink_of (cn_writes (en_peer e))) 0 0)
      as (r & u & d & Es & _ & _ & Hall & _).
    destruct Hall as (Hu & Hd & _ & _ & Hr); [by apply sink_of_sound|by apply sink_of_sound|rewrite I1; by apply source_end_of|by apply source_end_of|].
    rewrite I1 in Hu, Hr. rewrite source_bytes_of in Hu, Hd. rewrite !source_bytes_of in Hr. change (Reader.bytes (cn_in c0)) with (Reader.bytes rd) in Hu, Hr.
    rewrite Hb in Hu, Hr. unfold mbind, hop_bind, did, write_reply, hop_splice. rewrite E1. cbn [mret]. rewrite Es, Hr. cbn [ss_bytes_up ss_bytes_down].
    rewrite record_did. do 3 eexists. split; [rewrite <- app_assoc; reflexivity|]. split; [done|]. cbn [cn_sent]. rewrite S1, Hd, <- app_assoc.
    split; [done|]. apply edge_reads_reply; [done|apply Nat.leb_le; vm_compute; reflexivity].
  - destruct (cwrite_sound (reply_encode (ReplyErr CONNECT_FAILED)) c0 Hs) as (c1 & E1 & _ & _ & S1).
    unfold refuse, mbind, hop_bind, did, write_reply. rewrite E1, record_did. eexists. split; [reflexivity|]. split; [exact S1|].
    rewrite <- (app_nil_r (reply_encode _)) at 1. apply edge_reads_reply; [|apply Nat.leb_le; vm_compute; reflexivity].
    apply (bool_decide_unpack _). vm_compute. exact I.
Qed.
End Tunnel.

(** ** Capacity and back-off *)

Fixpoint serve_run (s : Serving) (evs : list ServeEvent) : option Serving :=
  match evs with
  | [] => Some s
  | ev :: evs => '(s, _) ← serve_step s ev; serve_run s evs
  end.
Record serving_inv (max : Z) (s : Serving) : Prop := {
  si_permits : sv_edge s + Z.of_nat (length (sv_tasks s)) = max;
  si_edge : 0 <= sv_edge s;
  si_global : forall g, sv_global s = Some g -> 0 <= g;
  si_tasks : NoDup (sv_tasks s);
}.
Lemma filter_out_absent (l : list Z) t : t ∉ l -> filter (fun x => x <> t) l = l.
Proof.
  induction l as [|x l IH]; [done|]. rewrite not_elem_of_cons, filter_cons. intros [Hx Hl]. rewrite decide_True by congruence. by rewrite IH.
Qed.
Lemma filter_out_length (l : list Z) t : NoDup l -> t ∈ l -> S (length (filter (fun x => x <> t) l)) = length l.
Proof.
  induction 1 as [|x l Hx Hl IH]; [by intros ?%elem_of_nil|]. rewrite elem_of_cons, filter_cons. intros [->|Hin].
  - rewrite decide_False by auto. cbn. by rewrite filter_out_absent.
  - rewrite decide_True by (by intros ->). cbn. by rewrite IH.
Qed.
Lemma serve_step_inv max s ev s' out : serving_inv max s -> serve_step s ev = Some (s', out) -> serving_inv max s'.
Proof.
  intros [Hp He Hg Ht] H. destruct ev as [t|t| |]; cbn in H.
  - destruct (bool_decide_reflect (t ∈ sv_tasks s)) as [|Hn]; [done|]. destruct ((0 <? sv_edge s) && _) eqn:Eb; injection H as <- _; [|done].
    apply andb_true_iff in Eb as [E1 E2]. bools. split; cbn; [lia|lia| |by apply NoDup_cons].
    intros g. destruct (sv_global s); [|done]. intros [= <-]. bools. lia.
  - destruct (bool_decide_reflect (t ∈ sv_tasks s)) as [Hin|]; [|done]. injection H as <- _. pose proof (filter_out_length _ _ Ht Hin).
    split; cbn; [lia|lia| |by apply NoDup_filter]. intros g. destruct (sv_global s) as [g0|] eqn:E; [|done]. intros [= <-]. specialize (Hg g0 eq_refl). lia.
  - destruct (sv_global s) as [g|] eqn:E; [|done]. destruct (0 <? g) eqn:Eg; [|done]. injection H as <- _. split; cbn; try done. intros ? [= <-]. bools. lia.
  - destruct (sv_global s) as [g|] eqn:E; [|done]. injection H as <- _. split; cbn; try done. intros ? [= <-]. specialize (Hg g eq_refl). lia.
Qed.
(** The streams served at once never exceed the edge's ceiling. *)
Lemma serve_capacity c global evs s :
  0 <= global -> serve_run (Serving_new c global) evs = Some s -> Z.of_nat (length (sv_tasks s)) <= Z.max (ec_max_streams c) 1.
Proof.
  intros Hg H. enough (serving_inv (Z.max (ec_max_streams c) 1) s) as [? ? _ _] by lia.
  assert (Hs : serving_inv (Z.max (ec_max_streams c) 1) (Serving_new c global)).
  { split; cbn; [lia|lia| |constructor]. intros g. destruct (global =? 0); [done|]. by intros [= <-]. }
  revert H Hs. generalize (Serving_new c global). induction evs as [|ev evs IH]; intros s0 H Hs; [by injection H as <-|].
  cbn in H. destruct (serve_step s0 ev) as [[s1 o]|] eqn:E; [|done]. cbn in H. eapply IH; [exact H|by eapply serve_step_inv].
Qed.
(** Back-off stays between one and thirty seconds, doubles on short sessions and
    starts over after a long one. *)
Lemma session_backoff_bounds elapsed backoff :
  MIN_BACKOFF <= backoff <= MAX_BACKOFF ->
  let '(slept, next) := session_backoff elapsed backoff in
  MIN_BACKOFF <= slept <= MAX_BACKOFF /\ MIN_BACKOFF <= next <= MAX_BACKOFF /\ slept <= next /\
  (30000 <= elapsed -> slept = MIN_BACKOFF) /\ (elapsed < 30000 -> slept = backoff /\ next = Z.min (2 * backoff) MAX_BACKOFF).
Proof.
  unfold session_backoff, MIN_BACKOFF, MAX_BACKOFF. intros H. destruct (Z.leb_spec 30000 elapsed); lia.
Qed.

(** ** Registration *)

(** What the hop writes, the edge reads back as its registration, offering UDP;
    the hop goes on to serve exactly when the edge answers OK. *)
Lemma register_hop_spec c resolve reach h p remote conn :
  edge_target (ec_edge_addr c) = Some (h, p) -> resolve h p = Some remote -> reach remote (effective_server_name c) = true ->
  let request := mkRegister (ec_hop_id c) (ec_token c) (ec_edge_id c) [lit "udp"] in
  message_ok (MRegister request) -> (length (register_encode request) <= MAX_FRAME_BYTES)%nat -> sound conn ->
  exists r conn', register_hop c resolve reach conn = (r, conn') /\ cn_sent conn' = cn_sent conn ++ register_encode request /\
    (forall rd, Reader.no_error rd = true -> Reader.bytes rd = register_encode request ->
       exists lines rd', read_frame rd = Some (Ok lines, rd') /\ register_parse lines = Ok request /\ supports_udp request = true) /\
    (forall reply rest, message_ok (MReply reply) -> (length (reply_encode reply) <= MAX_FRAME_BYTES)%nat ->
       Reader.bytes (cn_in conn) = reply_encode reply ++ rest ->
       r = match reply with ReplyOk => Ok remote | ReplyErr code => Err (Refused code) end).
Proof.
  intros Ht Hr Hreach request Hm Hl Hs. unfold register_hop. rewrite Ht, Hr, Hreach. cbn [negb]. fold request.
  destruct (cwrite_sound (register_encode request) conn Hs) as (c1 & E1 & [Hn1 Hw1] & I1 & S1). rewrite E1.
  assert (Hread : forall rd, Reader.no_error rd = true -> Reader.bytes rd = register_encode request ->
       exists lines rd', read_frame rd = Some (Ok lines, rd') /\ register_parse lines = Ok request /\ supports_udp request = true).
  { intros rd Hn Hb. rewrite <- (app_nil_r (register_encode request)) in Hb.
    destruct (message_reads (MRegister request) [] rd Hm Hl Hn Hb) as (lines & rd' & E & Hd & _). exists lines, rd'. done. }
  destruct (rev_read_frame_total (cn_in c1)) as [[x rd] Ex]. rewrite Ex.
  assert (Hans : forall reply rest, message_ok (MReply reply) -> (length (reply_encode reply) <= MAX_FRAME_BYTES)%nat ->
       Reader.bytes (cn_in conn) = reply_encode reply ++ rest -> exists lines, x = Ok lines /\ reply_parse lines = Ok reply).
  { intros reply rest Hm' Hl' Hb. destruct (message_reads (MReply reply) rest (cn_in c1) Hm' Hl' Hn1) as (lines & rd' & E & Hd & _); [by rewrite I1|].
    rewrite Ex in E. injection E as -> _. by exists lines. }
  destruct x as [lines|err].
  - do 2 eexists. split; [reflexivity|]. split; [exact S1|]. split; [exact Hread|]. intros reply rest Hm' Hl' Hb.
    destruct (Hans reply rest Hm' Hl' Hb) as (? & [= <-] & ->). by destruct reply.
  - do 2 eexists. split; [reflexivity|]. split; [exact S1|]. split; [exact Hread|]. intros reply rest Hm' Hl' Hb.
    by destruct (Hans reply rest Hm' Hl' Hb) as (? & ? & _).
Qed.

(** ** A tunnel *)

Module TunnelDemo.
Definition ctx : TunnelCtx := mkTunnelCtx (lit "edge.example:4433") (Some (lit "e1")) (lit "hop1") (SockV4 1 4433) true.
Definition env : Env :=
  mkNetEnv None (fun _ p => Some [SockV4 16843009 p]) (fun _ => true) (fun _ => true) (fun _ _ _ => true)
    (mkConn [Ok (lit "HTTP/1.1 "); Ok (lit "200")] [] []) (fun _ _ _ => Err (ReverseUnavailable [])) (fun _ _ => None) (fun _ => Ok tt) 5.
Definition request : TunnelRequest := ReverseFrame.mkTunnel (lit "db.internal") 5432 (Some (lit "e1-7")).
Definition stream : Conn :=
  let b := tunnel_encode request ++ lit "GET /" in mkConn [Ok (take 9 b); Ok (take 30 (drop 9 b)); Ok (drop 39 b)] [] [].
Lemma edge_stream_ok : edge_stream request (lit "GET /") stream.
Proof.
  split_and!; [|apply Nat.leb_le; vm_compute; reflexivity|split; [vm_compute; reflexivity|constructor]|vm_compute; reflexivity].
  apply (bool_decide_unpack _). vm_compute. exact I.
Qed.
Example tunnel_session :
  match serve_stream ctx env true 3 stream with
  | (_, (c, l)) =>
      cn_sent c = reply_encode ReplyOk ++ lit "HTTP/1.1 200" /\
      List.filter (fun a => match a with HRecorded _ _ _ => false | _ => true end) l =
        [HDialled (lit "db.internal") 5432; HEgressOpen;
         HRelayed (mkCopied (mkReport 5 None) (lit "GET /") true) (mkCopied (mkReport 12 None) (lit "HTTP/1.1 200") true);
         HRecordEgress 5 12; HEgressClose]
  end.
Proof. vm_compute. done. Qed.
End TunnelDemo.
Lemma reverse_tunnel_end_to_end_witness :
  exists c' u d, serve_stream TunnelDemo.ctx TunnelDemo.env true 3 TunnelDemo.stream =
    (tt, (c', [HDialled (lit "db.internal") 5432; HEgressOpen; HRelayed u d; HRecordEgress 5 12] ++
              log_line TunnelDemo.ctx 3 (Some (lit "db.internal", 5432)) TraceOk None None 5 12 ++ [HEgressClose])) /\
    co_delivered u = lit "GET /" /\ cn_sent c' = [] ++ reply_encode ReplyOk ++ lit "HTTP/1.1 200" /\
    edge_reads (reply_encode ReplyOk ++ lit "HTTP/1.1 200") ReplyOk (lit "HTTP/1.1 200").
Proof.
  apply (reverse_tunnel_end_to_end TunnelDemo.ctx TunnelDemo.env 3 TunnelDemo.request (lit "GET /") TunnelDemo.stream true TunnelDemo.edge_stream_ok).
  split; [vm_compute; reflexivity|constructor].
Defined.
