(* ===== verification/HttpRequest.v ===== *)
(** * HttpRequest: requests of the HTTP forward proxy

    Models the request side of src/src/inbound/http.rs: parsing a head, the
    framing of its body, the credentials, and the head that is forwarded to the
    origin. The theorem is that the origin reads from the forwarded head exactly
    one request, with the framing the proxy uses for the body. *)

From Stdlib Require Import ZArith Lia String.
From stdpp Require Import prelude strings list.
From S2P Require Import Sniff.
From S2P Require Import Prelude RustStr Net RustFmt Util.

Record RequestError := mkRequestError { re_status : str; re_message : str }.
Record Header := mkHeader { hd_name : str; hd_value : str }.
Record ForwardTarget := mkForward { fw_origin_form : str; fw_authority : str }.
Inductive RequestTarget := Connect | Forward (t : ForwardTarget).
Inductive RequestBody := NoBody | Fixed (length : Z) | Chunked.
Record ParsedRequest := mkRequest {
  rq_method : str; rq_version : str; rq_headers : list Header; rq_proxy_authorization : option str;
  rq_host : str; rq_port : Z; rq_target : RequestTarget; rq_body : RequestBody; rq_connection_tokens : list str
}.
#[global] Instance RequestBody_dec : EqDecision RequestBody.
Proof. solve_decision. Defined.

Definition crlf : list Z := [13; 10].
(** [text.split] on CR LF *)
Fixpoint split_crlf (s : str) : list str :=
  match s with
  | [] => [[]]
  | x :: s' =>
      let more := match split_crlf s' with [] => [[x]] | w :: ws => (x :: w) :: ws end in
      match s' with
      | y :: s'' => if (x =? 13) && (y =? 10) then [] :: split_crlf s'' else more
      | [] => more
      end
  end.

Definition bad_request (message : string) : RequestError := mkRequestError (lit "400 Bad Request") (lit message).

(** ** Headers *)

Definition token_char (b : Z) : bool :=
  is_ascii_digit b || is_ascii_uppercase b || is_ascii_lowercase b || bool_decide (b ∈ lit "!#$%&'*+-.^_`|~").
(** [valid_header_name] *)
Definition valid_header_name (name : str) : bool := negb (is_empty name) && forallb token_char name.
Definition bad_value_byte (b : Z) : bool :=
  (b =? 13) || (b =? 10) || ((0 <=? b) && (b <=? 8)) || (b =? 11) || (b =? 12) || ((14 <=? b) && (b <=? 31)) || (b =? 127).

(** One header line; an empty one is skipped. *)
Definition parse_header (line : str) : result RequestError (option Header) :=
  if is_empty line then Ok None
  else if starts_with [32] line || starts_with [9] line then Err (bad_request "obsolete folded header is not supported")
  else
  '(name, value) ← ok_or (split_once colon line) (bad_request "malformed request header");
  ensure (valid_header_name name) (bad_request "malformed request header name") ;;
  let value := trim value in
  ensure (negb (existsb bad_value_byte value)) (bad_request "malformed request header value") ;;
  Ok (Some (mkHeader name value)).
Fixpoint parse_headers (lines : list str) : result RequestError (list Header) :=
  match lines with
  | [] => Ok []
  | line :: lines =>
      h ← parse_header line;
      hs ← parse_headers lines;
      Ok (option_list h ++ hs)
  end.

Definition named (name : string) (h : Header) : bool := eq_ignore_ascii_case (hd_name h) (lit name).
Definition headers_named (name : string) (hs : list Header) : list Header := List.filter (named name) hs.
(** The elements of comma-separated header values, trimmed and in lower case. *)
Definition list_tokens (hs : list Header) : list str :=
  List.filter (fun t => negb (is_empty t))
    (map (fun t => to_ascii_lowercase (trim t)) (flat_map (fun h => split 44 (hd_value h)) hs)).
Definition has_token (t : string) (tokens : list str) : bool := existsb (fun x => str_eqb x (lit t)) tokens.

(** [s.to_ascii_uppercase()] *)
Definition to_ascii_uppercase (s : str) : str := map (fun b => if is_ascii_lowercase b then b - 32 else b) s.

(** [parse_request_body] *)
Definition parse_request_body (method : str) (headers : list Header) : result RequestError RequestBody :=
  let content_lengths := map (fun h => trim (hd_value h)) (headers_named "content-length" headers) in
  let transfer_encodings := list_tokens (headers_named "transfer-encoding" headers) in
  if negb (is_empty content_lengths) && negb (is_empty transfer_encodings)
  then Err (bad_request "ambiguous request body framing")
  else if negb (is_empty transfer_encodings) then
    if negb (bool_decide (last transfer_encodings = Some (lit "chunked")))
    then Err (mkRequestError (lit "501 Not Implemented") (lit "unsupported transfer encoding"))
    else Ok Chunked
  else
  match content_lengths with
  | first :: _ =>
      ensure (negb (existsb (fun v => negb (str_eqb v first)) content_lengths)) (bad_request "conflicting content lengths") ;;
      length ← ok_or (from_str_radix 10 64 first) (bad_request "invalid content length");
      Ok (if length =? 0 then NoBody else Fixed length)
  | [] =>
      let m := to_ascii_uppercase method in
      if str_eqb m (lit "POST") || str_eqb m (lit "PUT") || str_eqb m (lit "PATCH")
      then Err (mkRequestError (lit "411 Length Required") (lit "request body length is required"))
      else Ok NoBody
  end.

(** [format_authority] *)
Definition format_authority (host : str) (port : Z) : str :=
  let host := if contains [colon] host then lit "[" ++ host ++ lit "]" else host in
  if port =? 80 then host else host ++ [colon] ++ fmt_dec port.

(** ** Parsing *)

Section Parse.
Context {UC : UrlCrate}.

(** A CONNECT request's target. *)
Definition connect_target (body : RequestBody) (raw_target : str) : result RequestError (str * Z * RequestTarget) :=
  ensure (bool_decide (body = NoBody)) (bad_request "CONNECT request must not carry a body") ;;
  '(host, port) ← ok_or (split_host_port raw_target) (bad_request "bad connect target");
  ensure (negb (is_empty host || (port =? 0))) (bad_request "bad connect target") ;;
  Ok (host, port, Connect).
(** An absolute-form target. *)
Definition forward_target (raw_target : str) : result RequestError (str * Z * RequestTarget) :=
  url ← ok_or (url_parse raw_target)
    (mkRequestError (lit "405 Method Not Allowed") (lit "non-CONNECT requests require an absolute HTTP URI"));
  ensure (negb (negb (str_eqb (scheme url) (lit "http")) || negb (is_empty (username url))
                || bool_decide (is_Some (password url)) || bool_decide (is_Some (fragment url))))
    (bad_request "unsupported absolute request target") ;;
  host ← match url_host url with
         | Some (UrlDomain d) => Ok d
         | Some (UrlIpv4 a) => Ok (display_v4 a)
         | Some (UrlIpv6 a) => Ok (display_v6 a)
         | None => Err (bad_request "absolute request target has no host")
         end;
  port ← ok_or (port_or_known_default url) (bad_request "absolute request target has no port");
  ensure (negb (port =? 0)) (bad_request "absolute request target has invalid port") ;;
  let origin_form := if is_empty (url_path url) then url_path url ++ [slash] else url_path url in
  let origin_form := match url_query url with Some q => origin_form ++ [63] ++ q | None => origin_form end in
  Ok (host, port, Forward (mkForward origin_form (format_authority host port))).

(** The request line: method, target and version. *)
Definition parse_request_line (line : str) : result RequestError (str * str * str) :=
  let parts := split_whitespace line in
  let method := default [] (parts !! 0%nat) in
  let raw_target := default [] (parts !! 1%nat) in
  let version := default [] (parts !! 2%nat) in
  ensure (negb (is_empty method || is_empty raw_target
                || negb (str_eqb version (lit "HTTP/1.0") || str_eqb version (lit "HTTP/1.1"))
                || bool_decide (is_Some (parts !! 3%nat)))) (bad_request "malformed request line") ;;
  Ok (method, raw_target, version).

(** [ParsedRequest::parse] *)
Definition ParsedRequest_parse (head : list Z) : result RequestError ParsedRequest :=
  ensure (utf8_valid head) (bad_request "request header is not valid UTF-8") ;;
  let text := default head (strip_suffix crlfcrlf head) in
  let lines := split_crlf text in
  '(method, raw_target, version) ← parse_request_line (hd [] lines);
  headers ← parse_headers (tail lines);
  let proxy_auth_values := map hd_value (headers_named "proxy-authorization" headers) in
  ensure (negb (1 <? length proxy_auth_values)%nat) (bad_request "multiple proxy authorization headers") ;;
  let connection_tokens := list_tokens (headers_named "connection" headers) in
  ensure (negb (existsb (named "upgrade") headers || has_token "upgrade" connection_tokens))
    (mkRequestError (lit "501 Not Implemented") (lit "HTTP upgrade requires a CONNECT tunnel")) ;;
  ensure (negb (has_token "content-length" connection_tokens || has_token "transfer-encoding" connection_tokens))
    (bad_request "ambiguous request framing") ;;
  body ← parse_request_body method headers;
  '(host, port, target) ← (if eq_ignore_ascii_case method (lit "CONNECT") then connect_target body raw_target
                           else forward_target raw_target);
  Ok (mkRequest method version headers (proxy_auth_values !! 0%nat) host port target body connection_tokens).

End Parse.

(** [ParsedRequest::validate_remainder] *)
Definition validate_remainder (r : ParsedRequest) (remainder_len : nat) : option RequestError :=
  match rq_target r with
  | Connect => None
  | Forward _ =>
      match rq_body r with
      | NoBody => if (0 <? remainder_len)%nat then Some (bad_request "request bytes exceed declared body") else None
      | Fixed length =>
          if length <? Z.of_nat remainder_len then Some (bad_request "request bytes exceed content length") else None
      | Chunked => None
      end
  end.

(** ** The forwarded head *)

Definition hop_by_hop : list str :=
  [lit "host"; lit "proxy-authorization"; lit "proxy-connection"; lit "connection"; lit "keep-alive"; lit "upgrade"].
Definition dropped (connection_tokens : list str) (h : Header) : bool :=
  let lower := to_ascii_lowercase (hd_name h) in
  bool_decide (lower ∈ hop_by_hop) || existsb (fun token => str_eqb token lower) connection_tokens.
Definition header_line (h : Header) : str := hd_name h ++ lit ": " ++ hd_value h.
(** [build_forward_head] *)
Definition build_forward_head (method version : str) (headers : list Header) (connection_tokens : list str)
    (target : ForwardTarget) : list Z :=
  let head := method ++ [32] ++ fw_origin_form target ++ [32] ++ version ++ crlf ++ lit "Host: " ++ fw_authority target ++ crlf in
  let head := foldl (fun head h => if dropped connection_tokens h then head else head ++ header_line h ++ crlf) head headers in
  head ++ lit "Connection: close" ++ crlf ++ crlf.

(** ** Credentials *)

(** The base64 crate's standard engine, as a decoder. *)
Class Base64Decode := base64_decode : str -> option (list Z).
(** [decode_basic] *)
Definition decode_basic {BD : Base64Decode} (value : str) : option (str * str) :=
  b64 ← match strip_prefix (lit "Basic ") value with Some v => Some v | None => strip_prefix (lit "basic ") value end;
  raw ← base64_decode (trim b64);
  if utf8_valid raw then split_once colon raw else None.

(** What the proxy relies on of the url crate: an http URL's path and query are
    percent-encoded, its host has no forbidden code point, its numbers fit. *)
Definition host_char (b : Z) : Prop := graphic b /\ b <> 91 /\ b <> 93.
Class UrlLaws {UC : UrlCrate} := url_http_shape s u :
  url_parse s = Some u -> scheme u = lit "http" ->
  Forall graphic (url_path u) /\ (forall q, url_query u = Some q -> Forall graphic q) /\
  (forall p, port_or_known_default u = Some p -> fits 16 p) /\
  match url_host u with
  | Some (UrlDomain d) => Forall host_char d
  | Some (UrlIpv4 a) => fits 32 a
  | Some (UrlIpv6 a) => fits 128 a
  | None => True
  end.

(** * The origin reads exactly the request that was meant

    The forwarded head is one head: no field can break a line, hop-by-hop
    headers and proxy credentials are gone, and its body framing is the one the
    proxy uses. *)

(** ** Lines *)

Definition line_text (l : str) : Prop := 13 ∉ l /\ 10 ∉ l.
(** A head: its lines, each ended by CR LF, and an empty line. *)
Definition head_text (lines : list str) : list Z := flat_map (fun l => l ++ crlf) lines ++ crlf.

Lemma line_text_app a b : line_text (a ++ b) <-> line_text a /\ line_text b.
Proof. unfold line_text. rewrite !not_elem_of_app. tauto. Qed.
Lemma line_text_nil : line_text [].
Proof. split; apply not_elem_of_nil. Qed.
Lemma line_text_forall (P : Z -> Prop) l : Forall P l -> ~ P 13 -> ~ P 10 -> line_text l.
Proof. intros Hl H1 H2. rewrite Forall_forall in Hl. split; intros Hin; apply Hl in Hin; done. Qed.
Lemma graphic_line_text l : Forall graphic l -> line_text l.
Proof. intros H. eapply line_text_forall; [exact H|unfold graphic; lia..]. Qed.
Lemma no_ws_line_text l : no_ws l = true -> line_text l.
Proof.
  induction l as [|b l IH]; [intros; apply line_text_nil|]. cbn [no_ws]. destruct (strip_ws (b :: l)) eqn:E; [done|].
  intros H. destruct (IH H) as [H1 H2]. assert (is_ascii_ws b = false) as Hb by (unfold strip_ws in E; by destruct (is_ascii_ws b)).
  unfold is_ascii_ws in Hb. bools. split; rewrite not_elem_of_cons; (split; [lia|done]).
Qed.
#[local] Hint Resolve graphic_line_text no_ws_line_text line_text_nil : rove.

Lemma split_crlf_line l : 13 ∉ l -> split_crlf l = [l].
Proof.
  induction l as [|x l IH]; [done|]. rewrite not_elem_of_cons. intros [Hx Hl]. cbn [split_crlf]. rewrite (IH Hl).
  destruct l as [|y l]; [done|]. by rewrite (proj2 (Z.eqb_neq x 13)) by congruence.
Qed.
Lemma split_crlf_cons l s : 13 ∉ l -> split_crlf (l ++ crlf ++ s) = l :: split_crlf s.
Proof.
  induction l as [|x l IH]; [done|]. rewrite not_elem_of_cons. intros [Hx Hl].
  change ((x :: l) ++ crlf ++ s) with (x :: (l ++ crlf ++ s)). cbn [split_crlf]. rewrite (IH Hl).
  destruct (l ++ crlf ++ s) as [|y r] eqn:E; [by destruct l|]. by rewrite (proj2 (Z.eqb_neq x 13)) by congruence.
Qed.
Lemma split_crlf_join lines : lines <> [] -> Forall (fun l => 13 ∉ l) lines -> split_crlf (join crlf lines) = lines.
Proof.
  intros Hn H. induction H as [|l lines Hl H IH]; [done|]. destruct lines as [|l' lines].
  - by apply split_crlf_line.
  - rewrite join_cons by done. rewrite split_crlf_cons by done. by rewrite IH.
Qed.
Lemma head_text_cons l lines : head_text (l :: lines) = l ++ crlf ++ head_text lines.
Proof. unfold head_text. cbn [flat_map]. by rewrite <- !app_assoc. Qed.
Lemma head_text_join lines : lines <> [] -> head_text lines = join crlf lines ++ crlfcrlf.
Proof.
  induction lines as [|l lines IH]; [done|]. intros _. rewrite head_text_cons. destruct lines as [|l' lines]; [done|].
  rewrite join_cons, IH by done. by rewrite <- !app_assoc.
Qed.
Lemma strip_suffix_app p s : strip_suffix p (s ++ p) = Some s.
Proof.
  unfold strip_suffix, ends_with. rewrite rev_app_distr.
  assert (starts_with (rev p) (rev p ++ rev s) = true) as -> by (apply starts_with_spec; eauto).
  rewrite length_app. replace (_ + _ - _)%nat with (length s) by lia. by rewrite take_app_length.
Qed.

(** The blank line of a head is its last. *)
Lemma occurs_line l s i :
  line_text l -> occurs_at (l ++ crlf ++ s) crlfcrlf i ->
  (i = length l /\ exists t, s = crlf ++ t) \/ exists j, i = (length l + 2 + j)%nat /\ occurs_at s crlfcrlf j.
Proof.
  intros [Hl _] [t Ht]. destruct (Nat.lt_ge_cases i (length l)) as [Hi|Hi].
  - exfalso. rewrite drop_app_le in Ht by lia. destruct (drop i l) as [|x r] eqn:E.
    { apply (f_equal length) in E. rewrite length_drop in E. simpl in E. lia. }
    injection Ht as -> _. apply Hl. rewrite <- (take_drop i l), E. apply elem_of_app. right. by constructor.
  - rewrite drop_app_ge in Ht by lia. destruct (i - length l)%nat as [|[|j]] eqn:E.
    + left. split; [lia|]. injection Ht as Ht. exists t. exact Ht.
    + exfalso. by injection Ht.
    + right. exists j. split; [lia|]. exists t. exact Ht.
Qed.
Lemma find_sub_head lines :
  lines <> [] -> Forall (fun l => l <> [] /\ line_text l) lines ->
  find_sub (head_text lines) crlfcrlf = Some (length (join crlf lines)).
Proof.
  intros Hn H. apply find_sub_Some; [done|]. induction H as [|l lines [Hl0 Hl] H IH]; [done|]. destruct lines as [|l' lines].
  - unfold head_text. cbn [flat_map join]. rewrite app_nil_r, <- app_assoc. split.
    + exists []. by rewrite drop_app_length.
    + intros j Hj Ho. destruct (occurs_line _ _ _ Hl Ho) as [[-> _]|(k & -> & _)]; lia.
  - destruct IH as [IH1 IH2]; [done|]. rewrite join_cons by done.
    rewrite head_text_cons. split.
    + destruct IH1 as [t Ht]. exists t. rewrite !length_app.
      rewrite drop_app_ge by lia. rewrite drop_app_ge by (cbn; lia). rewrite <- Ht. f_equal. cbn. lia.
    + intros j Hj Ho. rewrite !length_app in Hj. cbn [length crlf] in Hj.
      destruct (occurs_line _ _ _ Hl Ho) as [[-> [t Ht]]|(k & -> & Hk)].
      * inversion H as [|? ? [Hl'0 Hl'] _]. subst. destruct l' as [|x l']; [done|]. injection Ht as -> _.
        destruct Hl' as [Hx _]. apply Hx. by constructor.
      * apply (IH2 k); [lia|done].
Qed.

(** ** Words *)

Lemma no_ws_suffixes w s : (forall a c, w = a ++ c -> c <> [] -> strip_ws (c ++ s) = None) -> no_ws w = true.
Proof.
  induction w as [|b w IH]; [done|]. intros H. cbn [no_ws].
  rewrite (strip_ws_prefix (b :: w) s) by by apply (H []). apply IH. intros a c -> Hc. by apply (H (b :: a)).
Qed.
Lemma split_ws_words fuel cur s :
  (length s <= fuel)%nat -> (forall a c, cur = a ++ c -> c <> [] -> strip_ws (c ++ s) = None) ->
  Forall (fun w => w <> [] /\ no_ws w = true) (split_ws_from fuel cur s).
Proof.
  assert (Hflush : forall cur s, (forall a c, cur = a ++ c -> c <> [] -> strip_ws (c ++ s) = None) ->
    Forall (fun w => w <> [] /\ no_ws w = true) (if is_empty cur then [] else [cur])).
  { intros cur' s' H. destruct cur' as [|b cur']; [constructor|]. constructor; [|constructor]. split; [done|]. by eapply no_ws_suffixes. }
  revert cur s; induction fuel as [|fuel IH]; intros cur s Hf Hc; cbn [split_ws_from]; [by eapply Hflush|].
  destruct s as [|b s]; [by eapply Hflush|]. simpl in Hf. destruct (strip_ws (b :: s)) as [s1|] eqn:E.
  - apply Forall_app. split; [by eapply Hflush|]. apply IH; [apply strip_ws_shorter in E; simpl in E; lia|].
    intros a c Ha. by destruct a, c.
  - apply IH; [lia|]. intros a c Ha Hc0. destruct c as [|x c] using rev_ind; [done|]. rewrite app_assoc in Ha.
    apply app_inj_tail in Ha as [Ha <-]. rewrite <- app_assoc. destruct c as [|y c]; [done|]. by apply (Hc a).
Qed.
Lemma split_whitespace_words s : Forall (fun w => w <> [] /\ no_ws w = true) (split_whitespace s).
Proof. apply split_ws_words; [done|]. intros a c Ha. by destruct a, c. Qed.
Lemma split_whitespace_three a b c :
  a <> [] -> b <> [] -> c <> [] -> no_ws a = true -> no_ws b = true -> no_ws c = true ->
  split_whitespace (a ++ 32 :: b ++ 32 :: c) = [a; b; c].
Proof.
  intros Ha Hb Hc Na Nb Nc. unfold split_whitespace. rewrite !length_app. cbn [length]. rewrite length_app. cbn [length].
  rewrite split_ws_word by (done || lia). rewrite split_ws_word by (done || lia). rewrite split_ws_last by (done || lia).
  by destruct a, b, c.
Qed.

(** ** Headers *)

Definition good_header (h : Header) : Prop :=
  valid_header_name (hd_name h) = true /\ trim (hd_value h) = hd_value h /\ existsb bad_value_byte (hd_value h) = false.

Lemma token_char_not b : token_char b = true -> b <> 13 /\ b <> 10 /\ b <> 32 /\ b <> 9 /\ b <> colon.
Proof. intros H. split_and!; intros ->; by vm_compute in H. Qed.
Lemma valid_name_chars name : valid_header_name name = true -> name <> [] /\ Forall (fun b => token_char b = true) name.
Proof.
  unfold valid_header_name. intros H. apply andb_true_iff in H as [H1 H2]. split; [by destruct name|].
  apply Forall_forall. intros x Hx. rewrite forallb_forall in H2. apply H2. by apply list_elem_of_In.
Qed.
Lemma value_line v : existsb bad_value_byte v = false -> line_text v.
Proof.
  intros H. assert (Forall (fun b => bad_value_byte b = false) v) as Hv.
  { apply Forall_forall. intros x Hx. destruct (bad_value_byte x) eqn:E; [|done].
    assert (existsb bad_value_byte v = true); [|congruence]. apply existsb_exists. exists x. split; [by apply list_elem_of_In|done]. }
  eapply line_text_forall; [exact Hv|done|done].
Qed.
Lemma graphic_header_value v : Forall graphic v -> existsb bad_value_byte v = false.
Proof.
  intros Hg. apply not_true_iff_false. intros (x & Hx & Hbad)%existsb_exists.
  rewrite Forall_forall in Hg. apply list_elem_of_In, Hg in Hx. unfold graphic in Hx. unfold bad_value_byte in Hbad. lia.
Qed.
Lemma good_header_line h : good_header h -> header_line h <> [] /\ line_text (header_line h).
Proof.
  intros (Hn & _ & Hv). apply valid_name_chars in Hn as [H0 Hn]. unfold header_line. split; [by destruct (hd_name h)|].
  rewrite !line_text_app. split_and!.
  - eapply line_text_forall; [exact Hn|by vm_compute..].
  - split; apply (bool_decide_unpack _); by vm_compute.
  - by apply value_line.
Qed.
Lemma trim_space_value v : trim v = v -> trim (32 :: v) = v.
Proof. intros H. unfold trim, trim_start in *. cbn [List.length strip_while]. exact H. Qed.
Lemma parse_header_line h : good_header h -> parse_header (header_line h) = Ok (Some h).
Proof.
  intros (Hn & Ht & Hv). pose proof (valid_name_chars _ Hn) as [H0 Hc]. destruct h as [name value]. cbn [hd_name hd_value] in *.
  unfold parse_header, header_line. cbn [hd_name hd_value]. destruct name as [|b name]; [done|].
  inversion Hc as [|? ? Hb Hc']. subst. apply token_char_not in Hb as (_ & _ & H32 & H9 & Hco). cbn [app is_empty starts_with].
  rewrite (proj2 (Z.eqb_neq 32 b)), (proj2 (Z.eqb_neq 9 b)) by congruence. cbn [andb orb].
  assert (split_once colon (b :: name ++ lit ": " ++ value) = Some (b :: name, 32 :: value)) as ->.
  { apply split_once_Some. split; [done|]. rewrite not_elem_of_cons. split; [congruence|].
    intros Hin. rewrite Forall_forall in Hc'. apply Hc' in Hin. by vm_compute in Hin. }
  cbn [mbind result_bind ok_or ensure]. rewrite Hn. cbn [ensure mbind result_bind]. rewrite trim_space_value by done.
  by rewrite Hv.
Qed.
Lemma parse_headers_lines hs : Forall good_header hs -> parse_headers (map header_line hs) = Ok hs.
Proof.
  induction 1 as [|h hs Hh _ IH]; [done|]. cbn [map parse_headers]. rewrite parse_header_line by done.
  cbn [mbind result_bind]. rewrite IH. done.
Qed.
Lemma parse_header_good line h : parse_header line = Ok (Some h) -> good_header h.
Proof.
  unfold parse_header. destruct (is_empty line); [done|]. destruct (_ || _); [done|].
  destruct (split_once colon line) as [[name value]|]; [|done]. cbn [mbind result_bind ok_or ensure].
  destruct (valid_header_name name) eqn:E; [|done]. cbn [ensure mbind result_bind].
  destruct (existsb bad_value_byte (trim value)) eqn:E2; [done|]. cbn [ensure negb mbind result_bind]. intros [= <-].
  split_and!; cbn; [done|apply trim_idem|done].
Qed.
Lemma parse_headers_good lines hs : parse_headers lines = Ok hs -> Forall good_header hs.
Proof.
  revert hs; induction lines as [|line lines IH]; intros hs; cbn [parse_headers]; [by intros [= <-]|].
  rewrite bind_Ok. intros (h & Eh & H). rewrite bind_Ok in H. destruct H as (hs' & Ehs & [= <-]).
  apply Forall_app. split; [|by apply IH]. destruct h as [h|]; constructor; [by eapply parse_header_good|constructor].
Qed.

(** ** What a parsed request guarantees *)

Section Parsed.
Context {UC : UrlCrate}.

Lemma parse_inv head req :
  ParsedRequest_parse head = Ok req ->
  let lines := split_crlf (default head (strip_suffix crlfcrlf head)) in
  exists raw_target,
    parse_request_line (hd [] lines) = Ok (rq_method req, raw_target, rq_version req) /\
    parse_headers (tail lines) = Ok (rq_headers req) /\
    rq_proxy_authorization req = map hd_value (headers_named "proxy-authorization" (rq_headers req)) !! 0%nat /\
    rq_connection_tokens req = list_tokens (headers_named "connection" (rq_headers req)) /\
    has_token "content-length" (rq_connection_tokens req) = false /\
    has_token "transfer-encoding" (rq_connection_tokens req) = false /\
    parse_request_body (rq_method req) (rq_headers req) = Ok (rq_body req) /\
    (if eq_ignore_ascii_case (rq_method req) (lit "CONNECT") then connect_target (rq_body req) raw_target
     else forward_target raw_target) = Ok (rq_host req, rq_port req, rq_target req).
Proof.
  unfold ParsedRequest_parse. cbv zeta. intros H.
  apply bind_Ok in H as (_ & _ & H). apply bind_Ok in H as ([[method raw] version] & El & H).
  apply bind_Ok in H as (headers & Eh & H). apply bind_Ok in H as (_ & _ & H). apply bind_Ok in H as (_ & _ & H).
  apply bind_Ok in H as (_ & Et%ensure_Ok & H). apply bind_Ok in H as (body & Eb & H).
  apply bind_Ok in H as ([[host port] target] & Etg & [= <-]). exists raw. cbn.
  apply negb_true_iff, orb_false_iff in Et as [Et1 Et2]. by split_and!.
Qed.

(** The lines a head of lines is parsed to. *)
Lemma head_text_lines lines :
  lines <> [] -> Forall (fun l => l <> [] /\ line_text l) lines ->
  split_crlf (default (head_text lines) (strip_suffix crlfcrlf (head_text lines))) = lines.
Proof.
  intros Hn H. rewrite head_text_join, strip_suffix_app by done. cbn [default]. apply split_crlf_join; [done|].
  eapply Forall_impl; [exact H|]. by intros l (_ & Hl & _).
Qed.
Lemma parse_request_line_three m t v :
  m <> [] -> t <> [] -> no_ws m = true -> no_ws t = true -> v = lit "HTTP/1.0" \/ v = lit "HTTP/1.1" ->
  parse_request_line (m ++ 32 :: t ++ 32 :: v) = Ok (m, t, v).
Proof.
  intros Hm Ht Nm Nt Hv. unfold parse_request_line. cbv zeta.
  rewrite split_whitespace_three by (try done; by destruct Hv as [-> | ->]). destruct m, t; try done. by destruct Hv as [-> | ->].
Qed.
Lemma parse_request_line_inv line m r v :
  parse_request_line line = Ok (m, r, v) ->
  m <> [] /\ no_ws m = true /\ (v = lit "HTTP/1.0" \/ v = lit "HTTP/1.1").
Proof.
  unfold parse_request_line. cbv zeta. intros H. apply bind_Ok in H as (_ & E%ensure_Ok & H).
  apply negb_true_iff in E. rewrite !orb_false_iff in E. destruct E as [[[Em Er] Ev] _].
  pose proof (split_whitespace_words line) as Hw. injection H as <- <- <-.
  destruct (split_whitespace line) as [|w ws]; [done|]. inversion Hw as [|? ? [H1 H2] _]. subst. cbn [default].
  split; [done|]. split; [done|]. apply negb_false_iff, orb_true_iff in Ev as [Ev|Ev]; apply str_eqb_eq in Ev; eauto.
Qed.

Definition kept_headers (req : ParsedRequest) : list Header :=
  List.filter (fun h => negb (dropped (rq_connection_tokens req) h)) (rq_headers req).
(** The headers the origin reads. *)
Definition origin_headers (req : ParsedRequest) (t : ForwardTarget) : list Header :=
  mkHeader (lit "Host") (fw_authority t) :: kept_headers req ++ [mkHeader (lit "Connection") (lit "close")].
Definition forwarded (req : ParsedRequest) (t : ForwardTarget) : list Z :=
  build_forward_head (rq_method req) (rq_version req) (rq_headers req) (rq_connection_tokens req) t.
Definition request_line (req : ParsedRequest) (t : ForwardTarget) : str :=
  rq_method req ++ 32 :: fw_origin_form t ++ 32 :: rq_version req.

Lemma forwarded_text req t : forwarded req t = head_text (request_line req t :: map header_line (origin_headers req t)).
Proof.
  unfold forwarded, build_forward_head, kept_headers, origin_headers, kept_headers. cbn [map].
  rewrite !head_text_cons, map_app. set (h0 := rq_method req ++ _).
  assert (Hf : forall hs h, foldl (fun head x => if dropped (rq_connection_tokens req) x then head else head ++ header_line x ++ crlf) h hs
    = h ++ flat_map (fun l => l ++ crlf) (map header_line (List.filter (fun x => negb (dropped (rq_connection_tokens req) x)) hs))).
  { induction hs as [|x hs IH]; intros h; cbn [foldl List.filter map flat_map]; [by rewrite app_nil_r|].
    rewrite IH. destruct (dropped _ x); cbn [negb map flat_map]; [done|]. by rewrite <- !app_assoc. }
  rewrite Hf. unfold head_text. rewrite flat_map_app. cbn [map flat_map]. rewrite app_nil_r. unfold h0, request_line, header_line.
  cbn [hd_name hd_value]. by repeat progress (rewrite <- ?app_assoc; cbn [app]).
Qed.

(** Framing headers are never dropped. *)
Lemma named_lower name h : named name h = true -> to_ascii_lowercase (hd_name h) = to_ascii_lowercase (lit name).
Proof. unfold named, eq_ignore_ascii_case. apply str_eqb_eq. Qed.
Lemma kept_named name req t :
  to_ascii_lowercase (lit name) = lit name -> lit name ∉ hop_by_hop -> has_token name (rq_connection_tokens req) = false ->
  headers_named name (origin_headers req t) = headers_named name (rq_headers req).
Proof.
  intros Hlow Hhop Htok. assert (Hne : forall h, to_ascii_lowercase (hd_name h) ∈ hop_by_hop -> named name h = false).
  { intros h Hh. destruct (named name h) eqn:E; [|done]. apply named_lower in E. rewrite E, Hlow in Hh. done. }
  unfold headers_named, origin_headers. cbn [List.filter]. rewrite Hne by (apply (bool_decide_unpack _); by vm_compute).
  rewrite List.filter_app. cbn [List.filter]. rewrite Hne by (apply (bool_decide_unpack _); by vm_compute). rewrite app_nil_r.
  unfold kept_headers. induction (rq_headers req) as [|h hs IH]; [done|]. cbn [List.filter].
  destruct (named name h) eqn:E.
  - assert (dropped (rq_connection_tokens req) h = false) as ->.
    { unfold dropped. rewrite (named_lower _ _ E), Hlow. apply orb_false_iff. split; [by apply bool_decide_eq_false|exact Htok]. }
    cbn [negb List.filter]. rewrite E, IH. done.
  - destruct (dropped _ h); cbn [negb List.filter]; [done|]. by rewrite E.
Qed.
Lemma same_framing req t :
  has_token "content-length" (rq_connection_tokens req) = false ->
  has_token "transfer-encoding" (rq_connection_tokens req) = false ->
  parse_request_body (rq_method req) (origin_headers req t) = parse_request_body (rq_method req) (rq_headers req).
Proof.
  intros Hc Ht. unfold parse_request_body.
  rewrite !kept_named; try done; apply (bool_decide_unpack _); by vm_compute.
Qed.

(** ** The target *)

Lemma display_host_char : forall d, 0 <= d < 16 -> host_char (digit_char d).
Proof. intros d Hd. destruct (digit_char_graphic d Hd) as [Hg Hc]. unfold host_char. split_and!; [done|lia..]. Qed.
Lemma forward_target_inv {UL : UrlLaws} raw host port target :
  forward_target raw = Ok (host, port, target) ->
  Forall host_char host /\ fits 16 port /\
  exists t, target = Forward t /\ fw_authority t = format_authority host port /\
    fw_origin_form t <> [] /\ Forall graphic (fw_origin_form t).
Proof.
  unfold forward_target. intros H. apply bind_Ok in H as (url & Eu & H). apply bind_Ok in H as (_ & Es%ensure_Ok & H).
  apply bind_Ok in H as (h & Eh & H). apply bind_Ok in H as (p & Ep & H). apply bind_Ok in H as (_ & _ & H).
  cbv zeta in H. injection H as <- <- <-.
  destruct (url_parse raw) as [u|] eqn:Eup; [|done]. injection Eu as ->.
  apply negb_true_iff in Es. rewrite !orb_false_iff in Es. destruct Es as [[[Es _] _] _].
  apply negb_false_iff, str_eqb_eq in Es. destruct (url_http_shape _ _ Eup Es) as (Hpath & Hq & Hport & Hhost).
  destruct (port_or_known_default url) as [p'|]; [|done]. injection Ep as ->. split.
  { destruct (url_host url) as [[d|a|a]|]; [| | |done]; injection Eh as <-.
    - done.
    - apply display_v4_chars; [apply display_host_char|unfold host_char, graphic, dot, colon; lia..].
    - apply display_v6_chars; [apply display_host_char|unfold host_char, graphic, dot, colon; lia..]. }
  split; [by apply Hport|]. eexists. split; [reflexivity|]. cbn [fw_authority fw_origin_form]. split; [done|].
  set (path := if is_empty (url_path url) then url_path url ++ [slash] else url_path url).
  assert (path <> [] /\ Forall graphic path) as [Hne Hp].
  { unfold path. destruct (url_path url); [|done]. split; [done|]. by apply graphic_lit. }
  destruct (url_query url) as [q|]; [|done]. split; [by destruct path|].
  apply Forall_app. split; [done|]. constructor; [unfold graphic; lia|by apply Hq].
Qed.

(** An authority names the host and the port (80 when it has none). *)
Definition authority_of (host : str) (port : Z) : str :=
  if port =? 80 then format_authority host port ++ lit ":80" else format_authority host port.
Lemma authority_graphic host port : Forall host_char host -> fits 16 port -> Forall graphic (format_authority host port).
Proof.
  intros Hh [Hp _]. assert (Forall graphic host) as Hg by (eapply Forall_impl; [exact Hh|by intros x []]).
  unfold format_authority. cbv zeta.
  assert (Forall graphic (if contains [colon] host then lit "[" ++ host ++ lit "]" else host)) as Hg'.
  { case_match; [|done]. rewrite !Forall_app. split_and!; [by apply graphic_lit|done|by apply graphic_lit]. }
  destruct (port =? 80); [done|]. rewrite !Forall_app. split_and!; [done|by apply graphic_lit|by apply fmt_radix_graphic].
Qed.
Lemma fmt_dec_no_colon port : fits 16 port -> colon ∉ fmt_dec port.
Proof.
  intros [Hp _] Hin. pose proof (fmt_radix_chars (fun b => b <> colon) 10 port) as Hf.
  rewrite Forall_forall in Hf. eapply Hf; [..|exact Hin|done]; [|lia|done].
  intros d Hd. unfold digit_char, colon. destruct (Z.ltb_spec d 10); lia.
Qed.
Lemma split_host_port_plain host port :
  Forall graphic host -> host !! 0%nat <> Some 91 -> fits 16 port ->
  split_host_port (host ++ [colon] ++ fmt_dec port) = Some (host, port).
Proof.
  intros Hg Hb Hp. unfold split_host_port. cbv zeta. rewrite trim_graphic.
  2: { rewrite !Forall_app. split_and!; [done|by apply graphic_lit|]. destruct Hp. by apply fmt_radix_graphic. }
  assert (strip_prefix [91] (host ++ [colon] ++ fmt_dec port) = None) as ->.
  { destruct (strip_prefix [91] _) eqn:E; [|done]. apply strip_prefix_Some in E. exfalso.
    destruct host as [|x host]; [by injection E|]. injection E as -> _. done. }
  rewrite rsplit_once_sep by by apply fmt_dec_no_colon. cbn [mbind option_bind]. by rewrite parse_fmt_dec.
Qed.
Lemma authority_reads host port :
  Forall host_char host -> fits 16 port -> split_host_port (authority_of host port) = Some (host, port).
Proof.
  intros Hh Hp. assert (Hnot : forall c, ~ host_char c -> c ∉ host) by (intros c Hc Hin; rewrite Forall_forall in Hh; by apply Hc, Hh).
  assert (Ea : authority_of host port = (if contains [colon] host then lit "[" ++ host ++ lit "]" else host) ++ [colon] ++ fmt_dec port).
  { unfold authority_of, format_authority. cbv zeta. destruct (Z.eqb_spec port 80) as [->|]; done. }
  assert (Forall graphic (authority_of host port)) as Hg.
  { unfold authority_of. pose proof (authority_graphic host port Hh Hp). destruct (port =? 80); [|done]. apply Forall_app.
    split; [done|by apply graphic_lit]. }
  destruct (contains [colon] host) eqn:Ec.
  - unfold split_host_port. cbv zeta. rewrite trim_graphic by done. rewrite Ea.
    change (lit "[" ++ host ++ lit "]") with ([91] ++ host ++ [93]). rewrite <- !app_assoc, strip_prefix_app.
    unfold split_once_str. assert (find_sub (host ++ [93] ++ [colon] ++ fmt_dec port) [93; colon] = Some (length host)) as ->.
    { apply find_sub_Some; [done|]. split; [exists (fmt_dec port); by rewrite drop_app_length|].
      intros j Hj [t Ht]. rewrite drop_app_le in Ht by lia. destruct (drop j host) as [|x r] eqn:E.
      { apply (f_equal length) in E. rewrite length_drop in E. simpl in E. lia. }
      injection Ht as -> _. apply (Hnot 93); [unfold host_char; lia|]. rewrite <- (take_drop j host), E.
      apply elem_of_app. right. by constructor. }
    cbn [mbind option_bind]. rewrite take_app_length. rewrite drop_app_ge by lia.
    cbn [length]. replace (length host + 2 - length host)%nat with 2%nat by lia. cbn [app drop].
    rewrite drop_0. by rewrite parse_fmt_dec.
  - rewrite Ea. apply split_host_port_plain; [|destruct host as [|x host]; [done|]; intros [= ->]; apply (Hnot 91); [unfold host_char; lia|by constructor]|done].
    eapply Forall_impl; [exact Hh|by intros x []].
Qed.

Lemma kept_clean req h :
  h ∈ kept_headers req ->
  h ∈ rq_headers req /\ to_ascii_lowercase (hd_name h) ∉ hop_by_hop /\ to_ascii_lowercase (hd_name h) ∉ rq_connection_tokens req.
Proof.
  unfold kept_headers. rewrite list_elem_of_In, List.filter_In. intros [Hin Hd].
  apply negb_true_iff, orb_false_iff in Hd as [H1 H2]. split_and!; [by apply list_elem_of_In|by apply bool_decide_eq_false in H1|].
  intros Ht. apply list_elem_of_In in Ht.
  assert (existsb (fun token => str_eqb token (to_ascii_lowercase (hd_name h))) (rq_connection_tokens req) = true); [|congruence].
  apply existsb_exists. eexists. split; [exact Ht|apply str_eqb_refl].
Qed.

Lemma origin_headers_good req t :
  Forall good_header (rq_headers req) -> Forall graphic (fw_authority t) -> Forall good_header (origin_headers req t).
Proof.
  intros Hh Hg. unfold origin_headers. constructor; [|apply Forall_app; split].
  - split_and!; cbn; [done|by apply trim_graphic|by apply graphic_header_value].
  - unfold kept_headers. rewrite Forall_forall in Hh |- *. intros x Hx. apply Hh.
    rewrite list_elem_of_In, List.filter_In in Hx. by apply list_elem_of_In, Hx.
  - by repeat constructor.
Qed.
Lemma request_line_good req t :
  rq_method req <> [] -> no_ws (rq_method req) = true -> Forall graphic (fw_origin_form t) -> no_ws (rq_version req) = true ->
  request_line req t <> [] /\ line_text (request_line req t).
Proof.
  intros Hm0 Hm Ho Hv. assert (line_text [32]) as Hs by (split; apply (bool_decide_unpack _); by vm_compute).
  split; [unfold request_line; by destruct (rq_method req)|].
  change (request_line req t) with (rq_method req ++ [32] ++ fw_origin_form t ++ [32] ++ rq_version req).
  rewrite !line_text_app. split_and!; auto with rove.
Qed.


End Parsed.

(** ** Concrete requests *)

Module HttpDemo.
Definition target : str := lit "http://one.example:8080/a?b=1".
#[export] Instance url : UrlCrate := fun s =>
  if str_eqb s target
  then Some (mkUrl (lit "http") [] None None (Some (UrlDomain (lit "one.example"))) (Some 8080) (lit "/a") (Some (lit "b=1")))
  else None.
#[export] Instance url_laws : UrlLaws.
Proof.
  intros s u. unfold url_parse, url. destruct (str_eqb s target); [|done]. intros [= <-] _. cbn. split_and!.
  - by apply graphic_lit.
  - intros q [= <-]. by apply graphic_lit.
  - intros p [= <-]. unfold fits. lia.
  - repeat constructor; unfold graphic; lia.
Qed.
Definition request (headers : list str) : list Z :=
  head_text ((lit "POST " ++ target ++ lit " HTTP/1.1") :: headers).
Definition head : list Z :=
  request [lit "Host: evil.example"; lit "Proxy-Authorization: Basic YWxpY2U6cHc="; lit "Connection: keep-alive, X-Hop"; lit "X-Hop: 1";
           lit "Content-Length: 5"; lit "X-Kept:  yes "].
Definition parsed : ParsedRequest :=
  match ParsedRequest_parse head with Ok r => r | Err _ => mkRequest [] [] [] None [] 0 Connect NoBody [] end.
Definition forward : ForwardTarget := mkForward (lit "/a?b=1") (lit "one.example:8080").
End HttpDemo.

Section HttpRequestExamples.
Import HttpDemo.


(** What the origin is sent for [head]. *)
Example forwarded_head :
  forwarded parsed forward =
  head_text [lit "POST /a?b=1 HTTP/1.1"; lit "Host: one.example:8080"; lit "Content-Length: 5"; lit "X-Kept: yes"; lit "Connection: close"].
Proof. vm_compute. reflexivity. Qed.

(** A signed length is accepted, and forwarded as it was written. *)
Example content_length_plus :
  let r := ParsedRequest_parse (request [lit "Content-Length: +5"]) in
  match r with
  | Ok q => rq_body q = Fixed 5 /\ mkHeader (lit "Content-Length") (lit "+5") ∈ kept_headers q
  | Err _ => False
  end.
Proof. vm_compute. split; [done|by left]. Qed.

(** An empty Transfer-Encoding does not count against a Content-Length; both
    are forwarded. *)
Example empty_transfer_encoding :
  let r := ParsedRequest_parse (request [lit "Content-Length: 5"; lit "Transfer-Encoding: ,"]) in
  match r with
  | Ok q => rq_body q = Fixed 5 /\ map hd_name (kept_headers q) = [lit "Content-Length"; lit "Transfer-Encoding"]
  | Err _ => False
  end.
Proof. vm_compute. done. Qed.

(** Rejected requests, with their status. *)
Example rejected :
  map (fun hs => match ParsedRequest_parse (request hs) with Ok _ => [] | Err e => take 3 (re_status e) end)
    [[]; [lit "Content-Length: 1"; lit "Transfer-Encoding: chunked"]; [lit "Content-Length: 1"; lit "content-length: 2"];
     [lit "Connection: content-length"; lit "Content-Length: 1"]; [lit "Upgrade: websocket"]; [lit " folded"]; [lit "bad name: x"];
     [lit "Transfer-Encoding: gzip"]; [lit "X: a" ++ [10] ++ lit "Y: b"]]
  = [lit "411"; lit "400"; lit "400"; lit "400"; lit "501"; lit "400"; lit "400"; lit "501"; lit "400"].
Proof. vm_compute. reflexivity. Qed.
End HttpRequestExamples.
