(* ===== verification/HttpBody.v ===== *)
(** * HttpBody: forwarding the body of a request

    Models the body copying of src/src/inbound/http.rs: exactly Content-Length
    bytes, or one chunked body with its trailers. The copy is a [Conn] whose
    input is the client and whose output is the origin; the rate limiter only
    delays its writes. *)

From Stdlib Require Import ZArith Lia String.
From stdpp Require Import prelude strings list.
From S2P Require Import Sniff.
From S2P Require Import Prelude RustStr Net NetProps RustFmt Util Frame Stream Conn HttpRequest.

(** [Exhausted] marks a loop out of fuel; it never occurs ([copy_request_body_moves]). *)
Inductive BodyError :=
| BodyIo (e : IoError) | BodyTooShort | InvalidChunkSize | ChunkLineTooLarge | MissingChunkCrlf | Exhausted.
Definition copying (A : Type) : Type := conn_m BodyError A.

(** An upper bound on the reads a script can serve. *)
Definition reader_size (r : Reader.t) : nat :=
  sum_list_with (fun x => match x with Ok c => S (length c) | Err _ => 1%nat end) r.
Arguments reader_size : simpl never.

(** [reader.read] into [n] bytes *)
Definition cread_up_to (n : nat) : copying (list Z) := fun c =>
  let '(r, rd) := Reader.read n (cn_in c) in
  (map_err (fun _ => BodyIo ReadError) r, mkConn rd (cn_sent c) (cn_writes c)).

(** [copy_exact_body] *)
Fixpoint copy_exact_loop (fuel : nat) (remaining : Z) : copying unit :=
  if remaining <=? 0 then mret tt
  else
  match fuel with
  | O => cfail Exhausted
  | S fuel =>
      buf ← cread_up_to (Z.to_nat (Z.min remaining (32 * 1024)));
      if is_empty buf then cfail BodyTooShort
      else cwrite BodyIo buf ;; copy_exact_loop fuel (remaining - Z.of_nat (length buf))
  end.
Definition copy_exact_body (remaining : Z) : copying Z := fun c =>
  (copy_exact_loop (S (reader_size (cn_in c))) remaining ;; mret remaining) c.

Definition MAX_CHUNK_LINE : nat := Z.to_nat (8 * 1024).
(** [read_crlf_line]; [room] is what is left of [MAX_CHUNK_LINE] *)
Fixpoint crlf_line_loop (room : nat) (line : list Z) : copying (list Z) :=
  match room with
  | O => cfail ChunkLineTooLarge
  | S room =>
      byte ← cread BodyIo 1;
      let line := line ++ byte in
      if ends_with crlf line then mret line else crlf_line_loop room line
  end.
Definition read_crlf_line : copying (list Z) := crlf_line_loop MAX_CHUNK_LINE [].

(** The size a chunk line announces. *)
Definition chunk_size (line : list Z) : option Z :=
  let size_text := hd [] (split 59 (default line (strip_suffix crlf line))) in
  if utf8_valid size_text then from_str_radix 16 64 (trim size_text) else None.

(** The trailers, up to the blank line. *)
Fixpoint copy_trailers (fuel : nat) (total : Z) : copying Z :=
  match fuel with
  | O => cfail Exhausted
  | S fuel =>
      trailer ← read_crlf_line;
      cwrite BodyIo trailer ;;
      let total := saturating_add 64 total (Z.of_nat (length trailer)) in
      if str_eqb trailer crlf then mret total else copy_trailers fuel total
  end.
(** [copy_chunked_body] *)
Fixpoint copy_chunked_loop (fuel : nat) (total : Z) : copying Z :=
  match fuel with
  | O => cfail Exhausted
  | S fuel =>
      line ← read_crlf_line;
      match chunk_size line with
      | None => cfail InvalidChunkSize
      | Some size =>
          cwrite BodyIo line ;;
          let total := saturating_add 64 total (Z.of_nat (length line)) in
          if size =? 0 then copy_trailers fuel total
          else
          n ← copy_exact_body size;
          let total := saturating_add 64 total n in
          terminator ← cread BodyIo 2;
          if negb (str_eqb terminator crlf) then cfail MissingChunkCrlf
          else
          cwrite BodyIo terminator ;;
          copy_chunked_loop fuel (saturating_add 64 total 2)
      end
  end.
Definition copy_chunked_body : copying Z := fun c => copy_chunked_loop (S (reader_size (cn_in c))) 0 c.

(** [copy_request_body] *)
Definition copy_request_body (body : RequestBody) : copying Z :=
  match body with
  | NoBody => mret 0
  | Fixed length => copy_exact_body length
  | Chunked => copy_chunked_body
  end.

(** ** The bodies of the framings *)

(** A line of at most [MAX_CHUNK_LINE] bytes, its CR LF included. *)
Definition crlf_line (l : list Z) : Prop :=
  exists t, l = t ++ crlf /\ contains crlf t = false /\ (length l <= MAX_CHUNK_LINE)%nat.
Inductive trailers : list Z -> Prop :=
| TrailersEnd : trailers crlf
| TrailersLine l t : crlf_line l -> l <> crlf -> trailers t -> trailers (l ++ t).
Inductive chunked : list Z -> Prop :=
| LastChunk l t : crlf_line l -> chunk_size l = Some 0 -> trailers t -> chunked (l ++ t)
| DataChunk l data rest : crlf_line l -> chunk_size l = Some (Z.of_nat (length data)) -> data <> [] -> chunked rest ->
    chunked (l ++ data ++ crlf ++ rest).
(** The bytes a framing delimits. *)
Definition framed (body : RequestBody) (b : list Z) : Prop :=
  match body with
  | NoBody => b = []
  | Fixed n => Z.of_nat (length b) = n
  | Chunked => chunked b
  end.

(** * The origin receives exactly one body

    What the copy sends is always what the client sent, in order; when it
    succeeds it is one body of its framing, and nothing past it was read. *)

(** ** What a step moves *)

(** From a connection that can serve at most [n] bytes, of which [pend] are
    read and not yet written, [m] sends [out] and leaves [pend'] pending, in the
    order of the client's bytes; a failure has sent a prefix of them. *)
Definition moves {A} (n : nat) (pend : list Z) (m : copying A) (Q : A -> list Z -> list Z -> Prop) : Prop :=
  forall c, (reader_size (cn_in c) + length pend <= n)%nat ->
  match m c with
  | (Ok a, c') => exists out pend', cn_sent c' = cn_sent c ++ out /\
      pend ++ Reader.bytes (cn_in c) = out ++ pend' ++ Reader.bytes (cn_in c') /\
      (reader_size (cn_in c') + length pend' + length out <= n)%nat /\ Q a out pend'
  | (Err e, c') => e <> Exhausted /\ exists out rest, cn_sent c' = cn_sent c ++ out /\
      pend ++ Reader.bytes (cn_in c) = out ++ rest
  end.

Lemma moves_ret {A} n pend (a : A) (Q : A -> list Z -> list Z -> Prop) : Q a [] pend -> moves n pend (mret (M := conn_m BodyError) a) Q.
Proof. intros H c Hn. exists [], pend. rewrite app_nil_r. split_and!; cbn; [done|done|lia|done]. Qed.
Lemma moves_fail {A} n pend e (Q : A -> list Z -> list Z -> Prop) : e <> Exhausted -> moves n pend (cfail e) Q.
Proof. intros H c Hn. split; [done|]. exists []. rewrite app_nil_r. eauto. Qed.
Lemma moves_bind {A B} n pend (m : copying A) (k : A -> copying B) R Q :
  moves n pend m R ->
  (forall a out pend', R a out pend' -> moves (n - length out) pend' (k a) (fun b out2 p => Q b (out ++ out2) p)) ->
  moves n pend (m ≫= k) Q.
Proof.
  intros Hm Hk c Hn. specialize (Hm c Hn). unfold mbind, conn_bind. destruct (m c) as [[a|e] c1]; [|exact Hm].
  destruct Hm as (out & p & Es & Eb & Hs & HR). specialize (Hk a out p HR c1 ltac:(lia)).
  destruct (k a c1) as [[b|e] c2].
  - destruct Hk as (out2 & p2 & Es2 & Eb2 & Hs2 & HQ). exists (out ++ out2), p2.
    rewrite Es2, Es, Eb, Eb2, length_app, <- !app_assoc. split_and!; [done|done|lia|done].
  - destruct Hk as (He & out2 & rest & Es2 & Eb2). split; [done|]. exists (out ++ out2), rest.
    rewrite Es2, Es, Eb, Eb2, <- !app_assoc. done.
Qed.
Lemma moves_weaken {A} n pend (m : copying A) (Q Q' : A -> list Z -> list Z -> Prop) :
  moves n pend m Q -> (forall a out p, Q a out p -> Q' a out p) -> moves n pend m Q'.
Proof.
  intros Hm HQ c Hn. specialize (Hm c Hn). destruct (m c) as [[a|e] c']; [|done].
  destruct Hm as (out & p & ? & ? & ? & ?). exists out, p. split_and!; auto.
Qed.
(** A step whose fuel is the size of what is left to read. *)
Lemma moves_sized {A} n (f : nat -> copying A) Q :
  (forall k, moves k [] (f k) Q) -> moves n [] (fun c => f (reader_size (cn_in c)) c) Q.
Proof.
  intros Hm c Hn. specialize (Hm (reader_size (cn_in c)) c). cbn [length] in Hm. rewrite Nat.add_0_r in Hm. specialize (Hm ltac:(done)).
  destruct (f _ c) as [[a|e] c']; [|done]. destruct Hm as (out & p & ? & ? & ? & ?). exists out, p.
  cbn [length] in Hn. split_and!; [done|done|lia|done].
Qed.

Lemma read_taken n r a r' : (0 < n)%nat -> a <> [] -> Reader.read n r = (Ok a, r') ->
  Reader.bytes r = a ++ Reader.bytes r' /\ (reader_size r' + length a <= reader_size r)%nat /\ (length a <= n)%nat.
Proof.
  intros Hn Ha H. destruct r as [|[c|e] r]; [|unfold Reader.read in H|done].
  { injection H as <- _. done. }
  destruct (Nat.leb_spec (length c) n) as [Hle|Hgt]; injection H as <- <-.
  - unfold reader_size. cbn [sum_list_with]. destruct c as [|b c]; [done|]. split_and!; [done|lia|done].
  - assert (length (drop n c) = length c - n)%nat as Hl by apply length_drop.
    destruct n as [|n]; [lia|]. destruct c as [|b c]; [simpl in Hgt; lia|]. cbn [take drop] in *.
    unfold reader_size. cbn [sum_list_with]. rewrite Hl. cbn [length] in *. rewrite length_take. split_and!; [|lia|lia].
    destruct (drop n c) as [|x t] eqn:E; [simpl in Hl; lia|]. cbn [Reader.bytes]. rewrite <- E.
    change ((b :: c) ++ Reader.bytes r = (b :: take n c) ++ drop n c ++ Reader.bytes r). cbn [app]. by rewrite app_assoc, take_drop.
Qed.
Lemma read_exact_taken n r a r' : read_exact n r = (Ok a, r') ->
  Reader.bytes r = a ++ Reader.bytes r' /\ (reader_size r' + length a <= reader_size r)%nat /\ length a = n.
Proof.
  unfold read_exact. assert (H : forall fuel k r acc, (k <= fuel)%nat -> read_exact_from fuel k r acc = (Ok a, r') ->
    exists b, a = acc ++ b /\ Reader.bytes r = b ++ Reader.bytes r' /\ (reader_size r' + length b <= reader_size r)%nat /\ length b = k).
  { clear. induction fuel as [|fuel IH]; intros k r acc Hk.
    - replace k with 0%nat by lia. cbn. intros [= -> ->]. exists []. rewrite app_nil_r. split_and!; cbn; [done|done|lia|done].
    - destruct k as [|k]; [cbn; intros [= -> ->]; exists []; rewrite app_nil_r; split_and!; cbn; [done|done|lia|done]|].
      cbn [read_exact_from]. destruct (Reader.read (S k) r) as [[[|x c]|e] r1] eqn:Er; [done| |done]. intros H.
      destruct (read_taken (S k) r (x :: c) r1 ltac:(lia) ltac:(done) Er) as (Eb & Hs & Hl).
      apply IH in H as (b & -> & Eb' & Hs' & Hl'); [|cbn in *; lia]. exists ((x :: c) ++ b).
      rewrite Eb, Eb', length_app, <- !app_assoc. split_and!; [done|done|lia|lia]. }
  intros E. apply H in E as (b & -> & ?); [|lia]. done.
Qed.
Lemma moves_read n pend k :
  moves n pend (cread BodyIo k) (fun a out p => out = [] /\ p = pend ++ a /\ length a = k).
Proof.
  intros c Hn. unfold cread. destruct (read_exact k (cn_in c)) as [[a|e] r] eqn:E; cbn.
  - apply read_exact_taken in E as (Eb & Hs & Hl). exists [], (pend ++ a). cbn. rewrite app_nil_r, length_app, Eb, <- app_assoc.
    split_and!; [done|done|lia|done|done|done].
  - split; [done|]. exists []. rewrite app_nil_r. eauto.
Qed.
Lemma moves_read_some {A} n pend k (f : list Z -> copying A) Q :
  (0 < k)%nat -> (forall a, a <> [] -> (length a <= k)%nat -> moves n (pend ++ a) (f a) Q) ->
  moves n pend (buf ← cread_up_to k; if is_empty buf then cfail BodyTooShort else f buf) Q.
Proof.
  intros Hk Hf c Hn. unfold mbind, conn_bind, cread_up_to. destruct (Reader.read k (cn_in c)) as [[a|e] r] eqn:E; cbn.
  - destruct a as [|x a]; cbn [is_empty]; [split; [done|]; exists []; rewrite app_nil_r; eauto|].
    destruct (read_taken k (cn_in c) (x :: a) r Hk ltac:(done) E) as (Eb & Hs & Hl).
    specialize (Hf (x :: a) ltac:(done) Hl (mkConn r (cn_sent c) (cn_writes c))). cbn [cn_in cn_sent] in Hf.
    rewrite length_app in Hf. specialize (Hf ltac:(lia)). rewrite <- app_assoc, <- Eb in Hf. exact Hf.
  - split; [done|]. exists []. rewrite app_nil_r. eauto.
Qed.
Lemma moves_write n a rest : moves n (a ++ rest) (cwrite BodyIo a) (fun _ out p => out = a /\ p = rest).
Proof.
  intros c Hn. rewrite length_app in Hn. unfold cwrite. destruct (cn_writes c) as [|[] w]; cbn.
  - exists a, rest. rewrite <- app_assoc. split_and!; [done|done|lia|done|done].
  - exists a, rest. rewrite <- app_assoc. split_and!; [done|done|lia|done|done].
  - split; [done|]. exists []. rewrite app_nil_r. eauto.
Qed.
Lemma moves_write_all n a : moves n a (cwrite BodyIo a) (fun _ out p => out = a /\ p = []).
Proof. rewrite <- (app_nil_r a) at 1. apply moves_write. Qed.
Lemma moves_send {A} n a (k : unit -> copying A) Q :
  ((length a <= n)%nat -> moves (n - length a) [] (k tt) (fun b out p => Q b (a ++ out) p)) ->
  moves n a (cwrite BodyIo a ≫= k) Q.
Proof.
  intros Hk c Hn. apply (moves_bind n a _ _ (fun _ out p => out = a /\ p = [])); [apply moves_write_all| |done].
  intros [] ? ? [-> ->]. apply Hk. lia.
Qed.

(** ** The loops *)

Lemma copy_exact_loop_moves n fuel remaining :
  (n < fuel)%nat -> 0 <= remaining ->
  moves n [] (copy_exact_loop fuel remaining) (fun _ out p => p = [] /\ Z.of_nat (length out) = remaining).
Proof.
  revert n remaining; induction fuel as [|fuel IH]; intros n remaining Hf Hr; [lia|]. cbn [copy_exact_loop].
  destruct (Z.leb_spec remaining 0); [apply moves_ret; split; [done|cbn; lia]|].
  apply moves_read_some; [lia|]. intros a Ha Hl. cbn [app]. apply moves_send. intros Hn.
  assert (0 < length a)%nat by (destruct a; [done|cbn; lia]).
  eapply moves_weaken; [apply IH; lia|]. intros _ out p [-> Ho]. split; [done|]. rewrite length_app. lia.
Qed.
Lemma copy_exact_body_moves n remaining :
  0 <= remaining ->
  moves n [] (copy_exact_body remaining) (fun total out p => p = [] /\ total = remaining /\ Z.of_nat (length out) = remaining).
Proof.
  intros Hr. apply (moves_sized n (fun k => copy_exact_loop (S k) remaining ;; mret remaining)). intros k.
  eapply moves_bind; [by apply copy_exact_loop_moves; [lia|]|]. intros _ out p [-> Ho]. apply moves_ret. by rewrite app_nil_r.
Qed.

(** Lines. *)
(** A line as the loop sees it: it ends at its first CR LF. *)
Lemma crlf_line_first l :
  crlf_line l <-> ends_with crlf l = true /\ (forall p s, l = p ++ s -> s <> [] -> ends_with crlf p = false) /\
    (length l <= MAX_CHUNK_LINE)%nat.
Proof.
  unfold crlf_line. split.
  - intros (t & -> & Hc & Hl). split_and!; [apply ends_with_spec; eauto| |done]. intros p s E Hs.
    apply not_true_iff_false. intros (u & ->)%ends_with_spec. apply not_true_iff_false in Hc. apply Hc, contains_spec. exists u.
    destruct s as [|x s] using rev_ind; [done|]. clear IHs Hs. rewrite app_assoc in E. change crlf with ([13] ++ [10]) in E at 1.
    rewrite app_assoc in E. apply app_inj_tail in E as [E _]. destruct s as [|y s] using rev_ind.
    + rewrite app_nil_r in E. change crlf with ([13] ++ [10]) in E. rewrite app_assoc in E. by apply app_inj_tail in E as [_ ?].
    + clear IHs. rewrite app_assoc in E. apply app_inj_tail in E as [-> _]. exists s. by rewrite <- app_assoc.
  - intros (He & Hf & Hl). apply ends_with_spec in He as [t ->]. exists t. split_and!; [done| |done].
    apply not_true_iff_false. intros (a & b & ->)%contains_spec.
    assert (ends_with crlf (a ++ crlf) = false) as Hn.
    { apply (Hf (a ++ crlf) (b ++ crlf)); [by rewrite <- !app_assoc|by destruct b]. }
    apply not_true_iff_false in Hn. apply Hn, ends_with_spec. eauto.
Qed.
Lemma crlf_line_loop_moves n room line :
  (forall p s, line = p ++ s -> ends_with crlf p = false) -> (length line + room <= MAX_CHUNK_LINE)%nat ->
  moves n line (crlf_line_loop room line) (fun l out p => out = [] /\ p = l /\ crlf_line l).
Proof.
  revert n line; induction room as [|room IH]; intros n line Hp Hl; cbn [crlf_line_loop]; [by apply moves_fail|].
  eapply moves_bind; [apply moves_read|]. intros b ? ? (-> & -> & Hb). cbn [length app]. rewrite Nat.sub_0_r.
  destruct b as [|x [|]]; try done. destruct (ends_with crlf (line ++ [x])) eqn:E.
  - apply moves_ret. split_and!; [done|done|]. apply crlf_line_first. split_and!; [done| |rewrite length_app; cbn; lia].
    intros p s Ep Hs. destruct s as [|y s] using rev_ind; [done|]. rewrite app_assoc in Ep.
    apply app_inj_tail in Ep as [-> _]. by eapply Hp.
  - apply IH; [|rewrite length_app; cbn; lia]. intros p s Ep. destruct s as [|y s] using rev_ind.
    + rewrite app_nil_r in Ep. by subst.
    + rewrite app_assoc in Ep. apply app_inj_tail in Ep as [-> _]. by eapply Hp.
Qed.
Lemma read_crlf_line_moves n : moves n [] read_crlf_line (fun l out p => out = [] /\ p = l /\ crlf_line l).
Proof. apply crlf_line_loop_moves; [|done]. intros p s E. by destruct p. Qed.
(** A line is read, and then sent. *)
Lemma moves_line {A} n (k : list Z -> copying A) Q :
  (forall l, crlf_line l -> moves n l (k l) Q) -> moves n [] (read_crlf_line ≫= k) Q.
Proof.
  intros Hk. eapply moves_bind; [apply read_crlf_line_moves|]. intros l ? ? (-> & -> & Hl). cbn [length]. rewrite Nat.sub_0_r.
  by apply Hk.
Qed.
Lemma crlf_line_length l : crlf_line l -> (2 <= length l)%nat.
Proof. intros (t & -> & _). rewrite length_app. cbn. lia. Qed.
Lemma saturating_add_twice a b c : 0 <= b -> 0 <= c -> saturating_add 64 (saturating_add 64 a b) c = saturating_add 64 a (b + c).
Proof. unfold saturating_add. lia. Qed.

Lemma copy_trailers_moves n fuel total :
  (n < fuel)%nat ->
  moves n [] (copy_trailers fuel total)
    (fun r out p => p = [] /\ trailers out /\ r = saturating_add 64 total (Z.of_nat (length out))).
Proof.
  revert n total; induction fuel as [|fuel IH]; intros n total Hf; [lia|]. cbn [copy_trailers].
  apply moves_line. intros l Hl. pose proof (crlf_line_length l Hl). apply moves_send. intros Hn. cbv zeta.
  destruct (str_eqb l crlf) eqn:E.
  - apply str_eqb_eq in E. subst l. apply moves_ret. rewrite app_nil_r. split_and!; [done|constructor|done].
  - apply str_eqb_neq in E. eapply moves_weaken; [apply IH; lia|]. intros r out p (-> & Ht & ->).
    split_and!; [done|by constructor|]. rewrite saturating_add_twice by lia. f_equal. rewrite length_app. lia.
Qed.

Lemma chunk_size_fits l n : chunk_size l = Some n -> fits 64 n.
Proof. unfold chunk_size. case_match; [|done]. apply from_str_radix_fits. Qed.
Lemma copy_chunked_loop_moves n fuel total :
  (n < fuel)%nat ->
  moves n [] (copy_chunked_loop fuel total)
    (fun r out p => p = [] /\ chunked out /\ r = saturating_add 64 total (Z.of_nat (length out))).
Proof.
  revert n total; induction fuel as [|fuel IH]; intros n total Hf; [lia|]. cbn [copy_chunked_loop].
  apply moves_line. intros l Hl. pose proof (crlf_line_length l Hl).
  destruct (chunk_size l) as [size|] eqn:Es; [|by apply moves_fail]. pose proof (chunk_size_fits _ _ Es) as [Hs _].
  apply moves_send. intros Hn. cbv zeta. destruct (Z.eqb_spec size 0) as [->|Hne].
  - eapply moves_weaken; [apply copy_trailers_moves; lia|]. intros r out p (-> & Ht & ->).
    split_and!; [done|by apply LastChunk|]. rewrite saturating_add_twice, length_app by lia. f_equal. lia.
  - eapply moves_bind; [by apply copy_exact_body_moves|]. intros ? data ? (-> & -> & Hd).
    eapply moves_bind; [apply moves_read|]. intros term ? ? (-> & -> & _). cbn [app length].
    destruct (str_eqb term crlf) eqn:Et; [|by apply moves_fail]. apply str_eqb_eq in Et as ->. cbn [negb].
    apply moves_send. intros Hn2. eapply moves_weaken; [apply IH; cbn in *; lia|]. intros r out p (-> & Hc & ->).
    rewrite <- ?app_assoc. split_and!; [done| |].
    + apply DataChunk; [done|by rewrite Es, Hd| |done]. intros ->. cbn in Hd. lia.
    + rewrite !saturating_add_twice by lia. f_equal. rewrite !length_app. cbn [length crlf]. lia.
Qed.

Definition body_fits (body : RequestBody) : Prop := match body with Fixed n => fits 64 n | _ => True end.
(** Whatever happens, the origin receives a prefix of what the client sends; a
    copy that succeeds has forwarded one body. *)
Lemma copy_request_body_moves n body :
  body_fits body ->
  moves n [] (copy_request_body body)
    (fun total out p => p = [] /\ framed body out /\ total = saturating_add 64 0 (Z.of_nat (length out))).
Proof.
  intros Hb. destruct body as [|len|]; cbn [copy_request_body].
  - by apply moves_ret.
  - destruct Hb as [Hb1 Hb2]. eapply moves_weaken; [by apply copy_exact_body_moves|]. intros total out p (-> & -> & Ho).
    split_and!; [done|exact Ho|]. rewrite Ho. unfold saturating_add. lia.
  - apply (moves_sized n (fun k => copy_chunked_loop (S k) 0)). intros k. apply copy_chunked_loop_moves. lia.
Qed.

(** ** A well-formed body is forwarded *)

Lemma bytes_size r : (length (Reader.bytes r) <= reader_size r)%nat.
Proof.
  induction r as [|[[|b c]|e] r IH]; unfold reader_size in *; cbn [Reader.bytes sum_list_with length]; try lia.
  rewrite length_app. cbn. lia.
Qed.
Lemma copy_exact_loop_forwards fuel b rest c :
  sound c -> Reader.bytes (cn_in c) = b ++ rest -> (length b <= fuel)%nat ->
  exists c', copy_exact_loop fuel (Z.of_nat (length b)) c = (Ok tt, c') /\ sound c' /\ Reader.bytes (cn_in c') = rest /\
    cn_sent c' = cn_sent c ++ b.
Proof.
  revert b c; induction fuel as [|fuel IH]; intros b c Hs Hb Hf.
  { destruct b; [|cbn in Hf; lia]. exists c. rewrite app_nil_r. done. }
  destruct b as [|x b]; [exists c; rewrite app_nil_r; done|]. cbn [copy_exact_loop].
  set (want := Z.to_nat (Z.min (Z.of_nat (length (x :: b))) (32 * 1024))).
  rewrite (proj2 (Z.leb_gt _ _)) by (cbn; lia). unfold mbind at 1, conn_bind at 1, cread_up_to.
  destruct (Reader.read_ok want (cn_in c)) as (a & r' & -> & Hl & He & Hm); [unfold want; cbn; lia|apply Hs|].
  cbn [map_err]. destruct a as [|y a]; [by rewrite He in Hb|]. cbn [is_empty]. destruct Hm as [Eb Hr']; [done|]. rewrite Hb in Eb.
  assert (exists b', x :: b = (y :: a) ++ b' /\ Reader.bytes r' = b' ++ rest) as (b' & E1 & E2).
  { exists (drop (length (y :: a)) (x :: b)). apply (app_eq_inv (x :: b) rest) in Eb as [(k & E1 & E2)|(k & E1 & E2)].
    - rewrite E1, drop_app_length. done.
    - assert (k = []) as ->; [|by rewrite app_nil_r in E1; rewrite E1, drop_all, app_nil_r; cbn in E2].
      apply (f_equal length) in E1. rewrite length_app in E1. unfold want in Hl. destruct k; [done|cbn in *; lia]. }
  destruct (exchanges_write BodyIo (y :: a) (Reader.bytes r') (mkConn r' (cn_sent c) (cn_writes c))) as (c1 & Ew & Hs1 & Hb1 & Hw1); [|done|].
  { split; [done|apply Hs]. }
  unfold mbind, conn_bind. rewrite Ew. rewrite E1, length_app.
  replace (Z.of_nat (length (y :: a) + length b') - Z.of_nat (length (y :: a))) with (Z.of_nat (length b')) by lia.
  destruct (IH b' c1) as (c2 & Ec & Hs2 & Hb2 & Hw2); [done|by rewrite Hb1|apply (f_equal length) in E1; rewrite length_app in E1; cbn in *; lia|].
  exists c2. rewrite Ec, Hw2, Hw1, <- app_assoc. done.
Qed.
Lemma copy_exact_body_forwards b rest :
  exchanges (copy_exact_body (Z.of_nat (length b))) (b ++ rest) (Ok (Z.of_nat (length b))) b rest.
Proof.
  intros c Hs Hb. unfold copy_exact_body, mbind, conn_bind.
  destruct (copy_exact_loop_forwards (S (reader_size (cn_in c))) b rest c Hs Hb) as (c' & -> & H); [|by exists c'].
  pose proof (bytes_size (cn_in c)). rewrite Hb, length_app in *. lia.
Qed.
Lemma crlf_line_loop_reads room acc l rest :
  l <> [] -> (length l <= room)%nat -> ends_with crlf (acc ++ l) = true ->
  (forall p s, l = p ++ s -> s <> [] -> ends_with crlf (acc ++ p) = false) ->
  exchanges (crlf_line_loop room acc) (l ++ rest) (Ok (acc ++ l)) [] rest.
Proof.
  revert acc l; induction room as [|room IH]; intros acc l Hl Hr He Hp; [destruct l; [done|cbn in Hr; lia]|].
  destruct l as [|x l]; [done|]. cbn [crlf_line_loop].
  apply (exchanges_bind _ _ _ [x] [] (l ++ rest) _ []); [by apply (exchanges_read BodyIo 1 [x])|]. cbv beta zeta.
  destruct l as [|y l].
  - rewrite He. apply exchanges_ret.
  - rewrite (Hp [x] (y :: l)) by done. change (acc ++ x :: y :: l) with (acc ++ [x] ++ (y :: l)). rewrite app_assoc.
    apply IH; [done|cbn in *; lia|by rewrite <- app_assoc|].
    intros p s E Hs. rewrite <- app_assoc. apply (Hp ([x] ++ p) s); [cbn; by rewrite E|done].
Qed.
Lemma read_crlf_line_reads l rest : crlf_line l -> exchanges read_crlf_line (l ++ rest) (Ok l) [] rest.
Proof.
  intros Hl. pose proof (crlf_line_length l Hl). apply crlf_line_first in Hl as (He & Hp & Hlen).
  apply (crlf_line_loop_reads MAX_CHUNK_LINE []); [by intros ->; cbn in *; lia|done|done|exact Hp].
Qed.
Lemma exchanges_value {A} (m : copying A) input a a' out rest :
  exchanges m input (Ok a) out rest -> a = a' -> exchanges m input (Ok a') out rest.
Proof. by intros H <-. Qed.
Lemma exchanges_line {A} l (k : list Z -> copying A) rest r out rest' :
  crlf_line l -> exchanges (k l) rest r out rest' -> exchanges (read_crlf_line ≫= k) (l ++ rest) r out rest'.
Proof. intros Hl Hk. by apply (exchanges_bind _ _ _ l [] rest); [apply read_crlf_line_reads|]. Qed.
Lemma exchanges_send {A} a (k : unit -> copying A) rest r out rest' :
  exchanges (k tt) rest r out rest' -> exchanges (cwrite BodyIo a ≫= k) rest r (a ++ out) rest'.
Proof. intros Hk. eapply exchanges_bind; [apply exchanges_write|exact Hk]. Qed.

Lemma copy_trailers_forwards t rest :
  trailers t -> forall fuel total, (length t <= fuel)%nat ->
  exchanges (copy_trailers fuel total) (t ++ rest) (Ok (saturating_add 64 total (Z.of_nat (length t)))) t rest.
Proof.
  induction 1 as [|l t Hl Hne Ht IH]; intros fuel total Hf.
  - destruct fuel as [|fuel]; [cbn in Hf; lia|]. cbn [copy_trailers]. apply exchanges_line.
    { exists []. split_and!; [done|done|cbn; unfold MAX_CHUNK_LINE; lia]. }
    eapply exchanges_out; [apply exchanges_send, exchanges_ret|by rewrite app_nil_r].
  - pose proof (crlf_line_length l Hl). rewrite length_app in *. destruct fuel as [|fuel]; [lia|]. cbn [copy_trailers].
    rewrite <- app_assoc. apply exchanges_line; [done|]. apply exchanges_send. cbv zeta. apply str_eqb_neq in Hne. rewrite Hne.
    eapply exchanges_value; [apply IH; lia|]. rewrite saturating_add_twice by lia. f_equal. lia.
Qed.
Lemma copy_chunked_forwards b rest :
  chunked b -> forall fuel total, (length b <= fuel)%nat ->
  exchanges (copy_chunked_loop fuel total) (b ++ rest) (Ok (saturating_add 64 total (Z.of_nat (length b)))) b rest.
Proof.
  induction 1 as [l t Hl Hsz Ht|l data b' Hl Hsz Hd Hb IH]; intros fuel total Hf;
    pose proof (crlf_line_length l Hl); rewrite !length_app in *; (destruct fuel as [|fuel]; [lia|]); cbn [copy_chunked_loop];
    rewrite <- !app_assoc; apply exchanges_line; try done; rewrite Hsz; apply exchanges_send; cbv zeta.
  - change (0 =? 0) with true. cbv iota.
    eapply exchanges_value; [apply copy_trailers_forwards; [done|lia]|]. rewrite saturating_add_twice by lia. f_equal. lia.
  - rewrite (proj2 (Z.eqb_neq _ _)) by (destruct data; [done|cbn; lia]).
    eapply exchanges_bind; [apply copy_exact_body_forwards|].
    eapply (exchanges_bind _ _ _ crlf [] (b' ++ rest)); [by apply (exchanges_read BodyIo 2 crlf)|].
    rewrite str_eqb_refl. cbn [negb]. apply (exchanges_send crlf _ (b' ++ rest) _ b' rest).
    eapply exchanges_value; [apply IH; lia|]. rewrite !saturating_add_twice by lia. f_equal. cbn [length crlf]. lia.
Qed.
Lemma copy_request_body_forwards body b rest :
  body_fits body -> framed body b ->
  exchanges (copy_request_body body) (b ++ rest) (Ok (saturating_add 64 0 (Z.of_nat (length b)))) b rest.
Proof.
  intros Hf Hb. destruct body as [|n|]; cbn [framed copy_request_body] in *.
  - subst b. apply exchanges_ret.
  - subst n. destruct Hf as [_ Hf]. replace (saturating_add _ _ _) with (Z.of_nat (length b)) by (unfold saturating_add; lia).
    apply copy_exact_body_forwards.
  - intros c Hs Hc. unfold copy_chunked_body.
    apply (copy_chunked_forwards b rest Hb (S (reader_size (cn_in c))) 0); [|done..].
    pose proof (bytes_size (cn_in c)). rewrite Hc, length_app in *. lia.
Qed.

(** What a copy from [c] has done. *)
Definition body_outcome (body : RequestBody) (c : Conn) (o : result BodyError Z * Conn) : Prop :=
  match o with
  | (Ok total, c') => exists b, framed body b /\ cn_sent c' = cn_sent c ++ b /\
      Reader.bytes (cn_in c) = b ++ Reader.bytes (cn_in c') /\ total = Z.min (Z.of_nat (length b)) (2 ^ 64 - 1)
  | (Err e, c') => e <> Exhausted /\ exists out rest, cn_sent c' = cn_sent c ++ out /\ Reader.bytes (cn_in c) = out ++ rest
  end.

(** The origin receives the body and nothing else. For every client and
    every failure the origin is sent a prefix of what the client sends, in
    order, and the copy ends; when it succeeds, what was sent is exactly one
    body of the request's framing (nothing, Content-Length bytes, or one chunked
    body up to the blank line after its trailers), nothing past it has been
    read, so a pipelined request is not forwarded, and the reported count is its
    length; and a well-formed body of any fragmentation is forwarded, whatever
    follows it. *)
Theorem request_body_exact (body : RequestBody) (c : Conn) :
  body_fits body ->
  body_outcome body c (copy_request_body body c) /\
  (forall b rest, sound c -> framed body b -> Reader.bytes (cn_in c) = b ++ rest ->
   exists c', copy_request_body body c = (Ok (Z.min (Z.of_nat (length b)) (2 ^ 64 - 1)), c') /\
     cn_sent c' = cn_sent c ++ b /\ Reader.bytes (cn_in c') = rest).
Proof.
  intros Hb. split.
  - pose proof (copy_request_body_moves (reader_size (cn_in c)) body Hb c ltac:(cbn; lia)) as H.
    unfold body_outcome. destruct (copy_request_body body c) as [[total|e] c']; [|done]. destruct H as (b & p & Es & Eb & _ & -> & Hf & ->).
    exists b. split_and!; done.
  - intros b rest Hs Hf Hr. destruct (copy_request_body_forwards body b rest Hb Hf c Hs Hr) as (c' & E & _ & E1 & E2).
    by exists c'.
Qed.

(** ** Concrete bodies *)

(** Two chunks with a trailer, then a pipelined request. *)
Definition chunked_demo : list Z :=
  lit "4" ++ crlf ++ lit "test" ++ crlf ++ lit "3;x=y" ++ crlf ++ lit "123" ++ crlf ++ lit "0" ++ crlf ++
  lit "X-Trailer: done" ++ crlf ++ crlf.
Definition client_demo : Conn := mkConn [Ok (take 9 chunked_demo); Ok (drop 9 chunked_demo ++ lit "GET /next HTTP/1.1")] [] [].
Lemma crlf_line_demo t : contains crlf t = false -> (length (t ++ crlf) <=? MAX_CHUNK_LINE)%nat = true -> crlf_line (t ++ crlf).
Proof. intros Hc Hl. exists t. split_and!; [done|done|by apply Nat.leb_le]. Qed.
Lemma chunked_demo_ok : chunked chunked_demo.
Proof.
  apply (DataChunk (lit "4" ++ crlf) (lit "test")); [by apply crlf_line_demo; vm_compute|by vm_compute|done|].
  apply (DataChunk (lit "3;x=y" ++ crlf) (lit "123")); [by apply crlf_line_demo; vm_compute|by vm_compute|done|].
  apply (LastChunk (lit "0" ++ crlf)); [by apply crlf_line_demo; vm_compute|by vm_compute|].
  apply (TrailersLine (lit "X-Trailer: done" ++ crlf)); [by apply crlf_line_demo; vm_compute|by vm_compute|constructor].
Qed.
Lemma request_body_exact_witness :
  exists c', copy_request_body Chunked client_demo = (Ok (Z.min (Z.of_nat (length chunked_demo)) (2 ^ 64 - 1)), c') /\
    cn_sent c' = cn_sent client_demo ++ chunked_demo /\ Reader.bytes (cn_in c') = lit "GET /next HTTP/1.1".
Proof.
  apply (proj2 (request_body_exact Chunked client_demo I) chunked_demo (lit "GET /next HTTP/1.1"));
    [split; [reflexivity|constructor]|apply chunked_demo_ok|vm_compute; reflexivity].
Defined.
(** A chunk size with a sign is accepted, and forwarded as it was written. *)
Example chunk_size_plus : chunk_size (lit "+5" ++ crlf) = Some 5 /\ chunk_size (lit "5 ;ext" ++ crlf) = Some 5 /\ chunk_size (lit "0x5" ++ crlf) = None.
Proof. by vm_compute. Qed.
