(* ===== verification/Inbound.v ===== *)
(** * Inbound: what the TCP handlers do alike

    src/src/inbound/socks5.rs and src/src/inbound/http.rs have the same trace
    fields, the same report, the same relay with its final report and the same
    second half of a routed tunnel; they differ in the protocol name of their
    reports. With the reasoning both share: what may happen before, while and
    after a connection permit is held. *)

From Stdlib Require Import ZArith Lia String.
From stdpp Require Import prelude strings list gmap.
From S2P Require Import Sniff.
From S2P Require Import Prelude RustStr Net RustFmt Util Frame Stream Conn Domain Policy Model Engine Outbound Io Handler.

(** The [protocol] of a handler's reports. *)
Class Protocol := protocol_name : str.

Section Inbound.
Context {N : Ipnet} {B : BookApi} {D : Chrono} {O : ChronoOrder D} {B64 : Base64}.
Context {R : Rustls} {HP : Httparse} {UC : UrlCrate}.

(** What the handler meets outside: the engine at each of its accesses (other
    tasks act on it in between), the date, the network, the clock of a capture,
    what a passive observer saw, and the time the handler took. *)
Record Outside := mkOutside {
  ou_auth : Engine; ou_decide : Engine; ou_acquire : Engine; ou_route : Engine; ou_report : Engine;
  ou_today : NaiveDate; ou_envs : nat -> Env; ou_now : Z; ou_capture : CaptureEnv; ou_capture_start : Z;
  ou_observed : SniffObservation; ou_peer : SocketAddr; ou_duration : Z
}.

Record TraceFields := mkFields {
  tf_username : option str; tf_target_host : option str; tf_target_port : option Z; tf_decision : option str;
  tf_egress : option str; tf_chain_member : option str; tf_attempts : option Z; tf_sniff : option SniffObservation;
  tf_policy : option PolicyAttribution; tf_result : TraceResult; tf_failure_stage : option str; tf_message : option str;
  tf_bytes_up : Z; tf_bytes_down : Z
}.
(** The failing exits: the fields given, the rest as [TraceFields::default()]. *)
Definition failed (user : option str) (target : option (str * Z)) (decision : option str) (attempts : option Z)
    (sniff : option SniffObservation) (policy : option PolicyAttribution) (stage message : str) : TraceFields :=
  mkFields user (fst <$> target) (snd <$> target) decision None None attempts sniff policy TraceError (Some stage)
    (Some message) 0 0.

Context {PR : Protocol}.

(** [report_trace] *)
Definition candidate (ctx : Ctx) (o : Outside) (f : TraceFields) : TraceCandidate :=
  let traffic :=
    match tf_target_host f, tf_target_port f with
    | Some host, Some port =>
        let identity := identity_new host port in
        let identity := match tf_policy f with Some p => with_policy identity p | None => identity end in
        Some (match tf_sniff f with Some s => with_observation identity s | None => identity end)
    | _, _ => None
    end in
  mkCandidate (cx_listener ctx) protocol_name (Some (display_socket (ou_peer o))) (tf_username f) (tf_target_host f)
    (tf_target_port f) traffic (tf_sniff f) (tf_decision f) (tf_egress f) (tf_chain_member f) (tf_attempts f)
    (tf_result f) (tf_failure_stage f) (tf_message f) (engine_version (ou_report o)) (ou_duration o).
Definition report_actions (ctx : Ctx) (o : Outside) (f : TraceFields) : list action :=
  [RecordListener (tf_bytes_up f) (tf_bytes_down f)] ++
  match tf_sniff f with Some s => [RecordSniff (outcome s)] | None => [] end ++
  match (match tf_egress f with Some e => Some e | None => tf_decision f end) with
  | Some d => if str_eqb d (lit "block") then [] else [RecordEgress d (tf_bytes_up f) (tf_bytes_down f)]
  | None => []
  end ++
  (if cx_consumers ctx then [Report (candidate ctx o f)] else []).
Definition report_trace (ctx : Ctx) (o : Outside) (f : TraceFields) : handler unit := acts (report_actions ctx o f).
(** A report that ends the handler with [return Ok(())]. *)
Definition report_and_return {A} (ctx : Ctx) (o : Outside) (f : TraceFields) : handler A :=
  report_trace ctx o f ;; halt Return.

(** After the splice: the byte counts reported, with an error's stage. *)
Definition relayed_fields {E} (user host : str) (port : Z) (decision : str) (egress : EgressInfo) (sniff : option SniffObservation)
    (policy : PolicyAttribution) (r : result E SpliceStats) : TraceFields :=
  let chained {A} (x : A) : option A := match ei_chain_id egress with Some _ => Some x | None => None end in
  let '(result, stage, message, up, down) :=
    match r with
    | Ok s => (TraceOk, None, None, ss_bytes_up s, ss_bytes_down s)
    | Err _ => (TraceError, Some (lit "splice"), Some (lit "tunnel io failed"), 0, 0)
    end in
  mkFields (Some user) (Some host) (Some port) (Some decision) (chained (ei_label egress)) (ei_member_id egress)
    (chained (ei_attempts egress)) sniff (Some policy) result stage message up down.
(** The end of a relay: the permit is dropped, the report, the result. *)
Definition finish {E} (ctx : Ctx) (o : Outside) (user host : str) (port : Z) (decision : str) (policy : PolicyAttribution)
    (egress : EgressInfo) (sniff : option SniffObservation) (r : result E SpliceStats) : handler unit :=
  release ;;
  report_trace ctx o (relayed_fields user host port decision egress sniff policy r) ;;
  match r with Ok _ => mret tt | Err _ => halt RelayFailed end.
(** The relay with the egress guard held, then its end. *)
Definition tunnel (ctx : Ctx) (o : Outside) (user host : str) (port : Z) (decision : str) (policy : PolicyAttribution)
    (a : AuthOk) (t : Tunnel) (egress : EgressInfo) (sniff : option SniffObservation) : handler unit :=
  with_egress (ei_label egress)
    (r ← relay (tn_conn t) (ao_up_rate a) (ao_down_rate a);
     finish ctx o user host port decision policy egress sniff r).

(** Its capture of the client's first bytes; it always ends ([capture_prefix]). *)
Definition capture (ctx : Ctx) (o : Outside) (user host : str) (port : Z) (first : ResolvedDecision) : handler CapturedPrefix := fun w =>
  match capture_prefix (cn_in (wd_conn w)) (sc_max_bytes (cx_sniff ctx)) (sc_timeout_ms (cx_sniff ctx)) (ou_capture_start o)
          (ou_capture o) with
  | Some (Ok (cap, rd)) =>
      (Ok cap, mkWorld (mkConn rd (cn_sent (wd_conn w)) (cn_writes (wd_conn w))) (wd_permit w) (wd_log w))
  | Some (Err _) =>
      (report_trace ctx o (failed (Some user) (Some (host, port)) (Some (decision_label (rd_decision first))) None None
         (Some (attribution first)) (lit "sniff_read") (lit "route sniff read failed")) ;; halt IoFailed) w
  | None => (Err IoFailed, w)
  end.

(** [PrefixedIo::new] around the client stream for the rest of the handler *)
Definition with_prefix {A} (prefix : list Z) (m : handler A) : handler A := fun w =>
  m (mkWorld (mkConn (unread (prefixed_new prefix (cn_in (wd_conn w)))) (cn_sent (wd_conn w)) (cn_writes (wd_conn w)))
       (wd_permit w) (wd_log w)).

(** The rest of [tunnel_connect_route] once the client has its answer. *)
Definition route_tunnel (ctx : Ctx) (o : Outside) (user host : str) (port : Z) (a : AuthOk) (first : ResolvedDecision)
    : handler unit :=
  captured ← capture ctx o user host port first;
  let resolved := engine_decide_with_sniff (ou_route o) user host (captured_observation captured ≫= obs_host) in
  let decision := decision_label (rd_decision resolved) in
  let policy := attribution resolved in
  match rd_decision resolved with
  | Block =>
      report_and_return ctx o (failed (Some user) (Some (host, port)) (Some decision) None (captured_observation captured)
        (Some policy) (lit "policy") (lit "blocked by requested or sniffed target policy"))
  | d =>
      act (Dialled d host port) ;;
      match connect (ou_envs o) (ou_now o) d host port (cx_egress ctx) with
      | (Err e, _) =>
          report_and_return ctx o (failed (Some user) (Some (host, port)) (Some decision) (chain_attempts e)
            (captured_observation captured) (Some policy) (failure_stage e) (lit "upstream connect failed"))
      | (Ok (t, egress), _) =>
          with_prefix (bytes captured)
            (tunnel ctx o user host port decision policy a t egress (captured_observation captured))
      end
  end.

(** ** Reasoning *)

(** Records and reports: nothing leaves the node. *)
Definition passive (a : action) : Prop :=
  match a with
  | Authenticated _ | RecordListener _ _ | RecordSniff _ | RecordEgress _ _ _ | Report _ | Logged _ _ _ => True
  | _ => False
  end.

Lemma report_passive ctx o f : Forall passive (report_actions ctx o f).
Proof.
  unfold report_actions. rewrite !Forall_app. split_and!; repeat case_match; repeat constructor.
Qed.
Lemma does_report P ctx o f : (forall a, passive a -> P a) -> does P (fun _ => True) (report_trace ctx o f).
Proof. intros H. apply does_acts; [|done]. eapply Forall_impl; [apply report_passive|done]. Qed.
Lemma does_report_return {A} P (Q : A -> Prop) ctx o f : (forall a, passive a -> P a) -> does P Q (report_and_return ctx o f).
Proof. intros H. apply does_seq; [by apply does_report|intros; apply does_halt]. Qed.

(** ** With a permit *)

(** What may happen while [user] holds the permit for a request: dials follow a
    decision for that user and target that does not block. *)
Definition while_held (o : Outside) (user host : str) (port : Z) (a : action) : Prop :=
  match a with
  | Dialled d h p => h = host /\ p = port /\ d <> Block /\
      exists e sniffed, e ∈ [ou_decide o; ou_route o] /\ d = rd_decision (engine_decide_with_sniff e user host sniffed)
  | Acquired _ | Released _ | Associate _ | ListenerOpen | ListenerClose => False
  | _ => True
  end.
(** What may happen after the permit is dropped. *)
Definition after_release (a : action) : Prop := match a with EgressClose _ => True | a => passive a end.

Lemma passive_held o user host port a : passive a -> while_held o user host port a.
Proof. by destruct a. Qed.
Lemma passive_after a : passive a -> after_release a.
Proof. by destruct a. Qed.

Lemma does_relay P target up down : (forall u d, P (Relayed u d)) -> does P (fun _ => True) (relay target up down).
Proof.
  intros HP' w. unfold relay. destruct (splice _ _ _ _ _ _) as [[[r u] d]|].
  - exists [Relayed u d]. cbn. split_and!; try done. by constructor.
  - exists []. cbn. rewrite app_nil_r. by split_and!.
Qed.

Lemma finish_holding {E} o user host port p ctx decision policy egress sniff (r : result E SpliceStats) :
  holding (while_held o user host port) after_release p (finish ctx o user host port decision policy egress sniff r).
Proof.
  unfold finish. apply holding_release. intros _. apply does_seq; [apply does_report, passive_after|]. intros _.
  destruct r; [by apply does_ret|apply does_halt].
Qed.
Lemma tunnel_holding o user host port p ctx decision policy a t egress sniff :
  holding (while_held o user host port) after_release p (tunnel ctx o user host port decision policy a t egress sniff).
Proof.
  unfold tunnel. apply holding_with_egress; try done. apply holding_seq; [by apply does_relay|]. intros r. apply finish_holding.
Qed.
Lemma with_prefix_holding {A} P P' p prefix (m : handler A) : holding P P' p m -> holding P P' p (with_prefix prefix m).
Proof. intros Hm w Hp. exact (Hm (mkWorld _ (wd_permit w) (wd_log w)) Hp). Qed.
Lemma with_prefix_does {A} P (Q : A -> Prop) prefix (m : handler A) : does P Q m -> does P Q (with_prefix prefix m).
Proof. intros Hm w. exact (Hm (mkWorld _ (wd_permit w) (wd_log w))). Qed.

Lemma capture_does o user host port ctx first :
  does (while_held o user host port) (fun _ => True) (capture ctx o user host port first).
Proof.
  intros w. unfold capture. destruct (capture_prefix _ _ _ _ _) as [[[cap rd]|e]|].
  - exists []. cbn. rewrite app_nil_r. by split_and!.
  - apply (does_seq (while_held o user host port) (fun _ : CapturedPrefix => True) (report_trace ctx o _) (fun _ => halt IoFailed));
      [apply does_report, passive_held|intros; apply does_halt].
  - exists []. cbn. rewrite app_nil_r. by split_and!.
Qed.

Lemma holding_report o user host port p ctx f :
  holding (while_held o user host port) after_release p (report_and_return (A := unit) ctx o f).
Proof. apply (holding_does _ _ _ (fun _ => True)), does_report_return, passive_held. Qed.
Lemma dialled_holding o user host port p d e sniffed (k : unit -> handler unit) :
  d <> Block -> e ∈ [ou_decide o; ou_route o] -> d = rd_decision (engine_decide_with_sniff e user host sniffed) ->
  holding (while_held o user host port) after_release p (k tt) ->
  holding (while_held o user host port) after_release p (act (Dialled d host port) ≫= k).
Proof.
  intros Hd He E Hk. apply holding_seq; [apply does_act; [|done]|by intros []].
  cbn. split_and!; eauto.
Qed.

Lemma route_tunnel_holding ctx o user host port p a first :
  holding (while_held o user host port) after_release p (route_tunnel ctx o user host port a first).
Proof.
  unfold route_tunnel. apply holding_seq; [apply capture_does|]. intros cap. cbv zeta. set (rd := engine_decide_with_sniff (ou_route o) user host _).
  assert (Hgo : forall d, d <> Block -> d = rd_decision rd ->
    holding (while_held o user host port) after_release p
      (act (Dialled d host port) ;;
       match connect (ou_envs o) (ou_now o) d host port (cx_egress ctx) with
       | (Ok (t, egress), _) =>
           with_prefix (bytes cap) (tunnel ctx o user host port (decision_label (rd_decision rd)) (attribution rd) a t egress (captured_observation cap))
       | (Err e, _) => report_and_return ctx o (failed (Some user) (Some (host, port)) (Some (decision_label (rd_decision rd))) (chain_attempts e)
            (captured_observation cap) (Some (attribution rd)) (failure_stage e) (lit "upstream connect failed"))
       end)).
  { intros d Hd E. apply (dialled_holding o user host port p d (ou_route o) (captured_observation cap ≫= obs_host)); [done|set_solver|exact E|].
    destruct (connect _ _ _ _ _ _) as [[[t egress]|err] ?]; [apply with_prefix_holding, tunnel_holding|].
    apply holding_report. }
  destruct (rd_decision rd) as [|u|c|] eqn:E; try (by apply Hgo).
  apply holding_report.
Qed.

(** What handling a CONNECT request adds to the log. *)
Definition connect_outcome (o : Outside) (user host : str) (port : Z) (a : AuthOk) (w w' : World) : Prop :=
  (exists l, wd_permit w' = None /\ wd_log w' = wd_log w ++ l /\ Forall passive l) \/
  (rd_decision (engine_decide_with_sniff (ou_decide o) user host None) <> Block /\
   is_ok (acquire_connection (ou_acquire o) user (ao_max_connections a)) = true /\
   exists l, wd_log w' = wd_log w ++ [Acquired user] ++ l /\
     kept_or_released (while_held o user host port) after_release (mkPermit user)
       (mkWorld (wd_conn w) (Some (mkPermit user)) (wd_log w ++ [Acquired user])) w').

Lemma passive_outcome o user host port a (m : handler unit) w :
  does passive (fun _ => True) m -> wd_permit w = None -> connect_outcome o user host port a w (snd (m w)).
Proof. intros Hm Hw. destruct (Hm w) as (l & E & Hl & Hp & _). left. exists l. split_and!; [congruence|done|done]. Qed.

Lemma acquire_username e user max p e' : acquire_connection e user max = Ok (p, e') -> p = mkPermit user.
Proof. unfold acquire_connection. case_match; [done|]. by intros [= <- _]. Qed.

Lemma kept_or_released_log P P' p w w' : kept_or_released P P' p w w' -> exists l, wd_log w' = wd_log w ++ l.
Proof. intros [(l & _ & E & _)|(l & l' & _ & E & _)]; eauto. Qed.

Lemma holding_outcome o user host port a p e' (m : handler unit) w :
  wd_permit w = None -> rd_decision (engine_decide_with_sniff (ou_decide o) user host None) <> Block ->
  acquire_connection (ou_acquire o) user (ao_max_connections a) = Ok (p, e') ->
  holding (while_held o user host port) after_release (mkPermit user) m ->
  connect_outcome o user host port a w (snd ((hold p ;; m) w)).
Proof.
  intros Hw Hd Ea Hm. pose proof (acquire_username _ _ _ _ _ Ea) as ->. right. split; [done|]. split; [by rewrite Ea|].
  set (w1 := mkWorld (wd_conn w) (Some (mkPermit user)) (wd_log w ++ [Acquired user])).
  change (snd ((hold (mkPermit user) ;; m) w)) with (snd (m w1)). specialize (Hm w1 eq_refl).
  destruct (kept_or_released_log _ _ _ _ _ Hm) as [l El].
  exists l. split; [rewrite El; cbn; by rewrite <- app_assoc|exact Hm].
Qed.

Lemma kept_or_released_scope P P' user w w' :
  kept_or_released P P' (mkPermit user) w w' ->
  exists l l', wd_log w' ++ match wd_permit w' with Some p => [Released (cp_username p)] | None => [] end =
    wd_log w ++ l ++ [Released user] ++ l' /\ Forall P l /\ Forall P' l'.
Proof.
  intros [(l & Hp & E & Hl)|(l & l' & Hp & E & Hl & Hl')]; rewrite Hp, E.
  - exists l, []. rewrite <- !app_assoc. split_and!; [done|done|constructor].
  - exists l, l'. rewrite <- !app_assoc, app_nil_r. done.
Qed.

(** The log of a handler that ends in [w]: a permit still held is given back. *)
Definition ended (w : World) : list action :=
  wd_log w ++ match wd_permit w with Some p => [Released (cp_username p)] | None => [] end.
(** One permit for [user]: granted under a decision that does not block, held,
    and given back once. *)
Definition one_permit (o : Outside) (user host : str) (port : Z) (a : AuthOk) (mid : list action) : Prop :=
  exists held after,
    rd_decision (engine_decide_with_sniff (ou_decide o) user host None) <> Block /\
    is_ok (acquire_connection (ou_acquire o) user (ao_max_connections a)) = true /\
    mid = [Acquired user] ++ held ++ [Released user] ++ after /\
    Forall (while_held o user host port) held /\ Forall after_release after.

Lemma connect_outcome_ended o user host port a w w' :
  connect_outcome o user host port a w w' ->
  exists pre mid, ended w' = wd_log w ++ pre ++ mid /\ Forall passive pre /\ (mid = [] \/ one_permit o user host port a mid).
Proof.
  intros [(l & Hp & E & Hl)|(Hd & Hacq & l & _ & Hk)]; unfold ended.
  - exists l, []. rewrite Hp, E, !app_nil_r. split_and!; [done|done|by left].
  - apply kept_or_released_scope in Hk as (held & after & Ek & Hh & Ha). cbn in Ek.
    exists [], ([Acquired user] ++ held ++ [Released user] ++ after). rewrite Ek, <- !app_assoc.
    split_and!; [done|constructor|]. right. exists held, after. by split_and!.
Qed.
(** [m] only records; what follows it starts from a world without a permit. *)
Lemma ended_bind {A} (P : action -> Prop) (Q : A -> Prop) (m : handler A) (k : A -> handler unit) (S : list action -> Prop) w :
  does P Q m -> wd_permit w = None -> S [] ->
  (forall a w1, Q a -> wd_permit w1 = None ->
     exists pre mid, ended (snd (k a w1)) = wd_log w1 ++ pre ++ mid /\ Forall P pre /\ S mid) ->
  exists pre mid, ended (snd ((m ≫= k) w)) = wd_log w ++ pre ++ mid /\ Forall P pre /\ S mid.
Proof.
  intros Hm Hw HS Hk. destruct (Hm w) as (l & E & Hl & Hp & Ha). unfold mbind, handler_bind.
  destruct (m w) as [[a|e] w1]; cbn [fst snd] in *.
  - destruct (Hk a w1 (Ha a eq_refl) ltac:(congruence)) as (pre & mid & E' & Hpre & Hmid). exists (l ++ pre), mid.
    rewrite E', E, <- !app_assoc. split_and!; [done|by apply Forall_app|done].
  - exists l, []. unfold ended. rewrite Hp, Hw, E, !app_nil_r. by split_and!.
Qed.
(** The whole handler, in its listener guard. *)
Lemma served_ended (m : handler unit) c :
  let w := snd ((act ListenerOpen ;; scope m) (mkWorld c None [])) in
  wd_permit w = None /\ wd_log w = ended (snd (m (mkWorld c None [ListenerOpen]))) ++ [ListenerClose].
Proof.
  change ((act ListenerOpen ;; scope m) (mkWorld c None [])) with (scope m (mkWorld c None [ListenerOpen])). cbv zeta.
  destruct (scope_released m (mkWorld c None [ListenerOpen])) as [Hp (l & E & ->)]. split; [exact Hp|].
  rewrite E. unfold ended. by rewrite <- app_assoc.
Qed.

End Inbound.
