(* ===== verification/Socks5.v ===== *)
(** * Socks5: the SOCKS5 inbound handler

    Models src/src/inbound/socks5.rs: negotiation, RFC 1929 authentication, the
    request, the policy decision, the connection limit, route-mode sniffing, the
    dial, the relay and the audit report of every exit. UDP ASSOCIATE is handed
    over (action [Associate]) to the datagram relay, modelled in Socks5Udp. *)

From Stdlib Require Import ZArith Lia String.
From stdpp Require Import prelude strings list gmap.
From S2P Require Import Sniff SniffProps.
From S2P Require Import Prelude RustStr Net RustFmt Util Frame Stream Conn Domain Policy Book Model Engine Outbound Io Handler Inbound.

Definition VER : Z := 5.

Section Socks5.
Context {N : Ipnet} {B : BookApi} {D : Chrono} {O : ChronoOrder D} {B64 : Base64}.
Context {R : Rustls} {HP : Httparse} {UC : UrlCrate}.

#[local] Instance socks5_protocol : Protocol := lit "socks5".

(** [reply] *)
Definition reply (rep : Z) : handler unit := send [VER; rep; 0; 1; 0; 0; 0; 0; 0; 0].

(** ** Negotiation and request *)

(** Method negotiation and the username/password sub-negotiation. *)
Definition socks5_authenticate (ctx : Ctx) (o : Outside) : handler (str * AuthOk) :=
  hdr ← recv 2;
  if negb (nth 0 hdr 0 =? VER)
  then report_and_return ctx o (failed None None None None None None (lit "parse") (lit "bad socks version"))
  else
  methods ← recv (Z.to_nat (nth 1 hdr 0));
  if negb (bool_decide (2 ∈ methods))
  then send [VER; 255] ;;
       report_and_return ctx o (failed None None None None None None (lit "auth") (lit "username/password auth method missing"))
  else
  send [VER; 2] ;;
  ver ← recv_u8;
  if negb (ver =? 1)
  then report_and_return ctx o (failed None None None None None None (lit "auth") (lit "bad auth subnegotiation version"))
  else
  ulen ← recv_u8;
  ubuf ← recv (Z.to_nat ulen);
  plen ← recv_u8;
  pbuf ← recv (Z.to_nat plen);
  let user := from_utf8_lossy ubuf in
  let pass := from_utf8_lossy pbuf in
  match authenticate (ou_auth o) (ou_today o) user pass with
  | Ok a => act (Authenticated user) ;; send [1; 0] ;; mret (user, a)
  | Err _ =>
      send [1; 1] ;;
      report_and_return ctx o (failed (Some user) None None None None None (lit "auth") (lit "authentication failed"))
  end.

(** The request: command, host and port. *)
Definition socks5_read_request (ctx : Ctx) (o : Outside) (user : str) : handler (Z * str * Z) :=
  req ← recv 4;
  if negb (nth 0 req 0 =? VER)
  then report_and_return ctx o (failed (Some user) None None None None None (lit "parse") (lit "bad request version"))
  else
  let cmd := nth 1 req 0 in
  let atyp := nth 3 req 0 in
  if negb (cmd =? 1) && negb (cmd =? 3)
  then reply 7 ;;
       report_and_return ctx o (failed (Some user) None None None None None (lit "parse") (lit "unsupported socks command"))
  else
  host ← (if atyp =? 1 then a ← recv 4; mret (display_v4 (from_be_bytes a))
          else if atyp =? 4 then a ← recv 16; mret (display_v6 (from_be_bytes a))
          else if atyp =? 3 then l ← recv_u8; d ← recv (Z.to_nat l); mret (from_utf8_lossy d)
          else reply 8 ;;
               report_and_return ctx o (failed (Some user) None None None None None (lit "parse") (lit "unsupported address type")));
  port_buf ← recv 2;
  mret (cmd, host, from_be_bytes port_buf).

(** ** The tunnel *)

(** [tunnel_connect_route] *)
Definition tunnel_connect_route (ctx : Ctx) (o : Outside) (user host : str) (port : Z) (a : AuthOk) (first : ResolvedDecision)
    : handler unit :=
  reply 0 ;; route_tunnel ctx o user host port a first.

(** A CONNECT request, once read. *)
Definition socks5_connect_request (ctx : Ctx) (o : Outside) (user host : str) (port : Z) (a : AuthOk) : handler unit :=
  let resolved := engine_decide_with_sniff (ou_decide o) user host None in
  let decision := decision_label (rd_decision resolved) in
  let policy := attribution resolved in
  match rd_decision resolved with
  | Block =>
      reply 2 ;;
      report_and_return ctx o (failed (Some user) (Some (host, port)) (Some decision) None None (Some policy)
        (lit "policy") (lit "blocked by policy"))
  | d =>
      match acquire_connection (ou_acquire o) user (ao_max_connections a) with
      | Err _ =>
          reply 2 ;;
          report_and_return ctx o (failed (Some user) (Some (host, port)) (Some decision) None None None
            (lit "limit") (lit "connection limit exceeded"))
      | Ok (p, _) =>
          hold p ;;
          if sc_enabled (cx_sniff ctx) && match sc_mode (cx_sniff ctx) with Route_ => true | Observe => false end
          then tunnel_connect_route ctx o user host port a resolved
          else
          act (Dialled d host port) ;;
          match connect (ou_envs o) (ou_now o) d host port (cx_egress ctx) with
          | (Err e, _) =>
              reply 5 ;;
              report_and_return ctx o (failed (Some user) (Some (host, port)) (Some decision) (chain_attempts e) None None
                (failure_stage e) (lit "upstream connect failed"))
          | (Ok (t, egress), _) =>
              reply 0 ;;
              tunnel ctx o user host port decision policy a t egress
                (if sc_enabled (cx_sniff ctx) then Some (ou_observed o) else None)
          end
      end
  end.

(** [serve], inside the listener guard *)
Definition serve_body (ctx : Ctx) (o : Outside) : handler unit :=
  '(user, a) ← socks5_authenticate ctx o;
  '(cmd, host, port) ← socks5_read_request ctx o user;
  if cmd =? 3 then act (Associate user)
  else socks5_connect_request ctx o user host port a.
Definition serve (ctx : Ctx) (o : Outside) : handler unit := act ListenerOpen ;; scope (serve_body ctx o).

End Socks5.

(** * The SOCKS5 handler is safe and understands its own client *)

Section Socks5.
Context {N : Ipnet} {B : BookApi} {D : Chrono} {O : ChronoOrder D} {B64 : Base64}.
Context {R : Rustls} {HP : Httparse} {UC : UrlCrate}.
#[local] Existing Instance socks5_protocol.

(** Peel a handler whose steps only record. *)
Ltac does_step :=
  lazymatch goal with
  | |- does _ _ (report_and_return _ _ _) => apply does_report_return; by try done
  | |- does _ _ (report_trace _ _ _) => apply does_report; by try done
  | |- does _ _ (reply _) => apply does_conn
  | |- does _ _ (send _) => apply does_conn
  | |- does _ _ (recv _) => apply does_conn
  | |- does _ _ recv_u8 => apply does_conn
  | |- does _ _ (act _) => apply does_act; done
  | |- does _ _ (halt _) => apply does_halt
  | |- does _ _ (mret _) => apply does_ret
  | |- does _ _ (_ ≫= _) => apply does_seq; [|intros]
  | |- does _ _ (if ?b then _ else _) => destruct b eqn:?
  | |- does _ _ (match ?x with _ => _ end) => destruct x eqn:?
  end.

Lemma socks5_authenticate_spec ctx o :
  does passive (fun ua => exists pass, authenticate (ou_auth o) (ou_today o) (fst ua) pass = Ok (snd ua)) (socks5_authenticate ctx o).
Proof. unfold socks5_authenticate. repeat does_step. eauto. Qed.
Lemma socks5_read_request_spec ctx o user : does passive (fun _ => True) (socks5_read_request ctx o user).
Proof. unfold socks5_read_request. repeat does_step; done. Qed.

Lemma route_holding ctx o user host port p a first :
  holding (while_held o user host port) after_release p (tunnel_connect_route ctx o user host port a first).
Proof. unfold tunnel_connect_route. apply holding_seq; [apply does_conn|]. intros _. apply route_tunnel_holding. Qed.

Lemma connect_request_spec ctx o user host port a w :
  wd_permit w = None -> connect_outcome o user host port a w (snd (socks5_connect_request ctx o user host port a w)).
Proof.
  intros Hw. unfold socks5_connect_request. cbv zeta. set (rd := engine_decide_with_sniff (ou_decide o) user host None).
  assert (Hgo : forall d, d <> Block -> d = rd_decision rd ->
    connect_outcome o user host port a w (snd (
      match acquire_connection (ou_acquire o) user (ao_max_connections a) with
      | Err _ =>
          reply 2 ;;
          report_and_return ctx o (failed (Some user) (Some (host, port)) (Some (decision_label (rd_decision rd))) None None None
            (lit "limit") (lit "connection limit exceeded"))
      | Ok (p, _) =>
          hold p ;;
          if sc_enabled (cx_sniff ctx) && match sc_mode (cx_sniff ctx) with Route_ => true | Observe => false end
          then tunnel_connect_route ctx o user host port a rd
          else
          act (Dialled d host port) ;;
          match connect (ou_envs o) (ou_now o) d host port (cx_egress ctx) with
          | (Err e, _) =>
              reply 5 ;;
              report_and_return ctx o (failed (Some user) (Some (host, port)) (Some (decision_label (rd_decision rd))) (chain_attempts e) None None
                (failure_stage e) (lit "upstream connect failed"))
          | (Ok (t, egress), _) =>
              reply 0 ;;
              tunnel ctx o user host port (decision_label (rd_decision rd)) (attribution rd) a t egress
                (if sc_enabled (cx_sniff ctx) then Some (ou_observed o) else None)
          end
      end w))).
  { intros d Hd E. destruct (acquire_connection _ _ _) as [[p e']|err] eqn:Ea.
    2: { apply passive_outcome; [|done]. apply does_seq; [apply does_conn|intros; by apply does_report_return]. }
    eapply holding_outcome; [done|fold rd; congruence|exact Ea|].
    destruct (sc_enabled _ && _); [apply route_holding|].
    apply (dialled_holding o user host port _ d (ou_decide o) None); [done|set_solver|exact E|].
    destruct (connect _ _ _ _ _ _) as [[[t egress]|err] ?].
    - apply holding_seq; [apply does_conn|intros; apply tunnel_holding].
    - apply holding_seq; [apply does_conn|intros; apply holding_report]. }
  destruct (rd_decision rd) as [|u|c|] eqn:E; try (by apply Hgo).
  apply passive_outcome; [|done]. apply does_seq; [apply does_conn|intros; by apply does_report_return].
Qed.

(** What one connection did, from the log: it only recorded; it was handed to
    the datagram relay after authentication; or it held one permit. *)
Definition socks5_outcome (o : Outside) (mid : list action) : Prop :=
  mid = [] \/
  exists user pass a, authenticate (ou_auth o) (ou_today o) user pass = Ok a /\
    (mid = [Associate user] \/ exists host port, one_permit o user host port a mid).

(** The body of [serve], from a world without a permit. *)
Lemma serve_body_spec ctx o w :
  wd_permit w = None ->
  exists pre mid, ended (snd (serve_body ctx o w)) = wd_log w ++ pre ++ mid /\ Forall passive pre /\ socks5_outcome o mid.
Proof.
  intros Hw. unfold serve_body. eapply ended_bind; [apply socks5_authenticate_spec|done|by left|].
  intros [user a] w1 [pass Ha] Hw1. eapply ended_bind; [apply socks5_read_request_spec|done|by left|].
  intros [[cmd host] port] w2 _ Hw2. destruct (cmd =? 3).
  - exists [], [Associate user]. unfold ended. cbn. rewrite Hw2, app_nil_r.
    split_and!; [done|constructor|right; exists user, pass, a; by split; [|left]].
  - destruct (connect_outcome_ended _ _ _ _ _ _ _ (connect_request_spec ctx o user host port a w2 Hw2)) as (pre & mid & E & Hp & Hm).
    exists pre, mid. split_and!; [done|done|]. destruct Hm as [->|Hm]; [by left|]. right. exists user, pass, a. eauto.
Qed.

(** C24: the SOCKS5 handler is safe on every client, network and interleaving:
    whatever the bytes, it dials only for a user it authenticated against the
    snapshot, only while holding a connection permit granted for that user,
    only the target that was requested and only under a decision for that user
    and target that does not block, before and after sniffing; the permit is
    taken at most once and is always given back, exactly once, however the
    handler ends; and an unauthenticated, blocked or refused client causes
    nothing but records. *)
Theorem socks5_serve_safe (ctx : Ctx) (o : Outside) (c : Conn) :
  let w := snd (serve ctx o (mkWorld c None [])) in
  wd_permit w = None /\
  exists pre mid, wd_log w = [ListenerOpen] ++ pre ++ mid ++ [ListenerClose] /\ Forall passive pre /\ socks5_outcome o mid.
Proof.
  destruct (served_ended (serve_body ctx o) c) as [Hp E].
  destruct (serve_body_spec ctx o (mkWorld c None [ListenerOpen]) eq_refl) as (pre & mid & Eb & Hpre & Hmid).
  split; [exact Hp|]. exists pre, mid. split; [|done]. change (serve ctx o) with (act ListenerOpen ;; scope (serve_body ctx o)).
  rewrite E, Eb. cbn [wd_log]. by rewrite <- !app_assoc.
Qed.

(** ** The handler and this program's own SOCKS5 client *)

(** What the client writes, and what it needs to hear. *)
Definition client_bytes (user pass host : str) (port : Z) : list Z :=
  [5; 1; 2] ++ ([1; Z.of_nat (length user)] ++ user ++ [Z.of_nat (length pass)] ++ pass) ++
  ([5; 1; 0; 3; Z.of_nat (length host)] ++ host ++ to_be_bytes 2 port).
Definition accepted : list Z := [VER; 2] ++ [1; 0].
Definition granted : list Z := [VER; 0; 0; 1; 0; 0; 0; 0; 0; 0].

Lemma client_exchange up user pass host port :
  up_username up = Some user -> default [] (up_password up) = pass ->
  (length user <= 255)%nat -> (length pass <= 255)%nat -> (length host <= 255)%nat ->
  exchanges (socks5_handshake up host port) (accepted ++ granted) (Ok tt) (client_bytes user pass host port) [].
Proof.
  intros Hu Hp Lu Lp Lh. unfold socks5_handshake, client_bytes. eapply exchanges_out.
  - eapply exchanges_bind with (mid := granted).
    + unfold socks5_auth. rewrite Hu, bool_decide_eq_true_2 by eauto. cbv iota.
      eapply exchanges_bind; [apply exchanges_write|]. eapply exchanges_bind; [by apply (exchanges_read io_error 2 [VER; 2])|].
      cbn [nth]. change (negb (VER =? 5)) with false. change (2 =? 0) with false. change (2 =? 2) with true. cbv iota. rewrite Hp.
      change (default [] (Some user)) with user. rewrite !wrap_fits by (unfold fits; lia).
      eapply exchanges_bind; [apply exchanges_write|]. eapply exchanges_bind; [by apply (exchanges_read io_error 2 [1; 0])|].
      apply exchanges_ret.
    + unfold socks5_request. rewrite (proj2 (Nat.ltb_ge _ _)) by lia.
      eapply exchanges_bind; [apply exchanges_write|].
      eapply exchanges_bind; [by apply (exchanges_read io_error 4 [VER; 0; 0; 1])|]. cbn [nth].
      change (negb (0 =? 0)) with false. change (1 =? 1) with true. cbv iota.
      eapply exchanges_bind; [by apply (exchanges_read io_error 6 [0; 0; 0; 0; 0; 0] [])|]. apply exchanges_ret.
  - rewrite !app_nil_r, <- !app_assoc. done.
Qed.

Lemma server_converse ctx o user pass host port a :
  (length user <= 255)%nat -> (length pass <= 255)%nat -> (length host <= 255)%nat -> fits 16 port ->
  utf8_valid user = true -> utf8_valid pass = true -> utf8_valid host = true ->
  authenticate (ou_auth o) (ou_today o) user pass = Ok a ->
  converses ('(u, q) ← socks5_authenticate ctx o; r ← socks5_read_request ctx o u; mret (u, q, r))
    (client_bytes user pass host port) (Ok (user, a, (1, host, port))) accepted [] [Authenticated user].
Proof.
  intros Lu Lp Lh Hport Vu Vp Vh Ha. unfold client_bytes. rewrite <- !app_assoc.
  assert (Hout : forall (m : handler (str * AuthOk * (Z * str * Z))) i r o1 o2 l1 l2, o1 = o2 -> l1 = l2 ->
    converses m i r o1 [] l1 -> converses m i r o2 [] l2) by by intros ? ? ? ? ? ? ? -> ->.
  eapply Hout; [| |eapply converses_bind with
    (mid := [5; 1; 0; 3; Z.of_nat (length host)] ++ host ++ to_be_bytes 2 port) (a := (user, a))
    (out1 := accepted) (l1 := [Authenticated user]) (out2 := []) (l2 := [])].
  - by rewrite app_nil_r.
  - done.
  - unfold socks5_authenticate, accepted.
    eapply converses_bind with (a := [5; 1]) (out1 := []) (l1 := []) (out2 := [VER; 2; 1; 0]) (l2 := [Authenticated user]);
      [apply (converses_recv [5; 1])|].
    cbn [nth]. change (negb (5 =? VER)) with false. cbv iota. change (Z.to_nat 1) with 1%nat.
    eapply converses_bind with (a := [2]) (out1 := []) (l1 := []) (out2 := [VER; 2; 1; 0]) (l2 := [Authenticated user]);
      [apply (converses_recv [2])|].
    change (bool_decide (2 ∈ [2])) with true. cbn [negb].
    eapply converses_bind with (out1 := [VER; 2]) (l1 := []) (out2 := [1; 0]) (l2 := [Authenticated user]); [apply converses_send|].
    eapply converses_bind with (out1 := []) (l1 := []) (out2 := [1; 0]) (l2 := [Authenticated user]); [apply converses_recv_u8|].
    change (negb (1 =? 1)) with false. cbv iota.
    eapply converses_bind with (out1 := []) (l1 := []) (out2 := [1; 0]) (l2 := [Authenticated user]); [apply converses_recv_u8|].
    rewrite Nat2Z.id.
    eapply converses_bind with (a := user) (out1 := []) (l1 := []) (out2 := [1; 0]) (l2 := [Authenticated user]); [apply converses_recv|].
    eapply converses_bind with (out1 := []) (l1 := []) (out2 := [1; 0]) (l2 := [Authenticated user]); [apply converses_recv_u8|].
    rewrite Nat2Z.id.
    eapply converses_bind with (a := pass) (out1 := []) (l1 := []) (out2 := [1; 0]) (l2 := [Authenticated user]); [apply converses_recv|].
    cbv zeta. rewrite !from_utf8_lossy_valid by done. rewrite Ha.
    eapply converses_bind with (out1 := []) (l1 := [Authenticated user]) (out2 := [1; 0]) (l2 := []); [apply converses_act|].
    eapply converses_bind with (out1 := [1; 0]) (l1 := []) (out2 := []) (l2 := []); [apply converses_send|].
    apply converses_ret.
  - eapply converses_bind with (out1 := []) (l1 := []) (out2 := []) (l2 := []) (mid := []); [|apply converses_ret].
    unfold socks5_read_request.
    eapply converses_bind with (a := [5; 1; 0; 3]) (out1 := []) (l1 := []) (out2 := []) (l2 := []); [apply (converses_recv [5; 1; 0; 3])|].
    cbn [nth]. change (negb (5 =? VER)) with false. cbv iota zeta. change (negb (1 =? 1) && _) with false. cbv iota.
    change (3 =? 1) with false. change (3 =? 4) with false. change (3 =? 3) with true. cbv iota.
    eapply converses_bind with (a := host) (out1 := []) (l1 := []) (out2 := []) (l2 := []) (mid := to_be_bytes 2 port).
    + eapply converses_bind with (out1 := []) (l1 := []) (out2 := []) (l2 := []); [apply converses_recv_u8|].
      rewrite Nat2Z.id. eapply converses_bind with (a := host) (out1 := []) (l1 := []) (out2 := []) (l2 := []); [apply converses_recv|].
      rewrite from_utf8_lossy_valid by done. apply converses_ret.
    + eapply converses_bind with (a := to_be_bytes 2 port) (out1 := []) (l1 := []) (out2 := []) (l2 := []).
      * pose proof (converses_recv (to_be_bytes 2 port) []) as Hr. rewrite app_nil_r in Hr. exact Hr.
      * rewrite from_to_be_bytes by done. apply converses_ret.
Qed.

(** This program's SOCKS5 client and its SOCKS5 handler understand each
    other: for a user name, password and host of at most 255 bytes, on any
    fragmentation, the handler reads from what the client writes exactly that
    user, password, host and port, having answered what the client needs to go
    on; and with the grant that follows the client's handshake succeeds,
    leaving no byte of the tunnel consumed. *)
Theorem socks5_client_server ctx o up user pass host port a :
  up_username up = Some user -> default [] (up_password up) = pass ->
  (length user <= 255)%nat -> (length pass <= 255)%nat -> (length host <= 255)%nat -> fits 16 port ->
  utf8_valid user = true -> utf8_valid pass = true -> utf8_valid host = true ->
  authenticate (ou_auth o) (ou_today o) user pass = Ok a ->
  exchanges (socks5_handshake up host port) (accepted ++ granted) (Ok tt) (client_bytes user pass host port) [] /\
  converses ('(u, q) ← socks5_authenticate ctx o; r ← socks5_read_request ctx o u; mret (u, q, r))
    (client_bytes user pass host port) (Ok (user, a, (1, host, port))) accepted [] [Authenticated user].
Proof. intros. split; [by apply client_exchange|by apply server_converse]. Qed.

End Socks5.

(** The client casts lengths to a byte: a 256-byte user name is announced as
    empty, and the handler reads another request from the same bytes. *)
Example long_username_truncated :
  let up := mkUpstream Socks5 (lit "p:1") (Some (repeat 97 256)) (Some [98]) false false in
  take 5 (cn_sent (snd (socks5_auth up (mkConn [Ok [5; 2]] [] [])))) = [5; 1; 2; 1; 0].
Proof. vm_compute. reflexivity. Qed.

(** ** A concrete session *)

Module Socks5Demo.
#[export] Existing Instances CidrNet.inst Book_api day_dates day_order.
#[export] Instance b64 : Base64 := fun _ => [].
#[export] Instance rustls : Rustls := SniffProps.Demo.rustls.
#[export] Instance httparse : Httparse := SniffProps.Demo.httparse.
#[export] Instance url : UrlCrate := SniffProps.Demo.url.

(** Every dial is accepted; the target answers and closes. *)
Definition env : Env :=
  mkNetEnv None (fun _ p => Some [SockV4 16843009 p]) (fun _ => true) (fun _ => true) (fun _ _ _ => true)
    (mkConn [Ok (lit "pong")] [] []) (fun _ _ _ => Err (ReverseUnavailable [])) (fun _ _ => None) (fun _ => Ok tt) 5.
Definition o : Outside :=
  mkOutside engine_demo engine_demo engine_demo engine_demo engine_demo 20300 (fun _ => env) 0
    (Sniff.mkEnv Z.of_nat (fun _ => false)) 0 (mkObs Incomplete None None) (SockV4 2130706433 5555) 9.
Definition ctx (enabled : bool) : Ctx :=
  mkCtx (lit "socks") (mkSniffConfig enabled Route_ 64 100) true (mkEgressContext false false false).
Definition up : Upstream := mkUpstream Socks5 (lit "edge:1080") (Some (lit "alice")) (Some (lit "login-pw")) false false.
(** The client's bytes and its first tunnel data, in three reads. *)
Definition client : Conn :=
  let b := client_bytes (lit "alice") (lit "login-pw") (lit "one.example") 443 ++ lit "ping" in
  mkConn [Ok (take 2 b); Ok (take 17 (drop 2 b)); Ok (drop 19 b)] [] [].

(** The whole session, without and with route-mode sniffing. *)
Example session :
  let w := snd (serve (ctx false) o (mkWorld client None [])) in
  cn_sent (wd_conn w) = accepted ++ granted ++ lit "pong" /\
  List.filter (fun a => match a with Report _ => false | _ => true end) (wd_log w) =
    [ListenerOpen; Authenticated (lit "alice"); Acquired (lit "alice"); Dialled Direct (lit "one.example") 443;
     EgressOpen (lit "direct"); Relayed (mkCopied (mkReport 4 None) (lit "ping") true) (mkCopied (mkReport 4 None) (lit "pong") true);
     Released (lit "alice"); RecordListener 4 4; RecordEgress (lit "direct") 4 4; EgressClose (lit "direct"); ListenerClose].
Proof. vm_compute. done. Qed.
Example session_routed :
  let w := snd (serve (ctx true) o (mkWorld client None [])) in
  cn_sent (wd_conn w) = accepted ++ granted ++ lit "pong" /\
  List.filter (fun a => match a with Relayed _ _ => true | _ => false end) (wd_log w) =
    [Relayed (mkCopied (mkReport 4 None) (lit "ping") true) (mkCopied (mkReport 4 None) (lit "pong") true)].
Proof. vm_compute. done. Qed.
End Socks5Demo.

Section Socks5Witness.
Import Socks5Demo.
Lemma socks5_client_server_witness :
  exchanges (socks5_handshake up (lit "one.example") 443) (accepted ++ granted) (Ok tt)
    (client_bytes (lit "alice") (lit "login-pw") (lit "one.example") 443) [].
Proof.
  apply (socks5_client_server (ctx false) o up (lit "alice") (lit "login-pw") (lit "one.example") 443 (mkAuthOk 100 200 2));
    try (vm_compute; reflexivity); try (cbn; lia). unfold fits. lia.
Defined.
End Socks5Witness.
