(* ===== verification/Http.v ===== *)
(** * Http: the HTTP proxy handler

    Models src/src/inbound/http.rs: the request head, credentials, the policy
    decision, the connection limit, CONNECT tunnels with and without route-mode
    sniffing, forwarding of absolute-form requests, and the report of every
    exit. *)

From Stdlib Require Import ZArith Lia String.
From stdpp Require Import prelude strings list gmap.
From S2P Require Import Sniff.
From S2P Require Import Prelude RustStr Net RustFmt Util Frame Stream Conn Domain Policy Model Engine Outbound Io Handler Inbound.
From S2P Require Import HttpRequest HttpBody.

Definition HEAD_CAP : nat := Z.to_nat (16 * 1024).

(** [respond] *)
Definition response (status extra : str) : list Z :=
  lit "HTTP/1.1 " ++ status ++ crlf ++ extra ++ lit "Content-Length: 0" ++ crlf ++ lit "Connection: close" ++ crlf ++ crlf.
Definition respond (status extra : str) : handler unit := send (response status extra).
Definition challenge : str := lit "Proxy-Authenticate: Basic realm=" ++ [34] ++ lit "rove" ++ [34] ++ crlf.
Definition established : list Z := lit "HTTP/1.1 200 Connection Established" ++ crlf ++ crlf.

(** How a forwarded exchange failed. *)
Inductive ForwardError := HeadNotSent (e : BodyError) | UploadFailed (e : BodyError) | DownloadFailed (e : ErrorKind).

(** [forward_http]: the head, then the body upstream while the answer comes
    down; the two directions share nothing, so their interleaving does not
    matter. The download always ends ([copy_loop_ok]). *)
Definition forward_http (target : Conn) (method version : str) (headers : list Header) (connection_tokens : list str)
    (forward : ForwardTarget) (body : RequestBody) (remainder : list Z) (down_rate : Z)
    : handler (result ForwardError SpliceStats) := fun w =>
  let forwarded_head := build_forward_head method version headers connection_tokens forward in
  let client := wd_conn w in
  let upload := mkConn (unread (prefixed_new remainder (cn_in client))) [] (cn_writes target) in
  match cwrite BodyIo forwarded_head upload with
  | (Err e, upload) => (Ok (Err (HeadNotSent e)), mkWorld client (wd_permit w) (wd_log w))
  | (Ok _, upload) =>
      let '(bytes_up, upload) := copy_request_body body upload in
      match copy_throttled_report (source_of (cn_in target)) (sink_of (cn_writes client)) down_rate with
      | None => (Err RelayFailed, w)
      | Some down =>
          (Ok (match bytes_up, into_result (co_report down) with
               | Ok n, Ok d => Ok (mkSplice (saturating_add 64 (Z.of_nat (length forwarded_head)) n) d)
               | Err e, _ => Err (UploadFailed e)
               | Ok _, Err e => Err (DownloadFailed e)
               end),
           mkWorld (mkConn (cn_in upload) (cn_sent client ++ co_delivered down) []) (wd_permit w)
             (wd_log w ++ [Forwarded (cn_sent upload) down]))
      end
  end.

Section Http.
Context {N : Ipnet} {B : BookApi} {D : Chrono} {O : ChronoOrder D} {B64 : Base64} {BD : Base64Decode}.
Context {R : Rustls} {HP : Httparse} {UC : UrlCrate}.
#[local] Instance http_protocol : Protocol := lit "http".

(** [report_trace] *)
Definition http_report (ctx : Ctx) (o : Outside) (f : TraceFields) : handler unit := report_trace ctx o f.
Definition http_report_and_return {A} (ctx : Ctx) (o : Outside) (f : TraceFields) : handler A := http_report ctx o f ;; halt Return.

(** The head and the bytes read past it; the reader always ends ([head_loop_terminates]). *)
Definition read_head : handler (list Z * list Z) := fun w =>
  let with_in rd := mkWorld (mkConn rd (cn_sent (wd_conn w)) (cn_writes (wd_conn w))) (wd_permit w) (wd_log w) in
  match read_http_head_with_remainder (cn_in (wd_conn w)) HEAD_CAP with
  | Some (Ok x, rd) => (Ok x, with_in rd)
  | Some (Err _, rd) => (Err IoFailed, with_in rd)
  | None => (Err IoFailed, w)
  end.
Definition reject {A} (ctx : Ctx) (o : Outside) (e : RequestError) : handler A :=
  respond (re_status e) [] ;;
  http_report_and_return ctx o (failed None None None None None None (lit "parse") (re_message e)).
(** The request and the bytes that came with its head. *)
Definition http_read_request (ctx : Ctx) (o : Outside) : handler (ParsedRequest * list Z) :=
  '(head, remainder) ← read_head;
  match ParsedRequest_parse head with
  | Err e => reject ctx o e
  | Ok request =>
      match validate_remainder request (length remainder) with
      | Some e => reject ctx o e
      | None => mret (request, remainder)
      end
  end.

(** The credentials. *)
Definition http_authenticate (ctx : Ctx) (o : Outside) (request : ParsedRequest) : handler (str * AuthOk) :=
  let target := Some (rq_host request, rq_port request) in
  match rq_proxy_authorization request ≫= decode_basic with
  | None =>
      respond (lit "407 Proxy Authentication Required") challenge ;;
      http_report_and_return ctx o (failed None target None None None None (lit "auth") (lit "proxy authorization missing"))
  | Some (user, pass) =>
      match authenticate (ou_auth o) (ou_today o) user pass with
      | Ok a => act (Authenticated user) ;; mret (user, a)
      | Err Expired =>
          respond (lit "403 Forbidden") [] ;;
          http_report_and_return ctx o (failed (Some user) target None None None None (lit "auth") (lit "user expired"))
      | Err _ =>
          respond (lit "407 Proxy Authentication Required") challenge ;;
          http_report_and_return ctx o (failed (Some user) target None None None None (lit "auth") (lit "authentication failed"))
      end
  end.

(** [tunnel_connect]: the answer, then the relay of what was read past the head
    and of the stream *)
Definition tunnel_connect (ctx : Ctx) (o : Outside) (target : Conn) (remainder : list Z) (a : AuthOk)
    : handler (result ErrorKind SpliceStats * option SniffObservation) :=
  answered ← attempt (cwrite id established);
  match answered with
  | Err _ => mret (Err OtherKind, None)
  | Ok _ =>
      r ← with_prefix remainder (relay target (ao_up_rate a) (ao_down_rate a));
      mret (r, if sc_enabled (cx_sniff ctx) then Some (ou_observed o) else None)
  end.

(** [tunnel_connect_route] *)
Definition http_tunnel_route (ctx : Ctx) (o : Outside) (user host : str) (port : Z) (remainder : list Z) (a : AuthOk)
    (first : ResolvedDecision) : handler unit :=
  answered ← attempt (cwrite id established);
  match answered with
  | Err _ =>
      http_report ctx o (failed (Some user) (Some (host, port)) (Some (decision_label (rd_decision first))) None None
        (Some (attribution first)) (lit "splice") (lit "tunnel io failed")) ;;
      halt IoFailed
  | Ok _ => with_prefix remainder (route_tunnel ctx o user host port a first)
  end.

(** An established egress: the tunnel or the forwarded exchange, and its end. *)
Definition http_exchange (ctx : Ctx) (o : Outside) (user : str) (request : ParsedRequest) (remainder : list Z) (a : AuthOk)
    (decision : str) (policy : PolicyAttribution) (t : Tunnel) (egress : EgressInfo) : handler unit :=
  with_egress (ei_label egress)
    match rq_target request with
    | Connect =>
        '(r, sniff) ← tunnel_connect ctx o (tn_conn t) remainder a;
        finish ctx o user (rq_host request) (rq_port request) decision policy egress sniff r
    | Forward forward =>
        r ← forward_http (tn_conn t) (rq_method request) (rq_version request) (rq_headers request)
              (rq_connection_tokens request) forward (rq_body request) remainder (ao_down_rate a);
        finish ctx o user (rq_host request) (rq_port request) decision policy egress None r
    end.

(** A request the policy lets through, by the decision [d]. *)
Definition http_admitted (ctx : Ctx) (o : Outside) (user : str) (request : ParsedRequest) (remainder : list Z) (a : AuthOk)
    (resolved : ResolvedDecision) (d : Decision) : handler unit :=
  let host := rq_host request in
  let port := rq_port request in
  let decision := decision_label (rd_decision resolved) in
  match acquire_connection (ou_acquire o) user (ao_max_connections a) with
  | Err (ConnectionLimitExceeded _ _) =>
      respond (lit "429 Too Many Requests") [] ;;
      http_report_and_return ctx o (failed (Some user) (Some (host, port)) (Some decision) None None None
        (lit "limit") (lit "connection limit exceeded"))
  | Err _ => halt RelayFailed
  | Ok (p, _) =>
      hold p ;;
      if sc_enabled (cx_sniff ctx) && match sc_mode (cx_sniff ctx) with Route_ => true | Observe => false end
         && match rq_target request with Connect => true | Forward _ => false end
      then http_tunnel_route ctx o user host port remainder a resolved
      else
      act (Dialled d host port) ;;
      match connect (ou_envs o) (ou_now o) d host port (cx_egress ctx) with
      | (Err e, _) =>
          respond (lit "502 Bad Gateway") [] ;;
          http_report_and_return ctx o (failed (Some user) (Some (host, port)) (Some decision) (chain_attempts e) None None
            (failure_stage e) (lit "upstream connect failed"))
      | (Ok (t, egress), _) => http_exchange ctx o user request remainder a decision (attribution resolved) t egress
      end
  end.
(** An authenticated request. *)
Definition http_request (ctx : Ctx) (o : Outside) (user : str) (request : ParsedRequest) (remainder : list Z) (a : AuthOk)
    : handler unit :=
  let host := rq_host request in
  let port := rq_port request in
  let resolved := engine_decide_with_sniff (ou_decide o) user host None in
  match rd_decision resolved with
  | Block =>
      respond (lit "403 Forbidden") [] ;;
      http_report_and_return ctx o (failed (Some user) (Some (host, port)) (Some (decision_label (rd_decision resolved))) None None
        (Some (attribution resolved)) (lit "policy") (lit "blocked by policy"))
  | d => http_admitted ctx o user request remainder a resolved d
  end.

(** [serve], inside the listener guard *)
Definition http_serve_body (ctx : Ctx) (o : Outside) : handler unit :=
  '(request, remainder) ← http_read_request ctx o;
  '(user, a) ← http_authenticate ctx o request;
  http_request ctx o user request remainder a.
Definition http_serve (ctx : Ctx) (o : Outside) : handler unit := act ListenerOpen ;; scope (http_serve_body ctx o).

End Http.
