(* ===== verification/HttpProps.v ===== *)
(** * HttpProps: the HTTP handler is safe and forwards what it parsed *)

From Stdlib Require Import ZArith Lia String.
From stdpp Require Import prelude strings list gmap.
From S2P Require Import Sniff SniffProps.
From S2P Require Import Prelude RustStr Net RustFmt Util Frame Stream Conn Domain Policy Book Model Engine Outbound Io Handler Inbound.
From S2P Require Import HttpRequest HttpBody Http.

Section HttpProps.
Context {N : Ipnet} {B : BookApi} {D : Chrono} {O : ChronoOrder D} {B64 : Base64} {BD : Base64Decode}.
Context {R : Rustls} {HP : Httparse} {UC : UrlCrate}.
#[local] Existing Instance http_protocol.

Lemma does_http_report P ctx o f : (forall a, passive a -> P a) -> does P (fun _ => True) (http_report ctx o f).
Proof. apply does_report. Qed.
Lemma does_http_return {A} P (Q : A -> Prop) ctx o f : (forall a, passive a -> P a) -> does P Q (http_report_and_return ctx o f).
Proof. intros H. apply does_seq; [by apply does_http_report|intros; apply does_halt]. Qed.
Lemma does_respond_return {A} P (Q : A -> Prop) ctx o status extra f :
  (forall a, passive a -> P a) -> does P Q (respond status extra ;; http_report_and_return ctx o f).
Proof. intros H. apply does_seq; [apply does_conn|intros; by apply does_http_return]. Qed.

(** ** Before the permit *)

Lemma read_head_does P : does P (fun _ => True) read_head.
Proof.
  intros w. exists []. unfold read_head. cbv zeta. rewrite app_nil_r.
  destruct (read_http_head_with_remainder _ _) as [[[x|e] rd]|]; by split_and!.
Qed.
Lemma http_read_request_spec ctx o :
  does passive (fun rq => exists head, ParsedRequest_parse head = Ok (fst rq) /\ validate_remainder (fst rq) (length (snd rq)) = None)
    (http_read_request ctx o).
Proof.
  unfold http_read_request. apply does_seq; [apply read_head_does|]. intros [head remainder].
  destruct (ParsedRequest_parse head) as [request|e] eqn:E; [|by apply does_respond_return].
  destruct (validate_remainder request _) as [e|] eqn:Ev; [by apply does_respond_return|]. apply does_ret. eauto.
Qed.
Lemma http_authenticate_spec ctx o request :
  does passive (fun ua => exists pass, rq_proxy_authorization request ≫= decode_basic = Some (fst ua, pass) /\
      authenticate (ou_auth o) (ou_today o) (fst ua) pass = Ok (snd ua))
    (http_authenticate ctx o request).
Proof.
  unfold http_authenticate. cbv zeta. destruct (rq_proxy_authorization request ≫= decode_basic) as [[user pass]|] eqn:Ed;
    [|by apply does_respond_return].
  destruct (authenticate _ _ _ _) as [a|e] eqn:Ea.
  - apply does_seq; [by apply does_act|]. intros _. apply does_ret. eauto.
  - destruct e; by apply does_respond_return.
Qed.

(** ** With the permit *)

Lemma forward_http_does P target method version headers tokens forward body remainder rate :
  (forall u d, P (Forwarded u d)) ->
  does P (fun _ => True) (forward_http target method version headers tokens forward body remainder rate).
Proof.
  intros HF w. unfold forward_http. cbv zeta. destruct (cwrite _ _ _) as [[[]|e] up].
  2: { exists []. cbn. rewrite app_nil_r. by split_and!. }
  destruct (copy_request_body _ _) as [n up']. destruct (copy_throttled_report _ _ _) as [down|].
  - exists [Forwarded (cn_sent up') down]. split_and!; [done|by constructor|done|done].
  - exists []. cbn. rewrite app_nil_r. by split_and!.
Qed.
Lemma tunnel_connect_does P ctx o target remainder a :
  (forall u d, P (Relayed u d)) -> does P (fun _ => True) (tunnel_connect ctx o target remainder a).
Proof.
  intros HR. unfold tunnel_connect. apply does_seq; [apply does_attempt|]. intros [[]|e]; [|by apply does_ret].
  apply does_seq; [by apply with_prefix_does, does_relay|]. intros r. by apply does_ret.
Qed.

Section Held.
Context (o : Outside) (user host : str) (port : Z) (p : ConnectionPermit).
Local Notation held := (holding (while_held o user host port) after_release p).

Lemma http_tunnel_route_holding ctx remainder a first : held (http_tunnel_route ctx o user host port remainder a first).
Proof.
  unfold http_tunnel_route. apply holding_seq; [apply does_attempt|]. intros [[]|e].
  - apply with_prefix_holding, route_tunnel_holding.
  - apply (holding_does _ _ _ (fun _ => True)). apply does_seq; [apply does_http_report, passive_held|intros; apply does_halt].
Qed.
Lemma http_exchange_holding ctx request remainder a decision policy t egress :
  rq_host request = host -> rq_port request = port ->
  held (http_exchange ctx o user request remainder a decision policy t egress).
Proof.
  intros Hh Hp. unfold http_exchange. rewrite Hh, Hp. apply holding_with_egress; try done. destruct (rq_target request) as [|f].
  - apply holding_seq; [by apply tunnel_connect_does|]. intros [r sniff]. apply finish_holding.
  - apply holding_seq; [by apply forward_http_does|]. intros r. apply finish_holding.
Qed.
Lemma respond_holding ctx status extra f : held (respond status extra ;; http_report_and_return (A := unit) ctx o f).
Proof. apply (holding_does _ _ _ (fun _ => True)), does_respond_return, passive_held. Qed.
End Held.

Lemma http_admitted_spec ctx o user request remainder a d w :
  let resolved := engine_decide_with_sniff (ou_decide o) user (rq_host request) None in
  wd_permit w = None -> d <> Block -> rd_decision resolved = d ->
  connect_outcome o user (rq_host request) (rq_port request) a w (snd (http_admitted ctx o user request remainder a resolved d w)).
Proof.
  intros resolved Hw Hd E. unfold http_admitted. cbv zeta. destruct (acquire_connection _ _ _) as [[p e']|err] eqn:Ea.
  - eapply holding_outcome; [done|fold resolved; congruence|exact Ea|].
    destruct (_ && _ && _); [apply http_tunnel_route_holding|].
    apply (dialled_holding o user _ _ _ d (ou_decide o) None); [done|set_solver|by rewrite <- E|].
    destruct (connect _ _ _ _ _ _) as [[[t egress]|err] ?]; [by apply http_exchange_holding|apply respond_holding].
  - destruct err; (apply passive_outcome; [|done]); first [by apply does_respond_return|apply does_halt].
Qed.
Lemma http_request_spec ctx o user request remainder a w :
  wd_permit w = None ->
  connect_outcome o user (rq_host request) (rq_port request) a w (snd (http_request ctx o user request remainder a w)).
Proof.
  intros Hw. unfold http_request. cbv zeta. set (rd := engine_decide_with_sniff _ _ _ _).
  destruct (rd_decision rd) as [|u|c|] eqn:E; [by apply http_admitted_spec..|].
  apply passive_outcome; [|done]. by apply does_respond_return.
Qed.

(** ** The whole handler *)

(** What one connection did: it only recorded, or, for a request that parsed and
    whose credentials were accepted, it held one permit. *)
Definition http_outcome (o : Outside) (mid : list action) : Prop :=
  mid = [] \/
  exists head request user pass a, ParsedRequest_parse head = Ok request /\
    rq_proxy_authorization request ≫= decode_basic = Some (user, pass) /\
    authenticate (ou_auth o) (ou_today o) user pass = Ok a /\
    one_permit o user (rq_host request) (rq_port request) a mid.

Lemma http_serve_body_spec ctx o w :
  wd_permit w = None ->
  exists pre mid, ended (snd (http_serve_body ctx o w)) = wd_log w ++ pre ++ mid /\ Forall passive pre /\ http_outcome o mid.
Proof.
  intros Hw. unfold http_serve_body. eapply ended_bind; [apply http_read_request_spec|done|by left|].
  intros [request remainder] w1 (head & Eh & _) Hw1. eapply ended_bind; [apply http_authenticate_spec|done|by left|].
  intros [user a] w2 (pass & Ed & Ea) Hw2.
  destruct (connect_outcome_ended _ _ _ _ _ _ _ (http_request_spec ctx o user request remainder a w2 Hw2)) as (pre & mid & E & Hp & Hm).
  exists pre, mid. split_and!; [done|done|]. destruct Hm as [->|Hm]; [by left|]. right. exists head, request, user, pass, a. by split_and!.
Qed.

(** C27: the HTTP handler is safe on every client, network and interleaving:
    whatever the bytes, it dials only for a request that parses, whose
    proxy credentials authenticate against the snapshot, only while holding a
    connection permit granted for that user, only the request's own host and
    port, and only under a decision for that user and host that does not block,
    before and after sniffing; the permit is taken at most once and given back
    exactly once, however the handler ends; any other client causes nothing but
    records. *)
Theorem http_serve_safe (ctx : Ctx) (o : Outside) (c : Conn) :
  let w := snd (http_serve ctx o (mkWorld c None [])) in
  wd_permit w = None /\
  exists pre mid, wd_log w = [ListenerOpen] ++ pre ++ mid ++ [ListenerClose] /\ Forall passive pre /\ http_outcome o mid.
Proof.
  destruct (served_ended (http_serve_body ctx o) c) as [Hp E].
  destruct (http_serve_body_spec ctx o (mkWorld c None [ListenerOpen]) eq_refl) as (pre & mid & Eb & Hpre & Hmid).
  split; [exact Hp|]. exists pre, mid. split; [|done].
  change (http_serve ctx o) with (act ListenerOpen ;; scope (http_serve_body ctx o)).
  rewrite E, Eb. cbn [wd_log]. by rewrite <- !app_assoc.
Qed.

(** ** Forwarding *)

(** A forwarded exchange that ends well: the origin got the forwarded head and
    then one body of the request's framing, the first of what the client sent
    after its head; the client got a prefix of the answer. *)
Lemma forward_http_exact target request forward remainder rate w s w' :
  body_fits (rq_body request) ->
  forward_http target (rq_method request) (rq_version request) (rq_headers request) (rq_connection_tokens request) forward
    (rq_body request) remainder rate w = (Ok (Ok s), w') ->
  exists b down rest, framed (rq_body request) b /\
    wd_log w' = wd_log w ++ [Forwarded (forwarded request forward ++ b) down] /\
    Reader.bytes (unread (prefixed_new remainder (cn_in (wd_conn w)))) = b ++ Reader.bytes (cn_in (wd_conn w')) /\
    source_bytes (source_of (cn_in target)) = co_delivered down ++ rest /\
    cn_sent (wd_conn w') = cn_sent (wd_conn w) ++ co_delivered down.
Proof.
  intros Hb H. unfold forward_http in H. cbv zeta in H. fold (forwarded request forward) in H. set (up0 := mkConn _ [] _) in H.
  assert (Hw : forall r up, cwrite BodyIo (forwarded request forward) up0 = (Ok r, up) ->
    cn_sent up = forwarded request forward /\ cn_in up = cn_in up0).
  { intros r up. unfold cwrite. by destruct (cn_writes up0) as [|[] ?]; intros [= _ <-]. }
  destruct (cwrite _ _ up0) as [[u|e] up]; [|done]. destruct (Hw u up eq_refl) as [Hs Hi].
  pose proof (copy_request_body_moves (reader_size (cn_in up)) (rq_body request) Hb up ltac:(cbn; lia)) as Hm.
  destruct (copy_request_body (rq_body request) up) as [[n|e] up'].
  2: { by destruct (copy_throttled_report _ _ _). }
  destruct Hm as (b & p & Es & Eb & _ & -> & Hf & _).
  destruct (copy_throttled_total (source_of (cn_in target)) (sink_of (cn_writes (wd_conn w))) rate) as (down & Ed & Hd).
  rewrite Ed in H. injection H as H <-. cbn [wd_log wd_conn cn_in cn_sent].
  destruct Hd as (sent & cut & rest & D1 & D2 & _). cbn [app] in D2, Eb.
  exists b, down, rest. rewrite Es, Hs, <- Eb, Hi, D1, D2, <- !app_assoc. done.
Qed.

(** ** The handler and this program's own HTTP client *)

(** What the client and the handler rely on of the base64 crate. *)
Class Base64Laws := base64_laws x : bytes_ok x ->
  base64_decode (base64_encode x) = Some x /\ Forall graphic (base64_encode x) /\ (x <> [] -> base64_encode x <> []).
Context {BL : Base64Laws}.

Section Client.
Context (up : Upstream) (user pass host : str) (port : Z).
Context (Huser : up_username up = Some user) (Hpass : default [] (up_password up) = pass).
Context (Hcolon : colon ∉ user) (Vuser : utf8_valid user = true) (Vpass : utf8_valid pass = true).
Context (Buser : bytes_ok user) (Bpass : bytes_ok pass).
Context (Hhost0 : host <> []) (Hhost : Forall graphic host) (Hbracket : host !! 0%nat <> Some 91).
Context (Hport : fits 16 port) (Hport0 : port <> 0).

Let authority : str := host ++ [colon] ++ fmt_dec port.
Let credentials : str := lit "Basic " ++ base64_encode (user ++ [colon] ++ pass).
Let headers : list Header :=
  [mkHeader (lit "Host") authority; mkHeader (lit "Proxy-Authorization") credentials; mkHeader (lit "Proxy-Connection") (lit "keep-alive")].
Let line : str := lit "CONNECT" ++ 32 :: authority ++ 32 :: lit "HTTP/1.1".

Lemma connect_request_text : http_connect_request up host port = head_text (line :: map header_line headers).
Proof.
  unfold http_connect_request, head_text, line, headers, header_line, authority, credentials, crlf. rewrite Huser, Hpass.
  cbn [map flat_map hd_name hd_value]. change (lit "CONNECT ") with (lit "CONNECT" ++ [32]). change (lit " HTTP/1.1") with ([32] ++ lit "HTTP/1.1").
  change (lit "Host: ") with (lit "Host" ++ lit ": "). change (lit "Proxy-Authorization: Basic ") with (lit "Proxy-Authorization" ++ lit ": " ++ lit "Basic ").
  change (lit "Proxy-Connection: keep-alive") with (lit "Proxy-Connection" ++ lit ": " ++ lit "keep-alive").
  by repeat progress (rewrite <- ?app_assoc; cbn [app]).
Qed.
Lemma authority_text : Forall graphic authority /\ authority <> [].
Proof.
  unfold authority. rewrite !Forall_app. destruct Hport. split_and!; [done|by apply graphic_lit|by apply fmt_radix_graphic|by destruct host].
Qed.
Lemma secret_bytes : bytes_ok (user ++ [colon] ++ pass).
Proof. apply Forall_app. split; [done|]. by constructor. Qed.
Lemma credentials_good :
  trim credentials = credentials /\ existsb bad_value_byte credentials = false /\ Forall (fun b => b < 128) credentials.
Proof.
  destruct (base64_laws (user ++ [colon] ++ pass) secret_bytes) as (_ & Hg & Hne). specialize (Hne ltac:(by destruct user)).
  unfold credentials. set (e := base64_encode _) in *. split_and!.
  - unfold trim. assert (strip_ws (lit "Basic " ++ e) = None) as H1 by by apply strip_ws_graphic.
    unfold trim_start. rewrite strip_while_none by done. unfold trim_end. rewrite strip_while_none; [apply rev_involutive|].
    destruct e as [|b e] using rev_ind; [done|]. rewrite app_assoc, rev_app_distr. cbn [rev app].
    apply strip_ws_rev_graphic. apply Forall_app in Hg as [_ Hg]. by inversion Hg.
  - rewrite existsb_app. apply orb_false_iff. split; [done|by apply graphic_header_value].
  - apply Forall_app. split; [by repeat constructor|]. eapply Forall_impl; [exact Hg|]. unfold graphic. lia.
Qed.
Lemma headers_good : Forall good_header headers.
Proof.
  destruct authority_text as [Ha _]. destruct credentials_good as (H1 & H2 & _).
  repeat apply Forall_cons_2; [..|constructor]; split_and!; cbn [hd_name hd_value]; try done; [by apply trim_graphic|by apply graphic_header_value].
Qed.
Lemma client_lines_good : Forall (fun l => l <> [] /\ line_text l) (line :: map header_line headers).
Proof.
  destruct authority_text as [Ha _]. constructor.
  - apply (request_line_good (mkRequest (lit "CONNECT") (lit "HTTP/1.1") [] None [] 0 Connect NoBody []) (mkForward authority [])); done.
  - apply Forall_fmap. eapply Forall_impl; [apply headers_good|]. intros x. apply good_header_line.
Qed.
Lemma client_utf8 : utf8_valid (http_connect_request up host port) = true.
Proof.
  apply utf8_ascii. rewrite connect_request_text. destruct authority_text as [Ha _]. destruct credentials_good as (_ & _ & Hc).
  assert (Forall (fun b => b < 128) authority) as Ha' by (eapply Forall_impl; [exact Ha|unfold graphic; lia]).
  unfold head_text, line, headers, header_line. cbn [map flat_map hd_name hd_value].
  rewrite !Forall_app, !Forall_cons, !Forall_app, !Forall_cons. split_and!; first [done|lia|by repeat constructor].
Qed.
Lemma client_parsed :
  exists r, ParsedRequest_parse (http_connect_request up host port) = Ok r /\ rq_host r = host /\ rq_port r = port /\
    rq_target r = Connect /\ rq_body r = NoBody /\ rq_proxy_authorization r = Some credentials.
Proof.
  destruct authority_text as [Ha Ha0]. unfold ParsedRequest_parse. cbv zeta. rewrite client_utf8. cbn [ensure mbind result_bind].
  rewrite connect_request_text, head_text_lines by (done || apply client_lines_good). cbn [hd tail].
  assert (parse_request_line line = Ok (lit "CONNECT", authority, lit "HTTP/1.1")) as ->.
  { apply parse_request_line_three; try done; [by apply no_ws_graphic|by right]. }
  cbn [mbind result_bind].
  rewrite parse_headers_lines by apply headers_good. cbn [mbind result_bind].
  change (headers_named "proxy-authorization" headers) with [mkHeader (lit "Proxy-Authorization") credentials].
  change (headers_named "connection" headers) with (@nil Header).
  change (existsb (named "upgrade") headers) with false.
  change (parse_request_body (lit "CONNECT") headers) with (@Ok RequestError RequestBody NoBody).
  change (eq_ignore_ascii_case (lit "CONNECT") (lit "CONNECT")) with true.
  cbn [map hd_value length Nat.ltb Nat.leb negb ensure mbind result_bind].
  change (ensure (negb _) ?e) with (@Ok RequestError unit tt).
  cbn [mbind result_bind]. unfold connect_target, authority. rewrite split_host_port_plain by done.
  change (ensure (bool_decide (NoBody = NoBody)) ?e) with (@Ok RequestError unit tt). cbn [ok_or mbind result_bind].
  rewrite (proj2 (is_empty_false host)), (proj2 (Z.eqb_neq port 0)) by done. cbn [orb negb ensure mbind result_bind].
  eexists. split; [reflexivity|]. by split_and!.
Qed.
Lemma client_decoded : decode_basic credentials = Some (user, pass).
Proof.
  destruct (base64_laws (user ++ [colon] ++ pass) secret_bytes) as (Hd & Hg & _). unfold decode_basic, credentials.
  rewrite strip_prefix_app. cbn [mbind option_bind]. rewrite trim_graphic, Hd by done. cbn [mbind option_bind].
  rewrite utf8_valid_app by done. change (utf8_valid ([colon] ++ pass)) with (utf8_valid pass). rewrite Vpass.
  by apply split_once_Some.
Qed.
Lemma client_one_head : find_sub (http_connect_request up host port) crlfcrlf = Some (length (http_connect_request up host port) - 4)%nat.
Proof.
  rewrite connect_request_text. rewrite find_sub_head by (done || apply client_lines_good).
  rewrite head_text_join, length_app by done. f_equal. cbn [length crlfcrlf]. lia.
Qed.
End Client.

Lemma client_handshake up host port :
  exchanges (http_handshake up host port) established (Ok tt) (http_connect_request up host port) [].
Proof.
  unfold http_handshake. eapply exchanges_out; [eapply exchanges_bind; [apply exchanges_write|]|by rewrite app_nil_r].
  intros c [Hs Hw] Hb. unfold mbind, conn_bind, chead, read_http_head.
  destruct (read_head_found (cn_in c) 8192 35) as (rem & s' & -> & Hs' & Er); [done|by rewrite Hb|by apply Nat.leb_le|].
  rewrite Hb in Er |- *. change (drop (35 + 4) established) with (@nil Z) in Er. apply app_eq_nil in Er as [-> Er].
  change (http_2xx (take (35 + 4) established ++ [])) with true. eexists. split; [reflexivity|]. cbn. by rewrite app_nil_r.
Qed.

(** This program's HTTP proxy client and its HTTP handler understand each
    other: for a user name without a colon, and any target, what the client
    writes is one head, which the handler reads from any fragmentation of the
    stream, leaving in it (or in the remainder) exactly what follows; it parses
    as a CONNECT request without a body for the client's host and port, whose
    credentials are the client's; and on the handler's answer the client's
    handshake succeeds, leaving no byte of the tunnel consumed. *)
Theorem http_client_server up user pass host port :
  up_username up = Some user -> default [] (up_password up) = pass -> colon ∉ user -> utf8_valid user = true ->
  utf8_valid pass = true -> bytes_ok user -> bytes_ok pass -> host <> [] -> Forall graphic host -> host !! 0%nat <> Some 91 -> fits 16 port -> port <> 0 ->
  let request := http_connect_request up host port in
  (exists r, ParsedRequest_parse request = Ok r /\ rq_host r = host /\ rq_port r = port /\ rq_target r = Connect /\
     rq_body r = NoBody /\ rq_proxy_authorization r ≫= decode_basic = Some (user, pass)) /\
  (forall s rest, Reader.no_error s = true -> Reader.bytes s = request ++ rest -> (length request <= HEAD_CAP)%nat ->
     exists remainder s', read_http_head_with_remainder s HEAD_CAP = Some (Ok (request, remainder), s') /\
       remainder ++ Reader.bytes s' = rest) /\
  exchanges (http_handshake up host port) established (Ok tt) request [].
Proof.
  intros Hu Hp Hc Vu Vp Bu Bp Hh0 Hh Hb Hport Hport0 request. split; [|split; [|apply client_handshake]].
  - destruct (client_parsed up user pass host port) as (r & E & H1 & H2 & H3 & H4 & H5); try done.
    exists r. rewrite H5. split_and!; try done. by apply client_decoded.
  - intros s rest Hs Eb Hl. pose proof (client_one_head up user pass host port) as Hf. fold request in Hf.
    assert (4 <= length request)%nat as H4.
    { subst request. rewrite (connect_request_text up user pass host port), head_text_join, length_app by done. cbn [length crlfcrlf]. lia. }
    destruct (read_head_found s HEAD_CAP (length request - 4)) as (rem & s' & E & _ & Er); [done| |lia|].
    { rewrite Eb. apply find_sub_app_Some; [done|]. by apply Hf. }
    replace (length request - 4 + 4)%nat with (length request) in * by lia. rewrite Eb, take_app_length, drop_app_length in *. eauto.
Qed.

End HttpProps.

(** ** A concrete session *)

Module HttpSession.
#[export] Existing Instances CidrNet.inst Book_api day_dates day_order.
#[export] Instance rustls : Rustls := SniffProps.Demo.rustls.
#[export] Instance httparse : Httparse := SniffProps.Demo.httparse.
#[export] Existing Instances HttpDemo.url.
(** A reversible textual encoding: two hexadecimal digits a byte. *)
#[export] Instance encode : Base64 := flat_map fmt_02x.
Fixpoint unhex (s : str) : option (list Z) :=
  match s with
  | [] => Some []
  | [_] => None
  | a :: b :: s => hi ← to_digit 16 a; lo ← to_digit 16 b; rest ← unhex s; Some (16 * hi + lo :: rest)
  end.
#[export] Instance decode : Base64Decode := unhex.
#[export] Instance laws : Base64Laws.
Proof.
  intros x Hx. unfold base64_encode, base64_decode, encode, decode. induction Hx as [|b x [Hb0 Hb] Hx (IH1 & IH2 & _)]; [done|].
  assert (0 <= b / 16 < 16) by (split; [apply Z.div_pos|apply Z.div_lt_upper_bound]; lia).
  assert (0 <= b mod 16 < 16) by (apply Z.mod_pos_bound; lia).
  cbn [flat_map fmt_02x app unhex]. rewrite !to_digit_digit_char by lia. cbn [mbind option_bind]. rewrite IH1.
  cbn [mbind option_bind]. split_and!; [do 2 f_equal; pose proof (Z.div_mod b 16); lia| |done].
  repeat (apply Forall_cons_2; [by apply digit_char_graphic|]). done.
Qed.

(** Every dial is accepted; the target answers and closes. *)
Definition env : Env :=
  mkNetEnv None (fun _ p => Some [SockV4 16843009 p]) (fun _ => true) (fun _ => true) (fun _ _ _ => true)
    (mkConn [Ok (lit "pong")] [] []) (fun _ _ _ => Err (ReverseUnavailable [])) (fun _ _ => None) (fun _ => Ok tt) 5.
Definition o : Outside :=
  mkOutside engine_demo engine_demo engine_demo engine_demo engine_demo 20300 (fun _ => env) 0
    (Sniff.mkEnv Z.of_nat (fun _ => false)) 0 (mkObs Incomplete None None) (SockV4 2130706433 5555) 9.
Definition ctx (enabled : bool) : Ctx :=
  mkCtx (lit "http") (mkSniffConfig enabled Route_ 64 100) true (mkEgressContext false false false).
Definition up : Upstream := mkUpstream Model.Http (lit "edge:8080") (Some (lit "alice")) (Some (lit "login-pw")) false false.
Definition client (b : list Z) : Conn := mkConn [Ok (take 9 b); Ok (take 30 (drop 9 b)); Ok (drop 39 b)] [] [].
Definition tunnelled : Conn := client (http_connect_request up (lit "one.example") 443 ++ lit "ping").
Definition forwarded_client : Conn :=
  client (HttpDemo.request [lit "Proxy-Authorization: Basic " ++ base64_encode (lit "alice:login-pw"); lit "Content-Length: 4"] ++ lit "data").
End HttpSession.

Section HttpSessions.
Import HttpSession.
(** A CONNECT session, without and with route-mode sniffing. *)
Example connect_session :
  let w := snd (http_serve (ctx false) o (mkWorld tunnelled None [])) in
  cn_sent (wd_conn w) = established ++ lit "pong" /\
  List.filter (fun a => match a with Report _ => false | _ => true end) (wd_log w) =
    [ListenerOpen; Authenticated (lit "alice"); Acquired (lit "alice"); Dialled Direct (lit "one.example") 443;
     EgressOpen (lit "direct"); Relayed (mkCopied (mkReport 4 None) (lit "ping") true) (mkCopied (mkReport 4 None) (lit "pong") true);
     Released (lit "alice"); RecordListener 4 4; RecordEgress (lit "direct") 4 4; EgressClose (lit "direct"); ListenerClose].
Proof. vm_compute. done. Qed.
Example connect_session_routed :
  let w := snd (http_serve (ctx true) o (mkWorld tunnelled None [])) in
  List.filter (fun a => match a with Relayed _ _ => true | _ => false end) (wd_log w) =
    [Relayed (mkCopied (mkReport 4 None) (lit "ping") true) (mkCopied (mkReport 4 None) (lit "pong") true)].
Proof. vm_compute. done. Qed.
(** A forwarded request. *)
Example forward_session :
  let w := snd (http_serve (ctx true) o (mkWorld forwarded_client None [])) in
  cn_sent (wd_conn w) = lit "pong" /\
  List.filter (fun a => match a with Forwarded _ _ => true | _ => false end) (wd_log w) =
    [Forwarded (head_text [lit "POST /a?b=1 HTTP/1.1"; lit "Host: one.example:8080"; lit "Content-Length: 4"; lit "Connection: close"] ++ lit "data")
       (mkCopied (mkReport 4 None) (lit "pong") true)].
Proof. vm_compute. done. Qed.

Lemma http_client_server_witness :
  exchanges (http_handshake up (lit "one.example") 443) established (Ok tt) (http_connect_request up (lit "one.example") 443) [].
Proof.
  apply (http_client_server up (lit "alice") (lit "login-pw") (lit "one.example") 443); try reflexivity; try done.
  - by apply (bool_decide_unpack _).
  - repeat constructor; done.
  - repeat constructor; done.
  - by apply graphic_lit.
Defined.
End HttpSessions.
