(* ===== verification/Sni.v ===== *)
(** * Sni: the TLS-transparent gateway (src/src/inbound/sni.rs)

    A listener bound to one snapshot user and to a closed list of origins: the
    handler reads the client's ClientHello, dials its server name only when the
    list has it, and relays the bytes unchanged. Also models the compilation of
    its configuration ([Listener::sni_gateway_config] of src/src/config.rs). The
    TLS parser and the url crate are parameters, as for the stream classifier. *)

From Stdlib Require Import ZArith Lia String.
From stdpp Require Import prelude strings list gmap.
From S2P Require Import Sniff SniffProps.
From S2P Require Import Prelude RustStr Net NetProps RustFmt Util Frame Stream Conn Domain Policy Book Model Engine Outbound Io Handler Inbound Socks5.

(** ** Configuration *)

(** The fields of [Listener] the compilation reads. *)
Record Listener := mkListener { li_protocol : str; li_tls : bool; li_identity : option str; li_origins : list str }.
Record SniGatewayConfig := mkGateway { gw_identity : str; gw_origins : gset (list Z) }.
Inductive GatewayError := WrongProtocol | TlsSet | IdentityMissing | OriginsMissing | InvalidOrigin | DuplicateOrigin.

Fixpoint compile_origins (l : list str) (origins : gset (list Z)) : result GatewayError (gset (list Z)) :=
  match l with
  | [] => Ok origins
  | origin :: l =>
      normalized ← ok_or (normalize_dns_name origin) InvalidOrigin;
      ensure (bool_decide (normalized ∉ origins)) DuplicateOrigin ;;
      compile_origins l ({[normalized]} ∪ origins)
  end.
(** [Listener::sni_gateway_config] *)
Definition sni_gateway_config (l : Listener) : result GatewayError SniGatewayConfig :=
  ensure (eq_ignore_ascii_case (trim (li_protocol l)) (lit "sni")) WrongProtocol ;;
  ensure (negb (li_tls l)) TlsSet ;;
  identity ← ok_or (i ← li_identity l; if is_empty (trim i) then None else Some (trim i)) IdentityMissing;
  ensure (negb (is_empty (li_origins l))) OriginsMissing ;;
  origins ← compile_origins (li_origins l) ∅;
  Ok (mkGateway identity origins).
(** [SniGatewayConfig::allows] *)
Definition allows (g : SniGatewayConfig) (host : str) : bool := bool_decide (host ∈ gw_origins g).

(** [SocketAddr::port] *)
Definition socket_port (a : SocketAddr) : Z := match a with SockV4 _ port | SockV6 _ port _ _ => port end.

(** [trusted_sni] *)
Definition trusted_sni (o : SniffObservation) : option str :=
  if bool_decide (outcome o = Matched) && bool_decide (obs_protocol o = Some Sniff.Tls) then obs_host o else None.

(** ** The handler *)

(** [TrafficIdentity::with_ingress_mode] and [with_gateway_origin] *)
Definition with_ingress_mode (i : TrafficIdentity) (mode : str) : TrafficIdentity :=
  mkIdentity (ti_requested_host i) (ti_requested_port i) (ti_sniff i) (ti_policy i) (ti_dial_host i) (ti_dial_port i)
    (Some mode) (ti_origin_id i).
Definition with_gateway_origin (i : TrafficIdentity) (mode origin : str) : TrafficIdentity :=
  mkIdentity (ti_requested_host i) (ti_requested_port i) (ti_sniff i) (ti_policy i) (ti_dial_host i) (ti_dial_port i)
    (Some mode) (Some origin).

(** [TraceFields]: the common fields, then [ingress_mode] and [origin_id]. *)
Record SniFields := mkSniFields { sn_fields : TraceFields; sn_ingress_mode : option str; sn_origin_id : option str }.
Definition plain (f : TraceFields) : SniFields := mkSniFields f None None.
Definition gateway (f : TraceFields) (origin : option str) : SniFields := mkSniFields f (Some (lit "sni")) origin.

Section Sni.
Context {N : Ipnet} {B : BookApi} {D : Chrono} {O : ChronoOrder D} {B64 : Base64}.
Context {R : Rustls} {HP : Httparse} {UC : UrlCrate}.

Definition sni_candidate (ctx : Ctx) (o : Outside) (s : SniFields) : TraceCandidate :=
  let f := sn_fields s in
  let traffic :=
    match tf_target_host f, tf_target_port f with
    | Some host, Some port =>
        let identity := identity_new host port in
        let identity := match tf_policy f with Some p => with_policy identity p | None => identity end in
        let identity := match tf_sniff f with Some ob => with_observation identity ob | None => identity end in
        let identity := match sn_ingress_mode s with Some m => with_ingress_mode identity m | None => identity end in
        Some (match sn_origin_id s with
              | Some origin => with_gateway_origin identity (default (lit "sni") (sn_ingress_mode s)) origin
              | None => identity
              end)
    | _, _ => None
    end in
  mkCandidate (cx_listener ctx) (lit "sni") (Some (display_socket (ou_peer o))) (tf_username f) (tf_target_host f)
    (tf_target_port f) traffic (tf_sniff f) (tf_decision f) (tf_egress f) (tf_chain_member f) (tf_attempts f)
    (tf_result f) (tf_failure_stage f) (tf_message f) (engine_version (ou_report o)) (ou_duration o).
(** [report] *)
Definition sni_report (ctx : Ctx) (o : Outside) (s : SniFields) : handler unit :=
  let f := sn_fields s in
  acts ([RecordListener (tf_bytes_up f) (tf_bytes_down f)] ++
    match tf_sniff f with Some ob => [RecordSniff (outcome ob)] | None => [] end ++
    match (match tf_egress f with Some e => Some e | None => tf_decision f end) with
    | Some d => if str_eqb d (lit "block") then [] else [RecordEgress d (tf_bytes_up f) (tf_bytes_down f)]
    | None => []
    end ++
    (if cx_consumers ctx then [Report (sni_candidate ctx o s)] else [])).
Definition sni_return {A} (ctx : Ctx) (o : Outside) (s : SniFields) : handler A := sni_report ctx o s ;; halt Return.

(** The report after the splice *)
Definition sni_relayed {E} (user host : str) (port : Z) (decision : str) (egress : EgressInfo) (ob : SniffObservation)
    (policy : PolicyAttribution) (r : result E SpliceStats) : SniFields :=
  let '(result, stage, message, up, down) :=
    match r with
    | Ok s => (TraceOk, None, None, ss_bytes_up s, ss_bytes_down s)
    | Err _ => (TraceError, Some (lit "splice"), Some (lit "TLS stream relay failed"), 0, 0)
    end in
  gateway (mkFields (Some user) (Some host) (Some port) (Some decision) (Some (ei_label egress)) (ei_member_id egress)
    (Some (ei_attempts egress)) (Some ob) (Some policy) result stage message up down) (Some host).
(** The ClientHello *)
Definition sni_capture (ctx : Ctx) (o : Outside) (user : str) : handler CapturedPrefix := fun w =>
  match capture_prefix (cn_in (wd_conn w)) (sc_max_bytes (cx_sniff ctx)) (sc_timeout_ms (cx_sniff ctx)) (ou_capture_start o)
          (ou_capture o) with
  | Some (Ok (cap, rd)) =>
      (Ok cap, mkWorld (mkConn rd (cn_sent (wd_conn w)) (cn_writes (wd_conn w))) (wd_permit w) (wd_log w))
  | Some (Err _) =>
      sni_return ctx o (plain (failed (Some user) None None None None None (lit "sni_read") (lit "ClientHello read failed"))) w
  | None => (Err IoFailed, w)
  end.
(** From an allowed server name on *)
Definition sni_dial (ctx : Ctx) (o : Outside) (user host : str) (port : Z) (a : AuthOk) (cap : CapturedPrefix) (ob : SniffObservation)
    : handler unit :=
  let resolved := engine_decide_with_sniff (ou_decide o) user host None in
  let decision := decision_label (rd_decision resolved) in
  let policy := attribution resolved in
  let failing attempts stage message :=
    gateway (failed (Some user) (Some (host, port)) (Some decision) attempts (Some ob) (Some policy) stage message) (Some host) in
  match rd_decision resolved with
  | Block => sni_return ctx o (failing None (lit "policy") (lit "blocked by policy"))
  | d =>
      act (Dialled d host port) ;;
      match connect (ou_envs o) (ou_now o) d host port (cx_egress ctx) with
      | (Err e, _) => sni_return ctx o (failing (chain_attempts e) (failure_stage e) (lit "upstream connect failed"))
      | (Ok (t, egress), _) =>
          with_egress (ei_label egress)
            (with_prefix (bytes cap)
               (r ← relay (tn_conn t) (ao_up_rate a) (ao_down_rate a);
                sni_report ctx o (sni_relayed user host port decision egress ob policy r)))
      end
  end.
(** Under the connection permit *)
Definition sni_admitted (ctx : Ctx) (o : Outside) (g : SniGatewayConfig) (local : option SocketAddr) (a : AuthOk) : handler unit :=
  let user := gw_identity g in
  match (l ← local; if socket_port l =? 0 then None else Some (socket_port l)) with
  | None =>
      sni_return ctx o (plain (failed (Some user) None None None None None (lit "listener") (lit "gateway listener port unavailable")))
  | Some port =>
      cap ← sni_capture ctx o user;
      match captured_observation cap with
      | None => halt IoFailed
      | Some ob =>
          match trusted_sni ob with
          | None =>
              sni_return ctx o (plain (failed (Some user) None None None (Some ob) None (lit "sni") (lit "valid TLS SNI is required")))
          | Some host =>
              if allows g host then sni_dial ctx o user host port a cap ob
              else sni_return ctx o (gateway (failed (Some user) (Some (host, port)) None None (Some ob) None
                     (lit "sni_allowlist") (lit "SNI is not an allowed origin")) None)
          end
      end
  end.
Definition sni_body (ctx : Ctx) (o : Outside) (g : SniGatewayConfig) (local : option SocketAddr) : handler unit :=
  let user := gw_identity g in
  match authenticate_bound_identity (ou_auth o) (ou_today o) user with
  | Err e =>
      sni_return ctx o (plain (failed (Some user) None None None None None (lit "auth")
        (match e with Expired => lit "bound gateway identity expired" | _ => lit "bound gateway identity unavailable" end)))
  | Ok a =>
      match acquire_connection (ou_acquire o) user (ao_max_connections a) with
      | Err _ =>
          sni_return ctx o (gateway (failed (Some user) None None None None None (lit "limit") (lit "connection limit exceeded")) None)
      | Ok (p, _) => hold p ;; sni_admitted ctx o g local a
      end
  end.
(** [serve] *)
Definition sni_serve (ctx : Ctx) (o : Outside) (g : SniGatewayConfig) (local : option SocketAddr) : handler unit :=
  act ListenerOpen ;; scope (sni_body ctx o g local).

End Sni.

(** * What the SNI gateway guarantees

    On every client, network and interleaving it dials only an allowed origin
    that the client's own ClientHello named, for the bound user and under that
    user's permit, and the origin receives the client's bytes unchanged. *)

(** ** Configuration *)

Lemma compile_origins_spec l origins r :
  compile_origins l origins = Ok r -> forall h, h ∈ r <-> h ∈ origins \/ exists origin, origin ∈ l /\ normalize_dns_name origin = Some h.
Proof.
  revert origins; induction l as [|a l IH]; intros origins H h; cbn [compile_origins] in H.
  { injection H as <-. split; [by left|]. intros [?|(x & Hx & _)]; [done|by apply elem_of_nil in Hx]. }
  apply bind_Ok in H as (n & Hn & H). apply ok_or_Ok in Hn. apply bind_Ok in H as (_ & _ & H). rewrite (IH _ H). split.
  - intros [Hin|(x & Hx & E)]; [|right; exists x; split; [by right|done]]. apply elem_of_union in Hin as [->%elem_of_singleton|]; [|by left].
    right. exists a. split; [by left|done].
  - intros [|(x & [->|Hx]%elem_of_cons & E)]; [left; set_solver| |right; eauto]. left. assert (n = h) as -> by congruence. set_solver.
Qed.

(** ** What is captured is handed over *)

Section Capture.
Context {R : Rustls} {HP : Httparse} {UC : UrlCrate}.

Lemma read_nonempty n r c r' : (0 < n)%nat -> Reader.read n r = (Ok c, r') -> c <> [] -> Reader.bytes r = c ++ Reader.bytes r'.
Proof.
  intros Hn H Hc. unfold Reader.read in H. destruct r as [|[b|e] r]; [by injection H as <- _| |done].
  destruct (length b <=? n)%nat eqn:E; injection H as <- <-; [by destruct b|]. apply Nat.leb_gt in E.
  destruct b as [|x b]; [cbn in E; lia|]. destruct n as [|n]; [lia|]. cbn in E. cbn [take drop].
  destruct (drop n b) as [|y t] eqn:Ed; [apply (f_equal length) in Ed; rewrite length_drop in Ed; cbn in Ed; lia|].
  cbn [Reader.bytes app]. f_equal. change (y :: t ++ Reader.bytes r) with ((y :: t) ++ Reader.bytes r).
  by rewrite <- Ed, app_assoc, take_drop.
Qed.
(** A capture that saw what it looked for did not read to the end. *)
Lemma capture_loop_matched fuel i E max chunk st bs r st' bs' i' r' ob :
  (0 < chunk)%nat -> capture_loop fuel i E max chunk st bs r = Some (Ok (st', bs', i', r')) ->
  fst (snapshot st' (now_at E i')) = Some ob -> outcome ob = Matched ->
  bs ++ Reader.bytes r = bs' ++ Reader.bytes r'.
Proof.
  intros Hc. revert i st bs r; induction fuel as [|fuel IH]; intros i st bs r H Hob Hm; [done|]. cbn [capture_loop] in H.
  destruct (observation st) eqn:Eo; [by injection H as <- <- <- <-|]. cbv zeta in H.
  destruct (Nat.eqb_spec (max - length bs) 0); [by injection H as <- <- <- <-|].
  destruct (deadline_at E i); [by injection H as <- <- <- <-|].
  destruct (Reader.read _ r) as [[read|] r1] eqn:Er; [|done]. destruct (Nat.eqb_spec (length read) 0) as [He|He].
  - injection H as <- <- <- <-. exfalso. unfold finish_stream in Hob. rewrite Eo in Hob. unfold snapshot in Hob. cbn in Hob.
    injection Hob as <-. destruct (Sniff.expired st (now_at E i)); discriminate Hm.
  - assert (Hn : (0 < Nat.min (max - length bs) chunk)%nat) by lia.
    rewrite (read_nonempty _ _ _ _ Hn Er) by (by intros ->). rewrite app_assoc. by eapply IH.
Qed.
Lemma capture_prefix_matched r max t0 start E cap r' ob :
  capture_prefix r max t0 start E = Some (Ok (cap, r')) -> captured_observation cap = Some ob -> outcome ob = Matched ->
  Reader.bytes r = bytes cap ++ Reader.bytes r'.
Proof.
  unfold capture_prefix. set (m := Nat.min max HARD_MAX_SNIFF_BYTES).
  destruct (capture_loop _ _ _ _ _ _ _ _) as [[[[[st bs] i] r1]|e]|] eqn:El; try done. intros [= <- <-] Hob Hm. cbn in Hob |- *.
  eapply (capture_loop_matched _ _ _ _ _ _ [] r) in El; [done|lia|exact Hob|done].
Qed.
(** Nor did one that stopped short of the stream's end. *)
Lemma capture_loop_short fuel i E max chunk st bs r st' bs' i' r' :
  (0 < chunk)%nat -> capture_loop fuel i E max chunk st bs r = Some (Ok (st', bs', i', r')) ->
  bs' <> bs ++ Reader.bytes r -> bs ++ Reader.bytes r = bs' ++ Reader.bytes r'.
Proof.
  intros Hc. revert i st bs r; induction fuel as [|fuel IH]; intros i st bs r H Hne; [done|]. cbn [capture_loop] in H.
  destruct (observation st) eqn:Eo; [by injection H as <- <- <- <-|]. cbv zeta in H.
  destruct (Nat.eqb_spec (max - length bs) 0); [by injection H as <- <- <- <-|].
  destruct (deadline_at E i); [by injection H as <- <- <- <-|].
  assert (Hn : (0 < Nat.min (max - length bs) chunk)%nat) by lia.
  destruct (Reader.read _ r) as [[read|] r1] eqn:Er; [|done]. destruct (Nat.eqb_spec (length read) 0) as [He|He].
  - injection H as <- <- <- <-. exfalso. apply Hne. apply nil_length_inv in He as ->.
    unfold Reader.read in Er. destruct r as [|[[|x b]|e] r]; [by rewrite app_nil_r..| |done].
    destruct (Nat.min (max - length bs) chunk); [lia|]. case_match; done.
  - rewrite (read_nonempty _ _ _ _ Hn Er) in Hne |- * by (by intros ->). rewrite app_assoc in Hne |- *. by eapply IH.
Qed.
Lemma capture_prefix_short r max t0 start E cap r' :
  capture_prefix r max t0 start E = Some (Ok (cap, r')) -> bytes cap <> Reader.bytes r -> Reader.bytes r = bytes cap ++ Reader.bytes r'.
Proof.
  unfold capture_prefix. set (m := Nat.min max HARD_MAX_SNIFF_BYTES).
  destruct (capture_loop _ _ _ _ _ _ _ _) as [[[[[st bs] i] r1]|e]|] eqn:El; try done. intros [= <- <-] Hne. cbn in Hne |- *.
  eapply (capture_loop_short _ _ _ _ _ _ [] r) in El; [done|lia|done].
Qed.
Lemma unread_bytes prefix r : Reader.bytes (unread (prefixed_new prefix r)) = prefix ++ Reader.bytes r.
Proof. unfold unread, prefixed_new. cbn. by destruct prefix. Qed.
Lemma trusted_matched ob h : trusted_sni ob = Some h -> outcome ob = Matched /\ obs_protocol ob = Some Sniff.Tls /\ obs_host ob = Some h.
Proof. unfold trusted_sni. destruct (bool_decide _ && bool_decide _) eqn:E; [|done]. bools. done. Qed.
End Capture.

(** ** The handler *)

Section Serve.
Context {N : Ipnet} {B : BookApi} {D : Chrono} {O : ChronoOrder D} {B64 : Base64}.
Context {R : Rustls} {HP : Httparse} {UC : UrlCrate}.
Context (ctx : Ctx) (o : Outside) (g : SniGatewayConfig) (local : option SocketAddr) (client : Conn).

(** The server name the gateway read from this client. *)
Definition named (host : str) : Prop :=
  exists cap rd ob,
    capture_prefix (cn_in client) (sc_max_bytes (cx_sniff ctx)) (sc_timeout_ms (cx_sniff ctx)) (ou_capture_start o) (ou_capture o)
    = Some (Ok (cap, rd)) /\ captured_observation cap = Some ob /\ trusted_sni ob = Some host.
(** What may happen under the permit: the only dial is to an allowed origin the
    client named, at the port it connected to, under a decision for the bound
    user that does not block; and what the origin is sent are the client's bytes. *)
Definition sni_held (x : action) : Prop :=
  match x with
  | Dialled d h p =>
      d <> Block /\ d = rd_decision (engine_decide_with_sniff (ou_decide o) (gw_identity g) h None) /\
      allows g h = true /\ named h /\ exists l, local = Some l /\ p = socket_port l
  | Relayed up _ => exists rest, Reader.bytes (cn_in client) = co_delivered up ++ rest
  | Acquired _ | Released _ | Associate _ | ListenerOpen | ListenerClose => False
  | _ => True
  end.
Lemma passive_sni a : passive a -> sni_held a.
Proof. by destruct a. Qed.
Lemma sni_report_does s : does passive (fun _ => True) (sni_report ctx o s).
Proof. apply does_acts; [|done]. rewrite !Forall_app. split_and!; repeat case_match; repeat constructor. Qed.
Lemma sni_return_does P s : (forall a, passive a -> P a) -> does P (fun _ : unit => True) (sni_return ctx o s).
Proof. intros H. apply does_seq; [eapply does_weaken; [exact H|apply sni_report_does]|intros; apply does_halt]. Qed.
Lemma sni_return_adds s w : adds sni_held (sni_return (A := unit) ctx o s) w.
Proof. eapply adds_does, sni_return_does, passive_sni. Qed.

(** The relay, from a world that holds the rest of the client's stream. *)
Lemma sni_relay_adds (cap : CapturedPrefix) t up down (k : result ErrorKind SpliceStats -> SniFields) w :
  Reader.bytes (cn_in client) = bytes cap ++ Reader.bytes (cn_in (wd_conn w)) ->
  adds sni_held (with_prefix (bytes cap) (r ← relay t up down; sni_report ctx o (k r))) w.
Proof.
  intros Hb. set (w1 := mkWorld (mkConn (unread (prefixed_new (bytes cap) (cn_in (wd_conn w)))) (cn_sent (wd_conn w)) (cn_writes (wd_conn w)))
    (wd_permit w) (wd_log w)). change (adds sni_held (relay t up down ≫= fun r => sni_report ctx o (k r)) w1). apply relay_adds.
  - intros ou od [rest Hr]. exists rest. unfold w1 in Hr. cbn [wd_conn cn_in] in Hr. rewrite unread_bytes in Hr. by rewrite Hb.
  - intros r w2. eapply adds_does, does_weaken; [apply passive_sni|apply sni_report_does].
Qed.
Lemma sni_dial_adds host l a cap ob w :
  allows g host = true -> named host -> local = Some l ->
  Reader.bytes (cn_in client) = bytes cap ++ Reader.bytes (cn_in (wd_conn w)) ->
  adds sni_held (sni_dial ctx o (gw_identity g) host (socket_port l) a cap ob) w.
Proof.
  intros Hall Hn Hloc Hb. unfold sni_dial. set (rd := engine_decide_with_sniff (ou_decide o) (gw_identity g) host None).
  assert (Hgo : forall d, d <> Block -> d = rd_decision rd -> sni_held (Dialled d host (socket_port l)))
    by (intros d Hd E; cbn; split_and!; eauto).
  destruct (rd_decision rd) as [|u|ch|] eqn:E; [..|apply sni_return_adds];
    (apply adds_act; [by apply Hgo|]; destruct (connect _ _ _ _ _ _) as [[[t egress]|err] ?]; [|apply sni_return_adds];
     apply adds_with_egress; [done..|]; apply sni_relay_adds; exact Hb).
Qed.
Lemma sni_admitted_adds a w : wd_conn w = client -> adds sni_held (sni_admitted ctx o g local a) w.
Proof.
  intros Hw. unfold sni_admitted. destruct local as [l|] eqn:El; cbn [mbind option_bind]; [|apply sni_return_adds].
  destruct (socket_port l =? 0); [apply sni_return_adds|].
  unfold adds at 1, mbind, handler_bind, sni_capture. rewrite Hw.
  destruct (capture_prefix _ _ _ _ _) as [[[cap rd]|e]|] eqn:Ec.
  - set (w1 := mkWorld _ _ _).
    change (wd_log w) with (wd_log w1). change (wd_permit w) with (wd_permit w1).
    destruct (captured_observation cap) as [ob|] eqn:Eo; [|exists []; by rewrite app_nil_r].
    destruct (trusted_sni ob) as [host|] eqn:Et; [|apply sni_return_adds].
    destruct (allows g host) eqn:Ea; [|apply sni_return_adds].
    apply sni_dial_adds; [done|by exists cap, rd, ob|done|]. destruct (trusted_matched _ _ Et) as (Hm & _).
    by eapply capture_prefix_matched.
  - set (s := plain _). destruct (sni_return_adds s w) as (m & E & Hm & Hp).
    exists m. unfold sni_return, mbind, handler_bind in *. destruct (sni_report ctx o s w) as [[] w']; done.
  - exists []. by rewrite app_nil_r.
Qed.

(** What one connection did, the listener's own actions apart. *)
Definition sni_outcome (mid : list action) : Prop :=
  Forall passive mid \/
  exists a held, authenticate_bound_identity (ou_auth o) (ou_today o) (gw_identity g) = Ok a /\
    (exists p e, acquire_connection (ou_acquire o) (gw_identity g) (ao_max_connections a) = Ok (p, e)) /\
    mid = [Acquired (gw_identity g)] ++ held ++ [Released (gw_identity g)] /\ Forall sni_held held.
Lemma sni_body_spec w :
  wd_conn w = client -> wd_permit w = None ->
  exists mid, ended (snd (sni_body ctx o g local w)) = wd_log w ++ mid /\ sni_outcome mid.
Proof.
  intros Hc Hp. unfold sni_body.
  assert (Hret : forall s, exists mid, ended (snd (sni_return (A := unit) ctx o s w)) = wd_log w ++ mid /\ sni_outcome mid).
  { intros s. destruct (sni_return_does passive s (fun a H => H) w) as (l & E & Hl & Hpp & _). exists l. unfold ended.
    rewrite Hpp, Hp, E, app_nil_r. split; [done|by left]. }
  destruct (authenticate_bound_identity _ _ _) as [a|e] eqn:Ea; [|apply Hret].
  destruct (acquire_connection _ _ _) as [[p e]|e] eqn:Eq; [|apply Hret]. pose proof (acquire_username _ _ _ _ _ Eq) as Ep.
  set (w1 := mkWorld (wd_conn w) (Some p) (wd_log w ++ [Acquired (cp_username p)])).
  change (snd ((hold p ;; sni_admitted ctx o g local a) w)) with (snd (sni_admitted ctx o g local a w1)).
  destruct (sni_admitted_adds a w1 Hc) as (l & E & Hl & Hpp). unfold ended. rewrite Hpp, E. cbn [wd_permit wd_log w1].
  rewrite Ep. exists ([Acquired (gw_identity g)] ++ l ++ [Released (gw_identity g)]). rewrite <- !app_assoc. split; [done|].
  right. exists a, l. split_and!; eauto.
Qed.

End Serve.

(** ** A session *)

Module SniDemo.
Import Socks5Demo.
Definition listener : Listener := mkListener (lit " SNI ") false (Some (lit " alice ")) [lit "One.Example."; lit "two.example"].
Definition g : SniGatewayConfig := mkGateway (lit "alice") ({[lit "two.example"; lit "one.example"]} : gset (list Z)).
Example gateway_compiled : sni_gateway_config listener = Ok g.
Proof. vm_compute. reflexivity. Qed.
Definition duplicate : Listener := mkListener (lit "sni") false (Some (lit "alice")) [lit "one.example"; lit "ONE.example"].
Example gateway_rejected : sni_gateway_config duplicate = Err DuplicateOrigin.
Proof. vm_compute. reflexivity. Qed.

Definition local : SocketAddr := SockV4 2130706433 443.
Definition hello (name : str) : list Z := [22; 3; 1; 0; 9] ++ name.
Definition client (name : str) : Conn := mkConn [Ok (hello name); Ok (lit "ping")] [] [].
(** An allowed name is relayed with its ClientHello; another is only recorded. *)
Example gateway_session :
  let w := snd (sni_serve (ctx true) o g (Some local) (mkWorld (client (lit "one.example")) None [])) in
  cn_sent (wd_conn w) = lit "pong" /\
  List.filter (fun a => match a with Report _ | RecordSniff _ => false | _ => true end) (wd_log w) =
    [ListenerOpen; Acquired (lit "alice"); Dialled Direct (lit "one.example") 443; EgressOpen (lit "direct");
     Relayed (mkCopied (mkReport 20 None) (hello (lit "one.example") ++ lit "ping") true) (mkCopied (mkReport 4 None) (lit "pong") true);
     RecordListener 20 4; RecordEgress (lit "direct") 20 4; EgressClose (lit "direct"); Released (lit "alice"); ListenerClose].
Proof. vm_compute. done. Qed.
Example gateway_refuses :
  let w := snd (sni_serve (ctx true) o g (Some local) (mkWorld (client (lit "evil.example")) None [])) in
  List.filter (fun a => match a with Report _ | RecordSniff _ => false | _ => true end) (wd_log w) =
    [ListenerOpen; Acquired (lit "alice"); RecordListener 0 0; Released (lit "alice"); ListenerClose].
Proof. vm_compute. done. Qed.
End SniDemo.
