(* ===== verification/Socks5Udp.v ===== *)
(** * Socks5Udp: the datagram relay of UDP ASSOCIATE (src/src/inbound/socks5_udp.rs)

    The datagram codec, and the association as a machine whose events are what
    its select loop and its downlink task receive. The hop behind the relay, the
    local socket and the control stream are those events. *)

From Stdlib Require Import ZArith Lia String.
From stdpp Require Import prelude strings list gmap.
From S2P Require Import Sniff.
From S2P Require Import Prelude RustStr Net NetProps RustFmt Util Frame Stream Conn Domain Policy Book Model Engine Outbound Io Handler Inbound Socks5.

(** ** The codec *)

Record UdpDatagram := mkUdpDatagram { dg_frag : Z; dg_host : str; dg_port : Z; dg_data_offset : nat }.

(** [parse_udp_datagram] *)
Definition parse_udp_datagram (buf : list Z) : option UdpDatagram :=
  guard (4 <= length buf)%nat ;;
  let frag := nth 2 buf 0 in
  let atyp := nth 3 buf 0 in
  let off := 4%nat in
  '(host, off) ←
    (if atyp =? 1 then
       guard (off + 4 <= length buf)%nat ;; Some (display_v4 (from_be_bytes (take 4 (drop off buf))), (off + 4)%nat)
     else if atyp =? 4 then
       guard (off + 16 <= length buf)%nat ;; Some (display_v6 (from_be_bytes (take 16 (drop off buf))), (off + 16)%nat)
     else if atyp =? 3 then
       l ← buf !! off;
       let l := Z.to_nat l in
       let off := (off + 1)%nat in
       guard (l <> 0 /\ off + l <= length buf)%nat ;; Some (from_utf8_lossy (take l (drop off buf)), (off + l)%nat)
     else None);
  guard (off + 2 <= length buf)%nat ;;
  Some (mkUdpDatagram frag host (from_be_bytes (take 2 (drop off buf))) (off + 2)%nat).

(** [encode_udp_datagram] *)
Definition encode_udp_datagram (host : str) (port : Z) (data : list Z) : list Z :=
  [0; 0; 0] ++
  match parse_ip_addr host with
  | Some (V4 v4) => [1] ++ to_be_bytes 4 v4
  | Some (V6 v6) => [4] ++ to_be_bytes 16 v6
  | None =>
      let len := Nat.min (length host) (Z.to_nat u8_max) in
      [3; Z.of_nat len] ++ take len host
  end ++ to_be_bytes 2 port ++ data.

(** The bytes [reply_addr] writes. *)
Definition reply_addr (rep : Z) (bnd : SocketAddr) : list Z :=
  [5; rep; 0] ++
  match bnd with
  | SockV4 ip port => [1] ++ to_be_bytes 4 ip ++ to_be_bytes 2 port
  | SockV6 ip port _ _ => [4] ++ to_be_bytes 16 ip ++ to_be_bytes 2 port
  end.
(** [unspecified] *)
Definition unspecified (ip : IpAddr) : SocketAddr :=
  match ip with V4 a => SockV4 a 0 | V6 a => SockV6 a 0 0 0 end.
(** [SocketAddr::ip] *)
Definition socket_ip (a : SocketAddr) : IpAddr := match a with SockV4 ip _ => V4 ip | SockV6 ip _ _ _ => V6 ip end.

(** ** The association *)

(** The locals of [serve_associate]. The relay is the hop it is bound to;
    [ac_downlink] is whether the downlink task runs, [ac_open] whether the
    select loop does. *)
Record Association := mkAssociation {
  ac_open : bool; ac_bytes_down : Z; ac_bytes_up : Z; ac_client_addr : option SocketAddr; ac_relay : option str;
  ac_downlink : bool; ac_decision_name : str; ac_egress_info : option EgressInfo; ac_failed_attempts : option Z;
  ac_result : TraceResult
}.
Definition association_start : Association :=
  mkAssociation true 0 0 None None false (lit "direct") None None TraceOk.

(** What the association does to the rest of the world; [Ended] is the loop's
    end, with the state the report is made of. *)
Inductive Output :=
| ToHop (hop host : str) (port : Z) (payload : list Z) (sent : bool)
| ToClient (client : SocketAddr) (packet : list Z)
| Ended (a : Association).

Definition close (a : Association) : Association :=
  mkAssociation false (ac_bytes_down a) (ac_bytes_up a) (ac_client_addr a) (ac_relay a) (ac_downlink a) (ac_decision_name a)
    (ac_egress_info a) (ac_failed_attempts a) (ac_result a).
Definition latch (src : SocketAddr) (a : Association) : Association :=
  mkAssociation (ac_open a) (ac_bytes_down a) (ac_bytes_up a) (Some src) (ac_relay a) (ac_downlink a) (ac_decision_name a)
    (ac_egress_info a) (ac_failed_attempts a) (ac_result a).
Definition opened (label : str) (hop : str) (egress : EgressInfo) (a : Association) : Association :=
  mkAssociation (ac_open a) (ac_bytes_down a) (ac_bytes_up a) (ac_client_addr a) (Some hop) true label
    (Some egress) (ac_failed_attempts a) (ac_result a).
Definition unopened (label : str) (err : ProxyError) (a : Association) : Association :=
  mkAssociation (ac_open a) (ac_bytes_down a) (ac_bytes_up a) (ac_client_addr a) (ac_relay a) (ac_downlink a) label
    (ac_egress_info a) (match chain_attempts err with Some n => Some n | None => ac_failed_attempts a end) TraceError.
Definition add_up (n : Z) (a : Association) : Association :=
  mkAssociation (ac_open a) (ac_bytes_down a) (wrap 64 (ac_bytes_up a + n)) (ac_client_addr a) (ac_relay a) (ac_downlink a)
    (ac_decision_name a) (ac_egress_info a) (ac_failed_attempts a) (ac_result a).
Definition add_down (n : Z) (a : Association) : Association :=
  mkAssociation (ac_open a) (wrap 64 (ac_bytes_down a + n)) (ac_bytes_up a) (ac_client_addr a) (ac_relay a) (ac_downlink a)
    (ac_decision_name a) (ac_egress_info a) (ac_failed_attempts a) (ac_result a).
Definition stop_downlink (a : Association) : Association :=
  mkAssociation (ac_open a) (ac_bytes_down a) (ac_bytes_up a) (ac_client_addr a) (ac_relay a) false
    (ac_decision_name a) (ac_egress_info a) (ac_failed_attempts a) (ac_result a).

Section Association.
Context {N : Ipnet} {B : BookApi} {D : Chrono}.

(** What it is given: a read of the control stream, a datagram at its socket
    (with the engine that decides, the network a first relay is opened in, and
    whether the relay takes the payload), a datagram from the hop (and whether
    the socket takes the answer), the end of the aborted downlink task. *)
Inductive Event :=
| Control (r : result unit (list Z))
| FromClient (e : Engine) (envs : nat -> Env) (now : Z) (taken : bool) (r : result unit (list Z * SocketAddr))
| FromHop (taken : bool) (r : result unit (list Z * str * Z))
| Aborted.

(** The payload through the relay, if there is one. *)
Definition through_relay (taken : bool) (dg : UdpDatagram) (payload : list Z) (a : Association) : Association * list Output :=
  match ac_relay a with
  | None => (a, [])
  | Some hop =>
      (if taken then add_up (Z.of_nat (length payload)) a else a, [ToHop hop (dg_host dg) (dg_port dg) payload taken])
  end.
(** A datagram of the latched client. *)
Definition client_datagram (ctx : Ctx) (user : str) (e : Engine) (envs : nat -> Env) (now : Z) (taken : bool) (buf : list Z)
    (a : Association) : Association * list Output :=
  match parse_udp_datagram buf with
  | None => (a, [])
  | Some dg =>
      if negb (dg_frag dg =? 0) then (a, [])
      else
      let payload := drop (dg_data_offset dg) buf in
      match engine_decide e user (dg_host dg) with
      | Block => (a, [])
      | d =>
          match ac_relay a with
          | Some _ => through_relay taken dg payload a
          | None =>
              match connect_udp envs now d (cx_egress ctx) with
              | (Ok (hop, egress), _) => through_relay taken dg payload (opened (decision_label d) hop egress a)
              | (Err err, _) => (unopened (decision_label d) err a, [])
              end
          end
      end
  end.
(** One event; the socket's buffer holds 65535 bytes. *)
Definition associate_event (ctx : Ctx) (user : str) (ev : Event) (a : Association) : Association * list Output :=
  match ev with
  | Control r =>
      if negb (ac_open a) then (a, [])
      else
      match r with
      | Ok (_ :: _) => (a, [])
      | _ => (close a, [Ended a])
      end
  | FromClient e envs now taken r =>
      if negb (ac_open a) then (a, [])
      else
      match r with
      | Err _ => (close a, [Ended a])
      | Ok (datagram, src) =>
          let buf := take (Z.to_nat u16_max) datagram in
          match ac_client_addr a with
          | None => client_datagram ctx user e envs now taken buf (latch src a)
          | Some client => if bool_decide (client = src) then client_datagram ctx user e envs now taken buf a else (a, [])
          end
      end
  | FromHop taken r =>
      match ac_downlink a, ac_client_addr a with
      | true, Some client =>
          match r with
          | Err _ => (stop_downlink a, [])
          | Ok (data, host, port) =>
              (if taken then add_down (Z.of_nat (length data)) a else stop_downlink a,
               [ToClient client (encode_udp_datagram host port data)])
          end
      | _, _ => (a, [])
      end
  | Aborted => if ac_open a then (a, []) else (stop_downlink a, [])
  end.
Fixpoint associate_run (ctx : Ctx) (user : str) (evs : list Event) (a : Association) : Association * list Output :=
  match evs with
  | [] => (a, [])
  | ev :: evs =>
      let '(a, out) := associate_event ctx user ev a in
      let '(a, outs) := associate_run ctx user evs a in
      (a, out ++ outs)
  end.

(** What [report_associate] records; [logged] is whether an access log is set. *)
Inductive AssociateRecord :=
| AssocListener (up down : Z) | AssocEgress (label : str) (up down : Z) | AssocLog (c : TraceCandidate) (up down : Z).
Definition report_associate (ctx : Ctx) (logged : bool) (o : Outside) (user : str) (a : Association) : list AssociateRecord :=
  let up := ac_bytes_up a in
  let down := ac_bytes_down a in
  let label := match ac_egress_info a with Some i => ei_label i | None => ac_decision_name a end in
  let is_chain := bool_decide (is_Some (ac_egress_info a ≫= ei_chain_id)) in
  [AssocListener up down] ++
  (if negb (str_eqb label (lit "block")) && negb (str_eqb label (lit "direct")) then [AssocEgress label up down] else []) ++
  (if logged then
     [AssocLog (mkCandidate (cx_listener ctx) (lit "socks5-udp") (Some (display_socket (ou_peer o))) (Some user) None None None None
        (Some (ac_decision_name a)) (if is_chain then Some label else None) (ac_egress_info a ≫= ei_member_id)
        (match (i ← ac_egress_info a; _ ← ei_chain_id i; Some (ei_attempts i)) with
         | Some n => Some n
         | None => ac_failed_attempts a
         end)
        (ac_result a) None (Some (lit "udp association")) (engine_version (ou_report o)) (ou_duration o)) up down]
   else []).

(** [serve_associate]: [bound] is the relay socket, [None] when it cannot be
    bound, with its local address when that can be read. *)
Definition serve_associate (ctx : Ctx) (logged : bool) (o : Outside) (local : option SocketAddr) (bound : option (option SocketAddr))
    (user : str) (evs : list Event) : handler (list Output * list AssociateRecord) :=
  let bind_ip := match local with Some a => socket_ip a | None => V4 0 end in
  match bound with
  | None => attempt (cwrite id (reply_addr 1 (unspecified bind_ip))) ;; halt Return
  | Some addr =>
      send (reply_addr 0 (default (unspecified bind_ip) addr)) ;;
      let outs := snd (associate_run ctx user evs association_start) in
      mret (outs, mjoin (map (fun out => match out with Ended a => report_associate ctx logged o user a | _ => [] end) outs))
  end.

End Association.

(** * What the UDP association guarantees

    The codec round trip, and the safety of the association in every
    interleaving of its events. *)

(** ** The codec *)

(** The target a datagram encoded for [host] names. *)
Definition named_host (host : str) : str :=
  match parse_ip_addr host with Some a => display_ip a | None => from_utf8_lossy (take 255 host) end.
Definition host_field (host : str) : list Z :=
  match parse_ip_addr host with
  | Some (V4 v4) => [1] ++ to_be_bytes 4 v4
  | Some (V6 v6) => [4] ++ to_be_bytes 16 v6
  | None => let len := Nat.min (length host) 255 in [3; Z.of_nat len] ++ take len host
  end.
Lemma parse_udp_encoded host port data :
  host <> [] -> fits 16 port ->
  parse_udp_datagram (encode_udp_datagram host port data)
  = Some (mkUdpDatagram 0 (named_host host) port (3 + length (host_field host) + 2)).
Proof.
  intros Hne Hp. change (encode_udp_datagram host port data) with ([0; 0; 0] ++ host_field host ++ to_be_bytes 2 port ++ data).
  pose proof (length_to_be_bytes 2 port) as Lp. pose proof (from_to_be_bytes 2 port Hp) as Ep.
  unfold host_field, named_host. destruct (parse_ip_addr host) as [[v4|v6]|] eqn:Ea.
  - pose proof (parse_ip_addr_fits _ _ Ea) as Hf. pose proof (length_to_be_bytes 4 v4) as L. pose proof (from_to_be_bytes 4 v4 Hf) as E.
    remember (to_be_bytes 4 v4) as b. remember (to_be_bytes 2 port) as q. clear Heqb Heqq. subst v4 port.
    destruct b as [|b0 [|b1 [|b2 [|b3 [|]]]]]; try discriminate L. destruct q as [|q0 [|q1 [|]]]; try discriminate Lp. done.
  - pose proof (parse_ip_addr_fits _ _ Ea) as Hf. pose proof (length_to_be_bytes 16 v6) as L. pose proof (from_to_be_bytes 16 v6 Hf) as E.
    remember (to_be_bytes 16 v6) as b. remember (to_be_bytes 2 port) as q. clear Heqb Heqq. subst v6 port.
    do 17 (destruct b as [|? b]; try discriminate L). destruct q as [|q0 [|q1 [|]]]; try discriminate Lp. done.
  - cbv zeta. set (len := Nat.min (length host) 255). assert (Hl : length (take len host) = len) by (rewrite length_take; lia).
    assert (Ht : take 255 host = take len host).
    { unfold len. destruct (Nat.min_spec (length host) 255) as [[? ->]|[? ->]]; [|done]. rewrite !take_ge by lia. done. }
    assert (0 < len)%nat by (destruct host; [done|unfold len; cbn; lia]).
    unfold parse_udp_datagram. rewrite !length_app, Hl, Lp. cbn [length app]. rewrite option_guard_True by lia.
    cbn [mbind option_bind nth Z.eqb Pos.eqb lookup list_lookup]. rewrite Nat2Z.id. rewrite option_guard_True by lia.
    set (t := take len host ++ _).
    assert (Hd : forall k, drop (4 + 1 + k) (0 :: 0 :: 0 :: 3 :: Z.of_nat len :: t) = drop k t) by done.
    pose proof (Hd 0%nat) as H0. rewrite Nat.add_0_r in H0. rewrite H0. clear H0. change (drop 0 t) with t.
    cbn [mbind option_bind]. rewrite option_guard_True by lia. cbn [mbind option_bind]. rewrite Hd. unfold t.
    rewrite drop_app_len, !take_app_len by done. by rewrite Ep, Ht.
Qed.

(** A datagram encoded for a host, by name or by address, is read back as
    the same target, unfragmented, with the payload after the header: an address
    in its canonical text, a name as itself when it is UTF-8 of at most 255
    bytes. *)
Theorem udp_datagram_roundtrip host port data :
  host <> [] -> fits 16 port ->
  (forall a, parse_ip_addr host = Some a -> host = display_ip a) ->
  (parse_ip_addr host = None -> (length host <= 255)%nat /\ utf8_valid host = true) ->
  exists dg, parse_udp_datagram (encode_udp_datagram host port data) = Some dg /\
    dg_frag dg = 0 /\ dg_host dg = host /\ dg_port dg = port /\ drop (dg_data_offset dg) (encode_udp_datagram host port data) = data.
Proof.
  intros Hne Hp Hip Hname. exists (mkUdpDatagram 0 (named_host host) port (3 + length (host_field host) + 2)).
  split; [by apply parse_udp_encoded|]. cbn. split_and!; [done| |done|].
  - unfold named_host. destruct (parse_ip_addr host) as [a|]; [symmetry; by apply Hip|]. destruct (Hname eq_refl).
    rewrite take_ge by done. by apply from_utf8_lossy_valid.
  - change (encode_udp_datagram host port data) with ([0; 0; 0] ++ host_field host ++ to_be_bytes 2 port ++ data).
    rewrite !app_assoc. apply drop_app_len. rewrite !length_app, length_to_be_bytes. done.
Qed.

(** ** The egress *)

Lemma try_members_Ok {T} chain (attempt : Env -> Upstream -> result ProxyError T) out envs deadline members k now last s info t :
  try_members chain attempt out envs deadline members k now last = (Ok (s, info), t) ->
  exists m i, m ∈ members /\ attempt (envs i) (cm_upstream m) = Ok s.
Proof.
  revert k now last; induction members as [|m members IH]; intros k now last H; cbn [try_members] in H; [done|].
  destruct (remaining_budget _ _ _) as [slot|]; [|done]. cbv zeta in H.
  assert (Hrec : forall n l, try_members chain attempt out envs deadline members (S k) n l = (Ok (s, info), t) ->
    exists m' i, m' ∈ m :: members /\ attempt (envs i) (cm_upstream m') = Ok s).
  { intros n l Hn. destruct (IH _ _ _ Hn) as (m' & i & Hm & Ha). exists m', i. split; [by right|done]. }
  destruct (_ <? _); [|by eapply Hrec]. destruct (attempt (envs k) (cm_upstream m)) as [s'|e] eqn:Ea; [|by eapply Hrec].
  injection H as -> _ _. exists m, k. split; [by left|done].
Qed.
(** The hop a decision names. *)
Definition names_hop (d : Decision) (hop : str) : Prop :=
  exists up, up_kind up = Reverse /\ up_addr up = hop /\
    (d = Via up \/ exists chain m, d = ViaChain chain /\ m ∈ ch_members chain /\ cm_upstream m = up).
Lemma connect_udp_names_hop envs now d ctx hop info t : connect_udp envs now d ctx = (Ok (hop, info), t) -> names_hop d hop.
Proof.
  destruct d as [|up|chain|]; cbn; try done.
  - destruct (bool_decide_reflect (up_kind up = Reverse)) as [Hk|]; [|done]. intros [= Hc _].
    apply bind_Ok in Hc as (? & _ & Hc). apply bind_Ok in Hc as (h & Ho & Hc). injection Hc as <- _.
    unfold open_udp in Ho. apply bind_Ok in Ho as (? & _ & Ho). injection Ho as <-. exists up. eauto.
  - unfold connect_udp_chain. case_match; [done|]. case_match; [done|]. intros Hc.
    destruct (try_members_Ok _ _ _ _ _ _ _ _ _ _ _ _ Hc) as (m & i & Hm & Ha). apply list_elem_of_filter in Hm as [Hk Hm].
    unfold open_udp in Ha. apply bind_Ok in Ha as (? & _ & Ha). injection Ha as <-. exists (cm_upstream m). eauto 10.
Qed.

(** ** The association *)

Section Safety.
Context {N : Ipnet} {B : BookApi} {D : Chrono}.
Context (ctx : Ctx) (user : str).

Fixpoint first_source (evs : list Event) : option SocketAddr :=
  match evs with
  | [] => None
  | FromClient _ _ _ _ (Ok (_, src)) :: _ => Some src
  | _ :: evs => first_source evs
  end.
Lemma first_source_app evs evs' :
  first_source (evs ++ evs') = match first_source evs with Some a => Some a | None => first_source evs' end.
Proof. induction evs as [|[|? ? ? ? [[? ?]|]| |] evs IH]; try done. Qed.

(** [e] handled this datagram of the latched client, which is unfragmented, for
    a target its user's policy does not block. *)
Definition accepted_datagram (evs : list Event) (e : Engine) (dg : UdpDatagram) (payload : list Z) : Prop :=
  exists envs now taken datagram src, FromClient e envs now taken (Ok (datagram, src)) ∈ evs /\ first_source evs = Some src /\
    parse_udp_datagram (take (Z.to_nat u16_max) datagram) = Some dg /\ dg_frag dg = 0 /\
    payload = drop (dg_data_offset dg) (take (Z.to_nat u16_max) datagram) /\ engine_decide e user (dg_host dg) <> Block.
(** The relay was opened for the decision of such a datagram, and to a hop it names. *)
Definition relay_opened (evs : list Event) (hop : str) : Prop :=
  exists e dg payload, accepted_datagram evs e dg payload /\ ec_reverse (cx_egress ctx) = true /\
    names_hop (engine_decide e user (dg_host dg)) hop.
Definition output_ok (evs : list Event) (a : Association) (out : Output) : Prop :=
  match out with
  | ToHop hop host port payload taken =>
      ac_relay a = Some hop /\ exists e dg, accepted_datagram evs e dg payload /\ host = dg_host dg /\ port = dg_port dg
  | ToClient client packet =>
      first_source evs = Some client /\ is_Some (ac_relay a) /\
      exists taken data host port, FromHop taken (Ok (data, host, port)) ∈ evs /\ packet = encode_udp_datagram host port data
  | Ended a' => ac_bytes_up a' = ac_bytes_up a /\ ac_relay a' = ac_relay a /\ ac_egress_info a' = ac_egress_info a
  end.
Definition sent_bytes (outs : list Output) : Z :=
  foldr Z.add 0 (map (fun out => match out with ToHop _ _ _ p true => Z.of_nat (length p) | _ => 0 end) outs).
Definition ended_count (outs : list Output) : nat :=
  length (List.filter (fun out => match out with Ended _ => true | _ => false end) outs).

Record association_inv (evs : list Event) (a : Association) (outs : list Output) : Prop := {
  ai_latched : forall c, ac_client_addr a = Some c -> first_source evs = Some c;
  ai_unlatched : ac_open a = true -> ac_client_addr a = first_source evs;
  ai_relay : forall hop, ac_relay a = Some hop -> relay_opened evs hop;
  ai_downlink : ac_downlink a = true -> is_Some (ac_relay a);
  ai_outputs : Forall (output_ok evs a) outs;
  ai_up : ac_bytes_up a = wrap 64 (sent_bytes outs);
  ai_ended : ended_count outs = if ac_open a then 0%nat else 1%nat;
}.


Lemma sent_bytes_app l l' : sent_bytes (l ++ l') = sent_bytes l + sent_bytes l'.
Proof. unfold sent_bytes. rewrite map_app, foldr_app. induction (map _ l) as [|x k IH]; cbn; [done|]. rewrite IH. lia. Qed.
Lemma ended_count_app l l' : ended_count (l ++ l') = (ended_count l + ended_count l')%nat.
Proof. unfold ended_count. by rewrite List.filter_app, length_app. Qed.
Lemma ended_none l out : ended_count l = 0%nat -> out ∈ l -> match out with Ended _ => False | _ => True end.
Proof.
  unfold ended_count. intros H Hin. destruct out; try done. apply length_zero_iff_nil in H.
  assert (In (Ended a) (List.filter (fun o => match o with Ended _ => true | _ => false end) l)) as Hf
    by (apply filter_In; split; [by apply list_elem_of_In|done]). by rewrite H in Hf.
Qed.

Lemma accepted_mono evs ev e dg payload : accepted_datagram evs e dg payload -> accepted_datagram (evs ++ [ev]) e dg payload.
Proof.
  intros (envs & now & taken & datagram & src & Hin & Hs & H). exists envs, now, taken, datagram, src.
  rewrite first_source_app, Hs. split; [set_solver|done].
Qed.
Lemma relay_opened_mono evs ev hop : relay_opened evs hop -> relay_opened (evs ++ [ev]) hop.
Proof. intros (e & dg & p & H & H'). exists e, dg, p. split; [by apply accepted_mono|done]. Qed.
Lemma output_mono evs ev a out : output_ok evs a out -> output_ok (evs ++ [ev]) a out.
Proof.
  destruct out as [hop host port p t|c p|a']; cbn; [| |done].
  - intros (Hr & e & dg & H & H'). split; [done|]. exists e, dg. split; [by apply accepted_mono|done].
  - intros (Hs & Hr & t & data & h & q & Hin & E). split; [by rewrite first_source_app, Hs|]. split; [done|]. exists t, data, h, q.
    split; [set_solver|done].
Qed.
(** An output stays right while the relay it used stays and no report was made. *)
Lemma output_state evs a a' out :
  output_ok evs a out -> (forall hop, ac_relay a = Some hop -> ac_relay a' = Some hop) ->
  match out with Ended _ => False | _ => True end -> output_ok evs a' out.
Proof.
  destruct out as [hop host port p t|c p|x]; cbn; [| |done]; intros H Hk _.
  - destruct H as (Hr & H). auto.
  - destruct H as (Hs & (hop & Hr) & H). eauto.
Qed.
Lemma outputs_state evs a a' outs :
  ended_count outs = 0%nat -> Forall (output_ok evs a) outs -> (forall hop, ac_relay a = Some hop -> ac_relay a' = Some hop) ->
  Forall (output_ok evs a') outs.
Proof.
  intros H0 H Hk. rewrite Forall_forall in *. intros out Hin. eapply output_state; [by apply H|done|by eapply ended_none].
Qed.
(** An event that leaves the loop's locals alone. *)
Lemma inv_event evs ev a outs :
  association_inv evs a outs -> (ac_open a = true -> first_source (evs ++ [ev]) = first_source evs) -> association_inv (evs ++ [ev]) a outs.
Proof.
  intros [Hl Hu Hr Hd Ho Hup He] Hs. split; try done.
  - intros c Hc. rewrite first_source_app, (Hl c Hc). done.
  - intros H. rewrite Hs by done. by apply Hu.
  - intros hop H. by apply relay_opened_mono, Hr.
  - eapply Forall_impl; [exact Ho|]. intros out. apply output_mono.
Qed.
(** Changes of the downlink side. *)
Lemma inv_downlink evs a a' outs out :
  association_inv evs a outs ->
  ac_open a' = ac_open a -> ac_client_addr a' = ac_client_addr a -> ac_relay a' = ac_relay a -> ac_bytes_up a' = ac_bytes_up a ->
  ac_egress_info a' = ac_egress_info a -> (ac_downlink a' = true -> ac_downlink a = true) ->
  (out = [] \/ exists c p, out = [ToClient c p] /\ output_ok evs a (ToClient c p)) ->
  association_inv evs a' (outs ++ out).
Proof.
  intros [Hl Hu Hr Hd Ho Hup He] E1 E2 E3 E4 E5 Hdl Hout.
  assert (Hok : forall x, output_ok evs a x -> output_ok evs a' x) by (intros []; cbn; by rewrite ?E3, ?E4, ?E5).
  split; rewrite ?E1, ?E2, ?E3, ?E4; try done.
  - intros H. apply Hd. by apply Hdl.
  - apply Forall_app. split; [by eapply Forall_impl|]. destruct Hout as [->|(c & p & -> & H)]; [done|]. constructor; [by apply Hok|done].
  - rewrite sent_bytes_app, Hup. f_equal. destruct Hout as [->|(c & p & -> & _)]; cbn; lia.
  - rewrite ended_count_app, He. destruct Hout as [->|(c & p & -> & _)]; cbn; lia.
Qed.
Lemma inv_close evs a outs : association_inv evs a outs -> ac_open a = true -> association_inv evs (close a) (outs ++ [Ended a]).
Proof.
  intros [Hl Hu Hr Hd Ho Hup He] Hop. split; try done.
  - apply Forall_app. split; [exact Ho|]. by repeat constructor.
  - rewrite sent_bytes_app. change (sent_bytes [Ended a]) with 0. by rewrite Z.add_0_r.
  - rewrite ended_count_app, He, Hop. done.
Qed.
Lemma through_relay_inv evs a outs e dg payload taken :
  association_inv evs a outs -> ac_open a = true -> accepted_datagram evs e dg payload ->
  let '(a', out) := through_relay taken dg payload a in association_inv evs a' (outs ++ out).
Proof.
  intros I Hop Ha. unfold through_relay. destruct (ac_relay a) as [hop|] eqn:Er; [|by rewrite app_nil_r].
  destruct I as [Hl Hu Hr Hd Ho Hup He]. rewrite Hop in He.
  assert (Hx : output_ok evs a (ToHop hop (dg_host dg) (dg_port dg) payload taken)) by (cbn; eauto 6).
  destruct taken; (split; cbn; try done; [apply Forall_app; split; [eapply outputs_state; eauto|constructor; [exact Hx|constructor]]| |rewrite ended_count_app, He, Hop; done]).
  - rewrite sent_bytes_app, Hup. unfold wrap. cbn. rewrite Z.add_mod_idemp_l by lia. f_equal. lia.
  - rewrite sent_bytes_app, Hup. f_equal. cbn. lia.
Qed.
Lemma client_datagram_inv evs a outs e envs now taken datagram src :
  association_inv evs a outs -> ac_open a = true -> first_source evs = Some src ->
  FromClient e envs now taken (Ok (datagram, src)) ∈ evs ->
  let '(a', out) := client_datagram ctx user e envs now taken (take (Z.to_nat u16_max) datagram) a in
  association_inv evs a' (outs ++ out).
Proof.
  intros I Hop Hs Hin. unfold client_datagram. set (buf := take _ _). destruct (parse_udp_datagram buf) as [dg|] eqn:Ep; [|by rewrite app_nil_r].
  destruct (Z.eqb_spec (dg_frag dg) 0) as [Hf|Hf]; cbn [negb]; [|by rewrite app_nil_r]. cbv zeta. remember (engine_decide e user (dg_host dg)) as d eqn:Ed.
  assert (Ha : d <> Block -> accepted_datagram evs e dg (drop (dg_data_offset dg) buf)).
  { intros Hd. exists envs, now, taken, datagram, src. split_and!; try done. by rewrite <- Ed. }
  assert (d = Block \/ d <> Block) as [Hb|Hd] by (destruct d; (by left) || by right); [rewrite Hb, app_nil_r; done|]. specialize (Ha Hd).
  set (payload := drop (dg_data_offset dg) buf) in *.
  enough (let '(a', out) := match ac_relay a with
                            | Some _ => through_relay taken dg payload a
                            | None =>
                                match connect_udp envs now d (cx_egress ctx) with
                                | (Ok (hop, egress), _) => through_relay taken dg payload (opened (decision_label d) hop egress a)
                                | (Err err, _) => (unopened (decision_label d) err a, [])
                                end
                            end in association_inv evs a' (outs ++ out)) by (clear -H Hd; by destruct d).
  destruct (ac_relay a) as [hop|] eqn:Er; [by eapply through_relay_inv|].
  destruct (connect_udp envs now d (cx_egress ctx)) as [[[hop info]|err] t] eqn:Ec.
  - eapply through_relay_inv; [|done|done]. destruct I as [Hl Hu Hr Hdl Ho Hup He]. split; cbn; try done.
    + intros h [= <-]. exists e, dg, payload. rewrite <- Ed. split_and!; [done| |by eapply connect_udp_names_hop].
      clear -Ec. destruct d; cbn in Ec; try done; [case_match; [|done]; injection Ec as Ec _; apply bind_Ok in Ec as (? & Hx & _); by apply ensure_Ok in Hx|].
      unfold connect_udp_chain in Ec. case_match; [done|]. by destruct (ec_reverse (cx_egress ctx)).
    + rewrite Hop in He. eapply outputs_state; [exact He|exact Ho|]. by rewrite Er.
  - rewrite app_nil_r. destruct I as [Hl Hu Hr Hdl Ho Hup He]. split; cbn; try done; rewrite Hop in He; eapply outputs_state; eauto.
Qed.
Lemma associate_event_inv evs ev a outs :
  association_inv evs a outs ->
  let '(a', out) := associate_event ctx user ev a in association_inv (evs ++ [ev]) a' (outs ++ out).
Proof.
  intros I. unfold associate_event. destruct ev as [r|e envs now taken r|taken r|].
  - assert (I' : association_inv (evs ++ [Control r]) a outs) by (apply inv_event; [done|intros _; rewrite first_source_app; by case_match]).
    destruct (ac_open a) eqn:Eo; cbn [negb]; [|by rewrite app_nil_r].
    destruct r as [[|b l]|[]]; [by apply inv_close|by rewrite app_nil_r|by apply inv_close].
  - destruct (ac_open a) eqn:Eo; cbn [negb]; [|rewrite app_nil_r; apply inv_event; [done|by rewrite Eo]].
    destruct r as [[datagram src]|[]].
    + pose proof (ai_unlatched _ _ _ I Eo) as Hc. destruct (ac_client_addr a) as [c|] eqn:Ec.
      * assert (Hs : first_source (evs ++ [FromClient e envs now taken (Ok (datagram, src))]) = Some c) by by rewrite first_source_app, <- Hc.
        assert (I' : association_inv (evs ++ [FromClient e envs now taken (Ok (datagram, src))]) a outs)
          by (apply inv_event; [done|intros _; by rewrite Hs, <- Hc]).
        destruct (bool_decide_reflect (c = src)) as [->|]; [|by rewrite app_nil_r].
        eapply client_datagram_inv; [done|done|done|set_solver].
      * assert (Hs : first_source (evs ++ [FromClient e envs now taken (Ok (datagram, src))]) = Some src) by by rewrite first_source_app, <- Hc.
        eapply client_datagram_inv; [|done|done|set_solver]. destruct I as [Hl Hu Hr Hdl Ho Hup He]. rewrite Eo in He. split; cbn; try done.
        -- by intros ? [= <-].
        -- intros hop H. by apply relay_opened_mono, Hr.
        -- eapply Forall_impl; [eapply (outputs_state _ a (latch src a)); [exact He|exact Ho|done]|]. intros out. apply output_mono.
        -- by rewrite Eo.
    + apply inv_close; [|done]. apply inv_event; [done|]. intros _. rewrite first_source_app. by case_match.
  - assert (I' : association_inv (evs ++ [FromHop taken r]) a outs) by (apply inv_event; [done|intros _; rewrite first_source_app; by case_match]).
    destruct (ac_downlink a) eqn:Ed; [|by rewrite app_nil_r]. destruct (ac_client_addr a) as [c|] eqn:Ec; [|by rewrite app_nil_r].
    destruct r as [[[data host] port]|[]].
    + assert (Hx : output_ok (evs ++ [FromHop taken (Ok (data, host, port))]) a (ToClient c (encode_udp_datagram host port data))).
      { cbn. split; [by apply (ai_latched _ _ _ I')|]. split; [by apply (ai_downlink _ _ _ I')|]. exists taken, data, host, port. split; [set_solver|done]. }
      destruct taken; (eapply inv_downlink; try done; eauto).
    + eapply inv_downlink; try done. by left.
  - assert (I' : association_inv (evs ++ [Aborted]) a outs) by (apply inv_event; [done|intros _; rewrite first_source_app; by case_match]).
    destruct (ac_open a) eqn:Eo; [by rewrite app_nil_r|]. eapply inv_downlink; try done. by left.
Qed.
Lemma associate_run_snoc evs ev a :
  associate_run ctx user (evs ++ [ev]) a =
  let '(a1, outs) := associate_run ctx user evs a in
  let '(a2, out) := associate_event ctx user ev a1 in (a2, outs ++ out).
Proof.
  revert a; induction evs as [|e evs IH]; intros a; cbn [app associate_run].
  - destruct (associate_event _ _ _ _) as [a1 o1]. by rewrite app_nil_r.
  - destruct (associate_event _ _ e a) as [a1 o1]. rewrite IH. destruct (associate_run _ _ evs a1) as [a2 o2].
    destruct (associate_event _ _ ev a2) as [a3 o3]. by rewrite app_assoc.
Qed.

End Safety.

(** ** A session *)

Module AssociateDemo.
Import Socks5Demo.
Definition raw : RawSnapshot := {|
  rs_schema_version := 1;
  rs_version := 3;
  rs_users := [(lit "alice", mkRawUser (lit "login-pw") None 0 0 2 (lit "p") [])];
  rs_policies :=
    [(lit "p", mkRawPolicy
       [mkRawRoute [lit "hop.example"] (RawEgressTo (lit "jp"));
        mkRawRoute [lit "bad.example"] RawBlock]
       (Some RawDirect))];
  rs_egresses := [(lit "jp", RawUp (mkRawUpstream (lit "reverse") (lit "hop1") None None false false))];
  rs_node_overrides := []
|}.
Definition e : Engine := mkEngine (unwrap_or (compile_checked raw (lit "n") None (fun _ _ => 0)) Snapshot_empty) ∅.
Definition ctx : Ctx := mkCtx (lit "socks") (mkSniffConfig false Observe 64 100) true (mkEgressContext true false false).
Definition alice : SocketAddr := SockV4 2130706433 5000.
Definition mallory : SocketAddr := SockV4 2130706434 5000.
Definition datagram (host data : str) : list Z := encode_udp_datagram host 53 data.
Definition from (src : SocketAddr) (host data : str) : Event := FromClient e (fun _ => env) 0 true (Ok (datagram host data, src)).

(** A direct target is dropped while no relay is open; once one is, blocked
    targets and other sources still are, and answers reach the client. *)
Definition session : list Event :=
  [from alice (lit "one.example") (lit "early"); from alice (lit "hop.example") (lit "ping"); from mallory (lit "hop.example") (lit "spoof");
   from alice (lit "bad.example") (lit "no"); FromHop true (Ok (lit "pong", lit "10.0.0.1", 53)); Control (Ok [])].
Example associate_session :
  match associate_run ctx (lit "alice") session association_start with
  | (a, [out1; out2; Ended last]) =>
      out1 = ToHop (lit "hop1") (lit "hop.example") 53 (lit "ping") true /\
      out2 = ToClient alice (datagram (lit "10.0.0.1") (lit "pong")) /\ ac_bytes_up last = 4 /\ ac_bytes_down last = 4 /\
      ac_open a = false
  | _ => False
  end.
Proof. vm_compute. done. Qed.
(** Once a relay is open, a target the policy sends out directly leaves through
    it instead of being dropped. *)
Example later_target_rides_the_first_hop :
  engine_decide e (lit "alice") (lit "one.example") = Direct /\
  snd (associate_run ctx (lit "alice") [from alice (lit "hop.example") (lit "a"); from alice (lit "one.example") (lit "b")] association_start)
  = [ToHop (lit "hop1") (lit "hop.example") 53 (lit "a") true; ToHop (lit "hop1") (lit "one.example") 53 (lit "b") true].
Proof. vm_compute. done. Qed.
End AssociateDemo.

Lemma udp_datagram_roundtrip_witness :
  exists dg, parse_udp_datagram (encode_udp_datagram (lit "2001:db8::1") 443 (lit "payload")) = Some dg /\
    dg_frag dg = 0 /\ dg_host dg = lit "2001:db8::1" /\ dg_port dg = 443 /\
    drop (dg_data_offset dg) (encode_udp_datagram (lit "2001:db8::1") 443 (lit "payload")) = lit "payload".
Proof.
  apply (udp_datagram_roundtrip (lit "2001:db8::1") 443 (lit "payload")); [done|unfold fits; lia| |].
  - intros a Ha. assert (parse_ip_addr (lit "2001:db8::1") = Some (V6 (0x20010db8 * 2 ^ 96 + 1))) as E by (vm_compute; reflexivity).
    rewrite E in Ha. injection Ha as <-. vm_compute. reflexivity.
  - intros Ha. exfalso. revert Ha. vm_compute. discriminate.
Defined.
