(* ===== verification/TuicServer.v ===== *)
(** * TuicServer: the TUIC front end (src/src/inbound/tuic/mod.rs)

    One client connection. A bidirectional stream is a handler, like those of
    the other protocols, but for an identity the connection already has. The
    connection itself is a machine: the streams and datagrams that arrive, the
    associations, the return pump of each relay; [tuic_step] is one step of one
    of its tasks, from one await to the next, and the steps interleave freely. *)

From Stdlib Require Import ZArith Lia String.
From stdpp Require Import prelude strings list gmap.
From S2P Require Import Sniff.
From S2P Require Import Prelude RustStr Net NetProps RustFmt Util Frame Stream Conn Domain Policy Model Engine Outbound Io Handler Inbound Tuic.

Definition AUTHENTICATE : Z := 0.
Definition CONNECT : Z := 1.
Definition DISSOCIATE : Z := 3.

(** [Identity] *)
Record Identity := mkClient { id_username : str; id_limits : AuthOk }.

Section TuicServer.
Context {N : Ipnet} {B : BookApi} {D : Chrono} {O : ChronoOrder D} {B64 : Base64}.
Context {R : Rustls} {HP : Httparse} {UC : UrlCrate}.

(** ** A stream *)

(** A reader applied to the client stream; its failure ends the handler. *)
Definition reads {A} (m : reading A) : handler A := fun w =>
  let '(r, rd) := m (cn_in (wd_conn w)) in
  (map_err (fun _ => Return) r, mkWorld (mkConn rd (cn_sent (wd_conn w)) (cn_writes (wd_conn w))) (wd_permit w) (wd_log w)).
(** The permit's scope: given back at the handler's end. *)
Definition permit_scope (m : handler unit) : handler unit := fun w =>
  let '(r, w) := m w in
  let '(_, w) := release w in
  (r, w).

(** The record of [record_tcp_access]; [version] is the snapshot's. *)
Definition tuic_candidate (ctx : Ctx) (o : Outside) (version : Z) (f : TraceFields) : TraceCandidate :=
  let traffic :=
    match tf_target_host f, tf_target_port f with
    | Some host, Some port =>
        let identity := identity_new host port in
        let identity := match tf_policy f with Some p => with_policy identity p | None => identity end in
        Some (match tf_sniff f with Some ob => with_observation identity ob | None => identity end)
    | _, _ => None
    end in
  mkCandidate (cx_listener ctx) (lit "tuic") (Some (display_socket (ou_peer o))) (tf_username f) (tf_target_host f)
    (tf_target_port f) traffic None (tf_decision f) (tf_egress f) (tf_chain_member f) (tf_attempts f)
    (tf_result f) (tf_failure_stage f) (tf_message f) version (ou_duration o).
(** [record_tcp_access]; [cx_consumers] is whether an access log is set. *)
Definition record_tcp_access (ctx : Ctx) (o : Outside) (version : Z) (f : TraceFields) : handler unit :=
  acts (if cx_consumers ctx then [Logged (tuic_candidate ctx o version f) (tf_bytes_up f) (tf_bytes_down f)] else []).
Definition record_and_return {A} (ctx : Ctx) (o : Outside) (r : ResolvedDecision) (f : TraceFields) : handler A :=
  record_tcp_access ctx o (rd_snapshot_version r) f ;; halt Return.

Definition route_mode (ctx : Ctx) : bool :=
  sc_enabled (cx_sniff ctx) && match sc_mode (cx_sniff ctx) with Route_ => true | Observe => false end.
Definition record_sniff (ob : option SniffObservation) : handler unit :=
  acts (match ob with Some ob => [RecordSniff (outcome ob)] | None => [] end).
(** The fields of a failing exit for a target *)
Definition tuic_failed (user host : str) (port : Z) (r : ResolvedDecision) (attempts : option Z) (ob : option SniffObservation)
    (stage message : str) : TraceFields :=
  failed (Some user) (Some (host, port)) (Some (decision_label (rd_decision r))) attempts ob (Some (attribution r)) stage message.
Definition tuic_relayed {E} (user host : str) (port : Z) (r : ResolvedDecision) (egress : EgressInfo) (ob : option SniffObservation)
    (x : result E SpliceStats) : TraceFields :=
  let chained {A} (v : A) : option A := match ei_chain_id egress with Some _ => Some v | None => None end in
  let '(result, stage, message, up, down) :=
    match x with
    | Ok s => (TraceOk, None, None, ss_bytes_up s, ss_bytes_down s)
    | Err _ => (TraceError, Some (lit "stream_io"), Some (lit "tunnel io failed"), 0, 0)
    end in
  mkFields (Some user) (Some host) (Some port) (Some (decision_label (rd_decision r))) (chained (ei_label egress)) (ei_member_id egress)
    (chained (ei_attempts egress)) ob (Some (attribution r)) result stage message up down.
(** From the decision that counts on: [captured] is what route mode took from
    the stream, with the observation. *)
Definition tuic_dial (ctx : Ctx) (o : Outside) (id : Identity) (host : str) (port : Z) (r : ResolvedDecision)
    (captured : option CapturedPrefix) : handler unit :=
  let user := id_username id in
  let ob := captured ≫= captured_observation in
  act (Dialled (rd_decision r) host port) ;;
  match connect (ou_envs o) (ou_now o) (rd_decision r) host port (cx_egress ctx) with
  | (Err e, _) =>
      record_and_return ctx o r (tuic_failed user host port r (chain_attempts e) ob (failure_stage e) (lit "upstream connect failed"))
  | (Ok (t, egress), _) =>
      let splice := relay (tn_conn t) (ao_up_rate (id_limits id)) (ao_down_rate (id_limits id)) in
      with_egress (ei_label egress)
        (x ← match captured with Some c => with_prefix (bytes c) splice | None => splice end;
         let ob := match captured with
                   | Some _ => ob
                   | None => if sc_enabled (cx_sniff ctx) then Some (ou_observed o) else None
                   end in
         (match captured with Some _ => mret tt | None => record_sniff ob end) ;;
         record_tcp_access ctx o (rd_snapshot_version r) (tuic_relayed user host port r egress ob x))
  end.
(** Route mode's capture *)
Definition tuic_capture (ctx : Ctx) (o : Outside) (user host : str) (port : Z) (first : ResolvedDecision) : handler CapturedPrefix := fun w =>
  match capture_prefix (cn_in (wd_conn w)) (sc_max_bytes (cx_sniff ctx)) (sc_timeout_ms (cx_sniff ctx)) (ou_capture_start o)
          (ou_capture o) with
  | Some (Ok (cap, rd)) =>
      (Ok cap, mkWorld (mkConn rd (cn_sent (wd_conn w)) (cn_writes (wd_conn w))) (wd_permit w) (wd_log w))
  | Some (Err _) =>
      record_and_return ctx o first
        (tuic_failed user host port first None None (lit "sniff_read") (lit "route sniff read failed")) w
  | None => (Err IoFailed, w)
  end.
(** Under the connection permit *)
Definition tuic_admitted (ctx : Ctx) (o : Outside) (id : Identity) (host : str) (port : Z) (first : ResolvedDecision) : handler unit :=
  let user := id_username id in
  if route_mode ctx then
    captured ← tuic_capture ctx o user host port first;
    let ob := captured_observation captured in
    record_sniff ob ;;
    let resolved := engine_decide_with_sniff (ou_route o) user host (ob ≫= obs_host) in
    match rd_decision resolved with
    | Block =>
        record_and_return ctx o resolved
          (tuic_failed user host port resolved None ob (lit "policy") (lit "blocked by requested or sniffed target policy"))
    | _ => tuic_dial ctx o id host port resolved (Some captured)
    end
  else tuic_dial ctx o id host port first None.
(** [handle_connect], for the identity the connection has *)
Definition handle_connect (ctx : Ctx) (o : Outside) (id : Identity) (host : str) (port : Z) : handler unit :=
  let user := id_username id in
  let resolved := engine_decide_with_sniff (ou_decide o) user host None in
  match rd_decision resolved with
  | Block =>
      record_and_return ctx o resolved
        (tuic_failed user host port resolved None None (lit "policy") (lit "blocked by requested target policy"))
  | _ =>
      match acquire_connection (ou_acquire o) user (ao_max_connections (id_limits id)) with
      | Err _ =>
          record_and_return ctx o resolved
            (tuic_failed user host port resolved None None (lit "limit") (lit "connection limit exceeded"))
      | Ok (p, _) => hold p ;; tuic_admitted ctx o id host port resolved
      end
  end.
(** A stream of [accept_bi_loop]; [auth] is what [wait_auth_or_give_up] gives. *)
Definition tuic_stream (ctx : Ctx) (o : Outside) (auth : option Identity) : handler unit :=
  permit_scope
    (ty ← reads read_command_type;
     if negb (ty =? CONNECT) then halt Return
     else
       addr ← reads read_address;
       match host_port addr with
       | None => halt Return
       | Some (host, port) =>
           match auth with
           | None => halt Return
           | Some id => handle_connect ctx o id host port
           end
       end).

(** ** The connection *)

(** A relay opened for an association: the hop it is bound to, and its return
    pump ([spawn_return_pump]) with its packet counter. *)
Record Pumped := mkPumped { rl_assoc : Z; rl_hop : str; rl_next : Z; rl_aborted : bool; rl_running : bool }.
(** A packet on its way through [relay_uplink]: its relay being opened, for the
    decision made; being sent through a relay. *)
Inductive UplinkTask :=
| Opening (assoc : Z) (user host : str) (port : Z) (payload : list Z) (d : Decision)
| Sending (relay : Z) (host : str) (port : Z) (payload : list Z).
(** [ConnCtx]: the identity, the associations by relay; with the tasks that
    relay packets, and whether the connection is closed. *)
Record TuicConn := mkTuicConn {
  tc_auth : option Identity; tc_assoc : gmap Z Z; tc_relays : gmap Z Pumped; tc_tasks : gmap Z UplinkTask; tc_closed : bool
}.
Definition tuic_new : TuicConn := mkTuicConn None ∅ ∅ ∅ false.
Definition set_auth (a : option Identity) (w : TuicConn) : TuicConn := mkTuicConn a (tc_assoc w) (tc_relays w) (tc_tasks w) (tc_closed w).
Definition set_assoc (m : gmap Z Z) (w : TuicConn) : TuicConn := mkTuicConn (tc_auth w) m (tc_relays w) (tc_tasks w) (tc_closed w).
Definition set_relays (m : gmap Z Pumped) (w : TuicConn) : TuicConn := mkTuicConn (tc_auth w) (tc_assoc w) m (tc_tasks w) (tc_closed w).
Definition set_tasks (m : gmap Z UplinkTask) (w : TuicConn) : TuicConn := mkTuicConn (tc_auth w) (tc_assoc w) (tc_relays w) m (tc_closed w).
Definition set_closed (w : TuicConn) : TuicConn := mkTuicConn (tc_auth w) (tc_assoc w) (tc_relays w) (tc_tasks w) true.
Definition bump (p : Pumped) : Pumped := mkPumped (rl_assoc p) (rl_hop p) (wrap 16 (rl_next p + 1)) (rl_aborted p) (rl_running p).
Definition abort_pump (p : Pumped) : Pumped := mkPumped (rl_assoc p) (rl_hop p) (rl_next p) true (rl_running p).
Definition halt_pump (p : Pumped) : Pumped := mkPumped (rl_assoc p) (rl_hop p) (rl_next p) (rl_aborted p) false.
Definition update_relay (f : Pumped -> Pumped) (relay : Z) (w : TuicConn) : TuicConn := set_relays (alter f relay (tc_relays w)) w.

Inductive TuicEvent :=
| AuthRead (e : Engine) (today : NaiveDate) (r : result IoError (list Z * list Z)) (exporter : list Z -> list Z -> nat -> option (list Z))
| AuthTimedOut
| DissociateRead (r : result IoError Z)
| StreamPacket (task : Z) (decide open : Engine) (bytes : list Z)
| DatagramRead (decide open : Engine) (bytes : list Z)
| RelayOpened (task relay : Z) (envs : nat -> Env) (now : Z)
| PacketSent (task : Z)
| PumpReceived (relay : Z) (payload : list Z) (host : str) (port : Z) (max_size : option nat) (sent : bool)
| PumpFailed (relay : Z)
| PumpStopped (relay : Z)
| ConnectStream (o : Outside) (stream : Conn)
| ConnectionEnded.
Inductive TuicOutput :=
| ToHop (relay : Z) (host : str) (port : Z) (payload : list Z)
| ToClient (relay : Z) (datagram : list Z)
| ClosedConnection
| Streamed (log : list action).

(** What [datagram_loop] and [handle_packet_bytes] relay: whole packets to a host *)
Definition whole_packet (bytes : list Z) : option (Z * str * Z * list Z) :=
  match parse_datagram bytes with
  | Ok (Packet hdr payload) =>
      if frag_total hdr =? 1 then '(host, port) ← host_port (addr hdr); Some (assoc_id hdr, host, port, payload) else None
  | _ => None
  end.
(** The task of [datagram_loop] *)
Definition DATAGRAMS : Z := 0.
(** [relay_uplink] and [open_association], up to their first await *)
Definition relay_uplink (w : TuicConn) (task : Z) (decide open : Engine) (assoc : Z) (host : str) (port : Z) (payload : list Z) : TuicConn :=
  match tc_auth w with
  | None => w
  | Some id =>
      match engine_decide decide (id_username id) host with
      | Block => w
      | _ =>
          let t := match tc_assoc w !! assoc with
                   | Some relay => Sending relay host port payload
                   | None => Opening assoc (id_username id) host port payload (engine_decide open (id_username id) host)
                   end in
          set_tasks (<[task := t]> (tc_tasks w)) w
      end
  end.
Definition on_packet (w : TuicConn) (task : Z) (decide open : Engine) (bytes : list Z) : TuicConn :=
  match whole_packet bytes with
  | Some (assoc, host, port, payload) => relay_uplink w task decide open assoc host port payload
  | None => w
  end.
(** The rest of [open_association]: the entry a concurrent packet made wins. *)
Definition on_relay_opened (ctx : Ctx) (w : TuicConn) (task relay : Z) (envs : nat -> Env) (now : Z) (assoc : Z) (host : str) (port : Z)
    (payload : list Z) (d : Decision) : option TuicConn :=
  match connect_udp envs now d (cx_egress ctx) with
  | (Err _, _) => Some (set_tasks (delete task (tc_tasks w)) w)
  | (Ok (hop, _), _) =>
      if bool_decide (is_Some (tc_relays w !! relay)) then None
      else
        let w := set_relays (<[relay := mkPumped assoc hop 0 false true]> (tc_relays w)) w in
        match tc_assoc w !! assoc with
        | Some existing => Some (set_tasks (<[task := Sending existing host port payload]> (tc_tasks w)) w)
        | None => Some (set_tasks (<[task := Sending relay host port payload]> (tc_tasks w)) (set_assoc (<[assoc := relay]> (tc_assoc w)) w))
        end
  end.
(** One packet in [spawn_return_pump] *)
Definition on_pump (w : TuicConn) (relay : Z) (p : Pumped) (payload : list Z) (host : str) (port : Z) (max_size : option nat) (sent : bool) :
    TuicConn * list TuicOutput :=
  let dg := encode_packet_datagram (rl_assoc p) (rl_next p) (from_host_port host port) payload in
  let w := update_relay bump relay w in
  if match max_size with Some max => (max <? length dg)%nat | None => false end then (w, [])
  else if sent then (w, [ToClient relay dg]) else (update_relay halt_pump relay w, []).
(** [Drop for UdpAssoc], of every association *)
Definition clear_assoc (w : TuicConn) : TuicConn :=
  set_assoc ∅ (set_relays (foldr (fun ar m => alter abort_pump ar.2 m) (tc_relays w) (map_to_list (tc_assoc w))) w).

Definition tuic_step (ctx : Ctx) (w : TuicConn) (e : TuicEvent) : option (TuicConn * list TuicOutput) :=
  match e with
  | AuthRead e today r exporter =>
      if tc_closed w then None
      else
        match r with
        | Err _ => Some (w, [])
        | Ok (uuid, token) =>
            match authenticate_tuic e today uuid token exporter with
            | Ok (user, ok) => Some (set_auth (Some (mkClient user ok)) w, [])
            | Err _ => Some (set_closed w, [ClosedConnection])
            end
        end
  | AuthTimedOut => match tc_auth w with None => Some (set_closed w, [ClosedConnection]) | Some _ => None end
  | DissociateRead r =>
      match r with
      | Err _ => Some (w, [])
      | Ok assoc =>
          match tc_assoc w !! assoc with
          | Some relay => Some (update_relay abort_pump relay (set_assoc (delete assoc (tc_assoc w)) w), [])
          | None => Some (w, [])
          end
      end
  | StreamPacket task decide open bytes =>
      if bool_decide (is_Some (tc_tasks w !! task)) || (task =? DATAGRAMS) then None
      else Some (on_packet w task decide open ([VERSION; PACKET] ++ bytes), [])
  | DatagramRead decide open bytes =>
      if bool_decide (is_Some (tc_tasks w !! DATAGRAMS)) || tc_closed w || negb (bool_decide (is_Some (tc_auth w))) then None
      else Some (on_packet w DATAGRAMS decide open bytes, [])
  | RelayOpened task relay envs now =>
      match tc_tasks w !! task with
      | Some (Opening assoc _ host port payload d) =>
          w ← on_relay_opened ctx w task relay envs now assoc host port payload d; Some (w, [])
      | _ => None
      end
  | PacketSent task =>
      match tc_tasks w !! task with
      | Some (Sending relay host port payload) => Some (set_tasks (delete task (tc_tasks w)) w, [ToHop relay host port payload])
      | _ => None
      end
  | PumpReceived relay payload host port max_size sent =>
      p ← tc_relays w !! relay;
      if rl_running p then Some (on_pump w relay p payload host port max_size sent) else None
  | PumpFailed relay => p ← tc_relays w !! relay; if rl_running p then Some (update_relay halt_pump relay w, []) else None
  | PumpStopped relay => p ← tc_relays w !! relay; if rl_aborted p then Some (update_relay halt_pump relay w, []) else None
  | ConnectStream o stream => Some (w, [Streamed (wd_log (snd (tuic_stream ctx o (tc_auth w) (mkWorld stream None []))))])
  | ConnectionEnded => Some (set_closed (clear_assoc w), [])
  end.
Fixpoint tuic_run (ctx : Ctx) (w : TuicConn) (es : list TuicEvent) : option (TuicConn * list TuicOutput) :=
  match es with
  | [] => Some (w, [])
  | e :: es => '(w, out) ← tuic_step ctx w e; '(w, outs) ← tuic_run ctx w es; Some (w, out ++ outs)
  end.

End TuicServer.
