(* ===== verification/TuicServerProps.v ===== *)
(** * TuicServerProps: what the TUIC front end guarantees

    On every client, network and interleaving a connection does nothing for a
    client it has not authenticated; a stream dials only what it asked for,
    under a non-blocking decision and the user's permit; packets go only where
    the policy of each allows, and answers come back to the association. *)

From Stdlib Require Import ZArith Lia String.
From stdpp Require Import prelude strings list gmap.
From S2P Require Import Sniff SniffProps.
From S2P Require Import Prelude RustStr Net NetProps RustFmt Util Frame Stream Conn Domain Policy Book Model Engine Outbound Io Handler Inbound Socks5 Sni Tuic TuicServer.

Section Stream.
Context {N : Ipnet} {B : BookApi} {D : Chrono} {O : ChronoOrder D} {B64 : Base64}.
Context {R : Rustls} {HP : Httparse} {UC : UrlCrate}.
Context (ctx : Ctx) (o : Outside) (auth : option Identity) (client : Conn).

(** The target the stream's header names, and the stream after it. *)
Definition asked (host : str) (port : Z) (rd : Reader.t) : Prop :=
  exists r1 a, read_command_type (cn_in client) = (Ok CONNECT, r1) /\ read_address r1 = (Ok a, rd) /\ host_port a = Some (host, port).
(** Nothing was captured from [rd], or a capture that stopped short of its end
    or found a name: a stream is not read past its end. *)
Definition seen (rd : Reader.t) : Prop :=
  route_mode ctx = false \/
  exists cap r' ob, capture_prefix rd (sc_max_bytes (cx_sniff ctx)) (sc_timeout_ms (cx_sniff ctx)) (ou_capture_start o) (ou_capture o) = Some (Ok (cap, r')) /\
    (bytes cap <> Reader.bytes rd \/ captured_observation cap = Some ob /\ outcome ob = Matched).
(** What may happen under the permit ([while_held]); what the target is sent are
    the client's bytes. *)
Definition tuic_held (user host : str) (port : Z) (rd : Reader.t) (x : action) : Prop :=
  match x with
  | Relayed up _ => seen rd -> exists rest, Reader.bytes rd = co_delivered up ++ rest
  | x => while_held o user host port x
  end.
Lemma passive_tuic user host port rd a : passive a -> tuic_held user host port rd a.
Proof. by destruct a. Qed.

Lemma record_does version f : does passive (fun _ => True) (record_tcp_access ctx o version f).
Proof. apply does_acts; [|done]. case_match; repeat constructor. Qed.
Lemma record_sniff_does ob : does passive (fun _ => True) (record_sniff ob).
Proof. apply does_acts; [|done]. case_match; repeat constructor. Qed.
Lemma record_return_does r f : does passive (fun _ : unit => True) (record_and_return ctx o r f).
Proof. apply does_seq; [apply record_does|intros; apply does_halt]. Qed.

Section Held.
Context (id : Identity) (host : str) (port : Z) (rd : Reader.t).
Abbreviation user := (id_username id).
Abbreviation held := (tuic_held user host port rd).
Lemma passive_adds {A} {Q : A -> Prop} (m : handler A) w : does passive Q m -> adds held m w.
Proof. intros H. eapply adds_does, does_weaken; [|exact H]. apply passive_tuic. Qed.
Lemma splice_adds (captured : option CapturedPrefix) t up down (k : result ErrorKind SpliceStats -> handler unit) w :
  (forall x, does passive (fun _ => True) (k x)) ->
  (seen rd -> Reader.bytes rd = match captured with Some c => bytes c | None => [] end ++ Reader.bytes (cn_in (wd_conn w))) ->
  adds held (x ← match captured with Some c => with_prefix (bytes c) (relay t up down) | None => relay t up down end; k x) w.
Proof.
  intros Hk Hb. destruct captured as [c|].
  - set (w1 := mkWorld (mkConn (unread (prefixed_new (bytes c) (cn_in (wd_conn w)))) (cn_sent (wd_conn w)) (cn_writes (wd_conn w)))
      (wd_permit w) (wd_log w)). change (adds held (relay t up down ≫= k) w1). apply relay_adds.
    + intros ou od [rest Hr] Hs. exists rest. rewrite (Hb Hs). unfold w1 in Hr. cbn [wd_conn cn_in] in Hr. by rewrite unread_bytes in Hr.
    + intros x w2. by apply (passive_adds (Q := fun _ => True)).
  - apply relay_adds.
    + intros ou od [rest Hr] Hs. exists rest. by rewrite (Hb Hs).
    + intros x w2. by apply (passive_adds (Q := fun _ => True)).
Qed.
Lemma dial_adds r captured w :
  rd_decision r <> Block ->
  (exists e sniffed, e ∈ [ou_decide o; ou_route o] /\ r = engine_decide_with_sniff e user host sniffed) ->
  (seen rd -> Reader.bytes rd = match captured with Some c => bytes c | None => [] end ++ Reader.bytes (cn_in (wd_conn w))) ->
  adds held (tuic_dial ctx o id host port r captured) w.
Proof.
  intros Hd (e & s & He & Er) Hb. unfold tuic_dial. apply adds_act.
  { cbn. split_and!; try done. exists e, s. by rewrite Er. }
  destruct (connect _ _ _ _ _ _) as [[[t egress]|err] ?]; [|eapply passive_adds, record_return_does].
  apply adds_with_egress; [done..|]. apply splice_adds; [|exact Hb]. intros x.
  apply does_seq; [destruct captured; [by apply does_ret|apply record_sniff_does]|intros []; apply record_does].
Qed.
Lemma admitted_adds first w :
  rd_decision first <> Block -> first = engine_decide_with_sniff (ou_decide o) user host None -> cn_in (wd_conn w) = rd ->
  adds held (tuic_admitted ctx o id host port first) w.
Proof.
  intros Hd Ef Hw. unfold tuic_admitted. destruct (route_mode ctx) eqn:Er.
  - unfold adds at 1, tuic_capture, mbind, handler_bind. rewrite Hw. destruct (capture_prefix _ _ _ _ _) as [[[cap r']|e]|] eqn:Ec.
    + set (w1 := mkWorld (mkConn r' _ _) _ _). change (wd_log w) with (wd_log w1). change (wd_permit w) with (wd_permit w1).
      assert (Hcap : seen rd -> Reader.bytes rd = bytes cap ++ Reader.bytes r').
      { intros [E|(cap' & r2 & ob & E & Hm)]; [congruence|]. rewrite Ec in E. injection E as <- <-.
        destruct Hm as [|[? ?]]; [by eapply capture_prefix_short|by eapply capture_prefix_matched]. }
      destruct (captured_observation cap) as [ob|]; cbn [record_sniff].
      * match goal with |- adds _ (fun w => match acts ?l w with _ => _ end) _ => idtac | _ => idtac end.
        apply (adds_acts held [RecordSniff (outcome ob)]); [by repeat constructor|].
        set (r := engine_decide_with_sniff _ _ _ _). destruct (rd_decision r) eqn:Eb; try (eapply passive_adds, record_return_does);
          (apply dial_adds; [by rewrite Eb|exists (ou_route o), (Some ob ≫= obs_host); split; [set_solver|done]|exact Hcap]).
      * apply (adds_acts held []); [constructor|].
        set (r := engine_decide_with_sniff _ _ _ _). destruct (rd_decision r) eqn:Eb; try (eapply passive_adds, record_return_does);
          (apply dial_adds; [by rewrite Eb|exists (ou_route o), None; split; [set_solver|done]|exact Hcap]).
    + match goal with |- context [record_and_return ctx o first ?f] => destruct (record_return_does first f w) as (l & E & Hl & Hp & _) end.
      exists l. unfold record_and_return, mbind, handler_bind in *. destruct (record_tcp_access _ _ _ _ w) as [[] w2]; cbn in *;
        (split; [done|split; [eapply Forall_impl; [exact Hl|apply passive_tuic]|done]]).
    + exists []. by rewrite app_nil_r.
  - apply dial_adds; [done|exists (ou_decide o), None; split; [set_solver|done]|]. intros _. by rewrite Hw.
Qed.
End Held.

(** What one stream did. *)
Definition stream_outcome (log : list action) : Prop :=
  log = [] \/
  exists id host port rd, auth = Some id /\ asked host port rd /\
    (Forall passive log \/
     exists held, (exists p e, acquire_connection (ou_acquire o) (id_username id) (ao_max_connections (id_limits id)) = Ok (p, e)) /\
       log = [Acquired (id_username id)] ++ held ++ [Released (id_username id)] /\ Forall (tuic_held (id_username id) host port rd) held).
(** The log at the end of the permit's scope *)
Lemma permit_scope_ended m w : wd_permit (snd (permit_scope m w)) = None /\ wd_log (snd (permit_scope m w)) = ended (snd (m w)).
Proof.
  unfold permit_scope, ended, release. destruct (m w) as [r w1]. cbn [snd]. destruct (wd_permit w1) as [p|] eqn:E; cbn; [done|].
  by rewrite E, app_nil_r.
Qed.
Lemma handle_connect_spec id host port rd w :
  auth = Some id -> asked host port rd -> cn_in (wd_conn w) = rd -> wd_permit w = None -> wd_log w = [] ->
  stream_outcome (ended (snd (handle_connect ctx o id host port w))).
Proof.
  intros Ha Hask Hw Hp Hl. right. exists id, host, port, rd. split; [done|]. split; [done|]. unfold handle_connect.
  assert (Hret : forall r f, Forall passive (ended (snd (record_and_return (A := unit) ctx o r f w)))).
  { intros r f. destruct (record_return_does r f w) as (l & E & Hf & Hpp & _). unfold ended. by rewrite Hpp, Hp, E, Hl, app_nil_r. }
  set (r := engine_decide_with_sniff (ou_decide o) (id_username id) host None).
  assert (Hgo : rd_decision r <> Block -> forall m, m = match acquire_connection (ou_acquire o) (id_username id) (ao_max_connections (id_limits id)) with
      | Err _ => record_and_return ctx o r (tuic_failed (id_username id) host port r None None (lit "limit") (lit "connection limit exceeded"))
      | Ok (p, _) => hold p ;; tuic_admitted ctx o id host port r end ->
    Forall passive (ended (snd (m w))) \/ exists held, (exists p e, acquire_connection (ou_acquire o) (id_username id) (ao_max_connections (id_limits id)) = Ok (p, e)) /\
       ended (snd (m w)) = [Acquired (id_username id)] ++ held ++ [Released (id_username id)] /\ Forall (tuic_held (id_username id) host port rd) held).
  { intros Hd m ->. destruct (acquire_connection _ _ _) as [[p e]|e] eqn:Eq; [right|left; apply Hret]. pose proof (acquire_username _ _ _ _ _ Eq) as Ep.
    set (w1 := mkWorld (wd_conn w) (Some p) (wd_log w ++ [Acquired (cp_username p)])).
    change (snd ((hold p ;; tuic_admitted ctx o id host port r) w)) with (snd (tuic_admitted ctx o id host port r w1)).
    destruct (admitted_adds id host port rd r w1 Hd eq_refl Hw) as (l & E & Hf & Hpp). exists l. split; [eauto|]. split; [|done].
    unfold ended. rewrite Hpp, E. cbn [wd_permit wd_log w1]. rewrite Ep, Hl, <- !app_assoc. done. }
  destruct (rd_decision r) eqn:E; [by apply Hgo..|left; apply Hret].
Qed.

Lemma tuic_stream_spec :
  let w := snd (tuic_stream ctx o auth (mkWorld client None [])) in
  wd_permit w = None /\ stream_outcome (wd_log w).
Proof.
  cbv zeta. unfold tuic_stream. match goal with |- context [permit_scope ?m ?w] => destruct (permit_scope_ended m w) as [-> ->] end.
  split; [done|]. unfold mbind, handler_bind, reads. cbn [wd_conn].
  destruct (read_command_type (cn_in client)) as [[ty|e] r1] eqn:Et; [|by left]. cbn [map_err].
  destruct (Z.eqb_spec ty CONNECT) as [->|]; cbn [negb]; [|by left].
  cbn [wd_conn cn_in]. destruct (read_address r1) as [[a|e] rd] eqn:Er; [|by left]. cbn [map_err].
  destruct (host_port a) as [[host port]|] eqn:Eh; [|by left]. destruct auth as [id|] eqn:Ea; [|by left].
  eapply handle_connect_spec; [by rewrite Ea|by exists r1, a|done..].
Qed.
(** A stream of a TUIC connection ends without a permit, and it does nothing
    at all unless its header is a Connect to a target and the connection has an
    authenticated identity. Then it only records, or it takes one connection
    permit granted to that user and gives it back once, and in between dials only
    the requested target, under a decision for that user and target, before or
    after sniffing, that does not block; what the target is sent is a prefix of
    the bytes that followed the header, in order (when a capture did not read to
    the end of the stream without finding a name). *)
Theorem tuic_stream_safe :
  let w := snd (tuic_stream ctx o auth (mkWorld client None [])) in
  wd_permit w = None /\ stream_outcome (wd_log w).
Proof. apply tuic_stream_spec. Qed.
End Stream.

(** ** The connection *)

Section Connection.
Context {N : Ipnet} {B : BookApi} {D : Chrono} {O : ChronoOrder D} {B64 : Base64}.
Context {R : Rustls} {HP : Httparse} {UC : UrlCrate}.
Context (ctx : Ctx).

(** The client presented this identity's credentials. *)
Definition authenticated (es : list TuicEvent) (id : Identity) : Prop :=
  exists e today uuid token exporter, AuthRead e today (Ok (uuid, token)) exporter ∈ es /\
    authenticate_tuic e today uuid token exporter = Ok (id_username id, id_limits id).
(** The client sent this whole packet, in a datagram or on a stream, and a
    decision for an identity it presented does not block its target. *)
Definition packet_asked (es : list TuicEvent) (assoc : Z) (host : str) (port : Z) (payload : list Z) : Prop :=
  exists decide open bytes id,
    (DatagramRead decide open bytes ∈ es /\ whole_packet bytes = Some (assoc, host, port, payload) \/
     exists task, StreamPacket task decide open bytes ∈ es /\ whole_packet ([VERSION; PACKET] ++ bytes) = Some (assoc, host, port, payload)) /\
    authenticated es id /\ engine_decide decide (id_username id) host <> Block.
(** A relay was opened for an asked packet of its association, to a hop that a
    decision for the identity and that packet's target chose. *)
Definition relay_chosen (es : list TuicEvent) (relay : Z) (p : Pumped) : Prop :=
  exists task envs now e id host port payload info t, RelayOpened task relay envs now ∈ es /\
    packet_asked es (rl_assoc p) host port payload /\ authenticated es id /\
    connect_udp envs now (engine_decide e (id_username id) host) (cx_egress ctx) = (Ok (rl_hop p, info), t).
Definition named_relay (w : TuicConn) (relay : Z) : option (Z * str) := (fun p => (rl_assoc p, rl_hop p)) <$> tc_relays w !! relay.
Definition output_ok (es : list TuicEvent) (w : TuicConn) (out : TuicOutput) : Prop :=
  match out with
  | ToHop relay host port payload => exists p, named_relay w relay = Some (rl_assoc p, rl_hop p) /\ relay_chosen es relay p /\
      packet_asked es (rl_assoc p) host port payload
  | ToClient relay dg => exists p payload host port max n, named_relay w relay = Some (rl_assoc p, rl_hop p) /\ relay_chosen es relay p /\
      PumpReceived relay payload host port max true ∈ es /\ 0 <= n < 2 ^ 16 /\
      dg = encode_packet_datagram (rl_assoc p) n (from_host_port host port) payload
  | Streamed log => exists o stream auth, ConnectStream o stream ∈ es /\ stream_outcome ctx o auth stream log /\
      match auth with Some id => authenticated es id | None => True end
  | ClosedConnection => True
  end.
Definition task_ok (es : list TuicEvent) (w : TuicConn) (t : UplinkTask) : Prop :=
  match t with
  | Opening assoc user host port payload d => packet_asked es assoc host port payload /\
      exists id e, authenticated es id /\ user = id_username id /\ d = engine_decide e user host
  | Sending relay host port payload => exists assoc hop, named_relay w relay = Some (assoc, hop) /\ packet_asked es assoc host port payload
  end.
Record tuic_inv (es : list TuicEvent) (outs : list TuicOutput) (w : TuicConn) : Prop := {
  ti_auth : forall id, tc_auth w = Some id -> authenticated es id;
  ti_assoc : forall a r, tc_assoc w !! a = Some r -> exists hop, named_relay w r = Some (a, hop);
  ti_relays : forall r p, tc_relays w !! r = Some p -> relay_chosen es r p /\ 0 <= rl_next p < 2 ^ 16;
  ti_tasks : forall k t, tc_tasks w !! k = Some t -> task_ok es w t;
  ti_outs : Forall (output_ok es w) outs;
}.

Section Mono.
Context (es es' : list TuicEvent) (w w' : TuicConn) (He : es ⊆ es') (Hw : forall r x, named_relay w r = Some x -> named_relay w' r = Some x).
Lemma identity_mono id : authenticated es id -> authenticated es' id.
Proof using He. intros (e & d & u & t & x & ? & ?). exists e, d, u, t, x. auto. Qed.
Lemma packet_asked_mono a h p b : packet_asked es a h p b -> packet_asked es' a h p b.
Proof using He.
  intros (d & op & bs & id & Hp & Ha & Hd). exists d, op, bs, id. split; [|split; [by apply identity_mono|done]].
  destruct Hp as [[? ?]|(t & ? & ?)]; [left; auto|right; exists t; auto].
Qed.
Lemma relay_chosen_mono r p : relay_chosen es r p -> relay_chosen es' r p.
Proof using He.
  intros (t & en & n & e & id & h & po & b & i & tm & ? & ? & ? & ?). exists t, en, n, e, id, h, po, b, i, tm.
  split_and!; auto using identity_mono, packet_asked_mono.
Qed.
Lemma tuic_output_mono out : output_ok es w out -> output_ok es' w' out.
Proof using He Hw.
  destruct out; cbn; try done.
  - intros (p & ? & ? & ?). exists p. split_and!; auto using relay_chosen_mono, packet_asked_mono.
  - intros (p & b & h & po & m & n & ? & ? & ? & ? & ?). exists p, b, h, po, m, n. split_and!; auto using relay_chosen_mono; lia.
  - intros (o & s & [id|] & ? & ? & ?); [exists o, s, (Some id)|exists o, s, None]; split_and!; auto using identity_mono.
Qed.
Lemma tuic_task_mono t : task_ok es w t -> task_ok es' w' t.
Proof using He Hw.
  destruct t; cbn; [intros (? & id & e & ? & ? & ?); split; [by apply packet_asked_mono|]; exists id, e; split_and!; auto using identity_mono|].
  intros (a & hop & ? & ?). exists a, hop. split; auto using packet_asked_mono.
Qed.
End Mono.

(** A state with the same relays, or more, in which what changed is in order. *)
Lemma tuic_inv_change es es' outs w w' :
  tuic_inv es outs w -> es ⊆ es' -> (forall r x, named_relay w r = Some x -> named_relay w' r = Some x) ->
  (forall id, tc_auth w' = Some id -> tc_auth w = Some id \/ authenticated es' id) ->
  (forall a r, tc_assoc w' !! a = Some r -> tc_assoc w !! a = Some r \/ exists hop, named_relay w' r = Some (a, hop)) ->
  (forall r p, tc_relays w' !! r = Some p ->
     (exists p0, tc_relays w !! r = Some p0 /\ rl_assoc p = rl_assoc p0 /\ rl_hop p = rl_hop p0 /\ 0 <= rl_next p < 2 ^ 16) \/
     (relay_chosen es' r p /\ 0 <= rl_next p < 2 ^ 16)) ->
  (forall k t, tc_tasks w' !! k = Some t -> tc_tasks w !! k = Some t \/ task_ok es' w' t) -> tuic_inv es' outs w'.
Proof.
  intros [H1 H2 H3 H4 H5] He Hw Ha Has Hr Ht. split.
  - intros id Hid. destruct (Ha id Hid) as [E|]; [|done]. eapply identity_mono; [done|by apply H1].
  - intros a r E. destruct (Has a r E) as [E'|]; [|done]. destruct (H2 a r E') as [hop ?]. exists hop. auto.
  - intros r p E. destruct (Hr r p E) as [(p0 & E0 & E1 & E2 & Hn)|]; [|done]. split; [|done]. destruct (H3 r p0 E0) as [Hc _].
    eapply (relay_chosen_mono _ _ He) in Hc. destruct Hc as (t & en & n & e & id & h & po & b & i & tm & A1 & A2 & A3 & A4).
    exists t, en, n, e, id, h, po, b, i, tm. rewrite E1, E2. done.
  - intros k t E. destruct (Ht k t E) as [E'|]; [|done]. eapply tuic_task_mono; eauto.
  - eapply Forall_impl; [exact H5|]. intros out. by apply tuic_output_mono.
Qed.
Lemma tuic_inv_outs es outs out w : tuic_inv es outs w -> Forall (output_ok es w) out -> tuic_inv es (outs ++ out) w.
Proof. intros [H1 H2 H3 H4 H5] Ho. split; try done. by apply Forall_app. Qed.
Lemma named_update f relay w r :
  (forall p, rl_assoc (f p) = rl_assoc p /\ rl_hop (f p) = rl_hop p) -> named_relay (update_relay f relay w) r = named_relay w r.
Proof.
  intros Hf. unfold named_relay, update_relay. cbn. destruct (decide (relay = r)) as [->|]; [|by rewrite lookup_alter_ne].
  rewrite lookup_alter_eq. destruct (tc_relays w !! r) as [p|]; cbn; [|done]. by destruct (Hf p) as [-> ->].
Qed.
Lemma inv_relay es outs w f relay :
  (forall p, rl_assoc (f p) = rl_assoc p /\ rl_hop (f p) = rl_hop p /\ (0 <= rl_next p < 2 ^ 16 -> 0 <= rl_next (f p) < 2 ^ 16)) ->
  tuic_inv es outs w -> tuic_inv es outs (update_relay f relay w).
Proof.
  intros Hf I. assert (Hf' : forall p, rl_assoc (f p) = rl_assoc p /\ rl_hop (f p) = rl_hop p) by (intros p; by destruct (Hf p) as (? & ? & _)).
  apply (tuic_inv_change es _ _ w); auto.
  - intros r x. by rewrite named_update.
  - intros r p. cbn. destruct (decide (relay = r)) as [->|].
    + rewrite lookup_alter_eq. destruct (tc_relays w !! r) as [p0|] eqn:E; [|done]. intros [= <-]. left. exists p0.
      destruct (Hf p0) as (? & ? & Hn). split_and!; try done; apply Hn, (ti_relays _ _ _ I _ _ E).
    + rewrite lookup_alter_ne by done. intros E. left. exists p. split_and!; try done; apply (ti_relays _ _ _ I _ _ E).
Qed.
Lemma inv_same es es' outs w w' :
  tuic_inv es outs w -> es ⊆ es' -> tc_relays w' = tc_relays w ->
  (forall id, tc_auth w' = Some id -> tc_auth w = Some id \/ authenticated es' id) ->
  (forall a r, tc_assoc w' !! a = Some r -> tc_assoc w !! a = Some r) ->
  (forall k t, tc_tasks w' !! k = Some t -> tc_tasks w !! k = Some t \/ task_ok es' w' t) -> tuic_inv es' outs w'.
Proof.
  intros I He Er Ha Has Ht. apply (tuic_inv_change es _ _ w); auto.
  - intros r x. unfold named_relay. by rewrite Er.
  - intros r p. rewrite Er. intros E. left. exists p. split_and!; try done; apply (ti_relays _ _ _ I _ _ E).
Qed.
Lemma whole_packet_relayed es outs w task dec opn bytes packet assoc host port payload :
  tuic_inv es outs w -> whole_packet packet = Some (assoc, host, port, payload) ->
  (DatagramRead dec opn bytes ∈ es /\ packet = bytes \/ StreamPacket task dec opn bytes ∈ es /\ packet = [VERSION; PACKET] ++ bytes) ->
  tuic_inv es outs (relay_uplink w task dec opn assoc host port payload).
Proof.
  intros I Ep Hev. unfold relay_uplink. destruct (tc_auth w) as [id|] eqn:Ea; [|done]. pose proof (ti_auth _ _ _ I id Ea) as Hid.
  assert (Hgo : engine_decide dec (id_username id) host <> Block ->
    tuic_inv es outs (set_tasks (<[task := match tc_assoc w !! assoc with
                   | Some relay => Sending relay host port payload
                   | None => Opening assoc (id_username id) host port payload (engine_decide opn (id_username id) host)
                   end]> (tc_tasks w)) w)).
  { intros Hd. assert (Hask : packet_asked es assoc host port payload).
    { exists dec, opn, bytes, id. split; [|done]. destruct Hev as [[? ->]|[? ->]]; [by left|right; by exists task]. }
    apply (inv_same es _ _ w); auto. intros k t. cbn. destruct (decide (task = k)) as [->|]; [|rewrite lookup_insert_ne by done; auto].
    rewrite lookup_insert_eq. intros [= <-]. right. destruct (tc_assoc w !! assoc) as [r|] eqn:Er; cbn.
    - destruct (ti_assoc _ _ _ I _ _ Er) as [hop ?]. by exists assoc, hop.
    - split; [done|]. by exists id, opn. }
  destruct (engine_decide dec (id_username id) host); [by apply Hgo..|done].
Qed.
Lemma on_packet_inv es outs w task dec opn bytes packet :
  tuic_inv es outs w ->
  (DatagramRead dec opn bytes ∈ es /\ packet = bytes \/ StreamPacket task dec opn bytes ∈ es /\ packet = [VERSION; PACKET] ++ bytes) ->
  tuic_inv es outs (on_packet w task dec opn packet).
Proof.
  intros I Hev. unfold on_packet. destruct (whole_packet packet) as [[[[a h] p] b]|] eqn:E; [|done]. by eapply whole_packet_relayed.
Qed.
Lemma relay_opened_inv es outs w task relay envs now assoc user host port payload d w' :
  tuic_inv es outs w -> RelayOpened task relay envs now ∈ es -> tc_tasks w !! task = Some (Opening assoc user host port payload d) ->
  on_relay_opened ctx w task relay envs now assoc host port payload d = Some w' -> tuic_inv es outs w'.
Proof.
  intros I Hin Ht H. pose proof (ti_tasks _ _ _ I _ _ Ht) as (Hask & id & e & Hid & -> & ->). unfold on_relay_opened in H.
  destruct (connect_udp _ _ _ _) as [[[hop info]|err] t] eqn:Ec.
  2: { injection H as <-. apply (inv_same es _ _ w); auto. intros k x; cbn; intros [_ E]%lookup_delete_Some. by left. }
  destruct (bool_decide_reflect (is_Some (tc_relays w !! relay))) as [|Hnew%eq_None_not_Some]; [done|].
  set (p := mkPumped assoc hop 0 false true) in *. set (w1 := set_relays (<[relay := p]> (tc_relays w)) w) in *.
  assert (Hch : relay_chosen es relay p) by (exists task, envs, now, e, id, host, port, payload, info, t; done).
  assert (Hnamed : forall r x, named_relay w r = Some x -> named_relay w1 r = Some x).
  { intros r x. unfold named_relay, w1. cbn. intros E. rewrite lookup_insert_ne; [done|]. intros ->. by rewrite Hnew in E. }
  assert (Hp : named_relay w1 relay = Some (assoc, hop)) by (unfold named_relay, w1; cbn; by rewrite lookup_insert_eq).
  assert (Hgo : forall assocs r0 hop0, (forall a r, assocs !! a = Some r -> tc_assoc w !! a = Some r \/ a = assoc /\ r = relay) ->
    named_relay w1 r0 = Some (assoc, hop0) ->
    tuic_inv es outs (set_tasks (<[task := Sending r0 host port payload]> (tc_tasks w)) (set_assoc assocs w1))).
  { intros assocs r0 hop0 Has Hr0. apply (tuic_inv_change es _ _ w); auto.
    - intros a r E. destruct (Has a r E) as [?|[-> ->]]; [by left|right]. by exists hop.
    - intros r q. cbn. destruct (decide (relay = r)) as [<-|].
      + rewrite lookup_insert_eq. intros [= <-]. right. split; [done|]. cbn. lia.
      + rewrite lookup_insert_ne by done. intros E. left. exists q. split_and!; try done; apply (ti_relays _ _ _ I _ _ E).
    - intros k x. cbn. destruct (decide (task = k)) as [->|]; [|rewrite lookup_insert_ne by done; auto]. rewrite lookup_insert_eq.
      intros [= <-]. right. by exists assoc, hop0. }
  change (tc_assoc w1) with (tc_assoc w) in H. destruct (tc_assoc w !! assoc) as [existing|] eqn:Ex; injection H as <-.
  - destruct (ti_assoc _ _ _ I _ _ Ex) as [hop0 E0]. apply (Hgo (tc_assoc w) existing hop0); [by left|by apply Hnamed].
  - apply (Hgo (<[assoc := relay]> (tc_assoc w)) relay hop); [|done]. intros a r.
    destruct (decide (assoc = a)) as [<-|]; [rewrite lookup_insert_eq; intros [= <-]; by right|rewrite lookup_insert_ne by done; by left].
Qed.
Lemma wrap16_range n : 0 <= wrap 16 n < 2 ^ 16.
Proof. unfold wrap. apply Z.mod_pos_bound. lia. Qed.
Lemma bump_inv es outs w relay : tuic_inv es outs w -> tuic_inv es outs (update_relay bump relay w).
Proof. apply inv_relay. intros p. split_and!; try done; cbn; intros; pose proof (wrap16_range (rl_next p + 1)); lia. Qed.
Lemma pump_inv es outs w relay p payload host port max sent :
  tuic_inv es outs w -> tc_relays w !! relay = Some p -> PumpReceived relay payload host port max sent ∈ es ->
  tuic_inv es (outs ++ (on_pump w relay p payload host port max sent).2) (on_pump w relay p payload host port max sent).1.
Proof.
  intros I Ep Hin. unfold on_pump. pose proof (bump_inv _ _ _ relay I) as I'.
  destruct (match max with Some _ => _ | None => _ end); cbn [fst snd]; [by rewrite app_nil_r|].
  destruct sent; cbn [fst snd]; [|rewrite app_nil_r; by apply inv_relay]. apply tuic_inv_outs; [done|]. constructor; [|done].
  exists p, payload, host, port, max, (rl_next p). destruct (ti_relays _ _ _ I _ _ Ep) as [? ?].
  split; [rewrite named_update by done; unfold named_relay; by rewrite Ep|]. split_and!; try done; lia.
Qed.
Lemma clear_relays_inv es outs (l : list (Z * Z)) w :
  tuic_inv es outs w -> tuic_inv es outs (set_relays (foldr (fun ar m => alter abort_pump ar.2 m) (tc_relays w) l) w).
Proof.
  intros I. induction l as [|[a r] l IH]; [by destruct w|]. cbn [foldr].
  apply (inv_relay _ _ _ abort_pump r) in IH; [exact IH|done].
Qed.
Lemma tuic_step_inv es outs w e w' out :
  tuic_inv es outs w -> tuic_step ctx w e = Some (w', out) -> tuic_inv (es ++ [e]) (outs ++ out) w'.
Proof.
  intros I H. assert (He : es ⊆ es ++ [e]) by set_solver. assert (Hin : e ∈ es ++ [e]) by set_solver.
  assert (I1 : tuic_inv (es ++ [e]) outs w) by (apply (inv_same es _ _ w); auto). generalize dependent (es ++ [e]). intros es' He Hin I1. clear I es He.
  destruct e as [e today r exporter| |r|task dec opn bytes|dec opn bytes|task relay envs now|task|relay payload host port max sent|relay|relay|o s|]; cbn in H.
  - destruct (tc_closed w); [done|]. destruct r as [[uuid token]|]; [|injection H as <- <-; by rewrite app_nil_r].
    destruct (authenticate_tuic _ _ _ _ _) as [[user ok]|] eqn:Ea; injection H as <- <-.
    + rewrite app_nil_r. apply (inv_same es' _ _ w); auto. intros id [= <-]. right. by exists e, today, uuid, token, exporter.
    + apply tuic_inv_outs; [by apply (inv_same es' _ _ w); auto|by repeat constructor].
  - destruct (tc_auth w) eqn:Ea; [done|]. injection H as <- <-. apply tuic_inv_outs; [by apply (inv_same es' _ _ w); auto|by repeat constructor].
  - destruct r as [a|]; [|injection H as <- <-; by rewrite app_nil_r]. destruct (tc_assoc w !! a) as [r|] eqn:Er; injection H as <- <-; rewrite app_nil_r; [|done].
    apply inv_relay; [done|]. apply (inv_same es' _ _ w); auto. intros x y; cbn; intros [_ E]%lookup_delete_Some. done.
  - destruct (_ || _); [done|]. injection H as <- <-. rewrite app_nil_r. eapply on_packet_inv; [done|by right].
  - destruct (_ || _); [done|]. injection H as <- <-. rewrite app_nil_r. eapply on_packet_inv; [done|by left].
  - destruct (tc_tasks w !! task) as [[a u h p b d|]|] eqn:Et; try done.
    destruct (on_relay_opened _ _ _ _ _ _ _ _ _ _ _) as [w1|] eqn:Eo; [|done]. cbn in H. injection H as <- <-. rewrite app_nil_r.
    by eapply relay_opened_inv.
  - destruct (tc_tasks w !! task) as [[|relay h p b]|] eqn:Et; try done. injection H as <- <-.
    destruct (ti_tasks _ _ _ I1 _ _ Et) as (a & hop & En & Hask). unfold named_relay in En. destruct (tc_relays w !! relay) as [q|] eqn:Eq; [|done].
    injection En as <- <-. apply tuic_inv_outs; [apply (inv_same es' _ _ w); auto; intros k x; cbn; intros [_ E]%lookup_delete_Some; by left|].
    constructor; [|done]. exists q. unfold named_relay. cbn. rewrite Eq. split_and!; try done. by apply (ti_relays _ _ _ I1).
  - destruct (tc_relays w !! relay) as [q|] eqn:Eq; [|done]. cbn in H. destruct (rl_running q); [|done]. injection H as E.
    pose proof (pump_inv _ _ _ _ _ _ _ _ _ _ I1 Eq Hin) as P. by rewrite E in P.
  - destruct (tc_relays w !! relay) as [q|]; [|done]. cbn in H. destruct (rl_running q); [|done]. injection H as <- <-. rewrite app_nil_r. by apply inv_relay.
  - destruct (tc_relays w !! relay) as [q|]; [|done]. cbn in H. destruct (rl_aborted q); [|done]. injection H as <- <-. rewrite app_nil_r. by apply inv_relay.
  - injection H as <- <-. apply tuic_inv_outs; [done|]. constructor; [|done]. exists o, s, (tc_auth w). split; [done|].
    split; [apply tuic_stream_spec|]. destruct (tc_auth w) as [id|] eqn:Ea; [|done]. by apply (ti_auth _ _ _ I1).
  - injection H as <- <-. rewrite app_nil_r. apply (clear_relays_inv _ _ (map_to_list (tc_assoc w))) in I1.
    set (m := foldr _ _ _) in *. apply (inv_same es' _ _ (set_relays m w)); auto. by intros a r E.
Qed.
Lemma tuic_run_inv es0 outs0 w es w' outs :
  tuic_inv es0 outs0 w -> tuic_run ctx w es = Some (w', outs) -> tuic_inv (es0 ++ es) (outs0 ++ outs) w'.
Proof.
  revert es0 outs0 w outs. induction es as [|e es IH]; intros es0 outs0 w outs I H; cbn in H; [injection H as <- <-; by rewrite !app_nil_r|].
  destruct (tuic_step ctx w e) as [[w1 o1]|] eqn:E1; [|done]. cbn in H. destruct (tuic_run ctx w1 es) as [[w2 o2]|] eqn:E2; [|done].
  cbn in H. injection H as <- <-. apply (tuic_step_inv _ _ _ _ _ _ I) in E1. apply (IH _ _ _ _ E1) in E2. by rewrite <- !app_assoc in E2.
Qed.
Lemma tuic_new_inv : tuic_inv [] [] tuic_new.
Proof. split; try done. Qed.
(** A connection that presented no valid credentials *)
Definition silent (out : TuicOutput) : Prop := out = ClosedConnection \/ out = Streamed [].
Lemma unauthenticated_silent es w out : output_ok es w out -> (forall id, ~ authenticated es id) -> silent out.
Proof.
  intros H Hno. destruct out; cbn in H; [| |by left|].
  - destruct H as (p & _ & _ & d & op & b & id & _ & Ha & _). by destruct (Hno id).
  - destruct H as (p & ? & ? & ? & ? & ? & _ & (? & ? & ? & ? & id & ? & ? & ? & ? & ? & _ & _ & Ha & _) & _). by destruct (Hno id).
  - destruct H as (o & s & [id|] & _ & Hl & Ha); [by destruct (Hno id)|]. right. destruct Hl as [->|(id & ? & ? & ? & ? & _)]; done.
Qed.

(** C29: on every interleaving of its streams, datagrams, timers and pumps, a
    connection that was never shown valid credentials does nothing but close; and
    otherwise what it does is in order: the identity it acts for is one the client
    presented the UUID and exporter token of; each packet sent through a hop is one
    the client sent whole, under a decision for such an identity and its target
    that does not block, through the relay a like decision chose for a packet of
    its association; each answer given to the client is a packet its relay
    received, under its association's number, with a packet number that fits its
    16-bit field; each association's relay was opened for it; and each stream did
    what [stream_outcome] allows with an identity that was authenticated. *)
Theorem tuic_connection_safe es w outs :
  tuic_run ctx tuic_new es = Some (w, outs) ->
  ((forall id, ~ authenticated es id) -> Forall silent outs) /\
  (forall id, tc_auth w = Some id -> authenticated es id) /\
  (forall a r, tc_assoc w !! a = Some r -> exists p, tc_relays w !! r = Some p /\ rl_assoc p = a /\ relay_chosen es r p) /\
  Forall (output_ok es w) outs.
Proof.
  intros H. pose proof (tuic_run_inv _ _ _ _ _ _ tuic_new_inv H) as [H1 H2 H3 _ H5]. cbn in *.
  split_and!; [|done| |done].
  - intros Hno. eapply Forall_impl; [exact H5|]. intros out Ho. by eapply unauthenticated_silent.
  - intros a r E. destruct (H2 a r E) as [hop En]. unfold named_relay in En. destruct (tc_relays w !! r) as [p|] eqn:Er; [|done].
    injection En as <- <-. exists p. split_and!; [done..|]. by apply H3.
Qed.
End Connection.

(** A client that authenticates, relays a packet, gets its answer, opens a
    stream and drops its association; and one that presents nothing. *)
Module TuicDemo.
Import Socks5Demo.
(** Alice's packets for [hop.example] leave through a reverse hop. *)
Definition routed : Engine :=
  mkEngine (unwrap_or (compile_checked
    (mkRawSnapshot 1 8 (rs_users engine_raw)
       [(lit "g", mkRawPolicy [mkRawRoute [lit "hop.example"] (RawEgressTo (lit "jp"))] (Some RawDirect))]
       [(lit "jp", RawUp (mkRawUpstream (lit "reverse") (lit "hop1") None None false false))] [])
    (lit "n") None (fun _ _ => 0)) Snapshot_empty) ∅.
Definition quic_ctx : Ctx := mkCtx (lit "tuic") (mkSniffConfig true Route_ 64 100) true (mkEgressContext true false false).
Definition target : Address := ADomain (lit "hop.example") 53.
Definition stream (name : str) : Conn := mkConn [Ok ([VERSION; CONNECT] ++ address_encode (ADomain name 443) ++ lit "ping")] [] [].
Definition login : TuicEvent := AuthRead engine_demo 20300 (Ok (demo_uuid, demo_token)) demo_exporter.
Definition packet : TuicEvent := DatagramRead routed routed (encode_packet_datagram 7 0 target (lit "ask")).
Definition events : list TuicEvent :=
  [login; packet; RelayOpened 0 100 (fun _ => env) 0; PacketSent 0;
   PumpReceived 100 (lit "answer") (lit "hop.example") 53 None true; ConnectStream o (stream (lit "one.example"));
   DissociateRead (Ok 7); PumpStopped 100; ConnectionEnded].
Definition events_silent : list TuicEvent :=
  [AuthRead engine_demo 20300 (Ok (demo_uuid, [0])) demo_exporter; ConnectStream o (stream (lit "one.example")); ConnectionEnded].
Definition observed (outs : list TuicOutput) : list TuicOutput :=
  map (fun out => match out with
    | Streamed log => Streamed (List.filter (fun a => match a with Report _ | RecordSniff _ | Logged _ _ _ => false | _ => true end) log)
    | out => out end) outs.
Example connection_session :
  (fun '(w, outs) => (tc_assoc w, tc_closed w, observed outs)) <$> tuic_run quic_ctx tuic_new events =
  Some (∅, true,
    [ToHop 100 (lit "hop.example") 53 (lit "ask"); ToClient 100 (encode_packet_datagram 7 0 target (lit "answer"));
     Streamed [Acquired (lit "alice"); Dialled Direct (lit "one.example") 443; EgressOpen (lit "direct");
       Relayed (mkCopied (mkReport 4 None) (lit "ping") true) (mkCopied (mkReport 4 None) (lit "pong") true);
       EgressClose (lit "direct"); Released (lit "alice")]]).
Proof. vm_compute. done. Qed.
Example connection_silent :
  snd <$> tuic_run quic_ctx tuic_new events_silent = Some [ClosedConnection; Streamed []].
Proof. vm_compute. done. Qed.
End TuicDemo.

Section Witness.
Import Socks5Demo TuicDemo.
Lemma tuic_connection_safe_witness : exists w outs,
  tuic_run quic_ctx tuic_new events = Some (w, outs) /\ Forall (output_ok quic_ctx events w) outs.
Proof.
  destruct (tuic_run quic_ctx tuic_new events) as [[w outs]|] eqn:E; [|vm_compute in E; discriminate E].
  exists w, outs. split; [reflexivity|]. exact (proj2 (proj2 (proj2 (tuic_connection_safe _ _ _ _ E)))).
Defined.
End Witness.
