(* ===== verification/HopProxy.v ===== *)
(** * HopProxy: the standalone hop proxy (src/src/proxy/mod.rs)

    A small direct-egress proxy with one set of credentials: HTTP CONNECT over
    TLS, and SOCKS5 with or without it. No engine and no limits: a connection is
    authenticated, one target is dialled, and the two are relayed. *)

From Stdlib Require Import ZArith Lia String.
From stdpp Require Import prelude strings list gmap.
From S2P Require Import Sniff.
From S2P Require Import Prelude RustStr Net RustFmt Util Frame Stream Conn Domain Policy Model Engine Outbound Io Handler HttpRequest.

Definition DEFAULT_USERNAME : str := lit "rove".
Definition DEFAULT_PASSWORD : str := lit "rove".
Definition HTTP_HEAD_CAP : nat := 16 * 1024.
Definition SOCKS_VERSION : Z := 5.

(** ** Listeners and credentials *)

Inductive HopProtocol := Https | PlainSocks5 | Socks5Tls.
#[global] Instance HopProtocol_dec : EqDecision HopProtocol.
Proof. solve_decision. Defined.
Record TlsFiles := mkTlsFiles { tls_cert : str; tls_key : str }.
Record HopListener := mkHopListener { hl_name : str; hl_protocol : HopProtocol; hl_listen : str; hl_tls : option TlsFiles }.
Record Credentials := mkCredentials { cr_username : str; cr_password : str }.
Inductive HopError := EmptyUsername | EmptyPassword | MissingTls (name protocol : str) | TlsSetup.

(** [Credentials::new] *)
Definition credentials_new (username password : str) : result HopError Credentials :=
  ensure (negb (is_empty username)) EmptyUsername ;;
  ensure (negb (is_empty password)) EmptyPassword ;;
  Ok (mkCredentials username password).
Definition uses_default (c : Credentials) : bool := str_eqb (cr_username c) DEFAULT_USERNAME && str_eqb (cr_password c) DEFAULT_PASSWORD.
Definition credentials_default : Credentials := mkCredentials DEFAULT_USERNAME DEFAULT_PASSWORD.

(** [Protocol::as_str] *)
Definition protocol_str (p : HopProtocol) : str :=
  match p with Https => lit "https" | PlainSocks5 => lit "socks5" | Socks5Tls => lit "socks5tls" end.
Definition requires_tls (p : HopProtocol) : bool := match p with Https | Socks5Tls => true | PlainSocks5 => false end.
Definition hop_https (name listen : str) (tls : TlsFiles) : HopListener := mkHopListener name Https listen (Some tls).
Definition hop_socks5 (name listen : str) : HopListener := mkHopListener name PlainSocks5 listen None.
Definition hop_socks5tls (name listen : str) (tls : TlsFiles) : HopListener := mkHopListener name Socks5Tls listen (Some tls).

(** The acceptor of [run_listener]; [server_acceptor] loads the files. *)
Definition hop_acceptor {A} (server_acceptor : TlsFiles -> option A) (l : HopListener) : result HopError (option A) :=
  match hl_tls l, requires_tls (hl_protocol l) with
  | Some tls, _ => match server_acceptor tls with Some a => Ok (Some a) | None => Err TlsSetup end
  | None, true => Err (MissingTls (hl_name l) (protocol_str (hl_protocol l)))
  | None, false => Ok None
  end.

(** ** Checking credentials *)

(** [constant_time_eq] *)
Definition hop_constant_time_eq (left right : str) : bool :=
  let len := Nat.max (length left) (length right) in
  let diff := Z.lxor (Z.of_nat (length left)) (Z.of_nat (length right)) in
  let diff := foldl (fun diff i =>
      let a := default 0 (left !! i) in
      let b := default 0 (right !! i) in
      Z.lor diff (Z.lxor a b)) diff (seq 0 len) in
  diff =? 0.
Definition credentials_ok (username password : str) (c : Credentials) : bool :=
  hop_constant_time_eq username (cr_username c) && hop_constant_time_eq password (cr_password c).

Section HopProxy.
Context {BD : Base64Decode}.

Definition parse_proxy_auth (value : option str) : option (str * str) :=
  value ← value;
  b64 ← match strip_prefix (lit "Basic ") value with Some v => Some v | None => strip_prefix (lit "basic ") value end;
  raw ← base64_decode (trim b64);
  if utf8_valid raw then split_once colon raw else None.
Definition basic_auth_ok (value : option str) (c : Credentials) : bool :=
  match parse_proxy_auth value with Some (user, pass) => credentials_ok user pass c | None => false end.

(** ** The record of a connection *)

(** What a connection has around it: the listener's name, the credentials,
    whether there is an access log, the network, the peer, the time it took. *)
Record HopCtx := mkHopCtx { hx_listener : str; hx_credentials : Credentials; hx_log : bool; hx_env : Env; hx_peer : SocketAddr; hx_duration : Z }.
Record HopOutcome := mkHopOutcome {
  ho_username : option str; ho_target_host : option str; ho_target_port : option Z; ho_decision : option str; ho_result : TraceResult;
  ho_failure_stage : option str; ho_message : option str; ho_bytes_up : Z; ho_bytes_down : Z
}.
(** The failing exits: the fields given, the rest as [HopOutcome::default()]. *)
Definition hop_failed (user : option str) (target : option (str * Z)) (stage message : str) : HopOutcome :=
  mkHopOutcome user (fst <$> target) (snd <$> target) None TraceError (Some stage) (Some message) 0 0.
Definition access_entry (h : HopCtx) (protocol : str) (f : HopOutcome) : list action :=
  if hx_log h then
    [Logged (mkCandidate (hx_listener h) protocol (Some (display_socket (hx_peer h))) (ho_username f) (ho_target_host f)
               (ho_target_port f) None None (ho_decision f) None None None (ho_result f) (ho_failure_stage f) (ho_message f) 0
               (hx_duration h)) (ho_bytes_up f) (ho_bytes_down f)]
  else [].
Definition record_access (h : HopCtx) (protocol : str) (f : HopOutcome) : handler unit := acts (access_entry h protocol f).
(** A record that ends the handler with [return Ok(())]. *)
Definition record_exit {A} (h : HopCtx) (protocol : str) (f : HopOutcome) : handler A := record_access h protocol f ;; halt Return.

(** From the outbound connection on: the relay, its byte counts, its record. *)
Definition hop_tunnel (h : HopCtx) (protocol host : str) (port : Z) (target : Conn) : handler unit :=
  with_egress (lit "direct")
    (x ← relay target 0 0;
     let '(result, stage, message, up, down) :=
       match x with
       | Ok s => (TraceOk, None, None, ss_bytes_up s, ss_bytes_down s)
       | Err _ => (TraceError, Some (lit "splice"), Some (lit "tunnel io failed"), 0, 0)
       end in
     act (RecordListener up down) ;;
     act (RecordEgress (lit "direct") up down) ;;
     record_access h protocol
       (mkHopOutcome (Some (cr_username (hx_credentials h))) (Some host) (Some port) (Some (lit "direct")) result stage message up down) ;;
     match x with Ok _ => mret tt | Err _ => halt RelayFailed end).
(** The dial of a target; [refused] and [granted] answer the client. *)
Definition hop_dial (h : HopCtx) (protocol host : str) (port : Z) (refused granted : handler unit) : handler unit :=
  act (Dialled Direct host port) ;;
  match tcp_connect_detailed (hx_env h) host port with
  | Err _ =>
      refused ;;
      record_exit h protocol (hop_failed (Some (cr_username (hx_credentials h))) (Some (host, port)) (lit "outbound") (lit "upstream connect failed"))
  | Ok _ => granted ;; hop_tunnel h protocol host port (en_peer (hx_env h))
  end.

(** ** HTTP CONNECT over TLS *)

Definition respond_http (status extra : str) : handler unit :=
  send (lit "HTTP/1.1 " ++ status ++ crlf ++ extra ++ lit "Content-Length: 0" ++ crlf ++ lit "Connection: close" ++ crlf ++ crlf).
Definition connection_established : list Z := lit "HTTP/1.1 200 Connection Established" ++ crlf ++ crlf.
Definition hop_challenge : str := lit "Proxy-Authenticate: Basic realm=" ++ [34] ++ lit "rove-hop" ++ [34] ++ crlf.

(** [read_http_head]; it always ends ([head_loop_terminates]). *)
Definition hop_read_head : handler (list Z) := fun w =>
  let with_in rd := mkWorld (mkConn rd (cn_sent (wd_conn w)) (cn_writes (wd_conn w))) (wd_permit w) (wd_log w) in
  match read_http_head (cn_in (wd_conn w)) HTTP_HEAD_CAP with
  | Some (Ok head, rd) => (Ok head, with_in rd)
  | Some (Err _, rd) => (Err IoFailed, with_in rd)
  | None => (Err IoFailed, w)
  end.
(** The header loop: the last [Proxy-Authorization] of the text counts. *)
Definition find_proxy_auth (lines : list str) : option str :=
  foldl (fun found line =>
    match split_once colon line with
    | Some (name, value) => if eq_ignore_ascii_case (trim name) (lit "proxy-authorization") then Some (trim value) else found
    | None => found
    end) None lines.
(** The method, the target, the credentials of a head. *)
Definition parse_hop_head (head : list Z) : str * str * option str :=
  let lines := split_crlf (from_utf8_lossy head) in
  let parts := split_whitespace (default [] (lines !! 0%nat)) in
  (default [] (parts !! 0%nat), default [] (parts !! 1%nat), find_proxy_auth (drop 1 lines)).

Definition hop_https_body (h : HopCtx) : handler unit :=
  let protocol := protocol_str Https in
  head ← hop_read_head;
  let '(method, target, proxy_auth) := parse_hop_head head in
  let parsed_target := split_host_port target in
  if negb (eq_ignore_ascii_case method (lit "CONNECT"))
  then respond_http (lit "405 Method Not Allowed") [] ;;
       record_exit h protocol (hop_failed None None (lit "parse") (lit "method not allowed"))
  else
  let attempted_user := fst <$> parse_proxy_auth proxy_auth in
  if negb (basic_auth_ok proxy_auth (hx_credentials h))
  then respond_http (lit "407 Proxy Authentication Required") hop_challenge ;;
       record_exit h protocol (hop_failed attempted_user parsed_target (lit "auth") (lit "proxy authentication required"))
  else
  match parsed_target with
  | None =>
      respond_http (lit "400 Bad Request") [] ;;
      record_exit h protocol (hop_failed (Some (cr_username (hx_credentials h))) None (lit "parse") (lit "bad connect target"))
  | Some (host, port) =>
      hop_dial h protocol host port (respond_http (lit "502 Bad Gateway") []) (send connection_established)
  end.

(** ** SOCKS5 *)

Definition reply_socks5 (rep : Z) : handler unit := send [SOCKS_VERSION; rep; 0; 1; 0; 0; 0; 0; 0; 0].
(** [socks5_auth_ok] *)
Definition socks5_auth_ok (c : Credentials) : handler (bool * option str) :=
  version ← recv_u8;
  if negb (version =? 1) then mret (false, None)
  else
  user_len ← recv_u8;
  user ← recv (Z.to_nat user_len);
  pass_len ← recv_u8;
  pass ← recv (Z.to_nat pass_len);
  let user := from_utf8_lossy user in
  let pass := from_utf8_lossy pass in
  mret (credentials_ok user pass c, Some user).
(** Negotiation, up to the answer that accepts the credentials. *)
Definition hop_socks5_authenticate (h : HopCtx) (protocol : str) : handler unit :=
  header ← recv 2;
  if negb (nth 0 header 0 =? SOCKS_VERSION) then record_exit h protocol (hop_failed None None (lit "parse") (lit "bad socks version"))
  else
  methods ← recv (Z.to_nat (nth 1 header 0));
  if negb (bool_decide (2 ∈ methods))
  then send [SOCKS_VERSION; 255] ;;
       record_exit h protocol (hop_failed None None (lit "auth") (lit "username/password auth method not offered"))
  else
  send [SOCKS_VERSION; 2] ;;
  '(auth_ok, attempted_user) ← socks5_auth_ok (hx_credentials h);
  if negb auth_ok
  then send [1; 1] ;; record_exit h protocol (hop_failed attempted_user None (lit "auth") (lit "authentication failed"))
  else send [1; 0].
(** The request: host and port. *)
Definition hop_socks5_request (h : HopCtx) (protocol : str) : handler (str * Z) :=
  let user := Some (cr_username (hx_credentials h)) in
  request ← recv 4;
  if negb (nth 0 request 0 =? SOCKS_VERSION) || negb (nth 1 request 0 =? 1)
  then reply_socks5 7 ;; record_exit h protocol (hop_failed user None (lit "parse") (lit "unsupported socks command"))
  else
  let atyp := nth 3 request 0 in
  host ← (if atyp =? 1 then addr ← recv 4; mret (display_v4 (from_be_bytes addr))
          else if atyp =? 3 then len ← recv_u8; name ← recv (Z.to_nat len); mret (from_utf8_lossy name)
          else if atyp =? 4 then addr ← recv 16; mret (display_v6 (from_be_bytes addr))
          else reply_socks5 8 ;; record_exit h protocol (hop_failed user None (lit "parse") (lit "unsupported address type")));
  port_buf ← recv 2;
  mret (host, from_be_bytes port_buf).
Definition hop_socks5_body (h : HopCtx) (protocol : str) : handler unit :=
  hop_socks5_authenticate h protocol ;;
  '(host, port) ← hop_socks5_request h protocol;
  hop_dial h protocol host port (reply_socks5 5) (reply_socks5 0).

(** ** A connection *)

Definition serve_https (h : HopCtx) : handler unit := act ListenerOpen ;; scope (hop_https_body h).
Definition serve_socks5 (h : HopCtx) (protocol : str) : handler unit := act ListenerOpen ;; scope (hop_socks5_body h protocol).
(** [serve_conn]; [acceptor]: whether the TLS handshake succeeds, where there is
    an acceptor. A pairing [run_listener] never makes is refused. *)
Definition serve_conn (h : HopCtx) (acceptor : option bool) (protocol : HopProtocol) : handler unit :=
  match acceptor, protocol with
  | Some accepted, Https => if accepted then serve_https h else halt IoFailed
  | Some accepted, Socks5Tls => if accepted then serve_socks5 h (protocol_str Socks5Tls) else halt IoFailed
  | None, PlainSocks5 => serve_socks5 h (protocol_str PlainSocks5)
  | Some _, PlainSocks5 => halt IoFailed
  | None, (Https | Socks5Tls) => halt IoFailed
  end.

End HopProxy.
