(* ===== verification/HopProxyProps.v ===== *)
(** * HopProxyProps: what the standalone hop proxy guarantees

    Whatever a client sends, a hop dials one target, and only for a client that
    presented its credentials; and it serves what an edge's SOCKS5 client asks. *)

From Stdlib Require Import ZArith Lia String.
From stdpp Require Import prelude strings list gmap.
From S2P Require Import Sniff SniffProps.
From S2P Require Import Prelude RustStr Net RustFmt Util Frame Stream Conn Domain Policy Book Model Engine Outbound Io Handler HttpRequest HttpBody Inbound Socks5 HopProxy.

Lemma credentials_ok_exact user pass c : credentials_ok user pass c = true <-> user = cr_username c /\ pass = cr_password c.
Proof.
  unfold credentials_ok. change hop_constant_time_eq with constant_time_eq. rewrite andb_true_iff, !constant_time_eq_spec. done.
Qed.

(** ** What a step of a hop's handler takes from the client *)

(** Only a record *)
Definition logged (a : action) : Prop := match a with Logged _ _ _ => True | _ => False end.
(** [m] only records, and records only when it ends the handler; otherwise it
    takes from the client the bytes [Q] says. *)
Definition asks {A} (Q : A -> list Z -> Prop) (m : handler A) : Prop := forall w,
  let w' := snd (m w) in exists l, wd_log w' = wd_log w ++ l /\ Forall logged l /\ wd_permit w' = wd_permit w /\
    forall a, fst (m w) = Ok a -> l = [] /\ exists c, Reader.bytes (cn_in (wd_conn w)) = c ++ Reader.bytes (cn_in (wd_conn w')) /\ Q a c.

Lemma asks_ret {A} (Q : A -> list Z -> Prop) a : Q a [] -> asks Q (mret (M := handler) a).
Proof. intros H w. exists []. cbn. rewrite app_nil_r. split_and!; try done. intros ? [= <-]. split; [done|]. by exists []. Qed.
Lemma asks_bind {A B} (Q : A -> list Z -> Prop) (Q' : B -> list Z -> Prop) (m : handler A) (k : A -> handler B) :
  asks Q m -> (forall a c, Q a c -> asks (fun b c' => Q' b (c ++ c')) (k a)) -> asks Q' (m ≫= k).
Proof.
  intros Hm Hk w. destruct (Hm w) as (l & E & Hl & Hp & Ha). unfold mbind, handler_bind. destruct (m w) as [[a|e] w1]; cbn in *.
  - destruct (Ha a eq_refl) as (-> & c & Ec & HQ). destruct (Hk a c HQ w1) as (l' & E' & Hl' & Hp' & Hb). exists l'.
    rewrite E', E, app_nil_r, Hp'. split_and!; try done. intros b Eb. destruct (Hb b Eb) as (-> & c' & Ec' & HQ').
    split; [done|]. exists (c ++ c'). by rewrite Ec, Ec', app_assoc.
  - exists l. split_and!; try done.
Qed.
Lemma asks_weaken {A} (Q Q' : A -> list Z -> Prop) m : (forall a c, Q a c -> Q' a c) -> asks Q m -> asks Q' m.
Proof.
  intros H Hm w. destruct (Hm w) as (l & E & Hl & Hp & Ha). exists l. split_and!; try done. intros a Ea.
  destruct (Ha a Ea) as (-> & c & ? & ?). split; [done|]. exists c. auto.
Qed.
Lemma asks_recv n : asks (fun a c => c = a /\ length a = n) (recv n).
Proof.
  intros w. exists []. unfold recv, on_conn, cread. destruct (read_exact n (cn_in (wd_conn w))) as [[a|e] r] eqn:E; cbn; rewrite app_nil_r; split_and!; try done.
  intros ? [= <-]. apply read_exact_taken in E as (Eb & _ & Hl). split; [done|]. by exists a.
Qed.
Lemma asks_recv_u8 : asks (fun b c => c = [b]) recv_u8.
Proof.
  intros w. exists []. unfold recv_u8, on_conn, cread_u8, mbind, conn_bind, cread.
  destruct (read_exact 1 (cn_in (wd_conn w))) as [[a|e] r] eqn:E; cbn; rewrite app_nil_r; split_and!; try done.
  intros ? [= <-]. apply read_exact_taken in E as (Eb & _ & Hl). split; [done|]. exists a. split; [done|].
  destruct a as [|x [|]]; done.
Qed.
Lemma asks_send bytes : asks (fun _ c => c = []) (send bytes).
Proof.
  intros w. exists []. unfold send, on_conn, cwrite. destruct (cn_writes (wd_conn w)) as [|[] ?]; cbn; rewrite app_nil_r; split_and!; try done;
    (intros ? _; split; [done|]; by exists []).
Qed.
Lemma entry_logged h protocol f : Forall logged (access_entry h protocol f).
Proof. unfold access_entry. destruct (hx_log h); repeat constructor. Qed.
Lemma asks_exit {A} (Q : A -> list Z -> Prop) h protocol f : asks Q (record_exit h protocol f).
Proof.
  intros w. unfold record_exit, record_access, acts, halt, mbind, handler_bind. cbn. eexists. split; [done|].
  split; [apply entry_logged|done].
Qed.
(** An answer, then the end. *)
Lemma asks_answer {A} (Q : A -> list Z -> Prop) bytes h protocol f : asks Q (send bytes ;; record_exit h protocol f).
Proof. eapply asks_bind; [apply asks_send|]. intros. apply asks_exit. Qed.
Ltac asks_read := eapply asks_bind; [first [apply asks_recv | apply asks_recv_u8 | apply asks_send]|].

(** ** SOCKS5 *)

Definition socks_host (atyp : Z) (addr : list Z) (host : str) : Prop :=
  (atyp = 1 /\ length addr = 4%nat /\ host = display_v4 (from_be_bytes addr)) \/
  (atyp = 3 /\ exists l name, addr = l :: name /\ length name = Z.to_nat l /\ host = from_utf8_lossy name) \/
  (atyp = 4 /\ length addr = 16%nat /\ host = display_v6 (from_be_bytes addr)).
(** The bytes [c] offer password authentication, give the hop's credentials, and
    ask to be connected to [host] and [port]. *)
Definition socks_asks (creds : Credentials) (host : str) (port : Z) (c : list Z) : Prop :=
  exists n methods ul user pl pass rsv atyp addr port_buf,
    c = [5; n] ++ methods ++ [1; ul] ++ user ++ [pl] ++ pass ++ [5; 1; rsv; atyp] ++ addr ++ port_buf /\
    length methods = Z.to_nat n /\ 2 ∈ methods /\ length user = Z.to_nat ul /\ length pass = Z.to_nat pl /\
    from_utf8_lossy user = cr_username creds /\ from_utf8_lossy pass = cr_password creds /\
    socks_host atyp addr host /\ length port_buf = 2%nat /\ port = from_be_bytes port_buf.

Definition socks_login (creds : Credentials) (c : list Z) : Prop := exists n methods ul user pl pass,
  c = [5; n] ++ methods ++ [1; ul] ++ user ++ [pl] ++ pass /\ length methods = Z.to_nat n /\ 2 ∈ methods /\
  length user = Z.to_nat ul /\ length pass = Z.to_nat pl /\ from_utf8_lossy user = cr_username creds /\ from_utf8_lossy pass = cr_password creds.
Lemma auth_ok_asks creds : asks (fun r c => fst r = true -> exists ul user pl pass, c = [1; ul] ++ user ++ [pl] ++ pass /\
  length user = Z.to_nat ul /\ length pass = Z.to_nat pl /\ from_utf8_lossy user = cr_username creds /\ from_utf8_lossy pass = cr_password creds)
  (socks5_auth_ok creds).
Proof.
  unfold socks5_auth_ok. asks_read. intros v ? ->. destruct (Z.eqb_spec v 1) as [->|]; cbn [negb]; [|by apply asks_ret].
  asks_read. intros ul ? ->. asks_read. intros user ? [-> Hu]. asks_read. intros pl ? ->. asks_read. intros pass ? [-> Hp].
  cbv zeta. apply asks_ret. intros E. apply credentials_ok_exact in E as [? ?]. exists ul, user, pl, pass. rewrite app_nil_r. by split_and!.
Qed.
Lemma authenticate_asks h protocol : asks (fun _ c => socks_login (hx_credentials h) c) (hop_socks5_authenticate h protocol).
Proof.
  unfold hop_socks5_authenticate. asks_read. intros hdr ? [-> Hl]. destruct hdr as [|v [|n []]]; try done. cbn [nth].
  destruct (Z.eqb_spec v SOCKS_VERSION) as [->|]; cbn [negb]; [|apply asks_exit]. asks_read. intros methods ? [-> Hm].
  destruct (bool_decide_reflect (2 ∈ methods)) as [H2|]; cbn [negb]; [|apply asks_answer]. asks_read. intros ? ? ->.
  eapply asks_bind; [apply auth_ok_asks|]. intros [[|] user] c Hc; cbn [negb]; [|apply asks_answer].
  destruct (Hc eq_refl) as (ul & u & pl & p & -> & ?). eapply asks_weaken; [|apply asks_send]. intros [] ? ->.
  exists n, methods, ul, u, pl, p. rewrite !app_nil_r. split; [cbn; by rewrite <- ?app_assoc|]. naive_solver.
Qed.
Lemma request_asks h protocol : asks (fun hp c => exists rsv atyp addr port_buf, c = [5; 1; rsv; atyp] ++ addr ++ port_buf /\
  socks_host atyp addr (fst hp) /\ length port_buf = 2%nat /\ snd hp = from_be_bytes port_buf) (hop_socks5_request h protocol).
Proof.
  unfold hop_socks5_request. asks_read. intros req ? [-> Hl]. destruct req as [|v [|cmd [|rsv [|atyp []]]]]; try done. cbn [nth].
  destruct (Z.eqb_spec v SOCKS_VERSION) as [->|]; cbn [negb orb]; [|apply asks_answer].
  destruct (Z.eqb_spec cmd 1) as [->|]; cbn [negb orb]; [|apply asks_answer].
  eapply (asks_bind (fun host c => socks_host atyp c host)).
  - destruct (Z.eqb_spec atyp 1); [|destruct (Z.eqb_spec atyp 3); [|destruct (Z.eqb_spec atyp 4); [|apply asks_answer]]].
    + asks_read. intros a ? [-> ?]. apply asks_ret. rewrite app_nil_r. by left.
    + asks_read. intros l ? ->. asks_read. intros name ? [-> ?]. apply asks_ret. rewrite app_nil_r. right. left. split; [done|]. by exists l, name.
    + asks_read. intros a ? [-> ?]. apply asks_ret. rewrite app_nil_r. right. by right.
  - intros host c Hh. asks_read. intros pb ? [-> Hp]. apply asks_ret. rewrite app_nil_r. exists rsv, atyp, c, pb. done.
Qed.

(** ** HTTP CONNECT *)

Section Https.
Context {BD : Base64Decode}.

(** The head [c] asks for a tunnel to [host] and [port], with the hop's credentials. *)
Definition https_asks (creds : Credentials) (host : str) (port : Z) (c : list Z) : Prop :=
  exists method target auth, parse_hop_head c = (method, target, auth) /\ eq_ignore_ascii_case method (lit "CONNECT") = true /\
    parse_proxy_auth auth = Some (cr_username creds, cr_password creds) /\ split_host_port target = Some (host, port).

(** A head is what was read, up to the stream's end when it has no blank line. *)
Lemma head_loop_taken fuel s buf cap head rem s' :
  head_loop fuel s buf cap = Some (Ok (head, rem), s') ->
  buf ++ Reader.bytes s = (head ++ rem) ++ Reader.bytes s' \/ head ++ rem = buf ++ Reader.bytes s.
Proof.
  revert s buf. induction fuel as [|fuel IH]; intros s buf; [done|]. cbn [head_loop].
  destruct (Reader.read 1024 s) as [[tmp|e] s1] eqn:Er; [|done]. destruct (Nat.eqb_spec (length tmp) 0) as [E0|E0].
  - intros [= <- <- <-]. right. apply nil_length_inv in E0 as ->. rewrite app_nil_r. unfold Reader.read in Er.
    destruct s as [|[[|x b]|e] s]; [by rewrite app_nil_r..| |done]. case_match; discriminate Er.
  - assert (Eb : Reader.bytes s = tmp ++ Reader.bytes s1) by (apply (read_taken 1024 s tmp s1); [lia|by intros ->|done]).
    destruct (find_sub _ _) as [i|]; case_match; try done.
    + intros [= <- <- <-]. left. by rewrite take_drop, Eb, app_assoc.
    + intros Hr. apply IH in Hr. by rewrite Eb, app_assoc.
Qed.
Lemma hop_head_taken w head w' : hop_read_head w = (Ok head, w') ->
  wd_log w' = wd_log w /\ wd_permit w' = wd_permit w /\
  (Reader.bytes (cn_in (wd_conn w)) = head ++ Reader.bytes (cn_in (wd_conn w')) \/ head = Reader.bytes (cn_in (wd_conn w))).
Proof.
  unfold hop_read_head, read_http_head, read_http_head_with_remainder. destruct (head_loop _ _ _ _) as [[[[hd rem]|e] s']|] eqn:E; try done.
  intros [= <- <-]. split; [done|]. split; [done|]. apply head_loop_taken in E. cbn in E |- *. tauto.
Qed.
End Https.

(** ** The handler *)

Section Safety.
Context {BD : Base64Decode}.
Context (h : HopCtx) (client : Conn).

(** What a dial for [host] and [port] may do after it; [c] was read before. *)
Definition hop_does (c : list Z) (a : action) : Prop :=
  match a with
  | EgressOpen l | EgressClose l | RecordEgress l _ _ => l = lit "direct"
  | Relayed up _ => c = Reader.bytes (cn_in client) \/ exists rest, Reader.bytes (cn_in client) = c ++ co_delivered up ++ rest
  | RecordListener _ _ | Logged _ _ _ => True
  | _ => False
  end.
Definition hop_outcome (Asks : str -> Z -> list Z -> Prop) (mid : list action) : Prop :=
  Forall logged mid \/
  exists host port c l, Asks host port c /\ mid = [Dialled Direct host port] ++ l /\ Forall (hop_does c) l /\
    ((exists addr, tcp_connect_detailed (hx_env h) host port = Ok addr) \/ Forall logged l).

Lemma logged_does c a : logged a -> hop_does c a.
Proof. by destruct a. Qed.
Lemma asks_adds {A} (P : action -> Prop) (Q : A -> list Z -> Prop) m w : (forall a, logged a -> P a) -> asks Q m -> adds P m w.
Proof. intros HP Hm. destruct (Hm w) as (l & E & Hl & Hp & _). exists l. split; [done|]. split; [|done]. eapply Forall_impl; [exact Hl|done]. Qed.
Lemma tunnel_adds protocol host port t c w :
  (c = Reader.bytes (cn_in client) \/ Reader.bytes (cn_in client) = c ++ Reader.bytes (cn_in (wd_conn w))) ->
  adds (hop_does c) (hop_tunnel h protocol host port t) w.
Proof.
  intros Hc. unfold hop_tunnel. apply adds_with_egress; [done..|]. apply relay_adds.
  - cbn. intros ou od [rest Hr]. destruct Hc as [|Hc]; [by left|right]. exists rest. by rewrite Hc, Hr.
  - intros x w1. set (f := match x with Ok _ => _ | Err _ => _ end). destruct f as [[[[rs st] ms] up] down].
    apply adds_act; [done|]. apply adds_act; [done|]. apply adds_acts; [eapply Forall_impl; [apply entry_logged|apply logged_does]|].
    destruct x; (exists []; by rewrite app_nil_r).
Qed.
Lemma dial_outcome Asks protocol host port refused granted c w :
  (forall w', adds logged (refused ;; record_exit (A := unit) h protocol (hop_failed (Some (cr_username (hx_credentials h))) (Some (host, port)) (lit "outbound") (lit "upstream connect failed"))) w') ->
  asks (fun _ c => c = []) granted -> Asks host port c ->
  (c = Reader.bytes (cn_in client) \/ Reader.bytes (cn_in client) = c ++ Reader.bytes (cn_in (wd_conn w))) ->
  exists mid, wd_log (snd (hop_dial h protocol host port refused granted w)) = wd_log w ++ mid /\ hop_outcome Asks mid /\
    wd_permit (snd (hop_dial h protocol host port refused granted w)) = wd_permit w.
Proof.
  intros Hr Hg Ha Hc. unfold hop_dial. unfold mbind, handler_bind at 1. cbn [act].
  set (w1 := mkWorld (wd_conn w) (wd_permit w) (wd_log w ++ [Dialled Direct host port])).
  assert (Hgo : forall m : handler unit, adds (hop_does c) m w1 -> (exists addr, tcp_connect_detailed (hx_env h) host port = Ok addr) \/ adds logged m w1 ->
    exists mid, wd_log (snd (m w1)) = wd_log w ++ mid /\ hop_outcome Asks mid /\ wd_permit (snd (m w1)) = wd_permit w).
  { intros m (l & E & Hl & Hp) Hd. exists ([Dialled Direct host port] ++ l). rewrite E, Hp. cbn [wd_log wd_permit w1]. rewrite <- app_assoc.
    split; [done|]. split; [|done]. right. exists host, port, c, l. split_and!; try done. destruct Hd as [|(l' & E' & Hl' & _)]; [by left|right].
    rewrite E in E'. by apply app_inv_head in E' as ->. }
  destruct (tcp_connect_detailed _ _ _) as [addr|e] eqn:Ed.
  - apply (Hgo (granted ;; hop_tunnel h protocol host port (en_peer (hx_env h)))); [|by left; exists addr].
    destruct (Hg w1) as (l & E & Hl & Hp & Hk). unfold adds, mbind, handler_bind. destruct (granted w1) as [[[]|e] w2] eqn:Eg; cbn [fst snd] in *.
    + destruct (Hk tt eq_refl) as (-> & ? & Eb & ->). cbn in Eb.
      destruct (tunnel_adds protocol host port (en_peer (hx_env h)) c w2) as (l2 & E2 & Hl2 & Hp2); [by rewrite <- Eb|].
      exists l2. rewrite E2, E, app_nil_r, Hp2. done.
    + exists l. split; [done|]. split; [|done]. eapply Forall_impl; [exact Hl|apply logged_does].
  - apply Hgo; [|right; apply Hr]. destruct (Hr w1) as (l & E & Hl & Hp). exists l. split; [done|]. split; [|done].
    eapply Forall_impl; [exact Hl|apply logged_does].
Qed.

Definition hop_asks (protocol : HopProtocol) : str -> Z -> list Z -> Prop :=
  match protocol with Https => https_asks (hx_credentials h) | _ => socks_asks (hx_credentials h) end.
Definition body_safe (protocol : HopProtocol) (m : handler unit) : Prop := forall w, wd_conn w = client -> wd_permit w = None ->
  exists mid, wd_log (snd (m w)) = wd_log w ++ mid /\ hop_outcome (hop_asks protocol) mid /\ wd_permit (snd (m w)) = None.
(** A handler that only recorded *)
Lemma recorded_safe protocol {A} {Q : A -> list Z -> Prop} (m : handler A) w :
  asks Q m -> wd_permit w = None ->
  exists mid, wd_log (snd (m w)) = wd_log w ++ mid /\ hop_outcome (hop_asks protocol) mid /\ wd_permit (snd (m w)) = None.
Proof. intros Hm Hw. destruct (Hm w) as (l & E & Hl & Hp & _). exists l. split; [done|]. split; [by left|congruence]. Qed.
Lemma bind_run {A B} (m : handler A) (k : A -> handler B) w :
  (m ≫= k) w = match m w with (Ok a, w1) => k a w1 | (Err e, w1) => (Err e, w1) end.
Proof. done. Qed.
Lemma https_body_safe : body_safe Https (hop_https_body h).
Proof.
  intros w Hw Hp. unfold hop_https_body. rewrite bind_run.
  destruct (hop_read_head w) as [[head|e] w1] eqn:Eh.
  2: { exists []. unfold hop_read_head in Eh. cbn [snd]. rewrite app_nil_r.
       destruct (read_http_head _ _) as [[[?|?] ?]|]; simplify_eq; (split; [reflexivity|split; [left; by apply Forall_nil|exact Hp]]). }
  apply hop_head_taken in Eh as (El & Ep & Et). rewrite Hw in Et. rewrite Hp in Ep. rewrite <- El.
  destruct (parse_hop_head head) as [[method target] auth] eqn:Epar.
  destruct (eq_ignore_ascii_case method (lit "CONNECT")) eqn:Em; cbn [negb].
  2: { eapply (recorded_safe Https (Q := fun _ _ => True)); [apply asks_answer|done]. }
  destruct (basic_auth_ok auth (hx_credentials h)) eqn:Ea; cbn [negb].
  2: { eapply (recorded_safe Https (Q := fun _ _ => True)); [apply asks_answer|done]. }
  unfold basic_auth_ok in Ea. destruct (parse_proxy_auth auth) as [[user pass]|] eqn:Epa; [|done]. apply credentials_ok_exact in Ea as [-> ->].
  destruct (split_host_port target) as [[host port]|] eqn:Es.
  2: { eapply (recorded_safe Https (Q := fun _ _ => True)); [apply asks_answer|done]. }
  rewrite <- Ep. apply (dial_outcome (hop_asks Https) _ host port _ _ head); [..|tauto].
  - intros w'. apply (asks_adds _ (fun _ _ => True)); [done|apply asks_answer].
  - apply asks_send.
  - by exists method, target, auth.
Qed.
Lemma socks5_body_safe protocol name : protocol <> Https -> body_safe protocol (hop_socks5_body h name).
Proof.
  intros Hn w Hw Hp. unfold hop_socks5_body.
  destruct (authenticate_asks h name w) as (l1 & E1 & Hl1 & Hp1 & Ha). unfold mbind, handler_bind.
  destruct (hop_socks5_authenticate h name w) as [[[]|e] w1]; cbn [fst snd] in *; [|exists l1; split; [done|split; [by left|congruence]]].
  destruct (Ha tt eq_refl) as (-> & c1 & B1 & Hlogin). rewrite app_nil_r in E1.
  destruct (request_asks h name w1) as (l2 & E2 & Hl2 & Hp2 & Hr).
  destruct (hop_socks5_request h name w1) as [[[host port]|e] w2]; cbn [fst snd] in *.
  2: { exists l2. rewrite E2, E1. split; [done|]. split; [by left|congruence]. }
  destruct (Hr (host, port) eq_refl) as (-> & c2 & B2 & rsv & atyp & addr & pb & -> & Hh & Hpb & Eport). rewrite app_nil_r in E2.
  assert (Hasks : hop_asks protocol host port (c1 ++ [5; 1; rsv; atyp] ++ addr ++ pb)).
  { assert (hop_asks protocol = socks_asks (hx_credentials h)) as -> by (by destruct protocol).
    destruct Hlogin as (n & ms & ul & u & pl & p & -> & ? & ? & ? & ? & ? & ?).
    exists n, ms, ul, u, pl, p, rsv, atyp, addr, pb. rewrite <- !app_assoc. by split_and!. }
  rewrite <- E1, <- E2. replace None with (wd_permit w2) by congruence.
  apply (dial_outcome (hop_asks protocol) name host port _ _ (c1 ++ [5; 1; rsv; atyp] ++ addr ++ pb) w2); [| |exact Hasks|].
  - intros w'. apply (asks_adds _ (fun _ _ => True)); [done|apply asks_answer].
  - apply asks_send.
  - right. by rewrite <- Hw, B1, B2, app_assoc.
Qed.
Lemma served_safe protocol m : body_safe protocol m ->
  let w := snd ((act ListenerOpen ;; scope m) (mkWorld client None [])) in
  wd_permit w = None /\ exists mid, wd_log w = [ListenerOpen] ++ mid ++ [ListenerClose] /\ hop_outcome (hop_asks protocol) mid.
Proof.
  intros Hm. unfold mbind, handler_bind, scope, act, release. cbn.
  destruct (Hm (mkWorld client None [ListenerOpen]) eq_refl eq_refl) as (mid & E & Ho & Hp).
  destruct (m _) as [r w1]. cbn [snd] in *. rewrite Hp. cbn. rewrite Hp. split; [done|]. exists mid. by rewrite E.
Qed.

(** The hop proxy is safe on every client and network. A connection whose
    listener's TLS handshake failed does nothing. Any other opens and closes the
    listener's gauge once, and in between only writes an access record, or
    dials, once, directly, exactly the target that the bytes it read ask for, and
    those bytes carry the hop's own user name and password; only if the dial
    succeeds is anything relayed, under the direct egress, and what the target is
    sent is a prefix of the client's bytes after its request. *)
Theorem hop_serve_safe (acceptor : option bool) (protocol : HopProtocol) :
  let w := snd (serve_conn h acceptor protocol (mkWorld client None [])) in
  wd_permit w = None /\
  (wd_log w = [] \/
   acceptor = (if requires_tls protocol then Some true else None) /\
   exists mid, wd_log w = [ListenerOpen] ++ mid ++ [ListenerClose] /\ hop_outcome (hop_asks protocol) mid).
Proof.
  destruct acceptor as [[|]|], protocol; try (split; [reflexivity|by left]).
  - destruct (served_safe _ _ https_body_safe) as (? & mid & ? & ?). split; [done|right]. split; [done|]. by exists mid.
  - destruct (served_safe Socks5Tls _ (socks5_body_safe Socks5Tls (protocol_str Socks5Tls) ltac:(done))) as (? & mid & ? & ?).
    split; [done|right]. split; [done|]. by exists mid.
  - destruct (served_safe PlainSocks5 _ (socks5_body_safe PlainSocks5 (protocol_str PlainSocks5) ltac:(done))) as (? & mid & ? & ?).
    split; [done|right]. split; [done|]. by exists mid.
Qed.
End Safety.

(** ** The hop and an edge's SOCKS5 client *)

(** A relay between two streams that do not fail is exact. *)
Lemma relay_sound target w :
  sound (wd_conn w) -> sound target ->
  let up := Reader.bytes (cn_in (wd_conn w)) in let down := Reader.bytes (cn_in target) in
  exists ou od w', relay target 0 0 w = (Ok (Ok (mkSplice (wrap 64 (Z.of_nat (length up))) (wrap 64 (Z.of_nat (length down))))), w') /\
    cn_sent (wd_conn w') = cn_sent (wd_conn w) ++ down /\ wd_permit w' = wd_permit w /\ wd_log w' = wd_log w ++ [Relayed ou od] /\
    co_delivered ou = up /\ co_delivered od = down.
Proof.
  intros [Hn Hw] [Hn' Hw'] up down. unfold relay.
  destruct (splice_total (source_of (cn_in (wd_conn w))) (sink_of (cn_writes (wd_conn w))) (source_of (cn_in target)) (sink_of (cn_writes target)) 0 0)
    as (r & ou & od & -> & _ & _ & H & _).
  destruct H as (Eu & Ed & _ & _ & ->); [by apply sink_of_sound|by apply sink_of_sound|by apply source_end_of|by apply source_end_of|].
  rewrite !source_bytes_of in *. exists ou, od. eexists. split; [reflexivity|]. cbn. rewrite Ed. by split_and!.
Qed.
Section EndToEnd.
Context {BD : Base64Decode}.
Context (h : HopCtx) (user pass host : str) (port : Z).
Context (Hcreds : hx_credentials h = mkCredentials user pass).
Context (Lu : (length user <= 255)%nat) (Lp : (length pass <= 255)%nat) (Lh : (length host <= 255)%nat) (Hport : fits 16 port).
Context (Vu : utf8_valid user = true) (Vp : utf8_valid pass = true) (Vh : utf8_valid host = true).

Lemma hop_authenticate_converses protocol rest :
  converses (hop_socks5_authenticate h protocol)
    (([5; 1; 2] ++ [1; Z.of_nat (length user)] ++ user ++ [Z.of_nat (length pass)] ++ pass) ++ rest) (Ok tt) accepted rest [].
Proof using Hcreds Vu Vp.
  unfold hop_socks5_authenticate, accepted. rewrite <- !app_assoc.
  eapply converses_bind with (a := [5; 1]) (out1 := []) (l1 := []) (out2 := [VER; 2; 1; 0]) (l2 := []); [apply (converses_recv [5; 1])|].
  cbn [nth]. change (negb (5 =? SOCKS_VERSION)) with false. cbv iota. change (Z.to_nat 1) with 1%nat.
  eapply converses_bind with (a := [2]) (out1 := []) (l1 := []) (out2 := [VER; 2; 1; 0]) (l2 := []); [apply (converses_recv [2])|].
  change (bool_decide (2 ∈ [2])) with true. cbn [negb].
  eapply converses_bind with (out1 := [VER; 2]) (l1 := []) (out2 := [1; 0]) (l2 := []); [apply converses_send|].
  eapply converses_bind with (a := (true, Some user)) (out1 := []) (l1 := []) (out2 := [1; 0]) (l2 := []); [|apply converses_send].
  unfold socks5_auth_ok.
  eapply converses_bind with (out1 := []) (l1 := []) (out2 := []) (l2 := []); [apply converses_recv_u8|].
  change (negb (1 =? 1)) with false. cbv iota.
  eapply converses_bind with (out1 := []) (l1 := []) (out2 := []) (l2 := []); [apply converses_recv_u8|]. rewrite Nat2Z.id.
  eapply converses_bind with (a := user) (out1 := []) (l1 := []) (out2 := []) (l2 := []); [apply converses_recv|].
  eapply converses_bind with (out1 := []) (l1 := []) (out2 := []) (l2 := []); [apply converses_recv_u8|]. rewrite Nat2Z.id.
  eapply converses_bind with (a := pass) (out1 := []) (l1 := []) (out2 := []) (l2 := []); [apply converses_recv|].
  cbv zeta. rewrite !from_utf8_lossy_valid by done.
  rewrite (proj2 (credentials_ok_exact user pass (hx_credentials h))) by (by rewrite Hcreds). apply converses_ret.
Qed.
Lemma hop_request_converses protocol rest :
  converses (hop_socks5_request h protocol) (([5; 1; 0; 3; Z.of_nat (length host)] ++ host ++ to_be_bytes 2 port) ++ rest)
    (Ok (host, port)) [] rest [].
Proof using Hport Vh.
  unfold hop_socks5_request. rewrite <- !app_assoc.
  eapply converses_bind with (a := [5; 1; 0; 3]) (out1 := []) (l1 := []) (out2 := []) (l2 := []); [apply (converses_recv [5; 1; 0; 3])|].
  cbn [nth]. change (negb (5 =? SOCKS_VERSION) || negb (1 =? 1)) with false. cbv iota zeta.
  change (3 =? 1) with false. change (3 =? 3) with true. cbv iota.
  eapply converses_bind with (a := host) (out1 := []) (l1 := []) (out2 := []) (l2 := []) (mid := to_be_bytes 2 port ++ rest).
  - eapply converses_bind with (out1 := []) (l1 := []) (out2 := []) (l2 := []); [apply converses_recv_u8|]. rewrite Nat2Z.id.
    eapply converses_bind with (a := host) (out1 := []) (l1 := []) (out2 := []) (l2 := []); [apply converses_recv|].
    rewrite from_utf8_lossy_valid by done. apply converses_ret.
  - eapply converses_bind with (a := to_be_bytes 2 port) (out1 := []) (l1 := []) (out2 := []) (l2 := []); [apply (converses_recv (to_be_bytes 2 port))|].
    rewrite from_to_be_bytes by done. apply converses_ret.
Qed.

(** The dial of a target that accepts, from a sound stream. *)
Lemma dial_relays protocol refused addr w :
  tcp_connect_detailed (hx_env h) host port = Ok addr -> sound (en_peer (hx_env h)) -> sound (wd_conn w) ->
  let payload := Reader.bytes (cn_in (wd_conn w)) in let answer := Reader.bytes (cn_in (en_peer (hx_env h))) in
  let n := wrap 64 (Z.of_nat (length payload)) in let m := wrap 64 (Z.of_nat (length answer)) in
  exists ou od rec w', hop_dial h protocol host port refused (reply_socks5 0) w = (Ok tt, w') /\
    cn_sent (wd_conn w') = cn_sent (wd_conn w) ++ granted ++ answer /\ wd_permit w' = wd_permit w /\
    wd_log w' = wd_log w ++ [Dialled Direct host port; EgressOpen (lit "direct"); Relayed ou od; RecordListener n m; RecordEgress (lit "direct") n m]
      ++ rec ++ [EgressClose (lit "direct")] /\
    Forall logged rec /\ co_delivered ou = payload /\ co_delivered od = answer.
Proof using.
  intros Hd Hs Hw payload answer n m. unfold hop_dial. rewrite bind_run. cbn [act]. rewrite Hd.
  set (w1 := mkWorld (wd_conn w) (wd_permit w) (wd_log w ++ [Dialled Direct host port])).
  destruct (converses_send granted payload w1 Hw eq_refl) as (w2 & E2 & S2 & B2 & T2 & L2 & P2). rewrite bind_run.
  change (reply_socks5 0 w1) with (send granted w1). rewrite E2. unfold hop_tunnel, with_egress, act.
  set (w3 := mkWorld (wd_conn w2) (wd_permit w2) (wd_log w2 ++ [EgressOpen (lit "direct")])).
  destruct (relay_sound (en_peer (hx_env h)) w3 S2 Hs) as (ou & od & w4 & E4 & T4 & P4 & L4 & Du & Dd). rewrite bind_run, E4.
  change (cn_in (wd_conn w3)) with (cn_in (wd_conn w2)) in *. rewrite B2 in *. fold payload in Du |- *. fold answer in Dd, T4 |- *. fold n m.
  set (f := mkHopOutcome (Some (cr_username (hx_credentials h))) (Some host) (Some port) (Some (lit "direct")) TraceOk None None n m).
  exists ou, od, (access_entry h protocol f). eexists. split; [reflexivity|]. cbn [wd_log wd_conn wd_permit cn_sent].
  rewrite T4, P4, L4. unfold w3. cbn [wd_log wd_conn wd_permit]. rewrite T2, P2, L2. unfold w1. cbn [wd_log wd_conn wd_permit].
  rewrite app_nil_r, <- !app_assoc. split_and!; [done..|apply entry_logged|done|done].
Qed.
(** The bytes of the edge's client, then its tunnel, through the whole handler *)
Lemma hop_serves_tunnel protocol payload addr c :
  sound c -> Reader.bytes (cn_in c) = client_bytes user pass host port ++ payload ->
  tcp_connect_detailed (hx_env h) host port = Ok addr -> sound (en_peer (hx_env h)) ->
  let answer := Reader.bytes (cn_in (en_peer (hx_env h))) in
  let n := wrap 64 (Z.of_nat (length payload)) in let m := wrap 64 (Z.of_nat (length answer)) in
  exists ou od rec w, serve_socks5 h protocol (mkWorld c None []) = (Ok tt, w) /\
    cn_sent (wd_conn w) = cn_sent c ++ accepted ++ granted ++ answer /\
    wd_log w = [ListenerOpen; Dialled Direct host port; EgressOpen (lit "direct"); Relayed ou od; RecordListener n m; RecordEgress (lit "direct") n m]
      ++ rec ++ [EgressClose (lit "direct"); ListenerClose] /\
    Forall logged rec /\ co_delivered ou = payload /\ co_delivered od = answer.
Proof using Hcreds Hport Vu Vp Vh.
  intros Hs Hb Hd Hp answer n m. unfold serve_socks5. rewrite bind_run. cbn [act]. unfold scope, hop_socks5_body. rewrite bind_run.
  set (w0 := mkWorld (wd_conn _) _ _). unfold client_bytes in Hb. rewrite (app_assoc _ _ ([5; 1; 0; 3; _] ++ _)), <- (app_assoc _ _ payload) in Hb.
  destruct (hop_authenticate_converses protocol _ w0 Hs Hb) as (w1 & -> & S1 & B1 & T1 & L1 & P1).
  destruct (hop_request_converses protocol payload w1 S1 B1) as (w2 & E2 & S2 & B2 & T2 & L2 & P2). rewrite bind_run, E2. cbn iota beta.
  destruct (dial_relays protocol (reply_socks5 5) addr w2 Hd Hp S2) as (ou & od & rec & w3 & -> & T3 & P3 & L3 & Hr & Du & Dd).
  rewrite B2 in *. fold n in L3. fold answer m in L3, Dd, T3. unfold release, act. rewrite P3, P2, P1. exists ou, od, rec. eexists. split; [reflexivity|]. cbn.
  rewrite T3, L3, T2, L2, T1, L1. cbn. rewrite app_nil_r, <- !app_assoc. by split_and!.
Qed.
(** C30: an edge with a SOCKS5 upstream and the hop it names carry a tunnel end
    to end: whatever the fragmentation, the hop reads from the client's handshake
    exactly the credentials and the target, answers what the client needs for its
    handshake to succeed with nothing of the tunnel consumed, dials that target
    directly, delivers to it exactly the client's bytes and to the client exactly
    the target's, records both counts, and ends well with every gauge closed. *)
Theorem hop_socks5_end_to_end up (tls : bool) payload addr c :
  up_username up = Some user -> default [] (up_password up) = pass ->
  sound c -> Reader.bytes (cn_in c) = client_bytes user pass host port ++ payload ->
  tcp_connect_detailed (hx_env h) host port = Ok addr -> sound (en_peer (hx_env h)) ->
  let answer := Reader.bytes (cn_in (en_peer (hx_env h))) in
  let n := wrap 64 (Z.of_nat (length payload)) in let m := wrap 64 (Z.of_nat (length answer)) in
  exchanges (socks5_handshake up host port) (accepted ++ granted) (Ok tt) (client_bytes user pass host port) [] /\
  exists ou od rec w, serve_conn h (if tls then Some true else None) (if tls then Socks5Tls else PlainSocks5) (mkWorld c None []) = (Ok tt, w) /\
    cn_sent (wd_conn w) = cn_sent c ++ accepted ++ granted ++ answer /\
    wd_log w = [ListenerOpen; Dialled Direct host port; EgressOpen (lit "direct"); Relayed ou od; RecordListener n m; RecordEgress (lit "direct") n m]
      ++ rec ++ [EgressClose (lit "direct"); ListenerClose] /\
    Forall logged rec /\ co_delivered ou = payload /\ co_delivered od = answer.
Proof using Hcreds Lu Lp Lh Hport Vu Vp Vh.
  intros Hu Hpw Hs Hb Hd Hp. split; [by apply client_exchange|]. destruct tls; by eapply hop_serves_tunnel.
Qed.
End EndToEnd.

(** ** Concrete sessions *)

Module HopDemo.
Import Socks5Demo.
Definition decode (s : str) : option (list Z) := if str_eqb s (lit "cm92ZTpyb3Zl") then Some (lit "rove:rove") else None.
#[export] Instance base64 : Base64Decode := decode.
Definition hop : HopCtx := mkHopCtx (lit "hop") credentials_default true env (SockV4 2130706433 5555) 9.
Definition seen (log : list action) : list action := List.filter (fun a => match a with Logged _ _ _ => false | _ => true end) log.
Definition upstream : Upstream := mkUpstream Socks5 (lit "hop:1080") (Some (lit "rove")) (Some (lit "rove")) false false.
Definition stream : Conn :=
  let b := client_bytes (lit "rove") (lit "rove") (lit "one.example") 443 ++ lit "ping" in mkConn [Ok (take 3 b); Ok (drop 3 b)] [] [].
Definition connect (auth rest : str) : list Z :=
  lit "CONNECT one.example:443 HTTP/1.1" ++ crlf ++ lit "Proxy-Authorization: Basic " ++ auth ++ crlf ++ crlf ++ rest.
Example https_session :
  let w := snd (serve_conn hop (Some true) Https (mkWorld (mkConn [Ok (connect (lit "cm92ZTpyb3Zl") []); Ok (lit "ping")] [] []) None [])) in
  cn_sent (wd_conn w) = connection_established ++ lit "pong" /\
  seen (wd_log w) = [ListenerOpen; Dialled Direct (lit "one.example") 443; EgressOpen (lit "direct");
    Relayed (mkCopied (mkReport 4 None) (lit "ping") true) (mkCopied (mkReport 4 None) (lit "pong") true);
    RecordListener 4 4; RecordEgress (lit "direct") 4 4; EgressClose (lit "direct"); ListenerClose].
Proof. vm_compute. done. Qed.
Example https_refused :
  let w := snd (serve_conn hop (Some true) Https (mkWorld (mkConn [Ok (connect (lit "b3RoZXI=") [])] [] []) None [])) in
  seen (wd_log w) = [ListenerOpen; ListenerClose].
Proof. vm_compute. done. Qed.
(** Bytes of the tunnel that arrive in the same read as the head are dropped. *)
Example https_early_bytes_lost :
  let w := snd (serve_conn hop (Some true) Https (mkWorld (mkConn [Ok (connect (lit "cm92ZTpyb3Zl") (lit "hello")); Ok (lit "ping")] [] []) None [])) in
  Relayed (mkCopied (mkReport 4 None) (lit "ping") true) (mkCopied (mkReport 4 None) (lit "pong") true) ∈ wd_log w.
Proof. apply list_elem_of_In. vm_compute. tauto. Qed.
(** And they are read as headers: credentials after the head's end count. *)
Example https_credentials_after_head :
  let w := snd (serve_conn hop (Some true) Https (mkWorld (mkConn
    [Ok (lit "CONNECT one.example:443 HTTP/1.1" ++ crlf ++ crlf ++ lit "Proxy-Authorization: Basic cm92ZTpyb3Zl" ++ crlf)] [] []) None [])) in
  Dialled Direct (lit "one.example") 443 ∈ wd_log w.
Proof. apply list_elem_of_In. vm_compute. tauto. Qed.
End HopDemo.

Section HopWitness.
Import Socks5Demo HopDemo.
Lemma hop_socks5_end_to_end_witness :
  exchanges (socks5_handshake upstream (lit "one.example") 443) (accepted ++ granted) (Ok tt)
    (client_bytes (lit "rove") (lit "rove") (lit "one.example") 443) [] /\
  exists w, serve_conn hop None PlainSocks5 (mkWorld stream None []) = (Ok tt, w).
Proof.
  destruct (hop_socks5_end_to_end hop (lit "rove") (lit "rove") (lit "one.example") 443 eq_refl ltac:(vm_compute; lia) ltac:(vm_compute; lia)
    ltac:(vm_compute; lia) ltac:(unfold fits; lia) eq_refl eq_refl eq_refl upstream false (lit "ping") (SockV4 16843009 443) stream
    eq_refl eq_refl ltac:(split; [reflexivity|constructor]) ltac:(vm_compute; reflexivity) ltac:(vm_compute; reflexivity)
    ltac:(split; [reflexivity|constructor])) as [H (ou & od & rec & w & E & _)].
  split; [exact H|]. exists w. exact E.
Defined.
End HopWitness.
