(* ===== verification/Stats.v ===== *)
(** * Stats: the traffic counters (src/src/stats.rs)

    A row per listener and per egress: an active gauge and byte totals; a row of
    sniff outcomes per listener. Every operation is a map access under the lock
    or an atomic update, so concurrent use is some sequence of the operations;
    [apply_action] is what a handler's action does to them. *)

From Stdlib Require Import ZArith Lia String.
From stdpp Require Import prelude strings list gmap sorting.
From S2P Require Import Sniff SniffProps.
From S2P Require Import Prelude RustStr Net RustFmt Util Frame Stream Conn Domain Policy Book Model Engine Outbound Io Handler HttpRequest HttpBody Inbound Socks5 Http Sni Tuic TuicServer HopProxy HopProxyProps RabValid BTree.

(** [fetch_add] on an [AtomicI64] *)
Definition wrap_i64 (x : Z) : Z := (x + 2 ^ 63) mod 2 ^ 64 - 2 ^ 63.

Record CounterSet := mkCounters { ct_active : Z; ct_bytes_up : Z; ct_bytes_down : Z }.
Record SniffCounterSet := mkSniffCounters {
  sk_matched : Z; sk_unsupported : Z; sk_timeout : Z; sk_malformed : Z; sk_limit_exceeded : Z; sk_incomplete : Z
}.
Definition counters_default : CounterSet := mkCounters 0 0 0.
Definition sniff_default : SniffCounterSet := mkSniffCounters 0 0 0 0 0 0.

Record TrafficStats := mkStats { ts_listeners : gmap str CounterSet; ts_egress : gmap str CounterSet; ts_sniff : gmap str SniffCounterSet }.
Definition stats_new : TrafficStats := mkStats ∅ ∅ ∅.

(** [entry], [sniff_entry]: get or insert *)
Definition entry (m : gmap str CounterSet) (name : str) : CounterSet := default counters_default (m !! name).
Definition sniff_entry (m : gmap str SniffCounterSet) (listener : str) : SniffCounterSet := default sniff_default (m !! listener).
(** [track], and the drop of its guard: the entry it holds is the map's, since
    entries are never removed. *)
Definition add_active (n : Z) (c : CounterSet) : CounterSet := mkCounters (wrap_i64 (ct_active c + n)) (ct_bytes_up c) (ct_bytes_down c).
Definition track (m : gmap str CounterSet) (name : str) : gmap str CounterSet := <[name := add_active 1 (entry m name)]> m.
Definition guard_drop (m : gmap str CounterSet) (name : str) : gmap str CounterSet := <[name := add_active (-1) (entry m name)]> m.
(** [record] *)
Definition add_bytes (up down : Z) (c : CounterSet) : CounterSet :=
  mkCounters (ct_active c) (wrap 64 (ct_bytes_up c + up)) (wrap 64 (ct_bytes_down c + down)).
Definition record (m : gmap str CounterSet) (name : str) (up down : Z) : gmap str CounterSet := <[name := add_bytes up down (entry m name)]> m.

Definition on_listeners (f : gmap str CounterSet -> gmap str CounterSet) (s : TrafficStats) : TrafficStats :=
  mkStats (f (ts_listeners s)) (ts_egress s) (ts_sniff s).
Definition on_egress (f : gmap str CounterSet -> gmap str CounterSet) (s : TrafficStats) : TrafficStats :=
  mkStats (ts_listeners s) (f (ts_egress s)) (ts_sniff s).
Definition track_listener (s : TrafficStats) (listener : str) : TrafficStats := on_listeners (fun m => track m listener) s.
Definition register_listener (s : TrafficStats) (listener : str) : TrafficStats :=
  mkStats (<[listener := entry (ts_listeners s) listener]> (ts_listeners s)) (ts_egress s)
    (<[listener := sniff_entry (ts_sniff s) listener]> (ts_sniff s)).
Definition track_egress (s : TrafficStats) (egress : str) : TrafficStats := on_egress (fun m => track m egress) s.
Definition record_listener_bytes (s : TrafficStats) (listener : str) (up down : Z) : TrafficStats :=
  on_listeners (fun m => record m listener up down) s.
Definition record_egress_bytes (s : TrafficStats) (egress : str) (up down : Z) : TrafficStats :=
  on_egress (fun m => record m egress up down) s.
(** [record_sniff]'s counter *)
Definition count_outcome (o : SniffOutcome) (c : SniffCounterSet) : SniffCounterSet :=
  let n x := wrap 64 (x + 1) in
  match o with
  | Matched => mkSniffCounters (n (sk_matched c)) (sk_unsupported c) (sk_timeout c) (sk_malformed c) (sk_limit_exceeded c) (sk_incomplete c)
  | Unsupported => mkSniffCounters (sk_matched c) (n (sk_unsupported c)) (sk_timeout c) (sk_malformed c) (sk_limit_exceeded c) (sk_incomplete c)
  | Timeout => mkSniffCounters (sk_matched c) (sk_unsupported c) (n (sk_timeout c)) (sk_malformed c) (sk_limit_exceeded c) (sk_incomplete c)
  | Malformed => mkSniffCounters (sk_matched c) (sk_unsupported c) (sk_timeout c) (n (sk_malformed c)) (sk_limit_exceeded c) (sk_incomplete c)
  | LimitExceeded => mkSniffCounters (sk_matched c) (sk_unsupported c) (sk_timeout c) (sk_malformed c) (n (sk_limit_exceeded c)) (sk_incomplete c)
  | Incomplete => mkSniffCounters (sk_matched c) (sk_unsupported c) (sk_timeout c) (sk_malformed c) (sk_limit_exceeded c) (n (sk_incomplete c))
  end.
Definition record_sniff_outcome (s : TrafficStats) (listener : str) (o : SniffOutcome) : TrafficStats :=
  mkStats (ts_listeners s) (ts_egress s) (<[listener := count_outcome o (sniff_entry (ts_sniff s) listener)]> (ts_sniff s)).

(** ** Rows, sorted by name *)

Record StatsRow := mkRow { ro_name : str; ro_active : Z; ro_bytes_up_total : Z; ro_bytes_down_total : Z }.
Record SniffStatsRow := mkSniffRow { sr_listener : str; sr_counters : SniffCounterSet }.
Definition rows (m : gmap str CounterSet) : list StatsRow :=
  map (fun nc => mkRow nc.1 (ct_active nc.2) (ct_bytes_up nc.2) (ct_bytes_down nc.2)) (bt_entries m).
Definition listener_rows (s : TrafficStats) : list StatsRow := rows (ts_listeners s).
Definition egress_rows (s : TrafficStats) : list StatsRow := rows (ts_egress s).
Definition sniff_rows (s : TrafficStats) : list SniffStatsRow := map (fun nc => mkSniffRow nc.1 nc.2) (bt_entries (ts_sniff s)).

(** ** What a handler does to the counters *)

(** [ListenerClose] and [EgressClose] are the guards' drops. *)
Definition apply_action (s : TrafficStats) (la : str * action) : TrafficStats :=
  let '(listener, a) := la in
  match a with
  | ListenerOpen => track_listener s listener
  | ListenerClose => on_listeners (fun m => guard_drop m listener) s
  | EgressOpen label => track_egress s label
  | EgressClose label => on_egress (fun m => guard_drop m label) s
  | RecordListener up down => record_listener_bytes s listener up down
  | RecordEgress label up down => record_egress_bytes s label up down
  | RecordSniff o => record_sniff_outcome s listener o
  | _ => s
  end.
Definition apply_actions : TrafficStats -> list (str * action) -> TrafficStats := foldl apply_action.

(** * The gauges are the open connections

    The counters are exact sums of what was recorded, whatever the order; every
    front end opens and closes its gauges in pairs, so in any interleaving of
    connections each gauge is the number of connections that hold it. *)

(** ** Counters are sums *)

Inductive Gauge := GListener (name : str) | GEgress (label : str).
Definition row_of (s : TrafficStats) (g : Gauge) : CounterSet :=
  match g with GListener n => entry (ts_listeners s) n | GEgress l => entry (ts_egress s) l end.
(** What an action of a connection on a listener does to a gauge and to the totals. *)
Definition delta (g : Gauge) (la : str * action) : Z :=
  match g, la.2 with
  | GListener n, ListenerOpen => if str_eqb la.1 n then 1 else 0
  | GListener n, ListenerClose => if str_eqb la.1 n then -1 else 0
  | GEgress l, EgressOpen e => if str_eqb e l then 1 else 0
  | GEgress l, EgressClose e => if str_eqb e l then -1 else 0
  | _, _ => 0
  end.
Definition moved (g : Gauge) (la : str * action) : Z * Z :=
  match g, la.2 with
  | GListener n, RecordListener up down => if str_eqb la.1 n then (up, down) else (0, 0)
  | GEgress l, RecordEgress e up down => if str_eqb e l then (up, down) else (0, 0)
  | _, _ => (0, 0)
  end.
Definition net (g : Gauge) (l : list (str * action)) : Z := foldr (fun la n => delta g la + n) 0 l.
Definition total (g : Gauge) (dir : Z * Z -> Z) (l : list (str * action)) : Z := foldr (fun la n => dir (moved g la) + n) 0 l.

Lemma wrap_i64_add a b : wrap_i64 (wrap_i64 a + b) = wrap_i64 (a + b).
Proof.
  unfold wrap_i64. f_equal. replace ((a + 2 ^ 63) mod 2 ^ 64 - 2 ^ 63 + b + 2 ^ 63) with ((a + 2 ^ 63) mod 2 ^ 64 + b) by lia.
  rewrite Zplus_mod_idemp_l. f_equal. lia.
Qed.
Lemma wrap_i64_small a : - 2 ^ 63 <= a < 2 ^ 63 -> wrap_i64 a = a.
Proof. intros H. unfold wrap_i64. rewrite Z.mod_small by lia. lia. Qed.
Lemma wrap_i64_range a : - 2 ^ 63 <= wrap_i64 a < 2 ^ 63.
Proof.
  unfold wrap_i64. assert (H : 0 <= (a + 2 ^ 63) mod 2 ^ 64 < 2 ^ 64) by (apply Z.mod_pos_bound; lia).
  set (x := _ mod _) in *. change (2 ^ 64) with (2 ^ 63 + 2 ^ 63) in H. lia.
Qed.
Lemma wrap_add a b : wrap 64 (wrap 64 a + b) = wrap 64 (a + b).
Proof. unfold wrap. apply Zplus_mod_idemp_l. Qed.
Lemma entry_insert m n c n' : entry (<[n := c]> m) n' = if str_eqb n n' then c else entry m n'.
Proof.
  unfold entry, str_eqb. destruct (bool_decide_reflect (n = n')) as [->|]; [by rewrite lookup_insert_eq|by rewrite lookup_insert_ne].
Qed.
(** One action, on the row a gauge names. *)
Lemma apply_row s la g :
  row_of (apply_action s la) g =
  match la.2 with
  | ListenerOpen | ListenerClose | EgressOpen _ | EgressClose _ => if delta g la =? 0 then row_of s g else add_active (delta g la) (row_of s g)
  | RecordListener up down => match g with GListener n => if str_eqb la.1 n then add_bytes up down (row_of s g) else row_of s g | _ => row_of s g end
  | RecordEgress e up down => match g with GEgress l => if str_eqb e l then add_bytes up down (row_of s g) else row_of s g | _ => row_of s g end
  | _ => row_of s g
  end.
Proof.
  destruct la as [n a]. destruct g as [x|x], a; cbn; try done; unfold track, guard_drop, record; rewrite entry_insert; unfold delta; cbn;
    destruct (str_eqb _ x) eqn:E; cbn; try done; unfold str_eqb in E; apply bool_decide_eq_true in E as ->; done.
Qed.
Lemma apply_active s la g : ct_active (row_of (apply_action s la) g) = wrap_i64 (ct_active (row_of s g) + delta g la) \/ delta g la = 0 /\ ct_active (row_of (apply_action s la) g) = ct_active (row_of s g).
Proof.
  rewrite apply_row. destruct la as [n a]; cbn [fst snd]. destruct a; cbn; try (right; split; [by destruct g|]; by repeat case_match);
    (match goal with |- context [delta g ?x =? 0] => destruct (Z.eqb_spec (delta g x) 0) as [E|E] end; [by right|by left]).
Qed.
Lemma apply_bytes s la g : fits 64 (ct_bytes_up (row_of s g)) -> fits 64 (ct_bytes_down (row_of s g)) ->
  ct_bytes_up (row_of (apply_action s la) g) = wrap 64 (ct_bytes_up (row_of s g) + fst (moved g la)) /\
  ct_bytes_down (row_of (apply_action s la) g) = wrap 64 (ct_bytes_down (row_of s g) + snd (moved g la)).
Proof.
  intros Hu Hd. rewrite apply_row. destruct la as [n a]; cbn [fst snd].
  assert (Hz : forall x y : Z, x = 0 -> fits 64 y -> y = wrap 64 (y + x)) by (intros ? ? -> ?; by rewrite Z.add_0_r, wrap_fits).
  destruct a; cbn; try (split; by apply Hz; [destruct g|]).
  1-2, 3-4: case_match; cbn; split; by apply Hz; [destruct g|].
  all: destruct g; cbn; repeat case_match; cbn; try done; split; by apply Hz.
Qed.

Lemma actions_row l s g :
  fits 64 (ct_bytes_up (row_of s g)) -> fits 64 (ct_bytes_down (row_of s g)) -> - 2 ^ 63 <= ct_active (row_of s g) < 2 ^ 63 ->
  let c := row_of (apply_actions s l) g in
  ct_active c = wrap_i64 (ct_active (row_of s g) + net g l) /\
  ct_bytes_up c = wrap 64 (ct_bytes_up (row_of s g) + total g fst l) /\ ct_bytes_down c = wrap 64 (ct_bytes_down (row_of s g) + total g snd l).
Proof.
  cbv zeta. revert s. induction l as [|la l IH]; intros s Hu Hd Ha; cbn.
  - rewrite !Z.add_0_r, wrap_i64_small, !wrap_fits by done. done.
  - destruct (apply_bytes s la g Hu Hd) as [Eu Ed].
    assert (Ea : ct_active (row_of (apply_action s la) g) = wrap_i64 (ct_active (row_of s g) + delta g la)).
    { destruct (apply_active s la g) as [?|[E ->]]; [done|]. by rewrite E, Z.add_0_r, wrap_i64_small. }
    destruct (IH (apply_action s la)) as (Ia & Iu & Id).
    + rewrite Eu. by apply wrap_range.
    + rewrite Ed. by apply wrap_range.
    + rewrite Ea. apply wrap_i64_range.
    + unfold apply_actions in *. rewrite Ia, Iu, Id, Ea, Eu, Ed, wrap_i64_add, !wrap_add. rewrite <- !Z.add_assoc. done.
Qed.
(** From the start, a row is the wrapped sums of its actions. *)
Lemma stats_exact l g :
  let c := row_of (apply_actions stats_new l) g in
  ct_active c = wrap_i64 (net g l) /\ ct_bytes_up c = wrap 64 (total g fst l) /\ ct_bytes_down c = wrap 64 (total g snd l).
Proof.
  assert (E : row_of stats_new g = counters_default) by by destruct g.
  pose proof (actions_row l stats_new g) as H. rewrite E in H. apply H; vm_compute; split; congruence.
Qed.

(** ** Rows *)

Lemma rows_exact m n a u d : mkRow n a u d ∈ rows m <-> m !! n = Some (mkCounters a u d).
Proof.
  unfold rows. rewrite list_elem_of_In, in_map_iff. split.
  - intros ([n' c] & E & Hin%list_elem_of_In). cbn in E. injection E as <- <- <- <-. apply elem_of_bt_entries in Hin. by destruct c.
  - intros E. exists (n, mkCounters a u d). split; [done|]. by apply list_elem_of_In, elem_of_bt_entries.
Qed.
Lemma rows_sorted m : StronglySorted str_lt (map ro_name (rows m)).
Proof.
  unfold rows. rewrite map_map. cbn. assert (H : forall a b : str, key_lt a b -> str_lt a b) by (intros a b; unfold key_lt, key_ltb, str_order; apply str_ltb_lt).
  change (StronglySorted str_lt (map fst (bt_entries m))). pose proof (bt_entries_sorted m) as Hs. revert Hs. generalize (map fst (bt_entries m)).
  induction 1 as [|x l Hs IH Hx]; constructor; [done|]. eapply Forall_impl; [exact Hx|]. apply H.
Qed.

(** ** What one connection does to the gauges *)

Definition flat (a : action) : Prop := match a with ListenerOpen | ListenerClose | EgressOpen _ | EgressClose _ => False | _ => True end.
(** Nothing, or one egress at a time, opened and closed. *)
Inductive blocks : list action -> Prop :=
| blocks_nil : blocks []
| blocks_flat a l : flat a -> blocks l -> blocks (a :: l)
| blocks_egress e f l : Forall flat f -> blocks l -> blocks ([EgressOpen e] ++ f ++ [EgressClose e] ++ l).
Lemma blocks_app a b : blocks a -> blocks b -> blocks (a ++ b).
Proof.
  induction 1 as [|x l Hx Hl IH|e f l Hf Hl IH]; intros Hb; cbn; [done|by constructor; [|apply IH]|].
  rewrite <- app_assoc. cbn. apply (blocks_egress e f (l ++ b)); auto.
Qed.
Lemma flat_blocks l : Forall flat l -> blocks l.
Proof. induction 1; by constructor. Qed.

(** [m] adds to the log only what [Q] says. *)
Definition writes {A} (Q : list action -> Prop) (m : handler A) : Prop := forall w, exists l, wd_log (snd (m w)) = wd_log w ++ l /\ Q l.
Section Writes.
Context (Q : list action -> Prop) (Qapp : forall a b, Q a -> Q b -> Q (a ++ b)) (Qflat : forall l, Forall flat l -> Q l).
Lemma writes_flat {A} (m : handler A) : writes (Forall flat) m -> writes Q m.
Proof using Qflat. intros H w. destruct (H w) as (l & ? & ?). exists l. auto. Qed.
Lemma writes_bind {A B} (m : handler A) (k : A -> handler B) : writes Q m -> (forall a, writes Q (k a)) -> writes Q (m ≫= k).
Proof using Qapp.
  intros Hm Hk w. destruct (Hm w) as (l & E & Hl). unfold mbind, handler_bind. destruct (m w) as [[a|e] w1]; cbn in *; [|by exists l].
  destruct (Hk a w1) as (l' & E' & Hl'). exists (l ++ l'). rewrite E', E, app_assoc. auto.
Qed.
Lemma writes_quiet {A} (m : handler A) : (forall w, wd_log (snd (m w)) = wd_log w) -> writes Q m.
Proof using Qflat. intros H w. exists []. rewrite H, app_nil_r. auto. Qed.
Lemma writes_acts l : Forall flat l -> writes Q (acts l).
Proof using Qflat. intros H w. exists l. auto. Qed.
Lemma writes_act a : flat a -> writes Q (act a).
Proof using Qflat. intros H w. exists [a]. split; [done|]. apply Qflat. by constructor. Qed.
Lemma writes_conn {A} (m : conn_m IoError A) : writes Q (on_conn m).
Proof using Qflat. apply writes_quiet. intros w. unfold on_conn. by destruct (m (wd_conn w)) as [[] ?]. Qed.
Lemma writes_attempt {A} (m : conn_m IoError A) : writes Q (attempt m).
Proof using Qflat. apply writes_quiet. intros w. unfold attempt. by destruct (m (wd_conn w)). Qed.
Lemma writes_hold p : writes Q (hold p).
Proof using Qflat. intros w. eexists. split; [reflexivity|]. apply Qflat. by repeat constructor. Qed.
Lemma writes_release : writes Q release.
Proof using Qflat. intros w. unfold release. destruct (wd_permit w); [eexists; split; [reflexivity|]; apply Qflat; repeat constructor|]. exists []. rewrite app_nil_r. split; [done|]. apply Qflat. constructor. Qed.
Lemma writes_relay t up down : writes Q (relay t up down).
Proof using Qflat.
  intros w. unfold relay. destruct (splice _ _ _ _ _ _) as [[[r u] d]|]; [eexists; split; [reflexivity|]; apply Qflat; repeat constructor|]. exists []. rewrite app_nil_r. split; [done|]. apply Qflat. constructor.
Qed.
Lemma writes_with_prefix {A} prefix (m : handler A) : writes Q m -> writes Q (with_prefix prefix m).
Proof using. intros H w. apply (H (mkWorld _ _ _)). Qed.
Lemma writes_forward t me v hs ct f b r down : writes Q (forward_http t me v hs ct f b r down).
Proof using Qflat.
  intros w. unfold forward_http. destruct (cwrite _ _ _) as [[[]|e] c]; [|exists []; rewrite app_nil_r; split; [done|apply Qflat; constructor]].
  destruct (copy_request_body _ _) as [x c2]. destruct (copy_throttled_report _ _ _); [eexists; split; [reflexivity|]; apply Qflat; repeat constructor|].
  exists []. rewrite app_nil_r. split; [done|]. apply Qflat. constructor.
Qed.
End Writes.
Lemma writes_with_egress label m : writes (Forall flat) m -> writes blocks (with_egress label m).
Proof.
  intros Hm w. unfold with_egress, act. destruct (Hm (mkWorld (wd_conn w) (wd_permit w) (wd_log w ++ [EgressOpen label]))) as (l & E & Hl).
  destruct (m _) as [r w1]. cbn in *. exists ([EgressOpen label] ++ l ++ [EgressClose label]). rewrite E, <- !app_assoc. split; [done|].
  apply (blocks_egress label l []); [done|constructor].
Qed.

Lemma flat_app a b : Forall flat a -> Forall flat b -> Forall flat (a ++ b).
Proof. apply Forall_app_2. Qed.
Lemma flat_self l : Forall flat l -> Forall flat l.
Proof. done. Qed.
Lemma report_flat `{N : Ipnet} `{B : BookApi} {D : Chrono} {O : ChronoOrder D} {PR : Protocol} ctx o f : Forall flat (report_actions ctx o f).
Proof. unfold report_actions. repeat case_match; repeat constructor. Qed.
(** Walk a handler, leaving the operations that are not its own. *)
Ltac shape lem :=
  lazymatch goal with
  | |- writes blocks _ => apply (lem blocks flat_blocks)
  | |- writes (Forall flat) _ => apply (lem (Forall flat) flat_self)
  end.
Ltac walk :=
  lazymatch goal with
  | |- writes _ (_ ≫= _) => first [apply (writes_bind blocks blocks_app) | apply (writes_bind (Forall flat) flat_app)]; [walk|intros; walk]
  | |- writes _ (if ?b then _ else _) => destruct b; walk
  | |- writes _ (match ?x with _ => _ end) => destruct x; walk
  | |- writes _ (let '(_, _) := ?x in _) => destruct x; walk
  | |- writes _ (halt _) => shape @writes_quiet; done
  | |- writes _ (mret _) => shape @writes_quiet; done
  | |- writes _ (act _) => shape writes_act; done
  | |- writes _ (acts _) => shape writes_acts; by repeat (done || constructor || case_match)
  | |- writes _ (recv _) => shape @writes_conn
  | |- writes _ recv_u8 => shape @writes_conn
  | |- writes _ (send _) => shape @writes_conn
  | |- writes _ (on_conn _) => shape @writes_conn
  | |- writes _ (attempt _) => shape @writes_attempt
  | |- writes _ (hold _) => shape writes_hold
  | |- writes _ release => shape writes_release
  | |- writes _ (relay _ _ _) => shape writes_relay
  | |- writes _ (forward_http _ _ _ _ _ _ _ _ _) => shape writes_forward
  | |- writes _ (with_prefix _ _) => apply writes_with_prefix; walk
  | |- writes blocks (with_egress _ _) => apply writes_with_egress; walk
  | |- writes _ (report_trace _ _ _) => shape writes_acts; apply report_flat
  | |- writes _ (report_and_return _ _ _) => unfold report_and_return; walk
  | |- _ => idtac
  end.

Section Connections.
Context {N : Ipnet} {B : BookApi} {D : Chrono} {O : ChronoOrder D} {B64 : Base64} {BD : Base64Decode}.
Context {R : Rustls} {HP : Httparse} {UC : UrlCrate}.
Context (ctx : Ctx) (o : Outside).

Lemma capture_flat {PR : Protocol} user host port first : writes (Forall flat) (capture ctx o user host port first).
Proof.
  intros w. unfold capture. destruct (capture_prefix _ _ _ _ _) as [[[? ?]|?]|]; cbn.
  - exists []. by rewrite app_nil_r.
  - eexists. split; [reflexivity|apply report_flat].
  - exists []. by rewrite app_nil_r.
Qed.
Lemma finish_flat {PR : Protocol} {E} user host port d p e s (r : result E SpliceStats) : writes (Forall flat) (finish ctx o user host port d p e s r).
Proof. unfold finish. walk. Qed.
Lemma tunnel_blocks {PR : Protocol} user host port d p a t e s : writes blocks (tunnel ctx o user host port d p a t e s).
Proof. unfold tunnel. walk. apply finish_flat. Qed.
Lemma route_blocks {PR : Protocol} user host port a first : writes blocks (route_tunnel ctx o user host port a first).
Proof.
  unfold route_tunnel. apply (writes_bind blocks blocks_app); [apply (writes_flat blocks flat_blocks), capture_flat|intros cap]. cbv zeta.
  walk; apply tunnel_blocks.
Qed.

Lemma socks5_blocks : writes blocks (serve_body ctx o).
Proof.
  unfold serve_body, socks5_authenticate, socks5_read_request, socks5_connect_request, tunnel_connect_route, reply. walk;
    first [apply tunnel_blocks | apply route_blocks].
Qed.
Lemma read_head_quiet Q : (forall l, Forall flat l -> Q l) -> writes Q read_head.
Proof. intros H. apply (writes_quiet Q H). intros w. unfold read_head. by destruct (read_http_head_with_remainder _ _) as [[[?|?] ?]|]. Qed.
Lemma http_blocks : writes blocks (http_serve_body ctx o).
Proof.
  unfold http_serve_body, http_read_request, http_authenticate, http_request, http_admitted, http_exchange, http_tunnel_route, tunnel_connect,
    reject, respond, http_report_and_return, http_report. walk;
    first [apply (read_head_quiet blocks flat_blocks) | apply route_blocks | apply finish_flat].
Qed.
Lemma sni_blocks g local : writes blocks (sni_body ctx o g local).
Proof.
  assert (Hr : forall s, writes (Forall flat) (sni_report ctx o s)) by (intros s; unfold sni_report; walk).
  assert (Hx : forall (A : Type) s, writes (Forall flat) (sni_return (A := A) ctx o s)).
  { intros A s. unfold sni_return. apply (writes_bind _ flat_app); [apply Hr|intros; walk]. }
  unfold sni_body, sni_admitted, sni_dial. walk; first [apply (writes_flat blocks flat_blocks), Hx | apply Hr | idtac].
  intros w. unfold sni_capture. destruct (capture_prefix _ _ _ _ _) as [[[? ?]|?]|]; cbn.
  - exists []. rewrite app_nil_r. split; [done|constructor].
  - apply (writes_flat blocks flat_blocks), Hx.
  - exists []. rewrite app_nil_r. split; [done|constructor].
Qed.
Lemma tuic_blocks auth : writes blocks (tuic_stream ctx o auth).
Proof.
  assert (Hr : forall v f, writes (Forall flat) (record_tcp_access ctx o v f)) by (intros; unfold record_tcp_access; walk).
  assert (Hs : forall ob, writes (Forall flat) (record_sniff ob)) by (intros; unfold record_sniff; walk).
  assert (Hx : forall (A : Type) r f, writes (Forall flat) (record_and_return (A := A) ctx o r f)).
  { intros A r f. unfold record_and_return. apply (writes_bind _ flat_app); [apply Hr|intros; walk]. }
  assert (Hc : forall u h p r, writes (Forall flat) (tuic_capture ctx o u h p r)).
  { intros u h p r w. unfold tuic_capture. destruct (capture_prefix _ _ _ _ _) as [[[? ?]|?]|]; [exists []; by rewrite app_nil_r|apply Hx|exists []; by rewrite app_nil_r]. }
  assert (Hm : forall (A : Type) (m : reading A), writes blocks (reads m)).
  { intros A m. apply (writes_quiet blocks flat_blocks). intros w. unfold reads. by destruct (m _). }
  intros w. unfold tuic_stream, permit_scope.
  match goal with |- context [let '(r, w1) := ?m w in _] => assert (H : writes blocks m); [|set (body := m) in *] end.
  { unfold handle_connect, tuic_admitted, tuic_dial. walk; first [apply Hm | apply Hr | apply Hs | apply Hc
      | apply (writes_flat blocks flat_blocks); first [apply Hx | apply Hs | apply Hc | apply Hr]]. }
  destruct (H w) as (l & E & Hl). clearbody body. destruct (body w) as [r w1]. cbn in *. unfold release. destruct (wd_permit w1); cbn; rewrite E.
  - exists (l ++ [Released (cp_username c)]). rewrite app_assoc. split; [done|]. apply blocks_app; [done|by repeat constructor].
  - exists l. done.
Qed.
End Connections.

Section Hop.
Context {BD : Base64Decode} (h : HopCtx).
Lemma entry_flat protocol f : Forall flat (access_entry h protocol f).
Proof. unfold access_entry. case_match; repeat constructor. Qed.
Lemma hop_exit_flat {A} protocol f : writes (Forall flat) (record_exit (A := A) h protocol f).
Proof. unfold record_exit. apply (writes_bind _ flat_app); [apply (writes_acts _ flat_self), entry_flat|intros; walk]. Qed.
Lemma hop_dial_blocks protocol host port refused granted :
  writes blocks refused -> writes blocks granted -> writes blocks (hop_dial h protocol host port refused granted).
Proof.
  intros Hr Hg. unfold hop_dial, hop_tunnel. walk; first [done | apply (writes_flat blocks flat_blocks), hop_exit_flat | apply (writes_acts _ flat_self), entry_flat].
Qed.
Lemma https_blocks : writes blocks (hop_https_body h).
Proof.
  assert (Hh : writes blocks hop_read_head).
  { apply (writes_quiet blocks flat_blocks). intros w. unfold hop_read_head. by destruct (read_http_head _ _) as [[[?|?] ?]|]. }
  unfold hop_https_body, respond_http. walk; first [done | apply (writes_flat blocks flat_blocks), hop_exit_flat | apply hop_dial_blocks; walk].
Qed.
Lemma hop_socks5_blocks protocol : writes blocks (hop_socks5_body h protocol).
Proof.
  unfold hop_socks5_body, hop_socks5_authenticate, hop_socks5_request, socks5_auth_ok, reply_socks5. walk;
    first [apply (writes_flat blocks flat_blocks), hop_exit_flat | apply hop_dial_blocks; walk].
Qed.
End Hop.

(** ** Interleavings of connections *)

(** The log of a connection that ended, on a listener. A TUIC stream leaves the
    listener gauge to its connection. *)
Inductive ran {N : Ipnet} {B : BookApi} {D : Chrono} {O : ChronoOrder D} {B64 : Base64} {BD : Base64Decode}
    {R : Rustls} {HP : Httparse} {UC : UrlCrate} : str -> list action -> Prop :=
| ran_socks5 ctx o c : ran (cx_listener ctx) (wd_log (snd (serve ctx o (mkWorld c None []))))
| ran_http ctx o c : ran (cx_listener ctx) (wd_log (snd (http_serve ctx o (mkWorld c None []))))
| ran_sni ctx o g local c : ran (cx_listener ctx) (wd_log (snd (sni_serve ctx o g local (mkWorld c None []))))
| ran_tuic ctx o auth c : ran (cx_listener ctx) (wd_log (snd (tuic_stream ctx o auth (mkWorld c None []))))
| ran_hop h acceptor protocol c : ran (hx_listener h) (wd_log (snd (serve_conn h acceptor protocol (mkWorld c None [])))).

Definition paired (log : list action) : Prop :=
  exists l f, blocks l /\ Forall flat f /\ (log = l \/ log = [ListenerOpen] ++ l ++ f ++ [ListenerClose]).
Lemma scoped_paired m c : writes blocks m -> paired (wd_log (snd ((act ListenerOpen ;; scope m) (mkWorld c None [])))).
Proof.
  intros Hm. unfold mbind, handler_bind, scope, release, act. cbn. destruct (Hm (mkWorld c None [ListenerOpen])) as (l & E & Hl).
  destruct (m _) as [r w1]. cbn in *. exists l. destruct (wd_permit w1) as [p|]; cbn; rewrite E.
  - exists [Released (cp_username p)]. split; [done|]. split; [by repeat constructor|]. right. by rewrite <- !app_assoc.
  - exists []. split; [done|]. split; [constructor|]. right. done.
Qed.
Lemma ran_paired {N : Ipnet} {B : BookApi} {D : Chrono} {O : ChronoOrder D} {B64 : Base64} {BD : Base64Decode}
    {R : Rustls} {HP : Httparse} {UC : UrlCrate} listener log : ran listener log -> paired log.
Proof.
  destruct 1.
  - apply scoped_paired, socks5_blocks.
  - apply scoped_paired, http_blocks.
  - apply scoped_paired, sni_blocks.
  - destruct (tuic_blocks ctx o auth (mkWorld c None [])) as (l & E & Hl). rewrite E. exists l, []. split; [done|]. split; [constructor|by left].
  - destruct acceptor as [[|]|], protocol; try (exists [], []; split; [constructor|]; split; [constructor|by left]);
      apply scoped_paired; first [apply https_blocks | apply hop_socks5_blocks].
Qed.

Lemma net_sum_app g a b : net g (a ++ b) = net g a + net g b.
Proof. unfold net. induction a as [|x a IH]; cbn; [done|]. rewrite IH. lia. Qed.
Definition bounded (g : Gauge) (l : list (str * action)) : Prop := net g l = 0 /\ forall k, 0 <= net g (take k l) <= 1.
Lemma bounded_app g a b : bounded g a -> bounded g b -> bounded g (a ++ b).
Proof.
  intros [Ha Pa] [Hb Pb]. split; [by rewrite net_sum_app, Ha, Hb|]. intros k. rewrite take_app, net_sum_app.
  destruct (decide (k <= length a)%nat) as [Hk|Hk].
  - replace (k - length a)%nat with 0%nat by lia. rewrite take_0, Z.add_0_r. exact (Pa k).
  - rewrite (take_ge a) by lia. rewrite Ha. apply Pb.
Qed.
Lemma net_zero g l : Forall (fun la => delta g la = 0) l -> net g l = 0.
Proof. induction 1 as [|x l Hx Hl IH]; [done|]. change (delta g x + net g l = 0). lia. Qed.
Lemma net_one g a : net g [a] = delta g a.
Proof. cbn. lia. Qed.
Lemma bounded_zero g l : Forall (fun la => delta g la = 0) l -> bounded g l.
Proof. intros H. split; [by apply net_zero|]. intros k. rewrite net_zero by (by apply Forall_take). lia. Qed.
(** One gauge opened, nothing else, closed. *)
Lemma bounded_wrap g a l b : Forall (fun la => delta g la = 0) l -> (delta g a = 1 /\ delta g b = -1 \/ delta g a = 0 /\ delta g b = 0) -> bounded g ([a] ++ l ++ [b]).
Proof.
  intros Hl Hab. split; [rewrite !net_sum_app, (net_zero g l), !net_one by done; lia|]. intros [|k]; [cbn; lia|].
  change (take (S k) ([a] ++ l ++ [b])) with ([a] ++ take k (l ++ [b])). rewrite take_app, !net_sum_app, (net_zero g (take k l)), net_one by (by apply Forall_take).
  destruct (k - length l)%nat as [|j]; [cbn; lia|]. cbn [take]. rewrite take_nil, net_one. lia.
Qed.
Lemma flat_delta g listener l : Forall flat l -> Forall (fun la => delta g la = 0) (map (pair listener) l).
Proof. intros H. apply Forall_map. eapply Forall_impl; [exact H|]. intros []; by destruct g. Qed.

Lemma blocks_bounded label listener l : blocks l -> bounded (GEgress label) (map (pair listener) l).
Proof.
  induction 1 as [|a l Ha Hl IH|e f l Hf Hl IH].
  - by apply bounded_zero.
  - change (map (pair listener) (a :: l)) with (map (pair listener) [a] ++ map (pair listener) l). apply bounded_app; [|done].
    apply bounded_zero, flat_delta. by constructor.
  - rewrite (assoc_L (++)), (assoc_L (++)), map_app, !map_app. rewrite <- (assoc_L (++) (map _ [EgressOpen e])). apply bounded_app; [|done].
    apply (bounded_wrap (GEgress label) (listener, EgressOpen e)); [by apply flat_delta|]. cbn. destruct (str_eqb e label); [by left|by right].
Qed.
Lemma blocks_listener name listener l : blocks l -> Forall (fun la => delta (GListener name) la = 0) (map (pair listener) l).
Proof.
  induction 1 as [|a l Ha Hl IH|e f l Hf Hl IH]; [constructor|constructor; [by destruct a|done]|].
  rewrite !map_app, !Forall_app. split; [by repeat constructor|]. split; [by apply flat_delta|]. split; [by repeat constructor|done].
Qed.
Lemma paired_bounded g listener log : paired log -> bounded g (map (pair listener) log).
Proof.
  intros (l & f & Hl & Hf & [->| ->]).
  - destruct g; [by apply bounded_zero, blocks_listener|by apply blocks_bounded].
  - rewrite !map_app. destruct g as [n|e].
    + rewrite (assoc_L (++) (map _ l)). apply (bounded_wrap (GListener n) (listener, ListenerOpen)).
      * apply Forall_app. split; [by apply blocks_listener|by apply flat_delta].
      * cbn. destruct (str_eqb listener n); [by left|by right].
    + apply bounded_app; [by apply bounded_zero; repeat constructor|]. apply bounded_app; [by apply blocks_bounded|].
      apply bounded_app; [by apply bounded_zero, flat_delta|by apply bounded_zero; repeat constructor].
Qed.

(** Events of connections, by their index; each connection's are a prefix of
    what it does until it ends. *)
Definition acts_of (i : nat) (es : list (nat * action)) : list action := map snd (List.filter (fun e => (fst e =? i)%nat) es).
Definition interleaving (sessions : list (str * list action)) (es : list (nat * action)) : Prop :=
  Forall (fun e => (fst e < length sessions)%nat) es /\
  forall i listener log, sessions !! i = Some (listener, log) -> exists k, acts_of i es = take k log.
Definition listener_of (sessions : list (str * list action)) (i : nat) : str := default [] (fst <$> sessions !! i).
Definition labelled (sessions : list (str * list action)) (es : list (nat * action)) : list (str * action) :=
  map (fun e => (listener_of sessions (fst e), snd e)) es.
(** Whether a connection holds a gauge: it opened it more often than it closed it. *)
Definition net_of (g : Gauge) (sessions : list (str * list action)) (es : list (nat * action)) (i : nat) : Z :=
  net g (map (pair (listener_of sessions i)) (acts_of i es)).
Definition holders (g : Gauge) (sessions : list (str * list action)) (es : list (nat * action)) : Z :=
  Z.of_nat (length (List.filter (fun i => net_of g sessions es i =? 1) (seq 0 (length sessions)))).
Definition finished (sessions : list (str * list action)) (es : list (nat * action)) : Prop :=
  forall i listener log, sessions !! i = Some (listener, log) -> acts_of i es = log.

Definition sumZ (f : nat -> Z) (l : list nat) : Z := foldr (fun i n => f i + n) 0 l.
Lemma sumZ_cons f i l : sumZ f (i :: l) = f i + sumZ f l.
Proof. done. Qed.
Lemma sumZ_ext f f' l : (forall i, i ∈ l -> f i = f' i) -> sumZ f l = sumZ f' l.
Proof. induction l as [|i l IH]; intros H; [done|]. rewrite !sumZ_cons, (H i) by set_solver. f_equal. apply IH. intros. apply H. set_solver. Qed.
Lemma sumZ_add f f' l : sumZ (fun i => f i + f' i) l = sumZ f l + sumZ f' l.
Proof. induction l as [|i l IH]; [done|]. rewrite !sumZ_cons, IH. lia. Qed.
Lemma sumZ_single d j l : NoDup l -> sumZ (fun i => if (j =? i)%nat then d else 0) l = if decide (j ∈ l) then d else 0.
Proof.
  induction 1 as [|i l Hi Hnd IH]; [done|]. rewrite sumZ_cons, IH. destruct (Nat.eqb_spec j i) as [->|Hne].
  - rewrite decide_False by done. rewrite decide_True by set_solver. lia.
  - destruct (decide (j ∈ l)); [rewrite decide_True by set_solver|rewrite decide_False by set_solver]; lia.
Qed.
Lemma sumZ_count f l : (forall i, i ∈ l -> 0 <= f i <= 1) -> sumZ f l = Z.of_nat (length (List.filter (fun i => f i =? 1) l)).
Proof.
  induction l as [|i l IH]; intros H; [done|]. rewrite sumZ_cons, IH by (intros; apply H; set_solver).
  pose proof (H i ltac:(set_solver)). cbn [List.filter]. destruct (Z.eqb_spec (f i) 1); cbn [length]; lia.
Qed.
Lemma net_labelled g sessions es :
  Forall (fun e => (fst e < length sessions)%nat) es -> net g (labelled sessions es) = sumZ (net_of g sessions es) (seq 0 (length sessions)).
Proof.
  induction 1 as [|[j a] es Hj Hes IH].
  - symmetry. cbn. induction (seq 0 _) as [|i l IHl]; cbn; [done|exact IHl].
  - change (net g (labelled sessions ((j, a) :: es))) with (delta g (listener_of sessions j, a) + net g (labelled sessions es)). rewrite IH.
    rewrite (sumZ_ext (net_of g sessions ((j, a) :: es))
      (fun i => (if (j =? i)%nat then delta g (listener_of sessions j, a) else 0) + net_of g sessions es i)).
    + rewrite sumZ_add, sumZ_single by apply NoDup_seq. rewrite decide_True; [done|]. apply elem_of_seq. cbn in Hj. lia.
    + intros i _. unfold net_of, acts_of. cbn. by destruct (Nat.eqb_spec j i) as [->|].
Qed.

Section Gauges.
Context {N : Ipnet} {B : BookApi} {D : Chrono} {O : ChronoOrder D} {B64 : Base64} {BD : Base64Decode}.
Context {R : Rustls} {HP : Httparse} {UC : UrlCrate}.

Lemma net_of_bounded g sessions es i :
  Forall (fun s => ran (fst s) (snd s)) sessions -> interleaving sessions es -> (i < length sessions)%nat ->
  0 <= net_of g sessions es i <= 1 /\ (finished sessions es -> net_of g sessions es i = 0).
Proof.
  intros Hr [_ Hi] Hlt. destruct (lookup_lt_is_Some_2 sessions i Hlt) as [[listener log] E].
  rewrite Forall_forall in Hr. specialize (Hr (listener, log) ltac:(by eapply list_elem_of_lookup_2)).
  apply ran_paired, (paired_bounded g listener) in Hr as [Hz Hb]. destruct (Hi i listener log E) as [k Ek].
  unfold net_of, listener_of. rewrite E. cbn. split.
  - rewrite Ek, <- firstn_map. apply Hb.
  - intros Hf. by rewrite (Hf i listener log E).
Qed.

(** C31: in every interleaving of SOCKS5, HTTP, SNI, TUIC and hop connections, at
    every moment, each active gauge is exactly the number of connections that
    hold it, so it is never negative, never more than the connections there are,
    and zero once they have all ended; and each byte total is the sum, modulo
    2^64, of what was recorded for its row. *)
Theorem gauges_exact (sessions : list (str * list action)) (es : list (nat * action)) (g : Gauge) :
  Forall (fun s => ran (fst s) (snd s)) sessions -> interleaving sessions es -> Z.of_nat (length sessions) < 2 ^ 63 ->
  let c := row_of (apply_actions stats_new (labelled sessions es)) g in
  ct_active c = holders g sessions es /\ 0 <= ct_active c <= Z.of_nat (length sessions) /\
  (finished sessions es -> ct_active c = 0) /\
  ct_bytes_up c = wrap 64 (total g fst (labelled sessions es)) /\ ct_bytes_down c = wrap 64 (total g snd (labelled sessions es)).
Proof.
  intros Hr Hi Hn c. destruct (stats_exact (labelled sessions es) g) as (Ea & Eu & Ed). fold c in Ea, Eu, Ed.
  rewrite (net_labelled g sessions es (proj1 Hi)) in Ea.
  assert (Hin : forall i, i ∈ seq 0 (length sessions) -> 0 <= net_of g sessions es i <= 1 /\ (finished sessions es -> net_of g sessions es i = 0)).
  { intros i [_ Hlt]%elem_of_seq. by apply net_of_bounded. }
  assert (Ec : sumZ (net_of g sessions es) (seq 0 (length sessions)) = holders g sessions es) by (apply sumZ_count; intros i H; apply Hin, H).
  assert (Hle : 0 <= holders g sessions es <= Z.of_nat (length sessions)).
  { unfold holders. pose proof (List.filter_length_le (fun i => net_of g sessions es i =? 1) (seq 0 (length sessions))) as H.
    rewrite length_seq in H. lia. }
  rewrite Ec, wrap_i64_small in Ea by lia. rewrite Ea. split_and!; try done; try lia.
  intros Hf. rewrite <- Ec, (sumZ_ext _ (fun _ => 0)) by (intros i H; by apply (Hin i H)).
  clear. generalize (seq 0 (length sessions)). intros l. induction l as [|i l IH]; [done|]. by rewrite sumZ_cons, IH.
Qed.
End Gauges.

(** Two connections at once: one relayed by SOCKS5, one through the hop. *)
Module StatsDemo.
Import Socks5Demo HopProxyProps.HopDemo.
Definition log1 : list action := wd_log (snd (serve (ctx false) o (mkWorld client None []))).
Definition log2 : list action := wd_log (snd (serve_conn hop None PlainSocks5 (mkWorld stream None []))).
Definition sessions : list (str * list action) := [(cx_listener (ctx false), log1); (hx_listener hop, log2)].
(** Six steps of the first, the whole second. *)
Definition events : list (nat * action) := map (pair 0%nat) (take 6 log1) ++ map (pair 1%nat) log2.
Example open_gauges :
  let s := apply_actions stats_new (labelled sessions events) in
  listener_rows s = [mkRow (lit "hop") 0 4 4; mkRow (lit "socks") 1 0 0] /\
  egress_rows s = [mkRow (lit "direct") 1 4 4].
Proof. vm_compute. done. Qed.
End StatsDemo.
Section Witness.
Import Socks5Demo HopProxyProps.HopDemo StatsDemo.
Lemma sessions_ran : Forall (fun s => ran (fst s) (snd s)) sessions.
Proof.
  unfold sessions, log1, log2. constructor; [|constructor; [|constructor]]; cbn [fst snd]; [apply ran_socks5|apply ran_hop].
Qed.
Lemma sessions_0 : sessions !! 0%nat = Some (cx_listener (ctx false), log1).
Proof. unfold sessions. cbn [lookup list_lookup]. exact eq_refl. Qed.
Lemma sessions_1 : sessions !! 1%nat = Some (hx_listener hop, log2).
Proof. unfold sessions. cbn [lookup list_lookup]. exact eq_refl. Qed.
Lemma sessions_interleaved : interleaving sessions events.
Proof.
  split; [apply (bool_decide_unpack _); vm_compute; exact I|]. intros [|[|i]] listener log E.
  - apply (eq_trans (eq_sym sessions_0)), (inj Some) in E. apply pair_equal_spec in E as [_ <-]. exists 6%nat. vm_compute. reflexivity.
  - apply (eq_trans (eq_sym sessions_1)), (inj Some) in E. apply pair_equal_spec in E as [_ <-]. exists (length log2). vm_compute. reflexivity.
  - change (@None (str * list action) = Some (listener, log)) in E. discriminate E.
Qed.
Lemma gauges_exact_witness : ct_active (row_of (apply_actions stats_new (labelled sessions events)) (GEgress (lit "direct"))) = 1.
Proof.
  pose proof (gauges_exact sessions events (GEgress (lit "direct")) sessions_ran sessions_interleaved ltac:(vm_compute; reflexivity)) as H.
  cbv zeta in H. rewrite (proj1 H). vm_compute. reflexivity.
Defined.
End Witness.
