(* ===== verification/AccessLog.v ===== *)
(** * AccessLog: the structured access log (src/src/access_log.rs)

    A record per connection, sent without waiting through a bounded channel to
    one writer task; the periodic gauge lines, with their deltas since the last;
    retention by the date in a file's name; and syslog forwarding. JSON texts
    are serde_json's, dates chrono's, the daily file tracing-appender's. *)

From Stdlib Require Import ZArith Lia String.
From stdpp Require Import prelude strings list gmap.
From S2P Require Import Sniff.
From S2P Require Import Prelude RustStr Net RustFmt Util Frame Stream Conn IngressFrame RelayConfig ConnectorConfig Connector RabValid BTree Domain Policy Model Engine Outbound Io Handler Stats.

Definition SYSLOG_SEVERITY_INFORMATIONAL : Z := 6.

(** [SniffProtocol::as_str], [SniffOutcome::as_str] *)
Definition sniff_protocol_str (p : SniffProtocol) : str := match p with Sniff.Tls => lit "tls" | Sniff.Http => lit "http" end.
Definition sniff_outcome_str (o : SniffOutcome) : str :=
  match o with
  | Sniff.Matched => lit "matched" | Sniff.Unsupported => lit "unsupported" | Sniff.Timeout => lit "timeout"
  | Sniff.Malformed => lit "malformed" | Sniff.LimitExceeded => lit "limit_exceeded" | Sniff.Incomplete => lit "incomplete"
  end.

(** ** Records *)

Record AccessLogRecord := mkRecord {
  ar_timestamp : Z; ar_node_id : str; ar_kind : str; ar_listener : str; ar_protocol : str; ar_client_addr : option str;
  ar_client_addr_source : option str; ar_relay_addr : option str; ar_relay_instance_id : option str; ar_tunnel_session_id : option str;
  ar_ingress_id : option str; ar_flow_id : option str; ar_username : option str; ar_target_host : option str; ar_target_port : option Z;
  ar_requested_host : option str; ar_requested_port : option Z; ar_ingress_mode : option str; ar_origin_id : option str;
  ar_sniffed_host : option str; ar_sniff_protocol : option str; ar_sniff_outcome : option str; ar_effective_policy_host : option str;
  ar_policy_id : option str; ar_matched_route : option Z; ar_decision : option str; ar_egress : option str; ar_chain_member : option str;
  ar_attempts : option Z; ar_result : str; ar_failure_stage : option str; ar_message : option str; ar_snapshot_version : Z;
  ar_duration_ms : Z; ar_bytes_up : Z; ar_bytes_down : Z
}.
Record AccessLogStatsRecord := mkStatsRecord {
  as_timestamp : Z; as_node_id : str; as_kind : str; as_listener : str; as_active : Z; as_bytes_up_total : Z; as_bytes_down_total : Z;
  as_bytes_up_delta : Z; as_bytes_down_delta : Z; as_sniff : SniffCounterSet
}.
Record EgressStatsRecord := mkEgressRecord {
  ae_timestamp : Z; ae_node_id : str; ae_kind : str; ae_egress : str; ae_active : Z; ae_bytes_up_total : Z; ae_bytes_down_total : Z;
  ae_bytes_up_delta : Z; ae_bytes_down_delta : Z
}.

Definition result_str (r : TraceResult) : str := match r with TraceOk => lit "ok" | TraceError => lit "error" end.
(** [from_candidate_with_ingress]; [now] is [unix_ts()]. *)
Definition from_candidate_with_ingress (now : Z) (node_id : str) (c : TraceCandidate) (bytes_up bytes_down : Z)
    (ingress : option IngressMetadata) : AccessLogRecord :=
  let traffic := tc_traffic c in
  let sniff := match traffic ≫= ti_sniff with Some s => Some s | None => tc_sniff c end in
  {| ar_timestamp := now; ar_node_id := node_id; ar_kind := lit "connection"; ar_listener := tc_listener c; ar_protocol := tc_protocol c;
     ar_client_addr := tc_client_addr c; ar_client_addr_source := (fun _ => lit "reverse_ingress") <$> ingress;
     ar_relay_addr := (fun i => display_socket (im_relay_addr i)) <$> ingress; ar_relay_instance_id := im_relay_instance_id <$> ingress;
     ar_tunnel_session_id := im_tunnel_session_id <$> ingress; ar_ingress_id := ingress ≫= im_ingress_id; ar_flow_id := ingress ≫= im_flow_id;
     ar_username := tc_username c;
     ar_target_host := match ti_dial_host <$> traffic with Some h => Some h | None => tc_target_host c end;
     ar_target_port := match ti_dial_port <$> traffic with Some p => Some p | None => tc_target_port c end;
     ar_requested_host := ti_requested_host <$> traffic; ar_requested_port := ti_requested_port <$> traffic;
     ar_ingress_mode := match traffic ≫= ti_ingress_mode with
                        | Some m => Some m
                        | None => if eq_ignore_ascii_case (tc_protocol c) (lit "sni") then Some (lit "sni") else None
                        end;
     ar_origin_id := traffic ≫= ti_origin_id; ar_sniffed_host := sniff ≫= obs_host;
     ar_sniff_protocol := sniff ≫= (fun s => sniff_protocol_str <$> obs_protocol s); ar_sniff_outcome := (fun s => sniff_outcome_str (outcome s)) <$> sniff;
     ar_effective_policy_host := (fun t => pa_effective_policy_host (ti_policy t)) <$> traffic;
     ar_policy_id := traffic ≫= (fun t => pa_policy_id (ti_policy t)); ar_matched_route := traffic ≫= (fun t => pa_matched_route (ti_policy t));
     ar_decision := tc_decision c; ar_egress := tc_egress c; ar_chain_member := tc_chain_member c; ar_attempts := tc_attempts c;
     ar_result := result_str (tc_result c); ar_failure_stage := tc_failure_stage c; ar_message := tc_message c;
     ar_snapshot_version := tc_snapshot_version c; ar_duration_ms := tc_duration_ms c; ar_bytes_up := bytes_up; ar_bytes_down := bytes_down |}.

(** serde_json's texts of the three records *)
Class RecordJson := { json_record : AccessLogRecord -> str; json_stats : AccessLogStatsRecord -> str; json_egress : EgressStatsRecord -> str }.
(** A line of the file, its JSON text and its bytes ([to_json_line]). *)
Inductive LogLine := RecordLine (r : AccessLogRecord) | StatsLine (r : AccessLogStatsRecord) | EgressLine (r : EgressStatsRecord).
Definition line_json {J : RecordJson} (l : LogLine) : str :=
  match l with RecordLine r => json_record r | StatsLine r => json_stats r | EgressLine r => json_egress r end.
Definition to_json_line {J : RecordJson} (l : LogLine) : list Z := line_json l ++ [nl].

(** ** The gauge lines *)

(** [bytes_delta_since]: the delta and the new baseline *)
Definition bytes_delta_since (current last_seen : Z) : Z * Z := (Z.max 0 (current - last_seen), current).
(** [dropped_delta_since] *)
Definition dropped_delta_since (current last_seen : Z) : option Z * Z :=
  if last_seen <? current then (Some (current - last_seen), current) else (None, last_seen).
Abbreviation Baselines := (gmap str (Z * Z)).
(** One row against its baseline: the deltas, and the baselines advanced. *)
Definition advance (last : Baselines) (row : StatsRow) : (Z * Z) * Baselines :=
  let '(last_up, last_down) := default (0, 0) (last !! ro_name row) in
  let '(up, last_up) := bytes_delta_since (ro_bytes_up_total row) last_up in
  let '(down, last_down) := bytes_delta_since (ro_bytes_down_total row) last_down in
  ((up, down), <[ro_name row := (last_up, last_down)]> last).
Fixpoint build_rows {A} (line : StatsRow -> Z * Z -> A) (last : Baselines) (rows : list StatsRow) : list A * Baselines :=
  match rows with
  | [] => ([], last)
  | row :: rows =>
      let '(deltas, last) := advance last row in
      let '(lines, last) := build_rows line last rows in
      (line row deltas :: lines, last)
  end.
(** [build_stats_records] *)
Definition listener_record (now : Z) (node_id : str) (s : TrafficStats) (row : StatsRow) (deltas : Z * Z) : AccessLogStatsRecord :=
  mkStatsRecord now node_id (lit "stats") (ro_name row) (ro_active row) (ro_bytes_up_total row) (ro_bytes_down_total row)
    deltas.1 deltas.2 (sniff_entry (ts_sniff s) (ro_name row)).
Definition egress_record (now : Z) (node_id : str) (row : StatsRow) (deltas : Z * Z) : EgressStatsRecord :=
  mkEgressRecord now node_id (lit "egress_stats") (ro_name row) (ro_active row) (ro_bytes_up_total row) (ro_bytes_down_total row) deltas.1 deltas.2.
Definition build_stats_records (now : Z) (node_id : str) (s : TrafficStats) (last_bytes last_egress : Baselines)
    : (list AccessLogStatsRecord * Baselines) * (list EgressStatsRecord * Baselines) :=
  (build_rows (listener_record now node_id s) last_bytes (listener_rows s), build_rows (egress_record now node_id) last_egress (egress_rows s)).

(** ** Retention *)

(** chrono's [%Y-%m-%d] dates, as a number of days. *)
Class FileDates := file_date : str -> option Z.
(** Deleting rotated files: a listing gives each entry's name ([None] when it is
    not text) or fails; [removable]: whether its removal succeeds. *)
Fixpoint sweep_entries {FD : FileDates} (dot_prefix : str) (retention_days today : Z) (removable : str -> bool) (removed : list str)
    (entries : list (result unit (option str))) : result unit (list str) * list str :=
  match entries with
  | [] => (Ok removed, removed)
  | Err e :: _ => (Err e, removed)
  | Ok name :: entries =>
      let expired := name ← name;
                     date_part ← strip_prefix dot_prefix name;
                     date ← file_date date_part;
                     if retention_days <? today - date then Some name else None in
      let removed := match expired with Some name => if removable name then removed ++ [name] else removed | None => removed end in
      sweep_entries dot_prefix retention_days today removable removed entries
  end.
(** [sweep_expired_logs], with the files actually removed; a missing directory
    ([Ok None]) is empty. *)
Definition sweep_expired_logs {FD : FileDates} (file_prefix : str) (retention_days today : Z) (removable : str -> bool)
    (dir : result unit (option (list (result unit (option str))))) : result unit (list str) * list str :=
  match dir with
  | Err e => (Err e, [])
  | Ok None => (Ok [], [])
  | Ok (Some entries) => sweep_entries (file_prefix ++ [dot]) retention_days today removable [] entries
  end.

(** ** Syslog *)

Inductive SyslogProtocol := Udp | Tcp.
Inductive SyslogError := NoAddress | BadProtocol | BadFacility.
(** [SyslogProtocol::parse] *)
Definition syslog_protocol_parse (s : str) : result SyslogError SyslogProtocol :=
  let s := to_ascii_lowercase (trim s) in
  if str_eqb s (lit "udp") then Ok Udp else if str_eqb s (lit "tcp") then Ok Tcp else Err BadProtocol.
Definition facilities : list (string * Z) :=
  [("kern", 0); ("user", 1); ("mail", 2); ("daemon", 3); ("auth", 4); ("syslog", 5); ("lpr", 6); ("news", 7); ("uucp", 8); ("cron", 9);
   ("authpriv", 10); ("ftp", 11); ("local0", 16); ("local1", 17); ("local2", 18); ("local3", 19); ("local4", 20); ("local5", 21);
   ("local6", 22); ("local7", 23)]%string.
Definition facility_code (name : str) : result SyslogError Z :=
  ok_or (snd <$> List.find (fun f => str_eqb (to_ascii_lowercase (trim name)) (lit (fst f))) facilities) BadFacility.

Record SyslogConfig := mkSyslogConfig { sy_enable : bool; sy_address : str; sy_protocol : str; sy_facility : str; sy_tag : str }.
(** [SyslogSink]; the UDP socket is bound, the TCP stream connected. *)
Record SyslogSink := mkSink {
  sl_address : str; sl_protocol : SyslogProtocol; sl_facility : Z; sl_tag : str; sl_node_id : str; sl_udp : bool; sl_tcp : bool
}.
(** [SyslogSink::new] *)
Definition syslog_sink_new (cfg : SyslogConfig) (node_id : str) : result SyslogError SyslogSink :=
  ensure (negb (is_empty (trim (sy_address cfg)))) NoAddress ;;
  protocol ← syslog_protocol_parse (sy_protocol cfg);
  facility ← facility_code (sy_facility cfg);
  Ok (mkSink (sy_address cfg) protocol facility (sy_tag cfg) node_id false false).
Definition rfc3164_priority (facility severity : Z) : Z := wrap 8 (wrap 8 (facility * 8) + severity).
(** [timestamp]: chrono's local [%b %e %T] *)
Definition rfc3164_line (timestamp : str) (facility : Z) (node_id tag body : str) : str :=
  [60] ++ fmt_dec (rfc3164_priority facility SYSLOG_SEVERITY_INFORMATIONAL) ++ [62] ++ timestamp ++ [32] ++ node_id ++ [32] ++ tag ++ lit ": " ++ body.
(** RFC 6587 octet counting *)
Definition framed (line : str) : list Z := fmt_dec (Z.of_nat (length line)) ++ [32] ++ line.
(** What the network does to one send: whether a bind or connect succeeds, and
    whether the datagram or the whole write goes through in time. *)
Record SyslogNet := mkSyslogNet { sn_opens : bool; sn_writes : bool }.
Definition set_udp (b : bool) (k : SyslogSink) : SyslogSink := mkSink (sl_address k) (sl_protocol k) (sl_facility k) (sl_tag k) (sl_node_id k) b (sl_tcp k).
Definition set_tcp (b : bool) (k : SyslogSink) : SyslogSink := mkSink (sl_address k) (sl_protocol k) (sl_facility k) (sl_tag k) (sl_node_id k) (sl_udp k) b.
(** [send_udp], [send_tcp]: the bytes handed over whole, if any *)
Definition send_udp (net : SyslogNet) (line : str) (k : SyslogSink) : option (list Z) * SyslogSink :=
  if sl_udp k || sn_opens net then (if sn_writes net then Some line else None, set_udp true k) else (None, k).
Definition send_tcp (net : SyslogNet) (line : str) (k : SyslogSink) : option (list Z) * SyslogSink :=
  if sl_tcp k || sn_opens net then
    if sn_writes net then (Some (framed line), set_tcp true k) else (None, set_tcp false k)
  else (None, k).
Definition send_json (timestamp : str) (net : SyslogNet) (body : str) (k : SyslogSink) : option (list Z) * SyslogSink :=
  let line := rfc3164_line timestamp (sl_facility k) (sl_node_id k) (sl_tag k) body in
  match sl_protocol k with Udp => send_udp net line k | Tcp => send_tcp net line k end.

(** ** The logger and its writer *)

Section Logger.
Context {J : RecordJson} {FD : FileDates}.

Record LogConfig := mkLogConfig { lc_file_prefix : str; lc_retention_days : Z; lc_node_id : str; lc_capacity : nat }.
(** The channel and the drop counter, shared with the handlers; the writer's
    baselines; its syslog sink; whether it has ended. *)
Record LogState := mkLogState {
  lg_queue : list AccessLogRecord; lg_dropped : Z; lg_last_dropped : Z; lg_last_bytes : Baselines; lg_last_egress : Baselines;
  lg_syslog : option SyslogSink; lg_ended : bool
}.
Inductive LogEvent :=
| Submit (r : AccessLogRecord)
| TakeRecord (timestamp : str) (net : SyslogNet)
| RetentionTick (today : Z) (removable : str -> bool) (dir : result unit (option (list (result unit (option str)))))
| DropCheckTick
| StatsTick (now : Z) (timestamp : str) (s : TrafficStats) (nets : nat -> SyslogNet)
| SendersGone.
Inductive LogOutput :=
| FileLine (l : LogLine)
| Syslogged (bytes : list Z)
| Removed (files : list str)
| DropsWarned (delta total : Z).

(** [spawn] *)
Definition log_spawn (cfg : LogConfig) (syslog : SyslogConfig) : result SyslogError LogState :=
  sink ← (if sy_enable syslog then sink ← syslog_sink_new syslog (lc_node_id cfg); Ok (Some sink) else Ok None);
  Ok (mkLogState [] 0 0 ∅ ∅ sink false).
(** [record_with_ingress]'s [try_send]; the channel holds at least one. *)
Definition log_submit (cfg : LogConfig) (r : AccessLogRecord) (w : LogState) : LogState :=
  if negb (lg_ended w) && (length (lg_queue w) <? Nat.max (lc_capacity cfg) 1)%nat
  then mkLogState (lg_queue w ++ [r]) (lg_dropped w) (lg_last_dropped w) (lg_last_bytes w) (lg_last_egress w) (lg_syslog w) (lg_ended w)
  else mkLogState (lg_queue w) (wrap 64 (lg_dropped w + 1)) (lg_last_dropped w) (lg_last_bytes w) (lg_last_egress w) (lg_syslog w) (lg_ended w).
(** A line to the file ([to_json_line]), then its text to the collector *)
Definition emit (timestamp : str) (net : SyslogNet) (l : LogLine) (sink : option SyslogSink) : list LogOutput * option SyslogSink :=
  match sink with
  | None => ([FileLine l], None)
  | Some k =>
      let '(sent, k) := send_json timestamp net (line_json l) k in
      ([FileLine l] ++ match sent with Some b => [Syslogged b] | None => [] end, Some k)
  end.
Fixpoint emit_all (timestamp : str) (nets : nat -> SyslogNet) (i : nat) (ls : list LogLine) (sink : option SyslogSink)
    : list LogOutput * option SyslogSink :=
  match ls with
  | [] => ([], sink)
  | l :: ls =>
      let '(out, sink) := emit timestamp (nets i) l sink in
      let '(outs, sink) := emit_all timestamp nets (S i) ls sink in
      (out ++ outs, sink)
  end.
(** One turn of [run_writer]'s loop, or a submission. *)
Definition log_step (cfg : LogConfig) (w : LogState) (e : LogEvent) : option (LogState * list LogOutput) :=
  match e with
  | Submit r => Some (log_submit cfg r w, [])
  | TakeRecord timestamp net =>
      match lg_queue w with
      | r :: queue =>
          if lg_ended w then None
          else
            let '(out, sink) := emit timestamp net (RecordLine r) (lg_syslog w) in
            Some (mkLogState queue (lg_dropped w) (lg_last_dropped w) (lg_last_bytes w) (lg_last_egress w) sink false, out)
      | [] => None
      end
  | RetentionTick today removable dir =>
      if lg_ended w then None
      else Some (w, [Removed (sweep_expired_logs (lc_file_prefix cfg) (lc_retention_days cfg) today removable dir).2])
  | DropCheckTick =>
      if lg_ended w then None
      else
        let '(delta, last) := dropped_delta_since (lg_dropped w) (lg_last_dropped w) in
        Some (mkLogState (lg_queue w) (lg_dropped w) last (lg_last_bytes w) (lg_last_egress w) (lg_syslog w) false,
              match delta with Some d => [DropsWarned d (lg_dropped w)] | None => [] end)
  | StatsTick now timestamp s nets =>
      if lg_ended w then None
      else
        let '((listeners, last), (egresses, last_egress)) := build_stats_records now (lc_node_id cfg) s (lg_last_bytes w) (lg_last_egress w) in
        let '(outs, sink) := emit_all timestamp nets 0 (map StatsLine listeners ++ map EgressLine egresses) (lg_syslog w) in
        Some (mkLogState (lg_queue w) (lg_dropped w) (lg_last_dropped w) last last_egress sink false, outs)
  | SendersGone =>
      match lg_queue w with
      | [] => Some (mkLogState [] (lg_dropped w) (lg_last_dropped w) (lg_last_bytes w) (lg_last_egress w) (lg_syslog w) true, [])
      | _ => None
      end
  end.
Fixpoint log_run (cfg : LogConfig) (w : LogState) (es : list LogEvent) : option (LogState * list LogOutput) :=
  match es with
  | [] => Some (w, [])
  | e :: es => '(w, out) ← log_step cfg w e; '(w, outs) ← log_run cfg w es; Some (w, out ++ outs)
  end.
End Logger.

(** * Nothing is lost unseen, and the deltas add up

    Every record is written once, in order, or waits, or is counted as dropped;
    each gauge line's deltas are against the line before; retention deletes
    exactly the expired files; syslog frames can be told apart. *)

(** ** Deltas *)

(** Totals and deltas, each delta the growth since the total before, if any. *)
Fixpoint chained (last : Z) (l : list (Z * Z)) : Prop :=
  match l with [] => True | (t, d) :: l => d = Z.max 0 (t - last) /\ chained t l end.
Definition final (last : Z) (l : list (Z * Z)) : Z := List.last (map fst l) last.
Lemma final_cons last t d l : final last ((t, d) :: l) = final t l.
Proof. unfold final. cbn [map fst]. destruct l as [|[t' d'] l]; [done|]. cbn [map fst]. revert t'. induction (map fst l) as [|x y IH]; intros t'; [done|]. apply (IH x). Qed.
Lemma chained_app last a b : chained last a -> chained (final last a) b -> chained last (a ++ b) /\ final last (a ++ b) = final (final last a) b.
Proof.
  revert last. induction a as [|[t d] a IH]; intros last Ha Hb; [done|]. destruct Ha as [-> Ha]. rewrite final_cons in Hb |- *.
  cbn [app chained]. rewrite final_cons. destruct (IH t Ha Hb) as [H1 H2]. done.
Qed.
(** Totals that only grow: the deltas add up to their growth. *)
Fixpoint growing (last : Z) (l : list (Z * Z)) : Prop := match l with [] => True | (t, _) :: l => last <= t /\ growing t l end.
Lemma chained_sum last l : chained last l -> growing last l -> foldr (fun td n => snd td + n) 0 l = final last l - last.
Proof.
  revert last. induction l as [|[t d] l IH]; intros last Hc Hg; [unfold final; cbn; lia|]. destruct Hc as [-> Hc], Hg as [Hl Hg].
  rewrite final_cons. cbn [foldr snd]. rewrite (IH t Hc Hg). lia.
Qed.

(** The line of a row, as a total and a delta: of a listener or an egress, up or down. *)
Inductive Series := ListenerUp (name : str) | ListenerDown (name : str) | EgressUp (name : str) | EgressDown (name : str).
Definition point (s : Series) (l : LogLine) : option (Z * Z) :=
  match s, l with
  | ListenerUp n, StatsLine r => if str_eqb (as_listener r) n then Some (as_bytes_up_total r, as_bytes_up_delta r) else None
  | ListenerDown n, StatsLine r => if str_eqb (as_listener r) n then Some (as_bytes_down_total r, as_bytes_down_delta r) else None
  | EgressUp n, EgressLine r => if str_eqb (ae_egress r) n then Some (ae_bytes_up_total r, ae_bytes_up_delta r) else None
  | EgressDown n, EgressLine r => if str_eqb (ae_egress r) n then Some (ae_bytes_down_total r, ae_bytes_down_delta r) else None
  | _, _ => None
  end.
Definition baseline (s : Series) (last_bytes last_egress : Baselines) : Z :=
  match s with
  | ListenerUp n => (default (0, 0) (last_bytes !! n)).1
  | ListenerDown n => (default (0, 0) (last_bytes !! n)).2
  | EgressUp n => (default (0, 0) (last_egress !! n)).1
  | EgressDown n => (default (0, 0) (last_egress !! n)).2
  end.
(** One component of the rows of one name, through [build_rows]. *)
Lemma build_rows_chained {A} (line : StatsRow -> Z * Z -> A) (view : A -> option (Z * Z)) (sel : Z * Z -> Z) (total : StatsRow -> Z) n :
  (forall row d, view (line row d) = if str_eqb (ro_name row) n then Some (total row, sel d) else None) ->
  (forall row (last : Baselines), ro_name row = n ->
     sel (advance last row).1 = Z.max 0 (total row - sel (default (0, 0) (last !! n))) /\ sel (default (0, 0) ((advance last row).2 !! n)) = total row) ->
  forall rows last, let '(lines, last') := build_rows line last rows in
    chained (sel (default (0, 0) (last !! n))) (omap view lines) /\
    final (sel (default (0, 0) (last !! n))) (omap view lines) = sel (default (0, 0) (last' !! n)).
Proof.
  intros Hv Ha rows. induction rows as [|row rows IH]; intros last; [done|]. cbn [build_rows].
  destruct (advance last row) as [d last1] eqn:Ead. specialize (IH last1). destruct (build_rows line last1 rows) as [lines last2].
  change (omap view (line row d :: lines)) with (match view (line row d) with Some x => x :: omap view lines | None => omap view lines end).
  rewrite Hv. unfold str_eqb. destruct (bool_decide_reflect (ro_name row = n)) as [E|E].
  - destruct (Ha row last E) as [H1 H2]. rewrite Ead in H1, H2. cbn in H1, H2. rewrite final_cons. cbn [chained]. rewrite H2 in IH. destruct IH. done.
  - replace (last !! n) with (last1 !! n); [done|]. unfold advance in Ead. destruct (default (0, 0) (last !! ro_name row)). cbn in Ead.
    injection Ead as _ <-. by rewrite lookup_insert_ne.
Qed.
Lemma advance_up row last n : ro_name row = n ->
  (advance last row).1.1 = Z.max 0 (ro_bytes_up_total row - (default (0, 0) (last !! n)).1) /\ (default (0, 0) ((advance last row).2 !! n)).1 = ro_bytes_up_total row.
Proof. intros <-. unfold advance. destruct (default (0, 0) (last !! ro_name row)). cbn. by rewrite lookup_insert_eq. Qed.
Lemma advance_down row last n : ro_name row = n ->
  (advance last row).1.2 = Z.max 0 (ro_bytes_down_total row - (default (0, 0) (last !! n)).2) /\ (default (0, 0) ((advance last row).2 !! n)).2 = ro_bytes_down_total row.
Proof. intros <-. unfold advance. destruct (default (0, 0) (last !! ro_name row)). cbn. by rewrite lookup_insert_eq. Qed.

(** ** A run of the logger *)

Section Runs.
Context {J : RecordJson} {FD : FileDates}.
Context (cfg : LogConfig).

Definition lines_of (outs : list LogOutput) : list LogLine := omap (fun o => match o with FileLine l => Some l | _ => None end) outs.
Definition written (outs : list LogOutput) : list AccessLogRecord := omap (fun l => match l with RecordLine r => Some r | _ => None end) (lines_of outs).
Definition submitted (es : list LogEvent) : list AccessLogRecord := omap (fun e => match e with Submit r => Some r | _ => None end) es.
Definition warned (outs : list LogOutput) : Z := foldr (fun o n => match o with DropsWarned d _ => d + n | _ => n end) 0 outs.
Definition series (s : Series) (outs : list LogOutput) : list (Z * Z) := omap (point s) (lines_of outs).

Record log_inv (es : list LogEvent) (outs : list LogOutput) (w : LogState) : Prop := {
  li_kept : exists kept, kept `sublist_of` submitted es /\ kept = written outs ++ lg_queue w /\
    lg_dropped w = wrap 64 (Z.of_nat (length (submitted es)) - Z.of_nat (length kept));
  li_capacity : (length (lg_queue w) <= Nat.max (lc_capacity cfg) 1)%nat;
  li_warned : Z.of_nat (length (submitted es)) < 2 ^ 64 -> warned outs = lg_last_dropped w /\ lg_last_dropped w <= lg_dropped w;
  li_series : forall s, chained 0 (series s outs) /\ final 0 (series s outs) = baseline s (lg_last_bytes w) (lg_last_egress w);
}.

Lemma warned_app a b : warned (a ++ b) = warned a + warned b.
Proof. unfold warned. induction a as [|o a IH]; [done|]. destruct o; cbn; lia. Qed.
Lemma emit_lines ts net l sink : lines_of (emit ts net l sink).1 = [l] /\ warned (emit ts net l sink).1 = 0.
Proof. unfold emit. destruct sink as [k|]; [|done]. destruct (send_json _ _ _ _) as [[b|] k']; done. Qed.
Lemma emit_all_lines ts nets ls : forall i sink, lines_of (emit_all ts nets i ls sink).1 = ls /\ warned (emit_all ts nets i ls sink).1 = 0.
Proof.
  induction ls as [|l ls IH]; intros i sink; [done|]. cbn [emit_all]. destruct (emit_lines ts (nets i) l sink) as [E1 W1].
  destruct (emit ts (nets i) l sink) as [out sink1]. destruct (IH (S i) sink1) as [E2 W2]. destruct (emit_all ts nets (S i) ls sink1) as [outs sink2].
  cbn [fst snd] in *. unfold lines_of in *. by rewrite omap_app, E1, E2, warned_app, W1, W2.
Qed.
(** A step that submits, takes and warns nothing *)
Lemma inv_quiet es outs w w' e out :
  log_inv es outs w -> (forall r, e <> Submit r) -> lg_queue w' = lg_queue w -> lg_dropped w' = lg_dropped w -> lg_last_dropped w' = lg_last_dropped w ->
  written out = [] -> warned out = 0 ->
  (forall s, chained (baseline s (lg_last_bytes w) (lg_last_egress w)) (series s out) /\
     final (baseline s (lg_last_bytes w) (lg_last_egress w)) (series s out) = baseline s (lg_last_bytes w') (lg_last_egress w')) ->
  log_inv (es ++ [e]) (outs ++ out) w'.
Proof.
  intros [Hk Hc Hw Hs] He Eq Ed El Ew Ewn Hser.
  assert (Es : submitted (es ++ [e]) = submitted es).
  { unfold submitted. rewrite omap_app. destruct e; try (cbn; by rewrite app_nil_r). by destruct (He r). }
  assert (Eo : written (outs ++ out) = written outs) by (unfold written, lines_of in *; by rewrite !omap_app, Ew, app_nil_r).
  split; rewrite ?Es, ?Eo, ?Eq, ?Ed, ?El, ?warned_app, ?Ewn, ?Z.add_0_r; [done..|]. intros s. destruct (Hs s) as [H1 H2].
  unfold series, lines_of in *. rewrite !omap_app. destruct (Hser s) as [H3 H4]. rewrite <- H2 in H3, H4.
  destruct (chained_app 0 _ _ H1 H3) as [H5 H6]. split; [exact H5|]. by rewrite H6, H4.
Qed.
Lemma submit_inv es outs w r : log_inv es outs w -> log_inv (es ++ [Submit r]) outs (log_submit cfg r w).
Proof.
  intros [(kept & Hsub & Ek & Ed) Hc Hw Hs].
  assert (Es : submitted (es ++ [Submit r]) = submitted es ++ [r]) by (unfold submitted; by rewrite omap_app).
  pose proof (sublist_length _ _ Hsub) as Hlen. unfold log_submit.
  destruct (negb (lg_ended w) && (length (lg_queue w) <? Nat.max (lc_capacity cfg) 1)%nat) eqn:Eb; (split; cbn [lg_queue lg_dropped lg_last_dropped lg_last_bytes lg_last_egress]; [| | |exact Hs]); rewrite ?Es.
  - exists (kept ++ [r]). split; [by apply sublist_app|]. split; [by rewrite Ek, app_assoc|]. rewrite Ed, !length_app. f_equal. cbn [length]. lia.
  - apply andb_true_iff in Eb as [_ Hl%Nat.ltb_lt]. rewrite length_app. cbn [length]. lia.
  - rewrite length_app. cbn [length]. intros Hn. apply Hw. lia.
  - exists kept. split; [by apply sublist_inserts_r|]. split; [done|]. rewrite Ed, length_app. cbn [length]. unfold wrap. rewrite Zplus_mod_idemp_l. f_equal. lia.
  - done.
  - rewrite length_app. cbn [length]. intros Hn. destruct (Hw ltac:(lia)) as [H1 H2]. split; [done|]. rewrite Ed in H2 |- *.
    set (x := Z.of_nat (length (submitted es)) - Z.of_nat (length kept)) in *. assert (Hx : 0 <= x < 2 ^ 64 - 1) by lia.
    rewrite (wrap_fits 64 x) in * by (unfold fits; lia). rewrite (wrap_fits 64 (x + 1)) by (unfold fits; lia). lia.
Qed.
Lemma take_inv es outs w r queue ts net sink :
  log_inv es outs w -> lg_queue w = r :: queue ->
  log_inv (es ++ [TakeRecord ts net]) (outs ++ (emit ts net (RecordLine r) sink).1)
    (mkLogState queue (lg_dropped w) (lg_last_dropped w) (lg_last_bytes w) (lg_last_egress w) (emit ts net (RecordLine r) sink).2 false).
Proof.
  intros [(kept & Hsub & Ek & Ed) Hc Hw Hs] Eq. destruct (emit_lines ts net (RecordLine r) sink) as [El Ewn]. set (out := (emit _ _ _ _).1) in *.
  assert (Es : submitted (es ++ [TakeRecord ts net]) = submitted es) by (unfold submitted; rewrite omap_app; cbn; by rewrite app_nil_r).
  split; cbn [lg_queue lg_dropped lg_last_dropped lg_last_bytes lg_last_egress]; rewrite ?Es.
  - exists kept. split; [done|]. split; [|done]. unfold written, lines_of in *. rewrite omap_app, El, omap_app. cbn.
    by rewrite Ek, Eq, <- app_assoc.
  - rewrite Eq in Hc. cbn in Hc. lia.
  - by rewrite warned_app, Ewn, Z.add_0_r.
  - intros s. unfold series, lines_of in *. rewrite omap_app, El, omap_app. destruct s; cbn; rewrite app_nil_r; apply Hs.
Qed.

Lemma nothing_chained b : chained b [] /\ final b [] = b.
Proof. done. Qed.
Lemma stats_series now s last last_egress sr :
  let '((listeners, last'), (egresses, last_egress')) := build_stats_records now (lc_node_id cfg) s last last_egress in
  let pts := omap (point sr) (map StatsLine listeners ++ map EgressLine egresses) in
  chained (baseline sr last last_egress) pts /\ final (baseline sr last last_egress) pts = baseline sr last' last_egress'.
Proof using.
  unfold build_stats_records.
  destruct (build_rows (listener_record now (lc_node_id cfg) s) last (listener_rows s)) as [ls last'] eqn:El.
  destruct (build_rows (egress_record now (lc_node_id cfg)) last_egress (egress_rows s)) as [gs last_egress'] eqn:Ee.
  assert (Hmap : forall A (f : A -> LogLine) l, omap (point sr) (map f l) = omap (fun x => point sr (f x)) l).
  { intros A f l. induction l as [|x l IH]; [done|]. cbn. by rewrite IH. }
  assert (Hnone : forall A (g : A -> option (Z * Z)) l, (forall x, g x = None) -> omap g l = []).
  { intros A g l H. induction l as [|x l IH]; [done|]. cbn. by rewrite H. }
  cbv zeta. rewrite omap_app, !Hmap. destruct sr as [n|n|n|n]; cbn [baseline].
  - rewrite (Hnone _ _ gs) by done. rewrite app_nil_r.
    pose proof (build_rows_chained (listener_record now (lc_node_id cfg) s) (fun r => point (ListenerUp n) (StatsLine r)) fst ro_bytes_up_total n
      (fun _ _ => eq_refl) (fun row l => advance_up row l n) (listener_rows s) last) as H. by rewrite El in H.
  - rewrite (Hnone _ _ gs) by done. rewrite app_nil_r.
    pose proof (build_rows_chained (listener_record now (lc_node_id cfg) s) (fun r => point (ListenerDown n) (StatsLine r)) snd ro_bytes_down_total n
      (fun _ _ => eq_refl) (fun row l => advance_down row l n) (listener_rows s) last) as H. by rewrite El in H.
  - rewrite (Hnone _ _ ls) by done. cbn [app].
    pose proof (build_rows_chained (egress_record now (lc_node_id cfg)) (fun r => point (EgressUp n) (EgressLine r)) fst ro_bytes_up_total n
      (fun _ _ => eq_refl) (fun row l => advance_up row l n) (egress_rows s) last_egress) as H. by rewrite Ee in H.
  - rewrite (Hnone _ _ ls) by done. cbn [app].
    pose proof (build_rows_chained (egress_record now (lc_node_id cfg)) (fun r => point (EgressDown n) (EgressLine r)) snd ro_bytes_down_total n
      (fun _ _ => eq_refl) (fun row l => advance_down row l n) (egress_rows s) last_egress) as H. by rewrite Ee in H.
Qed.
Lemma log_step_inv es outs w e w' out : log_inv es outs w -> log_step cfg w e = Some (w', out) -> log_inv (es ++ [e]) (outs ++ out) w'.
Proof.
  intros I H. destruct e as [r|ts net|today rm dir| |now ts s nets|]; cbn [log_step] in H.
  - injection H as <- <-. rewrite app_nil_r. by apply submit_inv.
  - destruct (lg_queue w) as [|r queue] eqn:Eq; [done|]. destruct (lg_ended w); [done|].
    pose proof (take_inv es outs w r queue ts net (lg_syslog w) I Eq) as Ht. destruct (emit _ _ _ _) as [o k]. by injection H as <- <-.
  - destruct (lg_ended w); [done|]. injection H as <- <-. by apply (inv_quiet es outs w).
  - destruct (lg_ended w); [done|]. unfold dropped_delta_since in H. destruct (Z.ltb_spec (lg_last_dropped w) (lg_dropped w)) as [Hl|Hl]; injection H as <- <-.
    + assert (I' : log_inv es (outs ++ [DropsWarned (lg_dropped w - lg_last_dropped w) (lg_dropped w)])
        (mkLogState (lg_queue w) (lg_dropped w) (lg_dropped w) (lg_last_bytes w) (lg_last_egress w) (lg_syslog w) false)).
      { destruct I as [Hk Hc Hw Hs].
        assert (El : forall x : LogOutput, lines_of [x] = [] -> lines_of (outs ++ [x]) = lines_of outs) by (intros x Ex; unfold lines_of in *; by rewrite omap_app, Ex, app_nil_r).
        split; unfold written, series; rewrite ?El by done; [done|done| |exact Hs]. intros Hn. rewrite warned_app. cbn. destruct (Hw Hn) as [-> _]. lia. }
      rewrite <- (app_nil_r (outs ++ _)). by apply (inv_quiet es _ _ _ DropCheckTick [] I').
    + by apply (inv_quiet es outs w).
  - destruct (lg_ended w); [done|]. pose proof (stats_series now s (lg_last_bytes w) (lg_last_egress w)) as Hser.
    destruct (build_stats_records now (lc_node_id cfg) s (lg_last_bytes w) (lg_last_egress w)) as [[ls last'] [gs last_egress']].
    destruct (emit_all_lines ts nets (map StatsLine ls ++ map EgressLine gs) 0 (lg_syslog w)) as [El Ew].
    destruct (emit_all _ _ _ _ _) as [outs' k]. injection H as <- <-. cbn [fst] in El, Ew.
    apply (inv_quiet es outs w); try done; [|intros sr; unfold series; rewrite El; exact (Hser sr)].
    unfold written. rewrite El, omap_app. clear. induction ls as [|x ls IH]; [|exact IH]. induction gs as [|x gs IH]; [done|exact IH].
  - destruct (lg_queue w) eqn:Eq; [|done]. injection H as <- <-. by apply (inv_quiet es outs w).
Qed.
Lemma log_run_inv es0 outs0 w es w' outs : log_inv es0 outs0 w -> log_run cfg w es = Some (w', outs) -> log_inv (es0 ++ es) (outs0 ++ outs) w'.
Proof.
  revert es0 outs0 w outs. induction es as [|e es IH]; intros es0 outs0 w outs I H; cbn in H; [injection H as <- <-; by rewrite !app_nil_r|].
  destruct (log_step cfg w e) as [[w1 o1]|] eqn:E1; [|done]. cbn in H. destruct (log_run cfg w1 es) as [[w2 o2]|] eqn:E2; [|done].
  cbn in H. injection H as <- <-. apply (log_step_inv _ _ _ _ _ _ I) in E1. apply (IH _ _ _ _ E1) in E2. by rewrite <- !app_assoc in E2.
Qed.
Lemma spawned_inv syslog w : log_spawn cfg syslog = Ok w -> log_inv [] [] w.
Proof.
  unfold log_spawn. destruct (if sy_enable syslog then _ else _) as [sink|]; [|done]. intros [= <-].
  split; [exists []; by split_and!|cbn; lia|cbn; intros _; split; [done|lia]|]. intros s. split; [done|]. by destruct s.
Qed.

End Runs.

(** ** Retention *)

Section Retention.
Context {FD : FileDates}.
(** A rotated file of this log that is too old *)
Definition expired_file (prefix : str) (retention_days today : Z) (name : str) : Prop :=
  exists date_part date, name = prefix ++ [dot] ++ date_part /\ file_date date_part = Some date /\ retention_days < today - date.
(** A listing that ends well: exactly the expired files that can be removed are. *)
Lemma retention_exact prefix retention_days today removable names :
  let '(r, removed) := sweep_expired_logs prefix retention_days today removable (Ok (Some (map Ok names))) in
  r = Ok removed /\ forall name, name ∈ removed <-> Some name ∈ names /\ expired_file prefix retention_days today name /\ removable name = true.
Proof.
  unfold sweep_expired_logs.
  assert (H : forall removed, let '(r, removed') := sweep_entries (prefix ++ [dot]) retention_days today removable removed (map Ok names) in
    r = Ok removed' /\ forall name, name ∈ removed' <-> name ∈ removed \/ Some name ∈ names /\ expired_file prefix retention_days today name /\ removable name = true).
  2: { specialize (H []). destruct (sweep_entries _ _ _ _ _ _) as [r removed]. destruct H as [-> H]. split; [done|]. intros name. rewrite H. set_solver. }
  induction names as [|entry names IH]; intros removed; [split; [done|]; set_solver|]. cbn [map sweep_entries].
  match goal with |- context [match ?e with Some name => if removable name then _ else _ | None => _ end] => set (ex := e) end.
  assert (Hex : forall name, ex = Some name <-> entry = Some name /\ expired_file prefix retention_days today name).
  { intros name. subst ex. destruct entry as [e|]; cbn; [|naive_solver]. split.
    - destruct (strip_prefix (prefix ++ [dot]) e) as [d|] eqn:E; cbn; [|done]. destruct (file_date d) as [date|] eqn:Ed; cbn; [|done].
      destruct (Z.ltb_spec retention_days (today - date)); [|done]. intros [= <-]. split; [done|]. exists d, date. split_and!; [|done|done].
      apply strip_prefix_Some in E. by rewrite E, <- app_assoc.
    - intros [[= <-] (d & date & -> & Ed & Hl)]. rewrite (app_assoc prefix), strip_prefix_app. cbn. rewrite Ed. cbn.
      by rewrite (proj2 (Z.ltb_lt _ _)). }
  specialize (IH (match ex with Some name => if removable name then removed ++ [name] else removed | None => removed end)).
  destruct (sweep_entries _ _ _ _ _ (map Ok names)) as [r removed']. destruct IH as [-> IH]. split; [done|]. intros name. rewrite IH.
  rewrite elem_of_cons. destruct ex as [n|].
  - destruct (proj1 (Hex n) eq_refl) as [-> Hn]. destruct (removable n) eqn:Er.
    + rewrite elem_of_app, list_elem_of_singleton. split; [intros [[?| ->]|(? & ? & ?)]; auto|intros [?|([[= ->]|?] & ? & ?)]; auto].
    + split; [intros [?|(? & ? & ?)]; auto|intros [?|([[= ->]|?] & ? & ?)]; auto; congruence].
  - split; [intros [?|(? & ? & ?)]; auto|]. intros [?|([Hn|?] & ? & ?)]; auto. exfalso.
    assert (Hc : @None str = Some name) by (apply Hex; done). discriminate Hc.
Qed.
End Retention.

(** ** Syslog *)

Lemma facility_range name f : facility_code name = Ok f -> 0 <= f <= 23.
Proof.
  unfold facility_code. destruct (List.find _ facilities) as [[n f']|] eqn:E; cbn; [|done]. intros [= <-]. apply List.find_some in E as [Hin _].
  assert (H : Forall (fun x => 0 <= snd x <= 23) facilities) by (repeat constructor; cbn; lia).
  rewrite Forall_forall in H. apply (H (n, f')). by apply list_elem_of_In.
Qed.
(** The priority fits its byte: nothing wraps. *)
Lemma priority_exact name f : facility_code name = Ok f -> rfc3164_priority f SYSLOG_SEVERITY_INFORMATIONAL = f * 8 + 6 /\ 6 <= f * 8 + 6 <= 190.
Proof.
  intros H. apply facility_range in H. unfold rfc3164_priority, SYSLOG_SEVERITY_INFORMATIONAL.
  rewrite (wrap_fits 8 (f * 8)) by (unfold fits; lia). rewrite wrap_fits by (unfold fits; lia). lia.
Qed.
(** A collector's octet counting: the frames of a stream, read back. *)
Fixpoint unframe (fuel : nat) (s : list Z) : option (list str) :=
  match fuel, s with
  | _, [] => Some []
  | O, _ => None
  | S fuel, s =>
      '(count, rest) ← split_once 32 s;
      n ← from_str_radix 10 64 count;
      ls ← unframe fuel (drop (Z.to_nat n) rest);
      Some (take (Z.to_nat n) rest :: ls)
  end.
Lemma fmt_dec_no_space n : 0 <= n -> 32 ∉ fmt_dec n.
Proof.
  intros Hn Hin. apply list_elem_of_fmap in Hin as (d & Hd & Hin).
  pose proof (proj1 (digits_spec 10 n ltac:(lia) Hn)) as HF. rewrite Forall_forall in HF. specialize (HF d Hin).
  unfold digit_char in Hd. case_match; lia.
Qed.
Lemma unframe_framed ls : Forall (fun l => Z.of_nat (length l) < 2 ^ 64) ls -> unframe (length ls) (concat (map framed ls)) = Some ls.
Proof.
  induction 1 as [|l ls Hl Hls IH]; [done|]. cbn [map concat length]. unfold framed at 1. rewrite <- !app_assoc. cbn [unframe].
  set (s := fmt_dec _ ++ _). destruct s as [|c s'] eqn:Es; [apply (f_equal length) in Es; unfold s in Es; rewrite !length_app in Es; cbn in Es; lia|].
  rewrite <- Es. subst s. rewrite (proj2 (split_once_Some 32 _ (fmt_dec (Z.of_nat (length l))) (l ++ concat (map framed ls)))) by (split; [done|apply fmt_dec_no_space; lia]).
  cbn [mbind option_bind]. rewrite parse_fmt_dec by (unfold fits; lia). cbn [mbind option_bind]. rewrite Nat2Z.id, drop_app_length, IH. cbn [mbind option_bind].
  by rewrite take_app_length.
Qed.

(** ** A concrete run: a saturated queue, two gauge ticks, a lost collector *)

Module LogDemo.
#[export] Instance json : RecordJson := {| json_record r := ar_listener r; json_stats r := as_listener r; json_egress r := ae_egress r |}.
(** Dates written as day numbers *)
#[export] Instance dates : FileDates := from_str_radix 10 32.
Definition cfg : LogConfig := mkLogConfig (lit "access.log") 7 (lit "n1") 1.
Definition syslog : SyslogConfig := mkSyslogConfig true (lit "logs:601") (lit " TCP ") (lit "local0") (lit "rove").
Definition candidate : TraceCandidate :=
  mkCandidate (lit "sni-in") (lit "SNI") None (Some (lit "alice")) (Some (lit "one.example")) (Some 443) None None (Some (lit "direct")) None None None
    TraceOk None None 7 12.
Definition rec : AccessLogRecord := from_candidate_with_ingress 100 (lit "n1") candidate 4 4 None.
Definition up : SyslogNet := mkSyslogNet true true.
Definition lost : SyslogNet := mkSyslogNet true false.
Definition stats (n : Z) : TrafficStats := apply_actions stats_new [(lit "socks", RecordListener n 1); (lit "socks", RecordEgress (lit "direct") n 1)].
Definition events : list LogEvent :=
  [Submit rec; Submit rec; TakeRecord (lit "Jan  1 00:00:00") up; StatsTick 160 (lit "Jan  1 00:01:00") (stats 10) (fun _ => lost);
   DropCheckTick; StatsTick 220 (lit "Jan  1 00:02:00") (stats 25) (fun _ => up);
   RetentionTick 100 (fun _ => true) (Ok (Some [Ok (Some (lit "access.log.92")); Ok (Some (lit "access.log.93")); Ok (Some (lit "other.1")); Ok None]))].
Definition w0 : LogState := mkLogState [] 0 0 ∅ ∅ (Some (mkSink (lit "logs:601") Tcp 16 (lit "rove") (lit "n1") false false)) false.
Example log_spawned : log_spawn cfg syslog = Ok w0.
Proof. vm_compute. reflexivity. Qed.
Example record_mode : ar_ingress_mode rec = Some (lit "sni").
Proof. vm_compute. reflexivity. Qed.
Definition shown (o : LogOutput) : list (str * Z) :=
  match o with
  | FileLine (RecordLine r) => [(ar_listener r, ar_bytes_up r)]
  | FileLine (StatsLine r) => [(as_listener r, as_bytes_up_delta r)]
  | FileLine (EgressLine r) => [(ae_egress r, ae_bytes_up_delta r)]
  | Syslogged b => [(b, 0)]
  | Removed files => map (fun f => (f, -1)) files
  | DropsWarned d t => [([], d)]
  end.
Example logged_run :
  (fun r => concat (map shown (snd r))) <$> log_run cfg w0 events =
  Some [(lit "sni-in", 4); (lit "36 <134>Jan  1 00:00:00 n1 rove: sni-in", 0); (lit "socks", 10); (lit "direct", 10); ([], 1);
        (lit "socks", 15); (lit "35 <134>Jan  1 00:02:00 n1 rove: socks", 0); (lit "direct", 15);
        (lit "36 <134>Jan  1 00:02:00 n1 rove: direct", 0); (lit "access.log.92", -1)].
Proof. vm_compute. reflexivity. Qed.
End LogDemo.
Section Witness.
Import LogDemo.
End Witness.
