(* ===== verification/Diagnostics.v ===== *)
(** * Diagnostics: diagnostic sessions and probe traces (src/src/diagnostics.rs, src/src/trace.rs)

    A diagnostic session is armed for a bounded time and turns every finished
    connection it matches into an event, sent without waiting through a bounded
    channel, and ends with a summary; a probe is armed for one connection. Both
    live behind a mutex, so each operation is one step. Instants are
    nanoseconds of the monotonic clock, durations whole seconds; the order in
    which a hash map is walked is an input. *)

From Stdlib Require Import ZArith Lia String.
From stdpp Require Import prelude strings list gmap sorting.
From S2P Require Import Sniff.
From S2P Require Import Prelude RustStr Net RustFmt Util Frame Stream Conn IngressFrame RelayConfig ConnectorConfig Connector RabValid BTree Domain Policy Model Engine Outbound Io Handler Stats AccessLog.

Definition nanos (secs : Z) : Z := secs * 10 ^ 9.

Inductive DiagnosticEventType := DAuth | DPolicy | DLimit | DOutbound | DSplice | DSummary.
#[global] Instance event_type_eq_dec : EqDecision DiagnosticEventType.
Proof. solve_decision. Defined.
Definition type_index (e : DiagnosticEventType) : nat := match e with DAuth => 0 | DPolicy => 1 | DLimit => 2 | DOutbound => 3 | DSplice => 4 | DSummary => 5 end.
Definition type_of_index (n : nat) : DiagnosticEventType :=
  match n with 0 => DAuth | 1 => DPolicy | 2 => DLimit | 3 => DOutbound | 4 => DSplice | _ => DSummary end%nat.
#[global] Instance event_type_countable : Countable DiagnosticEventType.
Proof. refine (inj_countable' type_index type_of_index _). by intros []. Defined.

Definition PER_CONNECTION : list DiagnosticEventType := [DAuth; DPolicy; DLimit; DOutbound; DSplice].
Definition event_type_str (e : DiagnosticEventType) : str :=
  match e with
  | DAuth => lit "auth" | DPolicy => lit "policy" | DLimit => lit "limit"
  | DOutbound => lit "outbound" | DSplice => lit "splice" | DSummary => lit "summary"
  end.
Definition from_token (token : str) : option DiagnosticEventType :=
  let token := to_ascii_lowercase (trim token) in
  List.find (fun e => str_eqb token (event_type_str e)) (PER_CONNECTION ++ [DSummary]).
Definition outbound_stages : list string :=
  ["outbound"; "dns"; "dial"; "tls"; "chain_exhausted"; "reverse_lookup"; "reverse_open"; "hop_connect"]%string.
(** [from_candidate] *)
Definition event_type_of (c : TraceCandidate) : option DiagnosticEventType :=
  match tc_failure_stage c with
  | Some stage =>
      if str_eqb stage (lit "auth") then Some DAuth
      else if str_eqb stage (lit "policy") then Some DPolicy
      else if str_eqb stage (lit "limit") then Some DLimit
      else if existsb (fun o => str_eqb stage (lit o)) outbound_stages then Some DOutbound
      else if str_eqb stage (lit "splice") || str_eqb stage (lit "stream_io") then Some DSplice
      else None
  | None => match tc_result c with TraceOk => Some DSplice | TraceError => None end
  end.

(** ** Sessions *)

Record DiagnosticLimits := mkLimits { dl_default_ttl : Z; dl_max_ttl : Z; dl_max_sessions : nat; dl_max_sessions_per_user : nat }.
Definition clamp (lo hi x : Z) : Z := Z.min hi (Z.max lo x).
Definition clamp_ttl (l : DiagnosticLimits) (requested_secs : option Z) : Z :=
  let max := Z.max 1 (dl_max_ttl l) in
  match requested_secs with Some secs => clamp 1 max secs | None => clamp 1 max (dl_default_ttl l) end.

Record DiagnosticSessionSpec := mkSpec {
  sp_request_id : str; sp_reply_topic : str; sp_username : str; sp_target_host : option str; sp_target_port : option Z;
  sp_protocol : option str; sp_listener : option str; sp_event_types : gset DiagnosticEventType; sp_ttl : Z
}.
Inductive StartRejection := GlobalLimit | UserLimit.
Record StartAccepted := mkAccepted { sa_ttl_secs : Z; sa_event_types : list DiagnosticEventType }.

Record DiagnosticEvent := mkEvent {
  de_request_id : str; de_node_id : str; de_event : str; de_event_type : DiagnosticEventType; de_status : str; de_listener : str; de_protocol : str;
  de_client_addr : option str; de_username : option str; de_target_host : option str; de_target_port : option Z; de_decision : option str;
  de_egress : option str; de_chain_member : option str; de_attempts : option Z; de_failure_stage : option str; de_message : option str;
  de_snapshot_version : Z; de_duration_ms : Z; de_timestamp : Z
}.
Record DiagnosticSummary := mkSummary {
  sm_request_id : str; sm_node_id : str; sm_event : str; sm_status : str; sm_matched_events : Z; sm_dropped_events : Z; sm_ttl_secs : Z; sm_timestamp : Z
}.
Record DiagnosticEnvelope := mkEnvelope { en_reply_topic : str; en_event : DiagnosticEvent }.
Record SummaryEnvelope := mkSummaryEnvelope { se_reply_topic : str; se_summary : DiagnosticSummary }.

Record DiagnosticSession := mkSession {
  ds_request_id : str; ds_reply_topic : str; ds_username : str; ds_target_host : option str; ds_target_port : option Z; ds_protocol : option str;
  ds_listener : option str; ds_event_types : gset DiagnosticEventType; ds_expires_at : Z; ds_ttl_secs : Z; ds_matched_events : Z; ds_dropped_events : Z
}.

Definition optional_eq (expected actual : option str) : bool :=
  match expected with
  | Some expected => match actual with Some actual => eq_ignore_ascii_case actual expected | None => false end
  | None => true
  end.
Definition port_eq (expected actual : option Z) : bool := match expected with Some p => bool_decide (Some p = actual) | None => true end.
(** [DiagnosticSession::matches], [wants] *)
Definition session_matches (s : DiagnosticSession) (c : TraceCandidate) : bool :=
  optional_eq (Some (ds_username s)) (tc_username c) && optional_eq (ds_target_host s) (tc_target_host c) &&
  port_eq (ds_target_port s) (tc_target_port c) && optional_eq (ds_protocol s) (Some (tc_protocol c)) &&
  optional_eq (ds_listener s) (Some (tc_listener c)).
Definition session_wants (s : DiagnosticSession) (e : DiagnosticEventType) : bool := bool_decide (e ∈ ds_event_types s).
Definition session_summary (node_id : str) (ts : Z) (s : DiagnosticSession) : DiagnosticSummary :=
  mkSummary (ds_request_id s) node_id (lit "diagnostic_summary") (lit "ok") (ds_matched_events s) (ds_dropped_events s) (ds_ttl_secs s) ts.
Definition build_event (node_id : str) (ts : Z) (s : DiagnosticSession) (c : TraceCandidate) (e : DiagnosticEventType) : DiagnosticEvent :=
  mkEvent (ds_request_id s) node_id (lit "diagnostic_event") e (result_str (tc_result c)) (tc_listener c) (tc_protocol c) (tc_client_addr c)
    (tc_username c) (tc_target_host c) (tc_target_port c) (tc_decision c) (tc_egress c) (tc_chain_member c) (tc_attempts c)
    (tc_failure_stage c) (tc_message c) (tc_snapshot_version c) (tc_duration_ms c) ts.
Definition session_envelope (node_id : str) (ts : Z) (s : DiagnosticSession) (c : TraceCandidate) (e : DiagnosticEventType) : DiagnosticEnvelope :=
  mkEnvelope (ds_reply_topic s) (build_event node_id ts s c e).
Definition summary_envelope (node_id : str) (ts : Z) (s : DiagnosticSession) : SummaryEnvelope :=
  mkSummaryEnvelope (ds_reply_topic s) (session_summary node_id ts s).
Definition with_counts (matched dropped : Z) (s : DiagnosticSession) : DiagnosticSession :=
  mkSession (ds_request_id s) (ds_reply_topic s) (ds_username s) (ds_target_host s) (ds_target_port s) (ds_protocol s) (ds_listener s)
    (ds_event_types s) (ds_expires_at s) (ds_ttl_secs s) matched dropped.
(** The outcome of a [try_send], counted. *)
Definition count_sent (sent : bool) (s : DiagnosticSession) : DiagnosticSession :=
  if sent then with_counts (wrap 64 (ds_matched_events s + 1)) (ds_dropped_events s) s
  else with_counts (ds_matched_events s) (wrap 64 (ds_dropped_events s + 1)) s.

(** The effective event types, sorted by name. *)
Definition by_name (a b : DiagnosticEventType) : Prop := key_le (event_type_str a) (event_type_str b).
#[global] Instance by_name_dec a b : base.Decision (by_name a b).
Proof. unfold by_name, key_le. apply _. Defined.
Definition effective_types (types : gset DiagnosticEventType) : list DiagnosticEventType :=
  merge_sort by_name (filter (fun t => t ∈ PER_CONNECTION) (elements types)).
Definition new_session (now : Z) (spec : DiagnosticSessionSpec) : DiagnosticSession :=
  mkSession (sp_request_id spec) (sp_reply_topic spec) (sp_username spec) (sp_target_host spec) (sp_target_port spec) (sp_protocol spec)
    (sp_listener spec) (list_to_set (effective_types (sp_event_types spec))) (now + nanos (sp_ttl spec)) (Z.max 1 (sp_ttl spec)) 0 0.

(** ** The registry *)

Record DiagnosticConfig := mkDiagConfig { dc_node_id : str; dc_limits : DiagnosticLimits; dc_capacity : nat }.
(** The sessions, the channel to the publisher, and whether it still listens. *)
Record DiagnosticRegistry := mkRegistry { rg_sessions : gmap str DiagnosticSession; rg_queue : list DiagnosticEnvelope; rg_open : bool }.
Definition registry_new : DiagnosticRegistry := mkRegistry ∅ [] true.
Definition set_sessions (m : gmap str DiagnosticSession) (rg : DiagnosticRegistry) : DiagnosticRegistry := mkRegistry m (rg_queue rg) (rg_open rg).
Definition live (now : Z) (m : gmap str DiagnosticSession) : gmap str DiagnosticSession := filter (fun kv => now < ds_expires_at kv.2) m.
Definition sessions_of (user : str) (m : gmap str DiagnosticSession) : nat := size (filter (fun kv => ds_username kv.2 = user) m).
(** [start] *)
Definition start (cfg : DiagnosticConfig) (now : Z) (spec : DiagnosticSessionSpec) (rg : DiagnosticRegistry)
    : result StartRejection StartAccepted * DiagnosticRegistry :=
  let sessions := live now (rg_sessions rg) in
  let is_rearm := bool_decide (is_Some (sessions !! sp_request_id spec)) in
  if negb is_rearm && (dl_max_sessions (dc_limits cfg) <=? size sessions)%nat then (Err GlobalLimit, set_sessions sessions rg)
  else if negb is_rearm && (dl_max_sessions_per_user (dc_limits cfg) <=? sessions_of (sp_username spec) sessions)%nat
  then (Err UserLimit, set_sessions sessions rg)
  else
    (Ok (mkAccepted (Z.max 1 (sp_ttl spec)) (effective_types (sp_event_types spec))),
     set_sessions (<[sp_request_id spec := new_session now spec]> sessions) rg).
(** [cancel] *)
Definition cancel (cfg : DiagnosticConfig) (ts : Z) (request_id : str) (rg : DiagnosticRegistry) : option SummaryEnvelope * DiagnosticRegistry :=
  match rg_sessions rg !! request_id with
  | Some s => (Some (summary_envelope (dc_node_id cfg) ts s), set_sessions (delete request_id (rg_sessions rg)) rg)
  | None => (None, rg)
  end.

(** What the registry's operations do that others see. *)
Inductive DiagOutput :=
| Started (now : Z) (spec : DiagnosticSessionSpec)
| Refused (spec : DiagnosticSessionSpec) (why : StartRejection)
| Offered (now ts : Z) (c : TraceCandidate) (e : DiagnosticEnvelope) (sent : bool)
| Summarised (e : SummaryEnvelope)
| Received (e : DiagnosticEnvelope).

(** [record], over the sessions in the order of the walk *)
Definition offer (cfg : DiagnosticConfig) (now ts : Z) (c : TraceCandidate) (e : DiagnosticEventType) (id : str) (rg : DiagnosticRegistry)
    : DiagnosticRegistry * list DiagOutput :=
  match rg_sessions rg !! id with
  | Some s =>
      if (ds_expires_at s <=? now) || negb (session_matches s c) || negb (session_wants s e) then (rg, [])
      else
        let env := session_envelope (dc_node_id cfg) ts s c e in
        let sent := rg_open rg && (length (rg_queue rg) <? dc_capacity cfg)%nat in
        (mkRegistry (<[id := count_sent sent s]> (rg_sessions rg)) (if sent then rg_queue rg ++ [env] else rg_queue rg) (rg_open rg),
         [Offered now ts c env sent])
  | None => (rg, [])
  end.
Fixpoint fan_out (cfg : DiagnosticConfig) (now ts : Z) (c : TraceCandidate) (e : DiagnosticEventType) (walk : list str) (rg : DiagnosticRegistry)
    : DiagnosticRegistry * list DiagOutput :=
  match walk with
  | [] => (rg, [])
  | id :: walk =>
      let '(rg, out) := offer cfg now ts c e id rg in
      let '(rg, outs) := fan_out cfg now ts c e walk rg in
      (rg, out ++ outs)
  end.
Definition record (cfg : DiagnosticConfig) (now ts : Z) (c : TraceCandidate) (walk : list str) (rg : DiagnosticRegistry)
    : DiagnosticRegistry * list DiagOutput :=
  match event_type_of c with Some e => fan_out cfg now ts c e walk rg | None => (rg, []) end.
(** [sweep_expired] *)
Fixpoint sweep_ids (cfg : DiagnosticConfig) (ts : Z) (ids : list str) (rg : DiagnosticRegistry) : list SummaryEnvelope * DiagnosticRegistry :=
  match ids with
  | [] => ([], rg)
  | id :: ids =>
      let '(s, rg) := cancel cfg ts id rg in
      let '(ss, rg) := sweep_ids cfg ts ids rg in
      (match s with Some s => s :: ss | None => ss end, rg)
  end.
Definition expired (now : Z) (m : gmap str DiagnosticSession) (id : str) : bool :=
  match m !! id with Some s => ds_expires_at s <=? now | None => false end.
Definition sweep_expired (cfg : DiagnosticConfig) (now ts : Z) (walk : list str) (rg : DiagnosticRegistry) : list SummaryEnvelope * DiagnosticRegistry :=
  sweep_ids cfg ts (List.filter (expired now (rg_sessions rg)) walk) rg.

Inductive DiagEvent :=
| StartSession (now : Z) (spec : DiagnosticSessionSpec)
| CancelSession (ts : Z) (request_id : str)
| Finished (now ts : Z) (c : TraceCandidate) (walk : list str)
| Sweep (now ts : Z) (walk : list str)
| TakeEvent
| PublisherGone.
(** A walk visits every session once. *)
Definition is_walk {A} (walk : list str) (m : gmap str A) : bool := bool_decide (NoDup walk /\ list_to_set walk = dom m).
Definition diag_step (cfg : DiagnosticConfig) (rg : DiagnosticRegistry) (e : DiagEvent) : option (DiagnosticRegistry * list DiagOutput) :=
  match e with
  | StartSession now spec =>
      match start cfg now spec rg with
      | (Ok _, rg) => Some (rg, [Started now spec])
      | (Err why, rg) => Some (rg, [Refused spec why])
      end
  | CancelSession ts id => let '(s, rg) := cancel cfg ts id rg in Some (rg, match s with Some s => [Summarised s] | None => [] end)
  | Finished now ts c walk => if is_walk walk (rg_sessions rg) then Some (record cfg now ts c walk rg) else None
  | Sweep now ts walk =>
      if is_walk walk (rg_sessions rg) then let '(ss, rg) := sweep_expired cfg now ts walk rg in Some (rg, map Summarised ss) else None
  | TakeEvent => match rg_queue rg with e :: queue => Some (mkRegistry (rg_sessions rg) queue (rg_open rg), [Received e]) | [] => None end
  | PublisherGone => Some (mkRegistry (rg_sessions rg) [] false, [])
  end.
Fixpoint diag_run (cfg : DiagnosticConfig) (rg : DiagnosticRegistry) (es : list DiagEvent) : option (DiagnosticRegistry * list DiagOutput) :=
  match es with
  | [] => Some (rg, [])
  | e :: es => '(rg, out) ← diag_step cfg rg e; '(rg, outs) ← diag_run cfg rg es; Some (rg, out ++ outs)
  end.

(** ** Probe traces *)

Record ProbeArm := mkArm {
  pa_request_id : str; pa_reply_topic : str; pa_username : option str; pa_target_host : option str; pa_target_port : option Z;
  pa_protocol : option str; pa_listener : option str; pa_expires_at : Z
}.
Record ProbeTraceReport := mkReport {
  pr_request_id : str; pr_reply_topic : str; pr_event : str; pr_status : str; pr_listener : str; pr_protocol : str; pr_client_addr : option str;
  pr_username : option str; pr_target_host : option str; pr_target_port : option Z; pr_requested_host : option str; pr_requested_port : option Z;
  pr_sniffed_host : option str; pr_sniff_protocol : option str; pr_sniff_outcome : option str; pr_effective_policy_host : option str;
  pr_policy_id : option str; pr_matched_route : option Z; pr_decision : option str; pr_egress : option str; pr_chain_member : option str;
  pr_attempts : option Z; pr_failure_stage : option str; pr_message : option str; pr_snapshot_version : Z; pr_duration_ms : Z; pr_timestamp : Z
}.
Definition probe_arm_new (now : Z) (request_id reply_topic : str) (ttl : Z) : ProbeArm :=
  mkArm request_id reply_topic None None None None None (now + nanos ttl).
Definition arm_matches (a : ProbeArm) (c : TraceCandidate) : bool :=
  optional_eq (pa_username a) (tc_username c) && optional_eq (pa_target_host a) (tc_target_host c) && port_eq (pa_target_port a) (tc_target_port c) &&
  optional_eq (pa_protocol a) (Some (tc_protocol c)) && optional_eq (pa_listener a) (Some (tc_listener c)).
Definition probe_report (ts : Z) (a : ProbeArm) (c : TraceCandidate) : ProbeTraceReport :=
  let traffic := tc_traffic c in
  let sniff := match traffic ≫= ti_sniff with Some s => Some s | None => tc_sniff c end in
  {| pr_request_id := pa_request_id a; pr_reply_topic := pa_reply_topic a; pr_event := lit "probe_trace_result"; pr_status := result_str (tc_result c);
     pr_listener := tc_listener c; pr_protocol := tc_protocol c; pr_client_addr := tc_client_addr c; pr_username := tc_username c;
     pr_target_host := tc_target_host c; pr_target_port := tc_target_port c; pr_requested_host := ti_requested_host <$> traffic;
     pr_requested_port := ti_requested_port <$> traffic; pr_sniffed_host := sniff ≫= obs_host;
     pr_sniff_protocol := sniff ≫= (fun s => sniff_protocol_str <$> obs_protocol s); pr_sniff_outcome := (fun s => sniff_outcome_str (outcome s)) <$> sniff;
     pr_effective_policy_host := (fun t => pa_effective_policy_host (ti_policy t)) <$> traffic;
     pr_policy_id := traffic ≫= (fun t => pa_policy_id (ti_policy t)); pr_matched_route := traffic ≫= (fun t => pa_matched_route (ti_policy t));
     pr_decision := tc_decision c; pr_egress := tc_egress c; pr_chain_member := tc_chain_member c; pr_attempts := tc_attempts c;
     pr_failure_stage := tc_failure_stage c; pr_message := tc_message c; pr_snapshot_version := tc_snapshot_version c;
     pr_duration_ms := tc_duration_ms c; pr_timestamp := ts |}.

(** [ProbeTracer::arm], [finish] *)
Definition arm (a : ProbeArm) (probes : gmap str ProbeArm) : gmap str ProbeArm := <[pa_request_id a := a]> probes.
Definition armed_now (now : Z) (probes : gmap str ProbeArm) : gmap str ProbeArm := filter (fun kv => now < pa_expires_at kv.2) probes.
Definition finish (now ts : Z) (c : TraceCandidate) (walk : list str) (probes : gmap str ProbeArm) : option ProbeTraceReport * gmap str ProbeArm :=
  let probes := armed_now now probes in
  match List.find (fun id => match probes !! id with Some a => arm_matches a c | None => false end) walk with
  | Some id =>
      match probes !! id with
      | Some a => (Some (probe_report ts a c), delete id probes)
      | None => (None, probes)
      end
  | None => (None, probes)
  end.

(** * What diagnostic sessions guarantee

    An event is offered only for an armed, unexpired session that matches and
    wants it; a summary counts exactly the events sent and dropped since the
    session was armed; sessions and queued events stay within their bounds. *)

Section Sessions.
Context (cfg : DiagnosticConfig).

(** The sessions, as the outputs tell them *)
Definition replay (m : gmap str DiagnosticSession) (o : DiagOutput) : gmap str DiagnosticSession :=
  match o with
  | Started now spec => <[sp_request_id spec := new_session now spec]> m
  | Offered _ _ _ e sent => alter (count_sent sent) (de_request_id (en_event e)) m
  | Summarised e => delete (sm_request_id (se_summary e)) m
  | Refused _ _ | Received _ => m
  end.
Definition told (outs : list DiagOutput) : gmap str DiagnosticSession := fold_left replay outs ∅.
Definition justified (m : gmap str DiagnosticSession) (o : DiagOutput) : Prop :=
  match o with
  | Offered now ts c e _ => exists s t, m !! de_request_id (en_event e) = Some s /\ now < ds_expires_at s /\ session_matches s c = true /\
      event_type_of c = Some t /\ t ∈ ds_event_types s /\ e = session_envelope (dc_node_id cfg) ts s c t
  | Summarised e => exists s ts, m !! sm_request_id (se_summary e) = Some s /\ e = summary_envelope (dc_node_id cfg) ts s
  | _ => True
  end.
Definition all_justified (outs : list DiagOutput) : Prop := forall a o b, outs = a ++ o :: b -> justified (told a) o.
Definition sent_events (outs : list DiagOutput) : list DiagnosticEnvelope := omap (fun o => match o with Offered _ _ _ e true => Some e | _ => None end) outs.
Definition received_events (outs : list DiagOutput) : list DiagnosticEnvelope := omap (fun o => match o with Received e => Some e | _ => None end) outs.

Record diag_inv (outs : list DiagOutput) (rg : DiagnosticRegistry) : Prop := {
  di_keys : forall id s, rg_sessions rg !! id = Some s -> ds_request_id s = id;
  di_told : rg_sessions rg ⊆ told outs;
  di_count : (size (rg_sessions rg) <= dl_max_sessions (dc_limits cfg))%nat;
  di_sent : (received_events outs ++ rg_queue rg) `prefix_of` sent_events outs;
  di_open : rg_open rg = true -> received_events outs ++ rg_queue rg = sent_events outs;
  di_capacity : (length (rg_queue rg) <= dc_capacity cfg)%nat;
  di_justified : all_justified outs
}.

Lemma told_snoc outs o : told (outs ++ [o]) = replay (told outs) o.
Proof. unfold told. by rewrite fold_left_app. Qed.
Lemma justified_snoc outs o : all_justified outs -> justified (told outs) o -> all_justified (outs ++ [o]).
Proof.
  intros H Ho a x b E. induction b as [|y b _] using rev_ind.
  - apply app_inj_tail in E as [-> ->]. done.
  - rewrite app_comm_cons, app_assoc in E. apply app_inj_tail in E as [-> _]. by apply (H a x b).
Qed.
Lemma live_subset now m : live now m ⊆ m.
Proof. apply map_filter_subseteq. Qed.
Lemma size_subset {A} (m n : gmap str A) : m ⊆ n -> (size m <= size n)%nat.
Proof. intros H. rewrite <- !size_dom. by apply subseteq_size, subseteq_dom. Qed.

(** A step that sends and receives nothing. *)
Lemma diag_quiet outs rg m out :
  diag_inv outs rg -> (forall id s, m !! id = Some s -> ds_request_id s = id) -> m ⊆ told (outs ++ out) ->
  (size m <= dl_max_sessions (dc_limits cfg))%nat -> sent_events out = [] -> received_events out = [] -> all_justified (outs ++ out) ->
  diag_inv (outs ++ out) (set_sessions m rg).
Proof.
  intros [Hk Ht Hc Hs Ho Hq Hj] Hk' Ht' Hc' Es Er Hj'.
  split; cbn; unfold sent_events, received_events in *; rewrite ?omap_app, ?Es, ?Er, ?app_nil_r; done.
Qed.
Lemma start_inv outs rg now spec : diag_inv outs rg ->
  match start cfg now spec rg with
  | (Ok _, rg') => diag_inv (outs ++ [Started now spec]) rg'
  | (Err why, rg') => diag_inv (outs ++ [Refused spec why]) rg'
  end.
Proof.
  intros I. unfold start. set (sessions := live now (rg_sessions rg)).
  assert (Hsub : sessions ⊆ rg_sessions rg) by apply live_subset.
  assert (Hkey : forall id s, sessions !! id = Some s -> ds_request_id s = id).
  { intros id s H. apply (di_keys _ _ I). by apply (lookup_weaken _ _ _ _ H). }
  pose proof (size_subset _ _ Hsub). pose proof (di_count _ _ I).
  assert (Href : forall why, diag_inv (outs ++ [Refused spec why]) (set_sessions sessions rg)).
  { intros why. apply diag_quiet; try done.
    - rewrite told_snoc. by transitivity (rg_sessions rg); [|apply (di_told _ _ I)].
    - lia.
    - by apply justified_snoc; [apply (di_justified _ _ I)|]. }
  destruct (negb _ && (dl_max_sessions (dc_limits cfg) <=? size sessions)%nat) eqn:Eg; [apply Href|].
  destruct (negb _ && (_ <=? sessions_of _ _)%nat) eqn:Eu; [apply Href|]. apply diag_quiet; try done.
  - intros id s. destruct (decide (id = sp_request_id spec)) as [->|Hne]; [rewrite lookup_insert_eq; by intros [= <-]|].
    rewrite lookup_insert_ne by done. apply Hkey.
  - rewrite told_snoc. cbn [replay]. apply insert_mono. by transitivity (rg_sessions rg); [|apply (di_told _ _ I)].
  - rewrite map_size_insert. destruct (sessions !! sp_request_id spec) as [s|] eqn:E; [cbn; lia|].
    rewrite bool_decide_eq_false_2 in Eg by (by intros [? ?]). apply andb_false_iff in Eg as [Eg|Eg%Nat.leb_gt]; [done|]. cbn. lia.
  - by apply justified_snoc; [apply (di_justified _ _ I)|].
Qed.
Lemma cancel_inv outs rg ts id : diag_inv outs rg ->
  match cancel cfg ts id rg with
  | (Some e, rg') => diag_inv (outs ++ [Summarised e]) rg'
  | (None, rg') => rg' = rg
  end.
Proof.
  intros I. unfold cancel. destruct (rg_sessions rg !! id) as [s|] eqn:E; [|done].
  pose proof (di_keys _ _ I _ _ E) as Hid. apply diag_quiet; try done.
  - intros id' s' [_ H]%lookup_delete_Some. by apply (di_keys _ _ I).
  - rewrite told_snoc. cbn. rewrite Hid. apply delete_mono, (di_told _ _ I).
  - pose proof (size_subset _ _ (delete_subseteq (rg_sessions rg) id)). pose proof (di_count _ _ I). lia.
  - apply justified_snoc; [apply (di_justified _ _ I)|]. exists s, ts. split; [|done]. cbn. rewrite Hid.
    by apply (lookup_weaken _ _ _ _ E (di_told _ _ I)).
Qed.
Lemma sweep_ids_inv ts ids : forall outs rg, diag_inv outs rg ->
  diag_inv (outs ++ map Summarised (sweep_ids cfg ts ids rg).1) (sweep_ids cfg ts ids rg).2.
Proof.
  induction ids as [|id ids IH]; intros outs rg I; [by rewrite app_nil_r|]. cbn [sweep_ids].
  pose proof (cancel_inv outs rg ts id I) as Hc. destruct (cancel cfg ts id rg) as [[e|] rg1]; [|subst rg1].
  - specialize (IH _ _ Hc). destruct (sweep_ids cfg ts ids rg1) as [ss rg2]. cbn [fst snd map] in *. by rewrite <- app_assoc in IH.
  - specialize (IH _ _ I). by destruct (sweep_ids cfg ts ids rg) as [ss rg2].
Qed.
Lemma count_sent_id b s : ds_request_id (count_sent b s) = ds_request_id s.
Proof. by destruct b. Qed.
Lemma offer_inv outs rg now ts c e id : diag_inv outs rg -> event_type_of c = Some e ->
  diag_inv (outs ++ (offer cfg now ts c e id rg).2) (offer cfg now ts c e id rg).1.
Proof.
  intros I He. unfold offer. destruct (rg_sessions rg !! id) as [s|] eqn:E; [|by rewrite app_nil_r].
  destruct (_ || _ || _) eqn:Eb; [by rewrite app_nil_r|].
  apply orb_false_iff in Eb as [[Hexp%Z.leb_gt Hm%negb_false_iff]%orb_false_iff Hw%negb_false_iff%bool_decide_eq_true].
  pose proof (di_keys _ _ I _ _ E) as Hid. destruct I as [Hk Ht Hc Hs Ho Hq Hj]. set (env := session_envelope _ _ _ _ _).
  set (sent := rg_open rg && _). assert (Hkey : de_request_id (en_event env) = id) by done. cbn [fst snd].
  assert (Ht' : told outs !! id = Some s) by (by apply (lookup_weaken _ _ _ _ E)).
  split; cbn [rg_sessions rg_queue rg_open].
  - intros id' s'. destruct (decide (id' = id)) as [->|Hne].
    + rewrite lookup_insert_eq. intros [= <-]. by rewrite count_sent_id.
    + rewrite lookup_insert_ne by done. apply Hk.
  - rewrite told_snoc. cbn [replay]. rewrite Hkey. rewrite map_subseteq_spec in Ht |- *. intros id1 s1. destruct (decide (id1 = id)) as [->|Hne]; [rewrite lookup_insert_eq, lookup_alter_eq, Ht'; by intros [= <-]|].
    rewrite lookup_insert_ne, lookup_alter_ne by done. apply Ht.
  - rewrite map_size_insert_Some by (by eexists). done.
  - unfold sent_events, received_events in *. rewrite !omap_app. cbn. rewrite app_nil_r. destruct sent eqn:Es; [|by rewrite app_nil_r].
    apply andb_true_iff in Es as [Eo _]. rewrite app_assoc, (Ho Eo). done.
  - unfold sent_events, received_events in *. intros Eo. rewrite !omap_app. cbn. rewrite app_nil_r. destruct sent eqn:Es; [|by rewrite app_nil_r, (Ho Eo)].
    by rewrite app_assoc, (Ho Eo).
  - destruct sent eqn:Es; [|done]. apply andb_true_iff in Es as [_ Hl%Nat.ltb_lt]. rewrite length_app. cbn. lia.
  - apply justified_snoc; [done|]. exists s, e. rewrite Hkey. done.
Qed.
Lemma fan_out_inv now ts c e walk : event_type_of c = Some e -> forall outs rg, diag_inv outs rg ->
  diag_inv (outs ++ (fan_out cfg now ts c e walk rg).2) (fan_out cfg now ts c e walk rg).1.
Proof.
  intros He. induction walk as [|id walk IH]; intros outs rg I; [by rewrite app_nil_r|]. cbn [fan_out].
  pose proof (offer_inv outs rg now ts c e id I He) as H1. destruct (offer cfg now ts c e id rg) as [rg1 out]. cbn [fst snd] in H1.
  specialize (IH _ _ H1). destruct (fan_out cfg now ts c e walk rg1) as [rg2 outs2]. cbn [fst snd] in *. by rewrite <- app_assoc in IH.
Qed.
Lemma diag_step_inv outs rg e rg' out : diag_inv outs rg -> diag_step cfg rg e = Some (rg', out) -> diag_inv (outs ++ out) rg'.
Proof.
  intros I H. destruct e as [now spec|ts id|now ts c walk|now ts walk| |]; cbn [diag_step] in H.
  - pose proof (start_inv outs rg now spec I) as Hs. destruct (start cfg now spec rg) as [[a|why] rg1]; by injection H as <- <-.
  - pose proof (cancel_inv outs rg ts id I) as Hc. destruct (cancel cfg ts id rg) as [[s|] rg1]; injection H as <- <-; [done|].
    rewrite app_nil_r. by subst.
  - destruct (is_walk walk (rg_sessions rg)); [|done]. injection H as H. unfold record in H. destruct (event_type_of c) as [t|] eqn:Et.
    + pose proof (fan_out_inv now ts c t walk Et outs rg I) as Hf. by rewrite H in Hf.
    + injection H as <- <-. by rewrite app_nil_r.
  - destruct (is_walk walk (rg_sessions rg)); [|done]. unfold sweep_expired in H.
    pose proof (sweep_ids_inv ts (List.filter (expired now (rg_sessions rg)) walk) outs rg I) as Hs.
    destruct (sweep_ids _ _ _ _) as [ss rg1]. by injection H as <- <-.
  - destruct (rg_queue rg) as [|env queue] eqn:Eq; [done|]. injection H as <- <-. destruct I as [Hk Ht Hc Hs Ho Hl Hj]. rewrite Eq in *.
    split; cbn [rg_sessions rg_queue rg_open]; unfold sent_events, received_events in *; rewrite ?told_snoc, ?omap_app, ?app_nil_r; try done.
    + cbn. rewrite ?app_nil_r. by rewrite <- app_assoc.
    + cbn. rewrite ?app_nil_r. by rewrite <- app_assoc.
    + cbn in Hl. lia.
    + by apply justified_snoc.
  - injection H as <- <-. destruct I as [Hk Ht Hc Hs Ho Hl Hj]. rewrite app_nil_r. split; cbn; try done; [|lia].
    rewrite app_nil_r. transitivity (received_events outs ++ rg_queue rg); [by apply prefix_app_r|done].
Qed.
Lemma diag_run_inv es : forall outs rg rg' out, diag_inv outs rg -> diag_run cfg rg es = Some (rg', out) -> diag_inv (outs ++ out) rg'.
Proof.
  induction es as [|e es IH]; intros outs rg rg' out I H; cbn in H; [injection H as <- <-; by rewrite app_nil_r|].
  destruct (diag_step cfg rg e) as [[rg1 o1]|] eqn:E1; [|done]. cbn in H. destruct (diag_run cfg rg1 es) as [[rg2 o2]|] eqn:E2; [|done].
  cbn in H. injection H as <- <-. apply (diag_step_inv _ _ _ _ _ I) in E1. apply (IH _ _ _ _ E1) in E2. by rewrite <- app_assoc in E2.
Qed.
Lemma registry_new_inv : diag_inv [] registry_new.
Proof. split; cbn; try done; try lia; try apply map_empty_subseteq; [rewrite map_size_empty; lia|]. intros a o b E. by destruct a. Qed.

(** The sessions an outcome is offered for: exactly the live ones that match
    and want it, once each, in the order of the walk. *)
Definition concerned (now : Z) (c : TraceCandidate) (e : DiagnosticEventType) (m : gmap str DiagnosticSession) (id : str) : bool :=
  match m !! id with Some s => (now <? ds_expires_at s) && session_matches s c && session_wants s e | None => false end.
Definition offered_ids (outs : list DiagOutput) : list str := omap (fun o => match o with Offered _ _ _ e _ => Some (de_request_id (en_event e)) | _ => None end) outs.
Lemma fan_out_exact now ts c e walk : forall rg, (forall id s, rg_sessions rg !! id = Some s -> ds_request_id s = id) ->
  offered_ids (fan_out cfg now ts c e walk rg).2 = List.filter (concerned now c e (rg_sessions rg)) walk.
Proof.
  induction walk as [|id walk IH]; intros rg Hk; [done|]. cbn [fan_out List.filter].
  assert (H : let '(rg1, out) := offer cfg now ts c e id rg in
    (forall id s, rg_sessions rg1 !! id = Some s -> ds_request_id s = id) /\
    (forall id, concerned now c e (rg_sessions rg1) id = concerned now c e (rg_sessions rg) id) /\
    offered_ids out = if concerned now c e (rg_sessions rg) id then [id] else []).
  { unfold offer, concerned at 3. destruct (rg_sessions rg !! id) as [s|] eqn:E; [|done].
    replace ((now <? ds_expires_at s) && session_matches s c && session_wants s e)
      with (negb ((ds_expires_at s <=? now) || negb (session_matches s c) || negb (session_wants s e))).
    2: { rewrite !negb_orb, !negb_involutive. f_equal. f_equal. destruct (Z.leb_spec (ds_expires_at s) now), (Z.ltb_spec now (ds_expires_at s)); lia || done. }
    destruct (_ || _ || _); [done|]. cbn [negb]. split_and!; cbn [rg_sessions].
    - intros id' s'. destruct (decide (id' = id)) as [->|Hne]; [|rewrite lookup_insert_ne by done; apply Hk].
      rewrite lookup_insert_eq. intros [= <-]. rewrite count_sent_id. by apply Hk.
    - intros id'. unfold concerned. destruct (decide (id' = id)) as [->|Hne]; [|by rewrite lookup_insert_ne].
      rewrite lookup_insert_eq, E. by destruct (rg_open rg && (length (rg_queue rg) <? dc_capacity cfg)%nat).
    - unfold offered_ids. cbn. by rewrite (Hk _ _ E). }
  destruct (offer cfg now ts c e id rg) as [rg1 out]. destruct H as (Hk1 & Hc1 & Eo).
  specialize (IH rg1 Hk1). destruct (fan_out cfg now ts c e walk rg1) as [rg2 outs]. cbn [snd] in *.
  unfold offered_ids in *. rewrite omap_app, Eo, IH. rewrite (filter_ext _ _ Hc1). by destruct (concerned now c e (rg_sessions rg) id).
Qed.
(** A sweep removes exactly the expired sessions, each with its summary. *)
Lemma sweep_ids_exact ts ids : forall rg, NoDup ids ->
  (sweep_ids cfg ts ids rg).1 = omap (fun id => summary_envelope (dc_node_id cfg) ts <$> rg_sessions rg !! id) ids /\
  (sweep_ids cfg ts ids rg).2 = set_sessions (filter (fun kv => kv.1 ∉ ids) (rg_sessions rg)) rg.
Proof.
  induction ids as [|id ids IH]; intros rg Hnd.
  - split; [done|]. cbn. rewrite map_filter_id by (intros; apply not_elem_of_nil). by destruct rg.
  - apply NoDup_cons in Hnd as [Hid Hnd]. cbn [sweep_ids]. unfold cancel. destruct (rg_sessions rg !! id) as [s|] eqn:E.
    + destruct (IH (set_sessions (delete id (rg_sessions rg)) rg) Hnd) as [H1 H2].
      destruct (sweep_ids _ _ _ _) as [ss rg2]. cbn [fst snd omap list_omap] in *. rewrite E. subst ss rg2. cbn [rg_sessions set_sessions fmap option_fmap option_map].
      split; [f_equal; apply list_omap_ext; apply Forall2_same_length_lookup; split; [done|]|].
      * intros i x y Hx Hy. rewrite Hx in Hy. injection Hy as <-. rewrite lookup_delete_ne; [done|].
        intros ->. apply Hid. by apply (list_elem_of_lookup_2 _ i).
      * unfold set_sessions. cbn. f_equal. apply map_eq. intros k. rewrite !map_lookup_filter.
        destruct (decide (k = id)) as [->|Hne].
        -- rewrite lookup_delete_eq. cbn. rewrite E. cbn. rewrite option_guard_False; [done|]. intros H. apply H. by left.
        -- rewrite lookup_delete_ne by done. destruct (rg_sessions rg !! k); [|done]. cbn. apply option_guard_iff. rewrite not_elem_of_cons. naive_solver.
    + destruct (IH rg Hnd) as [H1 H2]. destruct (sweep_ids _ _ _ _) as [ss rg2]. cbn [fst snd omap list_omap] in *. rewrite E. cbn. subst. split; [done|].
      unfold set_sessions. f_equal. apply map_eq. intros k. rewrite !map_lookup_filter.
      destruct (rg_sessions rg !! k) eqn:Ek; [|done]. cbn. apply option_guard_iff. rewrite not_elem_of_cons. naive_solver.
Qed.

(** In every interleaving of arming, cancelling, finished connections, sweeps
    and the publisher, sessions stay within the node's limit and queued events
    within the channel; an event is offered only for a session that is armed,
    not expired, matches the connection and wants its type, and goes to that
    session's topic; a summary counts exactly the events sent and dropped, modulo
    2^64, since its session was armed; and what the publisher receives is what
    was sent, in order. *)
Theorem diagnostics_exact es rg outs :
  diag_run cfg registry_new es = Some (rg, outs) ->
  (size (rg_sessions rg) <= dl_max_sessions (dc_limits cfg))%nat /\ (length (rg_queue rg) <= dc_capacity cfg)%nat /\
  rg_sessions rg ⊆ told outs /\ all_justified outs /\
  (received_events outs ++ rg_queue rg) `prefix_of` sent_events outs /\
  (rg_open rg = true -> received_events outs ++ rg_queue rg = sent_events outs).
Proof.
  intros H. apply (diag_run_inv _ _ _ _ _ registry_new_inv) in H. destruct H as [Hk Ht Hc Hs Ho Hq Hj]. done.
Qed.
End Sessions.

(** ** A probe reports once *)

Lemma lookup_live (now : Z) (m : gmap str ProbeArm) id a : armed_now now m !! id = Some a <-> m !! id = Some a /\ now < pa_expires_at a.
Proof. unfold armed_now. rewrite map_lookup_filter_Some. done. Qed.
(** A finished connection takes one armed, live and matching probe, if there is
    one, and reports for it; the probe is then gone. *)
Lemma finish_exact now ts c walk probes :
  (list_to_set walk : gset str) = dom (armed_now now probes) ->
  match finish now ts c walk probes with
  | (Some r, probes') => exists id a, probes !! id = Some a /\ now < pa_expires_at a /\ arm_matches a c = true /\
      r = probe_report ts a c /\ probes' = delete id (armed_now now probes)
  | (None, probes') => probes' = armed_now now probes /\
      forall id a, probes !! id = Some a -> now < pa_expires_at a -> arm_matches a c = false
  end.
Proof.
  intros Hw. unfold finish. destruct (List.find _ walk) as [id|] eqn:Ef.
  - apply List.find_some in Ef as [_ Hm]. destruct (armed_now now probes !! id) as [a|] eqn:E; [|done].
    apply lookup_live in E as [E Hl]. by exists id, a.
  - split; [done|]. intros id a Ha Hl. assert (E : armed_now now probes !! id = Some a) by (by apply lookup_live).
    assert (Hin : In id walk).
    { apply list_elem_of_In. apply (elem_of_list_to_set (C := gset str)). rewrite Hw. by apply elem_of_dom_2 in E. }
    pose proof (List.find_none _ _ Ef id Hin) as Hn. cbn in Hn. by rewrite E in Hn.
Qed.

(** ** Examples *)

Module DiagDemo.
Definition cfg : DiagnosticConfig := mkDiagConfig (lit "n1") (mkLimits 60 300 3 1) 1.
Definition spec (id user : string) : DiagnosticSessionSpec :=
  mkSpec (lit id) (lit "rove/replies/a") (lit user) None None None None (list_to_set PER_CONNECTION) 60.
Definition done_by (user : string) : TraceCandidate :=
  mkCandidate (lit "socks") (lit "socks5") None (Some (lit user)) (Some (lit "a.example")) (Some 443) None None (Some (lit "direct"))
    None None None TraceOk None None 3 12.
Definition events : list DiagEvent :=
  [StartSession 0 (spec "r1" "alice"); Finished 5 7 (done_by "ALICE") [lit "r1"]; Finished 6 7 (done_by "alice") [lit "r1"];
   Finished 6 7 (done_by "bob") [lit "r1"]; TakeEvent; CancelSession 9 (lit "r1")].
(** The second event finds the channel full; the third user is another one. *)
Example session_counts : (fun r => (length (sent_events r.2), map (fun o => match o with Summarised e =>
    Some (sm_matched_events (se_summary e), sm_dropped_events (se_summary e)) | _ => None end) (drop 4 r.2))) <$> diag_run cfg registry_new events
  = Some (1%nat, [Some (1, 1)]).
Proof. vm_compute. reflexivity. Qed.
(** One session per user; arming an armed identifier again for another user is not checked. *)
Example rearm_passes_the_user_limit :
  (fun r => sessions_of (lit "bob") (rg_sessions r.1)) <$>
    diag_run cfg registry_new [StartSession 0 (spec "r1" "alice"); StartSession 0 (spec "r2" "bob"); StartSession 0 (spec "r1" "bob")] = Some 2%nat.
Proof. vm_compute. reflexivity. Qed.
(** A session that has expired when another is armed, before the sweep, ends without a summary. *)
Example expiry_without_summary :
  let late := 61 * 10 ^ 9 in
  (fun r => (size (rg_sessions r.1), length r.2)) <$>
    diag_run cfg registry_new [StartSession 0 (spec "r1" "alice"); StartSession late (spec "r2" "bob"); Sweep late 0 [lit "r2"]] = Some (1%nat, 2%nat).
Proof. vm_compute. reflexivity. Qed.
End DiagDemo.

Section DiagWitness.
Import DiagDemo.
Lemma diagnostics_exact_witness : exists rg outs,
  diag_run cfg registry_new events = Some (rg, outs) /\ all_justified cfg outs /\ length (received_events outs) = 1%nat.
Proof.
  destruct (diag_run cfg registry_new events) as [[rg outs]|] eqn:E; [|exfalso; vm_compute in E; discriminate E].
  exists rg, outs. split; [done|]. split; [apply (diagnostics_exact cfg events rg outs E)|].
  vm_compute in E. injection E as _ <-. reflexivity.
Defined.
End DiagWitness.
