(* ===== verification/Mqtt.v ===== *)
(** * Mqtt: the MQTT control channels (src/src/mqtt.rs, src/src/hop_mqtt.rs)

    The node answers user queries, runs synchronisations, arms probes and
    diagnostic sessions, and publishes their results; a hop answers doctor
    requests. Every handler is a task, so the service is a machine whose events
    are deliveries, finished synchronisations, finished connections and the
    ticks of its loop. JSON texts are serde_json's: the decoders are parameters
    and a published message is its value. *)

From Stdlib Require Import ZArith Lia String.
From stdpp Require Import prelude strings list gmap sorting.
From S2P Require Import Sniff.
From S2P Require Import Prelude RustStr Net NetProps RustFmt Util Frame Stream Conn Domain Policy Rab Book Model ModelProps Engine Cache Service Sync Outbound Io Handler Stats AccessLog Diagnostics.

(** ** Configuration ([config.rs]) *)

Record MqttTopics := mkTopics { mt_user_query : str; mt_sync_command : str; mt_node_status : str; mt_probe_trace : str; mt_diagnostics_command : str }.
Record MqttDiagnostics := mkMqttDiagnostics {
  md_default_ttl_secs : Z; md_max_ttl_secs : Z; md_max_sessions : Z; md_max_sessions_per_user : Z; md_channel_capacity : Z
}.
Record MqttConfig := mkMqttConfig {
  mc_enable : bool; mc_broker : str; mc_client_id : str; mc_username : str; mc_password : str; mc_qos : Z; mc_reply_topic_prefix : str;
  mc_topics : MqttTopics; mc_tls : bool; mc_diagnostics : MqttDiagnostics
}.
Definition default_reply_topic_prefix : str := lit "rove/replies/".
Definition default_topics : MqttTopics :=
  mkTopics (lit "rove/user/query") (lit "rove/sync/command") (lit "rove/node/status") (lit "rove/probe/trace") (lit "rove/diagnostics/command").
Definition default_mqtt_diagnostics : MqttDiagnostics := mkMqttDiagnostics 30 300 16 2 256.
Definition default_mqtt_config : MqttConfig := mkMqttConfig false [] [] [] [] 1 default_reply_topic_prefix default_topics false default_mqtt_diagnostics.

Definition effective_max_ttl_secs (d : MqttDiagnostics) : Z := Z.max 1 (md_max_ttl_secs d).
Definition effective_default_ttl_secs (d : MqttDiagnostics) : Z := clamp 1 (effective_max_ttl_secs d) (md_default_ttl_secs d).
Definition effective_max_sessions (d : MqttDiagnostics) : Z := Z.max 1 (md_max_sessions d).
Definition effective_max_sessions_per_user (d : MqttDiagnostics) : Z := clamp 1 (effective_max_sessions d) (md_max_sessions_per_user d).
Definition effective_channel_capacity (d : MqttDiagnostics) : Z := Z.max 1 (md_channel_capacity d).
Definition to_limits (d : MqttDiagnostics) : DiagnosticLimits :=
  mkLimits (effective_default_ttl_secs d) (effective_max_ttl_secs d) (Z.to_nat (effective_max_sessions d)) (Z.to_nat (effective_max_sessions_per_user d)).
Definition effective_client_id (c : MqttConfig) (node_id : str) : str :=
  if negb (is_empty (trim (mc_client_id c))) then trim (mc_client_id c)
  else if negb (is_empty (trim node_id)) then lit "rove-" ++ trim node_id
  else lit "rove".
Definition effective_qos (c : MqttConfig) : Z := if (0 <=? mc_qos c) && (mc_qos c <=? 2) then mc_qos c else 1.
Definition effective_reply_topic_prefix (c : MqttConfig) : str :=
  let prefix := trim (mc_reply_topic_prefix c) in
  let prefix := if is_empty prefix then default_reply_topic_prefix else prefix in
  if ends_with [slash] prefix then prefix else prefix ++ [slash].

(** ** Helpers *)

Definition first_non_empty (values : list (option str)) : option str :=
  List.find (fun v => negb (is_empty v)) (omap (fun v => trim <$> v) values).
(** The wildcards and white space a reply topic must not hold. *)
Definition topic_forbidden (c : Z) : bool := bool_decide (c ∈ [35; 43; 32; 9; 13; 10]).
Definition allowed_reply_topic (topic prefix : str) : bool :=
  let topic := trim topic in
  negb (is_empty topic) && negb (existsb topic_forbidden topic) && starts_with prefix topic.
(** [resolve_event_types] *)
Definition resolve_event_types (raw : option (list str)) : gset DiagnosticEventType :=
  match raw with
  | Some (_ :: _ as tokens) => list_to_set (omap from_token tokens)
  | _ => list_to_set PER_CONNECTION
  end.

(** ** Messages *)

Record UserPolicyQueryData := mkQueryData { qd_request_id : option str; qd_username : option str; qd_client : option str }.
Record UserPolicyQueryMessage := mkQuery {
  qm_request_id : option str; qm_reply_topic : option str; qm_username : option str; qm_client : option str; qm_data : UserPolicyQueryData
}.
Record SyncCommandData := mkSyncData { sd_request_id : option str; sd_syncflag : option str; sd_sync_flag : option str }.
Record SyncCommandMessage := mkSyncCommand { sc_request_id : option str; sc_syncflag : option str; sc_data : SyncCommandData }.
Record ProbeTraceCommandData := mkProbeData {
  pd_request_id : option str; pd_username : option str; pd_client : option str; pd_target_host : option str; pd_host : option str;
  pd_target_port : option Z; pd_port : option Z; pd_protocol : option str; pd_listener : option str; pd_ttl_secs : option Z
}.
Record ProbeTraceCommandMessage := mkProbeCommand { pc_request_id : option str; pc_reply_topic : option str; pc_data : ProbeTraceCommandData }.
Record DiagnosticCommandData := mkCommandData {
  cd_request_id : option str; cd_username : option str; cd_client : option str; cd_target_host : option str; cd_host : option str;
  cd_target_port : option Z; cd_port : option Z; cd_protocol : option str; cd_listener : option str; cd_event_types : option (list str); cd_ttl_secs : option Z
}.
Record DiagnosticCommandMessage := mkCommand {
  dm_command : option str; dm_request_id : option str; dm_reply_topic : option str; dm_data : DiagnosticCommandData
}.
Class MqttJson := {
  query_from_slice : list Z -> option UserPolicyQueryMessage;
  sync_from_slice : list Z -> option SyncCommandMessage;
  probe_from_slice : list Z -> option ProbeTraceCommandMessage;
  diagnostic_from_slice : list Z -> option DiagnosticCommandMessage
}.

Record UserPolicyQueryResponse := mkAnswer {
  qa_request_id : option str; qa_node_id : str; qa_status : str; qa_message : option str; qa_user : option UserPolicyView; qa_timestamp : Z
}.
Record ProbeTraceArmResponse := mkArmed {
  pm_request_id : option str; pm_node_id : str; pm_event : str; pm_status : str; pm_message : option str; pm_ttl_secs : Z; pm_timestamp : Z
}.
Record DiagnosticSessionResponse := mkSessionResponse {
  dr_request_id : option str; dr_node_id : str; dr_event : str; dr_status : str; dr_message : option str; dr_ttl_secs : option Z;
  dr_event_types : list str; dr_timestamp : Z
}.
Record NodeStatusMessage := mkNodeStatus {
  ns_request_id : option str; ns_node_id : str; ns_event : str; ns_status : str; ns_message : option str; ns_syncflag : option str;
  ns_success : bool; ns_updated : bool; ns_already_running : bool; ns_elapsed_ms : option Z; ns_version : str; ns_snapshot_version : Z;
  ns_snapshot_schema_version : Z; ns_timestamp : Z
}.
Inductive Payload :=
| UserAnswer (r : UserPolicyQueryResponse) | NodeStatus (m : NodeStatusMessage) | ProbeArmed (r : ProbeTraceArmResponse)
| ProbeReport (r : ProbeTraceReport) | SessionAnswer (r : DiagnosticSessionResponse) | SessionEvent (e : DiagnosticEvent)
| SessionSummary (s : DiagnosticSummary).

(** [NodeStatusMessage::with_message], [with_syncflag], [with_outcome]; the
    outcome's text is given beside its kind. *)
Definition with_message (message : str) (m : NodeStatusMessage) : NodeStatusMessage :=
  if is_empty (trim message) then m
  else mkNodeStatus (ns_request_id m) (ns_node_id m) (ns_event m) (ns_status m) (Some message) (ns_syncflag m) (ns_success m) (ns_updated m)
         (ns_already_running m) (ns_elapsed_ms m) (ns_version m) (ns_snapshot_version m) (ns_snapshot_schema_version m) (ns_timestamp m).
Definition with_syncflag (flag : option str) (m : NodeStatusMessage) : NodeStatusMessage :=
  match flag with
  | Some flag => mkNodeStatus (ns_request_id m) (ns_node_id m) (ns_event m) (ns_status m) (ns_message m) (Some flag) (ns_success m) (ns_updated m)
         (ns_already_running m) (ns_elapsed_ms m) (ns_version m) (ns_snapshot_version m) (ns_snapshot_schema_version m) (ns_timestamp m)
  | None => m
  end.
Definition with_outcome (o : SyncOutcome) (m : NodeStatusMessage) : NodeStatusMessage :=
  mkNodeStatus (ns_request_id m) (ns_node_id m) (ns_event m) (ns_status m) (ns_message m) (ns_syncflag m) (so_success o) (so_updated o)
    (so_already_running o) (Some (so_elapsed_ms o)) (ns_version m) (so_version o) (ns_snapshot_schema_version m) (ns_timestamp m).

(** ** The service *)

Section Mqtt.
Context {N : Ipnet} {B : BookApi} {D : Chrono} {J : MqttJson}.

Record MqttNode := mkNode { mn_cfg : MqttConfig; mn_node_id : str; mn_version : str }.
Definition diag_config (n : MqttNode) : DiagnosticConfig :=
  mkDiagConfig (mn_node_id n) (to_limits (mc_diagnostics (mn_cfg n))) (Z.to_nat (effective_channel_capacity (mc_diagnostics (mn_cfg n)))).
Definition reply_prefix (n : MqttNode) : str := effective_reply_topic_prefix (mn_cfg n).
(** What a handler reads around it: the clocks and the serving snapshot. *)
Record MqttEnv := mkEnv { me_now : Z; me_ts : Z; me_snapshot : Snapshot }.
(** The sessions and their channel, the probes and theirs (a finished
    connection waits for room in it), the throttle, and the synchronisation
    commands being run, by their request and flag. *)
Record MqttState := mkMqttState {
  mq_registry : DiagnosticRegistry; mq_probes : gmap str ProbeArm; mq_reports : list ProbeTraceReport; mq_last_sync : option Z;
  mq_syncs : list (option str * option str)
}.
Definition mqtt_new : MqttState := mkMqttState registry_new ∅ [] None [].
Inductive MqttOutput := Publish (topic : str) (p : Payload) | SyncStarted (now : Z).

(** [node_status], [publish_node_status], [startup_status] *)
Definition node_status (n : MqttNode) (env : MqttEnv) (request_id : option str) (event status : str) (success : bool) : NodeStatusMessage :=
  mkNodeStatus request_id (mn_node_id n) event status None None success false false None (mn_version n)
    (sn_version (me_snapshot env)) (sn_schema_version (me_snapshot env)) (me_ts env).
Definition publish_node_status (n : MqttNode) (m : NodeStatusMessage) : list MqttOutput :=
  let topic := trim (mt_node_status (mc_topics (mn_cfg n))) in
  if is_empty topic then [] else [Publish topic (NodeStatus m)].
Definition startup_status (n : MqttNode) (env : MqttEnv) : NodeStatusMessage :=
  if 0 <? sn_version (me_snapshot env)
  then with_message (lit "node snapshot is loaded") (node_status n env None (lit "startup") (lit "synced") true)
  else with_message (lit "node has no loaded snapshot") (node_status n env None (lit "startup") (lit "starting") false).
(** The topics [subscribe] subscribes to. *)
Definition subscribed (n : MqttNode) : list str :=
  let t := mc_topics (mn_cfg n) in
  List.filter (fun topic => negb (is_empty topic)) (map trim [mt_user_query t; mt_sync_command t; mt_probe_trace t; mt_diagnostics_command t]).

(** [user_policy_response] *)
Definition user_policy_response (n : MqttNode) (env : MqttEnv) (payload : list Z) : option (str * UserPolicyQueryResponse) :=
  req ← query_from_slice payload;
  let reply_topic := trim (default [] (qm_reply_topic req)) in
  if negb (allowed_reply_topic reply_topic (reply_prefix n)) then None
  else
    let request_id := first_non_empty [qm_request_id req; qd_request_id (qm_data req)] in
    let username := first_non_empty [qd_username (qm_data req); qd_client (qm_data req); qm_username req; qm_client req] in
    let answer status message user := mkAnswer request_id (mn_node_id n) status message user (me_ts env) in
    Some (reply_topic,
      match username with
      | Some username =>
          match user_policy (me_snapshot env) username with
          | Some user => answer (lit "ok") None (Some user)
          | None => answer (lit "not_found") (Some (lit "user not found")) None
          end
      | None => answer (lit "bad_request") (Some (lit "username is required")) None
      end).
Definition handle_user_policy_query (n : MqttNode) (env : MqttEnv) (payload : list Z) : list MqttOutput :=
  match user_policy_response n env payload with Some (topic, r) => [Publish topic (UserAnswer r)] | None => [] end.

(** [parse_sync_command]; an empty payload is an empty command. *)
Definition parse_sync_command (payload : list Z) : option SyncCommandMessage :=
  if is_empty (trim (from_utf8_lossy payload)) then Some (mkSyncCommand None None (mkSyncData None None None))
  else sync_from_slice payload.
(** [allow_sync_command]; [duration_since] is zero for an earlier instant. *)
Definition allow_sync_command (now : Z) (st : MqttState) : option MqttState :=
  let throttled := match mq_last_sync st with Some t => Z.max 0 (now - t) <? nanos 5 | None => false end in
  if throttled then None else Some (mkMqttState (mq_registry st) (mq_probes st) (mq_reports st) (Some now) (mq_syncs st)).
(** [handle_sync_command] up to [try_sync_once] *)
Definition handle_sync_command (n : MqttNode) (env : MqttEnv) (payload : list Z) (st : MqttState) : MqttState * list MqttOutput :=
  match parse_sync_command payload with
  | None => (st, publish_node_status n (with_message (lit "invalid sync command payload")
                   (node_status n env None (lit "sync_command") (lit "bad_request") false)))
  | Some req =>
      let request_id := first_non_empty [sc_request_id req; sd_request_id (sc_data req)] in
      let syncflag := first_non_empty [sd_syncflag (sc_data req); sd_sync_flag (sc_data req); sc_syncflag req] in
      match allow_sync_command (me_now env) st with
      | None => (st, publish_node_status n (with_syncflag syncflag (with_message (lit "sync command ignored because throttle window is active")
                       (node_status n env request_id (lit "sync_command") (lit "throttled") false))))
      | Some st =>
          (mkMqttState (mq_registry st) (mq_probes st) (mq_reports st) (mq_last_sync st) (mq_syncs st ++ [(request_id, syncflag)]),
           [SyncStarted (me_now env)])
      end
  end.
(** The rest of it, with the outcome and its text *)
Definition sync_finished (n : MqttNode) (env : MqttEnv) (o : SyncOutcome) (message : str) (asked : option str * option str) : list MqttOutput :=
  let status := if so_already_running o then lit "throttled" else if so_success o then lit "ok" else lit "error" in
  publish_node_status n (with_outcome o (with_syncflag asked.2 (with_message message
    (node_status n env asked.1 (lit "sync_command") status (so_success o))))).

(** [handle_probe_trace_command] *)
Definition handle_probe_trace_command (n : MqttNode) (env : MqttEnv) (payload : list Z) (st : MqttState) : MqttState * list MqttOutput :=
  match probe_from_slice payload with
  | None => (st, [])
  | Some req =>
      let reply_topic := trim (default [] (pc_reply_topic req)) in
      if negb (allowed_reply_topic reply_topic (reply_prefix n)) then (st, [])
      else
        let d := pc_data req in
        let request_id := default (lit "probe-" ++ fmt_dec (me_ts env)) (first_non_empty [pc_request_id req; pd_request_id d]) in
        let ttl_secs := clamp 1 300 (default 30 (pd_ttl_secs d)) in
        let base := probe_arm_new (me_now env) request_id reply_topic ttl_secs in
        let probe := mkArm request_id reply_topic (first_non_empty [pd_username d; pd_client d]) (first_non_empty [pd_target_host d; pd_host d])
          (match pd_target_port d with Some p => Some p | None => pd_port d end) (to_ascii_lowercase <$> pd_protocol d) (pd_listener d)
          (pa_expires_at base) in
        (mkMqttState (mq_registry st) (arm probe (mq_probes st)) (mq_reports st) (mq_last_sync st) (mq_syncs st),
         [Publish reply_topic (ProbeArmed (mkArmed (Some request_id) (mn_node_id n) (lit "probe_trace_armed") (lit "ok")
            (Some (lit "probe trace armed")) ttl_secs (me_ts env)))])
  end.

(** [DiagnosticStartPlan], [plan_diagnostic_start] *)
Inductive DiagnosticStartPlan :=
| Ignore
| BadRequest (reply_topic request_id message : str)
| Arm (reply_topic request_id : str) (spec : DiagnosticSessionSpec).
Definition plan_diagnostic_start (n : MqttNode) (env : MqttEnv) (req : DiagnosticCommandMessage) : DiagnosticStartPlan :=
  let reply_topic := trim (default [] (dm_reply_topic req)) in
  if negb (allowed_reply_topic reply_topic (reply_prefix n)) then Ignore
  else
    let d := dm_data req in
    let request_id := default (lit "diag-" ++ fmt_dec (me_ts env)) (first_non_empty [dm_request_id req; cd_request_id d]) in
    match first_non_empty [cd_username d; cd_client d] with
    | None => BadRequest reply_topic request_id (lit "username is required")
    | Some username =>
        Arm reply_topic request_id
          (mkSpec request_id reply_topic username (first_non_empty [cd_target_host d; cd_host d])
             (match cd_target_port d with Some p => Some p | None => cd_port d end) (to_ascii_lowercase <$> cd_protocol d)
             (first_non_empty [cd_listener d]) (resolve_event_types (cd_event_types d))
             (clamp_ttl (to_limits (mc_diagnostics (mn_cfg n))) (cd_ttl_secs d)))
    end.
Definition rejection_message (r : StartRejection) : str :=
  match r with
  | GlobalLimit => lit "diagnostic session limit reached for this node"
  | UserLimit => lit "diagnostic session limit reached for this user"
  end.
Definition diagnostic_response (n : MqttNode) (env : MqttEnv) (request_id event status message : str) (ttl : option Z) (types : list str) : Payload :=
  SessionAnswer (mkSessionResponse (Some request_id) (mn_node_id n) event status (Some message) ttl types (me_ts env)).
Definition set_registry (rg : DiagnosticRegistry) (st : MqttState) : MqttState :=
  mkMqttState rg (mq_probes st) (mq_reports st) (mq_last_sync st) (mq_syncs st).
(** [start_diagnostic_session] *)
Definition start_diagnostic_session (n : MqttNode) (env : MqttEnv) (req : DiagnosticCommandMessage) (st : MqttState) : MqttState * list MqttOutput :=
  match plan_diagnostic_start n env req with
  | Ignore => (st, [])
  | BadRequest topic id message =>
      (st, [Publish topic (diagnostic_response n env id (lit "diagnostic_session_rejected") (lit "bad_request") message None [])])
  | Arm topic id spec =>
      match start (diag_config n) (me_now env) spec (mq_registry st) with
      | (Ok a, rg) =>
          (set_registry rg st, [Publish topic (diagnostic_response n env id (lit "diagnostic_session_started") (lit "ok")
             (lit "diagnostic session armed") (Some (sa_ttl_secs a)) (map event_type_str (sa_event_types a)))])
      | (Err why, rg) =>
          (set_registry rg st, [Publish topic (diagnostic_response n env id (lit "diagnostic_session_rejected") (lit "throttled")
             (rejection_message why) None [])])
      end
  end.
Definition publish_summary (s : SummaryEnvelope) : MqttOutput := Publish (se_reply_topic s) (SessionSummary (se_summary s)).
(** [cancel_diagnostic_session] *)
Definition cancel_diagnostic_session (n : MqttNode) (env : MqttEnv) (req : DiagnosticCommandMessage) (st : MqttState) : MqttState * list MqttOutput :=
  match first_non_empty [dm_request_id req; cd_request_id (dm_data req)] with
  | None => (st, [])
  | Some id =>
      let '(s, rg) := cancel (diag_config n) (me_ts env) id (mq_registry st) in
      (set_registry rg st, match s with Some s => [publish_summary s] | None => [] end)
  end.
Definition handle_diagnostics_command (n : MqttNode) (env : MqttEnv) (payload : list Z) (st : MqttState) : MqttState * list MqttOutput :=
  match diagnostic_from_slice payload with
  | None => (st, [])
  | Some req =>
      let command := to_ascii_lowercase (trim (default [] (dm_command req))) in
      if is_empty command || str_eqb command (lit "diagnostic_session_start") then start_diagnostic_session n env req st
      else if str_eqb command (lit "diagnostic_session_cancel") then cancel_diagnostic_session n env req st
      else (st, [])
  end.
(** [handle_publish] *)
Definition handle_publish (n : MqttNode) (env : MqttEnv) (topic : str) (payload : list Z) (st : MqttState) : MqttState * list MqttOutput :=
  let t := mc_topics (mn_cfg n) in
  if str_eqb topic (mt_user_query t) then (st, handle_user_policy_query n env payload)
  else if str_eqb topic (mt_sync_command t) then handle_sync_command n env payload st
  else if str_eqb topic (mt_probe_trace t) then handle_probe_trace_command n env payload st
  else if str_eqb topic (mt_diagnostics_command t) then handle_diagnostics_command n env payload st
  else (st, []).

Inductive MqttEvent :=
| ConnAck (env : MqttEnv)
| Delivered (env : MqttEnv) (topic : str) (payload : list Z)
| SyncDone (i : nat) (env : MqttEnv) (o : SyncOutcome) (message : str)
| Connection (now ts : Z) (c : TraceCandidate) (sessions probes : list str)
| ReportReady
| EventReady
| SweepTick (now ts : Z) (walk : list str).
(** One turn of [run]'s loop, a handler task's step, or a connection reporting
    to the registry and the tracer. *)
Definition mqtt_step (n : MqttNode) (st : MqttState) (e : MqttEvent) : option (MqttState * list MqttOutput) :=
  match e with
  | ConnAck env => Some (st, publish_node_status n (startup_status n env))
  | Delivered env topic payload => Some (handle_publish n env topic payload st)
  | SyncDone i env o message =>
      asked ← mq_syncs st !! i;
      Some (mkMqttState (mq_registry st) (mq_probes st) (mq_reports st) (mq_last_sync st) (delete i (mq_syncs st)), sync_finished n env o message asked)
  | Connection now ts c sessions probes =>
      if is_walk sessions (rg_sessions (mq_registry st)) && is_walk probes (armed_now now (mq_probes st)) then
        let rg := (record (diag_config n) now ts c sessions (mq_registry st)).1 in
        let '(r, arms) := finish now ts c probes (mq_probes st) in
        Some (mkMqttState rg arms (mq_reports st ++ option_list r) (mq_last_sync st) (mq_syncs st), [])
      else None
  | ReportReady =>
      match mq_reports st with
      | r :: rs => Some (mkMqttState (mq_registry st) (mq_probes st) rs (mq_last_sync st) (mq_syncs st), [Publish (pr_reply_topic r) (ProbeReport r)])
      | [] => None
      end
  | EventReady =>
      match rg_queue (mq_registry st) with
      | e :: queue => Some (set_registry (mkRegistry (rg_sessions (mq_registry st)) queue (rg_open (mq_registry st))) st,
                            [Publish (en_reply_topic e) (SessionEvent (en_event e))])
      | [] => None
      end
  | SweepTick now ts walk =>
      if is_walk walk (rg_sessions (mq_registry st)) then
        let '(ss, rg) := sweep_expired (diag_config n) now ts walk (mq_registry st) in
        Some (set_registry rg st, map publish_summary ss)
      else None
  end.
Fixpoint mqtt_run (n : MqttNode) (st : MqttState) (es : list MqttEvent) : option (MqttState * list MqttOutput) :=
  match es with
  | [] => Some (st, [])
  | e :: es => '(st, out) ← mqtt_step n st e; '(st, outs) ← mqtt_run n st es; Some (st, out ++ outs)
  end.
End Mqtt.

(** ** The broker *)

(** The url crate on a broker address. *)
Record BrokerUrl := mkBrokerUrl { bu_scheme : str; bu_host : option str; bu_port : option Z; bu_username : str; bu_password : option str }.
Class BrokerUrls := {
  broker_parse : str -> option BrokerUrl;
  broker_text : BrokerUrl -> str;
  set_scheme : BrokerUrl -> str -> option BrokerUrl
}.
Inductive BrokerError := BadBrokerUrl | BrokerHostRequired | UnsupportedScheme | SchemeNotRewritten.
Inductive BrokerTransport := PlainTcp | TlsDefault.
Record MqttOptions := mkOptions { mo_client_id : str; mo_host : str; mo_port : Z; mo_transport : BrokerTransport; mo_credentials : option (str * str) }.
Definition tcp_scheme (s : str) : bool := str_eqb s (lit "tcp") || str_eqb s (lit "mqtt").
Definition tls_scheme (s : str) : bool := existsb (fun t => str_eqb s (lit t)) ["ssl"; "tls"; "tcps"; "mqtts"]%string.
(** [mqtt_default_port], and the transport of a scheme *)
Definition mqtt_default_port (scheme : str) : result BrokerError Z :=
  if tcp_scheme scheme then Ok 1883 else if tls_scheme scheme then Ok 8883 else Err UnsupportedScheme.
Definition broker_transport (scheme : str) : result BrokerError BrokerTransport :=
  if tcp_scheme scheme then Ok PlainTcp else if tls_scheme scheme then Ok TlsDefault else Err UnsupportedScheme.
(** [normalize_broker] *)
Definition normalize_broker {U : BrokerUrls} (broker : str) (tls_enabled : bool) : result BrokerError str :=
  if negb tls_enabled then Ok (trim broker)
  else
    url ← ok_or (broker_parse (trim broker)) BadBrokerUrl;
    let scheme := to_ascii_lowercase (bu_scheme url) in
    if tls_scheme scheme then Ok (broker_text url)
    else if tcp_scheme scheme then url ← ok_or (set_scheme url (lit "ssl")) SchemeNotRewritten; Ok (broker_text url)
    else Err UnsupportedScheme.
Definition options_of (client_id username password : str) (url : BrokerUrl) : result BrokerError MqttOptions :=
  host ← ok_or (bu_host url) BrokerHostRequired;
  let scheme := to_ascii_lowercase (bu_scheme url) in
  transport ← broker_transport scheme;
  default_port ← mqtt_default_port scheme;
  let credentials :=
    if negb (is_empty (trim username)) then Some (trim username, password)
    else if negb (is_empty (bu_username url)) then Some (bu_username url, default [] (bu_password url))
    else None in
  Ok (mkOptions client_id host (default default_port (bu_port url)) transport credentials).
(** [MqttService::mqtt_options], [mqtt_broker_log_target] *)
Definition mqtt_options {U : BrokerUrls} (c : MqttConfig) (node_id : str) : result BrokerError MqttOptions :=
  broker ← normalize_broker (mc_broker c) (mc_tls c);
  url ← ok_or (broker_parse broker) BadBrokerUrl;
  options_of (effective_client_id c node_id) (mc_username c) (mc_password c) url.
Definition mqtt_broker_log_target {U : BrokerUrls} (broker : str) (tls_enabled : bool) : result BrokerError (str * str * Z) :=
  broker ← normalize_broker broker tls_enabled;
  url ← ok_or (broker_parse broker) BadBrokerUrl;
  let scheme := to_ascii_lowercase (bu_scheme url) in
  host ← ok_or (bu_host url) BrokerHostRequired;
  default_port ← mqtt_default_port scheme;
  Ok (scheme, host, default default_port (bu_port url)).

(** ** The hop's doctor channel ([hop_mqtt.rs]) *)

Record HopMqttConfig := mkHopMqtt { hm_broker : str; hm_hop_id : str; hm_client_id : str; hm_username : str; hm_password : str; hm_reply_topic_prefix : str }.
Inductive HopMqttError := BrokerRequired | EmptyHopId | LongHopId | BadHopId | BadReplyPrefix.
Definition hop_id_char (c : Z) : bool := is_ascii_digit c || is_ascii_uppercase c || is_ascii_lowercase c || bool_decide (c ∈ [45; 95; 46]).
Definition validate_hop_id (hop_id : str) : result HopMqttError unit :=
  let hop_id := trim hop_id in
  ensure (negb (is_empty hop_id)) EmptyHopId ;;
  ensure (length hop_id <=? 64)%nat LongHopId ;;
  ensure (forallb hop_id_char hop_id) BadHopId.
Definition doctor_topic (hop_id : str) : str := lit "rove/hop/" ++ hop_id ++ lit "/doctor".
Definition effective_reply_prefix (c : HopMqttConfig) : str :=
  let prefix := trim (hm_reply_topic_prefix c) in if is_empty prefix then lit "rove/replies/" else prefix.
Definition hop_client_id (c : HopMqttConfig) : str :=
  let id := trim (hm_client_id c) in if is_empty id then lit "rove-hop-" ++ hm_hop_id c else id.
Definition validate (c : HopMqttConfig) : result HopMqttError unit :=
  ensure (negb (is_empty (trim (hm_broker c)))) BrokerRequired ;;
  validate_hop_id (hm_hop_id c) ;;
  let prefix := effective_reply_prefix c in
  ensure (negb (is_empty prefix) && negb (existsb topic_forbidden prefix)) BadReplyPrefix.
Definition hop_mqtt_options {U : BrokerUrls} (c : HopMqttConfig) : result BrokerError MqttOptions :=
  url ← ok_or (broker_parse (trim (hm_broker c))) BadBrokerUrl;
  options_of (hop_client_id c) (hm_username c) (hm_password c) url.

Record HopDoctorData := mkDoctorData { hd_request_id : option str; hd_target : option str; hd_trace : option bool; hd_timeout_ms : option Z; hd_max_hops : option Z }.
Record HopDoctorCommand := mkDoctorCommand { hc_command : option str; hc_request_id : option str; hc_reply_topic : option str; hc_data : HopDoctorData }.
Class DoctorJson := doctor_from_slice : list Z -> option HopDoctorCommand.
Record PlannedDoctor := mkPlan { pl_request_id : option str; pl_reply_topic : str; pl_target : str; pl_trace : bool; pl_timeout_ms : Z; pl_max_hops : Z }.
Record DoctorReject := mkReject { rj_request_id : option str; rj_reply_topic : str; rj_status : str; rj_message : str }.
Inductive PlanOutcome := Drop | Reject (r : DoctorReject) | Run (p : PlannedDoctor).
Definition clamp_timeout (ms : Z) : Z := clamp 500 30000 ms.
Definition doctor_commands : list string := ["hop_egress_doctor"; "doctor"; "egress"; "egress_doctor"]%string.
(** [plan_doctor_command]; [debug] is the quoting of a text in an error. *)
Definition plan_doctor_command {DJ : DoctorJson} (debug : str -> str) (c : HopMqttConfig) (payload : list Z) : PlanOutcome :=
  match doctor_from_slice payload with
  | None => Drop
  | Some parsed =>
      let d := hc_data parsed in
      let request_id := first_non_empty [hc_request_id parsed; hd_request_id d] in
      match first_non_empty [hc_reply_topic parsed] with
      | None => Drop
      | Some reply_topic =>
          if negb (allowed_reply_topic reply_topic (effective_reply_prefix c)) then Drop
          else
            let reject message := Reject (mkReject request_id reply_topic (lit "bad_request") message) in
            let unknown := match first_non_empty [hc_command parsed] with
                           | Some command => if existsb (fun k => str_eqb command (lit k)) doctor_commands then None else Some command
                           | None => None
                           end in
            match unknown with
            | Some command => reject (lit "unknown hop doctor command " ++ debug command)
            | None =>
                match first_non_empty [hd_target d] with
                | None => reject (lit "target is required")
                | Some target =>
                    Run (mkPlan request_id reply_topic target (default false (hd_trace d)) (clamp_timeout (default 5000 (hd_timeout_ms d)))
                      (match hd_max_hops d with Some hops => if (1 <=? hops) && (hops <=? 64) then hops else 20 | None => 20 end))
                end
            end
      end
  end.

(** A doctor report is the egress diagnostic's; [None] is a target it refuses. *)
Section Doctor.
Context {DJ : DoctorJson} {Report : Type} (debug : str -> str).
Record HopDoctorStatusReply := mkStatusReply { sr_request_id : option str; sr_hop_id : str; sr_event : str; sr_status : str; sr_message : str }.
Inductive DoctorReply := StatusReply (r : HopDoctorStatusReply) | ReportReply (request_id : option str) (hop_id : str) (report : Report).
Inductive DoctorOutput := DoctorPublish (topic : str) (r : DoctorReply) | DoctorStarted (p : PlannedDoctor).
Definition status_reply (request_id : option str) (hop_id status message : str) : DoctorReply :=
  StatusReply (mkStatusReply request_id hop_id (lit "hop_egress_doctor") status message).
Inductive DoctorEvent := DoctorDelivered (topic : str) (payload : list Z) | DoctorFinished (r : result str Report).
(** [handle_doctor]; the state is the request holding the one permit. *)
Definition doctor_step (c : HopMqttConfig) (running : option PlannedDoctor) (e : DoctorEvent) : option (option PlannedDoctor * list DoctorOutput) :=
  match e with
  | DoctorDelivered topic payload =>
      if negb (str_eqb topic (doctor_topic (hm_hop_id c))) then Some (running, [])
      else
        match plan_doctor_command debug c payload with
        | Drop => Some (running, [])
        | Reject r => Some (running, [DoctorPublish (rj_reply_topic r) (status_reply (rj_request_id r) (hm_hop_id c) (rj_status r) (rj_message r))])
        | Run p =>
            match running with
            | Some _ => Some (running, [DoctorPublish (pl_reply_topic p) (status_reply (pl_request_id p) (hm_hop_id c) (lit "throttled")
                           (lit "another hop doctor request is still running"))])
            | None => Some (Some p, [DoctorStarted p])
            end
        end
  | DoctorFinished r =>
      p ← running;
      Some (None, [DoctorPublish (pl_reply_topic p) (match r with
        | Ok report => ReportReply (pl_request_id p) (hm_hop_id c) report
        | Err message => status_reply (pl_request_id p) (hm_hop_id c) (lit "bad_request") message
        end)])
  end.
Fixpoint doctor_run (c : HopMqttConfig) (running : option PlannedDoctor) (es : list DoctorEvent) : option (option PlannedDoctor * list DoctorOutput) :=
  match es with
  | [] => Some (running, [])
  | e :: es => '(r, out) ← doctor_step c running e; '(r, outs) ← doctor_run c r es; Some (r, out ++ outs)
  end.
End Doctor.

(** * What the control channel guarantees

    Answers only go to concrete topics under the configured prefix, status only
    to the status topic; synchronisations asked for over MQTT are five seconds
    apart; nothing published depends on a credential; and the published session
    messages are those of the session registry. *)

(** A topic under a prefix, without wildcards or white space. *)
Definition concrete_under (prefix topic : str) : Prop := starts_with prefix topic = true /\ Forall (fun c => topic_forbidden c = false) topic.
Lemma allowed_concrete t prefix : allowed_reply_topic (trim t) prefix = true -> concrete_under prefix (trim t).
Proof.
  unfold allowed_reply_topic. rewrite trim_idem. intros [[_ H%negb_true_iff]%andb_true_iff Hs]%andb_true_iff. split; [done|].
  apply Forall_forall. intros c Hc. destruct (topic_forbidden c) eqn:E; [|done].
  assert (existsb topic_forbidden (trim t) = true); [|congruence]. apply existsb_exists. exists c. split; [by apply list_elem_of_In|done].
Qed.
(** The effective prefix always ends in a slash. *)
Lemma effective_prefix_slash c : ends_with [slash] (effective_reply_topic_prefix c) = true.
Proof.
  unfold effective_reply_topic_prefix. set (p := if is_empty _ then _ else _). destruct (ends_with [slash] p) eqn:E; [done|].
  unfold ends_with. rewrite rev_app_distr. done.
Qed.
(** The effective bounds are ordered and never zero. *)
Lemma to_limits_bounds d : let l := to_limits d in
  1 <= dl_default_ttl l <= dl_max_ttl l /\ (1 <= dl_max_sessions_per_user l <= dl_max_sessions l)%nat.
Proof.
  cbn. unfold effective_default_ttl_secs, effective_max_ttl_secs, effective_max_sessions_per_user, effective_max_sessions, clamp. lia.
Qed.
Lemma clamp_ttl_bounds d secs : 1 <= clamp_ttl (to_limits d) secs <= effective_max_ttl_secs d.
Proof. unfold clamp_ttl, clamp. cbn. unfold effective_max_ttl_secs. destruct secs; lia. Qed.

(** ** Topics of the registry *)

Section Topics.
Context (P : str -> Prop) (cfg : DiagnosticConfig).
Definition reg_topics (rg : DiagnosticRegistry) : Prop :=
  (forall id s, rg_sessions rg !! id = Some s -> P (ds_reply_topic s)) /\ Forall (fun e => P (en_reply_topic e)) (rg_queue rg).
Lemma start_topics now spec rg : reg_topics rg -> P (sp_reply_topic spec) -> reg_topics (start cfg now spec rg).2.
Proof.
  intros [Hs Hq] Hp. assert (Hl : forall id s, live now (rg_sessions rg) !! id = Some s -> P (ds_reply_topic s)).
  { intros id s H. apply (Hs id). apply (lookup_weaken _ _ _ _ H), live_subset. }
  unfold start. destruct (_ && _)%bool; [by split|]. destruct (_ && _)%bool; [by split|]. split; [|done]. cbn.
  intros id s. destruct (decide (id = sp_request_id spec)) as [->|]; [rewrite lookup_insert_eq; by intros [= <-]|rewrite lookup_insert_ne by done; apply Hl].
Qed.
Lemma cancel_topics ts id rg : reg_topics rg -> reg_topics (cancel cfg ts id rg).2 /\ forall e, (cancel cfg ts id rg).1 = Some e -> P (se_reply_topic e).
Proof.
  intros [Hs Hq]. unfold cancel. destruct (rg_sessions rg !! id) as [s|] eqn:E; [|done]. split; [split; [|done]|].
  - cbn. intros id' s' [_ H]%lookup_delete_Some. by apply (Hs id').
  - intros e [= <-]. by apply (Hs id).
Qed.
Lemma sweep_topics ts ids : forall rg, reg_topics rg -> reg_topics (sweep_ids cfg ts ids rg).2 /\ Forall (fun e => P (se_reply_topic e)) (sweep_ids cfg ts ids rg).1.
Proof.
  induction ids as [|id ids IH]; intros rg H; [by split|]. cbn [sweep_ids]. destruct (cancel_topics ts id rg H) as [H1 H2].
  destruct (cancel cfg ts id rg) as [s rg1]. cbn [fst snd] in *. destruct (IH rg1 H1) as [H3 H4].
  destruct (sweep_ids cfg ts ids rg1) as [ss rg2]. split; [done|]. destruct s as [s|]; [|done]. constructor; [by apply H2|done].
Qed.
Lemma record_topics now ts c walk rg : reg_topics rg -> reg_topics (record cfg now ts c walk rg).1.
Proof.
  unfold record. destruct (event_type_of c) as [e|]; [|done]. revert rg. induction walk as [|id walk IH]; intros rg H; [done|]. cbn [fan_out].
  assert (H1 : reg_topics (offer cfg now ts c e id rg).1).
  { destruct H as [Hs Hq]. unfold offer. destruct (rg_sessions rg !! id) as [s|] eqn:E; [|by split]. destruct (_ || _ || _); [by split|].
    pose proof (Hs _ _ E) as Hp. set (sent := _ && _). split; cbn.
    - intros id' s'. destruct (decide (id' = id)) as [->|]; [rewrite lookup_insert_eq; intros [= <-]; by destruct sent|rewrite lookup_insert_ne by done; apply Hs].
    - destruct sent; [|done]. apply Forall_app. split; [done|]. by constructor. }
  destruct (offer cfg now ts c e id rg) as [rg1 out]. specialize (IH rg1 H1). by destruct (fan_out cfg now ts c e walk rg1).
Qed.
End Topics.

(** ** Credentials *)

Section Secrets.
Context {N : Ipnet} {B : BookApi} {D : Chrono} {J : MqttJson}.
Definition scrub_secret (o : option str) : option str := (fun _ => []) <$> o.
Definition scrub_upstream (u : Upstream) : Upstream :=
  mkUpstream (up_kind u) (up_addr u) (scrub_secret (up_username u)) (scrub_secret (up_password u)) (up_tls u) (up_skip_cert_verify u).
Definition scrub_member (m : ChainMember) : ChainMember := mkChainMember (cm_id m) (cm_priority m) (scrub_upstream (cm_upstream m)).
Definition scrub_egress (e : Egress) : Egress :=
  mkEgress (eg_id e) (match eg_kind e with KUpstream u => KUpstream (scrub_upstream u) | KChain c => KChain (mkChain (ch_id c) (map scrub_member (ch_members c))) end).
Definition scrub_action (a : RouteAction) : RouteAction := match a with ToEgress e => ToEgress (scrub_egress e) | a => a end.
Definition scrub_policy (p : RoutingPolicy) : RoutingPolicy :=
  mkPolicy (map (fun r => mkRoute (ro_selectors r) (ro_selector_rules r) (scrub_action (ro_action r))) (po_routes p))
    (scrub_action (po_default_action p)) (po_index p).
(** A snapshot with every password, upstream user name and front-end credential blanked. *)
Definition scrub (s : Snapshot) : Snapshot :=
  mkSnapshot (sn_version s) (sn_schema_version s)
    ((fun u => mkUser [] (us_expire u) (us_up_rate u) (us_down_rate u) (us_max_connections u) (us_policy u) ∅) <$> sn_users s)
    (scrub_policy <$> sn_policies s) ∅.
Definition scrub_env (e : MqttEnv) : MqttEnv := mkEnv (me_now e) (me_ts e) (scrub (me_snapshot e)).
Definition scrub_event (e : MqttEvent) : MqttEvent :=
  match e with
  | ConnAck env => ConnAck (scrub_env env)
  | Delivered env topic payload => Delivered (scrub_env env) topic payload
  | SyncDone i env o message => SyncDone i (scrub_env env) o message
  | e => e
  end.

Lemma scrub_upstream_auth u : has_auth (scrub_upstream u) = has_auth u.
Proof. destruct u as [k a un pw t sk]. unfold has_auth. cbn. by destruct un, pw. Qed.
Lemma action_view_scrub a : action_view (scrub_action a) = action_view a.
Proof.
  destruct a as [[id [u|c]]| |]; [| |done..]; cbn; unfold egress_view; cbn; do 3 f_equal.
  - unfold upstream_view. by rewrite scrub_upstream_auth.
  - unfold chain_view. cbn. do 2 f_equal. rewrite map_map. apply map_ext. intros m. cbn. by rewrite scrub_upstream_auth.
Qed.
Lemma user_policy_scrub s user : user_policy (scrub s) user = user_policy s user.
Proof.
  unfold user_policy. cbn. rewrite lookup_fmap. destruct (sn_users s !! user) as [u|]; [|done]. cbn. do 2 f_equal.
  rewrite lookup_fmap. destruct (sn_policies s !! us_policy u) as [p|]; [|done]. cbn. f_equal. unfold policy_view. cbn.
  rewrite action_view_scrub, map_map. f_equal. apply map_ext. intros r. unfold route_view. cbn. by rewrite action_view_scrub.
Qed.
Lemma mqtt_step_scrub n st e : mqtt_step n st (scrub_event e) = mqtt_step n st e.
Proof.
  destruct e as [env|env topic payload|i env o message| | | |]; try done. cbn [scrub_event mqtt_step]. f_equal. unfold handle_publish. cbv zeta.
  destruct (str_eqb topic (mt_user_query (mc_topics (mn_cfg n)))); [|done]. f_equal. unfold handle_user_policy_query, user_policy_response.
  destruct (query_from_slice payload) as [q|]; [|done]. cbn -[user_policy first_non_empty]. destruct (negb _); [done|].
  destruct (first_non_empty [qd_username (qm_data q); _; _; _]) as [u|]; [|done]. by rewrite user_policy_scrub.
Qed.
Lemma mqtt_run_scrub n es : forall st, mqtt_run n st (map scrub_event es) = mqtt_run n st es.
Proof.
  induction es as [|e es IH]; intros st; [done|]. cbn [map mqtt_run]. rewrite mqtt_step_scrub.
  destruct (mqtt_step n st e) as [[st1 o]|]; [|done]. cbn. by rewrite IH.
Qed.
End Secrets.

(** ** The service as an interleaving *)

Section Service.
Context {N : Ipnet} {B : BookApi} {D : Chrono} {J : MqttJson}.
Context (n : MqttNode).

Definition under : str -> Prop := concrete_under (reply_prefix n).
Definition status_topic : str := trim (mt_node_status (mc_topics (mn_cfg n))).
Definition output_ok (o : MqttOutput) : Prop :=
  match o with
  | Publish topic (NodeStatus _) => topic = status_topic /\ topic <> []
  | Publish topic _ => under topic
  | SyncStarted _ => True
  end.
Definition started (outs : list MqttOutput) : list Z := omap (fun o => match o with SyncStarted t => Some t | _ => None end) outs.
Definition apart (a b : Z) : Prop := a + nanos 5 <= b.
(** The session messages: those published, those of the registry. *)
Definition session_message (o : MqttOutput) : option (str * (DiagnosticEvent + DiagnosticSummary)) :=
  match o with
  | Publish topic (SessionEvent e) => Some (topic, inl e)
  | Publish topic (SessionSummary s) => Some (topic, inr s)
  | _ => None
  end.
Definition registry_message (o : DiagOutput) : option (str * (DiagnosticEvent + DiagnosticSummary)) :=
  match o with
  | Received e => Some (en_reply_topic e, inl (en_event e))
  | Summarised s => Some (se_reply_topic s, inr (se_summary s))
  | _ => None
  end.

Record mqtt_inv (outs : list MqttOutput) (st : MqttState) : Prop := {
  mi_registry : reg_topics under (mq_registry st);
  mi_probes : forall id a, mq_probes st !! id = Some a -> under (pa_reply_topic a);
  mi_reports : Forall (fun r => under (pr_reply_topic r)) (mq_reports st);
  mi_outputs : Forall output_ok outs;
  mi_throttle : mq_last_sync st = last (started outs);
  mi_apart : Sorted apart (started outs);
  mi_sessions : exists douts, diag_inv (diag_config n) douts (mq_registry st) /\ omap session_message outs = omap registry_message douts
}.

Lemma publish_status_ok m : Forall output_ok (publish_node_status n m) /\ started (publish_node_status n m) = [] /\
  omap session_message (publish_node_status n m) = [].
Proof. unfold publish_node_status. destruct (is_empty (trim _)) eqn:E; [done|]. apply is_empty_false in E. split; [|done]. by repeat constructor. Qed.
(** A step that starts no synchronisation and only touches the registry. *)
Lemma mqtt_quiet outs st rg probes reports syncs out dout :
  mqtt_inv outs st -> reg_topics under rg -> (forall id a, probes !! id = Some a -> under (pa_reply_topic a)) ->
  Forall (fun r => under (pr_reply_topic r)) reports -> Forall output_ok out -> started out = [] ->
  (forall douts, diag_inv (diag_config n) douts (mq_registry st) -> diag_inv (diag_config n) (douts ++ dout) rg) ->
  omap session_message out = omap registry_message dout ->
  mqtt_inv (outs ++ out) (mkMqttState rg probes reports (mq_last_sync st) syncs).
Proof.
  intros [Hr Hp Hrep Ho Ht Ha (douts & Hd & Em)] Hr' Hp' Hrep' Ho' Es Hd' Em'.
  split; cbn; try done; unfold started in *; rewrite ?omap_app, ?Es, ?app_nil_r; try done.
  - by apply Forall_app.
  - exists (douts ++ dout). split; [by apply Hd'|]. by rewrite !omap_app, Em, Em'.
Qed.
Lemma quiet_only outs st out : mqtt_inv outs st -> Forall output_ok out -> started out = [] -> omap session_message out = [] ->
  mqtt_inv (outs ++ out) st.
Proof.
  intros I Ho Es Em. pose proof I as [Hr Hp Hrep _ _ _ _].
  pose proof (mqtt_quiet outs st (mq_registry st) (mq_probes st) (mq_reports st) (mq_syncs st) out [] I Hr Hp Hrep Ho Es) as H.
  destruct st. apply H; [|done]. intros. by rewrite app_nil_r.
Qed.
Lemma query_inv outs st env payload : mqtt_inv outs st -> mqtt_inv (outs ++ handle_user_policy_query n env payload) st.
Proof.
  intros I. unfold handle_user_policy_query. destruct (user_policy_response n env payload) as [[topic r]|] eqn:E; [|by apply quiet_only].
  apply quiet_only; [done| |done|done]. constructor; [|done]. unfold user_policy_response in E.
  destruct (query_from_slice payload) as [q|]; [|done]. cbn in E. destruct (negb _) eqn:Ea; [done|]. injection E as <- _.
  apply negb_false_iff in Ea. by apply allowed_concrete.
Qed.
Lemma sync_command_inv outs st env payload : mqtt_inv outs st ->
  let '(st', out) := handle_sync_command n env payload st in mqtt_inv (outs ++ out) st'.
Proof.
  intros I. unfold handle_sync_command. destruct (parse_sync_command payload) as [req|].
  2: { apply quiet_only; [done|..]; apply publish_status_ok. }
  unfold allow_sync_command. destruct (match mq_last_sync st with Some t => _ | None => _ end) eqn:Et.
  { apply quiet_only; [done|..]; apply publish_status_ok. }
  destruct I as [Hr Hp Hrep Ho Ht Ha (douts & Hd & Em)]. split; cbn [mq_registry mq_probes mq_reports mq_last_sync]; try done.
  - apply Forall_app. split; [done|]. by constructor.
  - unfold started. rewrite omap_app. cbn. by rewrite last_snoc.
  - unfold started in *. rewrite omap_app. cbn. rewrite Ht in Et. clear -Ha Et. induction (omap _ outs) as [|a l IH]; [repeat constructor|].
    apply Sorted_inv in Ha as [Hs Hh]. cbn [app]. constructor.
    + destruct l as [|b l]; [repeat constructor|]. by apply IH.
    + destruct l as [|b l]; [|by inversion Hh; constructor]. constructor. cbn in Et. unfold apart. apply Z.ltb_ge in Et. unfold nanos in *. lia.
  - exists douts. split; [done|]. rewrite omap_app, Em. cbn. by rewrite app_nil_r.
Qed.
Lemma probe_command_inv outs st env payload : mqtt_inv outs st ->
  let '(st', out) := handle_probe_trace_command n env payload st in mqtt_inv (outs ++ out) st'.
Proof.
  intros I. unfold handle_probe_trace_command. destruct (probe_from_slice payload) as [req|]; [|by apply quiet_only].
  destruct (negb _) eqn:Ea; [by apply quiet_only|]. apply negb_false_iff, allowed_concrete in Ea. pose proof I as [Hr Hp Hrep _ _ _ _].
  apply (mqtt_quiet outs st _ _ _ _ _ []); try done.
  - intros id a. unfold arm. cbn [pa_request_id]. set (k := default _ _).
    destruct (decide (id = k)) as [->|Hne]; [rewrite lookup_insert_eq; by intros [= <-]|rewrite lookup_insert_ne by done; apply Hp].
  - by apply Forall_singleton.
  - intros douts H. by rewrite app_nil_r.
Qed.
Lemma start_session_inv outs st env req : mqtt_inv outs st ->
  let '(st', out) := start_diagnostic_session n env req st in mqtt_inv (outs ++ out) st'.
Proof.
  intros I. unfold start_diagnostic_session, plan_diagnostic_start. destruct (negb _) eqn:Ea; [by apply quiet_only|].
  apply negb_false_iff, allowed_concrete in Ea. destruct (first_non_empty [_; _]) as [user|] eqn:Eu.
  2: { apply quiet_only; try done. by apply Forall_singleton. }
  pose proof I as [Hr Hp Hrep _ _ _ _]. set (spec := mkSpec _ _ _ _ _ _ _ _ _).
  pose proof (start_topics under (diag_config n) (me_now env) spec _ Hr Ea) as Ht.
  pose proof (fun douts H => start_inv (diag_config n) douts (mq_registry st) (me_now env) spec H) as Hd.
  destruct (start (diag_config n) (me_now env) spec (mq_registry st)) as [[a|why] rg]; cbn [snd] in Ht.
  - apply (mqtt_quiet outs st rg _ _ _ _ [Started (me_now env) spec]); try done. by apply Forall_singleton.
  - apply (mqtt_quiet outs st rg _ _ _ _ [Refused spec why]); try done. by apply Forall_singleton.
Qed.
Lemma cancel_session_inv outs st env req : mqtt_inv outs st ->
  let '(st', out) := cancel_diagnostic_session n env req st in mqtt_inv (outs ++ out) st'.
Proof.
  intros I. unfold cancel_diagnostic_session. destruct (first_non_empty _) as [id|]; [|by apply quiet_only].
  pose proof I as [Hr Hp Hrep _ _ _ _]. destruct (cancel_topics under (diag_config n) (me_ts env) id _ Hr) as [H1 H2].
  pose proof (fun douts H => cancel_inv (diag_config n) douts (mq_registry st) (me_ts env) id H) as Hd.
  destruct (cancel (diag_config n) (me_ts env) id (mq_registry st)) as [[s|] rg]; cbn [fst snd] in *.
  - apply (mqtt_quiet outs st rg _ _ _ _ [Summarised s]); try done. apply Forall_singleton. by apply H2.
  - apply (mqtt_quiet outs st rg _ _ _ _ []); try done. intros douts H. rewrite app_nil_r. by rewrite (Hd _ H).
Qed.
Lemma handle_publish_inv outs st env topic payload : mqtt_inv outs st ->
  let '(st', out) := handle_publish n env topic payload st in mqtt_inv (outs ++ out) st'.
Proof.
  intros I. unfold handle_publish. cbv zeta. destruct (str_eqb topic (mt_user_query _)); [by apply query_inv|].
  destruct (str_eqb topic (mt_sync_command _)); [by apply sync_command_inv|].
  destruct (str_eqb topic (mt_probe_trace _)); [by apply probe_command_inv|].
  destruct (str_eqb topic (mt_diagnostics_command _)); [|by apply quiet_only].
  unfold handle_diagnostics_command. destruct (diagnostic_from_slice payload) as [req|]; [|by apply quiet_only]. cbv zeta.
  destruct (_ || _); [by apply start_session_inv|]. destruct (str_eqb _ _); [by apply cancel_session_inv|by apply quiet_only].
Qed.
Lemma connection_inv outs st now ts c sessions probes st' out : mqtt_inv outs st ->
  mqtt_step n st (Connection now ts c sessions probes) = Some (st', out) -> mqtt_inv (outs ++ out) st'.
Proof.
  intros I H. pose proof I as [Hr Hp Hrep _ _ _ _]. cbn [mqtt_step] in H. destruct (_ && _) eqn:Ew; [|done].
  apply andb_true_iff in Ew as [_ Hw%bool_decide_eq_true]. destruct Hw as [_ Hw].
  pose proof (finish_exact now ts c probes (mq_probes st) Hw) as Hf.
  assert (Hd : forall douts, diag_inv (diag_config n) douts (mq_registry st) ->
    diag_inv (diag_config n) (douts ++ (record (diag_config n) now ts c sessions (mq_registry st)).2) (record (diag_config n) now ts c sessions (mq_registry st)).1).
  { intros douts Hd. unfold record. destruct (event_type_of c) as [t|] eqn:Et; [by apply fan_out_inv|]. by rewrite app_nil_r. }
  assert (Hlive : forall id a, armed_now now (mq_probes st) !! id = Some a -> under (pa_reply_topic a)).
  { intros id a [H1 _]%lookup_live. by apply (Hp id). }
  assert (Hm : omap registry_message (record (diag_config n) now ts c sessions (mq_registry st)).2 = []).
  { unfold record. destruct (event_type_of c) as [t|]; [|done]. clear. generalize (mq_registry st).
    induction sessions as [|id walk IH]; intros rg; [done|]. cbn [fan_out].
    assert (Eo : omap registry_message (offer (diag_config n) now ts c t id rg).2 = []).
    { unfold offer. destruct (rg_sessions rg !! id); [|done]. by destruct (_ || _ || _). }
    destruct (offer (diag_config n) now ts c t id rg) as [rg1 o1]. specialize (IH rg1). destruct (fan_out _ _ _ _ _ _ _) as [rg2 o2].
    cbn [snd] in *. by rewrite omap_app, Eo, IH. }
  pose proof (record_topics under (diag_config n) now ts c sessions _ Hr) as Ht.
  destruct (finish now ts c probes (mq_probes st)) as [[r|] arms]; injection H as <- <-.
  - destruct Hf as (id & a & Ha & _ & _ & -> & ->). eapply mqtt_quiet; try done.
    + intros id' a' [_ H]%lookup_delete_Some. by apply (Hlive id').
    + apply Forall_app. split; [done|]. apply Forall_singleton. by apply (Hp id).
  - destruct Hf as [-> _]. cbn [option_list]. rewrite (app_nil_r (mq_reports st)). by eapply (mqtt_quiet outs st _ _ _ _ []).
Qed.
Lemma mqtt_step_inv outs st e st' out : mqtt_inv outs st -> mqtt_step n st e = Some (st', out) -> mqtt_inv (outs ++ out) st'.
Proof.
  intros I H. pose proof I as [Hr Hp Hrep _ _ _ _].
  destruct e as [env|env topic payload|i env o message|now ts c sessions probes| | |now ts walk]; [..|now apply (connection_inv _ _ _ _ _ _ _ _ _ I) in H| | |].
  all: cbn [mqtt_step] in H.
  - injection H as <- <-. apply quiet_only; [done|..]; apply publish_status_ok.
  - injection H as H. pose proof (handle_publish_inv outs st env topic payload I) as Hi. by rewrite H in Hi.
  - destruct (mq_syncs st !! i) as [asked|]; [|done]. injection H as <- <-.
    eapply (mqtt_quiet outs st _ _ _ _ _ []); try done; [apply publish_status_ok..| |apply publish_status_ok]. intros. by rewrite app_nil_r.
  - destruct (mq_reports st) as [|r rs]; [done|]. injection H as <- <-. apply Forall_cons in Hrep as [H1 H2].
    eapply (mqtt_quiet outs st _ _ _ _ _ []); try done; [by apply Forall_singleton|]. intros. by rewrite app_nil_r.
  - destruct (rg_queue (mq_registry st)) as [|ev queue] eqn:Eq; [done|]. injection H as <- <-. destruct Hr as [Hs Hq]. rewrite Eq in Hq. apply Forall_cons in Hq as [H1 H2].
    eapply (mqtt_quiet outs st _ _ _ _ _ [Received ev]); try done; [by apply Forall_singleton|].
    intros douts Hd. apply (diag_step_inv _ _ _ TakeEvent _ _ Hd). cbn. by rewrite Eq.
  - destruct (is_walk walk (rg_sessions (mq_registry st))) eqn:Ew; [|done]. unfold sweep_expired in H.
    set (ids := List.filter _ walk) in *. destruct (sweep_topics under (diag_config n) ts ids _ Hr) as [H1 H2].
    pose proof (fun douts Hd => sweep_ids_inv (diag_config n) ts ids douts (mq_registry st) Hd) as Hd.
    destruct (sweep_ids (diag_config n) ts ids (mq_registry st)) as [ss rg]. injection H as <- <-. cbn [fst snd] in *.
    eapply (mqtt_quiet outs st rg _ _ _ _ (map Summarised ss)); [done..| | | |].
    + clear -H2. induction H2; constructor; done.
    + clear. unfold started. induction ss as [|s ss IH]; [done|exact IH].
    + done.
    + clear. induction ss as [|s ss IH]; [done|]. cbn. by f_equal.
Qed.
Lemma mqtt_run_inv es : forall outs st st' out, mqtt_inv outs st -> mqtt_run n st es = Some (st', out) -> mqtt_inv (outs ++ out) st'.
Proof.
  induction es as [|e es IH]; intros outs st st' out I H; cbn in H; [injection H as <- <-; by rewrite app_nil_r|].
  destruct (mqtt_step n st e) as [[st1 o1]|] eqn:E1; [|done]. cbn in H. destruct (mqtt_run n st1 es) as [[st2 o2]|] eqn:E2; [|done].
  cbn in H. injection H as <- <-. apply (mqtt_step_inv _ _ _ _ _ I) in E1. apply (IH _ _ _ _ E1) in E2. by rewrite <- app_assoc in E2.
Qed.
Lemma mqtt_new_inv : mqtt_inv [] mqtt_new.
Proof. split; cbn; [split; [done|constructor]|done|constructor|constructor|done|constructor|]. exists []. split; [apply registry_new_inv|done]. Qed.

End Service.

(** ** The hop's doctor channel *)

Section DoctorSafe.
Context {DJ : DoctorJson} {Report : Type} (debug : str -> str) (c : HopMqttConfig).

Definition plan_ok (p : PlannedDoctor) : Prop :=
  concrete_under (effective_reply_prefix c) (pl_reply_topic p) /\ 500 <= pl_timeout_ms p <= 30000 /\ 1 <= pl_max_hops p <= 64.
Lemma first_non_empty_trimmed l x : first_non_empty l = Some x -> trim x = x.
Proof.
  unfold first_non_empty. intros H%List.find_some%proj1%list_elem_of_In. apply list_elem_of_omap in H as ([y|] & _ & [= <-]). apply trim_idem.
Qed.
Lemma plan_ok_of payload p : plan_doctor_command debug c payload = Run p -> plan_ok p.
Proof.
  unfold plan_doctor_command. destruct (doctor_from_slice payload) as [m|]; [|done]. cbv zeta.
  destruct (first_non_empty [hc_reply_topic m]) as [t|] eqn:Et; [|done]. destruct (negb _) eqn:Ea; [done|]. apply negb_false_iff in Ea.
  destruct (match first_non_empty [hc_command m] with Some _ => _ | None => _ end); [done|].
  destruct (first_non_empty [hd_target _]); [|done]. intros [= <-]. split.
  - cbn. rewrite <- (first_non_empty_trimmed _ _ Et) in Ea |- *. by apply allowed_concrete.
  - cbn. unfold clamp_timeout, clamp. split; [lia|]. destruct (hd_max_hops _) as [h|]; [|lia]. destruct (_ && _) eqn:E; [|lia].
    apply andb_true_iff in E as [?%Z.leb_le ?%Z.leb_le]. lia.
Qed.
Lemma reject_topic payload r : plan_doctor_command debug c payload = Reject r -> concrete_under (effective_reply_prefix c) (rj_reply_topic r).
Proof.
  unfold plan_doctor_command. destruct (doctor_from_slice payload) as [m|]; [|done]. cbv zeta.
  destruct (first_non_empty [hc_reply_topic m]) as [t|] eqn:Et; [|done]. destruct (negb _) eqn:Ea; [done|]. apply negb_false_iff in Ea.
  assert (concrete_under (effective_reply_prefix c) t) by (rewrite <- (first_non_empty_trimmed _ _ Et) in Ea |- *; by apply allowed_concrete).
  destruct (match first_non_empty [hc_command m] with Some _ => _ | None => _ end); [by intros [= <-]|].
  destruct (first_non_empty [hd_target _]); [done|]. by intros [= <-].
Qed.
Definition doctor_output_ok (o : @DoctorOutput Report) : Prop :=
  match o with DoctorPublish t _ => concrete_under (effective_reply_prefix c) t | DoctorStarted p => plan_ok p end.
Definition doctor_running (outs : list (@DoctorOutput Report)) : list PlannedDoctor := omap (fun o => match o with DoctorStarted p => Some p | _ => None end) outs.
Definition reports (outs : list (@DoctorOutput Report)) : nat := length (List.filter (fun o => match o with DoctorPublish _ (ReportReply _ _ _) => true | _ => false end) outs).
(** Whatever payloads arrive, replies go to concrete topics under the reply
    prefix, every diagnostic that runs is within its time and hop limits, and a
    report answers one of them. *)
Lemma doctor_safe es : forall running r outs, (forall p, running = Some p -> plan_ok p) -> doctor_run debug c running es = Some (r, outs) ->
  Forall doctor_output_ok outs /\ (forall p, r = Some p -> plan_ok p) /\
  (reports outs + length (option_list r) <= length (doctor_running outs) + length (option_list running))%nat.
Proof.
  induction es as [|e es IH]; intros running r outs Hp H; cbn in H; [injection H as <- <-; cbn; auto|].
  destruct (doctor_step debug c running e) as [[r1 o1]|] eqn:E1; [|done]. cbn in H. destruct (doctor_run debug c r1 es) as [[r2 o2]|] eqn:E2; [|done].
  cbn in H. injection H as <- <-.
  assert (H1 : Forall doctor_output_ok o1 /\ (forall p, r1 = Some p -> plan_ok p) /\
    (reports o1 + length (option_list r1) <= length (doctor_running o1) + length (option_list running))%nat).
  { destruct e as [topic payload|res]; cbn in E1.
    - destruct (negb _); [by injection E1 as <- <-|]. destruct (plan_doctor_command debug c payload) as [|rj|p] eqn:Ep.
      + by injection E1 as <- <-.
      + injection E1 as <- <-. split; [apply Forall_singleton; by apply (reject_topic payload)|done].
      + pose proof (plan_ok_of _ _ Ep) as Hok. destruct running as [q|]; injection E1 as <- <-; (split; [apply Forall_singleton|]; cbn; [by try apply Hok|]); [split; [done|lia]|].
        split; [by intros ? [= <-]|lia].
    - destruct running as [p|]; [|done]. injection E1 as <- <-. split; [apply Forall_singleton; apply (Hp p eq_refl)|]. split; [done|]. destruct res; cbn; lia. }
  destruct H1 as (Ho1 & Hp1 & Hc1). destruct (IH _ _ _ Hp1 E2) as (Ho2 & Hp2 & Hc2). split; [by apply Forall_app|]. split; [done|].
  unfold reports, doctor_running in *. rewrite List.filter_app, omap_app, !length_app. lia.
Qed.
End DoctorSafe.

(** ** Examples *)

Module MqttDemo.
#[export] Existing Instances CidrNet.inst Book_api day_dates.
Definition query (topic user : string) : UserPolicyQueryMessage := mkQuery (Some (lit "q1")) (Some (lit topic)) (Some (lit user)) None (mkQueryData None None None).
Definition start_command : DiagnosticCommandMessage :=
  mkCommand None (Some (lit "d1")) (Some (lit " rove/replies/ops ")) (mkCommandData None (Some (lit "alice")) None None None None None None None None (Some 60)).
(** The payload's first byte names the message. *)
#[export] Instance json : MqttJson := {|
  query_from_slice := fun p => match p with [1] => Some (query "rove/replies/ops" "alice") | [2] => Some (query "other/topic" "alice") | _ => None end;
  sync_from_slice := fun _ => None;
  probe_from_slice := fun p => match p with [3] => Some (mkProbeCommand (Some (lit "p1")) (Some (lit "rove/replies/ops")) (mkProbeData None None None None None None None None None None)) | _ => None end;
  diagnostic_from_slice := fun p => match p with [4] => Some start_command | _ => None end
|}.
Definition node : MqttNode := mkNode default_mqtt_config (lit "n1") (lit "1.0").
Definition env (now : Z) : MqttEnv := mkEnv (nanos now) now (en_snap engine_demo).
Definition deliver (now : Z) (topic : string) (payload : list Z) : MqttEvent := Delivered (env now) (lit topic) payload.
Definition finished : TraceCandidate := DiagDemo.done_by "alice".
Definition events : list MqttEvent :=
  [ConnAck (env 1); deliver 2 "rove/user/query" [1]; deliver 2 "rove/user/query" [2]; deliver 3 "rove/sync/command" []; deliver 4 "rove/sync/command" [32];
   SyncDone 0 (env 5) (mkOutcome true false false MsgNoUpdates 7 40) (lit "no updates are required"); deliver 9 "rove/sync/command" [];
   deliver 10 "rove/probe/trace" [3]; deliver 10 "rove/diagnostics/command" [4]; Connection (nanos 11) 11 finished [lit "d1"] [lit "p1"];
   ReportReady; EventReady; SweepTick (nanos 71) 71 [lit "d1"]].
Definition topics (outs : list MqttOutput) : list (option str) := map (fun o => match o with Publish t _ => Some t | SyncStarted _ => None end) outs.
(** Status at the start; one answer, none to a foreign topic; a synchronisation,
    a throttled one and its outcome, another later; the probe and the session
    armed, their report and event, and the summary. *)
Example channel : (fun r => topics r.2) <$> mqtt_run node mqtt_new events =
  let status := Some (lit "rove/node/status") in let reply := Some (lit "rove/replies/ops") in
  Some [status; reply; None; status; status; None; reply; reply; reply; reply; reply].
Proof. vm_compute. reflexivity. Qed.
(** [subscribe] trims a topic, [handle_publish] does not: a command on a topic
    configured with a blank is subscribed to and never handled. *)
Example untrimmed_topic :
  let t := mkTopics (lit "rove/user/query ") (lit "a") (lit "b") (lit "c") (lit "d") in
  let node := mkNode (mkMqttConfig true [] [] [] [] 1 [] t false default_mqtt_diagnostics) (lit "n1") [] in
  hd_error (subscribed node) = Some (lit "rove/user/query") /\ handle_publish node (env 1) (lit "rove/user/query") [1] mqtt_new = (mqtt_new, []).
Proof. vm_compute. split; reflexivity. Qed.
End MqttDemo.

Section MqttWitness.
Import MqttDemo.
End MqttWitness.
