(* ===== verification/Sources.v ===== *)
(** * Sources: from provider publications to address-book rules (src/src/addrbook/sources.rs)

    A manifest names files of several kinds; each file's entries are added to
    the builder under categories. The v2fly lists include one another: their
    recursive, memoised expansion is modelled with its depth limit as the
    recursion's measure. The file system is an input (canonical paths, texts,
    directory listings); TOML and JSON texts are decoded by parameters. *)

From Stdlib Require Import ZArith Lia String.
From stdpp Require Import prelude strings list gmap sorting.
From S2P Require Import Prelude RustStr Net NetProps RustFmt Frame Domain Rab RabCodec RabValid Policy Book BookProps BTree Builder SweepProps BuilderProps BuilderOps BookBuild.

Definition MAX_V2FLY_EXPANSION_WORK : Z := 1000000.
Definition MAX_V2FLY_METADATA_ITEMS : Z := 64.
Definition KINDS : list str := map lit ["cidrs"; "domains"; "v2fly-domains"; "aws-ip-ranges"; "azure-service-tags"; "gcp-cloud-json"]%string.

Inductive SourceError :=
| ReadFailed | ParseFailed | NoSources | UnknownKind | NoEntries
| BadIp | ProviderNotCidr | ProviderBadCidr | ProviderHostBits
| ResolveFailed | ListFailed | EscapesRoot | TooDeep | Cycle | BadInclude | BadFilter | EmptyFilter | TooManyFilters
| TooManyMetadata | EmptyAttribute | EmptyAffiliation | BadToken | UnknownPrefix | WorkOverflow | TooMuchWork
| NoGcpPrefix | TwoGcpPrefixes | RuleRefused (e : builder_error).

(** ** Paths and files *)

(** A path is its components; [components] drops repeated slashes and dots. *)
Abbreviation Path := (list str).
Definition parent_dir : str := [dot; dot].
Definition path_components (s : str) : Path := List.filter (fun c => negb (is_empty c) && negb (str_eqb c [dot])) (split slash s).
(** [base.join(s)] *)
Definition path_join (base : Path) (s : str) : Path := if starts_with [slash] s then path_components s else base ++ path_components s.
Definition path_parent (p : Path) : Path := removelast p.
Definition file_name (p : Path) : option str := match last p with Some n => if str_eqb n parent_dir then None else Some n | None => None end.
(** [Path::extension]: what follows the last dot, unless the name starts there *)
Definition extension (p : Path) : option str :=
  name ← file_name p;
  match rsplit_once dot name with Some ([], _) | None => None | Some (_, e) => Some e end.
(** [file.starts_with(root)] *)
Definition path_within (root p : Path) : bool := bool_decide (take (length root) p = root).
(** What the file system answers: [canonicalize], [read_to_string], and
    [read_dir] with each entry's name and whether it is a file, if known. *)
Record Fs := mkFs {
  fs_canonicalize : Path -> option Path;
  fs_read_to_string : Path -> option str;
  fs_read_dir : Path -> option (list (option (str * option bool)))
}.
Definition nonempty_line (l : str) : option str :=
  let l := trim (default [] (hd_error (split 35 l))) in if is_empty l then None else Some l.
Definition text_lines (text : str) : list str := omap nonempty_line (map (fun l => default l (strip_suffix [cr] l)) (split nl text)).
(** [read_lines] *)
Definition read_lines (fs : Fs) (file : Path) : result SourceError (list str) := text ← ok_or (fs_read_to_string fs file) ReadFailed; Ok (text_lines text).

(** ** v2fly rules *)

Record V2Rule := mkV2Rule { vr_rule : str; vr_attrs : list str }.
#[global] Instance V2Rule_eq_dec : EqDecision V2Rule.
Proof. solve_decision. Defined.
#[global] Instance V2Rule_countable : Countable V2Rule.
Proof. refine (inj_countable' (fun r => (vr_rule r, vr_attrs r)) (fun p => mkV2Rule p.1 p.2) _). by intros []. Defined.
Record V2Collection := mkCollection { vc_rules : gset V2Rule; vc_affiliations : gset (str * V2Rule) }.
Inductive AttrFilter := With (attr : str) | Without (attr : str).
Definition filter_matches (f : AttrFilter) (r : V2Rule) : bool :=
  match f with With a => bool_decide (a ∈ vr_attrs r) | Without a => bool_decide (a ∉ vr_attrs r) end.

(** The derived orders compare texts in turn. *)
Fixpoint strs_cmp (a b : list str) : comparison :=
  match a, b with
  | [], [] => Eq
  | [], _ => Lt
  | _, [] => Gt
  | x :: a, y :: b => match str_cmp x y with Eq => strs_cmp a b | c => c end
  end.
Definition entry_texts (e : str * V2Rule) : list str := e.1 :: vr_rule e.2 :: vr_attrs e.2.
#[export] Instance v2_order : KeyOrder (str * V2Rule) := fun a b => match strs_cmp (entry_texts a) (entry_texts b) with Lt => true | _ => false end.
(** [sort] and [dedup] *)
Definition sort_dedup (l : list str) : list str := bt_elements (list_to_set l : gset str).

(** [charge_v2fly_work] *)
Definition charge_v2fly_work (work amount : Z) : result SourceError Z :=
  work ← ok_or (checked_add 64 work amount) WorkOverflow;
  ensure (work <=? MAX_V2FLY_EXPANSION_WORK) TooMuchWork ;; Ok work.
(** [validate_include_path]: the components, all normal *)
Definition include_components (included : str) : option Path :=
  let parts := split slash included in
  if is_empty included || starts_with [slash] included || match parts with c :: _ => str_eqb c [dot] | [] => false end
     || existsb (fun c => str_eqb c parent_dir) parts
  then None else Some (path_components included).
(** The filters of an include line. *)
Fixpoint parse_filters (count : Z) (tokens : list str) : result SourceError (list AttrFilter) :=
  match tokens with
  | [] => Ok []
  | token :: tokens =>
      attr ← ok_or (strip_prefix [64] token) BadFilter;
      ensure (negb (is_empty attr) && negb (str_eqb attr [45])) EmptyFilter ;;
      let f := match strip_prefix [45] attr with Some negative => Without negative | None => With attr end in
      ensure (count + 1 <=? MAX_V2FLY_METADATA_ITEMS) TooManyFilters ;;
      fs ← parse_filters (count + 1) tokens; Ok (f :: fs)
  end.
(** The metadata of a domain rule: attributes and affiliations. *)
Fixpoint parse_metadata (tokens : list str) : result SourceError (list str * list str) :=
  match tokens with
  | [] => Ok ([], [])
  | token :: tokens =>
      match strip_prefix [64] token, strip_prefix [38] token with
      | Some attr, _ => ensure (negb (is_empty attr)) EmptyAttribute ;; '(attrs, affs) ← parse_metadata tokens; Ok (attr :: attrs, affs)
      | None, Some target => ensure (negb (is_empty target)) EmptyAffiliation ;; '(attrs, affs) ← parse_metadata tokens; Ok (attrs, target :: affs)
      | None, None => Err BadToken
      end
  end.
(** [parse_v2fly_domain_rule] *)
Definition parse_v2fly_domain_rule (entry : str) (metadata : list str) : result SourceError (option (V2Rule * list str)) :=
  if starts_with (lit "regexp:") entry then Ok None
  else
    ensure (Z.of_nat (length metadata) <=? MAX_V2FLY_METADATA_ITEMS) TooManyMetadata ;;
    '(attrs, affs) ← parse_metadata metadata;
    rule ← match split_once colon entry with
           | Some (prefix, rest) =>
               if existsb (fun k => str_eqb prefix (lit k)) ["full"; "domain"; "keyword"]%string
               then Ok (prefix ++ [colon] ++ rest) else Err UnknownPrefix
           | None => Ok (lit "domain:" ++ entry)
           end;
    Ok (Some (mkV2Rule rule (sort_dedup attrs), sort_dedup affs)).

(** ** Expansion *)

(** The rules affiliated to each name by any file of the directory. *)
Abbreviation Affiliations := (gmap str (gset V2Rule)).
Record V2State := mkV2 { v2_cache : gmap Path V2Collection; v2_visiting : gset Path; v2_work : Z }.
Definition charge (amount : Z) (st : V2State) : result SourceError V2State :=
  work ← charge_v2fly_work (v2_work st) amount; Ok (mkV2 (v2_cache st) (v2_visiting st) work).
(** [try_fold] of the attribute slots *)
Definition attribute_slots (rules : gset V2Rule) : option Z :=
  foldr (fun r total => total ← total; checked_add 64 total (Z.max 1 (Z.of_nat (length (vr_attrs r))))) (Some 0) (elements rules).
Definition collection_empty : V2Collection := mkCollection ∅ ∅.
Definition all_match (filters : list AttrFilter) (r : V2Rule) : Prop := forallb (fun f => filter_matches f r) filters = true.
#[global] Instance all_match_dec filters r : base.Decision (all_match filters r).
Proof. unfold all_match. apply _. Defined.

Section Expansion.
Context (fs : Fs) (root : Path) (global_affiliations : Affiliations).

(** One line of a file; [collect] expands an included file. *)
Definition v2_line (collect : Path -> V2State -> result SourceError (V2Collection * V2State)) (file : Path) (line : str)
    (out : V2Collection) (st : V2State) : result SourceError (V2Collection * V2State) :=
  st ← charge 1 st;
  match split_whitespace line with
  | [] => Ok (out, st)
  | entry :: parts =>
      match strip_prefix (lit "include:") entry with
      | Some included =>
          components ← ok_or (include_components included) BadInclude;
          filters ← parse_filters 0 parts;
          '(col, st) ← collect (path_parent file ++ components) st;
          st ← charge (Z.of_nat (size (vc_rules col)) + Z.of_nat (size (vc_affiliations col))) st;
          slots ← ok_or (attribute_slots (vc_rules col)) WorkOverflow;
          filter_work ← ok_or (checked_mul 64 slots (Z.of_nat (length filters))) WorkOverflow;
          st ← charge filter_work st;
          Ok (mkCollection (vc_rules out ∪ filter (all_match filters) (vc_rules col)) (vc_affiliations out ∪ vc_affiliations col), st)
      | None =>
          parsed ← parse_v2fly_domain_rule entry parts;
          match parsed with
          | None => Ok (out, st)
          | Some (rule, affs) =>
              Ok (mkCollection ({[rule]} ∪ vc_rules out) (list_to_set (map (fun a => (a, rule)) affs) ∪ vc_affiliations out), st)
          end
      end
  end.
Fixpoint v2_lines (collect : Path -> V2State -> result SourceError (V2Collection * V2State)) (file : Path) (lines : list str)
    (out : V2Collection) (st : V2State) : result SourceError (V2Collection * V2State) :=
  match lines with
  | [] => Ok (out, st)
  | line :: lines => '(out, st) ← v2_line collect file line out st; v2_lines collect file lines out st
  end.
(** The rules of a file's own name. *)
Definition named_rules (file : Path) : option (gset V2Rule) :=
  name ← file_name file; if utf8_valid name then global_affiliations !! name else None.
(** [collect_v2fly]; the depth is what is left of the limit of 16. *)
Fixpoint collect_v2fly (depth_left : nat) (path : Path) (st : V2State) : result SourceError (V2Collection * V2State) :=
  match depth_left with
  | O => Err TooDeep
  | S depth_left =>
      file ← ok_or (fs_canonicalize fs path) ResolveFailed;
      ensure (path_within root file) EscapesRoot ;;
      match v2_cache st !! file with
      | Some c => Ok (c, st)
      | None =>
          ensure (bool_decide (file ∉ v2_visiting st)) Cycle ;;
          let st := mkV2 (v2_cache st) ({[file]} ∪ v2_visiting st) (v2_work st) in
          '(out, st) ← match named_rules file with
                       | Some rules => st ← charge (Z.of_nat (size rules)) st; Ok (mkCollection rules ∅, st)
                       | None => Ok (collection_empty, st)
                       end;
          lines ← read_lines fs file;
          '(out, st) ← v2_lines (collect_v2fly depth_left) file lines out st;
          Ok (out, mkV2 (<[file := out]> (v2_cache st)) (v2_visiting st ∖ {[file]}) (v2_work st))
      end
  end.
Definition MAX_DEPTH : nat := 17.

(** [collect_direct_v2fly_affiliations] *)
Fixpoint direct_lines (lines : list str) (acc : gset (str * V2Rule)) (work : Z) : result SourceError (gset (str * V2Rule) * Z) :=
  match lines with
  | [] => Ok (acc, work)
  | line :: lines =>
      work ← charge_v2fly_work work 1;
      match split_whitespace line with
      | [] => direct_lines lines acc work
      | entry :: metadata =>
          if starts_with (lit "include:") entry || starts_with (lit "regexp:") entry || negb (existsb (starts_with [38]) metadata)
          then direct_lines lines acc work
          else
            parsed ← parse_v2fly_domain_rule entry metadata;
            match parsed with
            | None => direct_lines lines acc work
            | Some (rule, targets) => direct_lines lines (list_to_set (map (fun a => (a, rule)) targets) ∪ acc) work
            end
      end
  end.
Definition collect_direct_v2fly_affiliations (path : Path) (work : Z) : result SourceError (gset (str * V2Rule) * Z) :=
  file ← ok_or (fs_canonicalize fs path) ResolveFailed;
  ensure (path_within root file) EscapesRoot ;;
  lines ← read_lines fs file;
  direct_lines lines ∅ work.
End Expansion.

(** ** Sources *)

(** Operations on the builder that may fail; it keeps what was done. *)
Definition sop (A : Type) : Type := BookBuilder -> BookBuilder * result SourceError A.
#[global] Instance sop_ret : MRet sop := fun A a bb => (bb, Ok a).
#[global] Instance sop_bind : MBind sop := fun A B k m bb => match m bb with (bb, Ok a) => k a bb | (bb, Err e) => (bb, Err e) end.
Definition slift {A} (r : result SourceError A) : sop A := fun bb => (bb, r).
Fixpoint each {A} (f : A -> sop unit) (l : list A) : sop unit := match l with [] => mret tt | x :: l => f x ;; each f l end.

Record Source := mkSource { so_category : str; so_kind : str; so_path : str; so_url : option str }.
Record Manifest := mkManifest { ma_epoch : Z; ma_sources : list Source }.
Record AwsRanges := mkAws { aw_prefixes : list (str * str); aw_ipv6_prefixes : list (str * str) }.
Record AzureTag := mkAzureTag { az_name : str; az_address_prefixes : list str; az_system_service : str }.
Record GcpPrefix := mkGcpPrefix { gc_ipv4 : option str; gc_ipv6 : option str; gc_service : option str }.
(** toml and serde_json on these texts; an AWS prefix is its CIDR and service. *)
Class SourceTexts := {
  manifest_from_str : str -> option Manifest;
  aws_from_str : str -> option AwsRanges;
  azure_from_str : str -> option (list AzureTag);
  gcp_from_str : str -> option (list GcpPrefix)
}.

Section Sources.
Context {N : Ipnet} {T : SourceTexts} (fs : Fs).

(** [Manifest::load], with the directory of the manifest *)
Definition manifest_load (path : Path) : result SourceError (Manifest * Path) :=
  text ← ok_or (fs_read_to_string fs path) ReadFailed;
  manifest ← ok_or (manifest_from_str text) ParseFailed;
  ensure (negb (is_empty (ma_sources manifest))) NoSources ;;
  ensure (forallb (fun s => bool_decide (so_kind s ∈ KINDS)) (ma_sources manifest)) UnknownKind ;;
  Ok (manifest, path_parent path).

Definition add (category rule : str) : sop unit := fun bb => let '(bb, r) := add_rule category rule bb in (bb, map_err RuleRefused r).
Definition add_ip_rule (category prefix : str) : sop unit :=
  match parse_ip_entries prefix with None => slift (Err BadIp) | Some _ => add category prefix end.
Definition canonical_net (n : IpNet) : bool :=
  match n with inl n => v4net_addr n =? v4net_network n | inr n => v6net_addr n =? v6net_network n end.
Definition add_provider_cidr (category prefix : str) : sop unit :=
  if negb (bool_decide (slash ∈ prefix)) then slift (Err ProviderNotCidr)
  else
    match ipnet_parse prefix with
    | None => slift (Err ProviderBadCidr)
    | Some n => if canonical_net n then add category prefix else slift (Err ProviderHostBits)
    end.
Definition count {A} (l : list A) : Z := Z.of_nat (length l).

Definition apply_cidrs (category : str) (file : Path) : sop Z :=
  lines ← slift (read_lines fs file); each (add_ip_rule category) lines ;; mret (count lines).
Definition apply_domains (category : str) (file : Path) : sop Z :=
  lines ← slift (read_lines fs file); each (add category) lines ;; mret (count lines).

(** [add_v2_rule] *)
Definition add_v2_rule (e : str * V2Rule) : sop unit :=
  add e.1 (vr_rule e.2) ;; each (fun attr => add (e.1 ++ [64] ++ attr) (vr_rule e.2)) (vr_attrs e.2).
(** The files beside the list: visible, with its extension. *)
Fixpoint sibling_names (ext : option str) (entries : list (option (str * option bool))) : result SourceError (list str) :=
  match entries with
  | [] => Ok []
  | None :: _ => Err ListFailed
  | Some (name, is_file) :: entries =>
      if (utf8_valid name && starts_with [dot] name) || negb (bool_decide (extension [name] = ext)) then sibling_names ext entries
      else
        is_file ← ok_or is_file ListFailed;
        names ← sibling_names ext entries;
        Ok (if (is_file : bool) then name :: names else names)
  end.
Definition affiliate (ga : Affiliations) (e : str * V2Rule) : Affiliations := <[e.1 := {[e.2]} ∪ default ∅ (ga !! e.1)]> ga.
Fixpoint global_affiliations_of (root : Path) (names : list str) (ga : Affiliations) (work : Z) : result SourceError (Affiliations * Z) :=
  match names with
  | [] => Ok (ga, work)
  | name :: names =>
      '(affs, work) ← collect_direct_v2fly_affiliations fs root (root ++ [name]) work;
      global_affiliations_of root names (foldl affiliate ga (bt_elements affs)) work
  end.
(** The category an affiliation names *)
Definition affiliated_target (category affiliation : str) : str :=
  match rsplit_once slash category with Some (namespace, _) => namespace ++ [slash] ++ affiliation | None => affiliation end.
Definition categorized (category : str) (ga : Affiliations) (col : V2Collection) : gset (str * V2Rule) :=
  set_map (fun r => (category, r)) (vc_rules col) ∪
  set_map (fun a => (affiliated_target category a.1, a.2)) (vc_affiliations col) ∪
  list_to_set (flat_map (fun '(a, rules) => map (fun r => (affiliated_target category a, r)) (elements rules)) (map_to_list ga)).
Definition output_work (es : list (str * V2Rule)) : option Z :=
  foldl (fun total e => total ← total; checked_add 64 total (1 + count (vr_attrs e.2))) (Some 0) es.
(** The expansion of a list, and [apply_v2fly] *)
Definition expand_v2fly (category : str) (file : Path) : result SourceError (gset (str * V2Rule) * V2Collection) :=
  root ← ok_or (fs_canonicalize fs (path_parent file)) ResolveFailed;
  entries ← ok_or (fs_read_dir fs root) ListFailed;
  names ← sibling_names (extension file) entries;
  '(ga, work) ← global_affiliations_of root (bt_elements (list_to_set names : gset str)) ∅ 0;
  '(col, st) ← collect_v2fly fs root ga MAX_DEPTH file (mkV2 ∅ ∅ work);
  let out := categorized category ga col in
  amount ← ok_or (output_work (bt_elements out)) WorkOverflow;
  charge_v2fly_work (v2_work st) amount ;;
  Ok (out, col).
Definition apply_v2fly (category : str) (file : Path) : sop Z :=
  expanded ← slift (expand_v2fly category file);
  each add_v2_rule (bt_elements expanded.1) ;; mret (Z.of_nat (size (vc_rules expanded.2))).

(** [service_segment]: each character that is not one of a segment's becomes a
    dash; a continuation byte is not a character of its own. *)
Definition service_segment (s : str) : str :=
  trim_matches 45 (omap (fun b =>
    if utf8_cont b then None
    else let c := ascii_lower b in
         Some (if is_ascii_lowercase c || is_ascii_digit c || bool_decide (c ∈ [45; 95; 46; 64]) then c else 45)) s).
(** An entry under its category and, when it names one, its service's. *)
Definition add_serviced (category : str) (e : str * str) : sop unit :=
  add_provider_cidr category e.1 ;;
  let seg := service_segment e.2 in
  if is_empty seg then mret tt else add_provider_cidr (category ++ [slash] ++ seg) e.1.
Definition apply_aws (category : str) (file : Path) : sop Z :=
  text ← slift (ok_or (fs_read_to_string fs file) ReadFailed);
  ranges ← slift (ok_or (aws_from_str text) ParseFailed);
  let es := aw_prefixes ranges ++ aw_ipv6_prefixes ranges in
  each (add_serviced category) es ;; mret (count es).
Definition azure_service (tag : AzureTag) : str :=
  if is_empty (az_system_service tag) then default [] (hd_error (split dot (az_name tag))) else az_system_service tag.
Definition apply_azure (category : str) (file : Path) : sop Z :=
  text ← slift (ok_or (fs_read_to_string fs file) ReadFailed);
  tags ← slift (ok_or (azure_from_str text) ParseFailed);
  let es := flat_map (fun tag => map (fun p => (p, azure_service tag)) (az_address_prefixes tag)) tags in
  each (add_serviced category) es ;; mret (count es).
Definition gcp_entry (p : GcpPrefix) : result SourceError (str * str) :=
  match gc_ipv4 p, gc_ipv6 p with
  | Some prefix, None | None, Some prefix => Ok (prefix, default [] (gc_service p))
  | None, None => Err NoGcpPrefix
  | Some _, Some _ => Err TwoGcpPrefixes
  end.
Definition apply_gcp (category : str) (file : Path) : sop Z :=
  text ← slift (ok_or (fs_read_to_string fs file) ReadFailed);
  prefixes ← slift (ok_or (gcp_from_str text) ParseFailed);
  each (fun p => e ← slift (gcp_entry p); add_serviced category e) prefixes ;; mret (count prefixes).

(** [apply_source], [apply_manifest] *)
Definition apply_source (s : Source) (file : Path) : sop Z :=
  let of_kind k := str_eqb (so_kind s) (lit k) in
  if of_kind "cidrs"%string then apply_cidrs (so_category s) file
  else if of_kind "domains"%string then apply_domains (so_category s) file
  else if of_kind "v2fly-domains"%string then apply_v2fly (so_category s) file
  else if of_kind "aws-ip-ranges"%string then apply_aws (so_category s) file
  else if of_kind "azure-service-tags"%string then apply_azure (so_category s) file
  else if of_kind "gcp-cloud-json"%string then apply_gcp (so_category s) file
  else slift (Err UnknownKind).
Fixpoint apply_sources (base : Path) (sources : list Source) : sop (list (str * Z)) :=
  match sources with
  | [] => mret []
  | s :: sources =>
      added ← apply_source s (path_join base (so_path s));
      if added =? 0 then slift (Err NoEntries)
      else
        report ← apply_sources base sources;
        mret ((so_path s ++ lit " (" ++ so_kind s ++ lit ")", added) :: report)
  end.
Definition apply_manifest (m : Manifest) (base : Path) : sop (list (str * Z)) := apply_sources base (ma_sources m).
End Sources.

(** * What the expansion of a list means

    The memoised recursion computes exactly the rules the files of the list's
    directory give to a name, by their own lines, the affiliations and the
    filtered includes, and reads no other file. *)

Section Meaning.
Context (fs : Fs) (root : Path) (ga : Affiliations).

(** What an include line of a file includes, under which filters. *)
Definition includes (file : Path) (line : str) (target : Path) (filters : list AttrFilter) : Prop :=
  exists entry parts included components, split_whitespace line = entry :: parts /\ strip_prefix (lit "include:") entry = Some included /\
    include_components included = Some components /\ parse_filters 0 parts = Ok filters /\
    fs_canonicalize fs (path_parent file ++ components) = Some target.
(** What a rule line says. *)
Definition states (line : str) (r : V2Rule) (affs : list str) : Prop :=
  exists entry parts, split_whitespace line = entry :: parts /\ strip_prefix (lit "include:") entry = None /\
    parse_v2fly_domain_rule entry parts = Ok (Some (r, affs)).
Definition has_line (file : Path) (line : str) : Prop := exists lines, read_lines fs file = Ok lines /\ line ∈ lines.

Inductive gives : Path -> V2Rule -> Prop :=
| gives_named file rules r : named_rules ga file = Some rules -> r ∈ rules -> gives file r
| gives_line file line r affs : has_line file line -> states line r affs -> gives file r
| gives_include file line target filters r : has_line file line -> includes file line target filters -> gives target r -> all_match filters r -> gives file r.
Inductive affiliates : Path -> str * V2Rule -> Prop :=
| affiliates_line file line r affs a : has_line file line -> states line r affs -> a ∈ affs -> affiliates file (a, r)
| affiliates_include file line target filters e : has_line file line -> includes file line target filters -> affiliates target e -> affiliates file e.

Definition exact (c : V2Collection) (file : Path) : Prop :=
  (forall r, r ∈ vc_rules c <-> gives file r) /\ (forall e, e ∈ vc_affiliations c <-> affiliates file e).
Definition cache_ok (st : V2State) : Prop := forall file c, v2_cache st !! file = Some c -> exact c file /\ path_within root file = true.
Definition collects (rec : Path -> V2State -> result SourceError (V2Collection * V2State)) : Prop :=
  forall path st c st', rec path st = Ok (c, st') -> cache_ok st ->
  exists file, fs_canonicalize fs path = Some file /\ path_within root file = true /\ exact c file /\ cache_ok st' /\ v2_work st <= v2_work st'.

Lemma charge_Ok n st st' : 0 <= n -> charge n st = Ok st' ->
  v2_cache st' = v2_cache st /\ v2_visiting st' = v2_visiting st /\ v2_work st <= v2_work st' <= MAX_V2FLY_EXPANSION_WORK.
Proof.
  intros Hn H. unfold charge, charge_v2fly_work in H. apply bind_Ok in H as (w & H & [= <-]). apply bind_Ok in H as (w' & Ha & H).
  apply ok_or_Ok, checked_add_Some in Ha as [-> _]. apply bind_Ok in H as (u & Hl%ensure_Ok%Z.leb_le & [= <-]). cbn. split_and!; [done|done|lia|lia].
Qed.
(** The rules and affiliations one line adds. *)
Definition line_gives (file : Path) (line : str) (r : V2Rule) : Prop :=
  (exists affs, states line r affs) \/ exists target filters, includes file line target filters /\ gives target r /\ all_match filters r.
Definition line_affiliates (file : Path) (line : str) (e : str * V2Rule) : Prop :=
  (exists affs, states line e.2 affs /\ e.1 ∈ affs) \/ exists target filters, includes file line target filters /\ affiliates target e.
Lemma slots_nonneg rules n : attribute_slots rules = Some n -> 0 <= n.
Proof.
  unfold attribute_slots. revert n. induction (elements rules) as [|r l IH]; cbn; intros n H; [injection H as <-; lia|].
  destruct (foldr _ _ l) as [m|]; [|done]. cbn in H. apply checked_add_Some in H as [-> _]. specialize (IH m eq_refl). lia.
Qed.
Lemma v2_line_exact rec file line out st out' st' : collects rec -> cache_ok st -> v2_line rec file line out st = Ok (out', st') ->
  cache_ok st' /\ v2_work st <= v2_work st' /\
  (forall r, r ∈ vc_rules out' <-> r ∈ vc_rules out \/ line_gives file line r) /\
  (forall e, e ∈ vc_affiliations out' <-> e ∈ vc_affiliations out \/ line_affiliates file line e).
Proof.
  intros Hrec Hc H. unfold v2_line in H. apply bind_Ok in H as (st1 & H1 & H). apply charge_Ok in H1 as (E1 & _ & Hw1); [|lia].
  assert (Hc1 : cache_ok st1) by (unfold cache_ok; by rewrite E1).
  destruct (split_whitespace line) as [|entry parts] eqn:Es.
  { injection H as <- <-. split; [done|]. split; [lia|]. unfold line_gives, line_affiliates, states, includes. rewrite Es. naive_solver. }
  destruct (strip_prefix (lit "include:") entry) as [included|] eqn:Ei.
  - apply bind_Ok in H as (comps & Hcomp & H). apply ok_or_Ok in Hcomp. apply bind_Ok in H as (filters & Hf & H). apply bind_Ok in H as ([col st2] & Hr & H).
    destruct (Hrec _ _ _ _ Hr Hc1) as (target & Ht & _ & [Hx1 Hx2] & Hc2 & Hw2).
    apply bind_Ok in H as (st3 & H3 & H). apply charge_Ok in H3 as (E3 & _ & Hw3); [|lia].
    apply bind_Ok in H as (slots & Hs & H). apply ok_or_Ok in Hs. apply bind_Ok in H as (fw & Hfw & H). apply ok_or_Ok, checked_mul_Some in Hfw as [-> _].
    apply bind_Ok in H as (st4 & H4 & H). apply charge_Ok in H4 as (E4 & _ & Hw4); [|pose proof (slots_nonneg _ _ Hs); lia]. injection H as <- <-.
    assert (Hinc : forall t fl, includes file line t fl <-> t = target /\ fl = filters).
    { intros t fl. split; [|intros [-> ->]; by exists entry, parts, included, comps].
      intros (en & ps & inc & cs & E & E' & E'' & E''' & E'''').
      rewrite Es in E. injection E as <- <-. rewrite Ei in E'. injection E' as <-. rewrite Hcomp in E''. injection E'' as <-.
      rewrite Hf in E'''. injection E''' as <-. rewrite Ht in E''''. by injection E'''' as <-. }
    assert (Hst : forall r affs, ~ states line r affs).
    { intros r affs (en & ps & E & E' & _). rewrite Es in E. injection E as <- <-. congruence. }
    split; [unfold cache_ok; by rewrite E4, E3|]. split; [lia|]. cbn [vc_rules vc_affiliations]. split.
    + intros r. rewrite elem_of_union, elem_of_filter, Hx1. unfold line_gives. split; [|intros [?|[[? ?%Hst]|(t & fl & [-> ->]%Hinc & Hg & Hm)]]; naive_solver].
      intros [?|[Hm Hg]]; [by left|]. right. right. exists target, filters. split; [by apply Hinc|done].
    + intros e. rewrite elem_of_union, Hx2. unfold line_affiliates. split; [|intros [?|[(? & ?%Hst & _)|(t & fl & [-> ->]%Hinc & Hg)]]; naive_solver].
      intros [?|Hg]; [by left|]. right. right. exists target, filters. split; [by apply Hinc|done].
  - apply bind_Ok in H as (parsed & Hp & H).
    assert (Hninc : forall t fl, ~ includes file line t fl).
    { intros t fl (en & ps & inc & cs & E & E' & _). rewrite Es in E. injection E as <- <-. congruence. }
    assert (Hst : forall r affs, states line r affs <-> parsed = Some (r, affs)).
    { intros r affs. split; [|intros ->; by exists entry, parts]. intros (en & ps & E & _ & E'). rewrite Es in E. injection E as <- <-. rewrite Hp in E'. by injection E'. }
    destruct parsed as [[rule affs]|]; injection H as <- <-; (split; [done|]; split; [lia|]).
    + cbn [vc_rules vc_affiliations]. split.
      * intros r. rewrite elem_of_union, elem_of_singleton. unfold line_gives. setoid_rewrite Hst. naive_solver.
      * intros [a r]. rewrite elem_of_union, elem_of_list_to_set, list_elem_of_fmap. unfold line_affiliates. setoid_rewrite Hst. naive_solver.
    + unfold line_gives, line_affiliates. setoid_rewrite Hst. split; naive_solver.
Qed.
Lemma v2_lines_exact rec file lines : forall out st out' st', collects rec -> cache_ok st -> v2_lines rec file lines out st = Ok (out', st') ->
  cache_ok st' /\ v2_work st <= v2_work st' /\
  (forall r, r ∈ vc_rules out' <-> r ∈ vc_rules out \/ exists line, line ∈ lines /\ line_gives file line r) /\
  (forall e, e ∈ vc_affiliations out' <-> e ∈ vc_affiliations out \/ exists line, line ∈ lines /\ line_affiliates file line e).
Proof.
  induction lines as [|line lines IH]; intros out st out' st' Hrec Hc H.
  - injection H as <- <-. setoid_rewrite elem_of_nil. split; [done|]. split; [lia|]. naive_solver.
  - cbn [v2_lines] in H. apply bind_Ok in H as ([out1 st1] & H1 & H). destruct (v2_line_exact _ _ _ _ _ _ _ Hrec Hc H1) as (Hc1 & Hw1 & Hr1 & Ha1).
    destruct (IH _ _ _ _ Hrec Hc1 H) as (Hc2 & Hw2 & Hr2 & Ha2). split; [done|]. split; [lia|]. setoid_rewrite elem_of_cons.
    split; intros x; [rewrite Hr2, Hr1|rewrite Ha2, Ha1]; naive_solver.
Qed.
Lemma collect_exact depth : collects (collect_v2fly fs root ga depth).
Proof.
  induction depth as [|depth IH]; intros path st c st' H Hc; [done|]. cbn [collect_v2fly] in H.
  apply bind_Ok in H as (file & Hf & H). apply ok_or_Ok in Hf. apply bind_Ok in H as (u & Hin & H). apply ensure_Ok in Hin.
  exists file. split; [done|]. split; [done|].
  destruct (v2_cache st !! file) as [c0|] eqn:Ecache; [injection H as <- <-; split; [by apply (Hc file)|]; split; [done|lia]|].
  apply bind_Ok in H as (u' & _ & H). apply bind_Ok in H as ([out1 st1] & H1 & H). apply bind_Ok in H as (lines & Hl & H).
  apply bind_Ok in H as ([out2 st2] & H2 & H). injection H as <- <-.
  assert (Hs1 : cache_ok st1 /\ v2_work st <= v2_work st1 /\ (forall r, r ∈ vc_rules out1 <-> exists rules, named_rules ga file = Some rules /\ r ∈ rules) /\ vc_affiliations out1 = ∅).
  { destruct (named_rules ga file) as [rules|] eqn:En.
    - apply bind_Ok in H1 as (st0 & Hch & H1). injection H1 as <- <-. apply charge_Ok in Hch as (E & _ & Hw); [|lia]. cbn in E, Hw.
      split; [unfold cache_ok; by rewrite E|]. split; [lia|]. split; [|done]. intros r. cbn. naive_solver.
    - injection H1 as <- <-. split; [done|]. split; [cbn; lia|]. split; [|done]. intros r. cbn. split; [by intros ?%elem_of_empty|naive_solver]. }
  destruct Hs1 as (Hc1 & Hw1 & Hr1 & Ea1). destruct (v2_lines_exact _ _ _ _ _ _ _ IH Hc1 H2) as (Hc2 & Hw2 & Hr2 & Ha2).
  assert (Hlines : forall line, has_line file line <-> line ∈ lines) by (intros line; unfold has_line; rewrite Hl; naive_solver).
  assert (Hx : exact out2 file).
  { split.
    - intros r. rewrite Hr2, Hr1. split.
      + intros [(rules & ? & ?)|(line & Hin2 & [(affs & ?)|(t & fl & ? & ? & ?)])]; [by eapply gives_named|eapply gives_line; [by apply Hlines|done]|eapply gives_include; [by apply Hlines|done..]].
      + intros Hg. inversion Hg as [f rules r' En Hr|f line r' affs Hh Hs|f line t fl r' Hh Hi Hg' Hm]; subst; [left; by exists rules| |].
        * right. exists line. split; [by apply Hlines|]. left. by exists affs.
        * right. exists line. split; [by apply Hlines|]. right. by exists t, fl.
    - intros e. rewrite Ha2, Ea1. split.
      + intros [?%elem_of_empty|(line & Hin2 & [(affs & Hs & Hm)|(t & fl & ? & ?)])]; [done| |].
        * destruct e as [a r]. eapply affiliates_line; [by apply Hlines|done..].
        * eapply affiliates_include; [by apply Hlines|done..].
      + intros Hg. right. inversion Hg as [f line r affs a Hh Hs Hm|f line t fl e' Hh Hi Hg']; subst.
        * exists line. split; [by apply Hlines|]. left. by exists affs.
        * exists line. split; [by apply Hlines|]. right. by exists t, fl. }
  split; [done|]. cbn. split; [|lia]. intros file' c'. cbn. destruct (decide (file' = file)) as [->|Hne].
  - rewrite lookup_insert_eq. intros [= <-]. done.
  - rewrite lookup_insert_ne by done. apply Hc2.
Qed.
End Meaning.

(** ** Affiliations of the whole directory *)

Section Globals.
Context (fs : Fs) (root : Path).

Definition in_affiliations (ga : Affiliations) (e : str * V2Rule) : Prop := exists rules, ga !! e.1 = Some rules /\ e.2 ∈ rules.
(** What a line affiliates by itself, when the whole directory is read. *)
Definition affiliation_line (line : str) (e : str * V2Rule) : Prop :=
  exists entry metadata affs, split_whitespace line = entry :: metadata /\ starts_with (lit "include:") entry = false /\
    starts_with (lit "regexp:") entry = false /\ existsb (starts_with [38]) metadata = true /\
    parse_v2fly_domain_rule entry metadata = Ok (Some (e.2, affs)) /\ e.1 ∈ affs.
Lemma direct_lines_exact lines : forall acc work out work', direct_lines lines acc work = Ok (out, work') ->
  work <= work' /\ forall e, e ∈ out <-> e ∈ acc \/ exists line, line ∈ lines /\ affiliation_line line e.
Proof.
  induction lines as [|line lines IH]; intros acc work out work' H.
  { injection H as <- <-. split; [lia|]. setoid_rewrite elem_of_nil. naive_solver. }
  cbn [direct_lines] in H. apply bind_Ok in H as (w1 & Hw & H). unfold charge_v2fly_work in Hw.
  apply bind_Ok in Hw as (w & Ha & Hw). apply ok_or_Ok, checked_add_Some in Ha as [-> _]. apply bind_Ok in Hw as (u & _ & [= <-]).
  assert (Hskip : (forall e, ~ affiliation_line line e) -> direct_lines lines acc (work + 1) = Ok (out, work') ->
    work <= work' /\ forall e, e ∈ out <-> e ∈ acc \/ exists l, l ∈ line :: lines /\ affiliation_line l e).
  { intros Hno Hr. apply IH in Hr as [Hl He]. split; [lia|]. intros e. rewrite He. setoid_rewrite elem_of_cons. specialize (Hno e). naive_solver. }
  destruct (split_whitespace line) as [|entry metadata] eqn:Es; [apply Hskip; [intros e (? & ? & ? & ? & _); congruence|done]|].
  destruct (_ || _ || _) eqn:Eb.
  { apply Hskip; [|done]. intros e (en & md & affs & E & H1 & H2 & H3 & _). rewrite Es in E. injection E as <- <-. by rewrite H1, H2, H3 in Eb. }
  apply orb_false_iff in Eb as [[H1 H2]%orb_false_iff H3%negb_false_iff]. apply bind_Ok in H as (parsed & Hp & H).
  destruct parsed as [[rule targets]|].
  - apply IH in H as [Hl He]. split; [lia|]. intros [a r]. rewrite He, elem_of_union, elem_of_list_to_set, list_elem_of_fmap. setoid_rewrite elem_of_cons.
    assert (Hal : affiliation_line line (a, r) <-> r = rule /\ a ∈ targets).
    { split; [|intros [-> ?]; by exists entry, metadata, targets]. intros (en & md & affs & E & _ & _ & _ & E' & ?). rewrite Es in E. injection E as <- <-.
      rewrite Hp in E'. injection E' as -> ->. done. }
    naive_solver.
  - apply Hskip; [|done]. intros e (en & md & affs & E & _ & _ & _ & E' & _). rewrite Es in E. injection E as <- <-. by rewrite Hp in E'.
Qed.
Lemma affiliate_in ga e x : in_affiliations (affiliate ga e) x <-> x = e \/ in_affiliations ga x.
Proof.
  unfold in_affiliations, affiliate. destruct x as [a r], e as [b q]. cbn. destruct (decide (a = b)) as [->|Hne].
  - rewrite lookup_insert_eq. split; [intros (rules & [= <-] & [->%elem_of_singleton|Hr]%elem_of_union); [by left|]|].
    + destruct (ga !! b) as [s|]; [right; by exists s|by apply elem_of_empty in Hr].
    + intros [[= ->]|(s & E & Hr)]; eexists; (split; [done|]); [set_solver|]. rewrite E. cbn. set_solver.
  - rewrite lookup_insert_ne by done. naive_solver.
Qed.
Lemma affiliates_in es : forall ga x, in_affiliations (foldl affiliate ga es) x <-> x ∈ es \/ in_affiliations ga x.
Proof.
  induction es as [|e es IH]; intros ga x; cbn [foldl]; [rewrite elem_of_nil; naive_solver|]. rewrite IH, affiliate_in, elem_of_cons. naive_solver.
Qed.
(** The order of entries is total. *)
Lemma strs_cmp_spec a b : (strs_cmp a b = Eq <-> a = b) /\ strs_cmp b a = CompOpp (strs_cmp a b).
Proof.
  revert b. induction a as [|x a IH]; intros [|y b]; cbn; [done..|]. rewrite (str_cmp_antisym x y). destruct (IH b) as [He Ho].
  destruct (str_cmp x y) eqn:E; cbn; [|split; [split; [done|]|done]; intros [= -> ->]; by rewrite str_cmp_refl in E..].
  apply str_cmp_eq in E as ->. split; [|done]. rewrite He. naive_solver.
Qed.
Lemma strs_cmp_trans a b c : strs_cmp a b = Lt -> strs_cmp b c = Lt -> strs_cmp a c = Lt.
Proof.
  revert b c. induction a as [|x a IH]; intros [|y b] [|z c]; cbn; try done.
  destruct (str_cmp x y) eqn:E1; [| |done]; destruct (str_cmp y z) eqn:E2; try done.
  - apply str_cmp_eq in E1 as ->, E2 as ->. rewrite str_cmp_refl. apply IH.
  - apply str_cmp_eq in E1 as ->. by rewrite E2.
  - apply str_cmp_eq in E2 as ->. by rewrite E1.
  - by rewrite (str_lt_trans _ _ _ E1 E2).
Qed.
#[global] Instance v2_order_laws : KeyOrderLaws (str * V2Rule).
Proof.
  assert (Hlt : forall a b : str * V2Rule, key_lt a b <-> strs_cmp (entry_texts a) (entry_texts b) = Lt).
  { intros a b. unfold key_lt, key_ltb, v2_order. by destruct (strs_cmp _ _). }
  split; [intros a|intros a b c|intros a b]; rewrite ?Hlt.
  - destruct (strs_cmp_spec (entry_texts a) (entry_texts a)) as [[_ H] _]. by rewrite H.
  - apply strs_cmp_trans.
  - destruct (strs_cmp_spec (entry_texts a) (entry_texts b)) as [He ->]. destruct (strs_cmp _ _) eqn:E; cbn; [|tauto..].
    right. left. destruct He as [He _]. specialize (He eq_refl). destruct a as [t [r l]], b as [t' [r' l']]. unfold entry_texts in He. cbn in He. congruence.
Qed.
Lemma global_affiliations_exact names : forall ga work ga' work', global_affiliations_of fs root names ga work = Ok (ga', work') ->
  work <= work' /\ forall e, in_affiliations ga' e <-> in_affiliations ga e \/
    exists name file line, name ∈ names /\ fs_canonicalize fs (root ++ [name]) = Some file /\ path_within root file = true /\ has_line fs file line /\ affiliation_line line e.
Proof.
  induction names as [|name names IH]; intros ga work ga' work' H.
  { injection H as <- <-. split; [lia|]. setoid_rewrite elem_of_nil. naive_solver. }
  cbn [global_affiliations_of] in H. apply bind_Ok in H as ([affs w1] & H1 & H). unfold collect_direct_v2fly_affiliations in H1.
  apply bind_Ok in H1 as (file & Hf & H1). apply ok_or_Ok in Hf. apply bind_Ok in H1 as (u & Hin%ensure_Ok & H1).
  apply bind_Ok in H1 as (lines & Hl & H1). apply direct_lines_exact in H1 as [Hw1 He1]. apply IH in H as [Hw2 He2]. split; [lia|].
  intros e. rewrite He2, affiliates_in, elem_of_bt_elements, He1. setoid_rewrite elem_of_cons. split.
  - intros [[[?%elem_of_empty|(line & Hi & Ha)]|Hg]|(n & f & line & Hn & R)]; [done| |by left|right; exists n, f, line; naive_solver].
    right. exists name, file, line. split; [by left|]. split; [done|]. split; [done|]. split; [by exists lines|done].
  - intros [Hg|(n & f & line & [->|Hn] & Hf' & Hi' & (ls & Hl' & Hm) & Ha)]; [left; by right| |right; exists n, f, line; split; [done|]; split; [done|]; split; [done|]; split; [by exists ls|done]].
    left. left. right. rewrite Hf in Hf'. injection Hf' as <-. rewrite Hl in Hl'. injection Hl' as <-. by exists line.
Qed.
End Globals.

(** ** The whole expansion *)

Definition sibling (entries : list (option (str * option bool))) (ext : option str) (name : str) : Prop :=
  Some (name, Some true) ∈ entries /\ utf8_valid name && starts_with [dot] name = false /\ extension [name] = ext.
Lemma sibling_names_exact ext entries : forall names, sibling_names ext entries = Ok names -> forall name, name ∈ names <-> sibling entries ext name.
Proof.
  unfold sibling. induction entries as [|[[n f]|] entries IH]; intros names H name; cbn [sibling_names] in H; [|destruct (_ || _) eqn:E|done].
  - injection H as <-. rewrite !elem_of_nil. naive_solver.
  - rewrite (IH _ H), elem_of_cons. split; [naive_solver|]. intros ([[= -> <-]|?] & Hh & He); [|done]. rewrite Hh, bool_decide_eq_true_2 in E by done. done.
  - apply orb_false_iff in E as [Hh He%negb_false_iff%bool_decide_eq_true]. apply bind_Ok in H as (b & Hb & H). apply ok_or_Ok in Hb as ->.
    apply bind_Ok in H as (ns & Hns & [= <-]). rewrite elem_of_cons. specialize (IH _ Hns name). destruct b; [rewrite elem_of_cons|]; naive_solver.
Qed.
Lemma categorized_exact category ga col t r :
  (t, r) ∈ categorized category ga col <-> (t = category /\ r ∈ vc_rules col) \/
    exists a, t = affiliated_target category a /\ ((a, r) ∈ vc_affiliations col \/ in_affiliations ga (a, r)).
Proof.
  unfold categorized, in_affiliations. rewrite !elem_of_union, elem_of_list_to_set, !elem_of_map. split.
  - intros [[(x & [= -> ->] & ?)|([a x] & [= -> ->] & ?)]|H]; [by left|right; exists a; auto|].
    apply list_elem_of_In, in_flat_map in H as ([a rules] & Hm%list_elem_of_In & Hi). apply elem_of_map_to_list in Hm.
    apply in_map_iff in Hi as (x & [= <- <-] & Hx%list_elem_of_In%elem_of_elements). right. exists a. split; [done|]. right. by exists rules.
  - intros [[-> ?]|(a & -> & [?|(rules & Hm & Hx)])]; [left; left; by exists r|left; right; by exists (a, r)|right].
    apply list_elem_of_In, in_flat_map. exists (a, rules). split; [by apply list_elem_of_In, elem_of_map_to_list|].
    apply in_map_iff. exists r. split; [done|]. by apply list_elem_of_In, elem_of_elements.
Qed.

(** Two file systems that agree on paths and on the files below a directory. *)
Definition agree_below (root : Path) (fs fs' : Fs) : Prop :=
  (forall p, fs_canonicalize fs p = fs_canonicalize fs' p) /\ fs_read_dir fs root = fs_read_dir fs' root /\
  forall p, path_within root p = true -> fs_read_to_string fs p = fs_read_to_string fs' p.
Lemma v2_lines_ext rec rec' file lines : (forall p st, rec p st = rec' p st) -> forall out st, v2_lines rec file lines out st = v2_lines rec' file lines out st.
Proof.
  intros He. induction lines as [|line lines IH]; intros out st; [done|]. cbn [v2_lines].
  assert (v2_line rec file line out st = v2_line rec' file line out st) as ->.
  { unfold v2_line. destruct (charge 1 st) as [st1|]; [|done]. cbn -[lit strip_prefix]. destruct (split_whitespace line) as [|entry parts]; [done|].
    destruct (strip_prefix (lit "include:") entry) as [inc|]; [|done]. destruct (ok_or (include_components inc) BadInclude) as [cs|]; [|done]. cbn -[lit strip_prefix].
    destruct (parse_filters 0 parts) as [fl|]; [|done]. cbn -[lit strip_prefix]. by rewrite He. }
  destruct (v2_line rec' file line out st) as [[o1 st1]|]; [|done]. cbn -[lit strip_prefix]. apply IH.
Qed.
Lemma collect_confined root fs fs' ga depth : agree_below root fs fs' -> forall p st, collect_v2fly fs root ga depth p st = collect_v2fly fs' root ga depth p st.
Proof.
  intros (Hc & _ & Hr). induction depth as [|depth IH]; intros p st; [done|]. cbn [collect_v2fly]. rewrite Hc.
  destruct (ok_or (fs_canonicalize fs' p) ResolveFailed) as [file|]; [|done]. cbn. destruct (path_within root file) eqn:Ew; [|done]. cbn.
  destruct (v2_cache st !! file); [done|]. destruct (bool_decide _); [|done]. cbn.
  destruct (match named_rules ga file with Some _ => _ | None => _ end) as [[o1 st1]|]; [|done]. cbn. unfold read_lines. rewrite (Hr _ Ew).
  destruct (ok_or (fs_read_to_string fs' file) ReadFailed) as [text|]; [|done]. cbn. by rewrite (v2_lines_ext _ _ _ _ IH).
Qed.
Lemma globals_confined root fs fs' names : agree_below root fs fs' -> forall ga work,
  global_affiliations_of fs root names ga work = global_affiliations_of fs' root names ga work.
Proof.
  intros (Hc & _ & Hr). induction names as [|name names IH]; intros ga work; [done|]. cbn [global_affiliations_of].
  unfold collect_direct_v2fly_affiliations. rewrite Hc. destruct (ok_or (fs_canonicalize fs' _) ResolveFailed) as [file|]; [|done]. cbn.
  destruct (path_within root file) eqn:Ew; [|done]. cbn. unfold read_lines. rewrite (Hr _ Ew).
  destruct (ok_or (fs_read_to_string fs' file) ReadFailed) as [text|]; [|done]. cbn. destruct (direct_lines _ _ _) as [[affs w]|]; [|done]. cbn. apply IH.
Qed.

(** The rules a v2fly source contributes, when it is expanded, are exactly
    those its file states or includes, through the filters and whatever the
    nesting and sharing, under its category, and those any visible sibling or
    included line affiliates to a name, under that name's category; only files
    below the source's canonical directory are read; and the expansion ends, within
    its depth and its budget of work. *)
Theorem v2fly_expansion_exact fs category file out col :
  expand_v2fly fs category file = Ok (out, col) ->
  exists root entries ga top, fs_canonicalize fs (path_parent file) = Some root /\ fs_read_dir fs root = Some entries /\
    fs_canonicalize fs file = Some top /\ path_within root top = true /\
    (forall e, in_affiliations ga e <-> exists name f line, sibling entries (extension file) name /\
       fs_canonicalize fs (root ++ [name]) = Some f /\ path_within root f = true /\ has_line fs f line /\ affiliation_line line e) /\
    (forall t r, (t, r) ∈ out <-> (t = category /\ gives fs ga top r) \/
       exists a, t = affiliated_target category a /\ (affiliates fs top (a, r) \/ in_affiliations ga (a, r))) /\
    (forall fs', agree_below root fs fs' -> expand_v2fly fs' category file = Ok (out, col)).
Proof.
  intros H. pose proof H as H0. unfold expand_v2fly in H. apply bind_Ok in H as (root & Hroot & H). apply ok_or_Ok in Hroot.
  apply bind_Ok in H as (entries & Hent & H). apply ok_or_Ok in Hent. apply bind_Ok in H as (names & Hn & H).
  apply bind_Ok in H as ([ga work] & Hg & H). apply bind_Ok in H as ([c st] & Hcol & H). apply bind_Ok in H as (amount & _ & H).
  apply bind_Ok in H as (w & _ & [= <- <-]). assert (Hempty : cache_ok fs root ga (mkV2 ∅ ∅ work)) by (intros f c' E; cbn in E; by rewrite lookup_empty in E).
  destruct (collect_exact fs root ga MAX_DEPTH _ _ _ _ Hcol Hempty) as (top & Htop & Hin & [Hr Ha] & _).
  exists root, entries, ga, top. do 4 (split; [done|]). split; [|split].
  - intros e. destruct (global_affiliations_exact fs root _ _ _ _ _ Hg) as [_ He]. rewrite He.
    assert (Hno : ~ in_affiliations ∅ e) by (intros (? & E & _); by rewrite lookup_empty in E).
    setoid_rewrite elem_of_bt_elements. setoid_rewrite elem_of_list_to_set. setoid_rewrite (sibling_names_exact _ _ _ Hn).
    split; [by intros [?|?]|by right].
  - intros t r. rewrite categorized_exact. setoid_rewrite Hr. setoid_rewrite Ha. done.
  - intros fs' Hag. rewrite <- H0. unfold expand_v2fly. pose proof Hag as (Hc & Hd & _). rewrite <- Hc, Hroot. cbn [ok_or mbind result_bind].
    rewrite <- Hd, Hent. cbn [ok_or mbind result_bind]. rewrite Hn. cbn [mbind result_bind].
    rewrite <- (globals_confined root fs fs' _ Hag), Hg. cbn [mbind result_bind]. by rewrite <- (collect_confined root fs fs' ga MAX_DEPTH Hag), Hcol.
Qed.

(** * The book a manifest builds

    Every source comes down to a list of lines [(category, rule)] added in
    order, so the book means what those lines mean. *)

Definition v2_entry_lines (e : str * V2Rule) : list (str * str) :=
  (e.1, vr_rule e.2) :: map (fun attr => (e.1 ++ [64] ++ attr, vr_rule e.2)) (vr_attrs e.2).
Definition serviced_lines (category : str) (e : str * str) : list (str * str) :=
  (category, e.1) :: if is_empty (service_segment e.2) then [] else [(category ++ [slash] ++ service_segment e.2, e.1)].
Definition under_category (category : str) (lines : list str) : list (str * str) := map (fun l => (category, l)) lines.

Lemma flat_map_single {A B} (f : A -> B) l : flat_map (fun x => [f x]) l = map f l.
Proof. induction l as [|x l IH]; [done|]. cbn. by rewrite IH. Qed.

Section Book.
Context {N : Ipnet} `{!IpnetLaws N} `{!IpnetGrammar N} {T : SourceTexts} (fs : Fs).

(** The lines of a source *)
Definition source_lines (s : Source) (file : Path) : result SourceError (list (str * str)) :=
  let of_kind k := str_eqb (so_kind s) (lit k) in
  let serviced es := flat_map (serviced_lines (so_category s)) es in
  if of_kind "cidrs"%string then ls ← read_lines fs file; Ok (under_category (so_category s) ls)
  else if of_kind "domains"%string then ls ← read_lines fs file; Ok (under_category (so_category s) ls)
  else if of_kind "v2fly-domains"%string then expanded ← expand_v2fly fs (so_category s) file; Ok (flat_map v2_entry_lines (bt_elements expanded.1))
  else
    text ← ok_or (fs_read_to_string fs file) ReadFailed;
    if of_kind "aws-ip-ranges"%string then ranges ← ok_or (aws_from_str text) ParseFailed; Ok (serviced (aw_prefixes ranges ++ aw_ipv6_prefixes ranges))
    else if of_kind "azure-service-tags"%string then
      tags ← ok_or (azure_from_str text) ParseFailed;
      Ok (serviced (flat_map (fun tag => map (fun p => (p, azure_service tag)) (az_address_prefixes tag)) tags))
    else prefixes ← ok_or (gcp_from_str text) ParseFailed; es ← try_map gcp_entry prefixes; Ok (serviced es).

(** [m], when it succeeds, adds these lines. *)
Definition feeds {A} (m : sop A) (ls : list (str * str)) : Prop := forall bb bb' a, m bb = (bb', Ok a) -> bb' = add_lines bb ls.
Lemma feeds_add c r : feeds (add c r) [(c, r)].
Proof using Type. intros bb bb' a H. unfold add in H. destruct (add_rule c r bb) as [b res] eqn:E. injection H as <- _. unfold add_lines, add_line. cbn. by rewrite E. Qed.
Lemma sbind_Ok {A B} (m : sop A) (k : A -> sop B) bb bb' b : (m ≫= k) bb = (bb', Ok b) -> exists bb1 a, m bb = (bb1, Ok a) /\ k a bb1 = (bb', Ok b).
Proof using Type. unfold mbind, sop_bind. destruct (m bb) as [bb1 [a|e]]; [|done]. intros H. by exists bb1, a. Qed.
Lemma feeds_ret {A} (a : A) : feeds (mret a) [].
Proof using Type. intros bb bb' x H. by injection H as <- _. Qed.
Lemma feeds_bind {A B} (m : sop A) (k : A -> sop B) ls ls' : feeds m ls -> (forall a, feeds (k a) ls') -> feeds (m ≫= k) (ls ++ ls').
Proof using Type.
  intros Hm Hk bb bb' b H. apply sbind_Ok in H as (bb1 & a & H1 & H2). apply Hm in H1 as ->. apply Hk in H2 as ->.
  unfold add_lines. by rewrite foldl_app.
Qed.
Lemma feeds_each {A} (f : A -> sop unit) g l : (forall x, feeds (f x) (g x)) -> feeds (each f l) (flat_map g l).
Proof using Type.
  intros Hf. induction l as [|x l IH]; [apply feeds_ret|]. cbn [each flat_map]. apply feeds_bind; [apply Hf|]. by intros _.
Qed.
Lemma feeds_err {A} e ls : feeds (@slift A (Err e)) ls.
Proof using Type. by intros bb bb' a H. Qed.
Lemma feeds_add_ip category prefix : feeds (add_ip_rule category prefix) [(category, prefix)].
Proof using Type. unfold add_ip_rule. destruct (parse_ip_entries prefix); [apply feeds_add|apply feeds_err]. Qed.
Lemma feeds_provider category prefix : feeds (add_provider_cidr category prefix) [(category, prefix)].
Proof using Type.
  unfold add_provider_cidr. destruct (negb _); [apply feeds_err|]. destruct (ipnet_parse prefix) as [n|]; [|apply feeds_err].
  destruct (canonical_net n); [apply feeds_add|apply feeds_err].
Qed.
Lemma feeds_serviced category e : feeds (add_serviced category e) (serviced_lines category e).
Proof using Type.
  unfold add_serviced, serviced_lines. change (?x :: ?l) with ([x] ++ l). apply feeds_bind; [apply feeds_provider|]. intros _. cbv zeta.
  destruct (is_empty _); [apply feeds_ret|apply feeds_provider].
Qed.
Lemma feeds_v2 e : feeds (add_v2_rule e) (v2_entry_lines e).
Proof using Type.
  unfold add_v2_rule, v2_entry_lines. change (?x :: ?l) with ([x] ++ l). apply feeds_bind; [apply feeds_add|]. intros _.
  rewrite <- flat_map_single. apply feeds_each. intros attr. apply feeds_add.
Qed.
Lemma feeds_gcp category l : forall bb bb' a, each (fun p => e ← slift (gcp_entry p); add_serviced category e) l bb = (bb', Ok a) ->
  exists es, try_map gcp_entry l = Ok es /\ bb' = add_lines bb (flat_map (serviced_lines category) es).
Proof using Type.
  induction l as [|p l IH]; intros bb bb' a H; [injection H as <- _; by exists []|]. cbn [each] in H.
  apply sbind_Ok in H as (bb1 & [] & H1 & H2). apply sbind_Ok in H1 as (bb0 & e & H0 & H1). unfold slift in H0. injection H0 as <- He.
  apply feeds_serviced in H1 as ->. apply IH in H2 as (es & Hes & ->). exists (e :: es). cbn [try_map]. rewrite He. cbn. rewrite Hes. cbn. split; [done|].
  unfold add_lines. by rewrite <- foldl_app.
Qed.
(** A source adds exactly its lines. *)
Lemma apply_source_lines s file bb bb' n : so_kind s ∈ KINDS -> apply_source fs s file bb = (bb', Ok n) ->
  exists ls, source_lines s file = Ok ls /\ bb' = add_lines bb ls.
Proof using Type.
  intros Hk H. unfold apply_source, source_lines in *. cbv zeta in *.
  assert (Hlines : forall (f : str -> sop unit) bb bb', (forall l, feeds (f l) [(so_category s, l)]) ->
    (lines ← slift (read_lines fs file); each f lines ;; mret (count lines)) bb = (bb', Ok n) ->
    exists ls, (ls ← read_lines fs file; Ok (under_category (so_category s) ls)) = Ok ls /\ bb' = add_lines bb ls).
  { intros f b b' Hf Hr. apply sbind_Ok in Hr as (b1 & lines & H1 & H2). unfold slift in H1. injection H1 as <- ->. cbn.
    eexists. split; [done|]. apply sbind_Ok in H2 as (b2 & [] & H2 & H3). injection H3 as <- _.
    apply (feeds_each f (fun l => [(so_category s, l)])) in H2; [|done]. by rewrite flat_map_single in H2. }
  assert (Hserv : forall A (es : list A) (h : A -> str * str) b b' m, (each (fun x => add_serviced (so_category s) (h x)) es ;; mret m) b = (b', Ok n) ->
    b' = add_lines b (flat_map (fun x => serviced_lines (so_category s) (h x)) es)).
  { intros A es h b b' m Hr. apply sbind_Ok in Hr as (b2 & [] & H2 & H3). injection H3 as <- _. revert H2. apply feeds_each. intros x. apply feeds_serviced. }
  destruct (str_eqb (so_kind s) (lit "cidrs")); [revert H; apply Hlines; intros; apply feeds_add_ip|].
  destruct (str_eqb (so_kind s) (lit "domains")); [revert H; apply Hlines; intros; apply feeds_add|].
  destruct (str_eqb (so_kind s) (lit "v2fly-domains")).
  { unfold apply_v2fly in H. apply sbind_Ok in H as (b1 & ex & H1 & H). unfold slift in H1. injection H1 as <- Hx. rewrite Hx. cbn [mbind result_bind].
    eexists. split; [done|]. apply sbind_Ok in H as (b2 & [] & H2 & H3). injection H3 as <- _. revert H2. apply feeds_each, feeds_v2. }
  destruct (str_eqb (so_kind s) (lit "aws-ip-ranges")).
  { apply sbind_Ok in H as (b1 & text & H1 & H). unfold slift in H1. injection H1 as <- Ht. rewrite Ht. cbn [mbind result_bind].
    apply sbind_Ok in H as (b2 & ranges & H1 & H). unfold slift in H1. injection H1 as <- Hr. rewrite Hr. cbn [mbind result_bind].
    eexists. split; [done|]. by apply (Hserv _ _ id) in H. }
  destruct (str_eqb (so_kind s) (lit "azure-service-tags")).
  { apply sbind_Ok in H as (b1 & text & H1 & H). unfold slift in H1. injection H1 as <- Ht. rewrite Ht. cbn [mbind result_bind].
    apply sbind_Ok in H as (b2 & tags & H1 & H). unfold slift in H1. injection H1 as <- Hr. rewrite Hr. cbn [mbind result_bind].
    eexists. split; [done|]. by apply (Hserv _ _ id) in H. }
  destruct (str_eqb (so_kind s) (lit "gcp-cloud-json")); [|done].
  apply sbind_Ok in H as (b1 & text & H1 & H). unfold slift in H1. injection H1 as <- Ht. rewrite Ht. cbn [mbind result_bind].
  apply sbind_Ok in H as (b2 & ps & H1 & H). unfold slift in H1. injection H1 as <- Hr. rewrite Hr. cbn [mbind result_bind].
  apply sbind_Ok in H as (b3 & [] & H2 & H3). injection H3 as <- _. apply feeds_gcp in H2 as (es & Hes & ->). rewrite Hes. cbn. by eexists.
Qed.
Lemma apply_sources_lines base sources : Forall (fun s => so_kind s ∈ KINDS) sources -> forall bb bb' report, apply_sources fs base sources bb = (bb', Ok report) ->
  exists lss, Forall2 (fun s ls => source_lines s (path_join base (so_path s)) = Ok ls) sources lss /\ bb' = add_lines bb (concat lss) /\
    Forall2 (fun s r => snd r <> 0) sources report.
Proof using Type.
  induction 1 as [|s sources Hk Hks IH]; intros bb bb' report H; [injection H as <- <-; by exists []|]. cbn [apply_sources] in H.
  apply sbind_Ok in H as (b1 & added & H1 & H). apply (apply_source_lines _ _ _ _ _ Hk) in H1 as (ls & Hls & ->).
  destruct (Z.eqb_spec added 0) as [|Hne]; [done|]. apply sbind_Ok in H as (b2 & rep & H2 & H3). injection H3 as <- <-.
  apply IH in H2 as (lss & Hf & -> & Hr). exists (ls :: lss). split; [by constructor|]. split; [|by constructor]. cbn. unfold add_lines. by rewrite foldl_app.
Qed.

End Book.

(** ** Examples *)

Module SourcesDemo.
#[export] Existing Instances CidrNet.inst CidrNet.cidr_laws cidr_grammar.
Definition file (lines : list string) : str := flat_map (fun l => lit l ++ [nl]) lines.
Definition files : gmap Path str := list_to_map
  [([lit "etc"; lit "m.toml"], []);
   ([lit "etc"; lit "data"; lit "all"], file ["# everything"; "include:google @-ads"; "full:a.example @cn"; "regexp:^x$"]);
   ([lit "etc"; lit "data"; lit "google"], file ["google.com"; "ads.google.com @ads &trackers"; "include:loop2 @x"]);
   ([lit "etc"; lit "data"; lit "loop2"], file ["keyword:goog"]);
   ([lit "etc"; lit "data"; lit "loop"], file ["include:loop"]);
   ([lit "etc"; lit "nets.txt"], file ["10.0.0.0/8 # private"; ""; "1.2.3.4"])].
Definition fs : Fs := mkFs Some (fun p => files !! p)
  (fun _ => Some (map (fun n => Some (lit n, Some true)) ["all"; "google"; ".hidden"; "x.txt"]%string)).
Definition manifest : Manifest := mkManifest 3
  [mkSource (lit "geo/all") (lit "v2fly-domains") (lit "data/all") None; mkSource (lit "nets") (lit "cidrs") (lit "./nets.txt") None].
#[export] Instance texts : SourceTexts := {|
  manifest_from_str := fun _ => Some manifest; aws_from_str := fun _ => None; azure_from_str := fun _ => None; gcp_from_str := fun _ => None |}.
Definition path : Path := [lit "etc"; lit "m.toml"].
Definition list_file : Path := [lit "etc"; lit "data"; lit "all"].
(** The advert rule is filtered out of the including list and stays under its affiliation. *)
Example expansion : (fun x => map (fun e => (e.1, vr_rule e.2)) (bt_elements x.1)) <$>
    match expand_v2fly fs (lit "geo/all") list_file with Ok x => Some x | Err _ => None end
  = Some [(lit "geo/all", lit "domain:google.com"); (lit "geo/all", lit "full:a.example"); (lit "geo/trackers", lit "domain:ads.google.com")].
Proof. vm_compute. reflexivity. Qed.
(** A file that includes itself, and an include that leaves the directory. *)
Example include_cycle : collect_v2fly fs [lit "etc"; lit "data"] ∅ MAX_DEPTH [lit "etc"; lit "data"; lit "loop"] (mkV2 ∅ ∅ 0) = Err Cycle.
Proof. vm_compute. reflexivity. Qed.
Example include_escape : include_components (lit "../m.toml") = None /\ include_components (lit "/etc/m.toml") = None.
Proof. vm_compute. split; reflexivity. Qed.
Definition built : BookBuilder * result SourceError (list (str * Z)) := apply_manifest fs manifest [lit "etc"] (builder_new 3).
End SourcesDemo.

Section SourcesWitness.
Import SourcesDemo.
Lemma expanded : exists out col, expand_v2fly fs (lit "geo/all") list_file = Ok (out, col).
Proof.
  assert (H : is_ok (expand_v2fly fs (lit "geo/all") list_file) = true) by (vm_compute; reflexivity).
  destruct (expand_v2fly fs (lit "geo/all") list_file) as [[out col]|e]; [by exists out, col|discriminate H].
Qed.
Lemma v2fly_expansion_exact_witness : exists (out : gset (str * V2Rule)) root top ga,
  fs_canonicalize fs list_file = Some top /\ path_within root top = true /\
  forall t r, (t, r) ∈ out <-> (t = lit "geo/all" /\ gives fs ga top r) \/
    exists a, t = affiliated_target (lit "geo/all") a /\ (affiliates fs top (a, r) \/ in_affiliations ga (a, r)).
Proof.
  destruct expanded as (out & col & E).
  destruct (v2fly_expansion_exact fs (lit "geo/all") list_file out col E) as (root & entries & ga & top & _ & _ & Ht & Hw & _ & Hx & _).
  exists out, root, top, ga. split; [exact Ht|]. split; [exact Hw|exact Hx].
Defined.

Definition demo_bb : BookBuilder := built.1.
Definition demo_report : list (str * Z) := [(lit "data/all (v2fly-domains)", 2); (lit "./nets.txt (cidrs)", 2)].
Lemma demo_applied : apply_manifest fs manifest [lit "etc"] (builder_new 3) = (demo_bb, Ok demo_report).
Proof.
  assert (E : built.2 = Ok demo_report) by (vm_compute; reflexivity). change (built = (demo_bb, Ok demo_report)). rewrite <- E. apply surjective_pairing.
Qed.
Definition demo_raw_book : RawBook := unwrap_or (build demo_bb) (mkRawBook 0 [] 0 [] [] [] [] [] []).
Lemma demo_raw_built : build demo_bb = Ok demo_raw_book.
Proof. apply Ok_unwrap_or. vm_compute. reflexivity. Qed.
Lemma demo_loaded : manifest_load fs path = Ok (manifest, [lit "etc"]).
Proof. vm_compute. reflexivity. Qed.
End SourcesWitness.
