(* ===== verification/ConfigFile.v ===== *)
(** * ConfigFile: the daemon's configuration (src/src/config.rs)

    The sections of the configuration file with their defaults, the checks
    [Config::load] makes in their order, and what the sections compile to: the
    reverse-hop listener, the egress resolver of src/src/resolver.rs and the TLS
    acceptors and client configurations of src/src/tls.rs. The TOML decoder,
    rustls, the PEM reader and the resolver library are parameters. *)

From Stdlib Require Import ZArith Lia String.
From stdpp Require Import prelude strings list gmap.
From S2P Require Import Sniff SniffProps.
From S2P Require Import Prelude RustStr Net NetProps RustFmt Util Frame IngressFrame RelayConfig ConnectorConfig SubnetraConfig ReverseFrame ReverseUdp.
From S2P Require Import Domain Policy Model Engine ReverseEdge Io Handler Sync Sni AccessLog Diagnostics Mqtt.

(** ** Sections *)

(** [default_poll], [default_cache] *)
Definition default_poll : Z := 30.
Definition default_cache : str := lit "./data/snapshot.json".
Record AddrBookConfig := mkAddrBookConfig { ab_path : str; ab_poll_interval_secs : Z }.
Definition default_addrbook_poll_secs : Z := 300.
Record HealthConfig := mkHealthConfig { hc_enable : bool; hc_listen : str; hc_unreachable_secs : Z }.
Definition HealthConfig_default : HealthConfig := mkHealthConfig false (lit "127.0.0.1:9090") 90.
(** [ShutdownConfig]: its grace period, in seconds *)
Definition ShutdownConfig_default : Z := 30.
Definition DEFAULT_MAX_SNIFF_BYTES : nat := Z.to_nat (16 * 1024).
Definition SniffConfig_default : SniffConfig := mkSniffConfig false Observe DEFAULT_MAX_SNIFF_BYTES 500.
Record SniCertificate := mkSniCertificate { sc_server_names : list str; sc_cert : str; sc_key : str }.
Record TlsFiles := mkTlsFiles { tf_cert : str; tf_key : str; tf_certificates : list SniCertificate }.
(** [Listener], whole; [gateway_view] is what its SNI compilation reads. *)
Record FileListener := mkFileListener {
  fl_name : str; fl_protocol : str; fl_listen : str; fl_tls : option TlsFiles; fl_sniff : SniffConfig; fl_identity : option str;
  fl_origins : list str
}.
Definition gateway_view (l : FileListener) : Listener :=
  mkListener (fl_protocol l) (bool_decide (is_Some (fl_tls l))) (fl_identity l) (fl_origins l).
Record TuicListener := mkTuicListener {
  tl_name : str; tl_listen : str; tl_cert : str; tl_key : str; tl_alpn : list str; tl_initial_mtu : option Z; tl_sniff : SniffConfig
}.
Definition default_tuic_alpn : list str := [lit "h3"].
Definition LogConfig_default : str := lit "info".
Record AccessLogConfig := mkAccessLogConfig {
  al_enable : bool; al_dir : str; al_file_prefix : str; al_retention_days : Z; al_channel_capacity : Z; al_syslog : SyslogConfig
}.
Definition SyslogConfig_default : SyslogConfig := mkSyslogConfig false [] (lit "udp") (lit "local0") (lit "rove").
Definition AccessLogConfig_default : AccessLogConfig :=
  mkAccessLogConfig true (lit "./logs") (lit "access") 7 8192 SyslogConfig_default.
Record ReverseHopConfig := mkReverseHopConfig {
  rh_enable : bool; rh_listen : str; rh_cert : str; rh_key : str; rh_tokens : list str; rh_duplicate : str;
  rh_max_streams_per_hop : Z; rh_open_timeout_secs : Z; rh_initial_mtu : option Z
}.
Definition ReverseHopConfig_default : ReverseHopConfig :=
  mkReverseHopConfig false (lit "0.0.0.0:9443") [] [] [] (lit "reject") 256 10 None.
Record DnsConfig := mkDnsConfig {
  dc_servers : list str; dc_protocol : str; dc_timeout_ms : Z; dc_attempts : Z; dc_ipv4_first : bool; dc_cache_size : Z;
  dc_tls_server_name : str; dc_doh_path : str; dc_tls_ca : str; dc_tls_insecure : bool
}.
Definition DnsConfig_default : DnsConfig := mkDnsConfig [] (lit "udp") 2000 2 true 64 [] [] [] false.

Record Config := mkConfig {
  cf_node_id : str; cf_control_plane : ControlPlane; cf_health : HealthConfig; cf_shutdown : Z; cf_listeners : list FileListener;
  cf_mqtt : MqttConfig; cf_log : str; cf_access_log : AccessLogConfig; cf_reverse_hop : ReverseHopConfig;
  cf_reverse_ingress : list ReverseIngressConfig; cf_tuic_listeners : list TuicListener; cf_subnetra : option SubnetraConfig;
  cf_dns : DnsConfig; cf_addrbook : option AddrBookConfig
}.

Inductive ConfigError :=
| ReadFailed | ParseFailed | HealthListen | HealthUnreachable | GracePeriod
| ReverseListen | ReverseCert | ReverseTokens | ReverseDuplicate | ReverseStreams | ReverseTimeout | Mtu (e : RelayError)
| SniffBytes | SniffTimeout | Gateway (e : GatewayError) | IdentityMisplaced | OriginsMisplaced
| Ingress (e : IngressError) | DnsProtocolUnknown | DnsServer | DnsAttempts | DnsTimeout | DnsServerName
| TuicName | TuicListen | TuicCert | AddrBookPath.

(** ** The checks *)

Definition blank (s : str) : bool := is_empty (trim s).
(** [AddrBookConfig::validate] *)
Definition addrbook_validate (c : AddrBookConfig) : result ConfigError unit := ensure (negb (blank (ab_path c))) AddrBookPath.
(** [HealthConfig::validate] *)
Definition health_validate (c : HealthConfig) : result ConfigError unit :=
  if negb (hc_enable c) then Ok tt
  else ensure (negb (blank (hc_listen c))) HealthListen ;; ensure (0 <? hc_unreachable_secs c) HealthUnreachable.
(** [ShutdownConfig::validate] *)
Definition shutdown_validate (grace : Z) : result ConfigError unit := ensure (0 <? grace) GracePeriod.
(** [SniffConfig::validate] *)
Definition sniff_validate (c : SniffConfig) : result ConfigError unit :=
  ensure ((1 <=? sc_max_bytes c) && (sc_max_bytes c <=? HARD_MAX_SNIFF_BYTES))%nat SniffBytes ;;
  ensure ((1 <=? sc_timeout_ms c) && (sc_timeout_ms c <=? 5000)) SniffTimeout.
(** [Listener::validate] *)
Definition listener_validate (l : FileListener) : result ConfigError unit :=
  sniff_validate (fl_sniff l) ;;
  if str_eqb (to_ascii_lowercase (trim (fl_protocol l))) (lit "sni") then
    map_err Gateway (sni_gateway_config (gateway_view l)) ;; Ok tt
  else
    ensure (bool_decide (fl_identity l = None)) IdentityMisplaced ;; ensure (is_empty (fl_origins l)) OriginsMisplaced.
(** [TuicListener::validate] *)
Definition tuic_validate (t : TuicListener) : result ConfigError unit :=
  ensure (negb (blank (tl_name t))) TuicName ;;
  ensure (negb (blank (tl_listen t))) TuicListen ;;
  ensure (negb (blank (tl_cert t)) && negb (blank (tl_key t))) TuicCert ;;
  map_err Mtu (validate_initial_mtu (tl_initial_mtu t)) ;;
  sniff_validate (tl_sniff t).
(** [ReverseHopConfig::validate] *)
Definition reverse_validate (c : ReverseHopConfig) : result ConfigError unit :=
  if negb (rh_enable c) then Ok tt
  else
    ensure (negb (blank (rh_listen c))) ReverseListen ;;
    ensure (negb (blank (rh_cert c)) && negb (blank (rh_key c))) ReverseCert ;;
    ensure (0 <? length (List.filter (fun t => negb (blank t)) (rh_tokens c)))%nat ReverseTokens ;;
    ok_or (duplicate_parse (rh_duplicate c)) ReverseDuplicate ;;
    ensure (0 <? rh_max_streams_per_hop c) ReverseStreams ;;
    ensure (0 <? rh_open_timeout_secs c) ReverseTimeout ;;
    map_err Mtu (validate_initial_mtu (rh_initial_mtu c)).
(** [ReverseHopConfig::to_listener_config]: the listener, its bind address, its
    certificate and key, its opening timeout in seconds and its MTU *)
Record ReverseRuntime := mkReverseRuntime {
  rr_listener : ReverseListenerConfig; rr_listen : str; rr_cert : str; rr_key : str; rr_open_timeout : Z; rr_initial_mtu : option Z
}.
Definition to_listener_config (edge_id : str) (c : ReverseHopConfig) : result ConfigError ReverseRuntime :=
  duplicate ← ok_or (duplicate_parse (rh_duplicate c)) ReverseDuplicate;
  let tokens := List.filter (fun t => negb (blank t)) (rh_tokens c) in
  Ok (mkReverseRuntime (mkListenerConfig tokens duplicate (rh_max_streams_per_hop c) edge_id) (rh_listen c) (rh_cert c) (rh_key c)
        (rh_open_timeout_secs c) (rh_initial_mtu c)).

(** ** The egress resolver's settings *)

Inductive DnsProtocol := DnsUdp | DnsTcp | DnsTls | DnsHttps.
Record DnsTlsSettings := mkDnsTls { dt_server_name : str; dt_doh_path : option str; dt_ca_path : option str; dt_insecure : bool }.
Record DnsSettings := mkDnsSettings {
  dn_servers : list SocketAddr; dn_protocol : DnsProtocol; dn_timeout_ms : Z; dn_attempts : Z; dn_ipv4_first : bool; dn_cache_size : Z;
  dn_tls : option DnsTlsSettings
}.
Definition dns_protocol_parse (raw : str) : option DnsProtocol :=
  let p := to_ascii_lowercase (trim raw) in
  if str_eqb p (lit "udp") then Some DnsUdp
  else if str_eqb p (lit "tcp") then Some DnsTcp
  else if str_eqb p (lit "tls") || str_eqb p (lit "dot") then Some DnsTls
  else if str_eqb p (lit "https") || str_eqb p (lit "doh") then Some DnsHttps
  else None.
Definition default_port (p : DnsProtocol) : Z := match p with DnsUdp | DnsTcp => 53 | DnsTls => 853 | DnsHttps => 443 end.
Definition dns_server (port : Z) (s : str) : result ConfigError SocketAddr :=
  match parse_ip_addr s with
  | Some ip => Ok (with_ip ip port)
  | None => ok_or (parse_socket_addr s) DnsServer
  end.
Fixpoint dns_servers (port : Z) (l : list str) : result ConfigError (list SocketAddr) :=
  match l with
  | [] => Ok []
  | s :: l =>
      if is_empty (trim s) then dns_servers port l
      else a ← dns_server port (trim s); r ← dns_servers port l; Ok (a :: r)
  end.
Definition non_blank (s : str) : option str := if is_empty (trim s) then None else Some (trim s).
(** [DnsConfig::to_settings] *)
Definition to_settings (c : DnsConfig) : result ConfigError DnsSettings :=
  protocol ← ok_or (dns_protocol_parse (dc_protocol c)) DnsProtocolUnknown;
  servers ← dns_servers (default_port protocol) (dc_servers c);
  ensure (1 <=? dc_attempts c) DnsAttempts ;;
  ensure (1 <=? dc_timeout_ms c) DnsTimeout ;;
  tls ← match protocol with
        | DnsTls | DnsHttps =>
            server_name ← ok_or (non_blank (dc_tls_server_name c)) DnsServerName;
            Ok (Some (mkDnsTls server_name (non_blank (dc_doh_path c)) (non_blank (dc_tls_ca c)) (dc_tls_insecure c)))
        | DnsUdp | DnsTcp => Ok None
        end;
  Ok (mkDnsSettings servers protocol (dc_timeout_ms c) (dc_attempts c) (dc_ipv4_first c) (dc_cache_size c) tls).

(** ** [Config::load] *)

(** [for x in l { f(x)?; }] *)
Fixpoint try_each {E A} (f : A -> result E unit) (l : list A) : result E unit :=
  match l with [] => Ok tt | x :: l => f x ;; try_each f l end.
Definition config_checks (c : Config) : result ConfigError unit :=
  health_validate (cf_health c) ;;
  shutdown_validate (cf_shutdown c) ;;
  reverse_validate (cf_reverse_hop c) ;;
  try_each listener_validate (cf_listeners c) ;;
  try_each (fun i => map_err Ingress (ingress_validate i)) (cf_reverse_ingress c) ;;
  to_settings (cf_dns c) ;;
  try_each tuic_validate (cf_tuic_listeners c) ;;
  match cf_addrbook c with Some ab => addrbook_validate ab | None => Ok tt end.
(** [read] is the file, [decode] the TOML decoder for [Config]. *)
Definition config_load (decode : str -> option Config) (read : option str) : result ConfigError Config :=
  text ← ok_or read ReadFailed;
  cfg ← ok_or (decode text) ParseFailed;
  config_checks cfg ;;
  Ok cfg.

(** ** TLS (tls.rs) *)

(** rustls and the PEM reader: certificates, keys and their pairs; a trust
    anchor and a chain with its key may be refused; [sni_add] is
    [ResolvesServerCertUsingSni::add] and [sni_pick] its choice for the server
    name of a ClientHello. *)
Class TlsLib := {
  Cert : Type; PKey : Type; CKey : Type; SniMap : Type;
  pem_certs : list Z -> option (list Cert);
  pem_key : list Z -> option (option PKey);
  anchor : Cert -> bool;
  single_cert : list Cert -> PKey -> option CKey;
  certified_key : list Cert -> PKey -> option CKey;
  sni_new : SniMap;
  sni_add : SniMap -> str -> CKey -> option SniMap;
  sni_pick : SniMap -> option str -> option CKey;
}.
(** The files, and the paths of [Rove_EXTRA_CA_CERTS], [None] for one that is
    not UTF-8. *)
Record TlsEnv := mkTlsEnv { te_read : str -> option (list Z); te_extra : option (list (option str)) }.
Inductive TlsError :=
| ReadCert | ParseCerts | NoCertificates | ReadKey | NoPrivateKey | ParseKey | BadPair | NoServerNames | DuplicateServerName | MapSni
| BadAnchor | NonUtf8Path.

Section Tls.
Context {T : TlsLib} (E : TlsEnv).

(** [load_certs], [load_key] *)
Definition load_certs (path : str) : result TlsError (list Cert) :=
  data ← ok_or (te_read E path) ReadCert;
  certs ← ok_or (pem_certs data) ParseCerts;
  ensure (negb (is_empty certs)) NoCertificates ;;
  Ok certs.
Definition load_key (path : str) : result TlsError PKey :=
  data ← ok_or (te_read E path) ReadKey;
  item ← ok_or (pem_key data) ParseKey;
  ok_or item NoPrivateKey.
(** [load_certified_key] *)
Definition load_certified_key (cert key : str) : result TlsError CKey :=
  certs ← load_certs cert; k ← load_key key; ok_or (certified_key certs k) BadPair.
(** [server_acceptor] *)
Definition server_acceptor (cert key : str) : result TlsError CKey :=
  certs ← load_certs cert; k ← load_key key; ok_or (single_cert certs k) BadPair.

(** The certificate a server presents: one, or the choice by server name with
    its fallback. *)
Inductive TlsAcceptor := Single (ck : CKey) | BySni (m : SniMap) (fallback : CKey).
(** The names of one certificate, with the names already mapped, lower-cased *)
Fixpoint map_names (ck : CKey) (names : list str) (seen : gset (list Z)) (m : SniMap) : result TlsError (gset (list Z) * SniMap) :=
  match names with
  | [] => Ok (seen, m)
  | n :: names =>
      let name := trim n in
      ensure (bool_decide (to_ascii_lowercase name ∉ seen)) DuplicateServerName ;;
      m ← ok_or (sni_add m name ck) MapSni;
      map_names ck names ({[to_ascii_lowercase name]} ∪ seen) m
  end.
Fixpoint map_certificates (l : list SniCertificate) (seen : gset (list Z)) (m : SniMap) : result TlsError SniMap :=
  match l with
  | [] => Ok m
  | c :: l =>
      ensure (negb (is_empty (sc_server_names c))) NoServerNames ;;
      ck ← load_certified_key (sc_cert c) (sc_key c);
      sm ← map_names ck (sc_server_names c) seen m;
      map_certificates l (fst sm) (snd sm)
  end.
(** [server_acceptor_with_sni] *)
Definition server_acceptor_with_sni (t : TlsFiles) : result TlsError TlsAcceptor :=
  if is_empty (tf_certificates t) then ck ← server_acceptor (tf_cert t) (tf_key t); Ok (Single ck)
  else
    fallback ← load_certified_key (tf_cert t) (tf_key t);
    m ← map_certificates (tf_certificates t) ∅ sni_new;
    Ok (BySni m fallback).
(** [SniCertificateResolver::resolve] *)
Definition presented (a : TlsAcceptor) (server_name : option str) : option CKey :=
  match a with
  | Single ck => Some ck
  | BySni m fallback => match sni_pick m server_name with Some ck => Some ck | None => Some fallback end
  end.

(** [RootCertStore]: the Mozilla set, and the certificates added *)
Record RootStore := mkRoots { rt_webpki : bool; rt_added : list Cert }.
Fixpoint add_roots (l : list Cert) (r : RootStore) : RootStore * bool :=
  match l with
  | [] => (r, true)
  | c :: l => if anchor c then add_roots l (mkRoots (rt_webpki r) (rt_added r ++ [c])) else (r, false)
  end.
(** [add_extra_roots_from_env]: what was added stays when a later path fails *)
Fixpoint add_extra_roots (paths : list (option str)) (r : RootStore) : RootStore * bool :=
  match paths with
  | [] => (r, true)
  | None :: _ => (r, false)
  | Some path :: paths =>
      match load_certs path with
      | Ok certs => let '(r, ok) := add_roots certs r in if ok then add_extra_roots paths r else (r, false)
      | Err _ => (r, false)
      end
  end.
(** [root_store] *)
Definition root_store : RootStore :=
  match te_extra E with Some paths => fst (add_extra_roots paths (mkRoots true [])) | None => mkRoots true [] end.
(** What a client configuration accepts of its server *)
Inductive ClientConfig := AcceptAnyServerCert | TrustRoots (r : RootStore).
(** [client_connector], [insecure_client_connector] *)
Definition client_connector : ClientConfig := TrustRoots root_store.
Definition insecure_client_connector : ClientConfig := AcceptAnyServerCert.
(** [dns_client_config] *)
Definition dns_client_config (ca_path : option str) (insecure : bool) : result TlsError ClientConfig :=
  if insecure then Ok AcceptAnyServerCert
  else match ca_path with
       | Some path =>
           certs ← load_certs path;
           let '(roots, ok) := add_roots certs (mkRoots false []) in
           ensure ok BadAnchor ;;
           ensure (negb (is_empty (rt_added roots))) NoCertificates ;;
           Ok (TrustRoots roots)
       | None => Ok (TrustRoots root_store)
       end.

(** ** The egress resolver (resolver.rs) *)

Inductive ProtocolConfig := PUdp | PTcp | PTls (server_name : str) | PHttps (server_name path : str).
(** What the builder of the resolver library is given: the protocol of every
    connection, the name servers with their ports, the options and the TLS
    configuration. *)
Record ResolverSpec := mkResolverSpec {
  rv_protocol : ProtocolConfig; rv_servers : list (IpAddr * Z); rv_tls : option ClientConfig; rv_timeout_ms : Z; rv_attempts : Z;
  rv_cache_size : Z; rv_try_tcp_on_error : bool; rv_ipv4_then_ipv6 : bool
}.
Inductive ResolverError := DotNeedsTls | DohNeedsTls | DnsTlsConfig (e : TlsError) | BuildResolver.
Definition DEFAULT_DOH_PATH : str := lit "/dns-query".
Definition protocol_config (s : DnsSettings) : result ResolverError ProtocolConfig :=
  match dn_protocol s with
  | DnsUdp => Ok PUdp
  | DnsTcp => Ok PTcp
  | DnsTls => tls ← ok_or (dn_tls s) DotNeedsTls; Ok (PTls (dt_server_name tls))
  | DnsHttps => tls ← ok_or (dn_tls s) DohNeedsTls; Ok (PHttps (dt_server_name tls) (default DEFAULT_DOH_PATH (dt_doh_path tls)))
  end.
(** [build]; [builds] is whether the library builds it. *)
Definition resolver_build (builds : ResolverSpec -> bool) (s : DnsSettings) : result ResolverError ResolverSpec :=
  protocol ← protocol_config s;
  tls ← match dn_tls s with
        | Some t => client ← map_err DnsTlsConfig (dns_client_config (dt_ca_path t) (dt_insecure t)); Ok (Some client)
        | None => Ok None
        end;
  let spec := mkResolverSpec protocol (map (fun a => (ip_of a, port_of a)) (dn_servers s)) tls (dn_timeout_ms s) (dn_attempts s)
                (dn_cache_size s) true (dn_ipv4_first s) in
  ensure (builds spec) BuildResolver ;;
  Ok spec.
(** [init]: the process resolver, [None] while the system's is used; the first
    one installed stays *)
Definition resolver_init (builds : ResolverSpec -> bool) (s : DnsSettings) (installed : option ResolverSpec) :
    result ResolverError (option ResolverSpec) :=
  if is_empty (dn_servers s) then Ok installed
  else r ← resolver_build builds s; Ok (Some (default r installed)).
End Tls.

(** ** What an accepted configuration satisfies *)

Definition set_text (s : str) : Prop := trim s <> [].
Record sniff_ok (c : SniffConfig) : Prop := {
  so_bytes : (1 <= sc_max_bytes c <= HARD_MAX_SNIFF_BYTES)%nat;
  so_timeout : 1 <= sc_timeout_ms c <= 5000
}.
Definition mtu_ok (mtu : option Z) : Prop := forall v, mtu = Some v -> 1200 <= v <= 1500.
Definition is_sni (l : FileListener) : Prop := to_ascii_lowercase (trim (fl_protocol l)) = lit "sni".
(** A transparent gateway has an identity and a list of distinct DNS names and
    terminates no TLS; another listener has neither. *)
Record listener_ok (l : FileListener) : Prop := {
  lo_sniff : sniff_ok (fl_sniff l);
  lo_sni : is_sni l -> fl_tls l = None /\ (exists i, fl_identity l = Some i /\ set_text i) /\ fl_origins l <> [] /\
    exists names, Forall2 (fun o n => normalize_dns_name o = Some n) (fl_origins l) names /\ NoDup names;
  lo_plain : ~ is_sni l -> fl_identity l = None /\ fl_origins l = []
}.
Record tuic_ok (t : TuicListener) : Prop := {
  uo_name : set_text (tl_name t);
  uo_listen : set_text (tl_listen t);
  uo_cert : set_text (tl_cert t) /\ set_text (tl_key t);
  uo_mtu : mtu_ok (tl_initial_mtu t);
  uo_sniff : sniff_ok (tl_sniff t)
}.
Record reverse_ok (c : ReverseHopConfig) : Prop := {
  ro_listen : set_text (rh_listen c);
  ro_cert : set_text (rh_cert c) /\ set_text (rh_key c);
  ro_token : exists t, t ∈ rh_tokens c /\ set_text t;
  ro_duplicate : is_Some (duplicate_parse (rh_duplicate c));
  ro_streams : 0 < rh_max_streams_per_hop c;
  ro_timeout : 0 < rh_open_timeout_secs c;
  ro_mtu : mtu_ok (rh_initial_mtu c)
}.
Definition encrypted (p : DnsProtocol) : bool := match p with DnsTls | DnsHttps => true | _ => false end.
Definition dns_entry_ok (s : str) : Prop := trim s <> [] -> is_Some (parse_ip_addr (trim s)) \/ is_Some (parse_socket_addr (trim s)).
Record dns_ok (c : DnsConfig) : Prop := {
  no_protocol : exists p, dns_protocol_parse (dc_protocol c) = Some p /\ (encrypted p = true -> set_text (dc_tls_server_name c));
  no_servers : Forall dns_entry_ok (dc_servers c);
  no_attempts : 1 <= dc_attempts c;
  no_timeout : 1 <= dc_timeout_ms c
}.
Record config_ok (c : Config) : Prop := {
  co_health : hc_enable (cf_health c) = true -> set_text (hc_listen (cf_health c)) /\ 0 < hc_unreachable_secs (cf_health c);
  co_shutdown : 0 < cf_shutdown c;
  co_reverse : rh_enable (cf_reverse_hop c) = true -> reverse_ok (cf_reverse_hop c);
  co_listeners : Forall listener_ok (cf_listeners c);
  co_ingress : Forall (fun i => ingress_validate i = Ok tt) (cf_reverse_ingress c);
  co_dns : dns_ok (cf_dns c);
  co_tuic : Forall tuic_ok (cf_tuic_listeners c);
  co_addrbook : forall ab, cf_addrbook c = Some ab -> set_text (ab_path ab)
}.

(** ** Exactness of the checks *)

Definition accepts {E A} (r : result E A) : Prop := exists a, r = Ok a.
Lemma accepts_bind {E A B} (m : result E A) (k : A -> result E B) : accepts (m ≫= k) <-> exists a, m = Ok a /\ accepts (k a).
Proof. unfold accepts. setoid_rewrite bind_Ok. naive_solver. Qed.
Lemma accepts_unit {E B} (m : result E unit) (k : unit -> result E B) : accepts (m ≫= k) <-> accepts m /\ accepts (k tt).
Proof. rewrite accepts_bind. unfold accepts. split; [intros ([] & ? & ?); eauto|intros [[[] ->] ?]; eauto]. Qed.
Lemma accepts_ensure {E} b (e : E) : accepts (ensure b e) <-> b = true.
Proof. unfold accepts. setoid_rewrite ensure_Ok. split; [by intros [_ ?]|by exists tt]. Qed.
Lemma accepts_ok {E A} (a : A) : accepts (@Ok E A a) <-> True.
Proof. unfold accepts. split; eauto. Qed.
Lemma accepts_ok_or {E A} (o : option A) (e : E) : accepts (ok_or o e) <-> is_Some o.
Proof. unfold accepts. by setoid_rewrite ok_or_Ok. Qed.
Lemma accepts_map_err {E F A} (f : E -> F) (r : result E A) : accepts (map_err f r) <-> accepts r.
Proof. unfold accepts. by setoid_rewrite map_err_Ok. Qed.
Lemma accepts_tt {E} (r : result E unit) : accepts r <-> r = Ok tt.
Proof. split; [by intros [[] ?]|by exists tt]. Qed.
(** A last step that never fails *)
Lemma accepts_last {E A B} (m : result E A) (k : A -> result E B) : (forall a, accepts (k a)) -> accepts (m ≫= k) <-> accepts m.
Proof. intros H. rewrite accepts_bind. split; [intros (a & ? & _); by exists a|intros [a ?]; exists a; auto]. Qed.
Lemma not_blank s : negb (blank s) = true <-> set_text s.
Proof. unfold blank, set_text. by rewrite negb_true_iff, is_empty_false. Qed.
Lemma accepts_each {E A} (f : A -> result E unit) (P : A -> Prop) l :
  (forall x, accepts (f x) <-> P x) -> accepts (try_each f l) <-> Forall P l.
Proof.
  intros H. induction l as [|x l IH]; cbn [try_each]; [rewrite accepts_ok; split; [constructor|done]|].
  by rewrite accepts_unit, IH, H, Forall_cons.
Qed.
#[local] Hint Rewrite @accepts_unit @accepts_ensure @accepts_ok @accepts_ok_or @accepts_map_err not_blank andb_true_iff Z.leb_le Z.ltb_lt
  Nat.leb_le Nat.ltb_lt : accepts.

Lemma sniff_validate_exact c : accepts (sniff_validate c) <-> sniff_ok c.
Proof. unfold sniff_validate. autorewrite with accepts. split; [by intros [? ?]|by intros [? ?]]. Qed.
Lemma mtu_exact m : accepts (validate_initial_mtu m) <-> mtu_ok m.
Proof.
  unfold validate_initial_mtu, mtu_ok. destruct m as [v|]; [|by rewrite accepts_ok].
  rewrite accepts_ensure. unfold in_range, MIN_QUIC_MTU, MAX_QUIC_MTU. rewrite andb_true_iff, !Z.leb_le.
  split; [by intros ? ? [= <-]|intros H; by apply H].
Qed.
Lemma tuic_validate_exact t : accepts (tuic_validate t) <-> tuic_ok t.
Proof.
  unfold tuic_validate. autorewrite with accepts. rewrite mtu_exact, sniff_validate_exact.
  split; [by intros (? & ? & ? & ? & ?)|by intros []].
Qed.
Lemma reverse_validate_exact c : accepts (reverse_validate c) <-> (rh_enable c = true -> reverse_ok c).
Proof.
  unfold reverse_validate. destruct (rh_enable c); cbn [negb]; [|rewrite accepts_ok; naive_solver].
  rewrite accepts_unit, accepts_unit, accepts_unit, accepts_bind. autorewrite with accepts.
  assert (Ht : (0 < length (List.filter (fun t => negb (blank t)) (rh_tokens c)))%nat <-> exists t, t ∈ rh_tokens c /\ set_text t).
  { assert (Hin : forall t, In t (List.filter (fun t => negb (blank t)) (rh_tokens c)) <-> t ∈ rh_tokens c /\ set_text t)
      by (intros t; by rewrite filter_In, not_blank, list_elem_of_In).
    setoid_rewrite <-Hin. destruct (List.filter _ _) as [|t l]; cbn; [split; [lia|by intros (? & [])]|].
    split; [intros _; exists t; by left|lia]. }
  rewrite Ht. setoid_rewrite ok_or_Ok. setoid_rewrite accepts_unit. setoid_rewrite accepts_unit. setoid_rewrite accepts_ensure.
  setoid_rewrite accepts_map_err. setoid_rewrite mtu_exact. setoid_rewrite Z.ltb_lt. split.
  - intros (? & ? & ? & d & ? & ? & ? & ?) _. by constructor; eauto.
  - intros H. destruct H as [? ? ? [d ?] ? ? ?]; [done|]. naive_solver.
Qed.

Lemma compile_origins_exact l seen : accepts (compile_origins l seen) <->
  exists names, Forall2 (fun o n => normalize_dns_name o = Some n) l names /\ NoDup names /\ forall n, n ∈ names -> n ∉ seen.
Proof.
  revert seen; induction l as [|o l IH]; intros seen; cbn [compile_origins].
  - rewrite accepts_ok. split; [|done]. intros _. exists []. split_and!; [constructor|constructor|by intros n ?%elem_of_nil].
  - rewrite accepts_bind. setoid_rewrite ok_or_Ok. setoid_rewrite accepts_unit. setoid_rewrite accepts_ensure.
    setoid_rewrite bool_decide_eq_true. setoid_rewrite IH. split.
    + intros (n & Hn & Hs & names & Hf & Hd & Hin). exists (n :: names). split_and!; [by constructor| |].
      * constructor; [|done]. intros H%Hin. set_solver.
      * intros m [->|H]%elem_of_cons; [done|]. apply Hin in H. set_solver.
    + intros (names & Hf & Hd & Hin). inversion Hf as [|? n ? ns Hn Hr]; subst. inversion Hd as [|? ? Hni Hnd]; subst.
      exists n. split_and!; [done|apply Hin; by left|]. exists ns. split_and!; [done..|]. intros m Hm.
      assert (m <> n) by (intros ->; done). assert (m ∉ seen) by (apply Hin; by right). set_solver.
Qed.
Lemma gateway_exact l : is_sni l -> accepts (sni_gateway_config (gateway_view l)) <->
  fl_tls l = None /\ (exists i, fl_identity l = Some i /\ set_text i) /\ fl_origins l <> [] /\
  exists names, Forall2 (fun o n => normalize_dns_name o = Some n) (fl_origins l) names /\ NoDup names.
Proof.
  intros Hs. unfold sni_gateway_config, gateway_view. cbn [li_protocol li_tls li_identity li_origins].
  assert (eq_ignore_ascii_case (trim (fl_protocol l)) (lit "sni") = true) as ->.
  { unfold eq_ignore_ascii_case. rewrite Hs. by vm_compute. }
  assert (Hc : accepts (compile_origins (fl_origins l) ∅) <->
    exists names, Forall2 (fun o n => normalize_dns_name o = Some n) (fl_origins l) names /\ NoDup names).
  { rewrite compile_origins_exact. split; [naive_solver|]. intros (ns & ? & ?). exists ns. split_and!; [done..|set_solver]. }
  rewrite accepts_unit, accepts_unit, accepts_bind, <-Hc. setoid_rewrite accepts_unit.
  rewrite !accepts_ensure, negb_true_iff, bool_decide_eq_false, <-eq_None_not_Some. setoid_rewrite ok_or_Ok. setoid_rewrite accepts_ensure.
  setoid_rewrite negb_true_iff. setoid_rewrite is_empty_false.
  assert (Hl : forall i, accepts (origins ← compile_origins (fl_origins l) ∅; @Ok GatewayError _ (mkGateway i origins)) <->
    accepts (compile_origins (fl_origins l) ∅)) by (intros i; apply accepts_last; by eexists).
  setoid_rewrite Hl. split.
  - intros (_ & Ht & i & Hi & Ho & Ha). split; [done|]. split; [|done].
    destruct (fl_identity l) as [j|]; cbn in Hi; [|done]. exists j. split; [done|]. unfold set_text.
    destruct (is_empty (trim j)) eqn:Ej; [done|]. by apply is_empty_false.
  - intros (Ht & (i & Hi & Hst) & Ho & Hn). split; [done|]. split; [done|].
    exists (trim i). rewrite Hi. cbn. apply is_empty_false in Hst. by rewrite Hst.
Qed.
Lemma listener_validate_exact l : accepts (listener_validate l) <-> listener_ok l.
Proof.
  unfold listener_validate. rewrite accepts_unit, sniff_validate_exact.
  destruct (str_eqb _ _) eqn:Es; [apply str_eqb_eq in Es|apply str_eqb_neq in Es].
  - rewrite accepts_last by (intros; by eexists). rewrite accepts_map_err, gateway_exact by done.
    split; [intros [? ?]; by constructor|]. intros [? H _]. auto.
  - rewrite accepts_unit, !accepts_ensure, bool_decide_eq_true, is_empty_true.
    split; [intros [? ?]; by constructor|]. intros [? _ H]. auto.
Qed.
Lemma dns_servers_exact port l : accepts (dns_servers port l) <-> Forall dns_entry_ok l.
Proof.
  induction l as [|s l IH]; cbn [dns_servers]; [rewrite accepts_ok; split; [constructor|done]|].
  rewrite Forall_cons, <-IH. unfold dns_entry_ok. destruct (is_empty (trim s)) eqn:Es.
  - apply is_empty_true in Es. naive_solver.
  - apply is_empty_false in Es. rewrite accepts_bind. setoid_rewrite accepts_bind. setoid_rewrite accepts_ok.
    unfold dns_server, accepts. destruct (parse_ip_addr (trim s)) as [ip|].
    + split; [intros (? & ? & ? & ? & _); eauto|]. intros (_ & r & Hr). eexists; split; [done|]. eauto.
    + setoid_rewrite ok_or_Ok. split; [intros (a & ? & r & ? & _); split; eauto|].
      intros (H & r & Hr). destruct (H Es) as [[? [=]]|[a Ha]]. eauto.
Qed.
Lemma to_settings_exact c : accepts (to_settings c) <-> dns_ok c.
Proof.
  unfold to_settings. rewrite accepts_bind. setoid_rewrite ok_or_Ok. split.
  - intros (p & Hp & H). rewrite accepts_bind in H. destruct H as (servers & Hs & H). rewrite !accepts_unit, !accepts_ensure, !Z.leb_le, accepts_bind in H.
    destruct H as (Ha & Ht & tls & Htls & _). constructor; [|apply (dns_servers_exact (default_port p)); by eexists|done..].
    exists p. split; [done|]. destruct p; cbn; try done; intros _; apply bind_Ok in Htls as (n & Hn%ok_or_Ok & _); unfold non_blank in Hn;
      (destruct (is_empty _) eqn:E; [done|by apply is_empty_false in E]).
  - intros [(p & Hp & He) Hs Ha Ht]. exists p. split; [done|]. rewrite accepts_bind.
    apply (dns_servers_exact (default_port p)) in Hs as [servers Hs]. exists servers. split; [done|].
    rewrite !accepts_unit, !accepts_ensure, !Z.leb_le, accepts_bind. split_and!; [done..|]. setoid_rewrite accepts_ok.
    destruct p; cbn in He; try by eexists; split.
    all: specialize (He eq_refl); apply is_empty_false in He; unfold non_blank; rewrite He; cbn [ok_or mbind result_bind]; by eexists; split.
Qed.
Lemma config_checks_exact c : accepts (config_checks c) <-> config_ok c.
Proof.
  unfold config_checks, health_validate, shutdown_validate, addrbook_validate.
  rewrite !accepts_unit, accepts_bind, reverse_validate_exact.
  rewrite (accepts_each _ listener_ok) by apply listener_validate_exact.
  rewrite (accepts_each _ (fun i => ingress_validate i = Ok tt)) by (intros i; by rewrite accepts_map_err, accepts_tt).
  assert (Hd : forall k, (exists a, to_settings (cf_dns c) = Ok a /\ accepts (k : result ConfigError unit)) <-> dns_ok (cf_dns c) /\ accepts k).
  { intros k. rewrite <-to_settings_exact. unfold accepts at 2. naive_solver. }
  rewrite Hd, accepts_unit, (accepts_each _ tuic_ok) by apply tuic_validate_exact.
  assert (Hab : accepts (match cf_addrbook c with Some ab => ensure (negb (blank (ab_path ab))) AddrBookPath | None => Ok tt end) <->
    forall ab, cf_addrbook c = Some ab -> set_text (ab_path ab)).
  { destruct (cf_addrbook c) as [ab|]; [|rewrite accepts_ok; naive_solver]. rewrite accepts_ensure, not_blank. naive_solver. }
  rewrite Hab.
  rewrite accepts_ensure, Z.ltb_lt.
  assert (Hh : accepts (if negb (hc_enable (cf_health c)) then Ok tt else ensure (negb (blank (hc_listen (cf_health c)))) HealthListen ;;
      ensure (0 <? hc_unreachable_secs (cf_health c)) HealthUnreachable) <->
    (hc_enable (cf_health c) = true -> set_text (hc_listen (cf_health c)) /\ 0 < hc_unreachable_secs (cf_health c))).
  { destruct (hc_enable _); cbn [negb]; [|rewrite accepts_ok; naive_solver]. rewrite accepts_unit, !accepts_ensure, not_blank, Z.ltb_lt. naive_solver. }
  rewrite Hh. split; [intros (? & ? & ? & ? & ? & ? & ? & ?); by constructor|by intros []].
Qed.

(** ** What the sections compile to *)

(** The settings say what the section says: its transport, its servers in order
    with the transport's port where none is given, and a server name to verify
    exactly when the transport is encrypted. *)
Definition server_reads (p : DnsProtocol) (raw : str) (a : SocketAddr) : Prop :=
  match parse_ip_addr (trim raw) with
  | Some ip => a = with_ip ip (default_port p)
  | None => parse_socket_addr (trim raw) = Some a
  end.
Record dns_reads (c : DnsConfig) (s : DnsSettings) : Prop := {
  nr_protocol : dns_protocol_parse (dc_protocol c) = Some (dn_protocol s);
  nr_servers : Forall2 (server_reads (dn_protocol s)) (filter set_text (dc_servers c)) (dn_servers s);
  nr_tls : match dn_tls s with
           | Some t => encrypted (dn_protocol s) = true /\ set_text (dt_server_name t) /\ dt_server_name t = trim (dc_tls_server_name c) /\
               dt_ca_path t = non_blank (dc_tls_ca c) /\ dt_insecure t = dc_tls_insecure c
           | None => encrypted (dn_protocol s) = false
           end;
  nr_bounds : 1 <= dn_attempts s /\ 1 <= dn_timeout_ms s
}.
Lemma dns_servers_reads p l r :
  dns_servers (default_port p) l = Ok r -> Forall2 (server_reads p) (filter set_text l) r.
Proof.
  revert r; induction l as [|s l IH]; intros r H; cbn [dns_servers] in H; [injection H as <-; constructor|].
  rewrite filter_cons. unfold set_text at 1. destruct (is_empty (trim s)) eqn:Es.
  - apply is_empty_true in Es. rewrite decide_False by (by intros []). by apply IH.
  - apply is_empty_false in Es. rewrite decide_True by done. res_inv. constructor; [|by apply IH].
    unfold server_reads, dns_server in *. destruct (parse_ip_addr _); by res_inv.
Qed.
Lemma trim_set s : trim s <> [] -> set_text (trim s).
Proof. unfold set_text. by rewrite trim_idem. Qed.
Lemma to_settings_reads c s : to_settings c = Ok s -> dns_reads c s.
Proof.
  intros H. unfold to_settings in H. apply bind_Ok in H as (p & Hp%ok_or_Ok & H). apply bind_Ok in H as (servers & Hs & H).
  apply bind_Ok in H as ([] & Ha%ensure_Ok & H). apply bind_Ok in H as ([] & Ht%ensure_Ok & H). apply bind_Ok in H as (tls & Htls & [= <-]).
  apply dns_servers_reads in Hs. bools.
  constructor; cbn [dn_protocol dn_servers dn_tls dn_attempts dn_timeout_ms]; [done..| |done].
  destruct p; cbn [encrypted]; [by injection Htls as <-|by injection Htls as <-|..];
    apply bind_Ok in Htls as (n & Hn%ok_or_Ok & [= <-]); cbn [dt_server_name dt_ca_path dt_insecure];
    unfold non_blank in Hn; (destruct (is_empty _) eqn:E; [done|]; injection Hn as <-; apply is_empty_false in E); split_and!; eauto using trim_set.
Qed.

(** An enabled reverse hop that is accepted becomes a listener whose manager
    starts. *)
Lemma reverse_ok_spawns c edge_id : reverse_ok c -> exists r m,
  to_listener_config edge_id c = Ok r /\ manager_spawn (rr_listener r) = Some m /\ mg_max_streams m = rh_max_streams_per_hop c /\
  (forall t, token_accepted m t = true -> t ∈ rh_tokens c /\ set_text t).
Proof.
  intros [_ _ (t & Ht & Hb) [d Hd] Hs _ _]. unfold to_listener_config, manager_spawn. rewrite Hd. cbn [ok_or mbind result_bind].
  set (tokens := List.filter _ _).
  assert (Hin : forall t, In t tokens <-> In t (rh_tokens c) /\ set_text t) by (intros; unfold tokens; by rewrite filter_In, not_blank).
  eexists _, _. split; [done|]. cbn [rr_listener lc_tokens lc_max_streams_per_hop].
  assert (is_empty tokens = false) as ->.
  { apply is_empty_false. intros E. apply list_elem_of_In in Ht. assert (In t tokens) as Hf by by apply Hin. by rewrite E in Hf. }
  assert (existsb (fun t => is_empty (trim t)) tokens = false) as ->.
  { apply not_true_iff_false. intros (u & Hu & He)%existsb_exists. apply Hin in Hu as [_ Hu]. by apply is_empty_true in He. }
  split; [done|]. cbn [mg_max_streams]. split; [lia|]. intros u Hu. unfold token_accepted in Hu. cbn [mg_tokens] in Hu.
  apply existsb_exists in Hu as (v & Hv & E). apply constant_time_eq_spec in E as ->. apply Hin in Hv. by rewrite list_elem_of_In.
Qed.

Section TlsProps.
Context {T : TlsLib} (E : TlsEnv).

Lemma add_roots_spec l r r' : add_roots l r = (r', true) ->
  rt_webpki r' = rt_webpki r /\ rt_added r' = rt_added r ++ l /\ Forall (fun c => anchor c = true) l.
Proof.
  revert r; induction l as [|c l IH]; intros r H; cbn in H; [injection H as <-; by rewrite app_nil_r|].
  destruct (anchor c) eqn:Ec; [|done]. apply IH in H as (H1 & H2 & H3). cbn in *. rewrite H2, <-app_assoc. eauto.
Qed.
(** Verification is off only when asked for, and a CA file replaces the public
    roots. *)
Lemma dns_client_config_spec ca insecure client : dns_client_config E ca insecure = Ok client ->
  match client with
  | AcceptAnyServerCert => insecure = true
  | TrustRoots roots => insecure = false /\
      match ca with
      | Some path => rt_webpki roots = false /\ rt_added roots <> [] /\ load_certs E path = Ok (rt_added roots)
      | None => roots = root_store E
      end
  end.
Proof.
  unfold dns_client_config. destruct insecure; [by intros [= <-]|]. destruct ca as [path|]; [|by intros [= <-]].
  intros H. apply bind_Ok in H as (certs & Hc & H). destruct (add_roots certs _) as [roots ok] eqn:Er.
  apply bind_Ok in H as ([] & ->%ensure_Ok & H). apply bind_Ok in H as ([] & Hn%ensure_Ok & [= <-]).
  apply add_roots_spec in Er as (Hw & Ha & _). cbn in *. apply negb_true_iff, is_empty_false in Hn. by rewrite Ha in *.
Qed.
(** The resolver installed for accepted settings queries exactly the configured
    servers over the configured transport. *)
Record resolver_reads (c : DnsConfig) (r : ResolverSpec) : Prop := {
  rr_protocol : match rv_protocol r with
                | PUdp => dns_protocol_parse (dc_protocol c) = Some DnsUdp
                | PTcp => dns_protocol_parse (dc_protocol c) = Some DnsTcp
                | PTls n => dns_protocol_parse (dc_protocol c) = Some DnsTls /\ n = trim (dc_tls_server_name c) /\ set_text n
                | PHttps n p => dns_protocol_parse (dc_protocol c) = Some DnsHttps /\ n = trim (dc_tls_server_name c) /\ set_text n
                end;
  rr_servers : exists s, to_settings c = Ok s /\ dn_servers s <> [] /\ rv_servers r = map (fun a => (ip_of a, port_of a)) (dn_servers s);
  rr_tls : match rv_tls r with
           | None => dns_protocol_parse (dc_protocol c) = Some DnsUdp \/ dns_protocol_parse (dc_protocol c) = Some DnsTcp
           | Some AcceptAnyServerCert => dc_tls_insecure c = true
           | Some (TrustRoots roots) => dc_tls_insecure c = false /\
               match non_blank (dc_tls_ca c) with
               | Some path => rt_webpki roots = false /\ rt_added roots <> [] /\ load_certs E path = Ok (rt_added roots)
               | None => roots = root_store E
               end
           end
}.
Lemma resolver_build_reads builds c s r :
  to_settings c = Ok s -> dn_servers s <> [] -> resolver_build E builds s = Ok r -> resolver_reads c r.
Proof.
  intros Hs Hne H. pose proof (to_settings_reads _ _ Hs) as [Hp _ Ht _]. unfold resolver_build in H.
  apply bind_Ok in H as (p & Hpc & H). apply bind_Ok in H as (tls & Htls & H). apply bind_Ok in H as ([] & _ & [= <-]).
  unfold protocol_config in Hpc.
  constructor; cbn [rv_protocol rv_servers rv_tls]; [|by exists s|].
  - destruct (dn_protocol s); [by injection Hpc as <-|by injection Hpc as <-|..];
      apply bind_Ok in Hpc as (t & Hd%ok_or_Ok & [= <-]); rewrite Hd in Ht; destruct Ht as (_ & ? & ? & _); eauto.
  - destruct (dn_tls s) as [t|].
    + destruct Ht as (_ & _ & _ & Hca & Hi). apply bind_Ok in Htls as (client & Hc%map_err_Ok & [= <-]).
      apply dns_client_config_spec in Hc. rewrite Hca, Hi in Hc. by destruct client.
    + injection Htls as <-. rewrite Hp. destruct (dn_protocol s); [by left|by right|done..].
Qed.
(** Accepted settings never fail for want of a TLS configuration. *)
Lemma accepted_protocol c s : to_settings c = Ok s -> accepts (protocol_config s).
Proof.
  intros [_ _ Ht _]%to_settings_reads. unfold protocol_config.
  destruct (dn_protocol s), (dn_tls s); cbn in Ht |- *; try done; by eexists.
Qed.

End TlsProps.

(** ** Which certificate a client is shown *)

(** What rustls documents of [ResolvesServerCertUsingSni]: names are compared
    without case, an addition changes the choice for its name only, and nothing
    is chosen for a client that sends no name. *)
Class SniLaws (T : TlsLib) := {
  sni_new_pick k : sni_pick sni_new k = None;
  sni_add_pick m n ck m' : sni_add m n ck = Some m' ->
    (forall k, to_ascii_lowercase k = to_ascii_lowercase n -> sni_pick m' (Some k) = Some ck) /\
    (forall k, to_ascii_lowercase k <> to_ascii_lowercase n -> sni_pick m' (Some k) = sni_pick m (Some k)) /\
    sni_pick m' None = sni_pick m None
}.

Section Sni.
Context {T : TlsLib} {L : SniLaws T} (E : TlsEnv).

Lemma map_names_spec ck names seen m seen' m' :
  map_names ck names seen m = Ok (seen', m') ->
  (forall k, to_ascii_lowercase k ∈ seen -> sni_pick m' (Some k) = sni_pick m (Some k)) /\
  (forall n, n ∈ names -> sni_pick m' (Some (trim n)) = Some ck) /\
  (forall k, to_ascii_lowercase k ∉ seen' -> sni_pick m' (Some k) = sni_pick m (Some k)) /\
  seen ⊆ seen' /\ (forall n, n ∈ names -> to_ascii_lowercase (trim n) ∈ seen') /\ sni_pick m' None = sni_pick m None.
Proof.
  revert seen m; induction names as [|n names IH]; intros seen m H; cbn [map_names] in H.
  { injection H as <- <-. split_and!; try done; by intros ? ?%elem_of_nil. }
  apply bind_Ok in H as ([] & Hs%ensure_Ok & H). apply bool_decide_eq_true in Hs. apply bind_Ok in H as (m1 & Ha%ok_or_Ok & H).
  apply sni_add_pick in Ha as (Hpick & Hother & Hnone). apply IH in H as (H1 & H2 & H3 & H4 & H5 & H6). split_and!.
  - intros k Hk. rewrite H1 by set_solver. apply Hother. intros Ek. by rewrite Ek in Hk.
  - intros x [->|Hx]%elem_of_cons; [|by apply H2]. rewrite H1 by set_solver. by apply Hpick.
  - intros k Hk. rewrite H3 by done. apply Hother. intros Ek. apply Hk, H4. rewrite Ek. set_solver.
  - set_solver.
  - intros x [->|Hx]%elem_of_cons; [set_solver|by apply H5].
  - by rewrite H6.
Qed.
Lemma map_names_only ck names seen m seen' m' : map_names ck names seen m = Ok (seen', m') ->
  forall k, k ∈ seen' -> k ∈ seen \/ exists n, n ∈ names /\ to_ascii_lowercase (trim n) = k.
Proof.
  revert seen m; induction names as [|n names IH]; intros seen m H k Hk; cbn [map_names] in H; [injection H as <- <-; by left|].
  apply bind_Ok in H as ([] & _ & H). apply bind_Ok in H as (m1 & _ & H). apply (IH _ _ H) in Hk as [Hk|(x & Hx & <-)].
  - apply elem_of_union in Hk as [->%elem_of_singleton|Hk]; [|by left]. right. exists n. split; [by left|done].
  - right. exists x. split; [by right|done].
Qed.
Lemma map_certificates_spec l seen m m' : map_certificates E l seen m = Ok m' ->
  (forall k, to_ascii_lowercase k ∈ seen -> sni_pick m' (Some k) = sni_pick m (Some k)) /\
  (forall c n, c ∈ l -> n ∈ sc_server_names c -> exists ck, load_certified_key E (sc_cert c) (sc_key c) = Ok ck /\
    sni_pick m' (Some (trim n)) = Some ck) /\
  (forall k, (forall c n, c ∈ l -> n ∈ sc_server_names c -> to_ascii_lowercase (trim n) <> to_ascii_lowercase k) ->
    to_ascii_lowercase k ∉ seen -> sni_pick m' (Some k) = sni_pick m (Some k)) /\
  sni_pick m' None = sni_pick m None.
Proof.
  revert seen m; induction l as [|c l IH]; intros seen m H; cbn [map_certificates] in H.
  { injection H as <-. split_and!; try done. by intros ? ? ?%elem_of_nil. }
  apply bind_Ok in H as ([] & _ & H). apply bind_Ok in H as (ck & Hck & H). apply bind_Ok in H as ([seen1 m1] & Hn & H). cbn [fst snd] in H.
  pose proof (map_names_only _ _ _ _ _ _ Hn) as Honly.
  apply map_names_spec in Hn as (N1 & N2 & N3 & N4 & N5 & N6). apply IH in H as (H1 & H2 & H3 & H4). split_and!.
  - intros k Hk. rewrite H1 by set_solver. by apply N1.
  - intros d n [->|Hd]%elem_of_cons Hin; [|by apply H2]. exists ck. split; [done|]. rewrite H1 by auto. by apply N2.
  - intros k Hk Hs. assert (Hk1 : to_ascii_lowercase k ∉ seen1).
    { intros [Hin|(n & Hn & E')]%Honly; [done|]. by apply (Hk c n); [left|..]. }
    rewrite H3; [by apply N3| |done]. intros d n Hd. apply Hk. by right.
  - by rewrite H4.
Qed.
(** A client is shown the certificate configured for the name it asks for, and
    the listener's own for any other name or for none. *)
Lemma acceptor_presents t a : server_acceptor_with_sni E t = Ok a ->
  (forall c n, c ∈ tf_certificates t -> n ∈ sc_server_names c -> exists ck,
    load_certified_key E (sc_cert c) (sc_key c) = Ok ck /\ presented a (Some (trim n)) = Some ck) /\
  (forall name, (forall c n, c ∈ tf_certificates t -> n ∈ sc_server_names c -> forall k, name = Some k ->
      to_ascii_lowercase (trim n) <> to_ascii_lowercase k) ->
    exists ck, presented a name = Some ck /\
      (load_certified_key E (tf_cert t) (tf_key t) = Ok ck \/ server_acceptor E (tf_cert t) (tf_key t) = Ok ck)).
Proof.
  unfold server_acceptor_with_sni. destruct (is_empty (tf_certificates t)) eqn:Ee; intros H.
  - apply is_empty_true in Ee. rewrite Ee. apply bind_Ok in H as (ck & Hck & [= <-]). split; [by intros ? ? ?%elem_of_nil|]. cbn. eauto.
  - apply bind_Ok in H as (fallback & Hf & H). apply bind_Ok in H as (m & Hm & [= <-]).
    apply map_certificates_spec in Hm as (_ & H2 & H3 & H4). split.
    + intros c n Hc Hn. destruct (H2 c n Hc Hn) as (ck & ? & Hp). exists ck. cbn [presented]. by rewrite Hp.
    + intros name Hno. exists fallback. cbn [presented]. split; [|by left]. destruct name as [k|].
      * rewrite (H3 k); [by rewrite sni_new_pick| |set_solver]. intros c n Hc Hn. by eapply Hno.
      * by rewrite H4, sni_new_pick.
Qed.
End Sni.

(** ** An example *)

Module ConfigDemo.
#[export] Instance tls : TlsLib := {|
  Cert := list Z; PKey := list Z; CKey := list (list Z) * list Z; SniMap := list (list Z * (list (list Z) * list Z));
  pem_certs data := if str_eqb data (lit "broken") then None else Some (if is_empty data then [] else [data]);
  pem_key data := Some (if is_empty data then None else Some data);
  anchor c := true;
  single_cert cs k := Some (cs, k);
  certified_key cs k := Some (cs, k);
  sni_new := [];
  sni_add m n ck := Some ((to_ascii_lowercase n, ck) :: m);
  sni_pick m name := k ← name; snd <$> List.find (fun e => str_eqb (fst e) (to_ascii_lowercase k)) m
|}.
#[export] Instance tls_laws : SniLaws tls.
Proof.
  split; [by intros [k|]|]. intros m n ck m' [= <-]. cbn [sni_pick tls]. split_and!; [..|done].
  - intros k Hk. cbn -[to_ascii_lowercase str_eqb]. by rewrite Hk, str_eqb_refl.
  - intros k Hk. cbn -[to_ascii_lowercase str_eqb]. assert (str_eqb (to_ascii_lowercase n) (to_ascii_lowercase k) = false) as -> by (apply str_eqb_neq; congruence). done.
Qed.
Definition files (p : str) : option (list Z) := if str_eqb p (lit "missing.pem") then None else Some (lit "pem:" ++ p).
Definition env : TlsEnv := mkTlsEnv files None.

Definition gateway : FileListener :=
  mkFileListener (lit "edge-sni") (lit " SNI ") (lit "0.0.0.0:443") None SniffConfig_default (Some (lit "alice")) [lit "One.example"; lit "two.example"].
Definition proxy : FileListener :=
  mkFileListener (lit "socks") (lit "socks5") (lit "127.0.0.1:1080") None (mkSniffConfig true Observe 4096 250) None [].
Definition reverse : ReverseHopConfig :=
  mkReverseHopConfig true (lit "0.0.0.0:9443") (lit "cert.pem") (lit "key.pem") [lit " "; lit "s3cret"] (lit "Replace") 256 10 (Some 1360).
Definition dns : DnsConfig :=
  mkDnsConfig [lit " 9.9.9.9 "; lit ""; lit "[2620:fe::fe]:8853"] (lit "DoT") 2000 2 true 64 (lit " dns.quad9.net ") [] (lit "ca.pem") false.
Definition tuic : TuicListener :=
  mkTuicListener (lit "tuic") (lit "0.0.0.0:8443") (lit "cert.pem") (lit "key.pem") default_tuic_alpn (Some 1200) SniffConfig_default.
Definition cfg (l : list FileListener) (d : DnsConfig) : Config :=
  mkConfig (lit "edge-1") (mkControlPlane (lit "https://cp.example/s") (lit "t") 30 (lit "./data/snapshot.json")) HealthConfig_default
    ShutdownConfig_default l default_mqtt_config LogConfig_default AccessLogConfig_default reverse [ReverseIngressConfig_default] [tuic] None d
    (Some (mkAddrBookConfig (lit "book.rab") default_addrbook_poll_secs)).
Definition loads (c : Config) : option ConfigError :=
  match config_load (fun _ => Some c) (Some []) with Ok _ => None | Err e => Some e end.
Example accepted : loads (cfg [gateway; proxy] dns) = None.
Proof. vm_compute. reflexivity. Qed.
Example identity_misplaced :
  loads (cfg [mkFileListener (lit "h") (lit "http") [] None SniffConfig_default (Some (lit "alice")) []] dns) = Some IdentityMisplaced.
Proof. vm_compute. reflexivity. Qed.
Example sniff_too_long :
  loads (cfg [mkFileListener (lit "h") (lit "http") [] None (mkSniffConfig true Observe 4096 5001) None []] dns) = Some SniffTimeout.
Proof. vm_compute. reflexivity. Qed.
Example unverifiable_dns : loads (cfg [] (mkDnsConfig [lit "1.1.1.1"] (lit "https") 2000 2 true 64 (lit "  ") [] [] true)) = Some DnsServerName.
Proof. vm_compute. reflexivity. Qed.
Example misspelt_server : loads (cfg [] (mkDnsConfig [lit "1.1.1"] (lit "udp") 2000 2 true 64 [] [] [] false)) = Some DnsServer.
Proof. vm_compute. reflexivity. Qed.
Definition installed : option ResolverSpec :=
  match to_settings dns with Ok s => unwrap_or (resolver_init env (fun _ => true) s None) None | Err _ => None end.
Example resolver_installed : installed = Some (mkResolverSpec (PTls (lit "dns.quad9.net")) [(V4 151587081, 853); (V6 (0x262000fe * 2 ^ 96 + 254), 8853)]
  (Some (TrustRoots (mkRoots false [lit "pem:ca.pem"]))) 2000 2 64 true true).
Proof. vm_compute. reflexivity. Qed.
Definition tls_files : TlsFiles := mkTlsFiles (lit "a.pem") (lit "a.key") [mkSniCertificate [lit " B.example "] (lit "b.pem") (lit "b.key")].
Example certificate_by_name :
  match server_acceptor_with_sni env tls_files with
  | Ok a => map (presented a) [Some (lit "b.example"); Some (lit "c.example"); None]
  | Err _ => []
  end = [Some ([lit "pem:b.pem"], lit "pem:b.key"); Some ([lit "pem:a.pem"], lit "pem:a.key"); Some ([lit "pem:a.pem"], lit "pem:a.key")].
Proof. vm_compute. reflexivity. Qed.
End ConfigDemo.

Section ConfigWitness.
Import ConfigDemo.
End ConfigWitness.
