(* ===== verification/Listener.v ===== *)
(** * Listener: the accept loops (src/src/inbound/listener.rs)

    How a listener of the configuration is bound, what it does with each
    connection (the optional TLS wrap, the metadata a local ingress connector
    registered, the handler of its protocol), and the accept loop shared by the
    TCP listeners, the TUIC listeners of src/src/inbound/tuic/mod.rs, the health
    endpoint and the Subnetra hub of src/src/subnetra/service.rs: it accepts
    until shutdown is requested, then waits for every connection. *)

From Stdlib Require Import ZArith Lia String.
From stdpp Require Import prelude strings list gmap.
From S2P Require Import Sniff.
From S2P Require Import Prelude RustStr Net NetProps RustFmt Util Frame Stream Conn Domain Policy Book Model Engine Outbound Io Handler Inbound Socks5 HttpRequest HttpBody Http Sni.
From S2P Require Import Stats IngressFrame RelayConfig ConnectorConfig Connector Mqtt ConfigFile.

(** ** Binding *)

Inductive BindError :=
| InvalidListener (e : ConfigError) | GatewayFailed (e : GatewayError) | TlsFailed (e : TlsError) | UnknownProtocol | BadListen
| BindFailed.

Section Bind.
Context {T : TlsLib} (E : TlsEnv).

(** [BoundListener]; the socket is open. *)
Record BoundListener := mkBound {
  bl_cfg : FileListener; bl_acceptor : option TlsAcceptor; bl_proto : str; bl_sni : option SniGatewayConfig
}.
(** [BoundListener::bind]; [binds] is whether the address can be bound. *)
Definition bind (binds : str -> bool) (cfg : FileListener) (stats : TrafficStats) : result BindError (BoundListener * TrafficStats) :=
  map_err InvalidListener (listener_validate cfg) ;;
  let proto := to_ascii_lowercase (trim (fl_protocol cfg)) in
  sni ← (if str_eqb proto (lit "sni") then g ← map_err GatewayFailed (sni_gateway_config (gateway_view cfg)); Ok (Some g) else Ok None);
  acceptor ← match fl_tls cfg with
             | Some t => a ← map_err TlsFailed (server_acceptor_with_sni E t); Ok (Some a)
             | None => Ok None
             end;
  ensure (str_eqb proto (lit "http") || str_eqb proto (lit "socks5") || str_eqb proto (lit "sni")) UnknownProtocol ;;
  ensure (binds (fl_listen cfg)) BindFailed ;;
  Ok (mkBound cfg acceptor proto sni, register_listener stats (fl_name cfg)).

(** tuic/mod.rs: [server_config], [BoundListener::bind]; the runtime
    configuration [to_runtime] makes is a copy of the section. *)
Record TuicServerConfig := mkTuicServer { tsc_key : CKey; tsc_alpn : list str; tsc_initial_mtu : option Z }.
Definition tuic_server_config (cfg : TuicListener) : result BindError TuicServerConfig :=
  certs ← map_err TlsFailed (load_certs E (tl_cert cfg));
  key ← map_err TlsFailed (load_key E (tl_key cfg));
  ck ← ok_or (single_cert certs key) (TlsFailed BadPair);
  Ok (mkTuicServer ck (tl_alpn cfg) (tl_initial_mtu cfg)).
Definition tuic_bind (binds : SocketAddr -> bool) (cfg : TuicListener) (stats : TrafficStats) :
    result BindError (TuicServerConfig * SocketAddr * TrafficStats) :=
  server ← tuic_server_config cfg;
  addr ← ok_or (parse_socket_addr (tl_listen cfg)) BadListen;
  ensure (binds addr) BindFailed ;;
  Ok (server, addr, register_listener stats (tl_name cfg)).
End Bind.

(** ** One connection *)

Section Serve.
Context {N : Ipnet} {B : BookApi} {D : Chrono} {O : ChronoOrder D} {B64 : Base64}.
Context {R : Rustls} {HP : Httparse} {UC : UrlCrate}.
Context {T : TlsLib} {BD : Base64Decode}.

(** [dispatch]; [None] is the panic of an SNI listener without its gateway. *)
Definition dispatch (ctx : Ctx) (o : Outside) (proto : str) (sni : option SniGatewayConfig) (local : option SocketAddr) :
    option (handler unit) :=
  if str_eqb proto (lit "http") then Some (http_serve ctx o)
  else if str_eqb proto (lit "socks5") then Some (Socks5.serve ctx o)
  else if str_eqb proto (lit "sni") then (fun g => sni_serve ctx o g local) <$> sni
  else Some (mret tt).
Definition with_peer (peer : SocketAddr) (o : Outside) : Outside :=
  mkOutside (ou_auth o) (ou_decide o) (ou_acquire o) (ou_route o) (ou_report o) (ou_today o) (ou_envs o) (ou_now o) (ou_capture o)
    (ou_capture_start o) (ou_observed o) peer (ou_duration o).
(** The rest of a handler on the decrypted stream *)
Definition over (c : Conn) (m : handler unit) : handler unit := fun w => m (mkWorld c (wd_permit w) (wd_log w)).
(** [serve_conn] after the metadata is taken; [handshake] is the server side of
    TLS on a connection, [None] when it fails. *)
Definition serve_stream (handshake : TlsAcceptor -> Conn -> option Conn) (ctx : Ctx) (o : Outside) (b : BoundListener)
    (local : option SocketAddr) (stream : Conn) : option (handler unit) :=
  match bl_acceptor b with
  | Some acceptor =>
      match handshake acceptor stream with
      | Some tls => over tls <$> dispatch ctx o (bl_proto b) (bl_sni b) local
      | None => Some (halt IoFailed)
      end
  | None => over stream <$> dispatch ctx o (bl_proto b) (bl_sni b) local
  end.
Definition client_of (metadata : option IngressMetadata) (peer : SocketAddr) : SocketAddr :=
  default peer (im_client_addr <$> metadata).
(** [serve_conn] *)
Definition serve_conn (handshake : TlsAcceptor -> Conn -> option Conn) (ctx : Ctx) (o : Outside) (b : BoundListener)
    (entries : Entries) (peer : SocketAddr) (local : option SocketAddr) (stream : Conn) : Entries * option (handler unit) :=
  let '(metadata, entries) := take_tcp entries peer in
  (entries, serve_stream handshake ctx (with_peer (client_of metadata peer) o) b local stream).
(** service.rs: [spawn_connection] *)
Definition hub_dispatch (ctx : Ctx) (o : Outside) (proto : str) : handler unit :=
  if str_eqb proto (lit "http") then http_serve ctx o
  else if str_eqb proto (lit "socks5") then Socks5.serve ctx o
  else mret tt.
End Serve.

(** ** The loop *)

(** TCP listeners and the health endpoint; TUIC's QUIC endpoint; the hub's
    channel of overlay streams. *)
Inductive LoopKind := TcpLoop | QuicLoop | HubLoop.
(** Connections by number: those waiting to be accepted, those being served, and
    those whose task has ended; whether shutdown was requested, the loop has
    been left, and the function has returned. *)
Record Loop := mkLoop {
  lp_backlog : list Z; lp_active : gset Z; lp_done : gset Z; lp_refused : gset Z; lp_shutdown : bool; lp_open : bool; lp_returned : bool
}.
Definition loop_new : Loop := mkLoop [] ∅ ∅ ∅ false true false.
Inductive LoopEvent :=
| ShutdownSent
| Arrived (c : Z)
| Accepted_
| AcceptFailed
| SourceClosed
| Noticed
| ConnectionEnded (c : Z)
| Returned_.
Definition seen (s : Loop) : gset Z := list_to_set (lp_backlog s) ∪ lp_active s ∪ lp_done s ∪ lp_refused s.
(** [shutdown_requested] is polled first ([biased]): with the flag up, nothing
    else of the loop runs. Leaving it drops the socket, and the endpoint; the
    hub first takes what its channel holds. *)
Definition loop_step (k : LoopKind) (s : Loop) (e : LoopEvent) : option Loop :=
  let running := lp_open s && negb (lp_shutdown s) in
  match e with
  | ShutdownSent => Some (mkLoop (lp_backlog s) (lp_active s) (lp_done s) (lp_refused s) true (lp_open s) (lp_returned s))
  | Arrived c =>
      if lp_open s && negb (bool_decide (c ∈ seen s))
      then Some (mkLoop (lp_backlog s ++ [c]) (lp_active s) (lp_done s) (lp_refused s) (lp_shutdown s) true (lp_returned s))
      else None
  | Accepted_ =>
      match lp_backlog s with
      | c :: rest => if running then Some (mkLoop rest ({[c]} ∪ lp_active s) (lp_done s) (lp_refused s) false true (lp_returned s)) else None
      | [] => None
      end
  | AcceptFailed => if running && match k with TcpLoop => true | _ => false end then Some s else None
  | SourceClosed =>
      if running && is_empty (lp_backlog s) && match k with TcpLoop => false | _ => true end
      then Some (mkLoop [] (lp_active s) (lp_done s) (lp_refused s) false false (lp_returned s)) else None
  | Noticed =>
      if lp_open s && lp_shutdown s then
        let waiting : gset Z := list_to_set (lp_backlog s) in
        match k with
        | HubLoop => Some (mkLoop [] (waiting ∪ lp_active s) (lp_done s) (lp_refused s) true false (lp_returned s))
        | _ => Some (mkLoop [] (lp_active s) (lp_done s) (waiting ∪ lp_refused s) true false (lp_returned s))
        end
      else None
  | ConnectionEnded c =>
      if bool_decide (c ∈ lp_active s)
      then Some (mkLoop (lp_backlog s) (lp_active s ∖ {[c]}) ({[c]} ∪ lp_done s) (lp_refused s) (lp_shutdown s) (lp_open s) (lp_returned s))
      else None
  | Returned_ =>
      if negb (lp_open s) && bool_decide (lp_active s = ∅) && negb (lp_returned s)
      then Some (mkLoop (lp_backlog s) ∅ (lp_done s) (lp_refused s) (lp_shutdown s) false true) else None
  end.
Fixpoint loop_run (k : LoopKind) (s : Loop) (l : list LoopEvent) : option Loop :=
  match l with [] => Some s | e :: l => s ← loop_step k s e; loop_run k s l end.

(** ** What a bound listener serves *)

Section ServeProps.
Context {N : Ipnet} {B : BookApi} {D : Chrono} {O : ChronoOrder D} {B64 : Base64}.
Context {R : Rustls} {HP : Httparse} {UC : UrlCrate}.
Context {T : TlsLib} {BD : Base64Decode} (E : TlsEnv).

Definition proto_of (l : FileListener) : str := to_ascii_lowercase (trim (fl_protocol l)).
Definition tls_ok (l : FileListener) : Prop := forall t, fl_tls l = Some t -> accepts (server_acceptor_with_sni E t).
Inductive serves (l : FileListener) (ctx : Ctx) (o : Outside) (local : option SocketAddr) : handler unit -> Prop :=
| serves_http : proto_of l = lit "http" -> serves l ctx o local (http_serve ctx o)
| serves_socks5 : proto_of l = lit "socks5" -> serves l ctx o local (Socks5.serve ctx o)
| serves_sni g : proto_of l = lit "sni" -> fl_tls l = None -> sni_gateway_config (gateway_view l) = Ok g ->
    serves l ctx o local (sni_serve ctx o g local).

Lemma bind_inv binds cfg stats b stats' : bind E binds cfg stats = Ok (b, stats') ->
  listener_ok cfg /\ proto_of cfg ∈ [lit "http"; lit "socks5"; lit "sni"] /\ binds (fl_listen cfg) = true /\
  bl_cfg b = cfg /\ bl_proto b = proto_of cfg /\ stats' = register_listener stats (fl_name cfg) /\
  match fl_tls cfg, bl_acceptor b with
  | Some t, Some a => server_acceptor_with_sni E t = Ok a
  | None, None => True
  | _, _ => False
  end /\
  (proto_of cfg = lit "sni" -> exists g, bl_sni b = Some g /\ sni_gateway_config (gateway_view cfg) = Ok g).
Proof.
  unfold bind. fold (proto_of cfg). intros H.
  apply bind_Ok in H as (u & Hv%map_err_Ok & H). apply bind_Ok in H as (sni & Hsni & H). apply bind_Ok in H as (acceptor & Ha & H).
  apply bind_Ok in H as ([] & Hp%ensure_Ok & H). apply bind_Ok in H as ([] & Hb%ensure_Ok & [= <- <-]). cbn [bl_cfg bl_proto bl_acceptor bl_sni].
  split_and!; try done.
  - apply listener_validate_exact. by exists u.
  - rewrite !orb_true_iff, !str_eqb_eq in Hp. rewrite !elem_of_cons. naive_solver.
  - destruct (fl_tls cfg); [|by injection Ha as <-]. by apply bind_Ok in Ha as (a & ?%map_err_Ok & [= <-]).
  - intros Es. apply str_eqb_eq in Es. rewrite Es in Hsni. apply bind_Ok in Hsni as (g & Hg%map_err_Ok & [= <-]). by exists g.
Qed.
Lemma bind_accepts binds cfg stats : listener_ok cfg -> proto_of cfg ∈ [lit "http"; lit "socks5"; lit "sni"] -> tls_ok cfg ->
  binds (fl_listen cfg) = true -> accepts (bind E binds cfg stats).
Proof.
  intros Hl Hp Ht Hb. unfold bind. fold (proto_of cfg). rewrite accepts_unit, accepts_map_err. split; [by apply listener_validate_exact|].
  rewrite accepts_bind.
  assert (exists sni, (if str_eqb (proto_of cfg) (lit "sni")
     then g ← map_err GatewayFailed (sni_gateway_config (gateway_view cfg)); Ok (Some g) else Ok None) = Ok sni) as [sni Hs].
  { destruct (str_eqb _ _) eqn:Es; [|by eexists]. apply str_eqb_eq in Es. destruct (proj2 (gateway_exact cfg Es) (lo_sni _ Hl Es)) as [g ->]. by eexists. }
  exists sni. split; [done|]. rewrite accepts_bind.
  assert (exists a, match fl_tls cfg with Some t => a ← map_err TlsFailed (server_acceptor_with_sni E t); Ok (Some a) | None => Ok None end = Ok a) as [a Ha].
  { unfold tls_ok in Ht. destruct (fl_tls cfg) as [t|]; [|by eexists]. destruct (Ht t eq_refl) as [a ->]. by eexists. }
  exists a. split; [done|]. rewrite !accepts_unit, !accepts_ensure, !orb_true_iff, !str_eqb_eq, accepts_ok.
  rewrite !elem_of_cons, elem_of_nil in Hp. naive_solver.
Qed.
Lemma dispatch_serves binds cfg stats b stats' ctx o local : bind E binds cfg stats = Ok (b, stats') ->
  exists h, dispatch ctx o (bl_proto b) (bl_sni b) local = Some h /\ serves cfg ctx o local h.
Proof.
  intros (Hl & Hp & _ & _ & -> & _ & _ & Hs)%bind_inv. unfold dispatch.
  destruct (str_eqb (proto_of cfg) (lit "http")) eqn:E1; [eexists; split; [done|]; constructor; by apply str_eqb_eq|].
  destruct (str_eqb (proto_of cfg) (lit "socks5")) eqn:E2; [eexists; split; [done|]; constructor; by apply str_eqb_eq|].
  apply str_eqb_neq in E1, E2. assert (proto_of cfg = lit "sni") as E3.
  { rewrite !elem_of_cons, elem_of_nil in Hp. naive_solver. }
  destruct (Hs E3) as (g & -> & Hg). rewrite E3, str_eqb_refl. eexists. split; [done|]. constructor; [done| |done]. by apply (lo_sni _ Hl).
Qed.

(** C37: A listener binds exactly when its section is accepted, its protocol is
    one of the three, its certificates load and its address is free. Every
    connection it takes is then served by the handler of its protocol, over the
    stream as it is or decrypted, a gateway never terminating TLS and always
    having its list of origins; the client is the one the local ingress
    connector registered for that connection, whose entry is used once, or else
    the peer itself. *)
Theorem listener_serves binds cfg stats :
  (accepts (bind E binds cfg stats) <->
     listener_ok cfg /\ proto_of cfg ∈ [lit "http"; lit "socks5"; lit "sni"] /\ tls_ok cfg /\ binds (fl_listen cfg) = true) /\
  forall b stats', bind E binds cfg stats = Ok (b, stats') ->
    stats' = register_listener stats (fl_name cfg) /\
    forall handshake ctx o (entries : Entries) peer local stream,
      let o' := with_peer (default peer (im_client_addr <$> entries !! peer)) o in
      exists m, serve_conn handshake ctx o b entries peer local stream = (delete peer entries, Some m) /\
        match fl_tls cfg with
        | None => exists h, serves cfg ctx o' local h /\ m = over stream h
        | Some t => exists a, server_acceptor_with_sni E t = Ok a /\
            match handshake a stream with
            | Some tls => exists h, serves cfg ctx o' local h /\ m = over tls h
            | None => m = halt IoFailed
            end
        end.
Proof.
  split.
  - split; [|intros (? & ? & ? & ?); by apply bind_accepts]. intros [[b stats'] H]. apply bind_inv in H as (? & ? & ? & _ & _ & _ & Ha & _).
    split_and!; [done..| |done]. intros t Ht. rewrite Ht in Ha. destruct (bl_acceptor b) as [a|]; [|done]. by exists a.
  - intros b stats' Hb. pose proof (bind_inv _ _ _ _ _ Hb) as (_ & _ & _ & _ & _ & Hst & Ha & _). split; [done|].
    intros handshake ctx o entries peer local stream o'. unfold serve_conn, take_tcp, client_of, serve_stream. fold o'.
    destruct (dispatch_serves _ _ _ _ _ ctx o' local Hb) as (h & Hd & Hs).
    destruct (fl_tls cfg) as [t|], (bl_acceptor b) as [a|]; try done.
    + destruct (handshake a stream) as [tls|] eqn:Eh.
      * rewrite Hd. eexists. split; [done|]. exists a. rewrite Eh. eauto.
      * eexists. split; [done|]. exists a. by rewrite Eh.
    + rewrite Hd. eexists. split; [done|]. eauto.
Qed.
End ServeProps.

(** ** The loop drains *)

Record loop_inv (k : LoopKind) (s : Loop) : Prop := {
  li_nodup : NoDup (lp_backlog s);
  li_backlog : forall c, c ∈ lp_backlog s -> c ∉ lp_active s /\ c ∉ lp_done s /\ c ∉ lp_refused s;
  li_active : lp_active s ## lp_done s /\ lp_active s ## lp_refused s;
  li_done : lp_done s ## lp_refused s;
  li_closed : lp_open s = false -> lp_backlog s = [];
  li_returned : lp_returned s = true -> lp_open s = false /\ lp_active s = ∅;
  li_refused : lp_refused s <> ∅ -> lp_shutdown s = true /\ lp_open s = false /\ k <> HubLoop;
  li_ended : lp_open s = false -> lp_shutdown s = true \/ k <> TcpLoop
}.
Lemma loop_new_inv k : loop_inv k loop_new.
Proof. split; cbn; try done; try constructor; by intros ? ?%elem_of_nil. Qed.
Ltac loop_field := first [done | assumption | by constructor | by intros ? ?%elem_of_nil | tauto | intuition congruence].
Lemma loop_step_inv k s e s' : loop_inv k s -> loop_step k s e = Some s' -> loop_inv k s'.
Proof.
  intros [I1 I2 [I3a I3b] I4 I5 I6 I7 I8] H.
  destruct s as [backlog active finished refused shutdown open returned]. cbn [lp_backlog lp_active lp_done lp_refused lp_shutdown lp_open lp_returned] in *.
  destruct e; cbn [loop_step lp_backlog lp_active lp_done lp_refused lp_shutdown lp_open lp_returned] in H.
  - injection H as <-. split; cbn; loop_field.
  - destruct open; [|done]. destruct (bool_decide _) eqn:Ec; [done|]. injection H as <-. apply bool_decide_eq_false in Ec. unfold seen in Ec. cbn in Ec.
    split; cbn; [| |loop_field..].
    + apply NoDup_app. split_and!; [done| |apply NoDup_singleton]. intros x Hx ->%list_elem_of_singleton. set_solver.
    + intros x [Hx| ->%list_elem_of_singleton]%elem_of_app; [by apply I2|set_solver].
  - destruct backlog as [|c rest]; [done|]. destruct open, shutdown; try done. injection H as <-. apply NoDup_cons in I1 as [Hc I1].
    destruct (I2 c) as (Ha & Hd & Hf); [by left|]. split; cbn; [loop_field| |set_solver|loop_field..].
    intros x Hx. destruct (I2 x) as (? & ? & ?); [by right|]. set_solver.
  - destruct open, shutdown, k; try done. injection H as <-. by split.
  - destruct open, shutdown, (is_empty backlog), k; try done; injection H as <-; split; cbn; loop_field.
  - destruct open, shutdown; try done. assert (returned = false) as -> by (destruct returned; [by destruct I6|done]).
    assert (Hw : forall c, c ∈ (list_to_set backlog : gset Z) -> c ∉ active /\ c ∉ finished /\ c ∉ refused) by (intros c Hc%elem_of_list_to_set; auto).
    destruct k; injection H as <-; split; cbn; try (by constructor); try (by intros ? ?%elem_of_nil); try done; try (by intros _);
      try (intuition congruence); set_solver.
  - destruct (bool_decide _) eqn:Ec; [|done]. apply bool_decide_eq_true in Ec. injection H as <-. split; cbn; [loop_field| |set_solver|set_solver|loop_field| |loop_field..].
    + intros x Hx. destruct (I2 x Hx) as (? & ? & ?). set_solver.
    + intros Hr. apply I6 in Hr as [? ->]. set_solver.
  - destruct open; [done|]. destruct (bool_decide _) eqn:Ea; [|done]. apply bool_decide_eq_true in Ea. destruct returned; [done|].
    injection H as <-. subst active. split; cbn; loop_field.
Qed.
Lemma loop_run_inv k l s s' : loop_inv k s -> loop_run k s l = Some s' -> loop_inv k s'.
Proof.
  revert s; induction l as [|e l IH]; intros s Hi H; cbn in H; [by injection H as <-|].
  destruct (loop_step k s e) as [s1|] eqn:E; [|done]. eauto using loop_step_inv.
Qed.
(** Nothing is lost: what arrived is what is accounted for. *)
Lemma loop_step_seen k s e s' : loop_step k s e = Some s' ->
  forall c, c ∈ seen s' <-> c ∈ seen s \/ e = Arrived c.
Proof.
  intros H c. destruct s as [backlog active finished refused shutdown open returned]. unfold seen.
  destruct e; cbn [loop_step lp_backlog lp_active lp_done lp_refused lp_shutdown lp_open lp_returned] in H.
  - injection H as <-. cbn. naive_solver.
  - destruct open; [|done]. destruct (bool_decide _) eqn:Ec; [done|]. injection H as <-. cbn. rewrite list_to_set_app_L. set_solver.
  - destruct backlog as [|d rest]; [done|]. destruct open, shutdown; try done. injection H as <-. cbn. set_solver.
  - destruct open, shutdown, k; try done. injection H as <-. cbn. naive_solver.
  - destruct open, shutdown, (is_empty backlog) eqn:Eb, k; try done; apply is_empty_true in Eb as ->; injection H as <-; cbn; naive_solver.
  - destruct open, shutdown; try done. destruct k; injection H as <-; cbn; set_solver.
  - destruct (bool_decide _) eqn:Ec; [|done]. apply bool_decide_eq_true in Ec. injection H as <-. cbn.
    destruct (decide (c = c0)) as [->|]; set_solver.
  - destruct open; [done|]. destruct (bool_decide _) eqn:Ea; [|done]. apply bool_decide_eq_true in Ea as ->. destruct returned; [done|].
    injection H as <-. cbn. naive_solver.
Qed.
Lemma loop_run_seen k l s s' : loop_run k s l = Some s' -> forall c, c ∈ seen s' <-> c ∈ seen s \/ Arrived c ∈ l.
Proof.
  revert s; induction l as [|e l IH]; intros s H c; cbn in H; [injection H as <-; rewrite elem_of_nil; tauto|].
  destruct (loop_step k s e) as [s1|] eqn:E; [|done]. rewrite (IH _ H c), (loop_step_seen _ _ _ _ E c), elem_of_cons. naive_solver.
Qed.
(** What is served after shutdown was requested was served or waiting before. *)
Lemma loop_step_stopped k s e s' : lp_shutdown s = true -> k <> HubLoop -> loop_step k s e = Some s' ->
  lp_shutdown s' = true /\ lp_active s' ∪ lp_done s' ⊆ lp_active s ∪ lp_done s.
Proof.
  intros Hs Hk H. destruct s as [backlog active finished refused shutdown open returned]. cbn in Hs. subst shutdown.
  destruct e; cbn [loop_step lp_backlog lp_active lp_done lp_refused lp_shutdown lp_open lp_returned] in H.
  - by injection H as <-.
  - destruct open; [|done]. destruct (bool_decide _); [done|]. by injection H as <-.
  - destruct backlog, open; done.
  - destruct open; done.
  - destruct open; done.
  - destruct open; [|done]. destruct k; by injection H as <-.
  - destruct (bool_decide _) eqn:Ec; [|done]. apply bool_decide_eq_true in Ec. injection H as <-. cbn. split; [done|]. set_solver.
  - destruct open; [done|]. destruct (bool_decide _) eqn:Ea; [|done]. destruct returned; [done|]. injection H as <-. cbn. split; [done|]. set_solver.
Qed.
Lemma loop_run_stopped k l s s' : lp_shutdown s = true -> k <> HubLoop -> loop_run k s l = Some s' ->
  lp_shutdown s' = true /\ lp_active s' ∪ lp_done s' ⊆ lp_active s ∪ lp_done s.
Proof.
  revert s; induction l as [|e l IH]; intros s Hs Hk H; cbn in H; [by injection H as <-|].
  destruct (loop_step k s e) as [s1|] eqn:E; [|done]. apply loop_step_stopped in E as [Hs1 Hsub]; [|done..].
  apply IH in H as [? ?]; [|done..]. split; [done|]. set_solver.
Qed.
(** A loop that was left returns once the connections it serves have ended. *)
Lemma loop_drain k l s : NoDup l -> (forall c, c ∈ l <-> c ∈ lp_active s) -> lp_open s = false -> lp_returned s = false -> exists s',
  loop_run k s (map ConnectionEnded l ++ [Returned_]) = Some s' /\ lp_returned s' = true /\ lp_done s' = lp_active s ∪ lp_done s.
Proof.
  revert s; induction l as [|c l IH]; intros s Hnd Hin Ho Hr.
  - assert (lp_active s = ∅) as Ha by (apply set_eq; intros x; rewrite <-Hin; set_solver).
    cbn [map app loop_run loop_step]. rewrite Ho, Hr, Ha, bool_decide_eq_true_2 by done. cbn. eexists. split; [done|]. split; [done|]. cbn. set_solver.
  - apply NoDup_cons in Hnd as [Hnc Hnd]. cbn [map app loop_run loop_step]. rewrite bool_decide_eq_true_2 by (apply Hin; by left).
    cbn [mbind option_bind]. destruct (IH (mkLoop (lp_backlog s) (lp_active s ∖ {[c]}) ({[c]} ∪ lp_done s) (lp_refused s) (lp_shutdown s) (lp_open s)
      (lp_returned s))) as (s' & Hs & Hr' & Hd); [done| |done..|].
    + intros x. cbn. rewrite elem_of_difference, <-Hin, elem_of_cons, elem_of_singleton. naive_solver.
    + exists s'. split; [done|]. split; [done|]. rewrite Hd. cbn. apply set_eq. intros x. assert (c ∈ lp_active s) by (apply Hin; by left).
      destruct (decide (x = c)) as [->|]; set_solver.
Qed.

(** In every interleaving of arrivals, accepts, accept errors, ends of
    connections and a shutdown request, an accept loop accounts for each
    connection exactly once: waiting, being served, served to its end, or
    refused. A failing accept never ends it; it is left only when shutdown is
    requested (or its source is gone), after which it takes nothing new, except
    what the hub's channel already holds, and it returns exactly when the
    connections it serves have ended, having refused only what was still
    waiting at shutdown; an overlay stream is never refused. *)
Theorem accept_loop_drains k l s : loop_run k loop_new l = Some s ->
  (forall c, c ∈ seen s <-> Arrived c ∈ l) /\ loop_inv k s /\
  (lp_returned s = true -> (forall c, Arrived c ∈ l -> c ∈ lp_done s \/ (c ∈ lp_refused s /\ k <> HubLoop))) /\
  (forall l' s', lp_shutdown s = true -> k <> HubLoop -> loop_run k s l' = Some s' -> lp_active s' ∪ lp_done s' ⊆ lp_active s ∪ lp_done s) /\
  (lp_shutdown s = true -> lp_returned s = false -> exists l' s',
    loop_run k s l' = Some s' /\ lp_returned s' = true /\
    lp_done s' = (if lp_open s && match k with HubLoop => true | _ => false end then list_to_set (lp_backlog s) else ∅) ∪ lp_active s ∪ lp_done s).
Proof.
  intros H. pose proof (loop_run_inv _ _ _ _ (loop_new_inv k) H) as Hi.
  assert (Hseen : forall c, c ∈ seen s <-> Arrived c ∈ l).
  { intros c. rewrite (loop_run_seen _ _ _ _ H c). unfold seen. cbn. set_solver. }
  split_and!; [done..| | |].
  - intros Hr c Hc. apply Hseen in Hc. destruct (li_returned _ _ Hi Hr) as [Ho Ha]. unfold seen in Hc. rewrite (li_closed _ _ Hi Ho), Ha in Hc.
    cbn in Hc. assert (c ∈ lp_done s \/ c ∈ lp_refused s) as [|Hf] by set_solver; [by left|]. right. split; [done|].
    apply (li_refused _ _ Hi). set_solver.
  - intros l' s' Hs Hk Hr. by eapply loop_run_stopped.
  - intros Hs Hr. destruct (lp_open s) eqn:Ho.
    + destruct (loop_step k s Noticed) as [s1|] eqn:E1; [|cbn in E1; rewrite Ho, Hs in E1; by destruct k].
      assert (lp_open s1 = false /\ lp_returned s1 = false /\ lp_done s1 = lp_done s /\
        lp_active s1 = (if match k with HubLoop => true | _ => false end then list_to_set (lp_backlog s) else ∅) ∪ lp_active s) as (? & ? & Hd & Ha).
      { cbn in E1. rewrite Ho, Hs in E1. cbn in E1. destruct k; injection E1 as <-; cbn; split_and!; try done; set_solver. }
      destruct (loop_drain k (elements (lp_active s1)) s1) as (s' & Hrun & Hr' & Hd'); [apply NoDup_elements|apply elem_of_elements|done..|].
      eexists (Noticed :: _), s'. cbn [loop_run]. rewrite E1. cbn [mbind option_bind]. split; [exact Hrun|]. split; [done|].
      rewrite Hd', Hd, Ha. cbn [andb]. done.
    + destruct (loop_drain k (elements (lp_active s)) s) as (s' & Hrun & Hr' & Hd'); [apply NoDup_elements|apply elem_of_elements|done..|].
      eexists _, s'. split; [exact Hrun|]. split; [done|]. rewrite Hd'. cbn [andb]. set_solver.
Qed.

(** ** An example *)

Module ListenerDemo.
Definition session : list LoopEvent :=
  [Arrived 1; Accepted_; AcceptFailed; Arrived 2; Accepted_; Arrived 3; ConnectionEnded 1; ShutdownSent; Noticed; ConnectionEnded 2; Returned_].
Definition tcp_done : option (list Z * list Z * bool) :=
  s ← loop_run TcpLoop loop_new session; Some (elements (lp_done s), elements (lp_refused s), lp_returned s).
Example tcp_session : tcp_done = Some ([2; 1], [3], true) \/ tcp_done = Some ([1; 2], [3], true).
Proof. vm_compute. auto. Qed.
(** The hub serves what its channel holds before it stops. *)
Example hub_session : loop_run HubLoop loop_new (List.filter (fun e => match e with AcceptFailed => false | _ => true end) session) = None.
Proof. vm_compute. reflexivity. Qed.
Import ConfigDemo.
Definition binds (a : str) : bool := negb (str_eqb a (lit "taken")).
Example gateway_binds : match bind env binds gateway stats_new with Ok (b, _) => bl_proto b = lit "sni" /\ bl_acceptor b = None | Err _ => False end.
Proof. vm_compute. auto. Qed.
Example unknown_protocol :
  bind env binds (mkFileListener (lit "q") (lit "quic") (lit "127.0.0.1:1") None SniffConfig_default None []) stats_new = Err UnknownProtocol.
Proof. vm_compute. reflexivity. Qed.
End ListenerDemo.

Section ListenerWitness.
Import ListenerDemo.
Lemma accept_loop_drains_witness : exists s, loop_run TcpLoop loop_new session = Some s /\
  (forall c, Arrived c ∈ session -> c ∈ lp_done s \/ c ∈ lp_refused s).
Proof.
  destruct (loop_run TcpLoop loop_new session) as [s|] eqn:E; [|vm_compute in E; discriminate E]. exists s. split; [reflexivity|].
  pose proof (accept_loop_drains TcpLoop session s E) as (_ & _ & H & _). intros c Hc.
  assert (lp_returned s = true) as Hr by (vm_compute in E; injection E as <-; reflexivity).
  destruct (H Hr c Hc) as [|[? _]]; [left|right]; assumption.
Defined.
End ListenerWitness.

Section ServeWitness.
Import Socks5Demo SniDemo.
Let decode : Base64Decode := fun _ => None.
#[local] Existing Instances decode ConfigDemo.tls.
Lemma listener_serves_witness :
  exists b st, bind ConfigDemo.env ListenerDemo.binds ConfigDemo.gateway stats_new = Ok (b, st) /\
    exists h, serve_conn (fun _ _ => None) (ctx true) o b ∅ (SockV4 2130706433 5555) (Some local) (client (lit "one.example")) =
        (delete (SockV4 2130706433 5555) ∅, Some (over (client (lit "one.example")) h)) /\
      serves ConfigDemo.gateway (ctx true) (with_peer (SockV4 2130706433 5555) o) (Some local) h.
Proof.
  destruct (bind ConfigDemo.env ListenerDemo.binds ConfigDemo.gateway stats_new) as [[b st]|e] eqn:Hb; [|vm_compute in Hb; discriminate Hb].
  exists b, st. split; [reflexivity|].
  pose proof (listener_serves ConfigDemo.env ListenerDemo.binds ConfigDemo.gateway stats_new) as [_ H].
  destruct (H b st Hb) as [_ Hs].
  destruct (Hs (fun _ _ => None) (ctx true) o ∅ (SockV4 2130706433 5555) (Some local) (client (lit "one.example"))) as (m & Hm & Hh).
  destruct Hh as (h & Hserves & ->). exists h. split; [exact Hm|exact Hserves].
Defined.
End ServeWitness.
