(* ===== verification/Daemon.v ===== *)
(** * Daemon: startup and supervision (src/src/main.rs)

    [run_daemon]: what is started from the configuration, in order, each step
    failing startup when it fails; the supervision of the running listeners; the
    shutdown, with its grace period. A started service is a task; tasks run and
    end in any order. *)

From Stdlib Require Import ZArith Lia String.
From stdpp Require Import prelude strings list gmap.
From S2P Require Import Sniff.
From S2P Require Import Prelude RustStr Net RustFmt Util Frame Domain Policy Rab Book Model ModelProps Engine Cache Service Sync Health.
From S2P Require Import Handler SubnetraConfig ReverseFrame ReverseUdp ReverseEdge Stats AccessLog Mqtt RelayConfig ConnectorConfig ConfigFile Listener.

(** ** The command line *)

Definition starts_with_dash (s : str) : bool := match s with 45 :: _ => true | _ => false end.
(** [parse_config_path_from] *)
Fixpoint parse_config_path_from (args : list str) : str :=
  match args with
  | [] => lit "config.toml"
  | a :: rest =>
      if str_eqb a (lit "-c") || str_eqb a (lit "--config") then
        match rest with path :: _ => path | [] => lit "config.toml" end
      else if starts_with_dash a then parse_config_path_from rest
      else a
  end.

(** ** Startup *)

Inductive BootError :=
| BadConfig (e : ConfigError) | BadResolver (e : ResolverError) | NoListeners | BadIngress (e : IngressError) | BadAddrBook (e : service_error)
| NoSyncer | BadSubnetra (e : config_error) | SubnetraDevice | SubnetraBind | TunOpen | ListenerBind (name : str) (e : BindError)
| LogDirectory | BadSyslog (e : SyslogError) | HealthBind | ReverseTls (e : TlsError) | ReverseTokensMissing | ReverseAddress | ReverseBind.

(** What startup did, in order. *)
Inductive BootEvent :=
| ResolverReady (custom : bool)
| BookLoaded (path : str)
| TunReady
| TcpBound (name : str)
| TuicBound (name : str)
| LogOpened
| CacheTried (o : SyncOutcome)
| PollingStarted
| BookPolled
| HealthServing
| ReverseServing
| MqttStarted
| SubnetraServing (hub : bool)
| TcpServing (name : str)
| TuicServing (name : str)
| ConnectorStarted (relay : str).
(** Whether clients can be served through it *)
Definition serves_clients (e : BootEvent) : bool :=
  match e with TcpServing _ | TuicServing _ | SubnetraServing true => true | _ => false end.

Definition boot (A : Type) : Type := list BootEvent -> result BootError A * list BootEvent.
#[global] Instance boot_ret : MRet boot := fun A a log => (Ok a, log).
#[global] Instance boot_bind : MBind boot := fun A B k m log =>
  match m log with (Ok a, log) => k a log | (Err e, log) => (Err e, log) end.
Definition did (e : BootEvent) : boot unit := fun log => (Ok tt, log ++ [e]).
Definition must {A} (r : result BootError A) : boot A := fun log => (r, log).
Fixpoint boot_each {A S} (f : S -> A -> boot S) (s : S) (l : list A) : boot S :=
  match l with [] => mret s | x :: l => s ← f s x; boot_each f s l end.

(** What is spawned: the listeners, and the other services of the join set. *)
Inductive ServiceKind := TcpService (name : str) | TuicService (name : str) | TunService | HealthService | ConnectorService (relay : str).
Section Startup.
Context {N : Ipnet} {D : Chrono} {J : SnapshotJson} {H : Sha256} {T : TlsLib}.

(** What startup meets outside: the files, the clock and the network. *)
Record Machine := mkMachine {
  mc_config : option str; mc_decode : str -> option Config; mc_tls : TlsEnv; mc_builds : ResolverSpec -> bool; mc_env : str -> option str;
  mc_book : str -> nat -> Attempt; mc_client : bool; mc_disk : Disk; mc_readable : bool; mc_place : str -> nat -> Z; mc_elapsed : Z;
  mc_clock_ns : Z; mc_tun : str -> bool; mc_tcp : str -> bool; mc_udp : SocketAddr -> bool; mc_mkdir : str -> bool
}.

Record Started := mkStarted {
  st_config : Config; st_tcp : list BoundListener; st_tuic : list (TuicServerConfig * SocketAddr); st_connectors : list ConnectorConfig;
  st_services : list ServiceKind; st_accept_task : bool; st_health : RuntimeHealth; st_stats : TrafficStats; st_reverse : option Manager;
  st_log : option LogState
}.

Definition hub_enabled (c : option SubnetraConfig) : bool :=
  match c with Some s => sc_enable s && eq_ignore_ascii_case (trim (sc_mode s)) (lit "hub") | None => false end.
Definition tun_enabled (c : option SubnetraConfig) : bool :=
  match c with Some s => sc_enable s && eq_ignore_ascii_case (trim (sc_device s)) (lit "tun") | None => false end.
(** [ensure_listeners_configured] *)
Definition ensure_listeners_configured (l : list FileListener) (t : list TuicListener) : result BootError unit :=
  ensure (negb (is_empty l && is_empty t)) NoListeners.
Fixpoint lower_connectors (m : Machine) (node : str) (tcp tuic : Named) (l : list ReverseIngressConfig) :
    result BootError (list ConnectorConfig) :=
  match l with
  | [] => Ok []
  | c :: l =>
      r ← map_err BadIngress (ConnectorConfig.to_runtime (mc_env m) node tcp tuic c);
      rest ← lower_connectors m node tcp tuic l;
      Ok (match r with Some c => c :: rest | None => rest end)
  end.
(** service.rs: [start_tun] *)
Definition start_tun (m : Machine) (s : SubnetraConfig) : result BootError RuntimeConfig :=
  rt ← map_err BadSubnetra (SubnetraConfig.to_runtime s);
  name ← match rc_device rt with Tun name _ => Ok name | Netstack _ => Err SubnetraDevice end;
  map_err BadSubnetra (sample_boot_epoch (mc_clock_ns m)) ;;
  ensure (mc_tun m name) TunOpen ;;
  ensure (mc_udp m (rc_listen rt)) SubnetraBind ;;
  Ok rt.
(** service.rs: [start_until]; the accept task exists for a hub. *)
Definition start_until (m : Machine) (s : SubnetraConfig) : result BootError bool :=
  rt ← map_err BadSubnetra (SubnetraConfig.to_runtime s);
  ensure (match rc_device rt with Netstack _ => true | Tun _ _ => false end) SubnetraDevice ;;
  map_err BadSubnetra (sample_boot_epoch (mc_clock_ns m)) ;;
  ensure (mc_udp m (rc_listen rt)) SubnetraBind ;;
  Ok (bool_decide (rc_mode rt = Hub)).
(** [ReverseHopManager::spawn] with its server configuration and its socket *)
Definition reverse_spawn (m : Machine) (r : ReverseRuntime) : result BootError Manager :=
  manager ← ok_or (manager_spawn (rr_listener r)) ReverseTokensMissing;
  certs ← map_err ReverseTls (load_certs (mc_tls m) (rr_cert r));
  key ← map_err ReverseTls (load_key (mc_tls m) (rr_key r));
  ok_or (single_cert certs key) (ReverseTls BadPair) ;;
  addr ← ok_or (parse_socket_addr (rr_listen r)) ReverseAddress;
  ensure (mc_udp m addr) ReverseBind ;;
  Ok manager.
(** [AccessLogger::spawn] *)
Definition access_log_spawn (m : Machine) (c : AccessLogConfig) (node : str) : result BootError LogState :=
  ensure (mc_mkdir m (al_dir c)) LogDirectory ;;
  map_err BadSyslog (log_spawn (mkLogConfig (al_file_prefix c) (al_retention_days c) node (Z.to_nat (al_channel_capacity c))) (al_syslog c)).

Definition bind_tcp (m : Machine) (s : list BoundListener * TrafficStats) (l : FileListener) : boot (list BoundListener * TrafficStats) :=
  b ← must (map_err (ListenerBind (fl_name l)) (bind (mc_tls m) (mc_tcp m) l (snd s)));
  did (TcpBound (fl_name l)) ;;
  mret (fst s ++ [fst b], snd b).
Definition bind_tuic (m : Machine) (s : list (TuicServerConfig * SocketAddr) * TrafficStats) (l : TuicListener) :
    boot (list (TuicServerConfig * SocketAddr) * TrafficStats) :=
  b ← must (map_err (ListenerBind (tl_name l)) (tuic_bind (mc_tls m) (mc_udp m) l (snd s)));
  did (TuicBound (tl_name l)) ;;
  mret (fst s ++ [fst b], snd b).

(** Everything opened before a background service starts *)
Definition boot_data_plane (m : Machine) (cfg : Config) : boot (list BoundListener * list (TuicServerConfig * SocketAddr) * TrafficStats * option LogState) :=
  (if tun_enabled (cf_subnetra cfg)
   then match cf_subnetra cfg with Some s => must (start_tun m s) ;; did TunReady | None => mret tt end
   else mret tt) ;;
  tcp ← boot_each (bind_tcp m) ([], stats_new) (cf_listeners cfg);
  tuic ← boot_each (bind_tuic m) ([], snd tcp) (cf_tuic_listeners cfg);
  log ← (if al_enable (cf_access_log cfg)
         then l ← must (access_log_spawn m (cf_access_log cfg) (cf_node_id cfg)); did LogOpened ;; mret (Some l)
         else mret None);
  mret (fst tcp, fst tuic, snd tuic, log).
(** The control plane, and the services that are not listeners *)
Definition boot_services (m : Machine) (cfg : Config) : boot (option Manager * bool) :=
  (if hc_enable (cf_health cfg) then must (ensure (mc_tcp m (hc_listen (cf_health cfg))) HealthBind) ;; did HealthServing else mret tt) ;;
  reverse ← (if rh_enable (cf_reverse_hop cfg)
             then r ← must (map_err BadConfig (to_listener_config (cf_node_id cfg) (cf_reverse_hop cfg)));
                  manager ← must (reverse_spawn m r); did ReverseServing ;; mret (Some manager)
             else mret None);
  (if mc_enable (cf_mqtt cfg) then did MqttStarted else mret tt) ;;
  hub ← match cf_subnetra cfg with
        | Some s => if sc_enable s && negb (tun_enabled (cf_subnetra cfg))
                    then hub ← must (start_until m s); did (SubnetraServing hub) ;; mret hub
                    else mret false
        | None => mret false
        end;
  mret (reverse, hub).
(** [run_daemon], up to its supervision *)
Definition startup (m : Machine) : boot Started :=
  cfg ← must (map_err BadConfig (config_load (mc_decode m) (mc_config m)));
  settings ← must (map_err BadConfig (to_settings (cf_dns cfg)));
  resolver ← must (map_err BadResolver (resolver_init (mc_tls m) (mc_builds m) settings None));
  did (ResolverReady (bool_decide (is_Some resolver))) ;;
  (if hub_enabled (cf_subnetra cfg) then mret tt else must (ensure_listeners_configured (cf_listeners cfg) (cf_tuic_listeners cfg))) ;;
  let tcp_names := map (fun l => (fl_name l, fl_listen l)) (cf_listeners cfg) in
  let tuic_names := map (fun l => (tl_name l, tl_listen l)) (cf_tuic_listeners cfg) in
  connectors ← must (lower_connectors m (cf_node_id cfg) tcp_names tuic_names (cf_reverse_ingress cfg));
  book ← match cf_addrbook cfg with
         | Some ab => b ← must (map_err BadAddrBook (service_load (mc_book m (ab_path ab)))); did (BookLoaded (ab_path ab)) ;; mret (Some b)
         | None => mret None
         end;
  must (ensure (mc_client m) NoSyncer) ;;
  let syncer := syncer_new (cf_control_plane cfg) (cf_node_id cfg) book (mc_disk m) in
  opened ← boot_data_plane m cfg;
  let '(tcp, tuic, stats, log) := opened in
  let '(syncer, outcome) := load_cache syncer (mc_place m) (mc_readable m) (mc_elapsed m) in
  did (CacheTried outcome) ;;
  did PollingStarted ;;
  (match book with Some _ => did BookPolled | None => mret tt end) ;;
  services ← boot_services m cfg;
  boot_each (fun _ l => did (TcpServing (fl_name l))) tt (cf_listeners cfg) ;;
  boot_each (fun _ l => did (TuicServing (tl_name l))) tt (cf_tuic_listeners cfg) ;;
  boot_each (fun _ c => did (ConnectorStarted (cn_relay c))) tt connectors ;;
  mret (mkStarted cfg tcp tuic connectors
          ((if tun_enabled (cf_subnetra cfg) then [TunService] else []) ++ (if hc_enable (cf_health cfg) then [HealthService] else []) ++
           map (fun l => TcpService (fl_name l)) (cf_listeners cfg) ++ map (fun l => TuicService (tl_name l)) (cf_tuic_listeners cfg) ++
           map (fun c => ConnectorService (cn_relay c)) connectors)
          (snd services)
          (runtime_new syncer (hc_unreachable_secs (cf_health cfg)) (negb (is_empty (cf_listeners cfg)) || negb (is_empty (cf_tuic_listeners cfg))))
          stats (fst services) log).
End Startup.

(** ** What a startup step adds to the log *)

(** A step adds events to the log; on success they and its result satisfy [Q],
    and when it fails no client has been served. *)
Definition quiet (l : list BootEvent) : Prop := Forall (fun e => serves_clients e = false) l.
Definition boots {A} (m : boot A) (Q : list BootEvent -> A -> Prop) : Prop :=
  forall log, exists ext, snd (m log) = log ++ ext /\ match fst (m log) with Ok a => Q ext a | Err _ => quiet ext end.
Lemma boots_ret {A} (a : A) (Q : list BootEvent -> A -> Prop) : Q [] a -> boots (mret a) Q.
Proof. intros Hq log. exists []. by rewrite app_nil_r. Qed.
Lemma boots_did e (Q : list BootEvent -> unit -> Prop) : Q [e] tt -> boots (did e) Q.
Proof. intros Hq log. by exists [e]. Qed.
Lemma boots_must {A} (r : result BootError A) (Q : list BootEvent -> A -> Prop) : (forall a, r = Ok a -> Q [] a) -> boots (must r) Q.
Proof. intros Hq log. exists []. rewrite app_nil_r. split; [done|]. unfold must. cbn. destruct r; [auto|constructor]. Qed.
Lemma boots_conseq {A} (m : boot A) (P Q : list BootEvent -> A -> Prop) : boots m P -> (forall l a, P l a -> Q l a) -> boots m Q.
Proof. intros Hm Hpq log. destruct (Hm log) as (ext & Hl & Hr). exists ext. split; [done|]. destruct (fst (m log)); auto. Qed.
(** In sequence: what the first step logged is quiet unless the rest cannot fail. *)
Lemma boots_bind {A B} (m : boot A) (k : A -> boot B) (P : list BootEvent -> A -> Prop) (Q : list BootEvent -> B -> Prop) :
  boots m P -> (forall l a, P l a -> quiet l /\ boots (k a) (fun l' b => Q (l ++ l') b)) -> boots (m ≫= k) Q.
Proof.
  intros Hm Hk log. destruct (Hm log) as (ext & Hl & Hr). unfold mbind, boot_bind.
  destruct (m log) as [[a|e] log1]; cbn [fst snd] in *; subst log1; [|by exists ext].
  destruct (Hk ext a Hr) as [Hq Hb]. destruct (Hb (log ++ ext)) as (ext' & Hl' & Hr'). exists (ext ++ ext'). rewrite app_assoc. split; [done|].
  destruct (fst (k a (log ++ ext))); [done|]. by apply Forall_app.
Qed.
(** A step that cannot fail *)
Definition sure {A} (m : boot A) (Q : list BootEvent -> A -> Prop) : Prop := forall log, exists ext a, m log = (Ok a, log ++ ext) /\ Q ext a.
Lemma sure_boots {A} (m : boot A) (Q : list BootEvent -> A -> Prop) : sure m Q -> boots m Q.
Proof. intros Hm log. destruct (Hm log) as (ext & a & -> & Hq). by exists ext. Qed.
Lemma boots_then_sure {A B} (m : boot A) (k : A -> boot B) (P : list BootEvent -> A -> Prop) (Q : list BootEvent -> B -> Prop) :
  boots m P -> (forall l a, P l a -> sure (k a) (fun l' b => Q (l ++ l') b)) -> boots (m ≫= k) Q.
Proof.
  intros Hm Hk log. destruct (Hm log) as (ext & Hl & Hr). unfold mbind, boot_bind.
  destruct (m log) as [[a|e] log1]; cbn [fst snd] in *; subst log1; [|by exists ext].
  destruct (Hk ext a Hr (log ++ ext)) as (ext' & b & -> & Hq). exists (ext ++ ext'). by rewrite app_assoc.
Qed.
Lemma sure_ret {A} (a : A) (Q : list BootEvent -> A -> Prop) : Q [] a -> sure (mret a) Q.
Proof. intros Hq log. exists [], a. by rewrite app_nil_r. Qed.
Lemma sure_bind {A B} (m : boot A) (k : A -> boot B) (P : list BootEvent -> A -> Prop) (Q : list BootEvent -> B -> Prop) :
  sure m P -> (forall l a, P l a -> sure (k a) (fun l' b => Q (l ++ l') b)) -> sure (m ≫= k) Q.
Proof.
  intros Hm Hk log. destruct (Hm log) as (ext & a & E & Hp). destruct (Hk _ _ Hp (log ++ ext)) as (ext' & b & E' & Hq).
  exists (ext ++ ext'), b. unfold mbind, boot_bind. by rewrite E, E', app_assoc.
Qed.
Lemma sure_did e (Q : list BootEvent -> unit -> Prop) : Q [e] tt -> sure (did e) Q.
Proof. intros Hq log. by exists [e], tt. Qed.
Lemma sure_each {A} (f : A -> BootEvent) l (Q : list BootEvent -> unit -> Prop) :
  Q (map f l) tt -> sure (boot_each (fun _ x => did (f x)) tt l) Q.
Proof.
  intros Hq. cut (sure (boot_each (fun _ x => did (f x)) tt l) (fun ext _ => ext = map f l)).
  { intros Hs log. destruct (Hs log) as (ext & [] & E & ->). eauto. }
  clear Hq. induction l as [|x l IH]; cbn [boot_each]; [by apply sure_ret|].
  apply (sure_bind _ _ (fun ext _ => ext = [f x])); [by apply sure_did|].
  intros ? [] -> log. destruct (IH log) as (ext & [] & -> & ->). by eexists _, tt.
Qed.

(** ** What startup guarantees *)

Section StartupProps.
Context {N : Ipnet} {D : Chrono} {J : SnapshotJson} {H : Sha256} {T : TlsLib} (m : Machine).

Definition tcp_bound (l : FileListener) (b : BoundListener) : Prop := exists s s', bind (mc_tls m) (mc_tcp m) l s = Ok (b, s').
Definition tuic_bound (l : TuicListener) (b : TuicServerConfig * SocketAddr) : Prop :=
  exists s s', tuic_bind (mc_tls m) (mc_udp m) l s = Ok (b, s').
(** Each item opened in order, its event logged; the first failure ends it. *)
Lemma boots_open {A B} (f : list B * TrafficStats -> A -> boot (list B * TrafficStats)) (open : A -> TrafficStats -> result BootError (B * TrafficStats))
    (ev : A -> BootEvent) l acc st :
  (forall s x, f s x = (b ← must (open x (snd s)); did (ev x) ;; mret (fst s ++ [fst b], snd b))) ->
  (forall x, serves_clients (ev x) = false) ->
  boots (boot_each f (acc, st) l) (fun ext r => ext = map ev l /\ exists bs, fst r = acc ++ bs /\
    Forall2 (fun x b => exists s s', open x s = Ok (b, s')) l bs).
Proof.
  intros Hf Hev. revert acc st; induction l as [|x l IH]; intros acc st; cbn [boot_each].
  { apply boots_ret. split; [done|]. exists []. by rewrite app_nil_r. }
  apply (boots_bind _ _ (fun ext r => ext = [ev x] /\ exists b s', open x st = Ok (b, s') /\ r = (acc ++ [b], s'))).
  - rewrite Hf. apply (boots_bind _ _ (fun ext b => ext = [] /\ open x st = Ok b)); [by apply boots_must|].
    intros ? [b s'] [-> Ho]. split; [constructor|]. apply sure_boots, (sure_bind _ _ (fun ext _ => ext = [ev x])); [by apply sure_did|].
    intros ? [] ->. apply sure_ret. eauto.
  - intros ? r [-> (b & s' & Ho & ->)]. split; [by repeat constructor|]. eapply boots_conseq; [apply IH|].
    intros ext r [-> (bs & Hb & Hall)]. split; [done|]. exists (b :: bs). rewrite Hb, <-app_assoc. split; [done|]. constructor; [by eauto|done].
Qed.
Lemma boots_tcp l st : boots (boot_each (bind_tcp m) ([], st) l) (fun ext r => ext = map (fun l => TcpBound (fl_name l)) l /\ Forall2 tcp_bound l (fst r)).
Proof.
  eapply boots_conseq; [apply (boots_open _ (fun l s => map_err (ListenerBind (fl_name l)) (bind (mc_tls m) (mc_tcp m) l s))); done|].
  cbn. intros ext r [-> (bs & -> & Hall)]. split; [done|]. eapply Forall2_impl; [exact Hall|]. intros x b (s & s' & E%map_err_Ok). by exists s, s'.
Qed.
Lemma boots_tuic l st : boots (boot_each (bind_tuic m) ([], st) l) (fun ext r => ext = map (fun l => TuicBound (tl_name l)) l /\ Forall2 tuic_bound l (fst r)).
Proof.
  eapply boots_conseq; [apply (boots_open _ (fun l s => map_err (ListenerBind (tl_name l)) (tuic_bind (mc_tls m) (mc_udp m) l s))); done|].
  cbn. intros ext r [-> (bs & -> & Hall)]. split; [done|]. eapply Forall2_impl; [exact Hall|]. intros x b (s & s' & E%map_err_Ok). by exists s, s'.
Qed.

(** The events before the control plane, and what they opened *)
Definition opening_log (cfg : Config) : list BootEvent :=
  (if tun_enabled (cf_subnetra cfg) then [TunReady] else []) ++ map (fun l => TcpBound (fl_name l)) (cf_listeners cfg) ++
  map (fun l => TuicBound (tl_name l)) (cf_tuic_listeners cfg) ++ (if al_enable (cf_access_log cfg) then [LogOpened] else []).
Lemma quiet_map {A} (f : A -> BootEvent) l : (forall x, serves_clients (f x) = false) -> quiet (map f l).
Proof. intros Hf. apply Forall_fmap. by apply Forall_true. Qed.
Lemma quiet_opening cfg : quiet (opening_log cfg).
Proof.
  unfold opening_log. repeat apply Forall_app_2; try (by apply quiet_map); [by destruct (tun_enabled _); repeat constructor|by destruct (al_enable _); repeat constructor].
Qed.
Lemma boots_data_plane cfg : boots (boot_data_plane m cfg) (fun ext r => let '(tcp, tuic, _, log) := r in
  ext = opening_log cfg /\ Forall2 tcp_bound (cf_listeners cfg) tcp /\ Forall2 tuic_bound (cf_tuic_listeners cfg) tuic /\
  (al_enable (cf_access_log cfg) = true -> access_log_spawn m (cf_access_log cfg) (cf_node_id cfg) = Ok (default (mkLogState [] 0 0 ∅ ∅ None false) log) /\ log <> None)).
Proof.
  unfold boot_data_plane, opening_log.
  apply (boots_bind _ _ (fun ext _ => ext = if tun_enabled (cf_subnetra cfg) then [TunReady] else [])).
  { unfold tun_enabled. destruct (cf_subnetra cfg) as [s|]; [|by apply boots_ret]. destruct (_ && _); [|by apply boots_ret].
    apply (boots_bind _ _ (fun ext _ => ext = [])); [by apply boots_must|]. intros ? ? ->. split; [constructor|by apply boots_did]. }
  intros ? [] ->. split; [by destruct (tun_enabled _); repeat constructor|].
  eapply boots_bind; [apply boots_tcp|]. intros ? [tcp s1] [-> Htcp]. split; [by apply quiet_map|].
  eapply boots_bind; [apply boots_tuic|]. intros ? [tuic s2] [-> Htuic]. split; [by apply quiet_map|]. cbn [fst snd] in *.
  apply (boots_bind _ _ (fun ext log => ext = (if al_enable (cf_access_log cfg) then [LogOpened] else []) /\
    (al_enable (cf_access_log cfg) = true -> access_log_spawn m (cf_access_log cfg) (cf_node_id cfg) = Ok (default (mkLogState [] 0 0 ∅ ∅ None false) log) /\ log <> None))).
  { destruct (al_enable (cf_access_log cfg)); [|by apply boots_ret]. apply (boots_bind _ _ (fun ext l => ext = [] /\ access_log_spawn m (cf_access_log cfg) (cf_node_id cfg) = Ok l)); [by apply boots_must|].
    intros ? l [-> Hl]. split; [constructor|]. apply sure_boots, (sure_bind _ _ (fun ext _ => ext = [LogOpened])); [by apply sure_did|].
    intros ? [] ->. by apply sure_ret. }
  intros ? log [-> Hlog]. split; [by destruct (al_enable _); repeat constructor|]. apply boots_ret. rewrite app_nil_r. done.
Qed.

(** The services started after the first snapshot was tried *)
Definition services_log (cfg : Config) (hub : bool) : list BootEvent :=
  (if hc_enable (cf_health cfg) then [HealthServing] else []) ++ (if rh_enable (cf_reverse_hop cfg) then [ReverseServing] else []) ++
  (if mc_enable (cf_mqtt cfg) then [MqttStarted] else []) ++
  match cf_subnetra cfg with Some s => if sc_enable s && negb (tun_enabled (cf_subnetra cfg)) then [SubnetraServing hub] else [] | None => [] end.
Lemma boots_services cfg : boots (boot_services m cfg) (fun ext r =>
  ext = services_log cfg (snd r) /\
  (rh_enable (cf_reverse_hop cfg) = false -> fst r = None) /\
  (rh_enable (cf_reverse_hop cfg) = true -> exists rt manager, fst r = Some manager /\
    to_listener_config (cf_node_id cfg) (cf_reverse_hop cfg) = Ok rt /\ manager_spawn (rr_listener rt) = Some manager)).
Proof.
  unfold boot_services, services_log.
  apply (boots_bind _ _ (fun ext _ => ext = if hc_enable (cf_health cfg) then [HealthServing] else [])).
  { destruct (hc_enable _); [|by apply boots_ret]. apply (boots_bind _ _ (fun ext _ => ext = [])); [by apply boots_must|].
    intros ? ? ->. split; [constructor|by apply boots_did]. }
  intros ? [] ->. split; [by destruct (hc_enable _); repeat constructor|].
  apply (boots_bind _ _ (fun ext r => ext = (if rh_enable (cf_reverse_hop cfg) then [ReverseServing] else []) /\
    (rh_enable (cf_reverse_hop cfg) = false -> r = None) /\
    (rh_enable (cf_reverse_hop cfg) = true -> exists rt manager, r = Some manager /\
      to_listener_config (cf_node_id cfg) (cf_reverse_hop cfg) = Ok rt /\ manager_spawn (rr_listener rt) = Some manager))).
  { destruct (rh_enable _); [|by apply boots_ret].
    apply (boots_bind _ _ (fun ext rt => ext = [] /\ to_listener_config (cf_node_id cfg) (cf_reverse_hop cfg) = Ok rt)).
    { apply boots_must. by intros rt E%map_err_Ok. }
    intros ? rt [-> Hrt]. split; [constructor|].
    apply (boots_bind _ _ (fun ext manager => ext = [] /\ manager_spawn (rr_listener rt) = Some manager)).
    { apply boots_must. intros manager E. split; [done|]. unfold reverse_spawn in E. by res_inv. }
    intros ? manager [-> Hm]. split; [constructor|]. apply sure_boots, (sure_bind _ _ (fun ext _ => ext = [ReverseServing])); [by apply sure_did|].
    intros ? [] ->. apply sure_ret. naive_solver. }
  intros ? reverse (-> & Hoff & Hon). split; [by destruct (rh_enable _); repeat constructor|].
  apply (boots_bind _ _ (fun ext _ => ext = if mc_enable (cf_mqtt cfg) then [MqttStarted] else [])).
  { destruct (mc_enable _); [by apply boots_did|by apply boots_ret]. }
  intros ? [] ->. split; [by destruct (mc_enable _); repeat constructor|].
  apply (boots_then_sure _ _ (fun ext hub => ext = match cf_subnetra cfg with
     Some s => if sc_enable s && negb (tun_enabled (cf_subnetra cfg)) then [SubnetraServing hub] else [] | None => [] end)).
  { destruct (cf_subnetra cfg) as [s|]; [|by apply boots_ret]. destruct (_ && _); [|by apply boots_ret].
    apply (boots_then_sure _ _ (fun ext _ => ext = [])); [by apply boots_must|]. intros ? hub ->.
    apply (sure_bind _ _ (fun ext _ => ext = [SubnetraServing hub])); [by apply sure_did|]. intros ? [] ->. by apply sure_ret. }
  intros ? hub ->. apply sure_ret. by rewrite app_nil_r.
Qed.

(** The connectors: the enabled sections, lowered in order. *)
Lemma lower_connectors_spec node tcp tuic l cs : lower_connectors m node tcp tuic l = Ok cs ->
  exists rs, Forall2 (fun c r => ConnectorConfig.to_runtime (mc_env m) node tcp tuic c = Ok r) l rs /\ cs = omap id rs.
Proof.
  revert cs; induction l as [|c l IH]; intros cs E; cbn [lower_connectors] in E; [injection E as <-; by exists []|].
  apply bind_Ok in E as (r & Hr%map_err_Ok & E). apply bind_Ok in E as (rest & Hrest & [= <-]).
  destruct (IH _ Hrest) as (rs & Hf & ->). exists (r :: rs). split; [by constructor|]. by destruct r.
Qed.

Definition tcp_names (cfg : Config) : Named := map (fun l => (fl_name l, fl_listen l)) (cf_listeners cfg).
Definition tuic_names (cfg : Config) : Named := map (fun l => (tl_name l, tl_listen l)) (cf_tuic_listeners cfg).
(** What a started daemon has. *)
Record started_ok (log : list BootEvent) (st : Started) : Prop := {
  su_config : config_load (mc_decode m) (mc_config m) = Ok (st_config st);
  su_inbound : hub_enabled (cf_subnetra (st_config st)) = true \/ cf_listeners (st_config st) <> [] \/ cf_tuic_listeners (st_config st) <> [];
  su_tcp : Forall2 tcp_bound (cf_listeners (st_config st)) (st_tcp st);
  su_tuic : Forall2 tuic_bound (cf_tuic_listeners (st_config st)) (st_tuic st);
  su_connectors : exists rs, st_connectors st = omap id rs /\ Forall2 (fun c r =>
    ConnectorConfig.to_runtime (mc_env m) (cf_node_id (st_config st)) (tcp_names (st_config st)) (tuic_names (st_config st)) c = Ok r)
    (cf_reverse_ingress (st_config st)) rs;
  su_reverse : (rh_enable (cf_reverse_hop (st_config st)) = false -> st_reverse st = None) /\
    (rh_enable (cf_reverse_hop (st_config st)) = true -> exists rt manager, st_reverse st = Some manager /\
      to_listener_config (cf_node_id (st_config st)) (cf_reverse_hop (st_config st)) = Ok rt /\ manager_spawn (rr_listener rt) = Some manager);
  su_log : exists settings resolver book outcome,
    to_settings (cf_dns (st_config st)) = Ok settings /\ resolver_init (mc_tls m) (mc_builds m) settings None = Ok resolver /\
    match cf_addrbook (st_config st) with
    | Some ab => exists b, book = Some b /\ service_load (mc_book m (ab_path ab)) = Ok b
    | None => book = None
    end /\
    load_cache (syncer_new (cf_control_plane (st_config st)) (cf_node_id (st_config st)) book (mc_disk m)) (mc_place m) (mc_readable m) (mc_elapsed m)
      = (rh_syncer (st_health st), outcome) /\
    log = [ResolverReady (bool_decide (is_Some resolver))] ++ (match cf_addrbook (st_config st) with Some ab => [BookLoaded (ab_path ab)] | None => [] end) ++
      opening_log (st_config st) ++ [CacheTried outcome; PollingStarted] ++ (if book then [BookPolled] else []) ++
      services_log (st_config st) (st_accept_task st) ++
      map (fun l => TcpServing (fl_name l)) (cf_listeners (st_config st)) ++ map (fun l => TuicServing (tl_name l)) (cf_tuic_listeners (st_config st)) ++
      map (fun c => ConnectorStarted (cn_relay c)) (st_connectors st);
  su_health : rh_active_listeners (st_health st) = 0 /\ rh_draining (st_health st) = false;
  su_services : List.filter (fun k => match k with TcpService _ | TuicService _ => true | _ => false end) (st_services st) =
    map (fun l => TcpService (fl_name l)) (cf_listeners (st_config st)) ++ map (fun l => TuicService (tl_name l)) (cf_tuic_listeners (st_config st))
}.
Lemma filter_all {A B} (f : A -> B) p l : (forall x, p (f x) = true) -> List.filter p (map f l) = map f l.
Proof. intros Hp. induction l as [|x l IH]; [done|]. cbn. by rewrite Hp, IH. Qed.
Lemma filter_none {A B} (f : A -> B) p l : (forall x, p (f x) = false) -> List.filter p (map f l) = [].
Proof. intros Hp. induction l as [|x l IH]; [done|]. cbn. by rewrite Hp. Qed.

(** Startup as one step, for the properties below *)
Lemma startup_spec : boots (startup m) (fun log st => config_ok (st_config st) /\ started_ok log st).
Proof.
  unfold startup.
  apply (boots_bind _ _ (fun ext cfg => ext = [] /\ config_load (mc_decode m) (mc_config m) = Ok cfg)); [apply boots_must; by intros c ?%map_err_Ok|].
  intros ? cfg [-> Hcfg]. split; [constructor|].
  apply (boots_bind _ _ (fun ext s => ext = [] /\ to_settings (cf_dns cfg) = Ok s)); [apply boots_must; by intros c ?%map_err_Ok|].
  intros ? settings [-> Hset]. split; [constructor|].
  apply (boots_bind _ _ (fun ext r => ext = [] /\ resolver_init (mc_tls m) (mc_builds m) settings None = Ok r)); [apply boots_must; by intros c ?%map_err_Ok|].
  intros ? resolver [-> Hres]. split; [constructor|].
  apply (boots_bind _ _ (fun ext _ => ext = [ResolverReady (bool_decide (is_Some resolver))])); [by apply boots_did|].
  intros ? [] ->. split; [by repeat constructor|].
  apply (boots_bind _ _ (fun ext _ => ext = [] /\ (hub_enabled (cf_subnetra cfg) = true \/ cf_listeners cfg <> [] \/ cf_tuic_listeners cfg <> []))).
  { destruct (hub_enabled _); [apply boots_ret; auto|]. apply boots_must. intros [] E%ensure_Ok. split; [done|]. right.
    destruct (cf_listeners cfg), (cf_tuic_listeners cfg); try done; [by right|by left..]. }
  intros ? [] [-> Hin]. split; [constructor|]. fold (tcp_names cfg) (tuic_names cfg).
  apply (boots_bind _ _ (fun ext cs => ext = [] /\ lower_connectors m (cf_node_id cfg) (tcp_names cfg) (tuic_names cfg) (cf_reverse_ingress cfg) = Ok cs)).
  { by apply boots_must. }
  intros ? connectors [-> Hcon]. split; [constructor|].
  apply (boots_bind _ _ (fun ext book => ext = (match cf_addrbook cfg with Some ab => [BookLoaded (ab_path ab)] | None => [] end) /\
    match cf_addrbook cfg with Some ab => exists b, book = Some b /\ service_load (mc_book m (ab_path ab)) = Ok b | None => book = None end)).
  { destruct (cf_addrbook cfg) as [ab|]; [|by apply boots_ret].
    apply (boots_bind _ _ (fun ext b => ext = [] /\ service_load (mc_book m (ab_path ab)) = Ok b)); [apply boots_must; by intros c ?%map_err_Ok|].
    intros ? b [-> Hb]. split; [constructor|]. apply sure_boots, (sure_bind _ _ (fun ext _ => ext = [BookLoaded (ab_path ab)])); [by apply sure_did|].
    intros ? [] ->. apply sure_ret. eauto. }
  intros ? book [-> Hbook]. split; [by destruct (cf_addrbook cfg); repeat constructor|].
  apply (boots_bind _ _ (fun ext _ => ext = [])); [by apply boots_must|]. intros ? [] ->. split; [constructor|].
  eapply boots_bind; [apply boots_data_plane|]. intros ext [[[tcp tuic] stats] log] (-> & Htcp & Htuic & _). split; [apply quiet_opening|].
  destruct (load_cache _ _ _ _) as [syncer outcome] eqn:Hcache.
  apply (boots_bind _ _ (fun ext _ => ext = [CacheTried outcome])); [by apply boots_did|]. intros ? [] ->. split; [by repeat constructor|].
  apply (boots_bind _ _ (fun ext _ => ext = [PollingStarted])); [by apply boots_did|]. intros ? [] ->. split; [by repeat constructor|].
  apply (boots_bind _ _ (fun ext _ => ext = if book then [BookPolled] else [])); [destruct book; [by apply boots_did|by apply boots_ret]|].
  intros ? [] ->. split; [by destruct book; repeat constructor|].
  eapply boots_then_sure; [apply boots_services|]. intros ext [reverse hub] (-> & Hoff & Hon). cbn [fst snd] in *.
  apply (sure_bind _ _ (fun ext _ => ext = map (fun l => TcpServing (fl_name l)) (cf_listeners cfg))); [by apply sure_each|]. intros ? [] ->.
  apply (sure_bind _ _ (fun ext _ => ext = map (fun l => TuicServing (tl_name l)) (cf_tuic_listeners cfg))); [by apply sure_each|]. intros ? [] ->.
  apply (sure_bind _ _ (fun ext _ => ext = map (fun c => ConnectorStarted (cn_relay c)) connectors)); [by apply sure_each|]. intros ? [] ->.
  apply sure_ret. cbn [st_config]. split.
  { apply config_checks_exact. unfold config_load in Hcfg. apply bind_Ok in Hcfg as (? & _ & Hcfg). apply bind_Ok in Hcfg as (c & _ & Hcfg).
    apply bind_Ok in Hcfg as (u & Hc & [= ->]). by exists u. }
  split; cbn [st_config st_tcp st_tuic st_connectors st_reverse st_health st_accept_task st_services]; try done.
  - apply lower_connectors_spec in Hcon as (rs & Hf & ->). by exists rs.
  - exists settings, resolver, book, outcome. split_and!; try done. by rewrite !app_nil_r, ?app_nil_l, <-?app_assoc.
  - rewrite !List.filter_app, !filter_all, filter_none by done. rewrite app_nil_r. by destruct (tun_enabled _), (hc_enable _).
Qed.
Lemma startup_health : match fst (startup m []) with Ok st => rh_active_listeners (st_health st) = 0 | Err _ => True end.
Proof.
  destruct (startup_spec []) as (ext & _ & Hr). destruct (fst (startup m [])) as [st|e]; [|done]. by destruct Hr as [_ [_ _ _ _ _ _ _ [? _] _]].
Qed.

(** C34: Startup fails closed. When it fails, no listener, TUIC endpoint or
    overlay hub has begun to serve; when it succeeds the configuration was
    accepted, every configured listener is bound, the address book was loaded
    before the cached snapshot was compiled against it, every enabled service
    is up, there is an inbound unless the node is a hub, and only then, in this
    order, have the listeners and after them the ingress connectors begun. *)
Theorem startup_fail_closed : let '(r, log) := startup m [] in
  match r with
  | Ok st => config_ok (st_config st) /\ started_ok log st
  | Err _ => Forall (fun e => serves_clients e = false) log
  end.
Proof.
  destruct (startup_spec []) as (ext & Hl & Hr). destruct (startup m []) as [[st|e] log]; cbn in *; subst; done.
Qed.
End StartupProps.

(** ** Supervision *)

Section Supervision.
Context {N : Ipnet} {D : Chrono} {J : SnapshotJson} {H : Sha256} {T : TlsLib}.

(** Where a spawned service is: not polled yet, running, its function returned
    with its outcome reported, and its task ended, normally or by a panic. *)
Inductive TaskPhase := Spawned | Online | Leaving | Finished (panicked : bool).
Record Task := mkTask { tk_kind : ServiceKind; tk_phase : TaskPhase }.
Definition listener_name (k : ServiceKind) : option str := match k with TcpService n | TuicService n => Some n | _ => None end.
Definition is_listener (k : ServiceKind) : bool := bool_decide (is_Some (listener_name k)).
(** Holding its data-plane lease *)
Definition leased (t : Task) : bool := is_listener (tk_kind t) && match tk_phase t with Online | Leaving => true | _ => false end.
(** The error sent to the supervisor: the listener, and whether it returned one. *)
Record Failure := mkFailure { fa_listener : str; fa_error : bool }.
(** [run_daemon] after its tasks are spawned: waiting in its [select!], having
    marked the node as draining, draining with the flag sent, or returned. *)
Inductive DaemonPhase := Supervising | Stopping (fatal : option Failure) | Draining (fatal : option Failure)
| Exited (r : result (option Failure) unit).
Record Supervisor := mkSupervisor {
  sp_tasks : gmap Z Task; sp_accept_task : bool; sp_health : RuntimeHealth; sp_failures : list Failure; sp_shutdown : bool; sp_phase : DaemonPhase
}.
Fixpoint number {A} (i : Z) (l : list A) : gmap Z A := match l with [] => ∅ | x :: l => <[i := x]> (number (i + 1) l) end.
Definition supervise (st : Started) : Supervisor :=
  mkSupervisor (number 0 (map (fun k => mkTask k Spawned) (st_services st))) (st_accept_task st) (st_health st) [] false Supervising.

Inductive DaemonEvent :=
| TaskOnline (i : Z)
| TaskReturned (i : Z) (error : bool)
| LeaseDropped (i : Z)
| TaskPanicked (i : Z)
| AcceptTaskEnded
| SignalReceived
| SignalFailed
| FailureTaken
| ShutdownBroadcast
| Joined (i : Z)
| Drained
| GraceElapsed.

Definition on_task (i : Z) (t : Task) (h : RuntimeHealth) (fs : list Failure) (s : Supervisor) : Supervisor :=
  mkSupervisor (<[i := t]> (sp_tasks s)) (sp_accept_task s) h (sp_failures s ++ fs) (sp_shutdown s) (sp_phase s).
Definition to_phase (p : DaemonPhase) (s : Supervisor) : Supervisor :=
  mkSupervisor (sp_tasks s) (sp_accept_task s) (sp_health s) (sp_failures s) (sp_shutdown s) p.
(** Every task is aborted: its leases are dropped with it. *)
Definition abort_all (r : result (option Failure) unit) (s : Supervisor) : Supervisor :=
  mkSupervisor ∅ false (Nat.iter (Z.to_nat (count leased (sp_tasks s))) drop_lease (sp_health s)) (sp_failures s) (sp_shutdown s) (Exited r).
Definition verdict (fatal : option Failure) : result (option Failure) unit := match fatal with Some f => Err (Some f) | None => Ok tt end.
Definition no_tasks (m : gmap Z Task) : bool := bool_decide (m = ∅).
Definition alive (p : DaemonPhase) : bool := match p with Exited _ => false | _ => true end.

Definition daemon_step (s : Supervisor) (e : DaemonEvent) : option Supervisor :=
  match e with
  | TaskOnline i =>
      t ← sp_tasks s !! i;
      match tk_phase t with
      | Spawned => Some (on_task i (mkTask (tk_kind t) Online) (if is_listener (tk_kind t) then data_plane_online (sp_health s) else sp_health s) [] s)
      | _ => None
      end
  | TaskReturned i error =>
      t ← sp_tasks s !! i;
      match tk_phase t with
      | Online =>
          let failure := match listener_name (tk_kind t) with Some n => if sp_shutdown s then [] else [mkFailure n error] | None => [] end in
          Some (on_task i (mkTask (tk_kind t) Leaving) (sp_health s) failure s)
      | _ => None
      end
  | LeaseDropped i =>
      t ← sp_tasks s !! i;
      match tk_phase t with
      | Leaving => Some (on_task i (mkTask (tk_kind t) (Finished false)) (if is_listener (tk_kind t) then drop_lease (sp_health s) else sp_health s) [] s)
      | _ => None
      end
  | TaskPanicked i =>
      t ← sp_tasks s !! i;
      match tk_phase t with
      | Online => Some (on_task i (mkTask (tk_kind t) (Finished true)) (if is_listener (tk_kind t) then drop_lease (sp_health s) else sp_health s) [] s)
      | _ => None
      end
  | AcceptTaskEnded =>
      if sp_accept_task s then Some (mkSupervisor (sp_tasks s) false (sp_health s) (sp_failures s) (sp_shutdown s) (sp_phase s)) else None
  | SignalReceived => match sp_phase s with Supervising => Some (mkSupervisor (sp_tasks s) (sp_accept_task s) (begin_draining (sp_health s)) (sp_failures s) (sp_shutdown s) (Stopping None)) | _ => None end
  | SignalFailed => match sp_phase s with Supervising => Some (abort_all (Err None) s) | _ => None end
  | FailureTaken =>
      match sp_phase s, sp_failures s with
      | Supervising, f :: rest => Some (mkSupervisor (sp_tasks s) (sp_accept_task s) (begin_draining (sp_health s)) rest (sp_shutdown s) (Stopping (Some f)))
      | _, _ => None
      end
  | ShutdownBroadcast =>
      match sp_phase s with
      | Stopping fatal => Some (mkSupervisor (sp_tasks s) (sp_accept_task s) (sp_health s) (sp_failures s) true (Draining fatal))
      | _ => None
      end
  | Joined i =>
      match sp_phase s, tk_phase <$> sp_tasks s !! i with
      | Draining _, Some (Finished _) =>
          Some (mkSupervisor (delete i (sp_tasks s)) (sp_accept_task s) (sp_health s) (sp_failures s) (sp_shutdown s) (sp_phase s))
      | _, _ => None
      end
  | Drained =>
      match sp_phase s with
      | Draining fatal => if no_tasks (sp_tasks s) && negb (sp_accept_task s) then Some (to_phase (Exited (verdict fatal)) s) else None
      | _ => None
      end
  | GraceElapsed => match sp_phase s with Draining fatal => Some (abort_all (verdict fatal) s) | _ => None end
  end.
Fixpoint daemon_run (s : Supervisor) (l : list DaemonEvent) : option Supervisor :=
  match l with [] => Some s | e :: l => s ← daemon_step s e; daemon_run s l end.

(** ** The invariant *)

Lemma number_lookup {A} i (l : list A) j x : number i l !! j = Some x <-> i <= j /\ l !! Z.to_nat (j - i) = Some x.
Proof.
  revert i; induction l as [|y l IH]; intros i; cbn [number].
  - rewrite lookup_empty, lookup_nil. naive_solver.
  - destruct (decide (j = i)) as [->|Hne].
    + rewrite lookup_insert_eq, Z.sub_diag. cbn. intuition lia.
    + rewrite lookup_insert_ne, IH by done. split; intros [Hle Hl].
      * split; [lia|]. by replace (Z.to_nat (j - i)) with (S (Z.to_nat (j - (i + 1)))) by lia.
      * assert (i + 1 <= j) by lia. split; [done|]. by replace (Z.to_nat (j - i)) with (S (Z.to_nat (j - (i + 1)))) in Hl by lia.
Qed.
Lemma number_size {A} i (l : list A) : size (number i l) = length l.
Proof.
  revert i; induction l as [|y l IH]; intros i; [done|]. cbn [number length]. rewrite map_size_insert_None; [by rewrite IH|].
  apply eq_None_not_Some. intros [x Hx%number_lookup]. lia.
Qed.
Definition spawned_as (st : Started) (i : Z) (k : ServiceKind) : Prop := 0 <= i /\ st_services st !! Z.to_nat i = Some k.
(** The failure is what a listener of the node returned. *)
Definition reported (st : Started) (l : list DaemonEvent) (f : Failure) : Prop :=
  exists i k, spawned_as st i k /\ listener_name k = Some (fa_listener f) /\ TaskReturned i (fa_error f) ∈ l.
Definition caused (st : Started) (l : list DaemonEvent) (fatal : option Failure) : Prop :=
  match fatal with Some f => FailureTaken ∈ l /\ reported st l f | None => SignalReceived ∈ l end.
Definition draining_phase (p : DaemonPhase) : bool := match p with Stopping _ | Draining _ => true | _ => false end.
Record sup_inv (st : Started) (l : list DaemonEvent) (s : Supervisor) : Prop := {
  si_leases : rh_active_listeners (sp_health s) = count leased (sp_tasks s);
  si_tasks : forall i t, sp_tasks s !! i = Some t -> spawned_as st i (tk_kind t);
  si_size : (size (sp_tasks s) <= length (st_services st))%nat;
  si_health : match sp_phase s with
              | Supervising => rh_draining (sp_health s) = rh_draining (st_health st)
              | Stopping _ | Draining _ | Exited (Ok _) | Exited (Err (Some _)) => rh_draining (sp_health s) = true
              | Exited (Err None) => True
              end;
  si_shutdown : match sp_phase s with
                | Supervising | Stopping _ | Exited (Err None) => sp_shutdown s = false
                | Draining _ | Exited (Ok _) | Exited (Err (Some _)) => sp_shutdown s = true
                end;
  si_exited : alive (sp_phase s) = false -> sp_tasks s = ∅ /\ sp_accept_task s = false;
  si_failures : forall f, f ∈ sp_failures s -> reported st l f;
  si_pending : sp_phase s = Supervising -> forall i t n, sp_tasks s !! i = Some t -> listener_name (tk_kind t) = Some n ->
    tk_phase t = Leaving \/ tk_phase t = Finished false -> exists f, f ∈ sp_failures s /\ fa_listener f = n;
  si_cause : match sp_phase s with
             | Supervising => True
             | Stopping fatal | Draining fatal => caused st l fatal
             | Exited (Ok _) => caused st l None
             | Exited (Err (Some f)) => caused st l (Some f)
             | Exited (Err None) => SignalFailed ∈ l
             end
}.

Lemma reported_more st l l' f : l ⊆ l' -> reported st l f -> reported st l' f.
Proof. intros Hs (i & k & ? & ? & ?). exists i, k. auto. Qed.
Lemma caused_more st l l' fatal : l ⊆ l' -> caused st l fatal -> caused st l' fatal.
Proof. destruct fatal; cbn; [intros Hs [? ?]; split; [auto|by eapply reported_more]|auto]. Qed.
Lemma listener_leased t : is_listener (tk_kind t) = false -> leased t = false.
Proof. unfold leased. by intros ->. Qed.
Lemma iter_drop n h : 0 <= Z.of_nat n <= rh_active_listeners h -> rh_active_listeners h < 2 ^ 64 ->
  rh_active_listeners (Nat.iter n drop_lease h) = rh_active_listeners h - Z.of_nat n /\ rh_draining (Nat.iter n drop_lease h) = rh_draining h.
Proof.
  revert h; induction n as [|n IH]; intros h Hn Hm; [cbn; split; [lia|done]|]. rewrite Nat.iter_succ. destruct (IH h) as [Ha Hd]; [lia..|].
  cbn [drop_lease set_listeners rh_active_listeners rh_draining]. rewrite Ha, wrap_fits by (unfold fits; lia). split; [lia|done].
Qed.

Lemma supervise_inv st : rh_active_listeners (st_health st) = 0 -> sup_inv st [] (supervise st).
Proof.
  intros Hz. assert (Hk : forall i t, number 0 (map (fun k => mkTask k Spawned) (st_services st)) !! i = Some t ->
    tk_phase t = Spawned /\ spawned_as st i (tk_kind t)).
  { intros i t [Hi E]%number_lookup. rewrite Z.sub_0_r, list_lookup_fmap in E. apply fmap_Some in E as (k & Ek & ->). done. }
  split; cbn; try done.
  - rewrite Hz, count_zero; [done|]. intros i t [Hp _]%Hk. unfold leased. rewrite Hp. by rewrite andb_false_r.
  - by intros i t [_ ?]%Hk.
  - by rewrite number_size, length_map.
  - by intros f ?%elem_of_nil.
  - intros _ i t n [Hp _]%Hk. rewrite Hp. by intros _ [|].
Qed.
(** A step of one task: its phase, its lease, and what it reports *)
Lemma task_step_inv st l s e i t p h fs : sup_inv st l s -> sp_tasks s !! i = Some t ->
  let t' := mkTask (tk_kind t) p in
  rh_active_listeners h = rh_active_listeners (sp_health s) - (if leased t then 1 else 0) + (if leased t' then 1 else 0) ->
  rh_draining h = rh_draining (sp_health s) ->
  (forall f, f ∈ fs -> reported st (l ++ [e]) f) ->
  (sp_phase s = Supervising -> forall n, listener_name (tk_kind t) = Some n -> p = Leaving \/ p = Finished false ->
    exists f, f ∈ sp_failures s ++ fs /\ fa_listener f = n) ->
  sup_inv st (l ++ [e]) (on_task i t' h fs s).
Proof.
  intros [I1 I2 I3 I4 I5 I6 I7 I8 I9] Ht t' Ha Hd Hf Hp.
  assert (Hsub : l ⊆ l ++ [e]) by set_solver.
  assert (Halive : alive (sp_phase s) = true) by (destruct (alive _) eqn:E; [done|]; destruct (I6 eq_refl) as [E0 _]; by rewrite E0 in Ht).
  split; cbn [on_task sp_tasks sp_accept_task sp_health sp_failures sp_shutdown sp_phase].
  - by rewrite (count_replace _ _ _ t), Ha, I1.
  - intros j u [[<- <-]|[Hne Hu]]%lookup_insert_Some; [by apply (I2 i t)|by apply I2].
  - by rewrite map_size_insert_Some.
  - rewrite Hd. done.
  - done.
  - by rewrite Halive.
  - intros f [Hin|Hin]%elem_of_app; [|by apply Hf]. eapply reported_more; eauto.
  - intros Hs j u n [[<- <-]|[Hne Hu]]%lookup_insert_Some Hn Hph.
    + by eapply Hp.
    + destruct (I8 Hs j u n Hu Hn Hph) as (f & Hin & Hfn). exists f. split; [|done]. apply elem_of_app. by left.
  - destruct (sp_phase s) as [|fatal|fatal|[]]; try done; by eapply caused_more.
Qed.
Lemma lease_bounds st l s : sup_inv st l s -> 0 <= rh_active_listeners (sp_health s) <= Z.of_nat (length (st_services st)).
Proof.
  intros Hi. rewrite (si_leases _ _ _ Hi). pose proof (count_nonneg leased (sp_tasks s)). pose proof (count_le leased (sp_tasks s)).
  pose proof (si_size _ _ _ Hi). lia.
Qed.
Lemma leased_pos st l s i t : sup_inv st l s -> sp_tasks s !! i = Some t -> leased t = true -> 1 <= rh_active_listeners (sp_health s).
Proof.
  intros Hi Ht Hl. rewrite (si_leases _ _ _ Hi). pose proof (count_delete leased _ _ _ Ht) as Hc. rewrite Hl in Hc.
  pose proof (count_nonneg leased (delete i (sp_tasks s))). lia.
Qed.
Lemma not_leased_room st l s i t : sup_inv st l s -> sp_tasks s !! i = Some t -> leased t = false ->
  rh_active_listeners (sp_health s) < Z.of_nat (length (st_services st)).
Proof.
  intros Hi Ht Hl. rewrite (si_leases _ _ _ Hi). pose proof (count_delete leased _ _ _ Ht) as Hc. rewrite Hl in Hc.
  pose proof (count_le leased (delete i (sp_tasks s))) as Hle. rewrite map_size_delete_Some in Hle by eauto.
  pose proof (si_size _ _ _ Hi). assert (size (sp_tasks s) <> 0)%nat; [|lia]. intros E%map_size_empty_inv. by rewrite E in Ht.
Qed.
(** Aborting drops the leases that were held. *)
Lemma abort_inv st l s e r : Z.of_nat (length (st_services st)) < 2 ^ 64 -> sup_inv st l s ->
  match r with
  | Err None => SignalFailed ∈ l ++ [e] /\ sp_shutdown s = false
  | Ok _ => caused st (l ++ [e]) None /\ sp_shutdown s = true /\ rh_draining (sp_health s) = true
  | Err (Some f) => caused st (l ++ [e]) (Some f) /\ sp_shutdown s = true /\ rh_draining (sp_health s) = true
  end -> sup_inv st (l ++ [e]) (abort_all r s).
Proof.
  intros Hlen Hi Hr. pose proof (lease_bounds _ _ _ Hi) as Hb. pose proof (si_leases _ _ _ Hi) as Hl.
  destruct (iter_drop (Z.to_nat (count leased (sp_tasks s))) (sp_health s)) as [Ha Hd]; [pose proof (count_nonneg leased (sp_tasks s)); lia..|]. pose proof (count_nonneg leased (sp_tasks s)).
  split; cbn; try done.
  - rewrite Ha, (count_zero leased ∅) by done. lia.
  - rewrite map_size_empty. lia.
  - rewrite Hd. destruct r as [|[]]; naive_solver.
  - destruct r as [|[]]; naive_solver.
  - intros f Hf. eapply reported_more; [|by eapply (si_failures _ _ _ Hi)]. set_solver.
  - destruct r as [|[]]; naive_solver.
Qed.
(** A change of phase, of the accept task or of the failure queue *)
Lemma phase_inv st l s e acc h fs sd p : sup_inv st l s ->
  rh_active_listeners h = rh_active_listeners (sp_health s) ->
  match p with
  | Supervising => rh_draining h = rh_draining (st_health st) /\ sd = false
  | Stopping _ => rh_draining h = true /\ sd = false
  | Draining _ | Exited (Ok _) | Exited (Err (Some _)) => rh_draining h = true /\ sd = true
  | Exited (Err None) => sd = false
  end ->
  (alive p = false -> sp_tasks s = ∅ /\ acc = false) ->
  (forall f, f ∈ fs -> f ∈ sp_failures s) ->
  (p = Supervising -> fs = sp_failures s /\ sp_phase s = Supervising) ->
  match p with
  | Supervising => True
  | Stopping fatal | Draining fatal => caused st (l ++ [e]) fatal
  | Exited (Ok _) => caused st (l ++ [e]) None
  | Exited (Err (Some f)) => caused st (l ++ [e]) (Some f)
  | Exited (Err None) => SignalFailed ∈ l ++ [e]
  end -> sup_inv st (l ++ [e]) (mkSupervisor (sp_tasks s) acc h fs sd p).
Proof.
  intros [I1 I2 I3 I4 I5 I6 I7 I8 I9] Ha Hd He Hf Hs Hc.
  split; cbn [sp_tasks sp_accept_task sp_health sp_failures sp_shutdown sp_phase]; try done.
  - by rewrite Ha.
  - destruct p as [| | |[|[]]]; tauto.
  - destruct p as [| | |[|[]]]; tauto.
  - intros f Hin. eapply reported_more; [|by apply I7, Hf]. set_solver.
  - intros Hp. destruct (Hs Hp) as [-> Hp']. by apply I8.
Qed.
Lemma daemon_step_inv st l s e s' : Z.of_nat (length (st_services st)) < 2 ^ 64 -> sup_inv st l s -> daemon_step s e = Some s' ->
  sup_inv st (l ++ [e]) s'.
Proof.
  intros Hlen Hi Hstep. pose proof (lease_bounds _ _ _ Hi) as Hb. assert (Hsub : l ⊆ l ++ [e]) by set_solver.
  assert (Hdrop : forall i t, sp_tasks s !! i = Some t -> leased t = true ->
    wrap 64 (rh_active_listeners (sp_health s) - 1) = rh_active_listeners (sp_health s) - 1).
  { intros i t Ht Hl. apply wrap_fits. pose proof (leased_pos _ _ _ _ _ Hi Ht Hl). unfold fits. lia. }
  destruct e; cbn [daemon_step] in Hstep.
  - destruct (sp_tasks s !! i) as [t|] eqn:Ht; [|done]. cbn [mbind option_bind] in Hstep. destruct (tk_phase t) eqn:Hp; try done.
    injection Hstep as <-. assert (Hl : leased t = false) by (unfold leased; rewrite Hp; by rewrite andb_false_r).
    eapply task_step_inv; [done|done|..]; [| by destruct (is_listener _) |by intros ? ?%elem_of_nil|naive_solver].
    rewrite Hl. unfold leased. cbn [tk_kind tk_phase]. destruct (is_listener (tk_kind t)); cbn [andb]; [|lia].
    cbn. rewrite wrap_fits; [lia|]. pose proof (not_leased_room _ _ _ _ _ Hi Ht Hl). unfold fits. lia.
  - destruct (sp_tasks s !! i) as [t|] eqn:Ht; [|done]. cbn [mbind option_bind] in Hstep. destruct (tk_phase t) eqn:Hp; try done.
    injection Hstep as <-. eapply task_step_inv; [done|done|..]; [|done| |].
    + unfold leased. cbn. rewrite Hp. destruct (is_listener _); cbn; lia.
    + intros f Hf. destruct (listener_name (tk_kind t)) as [n|] eqn:Hn; [|by apply elem_of_nil in Hf].
      destruct (sp_shutdown s); [by apply elem_of_nil in Hf|]. apply list_elem_of_singleton in Hf as ->.
      exists i, (tk_kind t). split; [by apply (si_tasks _ _ _ Hi)|]. split; [done|]. cbn. set_solver.
    + intros Hs n Hn _. rewrite Hn. pose proof (si_shutdown _ _ _ Hi) as Hsd. rewrite Hs in Hsd. rewrite Hsd.
      exists (mkFailure n error). split; [apply elem_of_app; right; by left|done].
  - destruct (sp_tasks s !! i) as [t|] eqn:Ht; [|done]. cbn [mbind option_bind] in Hstep. destruct (tk_phase t) eqn:Hp; try done.
    injection Hstep as <-. eapply task_step_inv; [done|done|..]; [|by destruct (is_listener _)|by intros ? ?%elem_of_nil|].
    + assert (Hl : leased t = is_listener (tk_kind t)) by (unfold leased; rewrite Hp; by rewrite andb_true_r).
      rewrite Hl. unfold leased. cbn [tk_kind tk_phase]. rewrite andb_false_r. destruct (is_listener (tk_kind t)) eqn:El; [|lia].
      cbn. rewrite (Hdrop i t) by done. lia.
    + intros Hs n Hn _. destruct (si_pending _ _ _ Hi Hs i t n Ht Hn) as (f & Hf & Hfn); [by left|]. exists f. by rewrite app_nil_r.
  - destruct (sp_tasks s !! i) as [t|] eqn:Ht; [|done]. cbn [mbind option_bind] in Hstep. destruct (tk_phase t) eqn:Hp; try done.
    injection Hstep as <-. eapply task_step_inv; [done|done|..]; [|by destruct (is_listener _)|by intros ? ?%elem_of_nil|naive_solver].
    assert (Hl : leased t = is_listener (tk_kind t)) by (unfold leased; rewrite Hp; by rewrite andb_true_r).
    rewrite Hl. unfold leased. cbn [tk_kind tk_phase]. rewrite andb_false_r. destruct (is_listener (tk_kind t)) eqn:El; [|lia].
    cbn. rewrite (Hdrop i t) by done. lia.
  - destruct (sp_accept_task s) eqn:Ea; [|done]. injection Hstep as <-.
    assert (Halive : alive (sp_phase s) = true) by (destruct (alive _) eqn:E; [done|]; destruct (si_exited _ _ _ Hi E); congruence).
    pose proof (si_health _ _ _ Hi) as Hh. pose proof (si_shutdown _ _ _ Hi) as Hsd. pose proof (si_cause _ _ _ Hi) as Hc.
    apply phase_inv; try done; [destruct (sp_phase s) as [| | |[|[]]]; try done; naive_solver|by rewrite Halive|].
    destruct (sp_phase s) as [| | |[|[]]]; try done; by eapply caused_more.
  - destruct (sp_phase s) eqn:Hp; try done. injection Hstep as <-. pose proof (si_shutdown _ _ _ Hi) as Hsd. rewrite Hp in Hsd.
    apply phase_inv; try done. cbn. set_solver.
  - destruct (sp_phase s) eqn:Hp; try done. injection Hstep as <-. pose proof (si_shutdown _ _ _ Hi) as Hsd. rewrite Hp in Hsd.
    apply abort_inv; [done..|]. split; [set_solver|done].
  - destruct (sp_phase s) eqn:Hp; try done. destruct (sp_failures s) as [|f rest] eqn:Hf; [done|]. injection Hstep as <-.
    pose proof (si_shutdown _ _ _ Hi) as Hsd. rewrite Hp in Hsd.
    apply phase_inv; try done; [intros g Hg; rewrite Hf; by right|]. split; [set_solver|].
    eapply reported_more; [done|]. apply (si_failures _ _ _ Hi). rewrite Hf. by left.
  - destruct (sp_phase s) eqn:Hp; try done. injection Hstep as <-. pose proof (si_health _ _ _ Hi) as Hh. pose proof (si_cause _ _ _ Hi) as Hc.
    rewrite Hp in Hh, Hc. apply phase_inv; try done. by eapply caused_more.
  - destruct (sp_phase s) eqn:Hp; try done. destruct (sp_tasks s !! i) as [t|] eqn:Ht; [|done]. cbn in Hstep. destruct (tk_phase t) eqn:Hph; try done.
    injection Hstep as <-. destruct Hi as [I1 I2 I3 I4 I5 I6 I7 I8 I9]. rewrite Hp in I4, I5, I9.
    split; cbn [sp_tasks sp_accept_task sp_health sp_failures sp_shutdown sp_phase]; try done.
    + rewrite (count_delete _ _ _ _ Ht), I1. unfold leased. rewrite Hph, andb_false_r. lia.
    + intros j u [_ Hu]%lookup_delete_Some. by apply I2.
    + rewrite map_size_delete_Some by eauto. lia.
    + intros f Hf. eapply reported_more; eauto.
    + by eapply caused_more.
  - destruct (sp_phase s) eqn:Hp; try done. destruct (no_tasks _) eqn:Hn; [|done]. destruct (sp_accept_task s) eqn:Ha; [done|]. injection Hstep as <-.
    apply bool_decide_eq_true in Hn. pose proof (si_health _ _ _ Hi) as Hh. pose proof (si_cause _ _ _ Hi) as Hc. pose proof (si_shutdown _ _ _ Hi) as Hsd.
    rewrite Hp in Hh, Hc, Hsd. apply (caused_more _ _ (l ++ [Drained])) in Hc; [|done]. unfold to_phase. apply phase_inv; try done; by destruct fatal.
  - destruct (sp_phase s) eqn:Hp; try done. injection Hstep as <-.
    pose proof (si_health _ _ _ Hi) as Hh. pose proof (si_cause _ _ _ Hi) as Hc. pose proof (si_shutdown _ _ _ Hi) as Hsd. rewrite Hp in Hh, Hc, Hsd.
    apply abort_inv; [done..|]. apply (caused_more _ _ (l ++ [GraceElapsed])) in Hc; [|done]. by destruct fatal.
Qed.
Lemma daemon_run_inv st pre l s s' : Z.of_nat (length (st_services st)) < 2 ^ 64 -> sup_inv st pre s -> daemon_run s l = Some s' ->
  sup_inv st (pre ++ l) s'.
Proof.
  intros Hlen. revert pre s; induction l as [|e l IH]; intros pre s Hi Hr; cbn in Hr; [injection Hr as <-; by rewrite app_nil_r|].
  destruct (daemon_step s e) as [s1|] eqn:E; [|done]. replace (pre ++ e :: l) with ((pre ++ [e]) ++ l) by (by rewrite <-app_assoc). apply (IH _ s1); [|done]. by eapply daemon_step_inv.
Qed.

(** A drain needs no deadline when every task runs to its end. *)
Definition finish (i : Z) (p : TaskPhase) : list DaemonEvent :=
  match p with
  | Spawned => [TaskOnline i; TaskReturned i false; LeaseDropped i; Joined i]
  | Online => [TaskReturned i false; LeaseDropped i; Joined i]
  | Leaving => [LeaseDropped i; Joined i]
  | Finished _ => [Joined i]
  end.
Lemma daemon_run_app s l l' : daemon_run s (l ++ l') = (s1 ← daemon_run s l; daemon_run s1 l').
Proof. revert s; induction l as [|e l IH]; intros s; [done|]. cbn. destruct (daemon_step s e); cbn; [apply IH|done]. Qed.
Lemma finish_run s i t fatal : sp_phase s = Draining fatal -> sp_tasks s !! i = Some t -> exists s',
  daemon_run s (finish i (tk_phase t)) = Some s' /\ sp_phase s' = Draining fatal /\ sp_tasks s' = delete i (sp_tasks s) /\
  sp_accept_task s' = sp_accept_task s.
Proof.
  intros Hp Ht. destruct t as [k p]. destruct p; cbn [tk_phase finish]; cbn [daemon_run daemon_step]; rewrite Ht; cbn [mbind option_bind option_fmap fmap option_map];
    repeat (cbn [tk_phase tk_kind on_task daemon_run daemon_step sp_tasks sp_phase mbind option_bind]; rewrite ?lookup_insert_eq; cbn [mbind option_bind]);
    cbn [fmap option_fmap option_map tk_phase]; rewrite ?Hp; eexists; (split; [done|]); cbn; rewrite ?insert_insert_eq, ?delete_insert_eq; done.
Qed.
Lemma drain_exits n s fatal : sp_phase s = Draining fatal -> size (sp_tasks s) = n ->
  exists l s', GraceElapsed ∉ l /\ daemon_run s l = Some s' /\ sp_phase s' = Exited (verdict fatal).
Proof.
  revert s; induction n as [|n IH]; intros s Hp Hn.
  - apply map_size_empty_inv in Hn. destruct (sp_accept_task s) eqn:Ha.
    + eexists [AcceptTaskEnded; Drained], _. split; [set_solver|]. cbn [daemon_run daemon_step]. rewrite Ha. cbn [mbind option_bind daemon_step sp_phase sp_tasks sp_accept_task].
      rewrite Hp, Hn. cbn. done.
    + eexists [Drained], _. split; [set_solver|]. cbn [daemon_run daemon_step]. rewrite Ha, Hp, Hn. cbn. done.
  - destruct (map_choose (sp_tasks s)) as (i & t & Ht); [intros E; by rewrite E, map_size_empty in Hn|].
    destruct (finish_run s i t fatal Hp Ht) as (s1 & Hr & Hp1 & Ht1 & _).
    destruct (IH s1 Hp1) as (l & s' & Hg & Hl & He); [rewrite Ht1, map_size_delete_Some by eauto; lia|].
    exists (finish i (tk_phase t) ++ l), s'. split.
    + intros [Hin|Hin]%elem_of_app; [|done]. destruct t as [k []]; cbn in Hin; set_solver.
    + split; [|done]. by rewrite daemon_run_app, Hr.
Qed.

End Supervision.

(** ** A node *)

Module DaemonDemo.
Export SyncDemo.
#[export] Existing Instance ConfigDemo.tls.
(** A gateway, a SOCKS5 proxy, a TUIC endpoint and a reverse-hop edge; the
    cached snapshot is served from the start. *)
Definition config : Config :=
  mkConfig (lit "n") (mkControlPlane (lit "https://cp.example/s") (lit "t") 30 (lit "/c")) (mkHealthConfig true (lit "127.0.0.1:9090") 90) 30
    [ConfigDemo.gateway; ConfigDemo.proxy] default_mqtt_config LogConfig_default AccessLogConfig_default ConfigDemo.reverse []
    [ConfigDemo.tuic] None ConfigDemo.dns None.
Definition machine (c : Config) (tcp : str -> bool) : Machine :=
  mkMachine (Some []) (fun _ => Some c) ConfigDemo.env (fun _ => true) (fun _ => None) (fun _ _ => mkAttempt false None None None None) true
    {[ lit "/c" := lit "v7" ]} true place 3 (1800000000 * 10 ^ 9) (fun _ => true) tcp (fun _ => true) (fun _ => true).
Definition up : result BootError Started * list BootEvent := startup (machine config (fun _ => true)) [].
Example started_log : map (fun e => match e with TcpServing n | TuicServing n => Some n | _ => None end) (snd up) =
  replicate 9 None ++ [Some (lit "edge-sni"); Some (lit "socks"); Some (lit "tuic")].
Proof. vm_compute. reflexivity. Qed.
(** One address that is taken is fatal, and nothing has served. *)
Definition refusal (m : Machine) : option BootError * list BootEvent :=
  (match fst (startup m []) with Err e => Some e | Ok _ => None end, snd (startup m [])).
Example address_taken : refusal (machine config (fun a => negb (str_eqb a (lit "127.0.0.1:1080")))) =
  (Some (ListenerBind (lit "socks") BindFailed), [ResolverReady true; TcpBound (lit "edge-sni")]).
Proof. vm_compute. reflexivity. Qed.
Example no_listeners : fst (refusal (machine (mkConfig (lit "n") (cf_control_plane config) HealthConfig_default 30 [] default_mqtt_config
  LogConfig_default AccessLogConfig_default ReverseHopConfig_default [] [] None DnsConfig_default None) (fun _ => true))) = Some NoListeners.
Proof. vm_compute. reflexivity. Qed.
Definition state : option Started := match fst up with Ok st => Some st | Err _ => None end.
(** The SOCKS5 listener fails while the node serves; the others drain. *)
Definition events : list DaemonEvent :=
  [TaskOnline 1; TaskOnline 2; TaskOnline 3; TaskReturned 2 true; LeaseDropped 2; FailureTaken; ShutdownBroadcast; TaskReturned 1 false;
   LeaseDropped 1; Joined 1; GraceElapsed].
Definition stopped : option Supervisor := st ← state; daemon_run (supervise st) events.
Example listener_failure : sp_phase <$> stopped = Some (Exited (Err (Some (mkFailure (lit "socks") true)))).
Proof. vm_compute. reflexivity. Qed.
Example gauge : (fun s => (rh_active_listeners (sp_health s), rh_draining (sp_health s))) <$> stopped = Some (0, true).
Proof. vm_compute. reflexivity. Qed.
End DaemonDemo.

Section DaemonWitness.
Import DaemonDemo.
End DaemonWitness.
