(* ===== verification/EgressDoctor.v ===== *)
(** * EgressDoctor: the egress diagnostic of a hop (src/src/egress_diagnostic.rs)

    One probe of one target: the choice of the target, the checks of DNS, route,
    TCP, TLS, HTTP and an optional traceroute, the verdict with the stage that
    failed first, and the text report. The network's answers, the commands'
    outputs, the clock, the url crate and floating-point texts are inputs. *)

From Stdlib Require Import ZArith Lia String.
From stdpp Require Import prelude strings list gmap.
From S2P Require Import Sniff.
From S2P Require Import Prelude RustStr Net NetProps RustFmt Util ConnectorConfig Health.

Definition DEFAULT_PORT : Z := 443.
Definition HTTP_HEAD_CAP : nat := Z.to_nat (32 * 1024).

Inductive TargetProtocol := Http | Https.
Inductive TargetSource := RandomPreset | NamedPreset | Manual.
Inductive OverallResult := AllOk | Degraded | Failed.
Inductive CheckStatus := COk | CFailed | CSkipped.
#[global] Instance TargetProtocol_eq_dec : EqDecision TargetProtocol.
Proof. solve_decision. Defined.
#[global] Instance CheckStatus_eq_dec : EqDecision CheckStatus.
Proof. solve_decision. Defined.

Record Target := mkTarget { tg_name : str; tg_host : str; tg_port : Z; tg_protocol : TargetProtocol; tg_source : TargetSource }.
(** [Target::address], [Target::host_header] *)
Definition host_port (t : Target) : str := tg_host t ++ [colon] ++ fmt_dec (tg_port t).
Definition host_header (t : Target) : str :=
  match tg_protocol t with
  | Http => if tg_port t =? 80 then tg_host t else host_port t
  | Https => if tg_port t =? 443 then tg_host t else host_port t
  end.

(** ** The target *)

Inductive TargetError := BadUrl | UnsupportedScheme | UrlWithoutHost | HostRequired.
Definition PRESET_TARGETS : list (str * str) :=
  [(lit "google", lit "www.google.com"); (lit "youtube", lit "www.youtube.com"); (lit "openai", lit "api.openai.com");
   (lit "cloudflare", lit "www.cloudflare.com"); (lit "github", lit "github.com")].
Definition preset_names : list str := map fst PRESET_TARGETS.
Definition preset (source : TargetSource) (p : str * str) : Target := mkTarget (fst p) (snd p) 443 Https source.
Definition protocol_for_port (port : Z) : TargetProtocol := if port =? 80 then Http else Https.
(** [trim_matches(['[', ']'])] and the like *)
Fixpoint strip_set (cs : list Z) (s : str) : str :=
  match s with c :: r => if bool_decide (c ∈ cs) then strip_set cs r else s | [] => [] end.
Definition trim_set_matches (cs : list Z) (s : str) : str := rev (strip_set cs (rev (strip_set cs s))).
(** [Url::host_str]: an IPv6 host in brackets *)
Definition host_str (h : UrlHost) : str :=
  match h with UrlDomain d => d | UrlIpv4 a => display_v4 a | UrlIpv6 a => [91] ++ display_v6 a ++ [93] end.
Definition url_target {UC : UrlCrate} (value : str) : result TargetError Target :=
  url ← ok_or (url_parse value) BadUrl;
  protocol ← (if str_eqb (scheme url) (lit "http") then Ok Http
              else if str_eqb (scheme url) (lit "https") then Ok Https else Err UnsupportedScheme);
  h ← ok_or (url_host url) UrlWithoutHost;
  let port := default (match protocol with Http => 80 | Https => DEFAULT_PORT end) (port_or_known_default url) in
  Ok (mkTarget (host_str h) (host_str h) port protocol Manual).
(** [parse_target] *)
Definition parse_target {UC : UrlCrate} (value : str) : result TargetError Target :=
  let normalized := to_ascii_lowercase (trim value) in
  let key := if str_eqb normalized (lit "cloudfalre") then lit "cloudflare" else normalized in
  match List.find (fun p => str_eqb (fst p) key) PRESET_TARGETS with
  | Some p => Ok (preset NamedPreset p)
  | None =>
      if contains (lit "://") value then url_target value
      else match split_host_port value with
           | Some (h, port) =>
               ensure (negb (is_empty (trim h))) HostRequired ;;
               Ok (mkTarget (trim h) (trim_set_matches [91; 93] (trim h)) port (protocol_for_port port) Manual)
           | None => Ok (mkTarget value value DEFAULT_PORT Https Manual)
           end
  end.
(** [random_index] on the clock's nanoseconds *)
Definition random_index (nanos : Z) (len : nat) : nat := Z.to_nat (wrap 64 nanos mod Z.of_nat len).
(** [select_target] *)
Definition select_target {UC : UrlCrate} (nanos : Z) (input : option str) : result TargetError Target :=
  match s ← input; if is_empty (trim s) then None else Some (trim s) with
  | Some value => parse_target value
  | None => Ok (preset RandomPreset (nth (random_index nanos (length PRESET_TARGETS)) PRESET_TARGETS ([], [])))
  end.

(** ** The checks *)

(** [text.lines()] *)
Definition strip_cr (l : str) : str := default l (strip_suffix [13] l).
Definition lines (s : str) : list str :=
  match rev (split 10 s) with
  | last :: init => map strip_cr (rev init) ++ (if is_empty last then [] else [last])
  | [] => []
  end.

(** What one network call gives: a result, an error's text, or the time limit. *)
Inductive Timed (A : Type) := Done (a : A) | Error (message : str) | TimedOut.
Arguments Done {A}. Arguments Error {A}. Arguments TimedOut {A}.
(** A command's end: not installed, not started, exited with an error, or its
    output and error output. *)
Inductive CommandEnd := NotFound | NotStarted (message : str) | Exited (status : str) (stderr : list Z) | Succeeded (stdout stderr : list Z).
Record TlsInfo := mkTlsInfo { ti_version : option str; ti_alpn : option (list Z); ti_certs : option Z }.
(** The network and the node, as one probe meets them; each check connects
    anew. The texts of the time limit, of an error, of a refused server name
    and of a quoted string are theirs. *)
Record Probe := mkProbe {
  pr_lookup : Timed (list SocketAddr);
  pr_local : option SocketAddr; pr_route : option CommandEnd;
  pr_tcp : Timed (option str * option str);
  pr_tls_connect : Timed unit; pr_handshake : Timed TlsInfo;
  pr_http_connect : Timed unit; pr_http_handshake : Timed unit; pr_http_write : option str; pr_http_reply : Timed (list Z);
  pr_server_name : str -> option str;
  pr_traceroute : option CommandEnd; pr_tracepath : option CommandEnd;
  pr_ms : nat -> Z; pr_limit : str; pr_debug : str -> str; pr_started : str
}.
Definition timed_out (what : str) (p : Probe) : str := what ++ lit " timed out after " ++ pr_limit p.

Record DnsCheck := mkDns { dk_status : CheckStatus; dk_ms : Z; dk_ips : list IpAddr; dk_message : option str }.
Fixpoint distinct (seen : list IpAddr) (l : list SocketAddr) : list IpAddr :=
  match l with
  | [] => []
  | a :: l => if bool_decide (ip_of a ∈ seen) then distinct seen l else ip_of a :: distinct (ip_of a :: seen) l
  end.
(** [check_dns] *)
Definition check_dns (p : Probe) : DnsCheck :=
  match pr_lookup p with
  | Done addrs =>
      let ips := distinct [] addrs in
      if is_empty ips then mkDns CFailed (pr_ms p 0) ips (Some (lit "system resolver returned no addresses"))
      else mkDns COk (pr_ms p 0) ips None
  | Error m => mkDns CFailed (pr_ms p 0) [] (Some m)
  | TimedOut => mkDns CFailed (pr_ms p 0) [] (Some (timed_out (lit "DNS lookup") p))
  end.
(** [preferred_ip] *)
Definition is_v4 (a : IpAddr) : bool := match a with V4 _ => true | V6 _ => false end.
Definition preferred_ip (ips : list IpAddr) : option IpAddr :=
  match List.find is_v4 ips with Some a => Some a | None => head ips end.

Record ParsedRoute := mkParsedRoute { pt_tool : option str; pt_gateway : option str; pt_interface : option str }.
Fixpoint route_tokens (tokens : list str) (gateway interface : option str) : option str * option str :=
  match tokens with
  | a :: ((b :: _) as rest) =>
      if str_eqb a (lit "via") || str_eqb a (lit "gateway:") then route_tokens rest (Some b) interface
      else if str_eqb a (lit "dev") || str_eqb a (lit "interface:") then route_tokens rest gateway (Some b)
      else route_tokens rest gateway interface
  | _ => (gateway, interface)
  end.
(** [parse_route_output] *)
Definition parse_route_output (output : str) : ParsedRoute :=
  let first := match split_once colon output with Some (a, _) => a | None => output end in
  let body := match split_once colon output with Some (_, b) => b | None => output end in
  let '(gateway, interface) := route_tokens (split_whitespace body) None None in
  mkParsedRoute (if str_eqb first output then None else Some first) gateway interface.
Record RouteCheck := mkRoute {
  ro_status : CheckStatus; ro_ms : Z; ro_destination : option IpAddr; ro_local : option str; ro_gateway : option str;
  ro_interface : option str; ro_tool : option str; ro_raw : option str; ro_message : option str
}.
(** [run_route_command]; [tool] is the platform's command. *)
Definition run_route_command (tool : str) (c : option CommandEnd) : option (result str str) :=
  match c with
  | None => None
  | Some NotFound => None
  | Some (NotStarted m) => Some (Err m)
  | Some (Exited status stderr) => Some (Err (tool ++ lit " exited with " ++ status ++ lit ": " ++ trim (from_utf8_lossy stderr)))
  | Some (Succeeded stdout _) => Some (Ok (tool ++ lit ": " ++ trim (from_utf8_lossy stdout)))
  end.
Definition non_empty_text (o : option str) : option str := s ← o; if is_empty s then None else Some s.
(** [check_route] *)
Definition check_route (tool : str) (destination : option IpAddr) (p : Probe) : RouteCheck :=
  match destination with
  | None => mkRoute CSkipped 0 None None None None None None (Some (lit "route skipped because DNS produced no destination IP"))
  | Some ip =>
      let '(status, t, raw, gateway, interface, message) :=
        match run_route_command tool (pr_route p) with
        | Some (Ok output) => let r := parse_route_output output in (COk, pt_tool r, Some output, pt_gateway r, pt_interface r, None)
        | Some (Err e) => (CFailed, None, None, None, None, Some e)
        | None => (if pr_local p then COk else CSkipped, None, None, None, None,
                   Some (lit "route command not available; used UDP local-address inference only"))
        end in
      mkRoute status (pr_ms p 1) (Some ip) (display_socket <$> pr_local p) (non_empty_text gateway) (non_empty_text interface) t raw message
  end.

Record TcpCheck := mkTcp { tc_status : CheckStatus; tc_ms : Z; tc_remote : str; tc_local : option str; tc_peer : option str; tc_message : option str }.
(** [connect_tcp]'s error *)
Definition failure_text {A} (what : str) (p : Probe) (r : Timed A) : option str :=
  match r with Done _ => None | Error m => Some m | TimedOut => Some (timed_out what p) end.
(** [check_tcp] *)
Definition check_tcp (t : Target) (p : Probe) : TcpCheck :=
  match pr_tcp p with
  | Done (local, peer) => mkTcp COk (pr_ms p 2) (host_port t) local peer None
  | r => mkTcp CFailed (pr_ms p 2) (host_port t) None None (failure_text (lit "TCP connect") p r)
  end.

Record TlsCheck := mkTls {
  tk_status : CheckStatus; tk_ms : Z; tk_sni : str; tk_version : option str; tk_alpn : option str; tk_certs : option Z; tk_message : option str
}.
(** [check_tls] *)
Definition check_tls (t : Target) (p : Probe) : TlsCheck :=
  let failed m := mkTls CFailed (pr_ms p 3) (tg_host t) None None None m in
  match tg_protocol t with
  | Http => mkTls CSkipped (pr_ms p 3) (tg_host t) None None None (Some (lit "TLS skipped because target protocol is HTTP"))
  | Https =>
      match pr_server_name p (tg_host t) with
      | Some e => failed (Some (lit "invalid TLS server name: " ++ e))
      | None =>
          match pr_tls_connect p with
          | Done _ =>
              match pr_handshake p with
              | Done i => mkTls COk (pr_ms p 3) (tg_host t) (ti_version i) (from_utf8_lossy <$> ti_alpn i) (ti_certs i) None
              | r => failed (failure_text (lit "TLS handshake") p r)
              end
          | r => failed (failure_text (lit "TCP connect") p r)
          end
      end
  end.

Record ParsedHttpHead := mkHead { ph_code : option Z; ph_status_line : option str; ph_server : option str; ph_location : option str }.
Definition head_field (acc : option str * option str) (line : str) : option str * option str :=
  match split_once colon line with
  | Some (name, value) =>
      if eq_ignore_ascii_case name (lit "server") then (Some (trim value), snd acc)
      else if eq_ignore_ascii_case name (lit "location") then (fst acc, Some (trim value))
      else acc
  | None => acc
  end.
(** [parse_http_head] *)
Definition parse_http_head (head : list Z) : ParsedHttpHead :=
  match lines (from_utf8_lossy head) with
  | [] => mkHead None None None None
  | status :: rest =>
      let '(server, location) := foldl head_field (None, None) rest in
      mkHead (code ← split_whitespace status !! 1%nat; from_str_radix 10 16 code) (Some status) server location
  end.
(** [write_head_request] *)
Definition head_request (t : Target) : str :=
  lit "HEAD / HTTP/1.1" ++ [13; 10] ++ lit "Host: " ++ host_header t ++ [13; 10] ++ lit "User-Agent: rove-hop-doctor/" ++ CARGO_PKG_VERSION ++
  [13; 10] ++ lit "Connection: close" ++ [13; 10; 13; 10].
(** [http_head_over_tls], [http_head_plain]: what was sent, and the head read;
    [pr_http_reply] is what [read_http_head] returned. *)
Definition http_head (t : Target) (p : Probe) : option str * result (option str) (list Z) :=
  let finish :=
    match pr_http_write p with
    | Some e => (Some (head_request t), Err (Some e))
    | None =>
        match pr_http_reply p with
        | Done head => (Some (head_request t), Ok head)
        | r => (Some (head_request t), Err (failure_text (lit "HTTP read") p r))
        end
    end in
  match pr_http_connect p with
  | Done _ =>
      match tg_protocol t with
      | Http => finish
      | Https =>
          match pr_server_name p (tg_host t) with
          | Some e => (None, Err (Some (lit "invalid TLS server name " ++ pr_debug p (tg_host t))))
          | None => match pr_http_handshake p with
                    | Done _ => finish
                    | r => (None, Err (failure_text (lit "TLS handshake") p r))
                    end
          end
      end
  | r => (None, Err (failure_text (lit "TCP connect") p r))
  end.
Record HttpCheck := mkHttp {
  hk_status : CheckStatus; hk_ms : Z; hk_code : option Z; hk_status_line : option str; hk_server : option str; hk_location : option str;
  hk_message : option str
}.
(** [check_http] *)
Definition check_http (t : Target) (p : Probe) : HttpCheck :=
  match snd (http_head t p) with
  | Ok head =>
      let parsed := parse_http_head head in
      mkHttp (if ph_code parsed then COk else CFailed) (pr_ms p 4) (ph_code parsed) (ph_status_line parsed) (ph_server parsed) (ph_location parsed) None
  | Err m => mkHttp CFailed (pr_ms p 4) None None None None m
  end.

(** ** The trace *)

(** [f64]'s parser and its three-digit printer *)
Class FloatText := { F64 : Type; parse_f64 : str -> option F64; fmt_3 : F64 -> str }.

Section Trace.
Context {FT : FloatText}.

Record TraceHop := mkHop { th_index : Z; th_ip : option IpAddr; th_host : option str; th_rtt : option F64; th_timeout : bool; th_raw : str }.
(** [parse_ip_token] *)
Definition parse_ip_token (token : str) : option IpAddr := parse_ip_addr (trim_set_matches [40; 41; 91; 93; 44] token).
Definition is_host_token (part : str) : bool :=
  negb (contains [42] part) && negb (ends_with (lit "ms") part) && negb (bool_decide (is_Some (parse_ip_token part))) &&
  match parse_f64 part with None => true | Some _ => false end.
Fixpoint find_rtt (rest : list str) : option F64 :=
  match rest with
  | a :: ((b :: _) as r) =>
      if str_eqb b (lit "ms") then match parse_f64 a with Some v => Some v | None => find_rtt r end else find_rtt r
  | _ => None
  end.
(** [parse_trace_line] *)
Definition parse_trace_line (line : str) : option TraceHop :=
  let trimmed := trim line in
  match split_whitespace trimmed with
  | [] => None
  | first :: rest =>
      index ← from_str_radix 10 8 first;
      Some (mkHop index (head (omap parse_ip_token rest)) (trim_set_matches [40; 41] <$> List.find is_host_token rest) (find_rtt rest)
              (existsb (contains [42]) rest) trimmed)
  end.
(** [parse_trace_hops] *)
Definition parse_trace_hops (raw : str) : list TraceHop := omap parse_trace_line (lines raw).

Record TraceCheck := mkTrace {
  tr_status : CheckStatus; tr_ms : Z; tr_tool : option str; tr_max_hops : Z; tr_hops : list TraceHop; tr_raw : option str; tr_message : option str
}.
Fixpoint first_command (l : list (str * option CommandEnd)) : option (result str (str * str)) :=
  match l with
  | [] => None
  | (tool, None) :: _ => None
  | (tool, Some NotFound) :: l => first_command l
  | (tool, Some (NotStarted m)) :: _ => Some (Err m)
  | (tool, Some (Exited status stderr)) :: _ => Some (Err (tool ++ lit " exited with " ++ status ++ lit ": " ++ trim (from_utf8_lossy stderr)))
  | (tool, Some (Succeeded stdout stderr)) :: _ =>
      let err := trim (from_utf8_lossy stderr) in
      Some (Ok (tool, trim (from_utf8_lossy stdout ++ err)))
  end.
(** [trace_command]; a task that panics is [None]. *)
Definition trace_command (p : Probe) : option (result str (str * str)) :=
  first_command [(lit "traceroute", pr_traceroute p); (lit "tracepath", pr_tracepath p)].
(** The arguments of the two commands *)
Definition clamp_secs (ms : Z) : Z := Z.max 1 (Z.min 30 (ms / 1000)).
Definition traceroute_args (t : Target) (limit_ms max_hops : Z) : list str :=
  [lit "-m"; fmt_dec max_hops; lit "-w"; fmt_dec (clamp_secs limit_ms); lit "-q"; lit "1"; tg_host t].
Definition tracepath_args (t : Target) (max_hops : Z) : list str := [lit "-m"; fmt_dec max_hops; tg_host t].
(** [check_trace] *)
Definition check_trace (max_hops : Z) (p : Probe) : TraceCheck :=
  match trace_command p with
  | Some (Ok (tool, raw)) =>
      let hops := parse_trace_hops raw in
      mkTrace (if is_empty hops then CFailed else COk) (pr_ms p 5) (Some tool) max_hops hops (Some raw) None
  | Some (Err e) => mkTrace CFailed (pr_ms p 5) None max_hops [] None (Some e)
  | None => mkTrace CSkipped (pr_ms p 5) None max_hops [] None (Some (lit "no traceroute or tracepath command found"))
  end.

(** ** The verdict *)

Definition status_is (a b : CheckStatus) : bool := bool_decide (a = b).
(** [overall_result] *)
Definition overall_result (dns route tcp tls http trace : CheckStatus) (trace_requested : bool) : OverallResult :=
  if status_is dns CFailed || status_is tcp CFailed || status_is tls CFailed || status_is http CFailed then Failed
  else if negb (status_is route COk) || (trace_requested && negb (status_is trace COk)) then Degraded
  else AllOk.
(** [first_failed_stage] *)
Definition first_failed_stage (dns tcp tls http : CheckStatus) : option str :=
  fst <$> List.find (fun s => status_is (snd s) CFailed) [(lit "DNS", dns); (lit "TCP", tcp); (lit "TLS", tls); (lit "HTTP", http)].
(** [summarize] *)
Definition summarize (result : OverallResult) (route trace : CheckStatus) (trace_requested : bool) (failed_stage : option str) (tls_skipped : bool) : str :=
  match result with
  | AllOk =>
      let note := if tls_skipped then lit "; TLS was skipped for HTTP target" else [] in
      if trace_requested then
        if tls_skipped then lit "DNS, route, TCP, HTTP, and trace completed successfully" ++ note
        else lit "DNS, route, TCP, TLS, HTTP, and trace completed successfully"
      else
        if tls_skipped then lit "DNS, route, TCP, and HTTP completed successfully" ++ note ++ lit "; trace was not requested"
        else lit "DNS, route, TCP, TLS, and HTTP completed successfully; trace was not requested"
  | Degraded =>
      lit "egress is usable but diagnostic evidence is incomplete: " ++
      join (lit ", ") ((if status_is route COk then [] else [lit "route evidence is incomplete"]) ++
                       (if trace_requested && negb (status_is trace COk) then [lit "trace did not complete"] else []))
  | Failed => lit "egress failed at " ++ default (lit "unknown") failed_stage
  end.

Record DoctorConfig := mkDoctor { dc_target : Target; dc_trace : bool; dc_timeout_ms : Z; dc_max_hops : Z; dc_node_id : str }.
Record EgressReport := mkReport {
  rp_node_id : str; rp_result : OverallResult; rp_started_at : str; rp_target : Target; rp_timeout_ms : Z; rp_dns : DnsCheck; rp_route : RouteCheck;
  rp_tcp : TcpCheck; rp_tls : TlsCheck; rp_http : HttpCheck; rp_trace : TraceCheck; rp_summary : str
}.
(** [run] *)
Definition run (tool : str) (c : DoctorConfig) (p : Probe) : EgressReport :=
  let t := dc_target c in
  let dns := check_dns p in
  let route := check_route tool (preferred_ip (dk_ips dns)) p in
  let tcp := check_tcp t p in
  let tls := check_tls t p in
  let http := check_http t p in
  let trace := if dc_trace c then check_trace (dc_max_hops c) p
               else mkTrace CSkipped 0 None (dc_max_hops c) [] None (Some (lit "trace disabled; pass --trace to collect hop nodes")) in
  let result := overall_result (dk_status dns) (ro_status route) (tc_status tcp) (tk_status tls) (hk_status http) (tr_status trace) (dc_trace c) in
  let stage := first_failed_stage (dk_status dns) (tc_status tcp) (tk_status tls) (hk_status http) in
  mkReport (dc_node_id c) result (pr_started p) t (dc_timeout_ms c) dns route tcp tls http trace
    (summarize result (ro_status route) (tr_status trace) (dc_trace c) stage (status_is (tk_status tls) CSkipped)).

(** ** The text *)

Definition status_name (s : CheckStatus) : str := match s with COk => lit "ok" | CFailed => lit "failed" | CSkipped => lit "skipped" end.
Definition result_name (r : OverallResult) : str := match r with AllOk => lit "ok" | Degraded => lit "degraded" | Failed => lit "failed" end.
Definition target_source_name (s : TargetSource) : str :=
  match s with RandomPreset => lit "random_preset" | NamedPreset => lit "named_preset" | Manual => lit "manual" end.
Definition protocol_name (p : TargetProtocol) : str := match p with Http => lit "http" | Https => lit "https" end.
Definition line_ (name value : str) : str := name ++ lit ": " ++ value ++ [10].
(** [append_field], [append_message], [append_raw] *)
Definition append_field (name : str) (value : option str) : str := match value with Some v => line_ name v | None => [] end.
Definition append_message (m : option str) : str := append_field (lit "message") m.
Definition append_raw (raw : option str) : str :=
  match raw with
  | Some r => if is_empty (trim r) then [] else lit "raw:" ++ [10] ++ concat (map (fun l => lit "  " ++ l ++ [10]) (lines r))
  | None => []
  end.
Definition pad2 (s : str) : str := replicate (2 - length s) 32 ++ s.
Definition hop_line (h : TraceHop) : str :=
  lit "  " ++ pad2 (fmt_dec (th_index h)) ++ lit "  ip=" ++ default [45] (display_ip <$> th_ip h) ++ lit " host=" ++ default [45] (th_host h) ++
  lit " rtt=" ++ default [45] ((fun v => fmt_3 v ++ lit " ms") <$> th_rtt h) ++ lit " timeout=" ++
  (if th_timeout h then lit "true" else lit "false") ++ lit " raw=" ++ th_raw h ++ [10].
Definition section (name : str) (status : CheckStatus) : str := [91] ++ name ++ [93; 10] ++ line_ (lit "status") (status_name status).
Definition duration (ms : Z) : str := line_ (lit "duration") (fmt_dec ms ++ lit " ms").
(** [render_text] *)
Definition render_text (r : EgressReport) : str :=
  let t := rp_target r in
  lit "Rove Hop Egress Doctor" ++ [10] ++ line_ (lit "node_id") (rp_node_id r) ++
  line_ (lit "target") (tg_name t ++ lit " (" ++ protocol_name (tg_protocol t) ++ lit "://" ++ tg_host t ++ [colon] ++ fmt_dec (tg_port t) ++ lit ")") ++
  line_ (lit "selection") (target_source_name (tg_source t)) ++ line_ (lit "started_at") (rp_started_at r) ++
  line_ (lit "timeout") (fmt_dec (rp_timeout_ms r) ++ lit " ms") ++ [10] ++
  section (lit "DNS") (dk_status (rp_dns r)) ++ line_ (lit "resolver") (lit "system") ++ duration (dk_ms (rp_dns r)) ++
  (if is_empty (dk_ips (rp_dns r)) then line_ (lit "ips") (lit "none")
   else concat (map (fun ip => line_ (lit "ip") (display_ip ip)) (dk_ips (rp_dns r)))) ++ append_message (dk_message (rp_dns r)) ++ [10] ++
  section (lit "ROUTE") (ro_status (rp_route r)) ++ duration (ro_ms (rp_route r)) ++
  append_field (lit "destination_ip") (display_ip <$> ro_destination (rp_route r)) ++ append_field (lit "local_addr") (ro_local (rp_route r)) ++
  append_field (lit "gateway") (ro_gateway (rp_route r)) ++ append_field (lit "interface") (ro_interface (rp_route r)) ++
  append_field (lit "tool") (ro_tool (rp_route r)) ++ append_message (ro_message (rp_route r)) ++ append_raw (ro_raw (rp_route r)) ++ [10] ++
  section (lit "TCP") (tc_status (rp_tcp r)) ++ line_ (lit "remote") (tc_remote (rp_tcp r)) ++ duration (tc_ms (rp_tcp r)) ++
  append_field (lit "local_addr") (tc_local (rp_tcp r)) ++ append_field (lit "peer_addr") (tc_peer (rp_tcp r)) ++
  append_message (tc_message (rp_tcp r)) ++ [10] ++
  section (lit "TLS") (tk_status (rp_tls r)) ++ line_ (lit "sni") (tk_sni (rp_tls r)) ++ duration (tk_ms (rp_tls r)) ++
  append_field (lit "version") (tk_version (rp_tls r)) ++ append_field (lit "alpn") (tk_alpn (rp_tls r)) ++
  append_field (lit "peer_certificates") (fmt_dec <$> tk_certs (rp_tls r)) ++ append_message (tk_message (rp_tls r)) ++ [10] ++
  section (lit "HTTP") (hk_status (rp_http r)) ++ line_ (lit "method") (lit "HEAD") ++ duration (hk_ms (rp_http r)) ++
  append_field (lit "code") (fmt_dec <$> hk_code (rp_http r)) ++ append_field (lit "status_line") (hk_status_line (rp_http r)) ++
  append_field (lit "server") (hk_server (rp_http r)) ++ append_field (lit "location") (hk_location (rp_http r)) ++
  append_message (hk_message (rp_http r)) ++ [10] ++
  section (lit "TRACE") (tr_status (rp_trace r)) ++ line_ (lit "max_hops") (fmt_dec (tr_max_hops (rp_trace r))) ++
  append_field (lit "tool") (tr_tool (rp_trace r)) ++ lit "hops:" ++ [10] ++
  (if is_empty (tr_hops (rp_trace r)) then lit "  none" ++ [10] else concat (map hop_line (tr_hops (rp_trace r)))) ++
  append_message (tr_message (rp_trace r)) ++ append_raw (tr_raw (rp_trace r)) ++ [10] ++
  lit "[SUMMARY]" ++ [10] ++ line_ (lit "result") (result_name (rp_result r)) ++ line_ (lit "diagnosis") (rp_summary r).
End Trace.

(** ** What a report says *)

Lemma distinct_spec seen l : NoDup (distinct seen l) /\ (forall a, a ∈ distinct seen l <-> a ∉ seen /\ a ∈ map ip_of l).
Proof.
  revert seen; induction l as [|x l IH]; intros seen; cbn [distinct map].
  - split; [constructor|]. intros a. rewrite !elem_of_nil. tauto.
  - case_bool_decide as Hx.
    + destruct (IH seen) as [Hn Hin]. split; [done|]. intros a. rewrite Hin, elem_of_cons. naive_solver.
    + destruct (IH (ip_of x :: seen)) as [Hn Hin]. split.
      * constructor; [|done]. rewrite Hin, elem_of_cons. tauto.
      * intros a. rewrite !elem_of_cons, Hin, elem_of_cons. destruct (decide (a = ip_of x)) as [->|]; tauto.
Qed.
Lemma preferred_ip_spec ips a : preferred_ip ips = Some a -> a ∈ ips /\ (is_v4 a = false -> forall b, b ∈ ips -> is_v4 b = false).
Proof.
  unfold preferred_ip. destruct (List.find is_v4 ips) as [b|] eqn:E.
  - intros [= ->]. apply find_some in E as [Hin Hv]. rewrite <-list_elem_of_In in Hin. split; [done|]. congruence.
  - destruct ips as [|x ips]; [done|]. intros [= ->]. split; [by left|]. intros _ b Hb. apply (find_none _ _ E). by apply list_elem_of_In.
Qed.

Section Verdict.
Context {FT : FloatText}.

(** The four stages of a report, in order *)
Definition stages (r : EgressReport) : list (str * CheckStatus) :=
  [(lit "DNS", dk_status (rp_dns r)); (lit "TCP", tc_status (rp_tcp r)); (lit "TLS", tk_status (rp_tls r)); (lit "HTTP", hk_status (rp_http r))].
Lemma overall_failed d r t s h tr q :
  overall_result d r t s h tr q = Failed <-> d = CFailed \/ t = CFailed \/ s = CFailed \/ h = CFailed.
Proof. unfold overall_result, status_is. destruct d, r, t, s, h, tr, q; cbn; split; naive_solver. Qed.
Lemma overall_ok d r t s h tr q :
  overall_result d r t s h tr q = AllOk <-> d <> CFailed /\ t <> CFailed /\ s <> CFailed /\ h <> CFailed /\ r = COk /\ (q = true -> tr = COk).
Proof. unfold overall_result, status_is. destruct d, r, t, s, h, tr, q; cbn; split; naive_solver. Qed.
Lemma first_failed_spec (l : list (str * CheckStatus)) n : fst <$> List.find (fun s => status_is (snd s) CFailed) l = Some n ->
  exists before after, l = before ++ (n, CFailed) :: after /\ Forall (fun s => snd s <> CFailed) before.
Proof.
  induction l as [|[m s] l IH]; [done|]. cbn [List.find snd]. unfold status_is at 1. case_bool_decide as Hs.
  - intros [= ->]. exists [], l. subst. by split.
  - intros H. destruct (IH H) as (b & a & -> & Hb). exists ((m, s) :: b), a. split; [done|]. by constructor.
Qed.

(** A stage that is not skipped passes or fails. *)
Lemma check_dns_status p : dk_status (check_dns p) = COk \/ dk_status (check_dns p) = CFailed.
Proof. unfold check_dns. destruct (pr_lookup p) as [addrs| |]; [destruct (is_empty _)|..]; cbn; auto. Qed.
Lemma check_tcp_status t p : tc_status (check_tcp t p) = COk \/ tc_status (check_tcp t p) = CFailed.
Proof. unfold check_tcp. destruct (pr_tcp p) as [[]| |]; cbn; auto. Qed.
Lemma check_http_status t p : hk_status (check_http t p) = COk \/ hk_status (check_http t p) = CFailed.
Proof. unfold check_http. destruct (snd (http_head _ p)) as [h|]; [destruct (ph_code _)|]; cbn; auto. Qed.
Lemma check_tls_status t p :
  tk_status (check_tls t p) = CFailed \/ tk_status (check_tls t p) = (if bool_decide (tg_protocol t = Http) then CSkipped else COk).
Proof.
  unfold check_tls. destruct (tg_protocol _); [rewrite bool_decide_eq_true_2 by done; by right|]. rewrite bool_decide_eq_false_2 by done.
  destruct (pr_server_name _ _); [by left|]. destruct (pr_tls_connect p); [destruct (pr_handshake p)|..]; cbn; auto.
Qed.
(** The evidence of a stage that passed *)
Lemma check_dns_evidence tool p : dk_status (check_dns p) = COk -> exists addrs, pr_lookup p = Done addrs /\ addrs <> [] /\
  NoDup (dk_ips (check_dns p)) /\ (forall a, a ∈ dk_ips (check_dns p) <-> a ∈ map ip_of addrs) /\
  exists ip, ro_destination (check_route tool (preferred_ip (dk_ips (check_dns p))) p) = Some ip /\ ip ∈ dk_ips (check_dns p) /\
    (is_v4 ip = false -> forall b, b ∈ dk_ips (check_dns p) -> is_v4 b = false).
Proof.
  unfold check_dns. destruct (pr_lookup p) as [addrs| |]; [|done..]. destruct (is_empty (distinct [] addrs)) eqn:Ee; [done|]. intros _.
  apply is_empty_false in Ee. cbn [dk_ips]. destruct (distinct_spec [] addrs) as [Hn Hin].
  exists addrs. split; [done|]. split; [by intros ->|]. split; [done|]. split; [intros a; rewrite Hin; set_solver|].
  destruct (preferred_ip (distinct [] addrs)) as [ip|] eqn:Ep.
  - exists ip. destruct (preferred_ip_spec _ _ Ep) as [Hi Hv]. split; [|by split]. unfold check_route.
    destruct (run_route_command tool (pr_route p)) as [[]|]; done.
  - exfalso. unfold preferred_ip in Ep. destruct (List.find _ _); [done|]. by destruct (distinct [] addrs).
Qed.
Lemma http_head_ok t p head : snd (http_head t p) = Ok head -> fst (http_head t p) = Some (head_request t) /\ pr_http_reply p = Done head /\
  (tg_protocol t = Https -> pr_server_name p (tg_host t) = None /\ pr_http_handshake p = Done tt).
Proof.
  unfold http_head. destruct (pr_http_connect p); [|done..].
  destruct (tg_protocol t), (pr_server_name p (tg_host t)), (pr_http_handshake p) as [[]| |]; try done;
    (destruct (pr_http_write p); [done|]; destruct (pr_http_reply p); [|done..]; intros [= ->]; done).
Qed.
Lemma check_http_evidence t p : hk_status (check_http t p) = COk -> exists head code, fst (http_head t p) = Some (head_request t) /\
  pr_http_reply p = Done head /\ ph_code (parse_http_head head) = Some code /\ hk_code (check_http t p) = Some code /\
  (tg_protocol t = Https -> pr_server_name p (tg_host t) = None /\ pr_http_handshake p = Done tt).
Proof.
  unfold check_http. destruct (snd (http_head t p)) as [head|] eqn:E; [|done]. apply http_head_ok in E as (H1 & H2 & H3).
  destruct (ph_code (parse_http_head head)) as [code|] eqn:Ec; [|done]. intros _. exists head, code. done.
Qed.
Lemma failed_stage_iff r : rp_result r = overall_result (dk_status (rp_dns r)) (ro_status (rp_route r)) (tc_status (rp_tcp r)) (tk_status (rp_tls r))
    (hk_status (rp_http r)) (tr_status (rp_trace r)) true \/ rp_result r = overall_result (dk_status (rp_dns r)) (ro_status (rp_route r)) (tc_status (rp_tcp r))
    (tk_status (rp_tls r)) (hk_status (rp_http r)) (tr_status (rp_trace r)) false ->
  rp_result r = Failed <-> exists n, (n, CFailed) ∈ stages r.
Proof.
  intros Hr. assert (rp_result r = Failed <-> dk_status (rp_dns r) = CFailed \/ tc_status (rp_tcp r) = CFailed \/ tk_status (rp_tls r) = CFailed \/
    hk_status (rp_http r) = CFailed) as -> by (destruct Hr as [-> | ->]; apply overall_failed).
  unfold stages. setoid_rewrite elem_of_cons. setoid_rewrite elem_of_cons. setoid_rewrite elem_of_cons. setoid_rewrite list_elem_of_singleton. split.
  - intros [E|[E|[E|E]]]; [exists (lit "DNS"); left|exists (lit "TCP"); right; left|exists (lit "TLS"); do 2 right; left|exists (lit "HTTP"); do 3 right];
      f_equal; symmetry; exact E.
  - intros (n & [E|[E|[E|E]]]); injection E as _ E; symmetry in E; auto.
Qed.

(** The verdict of one probe is the truth about its stages: it fails exactly
    when DNS, TCP, TLS or HTTP did, naming the first of them, is complete only
    when the route (and the trace, if asked for) was found too, and TLS is
    skipped exactly for a plain HTTP target. A stage that passed has its
    evidence: DNS distinct addresses, of which an IPv4 one is preferred, and
    HTTP the status code of a reply to the one HEAD request for the target,
    over TLS when the target asks for it. *)
Lemma doctor_verdict tool c p : let r := run tool c p in let t := dc_target c in
  (rp_result r = Failed <-> exists n, (n, CFailed) ∈ stages r) /\
  (rp_result r = Failed -> exists n before after, stages r = before ++ (n, CFailed) :: after /\ Forall (fun s => snd s <> CFailed) before /\
    rp_summary r = lit "egress failed at " ++ n) /\
  (rp_result r = AllOk <-> dk_status (rp_dns r) = COk /\ tc_status (rp_tcp r) = COk /\ hk_status (rp_http r) = COk /\ ro_status (rp_route r) = COk /\
    tk_status (rp_tls r) = (if bool_decide (tg_protocol t = Http) then CSkipped else COk) /\ (dc_trace c = true -> tr_status (rp_trace r) = COk)) /\
  (dk_status (rp_dns r) = COk -> exists addrs, pr_lookup p = Done addrs /\ addrs <> [] /\ NoDup (dk_ips (rp_dns r)) /\
    (forall a, a ∈ dk_ips (rp_dns r) <-> a ∈ map ip_of addrs) /\
    exists ip, ro_destination (rp_route r) = Some ip /\ ip ∈ dk_ips (rp_dns r) /\ (is_v4 ip = false -> forall b, b ∈ dk_ips (rp_dns r) -> is_v4 b = false)) /\
  (hk_status (rp_http r) = COk -> exists head code, fst (http_head t p) = Some (head_request t) /\ pr_http_reply p = Done head /\
    ph_code (parse_http_head head) = Some code /\ hk_code (rp_http r) = Some code /\
    (tg_protocol t = Https -> pr_server_name p (tg_host t) = None /\ pr_http_handshake p = Done tt)) /\
  (dc_trace c = false -> tr_hops (rp_trace r) = [] /\ tr_status (rp_trace r) = CSkipped).
Proof.
  cbv zeta. set (r := run tool c p). pose proof (check_dns_status p : dk_status (rp_dns r) = COk \/ _) as Hd.
  pose proof (check_tcp_status (dc_target c) p : tc_status (rp_tcp r) = COk \/ _) as Ht.
  pose proof (check_http_status (dc_target c) p : hk_status (rp_http r) = COk \/ _) as Hh.
  pose proof (check_tls_status (dc_target c) p : tk_status (rp_tls r) = CFailed \/ _) as Hs.
  assert (Hr : rp_result r = overall_result (dk_status (rp_dns r)) (ro_status (rp_route r)) (tc_status (rp_tcp r)) (tk_status (rp_tls r))
    (hk_status (rp_http r)) (tr_status (rp_trace r)) (dc_trace c)) by done.
  assert (Hf : rp_result r = Failed <-> exists n, (n, CFailed) ∈ stages r) by (apply failed_stage_iff; destruct (dc_trace c); auto).
  split_and!; [exact Hf| | | | |].
  - intros HF. pose proof (proj1 Hf HF) as (n & Hn).
    assert (exists m, first_failed_stage (dk_status (rp_dns r)) (tc_status (rp_tcp r)) (tk_status (rp_tls r)) (hk_status (rp_http r)) = Some m) as [m Hm].
    { unfold first_failed_stage. fold (stages r). destruct (List.find _ (stages r)) as [s|] eqn:E; [by eexists|].
      apply list_elem_of_In in Hn. pose proof (find_none _ _ E _ Hn) as Hno. by apply bool_decide_eq_false in Hno. }
    pose proof Hm as Hm'. apply first_failed_spec in Hm' as (b & a & Hl & Hb). exists m, b, a. split; [exact Hl|]. split; [done|].
    unfold r, run in HF, Hm |- *. cbn [rp_result rp_summary rp_dns rp_tcp rp_tls rp_http] in HF, Hm |- *. rewrite HF, Hm. done.
  - rewrite Hr, overall_ok.
    assert (Hc : (if bool_decide (tg_protocol (dc_target c) = Http) then CSkipped else COk) <> CFailed) by by case_bool_decide.
    split; [intros (?&?&?&?&?&?); split_and!; tauto|]. intros (->&->&->&->&->&?). split_and!; done.
  - exact (check_dns_evidence tool p).
  - exact (check_http_evidence (dc_target c) p).
  - unfold r. cbn [run rp_trace]. by intros ->.
Qed.
End Verdict.

(** ** An example *)

Module DoctorDemo.
#[export] Instance floats : FloatText := {|
  F64 := list Z; parse_f64 s := if forallb (fun c => is_ascii_digit c || (c =? dot)) s && negb (is_empty s) then Some s else None; fmt_3 s := s
|}.
(** The url crate on two texts *)
#[export] Instance urls : UrlCrate := fun s =>
  if str_eqb s (lit "http://web.example/") then Some (mkUrl (lit "http") [] None None (Some (UrlDomain (lit "web.example"))) (Some 80) [47] None)
  else if str_eqb s (lit "https://[::1]/") then Some (mkUrl (lit "https") [] None None (Some (UrlIpv6 1)) (Some 443) [47] None) else None.
Example preset_alias : select_target 0 (Some (lit " CloudFalre ")) = Ok (preset NamedPreset (lit "cloudflare", lit "www.cloudflare.com")).
Proof. vm_compute. reflexivity. Qed.
Example url_http : select_target 0 (Some (lit "http://web.example/")) = Ok (mkTarget (lit "web.example") (lit "web.example") 80 Http Manual).
Proof. vm_compute. reflexivity. Qed.
Example by_port : select_target 0 (Some (lit "[2001:db8::1]:80")) = Ok (mkTarget (lit "2001:db8::1") (lit "2001:db8::1") 80 Http Manual).
Proof. vm_compute. reflexivity. Qed.
(** The host of an IPv6 URL keeps its brackets: it is not an address and not a
    name, so the lookup and the server name fail. *)
Example ipv6_url_brackets : match select_target 0 (Some (lit "https://[::1]/")) with Ok t => parse_ip_addr (tg_host t) = None /\ tg_host t = lit "[::1]" | Err _ => False end.
Proof. vm_compute. auto. Qed.
(** An IPv6 target of another port is named in the Host field without brackets. *)
Example ipv6_host_header : host_header (mkTarget [] (lit "2001:db8::1") 8443 Https Manual) = lit "2001:db8::1:8443".
Proof. vm_compute. reflexivity. Qed.
Definition reply : list Z := lit "HTTP/1.1 301 Moved" ++ [13; 10] ++ lit "Server: edge" ++ [13; 10] ++ lit "Location: https://x/" ++ [13; 10; 13; 10].
Definition hops : str := lit "traceroute to github.com" ++ [10] ++ lit " 1  gw.lan (192.168.1.1)  0.4 ms" ++ [10] ++ lit " 2  * " ++ [10].
Definition probe : Probe := mkProbe (Done [SockV6 1 443 0 0; SockV4 2354807043 443; SockV6 1 443 0 0]) (Some (SockV4 3232235786 50000))
  (Some (Succeeded (lit "140.82.113.3 via 192.168.1.1 dev eth0 src 192.168.1.10") [])) (Done (None, None)) (Done tt)
  (Done (mkTlsInfo (Some (lit "TLSv1_3")) None (Some 2))) (Done tt) (Done tt) None (Done reply) (fun _ => None) (Some (Succeeded hops [])) None
  (fun _ => 5) (lit "5s") (fun s => s) (lit "now").
Definition github : Target := preset NamedPreset (lit "github", lit "github.com").
Definition report : EgressReport := run (lit "ip") (mkDoctor github true 5000 8 (lit "n")) probe.
Example verdict : (rp_result report, hk_code (rp_http report), hk_location (rp_http report), ro_destination (rp_route report), ro_gateway (rp_route report)) =
  (AllOk, Some 301, Some (lit "https://x/"), Some (V4 2354807043), Some (lit "192.168.1.1")).
Proof. vm_compute. reflexivity. Qed.
Example traced : map (fun h => (th_index h, th_ip h, th_host h, th_rtt h, th_timeout h)) (tr_hops (rp_trace report)) =
  [(1, Some (V4 3232235777), Some (lit "gw.lan"), Some (lit "0.4"), false); (2, None, None, None, true)].
Proof. vm_compute. reflexivity. Qed.
Example first_failure : rp_summary (run (lit "ip") (mkDoctor github false 5000 8 (lit "n"))
  (mkProbe (pr_lookup probe) None None (Done (None, None)) (Done tt) TimedOut (Done tt) TimedOut None (Done reply) (fun _ => None) None None (fun _ => 5) (lit "5s")
    (fun s => s) (lit "now"))) = lit "egress failed at TLS".
Proof. vm_compute. reflexivity. Qed.
End DoctorDemo.
