(* ===== verification/HopCli.v ===== *)
(** * HopCli: the standalone hop's command line (src/src/bin/rove-hop.rs)

    What the arguments, the environment and a Subnetra file give: the listeners
    with their credentials, the reverse edges, the egress resolver, the MQTT
    doctor, and the order in which [main] checks and starts them. The TOML
    decoder is a parameter; the usage text is not modelled. *)

From Stdlib Require Import ZArith Lia String.
From stdpp Require Import prelude strings list gmap.
From S2P Require Import Sniff.
From S2P Require Import Prelude RustStr Net RustFmt Util Frame RelayConfig SubnetraConfig Policy Rab Book Model Engine Cache Service Sync Health.
From S2P Require Import ReverseFrame ReverseUdp ReverseEdge Stats AccessLog ConnectorConfig ConfigFile Listener Daemon HopProxy ReverseHop EgressDoctor Mqtt.

(** ** Values *)

Inductive CliError :=
| NotDoctor | UnknownDoctorCommand (other : str) | RequiresValue (flag : str) | GotOption (flag value : str) | TargetOnce
| BadDuration (value : str) | BadMaxHops (value : str) | UnknownArgument (other : str) | OnePositional | BothTargets
| BadNumber (flag value : str) | ZeroStreams | BadMtu (e : RelayError) | MustFollow (flag : str)
| SubnetraUnreadable (path : str) | SubnetraUnparsed (path : str) | SubnetraNotTun (device : str) | SubnetraBad (e : config_error)
| TlsFilesRequired
| EdgeAddrRequired | NeedsHopId (index : nat) (edge_addr : str) | NeedsToken (index : nat) (edge_addr : str) | EmptyEdgeHopId | EmptyEdgeToken
| BadMqtt (e : HopMqttError) | CredentialsRequired | BadCredentials (e : HopError).

(** [parse_duration], in milliseconds; minutes saturate at [u64::MAX] seconds *)
Definition parse_duration (value : str) : result CliError Z :=
  let value := trim value in
  let number s := ok_or (from_str_radix 10 64 s) (BadDuration value) in
  ensure (negb (is_empty value)) (BadDuration value) ;;
  match strip_suffix (lit "ms") value with
  | Some ms => number ms
  | None =>
      match strip_suffix (lit "s") value with
      | Some secs => secs ← number secs; Ok (secs * 1000)
      | None =>
          match strip_suffix (lit "m") value with
          | Some mins => mins ← number mins; Ok (Z.min (mins * 60) (2 ^ 64 - 1) * 1000)
          | None => secs ← number value; Ok (secs * 1000)
          end
      end
  end.

(** ** The doctor command *)

(** [DoctorArgs]; its time limit in milliseconds *)
Record DoctorArgs := mkDoctorArgs {
  da_target : option str; da_trace : bool; da_json : bool; da_timeout_ms : Z; da_max_hops : Z; da_node_id : str; da_log_level : str; da_help : bool
}.
Definition doctor_defaults (help : bool) : DoctorArgs := mkDoctorArgs None false false 5000 20 (lit "rove-hop") (lit "warn") help.
Definition is_doctor_command (args : list str) : bool := match args with a :: _ => str_eqb a (lit "doctor") | [] => false end.
(** The options without a value, and those with one *)
Definition doctor_switch (flag : str) (d : DoctorArgs) : option DoctorArgs :=
  let '(mkDoctorArgs target trace json timeout hops node level help) := d in
  if str_eqb flag (lit "-h") || str_eqb flag (lit "--help") then Some (mkDoctorArgs target trace json timeout hops node level true)
  else if str_eqb flag (lit "--trace") then Some (mkDoctorArgs target true json timeout hops node level help)
  else if str_eqb flag (lit "--json") then Some (mkDoctorArgs target trace true timeout hops node level help)
  else None.
Definition doctor_max_hops (value : str) : result CliError Z :=
  hops ← ok_or (from_str_radix 10 8 value) (BadMaxHops value);
  ensure ((1 <=? hops) && (hops <=? 64)) (BadMaxHops value) ;;
  Ok hops.
Definition doctor_option (flag : str) (d : DoctorArgs) : option (str -> result CliError DoctorArgs) :=
  let '(mkDoctorArgs target trace json timeout hops node level help) := d in
  if str_eqb flag (lit "--target") then Some (fun v => Ok (mkDoctorArgs (Some v) trace json timeout hops node level help))
  else if str_eqb flag (lit "--timeout") then
    Some (fun v => t ← parse_duration v; Ok (mkDoctorArgs target trace json t hops node level help))
  else if str_eqb flag (lit "--max-hops") then
    Some (fun v => n ← doctor_max_hops v; Ok (mkDoctorArgs target trace json timeout n node level help))
  else if str_eqb flag (lit "--node-id") then Some (fun v => Ok (mkDoctorArgs target trace json timeout hops v level help))
  else if str_eqb flag (lit "--log-level") then Some (fun v => Ok (mkDoctorArgs target trace json timeout hops node v help))
  else None.
Definition with_target (t : option str) (d : DoctorArgs) : DoctorArgs :=
  mkDoctorArgs t (da_trace d) (da_json d) (da_timeout_ms d) (da_max_hops d) (da_node_id d) (da_log_level d) (da_help d).
(** The loop, with the positional target so far; [next_value] is its match on
    what follows an option, which must not look like an option. *)
Fixpoint doctor_loop (d : DoctorArgs) (positional : option str) (args : list str) : result CliError (DoctorArgs * option str) :=
  match args with
  | [] => Ok (d, positional)
  | arg :: rest =>
      match doctor_switch arg d with
      | Some d => doctor_loop d positional rest
      | None =>
          match doctor_option arg d with
          | Some set =>
              ensure (negb (str_eqb arg (lit "--target")) || bool_decide (da_target d = None)) TargetOnce ;;
              match rest with
              | [] => Err (RequiresValue arg)
              | value :: rest =>
                  ensure (negb (starts_with_dash value)) (GotOption arg value) ;;
                  d ← set value;
                  doctor_loop d positional rest
              end
          | None =>
              if starts_with_dash arg then Err (UnknownArgument arg)
              else ensure (bool_decide (positional = None)) OnePositional ;; doctor_loop d (Some arg) rest
          end
      end
  end.
(** [DoctorArgs::parse] *)
Definition doctor_parse (args : list str) : result CliError DoctorArgs :=
  ensure (is_doctor_command args) NotDoctor ;;
  match tail args with
  | [] => Ok (doctor_defaults true)
  | sub :: rest =>
      if str_eqb sub (lit "egress") then
        r ← doctor_loop (doctor_defaults false) None rest;
        let '(d, positional) := r in
        ensure (bool_decide (da_target d = None) || bool_decide (positional = None)) BothTargets ;;
        Ok (match da_target d with None => with_target positional d | Some _ => d end)
      else if str_eqb sub (lit "-h") || str_eqb sub (lit "--help") then Ok (doctor_defaults true)
      else Err (UnknownDoctorCommand sub)
  end.

(** ** The hop's arguments *)

(** [ReverseEdgeArg] *)
Record ReverseEdgeArg := mkEdgeArg {
  ea_edge_addr : str; ea_hop_id : option str; ea_token : option str; ea_edge_id : option str; ea_server_name : option str;
  ea_skip_cert_verify : bool; ea_max_streams : option Z; ea_initial_mtu : option Z
}.
Definition edge_arg (addr : str) : ReverseEdgeArg := mkEdgeArg addr None None None None false None None.
(** [Args], its fields grouped by the flags that set them: the listeners asked
    for and what they need, the reverse edges, the resolver, the MQTT doctor and
    the access log *)
Record ProxyArgs := mkProxyArgs {
  pa_https : list str; pa_socks5 : list str; pa_socks5tls : list str; pa_tls_cert : option str; pa_tls_key : option str;
  pa_username : option str; pa_password : option str; pa_log_level : str; pa_node_id : str
}.
Record ReverseArgs := mkReverseArgs {
  ra_edges : list ReverseEdgeArg; ra_global_max_streams : Z; ra_default_hop_id : option str; ra_default_token : option str
}.
Record DnsArgs := mkDnsArgs {
  na_servers : list str; na_protocol : str; na_tls_server_name : str; na_doh_path : str; na_ca : str; na_insecure : bool
}.
Record MqttArgs := mkMqttArgs {
  ma_broker : str; ma_hop_id : option str; ma_username : str; ma_password : option str; ma_reply_prefix : str; ma_client_id : str
}.
Record Args := mkArgs {
  ar_proxy : ProxyArgs; ar_reverse : ReverseArgs; ar_dns : DnsArgs; ar_mqtt : MqttArgs; ar_access_log : AccessLogConfig;
  ar_subnetra : option SubnetraConfig; ar_help : bool
}.
Definition hop_access_log : AccessLogConfig :=
  mkAccessLogConfig true (lit "./logs") (lit "access") 7 8192 (mkSyslogConfig false [] (lit "udp") (lit "local0") (lit "rove-hop")).
Definition args_default : Args :=
  mkArgs (mkProxyArgs [] [] [] None None None None (lit "info") (lit "rove-hop")) (mkReverseArgs [] 0 None None)
    (mkDnsArgs [] (lit "udp") [] [] [] false) (mkMqttArgs [] None [] None (lit "rove/replies/") []) hop_access_log None false.
Definition set_proxy (p : ProxyArgs) (a : Args) : Args :=
  mkArgs p (ar_reverse a) (ar_dns a) (ar_mqtt a) (ar_access_log a) (ar_subnetra a) (ar_help a).
Definition set_reverse (r : ReverseArgs) (a : Args) : Args :=
  mkArgs (ar_proxy a) r (ar_dns a) (ar_mqtt a) (ar_access_log a) (ar_subnetra a) (ar_help a).
Definition set_dns (d : DnsArgs) (a : Args) : Args :=
  mkArgs (ar_proxy a) (ar_reverse a) d (ar_mqtt a) (ar_access_log a) (ar_subnetra a) (ar_help a).
Definition set_mqtt (m : MqttArgs) (a : Args) : Args :=
  mkArgs (ar_proxy a) (ar_reverse a) (ar_dns a) m (ar_access_log a) (ar_subnetra a) (ar_help a).
Definition set_log (l : AccessLogConfig) (a : Args) : Args :=
  mkArgs (ar_proxy a) (ar_reverse a) (ar_dns a) (ar_mqtt a) l (ar_subnetra a) (ar_help a).
Definition set_subnetra (s : SubnetraConfig) (a : Args) : Args :=
  mkArgs (ar_proxy a) (ar_reverse a) (ar_dns a) (ar_mqtt a) (ar_access_log a) (Some s) (ar_help a).
Definition set_help (a : Args) : Args :=
  mkArgs (ar_proxy a) (ar_reverse a) (ar_dns a) (ar_mqtt a) (ar_access_log a) (ar_subnetra a) true.

(** *** The flags *)

(** [last_mut] with its update; [None] for an empty list *)
Fixpoint update_last {A} (f : A -> A) (l : list A) : option (list A) :=
  match l with [] => None | [x] => Some [f x] | x :: l => cons x <$> update_last f l end.
Definition with_edges (edges : list ReverseEdgeArg) (r : ReverseArgs) : ReverseArgs :=
  mkReverseArgs edges (ra_global_max_streams r) (ra_default_hop_id r) (ra_default_token r).
(** A flag of the most recent [--reverse-quic] *)
Definition on_last_edge (flag : str) (f : ReverseEdgeArg -> ReverseEdgeArg) (r : ReverseArgs) : result CliError ReverseArgs :=
  edges ← ok_or (update_last f (ra_edges r)) (MustFollow flag); Ok (with_edges edges r).
Definition number {A} (w : Z) (flag value : str) (k : Z -> result CliError A) : result CliError A :=
  n ← ok_or (from_str_radix 10 w value) (BadNumber flag value); k n.

(** A flag that takes a value: what it does with it, in its group *)
Definition setter (A : Type) : Type := option (str -> result CliError A).
Definition sets {A} (f : str -> A) : setter A := Some (fun v => Ok (f v)).
Definition proxy_option (flag : str) (p : ProxyArgs) : setter ProxyArgs :=
  let '(mkProxyArgs https socks5 socks5tls cert key user pass level node) := p in
  let any names := existsb (fun n => str_eqb flag (lit n)) names in
  if any ["--https"; "--https-listen"]%string then sets (fun v => mkProxyArgs (https ++ [v]) socks5 socks5tls cert key user pass level node)
  else if any ["--socks5"; "--socks5-listen"]%string then sets (fun v => mkProxyArgs https (socks5 ++ [v]) socks5tls cert key user pass level node)
  else if any ["--socks5tls"; "--socks5tls-listen"]%string then
    sets (fun v => mkProxyArgs https socks5 (socks5tls ++ [v]) cert key user pass level node)
  else if any ["--tls-cert"]%string then sets (fun v => mkProxyArgs https socks5 socks5tls (Some v) key user pass level node)
  else if any ["--tls-key"]%string then sets (fun v => mkProxyArgs https socks5 socks5tls cert (Some v) user pass level node)
  else if any ["--username"]%string then sets (fun v => mkProxyArgs https socks5 socks5tls cert key (Some v) pass level node)
  else if any ["--password"]%string then sets (fun v => mkProxyArgs https socks5 socks5tls cert key user (Some v) level node)
  else if any ["--log-level"]%string then sets (fun v => mkProxyArgs https socks5 socks5tls cert key user pass v node)
  else if any ["--node-id"]%string then sets (fun v => mkProxyArgs https socks5 socks5tls cert key user pass level v)
  else None.

(** What a value does to the edge it follows *)
Definition edge_option (flag : str) : option (str -> result CliError (ReverseEdgeArg -> ReverseEdgeArg)) :=
  if str_eqb flag (lit "--reverse-edge-id") then
    sets (fun v e => mkEdgeArg (ea_edge_addr e) (ea_hop_id e) (ea_token e) (Some v) (ea_server_name e) (ea_skip_cert_verify e) (ea_max_streams e)
                       (ea_initial_mtu e))
  else if str_eqb flag (lit "--reverse-server-name") then
    sets (fun v e => mkEdgeArg (ea_edge_addr e) (ea_hop_id e) (ea_token e) (ea_edge_id e) (Some v) (ea_skip_cert_verify e) (ea_max_streams e)
                       (ea_initial_mtu e))
  else if str_eqb flag (lit "--reverse-max-streams") then
    Some (fun v => number 32 flag v (fun n => ensure (0 <? n) ZeroStreams ;;
      Ok (fun e => mkEdgeArg (ea_edge_addr e) (ea_hop_id e) (ea_token e) (ea_edge_id e) (ea_server_name e) (ea_skip_cert_verify e) (Some n)
                     (ea_initial_mtu e))))
  else if str_eqb flag (lit "--reverse-initial-mtu") then
    Some (fun v => number 16 flag v (fun n => map_err BadMtu (validate_initial_mtu (Some n)) ;;
      Ok (fun e => mkEdgeArg (ea_edge_addr e) (ea_hop_id e) (ea_token e) (ea_edge_id e) (ea_server_name e) (ea_skip_cert_verify e)
                     (ea_max_streams e) (Some n))))
  else None.
Definition edge_hop_id (v : str) (e : ReverseEdgeArg) : ReverseEdgeArg :=
  mkEdgeArg (ea_edge_addr e) (Some v) (ea_token e) (ea_edge_id e) (ea_server_name e) (ea_skip_cert_verify e) (ea_max_streams e) (ea_initial_mtu e).
Definition edge_token (v : str) (e : ReverseEdgeArg) : ReverseEdgeArg :=
  mkEdgeArg (ea_edge_addr e) (ea_hop_id e) (Some v) (ea_edge_id e) (ea_server_name e) (ea_skip_cert_verify e) (ea_max_streams e) (ea_initial_mtu e).
Definition edge_insecure (e : ReverseEdgeArg) : ReverseEdgeArg :=
  mkEdgeArg (ea_edge_addr e) (ea_hop_id e) (ea_token e) (ea_edge_id e) (ea_server_name e) true (ea_max_streams e) (ea_initial_mtu e).
Definition reverse_option (flag : str) (r : ReverseArgs) : setter ReverseArgs :=
  let '(mkReverseArgs edges global hop_id token) := r in
  if str_eqb flag (lit "--reverse-quic") || str_eqb flag (lit "--reverse-edge") then
    sets (fun v => mkReverseArgs (edges ++ [edge_arg v]) global hop_id token)
  else if str_eqb flag (lit "--reverse-hop-id") then
    sets (fun v => match update_last (edge_hop_id v) edges with
                   | Some edges => mkReverseArgs edges global hop_id token
                   | None => mkReverseArgs edges global (Some v) token
                   end)
  else if str_eqb flag (lit "--reverse-token") then
    sets (fun v => match update_last (edge_token v) edges with
                   | Some edges => mkReverseArgs edges global hop_id token
                   | None => mkReverseArgs edges global hop_id (Some v)
                   end)
  else if str_eqb flag (lit "--reverse-global-max-streams") then
    Some (fun v => number 32 flag v (fun n => Ok (mkReverseArgs edges n hop_id token)))
  else match edge_option flag with
       | Some set => Some (fun v => f ← set v; on_last_edge flag f r)
       | None => None
       end.
Definition dns_option (flag : str) (d : DnsArgs) : setter DnsArgs :=
  let '(mkDnsArgs servers protocol name path ca insecure) := d in
  if str_eqb flag (lit "--dns-server") then sets (fun v => mkDnsArgs (servers ++ [v]) protocol name path ca insecure)
  else if str_eqb flag (lit "--dns-protocol") then sets (fun v => mkDnsArgs servers v name path ca insecure)
  else if str_eqb flag (lit "--dns-server-name") then sets (fun v => mkDnsArgs servers protocol v path ca insecure)
  else if str_eqb flag (lit "--dns-doh-path") then sets (fun v => mkDnsArgs servers protocol name v ca insecure)
  else if str_eqb flag (lit "--dns-ca") then sets (fun v => mkDnsArgs servers protocol name path v insecure)
  else None.
Definition mqtt_option (flag : str) (m : MqttArgs) : setter MqttArgs :=
  let '(mkMqttArgs broker hop_id user pass prefix client) := m in
  if str_eqb flag (lit "--mqtt-broker") then sets (fun v => mkMqttArgs v hop_id user pass prefix client)
  else if str_eqb flag (lit "--mqtt-hop-id") then sets (fun v => mkMqttArgs broker (Some v) user pass prefix client)
  else if str_eqb flag (lit "--mqtt-username") then sets (fun v => mkMqttArgs broker hop_id v pass prefix client)
  else if str_eqb flag (lit "--mqtt-password") then sets (fun v => mkMqttArgs broker hop_id user (Some v) prefix client)
  else if str_eqb flag (lit "--mqtt-reply-prefix") then sets (fun v => mkMqttArgs broker hop_id user pass v client)
  else if str_eqb flag (lit "--mqtt-client-id") then sets (fun v => mkMqttArgs broker hop_id user pass prefix v)
  else None.
Definition log_option (flag : str) (l : AccessLogConfig) : setter AccessLogConfig :=
  let '(mkAccessLogConfig enable dir prefix days capacity syslog) := l in
  let '(mkSyslogConfig sys address protocol facility tag) := syslog in
  if str_eqb flag (lit "--access-log-dir") then sets (fun v => mkAccessLogConfig enable v prefix days capacity syslog)
  else if str_eqb flag (lit "--access-log-file-prefix") then sets (fun v => mkAccessLogConfig enable dir v days capacity syslog)
  else if str_eqb flag (lit "--access-log-retention-days") then
    Some (fun v => number 32 flag v (fun n => Ok (mkAccessLogConfig enable dir prefix n capacity syslog)))
  else if str_eqb flag (lit "--access-log-channel-capacity") then
    Some (fun v => number 64 flag v (fun n => Ok (mkAccessLogConfig enable dir prefix days n syslog)))
  else if str_eqb flag (lit "--access-log-syslog") then
    sets (fun v => mkAccessLogConfig enable dir prefix days capacity (mkSyslogConfig true v protocol facility tag))
  else if str_eqb flag (lit "--access-log-syslog-protocol") then
    sets (fun v => mkAccessLogConfig enable dir prefix days capacity (mkSyslogConfig sys address v facility tag))
  else if str_eqb flag (lit "--access-log-syslog-facility") then
    sets (fun v => mkAccessLogConfig enable dir prefix days capacity (mkSyslogConfig sys address protocol v tag))
  else if str_eqb flag (lit "--access-log-syslog-tag") then
    sets (fun v => mkAccessLogConfig enable dir prefix days capacity (mkSyslogConfig sys address protocol facility v))
  else None.

(** ** Parsing *)

(** What the hop reads outside: the node's surroundings, a file's text, and the
    TOML decoder for a file with a [subnetra] section and for a bare section *)
Record HopMachine {T : TlsLib} := mkHopMachine {
  hp_machine : Machine; hp_read : str -> option str; hp_wrapped : str -> option (option SubnetraConfig); hp_plain : str -> option SubnetraConfig;
  hp_nanos : Z
}.
#[global] Arguments mkHopMachine {T} _ _ _ _ _.

Section HopCli.
Context {N : Ipnet} {T : TlsLib} {UC : UrlCrate}.
Context (m : HopMachine).

(** [load_subnetra_config] *)
Definition enabled (c : SubnetraConfig) : SubnetraConfig :=
  mkSubnetraConfig true (sc_mode c) (sc_local_id c) (sc_listen c) (sc_overlay_cidr c) (sc_obfuscate c) (sc_keepalive_secs c) (sc_mtu c)
    (sc_device c) (sc_tun c) (sc_proxy_protocol c) (sc_proxy_port c) (sc_peers c).
Definition load_subnetra_config (path : str) : result CliError SubnetraConfig :=
  raw ← ok_or (hp_read m path) (SubnetraUnreadable path);
  cfg ← match hp_wrapped m raw with
        | Some (Some sn) => Ok sn
        | Some None | None => ok_or (hp_plain m raw) (SubnetraUnparsed path)
        end;
  let cfg := enabled cfg in
  ensure (eq_ignore_ascii_case (trim (sc_device cfg)) (lit "tun")) (SubnetraNotTun (sc_device cfg)) ;;
  map_err SubnetraBad (SubnetraConfig.to_runtime cfg) ;;
  Ok cfg.

(** The options of [Args::parse] without a value, and those with one *)
Definition args_switch (flag : str) (a : Args) : option (result CliError Args) :=
  if str_eqb flag (lit "-h") || str_eqb flag (lit "--help") then Some (Ok (set_help a))
  else if str_eqb flag (lit "--reverse-insecure") then
    Some (r ← on_last_edge flag edge_insecure (ar_reverse a); Ok (set_reverse r a))
  else if str_eqb flag (lit "--dns-insecure") then
    let d := ar_dns a in
    Some (Ok (set_dns (mkDnsArgs (na_servers d) (na_protocol d) (na_tls_server_name d) (na_doh_path d) (na_ca d) true) a))
  else if str_eqb flag (lit "--access-log-disable") then
    let l := ar_access_log a in
    Some (Ok (set_log (mkAccessLogConfig false (al_dir l) (al_file_prefix l) (al_retention_days l) (al_channel_capacity l) (al_syslog l)) a))
  else None.
Definition lift {A} (put : A -> Args -> Args) (a : Args) (s : setter A) : setter Args :=
  match s with Some f => Some (fun v => x ← f v; Ok (put x a)) | None => None end.
Definition or_else {A} (s t : setter A) : setter A := match s with Some f => Some f | None => t end.
Definition args_option (flag : str) (a : Args) : setter Args :=
  if str_eqb flag (lit "--subnetra-config") then Some (fun v => s ← load_subnetra_config v; Ok (set_subnetra s a))
  else
    or_else (lift set_proxy a (proxy_option flag (ar_proxy a)))
      (or_else (lift set_reverse a (reverse_option flag (ar_reverse a)))
         (or_else (lift set_dns a (dns_option flag (ar_dns a)))
            (or_else (lift set_mqtt a (mqtt_option flag (ar_mqtt a))) (lift set_log a (log_option flag (ar_access_log a)))))).
(** The loop of [Args::parse] *)
Fixpoint args_loop (a : Args) (args : list str) : result CliError Args :=
  match args with
  | [] => Ok a
  | flag :: rest =>
      match args_switch flag a with
      | Some r => a ← r; args_loop a rest
      | None =>
          match args_option flag a with
          | Some set =>
              match rest with
              | [] => Err (RequiresValue flag)
              | value :: rest => ensure (negb (starts_with_dash value)) (GotOption flag value) ;; a ← set value; args_loop a rest
              end
          | None => Err (UnknownArgument flag)
          end
      end
  end.
(** What follows the loop: the TLS files the listeners need, then the listeners;
    [None] stands for the panic of [expect]. *)
Definition needs_tls (p : ProxyArgs) : bool := negb (is_empty (pa_https p)) || negb (is_empty (pa_socks5tls p)).
Definition named (kind : string) (i : nat) : str := lit kind ++ lit "-" ++ fmt_dec (Z.of_nat i + 1).
Definition tls_files (p : ProxyArgs) : option TlsFiles :=
  cert ← pa_tls_cert p; key ← pa_tls_key p; Some (HopProxy.mkTlsFiles cert key).
Definition listeners_of (p : ProxyArgs) : option (list HopListener) :=
  https ← mapM (fun x => hop_https (fst x) (snd x) <$> tls_files p) (imap (fun i l => (named "https" i, l)) (pa_https p));
  socks5tls ← mapM (fun x => hop_socks5tls (fst x) (snd x) <$> tls_files p) (imap (fun i l => (named "socks5tls" i, l)) (pa_socks5tls p));
  Some (https ++ imap (fun i l => hop_socks5 (named "socks5" i) l) (pa_socks5 p) ++ socks5tls).
(** [Args::parse], with the field [listeners] *)
Definition args_parse (args : list str) : result CliError (Args * option (list HopListener)) :=
  a ← args_loop args_default args;
  ensure (negb (needs_tls (ar_proxy a)) || (bool_decide (is_Some (pa_tls_cert (ar_proxy a))) && bool_decide (is_Some (pa_tls_key (ar_proxy a)))))
    TlsFilesRequired ;;
  Ok (a, listeners_of (ar_proxy a)).

(** ** What the arguments configure *)

(** [Args::credentials_with_env] *)
Definition credentials_with_env (p : ProxyArgs) (listeners : list HopListener) (env_username env_password : option str) : result CliError Credentials :=
  match first_non_empty [pa_username p; env_username], first_non_empty [pa_password p; env_password] with
  | Some username, Some password => map_err BadCredentials (credentials_new username password)
  | _, _ =>
      if is_empty listeners then map_err BadCredentials (credentials_new DEFAULT_USERNAME DEFAULT_PASSWORD) else Err CredentialsRequired
  end.
(** [Args::credentials] *)
Definition credentials (p : ProxyArgs) (listeners : list HopListener) : result CliError Credentials :=
  credentials_with_env p listeners (mc_env (hp_machine m) (lit "Rove_HOP_USERNAME")) (mc_env (hp_machine m) (lit "Rove_HOP_PASSWORD")).
(** [Args::dns_config] *)
Definition dns_config (d : DnsArgs) : DnsConfig :=
  mkDnsConfig (na_servers d) (na_protocol d) (ConfigFile.dc_timeout_ms DnsConfig_default) (dc_attempts DnsConfig_default) (dc_ipv4_first DnsConfig_default)
    (dc_cache_size DnsConfig_default) (na_tls_server_name d) (na_doh_path d) (na_ca d) (na_insecure d).

Definition DEFAULT_EDGE_MAX_STREAMS : Z := 256.
Record ReverseHopClientConfig := mkHopClient { hk_edges : list ReverseEdgeConfig; hk_global_max_streams : Z; hk_node_id : str }.
Definition or_option {A} (a b : option A) : option A := match a with Some x => Some x | None => b end.
Definition client_edge (r : ReverseArgs) (env_token : option str) (idx : nat) (e : ReverseEdgeArg) : result CliError ReverseEdgeConfig :=
  ensure (negb (is_empty (trim (ea_edge_addr e)))) EdgeAddrRequired ;;
  hop_id ← ok_or (or_option (ea_hop_id e) (ra_default_hop_id r)) (NeedsHopId (idx + 1) (ea_edge_addr e));
  token ← ok_or (or_option (or_option (ea_token e) (ra_default_token r)) env_token) (NeedsToken (idx + 1) (ea_edge_addr e));
  ensure (negb (is_empty (trim hop_id))) EmptyEdgeHopId ;;
  ensure (negb (is_empty (trim token))) EmptyEdgeToken ;;
  Ok (mkEdgeConfig (ea_edge_addr e) (default [] (ea_server_name e)) hop_id token (ea_edge_id e) (ea_skip_cert_verify e)
        (default DEFAULT_EDGE_MAX_STREAMS (ea_max_streams e)) (ea_initial_mtu e)).
Fixpoint client_edges (r : ReverseArgs) (env_token : option str) (idx : nat) (l : list ReverseEdgeArg) : result CliError (list ReverseEdgeConfig) :=
  match l with [] => Ok [] | e :: l => c ← client_edge r env_token idx e; cs ← client_edges r env_token (S idx) l; Ok (c :: cs) end.
(** [Args::reverse_client_config] *)
Definition reverse_client_config (a : Args) : result CliError (option ReverseHopClientConfig) :=
  let r := ar_reverse a in
  if is_empty (ra_edges r) then Ok None
  else
    edges ← client_edges r (mc_env (hp_machine m) (lit "Rove_HOP_REVERSE_TOKEN")) 0 (ra_edges r);
    Ok (Some (mkHopClient edges (ra_global_max_streams r) (pa_node_id (ar_proxy a)))).
(** [Args::mqtt_config] *)
Definition hop_mqtt_config (a : Args) : result CliError (option HopMqttConfig) :=
  let q := ar_mqtt a in
  if is_empty (trim (ma_broker q)) then Ok None
  else
    let hop_id := default (pa_node_id (ar_proxy a)) (or_option (ma_hop_id q) (ra_default_hop_id (ar_reverse a))) in
    let username := if is_empty (trim (ma_username q)) then default [] (mc_env (hp_machine m) (lit "Rove_HOP_MQTT_USERNAME")) else ma_username q in
    let password := default [] (or_option (ma_password q) (mc_env (hp_machine m) (lit "Rove_HOP_MQTT_PASSWORD"))) in
    let cfg := mkHopMqtt (ma_broker q) hop_id (ma_client_id q) username password (ma_reply_prefix q) in
    map_err BadMqtt (validate cfg) ;;
    Ok (Some cfg).

(** ** [main] *)

Inductive HopMainError :=
| BadCli (e : CliError) | BadTarget (e : TargetError) | NoRole | HopDns (e : ConfigError) | HopResolver (e : ResolverError) | HopLog (e : BootError)
| TunFailed (e : BootError) | ExpectPanic.
Inductive HopEvent := ListenerSpawned (l : HopListener) (c : Credentials) | EdgeSpawned (e : ReverseEdgeConfig) | DoctorSpawned (c : HopMqttConfig).
Record HopStart := mkHopStart {
  hs_listeners : list HopListener; hs_credentials : Credentials; hs_reverse : option ReverseHopClientConfig; hs_mqtt : option HopMqttConfig;
  hs_resolver : option ResolverSpec; hs_log : option LogState; hs_tun : option RuntimeConfig
}.
(** The usage text, one diagnostic, or a running hop *)
Inductive HopOutcome := Usage | DoctorUsage | Diagnose (c : DoctorConfig) (json : bool) | Running (s : HopStart).
Definition doctor_main (args : list str) : result HopMainError HopOutcome :=
  d ← map_err BadCli (doctor_parse args);
  if da_help d then Ok DoctorUsage
  else
    target ← map_err BadTarget (select_target (hp_nanos m) (da_target d));
    Ok (Diagnose (mkDoctor target (da_trace d) (da_timeout_ms d) (da_max_hops d) (da_node_id d)) (da_json d)).
(** The checks before anything is spawned *)
Definition hop_prepare (a : Args) (listeners : list HopListener) : result HopMainError HopStart :=
  reverse ← map_err BadCli (reverse_client_config a);
  mqtt ← map_err BadCli (hop_mqtt_config a);
  ensure (negb (is_empty listeners && bool_decide (reverse = None) && bool_decide (ar_subnetra a = None))) NoRole ;;
  settings ← map_err HopDns (to_settings (dns_config (ar_dns a)));
  resolver ← map_err HopResolver (resolver_init (Daemon.mc_tls (hp_machine m)) (mc_builds (hp_machine m)) settings None);
  creds ← map_err BadCli (credentials (ar_proxy a) listeners);
  log ← (if al_enable (ar_access_log a)
         then l ← map_err HopLog (access_log_spawn (hp_machine m) (ar_access_log a) (pa_node_id (ar_proxy a))); Ok (Some l)
         else Ok None);
  Ok (mkHopStart listeners creds reverse mqtt resolver log None).
(** What is spawned, in order *)
Definition hop_spawns (s : HopStart) : list HopEvent :=
  map (fun l => ListenerSpawned l (hs_credentials s)) (hs_listeners s) ++
  match hs_reverse s with Some c => map EdgeSpawned (hk_edges c) | None => [] end ++
  match hs_mqtt s with Some c => [DoctorSpawned c] | None => [] end.
Definition with_tun (rt : RuntimeConfig) (s : HopStart) : HopStart :=
  mkHopStart (hs_listeners s) (hs_credentials s) (hs_reverse s) (hs_mqtt s) (hs_resolver s) (hs_log s) (Some rt).
Definition hop_main (argv : list str) : result HopMainError HopOutcome * list HopEvent :=
  if is_doctor_command argv then (doctor_main argv, [])
  else
    match args_parse argv with
    | Err e => (Err (BadCli e), [])
    | Ok (a, listeners) =>
        match listeners with
        | None => (Err ExpectPanic, [])
        | Some listeners =>
            if ar_help a then (Ok Usage, [])
            else
              match hop_prepare a listeners with
              | Err e => (Err e, [])
              | Ok s =>
                  (match ar_subnetra a with
                   | Some sn => rt ← map_err TunFailed (start_tun (hp_machine m) sn); Ok (Running (with_tun rt s))
                   | None => Ok (Running s)
                   end, hop_spawns s)
              end
        end
    end.
End HopCli.

(** ** What the command line may configure *)

(** [v] stands in the arguments right after one of the flags, and is not itself
    a flag. *)
Definition given (argv : list str) (flags : list string) (v : str) : Prop :=
  exists f pre post, f ∈ flags /\ argv = pre ++ lit f :: v :: post /\ starts_with_dash v = false.
Definition given_opt (argv : list str) (flags : list string) (o : option str) : Prop := forall v, o = Some v -> given argv flags v.
Definition https_flags : list string := ["--https"; "--https-listen"]%string.
Definition socks5_flags : list string := ["--socks5"; "--socks5-listen"]%string.
Definition socks5tls_flags : list string := ["--socks5tls"; "--socks5tls-listen"]%string.
Definition edge_flags : list string := ["--reverse-quic"; "--reverse-edge"]%string.
Record proxy_from (argv : list str) (p : ProxyArgs) : Prop := {
  pf_https : Forall (given argv https_flags) (pa_https p);
  pf_socks5 : Forall (given argv socks5_flags) (pa_socks5 p);
  pf_socks5tls : Forall (given argv socks5tls_flags) (pa_socks5tls p);
  pf_cert : given_opt argv ["--tls-cert"]%string (pa_tls_cert p);
  pf_key : given_opt argv ["--tls-key"]%string (pa_tls_key p);
  pf_username : given_opt argv ["--username"]%string (pa_username p);
  pf_password : given_opt argv ["--password"]%string (pa_password p)
}.
Record edge_from (argv : list str) (e : ReverseEdgeArg) : Prop := {
  ef_addr : given argv edge_flags (ea_edge_addr e);
  ef_hop_id : given_opt argv ["--reverse-hop-id"]%string (ea_hop_id e);
  ef_token : given_opt argv ["--reverse-token"]%string (ea_token e);
  ef_streams : forall n, ea_max_streams e = Some n -> 0 < n;
  ef_mtu : mtu_ok (ea_initial_mtu e);
  ef_verify : ea_skip_cert_verify e = true -> lit "--reverse-insecure" ∈ argv
}.
Record reverse_from (argv : list str) (r : ReverseArgs) : Prop := {
  rf_edges : Forall (edge_from argv) (ra_edges r);
  rf_hop_id : given_opt argv ["--reverse-hop-id"]%string (ra_default_hop_id r);
  rf_token : given_opt argv ["--reverse-token"]%string (ra_default_token r)
}.
(** A value read from the arguments or, without it, from the environment *)
Definition sourced (argv : list str) (flag : string) (env : option str) (v : str) : Prop := given argv [flag] v \/ env = Some v.

(** The binary names a listener, and never hands out credentials of its own. *)
Record listener_from (argv : list str) (l : HopListener) : Prop := {
  lf_listen : given argv match hl_protocol l with HopProxy.Https => https_flags | PlainSocks5 => socks5_flags | Socks5Tls => socks5tls_flags end (hl_listen l);
  lf_tls : match hl_tls l with
           | Some t => requires_tls (hl_protocol l) = true /\ given argv ["--tls-cert"]%string (tls_cert t) /\ given argv ["--tls-key"]%string (tls_key t)
           | None => requires_tls (hl_protocol l) = false
           end
}.
Definition operator_credentials (argv : list str) (env : str -> option str) (c : Credentials) : Prop :=
  (exists u, sourced argv "--username" (env (lit "Rove_HOP_USERNAME")) u /\ cr_username c = trim u /\ set_text u) /\
  (exists p, sourced argv "--password" (env (lit "Rove_HOP_PASSWORD")) p /\ cr_password c = trim p /\ set_text p).
Record edge_ready (argv : list str) (env : str -> option str) (e : ReverseEdgeConfig) : Prop := {
  er_addr : given argv edge_flags (ec_edge_addr e) /\ set_text (ec_edge_addr e);
  er_hop_id : given argv ["--reverse-hop-id"]%string (ec_hop_id e) /\ set_text (ec_hop_id e);
  er_token : sourced argv "--reverse-token" (env (lit "Rove_HOP_REVERSE_TOKEN")) (ec_token e) /\ set_text (ec_token e);
  er_streams : 0 < ec_max_streams e;
  er_mtu : mtu_ok (ec_initial_mtu e);
  er_verify : ec_skip_cert_verify e = true -> lit "--reverse-insecure" ∈ argv
}.
Record hop_ready {N : Ipnet} {T : TlsLib} (argv : list str) (env : str -> option str) (s : HopStart) : Prop := {
  hr_listeners : Forall (listener_from argv) (hs_listeners s);
  hr_credentials : hs_listeners s <> [] -> operator_credentials argv env (hs_credentials s);
  hr_edges : forall c, hs_reverse s = Some c -> hk_edges c <> [] /\ Forall (edge_ready argv env) (hk_edges c);
  hr_mqtt : forall c, hs_mqtt s = Some c -> validate c = Ok tt;
  hr_tun : forall rt, hs_tun s = Some rt -> runtime_ok rt /\ exists name manage, rc_device rt = Tun name manage
}.

Section Provenance.
Context (argv : list str).

Lemma given_in (flags : list string) v f pre post : In f flags -> starts_with_dash v = false -> argv = pre ++ lit f :: v :: post -> given argv flags v.
Proof. intros ? ? ?. exists f, pre, post. split_and!; [by apply list_elem_of_In|done..]. Qed.
Lemma given_some flags o v : given argv flags v -> o = Some v -> given_opt argv flags o.
Proof. by intros ? -> ? [= <-]. Qed.
Lemma given_none flags : given_opt argv flags None.
Proof. by intros ?. Qed.

Lemma update_last_Some {A} f (l l' : list A) : update_last f l = Some l' -> exists pre x, l = pre ++ [x] /\ l' = pre ++ [f x].
Proof.
  revert l'; induction l as [|x [|y l] IH]; intros l' H; cbn [update_last] in H; [done| |].
  - injection H as <-. by exists [], x.
  - apply fmap_Some in H as (r & Hr & ->). destruct (IH r Hr) as (pre & z & -> & ->). by exists (x :: pre), z.
Qed.
Lemma update_last_Forall {A} f (P : A -> Prop) (l l' : list A) :
  (forall x, P x -> P (f x)) -> update_last f l = Some l' -> Forall P l -> Forall P l'.
Proof.
  intros Hf (pre & x & -> & ->)%update_last_Some. rewrite !Forall_app, !Forall_singleton. naive_solver.
Qed.

(** One flag with its value, in its place in the arguments *)
Section Step.
Context (flag v : str) (pre post : list str).
Hypothesis Hat : argv = pre ++ flag :: v :: post.
Hypothesis Hv : starts_with_dash v = false.
Lemma given_here flags : existsb (fun n => str_eqb flag (lit n)) flags = true -> given argv flags v.
Proof.
  intros (f & Hin & ->%str_eqb_eq)%existsb_exists. by eapply given_in.
Qed.
Lemma given_this f : str_eqb flag (lit f) = true -> given argv [f] v.
Proof. intros H. apply given_here. cbn. by rewrite H. Qed.

Lemma proxy_option_from p set p' : proxy_option flag p = Some set -> set v = Ok p' -> proxy_from argv p -> proxy_from argv p'.
Proof.
  intros Hset Hp [H1 H2 H3 H4 H5 H6 H7]. destruct p as [https socks5 socks5tls cert key user pass level node]. cbn in H1, H2, H3, H4, H5, H6, H7.
  unfold proxy_option in Hset. cbv beta iota zeta in Hset.
  repeat (match type of Hset with (if ?b then _ else _) = _ => destruct b eqn:E end;
    [injection Hset as <-; injection Hp as <-; apply given_here in E;
     constructor; cbn; first [assumption | (apply Forall_app; split; [assumption|constructor; [exact E|constructor]]) | exact (given_some _ _ _ E eq_refl)]|clear E]).
  discriminate Hset.
Qed.

Lemma edge_option_from set f e : edge_option flag = Some set -> set v = Ok f -> edge_from argv e -> edge_from argv (f e).
Proof.
  clear Hat. unfold edge_option, number. intros Hset Hf [].
  repeat (match type of Hset with (if ?b then _ else _) = _ => destruct b end;
    [injection Hset as <-|]); [..|done]; res_inv.
  - by constructor.
  - by constructor.
  - bools. constructor; try done. cbn. by intros ? [= <-].
  - constructor; try done. cbn. by apply mtu_exact, accepts_ensure.
Qed.

Lemma reverse_option_from r set r' : reverse_option flag r = Some set -> set v = Ok r' -> reverse_from argv r -> reverse_from argv r'.
Proof.
  intros Hset Hr Hok. unfold reverse_option in Hset. destruct r as [edges global hop_id token] eqn:Er.
  destruct Hok as [H1 H2 H3]. cbn in H1, H2, H3.
  destruct (_ || _) eqn:E; [|clear E; destruct (str_eqb flag (lit "--reverse-hop-id")) eqn:E;
    [|clear E; destruct (str_eqb flag (lit "--reverse-token")) eqn:E; [|clear E; destruct (str_eqb flag _) eqn:E;
      [|clear E; destruct (edge_option flag) as [s|] eqn:E; [|done]]]]].
  - injection Hset as <-. injection Hr as <-. constructor; [|done..]. cbn. apply Forall_app. split; [done|]. apply Forall_singleton.
    assert (given argv edge_flags v) by (apply given_here; cbn; by rewrite orb_false_r).
    by constructor.
  - injection Hset as <-. injection Hr as <-. apply given_this in E.
    destruct (update_last _ edges) eqn:Eu; constructor; cbn; try done.
    + eapply update_last_Forall; [|exact Eu|done]. intros e []. constructor; try done. by eapply given_some.
    + by eapply given_some.
  - injection Hset as <-. injection Hr as <-. apply given_this in E.
    destruct (update_last _ edges) eqn:Eu; constructor; cbn; try done.
    + eapply update_last_Forall; [|exact Eu|done]. intros e []. constructor; try done. by eapply given_some.
    + by eapply given_some.
  - injection Hset as <-. unfold number in Hr. res_inv. by constructor.
  - clear Hat. injection Hset as <-. unfold on_last_edge in Hr. res_inv. constructor; [|done..]. cbn.
    eapply update_last_Forall; [|eassumption|done]. intros e. by eapply edge_option_from.
Qed.
End Step.
End Provenance.

(** ** What [main] starts *)

Section HopCliProps.
Context {N : Ipnet} {T : TlsLib} {UC : UrlCrate}.
Context (m : HopMachine) (argv : list str).

Record args_from (a : Args) : Prop := {
  af_proxy : proxy_from argv (ar_proxy a);
  af_reverse : reverse_from argv (ar_reverse a);
  af_subnetra : forall s, ar_subnetra a = Some s -> exists path, load_subnetra_config m path = Ok s
}.
Lemma args_default_from : args_from args_default.
Proof. by repeat constructor. Qed.
Lemma args_switch_from flag a r a' : flag ∈ argv -> args_switch flag a = Some r -> r = Ok a' -> args_from a -> args_from a'.
Proof.
  intros Hin Hs Hr []. unfold args_switch in Hs. cbv zeta in Hs.
  destruct (_ || _); [|destruct (str_eqb flag (lit "--reverse-insecure")) eqn:E; [|clear E; destruct (str_eqb flag _); [|destruct (str_eqb flag _); [|done]]]];
    injection Hs as <-; res_inv; try by constructor.
  apply str_eqb_eq in E. subst flag. unfold on_last_edge in Hv. res_inv.
  destruct af_reverse0. constructor; [done| |done]. constructor; [|done..]. cbn.
  eapply update_last_Forall; [|eassumption|done]. intros e []. by constructor.
Qed.
Lemma lift_Some {A} (put : A -> Args -> Args) a (s : setter A) set v a' :
  lift put a s = Some set -> set v = Ok a' -> exists f x, s = Some f /\ f v = Ok x /\ a' = put x a.
Proof. unfold lift. destruct s as [f|]; [|done]. intros [= <-] H. res_inv. eauto. Qed.
Lemma args_option_from flag v pre post a set a' : argv = pre ++ flag :: v :: post -> starts_with_dash v = false ->
  args_option m flag a = Some set -> set v = Ok a' -> args_from a -> args_from a'.
Proof.
  intros Hat Hv Hs Ha []. unfold args_option in Hs. destruct (str_eqb _ _).
  { injection Hs as <-. cbv beta in Ha. destruct (load_subnetra_config m v) as [s|] eqn:El; [|done]. injection Ha as <-.
    constructor; [done..|]. cbn. intros ? [= <-]. eauto. }
  destruct (lift set_proxy _ _) as [f|] eqn:E1; cbn [or_else] in Hs.
  { injection Hs as <-. destruct (lift_Some _ _ _ _ _ _ E1 Ha) as (g & x & Hg & Hx & ->). constructor; [by eapply proxy_option_from|done..]. }
  destruct (lift set_reverse _ _) as [f|] eqn:E2; cbn [or_else] in Hs.
  { injection Hs as <-. destruct (lift_Some _ _ _ _ _ _ E2 Ha) as (g & x & Hg & Hx & ->). constructor; [done|by eapply reverse_option_from|done]. }
  destruct (lift set_dns _ _) as [f|] eqn:E3; cbn [or_else] in Hs.
  { injection Hs as <-. by destruct (lift_Some _ _ _ _ _ _ E3 Ha) as (g & x & Hg & Hx & ->). }
  destruct (lift set_mqtt _ _) as [f|] eqn:E4; cbn [or_else] in Hs.
  { injection Hs as <-. by destruct (lift_Some _ _ _ _ _ _ E4 Ha) as (g & x & Hg & Hx & ->). }
  by destruct (lift_Some _ _ _ _ _ _ Hs Ha) as (g & x & Hg & Hx & ->).
Qed.
Lemma args_loop_from n args pre a a' : (length args <= n)%nat -> argv = pre ++ args -> args_from a -> args_loop m a args = Ok a' -> args_from a'.
Proof.
  revert args pre a. induction n as [|n IH]; intros [|flag rest] pre a Hn Hat Ha H; cbn [args_loop] in H; cbn [length] in Hn; try lia;
    try by injection H as <-.
  destruct (args_switch flag a) as [r|] eqn:Es.
  - apply bind_Ok in H as (b & -> & H). eapply (IH rest (pre ++ [flag]) b); [lia|by rewrite <-app_assoc| |done].
    eapply args_switch_from; [|exact Es|done|done]. rewrite Hat. set_solver.
  - destruct (args_option m flag a) as [set|] eqn:Eo; [|done]. destruct rest as [|v rest]; [done|].
    apply bind_Ok in H as (u & Hd%ensure_Ok%negb_true_iff & H). apply bind_Ok in H as (b & Hb & H).
    eapply (IH rest (pre ++ [flag; v]) b); [cbn [length] in Hn; lia|by rewrite <-app_assoc| |done]. by eapply args_option_from.
Qed.

Lemma tls_files_given p t : proxy_from argv p -> tls_files p = Some t ->
  given argv ["--tls-cert"]%string (tls_cert t) /\ given argv ["--tls-key"]%string (tls_key t).
Proof.
  intros [] H. unfold tls_files in H. destruct (pa_tls_cert p) as [c|]; [|done]. destruct (pa_tls_key p) as [k|]; [|done].
  injection H as <-. split; auto.
Qed.
(** The listeners exist as soon as the TLS files are there when needed. *)
Lemma listeners_of_from p l : proxy_from argv p -> listeners_of p = Some l -> Forall (listener_from argv) l.
Proof.
  intros Hp H. unfold listeners_of in H. apply bind_Some in H as (https & Hh & H). apply bind_Some in H as (tls & Ht & [= <-]).
  pose proof (tls_files_given p) as Hg. apply mapM_Some in Hh, Ht.
  assert (Hmem : forall (kind : string) (ls : list str) x, x ∈ imap (fun i l => (named kind i, l)) ls -> snd x ∈ ls).
  { intros kind ls x (i & y & -> & Hy)%elem_of_lookup_imap. cbn. by eapply list_elem_of_lookup_2. }
  pose proof Hp as [P1 P2 P3 P4 P5 P6 P7]. rewrite Forall_forall in P1, P2, P3.
  rewrite !Forall_app. split_and!; apply Forall_forall.
  - intros x Hx. apply list_elem_of_lookup in Hx as [i Hi]. destruct (Forall2_lookup_r _ _ _ _ _ Hh Hi) as (y & Hy & Hxy).
    apply fmap_Some in Hxy as (t & Et & ->). destruct (Hg t Hp Et). constructor; cbn; [|done].
    apply P1, (Hmem "https"%string). by eapply list_elem_of_lookup_2.
  - intros x (i & y & -> & Hy)%elem_of_lookup_imap. constructor; cbn; [|done]. apply P2. by eapply list_elem_of_lookup_2.
  - intros x Hx. apply list_elem_of_lookup in Hx as [i Hi]. destruct (Forall2_lookup_r _ _ _ _ _ Ht Hi) as (y & Hy & Hxy).
    apply fmap_Some in Hxy as (t & Et & ->). destruct (Hg t Hp Et). constructor; cbn; [|done].
    apply P3, (Hmem "socks5tls"%string). by eapply list_elem_of_lookup_2.
Qed.
Lemma listeners_of_total p : needs_tls p = false \/ is_Some (tls_files p) -> is_Some (listeners_of p).
Proof.
  intros [H|[t Ht]]; unfold listeners_of.
  - unfold needs_tls in H. apply orb_false_iff in H as [H1%negb_false_iff%is_empty_true H2%negb_false_iff%is_empty_true]. rewrite H1, H2. cbn. eauto.
  - rewrite Ht.
    cbn [fmap option_fmap option_map].
    assert (Hall : forall (f : str * str -> HopListener) l, is_Some (mapM (fun x => Some (f x)) l)).
    { intros f l. apply mapM_is_Some_2, Forall_forall. eauto. }
    destruct (Hall (fun x => hop_https (fst x) (snd x) t) (imap (fun i l => (named "https" i, l)) (pa_https p))) as [a Ha].
    destruct (Hall (fun x => hop_socks5tls (fst x) (snd x) t) (imap (fun i l => (named "socks5tls" i, l)) (pa_socks5tls p))) as [b Hb].
    rewrite Ha, Hb. cbn. eauto.
Qed.

(** Credentials come from the operator, or serve no listener. *)
Lemma first_non_empty_two flag o env v : given_opt argv [flag] o -> first_non_empty [o; env] = Some v ->
  exists raw, sourced argv flag env raw /\ v = trim raw /\ v <> [].
Proof.
  intros Ho H. unfold first_non_empty in H. apply find_some in H as [Hin Hne%negb_true_iff%is_empty_false].
  apply list_elem_of_In, list_elem_of_omap in Hin as (w & Hw & Hv). apply fmap_Some in Hv as (raw & -> & ->).
  exists raw. split; [|done]. apply elem_of_cons in Hw as [Hw|Hw%list_elem_of_singleton]; [left|right]; auto.
Qed.
Lemma credentials_from p listeners c : proxy_from argv p -> credentials m p listeners = Ok c -> listeners <> [] ->
  operator_credentials argv (mc_env (hp_machine m)) c.
Proof.
  intros [] H Hl. unfold credentials, credentials_with_env in H.
  destruct (first_non_empty [pa_username p; _]) as [u|] eqn:Eu; [destruct (first_non_empty [pa_password p; _]) as [q|] eqn:Eq|].
  - apply map_err_Ok in H. unfold credentials_new in H. res_inv.
    destruct (first_non_empty_two "--username" _ _ _ pf_username0 Eu) as (ru & ? & -> & ?).
    destruct (first_non_empty_two "--password" _ _ _ pf_password0 Eq) as (rq & ? & -> & ?).
    split; eexists; split_and!; eauto.
  - by destruct listeners.
  - by destruct listeners.
Qed.
Lemma client_edge_from r idx e c : reverse_from argv r -> edge_from argv e ->
  client_edge r (mc_env (hp_machine m) (lit "Rove_HOP_REVERSE_TOKEN")) idx e = Ok c -> edge_ready argv (mc_env (hp_machine m)) c.
Proof.
  intros [] [] H. unfold client_edge in H. res_inv. bools.
  apply is_empty_false in Hv, Hv2, Hv3.
  constructor; cbn; try done.
  - split; [|done]. unfold or_option in Hv0. destruct (ea_hop_id e); [injection Hv0 as ->|]; auto.
  - split; [|done]. unfold or_option in Hv1. unfold sourced.
    destruct (ea_token e) as [t|]; [left; auto|]. destruct (ra_default_token r) as [t|]; [left|right]; auto.
  - destruct (ea_max_streams e); cbn; [auto|unfold DEFAULT_EDGE_MAX_STREAMS; lia].
Qed.
Lemma client_edges_from r idx l cs : reverse_from argv r -> Forall (edge_from argv) l ->
  client_edges r (mc_env (hp_machine m) (lit "Rove_HOP_REVERSE_TOKEN")) idx l = Ok cs ->
  Forall (edge_ready argv (mc_env (hp_machine m))) cs /\ length cs = length l.
Proof.
  intros Hr. revert idx cs. induction l as [|e l IH]; intros idx cs Hl H; cbn [client_edges] in H; [injection H as <-; by split|].
  inversion Hl; subst. res_inv. destruct (IH _ _ ltac:(done) Hv0). split; [constructor; [by eapply client_edge_from|done]|cbn; congruence].
Qed.
Lemma start_tun_from s rt : start_tun (hp_machine m) s = Ok rt -> runtime_ok rt /\ exists name manage, rc_device rt = Tun name manage.
Proof.
  unfold start_tun. intros H. res_inv. apply to_runtime_ok in Hv. split; [done|].
  destruct (rc_device _) eqn:E; [done|]. eauto.
Qed.
Definition some_role (s : HopStart) : Prop := hs_listeners s <> [] \/ is_Some (hs_reverse s).
Lemma hop_prepare_from a l s : args_from a -> Forall (listener_from argv) l -> hop_prepare m a l = Ok s ->
  hop_ready argv (mc_env (hp_machine m)) s /\ (ar_subnetra a = None -> some_role s) /\ hs_tun s = None.
Proof.
  intros [] Hl H. unfold hop_prepare in H. res_inv.
  assert (Hedges : forall c, v = Some c -> hk_edges c <> [] /\ Forall (edge_ready argv (mc_env (hp_machine m))) (hk_edges c)).
  { unfold reverse_client_config in Hv. intros c ->. destruct (is_empty (ra_edges (ar_reverse a))) eqn:E; [done|]. res_inv.
    injection Hv as <-. destruct (client_edges_from _ _ _ _ af_reverse0 (rf_edges _ _ af_reverse0) Hv6) as [? Hn]. cbn. split; [|done].
    intros ->. apply is_empty_false in E. by destruct (ra_edges (ar_reverse a)). }
  split; [constructor; cbn; try done|split; [|done]].
  - intros Hne. by eapply credentials_from.
  - intros c ->. unfold hop_mqtt_config in Hv0. destruct (is_empty _); [done|]. res_inv. injection Hv0 as <-. by destruct v0.
  - intros Hs. unfold some_role. cbn. destruct l; [right|by left]. destruct v; [eauto|].
    rewrite Hs in Hv1. rewrite !bool_decide_true in Hv1 by done. discriminate Hv1.
Qed.
(** The doctor's trace has 1 to 64 hops. *)
Definition hops_ok (d : DoctorArgs) : Prop := 1 <= da_max_hops d <= 64.
Lemma doctor_switch_hops flag d d' : doctor_switch flag d = Some d' -> hops_ok d -> hops_ok d'.
Proof. unfold doctor_switch. destruct d. repeat case_match; intros [= <-]; done. Qed.
Lemma doctor_option_hops flag d set v d' : doctor_option flag d = Some set -> set v = Ok d' -> hops_ok d -> hops_ok d'.
Proof.
  unfold doctor_option, hops_ok. destruct d. repeat case_match; intros [= <-] Hv ?; unfold doctor_max_hops in Hv; res_inv; bools; cbn; try done; lia.
Qed.
Lemma doctor_loop_hops n args d pos r : (length args <= n)%nat -> hops_ok d -> doctor_loop d pos args = Ok r -> hops_ok (fst r).
Proof.
  revert args d pos. induction n as [|n IH]; intros [|flag rest] d pos Hn Hd H; cbn [doctor_loop] in H; cbn [length] in Hn; try lia;
    try by injection H as <-.
  destruct (doctor_switch flag d) as [d'|] eqn:Es.
  { eapply (IH rest d'); [lia|by eapply doctor_switch_hops|done]. }
  destruct (doctor_option flag d) as [set|] eqn:Eo.
  - apply bind_Ok in H as (u & _ & H). destruct rest as [|v rest]; [done|]. apply bind_Ok in H as (u' & _ & H). apply bind_Ok in H as (d' & Hd' & H).
    eapply (IH rest d'); [cbn [length] in Hn; lia|by eapply doctor_option_hops|done].
  - destruct (starts_with_dash flag); [done|]. apply bind_Ok in H as (u & _ & H). eapply (IH rest d); [lia|done..].
Qed.
Lemma doctor_parse_hops args d : doctor_parse args = Ok d -> hops_ok d.
Proof.
  unfold doctor_parse. intros H. apply bind_Ok in H as (u & _ & H). destruct (tail args) as [|sub rest]; [by injection H as <-|].
  destruct (str_eqb sub _); [|destruct (_ || _); [by injection H as <-|done]].
  apply bind_Ok in H as ([d' pos] & Hl & H). apply bind_Ok in H as (u' & _ & [= <-]).
  apply doctor_loop_hops with (n := length rest) in Hl; [|done|done]. cbn in Hl. by destruct (da_target d').
Qed.

Lemma hop_prepare_no_panic a l : hop_prepare m a l <> Err ExpectPanic.
Proof.
  intros H. unfold hop_prepare in H.
  destruct (reverse_client_config m a); cbn [map_err mbind result_bind] in H; [|done].
  destruct (hop_mqtt_config m a); cbn [map_err mbind result_bind] in H; [|done].
  destruct (negb _); cbn [ensure mbind result_bind] in H; [|done].
  destruct (to_settings _); cbn [map_err mbind result_bind] in H; [|done].
  destruct (resolver_init _ _ _ _); cbn [map_err mbind result_bind] in H; [|done].
  destruct (credentials m _ _); cbn [map_err mbind result_bind] in H; [|done].
  destruct (al_enable _); [|done]. by destruct (access_log_spawn _ _ _).
Qed.

(** What the standalone hop starts from its command line, in every run. The
    TLS files it expects are always there; a run that fails has started nothing, except when the mesh
    device, which is opened last, is what fails; help and diagnostics start
    nothing, and a diagnostic traces 1 to 64 hops. A hop that runs has a role.
    Every listener was named by its own flag and has its TLS files exactly when
    its protocol needs them; every value comes from the argument after its own
    flag or the named variable, and an option is never taken for a value; a
    listener is never served with credentials the operator did not give, nor
    with a blank half; a reverse edge has an address, an identity, a token, a
    positive stream limit and a legal MTU, and skips the verification of its
    certificate only when told to; the MQTT doctor is validated and a mesh
    device is a valid TUN configuration. *)
Theorem hop_main_safe : let '(r, log) := hop_main m argv in
  r <> Err ExpectPanic /\
  (log <> [] -> exists s, hop_ready argv (mc_env (hp_machine m)) s /\ log = hop_spawns s /\
    ((exists e, r = Err (TunFailed e)) \/ (exists s', r = Ok (Running s')))) /\
  (forall c json, r = Ok (Diagnose c json) -> log = [] /\ 1 <= dc_max_hops c <= 64) /\
  (forall s, r = Ok (Running s) ->
    hop_ready argv (mc_env (hp_machine m)) s /\ log = hop_spawns s /\ (some_role s \/ is_Some (hs_tun s)) /\
    (hs_listeners s = [] \/ log <> [])).
Proof.
  unfold hop_main. destruct (is_doctor_command argv).
  { unfold doctor_main. destruct (doctor_parse argv) as [d|e] eqn:Hd; cbn [map_err mbind result_bind]; [|by split_and!].
    destruct (da_help d); [by split_and!|]. destruct (select_target _ _); cbn [map_err mbind result_bind]; [|by split_and!].
    split_and!; [done..| |done]. intros c json [= <- _]. split; [done|]. by apply doctor_parse_hops in Hd. }
  destruct (args_parse m argv) as [[a ls]|e] eqn:Hp; [|by split_and!].
  unfold args_parse in Hp. apply bind_Ok in Hp as (a' & Hl & Hp). apply bind_Ok in Hp as (u & Ht%ensure_Ok & [= -> <-]).
  assert (Ha : args_from a) by (eapply (args_loop_from (length argv) argv []); [lia|done|apply args_default_from|exact Hl]).
  assert (Hls : is_Some (listeners_of (ar_proxy a))).
  { apply listeners_of_total. unfold tls_files. destruct (needs_tls (ar_proxy a)); [right|by left]. cbn [negb orb] in Ht. bools.
    destruct H as [c ->], H0 as [k ->]. cbn. eauto. }
  destruct Hls as [ls Hls]. rewrite Hls. pose proof (listeners_of_from _ _ (af_proxy _ Ha) Hls) as Hfrom.
  destruct (ar_help a); [by split_and!|]. pose proof (hop_prepare_no_panic a ls) as Hnp. destruct (hop_prepare m a ls) as [s|e] eqn:Hs; [|split_and!; [intros [= ->]; by apply Hnp|done..]].
  destruct (hop_prepare_from _ _ _ Ha Hfrom Hs) as (Hready & Hrole & Htun).
  assert (Hlog : hs_listeners s = [] \/ hop_spawns s <> []) by (unfold hop_spawns; destruct (hs_listeners s); [by left|by right]).
  destruct (ar_subnetra a) as [sn|] eqn:En.
  - destruct (start_tun (hp_machine m) sn) as [rt|e] eqn:Ert; cbn [map_err mbind result_bind]; split_and!; try done.
    + intros _. exists s. split_and!; [done..|]. right. by eexists.
    + intros s' [= <-]. split_and!; [|done| |done].
      * destruct Hready. constructor; try done. cbn. intros ? [= <-]. by eapply start_tun_from.
      * right. by eexists.
    + intros _. exists s. split_and!; [done..|]. left. by eexists.
  - split_and!; try done.
    + intros _. exists s. split_and!; [done..|]. right. by eexists.
    + intros s' [= <-]. split_and!; try done. left. auto.
Qed.
End HopCliProps.

(** ** Command lines *)

Module HopCliDemo.
Export DaemonDemo DoctorDemo.
Definition args (l : list string) : list str := map lit l.
(** The environment of a test names no variable; one of a deployment holds the
    credentials. *)
Definition hop_machine (vars : list (str * str)) (decoded : option (option SubnetraConfig)) : HopMachine :=
  mkHopMachine (mkMachine None (fun _ => None) ConfigDemo.env (fun _ => true)
    (fun k => snd <$> List.find (fun v => str_eqb (fst v) k) vars) (fun _ _ => mkAttempt false None None None None) true ∅ true (fun _ _ => 0) 0
    (1800000000 * 10 ^ 9) (fun _ => true) (fun _ => true) (fun _ => true) (fun _ => true))
    (fun p => Some p) (fun _ => decoded) (fun _ => None) 7.
Definition quiet_machine : HopMachine := hop_machine [] None.
Definition started (m : HopMachine) (l : list string) : result HopMainError (list (str * str * Credentials) * list ReverseEdgeConfig) :=
  match hop_main m (args l) with
  | (Ok (Running s), log) => Ok (omap (fun e => match e with ListenerSpawned l c => Some (hl_name l, hl_listen l, c) | _ => None end) log,
                                 omap (fun e => match e with EdgeSpawned e => Some e | _ => None end) log)
  | (Ok _, _) => Ok ([], [])
  | (Err e, _) => Err e
  end.
Example listener_with_flags : started quiet_machine ["--socks5"; "127.0.0.1:1080"; "--username"; "u"; "--password"; "p"]%string =
  Ok ([(lit "socks5-1", lit "127.0.0.1:1080", mkCredentials (lit "u") (lit "p"))], []).
Proof. vm_compute. reflexivity. Qed.
Example listener_with_env : started (hop_machine [(lit "Rove_HOP_USERNAME", lit " u "); (lit "Rove_HOP_PASSWORD", lit "p")] None)
    ["--socks5"; "127.0.0.1:1080"; "--https"; ":8443"; "--tls-key"; "k"; "--tls-cert"; "c"]%string =
  Ok ([(lit "https-1", lit ":8443", mkCredentials (lit "u") (lit "p")); (lit "socks5-1", lit "127.0.0.1:1080", mkCredentials (lit "u") (lit "p"))], []).
Proof. vm_compute. reflexivity. Qed.
Definition refused (l : list string) : option HopMainError := match started quiet_machine l with Err e => Some e | Ok _ => None end.
Example no_credentials : refused ["--socks5"; "127.0.0.1:1080"]%string = Some (BadCli CredentialsRequired).
Proof. vm_compute. reflexivity. Qed.
Example half_credentials : refused ["--socks5"; "127.0.0.1:1080"; "--username"; "u"]%string = Some (BadCli CredentialsRequired).
Proof. vm_compute. reflexivity. Qed.
Example blank_credentials : refused ["--socks5"; "127.0.0.1:1080"; "--username"; "  "; "--password"; ""]%string = Some (BadCli CredentialsRequired).
Proof. vm_compute. reflexivity. Qed.
Example https_needs_files : refused ["--https"; "127.0.0.1:8443"]%string = Some (BadCli TlsFilesRequired).
Proof. vm_compute. reflexivity. Qed.
Example no_role : refused ["--log-level"; "debug"]%string = Some NoRole.
Proof. vm_compute. reflexivity. Qed.
Example option_for_value : refused ["--socks5"; "--log-level"]%string = Some (BadCli (GotOption (lit "--socks5") (lit "--log-level"))).
Proof. vm_compute. reflexivity. Qed.
(** Flags bind to the edge they follow; the shared ones come first. *)
Example two_edges : started quiet_machine
    ["--reverse-token"; "t"; "--reverse-hop-id"; "h"; "--reverse-quic"; "e1:9443"; "--reverse-insecure"; "--reverse-quic"; "e2:9443";
     "--reverse-max-streams"; "8"; "--reverse-token"; "t2"]%string =
  Ok ([], [mkEdgeConfig (lit "e1:9443") [] (lit "h") (lit "t") None true 256 None; mkEdgeConfig (lit "e2:9443") [] (lit "h") (lit "t2") None false 8 None]).
Proof. vm_compute. reflexivity. Qed.
Example edge_without_token : refused ["--reverse-quic"; "e:1"; "--reverse-hop-id"; "h"]%string = Some (BadCli (NeedsToken 1 (lit "e:1"))).
Proof. vm_compute. reflexivity. Qed.
(** The doctor's topic uses the shared hop id, but not the id of an edge. *)
Definition doctor_ids (l : list string) : option (list str) :=
  match args_parse quiet_machine (args l) with
  | Ok (a, _) => match hop_mqtt_config quiet_machine a with Ok (Some c) => Some [hm_hop_id c] | _ => None end
  | Err _ => None
  end.
Example shared_hop_id : doctor_ids ["--reverse-hop-id"; "h"; "--reverse-quic"; "e:1"; "--mqtt-broker"; "tcp://b"]%string = Some [lit "h"].
Proof. vm_compute. reflexivity. Qed.
Example edge_hop_id_unused : doctor_ids ["--reverse-quic"; "e:1"; "--reverse-hop-id"; "h"; "--mqtt-broker"; "tcp://b"]%string = Some [lit "rove-hop"].
Proof. vm_compute. reflexivity. Qed.
Example durations : map (fun s => match parse_duration (lit s) with Ok d => Some d | Err _ => None end) ["250ms"; " 5s"; "1m"; "7"; "abc"; "-1s"]%string =
  [Some 250; Some 5000; Some 60000; Some 7000; None; None].
Proof. vm_compute. reflexivity. Qed.
Definition diagnosed (l : list string) : result HopMainError (option (DoctorConfig * bool)) :=
  match fst (hop_main quiet_machine (args l)) with Ok (Diagnose c json) => Ok (Some (c, json)) | Ok _ => Ok None | Err e => Err e end.
Example doctor_run : diagnosed ["doctor"; "egress"; "api.openai.com:443"; "--timeout"; "750ms"; "--max-hops"; "12"; "--json"]%string =
  Ok (Some (mkDoctor (mkTarget (lit "api.openai.com") (lit "api.openai.com") 443 Https Manual) false 750 12 (lit "rove-hop"), true)).
Proof. vm_compute. reflexivity. Qed.
Example doctor_two_targets : diagnosed ["doctor"; "egress"; "github"; "--target"; "openai"]%string = Err (BadCli BothTargets).
Proof. vm_compute. reflexivity. Qed.
Example doctor_no_hops : diagnosed ["doctor"; "egress"; "--max-hops"; "0"]%string = Err (BadCli (BadMaxHops (lit "0"))).
Proof. vm_compute. reflexivity. Qed.
End HopCliDemo.
